(* ===== verification/_CoqProject ===== *)
-Q . S2P
Prelude.v
Endian.v
Mem.v
Num.v
Sdb.v
Reg.v
RegFacts.v
RegProfile.v
RegBytes.v
EsilState.v
EsilOps.v
EsilParse.v
EsilFrame.v
EsilDemo.v
EsilFlags.v
EsilParseFacts.v
EsilSpec.v
EsilMem.v
EsilWords.v
EsilExpr.v
IoState.v
IoSection.v
IoMap.v
IoUndo.v
IoCore.v
IoMalloc.v
IoWrite.v
IoCache.v
IoSafe.v
IoMemory.v
IoShift.v
IoFile.v
EsilIo.v
ListHeap.v
ListSeg.v
ListFacts.v
ListWhole.v
ListSpec.v
ListSort.v
Buf.v
Leb128.v
Base64.v
Utf8.v
Hex.v
Search.v
SearchFacts.v
Rc4.v
Blowfish.v
Rc6.v
Crypto.v
CryptoFacts.v
AnalRange.v
AnalBlock.v
AnalBlockFacts.v
AnalFcn.v
AnalFacts.v
HashBlocks.v
Md5.v
Md4.v
Sha1.v
Sha2.v
Sha2Facts.v
Crc.v
Checksum.v
Hash.v
HashTable.v
HashTableFacts.v
Names.v
Flags.v
FlagTables.v
FlagFacts.v
Containers.v
Breakpoints.v
BreakpointFacts.v
Calc.v
CalcFacts.v
CalcEval.v
