(* ===== verification/Prelude.v ===== *)
(** * A verification library for the core of radare2

    radare2 is a framework of libraries for reverse engineering.  This
    development models the part of it that gives a meaning to programs: ESIL,
    the small stack language that the analysis plugins emit for every machine
    instruction and that [libr/anal/esil.c] interprets; the register file it
    works on ([libr/reg]); the i/o layer behind its memory accesses ([libr/io]);
    the helpers of [libr/util], [libr/include] and [shlr/sdb] that these call;
    and the libraries beside it that work on the bytes of the layer: the search
    ([libr/search]), the ciphers ([libr/crypto]), the digests and checksums
    ([libr/hash]) and the encodings of text and
    numbers of [libr/util]; the blocks and functions into which the analysis
    cuts a program ([libr/anal/bb.c], [fcn.c]); and what a session keeps about
    a program: names for its addresses ([libr/flag]) and breakpoints
    ([libr/bp]), with the containers of [libr/util] under them.

    ** The parts and their files

    - [Prelude] (this file): machine integers as [Z] with explicit wrap-around
      ([u8] .. [u64], [s8] .. [s64]), undefined behaviour and the state monad
      [M], bounded loops ([for_upto]) and their rules, byte buffers ([blit],
      [at_offset]), and generic lemmas.
    - [Endian]: [libr/include/r_endian.h] and the [UT*_ADD] family.
    - [Mem]: [libr/util/mem.c].  [Num]: [r_num_get] of [libr/util/num.c] and the
      number printer of ESIL.  [Sdb]: [sdb_hash] and [sdb_itoa].
    - [Reg]: the data and operations of [libr/reg/reg.c], [value.c], [arena.c],
      [cond.c], [double.c].  [RegProfile]: the profile scanner of [profile.c].
      [RegFacts], [RegBytes]: what holds of them.
    - [EsilState], [EsilOps], [EsilParse]: [libr/anal/esil.c] in the order of
      the file (state and accesses; the handlers; the operator table and the
      loop) and [esil_stats.c].  [EsilFrame], [EsilFlags], [EsilSpec],
      [EsilParseFacts], [EsilWords], [EsilExpr], [EsilMem]: what holds of them.
      [EsilDemo]: a concrete machine for the witnesses.
    - [IoState]: [libr/include/r_io.h].  [IoSection], [IoMap]: [section.c],
      [map.c].  [IoUndo]: the seek history of [undo.c].  [IoCore]: seeking,
      selecting a map and reading ([io.c], [cache.c], [vio.c], [buffer.c],
      [desc.c], [libr/util/cache.c]).  [IoWrite]: writing, committing, the write
      history, sizes, shifts, opening and closing.  [IoFile]: loading the range
      buffer, extension, reopening, closing everything.  [IoMalloc]: the memory
      device of [p/io_malloc.c].  [IoCache], [IoSafe], [IoMemory], [IoShift]:
      what holds of them.
    - [EsilIo]: ESIL on top of the i/o layer.
    - [ListHeap]: all of [libr/util/list.c], on a heap of nodes.  [ListSeg],
      [ListFacts], [ListWhole]: the segments that such a heap holds and what the
      operations do to them.  [ListSpec]: lists as sequences.  [ListSort]: the
      two sorts.
    - [Buf]: checked accesses to a buffer.  [Leb128], [Base64], [Utf8], [Hex]:
      [uleb128.c], [base64.c], [utf8.c] and [hex.c] of [libr/util].
    - [Search]: [libr/search/search.c] and [keyword.c].  [SearchFacts]: what the
      search finds.
    - [Rc4], [Blowfish], [Rc6]: [crypto_rc4.c], [crypto_blowfish.c] and
      [crypto_rc6.c] of [libr/crypto/p].  [Crypto]: [libr/crypto/crypto.c] with
      these and the ciphers xor, rot, rol, ror and base64.  [CryptoFacts]: what a
      session with a cipher does.
    - [AnalRange]: [libr/util/tinyrange.c], the ranges that a function keeps of
      its blocks, and what the binary search in them finds.  [AnalBlock]:
      [bb.c], [cond.c], [r_anal_op] of [op.c] and the reading of values of
      [value.c] in [libr/anal].  [AnalBlockFacts]: the instructions of a block.
      [AnalFcn]: [libr/anal/fcn.c] but for the walk over the code.
      [AnalFacts]: the blocks of a function and the functions of an analysis.
    - [HashBlocks]: messages taken block by block, their padding and their words.
      [Md5], [Md4], [Sha1], [Sha2], [Crc]: [md5c.c], [md4.c], [sha1.c], [sha2.c],
      [crc16.c] and [crc32.c] of [libr/hash], each with the digest or the bitwise
      check that it computes ([Sha2Facts] for SHA-2).  [Checksum]: [adler32.c],
      [luhn.c], [hamdist.c] and the sums of [hash.c].  [Hash]: the names of the
      algorithms and the object of [state.c].
    - [HashTable]: [libr/util/ht.c], with keys of either width.  [HashTableFacts]:
      its slots, its probes and the finite map that it is.
    - [Names]: hashing, trimming and matching in [libr/util/str.c], and
      [name.c].
    - [Flags]: [flag.c], [spaces.c], [zones.c] and [sort.c] of [libr/flag].
      [FlagTables]: the two tables and the list of flags, and how setting and
      unsetting change them.  [FlagFacts]: what programs of operations do.
    - [Containers]: the queue, the stack and the bitmap of [libr/util], a Module
      each.
    - [Breakpoints]: [bp.c], [io.c], [plugin.c] and [watch.c] of [libr/bp] and the
      instructions of its plugins.  [BreakpointFacts]: what they do to memory.
    - [Calc]: the calculator of [libr/util/calc.c] and what [num.c] builds on it.
      [CalcFacts]: it ends.  [CalcEval]: what it computes, and names of flags in
      expressions.

    ** How they interact

    A machine ([RAnalEsil]) holds an analysis object ([RAnal]) with the register
    file ([RReg]) and the i/o object.  The machine calls the i/o layer through
    two functions ([iob.read_at], [iob.write_at]), which are fields of the class
    [EsilEnv]; what a client installs (hooks, traps, commands, plugins) is in
    the same class and is a parameter.  [EsilMem.EsilMemory] is the contract
    between the two: the theorems on memory operations are proved against it,
    and two implementations discharge it, a flat memory ([EsilMem.flat_memory])
    and the real layer with a memory device ([EsilIo.rio_memory]).  The i/o
    layer calls its plugins through the class [IoState.IoPlugin];
    [IoMalloc.malloc_plugin] is the instance for [malloc://].  A search is given
    the blocks of a range one after the other and keeps its place in the keywords
    between them ([SearchFacts.search_blocks]); keywords come from hexadecimal
    text through [Hex].  An object of [Crypto] hands data to its plugin and
    collects the output; the keys are static variables of the plugins.  The
    analysis calls a disassembler, a parameter ([AnalBlock.plugin]), for every
    instruction; a function keeps its blocks as a sequence, which it sorts as
    [ListSort] says ([ListSort.sorted_data]), and the ranges it looks addresses up
    in are made from it by [AnalFcn.update_tinyrange_bbs].  An object of [Hash]
    holds a context of every digest; the transformations of SHA-2 keep their words
    in the buffer of the context, which may also be the block that they read.
    Flags are kept in two hash tables, one by the hash of the name, which holds
    items, and one by offset, which holds lists of items
    ([FlagTables.cons] is the agreement of the two and the list of all flags);
    the table by offset frees the lists that it loses.  The evaluation of an alias
    is a parameter of the operations, for which [CalcEval.flag_math] is the
    calculator with the flags themselves as names; parameters are also the functions of [iob] through which breakpoints
    read and write memory.

    ** Conventions

    A C function that touches state is a function of the monad [M S A]; its
    outcome is [Ok result state] or [Undef u] where C has undefined behaviour
    (out of bounds, null, shift, signed overflow, division by zero, memory that is
    not initialised or freed).  Pure C functions are
    pure.  Integers are [Z] in their range.  A pointer into a buffer is the list
    of bytes from there on.  Arenas of registers and descriptors are objects
    with an identity in a store, since they are shared.  Allocation succeeds.
    Uninitialised memory is a parameter ([indet_num], [indet_bytes],
    [indet_byte]).  Strings are [string] without null characters.

    Loops: structural recursion where the code walks a list or a string;
    [for_upto n] (a bound that costs nothing until it is run) elsewhere.  The
    bounds are: the number of bytes left in [IoCore.read_loop] and
    [IoWrite.r_io_shift], since each turn consumes one; the length of the range
    in [IoFile.r_io_buffer_load]; [EsilParse.parse_fuel], one turn per character
    for every word of the budget [esil_goto_limit]; the length of the text in
    [RegProfile.profile_loop].  The walks over lists are bounded
    by the number of nodes of the heap.  That they are enough is
    [IoSafe.r_io_read_at_safe], [IoShift.r_io_shift_moves],
    [EsilParseFacts.r_anal_esil_parse_total] and
    [RegProfile.r_reg_set_profile_string_safe] and the theorems on lists.  [IoMap.r_io_map_add_next_available]
    has a fuel, for which 2 is enough when no end wraps.  The encodings walk
    their texts; [Utf8.r_isprint] halves the table, for which ten turns are
    enough ([Utf8.r_isprint_table]).  [Search.scan] has a fuel: the length of the
    block and one are enough without overlaps ([SearchFacts.r_search_finds]), and
    no number is with them ([SearchFacts.r_search_overlap_diverges]).
    [AnalRange.in_loop] has a fuel that is enough for any
    ranges ([AnalRange.r_tinyrange_in_ends]); [AnalBlock.r_anal_bb] has a turn for every byte.
    The padding of SHA-1 takes fewer than 65 turns ([Sha1.sha1_pieces]); the loops over
    blocks have a turn for every byte or block of their input, and those of the table
    of CRC-32 a turn for every bit and every entry.
    [Names.glob_fuel] is enough for every text and pattern
    ([Names.r_str_glob_matches]).  A probe of [HashTable] has a turn for every slot,
    after which it is back at its start, and an insertion rehashes once
    ([HashTableFacts.r_hashtable_refines_map]).  The copy of a queue has a turn for
    every element ([Containers.Queue.r_queue_is_fifo]).  The loops and
    nested calls of the calculator share the bound [Calc.calc_fuel], [4 * (length + 2)]
    for a text of that length ([CalcFacts.r_num_calc_total]).

    ** What the theorems show

    - The interpreter means what it should: [EsilExpr.esil_compile_correct] (the
      text of an arithmetic expression leaves its value),
      [EsilWords.r_anal_esil_parse_words] (the character loop is a machine over
      words), [EsilParseFacts.r_anal_esil_parse_total] (it ends, on every
      string, or is undefined in the command of an operator), and the functional behaviour of the handlers, the flags and the
      memory operations in [EsilSpec], [EsilFlags] and [EsilMem].
    - The register file: writing and reading, sub-registers, saving and
      restoring arenas, serialization, and profiles, after which every register ends
      within its arena ([RegProfile.r_reg_set_profile_string_fits]; offsets may be
      negative, and sums overflow, as the lemmas after it show).
    - The i/o layer: a mapped device is a memory, with the cache of writes and
      without ([IoMemory]); reads are safe and end on every layer without [io.vio] and
      [io.buffer] ([IoSafe]);
      the seek ring is an undo history ([IoUndo]); cached writes, sections,
      maps, shifts and the range buffer do what they promise.
    - The composition: a store of ESIL is what the i/o layer reads afterwards
      ([EsilIo.esil_poke_reaches_device]).
    - Lists: any number of them on one heap refine as many sequences
      ([ListSpec.r_list_refines_sequences]), and [r_list_sort] sorts,
      unless its flag says that it need not ([ListSort.r_list_sort_sorts]).  The other components model a list that
      only one object holds as a sequence, which this justifies.
    - Encodings: what the encoders write the decoders read
      ([Leb128.r_uleb128_roundtrip], [Base64.r_base64_roundtrip],
      [Utf8.r_utf8_roundtrip], [Hex.r_hex_roundtrip]), and text in hexadecimal is
      read safely ([Hex.r_hex_str2bin_safe]).
    - The search: on keywords that do not contain their first byte again it
      reports exactly the occurrences, across blocks, less those that start where
      another ends without [contiguous] ([SearchFacts.r_search_finds]); on others it does not, as the examples
      there show.
    - Ciphers: a session in one direction is read back by one in the other
      ([CryptoFacts.r_crypto_roundtrip]) unless RC6 shifts by 32, which its rotations
      by 0 do and which is undefined, and RC4 keeps a permutation
      ([Rc4.rc4_permutation]).
    - The analysis: the instructions of a block are all laid and are found again but for the last
      ([AnalBlockFacts.r_anal_bb_finds_instructions]), the ranges of a function are
      its blocks, if these are apart and the ranges not exactly two
      ([AnalFacts.r_anal_fcn_in_blocks]), and splitting, resizing and
      fitting keep both ([AnalFacts.r_anal_fcn_split_bb_parts],
      [AnalFacts.r_anal_fcn_resize_cuts], [AnalFacts.r_anal_fcn_fit_overlaps_fits],
      [AnalFacts.functions_start_apart]).
    - Digests and checks: a message given piece by piece has the digest of the whole,
      as the standards define it ([Md5.md5_pieces], [Sha1.sha1_pieces],
      [Sha2Facts.sha2_pieces], [Md4.mdfour_digest]); the object keeps the six digests
      apart ([Hash.r_hash_do_digests]); the table-driven checks are the bitwise ones
      ([Crc.r_hash_crc16_bitwise], [Crc.r_hash_crc32_bitwise]) and detect a changed
      byte ([Crc.crc_ref_byte]), Luhn a changed digit
      ([Checksum.r_hash_luhn_detects]); names of algorithms are read back
      ([Hash.r_hash_names_roundtrip]).
    - Containers: a hash table is a finite map, through all the rehashing
      ([HashTableFacts.r_hashtable_refines_map]); a queue and a stack are sequences
      ([Containers.Queue.r_queue_is_fifo], [Containers.Stack.r_stack_is_lifo]) and a
      bitmap is a set ([Containers.Bitmap.r_bitmap_is_set]); [r_str_glob] is the
      matching of patterns ([Names.r_str_glob_matches]).
    - Flags: no program of operations follows a freed pointer
      ([FlagFacts.flags_never_dangle], within the operations that it names), a
      flag that is set is found ([FlagFacts.r_flag_set_finds]), the last one before
      an offset is found ([FlagFacts.r_flag_get_at_nearest]), the sort sorts
      ([FlagFacts.r_flag_sort_sorts]) and the nearest zones are the nearest
      ([FlagFacts.r_flag_zone_around_nearest]).  Renaming, relocating, a base and
      aliases break the tables, as the lemmas at the end of [FlagFacts] show.
    - The calculator: every text makes it end ([CalcFacts.r_num_calc_total]), and the
      text of an expression gives its value ([CalcEval.r_num_calc_evaluates]), so that
      an alias has the value of its expression ([CalcEval.evalFlag_alias]); the
      lemmas after it show the texts that are not read as expressions.
    - Breakpoints: written and taken out again they leave memory as it was
      ([BreakpointFacts.r_bp_restore_roundtrip]); the lemmas after it show what the
      index, a displacement and the plugins do instead.
    - The helpers: byte orders, overflow checks, searching, parsing numbers.
    - Errors: division by zero; and where the code does not do what it means to
      do, the theorem states what it does ([IoCache.r_io_cache_commit_noop],
      [EsilParseFacts.esil_number_literal_is_command],
      [EsilMem.esil_mem_modeq_leaves_copy], and the lemmas named with them).

    ** Not modelled

    The plugins other than [malloc://] and the calls of the operating system
    behind them; the printing functions ([*_list], [*_visual]); the resolution
    of a plugin from a uri; descriptors without a plugin; [esil2reil.c];
    [r_num_units] and the random numbers of [num.c]; floating point registers beyond their
    bits; C source text and masks in [hex.c] ([r_hex_from_c],
    [r_hex_str2binmask]); the searches for strings, regular expressions,
    references and keys, which are a parameter of [Search.r_search_update]; the
    ciphers rc2, aes, base91, cps2 and punycode; xxhash, the entropy, which is
    floating point with a logarithm, and so [r_hash_calculate], which calls it; the walk of the analysis
    over the code ([fcn_recurse] and what only it calls), its metadata, pointers
    between blocks and callbacks; what [r_flag_free] and [r_flag_get_liststr] do,
    and the traces of [bp/traptrace.c]; the disassemblers, the binary formats, the
    debugger behind the breakpoints, the console and the vendored code under [shlr]. *)

From Stdlib Require Export ZArith Lia Ascii String.
From stdpp Require Export base numbers list strings gmap.
#[global] Open Scope Z_scope.

(** ** Machine integers *)

(** An unsigned [w]-bit integer is a [Z] in [[0, 2^w)]; conversions wrap. *)
Definition u8 (x : Z) : Z := x mod 2 ^ 8.
Definition u16 (x : Z) : Z := x mod 2 ^ 16.
Definition u32 (x : Z) : Z := x mod 2 ^ 32.
Definition u64 (x : Z) : Z := x mod 2 ^ 64.

(** Two's complement reading of the low [w] bits. *)
Definition swrap (w : Z) (x : Z) : Z :=
  let y := x mod 2 ^ w in if y <? 2 ^ (w - 1) then y else y - 2 ^ w.
Definition s8 : Z -> Z := swrap 8.
Definition s16 : Z -> Z := swrap 16.
Definition s32 : Z -> Z := swrap 32.
Definition s64 : Z -> Z := swrap 64.

Definition UT64_MAX : Z := 2 ^ 64 - 1.

(** The C truth value of a comparison. *)
Definition b2z (b : bool) : Z := if b then 1 else 0.

(** A C [int] or [bool] used as a condition. *)
Definition z2b (x : Z) : bool := negb (x =? 0).

(** ** Undefined behaviour and the state monad of the modelled code *)

(** The ways a modelled C function can leave the language: a shift by a
    count outside the width, a signed overflow, an access outside an object,
    the use of a null pointer, a division by zero, a read of uninitialised memory or of
    memory that was freed. *)
Inductive ub : Set := UB_shift | UB_overflow | UB_oob | UB_null | UB_div | UB_uninit | UB_free.

Inductive outcome (S A : Type) : Type :=
  | Ok (a : A) (s : S)
  | Undef (u : ub).
Arguments Ok {S A} a s.
Arguments Undef {S A} u.

Definition M (S A : Type) : Type := S -> outcome S A.

#[export] Instance M_ret {S} : MRet (M S) := fun A a s => Ok a s.
#[export] Instance M_bind {S} : MBind (M S) := fun A B k m s =>
  match m s with Ok a s' => k a s' | Undef u => Undef u end.

Definition gets {S A} (f : S -> A) : M S A := fun s => Ok (f s) s.
Definition modify {S} (f : S -> S) : M S unit := fun s => Ok tt (f s).
Definition undef {S A} (u : ub) : M S A := fun _ => Undef u.
(** A pure computation in which [None] stands for undefined behaviour. *)
Definition lift {S A} (u : ub) (o : option A) : M S A :=
  match o with Some a => mret a | None => undef u end.

(** Running a sequence. *)
Lemma run_bind {S A B} (m : M S A) (k : A -> M S B) s :
  (m ≫= k) s = match m s with Ok a s' => k a s' | Undef u => Undef u end.
Proof. reflexivity. Qed.

Lemma run_ret {S A} (a : A) (s : S) : (mret a : M S A) s = Ok a s.
Proof. reflexivity. Qed.
Lemma run_gets {S A} (f : S -> A) s : gets f s = Ok (f s) s.
Proof. reflexivity. Qed.
Lemma run_modify {S} (f : S -> S) s : modify f s = Ok tt (f s).
Proof. reflexivity. Qed.
Lemma run_lift {S A} u (a : A) (s : S) : lift u (Some a) s = Ok a s.
Proof. reflexivity. Qed.

(** Run a program as far as its primitives go. *)
Ltac mrun :=
  repeat (first [ rewrite run_bind | rewrite run_gets | rewrite run_modify | rewrite run_ret
                | rewrite run_lift | progress change (z2b 0) with false
                | progress change (z2b 1) with true ]; cbv beta iota);
  unfold id; cbv beta iota zeta.

(** The C idiom [for (i = 0; i < n; i++) body] with an early [return]: the
    body maps the loop state to the next one ([inl]) or leaves the function
    ([inr]).  The recursion is on the binary counter, so that a bound such as
    [2^64 - 1] costs nothing unless the iterations really happen. *)
Fixpoint for_pos {S St B} (p : positive) (body : St -> M S (St + B)) (st : St)
    : M S (St + B) :=
  match p with
  | xH => body st
  | xO p =>
      r ← for_pos p body st;
      match r with inl st' => for_pos p body st' | inr b => mret (inr b) end
  | xI p =>
      r ← body st;
      match r with
      | inl st' =>
          r' ← for_pos p body st';
          match r' with inl st'' => for_pos p body st'' | inr b => mret (inr b) end
      | inr b => mret (inr b)
      end
  end.

Definition for_upto {S St B} (n : Z) (body : St -> M S (St + B)) (st : St)
    : M S (St + B) :=
  match n with Zpos p => for_pos p body st | _ => mret (inl st) end.

(** ** Bytes and buffers *)

(** A C buffer is the list of its bytes.  Reading past the end gives 0 and
    writing past it is ignored; every caller that may leave the buffer checks
    the bound itself. *)
Definition byte_at (b : list Z) (i : nat) : Z := default 0 (b !! i).

(** [memcpy (dst, src, n)] with [n = length src], and the same at an offset. *)
Definition blit (src dst : list Z) : list Z := take (length dst) src ++ drop (length src) dst.
Definition at_offset (off : nat) (f : list Z -> list Z) (dst : list Z) : list Z :=
  take off dst ++ f (drop off dst).

Definition is_byte (x : Z) : Prop := 0 <= x < 2 ^ 8.
Definition bytes (l : list Z) : Prop := Forall is_byte l.

(** Little- and big-endian byte strings of a value, and the value of a
    little-endian byte string: the specification of the code's accessors. *)
Fixpoint le_bytes (n : nat) (v : Z) : list Z :=
  match n with O => [] | S n => u8 v :: le_bytes n (Z.shiftr v 8) end.
Definition be_bytes (n : nat) (v : Z) : list Z := reverse (le_bytes n v).
Fixpoint le_val (l : list Z) : Z :=
  match l with [] => 0 | b :: l => b + 2 ^ 8 * le_val l end.
Definition be_val (l : list Z) : Z := le_val (reverse l).

(** ** Characters and C strings *)

(** A C string is the [string] of its characters before the NUL. *)
Definition code (c : ascii) : Z := Z.of_N (N_of_ascii c).
Definition chr (x : Z) : ascii := ascii_of_N (Z.to_N x).
(** [s[i]], the terminating NUL included. *)
Definition char_at (s : string) (i : nat) : ascii :=
  default "000"%char (String.get i s).
(** [s + i]. *)
Fixpoint str_drop (i : nat) (s : string) : string :=
  match i, s with
  | S i, String _ s => str_drop i s
  | _, _ => s
  end.

(** ** Tactics *)

(** Arithmetic with [/] and [mod]. *)
Ltac zlia := Z.div_mod_to_equations; lia.
Ltac ulia := unfold u8, u16, u32, u64, UT64_MAX, is_byte in *; zlia.

(** Bit-extensional equality of integers: reduce to one bit and rewrite. *)
Create Rewrite HintDb zbits.
#[export] Hint Rewrite Z.land_spec Z.lor_spec Z.lxor_spec Z.testbit_0_l : zbits.
#[export] Hint Rewrite Z.shiftr_spec Z.shiftl_spec Z.lnot_spec
  Z.ones_spec_low Z.ones_spec_high Z.mod_pow2_bits_low Z.mod_pow2_bits_high
  Z.testbit_neg_r using lia : zbits.
Ltac zbits :=
  apply Z.bits_inj'; intros ?i ?Hi; autorewrite with zbits.

(** ** Lemmas on machine integers *)

Lemma u8_range x : 0 <= u8 x < 2 ^ 8.
Proof. apply Z.mod_pos_bound; lia. Qed.
Lemma u16_range x : 0 <= u16 x < 2 ^ 16.
Proof. apply Z.mod_pos_bound; lia. Qed.
Lemma u32_range x : 0 <= u32 x < 2 ^ 32.
Proof. apply Z.mod_pos_bound; lia. Qed.
Lemma u64_range x : 0 <= u64 x < 2 ^ 64.
Proof. apply Z.mod_pos_bound; lia. Qed.

Lemma u8_id x : 0 <= x < 2 ^ 8 -> u8 x = x.
Proof. apply Z.mod_small. Qed.
Lemma u16_id x : 0 <= x < 2 ^ 16 -> u16 x = x.
Proof. apply Z.mod_small. Qed.
Lemma u32_id x : 0 <= x < 2 ^ 32 -> u32 x = x.
Proof. apply Z.mod_small. Qed.
Lemma u64_id x : 0 <= x < 2 ^ 64 -> u64 x = x.
Proof. apply Z.mod_small. Qed.

Lemma swrap_range w x : 0 < w -> - 2 ^ (w - 1) <= swrap w x < 2 ^ (w - 1).
Proof.
  intros Hw. unfold swrap.
  pose proof (Z.mod_pos_bound x (2 ^ w) ltac:(apply Z.pow_pos_nonneg; lia)).
  assert (2 ^ w = 2 * 2 ^ (w - 1)) as E
    by (rewrite <- Z.pow_succ_r by lia; f_equal; lia).
  destruct (Z.ltb_spec (x mod 2 ^ w) (2 ^ (w - 1))); lia.
Qed.

Lemma swrap_id w x : 0 < w -> - 2 ^ (w - 1) <= x < 2 ^ (w - 1) -> swrap w x = x.
Proof.
  intros Hw Hx. unfold swrap.
  assert (2 ^ w = 2 * 2 ^ (w - 1)) as E
    by (rewrite <- Z.pow_succ_r by lia; f_equal; lia).
  destruct (Z.ltb_spec x 0).
  - replace (x mod 2 ^ w) with (x + 2 ^ w).
    + destruct (Z.ltb_spec (x + 2 ^ w) (2 ^ (w - 1))); lia.
    + apply Z.mod_unique with (q := -1); lia.
  - rewrite Z.mod_small by lia.
    destruct (Z.ltb_spec x (2 ^ (w - 1))); lia.
Qed.

Lemma s32_id x : - 2 ^ 31 <= x < 2 ^ 31 -> s32 x = x.
Proof. intros Hx. by apply swrap_id. Qed.

Lemma pow2_mod_land x n : 0 <= n -> Z.land x (2 ^ n - 1) = x mod 2 ^ n.
Proof.
  intros. rewrite <- Z.land_ones by lia. f_equal. rewrite Z.ones_equiv. lia.
Qed.

(** Disjoint [or] is addition. *)
Lemma lor_shiftl_add a b n :
  0 <= n -> 0 <= b < 2 ^ n -> Z.lor (Z.shiftl a n) b = a * 2 ^ n + b.
Proof.
  intros Hn Hb. rewrite <- Z.shiftl_mul_pow2 by lia.
  assert (forall i, n <= i -> Z.testbit b i = false) as Hhi.
  { intros i Hi. rewrite <- (Z.mod_small b (2 ^ n)) by lia.
    by rewrite Z.mod_pow2_bits_high by lia. }
  rewrite Z.add_nocarry_lxor.
  - zbits. destruct (Z.ltb_spec i n).
    + by rewrite (Z.testbit_neg_r a) by lia.
    + rewrite Hhi by lia. by destruct (Z.testbit a _).
  - zbits. destruct (Z.ltb_spec i n).
    + by rewrite (Z.testbit_neg_r a) by lia.
    + by rewrite Hhi, andb_false_r by lia.
Qed.

Lemma mod_mod_pow2 x m n : 0 <= m <= n -> (x mod 2 ^ n) mod 2 ^ m = x mod 2 ^ m.
Proof.
  intros. zbits. destruct (Z.ltb_spec i m).
  - by rewrite !Z.mod_pow2_bits_low by lia.
  - by rewrite !Z.mod_pow2_bits_high by lia.
Qed.

(** Bitwise operations stay in the width. *)
Lemma bitop_range (f : Z -> Z -> Z) (g : bool -> bool -> bool) n x y :
  0 <= n -> g false false = false ->
  (forall i, 0 <= i -> Z.testbit (f x y) i = g (Z.testbit x i) (Z.testbit y i)) ->
  0 <= x < 2 ^ n -> 0 <= y < 2 ^ n -> 0 <= f x y < 2 ^ n.
Proof.
  intros Hn Hg Hf Hx Hy.
  assert (f x y = f x y mod 2 ^ n) as ->; [|apply Z.mod_pos_bound; lia].
  apply Z.bits_inj'. intros i Hi. destruct (Z.ltb_spec i n).
  - by rewrite Z.mod_pow2_bits_low by lia.
  - rewrite Z.mod_pow2_bits_high, Hf by lia.
    rewrite <- (Z.mod_small x (2 ^ n)), <- (Z.mod_small y (2 ^ n)) by lia.
    by rewrite !Z.mod_pow2_bits_high by lia.
Qed.

Lemma land_range n x y : 0 <= n -> 0 <= x < 2 ^ n -> 0 <= y < 2 ^ n -> 0 <= Z.land x y < 2 ^ n.
Proof. intros. apply (bitop_range Z.land andb); auto using Z.land_spec. Qed.
Lemma lor_range n x y : 0 <= n -> 0 <= x < 2 ^ n -> 0 <= y < 2 ^ n -> 0 <= Z.lor x y < 2 ^ n.
Proof. intros. apply (bitop_range Z.lor orb); auto using Z.lor_spec. Qed.
Lemma lxor_range n x y : 0 <= n -> 0 <= x < 2 ^ n -> 0 <= y < 2 ^ n -> 0 <= Z.lxor x y < 2 ^ n.
Proof. intros. apply (bitop_range Z.lxor xorb); auto using Z.lxor_spec. Qed.

(** ** Lemmas on byte strings *)

Lemma length_le_bytes n v : length (le_bytes n v) = n.
Proof. revert v; induction n; simpl; auto. Qed.

Lemma length_be_bytes n v : length (be_bytes n v) = n.
Proof. unfold be_bytes. by rewrite length_reverse, length_le_bytes. Qed.

Lemma le_bytes_bytes n v : bytes (le_bytes n v).
Proof.
  revert v; induction n; intros v; constructor; [apply u8_range | apply IHn].
Qed.

Lemma be_bytes_bytes n v : bytes (be_bytes n v).
Proof. apply Forall_reverse, le_bytes_bytes. Qed.

Lemma le_val_le_bytes n v : le_val (le_bytes n v) = v mod 2 ^ (8 * Z.of_nat n).
Proof.
  revert v; induction n as [|n IH]; intros v.
  { simpl. by rewrite Z.mod_1_r. }
  cbn [le_bytes le_val]. rewrite IH, Z.shiftr_div_pow2 by lia. unfold u8.
  replace (8 * Z.of_nat (S n)) with (8 + 8 * Z.of_nat n) by lia.
  rewrite Z.pow_add_r, Z.rem_mul_r by lia. reflexivity.
Qed.

Lemma be_val_be_bytes n v : be_val (be_bytes n v) = v mod 2 ^ (8 * Z.of_nat n).
Proof. unfold be_val, be_bytes. by rewrite reverse_involutive, le_val_le_bytes. Qed.

Lemma le_val_range l : bytes l -> 0 <= le_val l < 2 ^ (8 * Z.of_nat (length l)).
Proof.
  induction 1 as [|b l Hb Hl IH]; [simpl; lia|].
  cbn [le_val length]. replace (8 * Z.of_nat (S (length l)))
    with (8 + 8 * Z.of_nat (length l)) by lia.
  rewrite Z.pow_add_r by lia. unfold is_byte in Hb. lia.
Qed.

Lemma le_bytes_le_val l : bytes l -> le_bytes (length l) (le_val l) = l.
Proof.
  induction 1 as [|b l Hb Hl IH]; [done|].
  cbn [le_val length le_bytes]. rewrite Z.shiftr_div_pow2 by lia. f_equal.
  - unfold is_byte in Hb. ulia.
  - replace ((b + 2 ^ 8 * le_val l) / 2 ^ 8) with (le_val l) by ulia. done.
Qed.

Lemma le_val_app l1 l2 :
  le_val (l1 ++ l2) = le_val l1 + 2 ^ (8 * Z.of_nat (length l1)) * le_val l2.
Proof.
  induction l1 as [|b l1 IH]; [cbn [le_val app length]; change (8 * Z.of_nat 0) with 0; lia|].
  cbn [app le_val length]. rewrite IH.
  replace (8 * Z.of_nat (S (length l1))) with (8 + 8 * Z.of_nat (length l1)) by lia.
  rewrite Z.pow_add_r by lia. lia.
Qed.

Lemma le_val_take n l :
  bytes l -> le_val (take n l) = le_val l mod 2 ^ (8 * Z.of_nat (n `min` length l)).
Proof.
  intros Hl. rewrite <- (take_drop n l) at 2. rewrite le_val_app, length_take.
  rewrite Z.mul_comm, Z.mod_add by lia. rewrite Z.mod_small; [done|].
  rewrite <- length_take. apply le_val_range. by apply Forall_take.
Qed.

Lemma byte_at_range l i : bytes l -> is_byte (byte_at l i).
Proof.
  intros Hl. unfold byte_at. destruct (l !! i) as [b|] eqn:E; simpl.
  - eapply Forall_lookup_1; eauto.
  - unfold is_byte; lia.
Qed.

Lemma blit_nil dst : blit [] dst = dst.
Proof. unfold blit. by rewrite take_nil. Qed.

Lemma length_blit src dst : length (blit src dst) = length dst.
Proof. unfold blit. rewrite length_app, length_take, length_drop. lia. Qed.

Lemma length_at_offset off f dst :
  (forall d, length (f d) = length d) -> length (at_offset off f dst) = length dst.
Proof.
  intros Hf. unfold at_offset. rewrite length_app, Hf, length_take, length_drop. lia.
Qed.

Lemma blit_lookup src dst i :
  blit src dst !! i = if decide (i < length src)%nat
                      then (if decide (i < length dst)%nat then src !! i else None)
                      else dst !! i.
Proof.
  unfold blit. case_decide.
  - case_decide.
    + rewrite lookup_app_l by (rewrite length_take; lia). by rewrite lookup_take_lt by lia.
    + apply lookup_ge_None. rewrite length_app, length_take, length_drop. lia.
  - destruct (decide (length src <= length dst)%nat).
    + rewrite lookup_app_r by (rewrite length_take; lia).
      rewrite lookup_drop, length_take. f_equal; lia.
    + rewrite (proj2 (lookup_ge_None _ _)); [symmetry; apply lookup_ge_None; lia|].
      rewrite length_app, length_take, length_drop. lia.
Qed.

Lemma blit_full src dst : length src = length dst -> blit src dst = src.
Proof.
  intros E. unfold blit. rewrite take_ge, drop_ge by lia. by rewrite app_nil_r.
Qed.

Lemma blit_bytes src dst : bytes src -> bytes dst -> bytes (blit src dst).
Proof. intros. unfold blit. apply Forall_app; auto using Forall_take, Forall_drop. Qed.

Lemma at_offset_blit off src dst :
  (off + length src <= length dst)%nat ->
  at_offset off (blit src) dst = take off dst ++ src ++ drop (off + length src) dst.
Proof.
  intros. unfold at_offset, blit.
  rewrite length_drop, (take_ge src), drop_drop by lia. done.
Qed.

(** ** Relational reasoning on the monad

    [steps R m]: whenever [m] is defined, it relates the states before and
    after by the preorder [R].  Frame conditions and invariants of a whole
    component are proved with the rules below, in the hint database [steps]. *)
Definition steps {S A} (R : S -> S -> Prop) (m : M S A) : Prop :=
  forall s, match m s with Ok _ s' => R s s' | Undef _ => True end.

Section Steps.
Context {S : Type} (R : S -> S -> Prop) `{!PreOrder R}.

Lemma steps_ret {A} (a : A) : steps R (mret a).
Proof. intros s. apply reflexivity. Qed.

Lemma steps_undef {A} u : steps R (undef (A := A) u).
Proof. intros s. done. Qed.

Lemma steps_gets {A} (f : S -> A) : steps R (gets f).
Proof. intros s. apply reflexivity. Qed.

Lemma steps_modify (f : S -> S) : (forall s, R s (f s)) -> steps R (modify f).
Proof. intros H s. apply H. Qed.

Lemma steps_lift {A} u (o : option A) : steps R (lift u o).
Proof. destruct o; [apply steps_ret | apply steps_undef]. Qed.

Lemma steps_bind {A B} (m : M S A) (k : A -> M S B) :
  steps R m -> (forall a, steps R (k a)) -> steps R (m ≫= k).
Proof.
  intros Hm Hk s. unfold mbind, M_bind. specialize (Hm s).
  destruct (m s) as [a s'|]; [|done]. specialize (Hk a s').
  destruct (k a s'); [|done]. by transitivity s'.
Qed.

Lemma steps_for_pos {St B} p (body : St -> M S (St + B)) :
  (forall st, steps R (body st)) -> forall st, steps R (for_pos p body st).
Proof.
  intros Hb. induction p as [p IH|p IH|]; intros st; simpl; [| |apply Hb];
    repeat first [ apply IH | apply Hb | apply steps_ret
                 | apply steps_bind; [|intros []] ].
Qed.

Lemma steps_for_upto {St B} n (body : St -> M S (St + B)) :
  (forall st, steps R (body st)) -> forall st, steps R (for_upto n body st).
Proof.
  intros Hb st. destruct n; simpl; auto using steps_ret, steps_for_pos.
Qed.
End Steps.

Create HintDb steps discriminated.
#[export] Hint Constants Opaque : steps.
#[export] Hint Resolve steps_ret steps_undef steps_gets steps_lift : steps.

(** Decompose a monadic program down to its primitive steps. *)
Ltac steps_step :=
  lazymatch goal with
  | |- steps _ (_ ≫= _) => apply steps_bind; [typeclasses eauto | | intros ?]
  | |- steps _ (match ?x with _ => _ end) => destruct x eqn:?
  | |- steps _ (let _ := _ in _) => cbv zeta
  | |- steps _ (for_upto _ _ _) => apply steps_for_upto; [typeclasses eauto | intros ?]
  | |- steps _ _ => solve [auto with steps typeclass_instances]
  end.

(** ** Total correctness of bounded loops

    A loop whose body decreases a measure below its bound leaves through an
    early exit, and every exit satisfies what the body's exits satisfy. *)
Section Measure.
Context {S St B : Type} (I : St -> S -> Prop) (mu : St -> S -> Z) (Q : B -> S -> Prop).
Context (body : St -> M S (St + B)).
Hypothesis Hbody : forall st s, I st s ->
  match body st s with
  | Ok (inl st') s' => I st' s' /\ 0 <= mu st' s' < mu st s
  | Ok (inr b) s' => Q b s'
  | Undef _ => True
  end.

Lemma for_pos_measure p st s :
  I st s ->
  match for_pos p body st s with
  | Ok (inl st') s' => I st' s' /\ 0 <= mu st' s' /\ mu st' s' + Zpos p <= mu st s
  | Ok (inr b) s' => Q b s'
  | Undef _ => True
  end.
Proof.
  revert st s. induction p as [p IH|p IH|]; intros st s HI; cbn [for_pos].
  - unfold mbind, M_bind. specialize (Hbody st s HI).
    destruct (body st s) as [[st1|b] s1|]; [|done|done]. destruct Hbody as [I1 M1].
    pose proof (IH st1 s1 I1) as H1. destruct (for_pos p body st1 s1) as [[st2|b] s2|]; [|done|done].
    destruct H1 as (I2 & M2 & M2'). pose proof (IH st2 s2 I2) as H2.
    destruct (for_pos p body st2 s2) as [[st3|b] s3|]; [|done|done].
    destruct H2 as (I3 & M3 & M3'). split; [done|lia].
  - unfold mbind, M_bind. pose proof (IH st s HI) as H1.
    destruct (for_pos p body st s) as [[st2|b] s2|]; [|done|done].
    destruct H1 as (I2 & M2 & M2'). pose proof (IH st2 s2 I2) as H2.
    destruct (for_pos p body st2 s2) as [[st3|b] s3|]; [|done|done].
    destruct H2 as (I3 & M3 & M3'). split; [done|lia].
  - specialize (Hbody st s HI). destruct (body st s) as [[st'|b] s'|]; [|done|done].
    destruct Hbody. split; [done|lia].
Qed.

Lemma for_upto_measure n st s :
  I st s -> 0 <= mu st s < n ->
  match for_upto n body st s with
  | Ok (inl _) _ => False
  | Ok (inr b) s' => Q b s'
  | Undef _ => True
  end.
Proof.
  intros HI Hn. destruct n as [|p|p]; [lia| |lia]. unfold for_upto.
  pose proof (for_pos_measure p st s HI) as H.
  destruct (for_pos p body st s) as [[st'|b] s'|]; [lia|done|done].
Qed.
End Measure.

(** ** The big-step reading of a loop *)

Section Loop.
Context {S St B : Type} (body : St -> M S (St + B)).

Inductive Loop : St -> S -> outcome S B -> Prop :=
  | Loop_exit st s b s' : body st s = Ok (inr b) s' -> Loop st s (Ok b s')
  | Loop_undef st s u : body st s = Undef u -> Loop st s (Undef u)
  | Loop_turn st s st' s' o : body st s = Ok (inl st') s' -> Loop st' s' o -> Loop st s o.

Lemma Loop_inv_turn st s st' s' o :
  body st s = Ok (inl st') s' -> Loop st s o -> Loop st' s' o.
Proof. intros H1 H. inversion H; congruence. Qed.

Lemma Loop_inv_exit st s b s' o :
  body st s = Ok (inr b) s' -> Loop st s o -> o = Ok b s'.
Proof. intros H1 H. inversion H; congruence. Qed.

(** The outcome of a bounded loop as that of the loop. *)
Definition loop_result (o : outcome S (St + B)) (r : outcome S B) : Prop :=
  match o with
  | Ok (inl _) _ => True
  | Ok (inr b) s => r = Ok b s
  | Undef u => r = Undef u
  end.

Lemma for_pos_Loop p st s o :
  Loop st s o ->
  match for_pos p body st s with
  | Ok (inl st') s' => Loop st' s' o
  | Ok (inr b) s' => o = Ok b s'
  | Undef u => o = Undef u
  end.
Proof.
  revert st s. induction p as [p IH|p IH|]; intros st s HL; cbn [for_pos]; rewrite ?run_bind.
  - destruct (body st s) as [[st1|b] s1|u] eqn:E1.
    + rewrite run_bind. pose proof (IH st1 s1 (Loop_inv_turn _ _ _ _ _ E1 HL)) as H1.
      destruct (for_pos p body st1 s1) as [[st2|b] s2|u]; [by apply IH|done|done].
    + by rewrite (Loop_inv_exit _ _ _ _ _ E1 HL).
    + inversion HL; congruence.
  - pose proof (IH st s HL) as H1.
    destruct (for_pos p body st s) as [[st2|b] s2|u]; [by apply IH|done|done].
  - destruct (body st s) as [[st1|b] s1|u] eqn:E1.
    + by eapply Loop_inv_turn.
    + by eapply Loop_inv_exit.
    + inversion HL; congruence.
Qed.

Lemma for_upto_Loop n st s o : Loop st s o -> loop_result (for_upto n body st s) o.
Proof.
  intros HL. destruct n as [|p|p]; try exact I. unfold for_upto.
  pose proof (for_pos_Loop p st s o HL) as H. by destruct (for_pos p body st s) as [[]|].
Qed.

Lemma Loop_for_pos p st s o :
  match for_pos p body st s with
  | Ok (inl st') s' => Loop st' s' o
  | Ok (inr b) s' => o = Ok b s'
  | Undef u => o = Undef u
  end -> Loop st s o.
Proof.
  revert st s. induction p as [p IH|p IH|]; intros st s; cbn [for_pos]; rewrite ?run_bind.
  - destruct (body st s) as [[st1|b] s1|u] eqn:E1.
    + rewrite run_bind. intros H. apply (Loop_turn _ _ st1 s1); [done|]. apply IH.
      destruct (for_pos p body st1 s1) as [[st2|b] s2|u]; [by apply IH|done|done].
    + intros ->. by constructor.
    + intros ->. by constructor.
  - intros H. apply IH. destruct (for_pos p body st s) as [[st2|b] s2|u]; [by apply IH|done|done].
  - destruct (body st s) as [[st1|b] s1|u] eqn:E1.
    + intros H. by apply (Loop_turn _ _ st1 s1).
    + intros ->. by constructor.
    + intros ->. by constructor.
Qed.

(** A bounded loop that does not run out has an outcome. *)
Lemma Loop_for_upto n st s :
  match for_upto n body st s with Ok (inl _) _ => False | _ => True end ->
  exists o, Loop st s o.
Proof.
  destruct n as [|p|p]; try done. unfold for_upto.
  destruct (for_pos p body st s) as [[st'|b] s'|u] eqn:E; [done| |]; intros _.
  - exists (Ok b s'). apply (Loop_for_pos p). by rewrite E.
  - exists (Undef u). apply (Loop_for_pos p). by rewrite E.
Qed.
End Loop.

(** A loop whose body never fails and decreases a measure below its bound ends
    with what its exits satisfy. *)
Lemma for_upto_total {S St B} (I : St -> S -> Prop) (mu : St -> S -> Z) (Q : B -> S -> Prop)
    (body : St -> M S (St + B)) n st s :
  (forall st s, I st s ->
     (exists st' s', body st s = Ok (inl st') s' /\ I st' s' /\ 0 <= mu st' s' < mu st s)
     \/ (exists b s', body st s = Ok (inr b) s' /\ Q b s')) ->
  I st s -> 0 <= mu st s < n ->
  exists b s', for_upto n body st s = Ok (inr b) s' /\ Q b s'.
Proof.
  intros Hb HI Hn.
  assert (exists b s', Loop body st s (Ok b s') /\ Q b s') as (b & s' & HL & HQ).
  { assert (exists k, mu st s = Z.of_nat k) as [k Hk] by (exists (Z.to_nat (mu st s)); lia).
    clear Hn. revert st s HI Hk. induction k as [k IH] using lt_wf_ind. intros st s HI Hk.
    destruct (Hb st s HI) as [(st' & s' & E & HI' & Hm)|(b & s' & E & HQ)].
    - destruct (IH (Z.to_nat (mu st' s'))) with (st := st') (s := s') as (b & s2 & HL & HQ); [lia|done|lia|].
      exists b, s2. split; [|done]. by apply (Loop_turn _ _ _ st' s').
    - exists b, s'. split; [|done]. by constructor. }
  pose proof (for_upto_Loop _ n _ _ _ HL) as Hr.
  pose proof (for_upto_measure I mu (fun _ _ => True) body) as Hm.
  exists b, s'. split; [|done].
  assert (forall st s, I st s ->
    match body st s with
    | Ok (inl st') s' => I st' s' /\ 0 <= mu st' s' < mu st s
    | Ok (inr _) _ => True
    | Undef _ => True
    end) as Hb'.
  { intros st1 s1 H1. destruct (Hb st1 s1 H1) as [(? & ? & -> & ?)|(? & ? & -> & ?)]; done. }
  specialize (Hm Hb' n st s HI Hn).
  destruct (for_upto n body st s) as [[st'|b'] s2|u]; simpl in Hr; [done|by injection Hr as -> ->|done].
Qed.

(** ** Concatenation of strings *)

Lemma append_cons c s t : String.append (String c s) t = String c (String.append s t).
Proof. reflexivity. Qed.
Lemma append_nil_l t : String.append EmptyString t = t.
Proof. reflexivity. Qed.

Lemma append_nil_r s : String.append s EmptyString = s.
Proof. induction s as [|c s IH]; [done|]. by rewrite append_cons, IH. Qed.

Lemma length_append s t : String.length (String.append s t) = (String.length s + String.length t)%nat.
Proof. induction s as [|c s IH]; [done|]. rewrite append_cons. simpl. by rewrite IH. Qed.

(** ** Searching and updating C lists *)

(** The body of [r_list_foreach] that returns at the first element that
    satisfies a condition is [find]; the one that writes to it is the update of
    that element. *)
Fixpoint update_first {A} (p : A -> bool) (f : A -> A) (l : list A) : list A :=
  match l with
  | [] => []
  | x :: l => if p x then f x :: l else x :: update_first p f l
  end.

(** [r_list_delete] of the first element that satisfies a condition. *)
Fixpoint delete_first {A} (p : A -> bool) (l : list A) : list A :=
  match l with
  | [] => []
  | x :: l => if p x then l else x :: delete_first p l
  end.

(** The last element that satisfies a condition ([r_list_foreach_prev]). *)
Definition find_prev {A} (p : A -> bool) (l : list A) : option A := find p (reverse l).

Definition is_some {A} (o : option A) : bool := match o with Some _ => true | None => false end.

Lemma find_update_first {A} (p : A -> bool) f (l : list A) :
  (forall x, p x = true -> p (f x) = true) -> find p (update_first p f l) = f <$> find p l.
Proof.
  intros Hf. induction l as [|x l IH]; simpl; [done|].
  destruct (p x) eqn:E; simpl; [by rewrite Hf | by rewrite E].
Qed.

Lemma Forall_update_first {A} (P : A -> Prop) p f (l : list A) :
  (forall x, P x -> P (f x)) -> Forall P l -> Forall P (update_first p f l).
Proof.
  intros Hf. induction 1; simpl; [constructor|]. destruct (p x); constructor; auto.
Qed.

Lemma map_update_first {A B} (g : A -> B) p f (l : list A) :
  (forall x, g (f x) = g x) -> map g (update_first p f l) = map g l.
Proof.
  intros Hg. induction l as [|x l IH]; simpl; [done|].
  destruct (p x); simpl; [by rewrite Hg | by rewrite IH].
Qed.

Lemma delete_first_sublist {A} (p : A -> bool) (l : list A) : sublist (delete_first p l) l.
Proof.
  induction l as [|x l IH]; simpl; [constructor|].
  destruct (p x); [by apply sublist_cons|by apply sublist_skip].
Qed.

Lemma find_Some_elem {A} (p : A -> bool) (l : list A) x :
  find p l = Some x -> x ∈ l /\ p x = true.
Proof. intros H. apply find_some in H as [? ?]. split; [by apply list_elem_of_In|done]. Qed.

Lemma find_unique {A} (p : A -> bool) (l : list A) x :
  x ∈ l -> p x = true -> (forall y, y ∈ l -> p y = true -> y = x) -> find p l = Some x.
Proof.
  intros Hin Hp Hu. destruct (find p l) as [y|] eqn:E.
  - apply find_Some_elem in E as [? ?]. f_equal. auto.
  - exfalso. eapply find_none in E; [|by apply list_elem_of_In]. congruence.
Qed.

Lemma Forall_sublist {A} (P : A -> Prop) l k : sublist l k -> Forall P k -> Forall P l.
Proof.
  induction 1 as [|x l k _ IH|x l k _ IH]; intros H; [done| |]; inversion H; subst; auto.
Qed.

(** *** Loops that leave at their first or second turn *)

Lemma for_pos_exit {S St B} (body : St -> M S (St + B)) p st s b s' :
  body st s = Ok (inr b) s' -> for_pos p body st s = Ok (inr b) s'.
Proof.
  intros E. revert st s E. induction p as [p IH|p IH|]; intros st s E; simpl; [| |done].
  - by rewrite run_bind, E.
  - by rewrite run_bind, (IH _ _ E).
Qed.

Lemma for_upto_second {S St B} (body : St -> M S (St + B)) n st s st1 s1 b s' :
  body st s = Ok (inl st1) s1 -> body st1 s1 = Ok (inr b) s' -> 2 <= n ->
  for_upto n body st s = Ok (inr b) s'.
Proof.
  intros E1 E2 Hn. destruct n as [|p|p]; [lia| |lia]. unfold for_upto.
  induction p as [p _|p IH|]; cbn [for_pos]; [| |lia].
  - by rewrite run_bind, E1, run_bind, (for_pos_exit _ _ _ _ _ _ E2).
  - rewrite run_bind. destruct (decide (p = 1%positive)) as [->|Hp].
    + simpl. by rewrite E1.
    + rewrite IH by lia. done.
Qed.

(** *** Loops that follow a known path *)

Section path.
Context {S St B : Type} (body : St -> M S (St + B)) (f : nat -> St) (k : nat) (s s' : S) (b : B).
Hypothesis Hturn : forall i, (i < k)%nat -> body (f i) s = Ok (inl (f (Datatypes.S i))) s.
Hypothesis Hexit : body (f k) s = Ok (inr b) s'.

Lemma for_pos_path p i :
  (i <= k)%nat ->
  for_pos p body (f i) s =
    if decide (i + Pos.to_nat p <= k)%nat then Ok (inl (f (i + Pos.to_nat p)%nat)) s else Ok (inr b) s'.
Proof.
  assert (forall i, (i <= k)%nat ->
    body (f i) s = if decide (i + 1 <= k)%nat then Ok (inl (f (i + 1)%nat)) s else Ok (inr b) s') as H1.
  { intros j Hj. case_decide.
    - rewrite Hturn by lia. do 3 f_equal. lia.
    - by replace j with k by lia. }
  revert i. induction p as [p IH|p IH|]; intros i Hi; cbn [for_pos]; rewrite ?run_bind; [| |by apply H1].
  - rewrite H1 by done. case_decide; cbv beta iota; [|by rewrite decide_False by lia].
    rewrite run_bind, IH by lia. case_decide; cbv beta iota; [|by rewrite decide_False by lia].
    rewrite IH by lia. repeat case_decide; try lia; [|done]. do 3 f_equal. lia.
  - rewrite IH by done. case_decide; cbv beta iota; [|by rewrite decide_False by lia].
    rewrite IH by lia. repeat case_decide; try lia; [|done]. do 3 f_equal. lia.
Qed.

Lemma for_upto_path n : Z.of_nat k < n -> for_upto n body (f 0%nat) s = Ok (inr b) s'.
Proof.
  intros Hn. destruct n as [|p|p]; [lia| |lia]. unfold for_upto.
  rewrite for_pos_path, decide_False by lia. done.
Qed.
End path.
