(* ===== verification/Endian.v ===== *)
(** * Byte-order accessors

    The inline functions of [libr/include/r_endian.h]: reading and writing
    16-, 32- and 64-bit integers in either byte order, the byte swaps and the
    overflow-checked arithmetic.  A [void *] into a buffer is the list of the
    bytes from there on; a write returns the updated buffer.  The
    specifications are the generic [le_bytes]/[be_bytes] and
    [le_val]/[be_val] of the prelude. *)

From S2P Require Import Prelude.

(** ** Single bytes *)

Definition r_read_ble8 (src : list Z) : Z := byte_at src 0.
Definition r_read_at_ble8 (src : list Z) (offset : nat) : Z := r_read_ble8 (drop offset src).
Definition r_write_ble8 (dest : list Z) (val : Z) : list Z := <[0%nat := val]> dest.
Definition r_write_at_ble8 (dest : list Z) (val : Z) (offset : nat) : list Z :=
  at_offset offset (fun d => r_write_ble8 d val) dest.

(** ** Big endian *)

Definition r_read_be8 (src : list Z) : Z := r_read_ble8 src.
Definition r_read_at_be8 (src : list Z) (offset : nat) : Z := r_read_at_ble8 src offset.
Definition r_write_be8 (dest : list Z) (val : Z) : list Z := r_write_ble8 dest val.
Definition r_write_at_be8 (dest : list Z) (val : Z) (offset : nat) : list Z :=
  r_write_at_ble8 dest val offset.

Definition r_read_be16 (src : list Z) : Z :=
  Z.lor (Z.shiftl (byte_at src 0) 8) (Z.shiftl (byte_at src 1) 0).
Definition r_read_at_be16 (src : list Z) (offset : nat) : Z := r_read_be16 (drop offset src).
Definition r_write_be16 (dest : list Z) (val : Z) : list Z :=
  let dest := r_write_be8 dest (u8 (Z.shiftr val 8)) in
  r_write_at_be8 dest (u8 (Z.shiftr val 0)) 1.
Definition r_write_at_be16 (dest : list Z) (val : Z) (offset : nat) : list Z :=
  at_offset offset (fun d => r_write_be16 d val) dest.

Definition r_read_be32 (src : list Z) : Z :=
  Z.lor (Z.lor (Z.lor (Z.shiftl (byte_at src 0) 24) (Z.shiftl (byte_at src 1) 16))
               (Z.shiftl (byte_at src 2) 8)) (Z.shiftl (byte_at src 3) 0).
Definition r_read_at_be32 (src : list Z) (offset : nat) : Z := r_read_be32 (drop offset src).
Definition r_write_be32 (dest : list Z) (val : Z) : list Z :=
  let dest := r_write_be16 dest (u16 (Z.shiftr val 16)) in
  r_write_at_be16 dest (u16 (Z.shiftr val 0)) 2.
Definition r_write_at_be32 (dest : list Z) (val : Z) (offset : nat) : list Z :=
  at_offset offset (fun d => r_write_be32 d val) dest.

Definition r_read_be64 (src : list Z) : Z :=
  let val := u64 (Z.shiftl (r_read_be32 src) 32) in
  Z.lor val (r_read_at_be32 src 4).
Definition r_read_at_be64 (src : list Z) (offset : nat) : Z := r_read_be64 (drop offset src).
Definition r_write_be64 (dest : list Z) (val : Z) : list Z :=
  let dest := r_write_be32 dest (u32 (Z.shiftr val 32)) in
  r_write_at_be32 dest (u32 (Z.shiftr val 0)) 4.
Definition r_write_at_be64 (dest : list Z) (val : Z) (offset : nat) : list Z :=
  at_offset offset (fun d => r_write_be64 d val) dest.

(** ** Little endian *)

Definition r_read_le8 (src : list Z) : Z := r_read_ble8 src.
Definition r_read_at_le8 (src : list Z) (offset : nat) : Z := r_read_at_ble8 src offset.
Definition r_write_le8 (dest : list Z) (val : Z) : list Z := r_write_ble8 dest val.
Definition r_write_at_le8 (dest : list Z) (val : Z) (offset : nat) : list Z :=
  r_write_at_ble8 dest val offset.

Definition r_read_le16 (src : list Z) : Z :=
  Z.lor (Z.shiftl (byte_at src 1) 8) (Z.shiftl (byte_at src 0) 0).
Definition r_read_at_le16 (src : list Z) (offset : nat) : Z := r_read_le16 (drop offset src).
Definition r_write_le16 (dest : list Z) (val : Z) : list Z :=
  let dest := r_write_le8 dest (u8 (Z.shiftr val 0)) in
  r_write_at_le8 dest (u8 (Z.shiftr val 8)) 1.
Definition r_write_at_le16 (dest : list Z) (val : Z) (offset : nat) : list Z :=
  at_offset offset (fun d => r_write_le16 d val) dest.

Definition r_read_le32 (src : list Z) : Z :=
  Z.lor (Z.lor (Z.lor (Z.shiftl (byte_at src 3) 24) (Z.shiftl (byte_at src 2) 16))
               (Z.shiftl (byte_at src 1) 8)) (Z.shiftl (byte_at src 0) 0).
Definition r_read_at_le32 (src : list Z) (offset : nat) : Z := r_read_le32 (drop offset src).
Definition r_write_le32 (dest : list Z) (val : Z) : list Z :=
  let dest := r_write_le16 dest (u16 (Z.shiftr val 0)) in
  r_write_at_le16 dest (u16 (Z.shiftr val 16)) 2.
Definition r_write_at_le32 (dest : list Z) (val : Z) (offset : nat) : list Z :=
  at_offset offset (fun d => r_write_le32 d val) dest.

Definition r_read_le64 (src : list Z) : Z :=
  let val := u64 (Z.shiftl (r_read_at_le32 src 4) 32) in
  Z.lor val (r_read_le32 src).
Definition r_read_at_le64 (src : list Z) (offset : nat) : Z := r_read_le64 (drop offset src).
Definition r_write_le64 (dest : list Z) (val : Z) : list Z :=
  let dest := r_write_le32 dest (u32 (Z.shiftr val 0)) in
  r_write_at_le32 dest (u32 (Z.shiftr val 32)) 4.
Definition r_write_at_le64 (dest : list Z) (val : Z) (offset : nat) : list Z :=
  at_offset offset (fun d => r_write_le64 d val) dest.

(** ** Either order *)

Definition r_read_ble16 (src : list Z) (big_endian : bool) : Z :=
  if big_endian then r_read_be16 src else r_read_le16 src.
Definition r_read_ble32 (src : list Z) (big_endian : bool) : Z :=
  if big_endian then r_read_be32 src else r_read_le32 src.
Definition r_read_ble64 (src : list Z) (big_endian : bool) : Z :=
  if big_endian then r_read_be64 src else r_read_le64 src.

Definition r_read_ble (src : list Z) (big_endian : bool) (size : Z) : Z :=
  match size with
  | 8 => byte_at src 0
  | 16 => r_read_ble16 src big_endian
  | 32 => r_read_ble32 src big_endian
  | 64 => r_read_ble64 src big_endian
  | _ => UT64_MAX
  end.

Definition r_write_ble16 (dest : list Z) (val : Z) (big_endian : bool) : list Z :=
  if big_endian then r_write_be16 dest val else r_write_le16 dest val.
Definition r_write_ble32 (dest : list Z) (val : Z) (big_endian : bool) : list Z :=
  if big_endian then r_write_be32 dest val else r_write_le32 dest val.
Definition r_write_ble64 (dest : list Z) (val : Z) (big_endian : bool) : list Z :=
  if big_endian then r_write_be64 dest val else r_write_le64 dest val.

Definition r_write_ble (dst : list Z) (val : Z) (big_endian : bool) (size : Z) : list Z :=
  match size with
  | 8 => <[0%nat := u8 val]> dst
  | 16 => r_write_ble16 dst (u16 val) big_endian
  | 32 => r_write_ble32 dst (u32 val) big_endian
  | 64 => r_write_ble64 dst val big_endian
  | _ => dst
  end.

(** ** Byte swaps *)

Definition r_swap_ut16 (val : Z) : Z :=
  u16 (Z.lor (Z.shiftl val 8) (Z.shiftr val 8)).
(** The signed operand is promoted to [int] and the result of each assignment
    converted back to 16 bits. *)
Definition r_swap_st16 (val : Z) : Z :=
  let val := s16 (Z.lor (Z.land (u32 (Z.shiftl val 8)) 0xFF00FF00)
                        (Z.land (Z.shiftr val 8) 0xFF00FF)) in
  s16 (Z.lor (Z.shiftl val 16) (Z.shiftr val 16)).
Definition r_swap_ut32 (val : Z) : Z :=
  let val := Z.lor (Z.land (u32 (Z.shiftl val 8)) 0xFF00FF00)
                   (Z.land (Z.shiftr val 8) 0xFF00FF) in
  Z.lor (u32 (Z.shiftl val 16)) (Z.shiftr val 16).
Definition r_swap_ut64 (val : Z) : Z :=
  let val := Z.lor (Z.land (u64 (Z.shiftl val 8)) 0xFF00FF00FF00FF00)
                   (Z.land (Z.shiftr val 8) 0x00FF00FF00FF00FF) in
  let val := Z.lor (Z.land (u64 (Z.shiftl val 16)) 0xFFFF0000FFFF0000)
                   (Z.land (Z.shiftr val 16) 0x0000FFFF0000FFFF) in
  Z.lor (u64 (Z.shiftl val 32)) (Z.shiftr val 32).

(** ** Overflow-checked arithmetic

    [None] is the return value 0, [Some r] the return value 1 with the result
    stored, which wraps at the width of [*r].  The four widths are the same text with
    another maximum. *)
Definition UT_ADD (max : Z) (a b : Z) : option Z :=
  if max - a <? b then None else Some ((a + b) mod (max + 1)).
Definition UT_MUL (max : Z) (a b : Z) : option Z :=
  if z2b a && (max / a <? b) then None else Some ((a * b) mod (max + 1)).
Definition UT_SUB (max : Z) (a b : Z) : option Z :=
  if b >? a then None else Some ((a - b) mod (max + 1)).

Definition UT64_ADD : Z -> Z -> option Z := UT_ADD (2 ^ 64 - 1).
Definition UT64_MUL : Z -> Z -> option Z := UT_MUL (2 ^ 64 - 1).
Definition UT64_SUB : Z -> Z -> option Z := UT_SUB (2 ^ 64 - 1).
Definition UT32_ADD : Z -> Z -> option Z := UT_ADD (2 ^ 32 - 1).
Definition UT32_MUL : Z -> Z -> option Z := UT_MUL (2 ^ 32 - 1).
Definition UT32_SUB : Z -> Z -> option Z := UT_SUB (2 ^ 32 - 1).
Definition UT16_ADD : Z -> Z -> option Z := UT_ADD (2 ^ 16 - 1).
Definition UT16_MUL : Z -> Z -> option Z := UT_MUL (2 ^ 16 - 1).
Definition UT16_SUB : Z -> Z -> option Z := UT_SUB (2 ^ 16 - 1).
Definition UT8_ADD : Z -> Z -> option Z := UT_ADD (2 ^ 8 - 1).
Definition UT8_MUL : Z -> Z -> option Z := UT_MUL (2 ^ 8 - 1).
Definition UT8_SUB : Z -> Z -> option Z := UT_SUB (2 ^ 8 - 1).

(** ** The accessors meet their specification *)

Lemma lor_add a b n :
  0 <= n -> a mod 2 ^ n = 0 -> 0 <= b < 2 ^ n -> Z.lor a b = a + b.
Proof.
  intros Hn Ha Hb. rewrite (Z.div_mod a (2 ^ n)), Ha, Z.add_0_r, Z.mul_comm by lia.
  rewrite <- Z.shiftl_mul_pow2 at 1 by lia. by apply lor_shiftl_add.
Qed.

Lemma mod_shiftr_mod x n k m :
  0 <= k -> 0 <= m -> m + k <= n ->
  (Z.shiftr (x mod 2 ^ n) k) mod 2 ^ m = (Z.shiftr x k) mod 2 ^ m.
Proof.
  intros. zbits. destruct (Z.ltb_spec i m).
  - rewrite !Z.mod_pow2_bits_low, !Z.shiftr_spec, Z.mod_pow2_bits_low by lia. done.
  - by rewrite !Z.mod_pow2_bits_high by lia.
Qed.

Lemma u8_shiftr_mod x n k :
  0 <= k -> k + 8 <= n -> u8 (Z.shiftr (x mod 2 ^ n) k) = u8 (Z.shiftr x k).
Proof. intros. unfold u8. apply mod_shiftr_mod; lia. Qed.

Lemma u8_mod x n : 8 <= n -> u8 (x mod 2 ^ n) = u8 x.
Proof. intros. apply mod_mod_pow2. lia. Qed.

(** Bring every byte of a nested write to the form [u8 (v >> k)]. *)
Ltac norm_bytes :=
  unfold u16, u32, u64; rewrite ?Z.shiftr_0_r;
  repeat first [ rewrite u8_shiftr_mod by lia | rewrite u8_mod by lia
               | rewrite Z.shiftr_shiftr by lia
               | rewrite mod_shiftr_mod by lia | rewrite mod_mod_pow2 by lia ].

(** Expose the first bytes of a destination that is long enough. *)
Ltac expose_bytes :=
  repeat match goal with
  | H : (S _ <= length ?d)%nat |- _ => destruct d; simpl in H; [lia|apply le_S_n in H]
  | H : (0 <= length ?d)%nat |- _ => clear H
  end.

Ltac solve_write :=
  intros; expose_bytes;
  cbv [r_write_le64 r_write_le32 r_write_le16 r_write_be64 r_write_be32 r_write_be16
    r_write_at_le32 r_write_at_le16 r_write_at_be32 r_write_at_be16 r_write_at_le8
    r_write_at_be8 r_write_le8 r_write_be8 r_write_at_ble8 r_write_ble8
    blit be_bytes at_offset];
  simpl; rewrite ?take_nil, ?drop_0; norm_bytes; reflexivity.

Lemma r_write_le16_spec dest v :
  (2 <= length dest)%nat -> r_write_le16 dest v = blit (le_bytes 2 v) dest.
Proof. solve_write. Qed.

Lemma r_write_le32_spec dest v :
  (4 <= length dest)%nat -> r_write_le32 dest v = blit (le_bytes 4 v) dest.
Proof. solve_write. Qed.

Lemma r_write_le64_spec dest v :
  (8 <= length dest)%nat -> r_write_le64 dest v = blit (le_bytes 8 v) dest.
Proof. solve_write. Qed.

Lemma r_write_be16_spec dest v :
  (2 <= length dest)%nat -> r_write_be16 dest v = blit (be_bytes 2 v) dest.
Proof. solve_write. Qed.

Lemma r_write_be32_spec dest v :
  (4 <= length dest)%nat -> r_write_be32 dest v = blit (be_bytes 4 v) dest.
Proof. solve_write. Qed.

Lemma r_write_be64_spec dest v :
  (8 <= length dest)%nat -> r_write_be64 dest v = blit (be_bytes 8 v) dest.
Proof. solve_write. Qed.

Ltac split_bytes :=
  unfold bytes in *;
  repeat match goal with H : Forall _ (_ :: _) |- _ => apply Forall_cons in H as [? H] end.

Ltac solve_read :=
  intros; expose_bytes; split_bytes;
  cbv [r_read_le64 r_read_at_le32 r_read_be64 r_read_at_be32 r_read_le32 r_read_le16
       r_read_be32 r_read_be16 be_val reverse byte_at lookup list_lookup u64 is_byte
       rev_append take drop default from_option id] in *;
  cbn [le_val]; rewrite ?Z.shiftl_0_r, ?Z.shiftl_mul_pow2 by lia;
  repeat match goal with
  | |- context [Z.lor ?a ?b] =>
      lazymatch a with context [Z.lor] => fail | _ => idtac end;
      lazymatch b with context [Z.lor] => fail | _ => idtac end;
      first [ rewrite (lor_add a b 24) by zlia | rewrite (lor_add a b 16) by zlia
            | rewrite (lor_add a b 8) by zlia | rewrite (lor_add a b 32) by zlia ]
  | |- context [?a mod 2 ^ 64] => rewrite (Z.mod_small a (2 ^ 64)) by lia
  end;
  lia.

Lemma r_read_le16_spec src :
  bytes src -> (2 <= length src)%nat -> r_read_le16 src = le_val (take 2 src).
Proof. solve_read. Qed.

Lemma r_read_be16_spec src :
  bytes src -> (2 <= length src)%nat -> r_read_be16 src = be_val (take 2 src).
Proof. solve_read. Qed.

Lemma r_read_le32_spec src :
  bytes src -> (4 <= length src)%nat -> r_read_le32 src = le_val (take 4 src).
Proof. solve_read. Qed.

Lemma r_read_be32_spec src :
  bytes src -> (4 <= length src)%nat -> r_read_be32 src = be_val (take 4 src).
Proof. solve_read. Qed.

Lemma r_read_le64_spec src :
  bytes src -> (8 <= length src)%nat -> r_read_le64 src = le_val (take 8 src).
Proof. solve_read. Qed.

Lemma r_read_be64_spec src :
  bytes src -> (8 <= length src)%nat -> r_read_be64 src = be_val (take 8 src).
Proof. solve_read. Qed.

Lemma r_write_ble_spec dst val be size n :
  size = 8 * Z.of_nat n -> size ∈ [8; 16; 32; 64] -> (n <= length dst)%nat ->
  r_write_ble dst val be size
  = blit ((if be then be_bytes else le_bytes) n val) dst.
Proof.
  intros Hs Hin Hn.
  assert (n ∈ [1; 2; 4; 8]%nat) as Hn' by (set_unfold; lia).
  set_unfold; destruct Hn' as [->|[->|[->|[->|[]]]]]; vm_compute in Hs; subst size;
    cbn [r_write_ble]; unfold r_write_ble16, r_write_ble32, r_write_ble64; destruct be;
    rewrite ?r_write_be16_spec, ?r_write_be32_spec, ?r_write_be64_spec,
      ?r_write_le16_spec, ?r_write_le32_spec, ?r_write_le64_spec by done;
    try reflexivity; try (destruct dst; [simpl in Hn; lia|];
      unfold blit, be_bytes; simpl; rewrite take_nil, drop_0; reflexivity);
    unfold be_bytes; cbn [le_bytes]; norm_bytes; reflexivity.
Qed.

Lemma r_read_ble_spec src be size n :
  size = 8 * Z.of_nat n -> size ∈ [8; 16; 32; 64] -> bytes src -> (n <= length src)%nat ->
  r_read_ble src be size = (if be then be_val else le_val) (take n src).
Proof.
  intros Hs Hin Hb Hn.
  assert (n ∈ [1; 2; 4; 8]%nat) as Hn' by (set_unfold; lia).
  set_unfold; destruct Hn' as [->|[->|[->|[->|[]]]]]; vm_compute in Hs; subst size;
    cbn [r_read_ble]; unfold r_read_ble16, r_read_ble32, r_read_ble64; destruct be;
    rewrite ?r_read_be16_spec, ?r_read_be32_spec, ?r_read_be64_spec,
      ?r_read_le16_spec, ?r_read_le32_spec, ?r_read_le64_spec by done;
    try reflexivity;
    (destruct src as [|b src]; [simpl in Hn; lia|]);
    cbn [take]; unfold be_val; rewrite ?take_0; cbn [reverse rev_append le_val];
    unfold byte_at; simpl; lia.
Qed.

Lemma take_blit_ge src dst n :
  n = length src -> (n <= length dst)%nat -> take n (blit src dst) = src.
Proof.
  intros -> Hn. unfold blit. rewrite take_app_le by (rewrite length_take; lia).
  rewrite take_take. by rewrite take_ge by lia.
Qed.

Lemma drop_blit src dst n :
  n = length src -> (n <= length dst)%nat -> drop n (blit src dst) = drop n dst.
Proof.
  intros -> Hn. unfold blit. rewrite take_ge by lia. by rewrite drop_app_length.
Qed.

Lemma ble_bytes_val (be : bool) n v :
  (if be then be_val else le_val) ((if be then be_bytes else le_bytes) n v)
  = v mod 2 ^ (8 * Z.of_nat n).
Proof. destruct be; [apply be_val_be_bytes | apply le_val_le_bytes]. Qed.

Lemma ble_bytes_length (be : bool) n v : length ((if be then be_bytes else le_bytes) n v) = n.
Proof. destruct be; [apply length_be_bytes | apply length_le_bytes]. Qed.

Lemma ble_bytes_bytes (be : bool) n v : bytes ((if be then be_bytes else le_bytes) n v).
Proof. destruct be; [apply be_bytes_bytes | apply le_bytes_bytes]. Qed.

(** C31: in either byte order and at each of the four widths, reading what
    [r_write_ble] wrote gives the value back modulo the width, and no byte
    beyond the width changes. *)
Theorem r_read_ble_write_ble dst val be n :
  n ∈ [1; 2; 4; 8]%nat -> bytes dst -> (n <= length dst)%nat ->
  r_read_ble (r_write_ble dst val be (8 * Z.of_nat n)) be (8 * Z.of_nat n)
    = val mod 2 ^ (8 * Z.of_nat n)
  /\ drop n (r_write_ble dst val be (8 * Z.of_nat n)) = drop n dst.
Proof.
  intros Hn Hb Hl.
  assert (8 * Z.of_nat n ∈ [8; 16; 32; 64]) as Hin by (set_unfold; lia).
  rewrite (r_write_ble_spec _ _ _ _ n) by done.
  split; [|apply drop_blit; [by rewrite ble_bytes_length|done]].
  rewrite (r_read_ble_spec _ _ _ n); [|done|done|..].
  - rewrite take_blit_ge by (rewrite ?ble_bytes_length; done). apply ble_bytes_val.
  - apply blit_bytes; [apply ble_bytes_bytes|done].
  - by rewrite length_blit.
Qed.

Lemma r_read_ble_write_ble_witness :
  (2%nat ∈ [1; 2; 4; 8]%nat) /\
  r_read_ble (r_write_ble [1; 2; 3] 0x1abcd true 16) true 16 = 0x1abcd mod 2 ^ 16.
Proof.
  split; [set_solver|].
  exact (proj1 (r_read_ble_write_ble [1; 2; 3] 0x1abcd true 2%nat ltac:(set_solver)
    ltac:(repeat constructor; unfold is_byte; lia) ltac:(simpl; lia))).
Defined.

(** What an operation of [w] bits should answer when the mathematical result is [r]. *)
Definition in_width (w r : Z) : option Z := if (0 <=? r) && (r <? 2 ^ w) then Some r else None.

(** The three operations of a width, on all its operands. *)
Definition exact_ops (w : Z) (add mul sub : Z -> Z -> option Z) : Prop :=
  forall a b, 0 <= a < 2 ^ w -> 0 <= b < 2 ^ w ->
    add a b = in_width w (a + b) /\ mul a b = in_width w (a * b) /\ sub a b = in_width w (a - b).

Lemma in_width_in w r : 0 <= r < 2 ^ w -> Some (r mod (2 ^ w - 1 + 1)) = in_width w r.
Proof.
  intros H. replace (2 ^ w - 1 + 1) with (2 ^ w) by lia. rewrite Z.mod_small by done.
  unfold in_width. by destruct (Z.leb_spec 0 r), (Z.ltb_spec r (2 ^ w)); try lia.
Qed.

Lemma in_width_out w r : r < 0 \/ 2 ^ w <= r -> None = in_width w r.
Proof. intros H. unfold in_width. by destruct (Z.leb_spec 0 r), (Z.ltb_spec r (2 ^ w)); try lia. Qed.

Lemma UT_checked w : 0 < w -> exact_ops w (UT_ADD (2 ^ w - 1)) (UT_MUL (2 ^ w - 1)) (UT_SUB (2 ^ w - 1)).
Proof.
  intros Hw a b Ha Hb. unfold UT_ADD, UT_MUL, UT_SUB, z2b. repeat split.
  - destruct (Z.ltb_spec (2 ^ w - 1 - a) b); [apply in_width_out|apply in_width_in]; lia.
  - destruct (Z.eqb_spec a 0) as [->|Ha0]; simpl; [apply in_width_in; lia|].
    pose proof (Z.mul_div_le (2 ^ w - 1) a ltac:(lia)).
    pose proof (Z.mul_succ_div_gt (2 ^ w - 1) a ltac:(lia)).
    destruct (Z.ltb_spec ((2 ^ w - 1) / a) b); [apply in_width_out|apply in_width_in]; nia.
  - rewrite Z.gtb_ltb. destruct (Z.ltb_spec a b); [apply in_width_out|apply in_width_in]; lia.
Qed.

(** C32: each of the twelve overflow-checked operations of [r_endian.h] succeeds, on any
    operands of its width, exactly when the mathematical result fits that width, and then
    stores it; otherwise it answers 0. *)
Theorem UT_ops_exact :
  exact_ops 64 UT64_ADD UT64_MUL UT64_SUB /\ exact_ops 32 UT32_ADD UT32_MUL UT32_SUB
  /\ exact_ops 16 UT16_ADD UT16_MUL UT16_SUB /\ exact_ops 8 UT8_ADD UT8_MUL UT8_SUB.
Proof. repeat split; by apply UT_checked. Qed.

(** [r_swap_st16] does not swap: whatever its operand, the result is 0 or -1. *)
Theorem r_swap_st16_constant val : r_swap_st16 val = 0 \/ r_swap_st16 val = -1.
Proof.
  unfold r_swap_st16. cbv zeta.
  set (v := s16 (Z.lor (Z.land _ _) _)).
  assert (- 2 ^ 15 <= v < 2 ^ 15) as Hv by (apply (swrap_range 16); lia).
  assert (Z.shiftr v 16 = 0 \/ Z.shiftr v 16 = -1) as Hs
    by (rewrite Z.shiftr_div_pow2 by lia; zlia).
  assert (forall c, s16 (Z.lor (Z.shiftl v 16) c) = s16 c) as E.
  { intros c. unfold s16, swrap.
    replace (Z.lor (Z.shiftl v 16) c mod 2 ^ 16) with (c mod 2 ^ 16); [done|].
    zbits. destruct (Z.ltb_spec i 16).
    - rewrite !Z.mod_pow2_bits_low by lia. autorewrite with zbits.
      by rewrite (Z.testbit_neg_r v) by lia.
    - by rewrite !Z.mod_pow2_bits_high by lia. }
  rewrite E. destruct Hs as [-> | ->]; [left|right]; reflexivity.
Qed.
