(* ===== verification/Mem.v ===== *)
(** * Memory helpers

    The buffer functions of [libr/util/mem.c] that the register and ESIL code
    rely on: bit copies, endian swaps, reversal, search and repetition. *)

From S2P Require Import Prelude Endian.

(** [memcmp (a, b, n)]: the difference of the first bytes that differ. *)
Fixpoint memcmp (n : nat) (a b : list Z) : Z :=
  match n with
  | O => 0
  | S n => if byte_at a 0 =? byte_at b 0 then memcmp n (drop 1 a) (drop 1 b)
           else byte_at a 0 - byte_at b 0
  end.

Fixpoint r_mem_eq_loop (n : nat) (a b : list Z) : bool :=
  match n with
  | O => true
  | S n =>
      if negb (byte_at a 0 =? byte_at b 0) then false
      else r_mem_eq_loop n (drop 1 a) (drop 1 b)
  end.
Definition r_mem_eq (a b : list Z) (len : Z) : bool := r_mem_eq_loop (Z.to_nat len) a b.

(** The two nested loops share the counter [i]; [j] restarts at 0 each time
    the inner loop ends.  With [osize <= 0] the outer loop makes no progress:
    [None] is an exhausted fuel. *)
Fixpoint r_mem_copyloop_fuel (fuel : nat) (dest orig : list Z) (dsize osize : Z) (i j : nat)
    : option (list Z) :=
  match fuel with
  | O => None
  | S fuel =>
      if Z.of_nat i <? dsize then
        if Z.of_nat j <? osize
        then r_mem_copyloop_fuel fuel (<[i := byte_at orig j]> dest) orig dsize osize (S i) (S j)
        else r_mem_copyloop_fuel fuel dest orig dsize osize i 0
      else Some dest
  end.
Definition r_mem_copyloop (dest orig : list Z) (dsize osize : Z) : option (list Z) :=
  r_mem_copyloop_fuel (2 * Z.to_nat dsize + 2) dest orig dsize osize 0 0.

Definition r_mem_cmp_mask (dest orig mask : list Z) (len : nat) : Z :=
  let masked l := zip_with Z.land (take len l) (take len mask) in
  memcmp len (masked dest) (masked orig).

Definition r_mem_copybits (dst src : list Z) (bits : Z) : list Z :=
  let nbytes := Z.to_nat (Z.quot bits 8) in
  let bits := Z.rem bits 8 in
  let dst := blit (take nbytes src) dst in
  if z2b bits then
    let '(srcmask, dstmask) :=
      match bits with
      | 1 => (0x80, 0x7f) | 2 => (0xc0, 0x3f) | 3 => (0xe0, 0x1f) | 4 => (0xf0, 0x0f)
      | 5 => (0xf8, 0x07) | 6 => (0xfc, 0x03) | 7 => (0xfe, 0x01) | _ => (0, 0)
      end in
    <[nbytes := Z.lor (Z.land (byte_at dst nbytes) dstmask)
                      (Z.land (byte_at src nbytes) srcmask)]> dst
  else dst.

(** The offsets are accepted and ignored. *)
Definition r_mem_copybits_delta (dst : list Z) (doff : Z) (src : list Z) (soff bits : Z)
    : list Z :=
  r_mem_copybits dst src bits.

Definition r_mem_get_num (b : list Z) (size : Z) : Z :=
  match size with
  | 1 => r_read_le8 b
  | 2 => r_read_le16 b
  | 4 => r_read_le32 b
  | 8 => r_read_le64 b
  | _ => 0
  end.

Definition r_mem_set_num (dest : list Z) (dest_size num : Z) : option (list Z) :=
  match dest_size with
  | 1 => Some (r_write_le8 dest (u8 num))
  | 2 => Some (r_write_le16 dest (u16 num))
  | 4 => Some (r_write_le32 dest (u32 num))
  | 8 => Some (r_write_le64 dest num)
  | _ => None
  end.

(** [dest] and [orig] may be the same buffer: every case reads what it needs
    before it overwrites it. *)
Definition r_mem_swapendian (dest orig : list Z) (size : Z) : list Z :=
  match size with
  | 1 => blit [byte_at orig 0] dest
  | 2 => blit [byte_at orig 1; byte_at orig 0] dest
  | 4 => blit [byte_at orig 3; byte_at orig 2; byte_at orig 1; byte_at orig 0] dest
  | 8 => blit [byte_at orig 7; byte_at orig 6; byte_at orig 5; byte_at orig 4;
               byte_at orig 3; byte_at orig 2; byte_at orig 1; byte_at orig 0] dest
  | _ => blit (take (Z.to_nat size) orig) dest
  end.

Definition r_mem_swaporcopy (dest src : list Z) (len : Z) (big_endian : bool) : list Z :=
  if big_endian then r_mem_swapendian dest src len
  else blit (take (Z.to_nat len) src) dest.

(** [n] candidates, [align] apart, the first at [i]. *)
Fixpoint r_mem_mem_loop (n : nat) (align i : nat) (haystack needle : list Z) (nlen : nat)
    : option nat :=
  match n with
  | O => None
  | S n =>
      if memcmp nlen (drop i haystack) needle =? 0 then Some i
      else r_mem_mem_loop n align (i + align) haystack needle nlen
  end.

Definition r_mem_mem (haystack : list Z) (hlen : Z) (needle : list Z) (nlen : Z)
    : option nat :=
  let until := hlen - nlen + 1 in
  if (hlen <? 1) || (nlen <? 1) then None
  else r_mem_mem_loop (Z.to_nat until) 1 0 haystack needle (Z.to_nat nlen).

Definition r_mem_mem_aligned (haystack : list Z) (hlen : Z) (needle : list Z)
    (nlen align : Z) : option nat :=
  let until := hlen - nlen + 1 in
  let align := if align <? 1 then 1 else align in
  if (hlen <? 1) || (nlen <? 1) then None
  else
    let until := if align >? 1 then until - Z.rem until align else until in
    (* the values 0, align, 2 * align, ... below [until] *)
    r_mem_mem_loop (Z.to_nat ((until + align - 1) / align)) (Z.to_nat align) 0
      haystack needle (Z.to_nat nlen).

(** [n] swaps from the index [i] on. *)
Fixpoint r_mem_reverse_loop (n i l : nat) (b : list Z) : list Z :=
  match n with
  | O => b
  | S n =>
      let tmp := byte_at b i in
      let b := <[i := byte_at b (l - i - 1)]> b in
      let b := <[(l - i - 1)%nat := tmp]> b in
      r_mem_reverse_loop n (S i) l b
  end.
Definition r_mem_reverse (b : list Z) (l : Z) : list Z :=
  r_mem_reverse_loop (Z.to_nat (Z.quot l 2)) 0 (Z.to_nat l) b.

(** ** Properties *)

(** The window of [n] bytes at [i] is the needle. *)
Definition occurs (haystack needle : list Z) (n i : nat) : Prop :=
  take n (drop i haystack) = take n needle.

Lemma memcmp_eq_0 n a b :
  (n <= length a)%nat -> (n <= length b)%nat -> memcmp n a b = 0 <-> take n a = take n b.
Proof.
  revert a b; induction n as [|n IH]; intros [|x a] [|y b] Ha Hb; simpl in *; try lia; try done.
  unfold byte_at; simpl. rewrite !drop_0. destruct (Z.eqb_spec x y) as [->|Hne].
  - rewrite IH by lia. split; [by intros ->|by intros [= ->]].
  - split; [lia|intros [= ? ?]; lia].
Qed.

Lemma r_mem_mem_loop_spec n align i h d nlen :
  (forall k, (k < n)%nat -> (i + k * align + nlen <= length h)%nat) ->
  (nlen <= length d)%nat ->
  match r_mem_mem_loop n align i h d nlen with
  | Some r => exists k, (k < n)%nat /\ r = (i + k * align)%nat /\ occurs h d nlen r /\
                forall k', (k' < k)%nat -> ~ occurs h d nlen (i + k' * align)
  | None => forall k, (k < n)%nat -> ~ occurs h d nlen (i + k * align)
  end.
Proof.
  revert i; induction n as [|n IH]; intros i Hh Hd; simpl; [lia|].
  pose proof (memcmp_eq_0 nlen (drop i h) d) as E.
  specialize (Hh 0%nat) as H0. rewrite length_drop in E. unfold occurs in *.
  destruct (Z.eqb_spec (memcmp nlen (drop i h) d) 0) as [Hc|Hc].
  - exists 0%nat. rewrite Nat.mul_0_l, Nat.add_0_r. split_and!; [lia|done| |lia].
    apply E; [lia..|done].
  - specialize (IH (i + align)%nat).
    assert (forall k, i + align + k * align = i + S k * align)%nat as Ek by lia.
    destruct (r_mem_mem_loop n align (i + align) h d nlen) as [r|].
    + destruct IH as (k & Hk & -> & Ho & Hno); [|done|].
      { intros k Hk. rewrite Ek. apply Hh. lia. }
      exists (S k). split_and!; [lia|lia|done|]. intros [|k'] Hk' Ho'.
      * apply Hc, E; [lia..|]. by rewrite Nat.mul_0_l, Nat.add_0_r in Ho'.
      * rewrite <- Ek in Ho'. apply (Hno k'); [lia|done].
    + intros [|k] Hk Ho'.
      * apply Hc, E; [lia..|]. by rewrite Nat.mul_0_l, Nat.add_0_r in Ho'.
      * rewrite <- Ek in Ho'. revert Ho'. apply IH; [|done|lia].
        intros k' Hk'. rewrite Ek. apply Hh. lia.
Qed.

(** [r_mem_mem] returns the first occurrence of a non-empty needle inside
    the haystack, and NULL exactly when there is none. *)
Theorem r_mem_mem_first (h d : list Z) :
  d <> [] -> h <> [] ->
  match r_mem_mem h (Z.of_nat (length h)) d (Z.of_nat (length d)) with
  | Some i => (i + length d <= length h)%nat /\ occurs h d (length d) i /\
              forall j, (j < i)%nat -> ~ occurs h d (length d) j
  | None => forall j, (j + length d <= length h)%nat -> ~ occurs h d (length d) j
  end.
Proof.
  intros Hd Hh. unfold r_mem_mem.
  assert (0 < length d)%nat by (destruct d; simpl; [done|lia]).
  assert (0 < length h)%nat by (destruct h; simpl; [done|lia]).
  destruct (Z.ltb_spec (Z.of_nat (length h)) 1); [lia|]. destruct (Z.ltb_spec (Z.of_nat (length d)) 1); [lia|].
  simpl. rewrite Nat2Z.id.
  pose proof (r_mem_mem_loop_spec (Z.to_nat (Z.of_nat (length h) - Z.of_nat (length d) + 1)) 1 0 h d (length d)) as L.
  destruct (r_mem_mem_loop _ 1 0 h d (length d)) as [i|].
  - destruct L as (k & Hk & -> & Ho & Hno); [lia|lia|]. split_and!; [lia|done|].
    intros j Hj. specialize (Hno j). rewrite Nat.mul_1_r in Hno. apply Hno. lia.
  - intros j Hj. specialize (L ltac:(lia) ltac:(lia) j). rewrite Nat.mul_1_r in L.
    apply L. lia.
Qed.

Lemma r_mem_mem_first_witness :
  [7; 8] <> [] /\ r_mem_mem [1; 7; 7; 8; 7; 8] 6 [7; 8] 2 = Some 2%nat /\
  occurs [1; 7; 7; 8; 7; 8] [7; 8] 2 2.
Proof.
  split; [done|]. split; [reflexivity|].
  exact (proj1 (proj2 (r_mem_mem_first [1; 7; 7; 8; 7; 8] [7; 8] ltac:(done) ltac:(done)))).
Defined.

Lemma length_r_mem_reverse_loop n i l b : length (r_mem_reverse_loop n i l b) = length b.
Proof.
  revert i b; induction n as [|n IH]; intros i b; simpl; [done|].
  by rewrite IH, !length_insert.
Qed.

Lemma r_mem_reverse_loop_lookup n i l b j :
  (2 * (i + n) <= l)%nat -> (l <= length b)%nat -> (j < length b)%nat ->
  r_mem_reverse_loop n i l b !! j
  = if decide (i <= j < i + n \/ l - i - n <= j < l - i)%nat
    then b !! (l - 1 - j)%nat else b !! j.
Proof.
  revert i b j; induction n as [|n IH]; intros i b j Hn Hl Hj; simpl.
  { rewrite decide_False by lia. done. }
  rewrite IH by (rewrite ?length_insert; lia).
  assert (forall k, (k < length b)%nat ->
    <[(l - i - 1)%nat := byte_at b i]> (<[i := byte_at b (l - i - 1)]> b) !! k
    = if decide (k = i \/ k = l - i - 1)%nat then b !! (l - 1 - k)%nat else b !! k) as E.
  { intros k Hk. unfold byte_at. destruct (lookup_lt_is_Some_2 b i) as [x Hx]; [lia|].
    destruct (lookup_lt_is_Some_2 b (l - i - 1)%nat) as [y Hy]; [lia|].
    rewrite Hx, Hy. simpl. rewrite !list_lookup_insert, length_insert.
    case_decide; [|case_decide]; case_decide; try lia.
    - replace (l - 1 - k)%nat with i by lia. done.
    - destruct (decide (k = l - i - 1)%nat); [lia|].
      replace (l - 1 - k)%nat with (l - i - 1)%nat by lia. done.
    - done. }
  rewrite !E by lia.
  repeat case_decide; try lia; try done; f_equal; lia.
Qed.

Lemma r_mem_reverse_spec b (l : nat) :
  (l <= length b)%nat -> r_mem_reverse b (Z.of_nat l) = reverse (take l b) ++ drop l b.
Proof.
  intros Hl. apply list_eq. intros j. unfold r_mem_reverse.
  rewrite Nat2Z.id, Z.quot_div_nonneg by lia.
  set (n := Z.to_nat (Z.of_nat l / 2)).
  assert (2 * n <= l <= 2 * n + 1)%nat as Hn by (subst n; zlia).
  destruct (decide (j < length b)%nat).
  2:{ rewrite !(proj2 (lookup_ge_None _ _)); [done| |].
      - rewrite length_app, length_reverse, length_take, length_drop. lia.
      - rewrite length_r_mem_reverse_loop. lia. }
  rewrite r_mem_reverse_loop_lookup by lia. destruct (decide (j < l)%nat).
  - rewrite lookup_app_l by (rewrite length_reverse, length_take; lia).
    rewrite reverse_lookup by (rewrite length_take; lia). rewrite length_take, lookup_take_lt by lia.
    case_decide; f_equal; lia.
  - rewrite lookup_app_r by (rewrite length_reverse, length_take; lia).
    rewrite lookup_drop, length_reverse, length_take, decide_False by lia. f_equal; lia.
Qed.

(** [r_mem_reverse] reverses the first [l] bytes and keeps the others, it
    undoes itself, and on 1, 2, 4 and 8 bytes [r_mem_swapendian] in place is
    the same function. *)
Theorem r_mem_reverse_swapendian b (l : nat) :
  (l <= length b)%nat ->
  r_mem_reverse b (Z.of_nat l) = reverse (take l b) ++ drop l b
  /\ r_mem_reverse (r_mem_reverse b (Z.of_nat l)) (Z.of_nat l) = b
  /\ (l ∈ [1; 2; 4; 8]%nat -> r_mem_swapendian b b (Z.of_nat l) = r_mem_reverse b (Z.of_nat l)).
Proof.
  intros Hl. split; [by apply r_mem_reverse_spec|]. split.
  - rewrite r_mem_reverse_spec;
      rewrite r_mem_reverse_spec by done;
      rewrite ?length_app, ?length_reverse, ?length_take, ?length_drop; [|lia].
    rewrite take_app_le, drop_app_ge; rewrite ?length_reverse, ?length_take; [|lia..].
    rewrite (take_ge (reverse _)) by (rewrite length_reverse, length_take; lia).
    rewrite reverse_involutive. replace (l - l `min` length b)%nat with 0%nat by lia.
    by rewrite drop_0, take_drop.
  - intros Hin. rewrite r_mem_reverse_spec by done.
    set_unfold; destruct Hin as [->|[->|[->|[->|[]]]]]; expose_bytes;
      unfold r_mem_swapendian, blit, byte_at; simpl; by rewrite ?take_nil, ?drop_0.
Qed.

Lemma r_mem_reverse_swapendian_witness :
  (4 <= length [1; 2; 3; 4; 5])%nat /\
  r_mem_reverse [1; 2; 3; 4; 5] 4 = [4; 3; 2; 1; 5].
Proof.
  split; [simpl; lia|].
  exact (proj1 (r_mem_reverse_swapendian [1; 2; 3; 4; 5] 4 ltac:(simpl; lia))).
Defined.

Lemma r_mem_copyloop_fuel_spec fuel dest orig (D o i j : nat) :
  (0 < o)%nat -> (D <= length dest)%nat -> (i <= D)%nat -> (j <= o)%nat ->
  (i mod o = j mod o)%nat ->
  (2 * (D - i) + (if decide (j = o) then 2 else 1) <= fuel)%nat ->
  (forall k, (k < i)%nat -> dest !! k = Some (byte_at orig (k mod o))) ->
  exists r, r_mem_copyloop_fuel fuel dest orig (Z.of_nat D) (Z.of_nat o) i j = Some r
    /\ length r = length dest
    /\ forall k, (k < D)%nat -> r !! k = Some (byte_at orig (k mod o)).
Proof.
  intros Ho. revert dest i j; induction fuel as [|fuel IH];
    intros dest i j HD Hi Hj Hm Hf Hk; simpl; [case_decide; lia|].
  destruct (Z.ltb_spec (Z.of_nat i) (Z.of_nat D)).
  2:{ exists dest. split_and!; [done|done|]. intros k ?. apply Hk. lia. }
  destruct (Z.ltb_spec (Z.of_nat j) (Z.of_nat o)).
  - destruct (IH (<[i := byte_at orig j]> dest) (S i) (S j)) as (r & Hr & Hl & Hlk);
      rewrite ?length_insert; try lia.
    + rewrite <- (Nat.add_1_r i), <- (Nat.add_1_r j), (Nat.Div0.add_mod i), Hm.
      by rewrite <- Nat.Div0.add_mod.
    + rewrite decide_False in Hf by lia. case_decide; lia.
    + intros k ?. destruct (decide (k = i)) as [->|].
      * rewrite list_lookup_insert_eq by lia. by rewrite Hm, (Nat.mod_small j) by lia.
      * rewrite list_lookup_insert_ne by lia. apply Hk. lia.
    + exists r. split_and!; [done| |done]. by rewrite Hl, length_insert.
  - rewrite decide_True in Hf by lia. replace j with o in Hm by lia.
    apply IH; try lia; try done.
    + by rewrite Hm, Nat.Div0.mod_same, Nat.Div0.mod_0_l.
    + rewrite decide_False by lia. lia.
Qed.

Lemma r_mem_copyloop_stuck fuel dest orig dsize osize :
  0 < dsize -> osize <= 0 -> r_mem_copyloop_fuel fuel dest orig dsize osize 0 0 = None.
Proof.
  intros Hd Ho. induction fuel as [|fuel IH]; simpl; [done|].
  destruct (Z.ltb_spec (Z.of_nat 0) dsize); [|lia].
  destruct (Z.ltb_spec (Z.of_nat 0) osize); [lia|done].
Qed.

(** With a non-empty pattern [r_mem_copyloop] terminates and fills the
    first [dsize] bytes with the pattern repeated; with an empty pattern and
    something to fill, no amount of fuel lets it return. *)
Theorem r_mem_copyloop_repeats dest orig (D o : nat) :
  (D <= length dest)%nat ->
  ((0 < o)%nat -> exists r, r_mem_copyloop dest orig (Z.of_nat D) (Z.of_nat o) = Some r /\
     length r = length dest /\
     forall k, (k < D)%nat -> r !! k = Some (byte_at orig (k mod o)))
  /\ ((0 < D)%nat -> forall fuel, r_mem_copyloop_fuel fuel dest orig (Z.of_nat D) 0 0 0 = None).
Proof.
  intros HD. split.
  - intros Ho. unfold r_mem_copyloop. rewrite Nat2Z.id.
    apply r_mem_copyloop_fuel_spec; try lia; case_decide; lia.
  - intros HD0 fuel. apply r_mem_copyloop_stuck; lia.
Qed.

Lemma r_mem_copyloop_repeats_witness :
  r_mem_copyloop [0; 0; 0; 0; 9] [1; 2; 3] 4 3 = Some [1; 2; 3; 1; 9]
  /\ r_mem_copyloop_fuel 50 [0; 0; 0; 0; 9] [1; 2; 3] 4 0 0 0 = None.
Proof.
  split; [reflexivity|].
  exact (proj2 (r_mem_copyloop_repeats [0; 0; 0; 0; 9] [1; 2; 3] 4 3
    ltac:(simpl; lia)) ltac:(lia) 50%nat).
Defined.
