(* ===== verification/Num.v ===== *)
(** * Numbers in text: [r_num_get] and the ["0x%llx"] printer

    [r_num_get] of [libr/util/num.c] as ESIL calls it, without an [RNum] and so
    without the callback that resolves names, on top of a model of the C
    library's [strtoull] and of the [sscanf] conversions it uses.  The printer
    is the ["0x%" PFMT64x] of [r_anal_esil_pushnum]. *)

From S2P Require Import Prelude.

(** ** Character classes *)

Definition isspace (c : ascii) : bool :=
  let x := code c in (x =? 32) || ((9 <=? x) && (x <=? 13)).
Definition isdigit (c : ascii) : bool :=
  let x := code c in (48 <=? x) && (x <=? 57).
Definition is_char (c : ascii) (x : ascii) : bool := Ascii.eqb c x.

(** The value of a digit, up to base 36. *)
Definition digit_val (c : ascii) : option Z :=
  let x := code c in
  if (48 <=? x) && (x <=? 57) then Some (x - 48)
  else if (97 <=? x) && (x <=? 122) then Some (x - 87)
  else if (65 <=? x) && (x <=? 90) then Some (x - 55)
  else None.

Fixpoint skip_spaces (s : string) : string :=
  match s with
  | String c s' => if isspace c then skip_spaces s' else s
  | EmptyString => s
  end.

(** At most [w] digits of the base, on top of [acc]: the value, whether there
    was a digit, and the rest. *)
Fixpoint scan_digits (base : Z) (w : nat) (s : string) (acc : Z) (seen : bool)
    : Z * bool * string :=
  match w, s with
  | S w, String c s' =>
      match digit_val c with
      | Some d => if d <? base then scan_digits base w s' (acc * base + d) true
                  else (acc, seen, s)
      | None => (acc, seen, s)
      end
  | _, _ => (acc, seen, s)
  end.

(** An optional sign, counted against the width. *)
Definition scan_sign (w : nat) (s : string) : bool * nat * string :=
  match w, s with
  | S w', String c s' =>
      if is_char c "-" then (true, w', s') else if is_char c "+" then (false, w', s')
      else (false, w, s)
  | _, _ => (false, w, s)
  end.

(** ** [strtoull] and [sscanf] *)

(** [strtoull (s, &end, base)]: the value, saturated, and whether [end] moved. *)
Definition strtoull (s : string) (base : Z) : Z * bool :=
  let s := skip_spaces s in
  let '(neg, _, s) := scan_sign (String.length s) s in
  let prefixed := (base =? 16) && is_char (char_at s 0) "0"
    && (is_char (char_at s 1) "x" || is_char (char_at s 1) "X") in
  let '(v, seen, _) :=
    if prefixed then scan_digits base (String.length s) (str_drop 2 s) 0 true
    else scan_digits base (String.length s) s 0 false in
  (if v >? UT64_MAX then UT64_MAX else if (neg : bool) then u64 (- v) else v, seen).

(** [strtoul (s, &end, base)] on a 64-bit [long]: the value and [end].  With
    base 0 the prefix selects 16, 8 or 10; a ["0x"] that no digit follows is
    the number 0 and leaves the [x]. *)
Definition strtoul (str : string) (base : Z) : Z * string :=
  let s := skip_spaces str in
  let '(neg, _, s) := scan_sign (String.length s) s in
  let hexpfx := is_char (char_at s 0) "0"
    && (is_char (char_at s 1) "x" || is_char (char_at s 1) "X")
    && match digit_val (char_at s 2) with Some d => d <? 16 | None => false end in
  let '(b, s') :=
    if ((base =? 0) || (base =? 16)) && hexpfx then (16, str_drop 2 s)
    else if base =? 0 then (if is_char (char_at s 0) "0" then 8 else 10, s)
    else (base, s) in
  let '(v, seen, rest) := scan_digits b (String.length s') s' 0 false in
  if (seen : bool) then
    (if v >? UT64_MAX then UT64_MAX else if (neg : bool) then u64 (- v) else v, rest)
  else (0, str).

(** One integer conversion of [sscanf], [w] the field width: the signed value
    before any conversion to the type of the argument, and the rest of the
    input; [None] is a matching failure.  After a leading 0, base 16 swallows
    an [x]. *)
Definition scan_int (base : Z) (w : nat) (s : string) : option (Z * string) :=
  let s := skip_spaces s in
  let '(neg, w, s) := scan_sign w s in
  let prefixed := (base =? 16) && is_char (char_at s 0) "0" && (2 <=? Z.of_nat w)
    && (is_char (char_at s 1) "x" || is_char (char_at s 1) "X") in
  let '(v, seen, rest) :=
    if prefixed then scan_digits base (w - 2) (str_drop 2 s) 0 true
    else scan_digits base w s 0 false in
  if (seen : bool) then Some (if (neg : bool) then - v else v, rest) else None.

(** ["%llx"] and ["%llo"] store an unsigned result, saturated. *)
Definition sscanf_ull (base : Z) (s : string) : option Z :=
  match scan_int base (String.length s) s with
  | Some (v, _) => Some (if Z.abs v >? UT64_MAX then UT64_MAX else u64 v)
  | None => None
  end.

(** ["%lld"] into a [ut64]. *)
Definition sscanf_lld (s : string) : option Z :=
  match scan_int 10 (String.length s) s with
  | Some (v, _) => Some (u64 (Z.max (- 2 ^ 63) (Z.min (2 ^ 63 - 1) v)))
  | None => None
  end.

(** ["%04x"] into a [ut32], with the rest of the input. *)
Definition sscanf_04x (s : string) : option (Z * string) :=
  match scan_int 16 4 s with
  | Some (v, rest) => Some (u32 v, rest)
  | None => None
  end.

(** A literal of a format string. *)
Definition match_lit (lit s : string) : option string :=
  if String.prefix lit s then Some (str_drop (String.length lit) s) else None.

(** ["0x%04x:0x%04x"] and ["0x%04x:%04x"], both conversions required. *)
Definition sscanf_seg (mid s : string) : option (Z * Z) :=
  s ← match_lit "0x" s;
  '(a, s) ← sscanf_04x s;
  s ← match_lit mid s;
  '(b, _) ← sscanf_04x s;
  Some (a, b).

(** ** [r_num_get (NULL, str)] *)

(** The loop [ret |= 1 << j] over the digits [i, i - 1, ..., lo] of [str]: the
    shift is an [int] shift, so a 1 at position 31 or above is undefined. *)
Fixpoint bin_loop (n : nat) (str : string) (i : nat) (j : Z) (ret : Z) : option Z :=
  match n with
  | O => Some ret
  | S n =>
      if is_char (char_at str i) "1" then
        if j <? 31 then bin_loop n str (i - 1) (j + 1) (Z.lor ret (Z.shiftl 1 j)) else None
      else if negb (is_char (char_at str i) "0") then Some ret
      else bin_loop n str (i - 1) (j + 1) ret
  end.

(** [None] is undefined behaviour. *)
Definition r_num_get_scan (str : string) : option Z :=
  let strlen := String.length str in
  let len := s8 (Z.of_nat strlen) in
  if is_char (char_at str 0) "0" && is_char (char_at str 1) "b" then
    (* the sscanf ("0x%llx") that follows the loop cannot match *)
    bin_loop (strlen - 1) str (strlen - 1) 0 0
  else if is_char (char_at str 0) "'" then
    Some (Z.land (code (char_at str 1)) 0xff)
  else if is_char (char_at str 0) "0" && is_char (char_at str 1) "x" then
    Some (fst (strtoull (str_drop 2 str) 16))
  else
    let lch := char_at str (if len >? 0 then Z.to_nat (len - 1) else 0) in
    let lch := if is_char (char_at str 0) "0" && negb (is_char lch "b") && negb (is_char lch "h")
               then "o"%char else lch in
    if is_char lch "h" then Some (default 0 (sscanf_ull 16 str))
    else if is_char lch "o" then Some (default 0 (sscanf_ull 8 str))
    else if is_char lch "b" then bin_loop (strlen - 1) str (strlen - 2) 0 0
    else if is_char lch "K" || is_char lch "k" then
      Some (u64 (default 0 (sscanf_lld str) * 1024))
    else if is_char lch "M" || is_char lch "m" then
      Some (u64 (default 0 (sscanf_lld str) * (1024 * 1024)))
    else if is_char lch "G" || is_char lch "g" then
      Some (u64 (default 0 (sscanf_lld str) * (1024 * 1024 * 1024)))
    else Some (fst (strtoull str 10)).

Fixpoint skip_blanks (s : string) : string :=
  match s with
  | String c s' => if is_char c " " then skip_blanks s' else s
  | EmptyString => s
  end.

Definition r_num_get (str : string) : option Z :=
  let str := skip_blanks str in
  if bool_decide (str = EmptyString) then Some 0
  else
    let len := s8 (Z.of_nat (String.length str)) in
    if negb (is_char (char_at str 1) "000") && negb (is_char (char_at str 2) "000")
       && is_char (char_at str 0) "'" && is_char (char_at str 2) "'"
    then Some (u64 (s8 (code (char_at str 1))))
    else if (len >? 3) && is_char (char_at str 4) ":" then
      match sscanf_04x str, sscanf_04x (str_drop 5 str) with
      | Some (s, _), Some (a, _) => Some (u32 (u32 (Z.shiftl s 4) + a))
      | _, _ => r_num_get_scan str
      end
    else if (len >? 6) && is_char (char_at str 6) ":" then
      match sscanf_seg ":0x" str with
      | Some (s, a) => Some (u32 (u32 (Z.shiftl s 4) + a))
      | None =>
          match sscanf_seg ":" str with
          | Some (s, a) => Some (u32 (u32 (Z.shiftl s 4) + a))
          | None => r_num_get_scan str
          end
      end
    else r_num_get_scan str.

(** ** The printer *)

Definition hex_char (d : Z) : ascii := chr (if d <? 10 then 48 + d else 87 + d).

(** The digits of ["%llx"] in front of [acc]; 16 digits are enough for 64 bits. *)
Fixpoint hex_digits (fuel : nat) (n : Z) (acc : string) : string :=
  match fuel with
  | O => acc
  | S fuel =>
      let acc := String (hex_char (n mod 16)) acc in
      if n <? 16 then acc else hex_digits fuel (n / 16) acc
  end.

Definition fmt_llx (n : Z) : string := hex_digits 16 n EmptyString.
Definition fmt_0xllx (n : Z) : string := String "0" (String "x" (fmt_llx n)).

Example r_num_get_ex1 : r_num_get "0x10" = Some 16. Proof. reflexivity. Qed.
Example r_num_get_ex2 : r_num_get "  12" = Some 12. Proof. reflexivity. Qed.
Example r_num_get_ex3 : r_num_get "'A'" = Some 65. Proof. reflexivity. Qed.
Example r_num_get_ex4 : r_num_get "1010b" = Some 10. Proof. reflexivity. Qed.
Example r_num_get_ex5 : r_num_get "0b1010" = Some 10. Proof. reflexivity. Qed.
Example r_num_get_ex6 : r_num_get "2K" = Some 2048. Proof. reflexivity. Qed.
Example r_num_get_ex7 : r_num_get "010" = Some 8. Proof. reflexivity. Qed.
Example r_num_get_ex8 : r_num_get "-1" = Some UT64_MAX. Proof. reflexivity. Qed.
Example r_num_get_ex9 : r_num_get "1000:0010" = Some 0x10010. Proof. reflexivity. Qed.
Example r_num_get_ex10 : r_num_get "0x1000:0x0010" = Some 0x10010. Proof. reflexivity. Qed.
Example r_num_get_ex11 : r_num_get "1000h" = Some 0x1000. Proof. reflexivity. Qed.
Example fmt_ex1 : fmt_0xllx 0xdeadbeef = "0xdeadbeef"%string. Proof. reflexivity. Qed.

(** ** Printing and reading back *)

Lemma hex_char_facts d :
  0 <= d < 16 ->
  digit_val (hex_char d) = Some d /\ isspace (hex_char d) = false /\
  is_char (hex_char d) "x" = false /\ is_char (hex_char d) "X" = false /\
  is_char (hex_char d) "-" = false /\ is_char (hex_char d) "+" = false /\
  is_char (hex_char d) ":" = false /\ is_char (hex_char d) "'" = false /\
  is_char (hex_char d) "000" = false.
Proof.
  intros Hd.
  assert (forallb (fun d =>
    bool_decide (digit_val (hex_char d) = Some d) && negb (isspace (hex_char d)) &&
    forallb (fun x => negb (is_char (hex_char d) x)) ["x"; "X"; "-"; "+"; ":"; "'"; "000"]%char)
    (seqZ 0 16) = true) as F by (vm_compute; reflexivity).
  rewrite forallb_forall in F. specialize (F d). rewrite <- list_elem_of_In, elem_of_seqZ in F.
  specialize (F ltac:(lia)). cbn [forallb] in F.
  rewrite !andb_true_iff, !negb_true_iff, bool_decide_eq_true in F. tauto.
Qed.

(** Every character of the string satisfies [P]. *)
Fixpoint str_all (P : ascii -> Prop) (s : string) : Prop :=
  match s with EmptyString => True | String c s => P c /\ str_all P s end.

Definition hex_digit (c : ascii) : Prop := exists d, 0 <= d < 16 /\ c = hex_char d.

Lemma hex_digits_all f n acc :
  str_all hex_digit acc -> str_all hex_digit (hex_digits f n acc).
Proof.
  revert n acc; induction f as [|f IH]; intros n acc Ha; simpl; [done|].
  assert (str_all hex_digit (String (hex_char (n mod 16)) acc)).
  { split; [|done]. exists (n mod 16). split; [zlia|done]. }
  destruct (n <? 16); auto.
Qed.

(** The digits printed for [n] read back as [n], whatever precedes and follows. *)
Lemma scan_hex_digits f n acc :
  (0 < f)%nat -> 0 <= n < 16 ^ Z.of_nat f ->
  exists k, (0 < k <= f)%nat /\
    String.length (hex_digits f n acc) = (k + String.length acc)%nat /\
    forall w a b, scan_digits 16 (k + w) (hex_digits f n acc) a b
                  = scan_digits 16 w acc (a * 16 ^ Z.of_nat k + n) true.
Proof.
  revert n acc; induction f as [|f IH]; intros n acc Hf Hn; [lia|].
  cbn [hex_digits].
  destruct (hex_char_facts (n mod 16) ltac:(zlia)) as [Hd _].
  destruct (Z.ltb_spec n 16).
  - exists 1%nat. split_and!; [lia|lia|done|]. intros w a b.
    cbn [Nat.add scan_digits]. rewrite Hd.
    destruct (Z.ltb_spec (n mod 16) 16); [|zlia].
    rewrite (Z.mod_small n 16) by lia. reflexivity.
  - destruct (decide (f = 0%nat)) as [->|]; [simpl in Hn; lia|].
    replace (16 ^ Z.of_nat (S f)) with (16 * 16 ^ Z.of_nat f) in Hn
      by (rewrite <- Z.pow_succ_r by lia; f_equal; lia).
    destruct (IH (n / 16) (String (hex_char (n mod 16)) acc)) as (k & Hk & Hlen & Hs);
      [lia|zlia|].
    exists (S k). split_and!; [lia|lia|rewrite Hlen; simpl; lia|]. intros w a b.
    replace (S k + w)%nat with (k + S w)%nat by lia. rewrite Hs.
    cbn [scan_digits]. rewrite Hd. destruct (Z.ltb_spec (n mod 16) 16); [|zlia].
    f_equal. replace (Z.of_nat (S k)) with (Z.succ (Z.of_nat k)) by lia.
    rewrite Z.pow_succ_r by lia. zlia.
Qed.

Lemma fmt_llx_hex n : str_all hex_digit (fmt_llx n).
Proof. by apply hex_digits_all. Qed.

(** The first two characters of a string of hex digits. *)
Lemma hex_string_cases s :
  str_all hex_digit s ->
  s = EmptyString \/
  (exists d, 0 <= d < 16 /\ s = String (hex_char d) EmptyString) \/
  (exists d e s', 0 <= d < 16 /\ 0 <= e < 16 /\ s = String (hex_char d) (String (hex_char e) s')).
Proof.
  destruct s as [|c [|c' s]]; simpl; intros H; [by left|right|right].
  - left. destruct H as [(d & ? & ->) _]. eauto.
  - right. destruct H as [(d & ? & ->) [(e & ? & ->) _]]. eauto 10.
Qed.

Lemma strtoull_hex s v n :
  str_all hex_digit s -> s <> EmptyString ->
  scan_digits 16 (String.length s) s 0 false = (v, true, n) -> 0 <= v <= UT64_MAX ->
  strtoull s 16 = (v, true).
Proof.
  intros Hs Hne Hsc Hv. unfold strtoull.
  assert (skip_spaces s = s /\ scan_sign (String.length s) s = (false, String.length s, s)
          /\ is_char (char_at s 1) "x" = false /\ is_char (char_at s 1) "X" = false)
    as (-> & -> & -> & ->).
  { destruct (hex_string_cases s Hs) as [->|[(d & Hd & ->)|(d & e & s' & Hd & He & ->)]];
      [done|..]; destruct (hex_char_facts d Hd) as (?&Hsp&?&?&Hm&Hp&?);
      simpl; rewrite Hsp, Hm, Hp; unfold char_at; simpl; [done|].
    destruct (hex_char_facts e He) as (?&?&Hx&HX&_). done. }
  rewrite andb_false_r, Hsc. destruct (Z.gtb_spec v UT64_MAX); [lia|done].
Qed.

(** A printed number parses back. *)
Lemma r_num_get_fmt n :
  0 <= n < 2 ^ 64 -> r_num_get (fmt_0xllx n) = Some n.
Proof.
  intros Hn. unfold r_num_get, fmt_0xllx.
  destruct (scan_hex_digits 16 n EmptyString) as (k & Hk & Hlen & Hscan);
    [lia|change (16 ^ Z.of_nat 16) with (2 ^ 64); lia|].
  pose proof (fmt_llx_hex n) as Hall.
  specialize (Hscan 0%nat 0 false).
  change (hex_digits 16 n EmptyString) with (fmt_llx n) in *.
  replace (k + 0)%nat with k in Hscan by lia.
  assert (fmt_llx n <> EmptyString) as Hne by (intros E; rewrite E in Hlen; simpl in Hlen; lia).
  assert (strtoull (fmt_llx n) 16 = (n, true)) as Hst.
  { eapply strtoull_hex; [done|done| |unfold UT64_MAX; lia].
    rewrite Hlen. cbn [String.length]. rewrite Nat.add_0_r, Hscan.
    by destruct (String.length _). }
  assert (forall i, is_char (char_at (fmt_llx n) i) ":" = false) as Hcolon.
  { clear -Hall. revert Hall. generalize (fmt_llx n). intros s. unfold char_at.
    induction s as [|c s IH]; intros Hs i; [by destruct i|].
    destruct Hs as [(d & Hd & ->) Hs]. destruct i as [|i]; simpl; [|by apply IH].
    by destruct (hex_char_facts d Hd) as (_&_&_&_&_&_&?&_). }
  cbn [skip_blanks]. change (is_char "0" " ") with false. cbv iota.
  rewrite bool_decide_false by done.
  assert (forall i, char_at (String "0" (String "x" (fmt_llx n))) (S (S i))
                    = char_at (fmt_llx n) i) as Hc by done.
  change (is_char (char_at (String "0" (String "x" (fmt_llx n))) 0) "'") with false.
  rewrite andb_false_r. cbn [andb]. rewrite (Hc 2%nat), (Hc 4%nat), !Hcolon, !andb_false_r.
  clear -Hst. revert Hst. generalize (fmt_llx n). intros t Hst.
  unfold r_num_get_scan. cbn -[strtoull s8]. by rewrite Hst.
Qed.

(** The text that [r_anal_esil_pushnum] leaves on the stack for a 64-bit
    number reads back, through [r_num_get], as that number. *)
Theorem r_num_get_fmt_0xllx n :
  0 <= n < 2 ^ 64 -> r_num_get (fmt_0xllx n) = Some n.
Proof. apply r_num_get_fmt. Qed.

Lemma r_num_get_fmt_0xllx_witness :
  0 <= 0xcafebabe < 2 ^ 64 /\ r_num_get (fmt_0xllx 0xcafebabe) = Some 0xcafebabe.
Proof. split; [lia|]. exact (r_num_get_fmt_0xllx 0xcafebabe ltac:(lia)). Defined.
