(* ===== verification/Sdb.v ===== *)
(** * String hashing and number printing of sdb

    [sdb_hash] and [sdb_itoa] of [shlr/sdb/src/util.c]: the ESIL operator table
    and the interrupt table are keyed by the hexadecimal text of the hash of
    the operator, and of the interrupt number. *)

From S2P Require Import Prelude Num.

Definition CDB_HASHSTART : Z := 5381.

(** [char] is signed. *)
Fixpoint sdb_hash_go (h : Z) (s : string) : Z :=
  match s with
  | EmptyString => h
  | String c s =>
      sdb_hash_go (Z.lxor (u32 (h + u32 (Z.shiftl h 5))) (u32 (s8 (code c)))) s
  end.
Definition sdb_hash (s : string) : Z := sdb_hash_go CDB_HASHSTART s.

(** [lookup[n % base]], and at most [imax = 62] digits. *)
Fixpoint itoa_digits (fuel : nat) (n base : Z) (acc : string) : string :=
  match fuel with
  | O => acc
  | S fuel =>
      if n =? 0 then acc
      else itoa_digits fuel (n / base) base (String (hex_char (n mod base)) acc)
  end.

(** [None] is the NULL of a base outside 1..16. *)
Definition sdb_itoa (n base : Z) : option string :=
  let base := if base <? 0 then - base else base in
  if (base >? 16) || (base <? 1) then None
  else if n =? 0 then Some "0"%string
  else
    let digits := itoa_digits 62 n base EmptyString in
    Some (if base <=? 10 then digits else String "0" (String "x" digits)).

(** The key of a table indexed by a number. *)
Definition sdb_key16 (n : Z) : string := default EmptyString (sdb_itoa n 16).

Example sdb_hash_ex : sdb_hash "STACK" = 0xdd1edcb. Proof. vm_compute. reflexivity. Qed.
Example sdb_itoa_ex : sdb_itoa 255 16 = Some "0xff"%string. Proof. reflexivity. Qed.
