(* ===== verification/Reg.v ===== *)
(** * Registers

    [libr/reg]: the register items of a profile, the byte arenas that hold
    their values, the stack of arenas used to save and restore them, and the
    condition flags.  The arenas live in a store indexed by identity, because
    the current arena of a register set is the tail of its pool: writing a
    register through one is seen through the other. *)

From S2P Require Import Prelude Endian Mem Num.

(** ** Data *)

Definition R_REG_TYPE_GPR : nat := 0.
Definition R_REG_TYPE_DRX : nat := 1.
Definition R_REG_TYPE_FPU : nat := 2.
Definition R_REG_TYPE_MMX : nat := 3.
Definition R_REG_TYPE_XMM : nat := 4.
Definition R_REG_TYPE_FLG : nat := 5.
Definition R_REG_TYPE_SEG : nat := 6.
Definition R_REG_TYPE_LAST : nat := 7.
Definition R_REG_TYPE_ALL : Z := -1.

Definition R_REG_NAME_PC : Z := 0.
Definition R_REG_NAME_SP : Z := 1.
Definition R_REG_NAME_SR : Z := 2.
Definition R_REG_NAME_BP : Z := 3.
Definition R_REG_NAME_LR : Z := 4.
Definition R_REG_NAME_A0 : Z := 5.
Definition R_REG_NAME_R0 : Z := 12.
Definition R_REG_NAME_ZF : Z := 16.
Definition R_REG_NAME_SF : Z := 17.
Definition R_REG_NAME_CF : Z := 18.
Definition R_REG_NAME_OF : Z := 19.
Definition R_REG_NAME_SN : Z := 20.
Definition R_REG_NAME_LAST : Z := 21.

Record RRegItem := {
  ri_name : option string;
  ri_type : nat;
  ri_size : Z;          (* in bits *)
  ri_offset : Z;        (* in bits *)
  ri_packed_size : Z;
  ri_flags : option string;
}.

(** An arena is its [bytes]; [arena->size] is their number. *)
Record RRegArena := { ar_bytes : list Z }.
Definition ar_size (a : RRegArena) : Z := Z.of_nat (length (ar_bytes a)).

Record RRegSet := {
  rs_arena : nat;             (* identity in the store *)
  rs_pool : list nat;
  rs_regs : list RRegItem;
}.

Record RReg := {
  rr_regset : list RRegSet;             (* indexed by type *)
  rr_arenas : gmap nat RRegArena;       (* the heap of arenas *)
  rr_next : nat;                        (* the next free identity *)
  rr_name : gmap Z string;              (* role -> register name *)
  rr_bits : Z;
  rr_size : Z;
  rr_big_endian : bool;
  rr_profile_str : option string;
  rr_profile_cmt : option string;
}.

Definition set_regset (l : list RRegSet) (r : RReg) : RReg :=
  {| rr_regset := l; rr_arenas := rr_arenas r; rr_next := rr_next r; rr_name := rr_name r;
     rr_bits := rr_bits r; rr_size := rr_size r; rr_big_endian := rr_big_endian r;
     rr_profile_str := rr_profile_str r; rr_profile_cmt := rr_profile_cmt r |}.
Definition set_arenas (m : gmap nat RRegArena) (r : RReg) : RReg :=
  {| rr_regset := rr_regset r; rr_arenas := m; rr_next := rr_next r; rr_name := rr_name r;
     rr_bits := rr_bits r; rr_size := rr_size r; rr_big_endian := rr_big_endian r;
     rr_profile_str := rr_profile_str r; rr_profile_cmt := rr_profile_cmt r |}.
Definition set_next (n : nat) (r : RReg) : RReg :=
  {| rr_regset := rr_regset r; rr_arenas := rr_arenas r; rr_next := n; rr_name := rr_name r;
     rr_bits := rr_bits r; rr_size := rr_size r; rr_big_endian := rr_big_endian r;
     rr_profile_str := rr_profile_str r; rr_profile_cmt := rr_profile_cmt r |}.
Definition set_names (m : gmap Z string) (r : RReg) : RReg :=
  {| rr_regset := rr_regset r; rr_arenas := rr_arenas r; rr_next := rr_next r; rr_name := m;
     rr_bits := rr_bits r; rr_size := rr_size r; rr_big_endian := rr_big_endian r;
     rr_profile_str := rr_profile_str r; rr_profile_cmt := rr_profile_cmt r |}.
Definition set_bits_size (b s : Z) (r : RReg) : RReg :=
  {| rr_regset := rr_regset r; rr_arenas := rr_arenas r; rr_next := rr_next r;
     rr_name := rr_name r; rr_bits := b; rr_size := s; rr_big_endian := rr_big_endian r;
     rr_profile_str := rr_profile_str r; rr_profile_cmt := rr_profile_cmt r |}.

Definition set_profile (str cmt : option string) (r : RReg) : RReg :=
  {| rr_regset := rr_regset r; rr_arenas := rr_arenas r; rr_next := rr_next r;
     rr_name := rr_name r; rr_bits := rr_bits r; rr_size := rr_size r;
     rr_big_endian := rr_big_endian r; rr_profile_str := str; rr_profile_cmt := cmt |}.

(** [reg->regset[type].arena]. *)
Definition arena_of (r : RReg) (type : nat) : option RRegArena :=
  rs ← rr_regset r !! type; rr_arenas r !! rs_arena rs.
(** Store new bytes in the current arena of a type. *)
Definition put_arena (r : RReg) (type : nat) (a : RRegArena) : RReg :=
  match rr_regset r !! type with
  | Some rs => set_arenas (<[rs_arena rs := a]> (rr_arenas r)) r
  | None => r
  end.

Definition BITS2BYTES (x : Z) : Z := Z.quot x 8 + (if z2b (Z.rem x 8) then 1 else 0).

(** ** Finding registers ([reg.c]) *)

(** [!strcmp] on a possibly null name. *)
Definition name_is (n : option string) (s : string) : bool := bool_decide (n = Some s).

Definition r_reg_get_in (r : RReg) (name : string) (i : nat) : option RRegItem :=
  rs ← rr_regset r !! i; list_find (fun it => name_is (ri_name it) name) (rs_regs rs) ≫= fun p => Some p.2.

(** The first of the sets [i, i + 1, ..., i + n - 1] that has the name. *)
Fixpoint r_reg_get_from (r : RReg) (name : string) (i n : nat) : option RRegItem :=
  match n with
  | O => None
  | S n =>
      match r_reg_get_in r name i with
      | Some it => Some it
      | None => r_reg_get_from r name (S i) n
      end
  end.

Definition r_reg_get (r : RReg) (name : string) (type : Z) : option RRegItem :=
  let type := if type =? Z.of_nat R_REG_TYPE_FLG then Z.of_nat R_REG_TYPE_GPR else type in
  if type =? -1 then r_reg_get_from r name 0 R_REG_TYPE_LAST
  else r_reg_get_from r name (Z.to_nat type) 1.

Definition r_reg_get_name (r : RReg) (role : Z) : option string :=
  if (role >=? 0) && (role <? R_REG_NAME_LAST) then rr_name r !! role else None.

Definition r_reg_set_name (r : RReg) (role : Z) (name : string) : bool * RReg :=
  if (role >=? 0) && (role <? R_REG_NAME_LAST)
  then (true, set_names (<[role := name]> (rr_name r)) r) else (false, r).

Definition r_reg_get_list (r : RReg) (type : Z) : option (list RRegItem) :=
  if (type <? 0) || (type >? Z.of_nat R_REG_TYPE_LAST - 1) then None
  else rs_regs <$> rr_regset r !! Z.to_nat type.

Definition r_reg_get_at (r : RReg) (type : Z) (regsize delta : Z) : option RRegItem :=
  l ← r_reg_get_list r type;
  p ← list_find (fun it => (ri_size it =? regsize) && (BITS2BYTES (ri_offset it) =? delta)) l;
  Some p.2.

Definition types : list string := ["gpr"; "drx"; "fpu"; "mmx"; "xmm"; "flg"; "seg"]%string.

Definition r_reg_get_type (idx : Z) : option string :=
  if (idx >=? 0) && (idx <? Z.of_nat R_REG_TYPE_LAST) then types !! Z.to_nat idx else None.

Definition r_reg_type_by_name (str : string) : Z :=
  match list_find (fun t => t = str) types with
  | Some (i, _) => Z.of_nat i
  | None => if bool_decide (str = "all"%string) then R_REG_TYPE_ALL else -1
  end.

(** [roles], as the code has it: the entry of [LR] is ["Ao"] and those of
    [R0] to [R3] are missing, so that it is out of step with [RRegisterId]. *)
Definition roles : list string :=
  ["PC"; "SP"; "SR"; "BP"; "Ao"; "A1"; "A2"; "A3"; "A4"; "A5"; "A6"; "ZF"; "SF"; "CF"; "OF";
   "SB"]%string.
Definition r_reg_get_role (role : Z) : option string :=
  if (role >=? 0) && (role <? R_REG_NAME_LAST) then roles !! Z.to_nat role else None.

Definition r_reg_regset_get (r : RReg) (type : Z) : option RRegSet :=
  if (type <? 0) || (type >=? Z.of_nat R_REG_TYPE_LAST) then None
  else rr_regset r !! Z.to_nat type.

(** [strcasecmp] is equality of the names in lower case. *)
Definition tolower (c : ascii) : ascii :=
  if (65 <=? code c) && (code c <=? 90) then chr (code c + 32) else c.
Fixpoint lower (s : string) : string :=
  match s with EmptyString => EmptyString | String c s => String (tolower c) (lower s) end.

(** The offset of the last set that has a 32-bit register of the name (-1
    without one), then the first 64-bit register at that offset. *)
Definition r_reg_32_to_64 (r : RReg) (rreg32 : string) : option string :=
  let same it := match ri_name it with
                 | Some n => bool_decide (lower n = lower rreg32)
                 | None => false
                 end in
  let j := foldl (fun j rs =>
    match list_find (fun it => same it && (ri_size it =? 32)) (rs_regs rs) with
    | Some (_, it) => ri_offset it
    | None => j
    end) (-1) (rr_regset r) in
  if j =? -1 then None
  else
    p ← list_find (fun it => (ri_offset it =? j) && (ri_size it =? 64))
          (concat (map rs_regs (rr_regset r)));
    ri_name p.2.

(** The two-letter name of a role; only the first two characters count. *)
Definition r_reg_get_name_idx (type : string) : Z :=
  if bool_decide (type = EmptyString) then -1
  else
    match String (char_at type 0) (String (char_at type 1) EmptyString) with
    | "ZF" => R_REG_NAME_ZF | "SF" => R_REG_NAME_SF | "CF" => R_REG_NAME_CF
    | "OF" => R_REG_NAME_OF | "PC" => R_REG_NAME_PC | "SR" => R_REG_NAME_SR
    | "LR" => R_REG_NAME_LR | "SP" => R_REG_NAME_SP | "BP" => R_REG_NAME_BP
    | "SN" => R_REG_NAME_SN
    | "A0" => R_REG_NAME_A0 | "A1" => R_REG_NAME_A0 + 1 | "A2" => R_REG_NAME_A0 + 2
    | "A3" => R_REG_NAME_A0 + 3 | "A4" => R_REG_NAME_A0 + 4 | "A5" => R_REG_NAME_A0 + 5
    | "A6" => R_REG_NAME_A0 + 6
    | "R0" => R_REG_NAME_R0 | "R1" => R_REG_NAME_R0 + 1 | "R2" => R_REG_NAME_R0 + 2
    | "R3" => R_REG_NAME_R0 + 3
    | _ => -1
    end%string.

(** ** Values ([value.c], [double.c]) *)

(** [long double] is the 80-bit x87 format in 16 bytes: a 64-bit significand
    with an explicit integer bit, then sign and biased exponent.  The
    conversion of a [ut64] is exact; converting back truncates, and a value
    outside the range of [ut64] is undefined. *)
Definition ld_of_u64 (v : Z) : list Z :=
  if v =? 0 then le_bytes 16 0
  else let e := Z.log2 v in
       le_bytes 8 (Z.shiftl v (63 - e)) ++ le_bytes 2 (16383 + e) ++ le_bytes 6 0.

Definition ld_to_u64 (b : list Z) : option Z :=
  let mant := le_val (take 8 b) in
  let se := le_val (take 2 (drop 8 b)) in
  let neg := Z.testbit se 15 in
  let e := se mod 2 ^ 15 in
  if e =? 32767 then None
  else
    let v := Z.shiftl mant (e - 16383 - 63) in
    if neg then (if v =? 0 then Some 0 else None)
    else if v <? 2 ^ 64 then Some v else None.

(** A pointer [off] bytes into the arena; [None] when it is before it. *)
Definition arena_at (a : RRegArena) (off : Z) : option (list Z) :=
  if off <? 0 then None else Some (drop (Z.to_nat off) (ar_bytes a)).

(** [(ut64)r_reg_get_longdouble (reg, item)]: the copy takes
    [sizeof (long double) = 16] bytes whatever the size of the item. *)
Definition r_reg_get_longdouble (r : RReg) (item : RRegItem) : option Z :=
  a ← arena_of r (ri_type item);
  let off := BITS2BYTES (ri_offset item) in
  if (ri_size item =? 80) || (ri_size item =? 96) || (ri_size item =? 128) then
    if ar_size a - off - 1 >=? 0 then
      p ← arena_at a off;
      if (16 <=? length p)%nat then ld_to_u64 (take 16 p) else None
    else Some 0
  else Some 0.

(** [None] is undefined behaviour: an access outside the arena, a null arena
    or a float conversion out of range. *)
Definition r_reg_get_value (r : RReg) (item : option RRegItem) : option Z :=
  match item with
  | None => Some 0
  | Some item =>
      a ← arena_of r (ri_type item);
      let off := BITS2BYTES (ri_offset item) in
      match ri_size item with
      | 1 =>
          let i := Z.quot (ri_offset item) 8 in
          if (0 <=? i) && (i <? ar_size a) then
            Some (if z2b (Z.land (byte_at (ar_bytes a) (Z.to_nat i))
                                 (Z.shiftl 1 (Z.rem (ri_offset item) 8))) then 1 else 0)
          else None
      | 4 =>
          if ar_size a - off - 1 >=? 0
          then p ← arena_at a off; Some (Z.land (r_read_ble8 p) 0xF) else Some 0
      | 8 =>
          if ar_size a - off - 1 >=? 0 then p ← arena_at a off; Some (r_read_ble8 p)
          else Some 0
      | 16 =>
          if ar_size a - off - 2 >=? 0
          then p ← arena_at a off; Some (r_read_ble16 p (rr_big_endian r)) else Some 0
      | 32 =>
          if off + 4 <=? ar_size a
          then p ← arena_at a off; Some (r_read_ble32 p (rr_big_endian r)) else Some 0
      | 64 =>
          if off + 8 <=? ar_size a
          then p ← arena_at a off; Some (r_read_ble64 p (rr_big_endian r)) else Some 0
      | 80 | 96 => r_reg_get_longdouble r item
      | _ => Some 0
      end
  end.

(** The common end of the setters: copy [ri_size item] bits of [src] into the
    arena when they fit. *)
Definition reg_store (r : RReg) (item : RRegItem) (src : list Z) : option (bool * RReg) :=
  a ← arena_of r (ri_type item);
  let off := BITS2BYTES (ri_offset item) in
  if ar_size a - off - BITS2BYTES (ri_size item) >=? 0 then
    if off <? 0 then None
    else Some (true, put_arena r (ri_type item)
           {| ar_bytes := at_offset (Z.to_nat off)
                (fun d => r_mem_copybits d src (ri_size item)) (ar_bytes a) |})
  else Some (false, r).

Definition r_reg_set_longdouble (r : RReg) (item : option RRegItem) (value : Z)
    : option (bool * RReg) :=
  match item with
  | None => Some (false, r)
  | Some item =>
      if (ri_size item =? 80) || (ri_size item =? 96) || (ri_size item =? 128)
      then reg_store r item (ld_of_u64 value) else Some (false, r)
  end.

Definition reg_set_bit (r : RReg) (item : RRegItem) (value : Z) : option (bool * RReg) :=
  a ← arena_of r (ri_type item);
  let i := Z.quot (ri_offset item) 8 in
  if (0 <=? i) && (i <? ar_size a) then
    let bit := Z.rem (ri_offset item) 8 in
    let b := byte_at (ar_bytes a) (Z.to_nat i) in
    let b :=
      if z2b value then let mask := u8 (Z.shiftl 1 bit) in
                        Z.lor (Z.land b (Z.lxor 0xff mask)) mask
      else let mask := u8 (Z.lxor 0xff (Z.shiftl 1 bit)) in
           Z.lor (Z.land b mask) 0 in
    Some (true, put_arena r (ri_type item) {| ar_bytes := <[Z.to_nat i := b]> (ar_bytes a) |})
  else None.

(** [junk] is the 12 uninitialised bytes of the local [bytes]. *)
Definition r_reg_set_value (junk : list Z) (r : RReg) (item : option RRegItem) (value : Z)
    : option (bool * RReg) :=
  match item with
  | None => Some (false, r)
  | Some it =>
      let src := junk in
      match ri_size it with
      | 80 | 96 =>
          '(_, r) ← r_reg_set_longdouble r item value;
          reg_store r it src
      | 64 =>
          reg_store r it (if rr_big_endian r then r_write_be64 src value else r_write_le64 src value)
      | 32 =>
          reg_store r it (if rr_big_endian r then r_write_be32 src (u32 value)
                          else r_write_le32 src (u32 value))
      | 16 =>
          reg_store r it (if rr_big_endian r then r_write_be16 src (u16 value)
                          else r_write_le16 src (u16 value))
      | 8 => reg_store r it (r_write_ble8 src (u8 (Z.land value 0xff)))
      | 1 => reg_set_bit r it value
      | _ => Some (false, r)
      end
  end.

Definition r_reg_setv (junk : list Z) (r : RReg) (name : string) (val : Z) : option (bool * RReg) :=
  r_reg_set_value junk r (r_reg_get r name (-1)) val.
Definition r_reg_getv (r : RReg) (name : string) : option Z :=
  r_reg_get_value r (r_reg_get r name (-1)).

Definition r_reg_get_pack (r : RReg) (item : option RRegItem) (packidx packbits : Z) : option Z :=
  match item with
  | None => Some 0
  | Some item =>
      let packbits := if packbits <? 1 then ri_packed_size item else packbits in
      let packbytes := Z.quot packbits 8 in
      if z2b (Z.rem packbits 8) then Some 0
      else
        a ← arena_of r (ri_type item);
        let off := BITS2BYTES (ri_offset item) + packidx * packbytes in
        if ar_size a - off - 1 >=? 0 then
          p ← arena_at a off;
          (* memcpy into a zeroed ut64 *)
          if (Z.to_nat packbytes <=? length p)%nat && (packbytes <=? 8)
          then Some (le_val (take (Z.to_nat packbytes) p)) else None
        else Some 0
  end.

(** [off] is in bits and [packidx] is only checked, never added; the number of
    bytes is handed over where [r_mem_copybits] expects bits. *)
Definition r_reg_set_pack (r : RReg) (item : option RRegItem) (packidx packbits val : Z)
    : option (bool * RReg) :=
  match item with
  | None => Some (false, r)
  | Some item =>
      let packbits := if packbits <? 1 then ri_packed_size item else packbits in
      let off := ri_offset item in
      let packbytes := Z.quot packbits 8 in
      if packidx * packbits >? ri_size item then Some (false, r)
      else if z2b (Z.rem packbits 8) then Some (false, r)
      else
        a ← arena_of r (ri_type item);
        if ar_size a - BITS2BYTES off - BITS2BYTES packbytes >=? 0 then
          if BITS2BYTES off <? 0 then None
          else Some (true, put_arena r (ri_type item)
             {| ar_bytes := at_offset (Z.to_nat (BITS2BYTES off))
                  (fun d => r_mem_copybits d (le_bytes 8 val) packbytes) (ar_bytes a) |})
        else Some (false, r)
  end.

(** ** Arenas ([arena.c]) *)

(** [r_reg_arena_new]: at least one byte, zeroed, at a fresh identity. *)
Definition r_reg_arena_new (size : Z) (r : RReg) : nat * RReg :=
  let size := if size <? 1 then 1 else size in
  (rr_next r,
   set_next (S (rr_next r))
     (set_arenas (<[rr_next r := {| ar_bytes := replicate (Z.to_nat size) 0 |}]> (rr_arenas r)) r)).

Definition r_reg_arena_free (id : nat) (r : RReg) : RReg :=
  set_arenas (delete id (rr_arenas r)) r.

Definition set_rs (i : nat) (rs : RRegSet) (r : RReg) : RReg :=
  set_regset (<[i := rs]> (rr_regset r)) r.

(** Iterate a step over the types [i, ..., i + n - 1]. *)
Fixpoint for_types (n i : nat) (f : nat -> RReg -> RReg) (r : RReg) : RReg :=
  match n with O => r | S n => for_types n (S i) f (f i r) end.

(** One type of [r_reg_arena_push]: a copy of the current arena becomes the
    current one. *)
Definition arena_push1 (i : nat) (r : RReg) : RReg :=
  match rr_regset r !! i with
  | Some rs =>
      match rr_arenas r !! rs_arena rs with
      | Some a =>
          let '(id, r) := r_reg_arena_new (ar_size a) r in
          let fresh := default {| ar_bytes := [] |} (rr_arenas r !! id) in
          (* memcpy the common part; what remains of the new arena is zero *)
          let b := {| ar_bytes := blit (ar_bytes a) (ar_bytes fresh) |} in
          set_rs i {| rs_arena := id; rs_pool := rs_pool rs ++ [id]; rs_regs := rs_regs rs |}
            (set_arenas (<[id := b]> (rr_arenas r)) r)
      | None => r
      end
  | None => r
  end.

Definition r_reg_arena_push (r : RReg) : Z * RReg :=
  let r := for_types R_REG_TYPE_LAST 0 arena_push1 r in
  (Z.of_nat (length (from_option rs_pool [] (rr_regset r !! 0%nat))), r).

(** One type of [r_reg_arena_pop]: nothing when the pool has fewer than two. *)
Definition arena_pop1 (i : nat) (r : RReg) : RReg :=
  match rr_regset r !! i with
  | Some rs =>
      if (length (rs_pool rs) <? 2)%nat then r
      else
        match last (rs_pool rs) with
        | Some a =>
            let pool := removelast (rs_pool rs) in
            match last pool with
            | Some b =>
                set_rs i {| rs_arena := b; rs_pool := pool; rs_regs := rs_regs rs |}
                  (r_reg_arena_free a r)
            | None => r
            end
        | None => r
        end
  | None => r
  end.

Definition r_reg_arena_pop (r : RReg) : RReg := for_types R_REG_TYPE_LAST 0 arena_pop1 r.

(** [r_reg_arena_swap] exchanges the last two entries of every pool and stops
    at the first pool that has fewer. *)
Fixpoint arena_swap_from (n i : nat) (r : RReg) : RReg :=
  match n with
  | O => r
  | S n =>
      match rr_regset r !! i with
      | Some rs =>
          match reverse (rs_pool rs) with
          | a :: b :: l =>
              arena_swap_from n (S i)
                (set_rs i {| rs_arena := b; rs_pool := reverse (b :: a :: l);
                             rs_regs := rs_regs rs |} r)
          | _ => r
          end
      | None => r
      end
  end.
Definition r_reg_arena_swap (r : RReg) (copy : Z) : RReg := arena_swap_from R_REG_TYPE_LAST 0 r.

Definition arena_zero1 (i : nat) (r : RReg) : RReg :=
  match arena_of r i with
  | Some a => put_arena r i {| ar_bytes := replicate (length (ar_bytes a)) 0 |}
  | None => r
  end.
Definition r_reg_arena_zero (r : RReg) : RReg := for_types R_REG_TYPE_LAST 0 arena_zero1 r.

(** A copy of the general purpose arena, and writing it back. *)
Definition r_reg_arena_peek (r : RReg) : option (list Z) :=
  a ← arena_of r R_REG_TYPE_GPR;
  if ar_size a <? 1 then None else Some (ar_bytes a).
Definition r_reg_arena_poke (r : RReg) (ret : list Z) : option RReg :=
  a ← arena_of r R_REG_TYPE_GPR;
  if (length (ar_bytes a) =? 0)%nat then Some r
  else if (length ret <? length (ar_bytes a))%nat then None
  else Some (put_arena r R_REG_TYPE_GPR {| ar_bytes := take (length (ar_bytes a)) ret |}).
(** As many bytes of [source] as the arena has. *)
Definition r_reg_arena_dup (r : RReg) (source : list Z) : option (option (list Z)) :=
  a ← arena_of r R_REG_TYPE_GPR;
  if ar_size a <? 1 then Some None
  else if (length source <? length (ar_bytes a))%nat then None
  else Some (Some (take (length (ar_bytes a)) source)).

(** [r_reg_get_bytes]: the bytes of one type, or of all the types one after
    the other.  A total of zero bytes makes [realloc] free the buffer that is
    then returned. *)
Definition all_bytes (r : RReg) : option (list Z) :=
  l ← mapM (arena_of r) (seq 0 R_REG_TYPE_LAST); Some (concat (map ar_bytes l)).
Definition r_reg_get_bytes (r : RReg) (type : Z) : option (option (list Z)) :=
  if type =? -1 then
    a ← arena_of r 0;
    if ar_size a =? 0 then None else Some <$> all_bytes r
  else if (type <? 0) || (type >? Z.of_nat R_REG_TYPE_LAST - 1) then Some None
  else a ← arena_of r (Z.to_nat type); Some (Some (ar_bytes a)).

(** [r_reg_read_regs]: the way back, stopping at an empty arena (a null
    [bytes]) or when the buffer is exhausted. *)
Fixpoint read_regs_from (n i : nat) (r : RReg) (buf : list Z) (len off : Z)
    : option (bool * RReg) :=
  match n with
  | O => Some (true, r)
  | S n =>
      a ← arena_of r i;
      if ar_size a =? 0 then Some (false, r)
      else
        let k := Z.to_nat (Z.min (len - off) (ar_size a)) in
        let src := drop (Z.to_nat off) buf in
        if (length src <? k)%nat then None
        else
          let r := put_arena r i
            {| ar_bytes := blit (take k src) (replicate (length (ar_bytes a)) 0) |} in
          let off := off + ar_size a in
          if off >? len then Some (false, r) else read_regs_from n (S i) r buf len off
  end.
Definition r_reg_read_regs (r : RReg) (buf : list Z) (len : Z) : option (bool * RReg) :=
  read_regs_from R_REG_TYPE_LAST 0 r buf len 0.

Definition r_reg_set_bytes (r : RReg) (type : Z) (buf : list Z) (len : Z)
    : option (bool * RReg) :=
  if len <? 1 then Some (false, r)
  else if (type <? 0) || (type >=? Z.of_nat R_REG_TYPE_LAST) then Some (false, r)
  else
    match arena_of r (Z.to_nat type) with
    | None => Some (false, r)
    | Some a =>
        let maxsz := Z.max (ar_size a) len in
        let minsz := Z.to_nat (Z.min (ar_size a) len) in
        (* when the sizes differ the bytes are allocated anew at [maxsz] and
           [arena->size] follows, so the later resize never happens *)
        let bytes := replicate (Z.to_nat maxsz) 0 in
        if (length buf <? minsz)%nat then None
        else Some (true, put_arena r (Z.to_nat type)
                           {| ar_bytes := blit (take minsz buf) bytes |})
    end.

(** An [int] that was added up, or a signed overflow. *)
Definition int_sum (x : Z) : option Z := if (- 2 ^ 31 <=? x) && (x <? 2 ^ 31) then Some x else None.

(** The new size of the arena of a type: the end of its last register. *)
Fixpoint fit_size (regs : list RRegItem) (newsize : Z) : option Z :=
  match regs with
  | [] => Some newsize
  | it :: regs => bits ← int_sum (ri_offset it + ri_size it); fit_size regs (Z.max (BITS2BYTES bits) newsize)
  end.

Definition fit_arena1 (i : nat) (r : RReg) : option RReg :=
  match rr_regset r !! i with
  | Some rs =>
      newsize ← fit_size (rs_regs rs) 0;
      Some (put_arena r i {| ar_bytes := replicate (Z.to_nat newsize) 0 |})
  | None => Some r
  end.
(** The types from [i] on, [n] of them. *)
Fixpoint fit_arenas (n i : nat) (r : RReg) : option RReg :=
  match n with O => Some r | S n => r ← fit_arena1 i r; fit_arenas n (S i) r end.
Definition r_reg_fit_arena (r : RReg) : option RReg := fit_arenas R_REG_TYPE_LAST 0 r.

(** [r_reg_new]: one arena per type, then a first push. *)
Definition reg_empty : RReg :=
  {| rr_regset := replicate R_REG_TYPE_LAST {| rs_arena := 0; rs_pool := []; rs_regs := [] |};
     rr_arenas := ∅; rr_next := 0; rr_name := ∅; rr_bits := 0; rr_size := 0;
     rr_big_endian := false; rr_profile_str := None; rr_profile_cmt := None |}.
Definition arena_init1 (i : nat) (r : RReg) : RReg :=
  let '(id, r) := r_reg_arena_new 0 r in
  set_rs i {| rs_arena := id; rs_pool := []; rs_regs := [] |} r.
Definition r_reg_new : RReg :=
  (r_reg_arena_push (for_types R_REG_TYPE_LAST 0 arena_init1 reg_empty)).2.

(** ** Condition flags ([cond.c]) *)

Record RRegFlags := { f_s : bool; f_z : bool; f_c : bool; f_o : bool; f_p : bool }.

Definition r_reg_cond_get (r : RReg) (name : string) : option RRegItem :=
  rs ← rr_regset r !! R_REG_TYPE_GPR;
  p ← list_find (fun it => name_is (ri_flags it) name) (rs_regs rs); Some p.2.

Definition r_reg_cond_get_value (r : RReg) (name : string) : option Z :=
  v ← r_reg_get_value r (r_reg_cond_get r name);
  Some (if z2b (s32 v) then 1 else 0).

Definition r_reg_cond_retrieve (r : RReg) : option RRegFlags :=
  s ← r_reg_cond_get_value r "sign";
  z ← r_reg_cond_get_value r "zero";
  c ← r_reg_cond_get_value r "carry";
  o ← r_reg_cond_get_value r "overflow";
  p ← r_reg_cond_get_value r "parity";
  Some {| f_s := z2b s; f_z := z2b z; f_c := z2b c; f_o := z2b o; f_p := z2b p |}.

Definition cond_names : list string :=
  ["eq"; "ne"; "cf"; "neg"; "of"; "hi"; "he"; "lo"; "loe"; "ge"; "gt"; "lt"; "le"]%string.

Definition r_reg_cond_to_string (n : Z) : option string :=
  if (n <? 0) || (n >? 12) then None else cond_names !! Z.to_nat n.

Definition r_reg_cond_from_string (str : string) : Z :=
  match list_find (fun c => c = str) cond_names with
  | Some (i, _) => Z.of_nat i
  | None => -1
  end.

Definition r_reg_cond_bits (type : Z) (f : RRegFlags) : bool :=
  let S := f_s f in let Zf := f_z f in let C := f_c f in let O := f_o f in
  match type with
  | 0 => Zf
  | 1 => negb Zf
  | 2 => C
  | 3 => S
  | 4 => O
  | 5 => negb Zf && C
  | 6 => Zf || (negb Zf && C)
  | 7 => Zf || negb C
  | 8 => Zf || negb C
  | 9 => (S && O) || (negb S && negb O)
  | 10 => (S && negb Zf && O) || (negb S && negb Zf && negb O)
  | 11 => (S && negb O) || (negb S && O)
  | 12 => Zf || (S && negb O) || (negb S && O)
  | _ => false
  end.

Definition r_reg_cond (r : RReg) (type : Z) : option bool :=
  f ← r_reg_cond_retrieve r; Some (r_reg_cond_bits type f).

(** ** Profile lines ([profile.c]) *)

(** [strchr (s, '.')] splits the string: before and after the first dot. *)
Fixpoint split_dot (s : string) : option (string * string) :=
  match s with
  | EmptyString => None
  | String c s =>
      if is_char c "." then Some (EmptyString, s)
      else '(a, b) ← split_dot s; Some (String c a, b)
  end.

(** A size in bits: [.n] is bits, [n] bytes, [n.m] bytes and bits.  The second
    component is [end]. *)
Definition parse_size (s : string) : Z * string :=
  if is_char (char_at s 0) "." then strtoul (str_drop 1 s) 10
  else
    match split_dot s with
    | Some (bytes, bits) =>
        let r := u64 (Z.shiftl (fst (strtoul bytes 0)) 3) in
        let '(b, end_) := strtoul bits 0 in
        (u64 (r + b), end_)
    | None =>
        let '(v, end_) := strtoul s 0 in (u64 (Z.shiftl v 3), end_)
    end.

(** The error message, null when there is none, and the state left. *)
Definition parse_alias (r : RReg) (tok : list string) : option string * RReg :=
  match tok with
  | [t0; t1] =>
      let '(ok, r) := r_reg_set_name r (r_reg_get_name_idx (str_drop 1 t0)) t1 in
      (if (ok : bool) then None else Some "Invalid alias"%string, r)
  | _ => (Some "Invalid syntax"%string, r)
  end.

(** [parse_def]: the item goes to the set of its own type; the later change of
    the local [type] for the flag registers has no effect.  [None] is the overflow of
    the end of the register, an [int]. *)
Definition parse_def_args (r : RReg) (t0 t1 t2 t3 t4 : string) (t5 : option string)
    : option (option string * RReg) :=
  let type := r_reg_type_by_name t0 in
  if type <? 0 then Some (Some "Invalid register type"%string, r)
  else
    let '(size, e2) := parse_size t2 in
    let '(offset, e3) := parse_size t3 in
    let '(packed, e4) := parse_size t4 in
    if negb (bool_decide (e2 = EmptyString)) || (s32 size =? 0)
    then Some (Some "Invalid size"%string, r)
    else if negb (bool_decide (e3 = EmptyString)) then Some (Some "Invalid offset"%string, r)
    else if negb (bool_decide (e4 = EmptyString)) then Some (Some "Invalid packed size"%string, r)
    else
      let item := {| ri_name := Some t1; ri_type := Z.to_nat type; ri_size := s32 size;
                     ri_offset := s32 offset; ri_packed_size := s32 packed;
                     ri_flags := t5 |} in
      let r := set_bits_size (Z.lor (rr_bits r) (ri_size item)) (rr_size r) r in
      match r_reg_get r t1 R_REG_TYPE_ALL with
      | Some _ => Some (Some "Duplicate register definition"%string, r)
      | None =>
          match rr_regset r !! ri_type item with
          | Some rs =>
              let r := set_rs (ri_type item)
                {| rs_arena := rs_arena rs; rs_pool := rs_pool rs;
                   rs_regs := rs_regs rs ++ [item] |} r in
              end_ ← int_sum (ri_offset item + ri_size item);
              Some (None, if end_ >? rr_size r then set_bits_size (rr_bits r) end_ r else r)
          | None => Some (None, r)
          end
      end.

Definition parse_def (r : RReg) (tok : list string) : option (option string * RReg) :=
  match tok with
  | [t0; t1; t2; t3; t4] => parse_def_args r t0 t1 t2 t3 t4 None
  | [t0; t1; t2; t3; t4; t5] => parse_def_args r t0 t1 t2 t3 t4 (Some t5)
  | _ => Some (Some "Invalid syntax"%string, r)
  end.

(** One line, as its words: an alias or a register, or nothing. *)
Definition parse_line (r : RReg) (tok : list string) : option (option string * RReg) :=
  match tok with
  | [] => Some (None, r)
  | first :: _ => if is_char (char_at first 0) "=" then Some (parse_alias r tok) else parse_def r tok
  end.

(** The lines of a profile; an error stops. *)
Fixpoint parse_lines (r : RReg) (lines : list (list string)) : option (option string * RReg) :=
  match lines with
  | [] => Some (None, r)
  | tok :: lines =>
      match parse_line r tok with
      | Some (None, r) => parse_lines r lines
      | e => e
      end
  end.

(** The end of [r_reg_set_profile_string]: round the size up to bytes, fit the
    arenas and push a copy. *)
Definition profile_finish (r : RReg) : option RReg :=
  let size := rr_size r in
  size ← (if z2b (Z.land size 7) then int_sum (size + (8 - Z.land size 7)) else Some size);
  let r := set_bits_size (rr_bits r) (Z.shiftr size 3) r in
  r ← r_reg_fit_arena r;
  Some (r_reg_arena_push r).2.

(** A small x86-like register file, for the witnesses. *)
Definition demo_profile : list (list string) :=
  [["=PC"; "rip"]; ["=SP"; "rsp"]; ["=BP"; "rbp"];
   ["gpr"; "rax"; ".64"; "0"; "0"]; ["gpr"; "eax"; ".32"; "0"; "0"];
   ["gpr"; "ax"; ".16"; "0"; "0"]; ["gpr"; "al"; ".8"; "0"; "0"];
   ["gpr"; "ah"; ".8"; "1"; "0"]; ["gpr"; "rbx"; ".64"; "8"; "0"];
   ["gpr"; "rip"; ".64"; "16"; "0"]; ["gpr"; "rsp"; ".64"; "24"; "0"];
   ["gpr"; "rbp"; ".64"; "32"; "0"]; ["gpr"; "nib"; ".4"; "40"; "0"];
   ["flg"; "zf"; ".1"; ".6"; "0"; "zero"]; ["flg"; "cf"; ".1"; ".0"; "0"; "carry"];
   ["fpu"; "st0"; ".80"; "0"; "0"]; ["fpu"; "st1"; ".80"; "10"; "0"]]%string.

Definition demo_reg : RReg :=
  match parse_lines r_reg_new demo_profile with
  | Some (None, r) => default reg_empty (profile_finish r)
  | _ => reg_empty
  end.

Example demo_get : r_reg_getv demo_reg "rax" = Some 0. Proof. vm_compute. reflexivity. Qed.
Example demo_set :
  (r ← r_reg_setv (replicate 12 0xcc) demo_reg "rax" 0x1122334455667788;
   a ← r_reg_getv r.2 "eax"; b ← r_reg_getv r.2 "ah"; Some (a, b)) = Some (0x55667788, 0x77).
Proof. vm_compute. reflexivity. Qed.
