(* ===== verification/RegFacts.v ===== *)
(** * Properties of the registers

    Reading back what was written, independence and overlap of registers,
    the save/restore discipline of the arena stack, the condition codes, and
    the places where the code of [libr/reg] does not do what it means to. *)

From S2P Require Import Prelude Endian Mem Num Reg.

(** ** Well-formed register files *)

Record reg_wf (r : RReg) : Prop := {
  wf_sets : length (rr_regset r) = R_REG_TYPE_LAST;
  wf_arena : forall i rs, rr_regset r !! i = Some rs -> last (rs_pool rs) = Some (rs_arena rs);
  wf_store : forall i rs id, rr_regset r !! i = Some rs -> id ∈ rs_pool rs ->
               (id < rr_next r)%nat /\ is_Some (rr_arenas r !! id);
  wf_inj : forall i j rs rs' id, rr_regset r !! i = Some rs -> rr_regset r !! j = Some rs' ->
             id ∈ rs_pool rs -> id ∈ rs_pool rs' -> i = j;
  wf_nodup : forall i rs, rr_regset r !! i = Some rs -> NoDup (rs_pool rs);
  wf_bytes : forall id a, rr_arenas r !! id = Some a -> bytes (ar_bytes a);
}.

Lemma last_elem_of {A} (l : list A) x : last l = Some x -> x ∈ l.
Proof. intros H. apply last_Some in H as [l' ->]. set_solver. Qed.

Lemma wf_arena_in r i rs :
  reg_wf r -> rr_regset r !! i = Some rs -> rs_arena rs ∈ rs_pool rs.
Proof. intros W H. by apply last_elem_of, (wf_arena r W i). Qed.

(** Registers of whole bytes, and where they are. *)
Definition off_of (it : RRegItem) : nat := Z.to_nat (BITS2BYTES (ri_offset it)).

Record item_at (r : RReg) (it : RRegItem) (a : RRegArena) (n : nat) : Prop := {
  ia_arena : arena_of r (ri_type it) = Some a;
  ia_offset : 0 <= ri_offset it;
  ia_size : ri_size it = 8 * Z.of_nat n;
  ia_width : n ∈ [1; 2; 4; 8]%nat;
  ia_fits : (off_of it + n <= length (ar_bytes a))%nat;
}.

Definition ble_bytes (be : bool) : nat -> Z -> list Z := if be then be_bytes else le_bytes.
Definition ble_val (be : bool) : list Z -> Z := if be then be_val else le_val.

Lemma BITS2BYTES_nonneg x : 0 <= x -> 0 <= BITS2BYTES x.
Proof.
  intros. unfold BITS2BYTES. pose proof (Z.quot_pos x 8). destruct (z2b _); lia.
Qed.

Lemma BITS2BYTES_mul n : BITS2BYTES (8 * Z.of_nat n) = Z.of_nat n.
Proof.
  unfold BITS2BYTES, z2b. rewrite Z.mul_comm, Z.quot_mul, Z.rem_mul by lia. simpl. lia.
Qed.

Lemma off_of_Z it : 0 <= ri_offset it -> Z.of_nat (off_of it) = BITS2BYTES (ri_offset it).
Proof. intros. unfold off_of. pose proof (BITS2BYTES_nonneg _ H). lia. Qed.

Lemma r_mem_copybits_bytes d src n :
  (n <= length src)%nat -> r_mem_copybits d src (8 * Z.of_nat n) = blit (take n src) d.
Proof.
  intros. unfold r_mem_copybits, z2b.
  rewrite Z.mul_comm, Z.quot_mul, Z.rem_mul, Nat2Z.id by lia. done.
Qed.

Lemma arena_of_put r t a b : arena_of r t = Some b -> arena_of (put_arena r t a) t = Some a.
Proof.
  unfold arena_of, put_arena. destruct (rr_regset r !! t) as [rs|] eqn:E; [|done]. simpl.
  intros _. rewrite E. simpl. by rewrite lookup_insert_eq.
Qed.

Lemma regset_put r t a : rr_regset (put_arena r t a) = rr_regset r.
Proof. unfold put_arena. by destruct (rr_regset r !! t). Qed.

Lemma arena_of_put_ne r t t' a :
  reg_wf r -> t <> t' -> arena_of (put_arena r t a) t' = arena_of r t'.
Proof.
  intros W Hne. unfold arena_of. rewrite regset_put. unfold put_arena.
  destruct (rr_regset r !! t) as [rs|] eqn:E; [|done].
  destruct (rr_regset r !! t') as [rs'|] eqn:E'; [|done]. simpl.
  apply lookup_insert_ne. intros Heq. apply Hne.
  apply (wf_inj r W t t' rs rs' (rs_arena rs) E E'); [by eapply wf_arena_in|].
  rewrite Heq. by eapply wf_arena_in.
Qed.

Lemma be_put r t a : rr_big_endian (put_arena r t a) = rr_big_endian r.
Proof. unfold put_arena. by destruct (rr_regset r !! t). Qed.

(** A lookup by name does not depend on the values. *)
Lemma r_reg_get_regset r r' name type :
  rr_regset r' = rr_regset r -> r_reg_get r' name type = r_reg_get r name type.
Proof.
  intros E. unfold r_reg_get.
  assert (forall n i, r_reg_get_from r' name i n = r_reg_get_from r name i n) as F.
  { induction n as [|n IH]; intros i; simpl; [done|]. unfold r_reg_get_in. by rewrite E, IH. }
  by rewrite !F.
Qed.

(** ** Writing and reading a register *)

Ltac fold_size :=
  change (8 * Z.of_nat 1) with 8 in *; change (8 * Z.of_nat 2) with 16 in *;
  change (8 * Z.of_nat 4) with 32 in *; change (8 * Z.of_nat 8) with 64 in *.

Lemma reg_set_spec junk r it a n v :
  length junk = 12%nat -> item_at r it a n ->
  r_reg_set_value junk r (Some it) v
  = Some (true, put_arena r (ri_type it)
       {| ar_bytes := at_offset (off_of it) (blit (ble_bytes (rr_big_endian r) n v)) (ar_bytes a) |}).
Proof.
  intros Hj [Ha Ho Hs Hw Hf].
  assert (forall src, (n <= length src)%nat -> take n src = ble_bytes (rr_big_endian r) n v ->
    reg_store r it src = Some (true, put_arena r (ri_type it)
       {| ar_bytes := at_offset (off_of it) (blit (ble_bytes (rr_big_endian r) n v)) (ar_bytes a) |}))
    as Hst.
  { intros src Hl Ht. unfold reg_store. rewrite Ha. simpl.
    rewrite Hs, BITS2BYTES_mul, <- off_of_Z by done. unfold ar_size.
    rewrite Z.geb_leb. destruct (Z.leb_spec 0 (Z.of_nat (length (ar_bytes a))
      - Z.of_nat (off_of it) - Z.of_nat n)); [|lia].
    destruct (Z.ltb_spec (Z.of_nat (off_of it)) 0); [lia|].
    rewrite Nat2Z.id. unfold at_offset. by rewrite r_mem_copybits_bytes, Ht. }
  unfold r_reg_set_value. rewrite Hs.
  set_unfold; destruct Hw as [->|[->|[->|[->|[]]]]];
    fold_size; apply Hst; unfold ble_bytes;
    destruct (rr_big_endian r);
    rewrite ?r_write_be16_spec, ?r_write_be32_spec, ?r_write_be64_spec,
      ?r_write_le16_spec, ?r_write_le32_spec, ?r_write_le64_spec by lia;
    rewrite ?length_blit; try (by rewrite Hj; lia);
    try (rewrite take_blit_ge by (rewrite ?length_be_bytes, ?length_le_bytes; lia);
         unfold be_bytes; cbn [le_bytes]; norm_bytes; reflexivity).
  all: try (unfold r_write_ble8; rewrite length_insert; lia).
  all: destruct junk as [|j junk]; [done|]; unfold r_write_ble8; simpl;
    rewrite take_0; unfold be_bytes; simpl; f_equal;
    change 0xff with (2 ^ 8 - 1); rewrite pow2_mod_land by lia;
    unfold u8; rewrite !Z.mod_mod by lia; done.
Qed.

Lemma reg_get_spec r it a n :
  bytes (ar_bytes a) -> item_at r it a n ->
  r_reg_get_value r (Some it)
  = Some (ble_val (rr_big_endian r) (take n (drop (off_of it) (ar_bytes a)))).
Proof.
  intros Hb [Ha Ho Hs Hw Hf]. unfold r_reg_get_value. rewrite Ha. cbn [mbind option_bind].
  pose proof (off_of_Z it Ho) as Hz. unfold ar_size, arena_at. rewrite Hs.
  assert (n <= length (drop (off_of it) (ar_bytes a)))%nat as Hl by (rewrite length_drop; lia).
  assert (bytes (drop (off_of it) (ar_bytes a))) as Hbd by by apply Forall_drop.
  assert (8 * Z.of_nat n ∈ [8; 16; 32; 64]) as Hin by (clear -Hw; set_unfold; lia).
  pose proof (r_read_ble_spec _ (rr_big_endian r) _ n eq_refl Hin Hbd Hl) as Hr.
  rewrite <- Hz. destruct (Z.ltb_spec (Z.of_nat (off_of it)) 0); [lia|].
  rewrite Nat2Z.id. unfold ble_val.
  rewrite !Z.geb_leb.
  set_unfold; destruct Hw as [->|[->|[->|[->|[]]]]];
    fold_size; simpl in Hr;
    match goal with |- context [?x <=? ?y] => destruct (Z.leb_spec x y); [|lia] end;
    simpl; rewrite <- Hr; reflexivity.
Qed.

Lemma ble_bytes_len be n v : length (ble_bytes be n v) = n.
Proof. apply ble_bytes_length. Qed.

Lemma length_at_blit off src d : length (at_offset off (blit src) d) = length d.
Proof. apply length_at_offset. intros. apply length_blit. Qed.

Lemma reg_wf_put r t a : reg_wf r -> bytes (ar_bytes a) -> reg_wf (put_arena r t a).
Proof.
  intros W Ha. split; rewrite ?regset_put; try apply W.
  - intros i rs id Hi Hid. unfold put_arena.
    pose proof (wf_store r W i rs id Hi Hid) as [Hlt Hs].
    destruct (rr_regset r !! t) as [rs'|] eqn:E; [|done]. simpl. split; [done|].
    rewrite lookup_insert. by case_decide.
  - intros id b. unfold put_arena. destruct (rr_regset r !! t) as [rs'|] eqn:E.
    + simpl. rewrite lookup_insert. case_decide; [by intros [= <-]|apply W].
    + apply W.
Qed.

Lemma arena_bytes r t a : reg_wf r -> arena_of r t = Some a -> bytes (ar_bytes a).
Proof.
  intros W. unfold arena_of. destruct (rr_regset r !! t) as [rs|]; [|done]. simpl. apply W.
Qed.

Lemma at_blit_bytes off src d :
  bytes src -> bytes d -> bytes (at_offset off (blit src) d).
Proof.
  intros. apply Forall_app; split; [by apply Forall_take|].
  apply blit_bytes; [done|by apply Forall_drop].
Qed.

Lemma item_at_put r t it a b n :
  reg_wf r -> item_at r it a n -> arena_of r t = Some b ->
  forall b', length (ar_bytes b') = length (ar_bytes b) ->
  exists a', item_at (put_arena r t b') it a' n /\ (t = ri_type it -> a' = b') /\
    (t <> ri_type it -> a' = a).
Proof.
  intros W [Ha Ho Hs Hw Hf] Hb b' Hl. destruct (decide (t = ri_type it)) as [->|Hne].
  - exists b'. rewrite Hb in Ha. simplify_eq. split; [|done]. split; try done; [|lia].
    by eapply arena_of_put.
  - exists a. split; [|done]. split; try done. by rewrite arena_of_put_ne.
Qed.

(** The registers [it] and [it'] share no byte. *)
Definition disjoint_items (it : RRegItem) (n : nat) (it' : RRegItem) (m : nat) : Prop :=
  ri_type it <> ri_type it' \/ (off_of it + n <= off_of it')%nat \/ (off_of it' + m <= off_of it)%nat.

Lemma window_at_blit off src d i m :
  (off + length src <= length d)%nat ->
  (off + length src <= i \/ i + m <= off)%nat ->
  take m (drop i (at_offset off (blit src) d)) = take m (drop i d).
Proof.
  intros Hf Hd. rewrite at_offset_blit by done. apply list_eq. intros j.
  destruct (decide (j < m)%nat); [|by rewrite !lookup_take_ge by lia].
  rewrite !lookup_take_lt, !lookup_drop by lia. destruct Hd.
  - rewrite lookup_app_r by (rewrite length_take; lia).
    rewrite lookup_app_r by (rewrite length_take; lia).
    rewrite lookup_drop, length_take. f_equal; lia.
  - rewrite lookup_app_l by (rewrite length_take; lia). by rewrite lookup_take_lt by lia.
Qed.

Lemma window_at_blit_same off src d m :
  (off + length src <= length d)%nat -> (m <= length src)%nat ->
  take m (drop off (at_offset off (blit src) d)) = take m src.
Proof.
  intros Hf Hm. rewrite at_offset_blit by done.
  rewrite drop_app_ge by (rewrite length_take; lia). rewrite length_take.
  replace (off - off `min` length d)%nat with 0%nat by lia. rewrite drop_0.
  by rewrite take_app_le by lia.
Qed.

Lemma le_val_take_le_bytes n m v :
  (m <= n)%nat -> le_val (take m (le_bytes n v)) = v mod 2 ^ (8 * Z.of_nat m).
Proof.
  intros. rewrite le_val_take by apply le_bytes_bytes.
  rewrite le_val_le_bytes, length_le_bytes, mod_mod_pow2 by lia. do 3 f_equal. lia.
Qed.

(** A write to a register, as seen by every read that follows. *)
Lemma set_get_facts junk r it a n v :
  length junk = 12%nat -> reg_wf r -> item_at r it a n ->
  exists r', r_reg_set_value junk r (Some it) v = Some (true, r')
    /\ reg_wf r' /\ rr_regset r' = rr_regset r
    /\ r_reg_get_value r' (Some it) = Some (v mod 2 ^ (8 * Z.of_nat n))
    /\ forall it' a' m, item_at r it' a' m -> disjoint_items it n it' m ->
         r_reg_get_value r' (Some it') = r_reg_get_value r (Some it').
Proof.
  intros Hj W Hit. pose proof Hit as [Ha Ho Hs Hw Hf].
  eexists. split; [by eapply reg_set_spec|].
  set (src := ble_bytes (rr_big_endian r) n v).
  set (b := {| ar_bytes := at_offset (off_of it) (blit src) (ar_bytes a) |}).
  assert (length src = n) as Hsl by apply ble_bytes_len.
  assert (bytes (ar_bytes b)) as Hb.
  { apply at_blit_bytes; [apply ble_bytes_bytes|by eapply arena_bytes]. }
  assert (reg_wf (put_arena r (ri_type it) b)) as W' by by apply reg_wf_put.
  split; [done|]. split; [apply regset_put|]. split.
  - destruct (item_at_put r (ri_type it) it a a n W Hit Ha b) as (a' & Hit' & Heq & _);
      [apply length_at_blit|].
    rewrite Heq in Hit' by done. rewrite (reg_get_spec _ it b n Hb Hit'), be_put.
    unfold b; simpl. rewrite window_at_blit_same by lia.
    rewrite take_ge by lia. unfold src. f_equal. apply ble_bytes_val.
  - intros it' a' m Hit2 Hdis. pose proof Hit2 as [Ha2 ? ? ? Hf2].
    rewrite (reg_get_spec r it' a' m (arena_bytes _ _ _ W Ha2) Hit2).
    destruct (item_at_put r (ri_type it) it' a' a m W Hit2 Ha b) as (c & Hit2' & Heq & Hneq);
      [apply length_at_blit|].
    rewrite (reg_get_spec _ it' c m (arena_bytes _ _ _ W' (ia_arena _ _ _ _ Hit2')) Hit2'), be_put.
    destruct (decide (ri_type it = ri_type it')) as [E|E]; [|by rewrite Hneq].
    rewrite Heq by done. rewrite E in Ha. rewrite Ha in Ha2. simplify_eq.
    unfold b; simpl. rewrite window_at_blit; [done|lia|]. destruct Hdis as [?|Hd]; [done|lia].
Qed.

(** C28: writing a register of 8, 16, 32 or 64 bits, at a whole byte inside its arena
    ([item_at]), succeeds in either byte order, reading it back gives the value modulo
    its width, and every register of such a width that shares no byte with it keeps its
    value; the register file stays well-formed with the same registers.  Registers of 1,
    80 and 96 bits are not covered: see [r_reg_set_value_80] for the latter. *)
Theorem r_reg_set_get junk r it a n v :
  length junk = 12%nat -> reg_wf r -> item_at r it a n ->
  exists r', r_reg_set_value junk r (Some it) v = Some (true, r')
    /\ reg_wf r' /\ rr_regset r' = rr_regset r
    /\ r_reg_get_value r' (Some it) = Some (v mod 2 ^ (8 * Z.of_nat n))
    /\ forall it' a' m, item_at r it' a' m -> disjoint_items it n it' m ->
         r_reg_get_value r' (Some it') = r_reg_get_value r (Some it').
Proof. apply set_get_facts. Qed.

(** On a little-endian register file the narrow registers overlay the wide
    one: after writing [n] bytes, the register of [m <= n] bytes at the same
    place reads the low part. *)
Theorem r_reg_subregister junk r it a n v it' m :
  length junk = 12%nat -> reg_wf r -> rr_big_endian r = false ->
  item_at r it a n -> item_at r it' a m -> ri_type it' = ri_type it ->
  off_of it' = off_of it -> (m <= n)%nat ->
  exists r', r_reg_set_value junk r (Some it) v = Some (true, r')
    /\ r_reg_get_value r' (Some it') = Some (v mod 2 ^ (8 * Z.of_nat m)).
Proof.
  intros Hj W Hle Hit Hit2 Ht Hoff Hm. pose proof Hit as [Ha Ho Hs Hw Hf].
  eexists. split; [by eapply reg_set_spec|].
  set (src := ble_bytes (rr_big_endian r) n v).
  set (b := {| ar_bytes := at_offset (off_of it) (blit src) (ar_bytes a) |}).
  assert (length src = n) as Hsl by apply ble_bytes_len.
  assert (bytes (ar_bytes b)) as Hb.
  { apply at_blit_bytes; [apply ble_bytes_bytes|by eapply arena_bytes]. }
  destruct (item_at_put r (ri_type it) it' a a m W Hit2 Ha b) as (c & Hit2' & Heq & _);
    [apply length_at_blit|].
  rewrite Heq in Hit2' by done. rewrite (reg_get_spec _ it' b m Hb Hit2'), be_put.
  unfold b; simpl. rewrite Hoff, window_at_blit_same by lia.
  unfold src. rewrite Hle. unfold ble_bytes, ble_val. f_equal. by apply le_val_take_le_bytes.
Qed.

(** ** Saving and restoring ([r_reg_arena_push], [r_reg_arena_pop]) *)

(** The state reached from [r0] by pushing the types below [i]. *)
Record pushed (r0 : RReg) (i : nat) (r : RReg) : Prop := {
  pu_next : rr_next r = (rr_next r0 + i)%nat;
  pu_be : rr_big_endian r = rr_big_endian r0;
  pu_len : length (rr_regset r) = length (rr_regset r0);
  pu_set : forall j rs, rr_regset r0 !! j = Some rs ->
    rr_regset r !! j = Some (if decide (j < i)%nat
      then {| rs_arena := (rr_next r0 + j)%nat; rs_pool := rs_pool rs ++ [(rr_next r0 + j)%nat];
              rs_regs := rs_regs rs |}
      else rs);
  pu_old : forall id, (id < rr_next r0)%nat -> rr_arenas r !! id = rr_arenas r0 !! id;
}.

Lemma wf_lookup_arena r i rs :
  reg_wf r -> rr_regset r !! i = Some rs ->
  exists a, rr_arenas r !! rs_arena rs = Some a /\ (rs_arena rs < rr_next r)%nat.
Proof.
  intros W H. destruct (wf_store r W i rs (rs_arena rs) H) as [Hl [a Ha]]; [by eapply wf_arena_in|].
  eauto.
Qed.

Lemma pushed_step r0 i r :
  reg_wf r0 -> (i < length (rr_regset r0))%nat -> pushed r0 i r -> pushed r0 (S i) (arena_push1 i r).
Proof.
  intros W Hi [Hn Hbe Hlen Hset Hold].
  destruct (lookup_lt_is_Some_2 _ _ Hi) as [rs0 Hrs0].
  pose proof (Hset i rs0 Hrs0) as Hrs. rewrite decide_False in Hrs by lia.
  destruct (wf_lookup_arena r0 i rs0 W Hrs0) as (a & Ha & Hlt).
  unfold arena_push1. rewrite Hrs, Hold, Ha by done.
  unfold r_reg_arena_new. cbn -[replicate].
  split; cbn -[replicate].
  - rewrite Hn. lia.
  - done.
  - by rewrite length_insert.
  - intros j rs Hj. destruct (decide (j = i)) as [->|Hne].
    + rewrite list_lookup_insert_eq by lia. simplify_eq. rewrite decide_True by lia.
      by rewrite Hn.
    + rewrite list_lookup_insert_ne by done. rewrite (Hset j rs Hj).
      repeat case_decide; try lia; done.
  - intros id Hid. rewrite !lookup_insert_ne by lia. by apply Hold.
Qed.

Lemma pushed_types r0 n i r :
  reg_wf r0 -> (i + n <= length (rr_regset r0))%nat -> pushed r0 i r ->
  pushed r0 (i + n) (for_types n i arena_push1 r).
Proof.
  intros W. revert i r. induction n as [|n IH]; intros i r Hn Hp; simpl.
  - by rewrite Nat.add_0_r.
  - rewrite <- Nat.add_succ_comm. apply IH; [lia|]. apply pushed_step; [done|lia|done].
Qed.

Lemma pushed_push r : reg_wf r -> pushed r R_REG_TYPE_LAST (r_reg_arena_push r).2.
Proof.
  intros W. unfold r_reg_arena_push. cbn [snd].
  apply (pushed_types r R_REG_TYPE_LAST 0 r W).
  - rewrite (wf_sets r W). unfold R_REG_TYPE_LAST. lia.
  - split; [lia|done|done| |done]. intros j rs Hj. rewrite decide_False by lia. done.
Qed.

(** The state reached by popping the types below [i] when every pool has an
    arena pushed on top of [r0]. *)
Record popped (r0 : RReg) (i : nat) (r : RReg) : Prop := {
  po_be : rr_big_endian r = rr_big_endian r0;
  po_len : length (rr_regset r) = length (rr_regset r0);
  po_set : forall j rs, rr_regset r0 !! j = Some rs ->
    rr_regset r !! j = Some (if decide (j < i)%nat then rs
      else {| rs_arena := (rr_next r0 + j)%nat; rs_pool := rs_pool rs ++ [(rr_next r0 + j)%nat];
              rs_regs := rs_regs rs |});
  po_old : forall id, (id < rr_next r0)%nat -> rr_arenas r !! id = rr_arenas r0 !! id;
}.

Lemma removelast_snoc {A} (l : list A) x : removelast (l ++ [x]) = l.
Proof. rewrite removelast_app by done. simpl. by rewrite app_nil_r. Qed.

Lemma popped_step r0 i r :
  reg_wf r0 -> (i < length (rr_regset r0))%nat -> popped r0 i r -> popped r0 (S i) (arena_pop1 i r).
Proof.
  intros W Hi [Hbe Hlen Hset Hold].
  destruct (lookup_lt_is_Some_2 _ _ Hi) as [rs0 Hrs0].
  pose proof (Hset i rs0 Hrs0) as Hrs. rewrite decide_False in Hrs by lia.
  pose proof (wf_arena r0 W i rs0 Hrs0) as Hlast.
  unfold arena_pop1. rewrite Hrs. cbn [rs_pool rs_regs].
  assert (rs_pool rs0 <> []) as Hne by (intros E; by rewrite E in Hlast).
  assert (1 <= length (rs_pool rs0))%nat as Hl by (destruct (rs_pool rs0); simpl; [done|lia]).
  rewrite (proj2 (Nat.ltb_ge _ _)) by (rewrite length_app; simpl; lia).
  rewrite last_snoc, removelast_snoc, Hlast. split; cbn.
  - done.
  - by rewrite length_insert.
  - intros j rs Hj. destruct (decide (j = i)) as [->|Hne'].
    + rewrite list_lookup_insert_eq by lia. simplify_eq. rewrite decide_True by lia.
      by match goal with |- context [rs_arena ?x] => destruct x end.
    + rewrite list_lookup_insert_ne by done. rewrite (Hset j rs Hj).
      repeat case_decide; try lia; done.
  - intros id Hid. rewrite lookup_delete_ne by lia. by apply Hold.
Qed.

Lemma popped_types r0 n i r :
  reg_wf r0 -> (i + n <= length (rr_regset r0))%nat -> popped r0 i r ->
  popped r0 (i + n) (for_types n i arena_pop1 r).
Proof.
  intros W. revert i r. induction n as [|n IH]; intros i r Hn Hp; simpl.
  - by rewrite Nat.add_0_r.
  - rewrite <- Nat.add_succ_comm. apply IH; [lia|]. apply popped_step; [done|lia|done].
Qed.

(** Any number of register writes, whatever they return. *)
Inductive reg_writes (junk : list Z) : RReg -> RReg -> Prop :=
  | rw_done r : reg_writes junk r r
  | rw_write r it v ok r' r'' :
      r_reg_set_value junk r it v = Some (ok, r') -> reg_writes junk r' r'' ->
      reg_writes junk r r''.

(** Only the values in the current arenas differ. *)
Definition values_only (r r' : RReg) : Prop :=
  rr_regset r' = rr_regset r /\ rr_big_endian r' = rr_big_endian r /\
  forall id, (forall i rs, rr_regset r !! i = Some rs -> rs_arena rs <> id) ->
    rr_arenas r' !! id = rr_arenas r !! id.

#[export] Instance values_only_preorder : PreOrder values_only.
Proof.
  split; [by intros r|]. intros r1 r2 r3 (E1 & B1 & H1) (E2 & B2 & H2).
  split_and!; [congruence|congruence|]. intros id Hid. rewrite H2; [by apply H1|].
  intros i rs. rewrite E1. apply Hid.
Qed.

Lemma values_only_put r t a : values_only r (put_arena r t a).
Proof.
  split_and!; [apply regset_put|apply be_put|]. intros id Hid. unfold put_arena.
  destruct (rr_regset r !! t) as [rs|] eqn:E; [|done]. simpl.
  apply lookup_insert_ne. by eapply Hid.
Qed.

Lemma values_only_store r it src ok r' :
  reg_store r it src = Some (ok, r') -> values_only r r'.
Proof.
  unfold reg_store. destruct (arena_of r (ri_type it)); simpl; [|done].
  repeat case_match; intros; simplify_eq; auto using values_only_put; reflexivity.
Qed.

Lemma values_only_longdouble r it v ok r' :
  r_reg_set_longdouble r it v = Some (ok, r') -> values_only r r'.
Proof.
  unfold r_reg_set_longdouble. destruct it; [|intros; by simplify_eq].
  case_match; [apply values_only_store|intros; by simplify_eq].
Qed.

Lemma values_only_bit r it v ok r' :
  reg_set_bit r it v = Some (ok, r') -> values_only r r'.
Proof.
  unfold reg_set_bit. destruct (arena_of r (ri_type it)); simpl; [|done].
  case_match; intros; simplify_eq; apply values_only_put.
Qed.

Lemma values_only_set80 junk r it v ok r' :
  ('(_, r) ← r_reg_set_longdouble r (Some it) v; reg_store r it junk) = Some (ok, r') ->
  values_only r r'.
Proof.
  intros H. apply bind_Some in H as ([b r1] & H1 & H2).
  etransitivity; [by eapply values_only_longdouble|by eapply values_only_store].
Qed.

Lemma values_only_set junk r it v ok r' :
  r_reg_set_value junk r it v = Some (ok, r') -> values_only r r'.
Proof.
  unfold r_reg_set_value. destruct it as [it|]; [|intros; by simplify_eq].
  destruct (ri_size it) as [|p|]; [intros; by simplify_eq| |intros; by simplify_eq].
  do 7 (try destruct p as [p|p|]); intros H;
    first [ by eapply values_only_store | by eapply values_only_bit
          | by eapply values_only_set80 | by simplify_eq ].
Qed.

Lemma values_only_writes junk r r' : reg_writes junk r r' -> values_only r r'.
Proof.
  induction 1; [reflexivity|]. etransitivity; [by eapply values_only_set|done].
Qed.

Lemma arena_of_ext r r' t :
  rr_regset r' = rr_regset r ->
  (forall i rs, rr_regset r !! i = Some rs -> rr_arenas r' !! rs_arena rs = rr_arenas r !! rs_arena rs) ->
  arena_of r' t = arena_of r t.
Proof.
  intros E H. unfold arena_of. rewrite E. destruct (rr_regset r !! t) eqn:Et; [|done].
  simpl. by eapply H.
Qed.

Lemma r_reg_get_value_ext r r' it :
  (forall t, arena_of r' t = arena_of r t) -> rr_big_endian r' = rr_big_endian r ->
  r_reg_get_value r' it = r_reg_get_value r it.
Proof.
  intros Ha Hb. destruct it as [it|]; [|done].
  unfold r_reg_get_value, r_reg_get_longdouble. by rewrite Ha, Hb.
Qed.

(** [r_reg_arena_push] followed by any register writes and a
    [r_reg_arena_pop] restores every register: the value of every item and
    the set it is in are those before the push. *)
Theorem r_reg_arena_push_pop junk r r2 :
  reg_wf r -> reg_writes junk (r_reg_arena_push r).2 r2 ->
  let r' := r_reg_arena_pop r2 in
  rr_regset r' = rr_regset r /\
  forall it, r_reg_get_value r' it = r_reg_get_value r it.
Proof.
  intros W Hw. pose proof (pushed_push r W) as P.
  destruct (values_only_writes _ _ _ Hw) as (Er & Ebe & Hv).
  assert (length (rr_regset r) = R_REG_TYPE_LAST) as Hlen by apply W.
  assert (popped r 0 r2) as P0.
  { destruct P as [Hn Hbe Hl Hset Hold]. split; [congruence|congruence| |].
    - intros j rs Hj. rewrite Er, (Hset j rs Hj), decide_True, decide_False; [done|lia|].
      rewrite <- Hlen. by eapply lookup_lt_Some.
    - intros id Hid. rewrite Hv; [by apply Hold|]. intros i rs Hi Heq.
      destruct (lookup_lt_is_Some_2 (rr_regset r) i) as [rs0 Hrs0].
      { rewrite <- Hl. by eapply lookup_lt_Some. }
      rewrite (Hset i rs0 Hrs0), decide_True in Hi; [simplify_eq/=; lia|].
      rewrite <- Hlen. by eapply lookup_lt_Some. }
  pose proof (popped_types r R_REG_TYPE_LAST 0 r2 W) as Hp.
  specialize (Hp ltac:(rewrite Hlen; unfold R_REG_TYPE_LAST; lia) P0).
  destruct Hp as [Hbe Hl Hset Hold]. cbv zeta. unfold r_reg_arena_pop.
  set (r' := for_types R_REG_TYPE_LAST 0 arena_pop1 r2) in *.
  assert (rr_regset r' = rr_regset r) as E.
  { apply list_eq. intros j. destruct (rr_regset r !! j) as [rs|] eqn:Ej.
    - rewrite (Hset j rs Ej), decide_True; [done|]. simpl. rewrite <- Hlen.
      by eapply lookup_lt_Some.
    - apply lookup_ge_None. rewrite Hl. by apply lookup_ge_None. }
  split; [done|]. intros it. apply r_reg_get_value_ext; [|done].
  intros t. apply arena_of_ext; [done|]. intros i rs Hi.
  destruct (wf_lookup_arena r i rs W Hi) as (a & _ & Hlt). by apply Hold.
Qed.

(** ** The witnesses: the register file of [Reg.demo_profile] *)

(** A boolean check of [reg_wf]. *)
Definition reg_wf_b (r : RReg) : bool :=
  (length (rr_regset r) =? R_REG_TYPE_LAST)%nat
  && forallb (fun rs => bool_decide (last (rs_pool rs) = Some (rs_arena rs))) (rr_regset r)
  && forallb (fun rs => forallb (fun id => (id <? rr_next r)%nat
       && bool_decide (is_Some (rr_arenas r !! id))) (rs_pool rs)) (rr_regset r)
  && bool_decide (NoDup (concat (map rs_pool (rr_regset r))))
  && forallb (fun p : nat * RRegArena => forallb (fun b => (0 <=? b) && (b <? 2 ^ 8)) (ar_bytes p.2))
       (map_to_list (rr_arenas r)).

Lemma concat_NoDup_inj {A B} (f : A -> list B) l :
  NoDup (concat (map f l)) ->
  (forall i x, l !! i = Some x -> NoDup (f x)) /\
  (forall i j x y b, l !! i = Some x -> l !! j = Some y -> b ∈ f x -> b ∈ f y -> i = j).
Proof.
  assert (forall k j y b, k !! j = Some y -> b ∈ f y -> b ∈ concat (map f k)) as Hin.
  { induction k as [|x k IH]; intros [|j] y b; simpl; try done.
    - intros [= ->] ?. apply elem_of_app. by left.
    - intros ? ?. apply elem_of_app. right. by eapply IH. }
  induction l as [|x l IH]; simpl; [done|].
  rewrite NoDup_app. intros (N1 & Hd & N2). destruct (IH N2) as [I1 I2]. split.
  - intros [|i] y; simpl; [by intros [= <-]|eauto].
  - intros [|i] [|j] y z b; simpl; [done| | |].
    + intros [= <-] ? Hb ?. destruct (Hd b Hb). by eapply Hin.
    + intros ? [= <-] ? Hb. destruct (Hd b Hb). by eapply Hin.
    + intros. f_equal. by eapply I2.
Qed.

Lemma reg_wf_b_sound r : reg_wf_b r = true -> reg_wf r.
Proof.
  unfold reg_wf_b. rewrite !andb_true_iff, !forallb_forall, Nat.eqb_eq.
  intros [[[[H1 H2] H3] H4%bool_decide_eq_true] H5].
  destruct (concat_NoDup_inj _ _ H4) as [Hn Hi].
  assert (forall i (rs : RRegSet), rr_regset r !! i = Some rs -> List.In rs (rr_regset r)) as Hin.
  { intros i rs H. by eapply list_elem_of_In, list_elem_of_lookup_2. }
  split; try done.
  - intros i rs H. by eapply bool_decide_eq_true, H2, Hin.
  - intros i rs id H Hid. specialize (H3 rs (Hin _ _ H)). rewrite forallb_forall in H3.
    specialize (H3 id ltac:(by apply list_elem_of_In)).
    apply andb_true_iff in H3 as [L S]. apply Nat.ltb_lt in L. apply bool_decide_eq_true in S. done.
  - intros id a H. specialize (H5 (id, a)). rewrite forallb_forall in H5.
    apply Forall_forall. intros b Hb.
    specialize (H5 ltac:(by apply list_elem_of_In, elem_of_map_to_list) b
                   ltac:(by apply list_elem_of_In)).
    unfold is_byte. lia.
Qed.

Definition demo_item (name : string) : RRegItem :=
  default {| ri_name := None; ri_type := 0; ri_size := 0; ri_offset := 0; ri_packed_size := 0;
             ri_flags := None |} (r_reg_get demo_reg name (-1)).
Definition demo_arena (t : nat) : RRegArena :=
  default {| ar_bytes := [] |} (arena_of demo_reg t).

Lemma demo_wf : reg_wf demo_reg.
Proof. apply reg_wf_b_sound. vm_compute. reflexivity. Qed.

Definition item_at_b (r : RReg) (it : RRegItem) (n : nat) : bool :=
  (0 <=? ri_offset it) && (ri_size it =? 8 * Z.of_nat n) && existsb (Nat.eqb n) [1; 2; 4; 8]%nat
  && match arena_of r (ri_type it) with
     | Some a => (off_of it + n <=? length (ar_bytes a))%nat
     | None => false
     end.

Lemma item_at_b_sound r it n :
  item_at_b r it n = true ->
  item_at r it (default {| ar_bytes := [] |} (arena_of r (ri_type it))) n.
Proof.
  unfold item_at_b. rewrite !andb_true_iff, existsb_exists.
  intros [[[H1 H2] (m & Hm & Em)] H4]. apply Nat.eqb_eq in Em as <-.
  apply list_elem_of_In in Hm.
  destruct (arena_of r (ri_type it)) as [a|] eqn:E; [|done].
  apply Nat.leb_le in H4. split; simpl; try done; lia.
Qed.

Lemma r_reg_set_get_witness :
  let ax := demo_item "ax" in
  exists r', r_reg_set_value (replicate 12 0xcc) demo_reg (Some ax) 0x12345 = Some (true, r')
    /\ reg_wf r' /\ rr_regset r' = rr_regset demo_reg
    /\ r_reg_get_value r' (Some ax) = Some (0x12345 mod 2 ^ (8 * Z.of_nat 2))
    /\ forall it' a' m, item_at demo_reg it' a' m -> disjoint_items ax 2 it' m ->
         r_reg_get_value r' (Some it') = r_reg_get_value demo_reg (Some it').
Proof.
  intros ax. eapply r_reg_set_get; [reflexivity|apply demo_wf|].
  apply item_at_b_sound. vm_compute. reflexivity.
Defined.

Lemma r_reg_subregister_witness :
  exists r', r_reg_set_value (replicate 12 0xcc) demo_reg (Some (demo_item "rax")) 0x1122334455667788
      = Some (true, r')
    /\ r_reg_get_value r' (Some (demo_item "al")) = Some (0x1122334455667788 mod 2 ^ (8 * Z.of_nat 1)).
Proof.
  eapply (r_reg_subregister _ _ _ _ 8); [reflexivity|apply demo_wf|vm_compute; reflexivity| | | | |lia].
  - apply item_at_b_sound. vm_compute. reflexivity.
  - apply (item_at_b_sound demo_reg (demo_item "al") 1). vm_compute. reflexivity.
  - vm_compute. reflexivity.
  - vm_compute. reflexivity.
Defined.

Lemma r_reg_arena_push_pop_witness :
  let r2 := from_option snd demo_reg (r_reg_setv (replicate 12 0xcc) (r_reg_arena_push demo_reg).2 "rax" 7) in
  let r' := r_reg_arena_pop r2 in
  rr_regset r' = rr_regset demo_reg /\
  forall it, r_reg_get_value r' it = r_reg_get_value demo_reg it.
Proof.
  intros r2 r'. eapply (r_reg_arena_push_pop (replicate 12 0xcc)); [apply demo_wf|].
  eapply (rw_write _ _ (r_reg_get (r_reg_arena_push demo_reg).2 "rax" (-1)) 7 true);
    [|apply rw_done]. vm_compute. reflexivity.
Defined.

(** ** What the setters do not do *)

Lemma blit_blit s1 s2 d : length s1 = length s2 -> blit s2 (blit s1 d) = blit s2 d.
Proof.
  intros E. apply list_eq. intros i. rewrite !blit_lookup, length_blit, E.
  repeat case_decide; done.
Qed.

Lemma at_offset_twice off f g d :
  (off <= length d)%nat -> at_offset off g (at_offset off f d) = at_offset off (g ∘ f) d.
Proof.
  intros H. unfold at_offset.
  rewrite take_app_length', drop_app_length' by (rewrite length_take; lia). done.
Qed.

Lemma put_arena_twice r t a b : put_arena (put_arena r t a) t b = put_arena r t b.
Proof.
  unfold put_arena. destruct (rr_regset r !! t) as [rs|] eqn:E; simpl; rewrite E; [|done].
  unfold set_arenas; simpl. by rewrite insert_insert_eq.
Qed.

(** Storing twice at the same place is storing the second source. *)
Lemma reg_store_twice r it s1 s2 n :
  ri_size it = 8 * Z.of_nat n -> (n <= length s1)%nat -> (n <= length s2)%nat ->
  ('(_, r') ← reg_store r it s1; reg_store r' it s2) = reg_store r it s2.
Proof.
  intros Hs H1 H2. unfold reg_store. rewrite Hs, BITS2BYTES_mul.
  destruct (arena_of r (ri_type it)) as [a|] eqn:Ea; simpl; [|done].
  destruct (Z.geb_spec (ar_size a - BITS2BYTES (ri_offset it) - Z.of_nat n) 0) as [Hf|Hf]; simpl.
  2: { rewrite Ea; simpl. case_match; [lia|done]. }
  destruct (Z.ltb_spec (BITS2BYTES (ri_offset it)) 0) as [Ho|Ho]; simpl; [done|].
  rewrite (arena_of_put _ _ _ a Ea). simpl. unfold ar_size in *; simpl.
  set (off := Z.to_nat (BITS2BYTES (ri_offset it))).
  assert (length (at_offset off (fun d => r_mem_copybits d s1 (8 * Z.of_nat n)) (ar_bytes a))
    = length (ar_bytes a)) as ->.
  { apply length_at_offset. intros d. rewrite r_mem_copybits_bytes by done. apply length_blit. }
  rewrite (proj2 (Z.geb_le _ _) Hf), put_arena_twice, at_offset_twice by (unfold off; lia).
  do 4 f_equal. unfold at_offset. f_equal. simpl. rewrite !r_mem_copybits_bytes by done.
  apply blit_blit. rewrite !length_take. lia.
Qed.

(** Writing an 80-bit or 96-bit register stores the uninitialised local
    buffer, whatever the value: the [break] of that case leads to the copy of
    [bytes] over what [r_reg_set_longdouble] just stored. *)
Theorem r_reg_set_value_80 junk r it v :
  ri_size it = 80 \/ ri_size it = 96 -> length junk = 12%nat ->
  r_reg_set_value junk r (Some it) v = reg_store r it junk.
Proof.
  intros Hs Hj.
  assert (length (ld_of_u64 v) = 16%nat) as Hld.
  { unfold ld_of_u64. case_match; [apply length_le_bytes|].
    by rewrite !length_app, !length_le_bytes. }
  assert (('(_, r') ← r_reg_set_longdouble r (Some it) v; reg_store r' it junk)
    = reg_store r it junk) as E.
  { unfold r_reg_set_longdouble. destruct Hs as [Hs|Hs]; rewrite Hs; simpl.
    - apply (reg_store_twice _ _ _ _ 10); rewrite ?Hld, ?Hj; [done|lia|lia].
    - apply (reg_store_twice _ _ _ _ 12); rewrite ?Hld, ?Hj; [done|lia|lia]. }
  unfold r_reg_set_value. by destruct Hs as [Hs|Hs]; rewrite Hs.
Qed.

Lemma r_reg_set_value_80_witness :
  r_reg_set_value (replicate 12 0xcc) demo_reg (Some (demo_item "st1")) 1
  = reg_store demo_reg (demo_item "st1") (replicate 12 0xcc).
Proof.
  apply r_reg_set_value_80; [left; vm_compute; reflexivity|reflexivity].
Defined.

(** ** Condition codes *)

(** The flags a subtraction [a - b] of [w]-bit words leaves, carry meaning
    that no borrow happened. *)
Definition cmp_flags (w a b : Z) : RRegFlags :=
  let d := (a - b) mod 2 ^ w in
  {| f_s := Z.testbit d (w - 1); f_z := d =? 0; f_c := b <=? a;
     f_o := negb (bool_decide (swrap w a - swrap w b = swrap w d)); f_p := false |}.

(** What each condition means of the operands that were compared. *)
Definition cond_meaning (w a b type : Z) : bool :=
  let x := swrap w a in let y := swrap w b in
  match type with
  | 0 => a =? b | 1 => negb (a =? b) | 2 => b <=? a
  | 3 => Z.testbit ((a - b) mod 2 ^ w) (w - 1)
  | 4 => negb (bool_decide (x - y = swrap w ((a - b) mod 2 ^ w)))
  | 5 => b <? a | 6 => b <=? a | 7 => a <=? b | 8 => a <=? b
  | 9 => y <=? x | 10 => y <? x | 11 => x <? y | 12 => x <=? y
  | _ => false
  end.

Lemma testbit_top w d :
  0 < w -> 0 <= d < 2 ^ w -> Z.testbit d (w - 1) = (2 ^ (w - 1) <=? d).
Proof.
  intros Hw Hd. assert (2 ^ w = 2 * 2 ^ (w - 1)) as E
    by (rewrite <- Z.pow_succ_r by lia; f_equal; lia).
  rewrite Z.testbit_odd, Z.shiftr_div_pow2 by lia.
  destruct (Z.leb_spec (2 ^ (w - 1)) d).
  - replace (d / 2 ^ (w - 1)) with 1; [done|].
    apply (Z.div_unique _ _ _ (d - 2 ^ (w - 1))); lia.
  - by rewrite Z.div_small by lia.
Qed.

Ltac split_bool :=
  repeat match goal with
  | |- context [?x <? ?y] => destruct (Z.ltb_spec x y); try lia
  | |- context [?x <=? ?y] => destruct (Z.leb_spec x y); try lia
  | |- context [?x =? ?y] => destruct (Z.eqb_spec x y); try lia
  end; try reflexivity.

(** After a comparison [r_reg_cond_bits] answers what each condition
    means: equality, the unsigned orders, the signed orders, at every width,
    except that "lower" is the test for "lower or equal". *)
Theorem r_reg_cond_bits_compare w a b type :
  0 < w -> 0 <= a < 2 ^ w -> 0 <= b < 2 ^ w -> 0 <= type <= 12 ->
  r_reg_cond_bits type (cmp_flags w a b) = cond_meaning w a b type.
Proof.
  intros Hw Ha Hb Ht.
  assert (2 ^ w = 2 * 2 ^ (w - 1)) as E by (rewrite <- Z.pow_succ_r by lia; f_equal; lia).
  assert (0 <= (a - b) mod 2 ^ w < 2 ^ w) as Hd by (apply Z.mod_pos_bound; lia).
  assert ((a - b) mod 2 ^ w = if b <=? a then a - b else a - b + 2 ^ w) as Ed.
  { destruct (Z.leb_spec b a); [apply Z.mod_small; lia|].
    symmetry. apply (Z.mod_unique _ _ (-1)); lia. }
  unfold r_reg_cond_bits, cond_meaning, cmp_flags; cbn [f_s f_z f_c f_o].
  rewrite !testbit_top by lia. unfold swrap.
  rewrite (Z.mod_mod (a - b)), (Z.mod_small a), (Z.mod_small b), Ed by lia.
  clear Ed Hd. generalize dependent (2 ^ (w - 1)). intros h E. rewrite E in *.
  assert (type ∈ [0; 1; 2; 3; 4; 5; 6; 7; 8; 9; 10; 11; 12]) as Hin by (set_unfold; lia).
  destruct (Z.leb_spec b a), (Z.ltb_spec a h), (Z.ltb_spec b h);
    match goal with |- context [?d <? h] => destruct (Z.ltb_spec d h) end; try lia;
    match goal with |- context [h <=? ?d] => destruct (Z.leb_spec h d) end; try lia;
    (case_bool_decide; try lia);
    set_unfold; repeat (destruct Hin as [->|Hin]); try done; cbv zeta; split_bool.
Qed.

Lemma r_reg_cond_bits_compare_witness :
  r_reg_cond_bits 12 (cmp_flags 8 0x80 0x7f) = cond_meaning 8 0x80 0x7f 12 /\
  r_reg_cond_bits 7 (cmp_flags 8 5 5) = cond_meaning 8 5 5 7.
Proof. split; apply r_reg_cond_bits_compare; lia. Defined.

(** Condition codes and their names: every code has a name that parses
    back to it, and a string parses to a code only if it is the code's name. *)
Theorem r_reg_cond_string_roundtrip :
  (forall n, 0 <= n <= 12 ->
     exists s, r_reg_cond_to_string n = Some s /\ r_reg_cond_from_string s = n) /\
  (forall s, r_reg_cond_from_string s = -1 \/
     r_reg_cond_to_string (r_reg_cond_from_string s) = Some s) /\
  (forall n, n < 0 \/ 12 < n -> r_reg_cond_to_string n = None).
Proof.
  split_and!.
  - intros n Hn. assert (n ∈ [0; 1; 2; 3; 4; 5; 6; 7; 8; 9; 10; 11; 12]) as Hin
      by (set_unfold; lia).
    set_unfold; repeat (destruct Hin as [->|Hin]); try done; eexists; split; reflexivity.
  - intros s. unfold r_reg_cond_from_string.
    destruct (list_find (fun c => c = s) cond_names) as [[i c]|] eqn:E; [right|by left].
    apply list_find_Some in E as (Hi & -> & _). pose proof (lookup_lt_Some _ _ _ Hi) as Hl.
    simpl in Hl. unfold r_reg_cond_to_string. rewrite Nat2Z.id.
    destruct (Z.ltb_spec (Z.of_nat i) 0); [lia|]. rewrite Z.gtb_ltb.
    by destruct (Z.ltb_spec 12 (Z.of_nat i)); [lia|].
  - intros n Hn. unfold r_reg_cond_to_string. rewrite Z.gtb_ltb.
    destruct (Z.ltb_spec n 0), (Z.ltb_spec 12 n); try done; lia.
Qed.
