(* ===== verification/RegProfile.v ===== *)
(** * Register profiles

    [libr/reg/profile.c]: the text of a profile is cut into lines and words,
    every line defines an alias or a register, and the arenas are sized to
    the registers defined.  The reference is [Reg.parse_lines], which starts
    from the words; here is the scanner, with the whole of
    [r_reg_set_profile_string], and what it guarantees. *)

From S2P Require Import Prelude Endian Mem Num Reg RegFacts.

(** ** The scanner *)

Definition newline : ascii := "010".
Definition tab : ascii := "009".
(** [isgraph] of the C locale. *)
Definition isgraph (c : ascii) : bool := (33 <=? code c) && (code c <=? 126).

Fixpoint skip_ws (p : string) : string :=
  match p with
  | String c q => if is_char c " " || is_char c tab then skip_ws q else p
  | EmptyString => p
  end.

(** [while ( *p != '\n') p++]: without a newline it runs off the string. *)
Fixpoint to_newline (p : string) : option string :=
  match p with
  | EmptyString => None
  | String c q => if is_char c newline then Some p else to_newline q
  end.

(** At most [n] characters that can be seen. *)
Fixpoint take_graph (n : nat) (p : string) : string * string :=
  match n, p with
  | S n, String c q =>
      if isgraph c then let '(w, q) := take_graph n q in (String c w, q) else (EmptyString, p)
  | _, _ => (EmptyString, p)
  end.

Definition PARSER_MAX_TOKENS : nat := 8.

(** The words of a line.  Every turn adds a word or leaves the loop, and there
    are at most [PARSER_MAX_TOKENS] words: [n] counts the turns left.  A
    character that is neither visible nor blank gives empty words, and so
    does blank space at the end of the text. *)
Fixpoint read_words (n : nat) (p : string) (tok : list string) : option (list string * string) :=
  match p, n with
  | EmptyString, _ | _, O => Some (tok, p)
  | _, S n =>
      let p := skip_ws p in
      p ← (if is_char (char_at p 0) "#" then to_newline p else Some p);
      if is_char (char_at p 0) newline then Some (tok, p)
      else
        let '(w, p) := take_graph 127 p in
        if (PARSER_MAX_TOKENS - 1 <? length tok)%nat then Some (tok, p)
        else read_words n p (tok ++ [w])
  end.

(** [R_FREE] of the strings and the names, the registers dropped; the null
    lists left by [init = false] are empty lists. *)
Definition clear_regs (rs : RRegSet) : RRegSet :=
  {| rs_arena := rs_arena rs; rs_pool := rs_pool rs; rs_regs := [] |}.
Definition r_reg_free_internal (r : RReg) (init : bool) : RReg :=
  set_profile None None
    (set_names ∅ (set_bits_size (rr_bits r) 0 (set_regset (map clear_regs (rr_regset r)) r))).

Inductive profile_result : Type :=
  | PR_ok (r : RReg)
  | PR_error (msg : string) (r : RReg)  (* the message and the state left *)
  | PR_undef                            (* a read beyond the text *)
  | PR_overflow                         (* an overflow in the sizes *)
  | PR_fuel.

(** [reg_profile_cmt] grows by a comment line, newline included. *)
Definition add_cmt (r : RReg) (p q : string) : RReg :=
  let line := String.substring 0 (String.length p - String.length q + 1) p in
  set_profile (rr_profile_str r) (Some (String.append (default EmptyString (rr_profile_cmt r)) line)) r.

(** One line: the state after it and the text from its end on, or the end of
    the whole. *)
Definition profile_line (r : RReg) (p : string) : (RReg * string) + profile_result :=
  if is_char (char_at p 0) "#" then
    match to_newline p with
    | Some q => inl (add_cmt r p q, q)
    | None => inr PR_undef
    end
  else
    match read_words (S PARSER_MAX_TOKENS) p [] with
    | None => inr PR_undef
    | Some (tok, p) =>
        match parse_line r tok with
        | Some (None, r) => inl (r, p)
        | Some (Some msg, r) => inr (PR_error msg (r_reg_free_internal r false))
        | None => inr PR_overflow
        end
    end.

(** The loop over the lines: it ends at the end of the text. *)
Fixpoint profile_loop (fuel : nat) (r : RReg) (p : string) : profile_result :=
  match fuel with
  | O => PR_fuel
  | S fuel =>
      match profile_line r p with
      | inr e => e
      | inl (r, EmptyString) => PR_ok r
      | inl (r, String _ p) => profile_loop fuel r p
      end
  end.

Definition r_reg_set_profile_string (r : RReg) (str : string) : profile_result :=
  if bool_decide (rr_profile_str r = Some str) then PR_ok r
  else
    let r := r_reg_free_internal (r_reg_arena_pop r) true in
    match profile_loop (S (String.length str)) (set_profile (Some str) None r) str with
    | PR_ok r => match profile_finish r with Some r => PR_ok r | None => PR_overflow end
    | e => e
    end.

(** ** The scanner stays within the text *)

Fixpoint ends_nl (p : string) : bool :=
  match p with
  | EmptyString => false
  | String c EmptyString => is_char c newline
  | String _ q => ends_nl q
  end.

(** [q] is what is left of [p]: no longer, and it still ends a line. *)
Definition left_of (p q : string) : Prop :=
  (String.length q <= String.length p)%nat /\ (ends_nl p = true -> ends_nl q = true).

#[export] Instance left_of_preorder : PreOrder left_of.
Proof. split; [by intros p|]. intros p q t [H1 H2] [H3 H4]. split; [lia|auto]. Qed.

Lemma ends_nl_cons c p : is_char c newline = false -> ends_nl (String c p) = true -> ends_nl p = true.
Proof. intros Hc. destruct p; simpl; [congruence|done]. Qed.

Lemma left_of_cons c p q : is_char c newline = false -> left_of p q -> left_of (String c p) q.
Proof.
  intros Hc [H1 H2]. split; [simpl; lia|]. intros H. apply H2. by eapply ends_nl_cons.
Qed.

Lemma is_char_eq c x : is_char c x = true -> c = x.
Proof. apply Ascii.eqb_eq. Qed.

Lemma skip_ws_left p : left_of p (skip_ws p).
Proof.
  induction p as [|c p IH]; simpl; [reflexivity|].
  destruct (is_char c " " || is_char c tab) eqn:E; [|reflexivity].
  apply left_of_cons; [|done].
  apply orb_true_iff in E as [E|E]; apply is_char_eq in E as ->; reflexivity.
Qed.

Lemma take_graph_left n p : left_of p (take_graph n p).2.
Proof.
  revert p. induction n as [|n IH]; intros [|c p]; simpl; try reflexivity.
  destruct (isgraph c) eqn:E; [|reflexivity]. specialize (IH p).
  destruct (take_graph n p) as [w q]. simpl in *. apply left_of_cons; [|done].
  destruct (is_char c newline) eqn:Ec; [|done]. by apply is_char_eq in Ec as ->.
Qed.

Lemma to_newline_left p q : to_newline p = Some q -> left_of p q.
Proof.
  induction p as [|c p IH]; simpl; [done|]. destruct (is_char c newline) eqn:E.
  - intros H. simplify_eq. reflexivity.
  - intros H. apply left_of_cons; auto.
Qed.

Lemma to_newline_some p : ends_nl p = true -> is_Some (to_newline p).
Proof.
  intros H. induction p as [|c p IH]; [done|]. cbn [to_newline].
  destruct (is_char c newline) eqn:E; [eauto|]. apply IH. by eapply (ends_nl_cons c).
Qed.

Lemma read_words_S n p tok :
  p <> EmptyString ->
  read_words (S n) p tok
  = p ← (if is_char (char_at (skip_ws p) 0) "#" then to_newline (skip_ws p) else Some (skip_ws p));
    if is_char (char_at p 0) newline then Some (tok, p)
    else
      let '(w, p) := take_graph 127 p in
      if (PARSER_MAX_TOKENS - 1 <? length tok)%nat then Some (tok, p)
      else read_words n p (tok ++ [w]).
Proof. intros Hp. destruct p; [congruence|reflexivity]. Qed.

Lemma read_words_left n p tok tok' q :
  read_words n p tok = Some (tok', q) -> left_of p q.
Proof.
  revert p tok. induction n as [|n IH]; intros p tok H.
  { destruct p; simpl in H; simplify_eq; reflexivity. }
  destruct (decide (p = EmptyString)) as [->|Hp]; [simpl in H; simplify_eq; reflexivity|].
  rewrite read_words_S in H by done. apply bind_Some in H as (p1 & H1 & H2).
  assert (left_of p p1) as L1.
  { etransitivity; [apply skip_ws_left|].
    destruct (is_char (char_at (skip_ws p) 0) "#"); [by apply to_newline_left|].
    injection H1 as <-. reflexivity. }
  etransitivity; [exact L1|].
  destruct (is_char (char_at p1 0) newline); [injection H2 as _ <-; reflexivity|].
  pose proof (take_graph_left 127 p1) as L2. destruct (take_graph 127 p1) as [w p2].
  etransitivity; [exact L2|].
  destruct (_ <? _)%nat; [injection H2 as _ <-; reflexivity|by eapply IH].
Qed.

Lemma read_words_some n p tok : ends_nl p = true -> is_Some (read_words n p tok).
Proof.
  revert p tok. induction n as [|n IH]; intros p tok H; [destruct p; simpl; eauto|].
  destruct (decide (p = EmptyString)) as [->|Hp]; [done|]. rewrite read_words_S by done.
  apply (skip_ws_left p) in H as H1.
  assert (exists q, (if is_char (char_at (skip_ws p) 0) "#" then to_newline (skip_ws p)
    else Some (skip_ws p)) = Some q /\ ends_nl q = true) as (q & -> & Hq).
  { case_match; [|eauto]. destruct (to_newline_some _ H1) as [q Hq]. exists q. split; [done|].
    by eapply to_newline_left. }
  cbn [mbind option_bind]. case_match; [eauto|].
  pose proof (take_graph_left 127 q) as L. destruct (take_graph 127 q) as [w p2].
  case_match; [eauto|]. apply IH. by apply L.
Qed.

(** A line ends within the text, closer to its end; it is undefined only on a
    comment that no newline ends. *)
Lemma profile_line_facts r p :
  p <> EmptyString ->
  match profile_line r p with
  | inl (_, q) => left_of p q
  | inr PR_undef => ends_nl p = false
  | inr (PR_error _ _ | PR_overflow) => True
  | inr _ => False
  end.
Proof.
  intros Hp. unfold profile_line.
  destruct (is_char (char_at p 0) "#").
  - destruct (to_newline p) as [q|] eqn:E; [by apply to_newline_left|].
    apply not_true_iff_false. intros H. destruct (to_newline_some p H). congruence.
  - destruct (read_words _ p []) as [[tok q]|] eqn:E.
    + apply read_words_left in E. by destruct (parse_line r tok) as [[[msg|] r']|].
    + apply not_true_iff_false. intros H. destruct (read_words_some (S PARSER_MAX_TOKENS) p [] H).
      congruence.
Qed.

Lemma profile_line_nil r : profile_line r EmptyString = inl (r, EmptyString).
Proof. reflexivity. Qed.

Lemma profile_loop_safe fuel r p :
  (String.length p < fuel)%nat ->
  profile_loop fuel r p <> PR_fuel
  /\ (p = EmptyString \/ ends_nl p = true -> profile_loop fuel r p <> PR_undef).
Proof.
  revert r p. induction fuel as [|fuel IH]; intros r p Hf; [lia|]. simpl.
  destruct (decide (p = EmptyString)) as [->|Hp]; [rewrite profile_line_nil; split; discriminate|].
  pose proof (profile_line_facts r p Hp) as H.
  destruct (profile_line r p) as [[r' q]|e].
  - destruct H as [Hl Hn]. destruct q as [|c q]; [done|]. simpl in Hl.
    destruct (IH r' q ltac:(lia)) as [H1 H2]. split; [done|]. intros [?|He]; [done|].
    apply H2. specialize (Hn He). destruct q; [by left|by right].
  - destruct e; try done; split; try done. intros [?|He]; congruence.
Qed.

(** ** The scanner finds the words *)

(** A word as the profiles have them. *)
Record wf_pword (w : string) : Prop := {
  pw_nonempty : w <> EmptyString;
  pw_graph : forallb isgraph (String.list_ascii_of_string w) = true;
  pw_short : (String.length w <= 127)%nat;
  pw_no_comment : is_char (char_at w 0) "#" = false;
}.

Definition wf_pline (ws : list string) : Prop :=
  Forall wf_pword ws /\ (length ws <= PARSER_MAX_TOKENS)%nat.

Fixpoint render_words (ws : list string) (rest : string) : string :=
  match ws with
  | [] => rest
  | [w] => String.append w rest
  | w :: ws => String.append w (String " " (render_words ws rest))
  end.
Fixpoint render (lines : list (list string)) : string :=
  match lines with
  | [] => EmptyString
  | ws :: lines => render_words ws (String newline (render lines))
  end.

Lemma take_graph_word n w c q :
  forallb isgraph (String.list_ascii_of_string w) = true -> (String.length w <= n)%nat ->
  isgraph c = false -> take_graph n (String.append w (String c q)) = (w, String c q).
Proof.
  intros Hg Hl Hc. revert n Hl. induction w as [|a w IH]; intros n Hl.
  - rewrite append_nil_l. destruct n; simpl; [done|]. by rewrite Hc.
  - simpl in Hg. apply andb_true_iff in Hg as [Ha Hg]. simpl in Hl. destruct n as [|n]; [lia|].
    rewrite append_cons. cbn [take_graph]. rewrite Ha, IH by (done || lia). done.
Qed.

(** The first character of a word is neither blank, nor a newline, nor [#]. *)
Lemma pword_head w q :
  wf_pword w -> exists a t, String.append w q = String a t
    /\ is_char a " " || is_char a tab = false /\ is_char a newline = false
    /\ is_char a "#" = false.
Proof.
  intros [Hn Hg _ Hc]. destruct w as [|a w]; [done|]. exists a, (String.append w q).
  simpl in Hg. apply andb_true_iff in Hg as [Ha _]. split; [done|].
  split; [|split; [|exact Hc]].
  - destruct (is_char a " ") eqn:E1; [by apply is_char_eq in E1 as ->|].
    destruct (is_char a tab) eqn:E2; [by apply is_char_eq in E2 as ->|done].
  - destruct (is_char a newline) eqn:E; [by apply is_char_eq in E as ->|done].
Qed.

(** A turn that reads a word, after optional blank space. *)
Lemma read_words_word n p w c q tok :
  skip_ws p = String.append w (String c q) -> wf_pword w -> isgraph c = false ->
  (length tok < PARSER_MAX_TOKENS)%nat ->
  read_words (S n) p tok = read_words n (String c q) (tok ++ [w]).
Proof.
  intros Hp Hw Hc Hl. rewrite read_words_S by (intros ->; by destruct w, Hw).
  rewrite Hp. destruct (pword_head w (String c q) Hw) as (a & t & Ht & _ & Hnl & Hcm).
  rewrite Ht. change (char_at (String a t) 0) with a. rewrite Hcm. cbn [mbind option_bind].
  change (char_at (String a t) 0) with a. rewrite Hnl, <- Ht.
  rewrite take_graph_word by (done || apply Hw).
  by rewrite (proj2 (Nat.ltb_ge _ _)) by (unfold PARSER_MAX_TOKENS in *; lia).
Qed.

Lemma skip_ws_word w q : wf_pword w -> skip_ws (String.append w q) = String.append w q.
Proof.
  intros Hw. destruct (pword_head w q Hw) as (a & t & -> & Hb & _). cbn [skip_ws]. by rewrite Hb.
Qed.

Lemma skip_ws_space p : skip_ws (String " " p) = skip_ws p.
Proof. reflexivity. Qed.

(** The words of a line, each after a blank or at the start. *)
Lemma read_words_line n ws p rest tok :
  skip_ws p = render_words ws (String newline rest) -> p <> EmptyString ->
  Forall wf_pword ws -> (length tok + length ws <= PARSER_MAX_TOKENS)%nat ->
  (length ws < n)%nat ->
  read_words n p tok = Some (tok ++ ws, String newline rest).
Proof.
  revert n p tok. induction ws as [|w ws IH]; intros n p tok Hp Hne Hws Hl Hn;
    (destruct n as [|n]; [simpl in Hn; lia|]); simpl in Hl, Hn.
  - rewrite read_words_S, Hp by done. simpl render_words.
    change (char_at (String newline rest) 0) with newline. cbn [mbind option_bind is_char].
    change (is_char newline "#") with false. cbn [mbind option_bind].
    change (char_at (String newline rest) 0) with newline.
    change (is_char newline newline) with true. by rewrite app_nil_r.
  - inversion Hws as [|? ? Hw Hws']; subst. destruct ws as [|w' ws].
    + rewrite (read_words_word n p w newline rest tok Hp Hw) by (reflexivity || lia).
      rewrite <- (app_nil_r (tok ++ [w])) at 2.
      apply (IH n (String newline rest) (tok ++ [w])); try done; rewrite ?length_app; simpl in *; lia.
    + set (q := render_words (w' :: ws) (String newline rest)) in *.
      change (skip_ws p = String.append w (String " " q)) in Hp.
      rewrite (read_words_word n p w " " q tok Hp Hw) by (reflexivity || lia).
      rewrite (IH n (String " " q) (tok ++ [w])); [by rewrite <- app_assoc| |done|done| |];
        [|rewrite length_app; simpl in *; lia|simpl in *; lia].
      rewrite skip_ws_space. unfold q. inversion Hws' as [|? ? Hw' _]; subst.
      destruct ws; apply (skip_ws_word w' _ Hw').
Qed.

Lemma render_line_start ws rest :
  Forall wf_pword ws -> exists a t, render_words ws (String newline rest) = String a t
    /\ is_char a "#" = false
    /\ skip_ws (String a t) = render_words ws (String newline rest).
Proof.
  intros Hws. destruct ws as [|w ws]; [by exists newline, rest|].
  inversion Hws as [|? ? Hw _]; subst.
  assert (exists q, render_words (w :: ws) (String newline rest) = String.append w q) as [q Hq]
    by (destruct ws; simpl; eauto).
  rewrite Hq. pose proof (skip_ws_word w q Hw) as Hs.
  destruct (pword_head w q Hw) as (a & t & E & _ & _ & Hc). exists a, t. by rewrite <- E.
Qed.

Lemma profile_line_words r ws rest :
  wf_pline ws ->
  profile_line r (render_words ws (String newline rest))
  = match parse_line r ws with
    | Some (None, r) => inl (r, String newline rest)
    | Some (Some msg, r) => inr (PR_error msg (r_reg_free_internal r false))
    | None => inr PR_overflow
    end.
Proof.
  intros [Hws Hl]. destruct (render_line_start ws rest Hws) as (a & t & E & Hc & Hs).
  unfold profile_line. rewrite E. change (char_at (String a t) 0) with a. rewrite Hc.
  rewrite (read_words_line _ ws _ rest []); try done; simpl; lia.
Qed.

Lemma profile_loop_lines fuel r lines :
  Forall wf_pline lines -> (length lines < fuel)%nat ->
  profile_loop fuel r (render lines)
  = match parse_lines r lines with
    | Some (None, r) => PR_ok r
    | Some (Some msg, r) => PR_error msg (r_reg_free_internal r false)
    | None => PR_overflow
    end.
Proof.
  revert r fuel. induction lines as [|ws lines IH]; intros r fuel Hl Hf;
    (destruct fuel as [|fuel]; [simpl in Hf; lia|]); [reflexivity|].
  inversion Hl as [|? ? Hws Hl']; subst. cbn [render profile_loop parse_lines].
  rewrite profile_line_words by done. destruct (parse_line r ws) as [[[msg|] r']|]; [done| |done].
  apply IH; [done|]. simpl in Hf. lia.
Qed.

Lemma length_render_words ws rest :
  (String.length rest <= String.length (render_words ws rest))%nat.
Proof.
  induction ws as [|w ws IH]; [done|]. destruct ws as [|w' ws]; cbn [render_words] in *;
    rewrite length_append; [lia|]. cbn [String.length]. lia.
Qed.

Lemma length_render lines : (length lines <= String.length (render lines))%nat.
Proof.
  induction lines as [|ws lines IH]; simpl; [lia|].
  pose proof (length_render_words ws (String newline (render lines))) as H. simpl in H. lia.
Qed.

(** ** Well-formedness is kept *)

Lemma for_types_ind (P : RReg -> Prop) f n i r :
  (forall j r, P r -> P (f j r)) -> P r -> P (for_types n i f r).
Proof. intros Hf. revert i r. induction n as [|n IH]; intros i r Hr; simpl; auto. Qed.

(** The same arenas in the same pools: only the lists of registers, the names
    and the sizes differ. *)
Definition same_store (r r' : RReg) : Prop :=
  rr_arenas r' = rr_arenas r /\ rr_next r' = rr_next r
  /\ map (fun rs => (rs_arena rs, rs_pool rs)) (rr_regset r')
     = map (fun rs => (rs_arena rs, rs_pool rs)) (rr_regset r).

#[export] Instance same_store_preorder : PreOrder same_store.
Proof.
  split; [by intros r|]. intros r1 r2 r3 (A1 & N1 & S1) (A2 & N2 & S2).
  unfold same_store. split_and!; congruence.
Qed.

Lemma same_store_set r r' i rs' :
  same_store r r' -> rr_regset r' !! i = Some rs' ->
  exists rs, rr_regset r !! i = Some rs /\ rs_arena rs = rs_arena rs' /\ rs_pool rs = rs_pool rs'.
Proof.
  intros (_ & _ & Hs) Hi. assert (map (fun rs => (rs_arena rs, rs_pool rs)) (rr_regset r') !! i
    = Some (rs_arena rs', rs_pool rs')) as H by (by rewrite list_lookup_fmap, Hi).
  rewrite Hs, list_lookup_fmap in H. destruct (rr_regset r !! i) as [rs|]; [|done].
  simpl in H. simplify_eq. eauto.
Qed.

Lemma same_store_wf r r' : same_store r r' -> reg_wf r -> reg_wf r'.
Proof.
  intros Hst W. pose proof Hst as (Ha & Hn & Hs). split.
  - rewrite <- (length_map (fun rs => (rs_arena rs, rs_pool rs))), Hs, length_map. apply W.
  - intros i rs' Hi. destruct (same_store_set _ _ _ _ Hst Hi) as (rs & Hrs & <- & <-).
    by apply (wf_arena r W i).
  - intros i rs' id Hi. destruct (same_store_set _ _ _ _ Hst Hi) as (rs & Hrs & _ & <-).
    rewrite Ha, Hn. by apply (wf_store r W i).
  - intros i j rs1 rs2 id Hi Hj.
    destruct (same_store_set _ _ _ _ Hst Hi) as (rs & Hrs & _ & <-).
    destruct (same_store_set _ _ _ _ Hst Hj) as (rs3 & Hrs3 & _ & <-). by apply (wf_inj r W).
  - intros i rs' Hi. destruct (same_store_set _ _ _ _ Hst Hi) as (rs & Hrs & _ & <-).
    by apply (wf_nodup r W i).
  - intros id a. rewrite Ha. apply (wf_bytes r W).
Qed.

Lemma same_store_set_rs r i rs rs' :
  rr_regset r !! i = Some rs -> rs_arena rs' = rs_arena rs -> rs_pool rs' = rs_pool rs ->
  same_store r (set_rs i rs' r).
Proof.
  intros Hi E1 E2. split_and!; [done|done|]. cbn. rewrite list_fmap_insert, E1, E2.
  apply list_insert_id. by rewrite list_lookup_fmap, Hi.
Qed.

Lemma same_store_free r init : same_store r (r_reg_free_internal r init).
Proof.
  split_and!; [done|done|]. cbn. rewrite map_map. apply map_ext. by intros [].
Qed.

(** What a line does to the registers: nothing, or a register with a new name
    at the end of the set of its type. *)
Definition add_item (it : RRegItem) (rs : RRegSet) : RRegSet :=
  {| rs_arena := rs_arena rs; rs_pool := rs_pool rs; rs_regs := rs_regs rs ++ [it] |}.

Inductive line_effect (r r' : RReg) : Prop :=
  | le_none :
      rr_regset r' = rr_regset r -> rr_arenas r' = rr_arenas r -> rr_next r' = rr_next r ->
      line_effect r r'
  | le_item it name rs :
      ri_name it = Some name -> r_reg_get r name (-1) = None ->
      rr_regset r !! ri_type it = Some rs ->
      rr_regset r' = <[ri_type it := add_item it rs]> (rr_regset r) ->
      rr_arenas r' = rr_arenas r -> rr_next r' = rr_next r -> line_effect r r'.

Lemma parse_def_effect r t0 t1 t2 t3 t4 t5 e r' :
  parse_def_args r t0 t1 t2 t3 t4 t5 = Some (e, r') -> line_effect r r'.
Proof.
  unfold parse_def_args. destruct (parse_size t2), (parse_size t3), (parse_size t4).
  destruct (_ <? _); [intros [= _ <-]; by apply le_none|]. cbv zeta.
  do 3 (match goal with |- context [if ?b then _ else _] => destruct b; [intros [= _ <-]; by apply le_none|] end).
  destruct (r_reg_get _ _ _) eqn:Eg; [intros [= _ <-]; by apply le_none|].
  destruct (_ !! _) as [rs|] eqn:E; [|intros [= _ <-]; by apply le_none].
  destruct (int_sum _) as [end_|]; [|done]. cbn [mbind option_bind]. intros [= _ <-].
  destruct (_ >? _);
    (eapply (le_item _ _ _ t1 rs); [|exact Eg|exact E|reflexivity..]; reflexivity).
Qed.

Lemma parse_line_effect r tok e r' : parse_line r tok = Some (e, r') -> line_effect r r'.
Proof.
  unfold parse_line. destruct tok as [|t0 l]; [intros [= _ <-]; by apply le_none|]. destruct (is_char _ _).
  - destruct l as [|t1 [|? ?]]; cbn -[str_drop]; [intros [= _ <-]; by apply le_none| |intros [= _ <-]; by apply le_none].
    unfold r_reg_set_name. destruct (_ && _); intros [= _ <-]; by apply le_none.
  - destruct l as [|t1 [|t2 [|t3 [|t4 [|t5 [|? ?]]]]]]; try (intros [= _ <-]; by apply le_none);
      apply parse_def_effect.
Qed.

Lemma line_effect_store r r' : line_effect r r' -> same_store r r'.
Proof.
  intros [Hs Ha Hn|it name rs _ _ Hi Hs Ha Hn]; split_and!; try done; [by rewrite Hs|].
  rewrite Hs, list_fmap_insert. apply list_insert_id. by rewrite list_lookup_fmap, Hi.
Qed.

(** The registers of all the sets, in the order of [r_reg_get]. *)
Definition reg_items (r : RReg) : list RRegItem := concat (map rs_regs (rr_regset r)).

(** Every register is in the set of its type and has a name of its own. *)
Record items_wf (r : RReg) : Prop := {
  iw_type : forall t rs it, rr_regset r !! t = Some rs -> it ∈ rs_regs rs -> ri_type it = t;
  iw_names : NoDup (map ri_name (reg_items r));
}.


Lemma r_reg_get_in_some r name i it :
  r_reg_get_in r name i = Some it ->
  exists rs, rr_regset r !! i = Some rs /\ it ∈ rs_regs rs /\ ri_name it = Some name.
Proof.
  unfold r_reg_get_in. intros (rs & Hrs & H)%bind_Some. exists rs. split; [done|].
  apply bind_Some in H as ([k it'] & Hf & [= <-]). apply list_find_Some in Hf as (Hk & Hn & _).
  split; [by eapply list_elem_of_lookup_2|]. by apply bool_decide_unpack in Hn.
Qed.

Lemma r_reg_get_in_none r name i rs it :
  r_reg_get_in r name i = None -> rr_regset r !! i = Some rs -> it ∈ rs_regs rs ->
  ri_name it <> Some name.
Proof.
  unfold r_reg_get_in. intros H Hrs Hit Hn. rewrite Hrs in H. cbn [mbind option_bind] in H.
  destruct (list_find _ _) as [[k x]|] eqn:Hf; [done|]. apply list_find_None in Hf.
  rewrite Forall_forall in Hf. apply (Hf it Hit). unfold name_is. by rewrite bool_decide_eq_true_2.
Qed.

Lemma r_reg_get_from_spec r name n i :
  match r_reg_get_from r name i n with
  | Some it => exists t rs, rr_regset r !! t = Some rs /\ it ∈ rs_regs rs /\ ri_name it = Some name
  | None => forall t rs it, (i <= t < i + n)%nat -> rr_regset r !! t = Some rs ->
              it ∈ rs_regs rs -> ri_name it <> Some name
  end.
Proof.
  revert i. induction n as [|n IH]; intros i; simpl; [intros; lia|].
  destruct (r_reg_get_in r name i) as [it|] eqn:E.
  - apply r_reg_get_in_some in E as (rs & ? & ? & ?). eauto.
  - specialize (IH (S i)). destruct (r_reg_get_from r name (S i) n) as [it|]; [done|].
    intros t rs it Ht Hrs. destruct (decide (t = i)) as [->|]; [by eapply r_reg_get_in_none|].
    apply (IH t rs it); [lia|done].
Qed.

Lemma elem_of_items r it :
  it ∈ reg_items r <-> exists t rs, rr_regset r !! t = Some rs /\ it ∈ rs_regs rs.
Proof.
  unfold reg_items. rewrite list_elem_of_In, in_concat. split.
  - intros (l & Hl & Hit). apply in_map_iff in Hl as (rs & <- & Hrs).
    apply list_elem_of_In, list_elem_of_lookup in Hrs as [t Ht]. exists t, rs.
    split; [done|by apply list_elem_of_In].
  - intros (t & rs & Hrs & Hit). exists (rs_regs rs). split; [|by apply list_elem_of_In].
    apply in_map, list_elem_of_In. by eapply list_elem_of_lookup_2.
Qed.

Lemma r_reg_get_all r name :
  length (rr_regset r) = R_REG_TYPE_LAST ->
  match r_reg_get r name (-1) with
  | Some it => it ∈ reg_items r /\ ri_name it = Some name
  | None => Some name ∉ map ri_name (reg_items r)
  end.
Proof.
  intros Hlen. unfold r_reg_get. change (-1 =? Z.of_nat R_REG_TYPE_FLG) with false. cbv iota.
  change (-1 =? -1) with true. cbv iota.
  pose proof (r_reg_get_from_spec r name R_REG_TYPE_LAST 0) as H.
  destruct (r_reg_get_from _ _ _ _) as [it|].
  - destruct H as (t & rs & Hrs & Hit & Hn). split; [|done]. apply elem_of_items. eauto.
  - intros Hin. apply list_elem_of_In, in_map_iff in Hin as (it & Hn & Hit).
    apply list_elem_of_In, elem_of_items in Hit as (t & rs & Hrs & Hit).
    apply (H t rs it); try done. apply lookup_lt_Some in Hrs. lia.
Qed.

(** A name finds the register that has it. *)
Lemma items_wf_get r it name :
  length (rr_regset r) = R_REG_TYPE_LAST -> items_wf r -> it ∈ reg_items r ->
  ri_name it = Some name -> r_reg_get r name (-1) = Some it.
Proof.
  intros Hlen W Hit Hn. pose proof (r_reg_get_all r name Hlen) as H.
  destruct (r_reg_get r name (-1)) as [it'|].
  - destruct H as [Hit' Hn']. f_equal.
    apply list_elem_of_lookup in Hit as [i Hi]. apply list_elem_of_lookup in Hit' as [j Hj].
    assert (j = i) as -> by (eapply (NoDup_lookup _ j i (Some name) (iw_names r W));
      rewrite list_lookup_fmap, ?Hi, ?Hj; simpl; congruence).
    congruence.
  - exfalso. apply H. rewrite <- Hn. apply list_elem_of_In, in_map, list_elem_of_In. done.
Qed.

Lemma concat_insert_app {A} (l : list (list A)) i x y :
  l !! i = Some x -> concat (<[i := x ++ [y]]> l) ≡ₚ y :: concat l.
Proof.
  revert i. induction l as [|z l IH]; intros [|i] H; simpl in *; simplify_eq.
  - rewrite <- app_assoc. simpl. by rewrite Permutation_middle.
  - by rewrite IH, Permutation_middle.
Qed.

Lemma line_effect_items r r' :
  length (rr_regset r) = R_REG_TYPE_LAST -> line_effect r r' -> items_wf r -> items_wf r'.
Proof.
  intros Hlen [Hs _ _|it name rs Hn Hg Hi Hs _ _] [Ht Hd]; split.
  - rewrite Hs. exact Ht.
  - unfold reg_items. by rewrite Hs.
  - rewrite Hs. intros t rs' it' Hrs' Hit'.
    apply list_lookup_insert_Some in Hrs' as [(<- & <- & _)|[_ Hrs']]; [|by eapply Ht].
    unfold add_item in Hit'. cbn [rs_regs] in Hit'. apply elem_of_app in Hit' as [Hit'|Hit'].
    + by eapply Ht.
    + by apply list_elem_of_singleton in Hit' as ->.
  - unfold reg_items. rewrite Hs, list_fmap_insert.
    pose proof (concat_insert_app (map rs_regs (rr_regset r)) (ri_type it) (rs_regs rs) it) as HP.
    rewrite list_lookup_fmap, Hi in HP. specialize (HP eq_refl).
    apply (Permutation_map ri_name) in HP. cbn [add_item rs_regs]. rewrite HP. cbn [map].
    constructor; [|exact Hd]. pose proof (r_reg_get_all r name Hlen) as H. rewrite Hg in H.
    by rewrite Hn.
Qed.

Lemma profile_line_effect r p r' q :
  profile_line r p = inl (r', q) -> same_store r r' /\ rr_regset r' = rr_regset r \/ line_effect r r'.
Proof.
  unfold profile_line. destruct (is_char _ _).
  - destruct (to_newline p); intros; simplify_eq. left. split; [|done]. repeat split.
  - destruct (read_words _ _ _) as [[tok p']|]; [|done]. pose proof (parse_line_effect r tok) as H.
    destruct (parse_line r tok) as [[[msg|] r1]|]; intros; simplify_eq. right. by eapply H.
Qed.

Lemma profile_line_stops r p r' : profile_line r p <> inr (PR_ok r').
Proof.
  unfold profile_line. destruct (is_char _ _); [by destruct (to_newline p)|].
  destruct (read_words _ _ _) as [[tok q]|]; [|done]. by destruct (parse_line r tok) as [[[msg|] r1]|].
Qed.

Lemma profile_loop_effect fuel r p r' :
  length (rr_regset r) = R_REG_TYPE_LAST -> items_wf r -> profile_loop fuel r p = PR_ok r' ->
  same_store r r' /\ items_wf r'.
Proof.
  revert r p. induction fuel as [|fuel IH]; intros r p Hlen Hi H; [done|]. simpl in H.
  destruct (profile_line r p) as [[r1 q]|e] eqn:E; [|subst e; by destruct (profile_line_stops r p r')].
  - assert (same_store r r1 /\ items_wf r1) as [Hst Hi1].
    { destruct (profile_line_effect _ _ _ _ E) as [[Hst Hs]|He].
      - split; [done|]. destruct Hi as [Ht Hd]. split; [by rewrite Hs|].
        unfold reg_items. by rewrite Hs.
      - split; [by apply line_effect_store|by eapply line_effect_items]. }
    destruct q as [|c q]; [by simplify_eq|].
    destruct (IH r1 q) as [Hst' Hi']; [|done|done|].
    + destruct Hst as (_ & _ & Hm). apply (f_equal length) in Hm. rewrite !length_map in Hm. congruence.
    + split; [by etransitivity|done].
Qed.

(** ** The arena stack *)

Lemma arena_push1_wf i r : reg_wf r -> reg_wf (arena_push1 i r).
Proof.
  intros W. unfold arena_push1. destruct (rr_regset r !! i) as [rs|] eqn:Hi; [|done].
  destruct (wf_lookup_arena r i rs W Hi) as (a & Ha & Hlt). rewrite Ha.
  unfold r_reg_arena_new. cbn -[replicate]. rewrite lookup_insert_eq. cbn -[replicate].
  assert (forall j rs', rr_regset r !! j = Some rs' -> forall id, id ∈ rs_pool rs' -> id <> rr_next r)
    as Hfresh by (intros j rs' Hj id Hid ->; destruct (wf_store r W j rs' _ Hj Hid); lia).
  split; cbn -[replicate].
  - rewrite length_insert. apply W.
  - intros j rs' [(<- & <- & _)|[_ Hj]]%list_lookup_insert_Some; [apply last_snoc|].
    by apply (wf_arena r W j).
  - intros j rs' id [(<- & <- & _)|[_ Hj]]%list_lookup_insert_Some; cbn [rs_pool].
    + intros [Hid|Hid]%elem_of_app.
      * destruct (wf_store r W i rs id Hi Hid) as [? ?]. split; [lia|].
        rewrite !lookup_insert_ne; [done|lia..].
      * apply list_elem_of_singleton in Hid as ->. split; [lia|]. rewrite lookup_insert_eq. eauto.
    + intros Hid. destruct (wf_store r W j rs' id Hj Hid) as [? ?]. split; [lia|].
      rewrite !lookup_insert_ne; [done|lia..].
  - intros j k rs1 rs2 id Hj Hk Hid1 Hid2.
    apply list_lookup_insert_Some in Hj as [(<- & <- & _)|[Hne1 Hj]];
    apply list_lookup_insert_Some in Hk as [(<- & <- & _)|[Hne2 Hk]]; cbn [rs_pool] in *; try done.
    + apply elem_of_app in Hid1 as [Hid1|Hid1]; [by eapply (wf_inj r W i k)|].
      apply list_elem_of_singleton in Hid1 as ->. by destruct (Hfresh k rs2 Hk _ Hid2).
    + apply elem_of_app in Hid2 as [Hid2|Hid2]; [by eapply (wf_inj r W j i)|].
      apply list_elem_of_singleton in Hid2 as ->. by destruct (Hfresh j rs1 Hj _ Hid1).
    + by eapply (wf_inj r W j k).
  - intros j rs' [(<- & <- & _)|[_ Hj]]%list_lookup_insert_Some; [|by apply (wf_nodup r W j)].
    cbn [rs_pool]. apply NoDup_app. split_and!; [by apply (wf_nodup r W i)| |apply NoDup_singleton].
    intros id Hid ->%list_elem_of_singleton. by eapply Hfresh.
  - intros id b. rewrite lookup_insert_Some. intros [[_ <-]|[_ Hb]].
    + cbn [ar_bytes]. apply blit_bytes; [by eapply (wf_bytes r W)|].
      apply Forall_replicate. unfold is_byte. lia.
    + apply lookup_insert_Some in Hb as [[_ <-]|[_ Hb]]; [|by eapply (wf_bytes r W)].
      cbn [ar_bytes]. apply Forall_replicate. unfold is_byte. lia.
Qed.

Lemma removelast_last {A} (l : list A) x : last l = Some x -> l = removelast l ++ [x].
Proof. intros H. apply last_Some in H as [l' ->]. by rewrite removelast_snoc. Qed.

Lemma arena_pop1_wf i r : reg_wf r -> reg_wf (arena_pop1 i r).
Proof.
  intros W. unfold arena_pop1. destruct (rr_regset r !! i) as [rs|] eqn:Hi; [|done].
  destruct (_ <? _)%nat; [done|]. destruct (last (rs_pool rs)) as [a|] eqn:Ha; [|done].
  destruct (last (removelast (rs_pool rs))) as [b|] eqn:Hb; [|done].
  apply removelast_last in Ha. set (pool := removelast (rs_pool rs)) in *.
  assert (NoDup (pool ++ [a])) as Hnd by (rewrite <- Ha; by apply (wf_nodup r W i)).
  apply NoDup_app in Hnd as (Hnd & Hap & _).
  assert (forall id, id ∈ pool -> id ∈ rs_pool rs) as Hsub by (intros id; rewrite Ha; set_solver).
  assert (forall j rs' id, rr_regset r !! j = Some rs' -> id ∈ rs_pool rs' -> j <> i -> id <> a) as Hother.
  { intros j rs' id Hj Hid Hne ->. apply Hne. apply (wf_inj r W j i rs' rs a Hj Hi Hid).
    rewrite Ha. set_solver. }
  split; cbn.
  - rewrite length_insert. apply W.
  - intros j rs' [(<- & <- & _)|[_ Hj]]%list_lookup_insert_Some; [done|]. by apply (wf_arena r W j).
  - intros j rs' id [(<- & <- & _)|[Hne Hj]]%list_lookup_insert_Some; cbn [rs_pool]; intros Hid.
    + destruct (wf_store r W i rs id Hi (Hsub _ Hid)). split; [done|].
      rewrite lookup_delete_ne; [done|]. intros <-. apply (Hap a Hid). set_solver.
    + destruct (wf_store r W j rs' id Hj Hid). split; [done|].
      rewrite lookup_delete_ne; [done|]. intros E. by eapply (Hother j rs' id).
  - intros j k rs1 rs2 id Hj Hk Hid1 Hid2.
    apply list_lookup_insert_Some in Hj as [(<- & <- & _)|[Hne1 Hj]];
    apply list_lookup_insert_Some in Hk as [(<- & <- & _)|[Hne2 Hk]]; cbn [rs_pool] in *; try done.
    + apply (wf_inj r W i k rs rs2 id Hi Hk); auto.
    + apply (wf_inj r W j i rs1 rs id Hj Hi); auto.
    + by eapply (wf_inj r W j k).
  - intros j rs' [(<- & <- & _)|[_ Hj]]%list_lookup_insert_Some; [done|by apply (wf_nodup r W j)].
  - intros id c [_ Hc]%lookup_delete_Some. by eapply (wf_bytes r W).
Qed.

Lemma fit_arena1_wf i r r' : fit_arena1 i r = Some r' -> reg_wf r -> reg_wf r'.
Proof.
  unfold fit_arena1. destruct (rr_regset r !! i); [|by intros [= <-]].
  destruct (fit_size _ _); [|done]. cbn [mbind option_bind]. intros [= <-] W.
  apply reg_wf_put; [done|]. apply Forall_replicate. unfold is_byte. lia.
Qed.

(** ** The registers fit in their arenas *)

Definition fits (r : RReg) (t : nat) : Prop :=
  forall rs it, rr_regset r !! t = Some rs -> it ∈ rs_regs rs ->
    exists a, arena_of r t = Some a /\ ri_offset it + ri_size it <= 8 * ar_size a.

Lemma bits_in_bytes x : x <= 8 * BITS2BYTES x.
Proof.
  unfold BITS2BYTES, z2b. pose proof (Z.quot_rem' x 8). pose proof (Z.rem_bound_abs x 8 ltac:(lia)).
  destruct (Z.eqb_spec (Z.rem x 8) 0); simpl; lia.
Qed.

Lemma fit_size_bound regs m n :
  fit_size regs m = Some n -> m <= n /\ forall it, it ∈ regs -> ri_offset it + ri_size it <= 8 * n.
Proof.
  revert m. induction regs as [|it regs IH]; intros m; cbn [fit_size]; [intros [= ->]; split; [lia|set_solver]|].
  unfold int_sum. destruct (_ && _); [|done]. cbn [mbind option_bind].
  pose proof (bits_in_bytes (ri_offset it + ri_size it)) as Hb.
  intros H. destruct (IH _ H) as [H1 H2]. split; [lia|].
  intros it' [->|Hx]%elem_of_cons; [lia|auto].
Qed.

Lemma fit_arena1_regset i r r' : fit_arena1 i r = Some r' -> rr_regset r' = rr_regset r.
Proof.
  unfold fit_arena1. destruct (rr_regset r !! i); [|by intros [= <-]].
  destruct (fit_size _ _); [|done]. cbn [mbind option_bind]. intros [= <-]. apply regset_put.
Qed.

Lemma fit_arena1_fits i r r' : fit_arena1 i r = Some r' -> reg_wf r -> fits r' i.
Proof.
  intros E W rs it Hrs Hit. rewrite (fit_arena1_regset i r r' E) in Hrs. unfold fit_arena1 in E. rewrite Hrs in E.
  destruct (fit_size _ _) as [n|] eqn:En; [|done]. cbn [mbind option_bind] in E. injection E as <-.
  destruct (wf_lookup_arena r i rs W Hrs) as (a & Ha & _).
  eexists. split; [apply (arena_of_put _ _ _ a); unfold arena_of; by rewrite Hrs|].
  unfold ar_size. cbn -[replicate]. rewrite length_replicate.
  destruct (fit_size_bound _ _ _ En) as [? H]. specialize (H it Hit). lia.
Qed.

Lemma fit_arena1_other i j r r' : fit_arena1 i r = Some r' -> reg_wf r -> i <> j -> arena_of r' j = arena_of r j.
Proof.
  unfold fit_arena1. destruct (rr_regset r !! i); [|by intros [= <-]].
  destruct (fit_size _ _); [|done]. cbn [mbind option_bind]. intros [= <-] W Hne.
  by apply arena_of_put_ne.
Qed.

Lemma fit_arena_fits n i r r' :
  reg_wf r -> (forall t, (t < i)%nat -> fits r t) -> fit_arenas n i r = Some r' ->
  reg_wf r' /\ rr_regset r' = rr_regset r /\ forall t, (t < i + n)%nat -> fits r' t.
Proof.
  revert i r. induction n as [|n IH]; intros i r W Hf; cbn [fit_arenas].
  { intros [= <-]. split_and!; [done|done|]. intros t Ht. apply Hf. lia. }
  destruct (fit_arena1 i r) as [r1|] eqn:E; [|done]. cbn [mbind option_bind]. intros Hr.
  destruct (IH (S i) r1) as (W' & Hrs & Hf'); [by eapply fit_arena1_wf| |done|].
  - intros t Ht. destruct (decide (t = i)) as [->|Hne]; [by eapply fit_arena1_fits|].
    intros rs it. rewrite (fit_arena1_regset i r r1), (fit_arena1_other i t r r1) by done. apply Hf. lia.
  - split_and!; [done|by rewrite Hrs; eapply fit_arena1_regset|]. intros t Ht. apply Hf'. lia.
Qed.

(** The same registers over arenas that are no smaller. *)
Definition grows (r r' : RReg) : Prop :=
  map rs_regs (rr_regset r') = map rs_regs (rr_regset r)
  /\ forall t a, arena_of r t = Some a ->
       exists a', arena_of r' t = Some a' /\ ar_size a <= ar_size a'.

#[export] Instance grows_preorder : PreOrder grows.
Proof.
  split; [intros r; split; [done|]; intros t a Ha; exists a; split; [done|lia]|].
  intros r1 r2 r3 [E1 H1] [E2 H2]. split; [congruence|]. intros t a Ha.
  destruct (H1 t a Ha) as (b & Hb & ?). destruct (H2 t b Hb) as (c & Hc & ?).
  exists c. split; [done|lia].
Qed.

Lemma grows_fits r r' t : grows r r' -> fits r t -> fits r' t.
Proof.
  intros [E Hg] Hf rs it Hrs Hit. assert (map rs_regs (rr_regset r) !! t = Some (rs_regs rs)) as H
    by (by rewrite <- E, list_lookup_fmap, Hrs).
  rewrite list_lookup_fmap in H. destruct (rr_regset r !! t) as [rs0|] eqn:E0; [|done].
  simpl in H. injection H as H. destruct (Hf rs0 it E0) as (a & Ha & Hle); [by rewrite H|].
  destruct (Hg t a Ha) as (a' & Ha' & ?). exists a'. split; [done|lia].
Qed.

Lemma arena_push1_grows i r : reg_wf r -> grows r (arena_push1 i r).
Proof.
  intros W. unfold arena_push1. destruct (rr_regset r !! i) as [rs|] eqn:Hi; [|reflexivity].
  destruct (wf_lookup_arena r i rs W Hi) as (a & Ha & Hlt). rewrite Ha.
  unfold r_reg_arena_new. cbn -[replicate blit]. rewrite lookup_insert_eq. cbn -[replicate blit].
  split; cbn -[replicate blit].
  - rewrite list_fmap_insert. apply list_insert_id. by rewrite list_lookup_fmap, Hi.
  - intros t b. unfold arena_of. cbn -[replicate blit]. destruct (decide (t = i)) as [->|Hne].
    + rewrite Hi, list_lookup_insert_eq by (by eapply lookup_lt_Some). cbn -[replicate blit].
      rewrite Ha, lookup_insert_eq. intros [= <-]. eexists. split; [done|].
      unfold ar_size. cbn -[replicate blit]. rewrite length_blit, length_replicate.
      destruct (Z.ltb_spec (Z.of_nat (length (ar_bytes a))) 1); lia.
    + rewrite list_lookup_insert_ne by done. intros Hb.
      destruct (rr_regset r !! t) as [rs'|] eqn:Ht; [|done]. cbn [mbind option_bind] in *.
      destruct (wf_lookup_arena r t rs' W Ht) as (? & _ & ?).
      exists b. rewrite !lookup_insert_ne by lia. split; [done|lia].
Qed.

Lemma arena_push_facts r :
  reg_wf r -> reg_wf (r_reg_arena_push r).2 /\ grows r (r_reg_arena_push r).2.
Proof.
  intros W. unfold r_reg_arena_push. cbn [snd].
  apply (for_types_ind (fun r' => reg_wf r' /\ grows r r')).
  - intros j r' [W' G]. split; [by apply arena_push1_wf|].
    etransitivity; [exact G|by apply arena_push1_grows].
  - by split.
Qed.

Lemma profile_finish_facts r r' :
  reg_wf r -> profile_finish r = Some r' ->
  reg_wf r' /\ map rs_regs (rr_regset r') = map rs_regs (rr_regset r)
  /\ forall t, (t < R_REG_TYPE_LAST)%nat -> fits r' t.
Proof.
  intros W. unfold profile_finish, r_reg_fit_arena. destruct (if z2b _ then _ else _) as [size|]; [|done]. cbn [mbind option_bind].
  set (r1 := set_bits_size _ _ r). assert (reg_wf r1) as W1 by (by eapply same_store_wf, W).
  destruct (fit_arenas _ _ r1) as [r2|] eqn:E; [|done]. cbn [mbind option_bind]. intros [= <-].
  destruct (fit_arena_fits R_REG_TYPE_LAST 0 r1 r2 W1) as (W2 & Hrs & Hf); [intros; lia|done|].
  destruct (arena_push_facts _ W2) as [W3 G]. split_and!; [exact W3| |].
  - etransitivity; [exact (proj1 G)|]. by rewrite Hrs.
  - intros t Ht. eapply grows_fits; [exact G|]. by apply Hf.
Qed.

Lemma regs_length r r' :
  map rs_regs (rr_regset r') = map rs_regs (rr_regset r) ->
  length (rr_regset r') = length (rr_regset r).
Proof. intros H. apply (f_equal length) in H. by rewrite !length_map in H. Qed.

Lemma items_wf_regs r r' :
  map rs_regs (rr_regset r') = map rs_regs (rr_regset r) -> items_wf r -> items_wf r'.
Proof.
  intros E [Ht Hd]. split; [|unfold reg_items; by rewrite E].
  intros t rs' it Hrs Hit. assert (map rs_regs (rr_regset r) !! t = Some (rs_regs rs')) as H
    by (by rewrite <- E, list_lookup_fmap, Hrs).
  rewrite list_lookup_fmap in H. destruct (rr_regset r !! t) as [rs|] eqn:E0; [|done].
  injection H as H. eapply Ht; [exact E0|]. by rewrite H.
Qed.

Lemma items_wf_empty r : (forall t rs, rr_regset r !! t = Some rs -> rs_regs rs = []) -> items_wf r.
Proof.
  intros H. split.
  - intros t rs it Hrs. rewrite (H t rs Hrs). set_solver.
  - unfold reg_items. replace (concat (map rs_regs (rr_regset r))) with (@nil RRegItem); [constructor|].
    revert H. generalize (rr_regset r). induction l as [|rs l IH]; intros H; [done|]. simpl.
    rewrite (H 0%nat rs eq_refl). apply IH. intros t. apply (H (S t)).
Qed.

Lemma free_internal_items r init : items_wf (r_reg_free_internal r init).
Proof.
  apply items_wf_empty. intros t rs. cbn. rewrite list_lookup_fmap.
  destruct (rr_regset r !! t); [|done]. simpl. by intros [= <-].
Qed.

(** ** The properties *)

(** On the text of a profile (words separated by blanks, one line each)
    [r_reg_set_profile_string] does what its lines say, one after the other:
    it accepts exactly when every line does and then sizes the arenas, and
    otherwise drops every register and reports the first bad line; a size that
    overflows an [int] is undefined. *)
Theorem r_reg_set_profile_string_lines r lines :
  Forall wf_pline lines -> rr_profile_str r <> Some (render lines) ->
  r_reg_set_profile_string r (render lines)
  = match parse_lines (set_profile (Some (render lines)) None
                         (r_reg_free_internal (r_reg_arena_pop r) true)) lines with
    | Some (None, r) => match profile_finish r with Some r => PR_ok r | None => PR_overflow end
    | Some (Some msg, r) => PR_error msg (r_reg_free_internal r false)
    | None => PR_overflow
    end.
Proof.
  intros Hl Hne. unfold r_reg_set_profile_string. rewrite bool_decide_eq_false_2 by done.
  pose proof (length_render lines). rewrite profile_loop_lines by (done || lia).
  by destruct (parse_lines _ _) as [[[msg|] r']|].
Qed.

(** C30: the scanner always ends, and on a text whose last line is complete it
    never reads beyond the end of the text. *)
Theorem r_reg_set_profile_string_safe r str :
  r_reg_set_profile_string r str <> PR_fuel
  /\ (ends_nl str = true -> r_reg_set_profile_string r str <> PR_undef).
Proof.
  unfold r_reg_set_profile_string. destruct (bool_decide _); [done|].
  set (r0 := set_profile _ _ _).
  destruct (profile_loop_safe (S (String.length str)) r0 str ltac:(lia)) as [H1 H2].
  destruct (profile_loop _ r0 str); try done; [by destruct (profile_finish _)|]. split; [done|]. intros He. apply H2. by right.
Qed.

(** C29: an accepted profile leaves a well-formed register file: every register is in
    the set of its type, and its name finds it; and the end of its bits, which no sum
    of the code overflowed to reach, is within the arena of that type.  So are all its
    bits when the profile gives it an offset that is not negative; an offset with
    a minus sign or of [2^31] bits or more is a negative [int] and accepted, see
    [profile_negative_offset]. *)
Theorem r_reg_set_profile_string_fits r str r' :
  reg_wf r -> rr_profile_str r <> Some str ->
  r_reg_set_profile_string r str = PR_ok r' ->
  reg_wf r' /\ forall t rs it, rr_regset r' !! t = Some rs -> it ∈ rs_regs rs ->
    ri_type it = t
    /\ (forall name, ri_name it = Some name -> r_reg_get r' name (-1) = Some it)
    /\ exists a, arena_of r' t = Some a /\ ri_offset it + ri_size it <= 8 * ar_size a.
Proof.
  intros W Hne H. unfold r_reg_set_profile_string in H. rewrite bool_decide_eq_false_2 in H by done.
  cbv zeta in H. set (r1 := r_reg_arena_pop r) in H.
  assert (reg_wf r1) as W1 by (apply (for_types_ind reg_wf); [apply arena_pop1_wf|done]).
  set (r2 := set_profile _ _ _) in H.
  assert (reg_wf r2) as W2 by (eapply same_store_wf, W1; apply (same_store_free r1 true)).
  destruct (profile_loop _ r2 str) as [r3| | | |] eqn:E; [|done..].
  destruct (profile_finish r3) as [r4|] eqn:E4; [|done]. injection H as <-.
  destruct (profile_loop_effect (S (String.length str)) r2 str r3) as [Hst Hi]; [apply W2| |exact E|].
  { eapply items_wf_regs; [|apply (free_internal_items r1 true)]. reflexivity. }
  assert (reg_wf r3) as W3 by (by eapply same_store_wf).
  destruct (profile_finish_facts r3 r4 W3 E4) as (W4 & Hrs & Hf). split; [exact W4|].
  assert (items_wf r4) as Hi4 by (by eapply items_wf_regs).
  intros t rs it Ht Hit. split_and!.
  - by eapply (iw_type _ Hi4).
  - intros name Hn. apply items_wf_get; [apply W4|done| |done]. apply elem_of_items. eauto.
  - eapply Hf; [|exact Ht|exact Hit]. apply lookup_lt_Some in Ht. by rewrite (wf_sets _ W4) in Ht.
Qed.

(** ** Applied to the profile of [Reg.demo_profile] *)

Definition demo_text : string := render demo_profile.
Definition accepted (res : profile_result) : RReg :=
  match res with PR_ok r => r | _ => reg_empty end.

Lemma r_reg_new_wf : reg_wf r_reg_new.
Proof. apply reg_wf_b_sound. vm_compute. reflexivity. Qed.

Lemma r_reg_new_fresh text : rr_profile_str r_reg_new <> Some text.
Proof.
  assert (rr_profile_str r_reg_new = None) as -> by (vm_compute; reflexivity). discriminate.
Qed.

Lemma demo_lines_wf : Forall wf_pline demo_profile.
Proof.
  repeat (constructor; [split; [repeat (constructor;
    [split; [discriminate|reflexivity|apply Nat.leb_le; reflexivity|reflexivity]|]); constructor
    |apply Nat.leb_le; reflexivity]|]). constructor.
Qed.

Lemma r_reg_set_profile_string_lines_witness :
  exists r r', r_reg_set_profile_string r_reg_new demo_text = PR_ok r' /\ profile_finish r = Some r'
    /\ parse_lines (set_profile (Some demo_text) None
         (r_reg_free_internal (r_reg_arena_pop r_reg_new) true)) demo_profile = Some (None, r).
Proof.
  pose proof (r_reg_set_profile_string_lines r_reg_new demo_profile demo_lines_wf
    (r_reg_new_fresh _)) as H.
  destruct (parse_lines _ demo_profile) as [[[msg|] r]|] eqn:E;
    [exfalso; apply (f_equal (fmap fst)) in E; vm_compute in E; discriminate E| |exfalso; vm_compute in E; discriminate E].
  destruct (profile_finish r) as [r'|] eqn:E'.
  - exists r, r'. split; [exact H|by split].
  - exfalso. assert (fst <$> (parse_lines (set_profile (Some (render demo_profile)) None
      (r_reg_free_internal (r_reg_arena_pop r_reg_new) true)) demo_profile ≫= fun p => profile_finish p.2 ≫= fun q => Some (p.1, q)) = Some None) as F
      by (vm_compute; reflexivity).
    rewrite E in F. cbn [mbind option_bind snd] in F. rewrite E' in F. discriminate F.
Defined.

Lemma r_reg_set_profile_string_safe_witness :
  r_reg_set_profile_string r_reg_new demo_text <> PR_undef.
Proof. apply (r_reg_set_profile_string_safe r_reg_new demo_text). vm_compute. reflexivity. Defined.

Lemma r_reg_set_profile_string_fits_witness :
  reg_wf (accepted (r_reg_set_profile_string r_reg_new demo_text)).
Proof.
  eapply (r_reg_set_profile_string_fits r_reg_new demo_text);
    [exact r_reg_new_wf|apply r_reg_new_fresh|].
  destruct (r_reg_set_profile_string r_reg_new demo_text) as [r| | | |] eqn:E; [reflexivity|exfalso..];
    vm_compute in E; discriminate E.
Defined.

(** A register that starts 64 bits before its arena. *)
Lemma profile_negative_offset :
  match r_reg_set_profile_string r_reg_new (render [["gpr"; "foo"; ".8"; "-8"; "0"]]) with
  | PR_ok r => ri_offset <$> r_reg_get r "foo" (-1) = Some (-64)
  | _ => False
  end%string.
Proof. vm_compute. reflexivity. Qed.

(** The end of a register that is one bit after the largest [int]. *)
Lemma profile_size_overflow :
  r_reg_set_profile_string r_reg_new (render [["gpr"; "foo"; ".8"; ".2147483640"; "0"]]%string) = PR_overflow.
Proof. vm_compute. reflexivity. Qed.
