(* ===== verification/RegBytes.v ===== *)
(** * Registers as bytes

    [r_reg_get_bytes] serializes the arenas of all the types one after the
    other and [r_reg_read_regs] reads them back; and the table of roles. *)

From S2P Require Import Prelude Endian Mem Num Reg RegFacts.

(** ** Reading back what was serialized *)

Lemma read_regs_from_spec n i r L buf len off :
  reg_wf r -> length L = n -> Forall (fun a => bytes (ar_bytes a)) L ->
  (forall k a, L !! k = Some a ->
     0 < ar_size a /\ exists a', arena_of r (i + k) = Some a' /\ ar_size a' = ar_size a) ->
  0 <= off -> drop (Z.to_nat off) buf = concat (map ar_bytes L) ->
  off + Z.of_nat (length (concat (map ar_bytes L))) = len ->
  exists r', read_regs_from n i r buf len off = Some (true, r')
    /\ (forall k a, L !! k = Some a -> arena_of r' (i + k) = Some a)
    /\ forall t, (t < i \/ i + n <= t)%nat -> arena_of r' t = arena_of r t.
Proof.
  revert i r L off. induction n as [|n IH]; intros i r L off W HL HB Hsz Hoff Hd Hlen.
  { destruct L; [|done]. exists r. by split_and!. }
  destruct L as [|a L]; [done|]. injection HL as HL. apply Forall_cons in HB as [Ha HB'].
  destruct (Hsz 0%nat a eq_refl) as (Hpos & a' & Ha' & Es). rewrite Nat.add_0_r in Ha'.
  cbn [map concat] in Hd, Hlen. rewrite length_app in Hlen. cbn [read_regs_from].
  rewrite Ha'. cbn [mbind option_bind]. rewrite Es.
  destruct (Z.eqb_spec (ar_size a) 0); [lia|]. unfold ar_size in *.
  rewrite Z.min_r by lia. rewrite Nat2Z.id, Hd.
  rewrite (proj2 (Nat.ltb_ge _ _)) by (rewrite length_app; lia).
  rewrite take_app_length, blit_full by (rewrite length_replicate; lia).
  set (r1 := put_arena r i _). rewrite Z.gtb_ltb. destruct (Z.ltb_spec len (off + Z.of_nat (length (ar_bytes a)))); [lia|].
  assert (arena_of r1 i = Some a) as Hi.
  { unfold r1. rewrite (arena_of_put r i _ a' Ha'). by destruct a. }
  destruct (IH (S i) r1 L (off + Z.of_nat (length (ar_bytes a)))) as (r' & Hrun & HL' & Hout).
  - apply reg_wf_put; [done|exact Ha].
  - done.
  - done.
  - intros k b Hk. destruct (Hsz (S k) b Hk) as (? & b' & Hb' & ?). split; [done|]. exists b'.
    split; [|done]. rewrite <- Hb'. unfold r1. rewrite arena_of_put_ne by (done || lia). f_equal. lia.
  - lia.
  - rewrite Z2Nat.inj_add, Nat2Z.id, <- drop_drop, Hd, drop_app_length by lia. done.
  - lia.
  - exists r'. split; [exact Hrun|]. split.
    + intros [|k] b Hk; simpl in Hk; simplify_eq.
      * rewrite Nat.add_0_r, Hout by lia. done.
      * rewrite <- (HL' k b Hk). f_equal. lia.
    + intros t Ht. rewrite Hout by lia. unfold r1. apply arena_of_put_ne; [done|lia].
Qed.

Lemma all_arenas r :
  reg_wf r -> exists L, mapM (arena_of r) (seq 0 R_REG_TYPE_LAST) = Some L
    /\ length L = R_REG_TYPE_LAST /\ forall k a, L !! k = Some a -> arena_of r k = Some a.
Proof.
  intros W. destruct (mapM (arena_of r) (seq 0 R_REG_TYPE_LAST)) as [L|] eqn:E.
  - exists L. apply mapM_Some in E. split; [done|]. split; [by rewrite <- (Forall2_length _ _ _ E)|].
    intros k a Hk. destruct (Forall2_lookup_r _ _ _ _ _ E Hk) as (t & Ht & Ha).
    apply lookup_seq in Ht as [-> _]. done.
  - exfalso. apply mapM_None, Exists_exists in E as (t & Ht & HN).
    apply elem_of_seq in Ht. destruct (lookup_lt_is_Some_2 (rr_regset r) t) as [rs Hrs].
    { rewrite (wf_sets r W). lia. }
    destruct (wf_lookup_arena r t rs W Hrs) as (a & Ha & _). unfold arena_of in HN.
    rewrite Hrs in HN. simpl in HN. congruence.
Qed.

(** The bytes of all the register types, read into a register file whose
    arenas have the same sizes and none of which is empty, restore every
    arena. *)
Theorem r_reg_bytes_roundtrip r r1 :
  reg_wf r -> reg_wf r1 ->
  (forall t a, arena_of r t = Some a ->
     0 < ar_size a /\ exists a', arena_of r1 t = Some a' /\ ar_size a' = ar_size a) ->
  exists buf r2, r_reg_get_bytes r (-1) = Some (Some buf)
    /\ r_reg_read_regs r1 buf (Z.of_nat (length buf)) = Some (true, r2)
    /\ forall t, (t < R_REG_TYPE_LAST)%nat -> arena_of r2 t = arena_of r t.
Proof.
  intros W W1 Hsz. destruct (all_arenas r W) as (L & HL & Hlen & Hk).
  assert (Forall (fun a => bytes (ar_bytes a)) L) as HB.
  { apply Forall_lookup. intros k a Ha. by eapply arena_bytes, Hk. }
  destruct (read_regs_from_spec R_REG_TYPE_LAST 0 r1 L (concat (map ar_bytes L))
    (Z.of_nat (length (concat (map ar_bytes L)))) 0) as (r2 & Hrun & Hr2 & _); try done.
  { intros k a Ha. apply Hsz. by apply Hk. }
  exists (concat (map ar_bytes L)), r2. split; [|split; [exact Hrun|]].
  - unfold r_reg_get_bytes. change (-1 =? -1) with true. cbv iota.
    destruct (lookup_lt_is_Some_2 L 0) as [a0 Ha0]; [rewrite Hlen; unfold R_REG_TYPE_LAST; lia|].
    rewrite (Hk _ _ Ha0). cbn [mbind option_bind].
    destruct (Hsz 0%nat a0 (Hk _ _ Ha0)) as [Hpos _]. destruct (Z.eqb_spec (ar_size a0) 0); [lia|].
    unfold all_bytes. rewrite HL. reflexivity.
  - intros t Ht. destruct (lookup_lt_is_Some_2 L t) as [a Ha]; [by rewrite Hlen|].
    rewrite (Hk _ _ Ha). apply (Hr2 t a Ha).
Qed.

(** ** The table of roles *)

(** [r_reg_get_role] names a role; of the 21 roles only the first four are
    named as [r_reg_get_name_idx] reads the name back. *)
Lemma r_reg_get_role_shifted :
  forallb (fun role =>
    Bool.eqb (bool_decide (r_reg_get_name_idx <$> r_reg_get_role role = Some role)) (role <=? 3))
    (seqZ 0 21) = true.
Proof. vm_compute. reflexivity. Qed.

Definition nonempty_arenas (r r1 : RReg) : bool :=
  forallb (fun t => match arena_of r t, arena_of r1 t with
    | Some a, Some a' => (0 <? ar_size a) && (ar_size a' =? ar_size a)
    | _, _ => false end) (seq 0 R_REG_TYPE_LAST).

Lemma nonempty_arenas_sound r r1 :
  reg_wf r -> nonempty_arenas r r1 = true -> forall t a, arena_of r t = Some a ->
  0 < ar_size a /\ exists a', arena_of r1 t = Some a' /\ ar_size a' = ar_size a.
Proof.
  intros W H t a Ha. unfold nonempty_arenas in H. rewrite forallb_forall in H.
  specialize (H t). rewrite Ha in H. destruct (arena_of r1 t) as [a'|].
  - apply andb_true_iff in H as [H1 H2].
    + apply Z.ltb_lt in H1. apply Z.eqb_eq in H2. eauto.
    + apply in_seq. unfold arena_of in Ha. destruct (rr_regset r !! t) eqn:E; [|done].
      apply lookup_lt_Some in E. rewrite (wf_sets r W) in E. lia.
  - discriminate H. apply in_seq. unfold arena_of in Ha. destruct (rr_regset r !! t) eqn:E; [|done].
    apply lookup_lt_Some in E. rewrite (wf_sets r W) in E. lia.
Qed.

(** The registers of the example, saved after [rax] was written and restored
    over the initial ones. *)
Lemma r_reg_bytes_roundtrip_witness :
  let r := from_option snd demo_reg (r_reg_setv (replicate 12 0xcc) demo_reg "rax" 7) in
  exists buf r2, r_reg_get_bytes r (-1) = Some (Some buf)
    /\ r_reg_read_regs demo_reg buf (Z.of_nat (length buf)) = Some (true, r2)
    /\ forall t, (t < R_REG_TYPE_LAST)%nat -> arena_of r2 t = arena_of r t.
Proof.
  intros r. assert (reg_wf r) as W by (apply reg_wf_b_sound; vm_compute; reflexivity).
  apply r_reg_bytes_roundtrip; [exact W|exact demo_wf|].
  apply nonempty_arenas_sound; [exact W|vm_compute; reflexivity].
Defined.
