(* ===== verification/EsilState.v ===== *)
(** * The state of the ESIL machine and its accesses

    [libr/anal/esil.c], first part: [RAnalEsil], its callbacks, the operand
    stack, the internal flags, and how operands, registers and memory are
    read and written.

    The monad is explicit state passing with undefined behaviour.  Out
    parameters ([ut64 *num], [int *size]) are threaded: a function takes the
    old contents and returns the new ones with its result. *)

From S2P Require Import Prelude Endian Mem Num Sdb Reg.

(** ** Data *)

(** What a callback slot of [RAnalEsilCallbacks] holds: null, the function of
    [esil_stats.c], [hook_NOP_mem_write] (memory writes only), or a function
    of a client. *)
Inductive hook : Set := Hook_null | Hook_stats | Hook_NOP | Hook_user.
(** The same for the slots that do the work: the functions [internal_esil_*],
    their [_no_null] variants, or a function of a client. *)
Inductive accessor : Set := Acc_null | Acc_internal | Acc_no_null | Acc_user.

Record RAnalEsilCallbacks := mkCb {
  hook_flag_read : hook;
  hook_command : hook;
  hook_mem_read : hook;
  mem_read : accessor;
  hook_mem_write : hook;
  mem_write : accessor;
  hook_reg_read : hook;
  reg_read : accessor;
  hook_reg_write : hook;
  reg_write : accessor;
}.

(** The width suffix of a memory operation: "[1]", "[2]", "[4]", "[8]"
    or the register size of the machine. *)
Inductive width : Set := W1 | W2 | W4 | W8 | Wbits.

(** The handlers a word can be bound to; [Op_user] is a handler of a client. *)
Inductive RAnalEsilOp : Set :=
  | Op_interrupt | Op_cmp | Op_smaller | Op_bigger | Op_smaller_equal | Op_bigger_equal
  | Op_if | Op_lsl | Op_lsleq | Op_lsr | Op_lsreq | Op_ror | Op_rol | Op_and | Op_andeq
  | Op_nop | Op_or | Op_oreq | Op_neg | Op_negeq | Op_eq | Op_mul | Op_muleq | Op_xor
  | Op_xoreq | Op_add | Op_addeq | Op_inc | Op_inceq | Op_sub | Op_subeq | Op_dec | Op_deceq
  | Op_div | Op_diveq | Op_mod | Op_modeq
  | Op_poke (w : width) | Op_mem_oreq (w : width) | Op_mem_xoreq (w : width)
  | Op_mem_andeq (w : width) | Op_mem_addeq (w : width) | Op_mem_subeq (w : width)
  | Op_mem_modeq (w : width) | Op_mem_diveq (w : width) | Op_mem_muleq (w : width)
  | Op_mem_inceq (w : width) | Op_mem_deceq (w : width) | Op_peek (w : width)
  | Op_peek_some | Op_poke_some | Op_dumpstack | Op_pop | Op_todo | Op_goto | Op_break
  | Op_clear | Op_dup | Op_num | Op_pick | Op_rpick | Op_swap | Op_trap | Op_bits
  | Op_user (n : nat).

(** What the machine uses of [RAnal]: the word size, the byte order, the
    bound on executed words, the registers and the bound i/o layer
    ([iob.io], null when there is none). *)
Record RAnal {IO : Type} := mkAnal {
  anal_bits : Z;
  anal_big_endian : bool;
  anal_esil_goto_limit : Z;
  anal_reg : RReg;
  anal_io : option IO;
}.
Arguments RAnal : clear implicits.

Record RAnalEsil {IO : Type} := mkEsil {
  anal : RAnal IO;  (* the attached analysis *)
  stack : list string;  (* top first *)
  stacksize : Z;
  skip : Z;
  nowrite : bool;
  iotrap : bool;
  repeat : bool;
  parse_stop : Z;
  parse_goto : Z;
  parse_goto_count : Z;
  address : Z;
  delay : Z;  (* mapped to $ds *)
  jump_target : Z;  (* mapped to $jt *)
  jump_target_set : Z;  (* mapped to $js *)
  trap : Z;
  trap_code : Z;
  old : Z;
  cur : Z;
  lastsz : Z;
  ops : gmap string RAnalEsilOp;
  interrupts : gmap string nat;
  stats : option (list (string * string));  (* the database of the statistics hooks *)
  cb : RAnalEsilCallbacks;
}.
Arguments RAnalEsil : clear implicits.

Section Setters.
Context {IO : Type}.
Implicit Types e : RAnalEsil IO.
Definition set_anal (v : RAnal IO) e :=
  mkEsil _ v (stack e) (stacksize e) (skip e) (nowrite e) (iotrap e) (repeat e)
    (parse_stop e) (parse_goto e) (parse_goto_count e) (address e) (delay e) (jump_target
    e) (jump_target_set e) (trap e) (trap_code e) (old e) (cur e) (lastsz e) (ops e)
    (interrupts e) (stats e) (cb e).
Definition set_stack (v : list string) e :=
  mkEsil _ (anal e) v (stacksize e) (skip e) (nowrite e) (iotrap e) (repeat e) (parse_stop
    e) (parse_goto e) (parse_goto_count e) (address e) (delay e) (jump_target e)
    (jump_target_set e) (trap e) (trap_code e) (old e) (cur e) (lastsz e) (ops e)
    (interrupts e) (stats e) (cb e).
Definition set_stacksize (v : Z) e :=
  mkEsil _ (anal e) (stack e) v (skip e) (nowrite e) (iotrap e) (repeat e) (parse_stop e)
    (parse_goto e) (parse_goto_count e) (address e) (delay e) (jump_target e)
    (jump_target_set e) (trap e) (trap_code e) (old e) (cur e) (lastsz e) (ops e)
    (interrupts e) (stats e) (cb e).
Definition set_skip (v : Z) e :=
  mkEsil _ (anal e) (stack e) (stacksize e) v (nowrite e) (iotrap e) (repeat e)
    (parse_stop e) (parse_goto e) (parse_goto_count e) (address e) (delay e) (jump_target
    e) (jump_target_set e) (trap e) (trap_code e) (old e) (cur e) (lastsz e) (ops e)
    (interrupts e) (stats e) (cb e).
Definition set_nowrite (v : bool) e :=
  mkEsil _ (anal e) (stack e) (stacksize e) (skip e) v (iotrap e) (repeat e) (parse_stop
    e) (parse_goto e) (parse_goto_count e) (address e) (delay e) (jump_target e)
    (jump_target_set e) (trap e) (trap_code e) (old e) (cur e) (lastsz e) (ops e)
    (interrupts e) (stats e) (cb e).
Definition set_iotrap (v : bool) e :=
  mkEsil _ (anal e) (stack e) (stacksize e) (skip e) (nowrite e) v (repeat e) (parse_stop
    e) (parse_goto e) (parse_goto_count e) (address e) (delay e) (jump_target e)
    (jump_target_set e) (trap e) (trap_code e) (old e) (cur e) (lastsz e) (ops e)
    (interrupts e) (stats e) (cb e).
Definition set_repeat (v : bool) e :=
  mkEsil _ (anal e) (stack e) (stacksize e) (skip e) (nowrite e) (iotrap e) v (parse_stop
    e) (parse_goto e) (parse_goto_count e) (address e) (delay e) (jump_target e)
    (jump_target_set e) (trap e) (trap_code e) (old e) (cur e) (lastsz e) (ops e)
    (interrupts e) (stats e) (cb e).
Definition set_parse_stop (v : Z) e :=
  mkEsil _ (anal e) (stack e) (stacksize e) (skip e) (nowrite e) (iotrap e) (repeat e) v
    (parse_goto e) (parse_goto_count e) (address e) (delay e) (jump_target e)
    (jump_target_set e) (trap e) (trap_code e) (old e) (cur e) (lastsz e) (ops e)
    (interrupts e) (stats e) (cb e).
Definition set_parse_goto (v : Z) e :=
  mkEsil _ (anal e) (stack e) (stacksize e) (skip e) (nowrite e) (iotrap e) (repeat e)
    (parse_stop e) v (parse_goto_count e) (address e) (delay e) (jump_target e)
    (jump_target_set e) (trap e) (trap_code e) (old e) (cur e) (lastsz e) (ops e)
    (interrupts e) (stats e) (cb e).
Definition set_parse_goto_count (v : Z) e :=
  mkEsil _ (anal e) (stack e) (stacksize e) (skip e) (nowrite e) (iotrap e) (repeat e)
    (parse_stop e) (parse_goto e) v (address e) (delay e) (jump_target e) (jump_target_set
    e) (trap e) (trap_code e) (old e) (cur e) (lastsz e) (ops e) (interrupts e) (stats e)
    (cb e).
Definition set_address (v : Z) e :=
  mkEsil _ (anal e) (stack e) (stacksize e) (skip e) (nowrite e) (iotrap e) (repeat e)
    (parse_stop e) (parse_goto e) (parse_goto_count e) v (delay e) (jump_target e)
    (jump_target_set e) (trap e) (trap_code e) (old e) (cur e) (lastsz e) (ops e)
    (interrupts e) (stats e) (cb e).
Definition set_delay (v : Z) e :=
  mkEsil _ (anal e) (stack e) (stacksize e) (skip e) (nowrite e) (iotrap e) (repeat e)
    (parse_stop e) (parse_goto e) (parse_goto_count e) (address e) v (jump_target e)
    (jump_target_set e) (trap e) (trap_code e) (old e) (cur e) (lastsz e) (ops e)
    (interrupts e) (stats e) (cb e).
Definition set_jump_target (v : Z) e :=
  mkEsil _ (anal e) (stack e) (stacksize e) (skip e) (nowrite e) (iotrap e) (repeat e)
    (parse_stop e) (parse_goto e) (parse_goto_count e) (address e) (delay e) v
    (jump_target_set e) (trap e) (trap_code e) (old e) (cur e) (lastsz e) (ops e)
    (interrupts e) (stats e) (cb e).
Definition set_jump_target_set (v : Z) e :=
  mkEsil _ (anal e) (stack e) (stacksize e) (skip e) (nowrite e) (iotrap e) (repeat e)
    (parse_stop e) (parse_goto e) (parse_goto_count e) (address e) (delay e) (jump_target
    e) v (trap e) (trap_code e) (old e) (cur e) (lastsz e) (ops e) (interrupts e) (stats
    e) (cb e).
Definition set_trap (v : Z) e :=
  mkEsil _ (anal e) (stack e) (stacksize e) (skip e) (nowrite e) (iotrap e) (repeat e)
    (parse_stop e) (parse_goto e) (parse_goto_count e) (address e) (delay e) (jump_target
    e) (jump_target_set e) v (trap_code e) (old e) (cur e) (lastsz e) (ops e) (interrupts
    e) (stats e) (cb e).
Definition set_trap_code (v : Z) e :=
  mkEsil _ (anal e) (stack e) (stacksize e) (skip e) (nowrite e) (iotrap e) (repeat e)
    (parse_stop e) (parse_goto e) (parse_goto_count e) (address e) (delay e) (jump_target
    e) (jump_target_set e) (trap e) v (old e) (cur e) (lastsz e) (ops e) (interrupts e)
    (stats e) (cb e).
Definition set_old (v : Z) e :=
  mkEsil _ (anal e) (stack e) (stacksize e) (skip e) (nowrite e) (iotrap e) (repeat e)
    (parse_stop e) (parse_goto e) (parse_goto_count e) (address e) (delay e) (jump_target
    e) (jump_target_set e) (trap e) (trap_code e) v (cur e) (lastsz e) (ops e) (interrupts
    e) (stats e) (cb e).
Definition set_cur (v : Z) e :=
  mkEsil _ (anal e) (stack e) (stacksize e) (skip e) (nowrite e) (iotrap e) (repeat e)
    (parse_stop e) (parse_goto e) (parse_goto_count e) (address e) (delay e) (jump_target
    e) (jump_target_set e) (trap e) (trap_code e) (old e) v (lastsz e) (ops e) (interrupts
    e) (stats e) (cb e).
Definition set_lastsz (v : Z) e :=
  mkEsil _ (anal e) (stack e) (stacksize e) (skip e) (nowrite e) (iotrap e) (repeat e)
    (parse_stop e) (parse_goto e) (parse_goto_count e) (address e) (delay e) (jump_target
    e) (jump_target_set e) (trap e) (trap_code e) (old e) (cur e) v (ops e) (interrupts e)
    (stats e) (cb e).
Definition set_ops (v : gmap string RAnalEsilOp) e :=
  mkEsil _ (anal e) (stack e) (stacksize e) (skip e) (nowrite e) (iotrap e) (repeat e)
    (parse_stop e) (parse_goto e) (parse_goto_count e) (address e) (delay e) (jump_target
    e) (jump_target_set e) (trap e) (trap_code e) (old e) (cur e) (lastsz e) v (interrupts
    e) (stats e) (cb e).
Definition set_interrupts (v : gmap string nat) e :=
  mkEsil _ (anal e) (stack e) (stacksize e) (skip e) (nowrite e) (iotrap e) (repeat e)
    (parse_stop e) (parse_goto e) (parse_goto_count e) (address e) (delay e) (jump_target
    e) (jump_target_set e) (trap e) (trap_code e) (old e) (cur e) (lastsz e) (ops e) v
    (stats e) (cb e).
Definition set_stats (v : option (list (string * string))) e :=
  mkEsil _ (anal e) (stack e) (stacksize e) (skip e) (nowrite e) (iotrap e) (repeat e)
    (parse_stop e) (parse_goto e) (parse_goto_count e) (address e) (delay e) (jump_target
    e) (jump_target_set e) (trap e) (trap_code e) (old e) (cur e) (lastsz e) (ops e)
    (interrupts e) v (cb e).
Definition set_cb (v : RAnalEsilCallbacks) e :=
  mkEsil _ (anal e) (stack e) (stacksize e) (skip e) (nowrite e) (iotrap e) (repeat e)
    (parse_stop e) (parse_goto e) (parse_goto_count e) (address e) (delay e) (jump_target
    e) (jump_target_set e) (trap e) (trap_code e) (old e) (cur e) (lastsz e) (ops e)
    (interrupts e) (stats e) v.
End Setters.


(** ** The environment

    What the machine calls but does not define: the i/o layer behind
    [RAnal.iob], the functions a client installs, the hooks of the
    architecture plugin, and the contents of uninitialised locals (the same,
    arbitrary, at each use). *)
Class EsilEnv (IO : Type) := {
  io_read_at : IO -> Z -> list Z -> Z -> Z * list Z * IO;
  io_write_at : IO -> Z -> list Z -> Z -> Z * IO;
  indet_num : Z;
  indet_bytes : list Z;
  user_flag_read : string -> Z -> M (RAnalEsil IO) (Z * Z);
  user_command : string -> M (RAnalEsil IO) Z;
  user_hook_mem_read : Z -> list Z -> Z -> M (RAnalEsil IO) (Z * list Z);
  user_mem_read : Z -> list Z -> Z -> M (RAnalEsil IO) (Z * list Z);
  user_hook_mem_write : Z -> list Z -> Z -> M (RAnalEsil IO) Z;
  user_mem_write : Z -> list Z -> Z -> M (RAnalEsil IO) Z;
  user_hook_reg_read : string -> Z -> option Z -> M (RAnalEsil IO) (Z * Z * option Z);
  user_reg_read : string -> Z -> option Z -> M (RAnalEsil IO) (Z * Z * option Z);
  user_hook_reg_write : string -> Z -> M (RAnalEsil IO) (Z * Z);
  user_reg_write : string -> Z -> M (RAnalEsil IO) Z;
  user_op : nat -> M (RAnalEsil IO) Z;
  user_interrupt : nat -> Z -> M (RAnalEsil IO) Z;
  env_cmd_trap : option (Z -> Z -> M (RAnalEsil IO) Z);
  env_cmd_intr : option (Z -> Z -> M (RAnalEsil IO) Z);
  plugin_trap : option (Z -> Z -> M (RAnalEsil IO) Z);
  plugin_intr : option (Z -> M (RAnalEsil IO) Z);
  plugin_init : option (M (RAnalEsil IO) Z);
  setab : Z -> M (RAnalEsil IO) unit;
}.

(** [n] uninitialised bytes. *)
Definition indet `{EsilEnv IO} (n : nat) : list Z := take n (indet_bytes ++ replicate n 0).

Definition R_ANAL_TRAP_DIVBYZERO : Z := 3.
Definition R_ANAL_TRAP_WRITE_ERR : Z := 4.
Definition R_ANAL_TRAP_READ_ERR : Z := 5.

Inductive parm_type : Set := PARM_INVALID | PARM_INTERNAL | PARM_REG | PARM_NUM.

Definition parm_is_internal (t : parm_type) : bool :=
  match t with PARM_INTERNAL => true | _ => false end.

Definition R_ANAL_ESIL_GOTO_LIMIT : Z := 4096.

(** The number with [bits + 1] least significant bits set; the shift is
    undefined for a negative count and from 64 on. *)
Definition genmask (bits : Z) : option Z :=
  if (bits <? 0) || (bits >? 63) then None
  else let m := u64 (u64 (Z.shiftl 2 bits) - 1) in Some (if m =? 0 then UT64_MAX else m).

(** The test [str[0] == '$' && str[1]]. *)
Definition is_internal (str : string) : bool :=
  is_char (char_at str 0) "$" && negb (is_char (char_at str 1) "000").

(** The classification of [r_anal_esil_get_parm_type]. *)
Definition parm_type_of (r : RReg) (str : string) : parm_type :=
  if bool_decide (str = EmptyString) then PARM_INVALID
  else if is_internal str then PARM_INTERNAL
  else if String.prefix "0x" str then PARM_NUM
  else
    let c := char_at str 0 in
    if (isdigit c || is_char c "-")
       && forallb isdigit (String.list_ascii_of_string (str_drop 1 str))
    then PARM_NUM
    else if r_reg_get r str (-1) is Some _ then PARM_REG else PARM_INVALID.

Section Esil.
Context {IO : Type} {Env : EsilEnv IO}.
Abbreviation E := (M (RAnalEsil IO)).

(** ** Fields of the attached analysis *)

Definition get_reg : E RReg := gets (fun e => anal_reg (anal e)).
Definition get_bits : E Z := gets (fun e => anal_bits (anal e)).
Definition get_big_endian : E bool := gets (fun e => anal_big_endian (anal e)).

Definition with_reg (r : RReg) (a : RAnal IO) : RAnal IO :=
  mkAnal _ (anal_bits a) (anal_big_endian a) (anal_esil_goto_limit a) r (anal_io a).
Definition with_io (io : option IO) (a : RAnal IO) : RAnal IO :=
  mkAnal _ (anal_bits a) (anal_big_endian a) (anal_esil_goto_limit a) (anal_reg a) io.
Definition put_reg (r : RReg) : E unit := modify (fun e => set_anal (with_reg r (anal e)) e).
Definition put_io (io : IO) : E unit := modify (fun e => set_anal (with_io (Some io) (anal e)) e).

(** ** The stack *)

Definition stackptr (e : RAnalEsil IO) : Z := Z.of_nat (length (stack e)).

Definition r_anal_esil_push (str : string) : E bool :=
  e ← gets id;
  if bool_decide (str = EmptyString) || (stackptr e >? stacksize e - 1) then mret false
  else modify (set_stack (str :: stack e)) ;; mret true.

Definition r_anal_esil_pop : E (option string) :=
  e ← gets id;
  match stack e with
  | [] => mret None
  | s :: l => modify (set_stack l) ;; mret (Some s)
  end.

Definition r_anal_esil_pushnum (num : Z) : E bool := r_anal_esil_push (fmt_0xllx num).

Definition r_anal_esil_stack_free : E unit := modify (set_stack []).

(** ** Statistics hooks ([esil_stats.c]) *)

(** [sdb_array_add]: a set of values under the key. *)
Definition stats_add (key val : string) : E unit :=
  modify (fun e =>
    match stats e with
    | Some l => if bool_decide ((key, val) ∈ l) then e else set_stats (Some (l ++ [(key, val)])) e
    | None => e
    end).

(** [sdb_array_add_num]: the number in decimal is looked for, the one in
    hexadecimal is added. *)
Definition stats_add_num (key : string) (val : Z) : E unit :=
  e ← gets id;
  match stats e, sdb_itoa val 10 with
  | Some l, Some v10 =>
      if bool_decide ((key, v10) ∈ l) then mret tt else stats_add key (sdb_key16 val)
  | _, _ => mret tt
  end.

Definition stats_hook_flag_read (flag : string) (num : Z) : E (Z * Z) :=
  stats_add "flg.read" flag ;; mret (0, num).
Definition stats_hook_command (op : string) : E Z := stats_add "ops.list" op ;; mret 0.
Definition stats_hook_mem_read (addr : Z) (buf : list Z) (len : Z) : E (Z * list Z) :=
  stats_add_num "mem.read" addr ;; mret (0, buf).
Definition stats_hook_mem_write (addr : Z) (buf : list Z) (len : Z) : E Z :=
  stats_add_num "mem.write" addr ;; mret 0.
Definition stats_hook_reg_read (name : string) (res : Z) (size : option Z)
    : E (Z * Z * option Z) :=
  stats_add (if isdigit (char_at name 0) then "num.load" else "reg.read") name ;;
  mret (0, res, size).
Definition stats_hook_reg_write (name : string) (val : Z) : E (Z * Z) :=
  stats_add "reg.write" name ;; mret (0, val).
Definition hook_NOP_mem_write (addr : Z) (buf : list Z) (len : Z) : E Z := mret 1.

(** ** Memory *)

Definition internal_esil_mem_read (addr : Z) (buf : list Z) (len : Z) : E (Z * list Z) :=
  e ← gets id;
  match anal_io (anal e) with
  | None => mret (0, buf)
  | Some io =>
      let '(ret, buf, io) := io_read_at io addr buf len in put_io io ;; mret (ret, buf)
  end.

Definition internal_esil_mem_read_no_null (addr : Z) (buf : list Z) (len : Z)
    : E (Z * list Z) :=
  e ← gets id;
  match anal_io (anal e) with
  | None => mret (0, buf)
  | Some io =>
      if addr =? 0 then mret (0, buf)
      else let '(ret, buf, io) := io_read_at io addr buf len in put_io io ;; mret (ret, buf)
  end.

Definition fault (ty code : Z) : E unit :=
  e ← gets id;
  if iotrap e then modify (set_trap ty) ;; modify (set_trap_code (u32 code)) else mret tt.

Definition r_anal_esil_mem_read (addr : Z) (buf : list Z) (len : Z) : E (Z * list Z) :=
  e ← gets id;
  '(ret, buf) ← match hook_mem_read (cb e) with
                | Hook_stats => stats_hook_mem_read addr buf len
                | Hook_user => user_hook_mem_read addr buf len
                | Hook_null | Hook_NOP => mret (0, buf)
                end;
  e ← gets id;
  if z2b ret then mret (ret, buf)
  else
    let call : option (E (Z * list Z)) :=
      match mem_read (cb e) with
      | Acc_null => None
      | Acc_internal => Some (internal_esil_mem_read addr buf len)
      | Acc_no_null => Some (internal_esil_mem_read_no_null addr buf len)
      | Acc_user => Some (user_mem_read addr buf len)
      end in
    match call with
    | None => mret (ret, buf)
    | Some call =>
        '(ret, buf) ← call;
        (if ret =? len then mret tt else fault R_ANAL_TRAP_READ_ERR addr) ;;
        mret (ret, buf)
    end.

Definition internal_esil_mem_write (addr : Z) (buf : list Z) (len : Z) : E Z :=
  e ← gets id;
  match anal_io (anal e) with
  | None => mret 0
  | Some io =>
      if nowrite e then mret 0
      else
        let '(ret, io) := io_write_at io addr buf len in
        put_io io ;;
        (if ret =? len then mret tt else fault R_ANAL_TRAP_WRITE_ERR addr) ;;
        mret ret
  end.

Definition internal_esil_mem_write_no_null (addr : Z) (buf : list Z) (len : Z) : E Z :=
  e ← gets id;
  match anal_io (anal e) with
  | None => mret 0
  | Some io =>
      if addr =? 0 then mret 0
      else if nowrite e then mret 0
      else
        let '(ret, io) := io_write_at io addr buf len in
        put_io io ;;
        (if ret =? len then mret tt else fault R_ANAL_TRAP_WRITE_ERR addr) ;;
        mret ret
  end.

Definition r_anal_esil_mem_write (addr : Z) (buf : list Z) (len : Z) : E Z :=
  e ← gets id;
  ret ← match hook_mem_write (cb e) with
        | Hook_null => mret 0
        | Hook_stats => stats_hook_mem_write addr buf len
        | Hook_NOP => hook_NOP_mem_write addr buf len
        | Hook_user => user_hook_mem_write addr buf len
        end;
  e ← gets id;
  if z2b ret then mret ret
  else
    match mem_write (cb e) with
    | Acc_null => mret ret
    | Acc_internal => internal_esil_mem_write addr buf len
    | Acc_no_null => internal_esil_mem_write_no_null addr buf len
    | Acc_user => user_mem_write addr buf len
    end.

(** ** Registers *)

Definition internal_esil_reg_read (regname : string) (num : Z) (size : option Z)
    : E (Z * Z * option Z) :=
  r ← get_reg;
  match r_reg_get r regname (-1) with
  | Some reg =>
      v ← lift UB_oob (r_reg_get_value r (Some reg));
      mret (1, v, (fun _ => ri_size reg) <$> size)
  | None => mret (0, num, size)
  end.

(** [r_reg_set_value] on the attached registers. *)
Definition reg_set_value (reg : RRegItem) (num : Z) : E unit :=
  r ← get_reg;
  '(_, r) ← lift UB_oob (r_reg_set_value (indet 12) r (Some reg) num);
  put_reg r.

Definition internal_esil_reg_write (regname : string) (num : Z) : E Z :=
  r ← get_reg;
  match r_reg_get r regname (-1) with
  | Some reg => reg_set_value reg num ;; mret 1
  | None => mret 0
  end.

Definition internal_esil_reg_write_no_null (regname : string) (num : Z) : E Z :=
  r ← get_reg;
  let pc := default "pc"%string (r_reg_get_name r R_REG_NAME_PC) in
  let sp := default "sp"%string (r_reg_get_name r R_REG_NAME_SP) in
  let bp := default "bp"%string (r_reg_get_name r R_REG_NAME_BP) in
  match r_reg_get r regname (-1) with
  | Some reg =>
      match ri_name reg with
      | Some name =>
          if (negb (String.eqb name pc) && negb (String.eqb name sp)
              && negb (String.eqb name bp)) || z2b num
          then reg_set_value reg num ;; mret 1 else mret 0
      | None => mret 0
      end
  | None => mret 0
  end.

(** [lastsz] is a [ut8]: the size of the register modulo 256. *)
Definition esil_internal_sizeof_reg (r : string) : E Z :=
  reg ← get_reg;
  mret match r_reg_get reg r (-1) with Some ri => u8 (ri_size ri) | None => 0 end.

(** ** The internal flags *)

Definition esil_internal_borrow_check (bit : Z) (e : RAnalEsil IO) : option bool :=
  let bit := Z.land (Z.land bit 0x3f + 0x3f) 0x3f in
  m ← genmask bit;
  Some (Z.land (old e) m <? Z.land (cur e) m).

Definition esil_internal_carry_check (bit : Z) (e : RAnalEsil IO) : option bool :=
  mask ← genmask bit;
  Some (Z.land (cur e) mask <? Z.land (old e) mask).

Definition esil_internal_parity_check (e : RAnalEsil IO) : bool :=
  let c1 := 0x0101010101010101 in
  let c2 := 0x8040201008040201 in
  let c3 := 0x1FF in
  let lsb := Z.land (cur e) 0xff in
  negb (z2b (Z.land (Z.land (u64 (lsb * c1)) c2 mod c3) 1)).

Definition esil_internal_sign_check (e : RAnalEsil IO) : option bool :=
  if lastsz e =? 0 then Some false
  else if lastsz e - 1 >? 63 then None
  else Some (z2b (Z.land (Z.shiftr (cur e) (lastsz e - 1)) 1)).

Definition esil_internal_overflow_check (e : RAnalEsil IO) : option bool :=
  if lastsz e <? 2 then Some false
  else
    a ← esil_internal_carry_check (lastsz e - 1) e;
    b ← esil_internal_carry_check (lastsz e - 2) e;
    Some (xorb a b).

Definition r_anal_esil_get_parm_type (str : string) : E parm_type :=
  r ← get_reg; mret (parm_type_of r str).

(** The body of the [switch] of [esil_internal_read]: the value of the
    internal variable whose name, without the prefix, is [str + 1].  The outer
    [option] is undefined behaviour, the inner one the [return false]. *)
Definition esil_internal_value (str : string) (e : RAnalEsil IO) : option (option Z) :=
  match char_at str 1 with
  | "$"%char => Some (Some (address e))
  | "z"%char => m ← genmask (lastsz e - 1); Some (Some (b2z (Z.land (cur e) m =? 0)))
  | "b"%char => n ← r_num_get (str_drop 2 str);
           b ← esil_internal_borrow_check (u8 n) e; Some (Some (b2z b))
  | "c"%char => n ← r_num_get (str_drop 2 str);
           b ← esil_internal_carry_check (u8 n) e; Some (Some (b2z b))
  | "o"%char => b ← esil_internal_overflow_check e; Some (Some (b2z b))
  | "p"%char => Some (Some (b2z (esil_internal_parity_check e)))
  | "r"%char => Some (Some (u64 (Z.quot (anal_bits (anal e)) 8)))
  | "s"%char => b ← esil_internal_sign_check e; Some (Some (b2z b))
  | "d"%char => match char_at str 2 with
           | "s"%char => Some (Some (u64 (delay e)))
           | _ => Some None
           end
  | "j"%char => match char_at str 2 with
           | "t"%char => Some (Some (jump_target e))
           | "s"%char => Some (Some (u64 (jump_target_set e)))
           | _ => Some None
           end
  | _ => let '(imm, seen) := strtoull (str_drop 1 str) 10 in
         Some (if (seen : bool) then Some imm else None)
  end.

Definition esil_internal_read (str : string) (num : Z) : E (bool * Z) :=
  if bool_decide (str = EmptyString) then mret (false, num)
  else
    e ← gets id;
    '(ret, num) ← match hook_flag_read (cb e) with
                  | Hook_stats => stats_hook_flag_read (str_drop 1 str) num
                  | Hook_user => user_flag_read (str_drop 1 str) num
                  | Hook_null | Hook_NOP => mret (0, num)
                  end;
    if z2b ret then mret (true, num)
    else
      e ← gets id;
      v ← lift UB_shift (esil_internal_value str e);
      match v with
      | Some num => mret (true, num)
      | None => mret (false, num)
      end.

(** The case of "j" has no [break]: it falls into [default] and answers false
    after storing. *)
Definition esil_internal_write (str : string) (num : Z) : E bool :=
  match char_at str 1 with
  | "d"%char => match char_at str 2 with
           | "s"%char => modify (set_delay (s32 num)) ;; mret true
           | _ => mret false
           end
  | "j"%char => match char_at str 2 with
           | "t"%char => modify (set_jump_target num) ;; modify (set_jump_target_set 1) ;;
                    mret false
           | "s"%char => modify (set_jump_target_set (s32 num)) ;; mret false
           | _ => mret false
           end
  | _ => mret false
  end.

(** ** Operands *)

Definition r_anal_esil_reg_read (regname : string) (num : Z) (size : option Z)
    : E (bool * Z * option Z) :=
  bits ← get_bits;
  if is_internal regname then
    '(ok, num) ← esil_internal_read regname num;
    mret (ok, num, (fun _ => bits) <$> size)
  else
    let num := 0 in
    let size := (fun _ => bits) <$> size in
    e ← gets id;
    '(ret, num, size) ← match hook_reg_read (cb e) with
                        | Hook_stats => stats_hook_reg_read regname num size
                        | Hook_user => user_hook_reg_read regname num size
                        | Hook_null | Hook_NOP => mret (0, num, size)
                        end;
    if z2b ret then mret (true, num, size)
    else
      e ← gets id;
      '(ret, num, size) ← match reg_read (cb e) with
                          | Acc_null => mret (ret, num, size)
                          | Acc_internal | Acc_no_null =>
                              internal_esil_reg_read regname num size
                          | Acc_user => user_reg_read regname num size
                          end;
      mret (z2b ret, num, size).

Definition set_hook_reg_read (h : hook) (e : RAnalEsil IO) : RAnalEsil IO :=
  let c := cb e in
  set_cb (mkCb (hook_flag_read c) (hook_command c) (hook_mem_read c) (mem_read c)
            (hook_mem_write c) (mem_write c) h (reg_read c) (hook_reg_write c)
            (reg_write c)) e.

Definition r_anal_esil_reg_read_nocallback (regname : string) (num : Z) (size : option Z)
    : E (bool * Z * option Z) :=
  old_hook_reg_read ← gets (fun e => hook_reg_read (cb e));
  modify (set_hook_reg_read Hook_null) ;;
  ret ← r_anal_esil_reg_read regname num size;
  modify (set_hook_reg_read old_hook_reg_read) ;;
  mret ret.

(** [dst] is never empty here: only non-empty strings are pushed. *)
Definition r_anal_esil_reg_write (dst : string) (num : Z) : E Z :=
  e ← gets id;
  '(ret, num) ← match hook_reg_write (cb e) with
                | Hook_stats => stats_hook_reg_write dst num
                | Hook_user => user_hook_reg_write dst num
                | Hook_null | Hook_NOP => mret (0, num)
                end;
  ret ← (if negb (z2b ret) && is_internal dst
         then b ← esil_internal_write dst num; mret (b2z b) else mret ret);
  if z2b ret then mret ret
  else
    e ← gets id;
    match reg_write (cb e) with
    | Acc_null => mret ret
    | Acc_internal => internal_esil_reg_write dst num
    | Acc_no_null => internal_esil_reg_write_no_null dst num
    | Acc_user => user_reg_write dst num
    end.

Definition r_anal_esil_get_parm_size (str : string) (num : Z) (size : option Z)
    : E (bool * Z * option Z) :=
  parm_type ← r_anal_esil_get_parm_type str;
  bits ← get_bits;
  match parm_type with
  | PARM_INTERNAL =>
      '(ok, num) ← esil_internal_read str num;
      mret (ok, num, (fun _ => bits) <$> size)
  | PARM_NUM =>
      num ← lift UB_overflow (r_num_get str);
      mret (true, num, (fun _ => bits) <$> size)
  | PARM_REG => r_anal_esil_reg_read str num size
  | PARM_INVALID => modify (set_parse_stop 1) ;; mret (false, num, size)
  end.

(** The value of an operand; [num] is what the out parameter held before. *)
Definition r_anal_esil_get_parm (str : string) (num : Z) : E (bool * Z) :=
  '(ok, num, _) ← r_anal_esil_get_parm_size str num None;
  mret (ok, num).

Definition isnum (str : string) : E (bool * Z) :=
  if isdigit (char_at str 0)
  then num ← lift UB_overflow (r_num_get str); mret (true, num)
  else mret (false, 0).

Definition isregornum (str : string) : E (bool * Z) :=
  '(ok, num, _) ← r_anal_esil_reg_read str indet_num None;
  if (ok : bool) then mret (true, num) else isnum str.

(** [None] when the stack is empty or the top is neither. *)
Definition popRN : E (option Z) :=
  str ← r_anal_esil_pop;
  match str with
  | Some str =>
      '(ok, num) ← isregornum str;
      mret (if (ok : bool) then Some num else None)
  | None => mret None
  end.

Definition r_anal_esil_set_pc (addr : Z) : E bool :=
  modify (set_address addr) ;; mret true.

End Esil.
