(* ===== verification/EsilOps.v ===== *)
(** * The operations of the ESIL machine

    [libr/anal/esil.c], the handlers [esil_*].  The handlers of one shape
    (two operands popped, evaluated in the same order, under the same guards)
    share a combinator named after that shape; each handler then says what it
    computes.  A handler returns the C [int]: 0 stops the expression. *)

From S2P Require Import Prelude Endian Mem Num Sdb Reg EsilState.

(** Shifts of a [ut64]: undefined from 64 on. *)
Definition shl64 (x n : Z) : option Z := if n <? 64 then Some (u64 (Z.shiftl x n)) else None.
Definition shr64 (x n : Z) : option Z := if n <? 64 then Some (Z.shiftr x n) else None.

(** ["a > b"] on the low [size] bits, signed. *)
Definition signed_compare_gt (a b size : Z) : bool :=
  match size with
  | 1 => Z.land b 1 <? Z.land a 1
  | 8 => s8 b <? s8 a
  | 16 => s16 b <? s16 a
  | 32 => s32 b <? s32 a
  | _ => s64 b <? s64 a
  end.

Section Ops.
Context {IO : Type} {Env : EsilEnv IO}.
Abbreviation E := (M (RAnalEsil IO)).

(** ** The shapes *)

Definition get_parm (str : string) : E (bool * Z) := r_anal_esil_get_parm str indet_num.

Definition reg_read_num (str : string) : E (bool * Z) :=
  '(ok, num, _) ← r_anal_esil_reg_read str indet_num None;
  mret (ok, num).

(** [s && read (s, &num)]: the value when both hold. *)
Definition operand (read : string -> E (bool * Z)) (s : option string)
    : E (option (string * Z)) :=
  match s with
  | None => mret None
  | Some s => '(ok, num) ← read s; mret (if (ok : bool) then Some (s, num) else None)
  end.

(** [dst] then [src] are popped; [first] is evaluated before [second]. *)
Definition on_dst_src (rd : string -> E (bool * Z)) (body : string -> string -> Z -> Z -> E Z)
    : E Z :=
  dst ← r_anal_esil_pop;
  src ← r_anal_esil_pop;
  d ← operand rd dst;
  match d with
  | None => mret 0
  | Some (dst, num) =>
      s ← operand get_parm src;
      match s with
      | None => mret 0
      | Some (src, num2) => body dst src num num2
      end
  end.

Definition on_src_dst (rd : string -> E (bool * Z)) (body : string -> string -> Z -> Z -> E Z)
    : E Z :=
  dst ← r_anal_esil_pop;
  src ← r_anal_esil_pop;
  s ← operand get_parm src;
  match s with
  | None => mret 0
  | Some (src, num2) =>
      d ← operand rd dst;
      match d with
      | None => mret 0
      | Some (dst, num) => body dst src num num2
      end
  end.

(** The internal state behind the flags. *)
Definition set_result (o c : Z) (dst : string) : E unit :=
  modify (set_old o) ;;
  modify (set_cur c) ;;
  sz ← esil_internal_sizeof_reg dst;
  modify (set_lastsz sz).

(** The same, unless the source is an internal variable. *)
Definition set_result_unless_internal (src : string) (o c : Z) (dst : string) : E unit :=
  ty ← r_anal_esil_get_parm_type src;
  if parm_is_internal ty then mret tt else set_result o c dst.

(** Push a result and succeed. *)
Definition push_ok (num : Z) : E Z := r_anal_esil_pushnum num ;; mret 1.

(** Write the result to the destination and succeed. *)
Definition write_ok (dst : string) (num : Z) : E Z := r_anal_esil_reg_write dst num ;; mret 1.

Definition div_by_zero : E unit :=
  modify (set_trap R_ANAL_TRAP_DIVBYZERO) ;; modify (set_trap_code 0).

(** ** Assignment and logic *)

Definition esil_eq : E Z :=
  dst ← r_anal_esil_pop;
  src ← r_anal_esil_pop;
  match src, dst with
  | Some src, Some dst =>
      '(ok, num, _) ← r_anal_esil_reg_read_nocallback dst indet_num None;
      if (ok : bool) then
        '(ok, num2) ← get_parm src;
        if (ok : bool) then
          ret ← r_anal_esil_reg_write dst num2;
          (if z2b ret then
             ty ← r_anal_esil_get_parm_type src;
             if parm_is_internal ty then mret tt
             else
               modify (set_cur num2) ;;
               modify (set_old num) ;;
               sz ← esil_internal_sizeof_reg dst;
               modify (set_lastsz sz)
           else mret tt) ;;
          mret ret
        else mret 0
      else mret 0
  | _, _ => mret 0
  end.

Definition esil_neg : E Z :=
  src ← r_anal_esil_pop;
  match src with
  | Some src =>
      '(ok, num) ← get_parm src;
      if (ok : bool) then push_ok (b2z (num =? 0))
      else
        '(ok, num) ← isregornum src;
        if (ok : bool) then push_ok (b2z (num =? 0)) else mret 0
  | None => mret 0
  end.

Definition esil_negeq : E Z :=
  src ← r_anal_esil_pop;
  s ← operand reg_read_num src;
  match s with
  | Some (src, num) => write_ok src (b2z (num =? 0))
  | None => mret 0
  end.

Definition esil_nop : E Z := mret 0.

Definition logic_eq (f : Z -> Z -> Z) : E Z :=
  on_dst_src reg_read_num (fun dst src num num2 =>
    set_result_unless_internal src num (f num num2) dst ;;
    write_ok dst (f num num2)).

Definition esil_andeq : E Z := logic_eq Z.land.
Definition esil_oreq : E Z := logic_eq Z.lor.
Definition esil_xoreq : E Z := logic_eq Z.lxor.

(** ** Traps and interrupts *)

(** The callbacks are tried in order until one answers non-zero. *)
Definition r_anal_esil_fire_trap (trap_type trap_code : Z) : E Z :=
  r ← match env_cmd_trap with Some f => f trap_type trap_code | None => mret 0 end;
  if z2b r then mret 1
  else
    r ← match plugin_trap with Some f => f trap_type trap_code | None => mret 0 end;
    mret (b2z (z2b r)).

Definition r_anal_esil_fire_interrupt (interrupt : Z) : E Z :=
  r ← match env_cmd_intr with Some f => f interrupt 0 | None => mret 0 end;
  if z2b r then mret 1
  else
    r ← match plugin_intr with Some f => f interrupt | None => mret 0 end;
    if z2b r then mret 1
    else
      e ← gets id;
      match interrupts e !! sdb_key16 (u64 interrupt) with
      | Some (S icb) => user_interrupt icb interrupt
      | _ => mret 0
      end.

(** The table maps a key to 0 for a null handler. *)
Definition r_anal_esil_set_interrupt (interrupt : Z) (interruptcb : nat) : E Z :=
  e ← gets id;
  modify (set_interrupts (<[sdb_key16 (u64 interrupt) := interruptcb]> (interrupts e))) ;;
  mret 1.

Definition esil_trap : E Z :=
  s ← popRN;
  match s with
  | Some s =>
      d ← popRN;
      match d with
      | Some d =>
          modify (set_trap (s32 s)) ;;
          modify (set_trap_code (u32 d)) ;;
          r_anal_esil_fire_trap (s32 s) (s32 d)
      | None => mret 0
      end
  | None => mret 0
  end.

Definition esil_bits : E Z :=
  s ← popRN;
  match s with
  | Some s => setab s ;; mret 1
  | None => mret 0
  end.

Definition esil_interrupt : E Z :=
  i ← popRN;
  match i with
  | Some interrupt => r_anal_esil_fire_interrupt (s32 interrupt)
  | None => mret 0
  end.

(** ** Comparisons *)

(** The size a comparison works on: that of the register among the operands,
    the destination first, or 64. *)
Definition compare_size (dst src : string) : E Z :=
  r ← get_reg;
  if r_reg_get r dst (-1) is Some _ then esil_internal_sizeof_reg dst
  else if r_reg_get r src (-1) is Some _ then esil_internal_sizeof_reg src
  else mret 64.

Definition compare_op (result : Z -> Z -> Z -> bool) : E Z :=
  on_dst_src get_parm (fun dst src num num2 =>
    modify (set_old num) ;;
    modify (set_cur (u64 (num - num2))) ;;
    sz ← compare_size dst src;
    modify (set_lastsz sz) ;;
    push_ok (b2z (result num num2 sz))).

Definition esil_cmp : E Z := compare_op (fun num num2 _ => num =? num2).
Definition esil_smaller : E Z :=
  compare_op (fun num num2 sz => negb (num =? num2) && negb (signed_compare_gt num num2 sz)).
Definition esil_bigger : E Z := compare_op signed_compare_gt.
Definition esil_smaller_equal : E Z :=
  compare_op (fun num num2 sz => negb (signed_compare_gt num num2 sz)).
Definition esil_bigger_equal : E Z :=
  compare_op (fun num num2 sz => (num =? num2) || signed_compare_gt num num2 sz).

(** The result of [get_parm] is not checked: when it fails, [num] may still be
    the uninitialised local. *)
Definition esil_if : E Z :=
  src ← r_anal_esil_pop;
  match src with
  | Some src =>
      '(_, num) ← get_parm src;
      (if num =? 0 then modify (set_skip 1) else mret tt) ;;
      mret 1
  | None => mret 0
  end.

(** ** Shifts and rotations *)

Definition shift_op (f : Z -> Z -> option Z) : E Z :=
  on_dst_src get_parm (fun _ _ num num2 =>
    res ← lift UB_shift (f num num2);
    push_ok res).

(** The flags are set whatever the source is. *)
Definition shift_eq (f : Z -> Z -> option Z) : E Z :=
  on_dst_src reg_read_num (fun dst _ num num2 =>
    modify (set_old num) ;;
    res ← lift UB_shift (f num num2);
    modify (set_cur res) ;;
    sz ← esil_internal_sizeof_reg dst;
    modify (set_lastsz sz) ;;
    write_ok dst res).

Definition esil_lsl : E Z := shift_op shl64.
Definition esil_lsleq : E Z := shift_eq shl64.
Definition esil_lsr : E Z := shift_op shr64.
Definition esil_lsreq : E Z := shift_eq shr64.

Definition rotate_op (first second : Z -> Z -> option Z) : E Z :=
  dst ← r_anal_esil_pop;
  src ← r_anal_esil_pop;
  match dst with
  | None => mret 0
  | Some dst =>
      '(ok, num, regsize) ← r_anal_esil_get_parm_size dst indet_num (Some indet_num);
      if (ok : bool) then
        s ← operand get_parm src;
        match s with
        | None => mret 0
        | Some (_, num2) =>
            let mask := u64 (default indet_num regsize - 1) in
            let num2 := Z.land num2 mask in
            a ← lift UB_shift (first num num2);
            b ← lift UB_shift (second num (Z.land (u64 (- num2)) mask));
            push_ok (Z.lor a b)
        end
      else mret 0
  end.

Definition esil_ror : E Z := rotate_op shr64 shl64.
Definition esil_rol : E Z := rotate_op shl64 shr64.

Definition esil_and : E Z := on_dst_src get_parm (fun _ _ a b => push_ok (Z.land a b)).
Definition esil_xor : E Z := on_dst_src get_parm (fun _ _ a b => push_ok (Z.lxor a b)).
Definition esil_or : E Z := on_dst_src get_parm (fun _ _ a b => push_ok (Z.lor a b)).

(** ** Control *)

(** Printing is not modelled; only the result. *)
Definition r_anal_esil_dumpstack : E Z :=
  e ← gets id; mret (if stackptr e <? 1 then 0 else 1).

Definition esil_break : E Z := modify (set_parse_stop 1) ;; mret 1.
Definition esil_clear : E Z := modify (set_stack []) ;; mret 1.
Definition esil_todo : E Z := modify (set_parse_stop 2) ;; mret 1.

Definition esil_goto : E Z :=
  src ← r_anal_esil_pop;
  match src with
  | Some src =>
      '(ok, num) ← r_anal_esil_get_parm src 0;
      (if (ok : bool) then modify (set_parse_goto (s32 num)) else mret tt) ;;
      mret 1
  | None => mret 1
  end.

Definition esil_pop : E Z := r_anal_esil_pop ;; mret 1.

(** ** Arithmetic *)

Definition div_op (f : Z -> Z -> Z) : E Z :=
  on_src_dst get_parm (fun _ _ d s =>
    if s =? 0 then div_by_zero ;; mret 1 else push_ok (f d s)).

Definition div_eq (f : Z -> Z -> Z) : E Z :=
  on_src_dst reg_read_num (fun dst src d s =>
    if s =? 0 then div_by_zero ;; mret 1
    else set_result_unless_internal src d (f d s) dst ;; write_ok dst (f d s)).

Definition esil_mod : E Z := div_op Z.modulo.
Definition esil_modeq : E Z := div_eq Z.modulo.
Definition esil_div : E Z := div_op Z.div.
Definition esil_diveq : E Z := div_eq Z.div.

Definition arith_op (f : Z -> Z -> Z) : E Z :=
  on_src_dst get_parm (fun _ _ d s => push_ok (u64 (f d s))).

Definition arith_eq (f : Z -> Z -> Z) : E Z :=
  on_src_dst reg_read_num (fun dst src d s =>
    set_result_unless_internal src d (u64 (f d s)) dst ;;
    write_ok dst (u64 (f d s))).

Definition esil_mul : E Z := arith_op Z.mul.
Definition esil_muleq : E Z := arith_eq Z.mul.
Definition esil_add : E Z := arith_op Z.add.
Definition esil_addeq : E Z := arith_eq Z.add.
Definition esil_subeq : E Z := arith_eq Z.sub.

Definition unary_op (f : Z -> Z) : E Z :=
  src ← r_anal_esil_pop;
  s ← operand get_parm src;
  match s with
  | Some (_, s) => push_ok (u64 (f s))
  | None => mret 0
  end.

Definition esil_inc : E Z := unary_op (fun s => s + 1).
Definition esil_dec : E Z := unary_op (fun s => s - 1).

(** Only on a register; the size is taken after the write. *)
Definition unary_eq (f : Z -> Z) : E Z :=
  src_dst ← r_anal_esil_pop;
  match src_dst with
  | None => mret 0
  | Some src_dst =>
      ty ← r_anal_esil_get_parm_type src_dst;
      match ty with
      | PARM_REG =>
          '(ok, sd) ← get_parm src_dst;
          if (ok : bool) then
            modify (set_old sd) ;;
            modify (set_cur (u64 (f sd))) ;;
            r_anal_esil_reg_write src_dst (u64 (f sd)) ;;
            sz ← esil_internal_sizeof_reg src_dst;
            modify (set_lastsz sz) ;;
            mret 1
          else mret 0
      | _ => mret 0
      end
  end.

Definition esil_inceq : E Z := unary_eq (fun s => s + 1).
Definition esil_deceq : E Z := unary_eq (fun s => s - 1).

Definition esil_sub : E Z :=
  d ← popRN;
  match d with
  | None => mret 0
  | Some d =>
      s ← popRN;
      match s with
      | None => mret 0
      | Some s => push_ok (u64 (d - s))
      end
  end.

(** ** Memory *)

(** A handler with a width suffix. *)
Definition at_width (f : Z -> E Z) (w : width) : E Z :=
  match w with
  | W1 => f 8
  | W2 => f 16
  | W4 => f 32
  | W8 => f 64
  | Wbits => bits ← get_bits; f bits
  end.

Definition esil_poke_n (bits : Z) : E Z :=
  bitmask ← lift UB_shift (genmask (bits - 1));
  dst ← r_anal_esil_pop;
  src ← r_anal_esil_pop;
  let bytes := Z.min 8 (Z.quot bits 8) in
  if z2b (Z.rem bits 8) then mret 0
  else
    s ← operand get_parm src;
    match s with
    | None => mret 0
    | Some (src, num) =>
        d ← operand get_parm dst;
        match d with
        | None => mret 0
        | Some (_, addr) =>
            ty ← r_anal_esil_get_parm_type src;
            be ← get_big_endian;
            let b := indet 8 in
            '(num, b) ← (if parm_is_internal ty then mret (num, b)
                         else
                           '(_, b) ← r_anal_esil_mem_read addr b bytes;
                           let n := r_read_ble64 b be in
                           modify (set_old n) ;;
                           modify (set_cur num) ;;
                           modify (set_lastsz (u8 bits)) ;;
                           mret (Z.land num bitmask, b));
            r_anal_esil_mem_write addr (r_write_ble b num be bits) bytes
        end
    end.

Definition esil_poke : width -> E Z := at_width esil_poke_n.

(** The body of the loop of [esil_poke_some]: leave the function when the
    stack is exhausted. *)
Definition poke_some_step (bytes regsize : Z) (st : Z * list Z) : E ((Z * list Z) + Z) :=
  let '(ptr, b) := st in
  foo ← r_anal_esil_pop;
  match foo with
  | None => mret (inr 1)
  | Some foo =>
      '(_, num64) ← isregornum foo;
      be ← get_big_endian;
      let b := r_write_ble b num64 be regsize in
      ret ← r_anal_esil_mem_write ptr b bytes;
      (if ret =? bytes then mret tt else modify (set_trap 1)) ;;
      mret (inl (u64 (ptr + bytes), b))
  end.

(** [b] is an array of [bytes] bytes: a length of zero, or a store that does
    not fit, is undefined. *)
Definition esil_poke_some : E Z :=
  dst ← r_anal_esil_pop;
  match dst with
  | None => mret 0
  | Some dst =>
      '(ok, _, regsize) ← r_anal_esil_get_parm_size dst indet_num (Some indet_num);
      if (ok : bool) then
        let regsize := default indet_num regsize in
        let bytes := u8 (Z.quot regsize 8) in
        '(_, ptr) ← isregornum dst;
        count ← r_anal_esil_pop;
        match count with
        | None => mret 0
        | Some count =>
            '(_, regs) ← isregornum count;
            if regs >? 0 then
              if bytes =? 0 then undef UB_oob
              else
                r ← for_upto regs (poke_some_step bytes regsize)
                      (ptr, indet (Z.to_nat bytes));
                mret 1
            else mret 1
        end
      else mret 0
  end.

Definition esil_peek_n (bits : Z) : E Z :=
  dst ← r_anal_esil_pop;
  let bytes := Z.quot bits 8 in
  if z2b (Z.land bits 7) then mret 0
  else
    match dst with
    | None => mret 0
    | Some dst =>
        '(ok, addr) ← isregornum dst;
        if (ok : bool) then
          bitmask ← lift UB_shift (genmask (bits - 1));
          '(ret, a) ← r_anal_esil_mem_read addr (replicate 8 0) bytes;
          let b := r_read_ble64 a false in
          be ← get_big_endian;
          let b := if (be : bool)
                   then le_val (r_mem_swapendian (le_bytes 8 b) (le_bytes 8 b) bytes)
                   else b in
          r_anal_esil_push (fmt_0xllx (Z.land b bitmask)) ;;
          modify (set_lastsz (u8 bits)) ;;
          mret ret
        else mret 0
    end.

Definition esil_peek : width -> E Z := at_width esil_peek_n.

Definition peek_some_step (st : Z * list Z) : E ((Z * list Z) + Z) :=
  let '(ptr, a) := st in
  foo ← r_anal_esil_pop;
  match foo with
  | None => mret (inr 0)
  | Some foo =>
      '(ret, a) ← r_anal_esil_mem_read ptr a 4;
      be ← get_big_endian;
      (if ret =? 4 then r_anal_esil_reg_write foo (r_read_ble32 a be) ;; mret tt
       else mret tt) ;;
      mret (inl (u64 (ptr + 4), a))
  end.

Definition esil_peek_some : E Z :=
  dst ← r_anal_esil_pop;
  match dst with
  | None => mret 0
  | Some dst =>
      '(_, ptr) ← isregornum dst;
      count ← r_anal_esil_pop;
      match count with
      | None => mret 0
      | Some count =>
          '(_, regs) ← isregornum count;
          if regs >? 0 then
            r ← for_upto regs peek_some_step (ptr, indet 4);
            mret match r with inl _ => 1 | inr ret => ret end
          else mret 1
      end
  end.

(** ** Read, modify, write *)

(** Replace the value at [dst] by its [result]: the address is pushed for the read, then the
    result and the address for the write. *)
Definition mem_rmw (dst : string) (result : Z -> E Z) (bits : Z) : E Z :=
  r_anal_esil_push dst ;;
  ret ← esil_peek_n bits;
  src1 ← r_anal_esil_pop;
  d ← operand get_parm src1;
  match d with
  | None => mret 0
  | Some (_, d) =>
      d ← result d;
      r_anal_esil_pushnum d ;;
      r_anal_esil_push dst ;;
      ret' ← esil_poke_n bits;
      mret (Z.land (b2z (z2b ret)) (b2z (z2b ret')))
  end.

(** [body] gets the destination and the value of the source. *)
Definition mem_op (body : string -> Z -> E Z) : E Z :=
  dst ← r_anal_esil_pop;
  src0 ← r_anal_esil_pop;
  s ← operand get_parm src0;
  match s, dst with
  | Some (_, s), Some dst => body dst s
  | _, _ => mret 0
  end.

Definition mem_op_n (f : Z -> Z -> Z) (bits : Z) : E Z :=
  mem_op (fun dst s => mem_rmw dst (fun d => mret (f d s)) bits).

Definition esil_mem_oreq_n : Z -> E Z := mem_op_n Z.lor.
Definition esil_mem_xoreq_n : Z -> E Z := mem_op_n Z.lxor.
Definition esil_mem_andeq_n : Z -> E Z := mem_op_n Z.land.
Definition esil_mem_addeq_n : Z -> E Z := mem_op_n (fun d s => u64 (d + s)).
Definition esil_mem_subeq_n : Z -> E Z := mem_op_n (fun d s => u64 (d - s)).
Definition esil_mem_muleq_n : Z -> E Z := mem_op_n (fun d s => u64 (d * s)).

(** The remainder is pushed once more than it is consumed. *)
Definition esil_mem_modeq_n (bits : Z) : E Z :=
  mem_op (fun dst s =>
    if s =? 0 then div_by_zero ;; mret 0
    else mem_rmw dst (fun d => r_anal_esil_pushnum (d mod s) ;; mret (d mod s)) bits).

Definition esil_mem_diveq_n (bits : Z) : E Z :=
  mem_op (fun dst s =>
    if s =? 0 then div_by_zero ;; mret 0
    else mem_rmw dst (fun d => mret (d / s)) bits).

Definition esil_mem_oreq : width -> E Z := at_width esil_mem_oreq_n.
Definition esil_mem_xoreq : width -> E Z := at_width esil_mem_xoreq_n.
Definition esil_mem_andeq : width -> E Z := at_width esil_mem_andeq_n.
Definition esil_mem_addeq : width -> E Z := at_width esil_mem_addeq_n.
Definition esil_mem_subeq : width -> E Z := at_width esil_mem_subeq_n.
Definition esil_mem_modeq : width -> E Z := at_width esil_mem_modeq_n.
Definition esil_mem_diveq : width -> E Z := at_width esil_mem_diveq_n.

(** With the size of the machine, only the four power-of-two sizes work. *)
Definition esil_mem_muleq (w : width) : E Z :=
  match w with
  | Wbits =>
      bits ← get_bits;
      if (bits =? 64) || (bits =? 32) || (bits =? 16) || (bits =? 8)
      then esil_mem_muleq_n bits else mret 0
  | _ => at_width esil_mem_muleq_n w
  end.

Definition mem_unary_n (f : Z -> Z) (bits : Z) : E Z :=
  off ← r_anal_esil_pop;
  match off with
  | None => mret 0
  | Some off => mem_rmw off (fun s => mret (u64 (f s))) bits
  end.

Definition esil_mem_inceq_n : Z -> E Z := mem_unary_n (fun s => s + 1).
Definition esil_mem_deceq_n : Z -> E Z := mem_unary_n (fun s => s - 1).
Definition esil_mem_inceq : width -> E Z := at_width esil_mem_inceq_n.
Definition esil_mem_deceq : width -> E Z := at_width esil_mem_deceq_n.

(** ** The stack *)

Definition esil_num : E Z :=
  dup_me ← r_anal_esil_pop;
  match dup_me with
  | None => mret 0
  | Some dup_me =>
      '(ok, dup) ← get_parm dup_me;
      if (ok : bool) then b ← r_anal_esil_pushnum dup; mret (b2z b) else mret 0
  end.

Definition esil_dup : E Z :=
  e ← gets id;
  if (stackptr e <? 1) || (stackptr e >? stacksize e - 1) then mret 0
  else
    match stack e with
    | top :: _ => b ← r_anal_esil_push top; mret (b2z b)
    | [] => mret 0
    end.

Definition esil_swap : E Z :=
  e ← gets id;
  match stack e with
  | a :: b :: l => modify (set_stack (b :: a :: l)) ;; mret 1
  | _ => mret 0
  end.

(** [stack\[stackptr - i\]]: for 0 it is the slot of the index that was just
    popped, which still holds its string. *)
Definition pick_slot (idx : string) (i : Z) (e : RAnalEsil IO) : option string :=
  if i =? 0 then Some idx else stack e !! Z.to_nat (i - 1).

Definition __esil_generic_pick (rev : bool) : E Z :=
  idx ← r_anal_esil_pop;
  i ← operand get_parm idx;
  match i with
  | None => mret 0
  | Some (idx, i) =>
      e ← gets id;
      i ← (if rev then
             let j := stackptr e - s64 i in
             if (s64 i =? - 2 ^ 63) || (j >? 2 ^ 63 - 1) then undef UB_overflow
             else mret (u64 j)
           else mret i);
      if stackptr e <? i then mret 0
      else
        match pick_slot idx i e with
        | None => mret 0
        | Some s =>
            ok ← r_anal_esil_push s;
            if (ok : bool) then mret 1
            else modify (set_trap 1) ;; modify (set_trap_code 1) ;; mret 0
        end
  end.

Definition esil_pick : E Z := __esil_generic_pick false.
Definition esil_rpick : E Z := __esil_generic_pick true.

(** ** Dispatch *)

(** [op (esil)]. *)
Definition run_op (op : RAnalEsilOp) : E Z :=
  match op with
  | Op_interrupt => esil_interrupt
  | Op_cmp => esil_cmp
  | Op_smaller => esil_smaller
  | Op_bigger => esil_bigger
  | Op_smaller_equal => esil_smaller_equal
  | Op_bigger_equal => esil_bigger_equal
  | Op_if => esil_if
  | Op_lsl => esil_lsl
  | Op_lsleq => esil_lsleq
  | Op_lsr => esil_lsr
  | Op_lsreq => esil_lsreq
  | Op_ror => esil_ror
  | Op_rol => esil_rol
  | Op_and => esil_and
  | Op_andeq => esil_andeq
  | Op_nop => esil_nop
  | Op_or => esil_or
  | Op_oreq => esil_oreq
  | Op_neg => esil_neg
  | Op_negeq => esil_negeq
  | Op_eq => esil_eq
  | Op_mul => esil_mul
  | Op_muleq => esil_muleq
  | Op_xor => esil_xor
  | Op_xoreq => esil_xoreq
  | Op_add => esil_add
  | Op_addeq => esil_addeq
  | Op_inc => esil_inc
  | Op_inceq => esil_inceq
  | Op_sub => esil_sub
  | Op_subeq => esil_subeq
  | Op_dec => esil_dec
  | Op_deceq => esil_deceq
  | Op_div => esil_div
  | Op_diveq => esil_diveq
  | Op_mod => esil_mod
  | Op_modeq => esil_modeq
  | Op_poke w => esil_poke w
  | Op_mem_oreq w => esil_mem_oreq w
  | Op_mem_xoreq w => esil_mem_xoreq w
  | Op_mem_andeq w => esil_mem_andeq w
  | Op_mem_addeq w => esil_mem_addeq w
  | Op_mem_subeq w => esil_mem_subeq w
  | Op_mem_modeq w => esil_mem_modeq w
  | Op_mem_diveq w => esil_mem_diveq w
  | Op_mem_muleq w => esil_mem_muleq w
  | Op_mem_inceq w => esil_mem_inceq w
  | Op_mem_deceq w => esil_mem_deceq w
  | Op_peek w => esil_peek w
  | Op_peek_some => esil_peek_some
  | Op_poke_some => esil_poke_some
  | Op_dumpstack => r_anal_esil_dumpstack
  | Op_pop => esil_pop
  | Op_todo => esil_todo
  | Op_goto => esil_goto
  | Op_break => esil_break
  | Op_clear => esil_clear
  | Op_dup => esil_dup
  | Op_num => esil_num
  | Op_pick => esil_pick
  | Op_rpick => esil_rpick
  | Op_swap => esil_swap
  | Op_trap => esil_trap
  | Op_bits => esil_bits
  | Op_user n => user_op n
  end.

End Ops.
