(* ===== verification/EsilParse.v ===== *)
(** * The interpreter of ESIL expressions

    [libr/anal/esil.c], last part, and [esil_stats.c]: the operator table, the
    execution of one word, the loop over the comma-separated words with its
    gotos, and the creation and set-up of the machine.

    [esil->Reil], the state of the translator of [esil2reil.c], is null here. *)

From S2P Require Import Prelude Num Sdb Reg EsilState EsilOps.

(** ** The operator table *)

(** [r_anal_esil_setup_ops], in its order. *)
Definition with_widths (name : string) (op : width -> RAnalEsilOp) : list (string * RAnalEsilOp) :=
  [(String.append name "[]", op Wbits); (String.append name "[1]", op W1);
   (String.append name "[2]", op W2); (String.append name "[4]", op W4);
   (String.append name "[8]", op W8)]%string.

Definition setup_ops_table : list (string * RAnalEsilOp) :=
  ([("$", Op_interrupt); ("==", Op_cmp); ("<", Op_smaller); (">", Op_bigger);
    ("<=", Op_smaller_equal); (">=", Op_bigger_equal); ("?{", Op_if); ("<<", Op_lsl);
    ("<<=", Op_lsleq); (">>", Op_lsr); (">>=", Op_lsreq); (">>>", Op_ror); ("<<<", Op_rol);
    ("&", Op_and); ("&=", Op_andeq); ("}", Op_nop); ("|", Op_or); ("|=", Op_oreq);
    ("!", Op_neg); ("!=", Op_negeq); ("=", Op_eq); ("*", Op_mul); ("*=", Op_muleq);
    ("^", Op_xor); ("^=", Op_xoreq); ("+", Op_add); ("+=", Op_addeq); ("++", Op_inc);
    ("++=", Op_inceq); ("-", Op_sub); ("-=", Op_subeq); ("--", Op_dec); ("--=", Op_deceq);
    ("/", Op_div); ("/=", Op_diveq); ("%", Op_mod); ("%=", Op_modeq)]%string
   ++ with_widths "=" Op_poke ++ with_widths "|=" Op_mem_oreq
   ++ with_widths "^=" Op_mem_xoreq ++ with_widths "&=" Op_mem_andeq
   ++ with_widths "+=" Op_mem_addeq ++ with_widths "-=" Op_mem_subeq
   ++ with_widths "%=" Op_mem_modeq ++ with_widths "/=" Op_mem_diveq
   ++ with_widths "*=" Op_mem_muleq ++ with_widths "++=" Op_mem_inceq
   ++ with_widths "--=" Op_mem_deceq
   ++ [("[]", Op_peek Wbits); ("[*]", Op_peek_some); ("=[*]", Op_poke_some);
       ("[1]", Op_peek W1); ("[2]", Op_peek W2); ("[4]", Op_peek W4); ("[8]", Op_peek W8);
       ("STACK", Op_dumpstack); ("POP", Op_pop); ("TODO", Op_todo); ("GOTO", Op_goto);
       ("BREAK", Op_break); ("CLEAR", Op_clear); ("DUP", Op_dup); ("NUM", Op_num);
       ("PICK", Op_pick); ("RPICK", Op_rpick); ("SWAP", Op_swap); ("TRAP", Op_trap);
       ("BITS", Op_bits)]%string)%list.

(** [gotoWord]: the rest of the string from its [n]-th word on. *)
Fixpoint goto_from (str ostr : string) (count n : Z) : option string :=
  match str with
  | EmptyString => None
  | String _ str =>
      if count =? n then Some ostr
      else if is_char (char_at str 0) "," then goto_from str (str_drop 1 str) (count + 1) n
      else goto_from str ostr count n
  end.
Definition gotoWord (str : string) (n : Z) : option string := goto_from str str 0 n.

(** [strncat (word, c)]: one more character at the end. *)
Definition snoc (s : string) (c : ascii) : string := String.append s (String c EmptyString).

Section Parse.
Context {IO : Type} {Env : EsilEnv IO}.
Abbreviation E := (M (RAnalEsil IO)).

Definition op_key (word : string) : string := sdb_key16 (sdb_hash word).

Definition r_anal_esil_set_op (op : string) (code : RAnalEsilOp) : E bool :=
  if bool_decide (op = EmptyString) then mret false
  else modify (fun e => set_ops (<[op_key op := code]> (ops e)) e) ;; mret true.

Fixpoint set_ops_list (l : list (string * RAnalEsilOp)) : E unit :=
  match l with
  | [] => mret tt
  | (x, y) :: l => r_anal_esil_set_op x y ;; set_ops_list l
  end.
Definition r_anal_esil_setup_ops : E unit := set_ops_list setup_ops_table.

Definition iscommand (word : string) (e : RAnalEsil IO) : option RAnalEsilOp :=
  ops e !! op_key word.

(** ** One word *)

(** [op (esil)], after the hook of the client. *)
Definition run_command (word : string) (op : RAnalEsilOp) : E Z :=
  e ← gets id;
  r ← match hook_command (cb e) with
      | Hook_stats => stats_hook_command word
      | Hook_user => user_command word
      | Hook_null | Hook_NOP => mret 0
      end;
  if z2b r then mret 1 else run_op op.

Definition push_word (word : string) : E Z :=
  if bool_decide (word = EmptyString) || is_char (char_at word 0) "," then mret 1
  else
    ok ← r_anal_esil_push word;
    (if (ok : bool) then mret tt else modify (set_trap 1) ;; modify (set_trap_code 1)) ;;
    mret 1.

Definition runword (word : string) : E Z :=
  modify (fun e => set_parse_goto_count (parse_goto_count e - 1) e) ;;
  e ← gets id;
  if parse_goto_count e <? 1 then
    modify (set_trap 1) ;; modify (set_parse_stop 1) ;; mret 0
  else if String.eqb word "}{" then
    modify (set_skip (if z2b (skip e) then 0 else 1)) ;; mret 1
  else if String.eqb word "}" then modify (set_skip 0) ;; mret 1
  else if z2b (skip e) then mret 1
  else
    match iscommand word e with
    | Some op => run_command word op
    | None => push_word word
    end.

(** ** The loop *)

Inductive action : Set := A_loop | A_stop | A_continue | A_next.

(** 0: run again from the start, 1: stop, 2: continue at the string returned,
    3: go on to the next word. *)
Definition evalWord (ostr str : string) : E (action * string) :=
  e ← gets id;
  if negb (bool_decide (str = EmptyString)) && is_char (char_at str 1) ","
  then mret (A_continue, str)
  else if repeat e then mret (A_loop, str)
  else if negb (parse_goto e =? -1) then
    match gotoWord ostr (parse_goto e) with
    | Some str => modify (set_parse_goto (-1)) ;; mret (A_continue, str)
    | None => mret (A_stop, str)
    end
  else if z2b (parse_stop e) then mret (A_stop, str)
  else mret (A_next, str).

(** The state at the label [loop]. *)
Definition parse_reset : E unit :=
  modify (set_repeat false) ;;
  modify (set_skip 0) ;;
  modify (set_parse_goto (-1)) ;;
  modify (set_parse_stop 0) ;;
  modify (fun e => set_parse_goto_count (anal_esil_goto_limit (anal e)) e).

(** Run a complete word; [next] is what follows when the action is to go on. *)
Definition finish_word (ostr str word : string) (next : E (string * string + Z))
    : E (string * string + Z) :=
  r ← runword word;
  if r =? 0 then mret (inr 0)
  else
    '(a, str') ← evalWord ostr str;
    match a with
    | A_loop => parse_reset ;; mret (inl (ostr, EmptyString))
    | A_stop => mret (inr 0)
    | A_continue => mret (inl (str', EmptyString))
    | A_next => next
    end.

(** The character after a separator is taken without looking at it. *)
Definition take_char (str word : string) : string * string :=
  match str with
  | EmptyString => (EmptyString, word)
  | String c str => (str, snoc word c)
  end.

(** One turn of [while ( *str)], or what follows the loop: the state is the
    rest of the string and the word read so far. *)
Definition parse_step (ostr : string) (st : string * string) : E (string * string + Z) :=
  let '(str, word) := st in
  match str with
  | EmptyString =>
      if bool_decide (word = EmptyString) then mret (inr 1)
      else finish_word ostr str word (mret (inr 1))
  | String c rest =>
      if (62 <? String.length word)%nat then mret (inr (-1))
      else
        let semicolon := is_char c ";" in
        if semicolon || is_char c "," then
          if bool_decide (word = EmptyString) then mret (inl (take_char rest EmptyString))
          else
            finish_word ostr str word
              (if (semicolon : bool) then mret (inr 0) else mret (inl (take_char rest EmptyString)))
        else mret (inl (rest, snoc word c))
  end.

(** Enough turns: every turn either consumes a character or runs a word, and
    a machine runs less than [esil_goto_limit] words. *)
Definition parse_fuel (limit : Z) (str : string) : Z :=
  (Z.max 1 limit + 1) * (Z.of_nat (String.length str) + 2).

(** [None] is the expression that is still running after [parse_fuel] turns. *)
Definition r_anal_esil_parse (str : string) : E (option Z) :=
  if bool_decide (str = EmptyString) then mret (Some 0)
  else
    modify (set_trap 0) ;;
    parse_reset ;;
    limit ← gets (fun e => anal_esil_goto_limit (anal e));
    r ← for_upto (parse_fuel limit str) (parse_step str) (str, EmptyString);
    mret match r with inr ret => Some ret | inl _ => None end.

Definition r_anal_esil_condition (str : string) : E (option Z) :=
  ret ← r_anal_esil_parse (skip_blanks str);
  match ret with
  | None => mret None
  | Some _ =>
      popped ← r_anal_esil_pop;
      match popped with
      | None => mret (Some (-1))
      | Some popped =>
          '(ok, num) ← isregornum popped;
          mret (Some (if (ok : bool) then b2z (z2b num) else 0))
      end
  end.

(** ** Creation and set-up *)

Definition no_callbacks : RAnalEsilCallbacks :=
  mkCb Hook_null Hook_null Hook_null Acc_null Hook_null Acc_null Hook_null Acc_null
    Hook_null Acc_null.

(** [esil->anal] is null until [r_anal_esil_setup] stores it; here it is [a]
    from the start. *)
Definition r_anal_esil_new (a : RAnal IO) (stacksize : Z) (iotrap : bool)
    : option (RAnalEsil IO) :=
  if stacksize <? 3 then None
  else Some (mkEsil _ a [] stacksize 0 false iotrap false 0 0 R_ANAL_ESIL_GOTO_LIMIT
               0 0 0 0 0 0 0 0 0 ∅ ∅ None no_callbacks).

Definition r_anal_esil_mem_ro (mem_readonly : bool) : E unit :=
  modify (fun e =>
    let c := cb e in
    set_cb (mkCb (hook_flag_read c) (hook_command c) (hook_mem_read c) (mem_read c)
              (if mem_readonly then Hook_NOP else Hook_null) (mem_write c)
              (hook_reg_read c) (reg_read c) (hook_reg_write c) (reg_write c)) e).

Definition r_anal_esil_stats (enable : bool) : E unit :=
  modify (fun e =>
    let c := cb e in
    if enable then
      set_stats (Some [])
        (set_cb (mkCb Hook_stats Hook_stats Hook_stats (mem_read c) Hook_stats (mem_write c)
                   Hook_stats (reg_read c) Hook_stats (reg_write c)) e)
    else
      set_stats None
        (set_cb (mkCb Hook_null Hook_null (hook_mem_read c) (mem_read c) Hook_null
                   (mem_write c) (hook_reg_read c) (reg_read c) (hook_reg_write c)
                   (reg_write c)) e)).

Definition setup_accessors (nonull : bool) (c : RAnalEsilCallbacks) : RAnalEsilCallbacks :=
  let acc := if nonull then Acc_no_null else Acc_internal in
  mkCb (hook_flag_read c) (hook_command c) (hook_mem_read c) acc (hook_mem_write c) acc
    (hook_reg_read c) Acc_internal (hook_reg_write c) acc.

Definition r_anal_esil_setup (a : RAnal IO) (romem stats nonull : bool) : E Z :=
  modify (set_anal a) ;;
  modify (set_parse_goto_count (anal_esil_goto_limit a)) ;;
  modify (set_trap 0) ;;
  modify (set_trap_code 0) ;;
  modify (fun e => set_cb (setup_accessors nonull (cb e)) e) ;;
  r_anal_esil_mem_ro romem ;;
  r_anal_esil_stats stats ;;
  r_anal_esil_setup_ops ;;
  match plugin_init with Some f => f | None => mret 1 end.

End Parse.
