(* ===== verification/EsilFrame.v ===== *)
(** * What an operation can change

    The frame of the machine: no handler touches the tables, the callbacks,
    the execution budget or the configuration, and none overflows the stack.
    Client callbacks are only asked to respect the same frame. *)

From S2P Require Import Prelude Endian Mem Num Sdb Reg EsilState EsilOps EsilParse.

(** Decompose a program of the machine down to the lemmas in [steps]. *)
Ltac frame :=
  repeat first
    [ progress steps_step
    | solve [eauto with steps]
    | match goal with
      | H : match ?x with _ => _ end = Some ?m |- steps _ ?m => destruct x; simplify_eq
      end ].

Section Frame.
Context {IO : Type}.

(** The part of the state that operations leave alone. *)
Record same_frame (e e' : RAnalEsil IO) : Prop := {
  sf_stacksize : stacksize e' = stacksize e;
  sf_repeat : repeat e' = repeat e;
  sf_count : parse_goto_count e' = parse_goto_count e;
  sf_limit : anal_esil_goto_limit (anal e') = anal_esil_goto_limit (anal e);
  sf_bits : anal_bits (anal e') = anal_bits (anal e);
  sf_big_endian : anal_big_endian (anal e') = anal_big_endian (anal e);
  sf_address : address e' = address e;
  sf_nowrite : nowrite e' = nowrite e;
  sf_iotrap : iotrap e' = iotrap e;
  sf_ops : ops e' = ops e;
  sf_interrupts : interrupts e' = interrupts e;
  sf_cb : cb e' = cb e;
  sf_stack : stackptr e <= Z.max 0 (stacksize e) -> stackptr e' <= Z.max 0 (stacksize e');
}.

#[export] Instance same_frame_preorder : PreOrder same_frame.
Proof.
  split.
  - by intros e; split.
  - intros e1 e2 e3 [] []. split; try congruence; auto.
Qed.

(** The client respects the frame. *)
Class EnvFrame `{EsilEnv IO} : Prop := {
  ef_flag_read s n : steps same_frame (user_flag_read s n);
  ef_command s : steps same_frame (user_command s);
  ef_hook_mem_read a b n : steps same_frame (user_hook_mem_read a b n);
  ef_mem_read a b n : steps same_frame (user_mem_read a b n);
  ef_hook_mem_write a b n : steps same_frame (user_hook_mem_write a b n);
  ef_mem_write a b n : steps same_frame (user_mem_write a b n);
  ef_hook_reg_read s n z : steps same_frame (user_hook_reg_read s n z);
  ef_reg_read s n z : steps same_frame (user_reg_read s n z);
  ef_hook_reg_write s n : steps same_frame (user_hook_reg_write s n);
  ef_reg_write s n : steps same_frame (user_reg_write s n);
  ef_op n : steps same_frame (user_op n);
  ef_interrupt n i : steps same_frame (user_interrupt n i);
  ef_cmd_trap f t c : env_cmd_trap = Some f -> steps same_frame (f t c);
  ef_cmd_intr f t c : env_cmd_intr = Some f -> steps same_frame (f t c);
  ef_plugin_trap f t c : plugin_trap = Some f -> steps same_frame (f t c);
  ef_plugin_intr f t : plugin_intr = Some f -> steps same_frame (f t);
  ef_setab s : steps same_frame (setab s);
}.

Context {Env : EsilEnv IO} {EF : EnvFrame}.

Hint Resolve ef_flag_read ef_command ef_hook_mem_read ef_mem_read ef_hook_mem_write
  ef_mem_write ef_hook_reg_read ef_reg_read ef_hook_reg_write ef_reg_write ef_op
  ef_interrupt ef_cmd_trap ef_cmd_intr ef_plugin_trap ef_plugin_intr ef_setab : steps.

(** A write to a field outside the frame. *)
Lemma steps_field (f : RAnalEsil IO -> RAnalEsil IO) :
  (forall e, same_frame e (f e)) -> steps same_frame (modify f).
Proof. apply steps_modify. Qed.

Hint Extern 1 (steps same_frame (modify _)) =>
  apply steps_field; intros ?e; split; solve [reflexivity | auto] : steps.

Lemma frame_push s : steps same_frame (r_anal_esil_push s).
Proof.
  intros e. unfold r_anal_esil_push, gets, mbind, M_bind, modify, mret, M_ret, id.
  destruct (_ || _) eqn:E; [reflexivity|]. split; try reflexivity.
  unfold stackptr in *; simpl. intros _. apply orb_false_iff in E as [_ E]. lia.
Qed.

Lemma frame_pop : steps same_frame r_anal_esil_pop.
Proof.
  intros e. unfold r_anal_esil_pop, gets, mbind, M_bind, modify, mret, M_ret, id.
  destruct (stack e) eqn:E; [reflexivity|]. split; try reflexivity.
  unfold stackptr; simpl. rewrite E; simpl. lia.
Qed.
Hint Resolve frame_push frame_pop : steps.

Lemma frame_pushnum n : steps same_frame (r_anal_esil_pushnum n).
Proof. apply frame_push. Qed.

Lemma frame_stats_add k v : steps same_frame (stats_add k v).
Proof. apply steps_field. intros e. destruct (stats e); [case_match|]; by split. Qed.
Hint Resolve frame_pushnum frame_stats_add : steps.

Lemma frame_stats_add_num k v : steps same_frame (stats_add_num k v).
Proof. unfold stats_add_num. frame. Qed.
Hint Resolve frame_stats_add_num : steps.

Lemma frame_mem_read a b n : steps same_frame (r_anal_esil_mem_read a b n).
Proof.
  unfold r_anal_esil_mem_read, internal_esil_mem_read, internal_esil_mem_read_no_null,
    stats_hook_mem_read, fault, put_io. frame.
Qed.

Lemma frame_mem_write a b n : steps same_frame (r_anal_esil_mem_write a b n).
Proof.
  unfold r_anal_esil_mem_write, internal_esil_mem_write, internal_esil_mem_write_no_null,
    stats_hook_mem_write, hook_NOP_mem_write, fault, put_io. frame.
Qed.

Lemma frame_internal_read s n : steps same_frame (esil_internal_read s n).
Proof. unfold esil_internal_read, stats_hook_flag_read. frame. Qed.
Hint Resolve frame_mem_read frame_mem_write frame_internal_read : steps.

Lemma frame_reg_set_value r n : steps same_frame (reg_set_value r n).
Proof. unfold reg_set_value, get_reg, put_reg. frame. Qed.
Hint Resolve frame_reg_set_value : steps.

Lemma frame_reg_read s n z : steps same_frame (r_anal_esil_reg_read s n z).
Proof.
  unfold r_anal_esil_reg_read, internal_esil_reg_read, stats_hook_reg_read, get_bits, get_reg.
  frame.
Qed.
Hint Resolve frame_reg_read : steps.

(** The hook is null during the read and restored after it. *)
Lemma frame_reg_read_nocallback s n z :
  steps same_frame (r_anal_esil_reg_read_nocallback s n z).
Proof.
  intros e. unfold r_anal_esil_reg_read_nocallback, gets, mbind, M_bind, modify.
  pose proof (frame_reg_read s n z (set_hook_reg_read Hook_null e)) as H.
  destruct (r_anal_esil_reg_read _ _ _ _) as [r e'|]; [|done]. simpl.
  destruct H. split; try assumption.
  unfold set_hook_reg_read in *; simpl in *. rewrite sf_cb0. simpl. by destruct (cb e).
Qed.
Hint Resolve frame_reg_read_nocallback : steps.

Lemma frame_internal_write s n : steps same_frame (esil_internal_write s n).
Proof. unfold esil_internal_write. frame. Qed.
Hint Resolve frame_internal_write : steps.

Lemma frame_reg_write s n : steps same_frame (r_anal_esil_reg_write s n).
Proof.
  unfold r_anal_esil_reg_write, internal_esil_reg_write, internal_esil_reg_write_no_null,
    stats_hook_reg_write, get_reg. frame.
Qed.
Hint Resolve frame_reg_write : steps.

Lemma frame_parm_type s : steps same_frame (r_anal_esil_get_parm_type s).
Proof. unfold r_anal_esil_get_parm_type, get_reg. frame. Qed.
Hint Resolve frame_parm_type : steps.

Lemma frame_get_parm_size s n z : steps same_frame (r_anal_esil_get_parm_size s n z).
Proof. unfold r_anal_esil_get_parm_size, get_bits. frame. Qed.
Hint Resolve frame_get_parm_size : steps.

Lemma frame_get_parm s n : steps same_frame (r_anal_esil_get_parm s n).
Proof. unfold r_anal_esil_get_parm. frame. Qed.
Hint Resolve frame_get_parm : steps.

Lemma frame_isregornum s : steps same_frame (isregornum s).
Proof. unfold isregornum, isnum. frame. Qed.
Hint Resolve frame_isregornum : steps.

Lemma frame_popRN : steps same_frame popRN.
Proof. unfold popRN. frame. Qed.
Hint Resolve frame_popRN : steps.

Lemma frame_sizeof_reg s : steps same_frame (esil_internal_sizeof_reg s).
Proof. unfold esil_internal_sizeof_reg, get_reg. frame. Qed.
Hint Resolve frame_sizeof_reg : steps.

(** ** The shapes *)

Lemma frame_operand rd s :
  (forall x, steps same_frame (rd x)) -> steps same_frame (operand rd s).
Proof. intros. unfold operand. frame. Qed.

Lemma frame_parm s : steps same_frame (get_parm s).
Proof. apply frame_get_parm. Qed.
Lemma frame_reg_read_num s : steps same_frame (reg_read_num s).
Proof. unfold reg_read_num. frame. Qed.
Hint Resolve frame_operand frame_parm frame_reg_read_num : steps.

Lemma frame_on_dst_src rd body :
  (forall x, steps same_frame (rd x)) ->
  (forall d s n n2, steps same_frame (body d s n n2)) -> steps same_frame (on_dst_src rd body).
Proof. intros. unfold on_dst_src. frame. Qed.

Lemma frame_on_src_dst rd body :
  (forall x, steps same_frame (rd x)) ->
  (forall d s n n2, steps same_frame (body d s n n2)) -> steps same_frame (on_src_dst rd body).
Proof. intros. unfold on_src_dst. frame. Qed.

Lemma frame_set_result o c d : steps same_frame (set_result o c d).
Proof. unfold set_result. frame. Qed.
Hint Resolve frame_set_result : steps.

Lemma frame_set_result_unless s o c d : steps same_frame (set_result_unless_internal s o c d).
Proof. unfold set_result_unless_internal. frame. Qed.
Lemma frame_push_ok n : steps same_frame (push_ok n).
Proof. unfold push_ok. frame. Qed.
Lemma frame_write_ok d n : steps same_frame (write_ok d n).
Proof. unfold write_ok. frame. Qed.
Lemma frame_div_by_zero : steps same_frame div_by_zero.
Proof. unfold div_by_zero. frame. Qed.
Hint Resolve frame_set_result_unless frame_push_ok frame_write_ok frame_div_by_zero : steps.

Ltac shape :=
  first [apply frame_on_dst_src | apply frame_on_src_dst];
  [auto with steps | intros ? ? ? ?; frame].

Lemma frame_compare_op f : steps same_frame (compare_op f).
Proof. unfold compare_op, compare_size, get_reg. shape. Qed.
Lemma frame_logic_eq f : steps same_frame (logic_eq f).
Proof. unfold logic_eq. shape. Qed.
Lemma frame_shift_op f : steps same_frame (shift_op f).
Proof. unfold shift_op. shape. Qed.
Lemma frame_shift_eq f : steps same_frame (shift_eq f).
Proof. unfold shift_eq. shape. Qed.
Lemma frame_rotate_op f g : steps same_frame (rotate_op f g).
Proof. unfold rotate_op. frame. Qed.
Lemma frame_div_op f : steps same_frame (div_op f).
Proof. unfold div_op. shape. Qed.
Lemma frame_div_eq f : steps same_frame (div_eq f).
Proof. unfold div_eq. shape. Qed.
Lemma frame_arith_op f : steps same_frame (arith_op f).
Proof. unfold arith_op. shape. Qed.
Lemma frame_arith_eq f : steps same_frame (arith_eq f).
Proof. unfold arith_eq. shape. Qed.
Lemma frame_unary_op f : steps same_frame (unary_op f).
Proof. unfold unary_op. frame. Qed.
Lemma frame_unary_eq f : steps same_frame (unary_eq f).
Proof. unfold unary_eq. frame. Qed.
Hint Resolve frame_compare_op frame_logic_eq frame_shift_op frame_shift_eq frame_rotate_op
  frame_div_op frame_div_eq frame_arith_op frame_arith_eq frame_unary_op frame_unary_eq : steps.

Lemma frame_peek_n bits : steps same_frame (esil_peek_n bits).
Proof. unfold esil_peek_n, get_big_endian. frame. Qed.
Lemma frame_poke_n bits : steps same_frame (esil_poke_n bits).
Proof. unfold esil_poke_n, get_big_endian. frame. Qed.
Hint Resolve frame_peek_n frame_poke_n : steps.

Lemma frame_at_width f w :
  (forall b, steps same_frame (f b)) -> steps same_frame (at_width f w).
Proof. intros. unfold at_width, get_bits. frame. Qed.

Lemma frame_mem_rmw dst result bits :
  (forall d, steps same_frame (result d)) -> steps same_frame (mem_rmw dst result bits).
Proof. intros. unfold mem_rmw. frame. Qed.

Lemma frame_mem_op body :
  (forall d s, steps same_frame (body d s)) -> steps same_frame (mem_op body).
Proof. intros. unfold mem_op. frame. Qed.

Lemma frame_mem_op_n f bits : steps same_frame (mem_op_n f bits).
Proof. apply frame_mem_op. intros. apply frame_mem_rmw. intros. frame. Qed.

Lemma frame_mem_modeq_n bits : steps same_frame (esil_mem_modeq_n bits).
Proof.
  apply frame_mem_op. intros. case_match; [frame|]. apply frame_mem_rmw. intros. frame.
Qed.

Lemma frame_mem_diveq_n bits : steps same_frame (esil_mem_diveq_n bits).
Proof.
  apply frame_mem_op. intros. case_match; [frame|]. apply frame_mem_rmw. intros. frame.
Qed.

Lemma frame_mem_unary_n f bits : steps same_frame (mem_unary_n f bits).
Proof. unfold mem_unary_n. frame. apply frame_mem_rmw. intros. frame. Qed.
Hint Resolve frame_mem_op_n frame_mem_modeq_n frame_mem_diveq_n frame_mem_unary_n : steps.

Lemma frame_fire_trap t c : steps same_frame (r_anal_esil_fire_trap t c).
Proof. unfold r_anal_esil_fire_trap. frame. Qed.
Lemma frame_fire_interrupt i : steps same_frame (r_anal_esil_fire_interrupt i).
Proof. unfold r_anal_esil_fire_interrupt. frame. Qed.
Hint Resolve frame_fire_trap frame_fire_interrupt : steps.

Lemma frame_poke_some : steps same_frame esil_poke_some.
Proof. unfold esil_poke_some, poke_some_step, get_big_endian. frame. Qed.
Lemma frame_peek_some : steps same_frame esil_peek_some.
Proof. unfold esil_peek_some, peek_some_step, get_big_endian. frame. Qed.
Hint Resolve frame_poke_some frame_peek_some : steps.

Lemma frame_clear : steps same_frame esil_clear.
Proof. intros e. split; try reflexivity. unfold stackptr; simpl. lia. Qed.

Lemma frame_swap : steps same_frame esil_swap.
Proof.
  intros e. unfold esil_swap, gets, mbind, M_bind, modify, mret, M_ret, id.
  destruct (stack e) as [|a [|b l]] eqn:E; [reflexivity..|].
  split; try reflexivity. unfold stackptr; simpl. rewrite E; simpl. lia.
Qed.

Lemma frame_pick rev : steps same_frame (__esil_generic_pick rev).
Proof. unfold __esil_generic_pick. frame. Qed.
Hint Resolve frame_clear frame_swap frame_pick : steps.

Lemma frame_mem_or_n b : steps same_frame (esil_mem_oreq_n b).
Proof. apply frame_mem_op_n. Qed.
Lemma frame_mem_xor_n b : steps same_frame (esil_mem_xoreq_n b).
Proof. apply frame_mem_op_n. Qed.
Lemma frame_mem_and_n b : steps same_frame (esil_mem_andeq_n b).
Proof. apply frame_mem_op_n. Qed.
Lemma frame_mem_add_n b : steps same_frame (esil_mem_addeq_n b).
Proof. apply frame_mem_op_n. Qed.
Lemma frame_mem_sub_n b : steps same_frame (esil_mem_subeq_n b).
Proof. apply frame_mem_op_n. Qed.
Lemma frame_mem_mul_n b : steps same_frame (esil_mem_muleq_n b).
Proof. apply frame_mem_op_n. Qed.
Lemma frame_mem_inc_n b : steps same_frame (esil_mem_inceq_n b).
Proof. apply frame_mem_unary_n. Qed.
Lemma frame_mem_dec_n b : steps same_frame (esil_mem_deceq_n b).
Proof. apply frame_mem_unary_n. Qed.
Hint Resolve frame_mem_or_n frame_mem_xor_n frame_mem_and_n frame_mem_add_n frame_mem_sub_n
  frame_mem_mul_n frame_mem_inc_n frame_mem_dec_n : steps.

Lemma frame_interrupt : steps same_frame esil_interrupt.
Proof. unfold esil_interrupt. frame. Qed.
Lemma frame_if : steps same_frame esil_if.
Proof. unfold esil_if. frame. Qed.
Lemma frame_nop : steps same_frame esil_nop.
Proof. unfold esil_nop. frame. Qed.
Lemma frame_neg : steps same_frame esil_neg.
Proof. unfold esil_neg. frame. Qed.
Lemma frame_negeq : steps same_frame esil_negeq.
Proof. unfold esil_negeq. frame. Qed.
Lemma frame_eq : steps same_frame esil_eq.
Proof. unfold esil_eq. frame. Qed.
Lemma frame_sub : steps same_frame esil_sub.
Proof. unfold esil_sub. frame. Qed.
Lemma frame_dumpstack : steps same_frame r_anal_esil_dumpstack.
Proof. unfold r_anal_esil_dumpstack. frame. Qed.
Lemma frame_pop_op : steps same_frame esil_pop.
Proof. unfold esil_pop. frame. Qed.
Lemma frame_todo : steps same_frame esil_todo.
Proof. unfold esil_todo. frame. Qed.
Lemma frame_goto : steps same_frame esil_goto.
Proof. unfold esil_goto. frame. Qed.
Lemma frame_break : steps same_frame esil_break.
Proof. unfold esil_break. frame. Qed.
Lemma frame_dup : steps same_frame esil_dup.
Proof. unfold esil_dup. frame. Qed.
Lemma frame_num : steps same_frame esil_num.
Proof. unfold esil_num. frame. Qed.
Lemma frame_trap : steps same_frame esil_trap.
Proof. unfold esil_trap. frame. Qed.
Lemma frame_bits : steps same_frame esil_bits.
Proof. unfold esil_bits. frame. Qed.
Lemma frame_and : steps same_frame esil_and.
Proof. unfold esil_and. shape. Qed.
Lemma frame_or : steps same_frame esil_or.
Proof. unfold esil_or. shape. Qed.
Lemma frame_xor : steps same_frame esil_xor.
Proof. unfold esil_xor. shape. Qed.
Hint Resolve frame_interrupt frame_if frame_nop frame_neg frame_negeq frame_eq frame_sub
  frame_dumpstack frame_pop_op frame_todo frame_goto frame_break frame_dup frame_num
  frame_trap frame_bits frame_and frame_or frame_xor : steps.

Lemma frame_mem_muleq w : steps same_frame (esil_mem_muleq w).
Proof.
  unfold esil_mem_muleq, get_bits. frame; apply frame_at_width; auto with steps.
Qed.

(** Every handler stays in the frame. *)
Lemma frame_run_op op : steps same_frame (run_op op).
Proof.
  destruct op; cbn [run_op];
    try (lazymatch goal with w : width |- _ => idtac end;
         first [ apply frame_mem_muleq | apply frame_at_width; solve [auto with steps] ]);
    unfold esil_andeq, esil_oreq, esil_xoreq, esil_cmp, esil_smaller, esil_bigger,
      esil_smaller_equal, esil_bigger_equal, esil_lsl, esil_lsleq, esil_lsr, esil_lsreq,
      esil_ror, esil_rol, esil_mod, esil_modeq, esil_div, esil_diveq, esil_mul,
      esil_muleq, esil_add, esil_addeq, esil_subeq, esil_inc, esil_dec, esil_inceq,
      esil_deceq, esil_pick, esil_rpick;
    auto with steps.
Qed.

End Frame.

(** The frame lemmas, for the files that build on them. *)
#[export] Hint Resolve ef_flag_read ef_command ef_hook_mem_read ef_mem_read
  ef_hook_mem_write ef_mem_write ef_hook_reg_read ef_reg_read ef_hook_reg_write
  ef_reg_write ef_op ef_interrupt ef_cmd_trap ef_cmd_intr ef_plugin_trap ef_plugin_intr
  ef_setab frame_push frame_pop frame_pushnum frame_stats_add frame_stats_add_num
  frame_mem_read frame_mem_write frame_internal_read frame_reg_set_value frame_reg_read
  frame_reg_read_nocallback frame_internal_write frame_reg_write frame_parm_type
  frame_get_parm_size frame_get_parm frame_isregornum frame_popRN frame_sizeof_reg
  frame_operand frame_parm frame_reg_read_num frame_set_result frame_set_result_unless
  frame_push_ok frame_write_ok frame_div_by_zero frame_compare_op frame_logic_eq
  frame_shift_op frame_shift_eq frame_rotate_op frame_div_op frame_div_eq frame_arith_op
  frame_arith_eq frame_unary_op frame_unary_eq frame_peek_n frame_poke_n frame_mem_op_n
  frame_mem_modeq_n frame_mem_diveq_n frame_mem_unary_n frame_fire_trap
  frame_fire_interrupt frame_poke_some frame_peek_some frame_clear frame_swap frame_pick
  frame_mem_or_n frame_mem_xor_n frame_mem_and_n frame_mem_add_n frame_mem_sub_n
  frame_mem_mul_n frame_mem_inc_n frame_mem_dec_n frame_interrupt frame_if frame_nop
  frame_neg frame_negeq frame_eq frame_sub frame_dumpstack frame_pop_op frame_todo
  frame_goto frame_break frame_dup frame_num frame_trap frame_bits frame_and frame_or
  frame_xor frame_run_op : steps.
#[export] Hint Extern 1 (steps same_frame (modify _)) =>
  apply steps_field; intros ?e; split; solve [reflexivity | auto] : steps.
