(* ===== verification/EsilDemo.v ===== *)
(** * A concrete machine

    An environment without client callbacks over a flat memory, and a machine
    set up on the small register file of [Reg.demo_reg]: where the theorems
    are applied and the definitions evaluated. *)

From S2P Require Import Prelude Num Sdb Reg EsilState EsilOps EsilParse.

(** A flat 64-bit memory: every address is mapped, unwritten bytes are 0. *)
Definition flat : Type := gmap Z Z.
Definition flat_get (m : flat) (a : Z) : Z := u8 (default 0 (m !! u64 a)).
Fixpoint flat_put (m : flat) (a : Z) (b : list Z) : flat :=
  match b with [] => m | x :: b => flat_put (<[u64 a := u8 x]> m) (a + 1) b end.
Definition flat_dump (m : flat) (a : Z) (n : nat) : list Z :=
  map (fun i => flat_get m (a + Z.of_nat i)) (seq 0 n).

Definition flat_read_at (m : flat) (a : Z) (buf : list Z) (len : Z) : Z * list Z * flat :=
  (len, blit (flat_dump m a (Z.to_nat len)) buf, m).
Definition flat_write_at (m : flat) (a : Z) (buf : list Z) (len : Z) : Z * flat :=
  (len, flat_put m a (take (Z.to_nat len) buf)).

(** The environment of a machine without client callbacks nor plugin over the
    accesses of an i/o layer. *)
Definition bare_env {IO} (read_at : IO -> Z -> list Z -> Z -> Z * list Z * IO)
    (write_at : IO -> Z -> list Z -> Z -> Z * IO) : EsilEnv IO := {|
  io_read_at := read_at;
  io_write_at := write_at;
  indet_num := 0xdead;
  indet_bytes := replicate 16 0xcc;
  user_flag_read _ n := mret (0, n);
  user_command _ := mret 0;
  user_hook_mem_read _ b _ := mret (0, b);
  user_mem_read _ b _ := mret (0, b);
  user_hook_mem_write _ _ _ := mret 0;
  user_mem_write _ _ _ := mret 0;
  user_hook_reg_read _ n s := mret (0, n, s);
  user_reg_read _ n s := mret (0, n, s);
  user_hook_reg_write _ n := mret (0, n);
  user_reg_write _ _ := mret 0;
  user_op _ := mret 0;
  user_interrupt _ _ := mret 0;
  env_cmd_trap := None;
  env_cmd_intr := None;
  plugin_trap := None;
  plugin_intr := None;
  plugin_init := None;
  setab _ := mret tt;
|}.

#[export] Instance flat_env : EsilEnv flat := bare_env flat_read_at flat_write_at.

(** A machine set up on [demo_reg] over an i/o layer:
    [r_anal_esil_new (32, 0)] and [r_anal_esil_setup (esil, anal, 0, 0, 0)]. *)
Definition machine_anal {IO} (io : IO) : RAnal IO := mkAnal _ 64 false 4096 demo_reg (Some io).
Definition machine {IO} `{EsilEnv IO} (io : IO) : RAnalEsil IO :=
  match r_anal_esil_new (machine_anal io) 32 false with
  | Some e => match r_anal_esil_setup (machine_anal io) false false false e with
              | Ok _ e => e
              | Undef _ => e
              end
  | None => mkEsil _ (machine_anal io) [] 0 0 false false false 0 0 0 0 0 0 0 0 0 0 0 0 ∅ ∅ None
              no_callbacks
  end.

Definition demo_anal : RAnal flat := machine_anal ∅.
Definition demo_esil : RAnalEsil flat := machine ∅.

(** The result and the stack an expression leaves on that machine. *)
Definition demo_run (expr : string) : option (option Z * list string) :=
  match r_anal_esil_parse expr demo_esil with
  | Ok r e => Some (r, stack e)
  | Undef _ => None
  end.

Example demo_add : demo_run "2,3,+" = Some (Some 1, ["0x5"%string]).
Proof. vm_compute. reflexivity. Qed.
Example demo_reg_write : demo_run "0x1234,rax,=,al,rax,-" = Some (Some 1, ["0x1200"%string]).
Proof. vm_compute. reflexivity. Qed.
Example demo_mem : demo_run "0xcafe,0x100,=[2],0x100,[4]" = Some (Some 1, ["0xcafe"%string]).
Proof. vm_compute. reflexivity. Qed.
Example demo_if : demo_run "0,?{,1,}{,2,}" = Some (Some 1, ["2"%string]).
Proof. vm_compute. reflexivity. Qed.
Example demo_loop : demo_run "rax,++=,5,rax,<,?{,0,GOTO,},rax" = Some (Some 1, ["rax"%string]).
Proof. vm_compute. reflexivity. Qed.
Example demo_lost_word : demo_run "1,,2,+" = Some (Some 0, []).
Proof. vm_compute. reflexivity. Qed.
