(* ===== verification/EsilFlags.v ===== *)
(** * The internal flags of ESIL

    [$z], [$c], [$b], [$p], [$s] and [$o] are computed from the last result
    [cur], the value before it [old] and the operand size [lastsz].  Here they
    are related to what a processor calls zero, carry, borrow, parity, sign
    and overflow. *)

From S2P Require Import Prelude Num Sdb Reg EsilState EsilOps EsilParse EsilDemo.

(** ** Masks *)

Lemma genmask_spec n : 0 <= n <= 63 -> genmask n = Some (2 ^ (n + 1) - 1).
Proof.
  intros Hn. unfold genmask.
  destruct (Z.ltb_spec n 0); [lia|]. rewrite Z.gtb_ltb. destruct (Z.ltb_spec 63 n); [lia|].
  cbn [orb]. f_equal. rewrite Z.shiftl_mul_pow2 by lia.
  rewrite <- Z.pow_succ_r by lia. replace (Z.succ n) with (n + 1) by lia.
  destruct (decide (n = 63)) as [->|].
  - reflexivity.
  - assert (2 ^ (n + 1) <= 2 ^ 63) by (apply Z.pow_le_mono_r; lia).
    assert (0 < 2 ^ (n + 1)) by (apply Z.pow_pos_nonneg; lia).
    assert (2 ^ 1 <= 2 ^ (n + 1)) by (apply Z.pow_le_mono_r; lia).
    rewrite (u64_id (2 ^ (n + 1))) by lia. rewrite u64_id by lia.
    destruct (Z.eqb_spec (2 ^ (n + 1) - 1) 0); lia.
Qed.

Lemma land_genmask x n m : genmask n = Some m -> Z.land x m = x mod 2 ^ (n + 1).
Proof.
  intros H. assert (0 <= n <= 63) as Hn.
  { unfold genmask in H. destruct (Z.ltb_spec n 0); [done|].
    rewrite Z.gtb_ltb in H. destruct (Z.ltb_spec 63 n); [done|lia]. }
  rewrite genmask_spec in H by done. simplify_eq. apply pow2_mod_land. lia.
Qed.

Section Flags.
Context {IO : Type}.
Implicit Types e : RAnalEsil IO.

Lemma carry_check_spec bit e :
  0 <= bit <= 63 ->
  esil_internal_carry_check bit e
  = Some (cur e mod 2 ^ (bit + 1) <? old e mod 2 ^ (bit + 1)).
Proof.
  intros Hb. unfold esil_internal_carry_check. rewrite genmask_spec by done. cbn [mbind option_bind].
  by rewrite !pow2_mod_land by lia.
Qed.

Lemma borrow_check_spec n e :
  1 <= n <= 64 ->
  esil_internal_borrow_check n e = Some (old e mod 2 ^ n <? cur e mod 2 ^ n).
Proof.
  intros Hn. unfold esil_internal_borrow_check.
  assert (Z.land (Z.land n 0x3f + 0x3f) 0x3f = n - 1) as ->.
  { change 0x3f with (2 ^ 6 - 1). rewrite !pow2_mod_land by lia. zlia. }
  rewrite genmask_spec by lia. cbn [mbind option_bind].
  rewrite !pow2_mod_land by lia. by replace (n - 1 + 1) with n by lia.
Qed.

(** Wrap-around in [w] bits, seen from the result. *)
Lemma add_carry w x y :
  0 <= w -> ((x + y) mod 2 ^ w <? x mod 2 ^ w) = (2 ^ w <=? x mod 2 ^ w + y mod 2 ^ w).
Proof.
  intros Hw. assert (0 < 2 ^ w) by (apply Z.pow_pos_nonneg; lia).
  rewrite Z.add_mod by lia.
  pose proof (Z.mod_pos_bound x (2 ^ w)). pose proof (Z.mod_pos_bound y (2 ^ w)).
  generalize dependent (x mod 2 ^ w). generalize dependent (y mod 2 ^ w).
  intros b Hb a Ha. destruct (Z.leb_spec (2 ^ w) (a + b)).
  - replace ((a + b) mod 2 ^ w) with (a + b - 2 ^ w) by (apply (Z.mod_unique _ _ 1); lia).
    apply Z.ltb_lt. lia.
  - rewrite Z.mod_small by lia. apply Z.ltb_ge. lia.
Qed.

Lemma sub_borrow w x y :
  0 <= w -> (x mod 2 ^ w <? (x - y) mod 2 ^ w) = (x mod 2 ^ w <? y mod 2 ^ w).
Proof.
  intros Hw. assert (0 < 2 ^ w) by (apply Z.pow_pos_nonneg; lia).
  rewrite Zminus_mod.
  pose proof (Z.mod_pos_bound x (2 ^ w)). pose proof (Z.mod_pos_bound y (2 ^ w)).
  generalize dependent (x mod 2 ^ w). generalize dependent (y mod 2 ^ w).
  intros b Hb a Ha. destruct (Z.ltb_spec a b).
  - replace ((a - b) mod 2 ^ w) with (a - b + 2 ^ w) by (apply (Z.mod_unique _ _ (-1)); lia).
    apply Z.ltb_lt. lia.
  - rewrite Z.mod_small by lia. apply Z.ltb_ge. lia.
Qed.

(** Signed overflow of the sum: the carries into and out of the top bit
    differ. *)
Definition add_overflows (w x y : Z) : bool :=
  negb (swrap w (x + y) =? swrap w x + swrap w y).
Definition sub_overflows (w x y : Z) : bool :=
  negb (swrap w (x - y) =? swrap w x - swrap w y).

Lemma pow2_half w : 0 < w -> 2 ^ w = 2 * 2 ^ (w - 1) /\ 0 < 2 ^ (w - 1).
Proof.
  intros. split; [rewrite <- Z.pow_succ_r by lia; f_equal; lia|]. apply Z.pow_pos_nonneg; lia.
Qed.

(** The remainder by half the modulus. *)
Lemma mod_half w x :
  0 < w -> x mod 2 ^ (w - 1)
  = if x mod 2 ^ w <? 2 ^ (w - 1) then x mod 2 ^ w else x mod 2 ^ w - 2 ^ (w - 1).
Proof.
  intros Hw. destruct (pow2_half w Hw) as [E P].
  rewrite <- (mod_mod_pow2 x (w - 1) w) by lia.
  pose proof (Z.mod_pos_bound x (2 ^ w) ltac:(lia)).
  destruct (Z.ltb_spec (x mod 2 ^ w) (2 ^ (w - 1))); [apply Z.mod_small; lia|].
  symmetry. apply (Z.mod_unique _ _ 1); lia.
Qed.

Lemma add_mod_cases m x y :
  0 < m -> (x + y) mod m
  = if m <=? x mod m + y mod m then x mod m + y mod m - m else x mod m + y mod m.
Proof.
  intros Hm. rewrite Z.add_mod by lia.
  pose proof (Z.mod_pos_bound x m Hm). pose proof (Z.mod_pos_bound y m Hm).
  destruct (Z.leb_spec m (x mod m + y mod m)); [|apply Z.mod_small; lia].
  symmetry. apply (Z.mod_unique _ _ 1); lia.
Qed.

Ltac split_cmp :=
  repeat match goal with
  | |- context [?u <? ?v] => destruct (Z.ltb_spec u v); try lia
  | |- context [?u <=? ?v] => destruct (Z.leb_spec u v); try lia
  | |- context [?u =? ?v] => destruct (Z.eqb_spec u v); try lia
  end.

Lemma add_overflow_carries w x y :
  0 < w ->
  xorb ((x + y) mod 2 ^ w <? x mod 2 ^ w) ((x + y) mod 2 ^ (w - 1) <? x mod 2 ^ (w - 1))
  = add_overflows w x y.
Proof.
  intros Hw. rewrite !add_carry by lia. unfold add_overflows, swrap.
  destruct (pow2_half w Hw) as [E P].
  rewrite !(mod_half w), add_mod_cases by lia.
  pose proof (Z.mod_pos_bound x (2 ^ w) ltac:(lia)). pose proof (Z.mod_pos_bound y (2 ^ w) ltac:(lia)).
  generalize dependent (x mod 2 ^ w). generalize dependent (y mod 2 ^ w). intros Y HY X HX.
  cbv zeta. split_cmp; try reflexivity.
Qed.

(** A subtraction is computed as an addition of the negation; both overflow
    together, except for the smallest value, which is its own negation. *)
Lemma neg_overflows w x y :
  0 < w ->
  add_overflows w x (- y) = xorb (sub_overflows w x y) (y mod 2 ^ w =? 2 ^ (w - 1)).
Proof.
  intros Hw. unfold add_overflows, sub_overflows. rewrite Z.add_opp_r.
  destruct (pow2_half w Hw) as [E P].
  assert ((- y) mod 2 ^ w = if y mod 2 ^ w =? 0 then 0 else 2 ^ w - y mod 2 ^ w) as Hn.
  { destruct (Z.eqb_spec (y mod 2 ^ w) 0); [apply Z_mod_zero_opp_full; lia|].
    apply Z_mod_nz_opp_full; lia. }
  unfold swrap. rewrite Hn. replace (x - y) with (x + - y) by lia.
  rewrite add_mod_cases, Hn by lia.
  pose proof (Z.mod_pos_bound x (2 ^ w) ltac:(lia)). pose proof (Z.mod_pos_bound y (2 ^ w) ltac:(lia)).
  generalize dependent (x mod 2 ^ w). generalize dependent (y mod 2 ^ w). intros Y HY Hn X HX.
  cbv zeta. clear HY. destruct (Z.eqb_spec Y 0); split_cmp; try reflexivity.
Qed.

Lemma land_1_odd x : z2b (Z.land x 1) = Z.odd x.
Proof.
  change 1 with (Z.ones 1). rewrite Z.land_ones by lia. change (2 ^ 1) with 2.
  rewrite Zmod_odd. by destruct (Z.odd x).
Qed.

(** A property of bytes that a computation decides. *)
Lemma forall_byte (f : Z -> bool) b :
  forallb f (seqZ 0 256) = true -> 0 <= b < 2 ^ 8 -> f b = true.
Proof.
  rewrite forallb_forall. intros H Hb. apply H, list_elem_of_In, elem_of_seqZ. lia.
Qed.

(** The number of ones in the low byte. *)
Definition popcount8 (x : Z) : Z :=
  foldr Z.add 0 (map (fun i => Z.b2z (Z.testbit x i)) (seqZ 0 8)).

Lemma parity_spec e : esil_internal_parity_check e = Z.even (popcount8 (cur e)).
Proof.
  unfold esil_internal_parity_check. change 0xff with (2 ^ 8 - 1). rewrite pow2_mod_land by lia.
  assert (popcount8 (cur e) = popcount8 (cur e mod 2 ^ 8)) as ->.
  { unfold popcount8. f_equal. apply map_ext_in. intros i Hi%list_elem_of_In%elem_of_seqZ.
    by rewrite Z.mod_pow2_bits_low by lia. }
  apply eqb_prop. pose proof (Z.mod_pos_bound (cur e) (2 ^ 8) ltac:(lia)) as Hb.
  revert Hb. generalize (cur e mod 2 ^ 8). clear. intros b.
  apply (forall_byte (fun b => eqb
    (negb (z2b (Z.land (Z.land (u64 (b * 0x0101010101010101)) 0x8040201008040201 mod 0x1FF) 1)))
    (Z.even (popcount8 b)))).
  vm_compute. reflexivity.
Qed.

(** What an internal variable reads. *)
Definition internal_is (name : string) e (b : bool) : Prop :=
  esil_internal_value name e = Some (Some (b2z b)).

(** The flags of a [w]-bit result: [$z] is set when its low [w] bits are
    zero, [$s] is its top bit, and [$p] is set when its low byte has an even
    number of ones. *)
Theorem esil_flags_of_result e :
  1 <= lastsz e <= 64 ->
  internal_is "$z" e (cur e mod 2 ^ lastsz e =? 0)
  /\ internal_is "$s" e (Z.testbit (cur e) (lastsz e - 1))
  /\ internal_is "$p" e (Z.even (popcount8 (cur e))).
Proof.
  intros Hw. unfold internal_is, esil_internal_value. split_and!.
  - cbn. rewrite genmask_spec by lia. cbn [mbind option_bind].
    rewrite pow2_mod_land by lia. do 3 f_equal. f_equal. f_equal. f_equal. lia.
  - cbn. unfold esil_internal_sign_check.
    destruct (Z.eqb_spec (lastsz e) 0); [lia|]. rewrite Z.gtb_ltb.
    destruct (Z.ltb_spec 63 (lastsz e - 1)); [lia|]. cbn [mbind option_bind]. do 3 f_equal.
    by rewrite land_1_odd, Z.testbit_odd.
  - cbn. by rewrite parity_spec.
Qed.

(** After an addition, [cur = old + s], [$c<n>] is the carry out of the
    low [n + 1] bits, and [$o] is the signed overflow at the operand size. *)
Theorem esil_flags_of_addition e s :
  cur e = u64 (old e + s) -> 1 <= lastsz e <= 64 ->
  (forall bit, 0 <= bit <= 63 -> esil_internal_carry_check bit e
     = Some (2 ^ (bit + 1) <=? old e mod 2 ^ (bit + 1) + s mod 2 ^ (bit + 1)))
  /\ (2 <= lastsz e -> internal_is "$o" e (add_overflows (lastsz e) (old e) s)).
Proof.
  intros Hc Hw.
  assert (forall n, 0 <= n <= 64 -> cur e mod 2 ^ n = (old e + s) mod 2 ^ n) as Hm.
  { intros n Hn. rewrite Hc. by apply mod_mod_pow2. }
  split.
  - intros bit Hb. rewrite carry_check_spec, Hm, add_carry by lia. done.
  - intros Hl. unfold internal_is, esil_internal_value. cbn. unfold esil_internal_overflow_check.
    destruct (Z.ltb_spec (lastsz e) 2); [lia|].
    rewrite !carry_check_spec by lia. cbn [mbind option_bind].
    rewrite !Hm by lia. replace (lastsz e - 1 + 1) with (lastsz e) by lia.
    replace (lastsz e - 2 + 1) with (lastsz e - 1) by lia.
    by rewrite add_overflow_carries by lia.
Qed.

(** C26: after a subtraction, [cur = old - s], [$b<n>] is the borrow into the
    low [n] bits; [$o] is the signed overflow, inverted when the value
    subtracted is the smallest one of the size. *)
Theorem esil_flags_of_subtraction e s :
  cur e = u64 (old e - s) -> 1 <= lastsz e <= 64 ->
  (forall n, 1 <= n <= 64 ->
     esil_internal_borrow_check n e = Some (old e mod 2 ^ n <? s mod 2 ^ n))
  /\ (2 <= lastsz e -> internal_is "$o" e
       (xorb (sub_overflows (lastsz e) (old e) s)
             (s mod 2 ^ lastsz e =? 2 ^ (lastsz e - 1)))).
Proof.
  intros Hc Hw.
  assert (forall n, 0 <= n <= 64 -> cur e mod 2 ^ n = (old e - s) mod 2 ^ n) as Hm.
  { intros n Hn. rewrite Hc. by apply mod_mod_pow2. }
  split.
  - intros n Hn. rewrite borrow_check_spec, Hm, sub_borrow by lia. done.
  - intros Hl. unfold internal_is, esil_internal_value. cbn. unfold esil_internal_overflow_check.
    destruct (Z.ltb_spec (lastsz e) 2); [lia|].
    rewrite !carry_check_spec by lia. cbn [mbind option_bind].
    rewrite !Hm by lia. replace (lastsz e - 1 + 1) with (lastsz e) by lia.
    replace (lastsz e - 2 + 1) with (lastsz e - 1) by lia.
    rewrite <- Z.add_opp_r, add_overflow_carries, neg_overflows by lia. done.
Qed.

End Flags.

(** ** Applied to the machine of [EsilDemo] *)

Definition flag_state (o c sz : Z) : RAnalEsil flat := set_lastsz sz (set_cur c (set_old o demo_esil)).

Lemma esil_flags_of_result_witness :
  let e := flag_state 0 0x80 8 in
  internal_is "$z" e (cur e mod 2 ^ lastsz e =? 0)
  /\ internal_is "$s" e (Z.testbit (cur e) (lastsz e - 1))
  /\ internal_is "$p" e (Z.even (popcount8 (cur e))).
Proof. intros e. apply esil_flags_of_result. vm_compute. by split. Defined.

Lemma esil_flags_of_addition_witness :
  let e := flag_state 0x7f 0x80 8 in
  (forall bit, 0 <= bit <= 63 -> esil_internal_carry_check bit e
     = Some (2 ^ (bit + 1) <=? old e mod 2 ^ (bit + 1) + 1 mod 2 ^ (bit + 1)))
  /\ (2 <= lastsz e -> internal_is "$o" e (add_overflows (lastsz e) (old e) 1)).
Proof. intros e. apply esil_flags_of_addition; vm_compute; [done|by split]. Defined.

Lemma esil_flags_of_subtraction_witness :
  let e := flag_state 0 (2 ^ 64 - 0x80) 8 in
  (forall n, 1 <= n <= 64 ->
     esil_internal_borrow_check n e = Some (old e mod 2 ^ n <? 0x80 mod 2 ^ n))
  /\ (2 <= lastsz e -> internal_is "$o" e
       (xorb (sub_overflows (lastsz e) (old e) 0x80)
             (0x80 mod 2 ^ lastsz e =? 2 ^ (lastsz e - 1)))).
Proof. intros e. apply esil_flags_of_subtraction; vm_compute; [done|by split]. Defined.
