(* ===== verification/EsilParseFacts.v ===== *)
(** * Properties of the interpreter

    Every expression ends within its budget and within the stack; how words
    are told apart; the operator table; the calculations of the flags. *)

From S2P Require Import Prelude Endian Mem Num Sdb Reg EsilState EsilOps EsilParse EsilFrame EsilDemo.

(** ** Termination *)

Lemma length_snoc s c : String.length (snoc s c) = S (String.length s).
Proof. unfold snoc. induction s as [|a s IH]; simpl; [done|]. by rewrite IH. Qed.

Lemma length_str_drop i s : (String.length (str_drop i s) <= String.length s)%nat.
Proof.
  revert i. induction s as [|c s IH]; intros [|i]; simpl; try lia. specialize (IH i). lia.
Qed.

Lemma goto_from_length str ostr count n str' :
  goto_from str ostr count n = Some str' ->
  (String.length str' <= String.length ostr \/ String.length str' <= String.length str)%nat.
Proof.
  revert ostr count. induction str as [|c str IH]; intros ostr count; [done|].
  cbn [goto_from String.length]. destruct (count =? n); [intros [= ->]; by left|].
  pose proof (length_str_drop 1 str).
  destruct (is_char _ _); intros H'%IH; lia.
Qed.

Lemma gotoWord_length str n str' :
  gotoWord str n = Some str' -> (String.length str' <= String.length str)%nat.
Proof. intros H%goto_from_length. lia. Qed.

Section Total.
Context {IO : Type} {Env : EsilEnv IO} {EF : EnvFrame}.
Implicit Types e : RAnalEsil IO.

Lemma frame_run_command word op : steps (@same_frame IO) (run_command word op).
Proof. unfold run_command, stats_hook_command. frame. Qed.

Lemma frame_push_word word : steps (@same_frame IO) (push_word word).
Proof. unfold push_word. frame. Qed.

(** One word costs one unit of the budget. *)
Lemma runword_spec word e :
  match runword word e with
  | Ok r e' =>
      repeat e' = repeat e /\ parse_goto_count e' = parse_goto_count e - 1
      /\ anal_esil_goto_limit (anal e') = anal_esil_goto_limit (anal e)
      /\ stacksize e' = stacksize e
      /\ (stackptr e <= Z.max 0 (stacksize e) -> stackptr e' <= Z.max 0 (stacksize e))
      /\ (r <> 0 -> 1 <= parse_goto_count e')
  | Undef _ => True
  end.
Proof.
  unfold runword, gets, modify, mbind, M_bind, mret, M_ret, id. cbn [parse_goto_count set_parse_goto_count].
  set (e1 := set_parse_goto_count (parse_goto_count e - 1) e).
  destruct (Z.ltb_spec (parse_goto_count e - 1) 1) as [Hc|Hc]; [simpl; split_and!; done|].
  destruct (String.eqb word "}{"); [simpl; split_and!; done|].
  destruct (String.eqb word "}"); [simpl; split_and!; done|].
  destruct (z2b (skip e1)); [simpl; split_and!; done|].
  assert (forall m : M (RAnalEsil IO) Z, steps same_frame m -> match m e1 with
    | Ok r e' =>
      repeat e' = repeat e /\ parse_goto_count e' = parse_goto_count e - 1
      /\ anal_esil_goto_limit (anal e') = anal_esil_goto_limit (anal e)
      /\ stacksize e' = stacksize e
      /\ (stackptr e <= Z.max 0 (stacksize e) -> stackptr e' <= Z.max 0 (stacksize e))
      /\ ((r : Z) <> 0 -> 1 <= parse_goto_count e')
    | Undef _ => True end) as Hstep.
  { intros m Hm. specialize (Hm e1). destruct (m e1) as [r e'|]; [|done].
    destruct Hm as [F1 F2 F3 F4 F5 F6 F7 F8 F9 F10 F11 F12 F13].
    split_and!; try assumption.
    - intros H. rewrite F1 in F13. by apply F13.
    - intros _. by rewrite F3. }
  destruct (iscommand word e1); apply Hstep; [apply frame_run_command|apply frame_push_word].
Qed.

(** The next action leaves the machine alone, but for the pending goto. *)
Lemma evalWord_spec ostr str e :
  match evalWord ostr str e with
  | Ok (a, str') e' =>
      repeat e' = repeat e /\ parse_goto_count e' = parse_goto_count e
      /\ anal_esil_goto_limit (anal e') = anal_esil_goto_limit (anal e)
      /\ stacksize e' = stacksize e /\ stackptr e' = stackptr e
      /\ (repeat e = false -> a <> A_loop)
      /\ (String.length str' <= Nat.max (String.length str) (String.length ostr))%nat
  | Undef _ => True
  end.
Proof.
  unfold evalWord, gets, modify, mbind, M_bind, mret, M_ret, id.
  destruct (_ && _); [by split_and!; try lia|].
  destruct (repeat e) eqn:Er; [by split_and!; try lia|].
  destruct (negb _).
  - destruct (gotoWord ostr (parse_goto e)) as [str'|] eqn:Eg; split_and!; simpl; try done; try lia.
    apply gotoWord_length in Eg. lia.
  - destruct (z2b _); split_and!; try done; lia.
Qed.

(** The invariant of the loop, its measure, and what every exit satisfies. *)
Section Loop.
Context (ostr : string) (ss : Z) (K0 : Prop).
Let L := Z.of_nat (String.length ostr).

Record parse_inv (st : string * string) e : Prop := {
  pi_repeat : repeat e = false;
  pi_length : Z.of_nat (String.length st.1) <= L;
  pi_size : stacksize e = ss;
  pi_stack : K0 -> stackptr e <= Z.max 0 ss;
}.

Definition parse_measure (st : string * string) e : Z :=
  Z.max 0 (parse_goto_count e) * (L + 1) + Z.of_nat (String.length st.1).

Definition parse_exit (ret : Z) e : Prop :=
  (ret = -1 \/ ret = 0 \/ ret = 1) /\ stacksize e = ss /\ (K0 -> stackptr e <= Z.max 0 ss).

Definition turn_ok (st : string * string) e (m : M (RAnalEsil IO) (string * string + Z)) : Prop :=
  match m e with
  | Ok (inl st') e' => parse_inv st' e' /\ 0 <= parse_measure st' e' < parse_measure st e
  | Ok (inr b) e' => parse_exit b e'
  | Undef _ => True
  end.

Lemma length_take_char str word :
  (String.length (take_char str word).1 <= String.length str)%nat.
Proof. destruct str; simpl; lia. Qed.

(** Going on after a word is a plain move to a string no longer, or an exit. *)
Inductive plain_next : M (RAnalEsil IO) (string * string + Z) -> Prop :=
  | pn_exit r : r = 0 \/ r = 1 -> plain_next (mret (inr r))
  | pn_move st : Z.of_nat (String.length st.1) <= L -> plain_next (mret (inl st)).

Lemma finish_word_ok str word w next e :
  parse_inv (str, w) e -> plain_next next -> turn_ok (str, w) e (finish_word ostr str word next).
Proof.
  intros [Hr Hl Hs Hk] Hn. unfold turn_ok, finish_word. rewrite run_bind.
  pose proof (runword_spec word e) as H. destruct (runword word e) as [r e1|]; [|done].
  destruct H as (R1 & C1 & _ & S1 & K1 & N1).
  destruct (Z.eqb_spec r 0) as [->|Hr0].
  { cbn. unfold parse_exit. rewrite S1. rewrite <- Hs in *. split_and!; auto. }
  specialize (N1 Hr0). rewrite run_bind.
  pose proof (evalWord_spec ostr str e1) as H.
  destruct (evalWord ostr str e1) as [[a str'] e2|]; [|done].
  destruct H as (R2 & C2 & _ & S2 & K2 & A2 & Lstr).
  assert ((K0 -> stackptr e2 <= Z.max 0 ss) /\ stacksize e2 = ss /\ repeat e2 = false) as (K & S & R).
  { rewrite K2, S2, R2. rewrite <- Hs, S1, R1 in *. auto. }
  assert (forall st, Z.of_nat (String.length st.1) <= L ->
    parse_inv st e2 /\ 0 <= parse_measure st e2 < parse_measure (str, w) e) as Hmove.
  { intros st Hst. split; [by split|]. unfold parse_measure. rewrite C2, C1. simpl in *.
    rewrite C1 in N1. rewrite !Z.max_r by lia. nia. }
  destruct a; cbv beta iota.
  - destruct A2; [by rewrite R1|done].
  - cbn. unfold parse_exit. auto.
  - cbn [mret M_ret]. apply Hmove. simpl in *. lia.
  - destruct Hn as [r' Hr'|st Hst]; cbn; [|by apply Hmove]. unfold parse_exit. tauto.
Qed.

Lemma parse_step_ok st e : parse_inv st e -> turn_ok st e (parse_step ostr st).
Proof.
  intros Hi. pose proof Hi as [Hr Hl Hs Hk]. destruct st as [[|c rest] word]; simpl in Hl.
  - unfold parse_step. destruct (bool_decide _); [|by apply finish_word_ok; [|constructor; auto]].
    unfold turn_ok; cbn. unfold parse_exit. auto.
  - unfold parse_step. pose proof (length_take_char rest EmptyString) as Ht.
    assert (forall st, (String.length st.1 <= String.length rest)%nat ->
      turn_ok (String c rest, word) e (mret (inl st))) as Hmove.
    { intros st Hst. unfold turn_ok. cbn -[parse_measure]. split; [split; try done; simpl; lia|].
      unfold parse_measure. simpl String.length. simpl fst. nia. }
    destruct (62 <? String.length word)%nat.
    { unfold turn_ok; cbn. unfold parse_exit. auto. }
    destruct (_ || _).
    + destruct (bool_decide _); [by apply Hmove|].
      apply finish_word_ok; [done|]. destruct (is_char c ";"); constructor; [auto|lia].
    + by apply Hmove.
Qed.
End Loop.

(** The machine at the first turn, and the whole of [r_anal_esil_parse]. *)
Definition parse_start e : RAnalEsil IO :=
  let e := set_trap 0 e in
  let e := set_parse_stop 0 (set_parse_goto (-1) (set_skip 0 (set_repeat false e))) in
  set_parse_goto_count (anal_esil_goto_limit (anal e)) e.

Lemma parse_unfold str e :
  str <> EmptyString ->
  r_anal_esil_parse str e
  = match for_upto (parse_fuel (anal_esil_goto_limit (anal e)) str) (parse_step str)
            (str, EmptyString) (parse_start e) with
    | Ok (inr ret) e' => Ok (Some ret) e'
    | Ok (inl _) e' => Ok None e'
    | Undef u => Undef u
    end.
Proof.
  intros H. unfold r_anal_esil_parse. rewrite bool_decide_eq_false_2 by done.
  unfold parse_reset, parse_start, gets, modify, mbind, M_bind, mret, M_ret. cbv beta zeta iota.
  cbn [anal anal_esil_goto_limit set_trap set_repeat set_skip set_parse_goto set_parse_stop].
  by destruct (for_upto _ _ _ _) as [[]|].
Qed.

(** The loop of the parser leaves through an exit. *)
Lemma parse_loop_exit str e :
  match for_upto (parse_fuel (anal_esil_goto_limit (anal e)) str) (parse_step str)
          (str, EmptyString) (parse_start e) with
  | Ok (inl _) _ => False
  | Ok (inr r) e' => parse_exit (stacksize e) (stackptr e <= Z.max 0 (stacksize e)) r e'
  | Undef _ => True
  end.
Proof.
  apply (for_upto_measure (parse_inv str (stacksize e) (stackptr e <= Z.max 0 (stacksize e)))
    (parse_measure str) (parse_exit (stacksize e) (stackptr e <= Z.max 0 (stacksize e)))
    (parse_step str)).
  - intros. by apply parse_step_ok.
  - split; [done|simpl; lia|done|done].
  - unfold parse_measure, parse_fuel, parse_start. simpl. nia.
Qed.

(** A loop that is undefined is undefined in a turn. *)
Lemma Loop_undefined {S0 St B} (body : St -> M S0 (St + B)) st s o :
  Loop body st s o -> forall u, o = Undef u -> exists st' s', body st' s' = Undef u.
Proof. induction 1 as [|st s u' E|]; intros u Eu; [done| |eauto]. injection Eu as ->. eauto. Qed.

(** [u] comes from the command of an operator word. *)
Definition undefined_command (u : ub) : Prop :=
  exists w op e, iscommand w e = Some op /\ run_command w op e = Undef u.

Lemma runword_undefined word e u : runword word e = Undef u -> undefined_command u.
Proof.
  unfold runword, gets, modify, mbind, M_bind, mret, M_ret, id. cbn [parse_goto_count set_parse_goto_count].
  destruct (_ <? 1); [done|]. destruct (String.eqb word "}{"); [done|]. destruct (String.eqb word "}"); [done|].
  destruct (z2b _); [done|]. set (e1 := set_parse_goto_count _ e). destruct (iscommand word e1) as [op|] eqn:Ec; [by exists word, op, e1|].
  unfold push_word, r_anal_esil_push, gets, modify, mbind, M_bind, mret, M_ret, id.
  destruct (_ || is_char _ _); [done|]. by destruct (_ || (_ >? _)).
Qed.

Lemma parse_step_undefined ostr st e u : parse_step ostr st e = Undef u -> undefined_command u.
Proof.
  assert (forall str word next, (forall e, next e <> Undef u) -> finish_word ostr str word next e = Undef u -> undefined_command u) as Hf.
  { intros str word next Hn. unfold finish_word. rewrite run_bind. destruct (runword word e) as [r e1|u1] eqn:Er.
    - destruct (r =? 0); [done|]. rewrite run_bind. unfold evalWord, gets, modify, mbind, M_bind, mret, M_ret, id.
      destruct (_ && _); [done|]. destruct (repeat e1); [done|]. destruct (negb _); [by destruct (gotoWord _ _)|].
      destruct (z2b _); [done|]. by intros ?%Hn.
    - intros [= ->]. by apply (runword_undefined word e). }
  destruct st as [[|c rest] word]; unfold parse_step.
  - destruct (bool_decide _); [done|]. by apply Hf.
  - destruct (_ <? _)%nat; [done|]. destruct (_ || _); [|done]. destruct (bool_decide _); [done|].
    apply Hf. by destruct (is_char c ";").
Qed.


End Total.

(** ** The operator table *)

Section Table.
Context {IO : Type} {Env : EsilEnv IO}.
Implicit Types e : RAnalEsil IO.

Definition table_keys (l : list (string * RAnalEsilOp)) : list string := map (fun p => op_key p.1) l.

Lemma set_ops_list_run l e :
  Forall (fun p => p.1 <> EmptyString) l ->
  exists m, set_ops_list l e = Ok tt (set_ops m e)
    /\ (forall k, k ∉ table_keys l -> m !! k = ops e !! k)
    /\ (NoDup (table_keys l) -> forall w op, (w, op) ∈ l -> m !! op_key w = Some op).
Proof.
  revert e. induction l as [|[w op] l IH]; intros e Hne.
  { exists (ops e). split; [by destruct e|]. split; [done|]. intros _ w op H. by apply elem_of_nil in H. }
  inversion Hne as [|? ? Hw Hl]; subst. cbn [set_ops_list]. unfold r_anal_esil_set_op.
  mrun. simpl in Hw. rewrite bool_decide_eq_false_2 by done. mrun.
  destruct (IH (set_ops (<[op_key w := op]> (ops e)) e) Hl) as (m & Hm & Hout & Hin).
  exists m. split; [exact Hm|]. cbn [table_keys map]. split.
  - intros k Hk. rewrite not_elem_of_cons in Hk. destruct Hk as [Hk1 Hk2].
    rewrite Hout by done. cbn. by rewrite lookup_insert_ne.
  - intros Hnd w' op' Hw'. apply NoDup_cons in Hnd as [Hnk Hnd]. apply elem_of_cons in Hw' as [E|Hw'].
    + injection E as -> ->. rewrite Hout by done. cbn. by rewrite lookup_insert_eq.
    + by apply Hin.
Qed.

Lemma table_nonempty : Forall (fun p => p.1 <> EmptyString) setup_ops_table.
Proof.
  apply Forall_forall. intros p Hp. assert (forallb (fun p : string * RAnalEsilOp =>
    negb (String.eqb p.1 EmptyString)) setup_ops_table = true) as H by (vm_compute; reflexivity).
  rewrite forallb_forall in H. specialize (H p ltac:(by apply list_elem_of_In)).
  intros E. rewrite E in H. done.
Qed.

(** A decidable test of [NoDup] that computes. *)
Fixpoint nodup_b (l : list string) : bool :=
  match l with [] => true | x :: l => negb (existsb (String.eqb x) l) && nodup_b l end.

Lemma nodup_b_sound l : nodup_b l = true -> NoDup l.
Proof.
  induction l as [|x l IH]; simpl; [constructor|]. intros [H1 H2]%andb_true_iff.
  constructor; [|by apply IH]. intros Hx. apply negb_true_iff in H1.
  assert (existsb (String.eqb x) l = true); [|congruence].
  apply existsb_exists. exists x. split; [by apply list_elem_of_In|apply String.eqb_refl].
Qed.

Lemma table_nodup : NoDup (table_keys setup_ops_table).
Proof. apply nodup_b_sound. vm_compute. reflexivity. Qed.

(** C27: the table is keyed by a 32-bit hash of the word; on the operators
    themselves the hash has no collision, so that after the set-up every one
    of them runs its own handler, and no other key is touched. *)
Theorem r_anal_esil_setup_ops_dispatch e :
  exists e', r_anal_esil_setup_ops e = Ok tt e'
    /\ (forall w op, (w, op) ∈ setup_ops_table -> iscommand w e' = Some op)
    /\ (forall w, op_key w ∉ table_keys setup_ops_table -> iscommand w e' = iscommand w e)
    /\ stack e' = stack e /\ anal e' = anal e /\ cb e' = cb e.
Proof.
  destruct (set_ops_list_run setup_ops_table e table_nonempty) as (m & Hm & Hout & Hin).
  exists (set_ops m e). split; [exact Hm|]. split_and!; try done.
  - intros w op Hw. by apply (Hin table_nodup).
  - intros w Hw. by apply Hout.
Qed.

(** Other words do collide: the number literals below are taken for operators. *)
Theorem esil_number_literal_is_command e :
  exists e', r_anal_esil_setup_ops e = Ok tt e'
    /\ iscommand "35536520" e' = Some Op_neg
    /\ iscommand "35536527" e' = Some Op_and
    /\ iscommand "0xe92a86" e' = Some (Op_mem_muleq W8).
Proof.
  destruct (set_ops_list_run setup_ops_table e table_nonempty) as (m & Hm & _ & Hin).
  specialize (Hin table_nodup). exists (set_ops m e). split; [exact Hm|]. unfold iscommand. cbn [ops set_ops].
  split_and!.
  - replace (op_key "35536520") with (op_key "!") by (vm_compute; reflexivity).
    apply Hin. apply list_elem_of_In. vm_compute. tauto.
  - replace (op_key "35536527") with (op_key "&") by (vm_compute; reflexivity).
    apply Hin. apply list_elem_of_In. vm_compute. tauto.
  - replace (op_key "0xe92a86") with (op_key "*=[8]") by (vm_compute; reflexivity).
    apply Hin. apply list_elem_of_In. vm_compute. tauto.
Qed.

(** ** Set-up and callbacks *)

(** Asking for a read-only memory has no effect: the function that
    [romem] installs is replaced by the statistics hook when statistics are
    enabled and removed when they are not, so that a write reaches the i/o
    layer either way. *)
Theorem r_anal_esil_setup_romem e a stats nonull addr buf len :
  plugin_init = None ->
  exists e', r_anal_esil_setup a true stats nonull e = Ok 1 e'
    /\ hook_mem_write (cb e') = (if stats then Hook_stats else Hook_null)
    /\ (stats = false -> nonull = false ->
        r_anal_esil_mem_write addr buf len e' = internal_esil_mem_write addr buf len e').
Proof.
  intros Hp. unfold r_anal_esil_setup, r_anal_esil_mem_ro, r_anal_esil_stats. mrun.
  match goal with |- context [r_anal_esil_setup_ops ?e1] =>
    destruct (set_ops_list_run setup_ops_table e1 table_nonempty) as (m & Hm & _) end.
  unfold r_anal_esil_setup_ops. rewrite Hm, Hp. eexists. split; [reflexivity|].
  split; [by destruct stats|]. intros -> ->. reflexivity.
Qed.

End Table.

(** The environment of [EsilDemo] respects the frame. *)
#[export] Instance flat_frame : @EnvFrame flat flat_env.
Proof. split; intros; first [done | apply steps_ret; typeclasses eauto]. Qed.


(** A shift of 1 by 100. *)
Example parse_undefined : r_anal_esil_parse "100,1,<<" demo_esil = Undef UB_shift.
Proof. vm_compute. reflexivity. Qed.

Lemma r_anal_esil_setup_romem_witness :
  exists e', r_anal_esil_setup demo_anal true false false demo_esil = Ok 1 e'
    /\ hook_mem_write (cb e') = Hook_null
    /\ (false = false -> false = false ->
        r_anal_esil_mem_write 0 [1] 1 e' = internal_esil_mem_write 0 [1] 1 e').
Proof. exact (r_anal_esil_setup_romem demo_esil demo_anal false false 0 [1] 1 eq_refl). Defined.
