(* ===== verification/EsilSpec.v ===== *)
(** * What the operations compute

    On a machine without client hooks the handlers are functions of the
    values of their operands.  This file states those functions and proves
    that the handlers implement them, stack, flags and traps included. *)

From S2P Require Import Prelude Endian Mem Num Sdb Reg RegFacts EsilState EsilOps EsilParse EsilFlags EsilDemo.

(** ** Operands as values *)

(** Take the branch of a machine without client hooks. *)
Ltac run_plain P := rewrite !P; cbn [setup_accessors hook_flag_read hook_reg_read hook_reg_write
  hook_mem_read hook_mem_write hook_command reg_read reg_write mem_read mem_write no_callbacks]; mrun.

Section Spec.
Context {IO : Type} {Env : EsilEnv IO}.
Implicit Types e : RAnalEsil IO.

(** The machine [r_anal_esil_setup] leaves when nothing else is installed. *)
Definition plain e : Prop := cb e = setup_accessors false no_callbacks.

Definition reg_value e (name : string) : option Z :=
  r_reg_get_value (anal_reg (anal e)) (r_reg_get (anal_reg (anal e)) name (-1)).

(** The value [r_anal_esil_get_parm] finds; [None] when it fails. *)
Definition value_of e (str : string) : option Z :=
  match parm_type_of (anal_reg (anal e)) str with
  | PARM_INTERNAL => esil_internal_value str e ≫= id
  | PARM_NUM => r_num_get str
  | PARM_REG => reg_value e str
  | PARM_INVALID => None
  end.

(** The value [isregornum] finds. *)
Definition rn_value e (str : string) : option Z :=
  if is_internal str then esil_internal_value str e ≫= id
  else match r_reg_get (anal_reg (anal e)) str (-1) with
       | Some _ => reg_value e str
       | None => if isdigit (char_at str 0) then r_num_get str else None
       end.

Lemma pop_cons e s l : stack e = s :: l -> r_anal_esil_pop e = Ok (Some s) (set_stack l e).
Proof. intros H. unfold r_anal_esil_pop. mrun. by rewrite H. Qed.

Lemma pop_nil e : stack e = [] -> r_anal_esil_pop e = Ok None e.
Proof. intros H. unfold r_anal_esil_pop. mrun. by rewrite H. Qed.

Lemma push_room e s :
  s <> EmptyString -> stackptr e < stacksize e ->
  r_anal_esil_push s e = Ok true (set_stack (s :: stack e) e).
Proof.
  intros Hs Hr. unfold r_anal_esil_push. mrun.
  rewrite bool_decide_eq_false_2 by done. rewrite Z.gtb_ltb.
  by destruct (Z.ltb_spec (stacksize e - 1) (stackptr e)); [lia|].
Qed.

Lemma fmt_nonempty n : fmt_0xllx n <> EmptyString.
Proof. done. Qed.

Lemma internal_read_plain e str n v :
  plain e -> is_internal str = true -> esil_internal_value str e = Some (Some v) ->
  esil_internal_read str n e = Ok (true, v) e.
Proof.
  intros P Hi Hv. unfold esil_internal_read.
  destruct str as [|c str]; [done|]. rewrite bool_decide_eq_false_2 by done.
  mrun. run_plain P. rewrite Hv. mrun. done.
Qed.

Lemma reg_read_plain e str n z v it :
  plain e -> is_internal str = false -> r_reg_get (anal_reg (anal e)) str (-1) = Some it ->
  reg_value e str = Some v ->
  r_anal_esil_reg_read str n z e = Ok (true, v, (fun _ => ri_size it) <$> z) e.
Proof.
  intros P Hi Hg Hv. unfold r_anal_esil_reg_read, get_bits. mrun. rewrite Hi. mrun.
  run_plain P. run_plain P. unfold internal_esil_reg_read, get_reg. mrun. rewrite Hg.
  unfold reg_value in Hv. rewrite Hg in Hv. rewrite Hv. mrun. by destruct z.
Qed.

Lemma get_parm_size_plain e str n v :
  plain e -> value_of e str = Some v ->
  exists z, r_anal_esil_get_parm_size str n None e = Ok (true, v, z) e.
Proof.
  intros P. unfold value_of, r_anal_esil_get_parm_size, r_anal_esil_get_parm_type, get_reg, get_bits.
  mrun. unfold parm_type_of.
  destruct (bool_decide (str = EmptyString)); [done|].
  destruct (is_internal str) eqn:Hi.
  { intros Hv. destruct (esil_internal_value str e) as [[w|]|] eqn:Hw; [|done..].
    simplify_eq/=. mrun. erewrite internal_read_plain by eauto. by eexists. }
  destruct (String.prefix "0x" str); [intros Hv; rewrite Hv; mrun; by eexists|].
  destruct (_ && _); [intros Hv; rewrite Hv; mrun; by eexists|].
  destruct (r_reg_get _ str (-1)) as [it|] eqn:Hg; [|done].
  intros Hv. erewrite reg_read_plain by eauto. by eexists.
Qed.

Lemma get_parm_plain e str v :
  plain e -> value_of e str = Some v -> get_parm str e = Ok (true, v) e.
Proof.
  intros P H. unfold get_parm, r_anal_esil_get_parm. mrun.
  by destruct (get_parm_size_plain e str indet_num v P H) as [z ->].
Qed.

Lemma reg_read_fail_plain e str n :
  plain e -> is_internal str = false -> r_reg_get (anal_reg (anal e)) str (-1) = None ->
  r_anal_esil_reg_read str n None e = Ok (false, 0, None) e.
Proof.
  intros P Hi Hg. unfold r_anal_esil_reg_read, get_bits. mrun. rewrite Hi. mrun.
  run_plain P. run_plain P. unfold internal_esil_reg_read, get_reg. mrun. by rewrite Hg.
Qed.

Lemma isregornum_plain e str v :
  plain e -> rn_value e str = Some v -> isregornum str e = Ok (true, v) e.
Proof.
  intros P. unfold rn_value, isregornum.
  destruct (is_internal str) eqn:Hi.
  - intros Hv. mrun. unfold r_anal_esil_reg_read, get_bits. mrun. rewrite Hi. mrun.
    destruct (esil_internal_value str e) as [[w|]|] eqn:Hw; [|done..]. simplify_eq/=.
    by erewrite internal_read_plain by eauto.
  - destruct (r_reg_get _ str (-1)) as [it|] eqn:Hg.
    + intros Hv. mrun. by erewrite reg_read_plain by eauto.
    + destruct (isdigit _) eqn:Hd; [|done]. intros Hv. mrun.
      rewrite reg_read_fail_plain by done. unfold isnum. rewrite Hd, Hv. mrun. done.
Qed.

(** ** Numbers on the stack *)

Lemma value_of_fmt e n : 0 <= n < 2 ^ 64 -> value_of e (fmt_0xllx n) = Some n.
Proof.
  intros Hn. unfold value_of, parm_type_of. rewrite bool_decide_eq_false_2 by done.
  change (is_internal (fmt_0xllx n)) with false.
  change (String.prefix "0x" (fmt_0xllx n)) with (String.prefix "" (fmt_llx n)).
  cbv iota. replace (String.prefix "" (fmt_llx n)) with true by (by destruct (fmt_llx n)).
  by apply r_num_get_fmt.
Qed.

Lemma fmt_not_internal r n : parm_is_internal (parm_type_of r (fmt_0xllx n)) = false.
Proof.
  unfold parm_type_of. rewrite bool_decide_eq_false_2 by done.
  change (is_internal (fmt_0xllx n)) with false.
  change (String.prefix "0x" (fmt_0xllx n)) with (String.prefix "" (fmt_llx n)).
  by destruct (fmt_llx n).
Qed.

(** ** Two operands *)

Lemma on_dst_src_plain e dst src rest a b body :
  plain e -> stack e = dst :: src :: rest ->
  value_of e dst = Some a -> value_of e src = Some b ->
  on_dst_src get_parm body e = body dst src a b (set_stack rest e).
Proof.
  intros P Hs Ha Hb. unfold on_dst_src. mrun. rewrite (pop_cons _ _ _ Hs). mrun.
  erewrite pop_cons by done. unfold operand. mrun.
  rewrite (get_parm_plain _ _ a) by done. mrun. by rewrite (get_parm_plain _ _ b) by done.
Qed.

Lemma on_src_dst_plain e dst src rest a b body :
  plain e -> stack e = dst :: src :: rest ->
  value_of e dst = Some a -> value_of e src = Some b ->
  on_src_dst get_parm body e = body dst src a b (set_stack rest e).
Proof.
  intros P Hs Ha Hb. unfold on_src_dst. mrun. rewrite (pop_cons _ _ _ Hs). mrun.
  erewrite pop_cons by done. unfold operand. mrun.
  rewrite (get_parm_plain _ _ b) by done. mrun. by rewrite (get_parm_plain _ _ a) by done.
Qed.

Lemma push_ok_room e n :
  stackptr e < stacksize e -> push_ok n e = Ok 1 (set_stack (fmt_0xllx n :: stack e) e).
Proof. intros H. unfold push_ok, r_anal_esil_pushnum. mrun. by rewrite push_room. Qed.

(** The function of the two operands, the destination first; [None] where
    the operation has no result. *)
Definition binop_meaning (op : RAnalEsilOp) (a b : Z) : option Z :=
  match op with
  | Op_add => Some (u64 (a + b))
  | Op_sub => Some (u64 (a - b))
  | Op_mul => Some (u64 (a * b))
  | Op_div => if b =? 0 then None else Some (a / b)
  | Op_mod => if b =? 0 then None else Some (a mod b)
  | Op_and => Some (Z.land a b)
  | Op_or => Some (Z.lor a b)
  | Op_xor => Some (Z.lxor a b)
  | Op_lsl => if b <? 64 then Some (u64 (a * 2 ^ b)) else None
  | Op_lsr => if b <? 64 then Some (a / 2 ^ b) else None
  | _ => None
  end.

(** The run of a binary operator. *)
Lemma binop_run e op dst src rest a b r :
  plain e -> stack e = dst :: src :: rest -> stackptr e <= stacksize e ->
  value_of e dst = Some a -> value_of e src = Some b ->
  rn_value e dst = Some a -> rn_value e src = Some b -> 0 <= b ->
  binop_meaning op a b = Some r ->
  run_op op e = Ok 1 (set_stack (fmt_0xllx r :: rest) e).
Proof.
  intros P Hs Hroom Ha Hb Ha' Hb' Hb0 Hr.
  assert (forall n, push_ok n (set_stack rest e) = Ok 1 (set_stack (fmt_0xllx n :: rest) e)) as Hp.
  { intros n. rewrite push_ok_room; [done|]. unfold stackptr in *. rewrite Hs in Hroom. simpl in *. lia. }
  destruct op; try discriminate Hr; cbn [run_op binop_meaning] in *;
    unfold esil_add, esil_mul, esil_div, esil_mod, esil_and, esil_or, esil_xor, esil_lsl,
      esil_lsr, arith_op, div_op, shift_op;
    try (rewrite (on_dst_src_plain e dst src rest a b) by done);
    try (rewrite (on_src_dst_plain e dst src rest a b) by done).
  - unfold shl64. destruct (b <? 64); [|done]. simplify_eq. mrun.
    by rewrite Hp, Z.shiftl_mul_pow2.
  - unfold shr64. destruct (b <? 64); [|done]. simplify_eq. mrun.
    by rewrite Hp, Z.shiftr_div_pow2.
  - simplify_eq. apply Hp.
  - simplify_eq. apply Hp.
  - simplify_eq. apply Hp.
  - simplify_eq. apply Hp.
  - simplify_eq. apply Hp.
  - unfold esil_sub, popRN. mrun. rewrite (pop_cons _ _ _ Hs). mrun.
    rewrite (isregornum_plain _ _ a) by done. mrun.
    erewrite pop_cons by done. mrun. rewrite (isregornum_plain _ _ b) by done. mrun.
    simplify_eq. apply Hp.
  - destruct (b =? 0); [done|]. simplify_eq. apply Hp.
  - destruct (b =? 0); [done|]. simplify_eq. apply Hp.
Qed.

(** The binary operators replace the two operands on the stack by their
    value, destination first, and change nothing else. *)
Theorem esil_binop e op dst src rest a b r :
  plain e -> stack e = dst :: src :: rest -> stackptr e <= stacksize e ->
  value_of e dst = Some a -> value_of e src = Some b ->
  rn_value e dst = Some a -> rn_value e src = Some b -> 0 <= b ->
  binop_meaning op a b = Some r ->
  run_op op e = Ok 1 (set_stack (fmt_0xllx r :: rest) e).
Proof. apply binop_run. Qed.

(** Dividing by zero, or taking the remainder, pushes nothing and raises
    the division trap; the expression goes on. *)
Theorem esil_div_by_zero e op dst src rest a :
  plain e -> op = Op_div \/ op = Op_mod -> stack e = dst :: src :: rest ->
  value_of e dst = Some a -> value_of e src = Some 0 ->
  run_op op e = Ok 1 (set_trap_code 0 (set_trap R_ANAL_TRAP_DIVBYZERO (set_stack rest e))).
Proof.
  intros P Hop Hs Ha Hb. destruct Hop as [-> | ->]; cbn [run_op]; unfold esil_div, esil_mod, div_op;
    rewrite (on_src_dst_plain e dst src rest a 0) by done; reflexivity.
Qed.

(** ** Comparisons *)

Definition compare_bits e (dst src : string) : Z :=
  match r_reg_get (anal_reg (anal e)) dst (-1) with
  | Some it => u8 (ri_size it)
  | None => match r_reg_get (anal_reg (anal e)) src (-1) with
            | Some it => u8 (ri_size it)
            | None => 64
            end
  end.

Lemma compare_size_run e dst src : compare_size dst src e = Ok (compare_bits e dst src) e.
Proof.
  unfold compare_size, compare_bits, esil_internal_sizeof_reg, get_reg. mrun.
  destruct (r_reg_get _ dst (-1)) eqn:E; [mrun; by rewrite E|].
  destruct (r_reg_get _ src (-1)) eqn:E'; [mrun; by rewrite E'|]. done.
Qed.

(** The truth value a comparison pushes, at a size of [w] bits. *)
Definition compare_meaning (op : RAnalEsilOp) (w a b : Z) : option bool :=
  let x := swrap w a in let y := swrap w b in
  match op with
  | Op_cmp => Some (a =? b)
  | Op_smaller => Some (x <? y)
  | Op_bigger => Some (y <? x)
  | Op_smaller_equal => Some (x <=? y)
  | Op_bigger_equal => Some (y <=? x)
  | _ => None
  end.

Lemma signed_compare_gt_spec a b w :
  w = 8 \/ w = 16 \/ w = 32 \/ w = 64 -> signed_compare_gt a b w = (swrap w b <? swrap w a).
Proof. by intros [-> |[-> |[-> | ->]]]. Qed.

Lemma swrap_inj w a b :
  0 < w -> 0 <= a < 2 ^ w -> 0 <= b < 2 ^ w -> swrap w a = swrap w b -> a = b.
Proof.
  intros Hw Ha Hb. destruct (pow2_half w Hw). unfold swrap. rewrite !Z.mod_small by lia.
  destruct (Z.ltb_spec a (2 ^ (w - 1))), (Z.ltb_spec b (2 ^ (w - 1))); lia.
Qed.

(** The comparisons are signed at the size of the register compared (64
    bits without one), for operands that fit that size; they leave the
    difference behind for the flags. *)
Theorem esil_compare e op dst src rest a b w r :
  plain e -> stack e = dst :: src :: rest -> stackptr e <= stacksize e ->
  value_of e dst = Some a -> value_of e src = Some b ->
  compare_bits e dst src = w -> w = 8 \/ w = 16 \/ w = 32 \/ w = 64 ->
  0 <= a < 2 ^ w -> 0 <= b < 2 ^ w -> compare_meaning op w a b = Some r ->
  run_op op e
  = Ok 1 (set_stack (fmt_0xllx (b2z r) :: rest)
      (set_lastsz w (set_cur (u64 (a - b)) (set_old a e)))).
Proof.
  intros P Hs Hroom Ha Hb Hw Hw4 Ra Rb Hr.
  assert (forall f, f a b w = r -> compare_op f e
    = Ok 1 (set_stack (fmt_0xllx (b2z r) :: rest)
        (set_lastsz w (set_cur (u64 (a - b)) (set_old a e))))) as Hop.
  { intros f Hf. unfold compare_op. rewrite (on_dst_src_plain e dst src rest a b) by done. mrun.
    rewrite compare_size_run. mrun.
    change (compare_bits _ dst src) with (compare_bits e dst src). rewrite Hw, Hf.
    rewrite push_ok_room; [done|]. unfold stackptr in *. rewrite Hs in Hroom. simpl in *. lia. }
  assert (0 < w) as Hw0 by lia. pose proof (swrap_inj w a b Hw0 Ra Rb) as Hinj.
  pose proof (signed_compare_gt_spec a b w Hw4) as Hgt.
  destruct op; try discriminate Hr; cbn [run_op compare_meaning] in *; injection Hr as <-;
    apply Hop; rewrite ?Hgt; try done.
  - destruct (Z.eqb_spec a b) as [->|Hne]; simpl; [by rewrite Z.ltb_irrefl|].
    destruct (Z.ltb_spec (swrap w b) (swrap w a)), (Z.ltb_spec (swrap w a) (swrap w b)); try done; lia.
  - destruct (Z.ltb_spec (swrap w b) (swrap w a)), (Z.leb_spec (swrap w a) (swrap w b)); try done; lia.
  - destruct (Z.eqb_spec a b) as [->|Hne]; simpl; [by rewrite Z.leb_refl|].
    destruct (Z.ltb_spec (swrap w b) (swrap w a)), (Z.leb_spec (swrap w b) (swrap w a)); try done; lia.
Qed.

(** ** Assignments *)

Lemma length_indet n : length (indet n) = n.
Proof. unfold indet. rewrite length_take, length_app, length_replicate. lia. Qed.

(** A register of [n] bytes of a register file, and of the attached one. *)
Record reg_item (r : RReg) (name : string) (it : RRegItem) (n : nat) : Prop := {
  ro_name : is_internal name = false;
  ro_item : r_reg_get r name (-1) = Some it;
  ro_at : exists a, item_at r it a n;
}.
Definition register_of e : string -> RRegItem -> nat -> Prop := reg_item (anal_reg (anal e)).

(** The registers not overlapping [it] read the same. *)
Definition others_same e (it : RRegItem) (n : nat) e' : Prop :=
  forall name it' m, register_of e name it' m -> disjoint_items it n it' m ->
    reg_value e' name = reg_value e name.

Lemma reg_value_item e name it n :
  register_of e name it n -> reg_wf (anal_reg (anal e)) -> exists v, reg_value e name = Some v.
Proof.
  intros [Hi Hg [a Ha]] W. unfold reg_value. rewrite Hg.
  erewrite reg_get_spec by (done || (by eapply arena_bytes, Ha)). by eexists.
Qed.

Lemma reg_write_plain e dst it n v :
  plain e -> reg_wf (anal_reg (anal e)) -> register_of e dst it n ->
  exists r', r_anal_esil_reg_write dst v e = Ok 1 (set_anal (with_reg r' (anal e)) e)
    /\ reg_wf r' /\ rr_regset r' = rr_regset (anal_reg (anal e))
    /\ r_reg_get_value r' (Some it) = Some (v mod 2 ^ (8 * Z.of_nat n))
    /\ forall it' a' m, item_at (anal_reg (anal e)) it' a' m -> disjoint_items it n it' m ->
         r_reg_get_value r' (Some it') = r_reg_get_value (anal_reg (anal e)) (Some it').
Proof.
  intros P W [Hi Hg [a Ha]].
  destruct (set_get_facts (indet 12) _ it a n v (length_indet 12) W Ha)
    as (r' & Hset & W' & Hrs & Hv & Ho).
  exists r'. split; [|done]. unfold r_anal_esil_reg_write. mrun. run_plain P. rewrite Hi.
  change (negb false && false) with false. cbv iota. mrun. run_plain P. unfold internal_esil_reg_write, reg_set_value, get_reg, put_reg. mrun.
  rewrite Hg. mrun. rewrite Hset. mrun. done.
Qed.

(** What an assignment of [c] to [dst] leaves: the value in the register, the
    other registers, and the state behind the flags unless the source is an
    internal variable. *)
Definition assigned e (rest : list string) (dst : string) (it : RRegItem) (n : nat)
    (src : string) (c : Z) e' : Prop :=
  stack e' = rest
  /\ reg_value e' dst = Some (c mod 2 ^ (8 * Z.of_nat n))
  /\ others_same e it n e'
  /\ (if parm_is_internal (parm_type_of (anal_reg (anal e)) src)
      then cur e' = cur e /\ old e' = old e /\ lastsz e' = lastsz e
      else cur e' = c /\ Some (old e') = reg_value e dst /\ lastsz e' = 8 * Z.of_nat n).

Lemma parm_type_regset r r' str :
  rr_regset r' = rr_regset r -> parm_type_of r' str = parm_type_of r str.
Proof. intros E. unfold parm_type_of. by rewrite (r_reg_get_regset r r'). Qed.

Lemma item_size8 r it a n : item_at r it a n -> u8 (ri_size it) = 8 * Z.of_nat n.
Proof.
  intros [_ _ -> Hn _]. assert (n ∈ [1; 2; 4; 8]%nat) as Hn' by done.
  set_unfold. apply u8_id. lia.
Qed.

Lemma sizeof_reg_run e dst it :
  r_reg_get (anal_reg (anal e)) dst (-1) = Some it ->
  esil_internal_sizeof_reg dst e = Ok (u8 (ri_size it)) e.
Proof. intros H. unfold esil_internal_sizeof_reg, get_reg. mrun. by rewrite H. Qed.

Lemma reg_read_num_plain e dst it n v :
  plain e -> register_of e dst it n -> reg_value e dst = Some v ->
  reg_read_num dst e = Ok (true, v) e.
Proof.
  intros P [Hi Hg _] Hv. unfold reg_read_num. mrun. by erewrite reg_read_plain by eauto.
Qed.

(** The facts about a written register file, read back by name. *)
Lemma assigned_intro e e' rest dst it n src c r' :
  register_of e dst it n ->
  rr_regset r' = rr_regset (anal_reg (anal e)) ->
  r_reg_get_value r' (Some it) = Some (c mod 2 ^ (8 * Z.of_nat n)) ->
  (forall it' a' m, item_at (anal_reg (anal e)) it' a' m -> disjoint_items it n it' m ->
     r_reg_get_value r' (Some it') = r_reg_get_value (anal_reg (anal e)) (Some it')) ->
  anal_reg (anal e') = r' -> stack e' = rest ->
  (if parm_is_internal (parm_type_of (anal_reg (anal e)) src)
   then cur e' = cur e /\ old e' = old e /\ lastsz e' = lastsz e
   else cur e' = c /\ Some (old e') = reg_value e dst /\ lastsz e' = 8 * Z.of_nat n) ->
  assigned e rest dst it n src c e'.
Proof.
  intros [Hi Hg _] Hrs Hv Ho Hr Hst Hf. split; [done|]. unfold reg_value at 1. rewrite Hr.
  rewrite (r_reg_get_regset _ _ _ _ Hrs), Hg. split; [done|]. split; [|done].
  intros name it' m [Hi' Hg' [a' Ha']] Hd. unfold reg_value. rewrite Hr.
  rewrite (r_reg_get_regset _ _ _ _ Hrs), Hg'. by eapply Ho.
Qed.


(** The compound assignments: the new value from the old one and the source. *)
Definition update_meaning (op : RAnalEsilOp) (d s : Z) : option Z :=
  match op with
  | Op_addeq => Some (u64 (d + s))
  | Op_subeq => Some (u64 (d - s))
  | Op_muleq => Some (u64 (d * s))
  | Op_andeq => Some (Z.land d s)
  | Op_oreq => Some (Z.lor d s)
  | Op_xoreq => Some (Z.lxor d s)
  | Op_diveq => if s =? 0 then None else Some (d / s)
  | Op_modeq => if s =? 0 then None else Some (d mod s)
  | _ => None
  end.

Lemma update_run e dst src rest it n d c :
  plain e -> reg_wf (anal_reg (anal e)) -> register_of e dst it n ->
  reg_value e dst = Some d -> stack e = rest ->
  exists e', (set_result_unless_internal src d c dst ;; write_ok dst c) e = Ok 1 e'
    /\ assigned e rest dst it n src c e'.
Proof.
  intros P W Hd Hdv Hs. pose proof Hd as [Hi Hg [a Hat]].
  pose proof (item_size8 _ _ _ _ Hat) as H8.
  unfold set_result_unless_internal, r_anal_esil_get_parm_type, get_reg, write_ok. mrun.
  destruct (parm_is_internal (parm_type_of (anal_reg (anal e)) src)) eqn:Hint.
  - mrun. destruct (reg_write_plain e dst it n c) as (r' & -> & W' & Hrs & Hv' & Ho); [done..|].
    mrun. eexists. split; [done|]. eapply (assigned_intro e _ _ _ _ _ _ _ r'); try done.
    by rewrite Hint.
  - unfold set_result. mrun. rewrite (sizeof_reg_run _ dst it) by done. mrun.
    set (e1 := set_lastsz _ _).
    destruct (reg_write_plain e1 dst it n c) as (r' & -> & W' & Hrs & Hv' & Ho);
      [done..|].
    mrun. eexists. split; [done|]. eapply (assigned_intro e _ _ _ _ _ _ _ r'); try done.
    rewrite Hint. cbn. by rewrite Hdv, H8.
Qed.

(** ["src,dst,op="] replaces the destination register by the operation
    on its value and the source, with the flags set to the 64-bit result. *)
Theorem esil_update e op dst src rest it n d v c :
  plain e -> reg_wf (anal_reg (anal e)) -> stack e = dst :: src :: rest ->
  register_of e dst it n -> reg_value e dst = Some d -> value_of e src = Some v ->
  update_meaning op d v = Some c ->
  exists e', run_op op e = Ok 1 e' /\ assigned e rest dst it n src c e'.
Proof.
  intros P W Hs Hd Hdv Hv Hc.
  assert (forall body, on_dst_src reg_read_num body e = body dst src d v (set_stack rest e)) as H1.
  { intros body. unfold on_dst_src. mrun. rewrite (pop_cons _ _ _ Hs). mrun.
    erewrite pop_cons by done. unfold operand. mrun.
    erewrite reg_read_num_plain by done. mrun. by rewrite (get_parm_plain _ _ v) by done. }
  assert (forall body, on_src_dst reg_read_num body e = body dst src d v (set_stack rest e)) as H2.
  { intros body. unfold on_src_dst. mrun. rewrite (pop_cons _ _ _ Hs). mrun.
    erewrite pop_cons by done. unfold operand. mrun.
    rewrite (get_parm_plain _ _ v) by done. mrun. by erewrite reg_read_num_plain by done. }
  destruct (update_run (set_stack rest e) dst src rest it n d c) as (e' & Hrun & Has); [done..|].
  exists e'. split; [|exact Has].
  destruct op; try discriminate Hc; cbn [run_op update_meaning] in *;
    unfold esil_addeq, esil_subeq, esil_muleq, esil_andeq, esil_oreq, esil_xoreq, esil_diveq,
      esil_modeq, arith_eq, logic_eq, div_eq; rewrite ?H1, ?H2;
    try (destruct (v =? 0); [done|]); simplify_eq; exact Hrun.
Qed.

End Spec.

(** ** Applied to the machine of [EsilDemo] *)

Lemma demo_plain l : plain (set_stack l demo_esil).
Proof. reflexivity. Qed.

Definition with_operands (l : list string) : RAnalEsil flat := set_stack l demo_esil.

Lemma demo_register name n :
  is_internal name = false -> r_reg_get demo_reg name (-1) = Some (demo_item name) ->
  item_at_b demo_reg (demo_item name) n = true -> reg_item demo_reg name (demo_item name) n.
Proof.
  intros Hi Hg Hb. split; [exact Hi|exact Hg|]. eexists. apply item_at_b_sound. exact Hb.
Qed.

Lemma esil_binop_witness :
  run_op Op_sub (with_operands ["7"; "10"]%string)
  = Ok 1 (set_stack [fmt_0xllx (u64 (7 - 10))] (with_operands ["7"; "10"]%string)).
Proof.
  eapply (esil_binop _ Op_sub "7" "10" [] 7 10); vm_compute; try reflexivity; discriminate.
Defined.

Lemma esil_div_by_zero_witness :
  let e := with_operands ["7"; "0"]%string in
  run_op Op_div e = Ok 1 (set_trap_code 0 (set_trap R_ANAL_TRAP_DIVBYZERO (set_stack [] e))).
Proof.
  intros e. apply (esil_div_by_zero _ Op_div "7" "0" [] 7); [reflexivity|by left|vm_compute; reflexivity..].
Defined.

Lemma esil_compare_witness :
  let e := with_operands ["0xfffffffffffffffe"; "3"]%string in
  run_op Op_smaller e
  = Ok 1 (set_stack [fmt_0xllx (b2z true)]
      (set_lastsz 64 (set_cur (u64 (0xfffffffffffffffe - 3)) (set_old 0xfffffffffffffffe e)))).
Proof.
  intros e. apply (esil_compare e Op_smaller "0xfffffffffffffffe" "3" [] 0xfffffffffffffffe 3 64 true);
    try (vm_compute; reflexivity); try (vm_compute; by split); [vm_compute; discriminate|].
  by right; right; right.
Defined.


Lemma esil_update_witness :
  let e := with_operands ["rbx"; "1"]%string in
  exists e', run_op Op_subeq e = Ok 1 e'
    /\ assigned e [] "rbx" (demo_item "rbx") 8 "1" (2 ^ 64 - 1) e'.
Proof.
  intros e. apply (esil_update e Op_subeq "rbx" "1" [] _ _ 0 1);
    [reflexivity|apply demo_wf|reflexivity| |vm_compute; reflexivity..].
  apply demo_register; vm_compute; reflexivity.
Defined.
