(* ===== verification/EsilMem.v ===== *)
(** * Memory operations of ESIL

    The interface the i/o layer offers to the machine, and what the operations
    [=[n]], [[n]] and [op=[n]] do with the memory behind it. *)

From S2P Require Import Prelude Endian Mem Num Sdb Reg RegFacts EsilState EsilOps EsilParse EsilFlags EsilSpec EsilDemo.

(** ** The interface *)

(** A memory of bytes addressed by [ut64], in a state that is in order
    ([io_good]): in the ranges that it serves ([io_span]) a read gives the bytes
    and does not change them, and a write changes those of its range and no
    other.  Both transfer everything that is asked. *)
Class EsilMemory (IO : Type) `{EsilEnv IO} := {
  io_good : IO -> Prop;
  io_span : Z -> Z -> Prop;
  io_byte : IO -> Z -> Z;
  io_byte_range io x : is_byte (io_byte io x);
  io_read_ok io a buf len :
    io_good io -> io_span a len -> 0 <= len <= Z.of_nat (length buf) ->
    exists io', io_read_at io a buf len
      = (len, blit (map (fun i => io_byte io (u64 (a + i))) (seqZ 0 len)) buf, io')
      /\ io_good io' /\ forall x, io_byte io' x = io_byte io x;
  io_write_ok io a buf len :
    io_good io -> io_span a len -> 0 < len <= Z.of_nat (length buf) -> len < 2 ^ 31 -> bytes buf ->
    exists io', io_write_at io a buf len = (len, io')
      /\ io_good io' /\ forall x, 0 <= x < 2 ^ 64 -> io_byte io' x
           = if u64 (x - a) <? len then byte_at buf (Z.to_nat (u64 (x - a))) else io_byte io x;
}.

(** The flat memory of [EsilDemo] offers it. *)
Lemma flat_dump_map m a n :
  flat_dump m a n = map (fun i => flat_get m (a + i)) (seqZ 0 (Z.of_nat n)).
Proof.
  unfold flat_dump, seqZ. rewrite Nat2Z.id, <- list_fmap_compose.
  apply map_ext. intros i. simpl. f_equal. lia.
Qed.

Lemma flat_put_get b m a x :
  0 <= x < 2 ^ 64 -> Z.of_nat (length b) <= 2 ^ 64 ->
  flat_get (flat_put m a b) x
  = if u64 (x - a) <? Z.of_nat (length b) then u8 (byte_at b (Z.to_nat (u64 (x - a))))
    else flat_get m x.
Proof.
  intros Hx. revert m a. induction b as [|y b IH]; intros m a Hb; simpl length in *.
  { pose proof (u64_range (x - a)). simpl. destruct (Z.ltb_spec (u64 (x - a)) (Z.of_nat 0)); [lia|done]. }
  cbn [flat_put]. rewrite IH by lia. unfold flat_get.
  destruct (decide (u64 (x - a) = 0)) as [E0|E0].
  - rewrite E0. assert (u64 (x - (a + 1)) = 2 ^ 64 - 1) as -> by ulia.
    destruct (Z.ltb_spec (2 ^ 64 - 1) (Z.of_nat (length b))); [lia|].
    destruct (Z.ltb_spec 0 (Z.of_nat (S (length b)))); [|lia].
    assert (u64 a = u64 x) as -> by ulia. rewrite (lookup_insert_eq (M := gmap Z) m).
    apply Z.mod_mod. lia.
  - assert (u64 (x - (a + 1)) = u64 (x - a) - 1) as -> by ulia.
    pose proof (u64_range (x - a)).
    assert (u64 a <> u64 x) as Hne by ulia.
    destruct (Z.ltb_spec (u64 (x - a) - 1) (Z.of_nat (length b))),
      (Z.ltb_spec (u64 (x - a)) (Z.of_nat (S (length b)))); try lia.
    + unfold byte_at. replace (Z.to_nat (u64 (x - a))) with (S (Z.to_nat (u64 (x - a) - 1))) by lia.
      done.
    + by rewrite (lookup_insert_ne (M := gmap Z) m).
Qed.

Lemma flat_read_ok m a buf len :
  True -> True -> 0 <= len <= Z.of_nat (length buf) ->
  exists m', flat_read_at m a buf len
    = (len, blit (map (fun i => flat_get m (u64 (a + i))) (seqZ 0 len)) buf, m')
    /\ True /\ forall x, flat_get m' x = flat_get m x.
Proof.
  intros _ _ Hl. exists m. split; [|done]. unfold flat_read_at.
  rewrite flat_dump_map, Z2Nat.id by lia. do 3 f_equal. apply map_ext. intros i.
  unfold flat_get. do 3 f_equal. ulia.
Qed.

Lemma flat_write_ok m a buf len :
  True -> True -> 0 < len <= Z.of_nat (length buf) -> len < 2 ^ 31 -> bytes buf ->
  exists m', flat_write_at m a buf len = (len, m')
    /\ True /\ forall x, 0 <= x < 2 ^ 64 -> flat_get m' x
         = if u64 (x - a) <? len then byte_at buf (Z.to_nat (u64 (x - a))) else flat_get m x.
Proof.
  intros _ _ Hl Hi Hb. eexists. split; [reflexivity|]. split; [done|]. intros x Hx.
  rewrite flat_put_get, length_take by (rewrite ?length_take; lia).
  replace (Z.of_nat (Z.to_nat len `min` length buf)) with len by lia.
  pose proof (u64_range (x - a)). destruct (Z.ltb_spec (u64 (x - a)) len); [|done].
  unfold byte_at at 1. rewrite lookup_take_lt by lia. apply u8_id. by apply byte_at_range.
Qed.

#[export] Instance flat_memory : EsilMemory flat :=
  {| io_good _ := True; io_span _ _ := True; io_byte := flat_get; io_byte_range m x := u8_range _; io_read_ok := flat_read_ok;
     io_write_ok := flat_write_ok |}.

(** ** Accesses of a machine *)

Section Memory.
Context {IO : Type} {Env : EsilEnv IO} {Mem : EsilMemory IO}.
Implicit Types e : RAnalEsil IO.

(** Hypothesis of the whole section: uninitialised bytes are bytes. *)
Hypothesis indet_ok : bytes indet_bytes.

(** A machine without hooks, bound to an i/o layer, that may write. *)
Record mem_ready e (io : IO) : Prop := {
  mr_plain : plain e;
  mr_io : anal_io (anal e) = Some io;
  mr_nowrite : nowrite e = false;
  mr_good : io_good io;
}.

Definition set_io (io : IO) e : RAnalEsil IO := set_anal (with_io (Some io) (anal e)) e.

(** [n] bytes at an address. *)
Definition io_bytes (io : IO) (a : Z) (n : nat) : list Z :=
  map (fun i => io_byte io (u64 (a + i))) (seqZ 0 (Z.of_nat n)).

Lemma length_io_bytes io a n : length (io_bytes io a n) = n.
Proof. unfold io_bytes. rewrite length_map, length_seqZ. lia. Qed.

Lemma io_bytes_bytes io a n : bytes (io_bytes io a n).
Proof. apply Forall_forall. intros b Hb. apply list_elem_of_fmap in Hb as (i & -> & _). apply io_byte_range. Qed.

Lemma indet_bytes_ok n : bytes (indet n).
Proof.
  unfold indet. apply Forall_take, Forall_app. split; [done|].
  apply Forall_replicate. unfold is_byte. lia.
Qed.

Lemma mem_read_run e io a buf (n : nat) :
  mem_ready e io -> io_span a (Z.of_nat n) -> (n <= length buf)%nat ->
  exists io', r_anal_esil_mem_read a buf (Z.of_nat n) e
    = Ok (Z.of_nat n, blit (io_bytes io a n) buf) (set_io io' e)
    /\ io_good io' /\ forall x, io_byte io' x = io_byte io x.
Proof.
  intros [P Hio _ Hg] Hsp Hn.
  destruct (io_read_ok io a buf (Z.of_nat n)) as (io' & Hr & Hs); [done|done|lia|].
  exists io'. split; [|done]. unfold r_anal_esil_mem_read. mrun. run_plain P. run_plain P.
  unfold internal_esil_mem_read, put_io. mrun. rewrite Hio, Hr. mrun.
  rewrite Z.eqb_refl. mrun. done.
Qed.

Lemma mem_write_run e io a buf (n : nat) :
  mem_ready e io -> io_span a (Z.of_nat n) ->
  (n <= length buf)%nat -> (0 < n <= 8)%nat -> bytes buf ->
  exists io', r_anal_esil_mem_write a buf (Z.of_nat n) e = Ok (Z.of_nat n) (set_io io' e)
    /\ io_good io' /\ forall x, 0 <= x < 2 ^ 64 -> io_byte io' x
         = if u64 (x - a) <? Z.of_nat n then byte_at buf (Z.to_nat (u64 (x - a)))
           else io_byte io x.
Proof.
  intros [P Hio Hw Hg] Hsp Hn H8 Hb.
  destruct (io_write_ok io a buf (Z.of_nat n)) as (io' & Hr & Hs); [done|done|lia|lia|done|].
  exists io'. split; [|done]. unfold r_anal_esil_mem_write. mrun. run_plain P. run_plain P.
  unfold internal_esil_mem_write, put_io. mrun. rewrite Hio, Hw, Hr. mrun.
  rewrite Z.eqb_refl. mrun. done.
Qed.

(** ** One store, one load *)

Definition byte_widths : list nat := [1; 2; 4; 8]%nat.

Lemma widths_cases n : n ∈ byte_widths -> n = 1%nat \/ n = 2%nat \/ n = 4%nat \/ n = 8%nat.
Proof. unfold byte_widths. rewrite !elem_of_cons, elem_of_nil. tauto. Qed.

Lemma widths_bits n : n ∈ byte_widths -> 8 * Z.of_nat n ∈ [8; 16; 32; 64].
Proof. intros H%widths_cases. set_unfold. lia. Qed.

Lemma le_bytes_mod n v : le_bytes n (v mod 2 ^ (8 * Z.of_nat n)) = le_bytes n v.
Proof.
  rewrite <- le_val_le_bytes. rewrite <- (length_le_bytes n v) at 1.
  apply le_bytes_le_val, le_bytes_bytes.
Qed.

Lemma ble_bytes_mod be n v : ble_bytes be n (v mod 2 ^ (8 * Z.of_nat n)) = ble_bytes be n v.
Proof. destruct be; simpl; unfold be_bytes; by rewrite le_bytes_mod. Qed.

(** [io'] is [io] with the bytes [b] at [a]. *)
Definition stored (io : IO) (a : Z) (b : list Z) (io' : IO) : Prop :=
  forall x, 0 <= x < 2 ^ 64 -> io_byte io' x
    = if u64 (x - a) <? Z.of_nat (length b) then byte_at b (Z.to_nat (u64 (x - a)))
      else io_byte io x.

(** The parts of the machine that memory operations leave alone. *)
Record same_regs e e' : Prop := {
  sr_reg : anal_reg (anal e') = anal_reg (anal e);
  sr_bits : anal_bits (anal e') = anal_bits (anal e);
  sr_be : anal_big_endian (anal e') = anal_big_endian (anal e);
  sr_size : stacksize e' = stacksize e;
  sr_trap : trap e' = trap e;
}.

#[export] Instance same_regs_preorder : PreOrder same_regs.
Proof. split; [by split|]. intros ??? [] []. split; congruence. Qed.

Lemma poke_run e io dst src rest addr v n :
  mem_ready e io -> io_span addr (Z.of_nat n) -> stack e = dst :: src :: rest -> n ∈ byte_widths ->
  value_of e dst = Some addr -> value_of e src = Some v ->
  parm_is_internal (parm_type_of (anal_reg (anal e)) src) = false ->
  exists e' io', esil_poke_n (8 * Z.of_nat n) e = Ok (Z.of_nat n) e'
    /\ stack e' = rest /\ mem_ready e' io' /\ same_regs e e'
    /\ stored io addr (ble_bytes (anal_big_endian (anal e)) n v) io'
    /\ cur e' = v /\ lastsz e' = 8 * Z.of_nat n.
Proof.
  intros R Hsp Hs Hn Ha Hv Hint. pose proof R as [P Hio Hw Hg].
  set (be := anal_big_endian (anal e)).
  pose proof (widths_cases n Hn) as Hc. pose proof (widths_bits n Hn) as H8.
  unfold esil_poke_n. rewrite genmask_spec by lia. mrun.
  rewrite (pop_cons _ _ _ Hs). mrun. erewrite pop_cons by done. mrun.
  replace (Z.quot (8 * Z.of_nat n) 8) with (Z.of_nat n) by (rewrite Z.mul_comm, Z.quot_mul; lia).
  replace (Z.rem (8 * Z.of_nat n) 8) with 0 by (rewrite Z.mul_comm, Z.rem_mul; lia).
  replace (Z.min 8 (Z.of_nat n)) with (Z.of_nat n) by lia. mrun.
  change (set_stack rest (set_stack (src :: rest) e)) with (set_stack rest e).
  unfold operand. mrun. rewrite (get_parm_plain _ _ v) by done. mrun.
  rewrite (get_parm_plain _ _ addr) by done. mrun.
  unfold r_anal_esil_get_parm_type, get_reg, get_big_endian. mrun.
  cbn [anal set_stack]. rewrite Hint. mrun.
  destruct (mem_read_run (set_stack rest e) io addr (indet 8) n) as (io1 & -> & Hg1 & Hio1);
    [by split|done|rewrite length_indet; lia|]. mrun.
  set (b := blit (io_bytes io addr n) (indet 8)).
  assert (length b = 8%nat) as Hlb by (unfold b; rewrite length_blit; apply length_indet).
  assert (bytes b) as Hbb by (apply blit_bytes; [apply io_bytes_bytes|apply indet_bytes_ok]).
  change (anal_big_endian (anal e)) with be.
  rewrite (r_write_ble_spec b _ be _ n eq_refl H8) by lia.
  replace (8 * Z.of_nat n - 1 + 1) with (8 * Z.of_nat n) by lia.
  rewrite pow2_mod_land by lia.
  change ((if be then be_bytes else le_bytes) n (v mod 2 ^ (8 * Z.of_nat n)))
    with (ble_bytes be n (v mod 2 ^ (8 * Z.of_nat n))). rewrite ble_bytes_mod.
  set (e1 := set_lastsz _ _).
  destruct (mem_write_run e1 io1 addr (blit (ble_bytes be n v) b) n) as (io2 & Hrun & Hg2 & Hst).
  { by split. } { done. } { rewrite length_blit. lia. } { lia. }
  { apply blit_bytes; [apply ble_bytes_bytes|done]. }
  rewrite Hrun. exists (set_io io2 e1), io2. split; [done|]. split_and!; try done.
  - intros x Hx. rewrite Hst, Hio1 by done. rewrite ble_bytes_len.
    pose proof (u64_range (x - addr)). destruct (Z.ltb_spec (u64 (x - addr)) (Z.of_nat n)); [|done].
    unfold byte_at. rewrite blit_lookup, ble_bytes_len, decide_True, decide_True by lia. done.
  - cbn. apply u8_id. set_unfold. lia.
Qed.

(** The value at an address. *)
Definition mem_value (io : IO) (be : bool) (a : Z) (n : nat) : Z := ble_val be (io_bytes io a n).

Lemma ble_val_range (be : bool) l : bytes l -> 0 <= ble_val be l < 2 ^ (8 * Z.of_nat (length l)).
Proof.
  intros Hb. destruct be; simpl; [|by apply le_val_range].
  unfold be_val. rewrite <- length_reverse. apply le_val_range, Forall_reverse, Hb.
Qed.

Lemma le_val_zeros n : le_val (replicate n 0) = 0.
Proof. induction n as [|n IH]; [done|]. cbn [replicate le_val]. rewrite IH. lia. Qed.

Lemma swapendian_reverse l n :
  n ∈ byte_widths -> length l = 8%nat ->
  r_mem_swapendian l l (Z.of_nat n) = reverse (take n l) ++ drop n l.
Proof.
  intros Hn%widths_cases Hl. do 8 (destruct l as [|? l]; [done|]). destruct l; [|done].
  destruct Hn as [->|[->|[->| ->]]]; reflexivity.
Qed.

(** The bytes read into a zeroed [ut64] and put in order. *)
Lemma peek_value (be : bool) l n :
  n ∈ byte_widths -> bytes l -> length l = n ->
  let b := r_read_ble64 (blit l (replicate 8 0)) false in
  (if be then le_val (r_mem_swapendian (le_bytes 8 b) (le_bytes 8 b) (Z.of_nat n)) else b)
  = ble_val be l.
Proof.
  intros Hn Hb Hl b. pose proof (widths_cases n Hn) as Hc.
  assert (bytes (blit l (replicate 8 0))) as Hbb.
  { apply blit_bytes; [done|]. apply Forall_replicate. unfold is_byte. lia. }
  assert (length (blit l (replicate 8 0)) = 8%nat) as H8 by (by rewrite length_blit).
  assert (b = le_val (blit l (replicate 8 0))) as Hbv.
  { unfold b, r_read_ble64. rewrite r_read_le64_spec by (done || lia). by rewrite take_ge by lia. }
  assert (blit l (replicate 8 0) = l ++ replicate (8 - n) 0) as Hbl.
  { unfold blit. rewrite take_ge by (rewrite length_replicate; lia). rewrite Hl. f_equal.
    apply list_eq. intros i. rewrite lookup_drop. destruct (decide (n + i < 8)%nat).
    - by rewrite !lookup_replicate_2 by lia.
    - rewrite !(proj2 (lookup_ge_None _ _)) by (rewrite length_replicate; lia). done. }
  destruct be.
  - assert (le_bytes 8 b = l ++ replicate (8 - n) 0) as ->.
    { rewrite <- Hbl, Hbv. rewrite <- H8 at 1. by apply le_bytes_le_val. }
    rewrite swapendian_reverse by (done || (rewrite length_app, length_replicate; lia)).
    rewrite take_app_length', drop_app_length' by done.
    rewrite le_val_app, le_val_zeros. unfold ble_val, be_val. lia.
  - rewrite Hbv, Hbl, le_val_app, le_val_zeros. simpl. lia.
Qed.

Lemma peek_run e io dst rest addr n :
  mem_ready e io -> io_span addr (Z.of_nat n) -> stack e = dst :: rest -> n ∈ byte_widths ->
  stackptr e <= stacksize e -> rn_value e dst = Some addr ->
  exists io', esil_peek_n (8 * Z.of_nat n) e
    = Ok (Z.of_nat n) (set_lastsz (8 * Z.of_nat n)
        (set_stack (fmt_0xllx (mem_value io (anal_big_endian (anal e)) addr n) :: rest)
           (set_io io' (set_stack rest e))))
    /\ io_good io' /\ forall x, io_byte io' x = io_byte io x.
Proof.
  intros R Hsp Hs Hn Hroom Ha. pose proof R as [P Hio Hw Hg].
  pose proof (widths_cases n Hn) as Hc. pose proof (widths_bits n Hn) as H8.
  unfold esil_peek_n. mrun. rewrite (pop_cons _ _ _ Hs). mrun.
  replace (Z.quot (8 * Z.of_nat n) 8) with (Z.of_nat n) by (rewrite Z.mul_comm, Z.quot_mul; lia).
  replace (Z.land (8 * Z.of_nat n) 7) with 0.
  2: { change 7 with (2 ^ 3 - 1). rewrite pow2_mod_land by lia. zlia. }
  mrun. rewrite (isregornum_plain _ _ addr) by done. mrun.
  rewrite genmask_spec by lia. mrun.
  destruct (mem_read_run (set_stack rest e) io addr (replicate 8 0) n) as (io1 & -> & Hio1);
    [by split|done|rewrite length_replicate; lia|]. mrun.
  exists io1. split; [|done].
  unfold get_big_endian. mrun. cbn [anal_big_endian anal set_io set_anal with_io set_stack].
  rewrite (peek_value (anal_big_endian (anal e)) (io_bytes io addr n) n Hn)
    by (apply io_bytes_bytes || apply length_io_bytes).
  rewrite push_room; [|done|].
  2: { unfold stackptr in *. rewrite Hs in Hroom. simpl in *. lia. }
  mrun. replace (8 * Z.of_nat n - 1 + 1) with (8 * Z.of_nat n) by lia.
  rewrite pow2_mod_land by lia. rewrite u8_id by (set_unfold; lia).
  rewrite Z.mod_small; [done|].
  pose proof (ble_val_range (anal_big_endian (anal e)) _ (io_bytes_bytes io addr n)) as Hr.
  by rewrite length_io_bytes in Hr.
Qed.

(** Reading where a store of the same width went. *)
Lemma stored_window io a b io' n :
  stored io a b io' -> length b = n -> (n <= 8)%nat -> io_bytes io' a n = b.
Proof.
  intros Hst Hl Hn. apply list_eq. intros i. unfold io_bytes.
  rewrite list_lookup_fmap. destruct (decide (i < n)%nat) as [Hi|Hi].
  - rewrite lookup_seqZ_lt by lia. simpl. rewrite Hst by apply u64_range.
    assert (u64 (u64 (a + (0 + Z.of_nat i)) - a) = Z.of_nat i) as -> by ulia.
    rewrite Nat2Z.id. destruct (Z.ltb_spec (Z.of_nat i) (Z.of_nat (length b))); [|lia].
    unfold byte_at. by destruct (lookup_lt_is_Some_2 b i ltac:(lia)) as [x ->].
  - rewrite lookup_seqZ_ge by lia. simpl. symmetry. apply lookup_ge_None. lia.
Qed.

Lemma mem_value_stored io be a n v io' :
  n ∈ byte_widths -> stored io a (ble_bytes be n v) io' ->
  mem_value io' be a n = v mod 2 ^ (8 * Z.of_nat n).
Proof.
  intros Hn%widths_cases Hst. unfold mem_value.
  rewrite (stored_window _ _ _ _ n Hst) by (apply ble_bytes_len || lia). apply ble_bytes_val.
Qed.

(** The width suffix [w] stands for [n] bytes on this machine. *)
Definition width_is e (w : width) (n : nat) : Prop :=
  match w with
  | W1 => n = 1%nat | W2 => n = 2%nat | W4 => n = 4%nat | W8 => n = 8%nat
  | Wbits => n ∈ byte_widths /\ anal_bits (anal e) = 8 * Z.of_nat n
  end.

Lemma width_is_in e w n : width_is e w n -> n ∈ byte_widths.
Proof. destruct w; simpl; [intros ->..|by intros []]; unfold byte_widths; set_unfold; tauto. Qed.

Lemma at_width_run f e w n : width_is e w n -> at_width f w e = f (8 * Z.of_nat n) e.
Proof.
  destruct w; simpl; [intros ->; reflexivity..|]. intros [_ H]. unfold at_width, get_bits. mrun.
  by rewrite H.
Qed.

(** C5: ["v,addr,=[n]"] stores the low [n] bytes of the value, in the byte
    order of the machine, at an address that the i/o layer serves and nowhere
    else; whatever the
    machine does next, as long as it leaves the memory alone, ["addr,[n]"]
    reads that value back. *)
Theorem esil_poke_peek e io dst src rest addr v w n :
  mem_ready e io -> io_span addr (Z.of_nat n) -> stack e = dst :: src :: rest -> width_is e w n ->
  value_of e dst = Some addr -> value_of e src = Some v ->
  parm_is_internal (parm_type_of (anal_reg (anal e)) src) = false ->
  exists e' io', run_op (Op_poke w) e = Ok (Z.of_nat n) e'
    /\ stack e' = rest /\ mem_ready e' io' /\ trap e' = trap e
    /\ stored io addr (ble_bytes (anal_big_endian (anal e)) n v) io'
    /\ forall e2 dst2 rest2, mem_ready e2 io' -> stack e2 = dst2 :: rest2 ->
         width_is e2 w n -> anal_big_endian (anal e2) = anal_big_endian (anal e) ->
         stackptr e2 <= stacksize e2 -> rn_value e2 dst2 = Some addr ->
         exists e3, run_op (Op_peek w) e2 = Ok (Z.of_nat n) e3
           /\ stack e3 = fmt_0xllx (v mod 2 ^ (8 * Z.of_nat n)) :: rest2.
Proof.
  intros R Hsp Hs Hw Ha Hv Hint. pose proof (width_is_in _ _ _ Hw) as Hn.
  destruct (poke_run e io dst src rest addr v n R Hsp Hs Hn Ha Hv Hint)
    as (e' & io' & Hrun & Hst & R' & Hsr & Hsto & _ & _).
  exists e', io'. cbn [run_op]. unfold esil_poke, esil_peek.
  rewrite (at_width_run _ _ _ _ Hw). split_and!; try done; [apply Hsr|].
  intros e2 dst2 rest2 R2 Hs2 Hw2 Hbe Hroom Ha2.
  destruct (peek_run e2 io' dst2 rest2 addr n R2 Hsp Hs2 Hn Hroom Ha2) as (io2 & Hrun2 & _).
  rewrite (at_width_run _ _ _ _ Hw2), Hrun2. eexists. split; [done|].
  cbn [stack set_lastsz set_stack]. by rewrite Hbe, (mem_value_stored _ _ _ _ _ _ Hn Hsto).
Qed.

(** ** Read, modify, write *)

Lemma stackptr_cons e s l : stack e = s :: l -> stackptr e = 1 + Z.of_nat (length l).
Proof. unfold stackptr. intros ->. simpl. lia. Qed.

(** An operand that reads the same whatever the flags are: it is no internal
    variable. *)
Definition stable_operand e (s : string) (v : Z) : Prop :=
  s <> EmptyString /\ is_internal s = false /\ value_of e s = Some v /\ rn_value e s = Some v.

Lemma stable_value e e' s v :
  anal_reg (anal e') = anal_reg (anal e) -> stable_operand e s v -> stable_operand e' s v.
Proof.
  intros E (Hne & Hi & Hv & Hr). split_and!; try done.
  - unfold value_of, reg_value in *. rewrite E. destruct (parm_type_of _ s) eqn:Hp; try done.
    unfold parm_type_of in Hp. rewrite Hi in Hp. repeat case_match; congruence.
  - unfold rn_value, reg_value in *. by rewrite Hi, E in *.
Qed.

Lemma rmw_flag (n : nat) :
  n ∈ byte_widths -> Z.land (b2z (z2b (Z.of_nat n))) (b2z (z2b (Z.of_nat n))) = 1.
Proof. intros H%widths_cases. by destruct H as [->|[->|[->| ->]]]. Qed.

Lemma mem_rmw_run e io dst rest extra addr result (f : Z -> Z) n :
  mem_ready e io -> io_span addr (Z.of_nat n) -> stack e = rest -> n ∈ byte_widths ->
  stackptr e + Z.of_nat (length extra) + 2 <= stacksize e -> stable_operand e dst addr ->
  let d := mem_value io (anal_big_endian (anal e)) addr n in
  0 <= f d < 2 ^ 64 ->
  (forall e1, plain e1 -> stacksize e1 = stacksize e -> stack e1 = rest ->
     result d e1 = Ok (f d) (set_stack (extra ++ rest) e1)) ->
  exists e' io', mem_rmw dst result (8 * Z.of_nat n) e = Ok 1 e'
    /\ stack e' = extra ++ rest /\ mem_ready e' io' /\ same_regs e e'
    /\ stored io addr (ble_bytes (anal_big_endian (anal e)) n (f d)) io'.
Proof.
  intros R Hsp Hs Hn Hroom Hst d Hf Hres. pose proof R as [P Hio Hw Hg].
  set (be := anal_big_endian (anal e)) in *.
  assert (stackptr e = Z.of_nat (length rest)) as Hptr by (unfold stackptr; by rewrite Hs).
  pose proof Hst as (Hne & Hni & Hv & Hrn).
  unfold mem_rmw. mrun. rewrite push_room by (done || lia). mrun. rewrite Hs.
  destruct (peek_run (set_stack (dst :: rest) e) io dst rest addr n) as (io1 & -> & Hg1 & Hio1);
    [by split|done|done|done| |done|].
  { rewrite (stackptr_cons _ dst rest) by done. cbn [stacksize set_stack]. lia. }
  mrun. cbn [anal set_stack]. fold be d.
  set (e2 := set_lastsz _ _). erewrite (pop_cons e2) by done. mrun.
  assert (0 <= d < 2 ^ 64) as Hd.
  { pose proof (ble_val_range be _ (io_bytes_bytes io addr n)) as Hr. rewrite length_io_bytes in Hr.
    change (ble_val be (io_bytes io addr n)) with d in Hr.
    assert (2 ^ (8 * Z.of_nat n) <= 2 ^ 64); [|lia].
    apply Z.pow_le_mono_r; [lia|]. apply widths_cases in Hn. lia. }
  unfold operand. mrun. rewrite (get_parm_plain _ _ d) by (done || by apply value_of_fmt). mrun.
  rewrite Hres by done. mrun. unfold r_anal_esil_pushnum.
  assert (forall l, length l = length (extra ++ rest) \/ length l = S (length (extra ++ rest)) ->
    stackptr (set_stack l e2) < stacksize (set_stack l e2)) as Hroom2.
  { intros l Hl. unfold stackptr. cbn [stack set_stack]. change (stacksize (set_stack l e2)) with (stacksize e).
    rewrite length_app in Hl. lia. }
  rewrite push_room; [|done|by apply Hroom2; left]. mrun.
  rewrite push_room; [|done|by apply Hroom2; right]. mrun.
  set (e5 := set_stack (dst :: _) _).
  assert (anal_reg (anal e5) = anal_reg (anal e)) as Er by done.
  pose proof (stable_value e e5 dst addr Er Hst) as (_ & _ & Hv5 & _).
  destruct (poke_run e5 io1 dst (fmt_0xllx (f d)) (extra ++ rest) addr (f d) n)
    as (e' & io' & -> & Hs' & R' & Hsr & Hsto & _ & _).
  { by split. } { done. } { done. } { done. } { done. } { by apply value_of_fmt. } { apply fmt_not_internal. }
  mrun. rewrite (rmw_flag n Hn). exists e', io'. split; [done|]. split_and!; try done.
  - etransitivity; [|exact Hsr]. by split.
  - intros x Hx. rewrite Hsto by done. by rewrite Hio1.
Qed.

(** The value a memory update stores, from the one in memory and the source. *)
Definition mem_update_meaning (op : RAnalEsilOp) (d s : Z) : option (width * Z) :=
  match op with
  | Op_mem_addeq w => Some (w, u64 (d + s))
  | Op_mem_subeq w => Some (w, u64 (d - s))
  | Op_mem_muleq w => Some (w, u64 (d * s))
  | Op_mem_andeq w => Some (w, Z.land d s)
  | Op_mem_oreq w => Some (w, Z.lor d s)
  | Op_mem_xoreq w => Some (w, Z.lxor d s)
  | Op_mem_diveq w => if s =? 0 then None else Some (w, d / s)
  | _ => None
  end.

Lemma mem_op_run e dst src rest s body :
  plain e -> stack e = dst :: src :: rest -> value_of e src = Some s ->
  mem_op body e = body dst s (set_stack rest e).
Proof.
  intros P Hs Hv. unfold mem_op. mrun. rewrite (pop_cons _ _ _ Hs). mrun.
  erewrite pop_cons by done. unfold operand. mrun. by rewrite (get_parm_plain _ _ s) by done.
Qed.

Lemma muleq_width_run e w n :
  width_is e w n -> esil_mem_muleq w e = esil_mem_muleq_n (8 * Z.of_nat n) e.
Proof.
  destruct w; try apply (at_width_run _ e _ n). intros [Hn Hb]. unfold esil_mem_muleq, get_bits.
  mrun. rewrite Hb. apply widths_cases in Hn as [->|[->|[->| ->]]]; reflexivity.
Qed.


(** ["s,addr,%=[n]"] stores the remainder as meant, but leaves one copy
    of it on the stack: the handler pushes it twice and pops it once. *)
Theorem esil_mem_modeq_leaves_copy e io dst src rest addr s w n :
  mem_ready e io -> io_span addr (Z.of_nat n) -> stack e = dst :: src :: rest -> stackptr e + 1 <= stacksize e ->
  width_is e w n -> stable_operand e dst addr -> value_of e src = Some s -> 0 < s ->
  let d := mem_value io (anal_big_endian (anal e)) addr n in
  exists e' io', run_op (Op_mem_modeq w) e = Ok 1 e'
    /\ stack e' = fmt_0xllx (d mod s) :: rest /\ mem_ready e' io'
    /\ stored io addr (ble_bytes (anal_big_endian (anal e)) n (d mod s)) io'.
Proof.
  intros R Hsp Hs Hroom Hw Hst Hv Hpos d. pose proof R as [P Hio Hnw Hg].
  pose proof (width_is_in _ _ _ Hw) as Hn. rewrite (stackptr_cons _ _ _ Hs) in Hroom. simpl in Hroom.
  cbn [run_op]. unfold esil_mem_modeq. rewrite (at_width_run _ _ _ _ Hw). unfold esil_mem_modeq_n.
  rewrite (mem_op_run _ _ _ _ _ _ P Hs Hv). destruct (Z.eqb_spec s 0); [lia|].
  destruct (mem_rmw_run (set_stack rest e) io dst rest [fmt_0xllx (d mod s)] addr
    (fun d => r_anal_esil_pushnum (d mod s) ;; mret (d mod s)) (fun d => d mod s) n)
    as (e' & io' & H); [by split|done|done|done| |by eapply stable_value; [|exact Hst]| | |].
  - unfold stackptr. cbn [stack stacksize set_stack length]. lia.
  - pose proof (ble_val_range (anal_big_endian (anal e)) _ (io_bytes_bytes io addr n)) as Hr.
    rewrite length_io_bytes in Hr. cbn [anal set_stack].
    change (mem_value io (anal_big_endian (anal e)) addr n) with d.
    change (0 <= d < 2 ^ (8 * Z.of_nat n)) in Hr.
    assert (2 ^ (8 * Z.of_nat n) <= 2 ^ 64) by (apply Z.pow_le_mono_r; [lia|]; apply widths_cases in Hn; lia).
    pose proof (Z.mod_pos_bound d s Hpos). pose proof (Z.mod_le d s). lia.
  - intros e1 P1 Hss Hs1. mrun. unfold r_anal_esil_pushnum. rewrite push_room; [|done|].
    + mrun. by rewrite Hs1.
    + unfold stackptr. rewrite Hs1, Hss. cbn [stacksize set_stack]. lia.
  - exists e', io'. destruct H as (H1 & H2 & H3 & H4 & H5). split_and!; try done.
Qed.

End Memory.

(** ** Applied to the machine of [EsilDemo] *)

Lemma demo_indet : bytes (indet_bytes (IO := flat)).
Proof. apply Forall_replicate. unfold is_byte. lia. Qed.

Lemma demo_mem_ready l : mem_ready (with_operands l) (∅ : flat).
Proof. by split. Qed.

Lemma esil_poke_peek_witness :
  let e := with_operands ["0x100"; "0xcafebabe"]%string in
  exists e' io', run_op (Op_poke W2) e = Ok (Z.of_nat 2) e'
    /\ stack e' = [] /\ mem_ready e' io' /\ trap e' = trap e
    /\ stored ∅ 0x100 (ble_bytes (anal_big_endian (anal e)) 2 0xcafebabe) io'
    /\ forall e2 dst2 rest2, mem_ready e2 io' -> stack e2 = dst2 :: rest2 ->
         width_is e2 W2 2 -> anal_big_endian (anal e2) = anal_big_endian (anal e) ->
         stackptr e2 <= stacksize e2 -> rn_value e2 dst2 = Some 0x100 ->
         exists e3, run_op (Op_peek W2) e2 = Ok (Z.of_nat 2) e3
           /\ stack e3 = fmt_0xllx (0xcafebabe mod 2 ^ (8 * Z.of_nat 2)) :: rest2.
Proof.
  intros e. apply (esil_poke_peek demo_indet e ∅ "0x100" "0xcafebabe" [] 0x100 0xcafebabe W2 2);
    [apply demo_mem_ready|exact I|vm_compute; reflexivity..].
Defined.


Lemma esil_mem_modeq_leaves_copy_witness :
  let e := with_operands ["0x100"; "7"]%string in
  let d := mem_value (∅ : flat) (anal_big_endian (anal e)) 0x100 1 in
  exists e' io', run_op (Op_mem_modeq W1) e = Ok 1 e'
    /\ stack e' = [fmt_0xllx (d mod 7)] /\ mem_ready e' io'
    /\ stored ∅ 0x100 (ble_bytes (anal_big_endian (anal e)) 1 (d mod 7)) io'.
Proof.
  intros e. apply (esil_mem_modeq_leaves_copy demo_indet e ∅ "0x100" "7" [] 0x100 7 W1 1);
    [apply demo_mem_ready|exact I|reflexivity|vm_compute; discriminate|reflexivity| |vm_compute; reflexivity|lia].
  split_and!; [discriminate|vm_compute; reflexivity..].
Defined.
