(* ===== verification/EsilWords.v ===== *)
(** * The abstract word machine

    [r_anal_esil_parse] reads characters; what it means is simpler: an
    expression is a list of words, executed in order, with jumps to a word
    index.  This file states that machine and proves that the parser, on the
    words joined by commas, computes exactly its outcome. *)

From S2P Require Import Prelude Num Sdb Reg EsilState EsilOps EsilParse EsilFrame EsilParseFacts EsilDemo.

(** ** Words and their concatenation *)

Definition plain_char (c : ascii) : bool := negb (is_char c ",") && negb (is_char c ";").

(** A word: not empty, without separators, and short enough for [word[64]]. *)
Record wf_word (w : string) : Prop := {
  ww_nonempty : w <> EmptyString;
  ww_chars : forallb plain_char (String.list_ascii_of_string w) = true;
  ww_short : (String.length w <= 62)%nat;
}.

Fixpoint join (ws : list string) : string :=
  match ws with
  | [] => EmptyString
  | [w] => w
  | w :: ws => String.append w (String "," (join ws))
  end.

Lemma append_snoc s c t : String.append (snoc s c) t = String.append s (String c t).
Proof.
  unfold snoc. induction s as [|a s IH]; [done|]. by rewrite !append_cons, IH.
Qed.

Lemma join_cons w ws :
  ws <> [] -> join (w :: ws) = String.append w (String "," (join ws)).
Proof. by destruct ws. Qed.

(** ** Jumping to a word *)

Lemma goto_from_cons a str ostr c n :
  goto_from (String a str) ostr c n
  = if c =? n then Some ostr
    else if is_char (char_at str 0) "," then goto_from str (str_drop 1 str) (c + 1) n
    else goto_from str ostr c n.
Proof. reflexivity. Qed.

Lemma goto_from_word w a t ostr c n :
  forallb plain_char (String.list_ascii_of_string w) = true -> c <> n ->
  goto_from (String a (String.append w (String "," t))) ostr c n = goto_from (String "," t) t (c + 1) n.
Proof.
  intros Hw Hc. revert a ostr. induction w as [|b w IH]; intros a ostr.
  - rewrite append_nil_l, goto_from_cons. by destruct (Z.eqb_spec c n).
  - rewrite append_cons. simpl in Hw. apply andb_true_iff in Hw as [Hb Hw].
    rewrite goto_from_cons. destruct (Z.eqb_spec c n); [done|].
    assert (is_char b "," = false) as Hb'.
    { unfold plain_char in Hb. by apply andb_true_iff in Hb as [?%negb_true_iff _]. }
    change (char_at (String b (String.append w (String "," t))) 0) with b. rewrite Hb'.
    by apply IH.
Qed.

Lemma goto_from_last w a ostr c n :
  forallb plain_char (String.list_ascii_of_string w) = true -> c <> n ->
  goto_from (String a w) ostr c n = None.
Proof.
  intros Hw Hc. revert a ostr. induction w as [|b w IH]; intros a ostr.
  - cbn. by destruct (Z.eqb_spec c n).
  - simpl in Hw. apply andb_true_iff in Hw as [Hb Hw].
    rewrite goto_from_cons. destruct (Z.eqb_spec c n); [done|].
    assert (is_char b "," = false) as Hb'.
    { unfold plain_char in Hb. by apply andb_true_iff in Hb as [?%negb_true_iff _]. }
    change (char_at (String b w) 0) with b. rewrite Hb'. by apply IH.
Qed.

(** The first character of the joined words is no separator. *)
Lemma join_head ws :
  ws <> [] -> Forall wf_word ws ->
  exists a s, join ws = String a s /\ plain_char a = true /\ join ws <> EmptyString.
Proof.
  intros Hne Hws. destruct ws as [|w ws]; [done|]. inversion Hws as [|? ? [Hn Hc _] _]; subst.
  destruct w as [|a w]; [done|]. simpl in Hc. apply andb_true_iff in Hc as [Ha _].
  destruct ws; simpl; rewrite ?append_cons; eauto.
Qed.

Lemma goto_from_join ws c n :
  ws <> [] -> Forall wf_word ws ->
  goto_from (join ws) (join ws) c n
  = if (c <=? n) && (n <? c + Z.of_nat (length ws)) then Some (join (drop (Z.to_nat (n - c)) ws))
    else None.
Proof.
  revert c. induction ws as [|w ws IH]; intros c Hne Hws; [done|].
  pose proof Hws as Hall. inversion Hws as [|? ? [Hn Hc _] Hws']; subst.
  destruct w as [|a w]; [done|]. simpl in Hc. apply andb_true_iff in Hc as [Ha Hc].
  destruct (decide (c = n)) as [->|Hcn].
  { destruct (join_head (String a w :: ws)) as (b & s & Hj & _); [done|done|]. rewrite Hj.
    cbn [goto_from]. rewrite Z.eqb_refl, <- Hj.
    destruct (Z.leb_spec n n); [|lia]. simpl length.
    destruct (Z.ltb_spec n (n + Z.of_nat (S (length ws)))); [|lia].
    by replace (Z.to_nat (n - n)) with 0%nat by lia. }
  destruct ws as [|w2 ws].
  - simpl join. rewrite goto_from_last by done. simpl length.
    destruct (Z.leb_spec c n), (Z.ltb_spec n (c + Z.of_nat 1)); try done; lia.
  - rewrite join_cons by done. rewrite append_cons, goto_from_word by done.
    assert (goto_from (String "," (join (w2 :: ws))) (join (w2 :: ws)) (c + 1) n
      = goto_from (join (w2 :: ws)) (join (w2 :: ws)) (c + 1) n) as ->.
    { destruct (join_head (w2 :: ws)) as (b & s & Hj & Hb & _); [done|done|]. rewrite Hj.
      cbn [goto_from]. destruct (Z.eqb_spec (c + 1) n); [done|].
      change (char_at (String b s) 0) with b. unfold plain_char in Hb.
      apply andb_true_iff in Hb as [Hb%negb_true_iff _]. rewrite Hb. simpl.
      by destruct (Z.eqb_spec (c + 1) n). }
    rewrite IH by done. simpl length.
    destruct (Z.leb_spec c n), (Z.leb_spec (c + 1) n), (Z.ltb_spec n (c + 1 + Z.of_nat (S (length ws)))),
      (Z.ltb_spec n (c + Z.of_nat (S (S (length ws))))); simpl; try done; try lia.
    replace (Z.to_nat (n - c)) with (S (Z.to_nat (n - (c + 1)))) by lia. done.
Qed.

Lemma gotoWord_join ws n :
  ws <> [] -> Forall wf_word ws ->
  gotoWord (join ws) n
  = if (0 <=? n) && (n <? Z.of_nat (length ws)) then Some (join (drop (Z.to_nat n) ws)) else None.
Proof.
  intros. unfold gotoWord. rewrite goto_from_join by done. by rewrite Z.sub_0_r.
Qed.

(** ** The machine *)

Section Machine.
Context {IO : Type} {Env : EsilEnv IO}.
Implicit Types e : RAnalEsil IO.
Abbreviation E := (M (RAnalEsil IO)).

(** One turn: run the word of index [i], then leave, jump, or go on. *)
Definition word_step (ws : list string) (i : nat) : E (nat + Z) :=
  match ws !! i with
  | None => mret (inr 1)
  | Some w =>
      r ← runword w;
      if r =? 0 then mret (inr 0)
      else
        e ← gets id;
        if repeat e then parse_reset ;; mret (inl 0%nat)
        else if negb (parse_goto e =? -1) then
          if (0 <=? parse_goto e) && (parse_goto e <? Z.of_nat (length ws)) then
            modify (set_parse_goto (-1)) ;; mret (inl (Z.to_nat (parse_goto e)))
          else mret (inr 0)
        else if z2b (parse_stop e) then mret (inr 0)
        else mret (inl (S i))
  end.

Definition run_words (ws : list string) (e : RAnalEsil IO) : outcome (RAnalEsil IO) (nat + Z) :=
  for_upto (Z.max 1 (anal_esil_goto_limit (anal e)) + 1) (word_step ws) 0%nat (parse_start e).

(** ** Reading a word *)

Lemma parse_step_char ostr c rest acc e :
  plain_char c = true -> (String.length acc <= 62)%nat ->
  parse_step ostr (String c rest, acc) e = Ok (inl (rest, snoc acc c)) e.
Proof.
  intros Hc Hl. unfold parse_step. unfold plain_char in Hc.
  apply andb_true_iff in Hc as [H1%negb_true_iff H2%negb_true_iff].
  destruct (Nat.ltb_spec 62 (String.length acc)); [lia|]. by rewrite H1, H2.
Qed.

Lemma read_word ostr w rest acc e o :
  forallb plain_char (String.list_ascii_of_string w) = true ->
  (String.length acc + String.length w <= 62)%nat ->
  Loop (parse_step ostr) (rest, String.append acc w) e o ->
  Loop (parse_step ostr) (String.append w rest, acc) e o.
Proof.
  revert acc. induction w as [|c w IH]; intros acc Hw Hl HL.
  - by rewrite append_nil_r in HL.
  - simpl in Hw, Hl. apply andb_true_iff in Hw as [Hc Hw]. rewrite append_cons.
    eapply Loop_turn; [apply parse_step_char; [done|lia]|].
    apply IH; [done|rewrite length_snoc; lia|]. by rewrite append_snoc.
Qed.

(** What is left of the expression after a word, when [l] are the words that
    follow, and what the parser does when the action is to go on. *)
Definition tail (l : list string) : string :=
  match l with [] => EmptyString | _ => String "," (join l) end.
Definition next_turn (l : list string) : string * string + Z :=
  match l with [] => inr 1 | _ => inl (take_char (join l) EmptyString) end.

Lemma join_tail w l : join (w :: l) = String.append w (tail l).
Proof. destruct l; [by rewrite append_nil_r|done]. Qed.

Lemma parse_step_sep ostr l w :
  wf_word w -> parse_step ostr (tail l, w) = finish_word ostr (tail l) w (mret (next_turn l)).
Proof.
  intros [Hne _ Hl]. destruct l as [|w2 l]; unfold parse_step, tail.
  - by rewrite bool_decide_eq_false_2.
  - destruct (Nat.ltb_spec 62 (String.length w)); [lia|].
    change (is_char "," ";" || is_char "," ",") with true. by rewrite bool_decide_eq_false_2.
Qed.

Lemma evalWord_tail ws l e :
  ws <> [] -> Forall wf_word ws -> Forall wf_word l ->
  evalWord (join ws) (tail l) e
  = if repeat e then Ok (A_loop, tail l) e
    else if negb (parse_goto e =? -1) then
      if (0 <=? parse_goto e) && (parse_goto e <? Z.of_nat (length ws))
      then Ok (A_continue, join (drop (Z.to_nat (parse_goto e)) ws)) (set_parse_goto (-1) e)
      else Ok (A_stop, tail l) e
    else if z2b (parse_stop e) then Ok (A_stop, tail l) e
    else Ok (A_next, tail l) e.
Proof.
  intros Hne Hws Hl.
  assert (negb (bool_decide (tail l = EmptyString)) && is_char (char_at (tail l) 1) "," = false) as Hsep.
  { destruct l as [|w l]; [done|].
    destruct (join_head (w :: l)) as (b & t & Hj & Hb & _); [done|done|].
    unfold tail. rewrite Hj. unfold plain_char in Hb. apply andb_true_iff in Hb as [Hb%negb_true_iff _].
    change (char_at (String "," (String b t)) 1) with b. by rewrite Hb, andb_false_r. }
  unfold evalWord. mrun. rewrite Hsep. destruct (repeat e); [done|].
  destruct (parse_goto e =? -1) eqn:Eg; simpl negb; cbv iota.
  - by destruct (z2b (parse_stop e)).
  - rewrite gotoWord_join by done. clear Hsep.
    by destruct ((0 <=? parse_goto e) && (parse_goto e <? Z.of_nat (length ws))).
Qed.

(** The parser in front of the joined words, seen after its first turn. *)
Lemma next_turn_Loop ostr l e o :
  Forall wf_word l ->
  Loop (parse_step ostr) (join l, EmptyString) e o ->
  match next_turn l with
  | inr b => o = Ok b e
  | inl st => Loop (parse_step ostr) st e o
  end.
Proof.
  intros Hl HL. destruct l as [|w l]; unfold next_turn.
  - eapply Loop_inv_exit; [|exact HL]. done.
  - destruct (join_head (w :: l)) as (b & t & Hj & Hb & _); [done|done|]. rewrite Hj in *.
    eapply Loop_inv_turn; [|exact HL]. apply parse_step_char; [done|simpl; lia].
Qed.

(** Every turn of the word machine is a run of turns of the parser. *)
Lemma words_simulation ws i e o :
  ws <> [] -> Forall wf_word ws ->
  Loop (word_step ws) i e o ->
  Loop (parse_step (join ws)) (join (drop i ws), EmptyString) e o.
Proof.
  intros Hne Hws HL.
  assert (forall i w l, ws !! i = Some w -> drop (S i) ws = l ->
    wf_word w /\ Forall wf_word l /\ join (drop i ws) = String.append w (tail l)) as Hdrop.
  { clear -Hws. intros i w l Hi <-. split; [by eapply Forall_lookup_1|].
    split; [by apply Forall_drop|]. by rewrite (drop_S ws w i Hi), join_tail. }
  assert (forall i e, match ws !! i with
    | None => parse_step (join ws) (join (drop i ws), EmptyString) e = Ok (inr 1) e
    | Some w => forall o, Loop (parse_step (join ws)) (tail (drop (S i) ws), w) e o ->
        Loop (parse_step (join ws)) (join (drop i ws), EmptyString) e o
    end) as Hread.
  { intros i' e'. destruct (ws !! i') as [w|] eqn:Ei.
    - destruct (Hdrop i' w _ Ei eq_refl) as ([_ Hc Hlen] & _ & ->). intros o' Ho.
      apply read_word; [done|simpl; lia|]. by rewrite append_nil_l.
    - by rewrite drop_ge by (by apply lookup_ge_None). }
  assert (forall i w e, ws !! i = Some w ->
    parse_step (join ws) (tail (drop (S i) ws), w) e
    = match runword w e with
      | Undef u => Undef u
      | Ok r e1 =>
          if r =? 0 then Ok (inr 0) e1
          else if repeat e1 then (parse_reset ;; mret (inl (join ws, EmptyString))) e1
          else if negb (parse_goto e1 =? -1) then
            if (0 <=? parse_goto e1) && (parse_goto e1 <? Z.of_nat (length ws))
            then Ok (inl (join (drop (Z.to_nat (parse_goto e1)) ws), EmptyString)) (set_parse_goto (-1) e1)
            else Ok (inr 0) e1
          else if z2b (parse_stop e1) then Ok (inr 0) e1
          else Ok (next_turn (drop (S i) ws)) e1
      end) as Hturn.
  { intros i' w e' Ei. destruct (Hdrop i' w _ Ei eq_refl) as (Hw & Hl & _).
    rewrite parse_step_sep by done. unfold finish_word. mrun.
    destruct (runword w e') as [r e1|u]; [|done]. destruct (r =? 0); [done|].
    mrun. rewrite evalWord_tail by done.
    destruct (repeat e1); [done|]. destruct (parse_goto e1 =? -1); simpl negb; cbv iota.
    - by destruct (z2b (parse_stop e1)).
    - by destruct ((0 <=? parse_goto e1) && (parse_goto e1 <? Z.of_nat (length ws))). }
  assert (forall i e, word_step ws i e = match ws !! i with
    | None => Ok (inr 1) e
    | Some w =>
      match runword w e with
      | Undef u => Undef u
      | Ok r e1 =>
          if r =? 0 then Ok (inr 0) e1
          else if repeat e1 then (parse_reset ;; mret (inl 0%nat)) e1
          else if negb (parse_goto e1 =? -1) then
            if (0 <=? parse_goto e1) && (parse_goto e1 <? Z.of_nat (length ws))
            then Ok (inl (Z.to_nat (parse_goto e1))) (set_parse_goto (-1) e1)
            else Ok (inr 0) e1
          else if z2b (parse_stop e1) then Ok (inr 0) e1
          else Ok (inl (S i)) e1
      end end) as Hword.
  { intros i' e'. unfold word_step. destruct (ws !! i') as [w|]; [|done]. mrun.
    destruct (runword w e') as [r e1|u]; [|done]. destruct (r =? 0); [done|]. mrun.
    destruct (repeat e1); [done|]. destruct (parse_goto e1 =? -1); simpl negb; cbv iota.
    - by destruct (z2b (parse_stop e1)).
    - by destruct ((0 <=? parse_goto e1) && (parse_goto e1 <? Z.of_nat (length ws))). }
  induction HL as [i e b e' Hb|i e u Hu|i e j e' o Hj HL IH];
    pose proof (Hread i e) as Hr; rewrite Hword in *;
    (destruct (ws !! i) as [w|] eqn:Ei; [apply Hr; specialize (Hturn i w e Ei); clear Hr|]).
  - apply Loop_exit. rewrite Hturn. destruct (runword w e) as [r e1|]; [|done].
    destruct (r =? 0); [congruence|]. destruct (repeat e1).
    { exfalso. revert Hb. rewrite run_bind. destruct (parse_reset e1); discriminate. }
    destruct (negb (parse_goto e1 =? -1)).
    { destruct ((0 <=? parse_goto e1) && (parse_goto e1 <? Z.of_nat (length ws))); congruence. }
    destruct (z2b (parse_stop e1)); congruence.
  - apply Loop_exit. rewrite Hr. congruence.
  - apply Loop_undef. rewrite Hturn. destruct (runword w e) as [r e1|]; [|congruence].
    destruct (r =? 0); [done|]. destruct (repeat e1).
    { revert Hu. rewrite !run_bind. destruct (parse_reset e1); [discriminate|]. congruence. }
    destruct (negb (parse_goto e1 =? -1)).
    { destruct ((0 <=? parse_goto e1) && (parse_goto e1 <? Z.of_nat (length ws))); congruence. }
    destruct (z2b (parse_stop e1)); congruence.
  - done.
  - destruct (runword w e) as [r e1|] eqn:Erun; [|done].
    destruct (r =? 0); [done|]. destruct (repeat e1).
    { rewrite run_bind in Hj. destruct (parse_reset e1) as [[] e2|] eqn:Er; [|done].
      injection Hj as <- <-. eapply Loop_turn; [rewrite Hturn, run_bind, Er; reflexivity|]. exact IH. }
    destruct (negb (parse_goto e1 =? -1)).
    { destruct ((0 <=? parse_goto e1) && (parse_goto e1 <? Z.of_nat (length ws))); [|done].
      injection Hj as <- <-. eapply Loop_turn; [exact Hturn|exact IH]. }
    destruct (z2b (parse_stop e1)); [done|]. injection Hj as <- <-.
    destruct (Hdrop i w _ Ei eq_refl) as (_ & Hl & _).
    pose proof (next_turn_Loop (join ws) _ e1 o Hl IH) as Hn.
    destruct (next_turn (drop (S i) ws)) as [st|b] eqn:En.
    + by eapply Loop_turn; [exact Hturn|].
    + subst o. by apply Loop_exit.
  - done.
Qed.

(** ** The parser is the word machine *)

Section Equivalence.
Context {EF : EnvFrame}.

Lemma run_words_exit ws e :
  match run_words ws e with Ok (inl _) _ => False | _ => True end.
Proof.
  unfold run_words.
  pose proof (for_upto_measure (fun _ e => repeat e = false) (fun _ e => Z.max 0 (parse_goto_count e))
    (fun _ _ => True) (word_step ws)) as H.
  match type of H with ?P -> _ => assert P as HP end.
  { intros i e1 Hr. unfold word_step. destruct (ws !! i) as [w|]; [|done]. rewrite run_bind.
    pose proof (runword_spec w e1) as Hw. destruct (runword w e1) as [r e2|]; [|done].
    destruct Hw as (R & C & _ & _ & _ & N). destruct (Z.eqb_spec r 0); [done|]. specialize (N n).
    mrun. rewrite R, Hr. destruct (negb (parse_goto e2 =? -1)).
    - destruct (_ && _); [|done]. mrun. cbn [repeat parse_goto_count set_parse_goto]. split; [by rewrite <- Hr, <- R|lia].
    - destruct (z2b _); [done|]. cbn [repeat parse_goto_count set_parse_goto]. split; [by rewrite <- Hr, <- R|lia]. }
  specialize (H HP (Z.max 1 (anal_esil_goto_limit (anal e)) + 1) 0%nat (parse_start e) eq_refl).
  assert (0 <= Z.max 0 (parse_goto_count (parse_start e))
    < Z.max 1 (anal_esil_goto_limit (anal e)) + 1) as Hm by (cbn; lia).
  specialize (H Hm). by destruct (for_upto _ _ _ _) as [[]|].
Qed.

(** A finished run of the word machine is its result. *)
Lemma run_words_result ws e r e' :
  Loop (word_step ws) 0%nat (parse_start e) (Ok r e') -> run_words ws e = Ok (inr r) e'.
Proof.
  intros HL. pose proof (run_words_exit ws e) as X. unfold run_words in *.
  pose proof (for_upto_Loop _ (Z.max 1 (anal_esil_goto_limit (anal e)) + 1) _ _ _ HL) as Hl.
  destruct (for_upto _ _ _ _) as [[j|b] e2|u]; [done| |discriminate Hl].
  by injection Hl as -> ->.
Qed.

(** The equivalence, for the results that build on it. *)
Lemma parse_words_run ws e :
  ws <> [] -> Forall wf_word ws ->
  r_anal_esil_parse (join ws) e
  = match run_words ws e with
    | Ok (inr r) e' => Ok (Some r) e'
    | Ok (inl _) e' => Ok None e'
    | Undef u => Undef u
    end.
Proof.
  intros Hne Hws.
  destruct (join_head ws Hne Hws) as (_ & _ & _ & _ & Hj).
  rewrite parse_unfold by done.
  destruct (Loop_for_upto _ _ _ _ (run_words_exit ws e)) as [o Ho].
  pose proof (for_upto_Loop _ (Z.max 1 (anal_esil_goto_limit (anal e)) + 1) _ _ o Ho) as Hw.
  pose proof (words_simulation ws 0 (parse_start e) o Hne Hws Ho) as Hp. rewrite drop_0 in Hp.
  pose proof (for_upto_Loop _ (parse_fuel (anal_esil_goto_limit (anal e)) (join ws)) _ _ o Hp) as Hl.
  pose proof (run_words_exit ws e) as X1. pose proof (parse_loop_exit (join ws) e) as X2.
  unfold run_words in *.
  destruct (for_upto _ (word_step ws) _ _) as [[i|r] e1|u]; [done| |];
    destruct (for_upto _ (parse_step (join ws)) _ _) as [[st|r'] e2|u']; try done;
    simpl in Hw, Hl; congruence.
Qed.
(** C2: on well-formed words joined by commas, [r_anal_esil_parse] computes
    what the word machine computes: same result, same machine, same
    undefined behaviour, jumps, skips, stops and the execution budget
    included. *)
Theorem r_anal_esil_parse_words ws e :
  ws <> [] -> Forall wf_word ws ->
  r_anal_esil_parse (join ws) e
  = match run_words ws e with
    | Ok (inr r) e' => Ok (Some r) e'
    | Ok (inl _) e' => Ok None e'
    | Undef u => Undef u
    end.
Proof. apply parse_words_run. Qed.
End Equivalence.

End Machine.

Lemma r_anal_esil_parse_words_witness :
  let ws := ["rax"; "++="; "5"; "rax"; "<"; "?{"; "0"; "GOTO"; "}"; "rax"]%string in
  r_anal_esil_parse (join ws) demo_esil
  = match run_words ws demo_esil with
    | Ok (inr r) e' => Ok (Some r) e'
    | Ok (inl _) e' => Ok None e'
    | Undef u => Undef u
    end.
Proof.
  intros ws. apply (@r_anal_esil_parse_words flat flat_env flat_frame); [discriminate|].
  repeat (constructor; [split; [discriminate|reflexivity|vm_compute; lia]|]). constructor.
Defined.
