(* ===== verification/EsilExpr.v ===== *)
(** * Arithmetic compiled to ESIL

    The disassemblers emit ESIL in reverse Polish notation.  Here an
    expression over registers and numbers is compiled that way, and the whole
    interpreter (parser, dispatch, handlers, registers) is proved to leave its
    value on the stack. *)

From S2P Require Import Prelude Endian Mem Num Sdb Reg RegFacts EsilState EsilOps EsilParse.
From S2P Require Import EsilFrame EsilDemo EsilParseFacts EsilWords EsilSpec.

Inductive aexp : Type :=
  | Lit (n : Z)
  | Var (name : string)
  | Bin (op : string) (dst src : aexp).

(** Source first, destination second, operator last. *)
Fixpoint compile (a : aexp) : list string :=
  match a with
  | Lit n => [fmt_0xllx n]
  | Var name => [name]
  | Bin op dst src => compile src ++ compile dst ++ [op]
  end.

(** The depth of stack an expression needs. *)
Fixpoint depth (a : aexp) : Z :=
  match a with
  | Lit _ | Var _ => 1
  | Bin _ dst src => Z.max (depth src) (1 + depth dst)
  end.

Section Expr.
Context {IO : Type} {Env : EsilEnv IO} {EF : EnvFrame}.
Implicit Types e : RAnalEsil IO.

(** The value of an expression on a machine: the operator is looked up in the
    machine's table, and must be one of those of [binop_meaning]. *)
Fixpoint eval e (a : aexp) : option Z :=
  match a with
  | Lit n => if (0 <=? n) && (n <? 2 ^ 64) then Some n else None
  | Var name => reg_value e name
  | Bin op dst src =>
      o ← iscommand op e;
      x ← eval e dst;
      y ← eval e src;
      binop_meaning o x y
  end.

(** The words of an expression are what they look like: the leaves are no
    operators, the variables are registers of whole bytes. *)
Fixpoint well_formed e (a : aexp) : Prop :=
  match a with
  | Lit n => iscommand (fmt_0xllx n) e = None
  | Var name => wf_word name /\ iscommand name e = None
      /\ parm_type_of (anal_reg (anal e)) name = PARM_REG
      /\ name <> "}"%string /\ name <> "}{"%string
      /\ exists it n, register_of e name it n
  | Bin op dst src => wf_word op /\ op <> "}"%string /\ op <> "}{"%string
      /\ well_formed e dst /\ well_formed e src
  end.

(** The parts of a machine an expression depends on. *)
Record ready e : Prop := {
  rd_plain : plain e;
  rd_regs : reg_wf (anal_reg (anal e));
  rd_nodigit : forall str, isdigit (char_at str 0) = true ->
                 r_reg_get (anal_reg (anal e)) str (-1) = None;
  rd_skip : skip e = 0;
  rd_repeat : repeat e = false;
  rd_goto : parse_goto e = -1;
  rd_stop : parse_stop e = 0;
}.

(** The machine after [n] words that left [l] on the stack. *)
Definition adv (n : nat) (l : list string) e : RAnalEsil IO :=
  set_stack l (set_parse_goto_count (parse_goto_count e - Z.of_nat n) e).

(** A run of turns of the word machine, without an exit. *)
Inductive Run (ws : list string) : nat -> RAnalEsil IO -> nat -> RAnalEsil IO -> Prop :=
  | Run_here i e : Run ws i e i e
  | Run_word i e e1 j e2 : word_step ws i e = Ok (inl (S i)) e1 -> Run ws (S i) e1 j e2 ->
      Run ws i e j e2.

Lemma Run_trans ws i e j e1 k e2 : Run ws i e j e1 -> Run ws j e1 k e2 -> Run ws i e k e2.
Proof. induction 1; [done|]. intros. eapply Run_word; eauto. Qed.

Lemma Run_Loop ws i e j e1 o : Run ws i e j e1 -> Loop (word_step ws) j e1 o -> Loop (word_step ws) i e o.
Proof. induction 1; [done|]. intros. eapply Loop_turn; eauto. Qed.

Lemma ready_adv n l e : ready e -> ready (adv n l e).
Proof. intros []. by split. Qed.

(** The common part of running one word. *)
Lemma word_step_run ws i w e e1 :
  ws !! i = Some w -> ready e -> 2 <= parse_goto_count e -> w <> "}"%string -> w <> "}{"%string ->
  (match iscommand w e with Some op => run_command w op | None => push_word w end)
    (set_parse_goto_count (parse_goto_count e - 1) e) = Ok 1 e1 ->
  repeat e1 = false -> parse_goto e1 = -1 -> parse_stop e1 = 0 ->
  word_step ws i e = Ok (inl (S i)) e1.
Proof.
  intros Hw [P W D Hs Hr Hg Hst] Hc H1 H2 Hrun R G T. unfold word_step. rewrite Hw. mrun.
  unfold runword. mrun. cbn [parse_goto_count set_parse_goto_count skip].
  destruct (Z.ltb_spec (parse_goto_count e - 1) 1); [lia|].
  destruct (String.eqb_spec w "}{"); [done|]. destruct (String.eqb_spec w "}"); [done|].
  rewrite Hs. mrun. change (iscommand w (set_parse_goto_count (parse_goto_count e - 1) e))
    with (iscommand w e). rewrite Hrun. change (1 =? 0) with false. cbv iota. mrun.
  by rewrite R, G, T.
Qed.

(** A leaf is pushed. *)
Lemma leaf_run ws i w e :
  ws !! i = Some w -> ready e -> 2 <= parse_goto_count e -> w <> "}"%string -> w <> "}{"%string ->
  iscommand w e = None -> w <> EmptyString -> is_char (char_at w 0) "," = false ->
  stackptr e < stacksize e ->
  Run ws i e (S i) (adv 1 (w :: stack e) e).
Proof.
  intros Hw R Hc H1 H2 Hn Hne Hsep Hroom. eapply Run_word; [|apply Run_here].
  pose proof R as [P W D Hs Hr Hg Hst].
  apply (word_step_run _ _ w); try done. rewrite Hn. unfold push_word.
  rewrite bool_decide_eq_false_2 by done. rewrite Hsep. change (false || false) with false. cbv iota. mrun.
  rewrite push_room by done. mrun. done.
Qed.

(** Results of the operators are 64-bit values. *)
Lemma binop_range op a b r :
  0 <= a < 2 ^ 64 -> 0 <= b < 2 ^ 64 -> binop_meaning op a b = Some r -> 0 <= r < 2 ^ 64.
Proof.
  intros Ha Hb. destruct op; try done; cbn [binop_meaning]; intros H; simplify_eq; try apply u64_range.
  - destruct (b <? 64); simplify_eq. apply u64_range.
  - destruct (b <? 64); simplify_eq. split; [apply Z.div_pos; lia|].
    apply Z.div_lt_upper_bound; [lia|]. assert (0 < 2 ^ b) by (apply Z.pow_pos_nonneg; lia). nia.
  - by apply land_range.
  - by apply lor_range.
  - by apply lxor_range.
  - destruct (Z.eqb_spec b 0); simplify_eq. split; [apply Z.div_pos; lia|].
    apply Z.div_lt_upper_bound; nia.
  - destruct (Z.eqb_spec b 0); simplify_eq. pose proof (Z.mod_pos_bound a b). lia.
Qed.

(** ** Words of a compiled expression *)

Lemma length_hex_digits f n acc :
  (String.length (hex_digits f n acc) <= f + String.length acc)%nat.
Proof.
  revert n acc. induction f as [|f IH]; intros n acc; [done|]. cbn [hex_digits].
  destruct (n <? 16); [simpl; lia|]. etrans; [apply IH|]. simpl. lia.
Qed.

Lemma hex_plain s :
  str_all hex_digit s -> forallb plain_char (String.list_ascii_of_string s) = true.
Proof.
  induction s as [|c s IH]; [done|]. intros [(d & Hd & ->) Hs]. simpl.
  apply andb_true_iff; split; [|by apply IH].
  assert (forallb (fun d => plain_char (hex_char d)) (seqZ 0 16) = true) as H by reflexivity.
  rewrite forallb_forall in H. apply H, list_elem_of_In, elem_of_seqZ. lia.
Qed.

Lemma wf_word_fmt n : wf_word (fmt_0xllx n).
Proof.
  split; [done| |].
  - simpl. apply hex_plain, fmt_llx_hex.
  - simpl. pose proof (length_hex_digits 16 n EmptyString) as H. unfold fmt_llx. simpl in *. lia.
Qed.

Lemma compile_words e a : well_formed e a -> Forall wf_word (compile a).
Proof.
  induction a as [n|name|op a1 IH1 a2 IH2]; simpl.
  - intros _. constructor; [apply wf_word_fmt|constructor].
  - intros (H & _). by constructor; [|constructor].
  - intros (H & _ & _ & H1 & H2). apply Forall_app; split; [auto|].
    apply Forall_app; split; [auto|]. by constructor; [|constructor].
Qed.

Lemma compile_nonempty a : compile a <> [].
Proof. destruct a; simpl; try done. by destruct (compile a2), (compile a1). Qed.

(** The words [l] are in [ws] from index [i] on. *)
Definition words_at (ws : list string) (i : nat) (l : list string) : Prop :=
  forall k w, l !! k = Some w -> ws !! (i + k)%nat = Some w.

Lemma words_at_app ws i l1 l2 :
  words_at ws i (l1 ++ l2) -> words_at ws i l1 /\ words_at ws (i + length l1)%nat l2.
Proof.
  intros H. split; intros k w Hk.
  - apply H. by apply lookup_app_l_Some.
  - rewrite <- Nat.add_assoc. apply H. rewrite lookup_app_r by lia. by replace (_ + k - _)%nat with k by lia.
Qed.

Lemma well_formed_adv n l e a : well_formed e a -> well_formed (adv n l e) a.
Proof. induction a; simpl; tauto. Qed.

Lemma eval_adv n l e a : eval (adv n l e) a = eval e a.
Proof. induction a as [| |op a1 IH1 a2 IH2]; simpl; [done..|]. by rewrite IH1, IH2. Qed.

Lemma adv_adv n1 n2 l1 l2 e : adv n2 l2 (adv n1 l1 e) = adv (n1 + n2) l2 e.
Proof.
  unfold adv, set_stack, set_parse_goto_count. cbn. f_equal. lia.
Qed.

Lemma reg_value_range e name it n v :
  register_of e name it n -> reg_wf (anal_reg (anal e)) -> reg_value e name = Some v ->
  0 <= v < 2 ^ 64.
Proof.
  intros [_ Hg [a Ha]] W. unfold reg_value. rewrite Hg.
  pose proof (arena_bytes _ _ _ W (ia_arena _ _ _ _ Ha)) as Hb.
  rewrite (reg_get_spec _ it a n Hb Ha). intros H; simplify_eq.
  set (w := take n (drop (off_of it) (ar_bytes a))).
  assert (bytes w) as Hw by (by apply Forall_take, Forall_drop).
  assert (length w <= 8)%nat as Hl.
  { unfold w. rewrite length_take. pose proof (ia_width _ _ _ _ Ha) as Hn. set_unfold. lia. }
  assert (2 ^ (8 * Z.of_nat (length w)) <= 2 ^ 64) by (apply Z.pow_le_mono_r; lia).
  assert (0 <= ble_val (rr_big_endian (anal_reg (anal e))) w < 2 ^ (8 * Z.of_nat (length w))); [|lia].
  destruct (rr_big_endian _); simpl; [|by apply le_val_range].
  unfold be_val. rewrite <- length_reverse. by apply le_val_range, Forall_reverse.
Qed.

Lemma rn_value_fmt e n :
  ready e -> 0 <= n < 2 ^ 64 -> rn_value e (fmt_0xllx n) = Some n.
Proof.
  intros R Hn. unfold rn_value. change (is_internal (fmt_0xllx n)) with false.
  rewrite (rd_nodigit e R) by done. by apply r_num_get_fmt.
Qed.

(** What an expression leaves on top of the stack: text that reads as [v]
    both ways. *)
Definition reads e (s : string) (v : Z) : Prop :=
  value_of e s = Some v /\ rn_value e s = Some v /\ 0 <= v < 2 ^ 64.

Lemma lit_reads e n : ready e -> 0 <= n < 2 ^ 64 -> reads e (fmt_0xllx n) n.
Proof. intros R Hn. split; [by apply value_of_fmt|]. split; [by apply rn_value_fmt|done]. Qed.

(** The operator word, once both operands are on the stack. *)
Lemma op_word_run ws i op o s1 s2 rest x y r e :
  ws !! i = Some op -> ready e -> 2 <= parse_goto_count e -> op <> "}"%string -> op <> "}{"%string ->
  iscommand op e = Some o -> binop_meaning o x y = Some r ->
  stack e = s2 :: s1 :: rest -> stackptr e <= stacksize e -> reads e s2 x -> reads e s1 y ->
  Run ws i e (S i) (adv 1 (fmt_0xllx r :: rest) e).
Proof.
  intros Hw R Hc H1 H2 Ho Hm Hs Hroom (Hx & Hx' & _) (Hy & Hy' & Hyr).
  pose proof R as [P W D Hsk Hr Hg Hst].
  eapply Run_word; [|apply Run_here]. apply (word_step_run _ _ op); try done.
  rewrite Ho. unfold run_command. mrun.
  assert (plain (set_parse_goto_count (parse_goto_count e - 1) e)) as P1 by done. run_plain P1.
  rewrite (binop_run _ o s2 s1 rest x y r); try done. lia.
Qed.

Lemma compile_run ws a i e v :
  words_at ws i (compile a) -> ready e ->
  Z.of_nat (length (compile a)) + 1 <= parse_goto_count e ->
  well_formed e a -> stackptr e + depth a <= stacksize e -> eval e a = Some v ->
  exists s, Run ws i e (i + length (compile a))%nat (adv (length (compile a)) (s :: stack e) e)
    /\ reads e s v.
Proof.
  revert i e v. induction a as [n|name|op a1 IH1 a2 IH2]; intros i e v Hws R Hc Hwf Hroom Hv.
  - simpl in *. destruct (_ && _) eqn:Hn; [|done]. simplify_eq. exists (fmt_0xllx v).
    rewrite Nat.add_1_r. split; [|apply lit_reads; [done|lia]].
    apply (leaf_run _ _ (fmt_0xllx v)); try done; try lia.
    specialize (Hws 0%nat _ eq_refl). by rewrite Nat.add_0_r in Hws.
  - simpl in *. destruct Hwf as ([Hne Hch _] & Hcmd & Hty & Hb1 & Hb2 & it & m & Hreg). exists name.
    rewrite Nat.add_1_r. split.
    + apply (leaf_run _ _ name); try done; try lia.
      * specialize (Hws 0%nat _ eq_refl). by rewrite Nat.add_0_r in Hws.
      * destruct name as [|c name]; [done|]. simpl in Hch. apply andb_true_iff in Hch as [Hch _].
        unfold plain_char in Hch. by apply andb_true_iff in Hch as [?%negb_true_iff _].
    + split; [|split; [|by eapply reg_value_range; [| apply R|]]].
      * unfold value_of. by rewrite Hty.
      * unfold rn_value. destruct Hreg as [-> -> _]. done.
  - cbn [compile eval depth well_formed] in *.
    destruct Hwf as (_ & Hb1 & Hb2 & Hwf1 & Hwf2).
    destruct (iscommand op e) as [o|] eqn:Ho; [|done]. cbn [mbind option_bind] in Hv.
    destruct (eval e a1) as [x|] eqn:Ex; [|done]. destruct (eval e a2) as [y|] eqn:Ey; [|done].
    cbn in Hv. rewrite !length_app in *. cbn [length] in *.
    apply words_at_app in Hws as [Hw2 Hws]. apply words_at_app in Hws as [Hw1 Hwo].
    destruct (IH2 i e y) as (s1 & Run1 & Rd1); [done..|lia|done|lia|done|].
    set (n2 := length (compile a2)) in *. set (e1 := adv n2 (s1 :: stack e) e) in *.
    assert (stackptr e1 = stackptr e + 1) as Hp1.
    { unfold stackptr, e1, adv. cbn [stack set_stack length]. lia. }
    destruct (IH1 (i + n2)%nat e1 x) as (s2 & Run2 & Rd2).
    { done. } { by apply ready_adv. } { change (parse_goto_count e1) with (parse_goto_count e - Z.of_nat n2). lia. }
    { by apply well_formed_adv. } { change (stacksize e1) with (stacksize e). lia. }
    { unfold e1. by rewrite eval_adv. }
    set (n1 := length (compile a1)) in *. set (e2 := adv n1 (s2 :: stack e1) e1) in *.
    pose proof Rd1 as (_ & _ & Hyr). pose proof Rd2 as (_ & _ & Hxr).
    pose proof (binop_range _ _ _ _ Hxr Hyr Hv) as Hr.
    exists (fmt_0xllx v). split; [|by apply lit_reads].
    eapply Run_trans; [exact Run1|]. eapply Run_trans; [exact Run2|].
    replace (i + (n2 + (n1 + 1)))%nat with (S (i + n2 + n1)) by lia.
    replace (adv (n2 + (n1 + 1)) (fmt_0xllx v :: stack e) e)
      with (adv 1 (fmt_0xllx v :: stack e) e2)
      by (unfold e2, e1; rewrite !adv_adv; f_equal; lia).
    apply (op_word_run _ _ op o s1 s2 (stack e) x y); try done.
    + specialize (Hwo 0%nat _ eq_refl). by rewrite Nat.add_0_r in Hwo.
    + by apply ready_adv, ready_adv.
    + change (parse_goto_count e2) with (parse_goto_count e - Z.of_nat n2 - Z.of_nat n1). lia.
    + unfold stackptr, e2, adv. cbn [stack set_stack length stacksize set_parse_goto_count].
      unfold stackptr in Hroom. simpl. change (stacksize e1) with (stacksize e).
      assert (0 < depth a1) by (clear; induction a1; simpl; lia). lia.
Qed.

Lemma eval_start e a : eval (parse_start e) a = eval e a.
Proof. induction a as [| |op a1 IH1 a2 IH2]; [reflexivity..|]. simpl. by rewrite IH1, IH2. Qed.

Lemma well_formed_start e a : well_formed e a -> well_formed (parse_start e) a.
Proof.
  induction a as [n|name|op a1 IH1 a2 IH2]; [exact id|exact id|].
  intros (H1 & H2 & H3 & H4 & H5). exact (conj H1 (conj H2 (conj H3 (conj (IH1 H4) (IH2 H5))))).
Qed.

(** C1: the interpreter runs a compiled expression to its value: from a
    machine with room on its stack and in its budget, ["r_anal_esil_parse"]
    answers 1 and leaves, on top of what was there, text whose value is that
    of the expression; registers and memory are unchanged. *)
Theorem esil_compile_correct e a v :
  plain e -> reg_wf (anal_reg (anal e)) ->
  (forall str, isdigit (char_at str 0) = true -> r_reg_get (anal_reg (anal e)) str (-1) = None) ->
  well_formed e a -> stackptr e + depth a <= stacksize e ->
  Z.of_nat (length (compile a)) < anal_esil_goto_limit (anal e) ->
  eval e a = Some v ->
  exists s e', r_anal_esil_parse (join (compile a)) e = Ok (Some 1) e'
    /\ stack e' = s :: stack e /\ value_of e' s = Some v /\ anal e' = anal e.
Proof.
  intros P W D Hwf Hroom Hlim Hv. set (e0 := parse_start e).
  assert (ready e0) as R by (by split).
  assert (well_formed e0 a) as Hwf0 by (by apply well_formed_start).
  assert (eval e0 a = Some v) as Hv0.
  { rewrite <- Hv. unfold e0. apply eval_start. }
  assert (words_at (compile a) 0 (compile a)) as Hat by (intros k w Hk; exact Hk).
  assert (Z.of_nat (length (compile a)) + 1 <= parse_goto_count e0) as Hc
    by (change (parse_goto_count e0) with (anal_esil_goto_limit (anal e)); lia).
  destruct (compile_run (compile a) a 0 e0 v Hat R Hc Hwf0 Hroom Hv0) as (s & Hrun & Hrd).
  destruct Hrd as (Hval & _ & _). simpl Nat.add in Hrun.
  assert (Loop (word_step (compile a)) (length (compile a)) (adv (length (compile a)) (s :: stack e0) e0)
    (Ok 1 (adv (length (compile a)) (s :: stack e0) e0))) as Hend.
  { apply Loop_exit. unfold word_step. by rewrite (proj2 (lookup_ge_None _ _)). }
  pose proof (Run_Loop _ _ _ _ _ _ Hrun Hend) as HL.
  exists s, (adv (length (compile a)) (s :: stack e0) e0).
  split; [|split; [reflexivity|split; [exact Hval|reflexivity]]].
  rewrite (parse_words_run _ _ (compile_nonempty a) (compile_words e a Hwf)).
  rewrite (run_words_result _ _ _ _ HL). reflexivity.
Qed.

End Expr.

(** ** Applied to the machine of [EsilDemo]: [(rax + 2) * ax - 7] *)

Definition demo_expr : aexp :=
  Bin "-" (Bin "*" (Bin "+" (Var "rax") (Lit 2)) (Var "ax")) (Lit 7).

(** No register's name starts with a digit, checked on the tables. *)
Definition names_not_digits (r : RReg) : bool :=
  forallb (fun rs => forallb (fun it => match ri_name it with
    | Some n => negb (isdigit (char_at n 0)) | None => true end) (rs_regs rs)) (rr_regset r).

Lemma names_not_digits_in r str i :
  names_not_digits r = true -> isdigit (char_at str 0) = true -> r_reg_get_in r str i = None.
Proof.
  intros Hall Hd. unfold r_reg_get_in. destruct (rr_regset r !! i) as [rs|] eqn:E; [|done].
  cbn [mbind option_bind]. destruct (list_find _ _) as [[k it]|] eqn:Ef; [exfalso|done].
  apply list_find_Some in Ef as (Hk & Hn & _). unfold names_not_digits in Hall.
  rewrite forallb_forall in Hall.
  specialize (Hall rs ltac:(by eapply list_elem_of_In, list_elem_of_lookup_2)).
  rewrite forallb_forall in Hall.
  specialize (Hall it ltac:(by eapply list_elem_of_In, list_elem_of_lookup_2)).
  unfold name_is in Hn. apply bool_decide_unpack in Hn. rewrite Hn, Hd in Hall. discriminate Hall.
Qed.

Lemma names_not_digits_get r str :
  names_not_digits r = true -> isdigit (char_at str 0) = true -> r_reg_get r str (-1) = None.
Proof.
  intros Hall Hd. unfold r_reg_get. change (-1 =? Z.of_nat R_REG_TYPE_FLG) with false. cbv iota.
  change (-1 =? -1) with true. cbv iota.
  generalize 0%nat R_REG_TYPE_LAST. intros i n. revert i.
  induction n as [|n IH]; intros i; cbn [r_reg_get_from]; [done|].
  rewrite names_not_digits_in by done. apply IH.
Qed.

Lemma demo_nodigit str :
  isdigit (char_at str 0) = true -> r_reg_get (anal_reg (anal demo_esil)) str (-1) = None.
Proof. apply names_not_digits_get. vm_compute. reflexivity. Qed.

Lemma demo_var name n :
  (wf_word name /\ name <> "}"%string /\ name <> "}{"%string) ->
  iscommand name demo_esil = None ->
  parm_type_of demo_reg name = PARM_REG ->
  is_internal name = false -> r_reg_get demo_reg name (-1) = Some (demo_item name) ->
  item_at_b demo_reg (demo_item name) n = true -> well_formed demo_esil (Var name).
Proof.
  intros (H1 & H2 & H3) H4 H5 H6 H7 H8.
  exact (conj H1 (conj H4 (conj H5 (conj H2 (conj H3
    (ex_intro _ (demo_item name) (ex_intro _ n (demo_register name n H6 H7 H8)))))))).
Qed.

Lemma demo_lit n : iscommand (fmt_0xllx n) demo_esil = None -> well_formed demo_esil (Lit n).
Proof. exact id. Qed.

Lemma demo_bin op dst src :
  (wf_word op /\ op <> "}"%string /\ op <> "}{"%string) ->
  well_formed demo_esil dst -> well_formed demo_esil src -> well_formed demo_esil (Bin op dst src).
Proof. intros (H1 & H2 & H3) Hd Hs. exact (conj H1 (conj H2 (conj H3 (conj Hd Hs)))). Qed.

Ltac word_facts := split; [split; [discriminate|reflexivity|apply Nat.leb_le; reflexivity]
                          |split; discriminate].

Lemma demo_well_formed : well_formed demo_esil demo_expr.
Proof.
  apply demo_bin; [word_facts| |apply demo_lit; vm_compute; reflexivity].
  apply demo_bin; [word_facts| |].
  - apply demo_bin; [word_facts| |apply demo_lit; vm_compute; reflexivity].
    apply (demo_var _ 8); [word_facts|vm_compute; reflexivity..].
  - apply (demo_var _ 2); [word_facts|vm_compute; reflexivity..].
Qed.

Lemma esil_compile_correct_witness :
  exists s e', r_anal_esil_parse (join (compile demo_expr)) demo_esil = Ok (Some 1) e'
    /\ stack e' = s :: stack demo_esil /\ value_of e' s = Some (2 ^ 64 - 7)
    /\ anal e' = anal demo_esil.
Proof.
  apply (@esil_compile_correct flat flat_env flat_frame);
    [reflexivity|apply demo_wf|exact demo_nodigit|exact demo_well_formed| vm_compute; discriminate
    | vm_compute; reflexivity | vm_compute; reflexivity].
Defined.
