(* ===== verification/IoState.v ===== *)
(** * The state of the i/o layer

    [libr/include/r_io.h]: descriptors, maps, sections, cached writes, undo
    histories, and [RIO], which holds them; and what the layer asks of the
    plugins behind the descriptors. *)

From S2P Require Import Prelude.

Definition R_IO_EXEC : Z := 1.
Definition R_IO_WRITE : Z := 2.
Definition R_IO_READ : Z := 4.
Definition R_IO_MAP : Z := 16.
Definition R_IO_SEEK_SET : Z := 0.
Definition R_IO_SEEK_CUR : Z := 1.
Definition R_IO_SEEK_END : Z := 2.

Record RIOMap := mkMap { map_fd : Z; map_flags : Z; map_delta : Z; map_from : Z; map_to : Z }.

Record RIOSection := mkSection {
  sec_name : string;
  sec_offset : Z;
  sec_vaddr : Z;
  sec_size : Z;
  sec_vsize : Z;
  sec_rwx : Z;
  sec_id : Z;
  sec_arch : Z;
  sec_bits : Z;
  sec_bin_id : Z;
  sec_fd : Z;
}.

(** [size] is the number of bytes of [data] and of [odata]. *)
Record RIOCache := mkCache {
  c_from : Z;
  c_to : Z;
  c_size : Z;
  c_data : list Z;
  c_odata : list Z;
  c_written : bool;
}.

(** A buffered range ([RCache] of [r_util]); [None] is the null buffer. *)
Record RCache := mkRCache { rc_base : Z; rc_buf : option (list Z) }.

Definition R_IO_UNDOS : Z := 64.

Record RIOUndos := mkUndos { us_off : Z; us_cursor : Z }.

Record RIOUndoWrite := mkUndoWrite {
  uw_set : bool;
  uw_off : Z;
  uw_o : list Z;  (* old data *)
  uw_n : list Z;  (* new data *)
  uw_len : Z;
}.

Record RIOUndo := mkUndo {
  un_s_enable : bool;
  un_w_enable : bool;
  un_w_list : list RIOUndoWrite;
  un_w_init : bool;
  un_idx : Z;
  un_undos : Z;  (* available undos *)
  un_redos : Z;  (* available redos *)
  un_seek : list RIOUndos;  (* [R_IO_UNDOS] entries *)
}.

(** The plugin and its private data. *)
Record RIODesc {P D : Type} := mkDesc { d_fd : Z; d_flags : Z; d_plugin : P; d_data : D }.
Arguments RIODesc : clear implicits.

Record RIO {P D : Type} := mkRIO {
  io_desc : option nat;  (* the current descriptor *)
  io_plugin : option P;  (* its plugin *)
  io_off : Z;
  io_va : bool;
  io_raw : bool;
  io_vio : bool;
  io_debug : bool;
  io_sectonly : bool;
  io_enforce_rwx : Z;
  io_cached : Z;
  io_cached_read : Z;
  io_raised : Z;
  io_autofd : bool;
  io_ff : bool;
  io_Oxff : Z;
  io_write_mask_fd : Z;
  io_write_mask_buf : list Z;
  io_descs : gmap nat (RIODesc P D);  (* the heap of descriptors *)
  io_files : list nat;  (* the open ones *)
  io_maps : list RIOMap;
  io_sections : list RIOSection;
  io_next_section_id : Z;
  io_section : option Z;  (* the id of the section last looked up *)
  io_cache : list RIOCache;
  io_buffer : RCache;
  io_buffer_enabled : bool;
  io_undo : RIOUndo;
}.
Arguments RIO : clear implicits.

(** What a plugin does to the data of a descriptor, given [io->off]: [read]
    returns the count and the buffer it leaves, [write] the count, [lseek] the
    position; a count below 0 is a failure.  Every plugin has these three
    callbacks; [close] and [resize] are optional, and none has [extend].  [plugin_listener]
    and [plugin_blockdev] are what [r_io_is_listener] and [r_io_is_blockdevice]
    ask the plugin and the operating system, and [indet_byte] is the content of
    memory fresh from [malloc]. *)
Class IoPlugin (P D : Type) := {
  plugin_read : P -> Z -> D -> list Z -> Z -> Z * list Z * D;
  plugin_write : P -> Z -> D -> list Z -> Z -> Z * D;
  plugin_lseek : P -> Z -> D -> Z -> Z -> Z * D;
  plugin_close : P -> D -> option (Z * D);
  plugin_resize : P -> Z -> D -> Z -> option (bool * D);
  plugin_listener : P -> D -> bool;
  plugin_blockdev : P -> D -> bool;
  indet_byte : nat -> Z;
}.

(** A fresh buffer. *)
Definition malloc_bytes `{IoPlugin P D} (n : Z) : list Z := map indet_byte (seq 0 (Z.to_nat n)).

Section Setters.
Context {P D : Type}.
Implicit Types io : RIO P D.
Definition set_io_desc (v : option nat) io : RIO P D :=
  mkRIO _ _ v (io_plugin io) (io_off io) (io_va io) (io_raw io) (io_vio io) (io_debug io)
    (io_sectonly io) (io_enforce_rwx io) (io_cached io) (io_cached_read io) (io_raised io)
    (io_autofd io) (io_ff io) (io_Oxff io) (io_write_mask_fd io) (io_write_mask_buf io)
    (io_descs io) (io_files io) (io_maps io) (io_sections io) (io_next_section_id io)
    (io_section io) (io_cache io) (io_buffer io) (io_buffer_enabled io) (io_undo io).
Definition set_io_plugin (v : option P) io : RIO P D :=
  mkRIO _ _ (io_desc io) v (io_off io) (io_va io) (io_raw io) (io_vio io) (io_debug io)
    (io_sectonly io) (io_enforce_rwx io) (io_cached io) (io_cached_read io) (io_raised io)
    (io_autofd io) (io_ff io) (io_Oxff io) (io_write_mask_fd io) (io_write_mask_buf io)
    (io_descs io) (io_files io) (io_maps io) (io_sections io) (io_next_section_id io)
    (io_section io) (io_cache io) (io_buffer io) (io_buffer_enabled io) (io_undo io).
Definition set_io_off (v : Z) io : RIO P D :=
  mkRIO _ _ (io_desc io) (io_plugin io) v (io_va io) (io_raw io) (io_vio io) (io_debug io)
    (io_sectonly io) (io_enforce_rwx io) (io_cached io) (io_cached_read io) (io_raised io)
    (io_autofd io) (io_ff io) (io_Oxff io) (io_write_mask_fd io) (io_write_mask_buf io)
    (io_descs io) (io_files io) (io_maps io) (io_sections io) (io_next_section_id io)
    (io_section io) (io_cache io) (io_buffer io) (io_buffer_enabled io) (io_undo io).
Definition set_io_va (v : bool) io : RIO P D :=
  mkRIO _ _ (io_desc io) (io_plugin io) (io_off io) v (io_raw io) (io_vio io) (io_debug io)
    (io_sectonly io) (io_enforce_rwx io) (io_cached io) (io_cached_read io) (io_raised io)
    (io_autofd io) (io_ff io) (io_Oxff io) (io_write_mask_fd io) (io_write_mask_buf io)
    (io_descs io) (io_files io) (io_maps io) (io_sections io) (io_next_section_id io)
    (io_section io) (io_cache io) (io_buffer io) (io_buffer_enabled io) (io_undo io).
Definition set_io_raw (v : bool) io : RIO P D :=
  mkRIO _ _ (io_desc io) (io_plugin io) (io_off io) (io_va io) v (io_vio io) (io_debug io)
    (io_sectonly io) (io_enforce_rwx io) (io_cached io) (io_cached_read io) (io_raised io)
    (io_autofd io) (io_ff io) (io_Oxff io) (io_write_mask_fd io) (io_write_mask_buf io)
    (io_descs io) (io_files io) (io_maps io) (io_sections io) (io_next_section_id io)
    (io_section io) (io_cache io) (io_buffer io) (io_buffer_enabled io) (io_undo io).
Definition set_io_vio (v : bool) io : RIO P D :=
  mkRIO _ _ (io_desc io) (io_plugin io) (io_off io) (io_va io) (io_raw io) v (io_debug io)
    (io_sectonly io) (io_enforce_rwx io) (io_cached io) (io_cached_read io) (io_raised io)
    (io_autofd io) (io_ff io) (io_Oxff io) (io_write_mask_fd io) (io_write_mask_buf io)
    (io_descs io) (io_files io) (io_maps io) (io_sections io) (io_next_section_id io)
    (io_section io) (io_cache io) (io_buffer io) (io_buffer_enabled io) (io_undo io).
Definition set_io_debug (v : bool) io : RIO P D :=
  mkRIO _ _ (io_desc io) (io_plugin io) (io_off io) (io_va io) (io_raw io) (io_vio io) v
    (io_sectonly io) (io_enforce_rwx io) (io_cached io) (io_cached_read io) (io_raised io)
    (io_autofd io) (io_ff io) (io_Oxff io) (io_write_mask_fd io) (io_write_mask_buf io)
    (io_descs io) (io_files io) (io_maps io) (io_sections io) (io_next_section_id io)
    (io_section io) (io_cache io) (io_buffer io) (io_buffer_enabled io) (io_undo io).
Definition set_io_sectonly (v : bool) io : RIO P D :=
  mkRIO _ _ (io_desc io) (io_plugin io) (io_off io) (io_va io) (io_raw io) (io_vio io)
    (io_debug io) v (io_enforce_rwx io) (io_cached io) (io_cached_read io) (io_raised io)
    (io_autofd io) (io_ff io) (io_Oxff io) (io_write_mask_fd io) (io_write_mask_buf io)
    (io_descs io) (io_files io) (io_maps io) (io_sections io) (io_next_section_id io)
    (io_section io) (io_cache io) (io_buffer io) (io_buffer_enabled io) (io_undo io).
Definition set_io_enforce_rwx (v : Z) io : RIO P D :=
  mkRIO _ _ (io_desc io) (io_plugin io) (io_off io) (io_va io) (io_raw io) (io_vio io)
    (io_debug io) (io_sectonly io) v (io_cached io) (io_cached_read io) (io_raised io)
    (io_autofd io) (io_ff io) (io_Oxff io) (io_write_mask_fd io) (io_write_mask_buf io)
    (io_descs io) (io_files io) (io_maps io) (io_sections io) (io_next_section_id io)
    (io_section io) (io_cache io) (io_buffer io) (io_buffer_enabled io) (io_undo io).
Definition set_io_cached (v : Z) io : RIO P D :=
  mkRIO _ _ (io_desc io) (io_plugin io) (io_off io) (io_va io) (io_raw io) (io_vio io)
    (io_debug io) (io_sectonly io) (io_enforce_rwx io) v (io_cached_read io) (io_raised io)
    (io_autofd io) (io_ff io) (io_Oxff io) (io_write_mask_fd io) (io_write_mask_buf io)
    (io_descs io) (io_files io) (io_maps io) (io_sections io) (io_next_section_id io)
    (io_section io) (io_cache io) (io_buffer io) (io_buffer_enabled io) (io_undo io).
Definition set_io_cached_read (v : Z) io : RIO P D :=
  mkRIO _ _ (io_desc io) (io_plugin io) (io_off io) (io_va io) (io_raw io) (io_vio io)
    (io_debug io) (io_sectonly io) (io_enforce_rwx io) (io_cached io) v (io_raised io)
    (io_autofd io) (io_ff io) (io_Oxff io) (io_write_mask_fd io) (io_write_mask_buf io)
    (io_descs io) (io_files io) (io_maps io) (io_sections io) (io_next_section_id io)
    (io_section io) (io_cache io) (io_buffer io) (io_buffer_enabled io) (io_undo io).
Definition set_io_raised (v : Z) io : RIO P D :=
  mkRIO _ _ (io_desc io) (io_plugin io) (io_off io) (io_va io) (io_raw io) (io_vio io)
    (io_debug io) (io_sectonly io) (io_enforce_rwx io) (io_cached io) (io_cached_read io) v
    (io_autofd io) (io_ff io) (io_Oxff io) (io_write_mask_fd io) (io_write_mask_buf io)
    (io_descs io) (io_files io) (io_maps io) (io_sections io) (io_next_section_id io)
    (io_section io) (io_cache io) (io_buffer io) (io_buffer_enabled io) (io_undo io).
Definition set_io_autofd (v : bool) io : RIO P D :=
  mkRIO _ _ (io_desc io) (io_plugin io) (io_off io) (io_va io) (io_raw io) (io_vio io)
    (io_debug io) (io_sectonly io) (io_enforce_rwx io) (io_cached io) (io_cached_read io)
    (io_raised io) v (io_ff io) (io_Oxff io) (io_write_mask_fd io) (io_write_mask_buf io)
    (io_descs io) (io_files io) (io_maps io) (io_sections io) (io_next_section_id io)
    (io_section io) (io_cache io) (io_buffer io) (io_buffer_enabled io) (io_undo io).
Definition set_io_ff (v : bool) io : RIO P D :=
  mkRIO _ _ (io_desc io) (io_plugin io) (io_off io) (io_va io) (io_raw io) (io_vio io)
    (io_debug io) (io_sectonly io) (io_enforce_rwx io) (io_cached io) (io_cached_read io)
    (io_raised io) (io_autofd io) v (io_Oxff io) (io_write_mask_fd io) (io_write_mask_buf
    io) (io_descs io) (io_files io) (io_maps io) (io_sections io) (io_next_section_id io)
    (io_section io) (io_cache io) (io_buffer io) (io_buffer_enabled io) (io_undo io).
Definition set_io_Oxff (v : Z) io : RIO P D :=
  mkRIO _ _ (io_desc io) (io_plugin io) (io_off io) (io_va io) (io_raw io) (io_vio io)
    (io_debug io) (io_sectonly io) (io_enforce_rwx io) (io_cached io) (io_cached_read io)
    (io_raised io) (io_autofd io) (io_ff io) v (io_write_mask_fd io) (io_write_mask_buf io)
    (io_descs io) (io_files io) (io_maps io) (io_sections io) (io_next_section_id io)
    (io_section io) (io_cache io) (io_buffer io) (io_buffer_enabled io) (io_undo io).
Definition set_io_write_mask_fd (v : Z) io : RIO P D :=
  mkRIO _ _ (io_desc io) (io_plugin io) (io_off io) (io_va io) (io_raw io) (io_vio io)
    (io_debug io) (io_sectonly io) (io_enforce_rwx io) (io_cached io) (io_cached_read io)
    (io_raised io) (io_autofd io) (io_ff io) (io_Oxff io) v (io_write_mask_buf io) (io_descs
    io) (io_files io) (io_maps io) (io_sections io) (io_next_section_id io) (io_section io)
    (io_cache io) (io_buffer io) (io_buffer_enabled io) (io_undo io).
Definition set_io_write_mask_buf (v : list Z) io : RIO P D :=
  mkRIO _ _ (io_desc io) (io_plugin io) (io_off io) (io_va io) (io_raw io) (io_vio io)
    (io_debug io) (io_sectonly io) (io_enforce_rwx io) (io_cached io) (io_cached_read io)
    (io_raised io) (io_autofd io) (io_ff io) (io_Oxff io) (io_write_mask_fd io) v (io_descs
    io) (io_files io) (io_maps io) (io_sections io) (io_next_section_id io) (io_section io)
    (io_cache io) (io_buffer io) (io_buffer_enabled io) (io_undo io).
Definition set_io_descs (v : gmap nat (RIODesc P D)) io : RIO P D :=
  mkRIO _ _ (io_desc io) (io_plugin io) (io_off io) (io_va io) (io_raw io) (io_vio io)
    (io_debug io) (io_sectonly io) (io_enforce_rwx io) (io_cached io) (io_cached_read io)
    (io_raised io) (io_autofd io) (io_ff io) (io_Oxff io) (io_write_mask_fd io)
    (io_write_mask_buf io) v (io_files io) (io_maps io) (io_sections io) (io_next_section_id
    io) (io_section io) (io_cache io) (io_buffer io) (io_buffer_enabled io) (io_undo io).
Definition set_io_files (v : list nat) io : RIO P D :=
  mkRIO _ _ (io_desc io) (io_plugin io) (io_off io) (io_va io) (io_raw io) (io_vio io)
    (io_debug io) (io_sectonly io) (io_enforce_rwx io) (io_cached io) (io_cached_read io)
    (io_raised io) (io_autofd io) (io_ff io) (io_Oxff io) (io_write_mask_fd io)
    (io_write_mask_buf io) (io_descs io) v (io_maps io) (io_sections io) (io_next_section_id
    io) (io_section io) (io_cache io) (io_buffer io) (io_buffer_enabled io) (io_undo io).
Definition set_io_maps (v : list RIOMap) io : RIO P D :=
  mkRIO _ _ (io_desc io) (io_plugin io) (io_off io) (io_va io) (io_raw io) (io_vio io)
    (io_debug io) (io_sectonly io) (io_enforce_rwx io) (io_cached io) (io_cached_read io)
    (io_raised io) (io_autofd io) (io_ff io) (io_Oxff io) (io_write_mask_fd io)
    (io_write_mask_buf io) (io_descs io) (io_files io) v (io_sections io)
    (io_next_section_id io) (io_section io) (io_cache io) (io_buffer io) (io_buffer_enabled
    io) (io_undo io).
Definition set_io_sections (v : list RIOSection) io : RIO P D :=
  mkRIO _ _ (io_desc io) (io_plugin io) (io_off io) (io_va io) (io_raw io) (io_vio io)
    (io_debug io) (io_sectonly io) (io_enforce_rwx io) (io_cached io) (io_cached_read io)
    (io_raised io) (io_autofd io) (io_ff io) (io_Oxff io) (io_write_mask_fd io)
    (io_write_mask_buf io) (io_descs io) (io_files io) (io_maps io) v (io_next_section_id
    io) (io_section io) (io_cache io) (io_buffer io) (io_buffer_enabled io) (io_undo io).
Definition set_io_next_section_id (v : Z) io : RIO P D :=
  mkRIO _ _ (io_desc io) (io_plugin io) (io_off io) (io_va io) (io_raw io) (io_vio io)
    (io_debug io) (io_sectonly io) (io_enforce_rwx io) (io_cached io) (io_cached_read io)
    (io_raised io) (io_autofd io) (io_ff io) (io_Oxff io) (io_write_mask_fd io)
    (io_write_mask_buf io) (io_descs io) (io_files io) (io_maps io) (io_sections io) v
    (io_section io) (io_cache io) (io_buffer io) (io_buffer_enabled io) (io_undo io).
Definition set_io_section (v : option Z) io : RIO P D :=
  mkRIO _ _ (io_desc io) (io_plugin io) (io_off io) (io_va io) (io_raw io) (io_vio io)
    (io_debug io) (io_sectonly io) (io_enforce_rwx io) (io_cached io) (io_cached_read io)
    (io_raised io) (io_autofd io) (io_ff io) (io_Oxff io) (io_write_mask_fd io)
    (io_write_mask_buf io) (io_descs io) (io_files io) (io_maps io) (io_sections io)
    (io_next_section_id io) v (io_cache io) (io_buffer io) (io_buffer_enabled io) (io_undo
    io).
Definition set_io_cache (v : list RIOCache) io : RIO P D :=
  mkRIO _ _ (io_desc io) (io_plugin io) (io_off io) (io_va io) (io_raw io) (io_vio io)
    (io_debug io) (io_sectonly io) (io_enforce_rwx io) (io_cached io) (io_cached_read io)
    (io_raised io) (io_autofd io) (io_ff io) (io_Oxff io) (io_write_mask_fd io)
    (io_write_mask_buf io) (io_descs io) (io_files io) (io_maps io) (io_sections io)
    (io_next_section_id io) (io_section io) v (io_buffer io) (io_buffer_enabled io) (io_undo
    io).
Definition set_io_buffer (v : RCache) io : RIO P D :=
  mkRIO _ _ (io_desc io) (io_plugin io) (io_off io) (io_va io) (io_raw io) (io_vio io)
    (io_debug io) (io_sectonly io) (io_enforce_rwx io) (io_cached io) (io_cached_read io)
    (io_raised io) (io_autofd io) (io_ff io) (io_Oxff io) (io_write_mask_fd io)
    (io_write_mask_buf io) (io_descs io) (io_files io) (io_maps io) (io_sections io)
    (io_next_section_id io) (io_section io) (io_cache io) v (io_buffer_enabled io) (io_undo
    io).
Definition set_io_buffer_enabled (v : bool) io : RIO P D :=
  mkRIO _ _ (io_desc io) (io_plugin io) (io_off io) (io_va io) (io_raw io) (io_vio io)
    (io_debug io) (io_sectonly io) (io_enforce_rwx io) (io_cached io) (io_cached_read io)
    (io_raised io) (io_autofd io) (io_ff io) (io_Oxff io) (io_write_mask_fd io)
    (io_write_mask_buf io) (io_descs io) (io_files io) (io_maps io) (io_sections io)
    (io_next_section_id io) (io_section io) (io_cache io) (io_buffer io) v (io_undo io).
Definition set_io_undo (v : RIOUndo) io : RIO P D :=
  mkRIO _ _ (io_desc io) (io_plugin io) (io_off io) (io_va io) (io_raw io) (io_vio io)
    (io_debug io) (io_sectonly io) (io_enforce_rwx io) (io_cached io) (io_cached_read io)
    (io_raised io) (io_autofd io) (io_ff io) (io_Oxff io) (io_write_mask_fd io)
    (io_write_mask_buf io) (io_descs io) (io_files io) (io_maps io) (io_sections io)
    (io_next_section_id io) (io_section io) (io_cache io) (io_buffer io) (io_buffer_enabled
    io) v.
End Setters.

Definition set_d_data {P D} (v : D) (d : RIODesc P D) : RIODesc P D :=
  mkDesc _ _ (d_fd d) (d_flags d) (d_plugin d) v.

(** The structure as [R_NEW0] allocates it. *)
Definition undo_zero : RIOUndo := mkUndo false false [] false 0 0 0 (replicate 64 (mkUndos 0 0)).
Definition io_zero {P D} : RIO P D :=
  mkRIO _ _ None None 0 false false false false false 0 0 0 0 false false 0 0 [] ∅ [] [] [] 0 None
    [] (mkRCache 0 None) false undo_zero.
