(* ===== verification/IoSection.v ===== *)
(** * Sections of the i/o layer

    [libr/io/section.c]: the list of sections, which says how a range of
    virtual addresses is backed by a range of map addresses, and the
    conversions between the two. *)

From S2P Require Import Prelude IoState.

(** ** Architectures

    [libr/util/sys.c]: the table of architecture names. *)
Definition arch_bit_array : list (string * Z) :=
  [("x86", 0x1); ("arm", 0x2); ("ppc", 0x4); ("m68k", 0x8); ("java", 0x10); ("mips", 0x20);
   ("sparc", 0x40); ("xap", 0x80); ("tms320", 0x80000); ("msil", 0x100); ("objd", 0x200);
   ("bf", 0x400); ("sh", 0x800); ("avr", 0x1000); ("dalvik", 0x2000); ("z80", 0x4000);
   ("arc", 0x8000); ("i8080", 0x10000); ("rar", 0x20000); ("lm32", 0x80000000)]%string.

(** An [int]. *)
Definition r_sys_arch_id (arch : string) : Z :=
  match find (fun a => String.eqb arch (fst a)) arch_bit_array with
  | Some (_, bit) => s32 bit
  | None => 0
  end.

Definition r_sys_arch_str (arch : Z) : string :=
  match find (fun a => z2b (Z.land (u64 arch) (snd a))) arch_bit_array with
  | Some (name, _) => name
  | None => "none"%string
  end.

(** ** Lookup *)

Definition sec_mapped (s : RIOSection) : bool := z2b (Z.land (sec_rwx s) R_IO_MAP).
Definition in_vaddr (vaddr : Z) (s : RIOSection) : bool :=
  (sec_vaddr s <=? vaddr) && (vaddr <? u64 (sec_vaddr s + sec_vsize s)).
Definition in_mapped (vaddr : Z) (s : RIOSection) : bool := sec_mapped s && in_vaddr vaddr s.
Definition in_maddr (maddr : Z) (s : RIOSection) : bool :=
  (sec_offset s <=? maddr) && (maddr <? u64 (sec_offset s + sec_size s)).

(** No section has the null name. *)
Definition is_named (name : option string) (s : RIOSection) : bool :=
  match name with Some name => String.eqb name (sec_name s) | None => false end.

Section Queries.
Context {P D : Type}.
Implicit Types io : RIO P D.

Definition r_io_section_get_name io (name : option string) : option RIOSection :=
  find (is_named name) (io_sections io).

Definition r_io_section_get_i io (idx : Z) : option RIOSection :=
  find (fun s => sec_id s =? idx) (io_sections io).

Definition r_io_section_vget io (vaddr : Z) : option RIOSection :=
  find (in_vaddr vaddr) (io_sections io).

Definition r_io_section_mget_in io (maddr : Z) : option RIOSection :=
  find (in_maddr maddr) (io_sections io).

Definition r_io_section_mget_prev io (maddr : Z) : option RIOSection :=
  find_prev (in_maddr maddr) (io_sections io).

Definition r_io_section_get_offset io (maddr : Z) : Z :=
  match r_io_section_mget_in io maddr with Some s => sec_offset s | None => UT64_MAX end.

Definition r_io_section_get_vaddr io (maddr : Z) : Z :=
  match r_io_section_mget_in io maddr with Some s => sec_vaddr s | None => UT64_MAX end.

Definition r_io_section_get_rwx io (offset : Z) : Z :=
  match r_io_section_mget_in io offset with
  | Some s => sec_rwx s
  | None => Z.lor (Z.lor R_IO_READ R_IO_WRITE) R_IO_EXEC
  end.

(** The loop of [r_io_section_overlaps]; two sections are the same when they
    have the same id. *)
Fixpoint overlaps_from (i : Z) (s : RIOSection) (l : list RIOSection) : Z :=
  match l with
  | [] => -1
  | s2 :: l =>
      if negb (sec_mapped s) then overlaps_from i s l
      else if negb (sec_id s =? sec_id s2)
              && (if sec_offset s2 <=? sec_offset s
                  then u64 (sec_offset s2 + sec_size s2) <? sec_offset s
                  else u64 (sec_offset s + sec_size s) <? sec_offset s2)
      then i
      else overlaps_from (i + 1) s l
  end.
Definition r_io_section_overlaps io (s : RIOSection) : Z := overlaps_from 0 s (io_sections io).

Definition r_io_section_vaddr_to_maddr io (vaddr : Z) : Z :=
  match find (in_mapped vaddr) (io_sections io) with
  | Some s => u64 (vaddr - sec_vaddr s + sec_offset s)
  | None => UT64_MAX
  end.

Definition r_io_section_vaddr_to_maddr_try io (vaddr : Z) : Z :=
  let res := r_io_section_vaddr_to_maddr io vaddr in
  if res =? UT64_MAX then vaddr else res.

Definition exists_for (s : option RIOSection) (hasperm : Z) : Z :=
  match s with
  | Some s => if z2b hasperm then Z.land (sec_rwx s) hasperm else 1
  | None => 0
  end.
Definition r_io_section_exists_for_paddr io (paddr hasperm : Z) : Z :=
  exists_for (r_io_section_mget_in io paddr) hasperm.
Definition r_io_section_exists_for_vaddr io (vaddr hasperm : Z) : Z :=
  exists_for (r_io_section_vget io vaddr) hasperm.

(** One section in the search for the next boundary: its end, when it is the
    nearest one, is replaced by its start. *)
Definition section_next_step (o newsec : Z) (s : RIOSection) : Z :=
  let newsec := if (o <? sec_vaddr s) && (sec_vaddr s <? newsec) then sec_vaddr s else newsec in
  let addr := u64 (sec_vaddr s + sec_vsize s) in
  if (o <? addr) && (addr <? newsec) then sec_vaddr s else newsec.
Definition r_io_section_next io (o : Z) : Z :=
  foldl (section_next_step o) UT64_MAX (io_sections io).

(** *** Ranges

    The three tests of the functions below on a range [from, to) against
    [addr, endaddr). *)
Definition range_start (addr from to : Z) : bool := (from <=? addr) && (addr <? to).
Definition range_end (endaddr from to : Z) : bool := (from <? endaddr) && (endaddr <? to).
Definition range_inside (addr endaddr from to : Z) : bool :=
  (addr <=? from) && (to <=? endaddr).
Definition range_hit (addr endaddr from to : Z) : bool :=
  range_start addr from to || range_end endaddr from to || range_inside addr endaddr from to.

(** The entries of a list that a range touches, once for every test that
    succeeds. *)
Definition in_range {A} (from to : A -> Z) (addr endaddr : Z) (l : list A) : list A :=
  l ≫= fun s =>
    (if range_start addr (from s) (to s) then [s] else [])
    ++ (if range_end endaddr (from s) (to s) then [s] else [])
    ++ (if range_inside addr endaddr (from s) (to s) then [s] else []).

Definition sec_pend (s : RIOSection) : Z := u64 (sec_offset s + sec_size s).
Definition sec_vend (s : RIOSection) : Z := u64 (sec_vaddr s + sec_vsize s).

Definition r_io_section_get_in_paddr_range io (addr endaddr : Z) : list RIOSection :=
  in_range sec_offset sec_pend addr endaddr (List.filter sec_mapped (io_sections io)).

Definition r_io_section_get_in_vaddr_range io (addr endaddr : Z) : list RIOSection :=
  in_range sec_vaddr sec_vend addr endaddr (List.filter sec_mapped (io_sections io)).

Definition r_io_section_get_first_in_paddr_range io (addr endaddr : Z) : option RIOSection :=
  find (fun s => sec_mapped s && range_hit addr endaddr (sec_offset s) (sec_pend s))
    (io_sections io).

Definition r_io_section_get_first_in_vaddr_range io (addr endaddr : Z) : option RIOSection :=
  find (fun s => sec_mapped s && range_hit addr endaddr (sec_vaddr s) (sec_vend s))
    (io_sections io).

(** The architecture and bits of the section at an address. *)
Definition r_io_section_get_archbits io (addr : Z) : option (string * Z) :=
  match r_io_section_vget io addr with
  | None => None
  | Some s =>
      if negb (z2b (sec_bits s)) || negb (z2b (sec_arch s)) then None
      else Some (r_sys_arch_str (sec_arch s), sec_bits s)
  end.

Definition in_vaddr_bin (vaddr bin_id : Z) (s : RIOSection) : bool :=
  sec_mapped s && (sec_bin_id s =? bin_id) && in_vaddr vaddr s.
Definition r_io_section_getv_bin_id io (vaddr bin_id : Z) : option RIOSection :=
  find (in_vaddr_bin vaddr bin_id) (io_sections io).
End Queries.

(** ** Changes *)

Definition set_sec_perm (rwx : Z) (name : option string) (s : RIOSection) : RIOSection :=
  mkSection (match name with Some n => n | None => sec_name s end) (sec_offset s) (sec_vaddr s)
    (sec_size s) (sec_vsize s) rwx (sec_id s) (sec_arch s) (sec_bits s) (sec_bin_id s) (sec_fd s).

Definition set_sec_archbits (arch bits : Z) (s : RIOSection) : RIOSection :=
  mkSection (sec_name s) (sec_offset s) (sec_vaddr s) (sec_size s) (sec_vsize s) (sec_rwx s)
    (sec_id s) arch bits (sec_bin_id s) (sec_fd s).

(** [findMatching] looks a section up by its four numbers and updates the
    permissions and the name of the one it finds. *)
Definition sec_matches (paddr vaddr size vsize : Z) (s : RIOSection) : bool :=
  (sec_offset s =? paddr) && (sec_vaddr s =? vaddr) && (sec_size s =? size)
  && (sec_vsize s =? vsize).

Section Changes.
Context {P D : Type}.
Implicit Types io : RIO P D.
Let MIO := M (RIO P D).

Definition r_io_section_init : MIO unit :=
  modify (fun io => set_io_sections [] (set_io_enforce_rwx 0 (set_io_next_section_id 0 io))).

Definition r_io_section_clear : MIO unit := modify (set_io_sections []).

Definition findMatching (paddr vaddr size vsize rwx : Z) (name : option string)
    : MIO (option RIOSection) :=
  l ← gets io_sections;
  match find (sec_matches paddr vaddr size vsize) l with
  | None => mret None
  | Some s =>
      modify (set_io_sections
                (update_first (sec_matches paddr vaddr size vsize) (set_sec_perm rwx name) l)) ;;
      mret (Some (set_sec_perm rwx name s))
  end.

Definition r_io_section_add (offset vaddr size vsize rwx : Z) (name : option string)
    (bin_id fd : Z) : MIO (option RIOSection) :=
  if (size =? 0) || (size =? UT64_MAX) || (size =? 2 ^ 32 - 1) then mret None
  else
    s ← findMatching offset vaddr size vsize rwx name;
    match s with
    | Some s => mret (Some s)
    | None =>
        io ← gets id;
        match r_io_section_get_name io name with
        | Some s =>
            let f s := mkSection (sec_name s) offset vaddr size vsize rwx (sec_id s) 0 0
                         bin_id fd in
            modify (fun io => set_io_sections
              (update_first (is_named name) f (io_sections io)) io) ;;
            mret (Some (f s))
        | None =>
            let s := mkSection (default ""%string name) offset vaddr size vsize rwx
                       (io_next_section_id io) 0 0 bin_id fd in
            modify (fun io => set_io_next_section_id (s32 (io_next_section_id io + 1)) io) ;;
            modify (fun io => set_io_sections (io_sections io ++ [s]) io) ;;
            mret (Some s)
        end
    end.

Definition r_io_section_rm (idx : Z) : MIO bool :=
  io ← gets id;
  let p s := sec_id s =? idx in
  modify (set_io_sections (delete_first p (io_sections io))) ;;
  mret (is_some (find p (io_sections io))).

Definition r_io_section_rm_all (fd : Z) : MIO bool :=
  modify (fun io => set_io_sections
    (List.filter (fun s => negb ((sec_fd s =? fd) || (fd =? -1))) (io_sections io)) io) ;;
  mret true.

Definition r_io_section_maddr_to_vaddr (offset : Z) : MIO Z :=
  io ← gets id;
  match r_io_section_mget_prev io offset with
  | Some s =>
      modify (set_io_section (Some (sec_id s))) ;;
      mret (u64 (sec_vaddr s + offset - sec_offset s))
  | None => mret UT64_MAX
  end.

(** The new architecture and bits of a section ([None] is the null string). *)
Definition archbits_of (arch : option string) (bits : Z) (s : RIOSection) : RIOSection :=
  match arch with
  | Some a => set_sec_archbits (r_sys_arch_id a) bits s
  | None => set_sec_archbits 0 0 s
  end.

Definition r_io_section_set_archbits (addr : Z) (arch : option string) (bits : Z) : MIO bool :=
  io ← gets id;
  match r_io_section_vget io addr with
  | None => mret false
  | Some _ =>
      modify (set_io_sections
        (update_first (in_vaddr addr) (archbits_of arch bits) (io_sections io))) ;;
      mret true
  end.

Definition r_io_section_set_archbits_bin_id (addr : Z) (arch : option string) (bits bin_id : Z)
    : MIO bool :=
  io ← gets id;
  match r_io_section_getv_bin_id io addr bin_id with
  | None => mret false
  | Some _ =>
      modify (set_io_sections
        (update_first (in_vaddr_bin addr bin_id) (archbits_of arch bits) (io_sections io))) ;;
      mret true
  end.
End Changes.

(** ** Lemmas *)

Section RangeFacts.
Context {A : Type} (from to : A -> Z).

(** A range query lists exactly the entries that meet the range. *)
Lemma range_hit_overlap addr endaddr (s : A) :
  addr < endaddr -> from s < to s ->
  range_hit addr endaddr (from s) (to s) = true <-> from s < endaddr /\ addr < to s.
Proof.
  intros H1 H2. unfold range_hit, range_start, range_end, range_inside.
  rewrite !orb_true_iff, !andb_true_iff, !Z.leb_le, !Z.ltb_lt. lia.
Qed.

Lemma elem_of_if_sing (b : bool) (s y : A) :
  s ∈ (if b then [y] else []) <-> b = true /\ s = y.
Proof.
  destruct b; [rewrite list_elem_of_singleton; tauto|].
  split; [intros H; inversion H | intros [? ?]; done].
Qed.

Lemma elem_of_in_range addr endaddr (l : list A) s :
  s ∈ in_range from to addr endaddr l
  <-> s ∈ l /\ range_hit addr endaddr (from s) (to s) = true.
Proof.
  unfold in_range, range_hit. rewrite list_elem_of_bind. split.
  - intros (y & Hs & Hy). rewrite !elem_of_app, !elem_of_if_sing in Hs.
    rewrite !orb_true_iff. destruct Hs as [[? ->]|[[? ->]|[? ->]]]; tauto.
  - intros [Hs Hh]. exists s. split; [|done]. rewrite !elem_of_app, !elem_of_if_sing.
    rewrite !orb_true_iff in Hh. tauto.
Qed.

Lemma in_range_nil addr endaddr (l : list A) :
  in_range from to addr endaddr l = []
  <-> find (fun s => range_hit addr endaddr (from s) (to s)) l = None.
Proof.
  split.
  - intros E. destruct (find _ l) as [s|] eqn:Ef; [|done].
    apply find_Some_elem in Ef as [? ?].
    assert (s ∈ in_range from to addr endaddr l) as Hin by (by apply elem_of_in_range).
    rewrite E in Hin. set_solver.
  - intros Hn. destruct (in_range from to addr endaddr l) as [|s l'] eqn:E; [done|].
    assert (s ∈ in_range from to addr endaddr l) as Hin by (rewrite E; set_solver).
    apply elem_of_in_range in Hin as [Hin Hh]. eapply find_none in Hn; [|by apply list_elem_of_In].
    congruence.
Qed.
End RangeFacts.

(** *** The list of sections *)

(** Ids are distinct and below the next one, and no section is empty. *)
Record sections_ok {P D} (io : RIO P D) : Prop := {
  so_ids : NoDup (map sec_id (io_sections io));
  so_next : Forall (fun s => sec_id s < io_next_section_id io) (io_sections io);
  so_size : Forall (fun s => sec_size s <> 0) (io_sections io);
}.

Section ListFacts.
Context {P D : Type}.
Implicit Types io : RIO P D.

Lemma find_id (l : list RIOSection) s :
  NoDup (map sec_id l) -> s ∈ l -> find (fun s' => sec_id s' =? sec_id s) l = Some s.
Proof.
  intros Hnd Hin. apply find_unique; [done|apply Z.eqb_refl|].
  intros y Hy E. apply Z.eqb_eq in E. apply (list_elem_of_lookup_1) in Hin as [i Hi].
  apply list_elem_of_lookup_1 in Hy as [j Hj].
  assert (i = j) as -> by
    (eapply (NoDup_lookup _ i j (sec_id s) Hnd); rewrite list_lookup_fmap, ?Hi, ?Hj; simpl; congruence).
  congruence.
Qed.

Lemma find_other_id p f (l : list RIOSection) s i :
  (forall x, sec_id (f x) = sec_id x) -> NoDup (map sec_id l) ->
  find p l = Some s -> i <> sec_id s ->
  find (fun s => sec_id s =? i) (update_first p f l) = find (fun s => sec_id s =? i) l.
Proof.
  intros Hf Hnd. induction l as [|x l IH]; simpl; [done|].
  inversion Hnd as [|? ? _ Hl]; subst. destruct (p x) eqn:Ep; simpl.
  - intros [= ->] Hi. rewrite Hf. by destruct (Z.eqb_spec (sec_id s) i).
  - intros Hs Hi. rewrite IH by done. done.
Qed.

Lemma sections_ok_update io p f :
  (forall x, sec_id (f x) = sec_id x) -> (forall x, sec_size x <> 0 -> sec_size (f x) <> 0) ->
  sections_ok io -> sections_ok (set_io_sections (update_first p f (io_sections io)) io).
Proof.
  intros Hf Hs [H1 H2 H3]. split; simpl.
  - by rewrite map_update_first.
  - apply Forall_update_first; [|done]. intros x. by rewrite Hf.
  - by apply Forall_update_first.
Qed.

Lemma sections_ok_sublist io l :
  sublist l (io_sections io) -> sections_ok io -> sections_ok (set_io_sections l io).
Proof.
  intros Hl [H1 H2 H3]. split; simpl.
  - eapply sublist_NoDup; [exact H1|]. by apply (fmap_sublist sec_id).
  - eapply Forall_sublist; eauto.
  - eapply Forall_sublist; eauto.
Qed.

(** What [r_io_section_add] leaves. *)
Lemma section_update_result io p f s :
  (forall x, sec_id (f x) = sec_id x) -> (forall x, sec_size x <> 0 -> sec_size (f x) <> 0) ->
  sections_ok io -> find p (io_sections io) = Some s ->
  let io' := set_io_sections (update_first p f (io_sections io)) io in
  sections_ok io' /\ r_io_section_get_i io' (sec_id s) = Some (f s)
  /\ (forall i, i <> sec_id s -> r_io_section_get_i io' i = r_io_section_get_i io i).
Proof.
  intros Hf Hz Hok Hs io'. assert (sections_ok io') as Hok' by by apply sections_ok_update.
  split; [done|]. split.
  - unfold r_io_section_get_i. rewrite <- (Hf s). apply find_id; [apply Hok'|]. simpl.
    clear -Hs. induction (io_sections io) as [|x l IH]; [done|]. simpl in *.
    destruct (p x); [injection Hs as ->|]; set_solver.
  - intros i Hi. apply (find_other_id p f _ s); auto. apply Hok.
Qed.
End ListFacts.

Lemma sections_ok_append {P D} (io : RIO P D) s :
  sections_ok io -> -1 <= io_next_section_id io < 2 ^ 31 - 1 ->
  sec_id s = io_next_section_id io -> sec_size s <> 0 ->
  let io' := set_io_sections (io_sections io ++ [s])
               (set_io_next_section_id (s32 (io_next_section_id io + 1)) io) in
  sections_ok io' /\ r_io_section_get_i io' (sec_id s) = Some s
  /\ (forall i, i <> sec_id s -> r_io_section_get_i io' i = r_io_section_get_i io i).
Proof.
  intros [H1 H2 H3] Hn Hid Hsz io'. assert (sections_ok io') as Hok.
  { split; simpl.
    - rewrite map_app. apply NoDup_app. split; [done|]. split; [|apply NoDup_singleton].
      intros x Hx Hx'. apply list_elem_of_singleton in Hx'. subst x.
      apply list_elem_of_fmap in Hx as (y & Hy & Hin).
      rewrite Forall_forall in H2. specialize (H2 y Hin). lia.
    - unfold s32. rewrite swrap_id by lia. apply Forall_app. split.
      + eapply Forall_impl; [exact H2|]. simpl. lia.
      + apply Forall_singleton. lia.
    - apply Forall_app. split; [done|]. by apply Forall_singleton. }
  split; [done|]. split.
  - apply find_id; [apply Hok|]. simpl. set_solver.
  - intros i Hi. unfold r_io_section_get_i. simpl. clear -Hi.
    induction (io_sections io) as [|x l IH]; simpl.
    + by destruct (Z.eqb_spec (sec_id s) i); [|].
    + by rewrite IH.
Qed.

(** C25: Adding a section keeps the ids distinct and the sizes positive; it
    returns a section with the numbers that were asked, which lookup by id then
    finds, whether it is a new one or one that was there with the same numbers
    or the same name; no other section changes.  A null or saturated size is
    refused. *)
Theorem r_io_section_add_ok {P D} (io : RIO P D) offset vaddr size vsize rwx name bin_id fd :
  sections_ok io -> -1 <= io_next_section_id io < 2 ^ 31 - 1 ->
  if (size =? 0) || (size =? UT64_MAX) || (size =? 2 ^ 32 - 1)
  then r_io_section_add offset vaddr size vsize rwx name bin_id fd io = Ok None io
  else exists s io', r_io_section_add offset vaddr size vsize rwx name bin_id fd io = Ok (Some s) io'
    /\ (sec_offset s, sec_vaddr s, sec_size s, sec_vsize s, sec_rwx s)
       = (offset, vaddr, size, vsize, rwx)
    /\ sections_ok io' /\ r_io_section_get_i io' (sec_id s) = Some s
    /\ (forall i, i <> sec_id s -> r_io_section_get_i io' i = r_io_section_get_i io i).
Proof.
  intros Hok Hn. unfold r_io_section_add.
  destruct (_ || _) eqn:E; [done|]. apply orb_false_iff in E as [[E _]%orb_false_iff _].
  apply Z.eqb_neq in E. unfold findMatching. mrun.
  destruct (find (sec_matches _ _ _ _) (io_sections io)) as [s|] eqn:Em; mrun.
  { eexists _, _. split; [reflexivity|]. split.
    - apply find_Some_elem in Em as [_ Hm]. unfold sec_matches in Hm. simpl.
      apply andb_true_iff in Hm as [[[? ?]%andb_true_iff ?]%andb_true_iff ?].
      repeat f_equal; lia.
    - by apply (section_update_result io _ (set_sec_perm rwx name) s). }
  unfold r_io_section_get_name. destruct (find (is_named name) _) as [s|] eqn:En; mrun;
    (eexists _, _; split; [reflexivity|]; split; [done|]).
  - by apply (section_update_result io (is_named name) (fun s => mkSection (sec_name s) offset vaddr size vsize rwx (sec_id s) 0 0 bin_id fd) s).
  - by apply (sections_ok_append io).
Qed.

(** *** Virtual and map addresses *)

(** A section whose ranges do not wrap. *)
Record sec_fits (s : RIOSection) : Prop := {
  sf_vaddr : 0 <= sec_vaddr s; sf_vsize : 0 <= sec_vsize s;
  sf_vend : sec_vaddr s + sec_vsize s < 2 ^ 64;
  sf_offset : 0 <= sec_offset s; sf_size : 0 <= sec_size s;
  sf_pend : sec_offset s + sec_size s < 2 ^ 64;
}.

(** No address belongs to two sections of the list. *)
Definition disjoint_by (inside : Z -> RIOSection -> bool) (l : list RIOSection) : Prop :=
  forall a s1 s2, s1 ∈ l -> s2 ∈ l -> inside a s1 = true -> inside a s2 = true -> s1 = s2.

Lemma in_vaddr_iff v s : sec_fits s ->
  in_vaddr v s = true <-> sec_vaddr s <= v < sec_vaddr s + sec_vsize s.
Proof.
  intros []. unfold in_vaddr. rewrite u64_id, andb_true_iff, Z.leb_le, Z.ltb_lt by lia. done.
Qed.
Lemma in_maddr_iff m s : sec_fits s ->
  in_maddr m s = true <-> sec_offset s <= m < sec_offset s + sec_size s.
Proof.
  intros []. unfold in_maddr. rewrite u64_id, andb_true_iff, Z.leb_le, Z.ltb_lt by lia. done.
Qed.

Lemma find_prev_unique {A} (p : A -> bool) (l : list A) x :
  x ∈ l -> p x = true -> (forall y, y ∈ l -> p y = true -> y = x) -> find_prev p l = Some x.
Proof.
  intros Hx Hp Hu. apply find_unique; [by apply elem_of_reverse|done|].
  intros y Hy. apply Hu. by apply elem_of_reverse.
Qed.

(** The conversions at an address of a section. *)
Lemma vaddr_to_maddr_in {P D} (io : RIO P D) s v :
  disjoint_by in_mapped (io_sections io) -> s ∈ io_sections io -> sec_fits s ->
  sec_mapped s = true -> sec_vaddr s <= v < sec_vaddr s + sec_vsize s ->
  r_io_section_vaddr_to_maddr io v = u64 (v - sec_vaddr s + sec_offset s).
Proof.
  intros Hd Hs Hf Hm Hv. unfold r_io_section_vaddr_to_maddr.
  assert (in_mapped v s = true) as Hin
    by (unfold in_mapped; rewrite Hm; by apply in_vaddr_iff).
  rewrite (find_unique _ _ s Hs Hin); [done|]. intros y Hy Hyv. by apply (Hd v).
Qed.

Lemma maddr_to_vaddr_in {P D} (io : RIO P D) s m :
  disjoint_by in_maddr (io_sections io) -> s ∈ io_sections io -> sec_fits s ->
  sec_offset s <= m < sec_offset s + sec_size s ->
  r_io_section_maddr_to_vaddr m io
  = Ok (u64 (sec_vaddr s + m - sec_offset s)) (set_io_section (Some (sec_id s)) io).
Proof.
  intros Hd Hs Hf Hm. unfold r_io_section_maddr_to_vaddr, r_io_section_mget_prev. mrun.
  assert (in_maddr m s = true) as Hin by by apply in_maddr_iff.
  rewrite (find_prev_unique _ _ s Hs Hin); [by mrun|]. intros y Hy Hyv. by apply (Hd m).
Qed.

(** When neither the virtual nor the map ranges of the sections overlap,
    the two conversions are inverse of each other on the part of a mapped
    section that the file backs. *)
Theorem r_io_section_vaddr_roundtrip {P D} (io : RIO P D) s i :
  disjoint_by in_mapped (io_sections io) -> disjoint_by in_maddr (io_sections io) ->
  s ∈ io_sections io -> sec_fits s -> sec_mapped s = true ->
  0 <= i < sec_vsize s -> i < sec_size s ->
  let v := sec_vaddr s + i in
  let m := sec_offset s + i in
  let io' := set_io_section (Some (sec_id s)) io in
  r_io_section_vaddr_to_maddr io v = m /\ r_io_section_vaddr_to_maddr_try io v = m
  /\ r_io_section_maddr_to_vaddr m io = Ok v io' /\ r_io_section_vaddr_to_maddr io' v = m.
Proof.
  intros Hd Hd' Hs Hf Hm Hi Hi' v m io'. pose proof Hf as [].
  assert (forall x : RIO P D, io_sections x = io_sections io ->
    r_io_section_vaddr_to_maddr x v = m) as Hv.
  { intros x Hx. rewrite (vaddr_to_maddr_in x s); rewrite ?Hx; try done; [|lia].
    unfold v, m. rewrite u64_id by lia. lia. }
  split; [by apply Hv|]. split; [|split; [|by apply Hv]].
  - unfold r_io_section_vaddr_to_maddr_try. rewrite Hv by done.
    destruct (Z.eqb_spec m UT64_MAX); [|done]. unfold UT64_MAX in *. lia.
  - rewrite (maddr_to_vaddr_in io s) by (done || lia). unfold v, m.
    rewrite u64_id by lia. do 2 f_equal; lia.
Qed.

(** Two sections: code at 0x1000 backed by offsets 0x40.., data at 0x4000, whose
    tail is not in the file. *)
Definition demo_sections : list RIOSection :=
  [mkSection ".text" 0x40 0x1000 0x80 0x80 (Z.lor R_IO_MAP 5) 0 0 0 0 3;
   mkSection ".data" 0xC0 0x4000 0x20 0x100 (Z.lor R_IO_MAP 6) 1 0 0 0 3]%string.
Definition demo_section_io : RIO unit unit :=
  set_io_next_section_id 2 (set_io_sections demo_sections io_zero).

Lemma demo_disjoint :
  disjoint_by in_mapped demo_sections /\ disjoint_by in_maddr demo_sections.
Proof.
  split; intros a s1 s2 H1 H2; unfold demo_sections in *;
    rewrite !elem_of_cons, elem_of_nil in H1, H2;
    destruct H1 as [->|[->|[]]], H2 as [->|[->|[]]]; try done;
    unfold in_mapped, in_vaddr, in_maddr; cbn -[u64]; rewrite ?andb_true_iff, ?Z.leb_le, ?Z.ltb_lt;
    intros; exfalso; ulia.
Qed.

Lemma r_io_section_add_ok_witness :
  exists s io', r_io_section_add 0x200 0x8000 0x10 0x10 6 (Some ".bss"%string) 0 3 demo_section_io
                = Ok (Some s) io' /\ r_io_section_get_i io' 2 = Some s.
Proof.
  assert (sections_ok demo_section_io) as Hok.
  { split; simpl; [repeat constructor; set_solver|repeat constructor|repeat constructor; done]. }
  pose proof (r_io_section_add_ok demo_section_io 0x200 0x8000 0x10 0x10 6 (Some ".bss"%string) 0 3
    Hok ltac:(simpl; lia)) as (s & io' & E & _ & _ & G & _).
  exists s, io'. split; [exact E|]. vm_compute in E. injection E as <- <-. exact G.
Defined.

Lemma r_io_section_vaddr_roundtrip_witness :
  r_io_section_vaddr_to_maddr demo_section_io 0x4010 = 0xD0
  /\ exists io', r_io_section_maddr_to_vaddr 0xD0 demo_section_io = Ok 0x4010 io'.
Proof.
  destruct demo_disjoint as [H1 H2].
  destruct (r_io_section_vaddr_roundtrip demo_section_io
    (mkSection ".data" 0xC0 0x4000 0x20 0x100 (Z.lor R_IO_MAP 6) 1 0 0 0 3) 0x10) as (E1 & _ & E2 & _);
    [exact H1|exact H2|set_solver|split; simpl; lia|reflexivity|simpl; lia|simpl; lia|].
  split; [exact E1|]. eexists. exact E2.
Defined.
