(* ===== verification/IoMap.v ===== *)
(** * Maps of the i/o layer

    [libr/io/map.c]: the list of maps, which says which descriptor is behind a
    range of map addresses and at which offset.  [r_io_map_select], which also
    seeks, is in [IoCore]. *)

From S2P Require Import Prelude IoState IoSection.

#[export] Instance RIOMap_eq_dec : EqDecision RIOMap.
Proof. solve_decision. Defined.

(** ** Lookup *)

Definition in_map (addr : Z) (m : RIOMap) : bool := (map_from m <=? addr) && (addr <? map_to m).

(** The order of [r_list_sort]. *)
Definition r_io_map_sort (a b : RIOMap) : bool :=
  if map_from a =? map_from b
  then u64 (map_to a - map_from a) <? u64 (map_to b - map_from b)
  else map_from a <? map_from b.

Definition r_io_map_resolve_from_list (maps : list RIOMap) (fd : Z) : option RIOMap :=
  find (fun m => map_fd m =? fd) maps.

(** The list built by the prepending variant of the range query: the maps that
    hold the start are appended, the other ones put in front. *)
Definition prepend_hits (addr endaddr : Z) (maps : list RIOMap) (m : RIOMap) : list RIOMap :=
  let maps := if range_start addr (map_from m) (map_to m) then maps ++ [m] else maps in
  let maps := if range_end endaddr (map_from m) (map_to m) then m :: maps else maps in
  if range_inside addr endaddr (map_from m) (map_to m) then m :: maps else maps.

(** One step of the search for the next start: [next] is never 0. *)
Definition map_next_step (addr next : Z) (m : RIOMap) : Z :=
  if (addr <? map_from m) && ((next =? 0) || (map_from m <? next)) then map_from m else next.

Section Queries.
Context {P D : Type}.
Implicit Types io : RIO P D.

Definition r_io_map_count io : Z := Z.of_nat (length (io_maps io)).

Definition r_io_map_get io (addr : Z) : option RIOMap :=
  find (fun m => ((map_from m =? map_to m) && (map_from m <=? addr)) || in_map addr m)
    (io_maps io).

Definition r_io_map_resolve io (fd : Z) : option RIOMap :=
  r_io_map_resolve_from_list (io_maps io) fd.

Definition r_io_map_get_maps_in_range_prepend io (addr endaddr : Z) : list RIOMap :=
  foldl (prepend_hits addr endaddr) [] (io_maps io).

Definition r_io_map_resolve_in_range io (addr endaddr fd : Z) : option RIOMap :=
  r_io_map_resolve_from_list (r_io_map_get_maps_in_range_prepend io addr endaddr) fd.

Definition r_io_map_get_maps_in_range io (addr endaddr : Z) : list RIOMap :=
  in_range map_from map_to addr endaddr (io_maps io).

Definition r_io_map_get_first_map_in_range io (addr endaddr : Z) : option RIOMap :=
  find (fun m => range_hit addr endaddr (map_from m) (map_to m)) (io_maps io).

Definition r_io_map_next io (addr : Z) : Z := foldl (map_next_step addr) UT64_MAX (io_maps io).

Definition r_io_map_exists_for_offset io (off : Z) : bool :=
  is_some (find (in_map off) (io_maps io)).

(** The map is given by its place in the list. *)
Definition r_io_map_overlaps io (fd : bool) (i : nat) : bool :=
  match fd, io_maps io !! i with
  | true, Some map => existsb (in_map (map_from map)) (delete i (io_maps io))
  | _, _ => false
  end.
End Queries.

(** ** Changes *)

Definition set_map_to (v : Z) (m : RIOMap) : RIOMap :=
  mkMap (map_fd m) (map_flags m) (map_delta m) (map_from m) v.

(** The test of [r_io_map_add] and [r_io_map_add_next_available] against a map
    of the same descriptor. *)
Definition map_clash (fd addr end_addr : Z) (m : RIOMap) : bool :=
  (map_fd m =? fd) && (in_map addr m || in_map end_addr m).

Section Changes.
Context {P D : Type}.
Implicit Types io : RIO P D.
Let MIO := M (RIO P D).

Definition r_io_map_init : MIO unit := modify (set_io_maps []).

Definition r_io_map_new (fd flags delta addr size : Z) : MIO (option RIOMap) :=
  if UT64_MAX - size <? addr then mret None
  else
    let map := mkMap fd flags delta addr (u64 (addr + size)) in
    modify (fun io => set_io_maps (io_maps io ++ [map]) io) ;;
    mret (Some map).

Definition r_io_map_write_update (fd addr len : Z) : MIO bool :=
  io ← gets id;
  match r_io_map_resolve io fd with
  | Some map =>
      if map_to map <? u64 (addr + len)
      then
        modify (set_io_maps
          (update_first (fun m => map_fd m =? fd) (set_map_to (u64 (addr + len))) (io_maps io))) ;;
        mret true
      else mret false
  | None => mret false
  end.

Definition r_io_map_truncate_update (fd sz : Z) : MIO bool :=
  io ← gets id;
  match r_io_map_resolve io fd with
  | Some map =>
      modify (set_io_maps
        (update_first (fun m => map_fd m =? fd) (set_map_to (u64 (map_from map + sz)))
           (io_maps io))) ;;
      mret true
  | None => mret false
  end.

Definition r_io_map_del (fd : Z) : MIO bool :=
  io ← gets id;
  let dead m := (fd =? -1) || (map_fd m =? fd) in
  modify (set_io_maps (List.filter (fun m => negb (dead m)) (io_maps io))) ;;
  mret (existsb dead (io_maps io)).

Definition r_io_map_del_at (addr : Z) : MIO bool :=
  io ← gets id;
  modify (set_io_maps (delete_first (in_map addr) (io_maps io))) ;;
  mret (is_some (find (in_map addr) (io_maps io))).

Definition r_io_map_add (fd flags delta addr size : Z) : MIO (option RIOMap) :=
  io ← gets id;
  if existsb (map_clash fd addr (u64 (addr + size))) (io_maps io) then mret None
  else r_io_map_new fd flags delta addr size.

(** Only the first map of the list is looked at, since the loop leaves at once
    when it does not clash.  [None] is a recursion deeper than [fuel]; a null
    alignment divides by zero ([UB_overflow]). *)
Fixpoint r_io_map_add_next_available (fuel : nat) (fd flags delta addr size load_align : Z)
    : MIO (option (option RIOMap)) :=
  match fuel with
  | O => mret None
  | S fuel =>
      io ← gets id;
      match io_maps io with
      | [] => m ← r_io_map_new fd flags delta addr size; mret (Some m)
      | map :: _ =>
          if load_align =? 0 then undef UB_overflow
          else
            let after := u64 (map_to map + (load_align - map_to map mod load_align)) in
            let next_addr := Z.max addr after in
            if map_clash fd next_addr (u64 (addr + size)) map
            then r_io_map_add_next_available fuel fd flags delta after size load_align
            else m ← r_io_map_new fd flags delta next_addr size; mret (Some m)
      end
  end.
End Changes.

(** ** Lemmas *)

Lemma elem_of_prepend_hits addr endaddr l acc m :
  m ∈ foldl (prepend_hits addr endaddr) acc l
  <-> m ∈ acc \/ (m ∈ l /\ range_hit addr endaddr (map_from m) (map_to m) = true).
Proof.
  revert acc. induction l as [|x l IH]; intros acc; simpl; [rewrite elem_of_nil; tauto|].
  rewrite IH, elem_of_cons. clear IH.
  assert (m ∈ prepend_hits addr endaddr acc x
          <-> m ∈ acc \/ (m = x /\ range_hit addr endaddr (map_from m) (map_to m) = true)) as ->.
  { unfold prepend_hits, range_hit. rewrite !orb_true_iff.
    destruct (decide (m = x)) as [->|Hne].
    - destruct (range_start _ _ _), (range_end _ _ _), (range_inside _ _ _ _);
        rewrite ?elem_of_cons, ?elem_of_app, ?list_elem_of_singleton; intuition discriminate.
    - destruct (range_start _ _ _), (range_end _ _ _), (range_inside _ _ _ _);
        rewrite ?elem_of_cons, ?elem_of_app, ?list_elem_of_singleton; tauto. }
  naive_solver.
Qed.

Section RangeQueries.
Context {P D : Type}.
Implicit Types io : RIO P D.

(** No map is empty or wraps. *)
Definition maps_ok io : Prop := Forall (fun m => map_from m < map_to m) (io_maps io).

Lemma map_hit_overlap io addr endaddr m :
  maps_ok io -> addr < endaddr -> m ∈ io_maps io ->
  range_hit addr endaddr (map_from m) (map_to m) = true
  <-> map_from m < endaddr /\ addr < map_to m.
Proof.
  intros Hok Ha Hm. unfold maps_ok in Hok. rewrite Forall_forall in Hok.
  apply (range_hit_overlap map_from map_to); auto.
Qed.

Lemma resolve_in_list l fd m :
  r_io_map_resolve_from_list l fd = Some m -> m ∈ l /\ map_fd m = fd.
Proof. intros H. apply find_Some_elem in H as [? ?%Z.eqb_eq]. done. Qed.

Lemma resolve_in_list_none l fd m :
  r_io_map_resolve_from_list l fd = None -> m ∈ l -> map_fd m <> fd.
Proof.
  intros H Hm. eapply find_none in H; [|by apply list_elem_of_In]. by apply Z.eqb_neq in H.
Qed.

(** The range queries on maps list exactly the maps that meet the range,
    the first one is one of them when there is any, and the map of a descriptor
    in a range is found exactly when some map of that descriptor meets it. *)
Theorem r_io_map_range_queries io addr endaddr fd :
  maps_ok io -> addr < endaddr ->
  let meets m := m ∈ io_maps io /\ map_from m < endaddr /\ addr < map_to m in
  (forall m, m ∈ r_io_map_get_maps_in_range io addr endaddr <-> meets m)
  /\ (forall m, m ∈ r_io_map_get_maps_in_range_prepend io addr endaddr <-> meets m)
  /\ match r_io_map_get_first_map_in_range io addr endaddr with
     | Some m => meets m
     | None => forall m, ~ meets m
     end
  /\ match r_io_map_resolve_in_range io addr endaddr fd with
     | Some m => meets m /\ map_fd m = fd
     | None => forall m, meets m -> map_fd m <> fd
     end.
Proof.
  intros Hok Ha meets.
  assert (forall m, m ∈ io_maps io /\ range_hit addr endaddr (map_from m) (map_to m) = true <-> meets m)
    as Hh.
  { intros m. unfold meets. split; intros [Hm ?]; (split; [done|]); by eapply map_hit_overlap. }
  assert (forall m, m ∈ r_io_map_get_maps_in_range_prepend io addr endaddr <-> meets m) as Hp.
  { intros m. unfold r_io_map_get_maps_in_range_prepend.
    rewrite elem_of_prepend_hits, Hh, elem_of_nil. tauto. }
  split; [intros m; unfold r_io_map_get_maps_in_range; by rewrite elem_of_in_range|].
  split; [exact Hp|]. split.
  - unfold r_io_map_get_first_map_in_range. destruct (find _ _) as [m|] eqn:E.
    + apply Hh. by apply find_Some_elem in E.
    + intros m [Hm Hx]%Hh. eapply find_none in E; [|by apply list_elem_of_In]. congruence.
  - unfold r_io_map_resolve_in_range. destruct (r_io_map_resolve_from_list _ _) as [m|] eqn:E.
    + apply resolve_in_list in E as [?%Hp ?]. done.
    + intros m Hm%Hp. by eapply resolve_in_list_none.
Qed.

(** ** The next available map *)

Definition next_after (align : Z) (m : RIOMap) : Z :=
  u64 (map_to m + (align - map_to m mod align)).

Lemma add_next_available_step n fd flags delta addr size align io m l :
  io_maps io = m :: l -> 0 < align ->
  r_io_map_add_next_available (S n) fd flags delta addr size align io
  = let next_addr := Z.max addr (next_after align m) in
    if map_clash fd next_addr (u64 (addr + size)) m
    then r_io_map_add_next_available n fd flags delta (next_after align m) size align io
    else (r ← r_io_map_new fd flags delta next_addr size; mret (Some r)) io.
Proof.
  intros Hm Ha. cbn [r_io_map_add_next_available]. mrun. rewrite Hm.
  destruct (Z.eqb_spec align 0); [lia|]. fold (next_after align m). by destruct (map_clash _ _ _ _).
Qed.

Lemma map_new_ok fd flags delta addr size io :
  0 <= addr -> 0 <= size -> addr + size < 2 ^ 64 ->
  let r := mkMap fd flags delta addr (addr + size) in
  r_io_map_new fd flags delta addr size io = Ok (Some r) (set_io_maps (io_maps io ++ [r]) io).
Proof.
  intros ? ? ?. unfold r_io_map_new. destruct (Z.ltb_spec (UT64_MAX - size) addr);
    [unfold UT64_MAX in *; lia|]. rewrite u64_id by lia. by mrun.
Qed.

(** Two levels of recursion are enough for [r_io_map_add_next_available]
    when the space after the first map does not wrap; what it adds starts at
    the asked address or later, and after the first map, on a multiple of the
    alignment when it has to move. *)
Theorem r_io_map_add_next_available_total io fd flags delta addr size align m l :
  io_maps io = m :: l -> 0 <= map_to m < 2 ^ 64 -> 0 < align < 2 ^ 64 -> 0 <= addr -> 0 <= size ->
  map_to m + align + size < 2 ^ 64 -> addr + size < 2 ^ 64 ->
  exists r, r_io_map_add_next_available 2 fd flags delta addr size align io
    = Ok (Some (Some r)) (set_io_maps (io_maps io ++ [r]) io)
    /\ addr <= map_from r /\ map_to m < map_from r /\ map_to r = map_from r + size
    /\ (map_from r = addr \/ map_from r mod align = 0).
Proof.
  intros Hm Ht Ha H0 Hs Hw Hw'.
  pose proof (Z.mod_pos_bound (map_to m) align ltac:(lia)) as Hmod.
  assert (next_after align m = map_to m + (align - map_to m mod align)) as Hn
    by (apply u64_id; lia).
  assert (next_after align m mod align = 0) as Hal.
  { rewrite Hn, (Z.div_mod (map_to m) align) at 1 by lia.
    replace (_ + _) with ((map_to m / align + 1) * align) by lia. apply Z.mod_mul. lia. }
  assert (forall a b, map_to m < a -> map_to m <= b -> map_clash fd a b m = false) as Hcl.
  { intros a b ? ?. unfold map_clash, in_map. apply andb_false_iff. right.
    rewrite (proj2 (Z.ltb_ge a _)), (proj2 (Z.ltb_ge b _)) by lia. by rewrite !andb_false_r. }
  assert (map_clash fd (Z.max addr (next_after align m)) (u64 (addr + size)) m = true ->
          addr <= map_to m) as Hend.
  { intros H. destruct (Z.le_gt_cases addr (map_to m)); [done|].
    rewrite Hcl in H; [done|lia|rewrite u64_id by lia; lia]. }
  rewrite (add_next_available_step _ _ _ _ _ _ _ io m l) by (done || lia). cbv zeta.
  destruct (map_clash _ _ _ _).
  - rewrite (add_next_available_step _ _ _ _ _ _ _ io m l) by (done || lia). cbv zeta.
    rewrite Z.max_id, Hcl by (rewrite ?u64_id; lia). mrun. rewrite map_new_ok by lia. mrun.
    eexists. split; [reflexivity|]. simpl. specialize (Hend eq_refl). repeat split; auto; lia.
  - mrun. rewrite map_new_ok by lia. mrun. eexists. split; [reflexivity|]. simpl.
    split; [lia|]. split; [lia|]. split; [done|].
    destruct (Z.max_spec addr (next_after align m)) as [[? ->]|[? ->]]; auto.
Qed.
End RangeQueries.

(** A file of 0x100 bytes at 0 and another one at 0x1000. *)
Definition demo_maps : list RIOMap := [mkMap 3 7 0 0 0x100; mkMap 4 5 0x20 0x1000 0x1080].
Definition demo_map_io : RIO unit unit := set_io_maps demo_maps io_zero.

Lemma r_io_map_range_queries_witness :
  r_io_map_resolve_in_range demo_map_io 0x80 0x1004 4 = Some (mkMap 4 5 0x20 0x1000 0x1080)
  /\ (mkMap 3 7 0 0 0x100 ∈ r_io_map_get_maps_in_range demo_map_io 0x80 0x1004).
Proof.
  destruct (r_io_map_range_queries demo_map_io 0x80 0x1004 4) as (H & _);
    [repeat constructor|lia|]. split; [reflexivity|]. apply H. split; [set_solver|simpl; lia].
Defined.

Lemma r_io_map_add_next_available_total_witness :
  exists r, r_io_map_add_next_available 2 3 7 0 0x40 0x100 0x1000 demo_map_io
            = Ok (Some (Some r)) (set_io_maps (demo_maps ++ [r]) demo_map_io)
            /\ map_from r = 0x1000.
Proof.
  destruct (r_io_map_add_next_available_total demo_map_io 3 7 0 0x40 0x100 0x1000
    (mkMap 3 7 0 0 0x100) [mkMap 4 5 0x20 0x1000 0x1080]) as (r & E & _);
    [reflexivity|simpl; lia|lia|lia|lia|simpl; lia|lia|].
  exists r. split; [exact E|]. vm_compute in E. injection E as <-. reflexivity.
Defined.

(** After a map that ends at the top of the address space the search for the
    next address never ends. *)
Lemma next_available_wraps fuel :
  let io := set_io_maps [mkMap 3 7 0 0 UT64_MAX] demo_map_io in
  r_io_map_add_next_available fuel 3 7 0 0 0x100 0x1000 io = Ok None io.
Proof. intros io. induction fuel as [|n IH]; [done|]. exact IH. Qed.

(** [r_io_map_add] refuses a map that ends where one of the same descriptor
    begins, and accepts one that contains it. *)
Lemma r_io_map_add_ends :
  let io := set_io_maps [mkMap 3 7 0 0x1000 0x2000] demo_map_io in
  r_io_map_add 3 7 0 0 0x1000 io = Ok None io
  /\ exists m io', r_io_map_add 3 7 0 0 0x3000 io = Ok (Some m) io'.
Proof. split; [reflexivity|]. eexists _, _. vm_compute. reflexivity. Qed.
