(* ===== verification/IoUndo.v ===== *)
(** * The history of seeks

    [libr/io/undo.c], first half: a ring of [R_IO_UNDOS] positions with the
    numbers of available undos and redos.  The history of writes is in
    [IoWrite]. *)

From S2P Require Import Prelude IoState IoSection.

Definition set_un_seek (v : list RIOUndos) (u : RIOUndo) : RIOUndo :=
  mkUndo (un_s_enable u) (un_w_enable u) (un_w_list u) (un_w_init u) (un_idx u) (un_undos u)
    (un_redos u) v.
Definition set_un_ring (idx undos redos : Z) (u : RIOUndo) : RIOUndo :=
  mkUndo (un_s_enable u) (un_w_enable u) (un_w_list u) (un_w_init u) idx undos redos (un_seek u).
Definition set_un_enable (s w : bool) (u : RIOUndo) : RIOUndo :=
  mkUndo s w (un_w_list u) (un_w_init u) (un_idx u) (un_undos u) (un_redos u) (un_seek u).
Definition set_un_writes (l : list RIOUndoWrite) (init : bool) (u : RIOUndo) : RIOUndo :=
  mkUndo (un_s_enable u) (un_w_enable u) l init (un_idx u) (un_undos u) (un_redos u) (un_seek u).

Section Seek.
Context {P D : Type}.
Implicit Types io : RIO P D.
Let MIO := M (RIO P D).

Definition on_undo (f : RIOUndo -> RIOUndo) : MIO unit :=
  modify (fun io => set_io_undo (f (io_undo io)) io).

(** [io->undo.seek[i]]. *)
Definition seek_get (i : Z) : MIO RIOUndos :=
  u ← gets io_undo;
  if i <? 0 then undef UB_oob else lift UB_oob (un_seek u !! Z.to_nat i).
Definition seek_put (i : Z) (e : RIOUndos) : MIO unit :=
  _ ← seek_get i;
  on_undo (fun u => set_un_seek (<[Z.to_nat i := e]> (un_seek u)) u).

Definition r_io_sundo_reset : MIO unit := on_undo (set_un_ring 0 0 0).

Definition r_io_undo_init : MIO bool :=
  r_io_sundo_reset ;;
  on_undo (fun u => set_un_writes [] false (set_un_enable (un_s_enable u) false u)) ;;
  mret true.

Definition r_io_undo_enable (s w : bool) : MIO unit := on_undo (set_un_enable s w).

(** Seek to a slot. *)
Definition seek_to (i : Z) : MIO (option RIOUndos) :=
  undo ← seek_get i;
  modify (fun io => set_io_off (r_io_section_vaddr_to_maddr_try io (us_off undo)) io) ;;
  mret (Some undo).

Definition r_io_sundo (offset : Z) : MIO (option RIOUndos) :=
  u ← gets io_undo;
  if negb (un_s_enable u) || negb (z2b (un_undos u)) then mret None
  else
    (if negb (z2b (un_redos u)) then seek_put (un_idx u) (mkUndos offset 0) else mret tt) ;;
    let idx := Z.rem (un_idx u - 1 + R_IO_UNDOS) R_IO_UNDOS in
    on_undo (set_un_ring idx (un_undos u - 1) (un_redos u + 1)) ;;
    seek_to idx.

Definition r_io_sundo_redo : MIO (option RIOUndos) :=
  u ← gets io_undo;
  if negb (un_s_enable u) || negb (z2b (un_redos u)) then mret None
  else
    let idx := Z.rem (un_idx u + 1) R_IO_UNDOS in
    on_undo (set_un_ring idx (un_undos u + 1) (un_redos u - 1)) ;;
    seek_to idx.

Definition same_pos (e : RIOUndos) (off cursor : Z) : bool :=
  (us_off e =? off) && (us_cursor e =? cursor).

Definition r_io_sundo_push (off cursor : Z) : MIO unit :=
  u ← gets io_undo;
  if negb (un_s_enable u) then mret tt
  else
    dup ← (if 0 <? un_idx u
           then e ← seek_get (un_idx u - 1); mret (same_pos e off cursor)
           else mret false);
    if dup : bool then mret tt
    else
      seek_put (un_idx u) (mkUndos off cursor) ;;
      on_undo (set_un_ring (Z.rem (un_idx u + 1) R_IO_UNDOS)
                 (if un_undos u <? R_IO_UNDOS - 1 then un_undos u + 1 else un_undos u) 0).
End Seek.

(** ** The history the ring stands for

    The positions behind, nearest first; the present one, when it was reached
    by going back or forth; the positions ahead, nearest first. *)
Record history := mkHistory {
  h_past : list RIOUndos;
  h_now : RIOUndos;
  h_future : list RIOUndos;
}.

Definition h_undo (offset : Z) (h : history) : option RIOUndos * history :=
  match h_past h with
  | [] => (None, h)
  | p :: past =>
      let now := match h_future h with [] => mkUndos offset 0 | _ => h_now h end in
      (Some p, mkHistory past p (now :: h_future h))
  end.

Definition h_redo (h : history) : option RIOUndos * history :=
  match h_future h with
  | [] => (None, h)
  | f :: future => (Some f, mkHistory (h_now h :: h_past h) f future)
  end.

(** The oldest of 64 positions is forgotten and the future is lost. *)
Definition h_push (e : RIOUndos) (h : history) : history :=
  mkHistory (take 63 (e :: h_past h)) (h_now h) [].

Definition ring_slot (u : RIOUndo) (k : Z) : option RIOUndos :=
  un_seek u !! Z.to_nat ((un_idx u + k) mod R_IO_UNDOS).

(** The ring [u] holds the history [h]. *)
Record ring_holds (u : RIOUndo) (h : history) : Prop := {
  rh_size : length (un_seek u) = 64%nat;
  rh_idx : 0 <= un_idx u < R_IO_UNDOS;
  rh_undos : un_undos u = Z.of_nat (length (h_past h));
  rh_redos : un_redos u = Z.of_nat (length (h_future h));
  rh_fit : (length (h_past h) + length (h_future h) <= 63)%nat;
  rh_past i : (i < length (h_past h))%nat -> ring_slot u (- 1 - Z.of_nat i) = h_past h !! i;
  rh_now : h_future h <> [] -> ring_slot u 0 = Some (h_now h);
  rh_future i : (i < length (h_future h))%nat ->
    ring_slot u (1 + Z.of_nat i) = h_future h !! i;
}.

(** The operations, and what they do to the history; the second case of a push
    is that of a position equal to the nearest one behind, which the code does
    not push twice unless that one sits in the last slot of the ring. *)
Inductive seek_op :=
  | SUndo (offset : Z)
  | SRedo
  | SPush (off cursor : Z)
  | SReset.

Definition run_seek {P D} (op : seek_op) : M (RIO P D) (option RIOUndos) :=
  match op with
  | SUndo offset => r_io_sundo offset
  | SRedo => r_io_sundo_redo
  | SPush off cursor => r_io_sundo_push off cursor ;; mret None
  | SReset => r_io_sundo_reset ;; mret None
  end.

Inductive hist_step : seek_op -> history -> option RIOUndos -> history -> Prop :=
  | hs_undo offset h : hist_step (SUndo offset) h (fst (h_undo offset h)) (snd (h_undo offset h))
  | hs_redo h : hist_step SRedo h (fst (h_redo h)) (snd (h_redo h))
  | hs_push off cursor h : hist_step (SPush off cursor) h None (h_push (mkUndos off cursor) h)
  | hs_dup off cursor h past :
      h_past h = mkUndos off cursor :: past -> hist_step (SPush off cursor) h None h
  | hs_reset h : hist_step SReset h None (mkHistory [] (h_now h) []).

(** ** Lemmas *)

Lemma un_seek_ring i a b u : un_seek (set_un_ring i a b u) = un_seek u.
Proof. reflexivity. Qed.

Lemma ring_slot_move u u' d k :
  un_seek u' = un_seek u -> un_idx u' = (un_idx u + d) mod R_IO_UNDOS ->
  ring_slot u' k = ring_slot u (d + k).
Proof.
  intros Hs Hi. unfold ring_slot. rewrite Hs, Hi. do 2 f_equal. unfold R_IO_UNDOS. zlia.
Qed.

Lemma ring_slot_put u e k :
  length (un_seek u) = 64%nat -> 0 <= un_idx u < R_IO_UNDOS -> -64 < k < 64 ->
  ring_slot (set_un_seek (<[Z.to_nat (un_idx u) := e]> (un_seek u)) u) k
  = if k =? 0 then Some e else ring_slot u k.
Proof.
  unfold R_IO_UNDOS. intros Hl Hi Hk. unfold ring_slot, R_IO_UNDOS. simpl.
  destruct (Z.eqb_spec k 0) as [->|Hne].
  - rewrite Z.add_0_r, Z.mod_small by lia. apply list_lookup_insert_eq. lia.
  - apply list_lookup_insert_ne. zlia.
Qed.

Section Run.
Context {P D : Type}.
Implicit Types io : RIO P D.

Lemma seek_get_ok io i e :
  0 <= i -> un_seek (io_undo io) !! Z.to_nat i = Some e -> seek_get i io = Ok e io.
Proof.
  intros Hi E. unfold seek_get. mrun. destruct (Z.ltb_spec i 0); [lia|]. by rewrite E.
Qed.

Lemma seek_put_ok io e :
  length (un_seek (io_undo io)) = 64%nat -> 0 <= un_idx (io_undo io) < R_IO_UNDOS ->
  let u := io_undo io in
  seek_put (un_idx u) e io
  = Ok tt (set_io_undo (set_un_seek (<[Z.to_nat (un_idx u) := e]> (un_seek u)) u) io).
Proof.
  intros Hl Hi. unfold R_IO_UNDOS in Hi. cbv zeta. unfold seek_put.
  destruct (lookup_lt_is_Some_2 (un_seek (io_undo io)) (Z.to_nat (un_idx (io_undo io)))) as [e' E]; [lia|].
  rewrite run_bind, (seek_get_ok io _ e') by (done || lia). reflexivity.
Qed.

(** The state after a seek to the current slot. *)
Lemma seek_to_ok io i e :
  un_idx (io_undo io) = i -> 0 <= i < R_IO_UNDOS -> ring_slot (io_undo io) 0 = Some e ->
  seek_to i io
  = Ok (Some e) (set_io_off (r_io_section_vaddr_to_maddr_try io (us_off e)) io).
Proof.
  intros <- H E. unfold seek_to. rewrite run_bind, (seek_get_ok io _ e); [by mrun|lia|].
  unfold ring_slot in E. by rewrite Z.add_0_r, Z.mod_small in E.
Qed.
End Run.

(** The three moves on the ring preserve the correspondence. *)
Section Moves.
Implicit Types u : RIOUndo.

(** Before a move back the present position is in its slot. *)
Definition settle offset u : RIOUndo :=
  if un_redos u =? 0
  then set_un_seek (<[Z.to_nat (un_idx u) := mkUndos offset 0]> (un_seek u)) u else u.

Lemma settle_holds offset u h :
  ring_holds u h ->
  ring_holds (settle offset u)
    (mkHistory (h_past h) match h_future h with [] => mkUndos offset 0 | _ => h_now h end (h_future h))
  /\ ring_slot (settle offset u) 0
     = Some match h_future h with [] => mkUndos offset 0 | _ => h_now h end.
Proof.
  intros [Hs Hi Hu Hr Hf Hp Hn Hq]. unfold settle. rewrite Hr.
  destruct (h_future h) as [|f fut] eqn:Ef; simpl.
  - assert (ring_slot (set_un_seek (<[Z.to_nat (un_idx u):=mkUndos offset 0]> (un_seek u)) u) 0
            = Some (mkUndos offset 0)) as H0 by (rewrite ring_slot_put by lia; done).
    split; [|exact H0]. split; simpl; try done; try lia.
    + by rewrite length_insert.
    + intros i H. rewrite ring_slot_put by (done || lia).
      destruct (Z.eqb_spec (-1 - Z.of_nat i) 0); [lia|auto].
  - split; [|by apply Hn]. split; simpl; try done; lia.
Qed.

Lemma undo_holds u h offset p past :
  ring_holds u h -> h_past h = p :: past ->
  let u1 := settle offset u in
  let u2 := set_un_ring ((un_idx u - 1) mod R_IO_UNDOS) (un_undos u - 1) (un_redos u + 1) u1 in
  ring_holds u2 (snd (h_undo offset h)) /\ ring_slot u2 0 = Some p.
Proof.
  intros H Ep u1 u2. destruct (settle_holds offset u h H) as [[Hs Hi Hu Hr Hf Hp Hn Hq] H0].
  fold u1 in Hs, Hi, Hu, Hr, Hp, Hn, Hq, H0. simpl in *.
  assert (un_idx u1 = un_idx u /\ un_undos u1 = un_undos u /\ un_redos u1 = un_redos u) as (Ei & Eu & Er)
    by (unfold u1, settle; destruct (un_redos u =? 0); done).
  unfold h_undo. rewrite Ep in *. simpl in *.
  assert (ring_slot u1 (-1) = Some p) as Hp0 by (apply (Hp 0%nat); lia).
  assert (forall k, ring_slot u2 k = ring_slot u1 (-1 + k)) as Hmv
    by (intros; apply ring_slot_move; simpl; [done|rewrite Ei; f_equal; lia]).
  split; [|by rewrite Hmv].
  split; simpl; try (unfold R_IO_UNDOS in *; zlia); try done.
  - intros i Hlt. rewrite Hmv. replace (-1 + (-1 - Z.of_nat i)) with (-1 - Z.of_nat (S i)) by lia.
    rewrite Hp by lia. done.
  - intros _. rewrite Hmv. exact Hp0.
  - intros [|i] Hlt; rewrite Hmv; simpl.
    + exact H0.
    + replace (-1 + (1 + Z.of_nat (S i))) with (1 + Z.of_nat i) by lia. rewrite Hq by lia. done.
Qed.

Lemma redo_holds u h f fut :
  ring_holds u h -> h_future h = f :: fut ->
  let u2 := set_un_ring ((un_idx u + 1) mod R_IO_UNDOS) (un_undos u + 1) (un_redos u - 1) u in
  ring_holds u2 (snd (h_redo h)) /\ ring_slot u2 0 = Some f.
Proof.
  intros [Hs Hi Hu Hr Hf Hp Hn Hq] Ef u2. unfold h_redo. rewrite Ef in *. simpl in *.
  assert (ring_slot u 1 = Some f) as H1 by (apply (Hq 0%nat); lia).
  assert (forall k, ring_slot u2 k = ring_slot u (1 + k)) as Hmv by (intros; by apply ring_slot_move).
  split; [|by rewrite Hmv].
  split; simpl; try (unfold R_IO_UNDOS in *; zlia); try done.
  - intros [|i] Hlt; rewrite Hmv; simpl.
    + by apply Hn.
    + replace (1 + (-1 - Z.of_nat (S i))) with (-1 - Z.of_nat i) by lia. rewrite Hp by lia. done.
  - intros Hne. rewrite Hmv. exact H1.
  - intros i Hlt. rewrite Hmv. replace (1 + (1 + Z.of_nat i)) with (1 + Z.of_nat (S i)) by lia.
    rewrite Hq by lia. done.
Qed.

Lemma push_holds u h e :
  ring_holds u h ->
  ring_holds
    (set_un_ring ((un_idx u + 1) mod R_IO_UNDOS)
       (if un_undos u <? R_IO_UNDOS - 1 then un_undos u + 1 else un_undos u) 0
       (set_un_seek (<[Z.to_nat (un_idx u) := e]> (un_seek u)) u))
    (h_push e h).
Proof.
  intros [Hs Hi Hu Hr Hf Hp Hn Hq]. set (u1 := set_un_seek _ u).
  set (u2 := set_un_ring _ _ _ u1).
  assert (forall k, ring_slot u2 k = ring_slot u1 (1 + k)) as Hmv by (intros; by apply ring_slot_move).
  assert (length (take 63 (e :: h_past h)) = (S (length (h_past h)) `min` 63)%nat) as Hlen
    by (rewrite length_take; cbn [length]; lia).
  split; unfold h_push; cbn [h_past h_future]; rewrite ?Hlen; try done; try lia.
  - simpl. by rewrite length_insert.
  - simpl. unfold R_IO_UNDOS. zlia.
  - unfold u2, u1. simpl un_undos. unfold R_IO_UNDOS. destruct (Z.ltb_spec (un_undos u) (64 - 1)); lia.
  - simpl. lia.
  - intros i Hlt. rewrite lookup_take_lt by lia. rewrite Hmv. destruct i as [|i].
    + unfold u1. rewrite ring_slot_put by lia. done.
    + replace (1 + (-1 - Z.of_nat (S i))) with (-1 - Z.of_nat i) by lia.
      unfold u1. rewrite ring_slot_put by lia. destruct (Z.eqb_spec (-1 - Z.of_nat i) 0); [lia|].
      rewrite Hp by lia. done.
  - simpl. intros i Hi'. lia.
Qed.
End Moves.

(** ** Refinement *)

(** The place of the position behind the current slot holds something else than
    what is pushed; it always does unless nothing is behind. *)
Definition push_fresh (op : seek_op) (u : RIOUndo) : Prop :=
  match op with
  | SPush off cursor =>
      un_undos u = 0 -> 0 < un_idx u -> ring_slot u (-1) <> Some (mkUndos off cursor)
  | _ => True
  end.

(** Where the layer is after an operation. *)
Definition seeked {P D} (io : RIO P D) (r : option RIOUndos) : Z :=
  match r with
  | Some e => r_io_section_vaddr_to_maddr_try io (us_off e)
  | None => io_off io
  end.

Section Refinement.
Context {P D : Type}.
Implicit Types io : RIO P D.

(** A new ring and a new position, and nothing else. *)
Definition moved io (off : Z) (u : RIOUndo) : RIO P D := set_io_off off (set_io_undo u io).

Lemma moved_same io : moved io (io_off io) (io_undo io) = io.
Proof. by destruct io. Qed.

Lemma undo_refines io h offset :
  ring_holds (io_undo io) h -> un_s_enable (io_undo io) = true ->
  exists u', r_io_sundo offset io
    = Ok (fst (h_undo offset h)) (moved io (seeked io (fst (h_undo offset h))) u')
    /\ ring_holds u' (snd (h_undo offset h)) /\ un_s_enable u' = true.
Proof.
  intros H He. pose proof H as [Hs Hi Hu Hr _ _ _ _]. unfold r_io_sundo. mrun. rewrite He. simpl.
  destruct (h_past h) as [|p past] eqn:Ep.
  { rewrite Hu. unfold h_undo. rewrite Ep. simpl. mrun. exists (io_undo io).
    by rewrite moved_same. }
  destruct (undo_holds _ h offset p past H Ep) as [Hh Hp].
  assert (z2b (un_undos (io_undo io)) = true) as ->.
  { apply negb_true_iff, Z.eqb_neq. rewrite Hu. simpl. lia. }
  assert ((if negb (z2b (un_redos (io_undo io))) then seek_put (un_idx (io_undo io)) (mkUndos offset 0)
           else mret tt) io = Ok tt (set_io_undo (settle offset (io_undo io)) io)) as Hset.
  { unfold settle, z2b. rewrite negb_involutive. destruct (un_redos (io_undo io) =? 0).
    - by apply seek_put_ok.
    - mrun. by destruct io. }
  change (negb true) with false. cbv iota. rewrite run_bind, Hset.
  rewrite Z.rem_mod_nonneg by (unfold R_IO_UNDOS in *; lia).
  replace ((un_idx (io_undo io) - 1 + R_IO_UNDOS) mod R_IO_UNDOS)
    with ((un_idx (io_undo io) - 1) mod R_IO_UNDOS) by (unfold R_IO_UNDOS; zlia).
  unfold on_undo. mrun. rewrite (seek_to_ok _ _ p); [|reflexivity|apply Hh|exact Hp].
  eexists. split; [|split; [exact Hh|]].
  - unfold h_undo. rewrite Ep. reflexivity.
  - unfold settle. by destruct (un_redos (io_undo io) =? 0).
Qed.

Lemma redo_refines io h :
  ring_holds (io_undo io) h -> un_s_enable (io_undo io) = true ->
  exists u', r_io_sundo_redo io = Ok (fst (h_redo h)) (moved io (seeked io (fst (h_redo h))) u')
    /\ ring_holds u' (snd (h_redo h)) /\ un_s_enable u' = true.
Proof.
  intros H He. pose proof H as [Hs Hi Hu Hr _ _ _ _]. unfold r_io_sundo_redo. mrun. rewrite He.
  destruct (h_future h) as [|f fut] eqn:Ef.
  { rewrite Hr. unfold h_redo. rewrite Ef. exists (io_undo io). by rewrite moved_same. }
  destruct (redo_holds _ h f fut H Ef) as [Hh Hf].
  assert (z2b (un_redos (io_undo io)) = true) as ->.
  { apply negb_true_iff, Z.eqb_neq. rewrite Hr. simpl. lia. }
  change (negb true || negb true) with false. cbv iota.
  rewrite Z.rem_mod_nonneg by (unfold R_IO_UNDOS in *; lia).
  unfold on_undo. mrun. rewrite (seek_to_ok _ _ f); [|reflexivity|apply Hh|exact Hf].
  eexists. split; [|split; [exact Hh|done]]. unfold h_redo. rewrite Ef. reflexivity.
Qed.

Lemma push_refines io h off cursor :
  ring_holds (io_undo io) h -> un_s_enable (io_undo io) = true ->
  push_fresh (SPush off cursor) (io_undo io) ->
  exists u' h', r_io_sundo_push off cursor io = Ok tt (moved io (io_off io) u')
    /\ hist_step (SPush off cursor) h None h' /\ ring_holds u' h' /\ un_s_enable u' = true.
Proof.
  intros H He Hfresh. pose proof H as [Hs Hi Hu Hr Hf Hp _ _]. unfold r_io_sundo_push. mrun.
  rewrite He. change (negb true) with false. cbv iota.
  pose proof (push_holds _ h (mkUndos off cursor) H) as Hh.
  assert (exists b, (if 0 <? un_idx (io_undo io)
            then e ← seek_get (un_idx (io_undo io) - 1); mret (same_pos e off cursor)
            else mret false) io = Ok b io
          /\ (b = true -> exists past, h_past h = mkUndos off cursor :: past)) as (b & Eb & Hb).
  { destruct (Z.ltb_spec 0 (un_idx (io_undo io))); [|by eexists].
    unfold R_IO_UNDOS in Hi.
    destruct (lookup_lt_is_Some_2 (un_seek (io_undo io)) (Z.to_nat (un_idx (io_undo io) - 1)))
      as [e E]; [lia|].
    rewrite run_bind, (seek_get_ok _ _ e) by (done || lia). eexists. split; [reflexivity|].
    unfold same_pos. intros [H1%Z.eqb_eq H2%Z.eqb_eq]%andb_true_iff.
    assert (ring_slot (io_undo io) (-1) = Some (mkUndos off cursor)) as Hslot.
    { unfold ring_slot, R_IO_UNDOS. rewrite Z.mod_small by lia.
      replace (un_idx (io_undo io) + -1) with (un_idx (io_undo io) - 1) by lia.
      rewrite E. destruct e; simpl in *; congruence. }
    destruct (h_past h) as [|p past] eqn:Ep; [exfalso; by apply Hfresh|].
    exists past. f_equal. pose proof (Hp 0%nat ltac:(simpl; lia)) as Hp0.
    change (-1 - Z.of_nat 0) with (-1) in Hp0. rewrite Hslot in Hp0. by injection Hp0. }
  rewrite run_bind, Eb. destruct b.
  - destruct (Hb eq_refl) as [past Ep]. mrun. exists (io_undo io), h. rewrite moved_same.
    split; [done|]. split; [by eapply hs_dup|done].
  - rewrite run_bind, seek_put_ok by done. unfold on_undo. mrun.
    rewrite Z.rem_mod_nonneg by (unfold R_IO_UNDOS in *; lia).
    eexists _, _. split; [|split; [apply hs_push|split; [exact Hh|done]]]. by destruct io.
Qed.

(** C23: while undo is enabled the ring of seeks implements an undo history of 63
    positions: every undo, redo, push and reset on a ring that holds a history moves the
    layer to the position the history names, returns it, changes nothing but the ring and
    the position, and leaves a ring that holds the new history.  A push of the position
    that is nearest behind may be dropped.  A push when nothing is left to undo has to be of
    another position than the one that the slot behind still holds ([push_fresh]);
    otherwise it is lost, see [push_stale]. *)
Theorem seek_ring_refines io h op :
  ring_holds (io_undo io) h -> un_s_enable (io_undo io) = true -> push_fresh op (io_undo io) ->
  exists r u' h', run_seek op io = Ok r (moved io (seeked io r) u')
    /\ hist_step op h r h' /\ ring_holds u' h' /\ un_s_enable u' = true.
Proof.
  intros H He Hf. destruct op as [offset| |off cursor|]; cbn [run_seek].
  - destruct (undo_refines io h offset H He) as (u' & E & Hh & He').
    eexists _, u', _. split; [exact E|]. split; [constructor|done].
  - destruct (redo_refines io h H He) as (u' & E & Hh & He').
    eexists _, u', _. split; [exact E|]. split; [constructor|done].
  - destruct (push_refines io h off cursor H He Hf) as (u' & h' & E & Hs & Hh & He').
    exists None, u', h'. rewrite run_bind, E. done.
  - exists None, (set_un_ring 0 0 0 (io_undo io)), (mkHistory [] (h_now h) []).
    split; [unfold r_io_sundo_reset, on_undo; mrun; by destruct io|].
    split; [apply hs_reset|]. split; [|done]. destruct H as [Hs Hi _ _ _ _ _ _].
    split; simpl; try done; intros; lia.
Qed.

(** ** Going back and forth *)

Fixpoint run_undos (n : nat) (offset : Z) : M (RIO P D) unit :=
  match n with O => mret tt | S n => r_io_sundo offset ;; run_undos n offset end.
Fixpoint run_redos (n : nat) : M (RIO P D) unit :=
  match n with O => mret tt | S n => r_io_sundo_redo ;; run_redos n end.

Fixpoint h_undos (n : nat) (offset : Z) (h : history) : history :=
  match n with O => h | S n => h_undos n offset (snd (h_undo offset h)) end.
Fixpoint h_redos (n : nat) (h : history) : history :=
  match n with O => h | S n => h_redos n (snd (h_redo h)) end.

Lemma h_redos_undos n offset h :
  (n <= length (h_past h))%nat -> (h_future h = [] -> h_now h = mkUndos offset 0) ->
  h_redos n (h_undos n offset h) = h.
Proof.
  revert h. induction n as [|n IH]; intros [past now fut] Hn Hne; [done|]. simpl in Hn.
  destruct past as [|p past]; simpl in Hn; [lia|].
  assert (forall m h, h_redos (S m) h = snd (h_redo (h_redos m h))) as Hcomm.
  { intros m. induction m as [|m IHm]; intros h'; [done|]. change (h_redos (S (S m)) h')
      with (h_redos (S m) (snd (h_redo h'))). by rewrite IHm. }
  rewrite Hcomm. cbn [h_undos]. unfold h_undo at 1. cbn [h_past snd].
  rewrite IH; [|simpl; lia|done]. simpl in Hne. destruct fut; [|reflexivity].
  by rewrite Hne.
Qed.

Lemma h_undos_at n offset h :
  (0 < n <= length (h_past h))%nat ->
  let h' := h_undos n offset h in
  Some (h_now h') = h_past h !! (n - 1)%nat /\ length (h_future h') = (length (h_future h) + n)%nat.
Proof.
  revert h. induction n as [|n IH]; intros [past now fut] Hn; [lia|]. cbn [h_undos]. simpl in Hn.
  destruct past as [|p past]; simpl in Hn; [lia|]. unfold h_undo. cbn [h_past h_future h_now snd].
  destruct (decide (n = 0%nat)) as [->|Hn0]; [simpl; split; [done|lia]|].
  destruct (IH (mkHistory past p (match fut with [] => mkUndos offset 0 | _ => now end :: fut)))
    as [E1 E2]; [simpl; lia|].
  cbn [h_past h_future] in *. rewrite E1, E2. split; [|simpl; lia].
  replace (S n - 1)%nat with (S (n - 1)) by lia. done.
Qed.

Lemma run_undos_hist n offset io h :
  ring_holds (io_undo io) h -> un_s_enable (io_undo io) = true -> (n <= length (h_past h))%nat ->
  exists u', run_undos n offset io
    = Ok tt (moved io (if decide (n = 0%nat) then io_off io
                       else seeked io (Some (h_now (h_undos n offset h)))) u')
    /\ ring_holds u' (h_undos n offset h) /\ un_s_enable u' = true.
Proof.
  revert io h. induction n as [|n IH]; intros io h H He Hn.
  { exists (io_undo io). simpl. by rewrite moved_same. }
  cbn [run_undos h_undos]. destruct (undo_refines io h offset H He) as (u1 & E1 & H1 & He1).
  rewrite run_bind, E1. destruct (h_past h) as [|p past] eqn:Ep; [simpl in Hn; lia|].
  unfold h_undo in *. rewrite Ep in *. cbn [fst snd] in *.
  destruct (IH (moved io (seeked io (Some p)) u1) _ H1 He1 ltac:(simpl in *; lia)) as (u2 & E2 & H2).
  exists u2. rewrite E2. split; [|done]. destruct (decide (n = 0%nat)) as [->|]; done.
Qed.

Lemma run_redos_hist n io h :
  ring_holds (io_undo io) h -> un_s_enable (io_undo io) = true -> (n <= length (h_future h))%nat ->
  exists u', run_redos n io
    = Ok tt (moved io (if decide (n = 0%nat) then io_off io
                       else seeked io (Some (h_now (h_redos n h)))) u')
    /\ ring_holds u' (h_redos n h) /\ un_s_enable u' = true.
Proof.
  revert io h. induction n as [|n IH]; intros io h H He Hn.
  { exists (io_undo io). simpl. by rewrite moved_same. }
  cbn [run_redos h_redos]. destruct (redo_refines io h H He) as (u1 & E1 & H1 & He1).
  rewrite run_bind, E1. destruct (h_future h) as [|p fut] eqn:Ep; [simpl in Hn; lia|].
  unfold h_redo in *. rewrite Ep in *. cbn [fst snd] in *.
  destruct (IH (moved io (seeked io (Some p)) u1) _ H1 He1 ltac:(simpl in *; lia)) as (u2 & E2 & H2).
  exists u2. rewrite E2. split; [|done]. destruct (decide (n = 0%nat)) as [->|]; done.
Qed.
End Refinement.

(** Going back any available number of times and forth as many times ends
    at the position the walk started from, with the same positions behind. *)
Theorem r_io_sundo_redo_roundtrip {P D} (io : RIO P D) h offset n :
  ring_holds (io_undo io) h -> un_s_enable (io_undo io) = true -> h_future h = [] ->
  (0 < n <= length (h_past h))%nat ->
  let back := mkHistory (h_past h) (mkUndos offset 0) [] in
  exists u1 u2, let io1 := moved io (seeked io (h_past h !! (n - 1)%nat)) u1 in
    let io2 := moved io (seeked io (Some (mkUndos offset 0))) u2 in
    run_undos n offset io = Ok tt io1 /\ run_redos n io1 = Ok tt io2
    /\ ring_holds u2 back /\ un_s_enable u2 = true.
Proof.
  intros H He Hfut Hn back.
  assert (h_undos n offset h = h_undos n offset back) as Eb.
  { destruct n as [|n]; [lia|]. destruct h as [past now fut]; simpl in *; subst fut.
    destruct past; [simpl in *; lia|done]. }
  destruct (h_undos_at n offset h Hn) as [Hnow Hlen].
  destruct (run_undos_hist n offset io h H He) as (u1 & E1 & H1 & He1); [lia|].
  destruct (decide (n = 0%nat)); [lia|]. rewrite Hnow in E1.
  destruct (run_redos_hist n (moved io (seeked io (h_past h !! (n - 1)%nat)) u1) _ H1 He1)
    as (u2 & E2 & H2 & He2); [lia|].
  destruct (decide (n = 0%nat)); [lia|].
  assert (h_redos n (h_undos n offset h) = back) as Er
    by (rewrite Eb; apply h_redos_undos; [simpl; lia|done]).
  rewrite Er in E2, H2. exists u1, u2. done.
Qed.

(** Three positions behind. *)
Definition demo_history : history :=
  mkHistory [mkUndos 0x30 1; mkUndos 0x20 0; mkUndos 0x10 0] (mkUndos 0 0) [].
Definition demo_ring : RIOUndo :=
  set_un_ring 3 3 0
    (set_un_seek ([mkUndos 0x10 0; mkUndos 0x20 0; mkUndos 0x30 1] ++ replicate 61 (mkUndos 0 0))
       (set_un_enable true false undo_zero)).
Definition demo_undo_io : RIO unit unit := set_io_undo demo_ring io_zero.

Lemma demo_ring_holds : ring_holds demo_ring demo_history.
Proof.
  split; simpl; try done; try (unfold R_IO_UNDOS; lia).
  intros i Hi. destruct i as [|[|[|i]]]; [reflexivity..|lia].
Qed.

Lemma seek_ring_refines_witness :
  exists u' h', run_seek (SUndo 0x99) demo_undo_io = Ok (Some (mkUndos 0x30 1)) (moved demo_undo_io 0x30 u')
    /\ h_past h' = [mkUndos 0x20 0; mkUndos 0x10 0] /\ ring_holds u' h'.
Proof.
  destruct (seek_ring_refines demo_undo_io demo_history (SUndo 0x99) demo_ring_holds eq_refl I)
    as (r & u' & h' & E & Hs & Hh & _).
  inversion Hs; subst. exists u', (snd (h_undo 0x99 demo_history)).
  split; [exact E|]. split; [reflexivity|exact Hh].
Defined.

Lemma r_io_sundo_redo_roundtrip_witness :
  exists u1 u2, let io1 := moved demo_undo_io 0x20 u1 in
    run_undos 2 0x99 demo_undo_io = Ok tt io1
    /\ run_redos 2 io1 = Ok tt (moved io1 0x99 u2).
Proof.
  destruct (r_io_sundo_redo_roundtrip demo_undo_io demo_history 0x99 2 demo_ring_holds eq_refl eq_refl
    ltac:(simpl; lia)) as (u1 & u2 & E1 & E2 & _).
  exists u1, u2. split; [exact E1|exact E2].
Defined.

(** When nothing is behind, the slot behind may hold an old position: after 64
    seeks and 63 undos the push of the farthest redo is lost, and the redos it
    should discard are kept. *)
Fixpoint push_all (n : nat) : M (RIO unit unit) unit :=
  match n with O => mret tt | S n => push_all n ;; r_io_sundo_push (Z.of_nat (S n)) 0 end.

Lemma push_stale :
  exists io, (push_all 64 ;; run_undos 63 0x99) (set_io_undo (set_un_enable true false undo_zero) io_zero)
             = Ok tt io
    /\ un_undos (io_undo io) = 0 /\ un_redos (io_undo io) = 63
    /\ r_io_sundo_push 0x99 0 io = Ok tt io.
Proof. eexists. split; [vm_compute; reflexivity|]. repeat split. Qed.
