(* ===== verification/IoCore.v ===== *)
(** * Reading through the i/o layer

    Descriptors ([desc.c]), seeks, reads of the current descriptor and the
    loop of [r_io_read_at] ([io.c]), the cache of writes ([cache.c]), the
    selection of a map ([map.c]), the range buffer ([buffer.c],
    [libr/util/cache.c]) and the virtual addressing path ([vio.c]).

    A C pointer into a buffer is the rest of the buffer from there; an access
    that would leave it is undefined.  A descriptor always has a plugin, so the
    calls of the C library on bare file descriptors are undefined here. *)

From S2P Require Import Prelude IoState IoSection IoMap.

Definition R_FAIL : Z := -1.
Definition R_ERROR : Z := -2.

(** [memset (buf, x, n)]. *)
Definition memset (x n : Z) (buf : list Z) : list Z := blit (replicate (Z.to_nat n) x) buf.

Section Core.
Context {P D : Type} {Env : IoPlugin P D}.
Implicit Types io : RIO P D.
Let MIO := M (RIO P D).

(** A callee that gets [buf + w]. *)
Definition at_ptr {A} (w : Z) (f : list Z -> MIO (A * list Z)) (buf : list Z) : MIO (A * list Z) :=
  if (w <? 0) || (Z.of_nat (length buf) <? w) then undef UB_oob
  else
    '(a, tl) ← f (drop (Z.to_nat w) buf);
    mret (a, take (Z.to_nat w) buf ++ tl).

(** The result of a call of which only the buffer is kept. *)
Definition buffer_of {A} (m : MIO (A * list Z)) : MIO (list Z) := r ← m; mret (snd r).

(** ** Descriptors *)

(** [io->descs] is the heap; an address outside it is a dangling pointer. *)
Definition get_desc (d : nat) : MIO (RIODesc P D) :=
  io ← gets id; lift UB_oob (io_descs io !! d).
Definition put_data (d : nat) (data : D) : MIO unit :=
  desc ← get_desc d;
  modify (fun io => set_io_descs (<[d := set_d_data data desc]> (io_descs io)) io).

Definition r_io_desc_get io (fd : Z) : option nat :=
  if fd <? 0 then None
  else find (fun d => match io_descs io !! d with Some x => d_fd x =? fd | None => false end)
         (io_files io).

Definition r_io_desc_add (d : nat) : MIO Z :=
  desc ← get_desc d;
  io ← gets id;
  match r_io_desc_get io (d_fd desc) with
  | Some _ => mret 1
  | None => modify (fun io => set_io_files (io_files io ++ [d]) io) ;; mret 0
  end.

Definition r_io_use_desc (d : option nat) : MIO bool :=
  match d with
  | Some d =>
      desc ← get_desc d;
      modify (fun io => set_io_plugin (Some (d_plugin desc)) (set_io_desc (Some d) io)) ;;
      mret true
  | None => mret false
  end.

Definition r_io_use_fd (fd : Z) : MIO (option nat) :=
  io ← gets id;
  match r_io_desc_get io fd with
  | Some d => r_io_use_desc (Some d) ;; mret (Some d)
  | None => mret None
  end.

Definition r_io_raise (fd : Z) : MIO unit := modify (set_io_raised fd).
Definition r_io_set_raw (raw : Z) : MIO unit := modify (set_io_raw (z2b raw)).

(** *** Calls of a plugin on a descriptor *)

Definition call_read (p : P) (d : nat) (buf : list Z) (len : Z) : MIO (Z * list Z) :=
  if (len <? 0) || (Z.of_nat (length buf) <? len) then undef UB_oob
  else
    desc ← get_desc d;
    off ← gets io_off;
    let '(ret, buf, data) := plugin_read p off (d_data desc) buf len in
    put_data d data ;;
    mret (ret, buf).

Definition call_write (p : P) (d : nat) (buf : list Z) (len : Z) : MIO Z :=
  if Z.of_nat (length buf) <? len then undef UB_oob
  else
    desc ← get_desc d;
    off ← gets io_off;
    let '(ret, data) := plugin_write p off (d_data desc) buf len in
    put_data d data ;;
    mret ret.

Definition call_lseek (p : P) (d : nat) (offset whence : Z) : MIO Z :=
  desc ← get_desc d;
  off ← gets io_off;
  let '(ret, data) := plugin_lseek p off (d_data desc) offset whence in
  put_data d data ;;
  mret ret.

Definition r_io_desc_seek (d : option nat) (offset : Z) : MIO Z :=
  match d with
  | None => mret UT64_MAX
  | Some d => desc ← get_desc d; call_lseek (d_plugin desc) d offset R_IO_SEEK_SET
  end.

(** ** Seeking and reading *)

Definition section_empty io : bool := match io_sections io with [] => true | _ => false end.

(** The offset after the translation of virtual addresses. *)
Definition seek_offset io (offset : Z) : Z :=
  if (negb (io_debug io) || negb (io_raw io)) && io_va io && negb (section_empty io)
  then
    let o := r_io_section_vaddr_to_maddr_try io offset in
    if o =? UT64_MAX then offset else o
  else offset.

Definition r_io_seek (offset whence : Z) : MIO Z :=
  io ← gets id;
  if io_buffer_enabled io then modify (set_io_off offset) ;; mret offset
  else
    let offset := seek_offset io offset in
    match io_desc io with
    | None => mret UT64_MAX
    | Some d =>
        if offset =? UT64_MAX then mret UT64_MAX
        else
          p ← lift UB_null (io_plugin io);
          ret ← call_lseek p d offset whence;
          (if whence =? R_IO_SEEK_SET then modify (set_io_off offset) else mret tt) ;;
          mret ret
    end.

(** [readcache] is a constant [false]. *)
Definition r_io_read_internal (buf : list Z) (len : Z) : MIO (Z * list Z) :=
  d ← gets io_desc;
  match d with
  | Some d => desc ← get_desc d; call_read (d_plugin desc) d buf len
  | None => mret (0, buf)
  end.

(** ** The cache of writes *)

Definition r_io_cache_init : MIO unit :=
  modify (fun io => set_io_cached_read 0 (set_io_cached 0 (set_io_cache [] io))).

Definition r_io_cache_enable (read write : Z) : MIO unit :=
  modify (fun io => set_io_cached_read read (set_io_cached (Z.lor read write) io)).

Definition r_io_cache_reset (set : Z) : MIO unit :=
  modify (fun io => set_io_cache [] (set_io_cached set io)).

Definition r_io_cache_write (addr : Z) (buf : list Z) (len : Z) : MIO Z :=
  io ← gets id;
  if io_cached io =? 2 then mret 0
  else if len <? 0 then mret 0
  else if Z.of_nat (length buf) <? len then undef UB_oob
  else
    ret ← r_io_seek addr R_IO_SEEK_SET;
    let odata := malloc_bytes len in
    let odata := if ret =? UT64_MAX then memset 0xff len odata else odata in
    '(_, odata) ← r_io_read_internal odata len;
    let ch := mkCache addr (u64 (addr + len)) len (take (Z.to_nat len) buf) odata
                (negb (z2b (io_cached io))) in
    modify (fun io => set_io_cache (io_cache io ++ [ch]) io) ;;
    mret len.

(** [libr/util/range.c]: whether two ranges overlap, both ends included, and
    the distance of their starts as an [int]. *)
Definition r_range_overlap (a0 a1 b0 b1 : Z) : bool * Z :=
  (negb ((a1 <? b0) || (b1 <? a0)), s32 (b0 - a0)).

(** One entry in the loop of [r_io_cache_read]. *)
Definition cache_read_step (addr len : Z) (st : Z * list Z) (c : RIOCache) : Z * list Z :=
  let '(covered, buf) := st in
  let '(overlap, ret) := r_range_overlap addr (u64 (addr + len - 1)) (c_from c) (c_to c) in
  if negb overlap then st
  else
    let da := if 0 <? ret then ret else 0 in
    let db := if ret <? 0 then - ret else 0 in
    let l := if ret <? 0 then c_size c - db else c_size c in
    let l := if len <? l + da then len - da else l in
    if l <? 1 then (covered + 1, buf)
    else
      (covered + l,
       at_offset (Z.to_nat da)
         (blit (take (Z.to_nat l) (drop (Z.to_nat db) (c_data c)))) buf).

Definition r_io_cache_read io (addr : Z) (buf : list Z) (len : Z) : Z * list Z :=
  if len <? 0 then (0, buf) else foldl (cache_read_step addr len) (0, buf) (io_cache io).

(** ** Selecting the map of an address *)

(** The loop of [r_io_map_select]: it uses the descriptor of the lowest map met
    that starts at or before the address, and ends with the physical address in
    the last map that holds it, or in that of the raised descriptor. *)
Fixpoint map_select_from (off prevfrom paddr fd : Z) (found : bool) (l : list RIOMap)
    : MIO (Z * Z * bool) :=
  match l with
  | [] => mret (paddr, fd, found)
  | im :: l =>
      (if (map_from im <=? off) && ((prevfrom =? 0) || (map_from im <? prevfrom))
       then r_io_use_fd (map_fd im) ;; mret tt else mret tt) ;;
      let prevfrom := if map_from im <=? off then map_from im else prevfrom in
      if in_map off im then
        let paddr := u64 (off - map_from im + map_delta im) in
        raised ← gets io_raised;
        if map_fd im =? raised then mret (paddr, map_fd im, true)
        else map_select_from off prevfrom paddr (map_fd im) true l
      else map_select_from off prevfrom paddr fd found l
  end.

Definition r_io_map_select (off : Z) : MIO Z :=
  maps ← gets io_maps;
  '(paddr, fd, found) ← map_select_from off 0 off (-1) false maps;
  if negb found then
    r_io_use_fd fd ;; r_io_seek UT64_MAX R_IO_SEEK_SET ;; mret paddr
  else if fd =? -1 then r_io_seek off R_IO_SEEK_SET ;; mret off
  else
    r_io_use_fd fd ;;
    debug ← gets io_debug;
    r_io_seek (if (debug : bool) then off else paddr) R_IO_SEEK_SET ;;
    r_io_use_fd fd ;;
    mret paddr.

(** The physical address in the last map of a descriptor that holds [off]. *)
Definition map_select_fd (maps : list RIOMap) (off fd : Z) : option Z :=
  (fun im => u64 (off - map_from im + map_delta im))
    <$> find_prev (fun im => (map_fd im =? fd) && in_map off im) maps.

Definition r_io_map_select_current_fd (off fd : Z) : MIO Z :=
  io ← gets id;
  match map_select_fd (io_maps io) off fd with
  | None => r_io_seek UT64_MAX R_IO_SEEK_SET ;; mret off
  | Some paddr =>
      if fd =? -1 then r_io_seek off R_IO_SEEK_SET ;; mret off
      else r_io_seek (if io_debug io then off else paddr) R_IO_SEEK_SET ;; mret paddr
  end.

(** ** The range buffer *)

Definition rc_len (c : RCache) : Z :=
  match rc_buf c with Some b => Z.of_nat (length b) | None => 0 end.

(** The place in the buffer of an address, or none, and the number that
    [*len] receives, when it receives one. *)
Definition r_cache_get (c : RCache) (addr : Z) : option Z * option Z :=
  match rc_buf c with
  | None => (None, None)
  | Some _ =>
      if addr <? rc_base c then (None, Some (s32 (rc_base c - addr)))
      else if u64 (rc_base c + rc_len c) <? addr then (None, Some (s32 (rc_base c - addr)))
      else (Some (addr - rc_base c), Some (s32 (rc_len c - (addr - rc_base c))))
  end.

(** [None] is a copy that leaves its buffer, and an allocation of a negative
    size fails, which changes nothing.  The second case takes the base
    for a length; the last one ignores the offset of the address. *)
Definition r_cache_set (c : RCache) (addr : Z) (buf : list Z) (len : Z) : option RCache :=
  let src := take (Z.to_nat len) buf in
  match rc_buf c with
  | None => Some (if len <? 0 then c else mkRCache addr (Some src))
  | Some b =>
      if addr <? rc_base c then
        let baselen := s32 (rc_base c - addr) in
        let newlen := s32 (baselen + (if rc_len c <? u64 len then len else rc_base c)) in
        if newlen <? 0 then Some c
        else if (len <? 0) || (baselen <? 0) || (newlen <? baselen + rc_len c) || (newlen <? len) then None
        else
          let n := replicate (Z.to_nat newlen) 0xff in
          Some (mkRCache addr (Some (blit src (at_offset (Z.to_nat baselen) (blit b) n))))
      else if u64 (rc_base c + rc_len c) <? u64 (addr + len) then
        let baselen := s32 (addr - rc_base c) in
        let newlen := s32 (baselen + len) in
        if newlen <? 0 then Some c
        else if (len <? 0) || (baselen <? 0) || (newlen <? baselen + len) then None
        else
          let n := blit b (malloc_bytes newlen) in
          Some (mkRCache (rc_base c) (Some (at_offset (Z.to_nat baselen) (blit src) n)))
      else if (len <? 0) || (rc_len c <? len) then None
      else Some (mkRCache (rc_base c) (Some (blit src b)))
  end.

Definition r_cache_flush : RCache := mkRCache 0 None.

Definition r_io_buffer_close : MIO unit :=
  modify (fun io => set_io_buffer_enabled false (set_io_buffer r_cache_flush io)).

(** A copy of [n] bytes from place [i] of the range buffer. *)
Definition cached_bytes (c : RCache) (i n : Z) : MIO (list Z) :=
  if (n <? 0) || (rc_len c <? i + n) then undef UB_oob
  else mret (take (Z.to_nat n) (drop (Z.to_nat i) (default [] (rc_buf c)))).

Definition r_io_buffer_read (addr : Z) (buf : list Z) (len : Z) : MIO (Z * list Z) :=
  c ← gets io_buffer;
  match r_cache_get c addr with
  | (Some i, l) =>
      let l := default 0 l in
      let buf := if l <? len then at_offset (Z.to_nat l) (memset 0xff (len - l)) buf else buf in
      let l := Z.min l len in
      src ← cached_bytes c i l;
      mret (l, blit src buf)
  | (None, l) =>
      let next := default 0 l in
      if (next <? 1) || (len <? next) then mret (0, buf)
      else
        match r_cache_get c (u64 (addr + next + 1)) with
        | (None, _) => mret (0, buf)
        | (Some i, l) =>
            let l := default 0 l in
            let buf := if l <? len then at_offset (Z.to_nat l) (memset 0xff (len - l)) buf else buf in
            let buf := memset 0xff next buf in
            src ← cached_bytes c i (len - next);
            mret (len, at_offset (Z.to_nat next) (blit src) buf)
        end
  end.

(** ** The virtual addressing path *)

Definition r_io_pread (paddr : Z) (buf : list Z) (len : Z) : MIO (Z * list Z) :=
  io ← gets id;
  if paddr =? UT64_MAX then
    (if io_ff io
     then (if len <? 0 then undef UB_oob else mret (len, memset 0xff len buf))
     else mret (R_FAIL, buf))
  else
    r_io_seek paddr R_IO_SEEK_SET ;;
    io ← gets id;
    if io_buffer_enabled io then r_io_buffer_read (io_off io) buf len
    else
      match io_desc io with
      | Some d => desc ← get_desc d; call_read (d_plugin desc) d buf len
      | None => mret (0, buf)
      end.

Definition r_io_pwrite (paddr : Z) (buf : list Z) (len : Z) : MIO Z :=
  let len := if UT64_MAX - u64 len <? paddr then s32 (UT64_MAX - paddr) else len in
  r_io_seek paddr R_IO_SEEK_SET ;;
  d ← gets io_desc;
  match d with
  | Some d => desc ← get_desc d; call_write (d_plugin desc) d buf len
  | None => mret 0
  end.

(** The part of a request that a map of a descriptor serves: the code that
    [r_io_mread] and [r_io_mwrite] have in common, up to the map address, the
    offset in the buffer, the number of bytes and the map; or the error. *)
Definition clip_to_map io (fd maddr len : Z) : Z * Z * Z * RIOMap + Z :=
  if len <? 0 then inr R_FAIL
  else
    let n := if UT64_MAX - len <? maddr then s32 (UT64_MAX - maddr) else len in
    let endaddr := u64 (maddr + n) in
    match (match r_io_map_resolve_in_range io maddr endaddr fd with
           | Some m => Some m
           | None => r_io_map_resolve io fd
           end) with
    | None => inr R_ERROR
    | Some map =>
        if (map_to map <? endaddr) && (map_to map <? maddr) then inr R_FAIL
        else
          let '(endaddr, n) :=
            if map_to map <? endaddr then (map_to map, s32 (map_to map - maddr)) else (endaddr, n) in
          if maddr <? map_from map then
            if endaddr <? map_from map then inr R_FAIL
            else
              let d := u64 (map_from map - maddr) in
              if u64 n <? d then inr R_FAIL
              else inl (u64 (maddr + d), d, s32 (n - d), map)
          else inl (maddr, 0, n, map)
    end.

Definition r_io_mread (fd maddr : Z) (buf : list Z) (len : Z) : MIO (Z * list Z) :=
  io ← gets id;
  match clip_to_map io fd maddr len with
  | inr err => mret (err, buf)
  | inl (maddr, d, n, map) =>
      let paddr := u64 (maddr - map_from map + map_delta map) in
      match r_io_desc_get io fd with
      | None => mret (R_ERROR, buf)
      | Some desc =>
          modify (set_io_desc (Some desc)) ;;
          r ← at_ptr d (fun buf => r_io_pread paddr buf n) buf;
          modify (set_io_desc (io_desc io)) ;;
          mret r
      end
  end.

Definition r_io_mwrite (fd maddr : Z) (buf : list Z) (len : Z) : MIO Z :=
  io ← gets id;
  match clip_to_map io fd maddr len with
  | inr err => mret err
  | inl (maddr, d, n, map) =>
      if Z.of_nat (length buf) <? d then undef UB_oob
      else if Z.land (map_flags map) R_IO_WRITE =? 0 then mret n
      else
        let paddr := u64 (maddr - map_from map + map_delta map) in
        match r_io_desc_get io fd with
        | None => mret R_ERROR
        | Some desc =>
            modify (set_io_desc (Some desc)) ;;
            ret ← r_io_pwrite paddr (drop (Z.to_nat d) buf) n;
            modify (set_io_desc (io_desc io)) ;;
            mret ret
        end
  end.

(** *** Reading virtual addresses

    The state of the loop over the sections: the current address, the bytes
    left, the distance of the pointer from the start of the buffer, the ranges
    no section covers, and the buffer. *)
Definition vread_section (vaddr : Z) (st : Z * Z * Z * list (Z * Z) * list Z) (s : RIOSection)
    : MIO (Z * Z * Z * list (Z * Z) * list Z) :=
  let '(tmp_vaddr, tmp_len, ptr, ranges, buf) := st in
  if sec_vaddr s =? 0 then mret st
  else
    let '(tmp_vaddr, tmp_len, ptr, ranges) :=
      if tmp_vaddr <? sec_vaddr s then
        (sec_vaddr s, s32 (tmp_len - (sec_vaddr s - vaddr)), u64 (ptr + (sec_vaddr s - vaddr)),
         ranges ++ [(tmp_vaddr, sec_vaddr s)])
      else (tmp_vaddr, tmp_len, ptr, ranges) in
    let vend := Z.min (u64 (tmp_vaddr + tmp_len)) (sec_vend s) in
    let maddr := u64 (tmp_vaddr - sec_vaddr s + sec_offset s) in
    buf ← (if sec_pend s <? maddr then mret buf
           else
             let n := if sec_pend s <? u64 (vend - sec_vaddr s + sec_offset s)
                      then s32 (sec_pend s - maddr) else s32 (vend - tmp_vaddr) in
             buffer_of (at_ptr ptr (fun buf => r_io_mread (sec_fd s) maddr buf n) buf));
    mret (vend, s32 (tmp_len - (vend - tmp_vaddr)), u64 (ptr + (vend - tmp_vaddr)), ranges, buf).

(** The reads from a list of descriptors at one address. *)
Fixpoint mread_all (fds : list Z) (addr : Z) (len ptr : Z) (buf : list Z) : MIO (list Z) :=
  match fds with
  | [] => mret buf
  | fd :: fds =>
      '(_, buf) ← at_ptr ptr (fun buf => r_io_mread fd addr buf len) buf;
      mread_all fds addr len ptr buf
  end.

(** The descriptor number of [io->desc]. *)
Definition current_fd : MIO Z :=
  d ← gets io_desc;
  d ← lift UB_null d;
  desc ← get_desc d;
  mret (d_fd desc).

(** A range no section covers is read from the maps and then from the current
    descriptor; the query is given the length of the range for its end. *)
Definition vread_range (vaddr : Z) (buf : list Z) (r : Z * Z) : MIO (list Z) :=
  let '(from, to) := r in
  io ← gets id;
  let maps := r_io_map_get_maps_in_range io from (u64 (to - from)) in
  buf ← mread_all (map map_fd maps) from (s32 (to - from)) (u64 (from - vaddr)) buf;
  fd ← current_fd;
  mread_all [fd] from (s32 (to - from)) (u64 (from - vaddr)) buf.

Fixpoint fold_m {A B} (f : A -> B -> MIO A) (a : A) (l : list B) : MIO A :=
  match l with [] => mret a | x :: l => a ← f a x; fold_m f a l end.

Definition r_io_vread (vaddr : Z) (buf : list Z) (len : Z) : MIO (Z * list Z) :=
  io ← gets id;
  match io_desc io with
  | None => mret (R_ERROR, buf)
  | Some _ =>
      if len <? 0 then mret (R_FAIL, buf)
      else
        match r_io_section_get_in_vaddr_range io vaddr (u64 (vaddr + len)) with
        | [] =>
            let maps := r_io_map_get_maps_in_range io vaddr (u64 (vaddr + len)) in
            buf ← mread_all (map map_fd maps) vaddr len 0 buf;
            fd ← current_fd;
            buf ← mread_all [fd] vaddr len 0 buf;
            mret (1, buf)
        | sections =>
            '(_, _, _, ranges, buf) ← fold_m (vread_section vaddr) (vaddr, len, 0, [], buf) sections;
            buf ← fold_m (vread_range vaddr) buf ranges;
            mret (1, buf)
        end
  end.

(** ** Reading at an address *)

(** A pure update of [n] bytes at [buf + w]. *)
Definition poke (w n : Z) (f : list Z -> list Z) (buf : list Z) : MIO (list Z) :=
  if (w <? 0) || (n <? 0) || (Z.of_nat (length buf) <? w + n) then undef UB_oob
  else mret (at_offset (Z.to_nat w) f buf).

Definition r_io_read_cr (addr : Z) (buf : list Z) (len : Z) : MIO (Z * list Z) :=
  io ← gets id;
  buf ← (if io_ff io then poke 0 len (memset (io_Oxff io) len) buf else mret buf);
  if io_raw io then
    r_io_seek addr R_IO_SEEK_SET ;;
    r_io_read_internal buf len
  else
    buf ← (if io_va io then buffer_of (r_io_vread addr buf len)
           else
             let maps := r_io_map_get_maps_in_range io addr (u64 (addr + len)) in
             buf ← mread_all (map map_fd maps) addr len 0 buf;
             fd ← current_fd;
             mread_all [fd] addr len 0 buf);
    io ← gets id;
    mret (len, if z2b (io_cached io) then snd (r_io_cache_read io addr buf len) else buf).

(** The state of the loop of [r_io_read_at]: the address, the bytes done, the
    bytes left, the size of the last step, and the buffer. *)
Record read_state := mkRead { rs_addr : Z; rs_w : Z; rs_len : Z; rs_l : Z; rs_buf : list Z }.

(** The size of the step over a place where nothing is, towards the next
    section or map; [None] ends the read. *)
Definition skip_size io (st : read_state) : option Z :=
  let '(mkRead addr w len l _) := st in
  let l :=
    match r_io_section_get_first_in_vaddr_range io (u64 (addr + w)) (u64 (addr + len + w)) with
    | Some next_sec =>
        if len <=? u64 (UT64_MAX - addr) then Some l
        else if sec_offset next_sec <? addr then None
        else Some (s32 (sec_offset next_sec - addr))
    | None =>
        match r_io_map_get_first_map_in_range io (u64 (addr + w)) (u64 (addr + len + w)) with
        | Some next_map =>
            if len <=? u64 (map_from next_map - addr) then Some l
            else Some (s32 (u64 (map_from next_map - addr)))
        | None => None
        end
    end in
  match l with Some l => Some (if l =? 0 then 1 else l) | None => None end.

(** Whether a section or a map has the address. *)
Definition address_exists io (a : Z) : bool :=
  z2b (r_io_section_exists_for_paddr io a 0) || z2b (r_io_section_exists_for_vaddr io a 0)
  || r_io_map_exists_for_offset io a.

(** The size of the step where something is: up to the next boundary. *)
Definition step_size io (st : read_state) : Z :=
  let '(mkRead addr w len _ _) := st in
  let last := r_io_section_next io (u64 (addr + w)) in
  let last := if last =? u64 (addr + w) then r_io_map_next io (u64 (addr + w)) else last in
  let d := u64 (last - addr + w) in
  if d <? len then s32 d else len.

Definition read_next (st : read_state) (addr l : Z) (buf : list Z) : read_state :=
  mkRead addr (rs_w st + l) (rs_len st - l) l buf.

(** The end of a step: what is left of the buffer is filled again. *)
Definition read_done (Oxff addr w len l : Z) (buf : list Z) : MIO (read_state + Z * list Z) :=
  buf ← (if 0 <? len - l then poke (w + l) (len - l) (memset Oxff (len - l)) buf else mret buf);
  mret (inl (mkRead addr (w + l) (len - l) l buf)).

(** One step that reads: [l] bytes at the physical address [paddr]. *)
Definition read_chunk (olen : Z) (st : read_state) (paddr l : Z)
    : MIO (read_state + Z * list Z) :=
  let '(mkRead addr w len _ buf) := st in
  r_io_map_select addr ;;
  let l := if (0 <? len) && (len <? l) then len else l in
  let addr := u64 (paddr - w) in
  Oxff ← gets io_Oxff;
  sought ← r_io_seek paddr R_IO_SEEK_SET;
  buf ← (if sought =? UT64_MAX then poke w l (memset Oxff l) buf else mret buf);
  ms ← r_io_map_select (u64 (addr + w));
  '(ret, buf) ← at_ptr w (fun buf => r_io_read_internal buf l) buf;
  buf ← (if ret <? 1 then poke w l (memset Oxff l) buf else mret buf);
  let ret := if ret <? 1 then l else ret in
  let l := if ret <? l then ret else l in
  io ← gets id;
  if z2b (io_cached io) then
    buf ← poke w len (fun b => snd (r_io_cache_read io (u64 (addr + w)) b len)) buf;
    read_done Oxff addr w len l buf
  else if (1 <? r_io_map_count io) && negb (io_debug io) && (0 <? s32 ms) then
    o ← r_io_section_maddr_to_vaddr (u64 (addr + w));
    buf ← (if (o =? UT64_MAX) && (r_io_section_vaddr_to_maddr_try io (u64 (addr + w)) =? UT64_MAX)
           then poke w l (memset Oxff l) buf else mret buf);
    mret (inr (olen, buf))
  else
    read_done Oxff addr w len l buf.

(** The body of the loop. *)
Definition read_step (olen : Z) (st : read_state) : MIO (read_state + Z * list Z) :=
  let '(mkRead addr w len l buf) := st in
  if len <=? 0 then mret (inr (olen, buf))
  else
    io ← gets id;
    let fits := u64 (addr + w) <? u64 (addr + w + len) in
    if fits && negb (address_exists io (u64 (addr + w))) && (0 <? r_io_map_count io) then
      match skip_size io st with
      | None => mret (inr (olen, buf))
      | Some l => mret (inl (read_next st addr l buf))
      end
    else
      let l := if fits then step_size io st else s32 (u64 (UT64_MAX - addr + 1)) in
      let l := if l <? 1 then len else l in
      let paddr :=
        if addr =? UT64_MAX then 0
        else if w =? 0 then addr
        else r_io_section_vaddr_to_maddr_try io (u64 (addr + w)) in
      paddr ← (if paddr =? UT64_MAX then r_io_map_select addr else mret paddr);
      if paddr =? UT64_MAX then mret (inl (read_next st addr l buf))
      else read_chunk olen st paddr l.

(** The bound on the turns is never reached, since every turn consumes a byte
    or leaves the loop. *)
Definition read_loop (olen : Z) (st : read_state) : MIO (Z * list Z) :=
  r ← for_upto (rs_len st + 1) (read_step olen) st;
  mret match r with inr res => res | inl st => (olen, rs_buf st) end.

(** The part of [r_io_read_at] after the adjustment to sections. *)
Definition read_at_from (olen addr : Z) (buf : list Z) (len : Z) : MIO (Z * list Z) :=
  io ← gets id;
  if io_raw io then
    ret ← r_io_seek addr R_IO_SEEK_SET;
    buf ← (if ret =? UT64_MAX then poke 0 len (memset (io_Oxff io) len) buf else mret buf);
    r_io_read_internal buf len
  else
    modify (set_io_off addr) ;;
    buf ← poke 0 len (memset (io_Oxff io) len) buf;
    if io_buffer_enabled io then r_io_buffer_read addr buf len
    else read_loop olen (mkRead addr 0 len 0 buf).

Definition r_io_read_at (addr : Z) (buf : list Z) (len : Z) : MIO (Z * list Z) :=
  io ← gets id;
  if len <? 0 then mret (0, buf)
  else if io_vio io then r_io_read_cr addr buf len
  else if io_sectonly io && negb (section_empty io)
          && negb (z2b (r_io_section_exists_for_vaddr io addr 0)) then
    buf ← poke 0 len (memset (io_Oxff io) len) buf;
    let next := r_io_section_next io addr in
    if (next <? u64 (addr + len)) && negb (next =? 0) then
      let delta := s32 (next - addr) in
      at_ptr delta (fun buf => read_at_from len next buf (len - delta)) buf
    else mret (0, buf)
  else read_at_from len addr buf len.

Definition r_io_read (buf : list Z) (len : Z) : MIO (Z * list Z) :=
  io ← gets id;
  match io_desc io with
  | None => mret (-1, buf)
  | Some _ =>
      if io_off io =? UT64_MAX then mret (-1, buf)
      else if z2b (Z.land (io_enforce_rwx io) R_IO_READ)
              && negb (z2b (Z.land (r_io_section_get_rwx io (io_off io)) R_IO_READ))
      then mret (-1, buf)
      else
        vaddr ← r_io_section_maddr_to_vaddr (io_off io);
        let vaddr := if vaddr =? UT64_MAX then io_off io else vaddr in
        '(ret, buf) ← r_io_read_at vaddr buf len;
        (if 0 <? ret then modify (fun io => set_io_off (u64 (io_off io + ret)) io) else mret tt) ;;
        mret (ret, buf)
  end.

(** A little-endian host: the first bytes of a [ut64]. *)
Definition r_io_read_i (addr sz : Z) : MIO Z :=
  let sz := if sz <? 1 then 1 else if 8 <? sz then 8 else sz in
  '(ret, buf) ← r_io_read_at addr (malloc_bytes 8) sz;
  mret (if ret =? sz then le_val (take (Z.to_nat sz) buf) else UT64_MAX).
End Core.

Lemma length_memset x n buf : length (memset x n buf) = length buf.
Proof. apply length_blit. Qed.
