(* ===== verification/IoMalloc.v ===== *)
(** * The memory device

    [libr/io/p/io_malloc.c]: a buffer with a position, behind the descriptors
    of [malloc://]. *)

From S2P Require Import Prelude IoState IoSection IoMap IoCore.

(** The buffer has [m_size] bytes; [None] is the null data of a closed
    descriptor. *)
Record RIOMalloc := mkMalloc { m_buf : list Z; m_size : Z; m_offset : Z }.

Definition malloc__write (data : option RIOMalloc) (buf : list Z) (count : Z)
    : Z * option RIOMalloc :=
  match data with
  | None => (-1, data)
  | Some m =>
      if count <? 0 then (-1, data)
      else if m_size m <? m_offset m then (-1, data)
      else
        let e := u64 (m_offset m + count) in
        let count := if m_size m <? e then s32 (count - (e - m_size m)) else count in
        if 0 <? count then
          let src := take (Z.to_nat count) buf in
          (count, Some (mkMalloc (at_offset (Z.to_nat (m_offset m)) (blit src) (m_buf m)) (m_size m)
                          (u64 (m_offset m + count))))
        else (-1, data)
  end.

Definition malloc__read (data : option RIOMalloc) (buf : list Z) (count : Z) : Z * list Z :=
  let buf := memset 0xff count buf in
  match data with
  | None => (-1, buf)
  | Some m =>
      if m_size m <? m_offset m then (-1, buf)
      else
        let count := if m_size m <=? u64 (m_offset m + count)
                     then s32 (m_size m - m_offset m) else count in
        (count, blit (take (Z.to_nat count) (drop (Z.to_nat (m_offset m)) (m_buf m))) buf)
  end.

Definition malloc__lseek (data : option RIOMalloc) (offset whence : Z) : Z * option RIOMalloc :=
  match data with
  | None => (offset, data)
  | Some m =>
      let r_offset :=
        if whence =? R_IO_SEEK_SET then (if offset <=? m_size m then offset else m_size m)
        else if whence =? R_IO_SEEK_CUR then
          (if u64 (m_offset m + offset) <=? m_size m then u64 (m_offset m + offset) else m_size m)
        else if whence =? R_IO_SEEK_END then m_size m
        else offset in
      (r_offset, Some (mkMalloc (m_buf m) (m_size m) r_offset))
  end.

Definition malloc__resize (data : option RIOMalloc) (count : Z) : bool * option RIOMalloc :=
  match data with
  | None => (false, data)
  | Some m =>
      if (count =? 0) || (m_size m <? m_offset m) then (false, data)
      else
        let n := Z.to_nat count in
        (true, Some (mkMalloc (take n (m_buf m) ++ replicate (n - length (m_buf m)) 0) (u32 count)
                       (m_offset m)))
  end.

Definition malloc__close (data : option RIOMalloc) : Z * option RIOMalloc :=
  match data with None => (-1, data) | Some _ => (0, None) end.

(** The plugin; there is only one. *)
Inductive io_plugins := r_io_plugin_malloc.

#[export] Instance malloc_plugin : IoPlugin io_plugins (option RIOMalloc) := {|
  plugin_read _ _ data buf count :=
    let '(ret, buf) := malloc__read data buf count in (ret, buf, data);
  plugin_write _ _ data buf count := malloc__write data buf count;
  plugin_lseek _ _ data offset whence := malloc__lseek data offset whence;
  plugin_close _ data := Some (malloc__close data);
  plugin_resize _ _ data count := Some (malloc__resize data count);
  plugin_listener _ _ := false;
  plugin_blockdev _ _ := false;
  indet_byte _ := 0;
|}.

Definition MRIO : Type := RIO io_plugins (option RIOMalloc).

(** A fresh buffer of this device's host. *)
Lemma malloc_bytes_ok n :
  0 <= n ->
  Z.of_nat (length (malloc_bytes (P := io_plugins) (D := option RIOMalloc) n)) = n
  /\ bytes (malloc_bytes (P := io_plugins) (D := option RIOMalloc) n).
Proof.
  intros Hn. unfold malloc_bytes. split; [rewrite length_map, length_seq; lia|].
  apply Forall_forall. intros b Hb. apply list_elem_of_fmap in Hb as (i & -> & _).
  unfold is_byte. simpl. lia.
Qed.
