(* ===== verification/IoWrite.v ===== *)
(** * Writing through the i/o layer

    [r_io_write] and [r_io_write_at] ([io.c]), the commit and the invalidation
    of cached writes ([cache.c]), the history of writes ([undo.c]), and the
    operations built on reading and writing. *)

From S2P Require Import Prelude IoState IoSection IoMap IoUndo IoCore.

Section Write.
Context {P D : Type} {Env : IoPlugin P D}.
Implicit Types io : RIO P D.
Let MIO := M (RIO P D).

(** ** Cached writes, again

    [written] in the entry at place [i]. *)
Definition set_written (v : bool) (c : RIOCache) : RIOCache :=
  mkCache (c_from c) (c_to c) (c_size c) (c_data c) (c_odata c) v.

Definition cache_inside (from to : Z) (c : RIOCache) : bool :=
  (from <=? c_from c) && (c_to c <=? to).

(** [r_io_cache_invalidate], given the function that writes the old bytes
    back.  An entry that was not written is freed and then written to. *)
Definition cache_invalidate_with (write_at : Z -> list Z -> Z -> MIO Z) (from to : Z) : MIO bool :=
  if negb (from <? to) then mret false
  else
    io ← gets id;
    match find (cache_inside from to) (io_cache io) with
    | None => mret false
    | Some c =>
        modify (set_io_cached 2) ;;
        write_at (c_from c) (c_odata c) (c_size c) ;;
        modify (set_io_cached (io_cached io)) ;;
        if negb (c_written c) then undef UB_oob
        else
          modify (fun io => set_io_cache
            (update_first (cache_inside from to) (set_written false) (io_cache io)) io) ;;
          mret true
    end.

(** ** Writing *)

Definition r_io_set_write_mask (buf : list Z) (len : Z) : MIO bool :=
  if 0 <? len then
    d ← gets io_desc;
    d ← lift UB_null d;
    desc ← get_desc d;
    modify (fun io => set_io_write_mask_buf (take (Z.to_nat len) buf)
                        (set_io_write_mask_fd (d_fd desc) io)) ;;
    mret true
  else modify (set_io_write_mask_fd (-1)) ;; mret false.

(** The bytes of [buf] under the mask, which is repeated. *)
Definition mask_bytes (mask buf : list Z) (len : Z) : list Z :=
  map (fun i => Z.land (byte_at buf i) (byte_at mask (i mod length mask))) (seq 0 (Z.to_nat len)).

(** The read into the masked buffer, of which nothing is kept. *)
Definition masked (buf : list Z) (len : Z) : MIO (option (list Z)) :=
  io ← gets id;
  if io_write_mask_fd io =? -1 then mret (Some buf)
  else if len <=? 0 then mret None
  else
    r_io_seek (io_off io) R_IO_SEEK_SET ;;
    r_io_read (malloc_bytes len) len ;;
    off ← gets io_off;
    r_io_seek off R_IO_SEEK_SET ;;
    mask ← gets io_write_mask_buf;
    mret (Some (mask_bytes mask buf len)).

(** What follows the selection of the map: the write itself and the update of
    the position and of the map.  A plugin is not called without a descriptor
    here: what it does with a null one is its own affair.  In
    [r_io_cache_invalidate], [io->cached] is
    set and [r_io_write_at] is [r_io_cache_write]. *)
Definition write_selected (buf : list Z) (len : Z) : MIO Z :=
  io ← gets id;
  ret ← match io_plugin io, io_desc io with
        | Some p, Some d => call_write p d buf len
        | None, None => mret (-1)
        | _, _ => undef UB_null
        end;
  io ← gets id;
  if ret =? -1 then
    (if io_cached io =? 2 then mret false
     else cache_invalidate_with r_io_cache_write (io_off io) (u64 (io_off io + 1))) ;;
    mret ret
  else
    d ← lift UB_null (io_desc io);
    desc ← get_desc d;
    r_io_map_write_update (d_fd desc) (io_off io) ret ;;
    modify (fun io => set_io_off (u64 (io_off io + ret)) io) ;;
    mret ret.

Definition r_io_write (buf : list Z) (len : Z) : MIO Z :=
  io ← gets id;
  if z2b (Z.land (io_enforce_rwx io) R_IO_WRITE)
     && negb (z2b (Z.land (r_io_section_get_rwx io (io_off io)) R_IO_WRITE))
  then mret (-1)
  else
    ret ← (if z2b (io_cached io) then r_io_cache_write (io_off io) buf len else mret (-1));
    if z2b (io_cached io) && (ret =? len) then mret len
    else
      let n := if 0 <? ret then ret else 0 in
      let len := len - n in
      buf ← masked (drop (Z.to_nat n) buf) len;
      match buf with
      | None => mret (-1)
      | Some buf =>
          addr ← gets io_off;
          r_io_map_select addr ;;
          modify (set_io_off addr) ;;
          io ← gets id;
          (match r_io_map_get io addr with
           | Some map => modify (set_io_off (u64 (addr - map_from map)))
           | None => mret tt
           end) ;;
          write_selected buf len
      end.

Definition r_io_write_at (addr : Z) (buf : list Z) (len : Z) : MIO Z :=
  io ← gets id;
  if z2b (io_cached io) then r_io_cache_write addr buf len
  else r_io_seek addr R_IO_SEEK_SET ;; r_io_write buf len.

Definition r_io_cache_invalidate : Z -> Z -> MIO bool := cache_invalidate_with r_io_write_at.

(** Only the first entry inside the range is tried. *)
Definition r_io_cache_commit (from to : Z) : MIO unit :=
  io ← gets id;
  modify (set_io_cached 2) ;;
  (match find (cache_inside from to) (io_cache io) with
   | Some c =>
       ret ← r_io_write_at (c_from c) (c_data c) (c_size c);
       if z2b ret
       then modify (fun io => set_io_cache
              (update_first (cache_inside from to) (set_written true) (io_cache io)) io)
       else mret tt
   | None => mret tt
   end) ;;
  modify (set_io_cached (io_cached io)).

(** ** The history of writes *)

Definition r_io_wundo_new (off : Z) (data : list Z) (len : Z) : MIO unit :=
  u ← gets io_undo;
  if negb (un_w_enable u) then mret tt
  else if (len <? 0) || (Z.of_nat (length data) <? len) then undef UB_oob
  else
    '(_, o) ← r_io_read_at off (malloc_bytes len) len;
    let uw := mkUndoWrite true off o (take (Z.to_nat len) data) len in
    on_undo (fun u => set_un_writes (un_w_list u ++ [uw]) (un_w_init u) u).

Definition r_io_wundo_clear : MIO unit := on_undo (fun u => set_un_writes [] (un_w_init u) u).

Definition r_io_wundo_size io : Z :=
  if un_w_init (io_undo io) then Z.of_nat (length (un_w_list (io_undo io))) else 0.

Definition set_uw_set (v : bool) (w : RIOUndoWrite) : RIOUndoWrite :=
  mkUndoWrite v (uw_off w) (uw_o w) (uw_n w) (uw_len w).

(** The entry is given by its place in the list. *)
Definition r_io_wundo_apply (i : nat) (set : bool) : MIO Z :=
  u ← gets io_undo;
  w ← lift UB_oob (un_w_list u !! i);
  on_undo (fun u' => set_un_enable (un_s_enable u') false u') ;;
  r_io_write_at (uw_off w) (if set then uw_n w else uw_o w) (uw_len w) ;;
  on_undo (fun u' => set_un_writes (<[i := set_uw_set set w]> (un_w_list u')) (un_w_init u')
                       (set_un_enable (un_s_enable u') (un_w_enable u) u')) ;;
  mret 0.

(** From the last entry to the first. *)
Fixpoint wundo_apply_prev (n : nat) (set : bool) : MIO unit :=
  match n with
  | O => mret tt
  | S n => r_io_wundo_apply n set ;; wundo_apply_prev n set
  end.
Definition r_io_wundo_apply_all (set : bool) : MIO unit :=
  u ← gets io_undo; wundo_apply_prev (length (un_w_list u)) set.

(** [n] counts from the last entry; after the loop [u] is null when the list
    is empty, and the first entry of the list when [n] is too large. *)
Definition r_io_wundo_set (n : Z) (set : bool) : MIO bool :=
  u ← gets io_undo;
  let k := length (un_w_list u) in
  if un_w_init u then
    (if (k =? 0)%nat then mret false
     else
       let i := if (0 <=? n) && (n <? Z.of_nat k) then (k - 1 - Z.to_nat n)%nat else 0%nat in
       r_io_wundo_apply i set ;; mret true)
  else mret false.

(** ** Sizes and moves *)

Definition r_io_is_listener io : bool :=
  match io_plugin io, io_desc io with
  | Some p, Some d =>
      match io_descs io !! d with Some x => plugin_listener p (d_data x) | None => false end
  | _, _ => false
  end.
Definition r_io_is_blockdevice io : bool :=
  match io_plugin io, io_desc io with
  | Some p, Some d =>
      match io_descs io !! d with Some x => plugin_blockdev p (d_data x) | None => false end
  | _, _ => false
  end.

Definition r_io_size : MIO Z :=
  io ← gets id;
  if r_io_is_listener io then mret UT64_MAX
  else
    modify (set_io_va false) ;;
    here ← r_io_seek 0 R_IO_SEEK_CUR;
    size ← r_io_seek 0 R_IO_SEEK_END;
    r_io_seek here R_IO_SEEK_SET ;;
    modify (set_io_va (io_va io)) ;;
    io ← gets id;
    if r_io_is_blockdevice io then modify (set_io_va false) ;; mret UT64_MAX
    else mret size.

Definition r_io_desc_size (d : option nat) : MIO Z :=
  match d with
  | None => mret UT64_MAX
  | Some _ =>
      old ← gets io_desc;
      let other := negb (bool_decide (old = d)) in
      (if other then r_io_use_desc d else mret true) ;;
      sz ← r_io_size;
      (if other then r_io_use_desc old else mret true) ;;
      mret sz
  end.

Definition r_io_fd_size (fd : Z) : MIO Z := io ← gets id; r_io_desc_size (r_io_desc_get io fd).

Definition r_io_resize (newsize : Z) : MIO bool :=
  io ← gets id;
  match io_plugin io, io_desc io with
  | None, _ => mret true
  | Some _, None => mret false
  | Some p, Some d =>
      desc ← get_desc d;
      match plugin_resize p (io_off io) (d_data desc) newsize with
      | None => mret false
      | Some (res, data) =>
          put_data d data ;;
          (if res : bool then r_io_map_truncate_update (d_fd desc) newsize else mret false) ;;
          mret res
      end
  end.

(** Whether an access to the offset makes sense, with the permissions. *)
Definition r_io_is_valid_offset (offset hasperm : Z) : MIO Z :=
  io ← gets id;
  match io_files io, io_desc io with
  | [], _ => mret 0
  | _, None => mret R_FAIL
  | _, Some _ =>
      if negb (io_va io) then
        if r_io_map_exists_for_offset io offset then mret 1
        else size ← r_io_size; mret (b2z (offset <? size))
      else if io_debug io then mret 1
      else if io_sectonly io then
        if section_empty io then mret 1
        else mret (b2z (r_io_map_exists_for_offset io offset
                        || z2b (r_io_section_exists_for_vaddr io offset hasperm)))
      else mret (r_io_section_exists_for_vaddr io offset hasperm)
  end.

(** *** Moving bytes

    One chunk: the source, the bytes left, the chunk size, which shrinks to the
    bytes left at the end, and the buffer. *)
Definition shift_step (move : Z) (st : Z * Z * Z * list Z) : MIO (Z * Z * Z * list Z + unit) :=
  let '(src, rest, chunksize, buf) := st in
  if rest =? 0 then mret (inr tt)
  else
    let chunksize := Z.min chunksize rest in
    let src := if 0 <? move then u64 (src - chunksize) else src in
    '(_, buf) ← r_io_read_at src buf chunksize;
    r_io_write_at (u64 (src + move)) buf chunksize ;;
    let src := if move <? 0 then u64 (src + chunksize) else src in
    mret (inl (src, rest - chunksize, chunksize, buf)).

(** Every turn moves a byte at least, so the bound is never reached. *)
Definition r_io_shift (start endaddr move : Z) : MIO bool :=
  let shiftsize := Z.abs move in
  if move =? - 2 ^ 63 then undef UB_overflow
  else if (shiftsize =? 0) || (u64 (endaddr - start) <=? shiftsize) then mret false
  else
    let rest := u64 (endaddr - start) - shiftsize in
    let src := if 0 <? move then u64 (endaddr - shiftsize) else u64 (start + shiftsize) in
    for_upto (rest + 1) (shift_step move) (src, rest, 0x10000, malloc_bytes 0x10000) ;;
    mret true.

(** ** Opening and closing *)

(** The structure after [r_io_new], the list of plugins aside. *)
Definition io_defaults io : RIO P D :=
  set_io_autofd true (set_io_raised (-1) (set_io_Oxff 0xff (set_io_ff true (set_io_write_mask_fd (-1) io)))).
Definition r_io_desc_init : MIO unit := modify (set_io_files []).
Definition io_inits : MIO unit :=
  r_io_map_init ;;
  r_io_desc_init ;;
  r_io_undo_init ;;
  r_io_cache_init ;;
  r_io_section_init.
Definition r_io_new : outcome (RIO P D) unit := io_inits (io_defaults io_zero).

(** [getioplugin] is [__getioplugin]: it finds the plugin of the address and
    returns the descriptor that it opens.  No redirection is pending. *)
Definition r_io_open_nomap (getioplugin : MIO (option nat)) : MIO (option nat) :=
  desc ← getioplugin;
  match desc with
  | None => mret None
  | Some d =>
      r_io_desc_add d ;;
      io ← gets id;
      (if io_autofd io || negb (is_some (io_desc io)) then r_io_use_desc (Some d) else mret false) ;;
      mret (Some d)
  end.

Definition r_io_open_at (getioplugin : MIO (option nat)) (mode maddr : Z) : MIO (option nat) :=
  desc ← getioplugin;
  match desc with
  | None => mret None
  | Some d =>
      r_io_desc_add d ;;
      size ← r_io_desc_size (Some d);
      io ← gets id;
      (if io_autofd io || negb (is_some (io_desc io)) then r_io_use_desc (Some d) else mret false) ;;
      x ← get_desc d;
      r_io_map_new (d_fd x) mode 0 maddr size ;;
      mret (Some d)
  end.

Definition r_io_plugin_close (d : option nat) : MIO Z :=
  io ← gets id;
  match io_plugin io, d with
  | Some p, Some d =>
      x ← get_desc d;
      match plugin_close p (d_data x) with
      | Some (ret, data) =>
          put_data d data ;;
          (if bool_decide (io_desc io = Some d) then modify (set_io_desc None) else mret tt) ;;
          mret ret
      | None => mret (-1)
      end
  | _, _ => mret (-1)
  end.

Definition r_io_close (d : option nat) : MIO Z :=
  match d with
  | None => mret (-1)
  | Some d' =>
      cur ← gets io_desc;
      let cur := if bool_decide (cur = d) then None else cur in
      r_io_use_desc d ;;
      x ← get_desc d';
      io ← gets id;
      let desc := r_io_desc_get io (d_fd x) in
      (if is_some desc then
         r_io_map_del (d_fd x) ;;
         r_io_section_rm_all (d_fd x) ;;
         r_io_plugin_close d ;;
         mret tt
       else mret tt) ;;
      let cur := if is_some desc && bool_decide (desc = d) then None else cur in
      (if d_fd x =? io_raised io then modify (set_io_raised (-1)) else mret tt) ;;
      modify (set_io_desc cur) ;;
      mret 0
  end.
End Write.
