(* ===== verification/IoCache.v ===== *)
(** * The cache of writes

    What [r_io_cache_read] puts in a buffer, and what the cache hides. *)

From S2P Require Import Prelude IoState IoSection IoMap IoUndo IoCore IoWrite.

(** ** The overlay

    The byte the cache has for an address: that of the last entry that holds
    it. *)
Definition in_cache (a : Z) (c : RIOCache) : bool := (c_from c <=? a) && (a <? c_from c + c_size c).
Definition cache_byte_step (a : Z) (acc : option Z) (c : RIOCache) : option Z :=
  if in_cache a c then Some (byte_at (c_data c) (Z.to_nat (a - c_from c))) else acc.
Definition cache_byte (l : list RIOCache) (a : Z) : option Z := foldl (cache_byte_step a) None l.

Record cache_ok (c : RIOCache) : Prop := {
  co_from : 0 <= c_from c;
  co_to : c_to c = c_from c + c_size c;
  co_top : c_to c < 2 ^ 64;
  co_size : 0 <= c_size c < 2 ^ 31;
  co_data : Z.of_nat (length (c_data c)) = c_size c;
}.

(** A buffer read at [addr] with the bytes of [f] put over its first [len]. *)
Definition overlay (f : Z -> option Z) (addr len : Z) (buf : list Z) : list Z :=
  imap (fun i b => if Z.of_nat i <? len then default b (f (addr + Z.of_nat i)) else b) buf.

Lemma overlay_lookup f addr len buf i :
  overlay f addr len buf !! i
  = (fun b => if Z.of_nat i <? len then default b (f (addr + Z.of_nat i)) else b) <$> buf !! i.
Proof. unfold overlay. by rewrite list_lookup_imap. Qed.

Lemma length_overlay f addr len buf : length (overlay f addr len buf) = length buf.
Proof. apply length_imap. Qed.

Lemma at_offset_blit_lookup off src dst i :
  (off + length src <= length dst)%nat ->
  at_offset off (blit src) dst !! i
  = if decide (off <= i < off + length src)%nat then src !! (i - off)%nat else dst !! i.
Proof.
  intros H. rewrite at_offset_blit by done. case_decide as Hi.
  - rewrite lookup_app_r by (rewrite length_take; lia). rewrite length_take.
    rewrite lookup_app_l by lia. f_equal. lia.
  - destruct (decide (i < off)%nat).
    + rewrite lookup_app_l by (rewrite length_take; lia). by rewrite lookup_take_lt by lia.
    + rewrite lookup_app_r by (rewrite length_take; lia). rewrite length_take.
      rewrite lookup_app_r by lia. rewrite lookup_drop. f_equal. lia.
Qed.

(** What one entry does, without the truncations. *)
Definition entry_copy (k len : Z) (c : RIOCache) (buf : list Z) : list Z :=
  let l := Z.min (c_size c - Z.max 0 (- k)) (len - Z.max 0 k) in
  if l <? 1 then buf
  else at_offset (Z.to_nat (Z.max 0 k))
         (blit (take (Z.to_nat l) (drop (Z.to_nat (Z.max 0 (- k))) (c_data c)))) buf.

Lemma cache_read_step_copy addr len st c :
  cache_ok c -> 0 <= addr -> 0 < len < 2 ^ 31 -> addr + len <= 2 ^ 64 ->
  snd (cache_read_step addr len st c)
  = if (c_from c <? addr + len) && (addr <=? c_to c)
    then entry_copy (c_from c - addr) len c (snd st) else snd st.
Proof.
  intros [H0 Hto Htop Hsz Hd] Ha Hl Hw. destruct st as [cov buf].
  unfold cache_read_step, r_range_overlap. rewrite (u64_id (addr + len - 1)) by lia.
  assert (negb ((addr + len - 1 <? c_from c) || (c_to c <? addr))
          = (c_from c <? addr + len) && (addr <=? c_to c)) as ->.
  { destruct (Z.ltb_spec (addr + len - 1) (c_from c)), (Z.ltb_spec (c_to c) addr),
      (Z.ltb_spec (c_from c) (addr + len)), (Z.leb_spec addr (c_to c)); simpl; lia. }
  destruct (Z.ltb_spec (c_from c) (addr + len)); [|done].
  destruct (Z.leb_spec addr (c_to c)); [|done]. cbn [andb negb].
  unfold s32. rewrite swrap_id by lia. unfold entry_copy. simpl snd.
  set (k := c_from c - addr).
  assert ((if 0 <? k then k else 0) = Z.max 0 k) as -> by (destruct (Z.ltb_spec 0 k); lia).
  assert ((if k <? 0 then - k else 0) = Z.max 0 (- k)) as -> by (destruct (Z.ltb_spec k 0); lia).
  assert ((if k <? 0 then c_size c - Z.max 0 (- k) else c_size c) = c_size c - Z.max 0 (- k)) as ->
    by (destruct (Z.ltb_spec k 0); lia).
  set (l0 := c_size c - Z.max 0 (- k)).
  assert ((if len <? l0 + Z.max 0 k then len - Z.max 0 k else l0) = Z.min l0 (len - Z.max 0 k)) as ->
    by (destruct (Z.ltb_spec len (l0 + Z.max 0 k)); lia).
  by destruct (Z.min _ _ <? 1).
Qed.

(** The interval of the buffer that an entry covers. *)
Lemma entry_copy_lookup k len c buf i :
  cache_ok c -> len <= Z.of_nat (length buf) -> (i < length buf)%nat ->
  entry_copy k len c buf !! i
  = if (Z.of_nat i <? len) && (k <=? Z.of_nat i) && (Z.of_nat i <? k + c_size c)
    then c_data c !! Z.to_nat (Z.of_nat i - k) else buf !! i.
Proof.
  intros [_ _ _ Hsz Hd] Hb Hi. unfold entry_copy.
  set (l := Z.min (c_size c - Z.max 0 (- k)) (len - Z.max 0 k)).
  destruct (Z.ltb_spec l 1).
  { replace ((_ && _) && _) with false by lia. done. }
  rewrite at_offset_blit_lookup by (rewrite length_take, length_drop; lia).
  rewrite length_take, length_drop. case_decide as Hw.
  - replace ((_ && _) && _) with true by lia. rewrite lookup_take_lt, lookup_drop by lia.
    f_equal. lia.
  - replace ((_ && _) && _) with false by lia. done.
Qed.

Lemma cache_read_step_overlay addr len st c :
  cache_ok c -> 0 <= addr -> 0 < len < 2 ^ 31 -> addr + len <= 2 ^ 64 ->
  len <= Z.of_nat (length (snd st)) ->
  snd (cache_read_step addr len st c)
  = overlay (fun a => cache_byte_step a None c) addr len (snd st).
Proof.
  intros Hc Ha Hl Hw Hb. rewrite cache_read_step_copy by done.
  apply list_eq. intros i. rewrite overlay_lookup. destruct (snd st !! i) as [b|] eqn:E.
  2: { simpl. destruct (_ && _); [|done]. apply lookup_ge_None in E. unfold entry_copy.
       destruct (_ <? 1); apply lookup_ge_None; [done|].
       rewrite length_at_offset; [done|]. intros; apply length_blit. }
  pose proof (lookup_lt_Some _ _ _ E) as Hi. pose proof Hc as [_ Hto _ Hsz Hd].
  simpl. unfold cache_byte_step, in_cache.
  destruct (Z.ltb_spec (c_from c) (addr + len)), (Z.leb_spec addr (c_to c)); simpl andb; cbv iota;
    rewrite ?entry_copy_lookup, ?E by done;
    destruct (Z.ltb_spec (Z.of_nat i) len); simpl andb; cbv iota; try done;
    destruct (Z.leb_spec (c_from c) (addr + Z.of_nat i)),
      (Z.ltb_spec (addr + Z.of_nat i) (c_from c + c_size c)); simpl; try lia; try done;
    repeat match goal with |- context [?x <=? ?y] => destruct (Z.leb_spec x y); try lia
           | |- context [?x <? ?y] => destruct (Z.ltb_spec x y); try lia end; simpl; try done.
  unfold byte_at. replace (addr + Z.of_nat i - c_from c) with (Z.of_nat i - (c_from c - addr)) by lia.
  destruct (lookup_lt_is_Some_2 (c_data c) (Z.to_nat (Z.of_nat i - (c_from c - addr)))) as [x ->]; [lia|done].
Qed.

Lemma overlay_overlay f g addr len buf :
  overlay g addr len (overlay f addr len buf)
  = overlay (fun a => match g a with Some b => Some b | None => f a end) addr len buf.
Proof.
  apply list_eq. intros i. rewrite !overlay_lookup. destruct (buf !! i); [|done]. simpl.
  destruct (_ <? _); [|done]. by destruct (g _).
Qed.

Lemma overlay_ext f g addr len buf :
  (forall a, f a = g a) -> overlay f addr len buf = overlay g addr len buf.
Proof. intros H. apply list_eq. intros i. rewrite !overlay_lookup. by rewrite H. Qed.

Lemma cache_byte_app l c a : cache_byte (l ++ [c]) a = cache_byte_step a (cache_byte l a) c.
Proof. unfold cache_byte. by rewrite foldl_app. Qed.

Lemma cache_byte_is_byte l a b :
  Forall (fun c => bytes (c_data c)) l -> cache_byte l a = Some b -> is_byte b.
Proof.
  revert b. induction l as [|c l IH] using rev_ind; intros b; [done|].
  rewrite cache_byte_app, Forall_app, Forall_singleton. intros [Hl Hc]. unfold cache_byte_step.
  destruct (in_cache a c); [|by apply IH]. intros [= <-]. by apply byte_at_range.
Qed.

Lemma cache_fold_overlay l addr buf len :
  Forall cache_ok l -> 0 <= addr -> 0 < len < 2 ^ 31 -> addr + len <= 2 ^ 64 ->
  len <= Z.of_nat (length buf) ->
  snd (foldl (cache_read_step addr len) (0, buf) l) = overlay (cache_byte l) addr len buf.
Proof.
  intros Hc Ha Hl Hw Hb. induction l as [|c l IH] using rev_ind.
  - simpl. apply list_eq. intros i. rewrite overlay_lookup. destruct (buf !! i); [|done]. simpl.
    by destruct (_ <? _).
  - apply Forall_app in Hc as [Hc Hc1]. rewrite Forall_singleton in Hc1. rewrite foldl_app. simpl foldl at 1.
    rewrite cache_read_step_overlay by (try done; rewrite IH, ?length_overlay by done; done).
    rewrite IH by done. rewrite overlay_overlay. apply overlay_ext. intros a.
    rewrite cache_byte_app. unfold cache_byte_step. by destruct (in_cache a c).
Qed.

(** [r_io_cache_read] puts over the buffer the bytes of the cached writes,
    each byte from the last write that holds its address, and leaves the other
    bytes alone. *)
Theorem r_io_cache_read_overlay {P D} (io : RIO P D) addr buf len :
  Forall cache_ok (io_cache io) -> 0 <= addr -> 0 < len < 2 ^ 31 -> addr + len <= 2 ^ 64 ->
  len <= Z.of_nat (length buf) ->
  snd (r_io_cache_read io addr buf len) = overlay (cache_byte (io_cache io)) addr len buf.
Proof.
  intros Hc Ha Hl Hw Hb. unfold r_io_cache_read. destruct (Z.ltb_spec len 0); [lia|].
  by apply cache_fold_overlay.
Qed.

(** Two writes that overlap. *)
Definition demo_cache : list RIOCache :=
  [mkCache 0x10 0x14 4 [1; 2; 3; 4] [0; 0; 0; 0] false; mkCache 0x12 0x13 1 [9] [3] false].
Definition demo_cache_io : RIO unit unit := set_io_cached 1 (set_io_cache demo_cache io_zero).

Lemma r_io_cache_read_overlay_witness :
  snd (r_io_cache_read demo_cache_io 0x0F [7; 7; 7; 7; 7; 7] 6) = [7; 1; 2; 9; 4; 7].
Proof.
  rewrite (r_io_cache_read_overlay demo_cache_io 0x0F [7; 7; 7; 7; 7; 7] 6).
  - reflexivity.
  - repeat constructor; simpl; lia.
  - lia.
  - lia.
  - lia.
  - simpl; lia.
Defined.

(** ** Commit and invalidation *)

Section Commit.
Context {P D : Type} {Env : IoPlugin P D}.
Implicit Types io : RIO P D.

(** With [io->cached] set every write goes to the cache, and with the value 2
    nowhere. *)
Lemma write_at_cached io addr buf len :
  io_cached io <> 0 -> r_io_write_at addr buf len io = r_io_cache_write addr buf len io.
Proof.
  intros H. unfold r_io_write_at, z2b. mrun. by destruct (Z.eqb_spec (io_cached io) 0).
Qed.

Lemma write_at_cached2 io addr buf len :
  io_cached io = 2 -> r_io_write_at addr buf len io = Ok 0 io.
Proof.
  intros H. rewrite write_at_cached by lia. unfold r_io_cache_write. mrun. by rewrite H.
Qed.

Lemma set_cached_back v io : set_io_cached (io_cached io) (set_io_cached v io) = io.
Proof. by destruct io. Qed.

(** Committing the cache has no effect: [r_io_cache_commit] sets
    [io->cached] to 2 to reach the device, but [r_io_write_at] hands every write
    to [r_io_cache_write] while [io->cached] is set, which drops it. *)
Theorem r_io_cache_commit_noop io from to : r_io_cache_commit from to io = Ok tt io.
Proof.
  unfold r_io_cache_commit. mrun. destruct (find _ _) as [c|]; mrun.
  - rewrite write_at_cached2 by done. mrun. by rewrite set_cached_back.
  - by rewrite set_cached_back.
Qed.

(** Invalidating an entry that is still pending writes to it after it was
    freed. *)
Lemma invalidate_pending io from to c :
  from < to -> find (cache_inside from to) (io_cache io) = Some c -> c_written c = false ->
  r_io_cache_invalidate from to io = Undef UB_oob.
Proof.
  intros Hf E Hc. unfold r_io_cache_invalidate, cache_invalidate_with.
  destruct (Z.ltb_spec from to); [|lia]. simpl. mrun. rewrite E. mrun.
  rewrite write_at_cached2 by done. mrun. by rewrite Hc.
Qed.
End Commit.
