(* ===== verification/IoSafe.v ===== *)
(** * Reads are defined and end

    On a layer whose pointers are valid, [r_io_read_at] never leaves its
    buffer, never follows a bad pointer, and its loop ends. *)

From S2P Require Import Prelude IoState IoSection IoMap IoCore IoMalloc.

(** ** Safety of a program

    From a state that satisfies [I] the program is defined, its result
    satisfies [Q] and [I] holds again. *)
Definition safely {S A} (I : S -> Prop) (Q : A -> Prop) (m : M S A) : Prop :=
  forall s, I s -> match m s with Ok a s' => I s' /\ Q a | Undef _ => False end.

Section Safely.
Context {S : Type} (I : S -> Prop).

Lemma safely_ret {A} (Q : A -> Prop) a : Q a -> safely I Q (mret a).
Proof. intros H s Hs. done. Qed.

Lemma safely_gets {A} (Q : A -> Prop) f : (forall s, I s -> Q (f s)) -> safely I Q (gets f).
Proof. intros H s Hs. split; auto. Qed.

Lemma safely_modify f : (forall s, I s -> I (f s)) -> safely I (fun _ => True) (modify f).
Proof. intros H s Hs. split; auto. Qed.

Lemma safely_bind {A B} (R : A -> Prop) (Q : B -> Prop) (m : M S A) (k : A -> M S B) :
  safely I R m -> (forall a, R a -> safely I Q (k a)) -> safely I Q (m ≫= k).
Proof.
  intros Hm Hk s Hs. rewrite run_bind. specialize (Hm s Hs). destruct (m s) as [a s'|]; [|done].
  destruct Hm as [Hs' Ha]. by apply Hk.
Qed.

Lemma safely_weaken {A} (R Q : A -> Prop) (m : M S A) :
  safely I R m -> (forall a, R a -> Q a) -> safely I Q m.
Proof.
  intros Hm H s Hs. specialize (Hm s Hs). destruct (m s); [|done]. destruct Hm. auto.
Qed.

(** A call of which only the definedness matters. *)
Lemma safely_then {A B} (Q : B -> Prop) (m : M S A) (k : A -> M S B) :
  safely I (fun _ => True) m -> (forall a, safely I Q (k a)) -> safely I Q (m ≫= k).
Proof. intros Hm Hk. by apply (safely_bind (fun _ => True)). Qed.

(** The state read at the start of a program. *)
Lemma safely_state {B} (Q : B -> Prop) (k : S -> M S B) :
  (forall s, I s -> safely I Q (k s)) -> safely I Q (s ← gets id; k s).
Proof. intros H. apply (safely_bind I); [by apply safely_gets|done]. Qed.
End Safely.

Ltac safely_call H :=
  apply safely_then; [eapply safely_weaken; [apply H|exact (fun _ _ => I)] | intros ?].

(** ** Valid layers *)

Definition ut64 (x : Z) : Prop := 0 <= x < 2 ^ 64.

Section Safe.
Context {P D : Type} {Env : IoPlugin P D}.
Implicit Types io : RIO P D.

(** A plugin writes inside the buffer it is given. *)
Hypothesis read_length : forall p off data buf count,
  length (snd (fst (plugin_read p off data buf count))) = length buf.

(** The current descriptor and the open ones are in the heap, whose addresses
    are [heap]; the current one has its plugin, and sections are at 64-bit
    offsets. *)
Variable heap : gset nat.
Record io_wf io : Prop := {
  wf_heap : dom (io_descs io) = heap;
  wf_desc : match io_desc io with
            | Some d => d ∈ heap /\ is_Some (io_plugin io)
            | None => True
            end;
  wf_files : Forall (fun d => d ∈ heap) (io_files io);
  wf_sections : Forall (fun s => ut64 (sec_offset s) /\ ut64 (sec_vaddr s)) (io_sections io);
}.

Notation safe := (safely io_wf).
Notation any := (fun _ => True).

(** *** Descriptors and plugins *)

Lemma safe_set f :
  (forall io, io_desc (f io) = io_desc io /\ io_plugin (f io) = io_plugin io
              /\ io_descs (f io) = io_descs io /\ io_files (f io) = io_files io
              /\ io_sections (f io) = io_sections io) ->
  safe any (modify f).
Proof.
  intros Hf. apply safely_modify. intros io [H0 H1 H2 H3].
  destruct (Hf io) as (E1 & E2 & E3 & E4 & E5). split; rewrite ?E1, ?E2, ?E3, ?E4, ?E5; done.
Qed.

Lemma safe_get_desc d : d ∈ heap -> safe any (get_desc d).
Proof.
  intros Hd. apply safely_state. intros io W. rewrite <- (wf_heap _ W), elem_of_dom in Hd.
  destruct Hd as [x ->]. by apply safely_ret.
Qed.

Lemma safe_put_data d data : d ∈ heap -> safe any (put_data d data).
Proof.
  intros Hd. unfold put_data. safely_call safe_get_desc; [done|]. apply safely_modify.
  intros io [H0 H1 H2 H3]. split; simpl; try done. rewrite dom_insert_L, H0. set_solver.
Qed.

Lemma safe_use_desc d : d ∈ heap -> safe any (r_io_use_desc (Some d)).
Proof.
  intros Hd. unfold r_io_use_desc. safely_call safe_get_desc; [done|].
  apply safely_then; [|intros; by apply safely_ret]. apply safely_modify. intros io [H0 H1 H2 H3]. split; simpl; done.
Qed.

Lemma desc_get_heap io fd d : io_wf io -> r_io_desc_get io fd = Some d -> d ∈ heap.
Proof.
  intros W. unfold r_io_desc_get. destruct (fd <? 0); [done|]. intros [Hd _]%find_Some_elem.
  pose proof (wf_files _ W) as Hf. rewrite Forall_forall in Hf. auto.
Qed.

Lemma safe_use_fd fd : safe any (r_io_use_fd fd).
Proof.
  apply safely_state. intros io W. destruct (r_io_desc_get io fd) as [d|] eqn:E; [|by apply safely_ret].
  safely_call safe_use_desc; [by eapply desc_get_heap|]. by apply safely_ret.
Qed.

Lemma safe_call_read p d buf len :
  d ∈ heap -> 0 <= len <= Z.of_nat (length buf) ->
  safe (fun r => length (snd r) = length buf) (call_read p d buf len).
Proof.
  intros Hd Hl. unfold call_read. replace ((len <? 0) || _) with false by lia.
  safely_call safe_get_desc; [done|]. apply safely_then; [by apply safely_gets|]. intros off.
  pose proof (read_length p off (d_data a) buf len) as Hr.
  destruct (plugin_read p off (d_data a) buf len) as [[ret buf'] data].
  safely_call safe_put_data; [done|]. by apply safely_ret.
Qed.

Lemma safe_call_lseek p d offset whence : d ∈ heap -> safe any (call_lseek p d offset whence).
Proof.
  intros Hd. unfold call_lseek. safely_call safe_get_desc; [done|].
  apply safely_then; [by apply safely_gets|]. intros off.
  destruct (plugin_lseek _ _ _ _ _) as [ret data]. safely_call safe_put_data; [done|].
  by apply safely_ret.
Qed.

(** *** Seeking and selecting *)

Lemma safe_seek offset whence : safe any (r_io_seek offset whence).
Proof.
  apply safely_state. intros io [H0 H1 H2 H3]. destruct (io_buffer_enabled io).
  { safely_call safe_set; [done|]. by apply safely_ret. }
  cbv zeta. destruct (io_desc io) as [d|]; [|by apply safely_ret].
  destruct (seek_offset io offset =? UT64_MAX); [by apply safely_ret|]. destruct H1 as [Hd [p Hp]]. rewrite Hp.
  apply safely_then; [by apply safely_ret|]. intros p'.
  safely_call safe_call_lseek; [done|].
  apply safely_then; [|intros; by apply safely_ret].
  destruct (whence =? R_IO_SEEK_SET); [by apply safe_set|by apply safely_ret].
Qed.

Lemma safe_read_internal buf len :
  0 <= len <= Z.of_nat (length buf) ->
  safe (fun r => length (snd r) = length buf) (r_io_read_internal buf len).
Proof.
  intros Hl. eapply safely_bind.
  { apply (safely_gets _ (fun d => match d with Some d => d ∈ heap | None => True end)).
    intros io [_ H1 _ _]. destruct (io_desc io); [apply H1|done]. }
  intros [d|] Hd; [|by apply safely_ret]. safely_call safe_get_desc; [done|].
  by apply safe_call_read.
Qed.

Lemma safe_map_select_from off prevfrom paddr fd found l :
  safe any (map_select_from off prevfrom paddr fd found l).
Proof.
  revert prevfrom paddr fd found. induction l as [|im l IH]; intros; cbn [map_select_from].
  { by apply safely_ret. }
  apply safely_then; [|intros ?].
  { destruct (_ && _); [|by apply safely_ret]. safely_call safe_use_fd. by apply safely_ret. }
  destruct (in_map off im); [|apply IH].
  apply safely_then; [by apply safely_gets|]. intros raised.
  destruct (_ =? raised); [by apply safely_ret|apply IH].
Qed.

Lemma safe_map_select off : safe any (r_io_map_select off).
Proof.
  unfold r_io_map_select. apply safely_then; [by apply safely_gets|]. intros maps.
  safely_call safe_map_select_from. destruct a as [[paddr fd] found].
  destruct found; simpl negb; cbv iota.
  - destruct (fd =? -1); [safely_call safe_seek; by apply safely_ret|].
    safely_call safe_use_fd. apply safely_then; [by apply safely_gets|]. intros debug.
    safely_call safe_seek. safely_call safe_use_fd. by apply safely_ret.
  - safely_call safe_use_fd. safely_call safe_seek. by apply safely_ret.
Qed.

Lemma safe_maddr_to_vaddr off : safe any (r_io_section_maddr_to_vaddr off).
Proof.
  apply safely_state. intros io _. destruct (r_io_section_mget_prev io off); [|by apply safely_ret].
  safely_call safe_set; [done|]. by apply safely_ret.
Qed.

(** *** Buffers *)

Lemma length_cache_read io addr buf len :
  length (snd (r_io_cache_read io addr buf len)) = length buf.
Proof.
  unfold r_io_cache_read. destruct (len <? 0); [done|].
  assert (forall l st, length (snd (foldl (cache_read_step addr len) st l)) = length (snd st)) as H.
  { induction l as [|c l IH]; intros st; [done|]. simpl foldl. rewrite IH. destruct st as [cov b].
    unfold cache_read_step. destruct (r_range_overlap _ _ _ _) as [o ret]. destruct o; [|done].
    cbn [negb]. destruct (_ <? 1); [done|]. apply length_at_offset. intros; apply length_blit. }
  apply H.
Qed.

Lemma safe_poke w n f buf :
  (forall b, length (f b) = length b) -> 0 <= w -> 0 <= n -> w + n <= Z.of_nat (length buf) ->
  safe (fun b => length b = length buf) (poke w n f buf).
Proof.
  intros Hf Hw Hn Hb. unfold poke. replace ((w <? 0) || _ || _) with false by lia.
  apply safely_ret. by apply length_at_offset.
Qed.

Lemma safe_at_ptr {A} w (f : list Z -> M (RIO P D) (A * list Z)) buf :
  0 <= w <= Z.of_nat (length buf) ->
  (forall b, Z.of_nat (length b) = Z.of_nat (length buf) - w ->
     safe (fun r => length (snd r) = length b) (f b)) ->
  safe (fun r => length (snd r) = length buf) (at_ptr w f buf).
Proof.
  intros Hw Hf. unfold at_ptr. replace ((w <? 0) || _) with false by lia.
  eapply safely_bind; [apply Hf; rewrite length_drop; lia|]. intros [a tl] Hr. simpl in Hr.
  apply safely_ret. simpl. rewrite length_app, length_take, Hr, length_drop. lia.
Qed.

(** *** The loop

    Between turns the bytes done and the bytes left make up the request, which
    fits the buffer. *)
Record read_inv (olen n : Z) (st : read_state) : Prop := {
  ri_addr : ut64 (rs_addr st);
  ri_w : 0 <= rs_w st;
  ri_sum : rs_w st + rs_len st = olen;
  ri_l : 0 <= rs_l st;
  ri_buf : Z.of_nat (length (rs_buf st)) = n;
}.

(** What a turn does: it ends, or it goes on with fewer bytes left. *)
Definition turn_ok (olen n len : Z) (r : read_state + Z * list Z) : Prop :=
  match r with
  | inl st => read_inv olen n st /\ rs_len st < len /\ 0 < len
  | inr (_, buf) => Z.of_nat (length buf) = n
  end.

Variables olen n res0 : Z.
Hypothesis olen_int : 0 <= olen < 2 ^ 31.
Hypothesis olen_fits : olen <= n.

Lemma safe_read_done Oxff addr w len l buf :
  ut64 addr -> 0 <= w -> w + len = olen -> 1 <= l <= len -> Z.of_nat (length buf) = n ->
  safe (turn_ok olen n len) (read_done Oxff addr w len l buf).
Proof.
  intros Ha Hw Hs Hl Hb. unfold read_done.
  apply (safely_bind _ (fun b => Z.of_nat (length b) = n)).
  - destruct (0 <? len - l) eqn:E; [|by apply safely_ret].
    eapply safely_weaken; [apply safe_poke; try lia; intros; apply length_memset|].
    intros b Hb'. simpl in Hb'. lia.
  - intros b Hb'. apply safely_ret. simpl. split; [split; simpl; try done; lia|lia].
Qed.

Lemma safe_poke_n w k f buf :
  (forall b, length (f b) = length b) -> 0 <= w -> 0 <= k -> w + k <= n ->
  Z.of_nat (length buf) = n ->
  safe (fun b => Z.of_nat (length b) = n) (poke w k f buf).
Proof.
  intros Hf Hw Hk Hwk Hb. eapply safely_weaken; [by apply safe_poke; try lia|].
  intros b Hb'. simpl in Hb'. lia.
Qed.

Lemma safe_read_chunk st paddr l :
  read_inv olen n st -> 0 < rs_len st -> 1 <= l ->
  safe (turn_ok olen n (rs_len st)) (read_chunk res0 st paddr l).
Proof.
  destruct st as [addr w len l0 buf]. intros [Ha Hw Hs _ Hb] Hlen Hl. cbn [rs_addr rs_w rs_len rs_l rs_buf] in *.
  unfold read_chunk. safely_call safe_map_select. cbv zeta.
  set (l1 := if (0 <? len) && (len <? l) then len else l).
  assert (1 <= l1 <= len) as Hl1 by (unfold l1; destruct (Z.ltb_spec 0 len), (Z.ltb_spec len l); simpl; lia).
  clearbody l1.
  apply safely_then; [by apply safely_gets|]. intros Oxff. safely_call safe_seek.
  apply (safely_bind _ (fun b => Z.of_nat (length b) = n)).
  { destruct (_ =? UT64_MAX); [|by apply safely_ret].
    apply safe_poke_n; try lia. intros; apply length_memset. }
  intros b1 Hb1. safely_call safe_map_select.
  apply (safely_bind _ (fun r => Z.of_nat (length (snd r)) = n)).
  { eapply safely_weaken; [apply safe_at_ptr; [lia|]|intros r Hr; simpl in Hr; lia].
    intros b Hb'. apply safe_read_internal. lia. }
  intros [ret b2] Hb2. simpl in Hb2.
  apply (safely_bind _ (fun b => Z.of_nat (length b) = n)).
  { destruct (ret <? 1); [|by apply safely_ret].
    apply safe_poke_n; try lia. intros; apply length_memset. }
  intros b3 Hb3. cbv zeta.
  set (r1 := if ret <? 1 then l1 else ret). set (l2 := if r1 <? l1 then r1 else l1).
  assert (1 <= l2 <= len) as Hl2.
  { unfold l2, r1. destruct (Z.ltb_spec ret 1), (Z.ltb_spec l1 l1), (Z.ltb_spec ret l1); lia. }
  clearbody l2. clear r1.
  assert (ut64 (u64 (paddr - w))) as Hu by apply u64_range.
  apply safely_state. intros io _. destruct (z2b (io_cached io)).
  { apply (safely_bind _ (fun b => Z.of_nat (length b) = n)); [|intros; by apply safe_read_done].
    apply safe_poke_n; try lia. intros; apply length_cache_read. }
  destruct ((1 <? _) && _ && _); [|by apply safe_read_done]. safely_call safe_maddr_to_vaddr.
  apply (safely_bind _ (fun b => Z.of_nat (length b) = n)).
  { destruct (_ && _); [|by apply safely_ret]. apply safe_poke_n; try lia.
    intros; apply length_memset. }
  intros b Hb'. by apply safely_ret.
Qed.

Lemma skip_size_pos io st l :
  io_wf io -> read_inv olen n st -> skip_size io st = Some l -> 1 <= l.
Proof.
  destruct st as [addr w len l0 buf]. intros W [Ha Hw Hs H0 _]. cbn [rs_addr rs_w rs_len rs_l rs_buf] in *.
  unfold ut64 in Ha. unfold skip_size.
  assert (forall x, 0 <= x -> 1 <= (if x =? 0 then 1 else x)) as Hfix
    by (intros x Hx; destruct (Z.eqb_spec x 0); lia).
  assert (forall x, 0 <= x -> x < len -> 0 <= s32 x) as Hs32
    by (intros x ? ?; unfold s32; rewrite swrap_id; lia).
  assert (forall s, r_io_section_get_first_in_vaddr_range io (u64 (addr + w)) (u64 (addr + len + w)) = Some s ->
    ut64 (sec_offset s)) as Hsec.
  { intros s [Hin _]%find_Some_elem. pose proof (wf_sections _ W) as Hf. rewrite Forall_forall in Hf. by apply Hf. }
  destruct (r_io_section_get_first_in_vaddr_range _ _ _) as [s|].
  - destruct (Z.leb_spec len (u64 (UT64_MAX - addr))) as [|Hlt]; [intros [= <-]; auto|].
    destruct (Z.ltb_spec (sec_offset s) addr); [done|]. intros [= <-].
    specialize (Hsec s eq_refl). unfold ut64 in Hsec.
    rewrite u64_id in Hlt by (unfold UT64_MAX; lia). unfold UT64_MAX in Hlt. apply Hfix, Hs32; lia.
  - destruct (r_io_map_get_first_map_in_range _ _ _) as [m|]; [|done].
    destruct (Z.leb_spec len (u64 (map_from m - addr))); intros [= <-]; apply Hfix; [done|].
    apply Hs32; [apply u64_range|done].
Qed.

Lemma safe_read_step st :
  read_inv olen n st -> safe (turn_ok olen n (rs_len st)) (read_step res0 st).
Proof.
  intros Hi. pose proof Hi as [Ha Hw Hs H0 Hb]. destruct st as [addr w len l0 buf].
  unfold read_step. cbn [rs_addr rs_w rs_len rs_l rs_buf] in *.
  destruct (Z.leb_spec len 0); [by apply safely_ret|]. apply safely_state. intros io W. cbv zeta.
  destruct (_ && _ && _).
  { destruct (skip_size io _) as [l|] eqn:E; [|by apply safely_ret].
    pose proof (skip_size_pos _ _ _ W Hi E). apply safely_ret. unfold read_next. simpl.
    split; [split; simpl; try done; lia|lia]. }
  set (l := if _ <? 1 then _ else _).
  assert (1 <= l) as Hl.
  { unfold l. match goal with |- context [?x <? 1] => destruct (Z.ltb_spec x 1) end; lia. }
  clearbody l.
  apply safely_then; [destruct (_ =? UT64_MAX); [apply safe_map_select|by apply safely_ret]|].
  intros paddr. destruct (paddr =? UT64_MAX).
  - apply safely_ret. unfold read_next. simpl. split; [split; simpl; try done; lia|lia].
  - by apply (safe_read_chunk (mkRead addr w len l0 buf)).
Qed.

(** The loop has an outcome, which the bounded loop of the code reaches. *)
Lemma read_loop_outcome st io :
  read_inv olen n st -> io_wf io ->
  exists res io', Loop (read_step res0) st io (Ok res io') /\ io_wf io'
    /\ Z.of_nat (length (snd res)) = n.
Proof.
  intros Hi W. remember (Z.to_nat (Z.max 0 (rs_len st))) as k eqn:Ek.
  revert st io Hi W Ek. induction (lt_wf k) as [k _ IH]. intros st io Hi W ->.
  pose proof (safe_read_step st Hi io W) as H.
  destruct (read_step res0 st io) as [[st'|res] io'|u] eqn:E; [| |done].
  - destruct H as (W' & Hi' & Hlt & Hlt').
    destruct (IH (Z.to_nat (Z.max 0 (rs_len st'))) ltac:(lia) st' io' Hi' W' eq_refl)
      as (res & io2 & HL & ?).
    exists res, io2. split; [|done]. by eapply Loop_turn.
  - destruct H as [W' Hr]. destruct res as [r b]. exists (r, b), io'.
    split; [by apply Loop_exit|done].
Qed.

Lemma read_loop_bound st io :
  read_inv olen n st -> io_wf io -> 0 <= rs_len st ->
  match for_upto (rs_len st + 1) (read_step res0) st io with Ok (inl _) _ => False | _ => True end.
Proof.
  intros Hi W Hlen.
  pose proof (for_upto_measure (fun st io => read_inv olen n st /\ io_wf io)
    (fun st _ => Z.max 0 (rs_len st)) (fun _ _ => True) (read_step res0)) as H.
  specialize (H ltac:(intros st' io' [Hi' W']; pose proof (safe_read_step st' Hi' io' W') as Hs;
    destruct (read_step res0 st' io') as [[st2|r] io2|u]; [|done|done];
    destruct Hs as (? & ? & ? & ?); split; [done|lia]) (rs_len st + 1) st io (conj Hi W) ltac:(simpl; lia)).
  by destruct (for_upto _ _ _ _) as [[]|].
Qed.

Lemma read_loop_ok st io :
  read_inv olen n st -> io_wf io -> 0 <= rs_len st ->
  exists res io', Loop (read_step res0) st io (Ok res io') /\ read_loop res0 st io = Ok res io'
    /\ io_wf io' /\ Z.of_nat (length (snd res)) = n.
Proof.
  intros Hi W Hlen. destruct (read_loop_outcome st io Hi W) as (res & io' & HL & H).
  exists res, io'. split; [done|]. split; [|done]. unfold read_loop.
  pose proof (for_upto_Loop _ (rs_len st + 1) _ _ _ HL) as Hr.
  pose proof (read_loop_bound st io Hi W Hlen) as Hb. rewrite run_bind.
  destruct (for_upto _ _ _ _) as [[st'|res'] io2|u]; [done| |done]. simpl in Hr.
  by injection Hr as -> ->.
Qed.

Lemma safe_read_loop st :
  read_inv olen n st -> 0 <= rs_len st ->
  safe (fun r => Z.of_nat (length (snd r)) = n) (read_loop res0 st).
Proof.
  intros Hi Hl io W. destruct (read_loop_ok st io Hi W Hl) as (res & io' & _ & -> & H). done.
Qed.
End Safe.

Section ReadAt.
Context {P D : Type} {Env : IoPlugin P D}.
Implicit Types io : RIO P D.
Hypothesis read_length : forall p off data buf count,
  length (snd (fst (plugin_read p off data buf count))) = length buf.
Variable heap : gset nat.

(** Outside of the sections the next boundary is ahead. *)
Lemma section_next_ahead io addr :
  Forall (fun s => ut64 (sec_vaddr s)) (io_sections io) -> ut64 addr -> addr <> UT64_MAX ->
  r_io_section_vget io addr = None ->
  addr < r_io_section_next io addr < 2 ^ 64.
Proof.
  unfold r_io_section_vget, r_io_section_next, ut64. intros Hs Ha Hm.
  assert (addr < UT64_MAX < 2 ^ 64) as Hn by (unfold UT64_MAX in *; lia). revert Hn.
  generalize UT64_MAX as newsec. clear Hm.
  induction Hs as [|s l Hs _ IH]; intros newsec Hn Hv; [done|].
  simpl in Hv. destruct (in_vaddr addr s) eqn:Ein; [done|]. simpl. apply IH; [|done].
  unfold section_next_step. apply andb_false_iff in Ein.
  destruct (Z.ltb_spec addr (sec_vaddr s)), (Z.ltb_spec (sec_vaddr s) newsec); simpl;
    destruct (_ && _) eqn:E; try lia;
    apply andb_true_iff in E as [E1%Z.ltb_lt E2%Z.ltb_lt];
    destruct Ein as [Ein%Z.leb_gt|Ein%Z.ltb_ge]; lia.
Qed.

Lemma safe_read_at_from res0 addr buf len :
  ut64 addr -> 0 <= len < 2 ^ 31 -> len <= Z.of_nat (length buf) ->
  forall io, io_wf heap io -> io_buffer_enabled io = false ->
  exists ret buf' io', read_at_from res0 addr buf len io = Ok (ret, buf') io'
    /\ length buf' = length buf /\ io_wf heap io'.
Proof.
  intros Ha Hl Hb io W Hbuf.
  assert (safely (io_wf heap) (fun r => length (snd r) = length buf)
    (if io_raw io then
       ret ← r_io_seek addr R_IO_SEEK_SET;
       buf ← (if ret =? UT64_MAX then poke 0 len (memset (io_Oxff io) len) buf else mret buf);
       r_io_read_internal buf len
     else
       modify (set_io_off addr) ;;
       buf ← poke 0 len (memset (io_Oxff io) len) buf;
       read_loop res0 (mkRead addr 0 len 0 buf))) as H.
  { destruct (io_raw io).
    - apply safely_then; [by apply safe_seek|]. intros ret.
      apply (safely_bind _ (fun b => length b = length buf)).
      + destruct (ret =? UT64_MAX); [|by apply safely_ret].
        apply safe_poke; try lia. intros; apply length_memset.
      + intros b Hb'. rewrite <- Hb'. apply safe_read_internal; [done|lia].
    - apply safely_then; [by apply safe_set|]. intros _.
      apply (safely_bind _ (fun b => length b = length buf)).
      + apply safe_poke; try lia. intros; apply length_memset.
      + intros b Hb'. eapply safely_weaken.
        * apply (safe_read_loop read_length heap len (Z.of_nat (length buf)) res0); try lia;
            [|simpl; lia]. split; simpl; try done; lia.
        * intros r Hr. simpl in Hr. lia. }
  match type of H with safely _ _ ?m => set (m0 := m) in H end.
  assert (read_at_from res0 addr buf len io = m0 io) as ->
    by (unfold read_at_from, m0; mrun; rewrite Hbuf; by destruct (io_raw io)).
  specialize (H io W). destruct (m0 io) as [[ret b] io'|u]; [|done]. destruct H. by exists ret, b, io'.
Qed.

End ReadAt.

(** *** The memory device is such a plugin *)

Lemma malloc_read_length p off data buf count :
  length (snd (fst (plugin_read (IoPlugin := malloc_plugin) p off data buf count))) = length buf.
Proof.
  simpl. unfold malloc__read. destruct data as [m|]; [|apply length_memset].
  destruct (_ <? _); [apply length_memset|]. simpl. by rewrite length_blit, length_memset.
Qed.

(** A device of 32 bytes mapped twice, in part. *)
Definition demo_device : RIODesc io_plugins (option RIOMalloc) :=
  mkDesc _ _ 3 7 r_io_plugin_malloc (Some (mkMalloc (map Z.of_nat (seq 0 32)) 32 0)).
Definition demo_safe_io : MRIO :=
  set_io_maps [mkMap 3 7 0 0x100 0x110; mkMap 3 7 8 0x118 0x128]
    (set_io_files [0%nat] (set_io_descs {[0%nat := demo_device]}
      (set_io_plugin (Some r_io_plugin_malloc) (set_io_desc (Some 0%nat) io_zero)))).

