(* ===== verification/IoMemory.v ===== *)
(** * A mapped memory device is a memory

    A layer with one memory device mapped at an address, as [r_io_open_at]
    leaves it, read and written through [r_io_read_at] and [r_io_write_at],
    with the cache of writes or without. *)

From S2P Require Import Prelude IoState IoSection IoMap IoUndo IoCore IoMalloc IoWrite IoCache.

Lemma blit_memset src x len buf :
  Z.of_nat (length src) = len -> blit src (memset x len buf) = blit src buf.
Proof.
  intros <-. unfold blit. rewrite length_memset. f_equal. unfold memset, blit.
  rewrite length_replicate, Nat2Z.id. rewrite <- (take_drop (length src) buf) at 3.
  destruct (decide (length src <= length buf)%nat).
  - rewrite drop_app_length'; [|rewrite length_take, length_replicate; lia].
    rewrite take_drop. done.
  - rewrite !(drop_ge buf) by lia. rewrite app_nil_r, drop_ge; [by rewrite app_nil_r, drop_ge by (rewrite length_take; lia)|].
    rewrite length_take. lia.
Qed.

Lemma poke_0 len g buf (s : MRIO) :
  0 <= len <= Z.of_nat (length buf) -> poke 0 len g buf s = Ok (g buf) s.
Proof.
  intros Hl. unfold poke. replace ((0 <? 0) || _ || _) with false by lia. mrun.
  unfold at_offset. simpl. by rewrite drop_0.
Qed.

Section Memory.
(** The descriptor, its number, the place of the map and its size. *)
Variables (d : nat) (fd base size : Z).
Hypothesis fd_pos : 0 <= fd.
Hypothesis base_pos : 0 <= base.
Hypothesis size_int : 0 <= size < 2 ^ 31.
Hypothesis map_fits : base + size < 2 ^ 64.

Implicit Types io : MRIO.

Definition rio_desc (dflags : Z) (mem : list Z) (pos : Z) : RIODesc io_plugins (option RIOMalloc) :=
  mkDesc _ _ fd dflags r_io_plugin_malloc (Some (mkMalloc mem size pos)).

(** The contents of the device. *)
Definition rio_mem io : list Z :=
  match io_descs io !! d with
  | Some x => match d_data x with Some m => m_buf m | None => [] end
  | None => []
  end.

Record rio_ready io : Prop := {
  rr_vio : io_vio io = false;
  rr_raw : io_raw io = false;
  rr_buffer : io_buffer_enabled io = false;
  rr_debug : io_debug io = false;
  rr_sections : io_sections io = [];
  rr_rwx : io_enforce_rwx io = 0;
  rr_mask : io_write_mask_fd io = -1;
  rr_desc : io_desc io = Some d;
  rr_plugin : io_plugin io = Some r_io_plugin_malloc;
  rr_files : io_files io = [d];
  rr_map : exists flags, io_maps io = [mkMap fd flags 0 base (base + size)];
  rr_device : exists dflags pos, io_descs io !! d = Some (rio_desc dflags (rio_mem io) pos);
  rr_size : Z.of_nat (length (rio_mem io)) = size;
  rr_mem : bytes (rio_mem io);
  rr_cached : io_cached io = 0 \/ io_cached io = 1;
  rr_cache : Forall (fun c => cache_ok c /\ bytes (c_data c)) (io_cache io);
}.

(** The memory that the layer stands for. *)
Definition rio_byte io (x : Z) : Z :=
  if (base <=? x) && (x <? base + size) then
    let b := byte_at (rio_mem io) (Z.to_nat (x - base)) in
    if io_cached io =? 0 then b else default b (cache_byte (io_cache io) x)
  else 0.

(** A new content and position of the device, and a new position of the
    layer. *)
Definition rio_at dflags mem pos off io : MRIO :=
  set_io_off off (set_io_descs (<[d := rio_desc dflags mem pos]> (io_descs io)) io).

Lemma rio_at_at f1 m1 p1 o1 f2 m2 p2 o2 io :
  rio_at f2 m2 p2 o2 (rio_at f1 m1 p1 o1 io) = rio_at f2 m2 p2 o2 io.
Proof. unfold rio_at. simpl. by rewrite insert_insert_eq. Qed.

Lemma rio_at_mem f m p o io : rio_mem (rio_at f m p o io) = m.
Proof. unfold rio_mem, rio_at. simpl. by rewrite lookup_insert_eq. Qed.

Lemma rio_at_ready f m p o io :
  rio_ready io -> Z.of_nat (length m) = size -> bytes m -> rio_ready (rio_at f m p o io).
Proof.
  intros [] Hm Hb. split; rewrite ?rio_at_mem; try done.
  exists f, p. unfold rio_at. simpl. by rewrite lookup_insert_eq.
Qed.

(** *** Descriptors *)

Lemma ready_fd io : rio_ready io -> r_io_desc_get io fd = Some d.
Proof.
  intros R. unfold r_io_desc_get. rewrite (rr_files _ R). destruct (Z.ltb_spec fd 0); [lia|].
  destruct (rr_device _ R) as (f & p & E). simpl. rewrite E. simpl. by rewrite Z.eqb_refl.
Qed.

Lemma ready_use_fd io : rio_ready io -> r_io_use_fd fd io = Ok (Some d) io.
Proof.
  intros R. unfold r_io_use_fd. mrun. rewrite (ready_fd _ R). unfold r_io_use_desc, get_desc. mrun.
  destruct (rr_device _ R) as (f & p & E). rewrite E. mrun.
  pose proof (rr_desc _ R) as E1. pose proof (rr_plugin _ R) as E2. destruct io; simpl in *. by subst.
Qed.

(** Every ready layer is in the form that the operations produce. *)
Lemma ready_normal io :
  rio_ready io -> exists f p, io = rio_at f (rio_mem io) p (io_off io) io.
Proof.
  intros R. destruct (rr_device _ R) as (f & p & E). exists f, p. unfold rio_at.
  rewrite insert_id by done. by destruct io.
Qed.

Section At.
Variables (f : Z) (m : list Z) (io : MRIO).
Hypothesis ready : rio_ready io.
Hypothesis mem_size : Z.of_nat (length m) = size.
Hypothesis mem_bytes : bytes m.

Lemma at_ready p o : rio_ready (rio_at f m p o io).
Proof. by apply rio_at_ready. Qed.

Lemma at_device p o : io_descs (rio_at f m p o io) !! d = Some (rio_desc f m p).
Proof. unfold rio_at. simpl. by rewrite lookup_insert_eq. Qed.

Lemma at_put p p' o m' :
  set_io_descs (<[d := set_d_data (Some (mkMalloc m' size p')) (rio_desc f m p)]>
                  (io_descs (rio_at f m p o io))) (rio_at f m p o io)
  = rio_at f m' p' o io.
Proof. unfold rio_at. simpl. by rewrite insert_insert_eq. Qed.

Lemma at_put_data p o p' m' :
  put_data d (Some (mkMalloc m' size p')) (rio_at f m p o io) = Ok tt (rio_at f m' p' o io).
Proof.
  unfold put_data, get_desc. mrun. rewrite at_device. mrun. by rewrite at_put.
Qed.

Lemma at_get_desc p o : get_desc d (rio_at f m p o io) = Ok (rio_desc f m p) (rio_at f m p o io).
Proof. unfold get_desc. mrun. by rewrite at_device. Qed.

Lemma at_seek p o' o :
  0 <= o < UT64_MAX ->
  r_io_seek o R_IO_SEEK_SET (rio_at f m p o' io) = Ok (Z.min o size) (rio_at f m (Z.min o size) o io).
Proof.
  intros Ho. pose proof (at_ready p o') as R. unfold r_io_seek. mrun. rewrite (rr_buffer _ R).
  assert (seek_offset (rio_at f m p o' io) o = o) as ->.
  { unfold seek_offset, section_empty. rewrite (rr_sections _ R). by rewrite andb_false_r. }
  rewrite (rr_desc _ R), (rr_plugin _ R). destruct (Z.eqb_spec o UT64_MAX); [lia|]. mrun.
  unfold call_lseek. rewrite !run_bind, at_get_desc. mrun. cbn [d_data d_plugin rio_desc plugin_lseek malloc_plugin].
  unfold malloc__lseek. rewrite Z.eqb_refl. cbn [m_size m_buf].
  assert ((if o <=? size then o else size) = Z.min o size) as -> by (destruct (Z.leb_spec o size); lia).
  rewrite run_bind, at_put_data. mrun. reflexivity.
Qed.

Lemma at_seek_max p o : r_io_seek UT64_MAX R_IO_SEEK_SET (rio_at f m p o io) = Ok UT64_MAX (rio_at f m p o io).
Proof.
  pose proof (at_ready p o) as R. unfold r_io_seek. mrun. rewrite (rr_buffer _ R).
  assert (seek_offset (rio_at f m p o io) UT64_MAX = UT64_MAX) as ->.
  { unfold seek_offset, section_empty. rewrite (rr_sections _ R). by rewrite andb_false_r. }
  by rewrite (rr_desc _ R).
Qed.

Lemma at_select_from p o off flags :
  base <= off < base + size ->
  map_select_from off 0 off (-1) false [mkMap fd flags 0 base (base + size)] (rio_at f m p o io)
  = Ok (off - base, fd, true) (rio_at f m p o io).
Proof.
  intros Hoff. cbn [map_select_from map_from map_fd map_delta].
  replace ((base <=? off) && _) with true by lia.
  rewrite !run_bind, ready_use_fd by apply at_ready. mrun.
  replace (in_map off _) with true by (unfold in_map; simpl; lia).
  rewrite Z.add_0_r, u64_id by lia. mrun. by destruct (fd =? _).
Qed.

Lemma at_map_select p o off :
  base <= off < base + size ->
  r_io_map_select off (rio_at f m p o io)
  = Ok (off - base) (rio_at f m (off - base) (off - base) io).
Proof.
  intros Hoff. pose proof (at_ready p o) as R. unfold r_io_map_select. mrun.
  destruct (rr_map _ R) as [flags Em]. rewrite Em, at_select_from by done.
  cbv beta iota. change (negb true) with false. cbv iota. destruct (Z.eqb_spec fd (-1)); [lia|].
  rewrite run_bind, (ready_use_fd _ R). mrun. rewrite (rr_debug _ R).
  rewrite at_seek by (unfold UT64_MAX; lia).
  rewrite run_bind, ready_use_fd by apply at_ready. mrun. do 2 f_equal. lia.
Qed.

Lemma at_read_internal p o buf len :
  0 <= p -> 0 <= len -> p + len <= size -> len <= Z.of_nat (length buf) ->
  r_io_read_internal buf len (rio_at f m p o io)
  = Ok (len, blit (take (Z.to_nat len) (drop (Z.to_nat p) m)) buf) (rio_at f m p o io).
Proof.
  intros Hp Hl Hpl Hb. pose proof (at_ready p o) as R. unfold r_io_read_internal. mrun.
  rewrite (rr_desc _ R), run_bind, at_get_desc. unfold call_read.
  replace ((len <? 0) || _) with false by lia. rewrite run_bind, at_get_desc. mrun.
  cbn [d_plugin rio_desc d_data plugin_read malloc_plugin]. unfold malloc__read. cbn [m_size m_offset m_buf].
  destruct (Z.ltb_spec size p); [lia|]. rewrite u64_id by lia.
  assert ((if size <=? p + len then s32 (size - p) else len) = len) as ->.
  { destruct (Z.leb_spec size (p + len)); [|done]. unfold s32. rewrite swrap_id by lia. lia. }
  rewrite run_bind, at_put_data. mrun. rewrite blit_memset; [done|].
  rewrite length_take, length_drop. lia.
Qed.

(** *** A read *)

Lemma at_exists p o a : base <= a < base + size -> address_exists (rio_at f m p o io) a = true.
Proof.
  intros Ha. destruct (rr_map _ (at_ready p o)) as [flags Em]. unfold address_exists.
  assert (r_io_map_exists_for_offset (rio_at f m p o io) a = true) as ->; [|apply orb_true_r].
  unfold r_io_map_exists_for_offset. rewrite Em. simpl.
  by replace (in_map a _) with true by (unfold in_map; simpl; lia).
Qed.

Lemma at_count p o : r_io_map_count (rio_at f m p o io) = 1.
Proof. destruct (rr_map _ (at_ready p o)) as [flags Em]. unfold r_io_map_count. by rewrite Em. Qed.

Lemma at_cached p o : io_cached (rio_at f m p o io) = io_cached io.
Proof. reflexivity. Qed.

Definition device_bytes (addr len : Z) : list Z :=
  take (Z.to_nat len) (drop (Z.to_nat (addr - base)) m).
Definition read_result (addr len : Z) (buf : list Z) : list Z :=
  let b := blit (device_bytes addr len) buf in
  if io_cached io =? 0 then b else snd (r_io_cache_read io addr b len).

Lemma at_step_size p o addr len l buf :
  base <= addr -> 0 < len -> addr + len <= base + size ->
  step_size (rio_at f m p o io) (mkRead addr 0 len l buf) = len.
Proof.
  intros Ha Hl Hal. pose proof (at_ready p o) as R. unfold step_size, r_io_section_next.
  rewrite (rr_sections _ R). cbn [foldl]. rewrite !Z.add_0_r, (u64_id addr) by lia.
  destruct (Z.eqb_spec UT64_MAX addr); [unfold UT64_MAX in *; lia|].
  rewrite u64_id by (unfold UT64_MAX; lia).
  destruct (Z.ltb_spec (UT64_MAX - addr) len); [unfold UT64_MAX in *; lia|done].
Qed.

Lemma at_read_chunk p o addr len l buf olen :
  base <= addr -> 0 < len -> addr + len <= base + size -> len <= Z.of_nat (length buf) ->
  exists p' o',
    read_chunk olen (mkRead addr 0 len l buf) addr len (rio_at f m p o io)
    = Ok (inl (mkRead addr len 0 len (read_result addr len buf))) (rio_at f m p' o' io).
Proof.
  intros Ha Hl Hal Hb. unfold read_chunk. rewrite run_bind, at_map_select by lia. cbv beta iota zeta.
  replace ((0 <? len) && (len <? len)) with false by lia. mrun.
  rewrite Z.sub_0_r, u64_id by lia. rewrite at_seek by (unfold UT64_MAX; lia).
  destruct (Z.eqb_spec (Z.min addr size) UT64_MAX); [unfold UT64_MAX in *; lia|]. mrun.
  rewrite Z.add_0_r, u64_id by lia. rewrite at_map_select by lia. mrun.
  unfold at_ptr. replace ((0 <? 0) || _) with false by lia. mrun.
  change (Z.to_nat 0) with 0%nat. rewrite drop_0, take_0, at_read_internal by lia. mrun.
  destruct (Z.ltb_spec len 1); [lia|]. mrun. rewrite Z.ltb_irrefl, at_cached.
  change (rio_mem io) with (rio_mem io). exists (addr - base), (addr - base).
  unfold read_result, z2b. fold (device_bytes addr len).
  destruct (io_cached io =? 0) eqn:Ec.
  - change (negb true) with false. cbv iota. rewrite at_count.
    change ((1 <? 1) && _ && _) with false. cbv iota. unfold read_done. rewrite Z.sub_diag. by mrun.
  - change (negb false) with true. cbv iota.
    rewrite run_bind, poke_0 by (rewrite length_app, length_blit; simpl; lia).
    unfold read_done. rewrite Z.sub_diag. mrun. reflexivity.
Qed.

Lemma at_read_at p o addr buf len :
  base <= addr -> 0 < len -> addr + len <= base + size -> len <= Z.of_nat (length buf) ->
  exists p' o', r_io_read_at addr buf len (rio_at f m p o io)
    = Ok (len, read_result addr len (memset (io_Oxff io) len buf)) (rio_at f m p' o' io).
Proof.
  intros Ha Hl Hal Hb. pose proof (at_ready p o) as R. unfold r_io_read_at. mrun.
  destruct (Z.ltb_spec len 0); [lia|]. rewrite (rr_vio _ R). unfold section_empty.
  rewrite (rr_sections _ R), andb_false_r. cbn [andb]. cbv iota.
  unfold read_at_from. mrun. rewrite (rr_raw _ R). mrun. rewrite poke_0 by lia.
  cbv beta iota. rewrite (rr_buffer _ R).
  change (set_io_off addr (rio_at f m p o io)) with (rio_at f m p addr io).
  set (b0 := memset _ len buf).
  assert (length b0 = length buf) as Hb0 by apply length_memset.
  destruct (at_read_chunk p addr addr len len b0 len) as (p' & o' & E); try lia.
  exists p', o'. unfold read_loop. cbn [rs_len].
  rewrite run_bind, (for_upto_second _ _ _ _ (mkRead addr len 0 len (read_result addr len b0))
    (rio_at f m p' o' io) (len, read_result addr len b0) (rio_at f m p' o' io)); [by mrun| |reflexivity|lia].
  unfold read_step. destruct (Z.leb_spec len 0); [lia|]. mrun.
  rewrite Z.add_0_r, (u64_id addr), (u64_id (addr + len)), at_exists by lia.
  replace (addr <? addr + len) with true by lia. cbn [andb negb]. cbv iota.
  rewrite at_step_size by lia. destruct (Z.ltb_spec len 1); [lia|].
  destruct (Z.eqb_spec addr UT64_MAX); [unfold UT64_MAX in *; lia|].
  change (0 =? 0) with true. cbv iota. destruct (Z.eqb_spec addr UT64_MAX); [done|]. mrun.
  destruct (Z.eqb_spec addr UT64_MAX); [done|].
  exact E.
Qed.

Lemma length_device_bytes addr len :
  base <= addr -> 0 <= len -> addr + len <= base + size -> Z.of_nat (length (device_bytes addr len)) = len.
Proof. intros. unfold device_bytes. rewrite length_take, length_drop. lia. Qed.

Lemma read_result_memset addr len x buf :
  base <= addr -> 0 <= len -> addr + len <= base + size ->
  read_result addr len (memset x len buf) = read_result addr len buf.
Proof. intros. unfold read_result. by rewrite blit_memset by by apply length_device_bytes. Qed.

(** *** A write *)

Lemma at_map_get p o a :
  base <= a < base + size ->
  exists flags, r_io_map_get (rio_at f m p o io) a = Some (mkMap fd flags 0 base (base + size)).
Proof.
  intros Ha. destruct (rr_map _ (at_ready p o)) as [flags Em]. exists flags. unfold r_io_map_get.
  rewrite Em. simpl. replace (in_map a _) with true by (unfold in_map; simpl; lia).
  by rewrite orb_true_r.
Qed.

(** The device after a write. *)
Definition write_device (addr len : Z) (buf : list Z) : list Z :=
  at_offset (Z.to_nat (addr - base)) (blit (take (Z.to_nat len) buf)) m.

Lemma at_write_selected addr buf len :
  base <= addr -> 0 < len -> addr + len <= base + size -> len <= Z.of_nat (length buf) ->
  write_selected buf len (rio_at f m (addr - base) (addr - base) io)
  = Ok len (rio_at f (write_device addr len buf) (addr - base + len) (addr - base + len) io).
Proof.
  intros Ha Hl Hal Hb. pose proof (at_ready (addr - base) (addr - base)) as R.
  unfold write_selected. mrun. rewrite (rr_plugin _ R), (rr_desc _ R). unfold call_write.
  replace (Z.of_nat (length buf) <? len) with false by lia.
  rewrite run_bind, at_get_desc. mrun. cbn [d_data rio_desc plugin_write malloc_plugin].
  unfold malloc__write. cbn [m_size m_offset m_buf]. destruct (Z.ltb_spec len 0); [lia|].
  destruct (Z.ltb_spec size (addr - base)); [lia|]. rewrite u64_id by lia.
  destruct (Z.ltb_spec size (addr - base + len)); [lia|]. destruct (Z.ltb_spec 0 len); [|lia].
  fold (write_device addr len buf). rewrite run_bind, at_put_data. mrun.
  destruct (Z.eqb_spec len (-1)); [lia|].
  rewrite u64_id by lia. set (io1 := rio_at f (write_device addr len buf) _ _ io).
  assert (get_desc d io1 = Ok (rio_desc f (write_device addr len buf) (addr - base + len)) io1) as Eg
    by (unfold get_desc; mrun; unfold io1, rio_at; simpl; by rewrite lookup_insert_eq).
  change (io_desc io1) with (io_desc io). rewrite (rr_desc _ ready). mrun. rewrite Eg. mrun.
  cbn [d_fd rio_desc]. unfold r_io_map_write_update. mrun. destruct (rr_map _ ready) as [flags Em].
  assert (r_io_map_resolve io1 fd = Some (mkMap fd flags 0 base (base + size))) as ->.
  { unfold r_io_map_resolve, r_io_map_resolve_from_list. change (io_maps io1) with (io_maps io).
    rewrite Em. simpl. by rewrite Z.eqb_refl. }
  cbn [map_to]. change (io_off io1) with (addr - base). rewrite u64_id by lia.
  destruct (Z.ltb_spec (base + size) (addr - base + len)); [lia|]. mrun.
  change (io_off io1) with (addr - base). by rewrite u64_id by lia.
Qed.

(** Without the cache a write goes to the device. *)
Lemma at_write_device p o addr buf len :
  io_cached io = 0 -> base <= addr -> 0 < len -> addr + len <= base + size ->
  len <= Z.of_nat (length buf) ->
  r_io_write_at addr buf len (rio_at f m p o io)
  = Ok len (rio_at f (write_device addr len buf) (addr - base + len) (addr - base + len) io).
Proof.
  intros Hc Ha Hl Hal Hb. unfold r_io_write_at. mrun. rewrite at_cached, Hc. change (z2b 0) with false.
  cbv iota. rewrite run_bind, at_seek by (unfold UT64_MAX; lia). cbv beta iota.
  set (p1 := Z.min addr size). pose proof (at_ready p1 addr) as R.
  unfold r_io_write. mrun. rewrite (rr_rwx _ R). change (z2b (Z.land 0 R_IO_WRITE)) with false.
  cbn [andb]. cbv iota. rewrite at_cached, Hc. change (z2b 0) with false. mrun. cbn [andb]. cbv iota.
  change (0 <? -1) with false. cbv iota. rewrite Z.sub_0_r. change (Z.to_nat 0) with 0%nat. rewrite drop_0.
  unfold masked. mrun. rewrite (rr_mask _ R). change (-1 =? -1) with true. cbv iota. mrun.
  change (io_off (rio_at f m p1 addr io)) with addr. rewrite at_map_select by lia. mrun.
  change (set_io_off addr (rio_at f m (addr - base) (addr - base) io)) with (rio_at f m (addr - base) addr io).
  destruct (at_map_get (addr - base) addr addr) as [flags ->]; [lia|]. mrun. cbn [map_from].
  rewrite u64_id by lia.
  change (set_io_off (addr - base) (rio_at f m (addr - base) addr io))
    with (rio_at f m (addr - base) (addr - base) io).
  by apply at_write_selected.
Qed.

Lemma at_read_any p o buf len :
  0 <= len <= Z.of_nat (length buf) ->
  exists r, r_io_read_internal buf len (rio_at f m p o io) = Ok r (rio_at f m p o io).
Proof.
  intros Hl. pose proof (at_ready p o) as R. unfold r_io_read_internal. mrun.
  rewrite (rr_desc _ R), run_bind, at_get_desc. unfold call_read.
  replace ((len <? 0) || _) with false by lia. rewrite run_bind, at_get_desc. mrun.
  cbn [d_plugin rio_desc d_data plugin_read malloc_plugin].
  destruct (malloc__read _ buf len) as [ret b]. exists (ret, b).
  by rewrite run_bind, at_put_data.
Qed.

(** With the cache a write becomes its last entry. *)
Lemma at_write_cached p o addr buf len :
  io_cached io = 1 -> base <= addr -> 0 < len -> addr + len <= base + size ->
  len <= Z.of_nat (length buf) ->
  exists p' o' odata, r_io_write_at addr buf len (rio_at f m p o io)
    = Ok len (rio_at f m p' o'
        (set_io_cache (io_cache io ++ [mkCache addr (addr + len) len (take (Z.to_nat len) buf) odata false]) io)).
Proof.
  intros Hc Ha Hl Hal Hb. rewrite write_at_cached by (rewrite at_cached, Hc; lia).
  unfold r_io_cache_write. mrun. rewrite at_cached, Hc. change (1 =? 2) with false. cbv iota.
  destruct (Z.ltb_spec len 0); [lia|]. replace (Z.of_nat (length buf) <? len) with false by lia.
  rewrite run_bind, at_seek by (unfold UT64_MAX; lia). cbv beta iota zeta.
  destruct (Z.eqb_spec (Z.min addr size) UT64_MAX); [unfold UT64_MAX in *; lia|].
  mrun. destruct (at_read_any (Z.min addr size) addr (malloc_bytes len) len) as [[ret odata] E].
  { unfold malloc_bytes. rewrite length_map, length_seq. lia. }
  rewrite E. mrun. rewrite u64_id by lia. exists (Z.min addr size), addr, odata.
  reflexivity.
Qed.
End At.

(** *** What a read gives *)

Definition rio_bytes io (addr len : Z) : list Z := map (fun i => rio_byte io (addr + i)) (seqZ 0 len).

Lemma rio_bytes_lookup io addr len (i : nat) :
  Z.of_nat i < len -> rio_bytes io addr len !! i = Some (rio_byte io (addr + Z.of_nat i)).
Proof. intros Hi. unfold rio_bytes. rewrite list_lookup_fmap, lookup_seqZ_lt by lia. done. Qed.

Lemma length_rio_bytes io addr len : 0 <= len -> Z.of_nat (length (rio_bytes io addr len)) = len.
Proof. intros. unfold rio_bytes. rewrite length_map, length_seqZ. lia. Qed.

Lemma device_bytes_lookup m addr len (i : nat) :
  Z.of_nat (length m) = size -> base <= addr -> addr + len <= base + size -> Z.of_nat i < len ->
  device_bytes m addr len !! i = Some (byte_at m (Z.to_nat (addr + Z.of_nat i - base))).
Proof.
  intros Hm Ha Hal Hi. unfold device_bytes, byte_at. rewrite lookup_take_lt, lookup_drop by lia.
  replace (Z.to_nat (addr - base) + i)%nat with (Z.to_nat (addr + Z.of_nat i - base)) by lia.
  destruct (lookup_lt_is_Some_2 m (Z.to_nat (addr + Z.of_nat i - base))) as [x ->]; [lia|done].
Qed.

Lemma rio_byte_in io x :
  base <= x < base + size ->
  rio_byte io x = (let b := byte_at (rio_mem io) (Z.to_nat (x - base)) in
                   if io_cached io =? 0 then b else default b (cache_byte (io_cache io) x)).
Proof. intros Hx. unfold rio_byte. by replace ((base <=? x) && _) with true by lia. Qed.

Lemma rio_byte_is_byte io x : rio_ready io -> is_byte (rio_byte io x).
Proof.
  intros R. unfold rio_byte. destruct (_ && _); [|unfold is_byte; lia].
  pose proof (byte_at_range (rio_mem io) (Z.to_nat (x - base)) (rr_mem _ R)).
  simpl. destruct (_ =? 0); [done|].
  destruct (cache_byte (io_cache io) x) as [b|] eqn:E; [|done]. simpl.
  eapply cache_byte_is_byte; [|exact E].
  eapply Forall_impl; [apply (rr_cache _ R)|]. by intros c [].
Qed.

Lemma rio_bytes_bytes io addr len : rio_ready io -> bytes (rio_bytes io addr len).
Proof.
  intros R. apply Forall_forall. intros x Hx. apply list_elem_of_fmap in Hx as (i & -> & _).
  by apply rio_byte_is_byte.
Qed.

Lemma read_result_bytes io addr len buf :
  rio_ready io -> base <= addr -> 0 < len -> addr + len <= base + size ->
  len <= Z.of_nat (length buf) ->
  read_result (rio_mem io) io addr len buf = blit (rio_bytes io addr len) buf.
Proof.
  intros R Ha Hl Hal Hb. pose proof (rr_size _ R) as Hs.
  assert (Forall cache_ok (io_cache io)) as Hc
    by (eapply Forall_impl; [apply (rr_cache _ R)|]; by intros c []).
  pose proof (length_rio_bytes io addr len ltac:(lia)) as Hlr.
  pose proof (length_device_bytes (rio_mem io) Hs addr len Ha ltac:(lia) Hal) as Hld.
  apply list_eq. intros i. unfold read_result. destruct (io_cached io =? 0) eqn:Ec.
  - rewrite !blit_lookup. replace (length (device_bytes _ _ _)) with (length (rio_bytes io addr len)) by lia.
    case_decide; [|done]. case_decide; [|done].
    rewrite (device_bytes_lookup _ _ len), rio_bytes_lookup, rio_byte_in by lia. by rewrite Ec.
  - unfold r_io_cache_read. replace (len <? 0) with false by lia.
    rewrite cache_fold_overlay by (rewrite ?length_blit; try done; lia).
    rewrite overlay_lookup, !blit_lookup.
    replace (length (device_bytes _ _ _)) with (length (rio_bytes io addr len)) by lia.
    case_decide; [|destruct (buf !! i); simpl; [|done]; by replace (Z.of_nat i <? len) with false by lia].
    case_decide; [|done].
    rewrite (device_bytes_lookup _ _ len), rio_bytes_lookup, rio_byte_in by lia. rewrite Ec. simpl.
    by replace (Z.of_nat i <? len) with true by lia.
Qed.

Lemma rio_byte_at f p o io x : rio_byte (rio_at f (rio_mem io) p o io) x = rio_byte io x.
Proof. unfold rio_byte. rewrite rio_at_mem. done. Qed.

(** A read moves the positions of the device and of the layer only. *)
Lemma rio_read_form io addr buf len :
  rio_ready io -> base <= addr -> 0 < len -> addr + len <= base + size ->
  len <= Z.of_nat (length buf) ->
  exists f p o, r_io_read_at addr buf len io
    = Ok (len, blit (rio_bytes io addr len) buf) (rio_at f (rio_mem io) p o io).
Proof.
  intros R Ha Hl Hal Hb. destruct (ready_normal io R) as (f & p & E).
  pose proof (rr_size _ R) as Hs. pose proof (rr_mem _ R) as Hm.
  destruct (at_read_at f (rio_mem io) io R Hs Hm p (io_off io) addr buf len) as (p' & o' & Er); try lia.
  rewrite <- E in Er. exists f, p', o'.
  by rewrite Er, read_result_memset, read_result_bytes by (done || lia).
Qed.

Lemma rio_read_ok io addr buf len :
  rio_ready io -> base <= addr -> 0 <= len -> addr + len <= base + size ->
  len <= Z.of_nat (length buf) ->
  exists io', r_io_read_at addr buf len io = Ok (len, blit (rio_bytes io addr len) buf) io'
    /\ rio_ready io' /\ forall x, rio_byte io' x = rio_byte io x.
Proof.
  intros R Ha Hl Hal Hb.
  destruct (decide (len = 0)) as [->|Hl0].
  - exists (set_io_off addr io). split; [|split; [destruct R; by split|done]].
    unfold r_io_read_at. mrun. change (0 <? 0) with false. rewrite (rr_vio _ R). unfold section_empty.
    rewrite (rr_sections _ R), andb_false_r. cbn [andb]. cbv iota.
    unfold read_at_from. mrun. rewrite (rr_raw _ R). mrun. rewrite poke_0 by lia. cbv beta iota.
    rewrite (rr_buffer _ R). unfold read_loop. cbn [rs_len].
    change (memset (io_Oxff io) 0 buf) with (blit [] buf).
    change (rio_bytes io addr 0) with (@nil Z). rewrite blit_nil. reflexivity.
  - destruct (rio_read_form io addr buf len) as (f & p & o & E); try done; [lia|].
    eexists. split; [exact E|]. split; [|intros x; apply rio_byte_at].
    apply rio_at_ready; [done|apply (rr_size _ R)|apply (rr_mem _ R)].
Qed.

(** *** What a write leaves *)

Lemma write_device_lookup m addr len buf (i : nat) :
  Z.of_nat (length m) = size -> base <= addr -> 0 <= len -> addr + len <= base + size ->
  len <= Z.of_nat (length buf) -> (i < length m)%nat ->
  write_device m addr len buf !! i
  = if (addr <=? base + Z.of_nat i) && (base + Z.of_nat i <? addr + len)
    then buf !! Z.to_nat (base + Z.of_nat i - addr) else m !! i.
Proof.
  intros Hm Ha Hl Hal Hb Hi. unfold write_device.
  rewrite at_offset_blit_lookup by (rewrite length_take; lia). rewrite length_take. case_decide.
  - replace ((addr <=? _) && _) with true by lia. rewrite lookup_take_lt by lia. f_equal. lia.
  - by replace ((addr <=? _) && _) with false by lia.
Qed.

Lemma length_write_device m addr len buf : length (write_device m addr len buf) = length m.
Proof. apply length_at_offset. intros; apply length_blit. Qed.

Lemma write_device_bytes m addr len buf :
  bytes m -> bytes buf -> bytes (write_device m addr len buf).
Proof.
  intros Hm Hb. unfold write_device, at_offset. apply Forall_app.
  split; [by apply Forall_take|]. apply blit_bytes; [by apply Forall_take|by apply Forall_drop].
Qed.

Lemma byte_at_write m addr len buf x :
  Z.of_nat (length m) = size -> base <= addr -> 0 <= len -> addr + len <= base + size ->
  len <= Z.of_nat (length buf) -> base <= x < base + size ->
  byte_at (write_device m addr len buf) (Z.to_nat (x - base))
  = if (addr <=? x) && (x <? addr + len) then byte_at buf (Z.to_nat (x - addr))
    else byte_at m (Z.to_nat (x - base)).
Proof.
  intros Hm Ha Hl Hal Hb Hx. unfold byte_at. rewrite write_device_lookup by (done || lia).
  replace (base + Z.of_nat (Z.to_nat (x - base))) with x by lia. by destruct (_ && _).
Qed.

Definition with_cached c io : MRIO := set_io_cache (io_cache io ++ [c]) io.

Lemma with_cached_ready c io :
  rio_ready io -> cache_ok c -> bytes (c_data c) -> rio_ready (with_cached c io).
Proof.
  intros [] Hc Hb. split; try done. apply Forall_app. split; [done|]. by apply Forall_singleton.
Qed.

Lemma rio_write_ok io addr buf len :
  rio_ready io -> base <= addr -> 0 < len -> addr + len <= base + size ->
  len <= Z.of_nat (length buf) -> bytes buf ->
  exists io', r_io_write_at addr buf len io = Ok len io' /\ rio_ready io'
    /\ forall x, rio_byte io' x
         = if (addr <=? x) && (x <? addr + len) then byte_at buf (Z.to_nat (x - addr)) else rio_byte io x.
Proof.
  intros R Ha Hl Hal Hb Hbb. destruct (ready_normal io R) as (f & p & E).
  pose proof (rr_size _ R) as Hs. pose proof (rr_mem _ R) as Hm.
  assert (forall x, (addr <=? x) && (x <? addr + len) = true -> base <= x < base + size) as Hin by lia.
  destruct (rr_cached _ R) as [Hc|Hc].
  - pose proof (at_write_device f (rio_mem io) io R Hs Hm p (io_off io) addr buf len Hc Ha Hl Hal Hb) as Ew.
    rewrite <- E in Ew. eexists. split; [exact Ew|]. split.
    { apply rio_at_ready; [done| |by apply write_device_bytes]. by rewrite length_write_device. }
    intros x. unfold rio_byte at 1. rewrite rio_at_mem. change (io_cached (rio_at _ _ _ _ _)) with (io_cached io).
    rewrite Hc. cbn [Z.eqb]. destruct ((base <=? x) && (x <? base + size)) eqn:Ex.
    + rewrite byte_at_write by (done || lia). rewrite rio_byte_in, Hc by lia. done.
    + destruct ((addr <=? x) && _) eqn:Ea; [apply Hin in Ea; lia|]. unfold rio_byte. by rewrite Ex.
  - destruct (at_write_cached f (rio_mem io) io R Hs Hm p (io_off io) addr buf len Hc Ha Hl Hal Hb)
      as (p' & o' & odata & Ew). rewrite <- E in Ew. eexists. split; [exact Ew|].
    set (c := mkCache _ _ _ _ _ _). fold (with_cached c io).
    assert (cache_ok c) as Hck by (split; simpl; rewrite ?length_take; lia).
    assert (rio_ready (with_cached c io)) as R'
      by (apply with_cached_ready; [done|done|by apply Forall_take]).
    split; [by apply (rio_at_ready f (rio_mem io) p' o' (with_cached c io))|].
    intros x. change (rio_mem io) with (rio_mem (with_cached c io)). rewrite rio_byte_at.
    unfold rio_byte. change (rio_mem (with_cached c io)) with (rio_mem io).
    change (io_cached (with_cached c io)) with (io_cached io).
    change (io_cache (with_cached c io)) with (io_cache io ++ [c]).
    rewrite Hc. cbn [Z.eqb]. rewrite cache_byte_app. unfold cache_byte_step, in_cache. cbn [c_from c_size c_data c].
    destruct ((addr <=? x) && (x <? addr + len)) eqn:Ea.
    + apply Hin in Ea as Hx. replace ((base <=? x) && _) with true by lia. simpl.
      unfold byte_at. by rewrite lookup_take_lt by lia.
    + done.
Qed.
End Memory.

(** C20: A layer with one memory device mapped at [base], with the cache of
    writes or without, is a memory of [size] bytes at [base]: a read inside it
    gives its bytes and leaves them as they are, a write inside it changes the
    bytes of its range and no other, and both transfer everything. *)
Theorem rio_is_memory d fd base size (io : MRIO) addr buf len :
  0 <= fd -> 0 <= base -> 0 <= size < 2 ^ 31 -> base + size < 2 ^ 64 ->
  rio_ready d fd base size io ->
  base <= addr -> 0 < len -> addr + len <= base + size -> len <= Z.of_nat (length buf) ->
  (exists io', r_io_read_at addr buf len io = Ok (len, blit (rio_bytes d base size io addr len) buf) io'
     /\ rio_ready d fd base size io' /\ forall x, rio_byte d base size io' x = rio_byte d base size io x)
  /\ (bytes buf -> exists io', r_io_write_at addr buf len io = Ok len io'
     /\ rio_ready d fd base size io'
     /\ forall x, rio_byte d base size io' x
          = if (addr <=? x) && (x <? addr + len) then byte_at buf (Z.to_nat (x - addr))
            else rio_byte d base size io x).
Proof.
  intros Hfd Hb Hs Hm R Ha Hl Hal Hlen. split.
  - apply rio_read_ok; try done. lia.
  - intros Hbb. by apply rio_write_ok.
Qed.

(** ** Opening a memory device *)

(** What [__getioplugin] does for [malloc://]: the descriptor [d] with the
    number [fd] and the contents [mem]. *)
Definition malloc_opens (d : nat) (fd : Z) (mem : list Z) : M MRIO (option nat) :=
  modify (fun io => set_io_plugin (Some r_io_plugin_malloc)
    (set_io_descs (<[d := rio_desc fd (Z.of_nat (length mem)) 7 mem 0]> (io_descs io)) io)) ;;
  mret (Some d).

Definition rio_open (d : nat) (fd : Z) (mem : list Z) (mode base : Z) : M MRIO (option nat) :=
  io_inits ;; r_io_open_at (malloc_opens d fd mem) mode base.

(** The layer between the steps of the opening: the device at some position. *)
Definition opening (d : nat) (fd : Z) (mem : list Z) (cur : option nat) (files : list nat)
    (maps : list RIOMap) (va : bool) (pos : Z) : MRIO :=
  mkRIO _ _ cur (Some r_io_plugin_malloc) 0 va false false false false 0 0 0 (-1) true true 0xff (-1) []
    {[d := rio_desc fd (Z.of_nat (length mem)) 7 mem pos]} files maps [] 0 None [] (mkRCache 0 None) false
    undo_zero.

Lemma malloc_seek_start mem sz p whence :
  0 <= sz -> whence = R_IO_SEEK_SET \/ whence = R_IO_SEEK_CUR /\ p = 0 ->
  malloc__lseek (Some (mkMalloc mem sz p)) 0 whence = (0, Some (mkMalloc mem sz 0)).
Proof.
  intros Hs [->|[-> ->]]; unfold malloc__lseek; cbn [m_size m_buf m_offset].
  - rewrite Z.eqb_refl. by destruct (Z.leb_spec 0 sz); [|lia].
  - change (R_IO_SEEK_CUR =? R_IO_SEEK_SET) with false. rewrite Z.eqb_refl. change (u64 (0 + 0)) with 0.
    by destruct (Z.leb_spec 0 sz); [|lia].
Qed.

Section Opening.
Variables (d : nat) (fd : Z) (mem : list Z).
Let size := Z.of_nat (length mem).
Hypothesis size_int : size < 2 ^ 31.
Let opened := opening d fd mem.

Lemma opening_get cur files maps va pos :
  get_desc d (opened cur files maps va pos)
  = Ok (rio_desc fd size 7 mem pos) (opened cur files maps va pos).
Proof. unfold get_desc. mrun. unfold opened, opening. simpl. by rewrite lookup_singleton_eq. Qed.

Lemma opening_seek files maps va pos pos' whence :
  malloc__lseek (Some (mkMalloc mem size pos)) 0 whence = (pos', Some (mkMalloc mem size pos')) ->
  r_io_seek 0 whence (opened (Some d) files maps va pos) = Ok pos' (opened (Some d) files maps va pos').
Proof.
  intros E. unfold r_io_seek. mrun.
  change (io_buffer_enabled _) with false. change (io_desc _) with (Some d).
  assert (seek_offset (opened (Some d) files maps va pos) 0 = 0) as ->.
  { unfold seek_offset. change (section_empty _) with true. by rewrite andb_false_r. }
  change (0 =? UT64_MAX) with false. cbv iota. change (io_plugin _) with (Some r_io_plugin_malloc). mrun.
  unfold call_lseek. rewrite run_bind, opening_get. mrun.
  cbn [d_data rio_desc plugin_lseek malloc_plugin]. rewrite E. unfold put_data.
  rewrite !run_bind, opening_get. mrun.
  assert (set_io_descs
    (<[d:=set_d_data (Some (mkMalloc mem size pos')) (rio_desc fd size 7 mem pos)]>
       (io_descs (opened (Some d) files maps va pos))) (opened (Some d) files maps va pos)
    = opened (Some d) files maps va pos') as ->.
  { unfold opened, opening. simpl. by rewrite insert_singleton_eq. }
  destruct (whence =? R_IO_SEEK_SET); mrun; reflexivity.
Qed.

Lemma opening_use cur files maps va pos :
  r_io_use_desc (Some d) (opened cur files maps va pos) = Ok true (opened (Some d) files maps va pos).
Proof. unfold r_io_use_desc. by rewrite run_bind, opening_get. Qed.

Lemma opening_add maps va pos :
  0 <= fd -> r_io_desc_add d (opened None [] maps va pos) = Ok 0 (opened None [d] maps va pos).
Proof.
  intros Hfd. unfold r_io_desc_add. rewrite run_bind, opening_get. mrun. unfold r_io_desc_get.
  cbn [opened opening io_files find d_fd rio_desc]. by destruct (fd <? 0).
Qed.

Lemma opening_size files maps :
  r_io_size (opened (Some d) files maps false 0) = Ok size (opened (Some d) files maps false 0).
Proof.
  unfold r_io_size. mrun.
  assert (forall pos, r_io_is_listener (opened (Some d) files maps false pos) = false
                  /\ r_io_is_blockdevice (opened (Some d) files maps false pos) = false) as Hl.
  { intros pos. unfold r_io_is_listener, r_io_is_blockdevice, opened, opening. simpl.
    by rewrite lookup_singleton_eq. }
  rewrite (proj1 (Hl 0)). mrun.
  change (set_io_va false (opened (Some d) files maps false 0)) with (opened (Some d) files maps false 0).
  rewrite (opening_seek _ _ _ _ 0) by (apply malloc_seek_start; [lia|by right]).
  cbv beta iota. rewrite run_bind, (opening_seek _ _ _ _ size) by reflexivity. cbv beta iota.
  rewrite run_bind, (opening_seek _ _ _ _ 0) by (apply malloc_seek_start; [lia|by left]).
  mrun. change (set_io_va (io_va (opened (Some d) files maps false 0)) (opened (Some d) files maps false 0))
    with (opened (Some d) files maps false 0).
  mrun. by rewrite (proj2 (Hl 0)).
Qed.

Lemma opening_desc_size files maps :
  r_io_desc_size (Some d) (opened None files maps false 0) = Ok size (opened (Some d) files maps false 0).
Proof.
  unfold r_io_desc_size. mrun. change (io_desc (opened None files maps false 0)) with (@None nat).
  rewrite bool_decide_eq_false_2 by done. change (negb false) with true. cbv iota.
  rewrite opening_use. mrun. rewrite opening_size. by mrun.
Qed.
End Opening.

(** Opening a memory device on a new layer gives a layer that is a memory with
    the contents of the device. *)
Lemma rio_open_ready d fd mem mode base :
  let size := Z.of_nat (length mem) in
  0 <= fd -> 0 <= base -> size < 2 ^ 31 -> base + size < 2 ^ 64 -> bytes mem ->
  exists io, rio_open d fd mem mode base (io_defaults io_zero) = Ok (Some d) io
    /\ rio_ready d fd base size io
    /\ forall i, 0 <= i < size -> rio_byte d base size io (base + i) = byte_at mem (Z.to_nat i).
Proof.
  intros size Hfd Hb Hs Hm Hmem. exists (opening d fd mem (Some d) [d] [mkMap fd mode 0 base (base + size)] false 0).
  split; [|split].
  - unfold rio_open. rewrite run_bind.
    assert (io_inits (io_defaults io_zero : MRIO)
            = Ok tt (mkRIO _ _ None None 0 false false false false false 0 0 0 (-1) true true 0xff (-1) []
                       ∅ [] [] [] 0 None [] (mkRCache 0 None) false undo_zero)) as -> by reflexivity.
    unfold r_io_open_at, malloc_opens. rewrite !run_bind. cbv beta iota.
    match goal with |- context [modify ?f ?s] =>
      change (modify f s) with (Ok (S := MRIO) tt (opening d fd mem None [] [] false 0)) end.
    cbv beta iota. mrun. rewrite opening_add by done. mrun. rewrite opening_desc_size by done. mrun.
    change (io_autofd _ || _) with true. cbv iota. rewrite opening_use. mrun. rewrite opening_get. mrun.
    rewrite map_new_ok by (done || lia). by mrun.
  - assert (rio_mem d (opening d fd mem (Some d) [d] [mkMap fd mode 0 base (base + size)] false 0) = mem) as Em
      by (unfold rio_mem; simpl; by rewrite lookup_singleton_eq).
    split; rewrite ?Em; try done; [by eexists| |by left].
    exists 7, 0. simpl. by rewrite lookup_singleton_eq.
  - intros i Hi. rewrite rio_byte_in by lia. unfold rio_mem. simpl. rewrite lookup_singleton_eq.
    simpl. do 2 f_equal. lia.
Qed.

(** The 32 bytes 0, 1, .., 31 at 0x100. *)
Definition demo_bytes : list Z := map Z.of_nat (seq 0 32).

Lemma demo_bytes_ok : bytes demo_bytes.
Proof.
  apply Forall_forall. intros x (i & <- & Hi)%list_elem_of_In%in_map_iff.
  apply in_seq in Hi. unfold is_byte. lia.
Qed.

Lemma rio_is_memory_witness :
  exists io io', rio_open 0 3 demo_bytes 7 0x100 (io_defaults io_zero) = Ok (Some 0%nat) io
    /\ r_io_read_at 0x110 [0; 0; 0; 0] 4 io = Ok (4, [16; 17; 18; 19]) io'.
Proof.
  destruct (rio_open_ready 0 3 demo_bytes 7 0x100) as (io & E & R & Hb);
    [lia|lia|simpl; lia|simpl; lia|apply demo_bytes_ok|].
  destruct (rio_is_memory 0 3 0x100 32 io 0x110 [0; 0; 0; 0] 4) as [(io' & Er & _) _];
    [lia|lia|lia|lia|exact R|lia|lia|lia|simpl; lia|].
  exists io, io'. split; [exact E|]. rewrite Er. do 2 f_equal.
  change (rio_bytes 0 0x100 32 io 0x110 4)
    with [rio_byte 0 0x100 32 io (0x100 + 16); rio_byte 0 0x100 32 io (0x100 + 17);
          rio_byte 0 0x100 32 io (0x100 + 18); rio_byte 0 0x100 32 io (0x100 + 19)].
  rewrite !Hb by (simpl; lia). reflexivity.
Defined.
