(* ===== verification/IoShift.v ===== *)
(** * Moving bytes

    [r_io_shift] of [io.c] over a mapped memory device: the chunks add up to
    the move of the whole range, although source and destination overlap. *)

From S2P Require Import Prelude IoState IoSection IoMap IoUndo IoCore IoMalloc IoWrite IoCache IoMemory.

Section Shift.
Variables (d : nat) (fd base size : Z).
Hypothesis fd_pos : 0 <= fd.
Hypothesis base_pos : 0 <= base.
Hypothesis size_int : 0 <= size < 2 ^ 31.
Hypothesis map_fits : base + size < 2 ^ 64.
Implicit Types io : MRIO.

Local Notation ready := (rio_ready d fd base size).
Local Notation byte := (rio_byte d base size).

(** The range and the distance. *)
Variables (first last move : Z).
Hypothesis range_ok : base <= first /\ first <= last /\ last <= base + size.
Hypothesis move_ok : 0 < Z.abs move < last - first.

(** The addresses that have their new byte while [rest] bytes are left. *)
Definition shift_done (rest x : Z) : bool :=
  if 0 <? move then (first + move + rest <=? x) && (x <? last)
  else (first <=? x) && (x <? last + move - rest).

Definition shift_source (rest : Z) : Z := if 0 <? move then first + rest else last - rest.

Definition shift_inv io0 (st : Z * Z * Z * list Z) io : Prop :=
  let '(src, rest, chunk, buf) := st in
  ready io /\ 0 <= rest <= last - first - Z.abs move /\ 0 < chunk <= 0x10000
  /\ Z.of_nat (length buf) = 0x10000 /\ bytes buf /\ src = shift_source rest
  /\ forall x, base <= x < base + size ->
       byte io x = if shift_done rest x then byte io0 (x - move) else byte io0 x.

(** Reading a chunk and writing it elsewhere. *)
Lemma copy_chunk io a b n buf :
  ready io -> base <= a -> a + n <= base + size -> base <= b -> b + n <= base + size ->
  0 < n <= Z.of_nat (length buf) -> bytes buf ->
  exists buf' io1 io', r_io_read_at a buf n io = Ok (n, buf') io1
    /\ r_io_write_at b buf' n io1 = Ok n io' /\ ready io'
    /\ length buf' = length buf /\ bytes buf'
    /\ forall x, byte io' x = if (b <=? x) && (x <? b + n) then byte io (x - b + a) else byte io x.
Proof.
  intros R Ha Han Hb Hbn Hn Hbuf.
  destruct (rio_read_ok d fd base size fd_pos base_pos size_int map_fits io a buf n)
    as (io1 & E1 & R1 & S1); [done|lia..|].
  pose proof (length_rio_bytes d base size io a n ltac:(lia)) as Hl.
  assert (bytes (blit (rio_bytes d base size io a n) buf)) as Hb1
    by (apply blit_bytes; [by apply (rio_bytes_bytes d fd)|done]).
  destruct (rio_write_ok d fd base size fd_pos base_pos size_int map_fits io1 b
              (blit (rio_bytes d base size io a n) buf) n)
    as (io' & E2 & R2 & S2); [done|lia..|rewrite length_blit; lia|done|].
  do 3 eexists. split_and!; [exact E1|exact E2|done|by rewrite length_blit|done|].
  intros x. rewrite S2. destruct (_ && _) eqn:Ex; [|apply S1].
  unfold byte_at. rewrite blit_lookup, !decide_True by lia.
  rewrite rio_bytes_lookup by lia. simpl. f_equal. lia.
Qed.

Lemma shift_step_ok io0 st io :
  shift_inv io0 st io ->
  (exists st' io', shift_step move st io = Ok (inl st') io' /\ shift_inv io0 st' io'
     /\ 0 <= snd (fst (fst st')) < snd (fst (fst st)))
  \/ (exists b io', shift_step move st io = Ok (inr b) io'
       /\ ready io' /\ forall x, base <= x < base + size ->
            byte io' x = if shift_done 0 x then byte io0 (x - move) else byte io0 x).
Proof.
  destruct st as [[[src rest] chunk] buf]. intros (R & Hr & Hc & Hl & Hb & -> & Hx).
  unfold shift_step. destruct (Z.eqb_spec rest 0) as [->|Hne].
  { right. exists tt, io. done. }
  left. set (n := Z.min chunk rest). assert (0 < n <= 0x10000 /\ n <= rest) as Hn by lia.
  set (a := if 0 <? move then first + rest - n else last - rest).
  assert ((if 0 <? move then u64 (shift_source rest - n) else shift_source rest) = a) as Ea.
  { unfold a, shift_source. destruct (0 <? move); [apply u64_id|]; lia. }
  assert (base <= a /\ a + n <= base + size /\ base <= a + move /\ a + move + n <= base + size) as Hin.
  { unfold a. destruct (Z.ltb_spec 0 move); lia. }
  destruct (copy_chunk io a (a + move) n buf) as (buf' & io1 & io' & E1 & E2 & R' & Hl' & Hb' & Hx');
    [done|lia..|done|].
  rewrite Ea. rewrite run_bind, E1. cbv iota beta. rewrite run_bind.
  rewrite (u64_id (a + move)) by lia. rewrite E2. mrun.
  do 2 eexists. split; [reflexivity|]. split; [|simpl; lia].
  split_and!; [done|lia|lia|lia|lia|lia|done| |].
  - unfold shift_source, a. destruct (Z.ltb_spec 0 move), (Z.ltb_spec move 0); try lia.
    rewrite u64_id; lia.
  - intros x Hxr. rewrite Hx'. replace (x - (a + move) + a) with (x - move) by lia.
    destruct ((a + move <=? x) && (x <? a + move + n)) eqn:Ex; rewrite Hx by lia.
    + assert (shift_done rest (x - move) = false) as ->
        by (unfold shift_done, a in *; destruct (Z.ltb_spec 0 move); lia).
      assert (shift_done (rest - n) x = true) as ->; [|done].
      unfold shift_done, a in *. destruct (Z.ltb_spec 0 move); lia.
    + assert (shift_done (rest - n) x = shift_done rest x) as ->; [|done].
      unfold shift_done, a in *. destruct (Z.ltb_spec 0 move); lia.
Qed.

Lemma shift_loop io buf :
  ready io -> Z.of_nat (length buf) = 0x10000 -> bytes buf ->
  exists r io', for_upto (S := RIO io_plugins (option RIOMalloc)) (last - first - Z.abs move + 1) (shift_step move)
      (shift_source (last - first - Z.abs move), last - first - Z.abs move, 0x10000, buf) io
      = Ok (inr r) io' /\ ready io'
    /\ forall x, base <= x < base + size ->
         byte io' x = if shift_done 0 x then byte io (x - move) else byte io x.
Proof.
  intros R Hl Hb.
  apply (for_upto_total (shift_inv io) (fun st _ => snd (fst (fst st)))
              (fun _ io' => ready io' /\ forall x, base <= x < base + size ->
                 byte io' x = if shift_done 0 x then byte io (x - move) else byte io x)).
  - intros st s HI. apply shift_step_ok, HI.
  - split_and!; [done|lia|lia|lia|lia|lia|done|done|].
    intros x Hx. assert (shift_done (last - first - Z.abs move) x = false) as ->; [|done].
    unfold shift_done. destruct (Z.ltb_spec 0 move); lia.
  - simpl. lia.
Qed.

Lemma shift_moves io :
  ready io -> Z.abs move < 2 ^ 63 ->
  exists io', r_io_shift first last move io = Ok true io' /\ ready io'
    /\ forall x, base <= x < base + size ->
         byte io' x = if shift_done 0 x then byte io (x - move) else byte io x.
Proof.
  intros R Hm. unfold r_io_shift.
  destruct (Z.eqb_spec move (- 2 ^ 63)); [lia|]. rewrite (u64_id (last - first)) by lia.
  destruct (Z.eqb_spec (Z.abs move) 0); [lia|]. destruct (Z.leb_spec (last - first) (Z.abs move)); [lia|].
  cbn [orb].
  assert ((if 0 <? move then u64 (last - Z.abs move) else u64 (first + Z.abs move))
          = shift_source (last - first - Z.abs move)) as ->.
  { unfold shift_source. destruct (Z.ltb_spec 0 move); rewrite u64_id; lia. }
  destruct (malloc_bytes_ok 0x10000) as [Hlb Hbb]; [lia|]. revert Hlb Hbb.
  generalize (malloc_bytes (P := io_plugins) (D := option RIOMalloc) 0x10000) as buf.
  intros buf Hlb Hbb. destruct (shift_loop io buf R Hlb Hbb) as (r & io' & E & Hx).
  exists io'. split; [|done]. by rewrite run_bind, E.
Qed.
End Shift.

(** C24: Over a memory device, with the cache of writes or without,
    [r_io_shift] moves the bytes of a range up or down by less than its length,
    as [memmove] does: every byte that has a source in the range gets it, and
    no other byte changes. *)
Theorem r_io_shift_moves d fd base size (io : MRIO) first last move :
  0 <= fd -> 0 <= base -> 0 <= size < 2 ^ 31 -> base + size < 2 ^ 64 ->
  rio_ready d fd base size io ->
  base <= first -> last <= base + size -> 0 < Z.abs move < last - first -> Z.abs move < 2 ^ 63 ->
  exists io', r_io_shift first last move io = Ok true io' /\ rio_ready d fd base size io'
    /\ forall x, base <= x < base + size -> rio_byte d base size io' x
         = if (first <=? x) && (x <? last) && (first <=? x - move) && (x - move <? last)
           then rio_byte d base size io (x - move) else rio_byte d base size io x.
Proof.
  intros Hfd Hb Hs Hm R Hf Hl Hmv Hm63.
  destruct (shift_moves d fd base size Hfd Hb Hs Hm first last move) with (io := io)
    as (io' & E & R' & Hx); [lia|done|done|done|].
  exists io'. split; [exact E|]. split; [done|]. intros x Hxr. rewrite (Hx x Hxr).
  assert (shift_done first last move 0 x
          = (first <=? x) && (x <? last) && (first <=? x - move) && (x - move <? last)) as ->; [|done].
  unfold shift_done. destruct (Z.ltb_spec 0 move); lia.
Qed.

Lemma r_io_shift_moves_witness :
  exists io io' io2, rio_open 0 3 demo_bytes 7 0x100 (io_defaults io_zero) = Ok (Some 0%nat) io
    /\ r_io_shift 0x104 0x10c 2 io = Ok true io'
    /\ r_io_read_at 0x104 (replicate 9 0) 9 io' = Ok (9, [4; 5; 4; 5; 6; 7; 8; 9; 12]) io2.
Proof.
  destruct (rio_open_ready 0 3 demo_bytes 7 0x100) as (io & E & R & Hb);
    [lia|lia|simpl; lia|simpl; lia|apply demo_bytes_ok|].
  destruct (r_io_shift_moves 0 3 0x100 32 io 0x104 0x10c 2) as (io' & Es & R' & Hx);
    [lia|lia|lia|lia|exact R|lia|lia|lia|lia|].
  destruct (rio_read_ok 0 3 0x100 32 ltac:(lia) ltac:(lia) ltac:(lia) ltac:(lia) io' 0x104 (replicate 9 0) 9)
    as (io2 & Er & _); [exact R'|lia|lia|lia|simpl; lia|].
  exists io, io', io2. split; [exact E|]. split; [exact Es|]. rewrite Er. do 2 f_equal.
  unfold rio_bytes. change (seqZ 0 9) with [0; 1; 2; 3; 4; 5; 6; 7; 8].
  cbn [map]. rewrite !Hx by lia.
  assert (forall a, 0x100 <= a < 0x120 -> rio_byte 0 0x100 32 io a = byte_at demo_bytes (Z.to_nat (a - 0x100))) as Hd.
  { intros a Ha. rewrite <- Hb by (simpl; lia). f_equal. lia. }
  rewrite !Hd by lia. reflexivity.
Defined.
