(* ===== verification/IoFile.v ===== *)
(** * Files of the i/o layer

    What is left of [io.c], [desc.c] and [buffer.c]: loading the range buffer,
    extending a file, whole-buffer reads and writes, closing everything and
    reopening. *)

From S2P Require Import Prelude IoState IoSection IoMap IoUndo IoCore IoMalloc IoWrite IoCache IoMemory.

Section File.
Context {P D : Type} {Env : IoPlugin P D}.
Implicit Types io : RIO P D.
Let MIO := M (RIO P D).

(** ** The range buffer *)

Definition r_io_buffer_get io (addr : Z) : option Z * option Z := r_cache_get (io_buffer io) addr.

(** A block of 512 bytes. *)
Definition load_step (addr len i : Z) : MIO (Z + unit) :=
  if len <=? i then mret (inr tt)
  else
    let at_ := u64 (addr + i) in
    r_io_seek at_ R_IO_SEEK_SET ;;
    '(r, buf) ← r_io_read (replicate 512 0xff) 512;
    if r <? 1 then mret (inr tt)
    else
      c ← gets io_buffer;
      c ← lift UB_oob (r_cache_set c at_ buf 512);
      modify (set_io_buffer c) ;;
      mret (inl (s32 (i + 512))).

(** The bound is reached only when the index wraps, less than 512 below
    [2 ^ 31]. *)
Definition r_io_buffer_load (addr len : Z) : MIO bool :=
  if len <? 1 then mret false
  else
    modify (set_io_buffer_enabled false) ;;
    for_upto (len + 1) (load_step addr len) 0 ;;
    modify (set_io_buffer_enabled true) ;;
    mret true.

(** ** Buffers *)

(** The bytes and the length of the [RBuffer]; the allocation of a negative
    size fails. *)
Definition r_io_read_buf (addr len : Z) : MIO (option (list Z * Z)) :=
  if len <? 0 then mret None
  else
    '(ret, buf) ← r_io_read_at addr (malloc_bytes len) len;
    mret (Some (buf, if ret <? 0 then 0 else ret)).

(** The [RBuffer] has a base, its bytes and a length. *)
Definition r_io_write_buf (base : Z) (buf : list Z) (length : Z) : MIO Z :=
  r_io_write_at base buf length.

(** [maxalloc] is [io->maxalloc]; allocations succeed. *)
Definition r_io_desc_read (maxalloc : Z) (desc : option nat) (out_sz : Z)
    : MIO (option (list Z) * Z) :=
  io ← gets id;
  let desc := match desc with Some d => Some d | None => io_desc io end in
  out_sz ← (if out_sz =? UT64_MAX then r_io_desc_size desc else mret out_sz);
  let out_sz := if out_sz =? 0x8000000 then 0x100000 else out_sz in
  off ← gets io_off;
  if out_sz =? UT64_MAX then mret (None, out_sz)
  else
    let out_sz := if negb (maxalloc =? 0) && (maxalloc <? out_sz) then maxalloc else out_sz in
    d ← lift UB_null desc;
    x ← get_desc d;
    '(ret, buf) ← call_read (d_plugin x) d (malloc_bytes out_sz) (s32 out_sz);
    modify (set_io_off off) ;;
    mret (if ret =? 0 then None else Some buf, out_sz).

(** ** Extension

    No plugin here has an [extend] callback.  The buffer that is cleared at the
    end has the size of the bytes that were moved, unless the file was smaller
    than what it grows by. *)
Definition r_io_extend (size : Z) : MIO bool :=
  curr_off ← gets io_off;
  cur_size ← r_io_size;
  if size =? 0 then mret false
  else
    resized ← r_io_resize (u64 (size + cur_size));
    if negb resized then mret false
    else
      let tmp_size := if cur_size <? size then size - cur_size else cur_size - size in
      r_io_seek curr_off R_IO_SEEK_SET ;;
      '(_, buffer) ← r_io_read (malloc_bytes tmp_size) (s32 tmp_size);
      r_io_seek (u64 (curr_off + size)) R_IO_SEEK_SET ;;
      r_io_write buffer (s32 tmp_size) ;;
      let buffer := if cur_size <? size then malloc_bytes size else buffer in
      buffer ← poke 0 size (memset 0 size) buffer;
      r_io_seek curr_off R_IO_SEEK_SET ;;
      r_io_write buffer (s32 size) ;;
      r_io_seek curr_off R_IO_SEEK_SET ;;
      mret true.

Definition r_io_extend_at (addr size : Z) : MIO bool :=
  if size =? 0 then mret false
  else r_io_seek addr R_IO_SEEK_SET ;; r_io_extend size.

(** ** Descriptors, again *)

(** The descriptor was added to the layer and not reopened since, so that it is
    closed twice: by [r_io_close] and by the plugin. *)
Definition r_io_desc_free (d : nat) : MIO unit :=
  r_io_close (Some d) ;;
  x ← get_desc d;
  (match plugin_close (d_plugin x) (d_data x) with
   | Some (_, data) => put_data d data
   | None => mret tt
   end) ;;
  modify (fun io => set_io_descs (delete d (io_descs io)) io).

Definition desc_is (fd : Z) io (d : nat) : bool :=
  (fd =? -1) || match io_descs io !! d with Some x => d_fd x =? fd | None => false end.

(** At most one descriptor goes, for [fd = -1] too. *)
Definition r_io_desc_del (fd : Z) : MIO bool :=
  modify (fun io => set_io_desc (head (io_files io)) io) ;;
  io ← gets id;
  match find (desc_is fd io) (io_files io) with
  | Some d =>
      r_io_desc_free d ;;
      modify (fun io' => set_io_files (delete_first (desc_is fd io) (io_files io')) io') ;;
      mret true
  | None => mret false
  end.

Definition r_io_close_all : MIO Z :=
  modify (fun io => set_io_autofd true (set_io_raised (-1) (set_io_ff true
            (set_io_write_mask_fd (-1) (set_io_buffer (mkRCache 0 None) io))))) ;;
  r_io_map_del (-1) ;;
  r_io_desc_del (-1) ;;
  r_io_section_rm_all (-1) ;;
  r_io_undo_init ;;
  r_io_cache_reset 0 ;;
  mret 1.

Definition move_map (fd nfd nflags : Z) (m : RIOMap) : RIOMap :=
  if map_fd m =? fd
  then mkMap nfd (Z.land (map_flags m) nflags) (map_delta m) (map_from m) (map_to m)
  else m.

(** The descriptor [d] has a uri. *)
Definition r_io_reopen (getioplugin : MIO (option nat)) (d : nat) : MIO bool :=
  x ← get_desc d;
  io ← gets id;
  if negb (bool_decide (r_io_desc_get io (d_fd x) = Some d)) then mret false
  else
    n ← getioplugin;
    match n with
    | None => mret false
    | Some n =>
        y ← get_desc n;
        r_io_section_rm_all (d_fd x) ;;
        modify (fun io => set_io_maps (map (move_map (d_fd x) (d_fd y) (d_flags y)) (io_maps io)) io) ;;
        x ← get_desc d;
        (match plugin_close (d_plugin x) (d_data x) with
         | Some (_, data) => put_data d data
         | None => mret tt
         end) ;;
        modify (fun io => set_io_descs (delete n (<[d := y]> (io_descs io))) io) ;;
        mret true
    end.

Definition r_io_open (getioplugin : MIO (option nat)) (mode : Z) : MIO (option nat) :=
  r_io_open_at getioplugin mode 0.

(** The descriptors of [__getioplugin_many]. *)
Fixpoint add_files (l : list (option nat)) : MIO unit :=
  match l with
  | [] => mret tt
  | None :: l => add_files l
  | Some d :: l =>
      x ← get_desc d;
      (if 0 <=? d_fd x then r_io_desc_add d ;; mret tt else mret tt) ;;
      add_files l
  end.
Definition r_io_open_many (getioplugin_many : MIO (option (list (option nat))))
    : MIO (option (list (option nat))) :=
  l ← getioplugin_many;
  match l with
  | None => mret None
  | Some fds => add_files fds ;; mret l
  end.
End File.

(** Filling a buffer from its start and then on. *)
Lemma blit_append n src1 src2 buf :
  Z.of_nat (length src1) = n -> length buf = (length src1 + length src2)%nat ->
  at_offset (Z.to_nat n) (blit src2) (blit src1 buf) = src1 ++ src2.
Proof.
  intros <- Hl. rewrite Nat2Z.id. unfold at_offset, blit.
  rewrite (take_ge src1 (length buf)) by lia. rewrite take_app_length, drop_app_length.
  rewrite take_ge, drop_ge by (rewrite length_drop; lia). by rewrite app_nil_r.
Qed.

(** ** Two errors

    A file of 10 bytes that grows by 8 keeps 2 bytes to move and clears 8 in the
    same buffer. *)
Definition demo_file : MRIO :=
  opening 0 3 [0; 1; 2; 3; 4; 5; 6; 7; 8; 9] (Some 0%nat) [0%nat] [mkMap 3 7 0 0 10] false 0.

Example r_io_extend_overflow : r_io_extend 8 demo_file = Undef UB_oob.
Proof. vm_compute. reflexivity. Qed.

(** Closing everything closes one file. *)
Definition demo_two_files : MRIO :=
  set_io_files [0%nat; 1%nat] (set_io_descs
    {[0%nat := rio_desc 3 4 7 [0; 0; 0; 0] 0; 1%nat := rio_desc 4 4 7 [0; 0; 0; 0] 0]} demo_file).

Example r_io_close_all_keeps :
  match r_io_close_all demo_two_files with
  | Ok _ io => (io_files io, io_desc io) = ([1%nat], None)
  | Undef _ => False
  end.
Proof. vm_compute. reflexivity. Qed.

(** ** The range buffer over a memory device *)

Section Load.
Variables (d : nat) (fd base size : Z).
Hypothesis fd_pos : 0 <= fd.
Hypothesis base_pos : 0 <= base.
Hypothesis size_int : 0 <= size < 2 ^ 31.
Hypothesis map_fits : base + size < 2 ^ 64.
Implicit Types io : MRIO.

Local Notation ready := (rio_ready d fd base size).
Local Notation byte := (rio_byte d base size).
Local Notation bytes_at := (rio_bytes d base size).

Lemma rio_bytes_app io a m n :
  0 <= m -> 0 <= n -> bytes_at io a m ++ bytes_at io (a + m) n = bytes_at io a (m + n).
Proof.
  intros Hm Hn. apply list_eq. intros i. rewrite lookup_app.
  pose proof (length_rio_bytes d base size io a m Hm).
  pose proof (length_rio_bytes d base size io (a + m) n Hn).
  pose proof (length_rio_bytes d base size io a (m + n) ltac:(lia)).
  destruct (decide (Z.of_nat i < m)).
  - by rewrite !rio_bytes_lookup by lia.
  - rewrite (lookup_ge_None_2 (bytes_at io a m)) by lia. destruct (decide (Z.of_nat i < m + n)).
    + rewrite !rio_bytes_lookup by lia. do 2 f_equal. lia.
    + by rewrite !lookup_ge_None_2 by lia.
Qed.

Lemma rio_bytes_slice io a m b n :
  a <= b -> 0 <= n -> b + n <= a + m ->
  take (Z.to_nat n) (drop (Z.to_nat (b - a)) (bytes_at io a m)) = bytes_at io b n.
Proof.
  intros Hb Hn Hm. pose proof (length_rio_bytes d base size io a m ltac:(lia)).
  pose proof (length_rio_bytes d base size io b n Hn).
  apply list_eq. intros i. destruct (decide (Z.of_nat i < n)).
  - rewrite lookup_take_lt, lookup_drop, !rio_bytes_lookup by lia. do 2 f_equal. lia.
  - rewrite !lookup_ge_None_2; [done|lia|rewrite length_take, length_drop; lia].
Qed.

Lemma rio_bytes_same io io' a n :
  (forall x, byte io' x = byte io x) -> bytes_at io' a n = bytes_at io a n.
Proof. intros H. unfold rio_bytes. by apply map_ext. Qed.

(** Seeking to an address of the device and reading there. *)
Lemma seek_and_read io a n buf :
  ready io -> base <= a -> 0 < n <= Z.of_nat (length buf) -> a + n <= base + size ->
  exists io1 pos io', r_io_seek a R_IO_SEEK_SET io = Ok pos io1
    /\ r_io_read buf n io1 = Ok (n, blit (bytes_at io a n) buf) io'
    /\ ready io' /\ io_buffer io' = io_buffer io /\ forall x, byte io' x = byte io x.
Proof.
  intros R Ha Hn Han. destruct (ready_normal d fd base size io R) as (f & p & E).
  pose proof (rr_size _ _ _ _ _ R) as Hs. pose proof (rr_mem _ _ _ _ _ R) as Hm.
  pose proof (at_seek d fd base size f (rio_mem d io) io R Hs Hm p (io_off io) a ltac:(unfold UT64_MAX; lia)) as Es.
  rewrite <- E in Es. set (io1 := rio_at _ _ _ _ _ _ _ _) in Es.
  assert (ready io1) as R1 by (by apply rio_at_ready).
  destruct (rio_read_form d fd base size fd_pos base_pos size_int map_fits io1 a buf n)
    as (f' & p' & o' & Er); [done|lia..|].
  exists io1, (a `min` size). eexists. split; [exact Es|]. split; [|split_and!].
  - unfold r_io_read. mrun. rewrite (rr_desc _ _ _ _ _ R1), (rr_rwx _ _ _ _ _ R1).
    change (io_off io1) with a. destruct (Z.eqb_spec a UT64_MAX); [unfold UT64_MAX in *; lia|].
    change (z2b (Z.land 0 R_IO_READ)) with false. cbn [andb]. cbv iota.
    assert (r_io_section_maddr_to_vaddr a io1 = Ok UT64_MAX io1) as Ev.
    { unfold r_io_section_maddr_to_vaddr. mrun. unfold r_io_section_mget_prev, find_prev.
      by rewrite (rr_sections _ _ _ _ _ R1). }
    rewrite run_bind, Ev. rewrite Z.eqb_refl. change (io_off io1) with a.
    rewrite run_bind, Er. replace (0 <? n) with true by lia. mrun.
    rewrite (rio_bytes_same io io1) by (intros; apply rio_byte_at). reflexivity.
  - apply (rio_at_ready d fd base size f' _ p' _ io1 R1);
      [apply (rr_size _ _ _ _ _ R1)|apply (rr_mem _ _ _ _ _ R1)].
  - reflexivity.
  - intros x. change (byte (set_io_off ?v (rio_at ?d ?fd ?s ?f ?m ?p ?o ?i)) x)
      with (byte (rio_at d fd s f m p v i) x).
    rewrite rio_byte_at. apply rio_byte_at.
Qed.

(** The buffer after some blocks. *)
Definition loaded io0 (addr n : Z) : option (list Z) :=
  if n =? 0 then None else Some (bytes_at io0 addr n).

Lemma cache_append io0 addr n buf c :
  ready io0 -> base <= addr -> 0 <= n -> n + 512 < 2 ^ 31 -> addr + n + 512 < 2 ^ 64 ->
  length buf = 512%nat ->
  rc_buf c = loaded io0 addr n -> (0 < n -> rc_base c = addr) ->
  r_cache_set (P := io_plugins) (D := option RIOMalloc) c (addr + n) (blit (bytes_at io0 (addr + n) 512) buf) 512
  = Some (mkRCache addr (Some (bytes_at io0 addr (n + 512)))).
Proof.
  intros R Ha Hn Hni Hnw Hlb Hc Hbase.
  pose proof (length_rio_bytes d base size io0 (addr + n) 512 ltac:(lia)) as Hl.
  pose proof (length_rio_bytes d base size io0 addr n Hn) as Hl0.
  rewrite blit_full by lia.
  unfold r_cache_set, rc_len. rewrite Hc. unfold loaded. destruct (Z.eqb_spec n 0) as [->|Hn0].
  - replace (512 <? 0) with false by lia. rewrite take_ge by lia. rewrite Z.add_0_r. done.
  - rewrite Hbase by lia. replace (addr + n <? addr) with false by lia.
    rewrite Hl0, (u64_id (addr + n)), (u64_id (addr + n + 512)) by lia.
    replace (addr + n <? addr + n + 512) with true by lia.
    replace (addr + n - addr) with n by lia. rewrite (s32_id n), (s32_id (n + 512)) by lia.
    replace (n + 512 <? 0) with false by lia. replace (n <? 0) with false by lia.
    replace (n + 512 <? n + 512) with false by lia. cbn [orb]. cbv iota.
    destruct (malloc_bytes_ok (n + 512)) as [Hlm _]; [lia|].
    rewrite (take_ge (bytes_at _ _ 512)) by lia.
    rewrite <- (rio_bytes_app io0 addr n 512), blit_append by lia. done.
Qed.

Lemma ready_buffer c io : ready io -> ready (set_io_buffer c io).
Proof. intros []. by split. Qed.

Definition load_inv io0 (addr k i : Z) io : Prop :=
  ready io /\ (exists j, i = 512 * j /\ 0 <= j <= k)
  /\ rc_buf (io_buffer io) = loaded io0 addr i /\ (0 < i -> rc_base (io_buffer io) = addr)
  /\ forall x, byte io x = byte io0 x.

Lemma load_step_ok io0 addr k i io :
  ready io0 -> base <= addr -> addr + 512 * k <= base + size -> load_inv io0 addr k i io ->
  (exists i' io', load_step addr (512 * k) i io = Ok (inl i') io' /\ load_inv io0 addr k i' io'
     /\ 0 <= 512 * k - i' < 512 * k - i)
  \/ (exists b io', load_step addr (512 * k) i io = Ok (inr b) io' /\ load_inv io0 addr k (512 * k) io').
Proof.
  intros R0 Ha Hak HI. pose proof HI as (R & (j & -> & Hj) & Hbuf & Hbase & Hb). unfold load_step.
  destruct (Z.leb_spec (512 * k) (512 * j)).
  { right. exists tt, io. split; [done|]. by replace (512 * k) with (512 * j) by lia. }
  left. rewrite u64_id by lia.
  destruct (seek_and_read io (addr + 512 * j) 512 (replicate 512 0xff))
    as (io1 & pos & io2 & Es & Er & R2 & Hb2 & Hx2); [done|lia|rewrite length_replicate; lia|lia|].
  rewrite run_bind, Es. rewrite run_bind, Er. change (512 <? 1) with false. cbv iota. mrun.
  rewrite (rio_bytes_same io0 io) by done. rewrite Hb2.
  rewrite (cache_append io0 addr (512 * j) (replicate 512 0xff) (io_buffer io)) by (done || lia).
  mrun. do 2 eexists. split; [reflexivity|]. rewrite s32_id by lia. split; [|lia].
  split_and!; [by apply ready_buffer|exists (j + 1); lia| |done|].
  - simpl. unfold loaded. by replace (512 * j + 512 =? 0) with false by lia.
  - intros x. rewrite <- Hb, <- Hx2. reflexivity.
Qed.

Lemma buffer_load_ok io addr k :
  ready io -> rc_buf (io_buffer io) = None -> 0 < k -> base <= addr -> addr + 512 * k <= base + size ->
  exists io', r_io_buffer_load addr (512 * k) io = Ok true (set_io_buffer_enabled true io')
    /\ ready io' /\ io_buffer io' = mkRCache addr (Some (bytes_at io addr (512 * k))).
Proof.
  intros R Hnull Hk Ha Hak. unfold r_io_buffer_load. replace (512 * k <? 1) with false by lia.
  mrun. assert (set_io_buffer_enabled false io = io) as ->.
  { pose proof (rr_buffer _ _ _ _ _ R) as E. destruct io; simpl in *. by subst. }
  destruct (for_upto_total (load_inv io addr k) (fun i _ => 512 * k - i)
              (fun _ io' => load_inv io addr k (512 * k) io') (load_step addr (512 * k))
              (512 * k + 1) 0 io) as (b & io' & E & R' & _ & Hbuf & Hbase & _).
  - intros i s. apply (load_step_ok io addr k i s R Ha Hak).
  - split_and!; [done|exists 0; lia|done|lia|done].
  - lia.
  - exists io'. split; [|split; [done|]].
    + unfold MRIO in *. by rewrite E.
    + revert Hbuf Hbase. unfold loaded. replace (512 * k =? 0) with false by lia.
      destruct (io_buffer io') as [b' c']. simpl. intros -> ->; [done|lia].
Qed.

(** A read that the buffer serves. *)
Lemma buffered_read io addr m a n buf bs :
  ready io -> io_buffer io = mkRCache addr (Some bs) -> Z.of_nat (length bs) = m ->
  0 <= addr -> addr + m < 2 ^ 64 -> m < 2 ^ 31 ->
  addr <= a -> 0 < n <= Z.of_nat (length buf) -> a + n <= addr + m ->
  exists io', r_io_read_at a buf n (set_io_buffer_enabled true io)
    = Ok (n, blit (take (Z.to_nat n) (drop (Z.to_nat (a - addr)) bs)) buf) io'.
Proof.
  intros R Hbuf Hm Hp Hw Hi Ha Hn Han. unfold r_io_read_at. mrun.
  change (io_vio (set_io_buffer_enabled true io)) with (io_vio io).
  change (section_empty (set_io_buffer_enabled true io)) with (section_empty io).
  assert (section_empty io = true) as -> by (unfold section_empty; by rewrite (rr_sections _ _ _ _ _ R)).
  replace (n <? 0) with false by lia. rewrite (rr_vio _ _ _ _ _ R), andb_false_r.
  cbn [negb andb]. cbv iota. unfold read_at_from. mrun.
  change (io_raw (set_io_buffer_enabled true io)) with (io_raw io). rewrite (rr_raw _ _ _ _ _ R). mrun.
  set (io1 := set_io_off a (set_io_buffer_enabled true io)). rewrite poke_0 by lia. cbv beta iota.
  change (io_buffer_enabled (set_io_buffer_enabled true io)) with true. cbv iota.
  unfold r_io_buffer_read. mrun.
  change (io_buffer io1) with (io_buffer io). rewrite Hbuf.
  unfold r_cache_get, rc_len. cbn [rc_buf rc_base]. rewrite Hm, (u64_id (addr + m)) by lia.
  replace (a <? addr) with false by lia. replace (addr + m <? a) with false by lia.
  cbv beta iota. cbn [default]. rewrite s32_id by lia.
  replace (m - (a - addr) <? n) with false by lia. replace (Z.min (m - (a - addr)) n) with n by lia.
  unfold cached_bytes, rc_len. cbn [rc_buf]. rewrite Hm.
  replace ((n <? 0) || (m <? a - addr + n)) with false by lia. mrun. cbn [default].
  eexists. rewrite blit_memset by (rewrite length_take, length_drop; lia). reflexivity.
Qed.
End Load.

(** Loading the range buffer is transparent: after [r_io_buffer_load] of
    whole blocks of a memory device, every read inside them, which the buffer
    then serves, gives what the same read gave before. *)
Theorem r_io_buffer_load_transparent d fd base size (io : MRIO) addr k :
  0 <= fd -> 0 <= base -> 0 <= size < 2 ^ 31 -> base + size < 2 ^ 64 ->
  rio_ready d fd base size io -> rc_buf (io_buffer io) = None ->
  0 < k -> base <= addr -> addr + 512 * k <= base + size ->
  exists io', r_io_buffer_load addr (512 * k) io = Ok true io' /\ io_buffer_enabled io' = true
    /\ forall a n buf, addr <= a -> 0 < n <= Z.of_nat (length buf) -> a + n <= addr + 512 * k ->
         exists b io1 io2, r_io_read_at a buf n io = Ok (n, b) io1
           /\ r_io_read_at a buf n io' = Ok (n, b) io2.
Proof.
  intros Hfd Hb Hs Hm R Hnull Hk Ha Hak.
  destruct (buffer_load_ok d fd base size Hfd Hb Hs Hm io addr k) as (io' & E & R' & Hbuf); [done..|].
  exists (set_io_buffer_enabled true io'). split; [exact E|]. split; [done|].
  intros a n buf Haa Hn Han.
  destruct (rio_read_ok d fd base size Hfd Hb Hs Hm io a buf n) as (io1 & E1 & _); [done|lia..|].
  destruct (buffered_read d fd base size io' addr (512 * k) a n buf _ R' Hbuf) as (io2 & E2);
    [apply length_rio_bytes; lia|lia..|].
  exists (blit (rio_bytes d base size io a n) buf), io1, io2. split; [exact E1|].
  rewrite E2, rio_bytes_slice by lia. reflexivity.
Qed.

Definition demo_block : list Z := replicate 300 7 ++ replicate 724 9.

Lemma r_io_buffer_load_transparent_witness :
  exists io io', rio_open 0 3 demo_block 7 0x1000 (io_defaults io_zero) = Ok (Some 0%nat) io
    /\ r_io_buffer_load 0x1000 1024 io = Ok true io'
    /\ exists io1 io2 b, r_io_read_at 0x112a [0; 0; 0; 0] 4 io = Ok (4, b) io1
         /\ r_io_read_at 0x112a [0; 0; 0; 0] 4 io' = Ok (4, b) io2.
Proof.
  destruct (rio_open_ready 0 3 demo_block 7 0x1000) as (io & E & R & _);
    [lia|lia|vm_compute; reflexivity|vm_compute; reflexivity| |].
  { apply Forall_app. split; apply Forall_replicate; unfold is_byte; lia. }
  change (Z.of_nat (length demo_block)) with 1024 in R.
  assert (rc_buf (io_buffer io) = None) as Hn.
  { revert E. vm_compute (rio_open _ _ _ _ _ _). intros [= <-]. reflexivity. }
  destruct (r_io_buffer_load_transparent 0 3 0x1000 1024 io 0x1000 2) as (io' & El & _ & H);
    [lia|lia|lia|lia|exact R|exact Hn|lia|lia|lia|].
  destruct (H 0x112a 4 [0; 0; 0; 0]) as (b & io1 & io2 & H1 & H2); [lia|simpl; lia|lia|].
  exists io, io'. split; [exact E|]. split; [exact El|]. exists io1, io2, b. split; assumption.
Defined.
