(* ===== verification/EsilIo.v ===== *)
(** * ESIL over the i/o layer

    The machine bound to the layer of [IoMemory]: a mapped memory device meets
    the interface [EsilMemory], so that what [EsilMem] says of the memory
    operations holds of the devices behind [r_io_read_at]. *)

From S2P Require Import Prelude Endian Mem Num Sdb Reg RegFacts EsilState EsilOps EsilParse EsilFlags EsilSpec EsilDemo EsilMem IoState IoSection IoMap IoUndo IoCore IoMalloc IoWrite IoCache IoMemory.

(** [iob.read_at] and [iob.write_at] as [r_io_bind] sets them.  An access
    outside the memory of the program has no result: the theorems show that
    there is none. *)
Definition rio_read_at (io : MRIO) (a : Z) (buf : list Z) (len : Z) : Z * list Z * MRIO :=
  match r_io_read_at a buf len io with
  | Ok (ret, buf) io => (ret, buf, io)
  | Undef _ => (-1, buf, io)
  end.
Definition rio_write_at (io : MRIO) (a : Z) (buf : list Z) (len : Z) : Z * MRIO :=
  match r_io_write_at a buf len io with
  | Ok ret io => (ret, io)
  | Undef _ => (-1, io)
  end.

#[export] Instance rio_env : EsilEnv MRIO := bare_env rio_read_at rio_write_at.

Section Device.
(** The descriptor, its number, the place of the map and its size. *)
Variables (d : nat) (fd base size : Z).
Hypothesis fd_pos : 0 <= fd.
Hypothesis base_pos : 0 <= base.
Hypothesis size_int : 0 <= size < 2 ^ 31.
Hypothesis map_fits : base + size < 2 ^ 64.
Implicit Types io : MRIO.

Local Notation ready := (rio_ready d fd base size).
Local Notation byte := (rio_byte d base size).

Definition in_device (a len : Z) : Prop := base <= a /\ a + len <= base + size.

Definition device_byte io (x : Z) : Z := u8 (byte io x).

Lemma device_byte_ready io x : ready io -> device_byte io x = byte io x.
Proof. intros R. apply u8_id. by apply (rio_byte_is_byte d fd base size). Qed.

Lemma device_read_ok io a buf len :
  ready io -> in_device a len -> 0 <= len <= Z.of_nat (length buf) ->
  exists io', rio_read_at io a buf len
    = (len, blit (map (fun i => device_byte io (u64 (a + i))) (seqZ 0 len)) buf, io')
    /\ ready io' /\ forall x, device_byte io' x = device_byte io x.
Proof.
  intros R [Ha Hal] Hl.
  destruct (rio_read_ok d fd base size fd_pos base_pos size_int map_fits io a buf len)
    as (io' & E & R' & Hs); [done|lia..|].
  exists io'. unfold rio_read_at. rewrite E. split; [|split; [done|]].
  - do 3 f_equal. unfold rio_bytes. apply map_ext_in. intros i [Hi ?]%list_elem_of_In%elem_of_seqZ.
    rewrite device_byte_ready by done. f_equal. ulia.
  - intros x. unfold device_byte. by rewrite Hs.
Qed.

Lemma device_write_ok io a buf len :
  ready io -> in_device a len -> 0 < len <= Z.of_nat (length buf) -> len < 2 ^ 31 -> bytes buf ->
  exists io', rio_write_at io a buf len = (len, io')
    /\ ready io' /\ forall x, 0 <= x < 2 ^ 64 -> device_byte io' x
         = if u64 (x - a) <? len then byte_at buf (Z.to_nat (u64 (x - a))) else device_byte io x.
Proof.
  intros R [Ha Hal] Hl _ Hb.
  destruct (rio_write_ok d fd base size fd_pos base_pos size_int map_fits io a buf len)
    as (io' & E & R' & Hs); [done|lia..|done|].
  exists io'. unfold rio_write_at. rewrite E. split; [done|]. split; [done|].
  intros x Hx. rewrite !device_byte_ready, Hs by done.
  destruct (decide (a <= x < a + len)).
  - replace ((a <=? x) && (x <? a + len)) with true by lia.
    assert (u64 (x - a) = x - a) as -> by ulia. by replace (x - a <? len) with true by lia.
  - replace ((a <=? x) && (x <? a + len)) with false by lia.
    assert (u64 (x - a) <? len = false) as ->; [|done]. ulia.
Qed.

(** The device as a memory of the machine. *)
Definition rio_memory : EsilMemory MRIO :=
  {| io_good := ready; io_span := in_device; io_byte := device_byte;
     io_byte_range io x := u8_range _; io_read_ok := device_read_ok; io_write_ok := device_write_ok |}.
End Device.

Lemma rio_indet : bytes (indet_bytes (IO := MRIO)).
Proof. apply Forall_replicate. unfold is_byte. lia. Qed.

Lemma rio_bytes_stored d base size (io : MRIO) addr b :
  (forall i, (i < length b)%nat -> rio_byte d base size io (addr + Z.of_nat i) = byte_at b i) ->
  rio_bytes d base size io addr (Z.of_nat (length b)) = b.
Proof.
  intros Hb. apply list_eq. intros i. destruct (decide (i < length b)%nat) as [Hi|Hi].
  - rewrite rio_bytes_lookup, Hb by lia. unfold byte_at.
    by destruct (lookup_lt_is_Some_2 b i Hi) as [x ->].
  - pose proof (length_rio_bytes d base size io addr (Z.of_nat (length b)) ltac:(lia)).
    rewrite !lookup_ge_None_2 by lia. done.
Qed.

(** C21: A store of ESIL reaches the device: on a machine bound to a layer with
    a memory device mapped at [base], ["v,addr,=[n]"] makes [r_io_read_at] give
    the low [n] bytes of the value at the address, in the byte order of the
    machine, and leaves what it gives of any range beside as it was. *)
Theorem esil_poke_reaches_device d fd base size e (io : MRIO) dst src rest addr v w n :
  0 <= fd -> 0 <= base -> 0 <= size < 2 ^ 31 -> base + size < 2 ^ 64 ->
  plain e -> anal_io (anal e) = Some io -> nowrite e = false -> rio_ready d fd base size io ->
  base <= addr -> addr + Z.of_nat n <= base + size ->
  stack e = dst :: src :: rest -> width_is e w n ->
  value_of e dst = Some addr -> value_of e src = Some v ->
  parm_is_internal (parm_type_of (anal_reg (anal e)) src) = false ->
  exists e' io', run_op (Op_poke w) e = Ok (Z.of_nat n) e'
    /\ stack e' = rest /\ trap e' = trap e /\ anal_io (anal e') = Some io'
    /\ (exists io2, r_io_read_at addr (replicate n 0) (Z.of_nat n) io'
          = Ok (Z.of_nat n, ble_bytes (anal_big_endian (anal e)) n v) io2)
    /\ forall a len buf, base <= a -> 0 < len <= Z.of_nat (length buf) -> a + len <= base + size ->
         a + len <= addr \/ addr + Z.of_nat n <= a ->
         exists b io1 io2, r_io_read_at a buf len io = Ok (len, b) io1
           /\ r_io_read_at a buf len io' = Ok (len, b) io2.
Proof.
  intros Hfd Hb Hs Hm P Hio Hw R Ha Han Hst Hwn Hva Hv Hint.
  pose proof (width_is_in rio_indet _ _ _ Hwn) as Hn. pose proof (widths_cases _ Hn) as Hn8.
  pose (M := rio_memory d fd base size Hfd Hb Hs Hm).
  destruct (poke_run (Mem := M) rio_indet e io dst src rest addr v n)
    as (e' & io' & Hrun & Hst' & [_ Hio' _ R'] & Hsr & Hsto & _); [by split|by split|done..|].
  assert (forall x, base <= x < base + size -> rio_byte d base size io' x
    = if (addr <=? x) && (x <? addr + Z.of_nat n)
      then byte_at (ble_bytes (anal_big_endian (anal e)) n v) (Z.to_nat (x - addr))
      else rio_byte d base size io x) as Hbyte.
  { intros x Hx. specialize (Hsto x ltac:(lia)). rewrite ble_bytes_len in Hsto.
    change (io_byte io' x) with (device_byte d base size io' x) in Hsto.
    change (io_byte io x) with (device_byte d base size io x) in Hsto.
    rewrite !(device_byte_ready d fd) in Hsto by done. rewrite Hsto.
    replace (u64 (x - addr) <? Z.of_nat n) with ((addr <=? x) && (x <? addr + Z.of_nat n)) by ulia.
    destruct (_ && _) eqn:E; [|done]. do 2 f_equal. ulia. }
  exists e', io'. cbn [run_op]. unfold esil_poke. rewrite (at_width_run _ _ _ _ Hwn).
  split_and!; try done; [apply Hsr| |].
  - destruct (rio_read_ok d fd base size Hfd Hb Hs Hm io' addr (replicate n 0) (Z.of_nat n))
      as (io2 & E & _); [done|lia|lia|lia|rewrite length_replicate; lia|].
    exists io2. rewrite E. do 2 f_equal.
    pose proof (rio_bytes_stored d base size io' addr (ble_bytes (anal_big_endian (anal e)) n v)) as Eb.
    rewrite ble_bytes_len in Eb. rewrite Eb.
    + apply blit_full. by rewrite length_replicate, ble_bytes_len.
    + intros i Hi. rewrite Hbyte by lia. replace (_ && _) with true by lia. f_equal. lia.
  - intros a len buf Hba Hl Hal Hdis.
    destruct (rio_read_ok d fd base size Hfd Hb Hs Hm io a buf len) as (io1 & E1 & _); [done|lia..|].
    destruct (rio_read_ok d fd base size Hfd Hb Hs Hm io' a buf len) as (io2 & E2 & _); [done|lia..|].
    do 3 eexists. split; [exact E1|]. rewrite E2. do 3 f_equal. unfold rio_bytes.
    apply map_ext_in. intros i [Hi ?]%list_elem_of_In%elem_of_seqZ. rewrite Hbyte by lia.
    by replace (_ && _) with false by lia.
Qed.

(** Over the 32 bytes that [IoMemory] opens at 0x100. *)
Lemma esil_poke_reaches_device_witness :
  exists io e' io' io2,
    rio_open 0 3 demo_bytes 7 0x100 (io_defaults io_zero) = Ok (Some 0%nat) io
    /\ run_op (Op_poke W4) (set_stack ["0x104"; "0xcafebabe"]%string (machine io)) = Ok 4 e'
    /\ anal_io (anal e') = Some io'
    /\ r_io_read_at 0x104 (replicate 4 0) 4 io' = Ok (4, [0xbe; 0xba; 0xfe; 0xca]) io2.
Proof.
  destruct (rio_open_ready 0 3 demo_bytes 7 0x100) as (io & E & R & _);
    [lia|lia|simpl; lia|simpl; lia|apply demo_bytes_ok|].
  destruct (esil_poke_reaches_device 0 3 0x100 32
              (set_stack ["0x104"; "0xcafebabe"]%string (machine io)) io
              "0x104" "0xcafebabe" [] 0x104 0xcafebabe W4 4)
    as (e' & io' & Hrun & _ & _ & Hio & (io2 & Hrd) & _);
    [lia|lia|lia|lia|reflexivity|reflexivity|reflexivity|exact R|lia|simpl; lia|reflexivity
    |vm_compute; reflexivity..|].
  exists io, e', io', io2. split; [exact E|]. split; [exact Hrun|]. split; [exact Hio|].
  exact Hrd.
Defined.
