(* ===== verification/ListHeap.v ===== *)
(** * Doubly linked lists

    [libr/util/list.c]: the lists that every library of radare2 keeps its
    objects in, with their nodes in a heap.

    A list is the address of its header (a null list, on which every function
    returns at once, is not one) and an iterator the address of a node; a freed
    node leaves the heap, and an access to it is undefined.  The data is
    a pointer, [None] when null; data handed to the [free] callback of a list is
    recorded.  The walks are bounded by the number of nodes of the heap, which a
    list without cycle never exceeds. *)

From S2P Require Import Prelude.

Notation addr := nat (only parsing).

Record RListIter {A : Type} := mkNode { nd_data : option A; nd_n : option addr; nd_p : option addr }.
Arguments RListIter : clear implicits.
Arguments mkNode {A}.

(** [l_free] says whether there is a callback; the length is an [int] that is
    far from its bound. *)
Record RList := mkList {
  l_head : option addr;
  l_tail : option addr;
  l_free : bool;
  l_length : Z;
  l_sorted : bool;
}.

Record heap {A : Type} := mkHeap {
  hp_nodes : gmap addr (RListIter A);
  hp_lists : gmap addr RList;
  hp_freed : list A;
}.
Arguments heap : clear implicits.
Arguments mkHeap {A}.

Section Ops.
Context {A : Type} `{EqDecision A}.
Let MH := M (heap A).
Implicit Types h : heap A.

Definition set_nd_data (v : option A) (x : RListIter A) : RListIter A := mkNode v (nd_n x) (nd_p x).
Definition set_nd_n (v : option addr) (x : RListIter A) : RListIter A := mkNode (nd_data x) v (nd_p x).
Definition set_nd_p (v : option addr) (x : RListIter A) : RListIter A := mkNode (nd_data x) (nd_n x) v.

Definition set_l_head (v : option addr) (r : RList) : RList :=
  mkList v (l_tail r) (l_free r) (l_length r) (l_sorted r).
Definition set_l_tail (v : option addr) (r : RList) : RList :=
  mkList (l_head r) v (l_free r) (l_length r) (l_sorted r).
Definition set_l_length (v : Z) (r : RList) : RList :=
  mkList (l_head r) (l_tail r) (l_free r) v (l_sorted r).
Definition set_l_sorted (v : bool) (r : RList) : RList :=
  mkList (l_head r) (l_tail r) (l_free r) (l_length r) v.

Definition set_nodes (v : gmap addr (RListIter A)) h : heap A := mkHeap v (hp_lists h) (hp_freed h).
Definition set_lists (v : gmap addr RList) h : heap A := mkHeap (hp_nodes h) v (hp_freed h).
Definition set_freed (v : list A) h : heap A := mkHeap (hp_nodes h) (hp_lists h) v.

(** ** Accesses *)

Definition get_node (it : addr) : MH (RListIter A) := h ← gets id; lift UB_oob (hp_nodes h !! it).
Definition on_node (f : RListIter A -> RListIter A) (it : addr) : MH unit :=
  get_node it ;; modify (fun h => set_nodes (alter f it (hp_nodes h)) h).
(** [if (p) p->field = ..]. *)
Definition on_node_if (f : RListIter A -> RListIter A) (it : option addr) : MH unit :=
  match it with Some it => on_node f it | None => mret tt end.
(** [p->field = ..]. *)
Definition on_node_at (f : RListIter A -> RListIter A) (it : option addr) : MH unit :=
  match it with Some it => on_node f it | None => undef UB_null end.
Definition new_node (x : RListIter A) : MH addr :=
  h ← gets id;
  let it := fresh (dom (hp_nodes h)) in
  modify (fun h => set_nodes (<[it := x]> (hp_nodes h)) h) ;;
  mret it.
Definition free_node (it : addr) : MH unit :=
  get_node it ;; modify (fun h => set_nodes (delete it (hp_nodes h)) h).

Definition get_list (list : addr) : MH RList := h ← gets id; lift UB_oob (hp_lists h !! list).
Definition on_list (f : RList -> RList) (list : addr) : MH unit :=
  get_list list ;; modify (fun h => set_lists (alter f list (hp_lists h)) h).

Definition free_data (list : addr) (data : option A) : MH unit :=
  r ← get_list list;
  match data with
  | Some d => if l_free r then modify (fun h => set_freed (hp_freed h ++ [d]) h) else mret tt
  | None => mret tt
  end.

(** The bound of the walks. *)
Definition walk_fuel : MH nat := h ← gets id; mret (S (size (hp_nodes h))).

(** The walk [for (it = head, i = 0; it && it->data; it = it->n, i++)] to the
    first node that satisfies a condition, with whether there is one; otherwise
    it ends at null or at a node without data. *)
Fixpoint seek_node (fuel : nat) (stop : Z -> A -> bool) (i : Z) (it : option addr)
    : MH (option addr * bool) :=
  match fuel, it with
  | S fuel, Some l =>
      x ← get_node l;
      match nd_data x with
      | None => mret (it, false)
      | Some d => if stop i d then mret (it, true) else seek_node fuel stop (i + 1) (nd_n x)
      end
  | _, _ => mret (it, false)
  end.
Definition seek_list (list : addr) (stop : Z -> A -> bool) : MH (option addr * bool) :=
  r ← get_list list; fuel ← walk_fuel; seek_node fuel stop 0 (l_head r).
Definition nth_node (list : addr) (n : Z) : MH (option addr * bool) :=
  seek_list list (fun i _ => i =? n).

(** ** Creation *)

Definition r_list_init : RList := mkList None None false 0 false.

Definition r_list_newf (free : bool) : MH addr :=
  h ← gets id;
  let list := fresh (dom (hp_lists h)) in
  modify (fun h => set_lists (<[list := mkList None None free 0 false]> (hp_lists h)) h) ;;
  mret list.
Definition r_list_new : MH addr := r_list_newf false.

Definition r_list_item_new (data : option A) : MH addr := new_node (mkNode data None None).

(** ** Iterators *)

Definition r_list_iter_get_next (it : option addr) : MH (option addr) :=
  match it with Some l => x ← get_node l; mret (nd_n x) | None => mret None end.
Definition r_list_iter_get_data (it : option addr) : MH (option A) :=
  match it with Some l => x ← get_node l; mret (nd_data x) | None => mret None end.
Definition r_list_get_next (it : option addr) : MH (option addr) := r_list_iter_get_next it.
Definition r_list_iterator (list : addr) : MH (option addr) := r ← get_list list; mret (l_head r).

(** ** Insertion *)

Definition r_list_append (list : addr) (data : option A) : MH (option addr) :=
  match data with
  | None => mret None
  | Some _ =>
      r ← get_list list;
      item ← new_node (mkNode data None (l_tail r));
      on_node_if (set_nd_n (Some item)) (l_tail r) ;;
      on_list (set_l_tail (Some item)) list ;;
      (if is_some (l_head r) then mret tt else on_list (set_l_head (Some item)) list) ;;
      on_list (fun r => set_l_sorted false (set_l_length (l_length r + 1) r)) list ;;
      mret (Some item)
  end.

Definition r_list_push (list : addr) (item : option A) : MH (option addr) := r_list_append list item.

Definition r_list_prepend (list : addr) (data : option A) : MH (option addr) :=
  r ← get_list list;
  item ← new_node (mkNode data (l_head r) None);
  on_node_if (set_nd_p (Some item)) (l_head r) ;;
  on_list (set_l_head (Some item)) list ;;
  (if is_some (l_tail r) then mret tt else on_list (set_l_tail (Some item)) list) ;;
  on_list (fun r => set_l_sorted true (set_l_length (l_length r + 1) r)) list ;;
  mret (Some item).

(** A node in front of another one. *)
Definition insert_before (list it : addr) (data : option A) : MH addr :=
  x ← get_node it;
  item ← new_node (mkNode data (Some it) (nd_p x));
  on_node_if (set_nd_n (Some item)) (nd_p x) ;;
  on_node (set_nd_p (Some item)) it ;;
  on_list (fun r => set_l_sorted true (set_l_length (l_length r + 1) r)) list ;;
  mret item.

Definition r_list_insert (list : addr) (n : Z) (data : option A) : MH (option addr) :=
  r ← get_list list;
  if negb (is_some (l_head r)) || (n =? 0) then r_list_prepend list data
  else
    '(it, found) ← nth_node list n;
    match it, found with
    | Some it, true => item ← insert_before list it data; mret (Some item)
    | _, _ => r_list_append list data
    end.

(** The item is null when the data goes to the end. *)
Definition r_list_add_sorted (list : addr) (data : option A) (cmp : A -> A -> Z) : MH (option addr) :=
  match data with
  | None => mret None
  | Some d =>
      '(it, _) ← seek_list list (fun _ x => negb (0 <? cmp d x));
      match it with
      | Some it =>
          x ← get_node it;
          item ← insert_before list it data;
          (if is_some (nd_p x) then mret tt else on_list (set_l_head (Some item)) list) ;;
          mret (Some item)
      | None =>
          r_list_append list data ;;
          on_list (set_l_sorted true) list ;;
          mret None
      end
  end.

(** ** Deletion *)

Definition r_list_split_iter (list iter : addr) : MH unit :=
  r ← get_list list;
  x ← get_node iter;
  (if bool_decide (l_head r = Some iter) then on_list (set_l_head (nd_n x)) list else mret tt) ;;
  (if bool_decide (l_tail r = Some iter) then on_list (set_l_tail (nd_p x)) list else mret tt) ;;
  on_node_if (set_nd_n (nd_n x)) (nd_p x) ;;
  on_node_if (set_nd_p (nd_p x)) (nd_n x) ;;
  on_list (fun r => set_l_length (l_length r - 1) r) list.

Definition r_list_delete (list : addr) (iter : option addr) : MH unit :=
  match iter with
  | None => mret tt
  | Some iter =>
      r_list_split_iter list iter ;;
      x ← get_node iter;
      free_data list (nd_data x) ;;
      free_node iter
  end.

Fixpoint purge_from (fuel : nat) (list : addr) (it : option addr) : MH unit :=
  match fuel, it with
  | S fuel, Some l =>
      x ← get_node l;
      r_list_delete list it ;;
      purge_from fuel list (nd_n x)
  | _, _ => mret tt
  end.
Definition r_list_purge (list : addr) : MH unit :=
  r ← get_list list;
  fuel ← walk_fuel;
  purge_from fuel list (l_head r) ;;
  on_list (fun r => set_l_tail None (set_l_head None r)) list.

Definition r_list_free (list : addr) : MH unit :=
  r_list_purge list ;;
  modify (fun h => set_lists (delete list (hp_lists h)) h).

Definition r_list_delete_data (list : addr) (ptr : option A) : MH bool :=
  '(it, found) ← seek_list list (fun _ d => bool_decide (ptr = Some d));
  if (found : bool) then r_list_delete list it ;; mret true else mret false.

(** This walk does not end at a node without data. *)
Fixpoint split_from (fuel : nat) (list : addr) (ptr : option A) (it : option addr) : MH unit :=
  match fuel, it with
  | S fuel, Some l =>
      x ← get_node l;
      if bool_decide (ptr = nd_data x) then r_list_split_iter list l ;; free_node l
      else split_from fuel list ptr (nd_n x)
  | _, _ => mret tt
  end.
Definition r_list_split (list : addr) (ptr : option A) : MH unit :=
  r ← get_list list; fuel ← walk_fuel; split_from fuel list ptr (l_head r).

(** The length goes down on an empty list too. *)
Definition r_list_pop (list : addr) : MH (option A) :=
  r ← get_list list;
  data ← (match l_tail r with
         | None => mret None
         | Some iter =>
             x ← get_node iter;
             (if bool_decide (l_head r = l_tail r)
              then on_list (fun r => set_l_tail None (set_l_head None r)) list
              else on_list (set_l_tail (nd_p x)) list ;; on_node_at (set_nd_n None) (nd_p x)) ;;
             free_node iter ;;
             mret (nd_data x)
         end : MH (option A));
  on_list (fun r => set_l_length (l_length r - 1) r) list ;;
  mret data.

Definition r_list_pop_head (list : addr) : MH (option A) :=
  r ← get_list list;
  data ← (match l_head r with
         | None => mret None
         | Some iter =>
             x ← get_node iter;
             (if bool_decide (l_head r = l_tail r)
              then on_list (fun r => set_l_tail None (set_l_head None r)) list
              else on_list (set_l_head (nd_n x)) list ;; on_node_at (set_nd_p None) (nd_n x)) ;;
             free_node iter ;;
             mret (nd_data x)
         end : MH (option A));
  on_list (fun r => set_l_length (l_length r - 1) r) list ;;
  mret data.

(** The data is not freed. *)
Definition r_list_del_n (list : addr) (n : Z) : MH bool :=
  '(it, found) ← nth_node list n;
  match it, found with
  | Some it, true =>
      x ← get_node it;
      match nd_p x, nd_n x with
      | None, None => on_list (fun r => set_l_tail None (set_l_head None r)) list
      | None, Some nx =>
          on_node (set_nd_p None) nx ;; on_list (set_l_head (nd_n x)) list
      | Some pv, None =>
          on_node (set_nd_n None) pv ;; on_list (set_l_tail (nd_p x)) list
      | Some pv, Some nx =>
          on_node (set_nd_n (nd_n x)) pv ;; on_node (set_nd_p (nd_p x)) nx
      end ;;
      free_node it ;;
      on_list (fun r => set_l_length (l_length r - 1) r) list ;;
      mret true
  | _, _ => mret false
  end.

(** ** Access *)

Definition r_list_length (list : addr) : MH Z := r ← get_list list; mret (l_length r).

Definition r_list_first (list : addr) : MH (option A) := r ← get_list list; r_list_iter_get_data (l_head r).
Definition r_list_get_bottom (list : addr) : MH (option A) := r ← get_list list; r_list_iter_get_data (l_head r).
Definition r_list_get_top (list : addr) : MH (option A) := r ← get_list list; r_list_iter_get_data (l_tail r).

Definition r_list_get_n (list : addr) (n : Z) : MH (option A) :=
  '(it, found) ← nth_node list n;
  if (found : bool) then r_list_iter_get_data it else mret None.

Definition r_list_set_n (list : addr) (n : Z) (p : option A) : MH bool :=
  '(it, found) ← nth_node list n;
  match it, found with
  | Some l, true =>
      x ← get_node l;
      free_data list (nd_data x) ;;
      on_node (set_nd_data p) l ;;
      on_list (set_l_sorted false) list ;;
      mret true
  | _, _ => mret false
  end.

Definition r_list_contains (list : addr) (p : option A) : MH (option addr) :=
  '(it, found) ← seek_list list (fun _ q => bool_decide (p = Some q));
  mret (if (found : bool) then it else None).

Definition r_list_find (list : addr) (p : A) (cmp : A -> A -> Z) : MH (option addr) :=
  '(it, found) ← seek_list list (fun _ q => cmp p q =? 0);
  mret (if (found : bool) then it else None).

(** ** Whole lists *)

Fixpoint reverse_from (fuel : nat) (it : option addr) : MH unit :=
  match fuel, it with
  | S fuel, Some l =>
      x ← get_node l;
      match nd_data x with
      | None => mret tt
      | Some _ =>
          on_node (fun x => mkNode (nd_data x) (nd_p x) (nd_n x)) l ;;
          reverse_from fuel (nd_n x)
      end
  | _, _ => mret tt
  end.
Definition r_list_reverse (list : addr) : MH unit :=
  r ← get_list list;
  fuel ← walk_fuel;
  reverse_from fuel (l_head r) ;;
  on_list (fun r => set_l_tail (l_head r) (set_l_head (l_tail r) r)) list.

Fixpoint clone_from (fuel : nat) (l : addr) (it : option addr) : MH unit :=
  match fuel, it with
  | S fuel, Some i =>
      x ← get_node i;
      match nd_data x with
      | None => mret tt
      | Some _ => r_list_append l (nd_data x) ;; clone_from fuel l (nd_n x)
      end
  | _, _ => mret tt
  end.
Definition r_list_clone (list : addr) : MH addr :=
  l ← r_list_new;
  r ← get_list list;
  fuel ← walk_fuel;
  clone_from fuel l (l_head r) ;;
  on_list (set_l_sorted (l_sorted r)) l ;;
  mret l.

Definition list_empty (r : RList) : bool := negb (is_some (l_head r)) && negb (is_some (l_tail r)).

Definition r_list_join (list1 list2 : addr) : MH bool :=
  r1 ← get_list list1;
  r2 ← get_list list2;
  if list_empty r2 then mret false
  else
    (if list_empty r1
     then on_list (fun r => set_l_tail (l_tail r2) (set_l_head (l_head r2) r)) list1
     else
       match l_tail r1, l_head r2 with
       | None, _ => on_list (set_l_tail (l_head r2)) list1
       | Some t1, Some h2 =>
           on_node (set_nd_n (Some h2)) t1 ;; on_node (set_nd_p (Some t1)) h2
       | Some _, None => mret tt
       end) ;;
    on_list (fun r => set_l_length (l_length r + l_length r2) r) list1 ;;
    on_list (fun r => set_l_tail None (set_l_head None r)) list2 ;;
    on_list (set_l_sorted true) list1 ;;
    mret true.

(** ** Sorting

    A comparison of null data is undefined. *)
Section Sort.
Variable cmp : A -> A -> Z.

Definition cmp_data (a b : option A) : MH Z :=
  match a, b with Some a, Some b => mret (cmp a b) | _, _ => undef UB_null end.

Fixpoint _merge (fuel : nat) (first second : option addr) : MH (option addr) :=
  match fuel, first, second with
  | _, None, _ => mret second
  | _, _, None => mret first
  | O, _, _ => mret None
  | S fuel, Some f, Some s =>
      xf ← get_node f;
      xs ← get_node s;
      c ← cmp_data (nd_data xf) (nd_data xs);
      if 0 <? c then
        m ← _merge fuel first (nd_n xs);
        on_node (set_nd_n m) s ;;
        on_node_at (set_nd_p second) m ;;
        on_node (set_nd_p None) s ;;
        mret second
      else
        m ← _merge fuel (nd_n xf) second;
        on_node (set_nd_n m) f ;;
        on_node_at (set_nd_p first) m ;;
        on_node (set_nd_p None) f ;;
        mret first
  end.

(** [fast] and [slow] when the loop ends. *)
Fixpoint half_walk (fuel : nat) (fast slow : addr) : MH addr :=
  match fuel with
  | O => mret slow
  | S fuel =>
      x ← get_node fast;
      match nd_n x with
      | None => mret slow
      | Some n1 =>
          y ← get_node n1;
          match nd_n y with
          | None => mret slow
          | Some n2 =>
              s ← get_node slow;
              match nd_n s with
              | Some slow => half_walk fuel n2 slow
              | None => undef UB_null
              end
          end
      end
  end.

Definition _r_list_half_split (head : addr) : MH (option addr) :=
  x ← get_node head;
  match nd_n x with
  | None => mret (Some head)
  | Some _ =>
      fuel ← walk_fuel;
      slow ← half_walk fuel head head;
      s ← get_node slow;
      on_node (set_nd_n None) slow ;;
      mret (nd_n s)
  end.

Fixpoint _merge_sort (fuel : nat) (head : option addr) : MH (option addr) :=
  match fuel, head with
  | S fuel, Some hd =>
      x ← get_node hd;
      match nd_n x with
      | None => mret head
      | Some _ =>
          second ← _r_list_half_split hd;
          head ← _merge_sort fuel head;
          second ← _merge_sort fuel second;
          n ← walk_fuel;
          _merge n head second
      end
  | _, _ => mret head
  end.

Fixpoint last_node (fuel : nat) (it : option addr) : MH (option addr) :=
  match fuel, it with
  | S fuel, Some l =>
      x ← get_node l;
      match nd_n x with None => mret it | Some _ => last_node fuel (nd_n x) end
  | _, _ => mret it
  end.

Definition r_list_merge_sort (list : addr) : MH unit :=
  r ← get_list list;
  (if negb (l_sorted r) && is_some (l_head r) then
     fuel ← walk_fuel;
     head ← _merge_sort fuel (l_head r);
     on_list (set_l_head head) list ;;
     tail ← last_node fuel head;
     on_list (set_l_tail tail) list
   else mret tt) ;;
  on_list (set_l_sorted true) list.

(** The inner loop: [it2] runs over the nodes after [it]. *)
Fixpoint insertion_inner (fuel : nat) (it : addr) (it2 : option addr) : MH unit :=
  match fuel, it2 with
  | S fuel, Some l2 =>
      y ← get_node l2;
      match nd_data y with
      | None => mret tt
      | Some _ =>
          x ← get_node it;
          c ← cmp_data (nd_data x) (nd_data y);
          (if 0 <? c then
             on_node (set_nd_data (nd_data y)) it ;; on_node (set_nd_data (nd_data x)) l2
           else mret tt) ;;
          insertion_inner fuel it (nd_n y)
      end
  | _, _ => mret tt
  end.
Fixpoint insertion_outer (fuel : nat) (it : option addr) : MH unit :=
  match fuel, it with
  | S fuel, Some l =>
      x ← get_node l;
      match nd_data x with
      | None => mret tt
      | Some _ =>
          insertion_inner fuel l (nd_n x) ;;
          insertion_outer fuel (nd_n x)
      end
  | _, _ => mret tt
  end.
Definition r_list_insertion_sort (list : addr) : MH unit :=
  r ← get_list list;
  if l_sorted r then mret tt
  else
    fuel ← walk_fuel;
    insertion_outer fuel (l_head r) ;;
    on_list (set_l_sorted true) list.

Definition r_list_sort (list : addr) : MH unit :=
  r ← get_list list;
  if 43 <? l_length r then r_list_merge_sort list else r_list_insertion_sort list.
End Sort.
End Ops.
