(* ===== verification/ListSeg.v ===== *)
(** * Linked segments

    The nodes of the heap that a list links, the sequence that they stand for,
    linking a node in and out, and the accesses of [ListHeap] on such a heap. *)

From S2P Require Import Prelude ListHeap.

Section Segments.
Context {A : Type} `{EqDecision A}.
Implicit Types (N : gmap addr (RListIter A)) (L : gmap addr RList) (F : list A) (h : heap A).
Implicit Types (ns xs ys : list (addr * A)) (p n : option addr) (r : RList).

(** ** Segments

    The nodes of a segment with their data, between a previous and a next
    node. *)
Definition first ns n : option addr := match ns with [] => n | (l, _) :: _ => Some l end.
Fixpoint final p ns : option addr := match ns with [] => p | (l, _) :: ns => final (Some l) ns end.

Fixpoint dll N p ns n : Prop :=
  match ns with
  | [] => True
  | (l, d) :: ns => N !! l = Some (mkNode (Some d) (first ns n) p) /\ dll N (Some l) ns n
  end.

Lemma first_app xs ys n : first (xs ++ ys) n = first xs (first ys n).
Proof. by destruct xs as [|[l d] xs]. Qed.

Lemma final_app p xs ys : final p (xs ++ ys) = final (final p xs) ys.
Proof. revert p. induction xs as [|[l d] xs IH]; intros p; [done|]. apply IH. Qed.

Lemma dll_app N p xs ys n :
  dll N p (xs ++ ys) n <-> dll N p xs (first ys n) /\ dll N (final p xs) ys n.
Proof.
  revert p. induction xs as [|[l d] xs IH]; intros p; simpl; [tauto|].
  rewrite IH, first_app. tauto.
Qed.

Lemma dll_agree N N' p ns n :
  (forall l, l ∈ ns.*1 -> N' !! l = N !! l) -> dll N p ns n -> dll N' p ns n.
Proof.
  revert p. induction ns as [|[l d] ns IH]; intros p Hl; simpl; [done|]. intros [E H]. split.
  - rewrite Hl; [done|]. left.
  - apply IH; [|done]. intros l' H'. apply Hl. by right.
Qed.

Lemma dll_node N p xs l d ys n :
  dll N p (xs ++ (l, d) :: ys) n -> N !! l = Some (mkNode (Some d) (first ys n) (final p xs)).
Proof. rewrite dll_app. by intros (_ & H & _). Qed.

Lemma dll_in N p ns n l : dll N p ns n -> l ∈ ns.*1 -> is_Some (N !! l).
Proof.
  intros H ([l' d] & -> & Hl)%list_elem_of_fmap. apply list_elem_of_split in Hl as (xs & ys & ->).
  simpl. rewrite (dll_node _ _ _ _ _ _ _ H). by eexists.
Qed.

Lemma final_in p ns : ns <> [] -> exists l, final p ns = Some l /\ l ∈ ns.*1.
Proof.
  revert p. induction ns as [|[l d] ns IH]; intros p H; [done|]. simpl.
  destruct ns as [|x ns]; [by exists l; split; [|left]|].
  destruct (IH (Some l)) as (l' & E & Hl); [done|]. exists l'. split; [done|by right].
Qed.

Lemma first_in ns n : ns <> [] -> exists l, first ns n = Some l /\ l ∈ ns.*1.
Proof. destruct ns as [|[l d] ns]; [done|]. intros _. exists l. split; [done|left]. Qed.

(** Writing to the node a pointer points to, if there is one. *)
Definition alter_if (f : RListIter A -> RListIter A) (o : option addr) N : gmap addr (RListIter A) :=
  match o with Some l => alter f l N | None => N end.

Lemma alter_if_ne f o N l : o <> Some l -> alter_if f o N !! l = N !! l.
Proof. destruct o as [l'|]; [|done]. intros H. apply lookup_alter_ne. congruence. Qed.

Lemma dll_insert N p ns n l x : l ∉ ns.*1 -> dll N p ns n -> dll (<[l := x]> N) p ns n.
Proof. intros Hl. apply dll_agree. intros l' H'. apply lookup_insert_ne. by intros ->. Qed.
Lemma dll_delete N p ns n l : l ∉ ns.*1 -> dll N p ns n -> dll (delete l N) p ns n.
Proof. intros Hl. apply dll_agree. intros l' H'. apply lookup_delete_ne. by intros ->. Qed.
Lemma dll_alter N p ns n f o :
  (forall l, o = Some l -> l ∉ ns.*1) -> dll N p ns n -> dll (alter_if f o N) p ns n.
Proof. intros Hl. apply dll_agree. intros l' H'. apply alter_if_ne. intros E. by apply (Hl l'). Qed.

(** Relinking the ends of a segment. *)
Lemma dll_relink_next N p ns n n' :
  NoDup ns.*1 -> dll N p ns n -> dll (alter_if (set_nd_n n') (final None ns) N) p ns n'.
Proof.
  destruct (decide (ns = [])) as [->|Hne]; [done|]. destruct (exists_last Hne) as (xs & [l d] & ->).
  rewrite fmap_app, NoDup_app, !dll_app, final_app. intros (_ & Hd & _) [H1 [H2 _]]. simpl in *.
  split; [|split; [|done]].
  - apply (dll_alter _ _ _ _ _ (Some l)); [|done]. intros ? [= <-] Hl. by apply (Hd l Hl), list_elem_of_singleton.
  - by rewrite lookup_alter_eq, H2.
Qed.

Lemma dll_relink_prev N p ns n p' :
  NoDup ns.*1 -> dll N p ns n -> dll (alter_if (set_nd_p p') (first ns None) N) p' ns n.
Proof.
  destruct ns as [|[l d] ns]; [done|]. simpl. rewrite NoDup_cons. intros [Hl _] [H1 H2]. split.
  - by rewrite lookup_alter_eq, H1.
  - apply (dll_alter _ _ _ _ _ (Some l)); [|done]. by intros ? [= <-].
Qed.

(** ** Lists *)

Record is_list N r ns : Prop := {
  il_head : l_head r = first ns None;
  il_tail : l_tail r = final None ns;
  il_length : l_length r = Z.of_nat (length ns);
  il_nodup : NoDup ns.*1;
  il_dll : dll N None ns None;
}.

(** Nodes that are not of the list are left alone. *)
Definition frame N N' (X : list addr) : Prop :=
  forall l, l ∉ X -> is_Some (N !! l) -> N' !! l = N !! l.

Lemma frame_list N N' X p ns n :
  frame N N' X -> (forall l, l ∈ X -> l ∉ ns.*1) -> dll N p ns n -> dll N' p ns n.
Proof.
  intros Hf Hd H. eapply dll_agree; [|exact H]. intros l Hl. apply Hf; [|by eapply dll_in].
  intros Hx. by apply (Hd l).
Qed.

Lemma is_list_size N r ns : is_list N r ns -> (length ns < S (size N))%nat.
Proof.
  intros [_ _ _ Hnd Hd]. rewrite <- (length_fmap fst ns).
  rewrite <- (size_list_to_set (C := gset addr)) by done. rewrite <- size_dom.
  apply Nat.lt_succ_r, subseteq_size. intros l Hl. apply elem_of_list_to_set in Hl.
  apply elem_of_dom. by eapply dll_in.
Qed.

(** *** Running the accesses *)

Lemma get_node_run N L F l x :
  N !! l = Some x -> get_node l (mkHeap N L F) = Ok x (mkHeap N L F).
Proof. intros E. unfold get_node. mrun. simpl. by rewrite E. Qed.

Lemma on_node_run N L F f l x :
  N !! l = Some x -> on_node f l (mkHeap N L F) = Ok tt (mkHeap (alter f l N) L F).
Proof. intros E. unfold on_node. rewrite run_bind, (get_node_run _ _ _ _ _ E). by mrun. Qed.

Lemma on_node_if_run N L F f o :
  (forall l, o = Some l -> is_Some (N !! l)) ->
  on_node_if f o (mkHeap N L F) = Ok tt (mkHeap (alter_if f o N) L F).
Proof.
  destruct o as [l|]; [|done]. intros H. destruct (H l eq_refl) as [x E]. by eapply on_node_run.
Qed.

Lemma get_list_run N L F list r :
  L !! list = Some r -> get_list list (mkHeap N L F) = Ok r (mkHeap N L F).
Proof. intros E. unfold get_list. mrun. simpl. by rewrite E. Qed.

Lemma on_list_run N L F f list r :
  L !! list = Some r -> on_list f list (mkHeap N L F) = Ok tt (mkHeap N (<[list := f r]> L) F).
Proof.
  intros E. unfold on_list. rewrite run_bind, (get_list_run _ _ _ _ _ E). mrun.
  unfold set_lists. simpl. do 3 f_equal. apply map_eq. intros l.
  destruct (decide (l = list)) as [->|Hl].
  - by rewrite lookup_alter_eq, lookup_insert_eq, E.
  - by rewrite lookup_alter_ne, lookup_insert_ne by done.
Qed.

Lemma new_node_run N L F x :
  new_node x (mkHeap N L F) = Ok (fresh (dom N)) (mkHeap (<[fresh (dom N) := x]> N) L F).
Proof. reflexivity. Qed.

Lemma free_node_run N L F l x :
  N !! l = Some x -> free_node l (mkHeap N L F) = Ok tt (mkHeap (delete l N) L F).
Proof. intros E. unfold free_node. rewrite run_bind, (get_node_run _ _ _ _ _ E). by mrun. Qed.

Lemma fresh_node N : N !! fresh (dom N) = None.
Proof. apply not_elem_of_dom, is_fresh. Qed.

Lemma dll_fresh N p ns n : dll N p ns n -> fresh (dom N) ∉ ns.*1.
Proof. intros H Hl. destruct (dll_in _ _ _ _ _ H Hl) as [x E]. by rewrite fresh_node in E. Qed.

(** *** Linking a node in and out *)

Lemma final_mem ns l : final None ns = Some l -> l ∈ ns.*1.
Proof.
  intros E. destruct (decide (ns = [])) as [->|Hne]; [done|].
  destruct (final_in None ns Hne) as (l' & E' & Hl). congruence.
Qed.

Lemma first_mem ns l : first ns None = Some l -> l ∈ ns.*1.
Proof. destruct ns as [|[l' d] ns]; [done|]. intros [= ->]. left. Qed.

Definition link_in N xs (it : addr) (d : A) ys : gmap addr (RListIter A) :=
  alter_if (set_nd_p (Some it)) (first ys None)
    (alter_if (set_nd_n (Some it)) (final None xs)
       (<[it := mkNode (Some d) (first ys None) (final None xs)]> N)).

Lemma link_in_dll N xs it d ys :
  NoDup (xs ++ ys).*1 -> N !! it = None -> dll N None (xs ++ ys) None ->
  dll (link_in N xs it d ys) None (xs ++ (it, d) :: ys) None
  /\ NoDup (xs ++ (it, d) :: ys).*1 /\ frame N (link_in N xs it d ys) (xs ++ ys).*1.
Proof.
  intros Hnd Hit H. assert (it ∉ (xs ++ ys).*1) as Hni.
  { intros Hl. destruct (dll_in _ _ _ _ _ H Hl). congruence. }
  rewrite fmap_app in *. apply NoDup_app in Hnd as (Hx & Hd & Hy).
  rewrite elem_of_app in Hni.
  assert (it ∉ xs.*1 /\ it ∉ ys.*1) as [Hix Hiy] by tauto.
  assert (forall l, final None xs = Some l -> l ∉ ys.*1 /\ l <> it) as Hf.
  { intros l El%final_mem. split; [by apply Hd|by intros ->]. }
  assert (forall l, first ys None = Some l -> l ∉ xs.*1 /\ l <> it) as Hs.
  { intros l El%first_mem. split; [intros Hl; by apply (Hd l)|by intros ->]. }
  apply dll_app in H as [H1 H2]. unfold link_in. split; [|split].
  - apply dll_app. simpl. split; [|split].
    + apply dll_alter; [intros l El; by apply Hs|]. apply dll_relink_next with (first ys None); [done|].
      by apply dll_insert.
    + rewrite !alter_if_ne by (intros E; by apply Hf in E as [] || by apply Hs in E as []).
      by rewrite lookup_insert_eq.
    + apply dll_relink_prev with (final None xs); [done|].
      apply dll_alter; [intros l El; by apply Hf|]. by apply dll_insert.
  - rewrite fmap_cons. apply NoDup_app. split; [done|]. split.
    + intros l Hl. rewrite not_elem_of_cons. split; [by intros ->|by apply Hd].
    + by apply NoDup_cons.
  - intros l Hl [x Ex]. rewrite fmap_app, elem_of_app in Hl.
    rewrite !alter_if_ne by (intros E; apply Hl; ((left; by apply final_mem) || (right; by apply first_mem))).
    apply lookup_insert_ne. congruence.
Qed.

Definition link_out N xs ys : gmap addr (RListIter A) :=
  alter_if (set_nd_p (final None xs)) (first ys None)
    (alter_if (set_nd_n (first ys None)) (final None xs) N).

Lemma link_out_dll N xs l d ys :
  NoDup (xs ++ (l, d) :: ys).*1 -> dll N None (xs ++ (l, d) :: ys) None ->
  dll (link_out N xs ys) None (xs ++ ys) None /\ NoDup (xs ++ ys).*1 /\ l ∉ (xs ++ ys).*1
  /\ link_out N xs ys !! l = N !! l /\ frame N (link_out N xs ys) (xs ++ ys).*1.
Proof.
  intros Hnd H. rewrite !fmap_app, fmap_cons in *. apply NoDup_app in Hnd as (Hx & Hd & Hy).
  apply NoDup_cons in Hy as [Hly Hy]. simpl in *.
  assert (l ∉ xs.*1) as Hlx by (intros Hl; apply (Hd l Hl); left).
  assert (forall k, final None xs = Some k -> k ∉ ys.*1 /\ k <> l) as Hf.
  { intros k Ek%final_mem. specialize (Hd k Ek). rewrite not_elem_of_cons in Hd. tauto. }
  assert (forall k, first ys None = Some k -> k ∉ xs.*1 /\ k <> l) as Hs.
  { intros k Ek%first_mem. split; [|by intros ->]. intros Hk. apply (Hd k Hk). by right. }
  apply dll_app in H as [H1 [H2 H3]]. unfold link_out. split_and!.
  - apply dll_app. split.
    + apply dll_alter; [intros k Ek; by apply Hs|]. by apply dll_relink_next with (Some l).
    + apply dll_relink_prev with (Some l); [done|]. apply dll_alter; [|done]. intros k Ek; by apply Hf.
  - apply NoDup_app. split; [done|]. split; [|done]. intros k Hk Hk'. apply (Hd k Hk). by right.
  - rewrite elem_of_app. tauto.
  - by rewrite !alter_if_ne by (intros E; by apply Hf in E as [] || by apply Hs in E as []).
  - intros k Hk _. rewrite elem_of_app in Hk.
    by rewrite !alter_if_ne by (intros E; apply Hk; ((left; by apply final_mem) || (right; by apply first_mem))).
Qed.
End Segments.

(** Running an operation over a heap. *)
Ltac in_lists := first [eassumption | apply lookup_insert_eq].
Ltac hrun :=
  repeat (first [ rewrite run_bind | rewrite run_ret | rewrite run_gets | rewrite new_node_run
                | rewrite insert_insert_eq
                | erewrite get_list_run by in_lists | erewrite on_list_run by in_lists ];
          cbv beta iota).
