(* ===== verification/ListFacts.v ===== *)
(** * What the operations do

    A well-linked heap list stands for the sequence of its nodes; the insertions,
    deletions and walks of [ListHeap] on it are those on that sequence, and
    they leave the nodes of other lists alone. *)

From S2P Require Import Prelude ListHeap ListSeg.

Section Facts.
Context {A : Type} `{EqDecision A}.
Implicit Types (N : gmap addr (RListIter A)) (L : gmap addr RList) (F : list A) (h : heap A).
Implicit Types (ns xs ys : list (addr * A)) (p n : option addr) (r : RList).

(** The outcome of an operation on a list that stands for [ns]: the result, the
    new sequence and the data freed. *)
Definition becomes {B} (m : M (heap A) B) list N L F r ns (ret : B) ns' F' : Prop :=
  exists N' r', m (mkHeap N L F) = Ok ret (mkHeap N' (<[list := r']> L) F')
    /\ is_list N' r' ns' /\ l_free r' = l_free r /\ frame N N' ns.*1.

(** *** Insertion *)

Lemma final_is_some ns : is_some (final None ns) = is_some (first ns None).
Proof.
  destruct ns as [|[l d] ns]; [done|]. simpl.
  destruct (final_in None ((l, d) :: ns)) as (l' & E & _); [done|]. simpl in E. by rewrite E.
Qed.

Lemma alter_if_is_some f o N l : is_Some (N !! l) -> is_Some (alter_if f o N !! l).
Proof.
  intros [x E]. destruct o as [k|]; simpl; [|by eexists]. destruct (decide (l = k)) as [->|Hne].
  - rewrite lookup_alter_eq, E. by eexists.
  - rewrite lookup_alter_ne by done. by eexists.
Qed.

Lemma alter_if_some N f it x o :
  (forall l, o = Some l -> is_Some (N !! l)) ->
  forall l, o = Some l -> is_Some (alter_if f it (<[fresh (dom N) := x]> N) !! l).
Proof.
  intros H l E. apply alter_if_is_some. destruct (H l E) as [y Ey].
  destruct (decide (l = fresh (dom N))) as [->|Hne]; [rewrite lookup_insert_eq; by eexists|].
  rewrite lookup_insert_ne by done. by eexists.
Qed.

Lemma final_some N r ns : is_list N r ns -> forall l, final None ns = Some l -> is_Some (N !! l).
Proof. intros [] l Hl%final_mem. by eapply dll_in. Qed.
Lemma first_some N r ns : is_list N r ns -> forall l, first ns None = Some l -> is_Some (N !! l).
Proof. intros [] l Hl%first_mem. by eapply dll_in. Qed.

Lemma append_run N L F list r ns d :
  L !! list = Some r -> is_list N r ns ->
  becomes (r_list_append list (Some d)) list N L F r ns (Some (fresh (dom N)))
    (ns ++ [(fresh (dom N), d)]) F.
Proof.
  intros El Hl. pose proof Hl as [Hh Ht Hlen Hnd Hd]. unfold becomes, r_list_append.
  destruct (link_in_dll N ns (fresh (dom N)) d []) as (Hd' & Hnd' & Hf);
    [by rewrite app_nil_r|apply fresh_node|by rewrite app_nil_r|]. rewrite app_nil_r in Hf.
  hrun. rewrite on_node_if_run; [|rewrite Ht; apply (alter_if_some N (fun x => x) None), (final_some _ _ _ Hl)].
  hrun. exists (link_in N ns (fresh (dom N)) d []). rewrite Ht.
  assert (is_some (l_head r) = is_some (first ns None)) as Eh by by rewrite Hh.
  destruct ns as [|[l0 d0] ns]; simpl in Eh; rewrite Eh; hrun; eexists; (split; [reflexivity|]);
    (split; [|done]); split; try done; simpl in *; rewrite ?Hh, ?final_app, ?length_app; simpl; try done; lia.
Qed.

(** The new list is flagged as sorted. *)
Lemma prepend_flagged_run N L F list r ns d :
  L !! list = Some r -> is_list N r ns ->
  exists N' r', r_list_prepend list (Some d) (mkHeap N L F)
    = Ok (Some (fresh (dom N))) (mkHeap N' (<[list := r']> L) F)
    /\ is_list N' r' ((fresh (dom N), d) :: ns) /\ l_free r' = l_free r /\ frame N N' ns.*1 /\ l_sorted r' = true.
Proof.
  intros El Hl. pose proof Hl as [Hh Ht Hlen Hnd Hd]. unfold r_list_prepend.
  destruct (link_in_dll N [] (fresh (dom N)) d ns) as (Hd' & Hnd' & Hf); [done|apply fresh_node|done|].
  hrun. rewrite on_node_if_run; [|rewrite Hh; apply (alter_if_some N (fun x => x) None), (first_some _ _ _ Hl)].
  hrun. exists (link_in N [] (fresh (dom N)) d ns). rewrite Hh.
  assert (is_some (l_tail r) = is_some (first ns None)) as Eh by by rewrite Ht, final_is_some.
  destruct ns as [|[l0 d0] ns]; simpl in Eh; rewrite Eh; hrun; eexists; (split; [reflexivity|]);
    (split; [|done]); split; try done; simpl in *; rewrite ?Ht; try done; lia.
Qed.

Lemma prepend_run N L F list r ns d :
  L !! list = Some r -> is_list N r ns ->
  becomes (r_list_prepend list (Some d)) list N L F r ns (Some (fresh (dom N)))
    ((fresh (dom N), d) :: ns) F.
Proof.
  intros El Hl. destruct (prepend_flagged_run N L F list r ns d El Hl) as (N' & r' & E & H1 & H2 & H3 & _).
  by exists N', r'.
Qed.

Lemma insert_before_run N L F list r xs k x ys d :
  L !! list = Some r -> dll N None (xs ++ (k, x) :: ys) None ->
  insert_before list k (Some d) (mkHeap N L F)
  = Ok (fresh (dom N)) (mkHeap (link_in N xs (fresh (dom N)) d ((k, x) :: ys))
      (<[list := set_l_sorted true (set_l_length (l_length r + 1) r)]> L) F).
Proof.
  intros El H. pose proof (dll_node _ _ _ _ _ _ _ H) as Ek. unfold insert_before.
  assert (forall l, final None xs = Some l -> is_Some (N !! l)) as Hp.
  { intros l Hl%final_mem. eapply dll_in; [exact H|]. rewrite fmap_app. apply elem_of_app. by left. }
  rewrite run_bind, (get_node_run _ _ _ _ _ Ek). cbn [nd_p nd_n nd_data]. hrun.
  rewrite on_node_if_run by (by apply (alter_if_some N (fun x => x) None)). hrun.
  destruct (alter_if_some N (set_nd_n (Some (fresh (dom N)))) (final None xs)
              (mkNode (Some d) (Some k) (final None xs)) (Some k)) with (l := k) as [y Ey]; [|done|].
  { intros l [= <-]. by eexists. }
  rewrite (on_node_run _ _ _ _ _ _ Ey). hrun. reflexivity.
Qed.

(** *** Walks *)

Fixpoint seek_split (stop : Z -> A -> bool) (i : Z) ns : list (addr * A) * list (addr * A) :=
  match ns with
  | [] => ([], [])
  | (l, d) :: ns =>
      if stop i d then ([], (l, d) :: ns)
      else let '(xs, ys) := seek_split stop (i + 1) ns in ((l, d) :: xs, ys)
  end.

Lemma seek_split_app stop i ns : fst (seek_split stop i ns) ++ snd (seek_split stop i ns) = ns.
Proof.
  revert i. induction ns as [|[l d] ns IH]; intros i; simpl; [done|].
  destruct (stop i d); [done|]. specialize (IH (i + 1)). destruct (seek_split stop (i + 1) ns). simpl in *.
  by rewrite IH.
Qed.

Lemma seek_split_nth (n i : Z) ns :
  seek_split (fun j _ => j =? n) i ns
  = if (i <=? n) && (n <? i + Z.of_nat (length ns))
    then (take (Z.to_nat (n - i)) ns, drop (Z.to_nat (n - i)) ns) else (ns, []).
Proof.
  revert i. induction ns as [|[l d] ns IH]; intros i; simpl; [by destruct (_ && _); rewrite ?take_nil, ?drop_nil|].
  destruct (Z.eqb_spec i n) as [->|Hne].
  - replace ((n <=? n) && (n <? n + Z.of_nat (S (length ns)))) with true by (symmetry; apply andb_true_iff; rewrite Z.leb_le, Z.ltb_lt; lia).
    by rewrite Z.sub_diag.
  - rewrite IH.
    assert ((i + 1 <=? n) && (n <? i + 1 + Z.of_nat (length ns))
            = (i <=? n) && (n <? i + Z.of_nat (S (length ns)))) as ->
      by (apply eq_true_iff_eq; rewrite !andb_true_iff, !Z.leb_le, !Z.ltb_lt; lia).
    destruct (_ && _) eqn:E; [|done].
    replace (Z.to_nat (n - i)) with (S (Z.to_nat (n - (i + 1)))) by lia. done.
Qed.

Lemma seek_node_run fuel stop i N L F p ns :
  (length ns < fuel)%nat -> dll N p ns None ->
  seek_node fuel stop i (first ns None) (mkHeap N L F)
  = Ok (first (snd (seek_split stop i ns)) None, is_some (first (snd (seek_split stop i ns)) None))
      (mkHeap N L F).
Proof.
  revert fuel i p. induction ns as [|[l d] ns IH]; intros fuel i p Hfu H; simpl.
  - by destruct fuel.
  - destruct fuel as [|fuel]; simpl in Hfu; [lia|]. destruct H as [E H]. simpl.
    rewrite run_bind, (get_node_run _ _ _ _ _ E). simpl. destruct (stop i d); [done|].
    rewrite (IH fuel (i + 1) (Some l)) by (done || lia). by destruct (seek_split stop (i + 1) ns).
Qed.

Lemma seek_list_run N L F list r ns stop :
  L !! list = Some r -> is_list N r ns ->
  seek_list list stop (mkHeap N L F)
  = Ok (first (snd (seek_split stop 0 ns)) None, is_some (first (snd (seek_split stop 0 ns)) None))
      (mkHeap N L F).
Proof.
  intros El Hl. unfold seek_list, walk_fuel. hrun. unfold id. cbn [hp_nodes]. rewrite (il_head _ _ _ Hl).
  apply (seek_node_run _ _ _ _ _ _ None); [by apply (is_list_size _ r)|apply (il_dll _ _ _ Hl)].
Qed.

(** *** Deletion *)

Lemma first_ne ns n : ns <> [] -> first ns n = first ns None.
Proof. by destruct ns as [|[l d] ns]. Qed.
Lemma final_ne p ns : ns <> [] -> final p ns = final None ns.
Proof. by destruct ns as [|[l d] ns]. Qed.

(** The header after the removal of a node between [xs] and [ys]. *)
Definition without r xs ys : RList :=
  mkList (first (xs ++ ys) None) (final None (xs ++ ys)) (l_free r) (l_length r - 1) (l_sorted r).

Lemma without_is_list N r xs l d ys :
  is_list N r (xs ++ (l, d) :: ys) ->
  is_list (delete l (link_out N xs ys)) (without r xs ys) (xs ++ ys)
  /\ frame N (delete l (link_out N xs ys)) (xs ++ (l, d) :: ys).*1.
Proof.
  intros [_ _ Hlen Hnd Hd]. destruct (link_out_dll N xs l d ys Hnd Hd) as (H1 & H2 & H3 & _ & H5).
  split; [split; simpl; try done|].
  - rewrite Hlen, !length_app. simpl. lia.
  - by apply dll_delete.
  - intros k Hk Hs. rewrite fmap_app, fmap_cons, elem_of_app, elem_of_cons in Hk. simpl in Hk.
    rewrite lookup_delete_ne by (intros ->; tauto). apply H5; [|done].
    rewrite fmap_app, elem_of_app. tauto.
Qed.

Lemma first_is_node xs (l : addr) d ys :
  NoDup (xs ++ (l, d) :: ys).*1 -> first (xs ++ (l, d) :: ys) None = Some l <-> xs = [].
Proof.
  destruct xs as [|[k e] xs]; [done|]. simpl. rewrite fmap_app, fmap_cons, NoDup_cons. simpl.
  intros [Hk _]. split; [|done]. intros [= ->]. exfalso. apply Hk. rewrite elem_of_app, elem_of_cons. tauto.
Qed.

Lemma final_is_node xs (l : addr) d ys :
  NoDup (xs ++ (l, d) :: ys).*1 -> final None (xs ++ (l, d) :: ys) = Some l <-> ys = [].
Proof.
  rewrite final_app. simpl. intros Hnd. split; [|by intros ->]. intros E.
  destruct ys as [|y ys]; [done|]. exfalso.
  destruct (final_in (Some l) (y :: ys)) as (k & Ek & Hk); [done|]. rewrite Ek in E. injection E as ->.
  rewrite fmap_app, NoDup_app, fmap_cons, NoDup_cons in Hnd. tauto.
Qed.

(** The header that the writes leave is the expected one. *)
Ltac relinked :=
  unfold set_l_length, set_l_head, set_l_tail; simpl;
  repeat match goal with
         | E : l_head _ = _ |- _ => rewrite E; clear E
         | E : l_tail _ = _ |- _ => rewrite E; clear E
         end;
  rewrite ?first_app, ?final_app; simpl;
  repeat match goal with
         | Hx : ?xs <> [] |- context [first ?xs ?n] =>
             lazymatch n with None => fail | _ => rewrite (first_ne xs n Hx) end
         | Hx : ?xs <> [] |- context [final ?p ?xs] =>
             lazymatch p with None => fail | _ => rewrite (final_ne p xs Hx) end
         end; done.

Lemma split_iter_run N L F list r xs l d ys :
  L !! list = Some r -> is_list N r (xs ++ (l, d) :: ys) ->
  r_list_split_iter list l (mkHeap N L F)
  = Ok tt (mkHeap (link_out N xs ys) (<[list := without r xs ys]> L) F).
Proof.
  intros El Hl. pose proof Hl as [Hh Ht Hlen Hnd Hd]. pose proof (dll_node _ _ _ _ _ _ _ Hd) as Ex.
  destruct (link_out_dll N xs l d ys Hnd Hd) as (_ & _ & Hni & _ & _).
  assert (forall k, final None xs = Some k -> is_Some (N !! k)) as Hp.
  { intros k Ek%final_mem. apply (dll_in N None _ None k Hd). rewrite fmap_app, elem_of_app. by left. }
  assert (forall k, first ys None = Some k -> is_Some (N !! k)) as Hn.
  { intros k Ek%first_mem. apply (dll_in N None _ None k Hd).
    rewrite fmap_app, fmap_cons, elem_of_app, elem_of_cons. tauto. }
  unfold r_list_split_iter. hrun. rewrite (get_node_run _ _ _ _ _ Ex). cbn [nd_n nd_p].
  rewrite Hh, Ht.
  rewrite (bool_decide_ext _ _ (first_is_node xs l d ys Hnd)), (bool_decide_ext _ _ (final_is_node xs l d ys Hnd)).
  unfold without. rewrite first_app, !final_app. unfold link_out.
  destruct (bool_decide_reflect (xs = [])) as [->|Hx], (bool_decide_reflect (ys = [])) as [->|Hy];
    hrun; rewrite on_node_if_run by done; hrun;
    (rewrite on_node_if_run by (intros; apply alter_if_is_some; auto)); hrun.
  all: relinked.
Qed.

Definition freed r (l : Datatypes.list A) : Datatypes.list A := if l_free r then l else [].

Lemma free_data_run N L F list r d :
  L !! list = Some r ->
  free_data list (Some d) (mkHeap N L F) = Ok tt (mkHeap N L (F ++ freed r [d])).
Proof.
  intros El. unfold free_data, freed. hrun. destruct (l_free r); [by mrun|]. hrun. by rewrite app_nil_r.
Qed.

Lemma delete_run N L F list r xs l d ys :
  L !! list = Some r -> is_list N r (xs ++ (l, d) :: ys) ->
  becomes (r_list_delete list (Some l)) list N L F r (xs ++ (l, d) :: ys) tt (xs ++ ys) (F ++ freed r [d]).
Proof.
  intros El Hl. destruct (without_is_list _ _ _ _ _ _ Hl) as [Hl' Hf].
  exists (delete l (link_out N xs ys)), (without r xs ys). split; [|done].
  pose proof Hl as [_ _ _ Hnd Hd]. destruct (link_out_dll N xs l d ys Hnd Hd) as (_ & _ & _ & Eo & _).
  rewrite (dll_node _ _ _ _ _ _ _ Hd) in Eo.
  unfold r_list_delete. rewrite run_bind, (split_iter_run _ _ _ _ _ _ _ _ _ El Hl).
  rewrite run_bind, (get_node_run _ _ _ _ _ Eo). cbn [nd_data].
  rewrite run_bind, (free_data_run _ _ _ _ (without r xs ys)) by apply lookup_insert_eq.
  by rewrite (free_node_run _ _ _ _ _ Eo).
Qed.

Lemma unchanged {B} (m : M (heap A) B) N L F list r ns ret :
  L !! list = Some r -> is_list N r ns -> m (mkHeap N L F) = Ok ret (mkHeap N L F) ->
  becomes m list N L F r ns ret ns F.
Proof.
  intros El Hl E. exists N, r. rewrite insert_id by done. by split_and!.
Qed.

Lemma becomes_eq {B} (m m' : M (heap A) B) N L F list r ns ret ns' F' :
  m (mkHeap N L F) = m' (mkHeap N L F) ->
  becomes m' list N L F r ns ret ns' F' -> becomes m list N L F r ns ret ns' F'.
Proof. intros E (N' & r' & Em & H). exists N', r'. by rewrite E. Qed.

Lemma delete_data_run N L F list r ns d :
  L !! list = Some r -> is_list N r ns ->
  let '(xs, ys) := seek_split (fun _ e => bool_decide (Some d = Some e)) 0 ns in
  becomes (r_list_delete_data list (Some d)) list N L F r ns (negb (bool_decide (ys = [])))
    (xs ++ tail ys) (F ++ freed r (take 1 (ys.*2))).
Proof.
  intros El Hl. pose proof (seek_split_app (fun _ e => bool_decide (Some d = Some e)) 0 ns) as Ea.
  pose proof (seek_list_run N L F list r ns (fun _ e => bool_decide (Some d = Some e)) El Hl) as Es.
  destruct (seek_split _ 0 ns) as [xs ys]. simpl in *. subst ns. destruct ys as [|[l e] ys]; simpl in *.
  - rewrite app_nil_r in *. unfold freed. replace (if l_free r then [] else []) with (@nil A) by by destruct (l_free r).
    rewrite app_nil_r. apply unchanged; [done..|].
    unfold r_list_delete_data. rewrite run_bind, Es. done.
  - destruct (delete_run N L F list r xs l e ys El Hl) as (N' & r' & Ed & H').
    exists N', r'. split; [|done]. unfold r_list_delete_data. rewrite run_bind, Es. cbv beta iota.
    rewrite run_bind, Ed. done.
Qed.

Lemma final_none ns : final None ns = None -> ns = [].
Proof.
  intros E. destruct (decide (ns = [])) as [|Hne]; [done|].
  destruct (final_in None ns Hne) as (l & El & _). congruence.
Qed.

(** The relinking of [r_list_del_n], by the neighbours that the node has. *)
Definition remove_found list (it : addr) : M (heap A) bool :=
  x ← get_node it;
  match nd_p x, nd_n x with
  | None, None => on_list (fun r => set_l_tail None (set_l_head None r)) list
  | None, Some nx =>
      on_node (set_nd_p None) nx ;; on_list (set_l_head (nd_n x)) list
  | Some pv, None =>
      on_node (set_nd_n None) pv ;; on_list (set_l_tail (nd_p x)) list
  | Some pv, Some nx =>
      on_node (set_nd_n (nd_n x)) pv ;; on_node (set_nd_p (nd_p x)) nx
  end ;;
  free_node it ;;
  on_list (fun r => set_l_length (l_length r - 1) r) list ;;
  mret true.

Lemma remove_nth_run m N L F list r xs l d ys :
  L !! list = Some r -> is_list N r (xs ++ (l, d) :: ys) ->
  m (mkHeap N L F) = remove_found list l (mkHeap N L F) ->
  becomes m list N L F r (xs ++ (l, d) :: ys) true (xs ++ ys) F.
Proof.
  intros El Hl Em. destruct (without_is_list _ _ _ _ _ _ Hl) as [Hl' Hf].
  exists (delete l (link_out N xs ys)), (without r xs ys). split; [|done]. rewrite Em. clear m Em.
  pose proof Hl as [Hh Ht Hlen Hnd Hd]. pose proof (dll_node _ _ _ _ _ _ _ Hd) as Ex.
  destruct (link_out_dll N xs l d ys Hnd Hd) as (_ & _ & _ & Eo & _). rewrite Ex in Eo.
  assert (forall k, final None xs = Some k -> is_Some (N !! k)) as Hp.
  { intros k Ek%final_mem. apply (dll_in N None _ None k Hd). rewrite fmap_app, elem_of_app. by left. }
  assert (forall k, first ys None = Some k -> is_Some (N !! k)) as Hn.
  { intros k Ek%first_mem. apply (dll_in N None _ None k Hd).
    rewrite fmap_app, fmap_cons, elem_of_app, elem_of_cons. tauto. }
  unfold remove_found. rewrite run_bind, (get_node_run _ _ _ _ _ Ex). cbn [nd_p nd_n].
  unfold link_out in *. unfold without. rewrite first_app, final_app in *. simpl in Hh, Ht.
  destruct (final None xs) as [pv|] eqn:Ep, (first ys None) as [nx|] eqn:Eq; simpl in *;
    repeat match goal with
    | E : final None xs = None |- _ => apply final_none in E; subst xs
    | E : first ys None = None |- _ => destruct ys as [|[]]; [clear E|discriminate E]
    | E : final None xs = Some _ |- _ => assert (xs <> []) by (by intros ->); clear E
    | E : first ys None = Some _ |- _ => assert (ys <> []) by (by intros ->); clear E
    end.
  - destruct (Hp pv eq_refl) as [? E1].
    destruct (alter_if_is_some (set_nd_n (Some nx)) (Some pv) N nx (Hn nx eq_refl)) as [? E2]. simpl in E2.
    hrun. rewrite (on_node_run _ _ _ _ _ _ E1). hrun. rewrite (on_node_run _ _ _ _ _ _ E2). hrun.
    rewrite (free_node_run _ _ _ _ _ Eo). hrun. relinked.
  - destruct (Hp pv eq_refl) as [? E1].
    hrun. rewrite (on_node_run _ _ _ _ _ _ E1). hrun. rewrite (free_node_run _ _ _ _ _ Eo). hrun. relinked.
  - destruct (Hn nx eq_refl) as [? E2].
    hrun. rewrite (on_node_run _ _ _ _ _ _ E2). hrun. rewrite (free_node_run _ _ _ _ _ Eo). hrun. relinked.
  - hrun. rewrite (free_node_run _ _ _ _ _ Eo). hrun. relinked.
Qed.

Lemma del_n_run N L F list r ns (n : Z) :
  L !! list = Some r -> is_list N r ns ->
  if (0 <=? n) && (n <? Z.of_nat (length ns))
  then becomes (r_list_del_n list n) list N L F r ns true
         (take (Z.to_nat n) ns ++ drop (S (Z.to_nat n)) ns) F
  else becomes (r_list_del_n list n) list N L F r ns false ns F.
Proof.
  intros El Hl. pose proof (seek_list_run N L F list r ns (fun j _ => j =? n) El Hl) as Es.
  rewrite seek_split_nth, Z.add_0_l, Z.sub_0_r in Es.
  destruct ((0 <=? n) && (n <? Z.of_nat (length ns))) eqn:En.
  - destruct (lookup_lt_is_Some_2 ns (Z.to_nat n)) as [[l d] Ex]; [lia|].
    pose proof (take_drop_middle _ _ _ Ex) as Em. rewrite (drop_S _ _ _ Ex) in Es. simpl in Es.
    revert Em. generalize (take (Z.to_nat n) ns) (drop (S (Z.to_nat n)) ns). intros xs ys <-.
    apply (remove_nth_run _ _ _ _ _ _ _ l d); [done..|]. by unfold r_list_del_n, nth_node; rewrite run_bind, Es.
  - apply unchanged; [done..|]. unfold r_list_del_n, nth_node. rewrite run_bind, Es. done.
Qed.

Lemma pop_run N L F list r xs l d :
  L !! list = Some r -> is_list N r (xs ++ [(l, d)]) ->
  becomes (r_list_pop list) list N L F r (xs ++ [(l, d)]) (Some d) xs F.
Proof.
  intros El Hl. destruct (without_is_list _ _ _ _ _ _ Hl) as [Hl' Hf]. rewrite app_nil_r in Hl'.
  exists (delete l (link_out N xs [])), (without r xs []). split; [|done].
  pose proof Hl as [Hh Ht Hlen Hnd Hd]. pose proof (dll_node _ _ _ _ _ _ _ Hd) as Ex.
  destruct (link_out_dll N xs l d [] Hnd Hd) as (_ & _ & _ & Eo & _). rewrite Ex in Eo.
  assert (l_tail r = Some l) as Et by by rewrite Ht, final_app.
  unfold r_list_pop. hrun. rewrite Et. cbv iota. hrun.
  rewrite (get_node_run _ _ _ _ _ Ex). cbn [nd_p nd_data first]. hrun. rewrite Hh.
  rewrite (bool_decide_ext _ _ (first_is_node xs l d [] Hnd)). unfold link_out, without in *.
  destruct (bool_decide_reflect (xs = [])) as [->|Hx].
  - hrun. simpl in Eo. rewrite (free_node_run _ _ _ _ _ Eo). hrun. relinked.
  - destruct (final_in None xs Hx) as (pv & Ep & Hin). rewrite Ep in *. simpl in Eo.
    destruct (dll_in N None _ None pv Hd) as [? E1]; [rewrite fmap_app, elem_of_app; by left|].
    hrun. cbn [on_node_at]. rewrite (on_node_run _ _ _ _ _ _ E1). hrun.
    rewrite (free_node_run _ _ _ _ _ Eo). hrun. rewrite app_nil_r, Ep. relinked.
Qed.

Lemma pop_head_run N L F list r l d ys :
  L !! list = Some r -> is_list N r ((l, d) :: ys) ->
  becomes (r_list_pop_head list) list N L F r ((l, d) :: ys) (Some d) ys F.
Proof.
  intros El Hl. destruct (without_is_list _ _ [] _ _ _ Hl) as [Hl' Hf].
  exists (delete l (link_out N [] ys)), (without r [] ys). split; [|done].
  pose proof Hl as [Hh Ht Hlen Hnd Hd]. pose proof (dll_node _ _ [] _ _ _ _ Hd) as Ex.
  destruct (link_out_dll N [] l d ys Hnd Hd) as (_ & _ & _ & Eo & _). rewrite Ex in Eo.
  simpl in Hh. unfold r_list_pop_head. hrun. rewrite Hh. cbv iota. hrun.
  rewrite (get_node_run _ _ _ _ _ Ex). cbn [nd_n nd_data]. hrun.
  rewrite (bool_decide_ext (Some l = l_tail r) (ys = [])).
  2: { rewrite Ht. rewrite <- (final_is_node [] l d ys Hnd). simpl. split; congruence. }
  unfold link_out, without in *.
  destruct (bool_decide_reflect (ys = [])) as [->|Hy].
  - hrun. simpl in Eo. rewrite (free_node_run _ _ _ _ _ Eo). hrun. relinked.
  - destruct (first_in ys None Hy) as (nx & Ep & Hin). rewrite Ep in *. simpl in Eo.
    destruct (dll_in N None _ None nx Hd) as [? E1]; [simpl; by right|].
    hrun. cbn [on_node_at]. rewrite (on_node_run _ _ _ _ _ _ E1). hrun.
    rewrite (free_node_run _ _ _ _ _ Eo). hrun. simpl. rewrite Ep. relinked.
Qed.

Lemma dll_data N p xs l d e ys n :
  NoDup (xs ++ (l, d) :: ys).*1 -> dll N p (xs ++ (l, d) :: ys) n ->
  dll (alter (set_nd_data (Some e)) l N) p (xs ++ (l, e) :: ys) n.
Proof.
  rewrite fmap_app, fmap_cons, NoDup_app, NoDup_cons. simpl. intros (_ & Hx & Hy & _).
  rewrite !dll_app. simpl. intros (H1 & H2 & H3). split; [|split].
  - apply (dll_alter _ _ _ _ _ (Some l)); [|done]. intros ? [= <-] Hl. apply (Hx l Hl). left.
  - by rewrite lookup_alter_eq, H2.
  - apply (dll_alter _ _ _ _ _ (Some l)); [|done]. by intros ? [= <-].
Qed.

Lemma is_list_data N r xs l d e ys so :
  is_list N r (xs ++ (l, d) :: ys) ->
  is_list (alter (set_nd_data (Some e)) l N) (set_l_sorted so r) (xs ++ (l, e) :: ys).
Proof.
  intros [Hh Ht Hlen Hnd Hd]. split.
  - simpl. by rewrite Hh, !first_app.
  - simpl. by rewrite Ht, !final_app.
  - simpl. by rewrite Hlen, !length_app.
  - by rewrite fmap_app in *.
  - by apply dll_data with d.
Qed.

Lemma set_n_run N L F list r xs l d ys e :
  L !! list = Some r -> is_list N r (xs ++ (l, d) :: ys) ->
  becomes (r_list_set_n list (Z.of_nat (length xs)) (Some e)) list N L F r (xs ++ (l, d) :: ys) true
    (xs ++ (l, e) :: ys) (F ++ freed r [d]).
Proof.
  intros El Hl. exists (alter (set_nd_data (Some e)) l N), (set_l_sorted false r).
  pose proof (dll_node _ _ _ _ _ _ _ (il_dll _ _ _ Hl)) as Ex.
  pose proof (seek_list_run N L F list r _ (fun j _ => j =? Z.of_nat (length xs)) El Hl) as Es.
  rewrite seek_split_nth, Z.add_0_l, Z.sub_0_r, Nat2Z.id, length_app, drop_app_length in Es.
  replace ((0 <=? Z.of_nat (length xs)) && (Z.of_nat (length xs) <? Z.of_nat (length xs + length ((l, d) :: ys)))) with true in Es
    by (symmetry; apply andb_true_iff; rewrite Z.leb_le, Z.ltb_lt; simpl; lia).
  cbn [snd first is_some] in Es. split; [|split; [by apply is_list_data with d|split; [done|]]].
  - unfold r_list_set_n, nth_node. rewrite run_bind, Es. cbv beta iota.
    rewrite run_bind, (get_node_run _ _ _ _ _ Ex). cbn [nd_data].
    rewrite run_bind, (free_data_run _ _ _ _ _ _ El).
    rewrite run_bind, (on_node_run _ _ _ _ _ _ Ex). hrun. done.
  - intros k Hk _. apply lookup_alter_ne. intros ->. apply Hk.
    rewrite fmap_app, fmap_cons, elem_of_app, elem_of_cons. tauto.
Qed.

(** *** Insertion inside *)

Lemma insert_before_list N r xs k x ys it d so :
  is_list N r (xs ++ (k, x) :: ys) -> it = fresh (dom N) -> xs <> [] ->
  is_list (link_in N xs it d ((k, x) :: ys)) (set_l_sorted so (set_l_length (l_length r + 1) r))
    (xs ++ (it, d) :: (k, x) :: ys)
  /\ frame N (link_in N xs it d ((k, x) :: ys)) (xs ++ (k, x) :: ys).*1.
Proof.
  intros [Hh Ht Hlen Hnd Hd] -> Hx.
  destruct (link_in_dll N xs (fresh (dom N)) d ((k, x) :: ys) Hnd (fresh_node N) Hd) as (H1 & H2 & H3).
  split; [|done]. split; try done; simpl.
  - rewrite Hh, !first_app. simpl. by destruct xs as [|[]].
  - by rewrite Ht, !final_app.
  - rewrite Hlen, !length_app. simpl. lia.
Qed.

Lemma insert_run N L F list r ns (n : Z) d :
  L !! list = Some r -> is_list N r ns ->
  let k := if (0 <=? n) && (n <? Z.of_nat (length ns)) then Z.to_nat n else length ns in
  becomes (r_list_insert list n (Some d)) list N L F r ns (Some (fresh (dom N)))
    (take k ns ++ (fresh (dom N), d) :: drop k ns) F.
Proof.
  intros El Hl k.
  pose proof (seek_list_run N L F list r ns (fun j _ => j =? n) El Hl) as Es.
  rewrite seek_split_nth, Z.add_0_l, Z.sub_0_r in Es.
  assert (is_some (l_head r) = negb (bool_decide (ns = []))) as Eh.
  { rewrite (il_head _ _ _ Hl). by destruct ns as [|[]]. }
  destruct (decide (ns = [] \/ n = 0)) as [H0|Hn0].
  { apply (becomes_eq _ (r_list_prepend list (Some d))).
    - unfold r_list_insert. rewrite run_bind, (get_list_run _ _ _ _ _ El), Eh, negb_involutive.
      destruct H0 as [->| ->]; [done|]. by rewrite orb_true_r.
    - assert (k = 0%nat) as ->.
      { unfold k. destruct (_ && _) eqn:E.
        - apply andb_true_iff in E as [?%Z.leb_le ?%Z.ltb_lt]. destruct H0 as [->| ->]; simpl in *; lia.
        - apply andb_false_iff in E. rewrite Z.leb_gt, Z.ltb_ge in E. destruct H0 as [->| ->]; simpl; lia. }
      by apply prepend_run. }
  assert (negb (is_some (l_head r)) || (n =? 0) = false) as Eb.
  { rewrite Eh, negb_involutive. apply orb_false_iff. rewrite bool_decide_eq_false, Z.eqb_neq. tauto. }
  unfold becomes, r_list_insert. setoid_rewrite run_bind. rewrite (get_list_run _ _ _ _ _ El). cbv beta iota.
  rewrite Eb. unfold nth_node.
  subst k. destruct ((0 <=? n) && (n <? Z.of_nat (length ns))) eqn:En.
  - apply andb_true_iff in En as [?%Z.leb_le ?%Z.ltb_lt].
    destruct (lookup_lt_is_Some_2 ns (Z.to_nat n)) as [[l e] Ex]; [lia|].
    rewrite (drop_S _ _ _ Ex) in *. cbn [snd first is_some] in Es.
    pose proof (take_drop_middle _ _ _ Ex) as Em.
    assert (take (Z.to_nat n) ns <> []) as Hx.
    { intros E. apply (f_equal length) in E. rewrite length_take in E. simpl in E. lia. }
    revert Em Hx. generalize (take (Z.to_nat n) ns) (drop (S (Z.to_nat n)) ns). intros xs ys <- Hx.
    destruct (insert_before_list N r xs l e ys (fresh (dom N)) d true Hl eq_refl Hx) as [Hl' Hf].
    do 2 eexists. rewrite run_bind, Es. cbv beta iota.
    rewrite run_bind, (insert_before_run _ _ _ _ _ xs l e ys d El (il_dll _ _ _ Hl)).
    split; [reflexivity|]. by split_and!.
  - destruct (append_run N L F list r ns d El Hl) as (N' & r' & Ea & H').
    exists N', r'. rewrite run_bind, Es. cbn [snd first is_some]. cbv beta iota.
    rewrite take_ge, drop_ge by lia. split; [exact Ea|]. exact H'.
Qed.

Lemma add_sorted_run N L F list r ns d cmp :
  L !! list = Some r -> is_list N r ns ->
  let '(xs, ys) := seek_split (fun _ e => negb (0 <? cmp d e)) 0 ns in
  becomes (r_list_add_sorted list (Some d) cmp) list N L F r ns
    (if bool_decide (ys = []) then None else Some (fresh (dom N)))
    (xs ++ (fresh (dom N), d) :: ys) F.
Proof.
  intros El Hl.
  pose proof (seek_split_app (fun _ e => negb (0 <? cmp d e)) 0 ns) as Ea.
  pose proof (seek_list_run N L F list r ns (fun _ e => negb (0 <? cmp d e)) El Hl) as Es.
  destruct (seek_split _ 0 ns) as [xs ys]. cbn [fst snd] in *. subst ns.
  unfold r_list_add_sorted. destruct ys as [|[l e] ys]; cbn [first is_some] in Es.
  - rewrite app_nil_r in Hl. destruct (append_run N L F list r xs d El Hl) as (N' & r' & Eap & [] & Hfr & Hf).
    exists N', (set_l_sorted true r'). rewrite app_nil_r. split; [|split; [by split|done]].
    rewrite run_bind, Es. cbv beta iota. rewrite run_bind, Eap. hrun. done.
  - destruct (decide (xs = [])) as [->|Hx].
    + destruct (link_in_dll N [] (fresh (dom N)) d ((l, e) :: ys) (il_nodup _ _ _ Hl) (fresh_node N)
        (il_dll _ _ _ Hl)) as (Hd' & Hnd' & Hf).
      do 2 eexists. rewrite run_bind, Es. cbv beta iota.
      pose proof (dll_node _ _ [] _ _ _ _ (il_dll _ _ _ Hl)) as Ex. simpl in Ex.
      rewrite run_bind, (get_node_run _ _ _ _ _ Ex).
      rewrite run_bind, (insert_before_run _ _ _ _ _ [] l e ys d El (il_dll _ _ _ Hl)). hrun.
      cbn [nd_p is_some]. hrun. split; [reflexivity|]. split; [|done].
      destruct Hl as [Hh Ht Hlen Hnd Hd]. split; try done; simpl in *; rewrite ?Ht; try done. rewrite Hlen. lia.
    + destruct (insert_before_list N r xs l e ys (fresh (dom N)) d true Hl eq_refl Hx) as [Hl' Hf].
      do 2 eexists. rewrite run_bind, Es. cbv beta iota.
      rewrite run_bind, (get_node_run _ _ _ _ _ (dll_node _ _ _ _ _ _ _ (il_dll _ _ _ Hl))).
      rewrite run_bind, (insert_before_run _ _ _ _ _ xs l e ys d El (il_dll _ _ _ Hl)). hrun.
      cbn [nd_p]. rewrite final_is_some. destruct xs as [|[k y] xs]; [done|]. simpl is_some. hrun.
      split; [reflexivity|]. by split_and!.
Qed.
End Facts.
