(* ===== verification/ListWhole.v ===== *)
(** * Reads, and operations on whole lists

    Looking a list up, emptying it, reversing it, copying it and appending one
    to another, over the segments of [ListSeg]. *)

From S2P Require Import Prelude ListHeap ListSeg ListFacts.

Section Whole.
Context {A : Type} `{EqDecision A}.
Implicit Types (N : gmap addr (RListIter A)) (L : gmap addr RList) (F : list A) (h : heap A).
Implicit Types (ns xs ys : list (addr * A)) (p n : option addr) (r : RList).

Lemma frame_trans N N' N'' (X Y : list addr) :
  frame N N' X -> frame N' N'' Y -> (forall l, l ∈ Y -> l ∈ X \/ N !! l = None) -> frame N N'' X.
Proof.
  intros H1 H2 HY l Hl Hs. pose proof (H1 l Hl Hs) as E1. rewrite <- E1. apply H2; [|by rewrite E1].
  intros [Hx|Hn]%HY; [done|]. rewrite Hn in Hs. by destruct Hs.
Qed.

Lemma frame_refl N (X : list addr) : frame N N X.
Proof. done. Qed.

(** ** Reads *)

Lemma data_at_first N L F p ns n :
  dll N p ns n -> ns <> [] -> r_list_iter_get_data (first ns n) (mkHeap N L F) = Ok (head ns.*2) (mkHeap N L F).
Proof.
  destruct ns as [|[l d] ns]; [done|]. intros [E _] _. simpl.
  by rewrite run_bind, (get_node_run _ _ _ _ _ E).
Qed.

Lemma first_run N L F list r ns :
  L !! list = Some r -> is_list N r ns ->
  r_list_first list (mkHeap N L F) = Ok (head ns.*2) (mkHeap N L F).
Proof.
  intros El Hl. unfold r_list_first. hrun. rewrite (il_head _ _ _ Hl).
  destruct ns as [|x ns]; [done|]. by eapply data_at_first; [apply (il_dll _ _ _ Hl)|].
Qed.

Lemma get_top_run N L F list r ns :
  L !! list = Some r -> is_list N r ns ->
  r_list_get_top list (mkHeap N L F) = Ok (last ns.*2) (mkHeap N L F).
Proof.
  intros El Hl. unfold r_list_get_top. hrun. rewrite (il_tail _ _ _ Hl).
  destruct (decide (ns = [])) as [->|Hne]; [done|]. destruct (exists_last Hne) as (xs & [l d] & ->).
  rewrite final_app, fmap_app. simpl. rewrite last_snoc.
  by rewrite run_bind, (get_node_run _ _ _ _ _ (dll_node _ _ _ _ _ _ _ (il_dll _ _ _ Hl))).
Qed.

Lemma length_run N L F list r ns :
  L !! list = Some r -> is_list N r ns ->
  r_list_length list (mkHeap N L F) = Ok (Z.of_nat (length ns)) (mkHeap N L F).
Proof. intros El Hl. unfold r_list_length. hrun. by rewrite (il_length _ _ _ Hl). Qed.

Lemma dll_drop N p ns n (k : nat) : dll N p ns n -> exists p', dll N p' (drop k ns) n.
Proof. intros H. rewrite <- (take_drop k ns) in H. apply dll_app in H as [_ H]. by eexists. Qed.

Lemma get_n_run N L F list r ns (n : Z) :
  L !! list = Some r -> is_list N r ns ->
  r_list_get_n list n (mkHeap N L F)
  = Ok (if 0 <=? n then ns.*2 !! Z.to_nat n else None) (mkHeap N L F).
Proof.
  intros El Hl. pose proof (seek_list_run N L F list r ns (fun j _ => j =? n) El Hl) as Es.
  rewrite seek_split_nth, Z.add_0_l, Z.sub_0_r in Es. unfold r_list_get_n, nth_node. rewrite run_bind, Es.
  destruct (Z.leb_spec 0 n); simpl; [|done]. destruct (Z.ltb_spec n (Z.of_nat (length ns))); simpl.
  - destruct (lookup_lt_is_Some_2 ns (Z.to_nat n)) as [[l d] Ex]; [lia|].
    rewrite list_lookup_fmap, Ex. rewrite (drop_S _ _ _ Ex). simpl.
    pose proof (il_dll _ _ _ Hl) as Hd. rewrite <- (take_drop_middle _ _ _ Ex) in Hd.
    by rewrite run_bind, (get_node_run _ _ _ _ _ (dll_node _ _ _ _ _ _ _ Hd)).
  - rewrite lookup_ge_None_2; [done|]. rewrite length_fmap. lia.
Qed.

(** The node found by a walk: that of the first data that satisfies a condition. *)
Lemma seek_split_found (P : A -> bool) i ns :
  first (snd (seek_split (fun _ e => P e) i ns)) None = (list_find (fun x => P x.2) ns) ≫= (fun x => Some x.2.1).
Proof.
  revert i. induction ns as [|[l d] ns IH]; intros i; simpl; [done|].
  destruct (P d) eqn:E; simpl.
  - done.
  - specialize (IH (i + 1)). destruct (seek_split _ (i + 1) ns). simpl in *. rewrite IH.
    by destruct (list_find _ ns) as [[]|].
Qed.

Lemma contains_run N L F list r ns d :
  L !! list = Some r -> is_list N r ns ->
  r_list_contains list (Some d) (mkHeap N L F)
  = Ok (list_find (fun x => bool_decide (Some d = Some x.2)) ns ≫= (fun x => Some x.2.1)) (mkHeap N L F).
Proof.
  intros El Hl. unfold r_list_contains. rewrite run_bind, (seek_list_run _ _ _ _ _ _ _ El Hl). cbv iota beta.
  rewrite (seek_split_found (fun e => bool_decide (Some d = Some e))). by destruct (list_find _ ns) as [[]|].
Qed.

Lemma find_run N L F list r ns d (cmp : A -> A -> Z) :
  L !! list = Some r -> is_list N r ns ->
  r_list_find list d cmp (mkHeap N L F)
  = Ok (list_find (fun x => cmp d x.2 =? 0) ns ≫= (fun x => Some x.2.1)) (mkHeap N L F).
Proof.
  intros El Hl. unfold r_list_find. rewrite run_bind, (seek_list_run _ _ _ _ _ _ _ El Hl). cbv iota beta.
  rewrite (seek_split_found (fun e => cmp d e =? 0)). by destruct (list_find _ ns) as [[]|].
Qed.

(** ** Emptying *)

Lemma purge_from_run fuel N L F list r ns :
  (length ns < fuel)%nat -> L !! list = Some r -> is_list N r ns ->
  becomes (purge_from fuel list (first ns None)) list N L F r ns tt [] (F ++ freed r ns.*2).
Proof.
  revert fuel N L F r. induction ns as [|[l d] ns IH]; intros fuel N L F r Hfu El Hl.
  { replace (freed r [].*2) with (@nil A) by (unfold freed; by destruct (l_free r)). rewrite app_nil_r.
    apply unchanged; [done..|]. by destruct fuel. }
  destruct fuel as [|fuel]; simpl in Hfu; [lia|].
  destruct (delete_run N L F list r [] l d ns El Hl) as (N1 & r1 & E1 & Hl1 & Hf1 & Hfr1).
  destruct (IH fuel N1 (<[list := r1]> L) (F ++ freed r [d]) r1) as (N2 & r2 & E2 & Hl2 & Hf2 & Hfr2);
    [lia|apply lookup_insert_eq|done|].
  exists N2, r2. split; [|split; [done|split]].
  - cbn [purge_from first]. destruct (il_dll _ _ _ Hl) as [En _]. rewrite run_bind, (get_node_run _ _ _ _ _ En). cbn [nd_n].
    cbv beta. rewrite run_bind, E1, E2, insert_insert_eq. do 2 f_equal. rewrite <- app_assoc. f_equal.
    unfold freed. rewrite Hf1. by destruct (l_free r).
  - congruence.
  - apply (frame_trans _ N1 _ _ ns.*1); [done..|]. intros k Hk. left. by right.
Qed.

Lemma purge_run N L F list r ns :
  L !! list = Some r -> is_list N r ns ->
  becomes (r_list_purge list) list N L F r ns tt [] (F ++ freed r ns.*2).
Proof.
  intros El Hl.
  destruct (purge_from_run (S (size N)) N L F list r ns) as (N' & r' & E & [H1 H2 H3 H4 H5] & Hf & Hfr);
    [by apply (is_list_size _ r)|done..|].
  exists N', (set_l_tail None (set_l_head None r')). split; [|split; [by split|done]].
  unfold r_list_purge, walk_fuel. hrun. unfold id. cbn [hp_nodes]. rewrite (il_head _ _ _ Hl).
  rewrite E. by hrun.
Qed.

Lemma free_run N L F list r ns :
  L !! list = Some r -> is_list N r ns ->
  exists N', r_list_free list (mkHeap N L F) = Ok tt (mkHeap N' (delete list L) (F ++ freed r ns.*2))
    /\ frame N N' ns.*1.
Proof.
  intros El Hl. destruct (purge_run N L F list r ns El Hl) as (N' & r' & E & _ & _ & Hf).
  exists N'. split; [|done]. unfold r_list_free. rewrite run_bind, E. mrun. unfold set_lists. simpl.
  by rewrite delete_insert_eq.
Qed.
(** ** Removal without freeing *)

Lemma split_from_run fuel N L F list r xs ys d :
  (length ys < fuel)%nat -> L !! list = Some r -> is_list N r (xs ++ ys) ->
  becomes (split_from fuel list (Some d) (first ys None)) list N L F r (xs ++ ys) tt
    (let '(us, vs) := seek_split (fun _ e => bool_decide (Some d = Some e)) 0 ys in xs ++ us ++ tail vs) F.
Proof.
  generalize 0. revert fuel xs. induction ys as [|[l e] ys IH]; intros fuel xs i Hfu El Hl.
  { simpl. apply unchanged; [done..|]. by destruct fuel. }
  destruct fuel as [|fuel]; simpl in Hfu; [lia|]. simpl.
  pose proof (il_dll _ _ _ Hl) as Hd. pose proof (il_nodup _ _ _ Hl) as Hnd.
  pose proof (dll_node _ _ _ _ _ _ _ Hd) as Ex.
  destruct (bool_decide (Some d = Some e)) eqn:Ed.
  - destruct (without_is_list _ _ _ _ _ _ Hl) as [Hl' Hf]. destruct (link_out_dll N xs l e ys Hnd Hd) as (_ & _ & _ & Eo & _).
    exists (delete l (link_out N xs ys)), (without r xs ys). split; [|done].
    rewrite run_bind, (get_node_run _ _ _ _ _ Ex). cbn [nd_data]. rewrite Ed.
    rewrite run_bind, (split_iter_run _ _ _ _ _ _ _ _ _ El Hl). rewrite Ex in Eo.
    by rewrite (free_node_run _ _ _ _ _ Eo).
  - destruct (IH fuel (xs ++ [(l, e)]) (i + 1)) as (N' & r' & E & H'); [lia|done|by rewrite <- app_assoc|].
    destruct (seek_split _ (i + 1) ys) as [us vs]. rewrite <- !app_assoc in H'.
    exists N', r'. split; [|done].
    rewrite run_bind, (get_node_run _ _ _ _ _ Ex). cbn [nd_data nd_n]. rewrite Ed. exact E.
Qed.

Lemma split_run N L F list r ns d :
  L !! list = Some r -> is_list N r ns ->
  becomes (r_list_split list (Some d)) list N L F r ns tt
    (let '(us, vs) := seek_split (fun _ e => bool_decide (Some d = Some e)) 0 ns in us ++ tail vs) F.
Proof.
  intros El Hl.
  destruct (split_from_run (S (size N)) N L F list r [] ns d) as (N' & r' & E & H');
    [by apply (is_list_size _ r)|done..|].
  exists N', r'. split; [|done]. unfold r_list_split, walk_fuel. hrun. unfold id. cbn [hp_nodes].
  by rewrite (il_head _ _ _ Hl).
Qed.
(** ** Reversal *)

Lemma first_reverse ns n : first (reverse ns) n = final n ns.
Proof.
  revert n. induction ns as [|[l d] ns IH]; intros n; [done|]. by rewrite reverse_cons, first_app, IH.
Qed.
Lemma final_reverse p ns : final p (reverse ns) = first ns p.
Proof. destruct ns as [|[l d] ns]; [done|]. by rewrite reverse_cons, final_app. Qed.

Lemma reverse_from_run fuel N L F p ns :
  (length ns < fuel)%nat -> NoDup ns.*1 -> dll N p ns None ->
  exists N', reverse_from fuel (first ns None) (mkHeap N L F) = Ok tt (mkHeap N' L F)
    /\ dll N' None (reverse ns) p /\ frame N N' ns.*1.
Proof.
  revert fuel N p. induction ns as [|[l d] ns IH]; intros fuel N p Hfu Hnd Hd.
  { exists N. split; [|done]. by destruct fuel. }
  destruct fuel as [|fuel]; simpl in Hfu; [lia|]. rewrite fmap_cons in *.
  apply NoDup_cons in Hnd as [Hl Hnd]. destruct Hd as [Ex Hd]. simpl in Hl.
  set (swap := fun x : RListIter A => mkNode (nd_data x) (nd_p x) (nd_n x)).
  destruct (IH fuel (alter swap l N) (Some l)) as (N' & E & Hd' & Hf); [lia|done| |].
  { apply (dll_alter _ _ _ _ _ (Some l)); [|done]. by intros ? [= <-]. }
  exists N'. split; [|split].
  - cbn [reverse_from first]. rewrite run_bind, (get_node_run _ _ _ _ _ Ex). cbn [nd_data nd_n].
    by rewrite run_bind, (on_node_run _ _ _ _ _ _ Ex).
  - rewrite reverse_cons. apply dll_app. split; [done|]. split; [|done].
    rewrite Hf; [|done|].
    + rewrite lookup_alter_eq, Ex. by rewrite final_reverse.
    + rewrite lookup_alter_eq, Ex. by eexists.
  - apply (frame_trans _ (alter swap l N) _ _ ns.*1); [|done|].
    + intros k Hk _. apply lookup_alter_ne. intros <-. apply Hk. left.
    + intros k Hk. left. by right.
Qed.

Lemma reverse_run N L F list r ns :
  L !! list = Some r -> is_list N r ns ->
  becomes (r_list_reverse list) list N L F r ns tt (reverse ns) F.
Proof.
  intros El Hl. pose proof Hl as [Hh Ht Hlen Hnd Hd].
  destruct (reverse_from_run (S (size N)) N L F None ns) as (N' & E & Hd' & Hf);
    [by apply (is_list_size _ r)|done..|].
  eexists N', _. split; [|split; [|split; [|done]]].
  - unfold r_list_reverse, walk_fuel. hrun. unfold id. cbn [hp_nodes]. rewrite Hh, E. hrun. reflexivity.
  - split; simpl; [by rewrite Ht, first_reverse|by rewrite Hh, final_reverse|by rewrite length_reverse| |done].
    rewrite fmap_reverse. by rewrite reverse_Permutation.
  - done.
Qed.

(** ** Copies *)

(** The nodes that a list has gained are new ones. *)
Definition gains N ns ns' : Prop := forall l, l ∈ ns'.*1 -> l ∈ ns.*1 \/ N !! l = None.

Lemma clone_from_run fuel N L F list r p xs ns :
  (length ns < fuel)%nat -> L !! list = Some r -> is_list N r xs ->
  dll N p ns None -> (forall l, l ∈ xs.*1 -> l ∉ ns.*1) ->
  exists xs', becomes (clone_from fuel list (first ns None)) list N L F r xs tt xs' F
    /\ xs'.*2 = xs.*2 ++ ns.*2 /\ gains N xs xs'.
Proof.
  revert fuel N L r p xs. induction ns as [|[l d] ns IH]; intros fuel N L r p xs Hfu El Hl Hd Hdis.
  { exists xs. rewrite app_nil_r. split_and!; [|done|by left].
    apply unchanged; [done..|]. by destruct fuel. }
  destruct fuel as [|fuel]; simpl in Hfu; [lia|]. destruct Hd as [Ex Hd].
  destruct (append_run N L F list r xs d El Hl) as (N1 & r1 & E1 & Hl1 & Hf1 & Hfr1).
  assert (dll N1 (Some l) ns None) as Hd1.
  { apply (frame_list _ _ _ _ _ _ Hfr1); [|done]. intros k Hk Hk'. apply (Hdis k Hk). by right. }
  destruct (IH fuel N1 (<[list := r1]> L) r1 (Some l) (xs ++ [(fresh (dom N), d)]))
    as (xs' & (N2 & r2 & E2 & Hl2 & Hf2 & Hfr2) & Ed & Hg); [lia|apply lookup_insert_eq|done|done| |].
  { intros k. rewrite fmap_app, elem_of_app. intros [Hk|Hk%list_elem_of_singleton] Hk'.
    - apply (Hdis k Hk). by right.
    - subst k. by apply (dll_fresh _ _ _ _ Hd). }
  exists xs'. split_and!.
  - exists N2, r2. split_and!; [|done|congruence|].
    + cbn [clone_from first]. rewrite run_bind, (get_node_run _ _ _ _ _ Ex). cbn [nd_data nd_n].
      by rewrite run_bind, E1, E2, insert_insert_eq.
    + apply (frame_trans _ _ _ _ _ Hfr1 Hfr2). intros k. rewrite fmap_app, elem_of_app.
      intros [Hk|Hk%list_elem_of_singleton]; [by left|]. subst k. right. apply fresh_node.
  - rewrite Ed, fmap_app, <- app_assoc. done.
  - intros k [Hk|Hk]%Hg; [|].
    + rewrite fmap_app, elem_of_app in Hk. destruct Hk as [Hk|Hk%list_elem_of_singleton]; [by left|].
      subst k. right. apply fresh_node.
    + destruct (decide (k ∈ xs.*1)) as [Hx|Hx]; [by left|right].
      destruct (N !! k) eqn:Ek; [|done]. rewrite <- Ek, <- (Hfr1 k Hx), Hk; [done|by eexists].
Qed.

Lemma clone_run N L F list r ns :
  L !! list = Some r -> is_list N r ns ->
  exists N' r' ns', r_list_clone list (mkHeap N L F) = Ok (fresh (dom L)) (mkHeap N' (<[fresh (dom L) := r']> L) F)
    /\ is_list N' r' ns' /\ ns'.*2 = ns.*2 /\ l_free r' = false /\ frame N N' []
    /\ (forall l, l ∈ ns'.*1 -> N !! l = None).
Proof.
  intros El Hl. set (l := fresh (dom L)). set (r0 := mkList None None false 0 false).
  assert (L !! l = None) as Efr by apply not_elem_of_dom, is_fresh.
  assert (l <> list) as Hne by (intros E; congruence).
  destruct (clone_from_run (S (size N)) N (<[l := r0]> L) F l r0 None [] ns)
    as (ns' & (N' & r' & E & Hl' & Hf & Hfr) & Ed & Hg);
    [by apply (is_list_size _ r)|apply lookup_insert_eq|by split; try apply NoDup_nil|apply (il_dll _ _ _ Hl)|
     by intros k Hk%elem_of_nil|].
  exists N', (set_l_sorted (l_sorted r) r'), ns'. split_and!; [|by destruct Hl'; split|done|done|done|].
  - assert (r_list_new (mkHeap N L F) = Ok l (mkHeap N (<[l := r0]> L) F)) as En by done.
    unfold r_list_clone, walk_fuel. rewrite run_bind, En.
    rewrite run_bind, (get_list_run _ _ _ list r) by (by rewrite lookup_insert_ne). hrun.
    unfold id. cbn [hp_nodes]. rewrite (il_head _ _ _ Hl), E. hrun. done.
  - intros k [Hk%elem_of_nil|Hk]%Hg; done.
Qed.
(** ** Concatenation *)

Lemma join_headers N L F list1 list2 r1 r2 f g k :
  L !! list1 = Some r1 -> L !! list2 = Some r2 -> list1 <> list2 ->
  (on_list f list1 ;; on_list g list2 ;; on_list k list1 ;; mret true) (mkHeap N L F)
  = Ok true (mkHeap N (<[list1 := k (f r1)]> (<[list2 := g r2]> L)) F).
Proof.
  intros E1 E2 Hne. hrun. rewrite (on_list_run _ _ _ _ _ r2) by (by rewrite lookup_insert_ne). hrun.
  rewrite (on_list_run _ _ _ _ _ (f r1)) by (by rewrite lookup_insert_ne, lookup_insert_eq by done). hrun.
  by rewrite (insert_insert_ne _ list2 list1), insert_insert_eq by done.
Qed.

Lemma join_nothing_run N L F list1 list2 r1 r2 :
  L !! list1 = Some r1 -> L !! list2 = Some r2 -> is_list N r2 [] ->
  r_list_join list1 list2 (mkHeap N L F) = Ok false (mkHeap N L F).
Proof.
  intros E1 E2 [Hh Ht _ _ _]. unfold r_list_join. hrun. unfold list_empty. by rewrite Hh, Ht.
Qed.

Lemma join_nonempty N r ns : is_list N r ns -> ns <> [] -> list_empty r = false.
Proof. intros [Hh _ _ _ _] Hy. unfold list_empty. rewrite Hh. by destruct ns as [|[]]. Qed.

(** The nodes of the second list become those of an empty first one. *)
Lemma join_empty_run N L F list1 list2 r1 r2 ys :
  L !! list1 = Some r1 -> L !! list2 = Some r2 -> list1 <> list2 ->
  is_list N r1 [] -> is_list N r2 ys -> ys <> [] ->
  exists r1', r_list_join list1 list2 (mkHeap N L F)
    = Ok true (mkHeap N (<[list1 := r1']> (<[list2 := set_l_tail None (set_l_head None r2)]> L)) F)
    /\ is_list N r1' ys /\ l_free r1' = l_free r1.
Proof.
  intros E1 E2 Hne [Hh1 Ht1 Hl1 _ _] H2 Hy. pose proof H2 as [Hh2 Ht2 Hl2 Hn2 Hd2].
  exists (mkList (first ys None) (final None ys) (l_free r1) (l_length r1 + l_length r2) true).
  split; [|split; [split; simpl; try done; simpl in *; lia|done]].
  unfold r_list_join. hrun. rewrite (join_nonempty _ _ _ H2 Hy). unfold list_empty. rewrite Hh1, Ht1, Hh2, Ht2.
  cbn [first final is_some negb andb]. rewrite run_bind, (on_list_run _ _ _ _ _ _ E1).
  rewrite (join_headers _ _ _ _ _ _ r2) by (done || apply lookup_insert_eq || by rewrite lookup_insert_ne).
  by rewrite (insert_insert_ne _ list2 list1), insert_insert_eq by done.
Qed.

(** Two lists that are not empty: the nodes are linked, but the tail of the first
    list stays where it was. *)
Lemma join_both_run N L F list1 list2 r1 r2 xs ys :
  L !! list1 = Some r1 -> L !! list2 = Some r2 -> list1 <> list2 ->
  is_list N r1 xs -> is_list N r2 ys -> (forall l, l ∈ xs.*1 -> l ∉ ys.*1) -> xs <> [] -> ys <> [] ->
  exists N' r1', r_list_join list1 list2 (mkHeap N L F)
    = Ok true (mkHeap N' (<[list1 := r1']> (<[list2 := set_l_tail None (set_l_head None r2)]> L)) F)
    /\ is_list N' (set_l_tail (final None (xs ++ ys)) r1') (xs ++ ys)
    /\ l_tail r1' = final None xs /\ l_free r1' = l_free r1 /\ frame N N' (xs ++ ys).*1.
Proof.
  intros E1 E2 Hne H1 H2 Hdis Hx Hy. pose proof H1 as [Hh1 Ht1 Hl1 Hn1 Hd1]. pose proof H2 as [Hh2 Ht2 Hl2 Hn2 Hd2].
  unfold r_list_join. hrun. rewrite (join_nonempty _ _ _ H1 Hx), (join_nonempty _ _ _ H2 Hy), Ht1, Hh2.
  destruct (final_in None xs Hx) as (t1 & Et & Hint), (first_in ys None Hy) as (h2 & Ef & Hinh).
  destruct (dll_in _ _ _ _ _ Hd1 Hint) as [x1 Ex1], (dll_in _ _ _ _ _ Hd2 Hinh) as [x2 Ex2].
  assert (t1 <> h2) as Hth by (intros ->; by apply (Hdis h2)).
  exists (alter_if (set_nd_p (Some t1)) (Some h2) (alter_if (set_nd_n (Some h2)) (Some t1) N)),
    (set_l_sorted true (set_l_length (l_length r1 + l_length r2) r1)).
  rewrite Et, Ef, run_bind. rewrite run_bind, (on_node_run _ _ _ _ _ _ Ex1).
  rewrite (on_node_run _ _ _ _ _ x2) by (by rewrite lookup_alter_ne).
  rewrite (join_headers _ _ _ _ _ _ _ _ _ _ E1 E2 Hne).
  split_and!; [done|split; simpl; try done| |done|].
  - rewrite Hh1. by destruct xs as [|[]].
  - rewrite Hl1, Hl2, length_app. lia.
  - rewrite fmap_app. by apply NoDup_app.
  - apply dll_app. rewrite Ef, Et. split.
    + apply (dll_alter _ _ _ _ _ (Some h2)); [intros ? [= <-] Hk; by apply (Hdis h2)|].
      pose proof (dll_relink_next _ _ _ _ (Some h2) Hn1 Hd1) as Hr. by rewrite Et in Hr.
    + assert (dll (alter (set_nd_n (Some h2)) t1 N) None ys None) as Hr.
      { apply (dll_alter _ _ _ _ _ (Some t1)); [intros ? [= <-]; by apply Hdis|done]. }
      apply (dll_relink_prev _ _ _ _ (Some t1) Hn2) in Hr. by rewrite Ef in Hr.
  - simpl. by rewrite Ht1.
  - intros k Hk _. rewrite fmap_app, elem_of_app in Hk. simpl.
    rewrite !lookup_alter_ne; [done| |]; intros ->; tauto.
Qed.

(** After a concatenation of two lists that are not empty, an append hangs the
    new node on the last node of the first one. *)
Lemma stale_append_run N L F list r xs ys d :
  L !! list = Some r -> xs <> [] ->
  is_list N (set_l_tail (final None (xs ++ ys)) r) (xs ++ ys) -> l_tail r = final None xs ->
  exists N' r', r_list_append list (Some d) (mkHeap N L F)
    = Ok (Some (fresh (dom N))) (mkHeap N' (<[list := r']> L) F)
    /\ is_list N' (set_l_length (Z.of_nat (S (length xs))) r') (xs ++ [(fresh (dom N), d)])
    /\ l_length r' = Z.of_nat (S (length xs + length ys)).
Proof.
  intros El Hx [Hh _ Hlen Hnd Hd] Ht. unfold r_list_append. hrun. rewrite Ht.
  apply dll_app in Hd as [Hd _]. rewrite fmap_app in Hnd. apply NoDup_app in Hnd as (Hnd & _ & _).
  pose proof (dll_fresh _ _ _ _ Hd) as Hfr.
  assert (NoDup (xs ++ [(fresh (dom N), d)]).*1) as Hnd'.
  { rewrite fmap_app. apply NoDup_app. split; [done|split; [|apply NoDup_singleton]].
    intros l Hl Hl'. simpl in Hl'. apply list_elem_of_singleton in Hl' as ->. done. }
  rewrite on_node_if_run.
  2: { apply (alter_if_some N (fun x => x) None). intros l Hl%final_mem. by eapply dll_in. }
  cbn [set_l_tail l_head l_length] in Hh, Hlen. hrun. rewrite Hh, first_app, (first_ne xs) by done.
  assert (is_some (first xs None) = true) as -> by (by destruct xs as [|[]]). hrun.
  do 2 eexists. split; [reflexivity|]. split; [split|];
    cbn [set_l_length set_l_sorted set_l_tail l_head l_tail l_length].
  - rewrite Hh, !first_app. by destruct xs as [|[]].
  - by rewrite final_app.
  - rewrite length_app. simpl. lia.
  - exact Hnd'.
  - apply dll_app. split.
    + apply dll_relink_next with (first ys None); [done|]. by apply dll_insert.
    + split; [|done]. rewrite alter_if_ne; [apply lookup_insert_eq|]. by intros E%final_mem.
  - rewrite Hlen, length_app. lia.
Qed.
End Whole.
