(* ===== verification/ListSpec.v ===== *)
(** * Lists as sequences

    What [libr/util/list.c] promises: any number of lists on the heap behave as
    as many independent sequences.  The abstract state maps every list header to
    its sequence, and [models] relates it to a heap; every operation of
    [ListHeap] within its contract does to the heap what the operation on the
    sequences says. *)

From S2P Require Import Prelude ListHeap ListSeg ListFacts ListWhole.

Section Spec.
Context {A : Type} `{EqDecision A}.
Variable cmp : A -> A -> Z.
Implicit Types (N : gmap addr (RListIter A)) (L : gmap addr RList) (F : list A) (h : heap A).
Implicit Types (ns : list (addr * A)) (xs ys : list A) (r : RList).

(** ** Programs of list operations *)

Inductive lop :=
  | Append (d : A) | Prepend (d : A) | Insert (n : Z) (d : A) | AddSorted (d : A)
  | DelN (n : Z) | Pop | PopHead | DeleteData (d : A) | Split (d : A) | SetN (n : Z) (d : A)
  | Purge | Reverse
  | GetN (n : Z) | Length | First | Top | Contains (d : A) | Find (d : A).

Inductive list_op := New (free : bool) | On (l : addr) (o : lop) | Free (l : addr) | Clone (l : addr) | Join (l1 l2 : addr).

(** Results: of a node, whether it is null. *)
Inductive out := Unit | Bool (b : bool) | Node (present : bool) | Data (d : option A) | Len (n : Z) | List (l : addr).

Definition node_out (m : M (heap A) (option addr)) : M (heap A) out := o ← m; mret (Node (is_some o)).
Definition bool_out (m : M (heap A) bool) : M (heap A) out := b ← m; mret (Bool b).
Definition unit_out (m : M (heap A) unit) : M (heap A) out := m ;; mret Unit.
Definition data_out (m : M (heap A) (option A)) : M (heap A) out := d ← m; mret (Data d).
Definition list_out (m : M (heap A) addr) : M (heap A) out := l ← m; mret (List l).

Definition run_lop (l : addr) (o : lop) : M (heap A) out :=
  match o with
  | Append d => node_out (r_list_append l (Some d))
  | Prepend d => node_out (r_list_prepend l (Some d))
  | Insert n d => node_out (r_list_insert l n (Some d))
  | AddSorted d => node_out (r_list_add_sorted l (Some d) cmp)
  | DelN n => bool_out (r_list_del_n l n)
  | Pop => data_out (r_list_pop l)
  | PopHead => data_out (r_list_pop_head l)
  | DeleteData d => bool_out (r_list_delete_data l (Some d))
  | Split d => unit_out (r_list_split l (Some d))
  | SetN n d => bool_out (r_list_set_n l n (Some d))
  | Purge => unit_out (r_list_purge l)
  | Reverse => unit_out (r_list_reverse l)
  | GetN n => data_out (r_list_get_n l n)
  | Length => n ← r_list_length l; mret (Len n)
  | First => data_out (r_list_first l)
  | Top => data_out (r_list_get_top l)
  | Contains d => node_out (r_list_contains l (Some d))
  | Find d => node_out (r_list_find l d cmp)
  end.

Definition run_list_op (o : list_op) : M (heap A) out :=
  match o with
  | New free => list_out (r_list_newf free)
  | On l o => run_lop l o
  | Free l => unit_out (r_list_free l)
  | Clone l => list_out (r_list_clone l)
  | Join l1 l2 => bool_out (r_list_join l1 l2)
  end.

Fixpoint run_list_ops (os : list list_op) : M (heap A) (list out) :=
  match os with
  | [] => mret []
  | o :: os => x ← run_list_op o; ys ← run_list_ops os; mret (x :: ys)
  end.

(** ** The operations on sequences *)

(** The longest prefix without an element that satisfies a condition, and the
    rest. *)
Fixpoint break (P : A -> bool) xs : list A * list A :=
  match xs with
  | [] => ([], [])
  | x :: xs => if P x then ([], x :: xs) else let '(ys, zs) := break P xs in (x :: ys, zs)
  end.

(** Without the first occurrence of an element. *)
Fixpoint remove_first (d : A) xs : option (list A) :=
  match xs with
  | [] => None
  | x :: xs => if bool_decide (d = x) then Some xs else ys ← remove_first d xs; Some (x :: ys)
  end.

Definition in_range (n : Z) xs : bool := (0 <=? n) && (n <? Z.of_nat (length xs)).

(** The result, the new sequence and the data given to the [free] callback of
    the list, if it has one; [None] outside the contract: taking an element
    from an empty list makes its length negative. *)
Definition spec_lop (o : lop) xs : option (out * list A * list A) :=
  match o with
  | Append d => Some (Node true, xs ++ [d], [])
  | Prepend d => Some (Node true, d :: xs, [])
  | Insert n d =>
      let k := if in_range n xs then Z.to_nat n else length xs in
      Some (Node true, take k xs ++ d :: drop k xs, [])
  | AddSorted d =>
      let '(ys, zs) := break (fun e => negb (0 <? cmp d e)) xs in
      Some (Node (negb (bool_decide (zs = []))), ys ++ d :: zs, [])
  | DelN n => Some (Bool (in_range n xs), if in_range n xs then delete (Z.to_nat n) xs else xs, [])
  | Pop => match last xs with Some d => Some (Data (Some d), take (pred (length xs)) xs, []) | None => None end
  | PopHead => match xs with d :: xs => Some (Data (Some d), xs, []) | [] => None end
  | DeleteData d =>
      match remove_first d xs with
      | Some ys => Some (Bool true, ys, [d])
      | None => Some (Bool false, xs, [])
      end
  | Split d => Some (Unit, default xs (remove_first d xs), [])
  | SetN n d =>
      if in_range n xs then Some (Bool true, <[Z.to_nat n := d]> xs, option_list (xs !! Z.to_nat n))
      else Some (Bool false, xs, [])
  | Purge => Some (Unit, [], xs)
  | Reverse => Some (Unit, reverse xs, [])
  | GetN n => Some (Data (if 0 <=? n then xs !! Z.to_nat n else None), xs, [])
  | Length => Some (Len (Z.of_nat (length xs)), xs, [])
  | First => Some (Data (head xs), xs, [])
  | Top => Some (Data (last xs), xs, [])
  | Contains d => Some (Node (bool_decide (d ∈ xs)), xs, [])
  | Find d => Some (Node (existsb (fun e => cmp d e =? 0) xs), xs, [])
  end.

(** A list with its callback; a header whose nodes another list took over is
    only to be freed. *)
Record alist := mkAList { al_free : bool; al_data : list A }.
Record astate := mkA { as_lists : gmap addr (option alist); as_freed : list A }.

Definition drop_data (free : bool) xs : list A := if free then xs else [].

Definition spec_op (o : list_op) (s : astate) : option (out * astate) :=
  let new := fresh (dom (as_lists s)) in
  match o with
  | New free => Some (List new, mkA (<[new := Some (mkAList free [])]> (as_lists s)) (as_freed s))
  | On l o =>
      match as_lists s !! l with
      | Some (Some a) =>
          '(x, ys, freed) ← spec_lop o (al_data a);
          Some (x, mkA (<[l := Some (mkAList (al_free a) ys)]> (as_lists s))
                     (as_freed s ++ drop_data (al_free a) freed))
      | _ => None
      end
  | Free l =>
      match as_lists s !! l with
      | Some (Some a) => Some (Unit, mkA (delete l (as_lists s)) (as_freed s ++ drop_data (al_free a) (al_data a)))
      | Some None => Some (Unit, mkA (delete l (as_lists s)) (as_freed s))
      | None => None
      end
  | Clone l =>
      match as_lists s !! l with
      | Some (Some a) =>
          Some (List new, mkA (<[new := Some (mkAList false (al_data a))]> (as_lists s)) (as_freed s))
      | _ => None
      end
  | Join l1 l2 =>
      match as_lists s !! l1, as_lists s !! l2 with
      | Some (Some a), Some (Some b) =>
          if bool_decide (l1 = l2) then None
          else match al_data a, al_data b with
               | _, [] => Some (Bool false, s)
               | [], ys =>
                   Some (Bool true, mkA (<[l1 := Some (mkAList (al_free a) ys)]> (<[l2 := None]> (as_lists s)))
                                      (as_freed s))
               | _, _ => None
               end
      | _, _ => None
      end
  end.

Fixpoint spec_ops (os : list list_op) (s : astate) : option (list out * astate) :=
  match os with
  | [] => Some ([], s)
  | o :: os => '(x, s) ← spec_op o s; '(ys, s) ← spec_ops os s; Some (x :: ys, s)
  end.

(** ** The relation *)

Definition list_ok N L (l : addr) (a : option (option alist)) ns : Prop :=
  match a with
  | None => L !! l = None /\ ns = []
  | Some None => (exists r, L !! l = Some r /\ l_head r = None) /\ ns = []
  | Some (Some a) => exists r, L !! l = Some r /\ is_list N r ns /\ l_free r = al_free a /\ ns.*2 = al_data a
  end.

(** The nodes of every list are its own. *)
Record models_with (σ : addr -> list (addr * A)) h (s : astate) : Prop := {
  mo_list l : list_ok (hp_nodes h) (hp_lists h) l (as_lists s !! l) (σ l);
  mo_disjoint l1 l2 k : l1 <> l2 -> k ∈ (σ l1).*1 -> k ∉ (σ l2).*1;
  mo_freed : hp_freed h = as_freed s;
}.
Definition models h (s : astate) : Prop := exists σ, models_with σ h s.

Lemma list_ok_in N L l a ns k : list_ok N L l a ns -> k ∈ ns.*1 -> is_Some (N !! k).
Proof.
  destruct a as [[a|]|]; simpl; [|by intros [_ ->]; intros ?%elem_of_nil..].
  intros (r & _ & [] & _) Hk. by eapply dll_in.
Qed.

(** The lists other than the one changed. *)
Lemma list_ok_frame N N' L L' l a ns (X : list addr) :
  list_ok N L l a ns -> frame N N' X -> (forall k, k ∈ X -> k ∉ ns.*1) -> L' !! l = L !! l ->
  list_ok N' L' l a ns.
Proof.
  intros H Hf Hd E. destruct a as [[a|]|]; simpl in *; rewrite E; try done.
  destruct H as (r & Er & [H1 H2 H3 H4 H5] & Hfr & Ed). exists r. split; [done|]. split; [|done].
  split; try done. by apply (frame_list _ _ _ _ _ _ Hf).
Qed.

Lemma models_update σ N L F s l (a : option (option alist)) ns' N' L' F' :
  models_with σ (mkHeap N L F) s ->
  frame N N' (σ l).*1 -> (forall l', l' <> l -> L' !! l' = L !! l') ->
  gains N (σ l) ns' -> list_ok N' L' l a ns' ->
  models_with (fun l' => if decide (l' = l) then ns' else σ l') (mkHeap N' L' F')
    (mkA (partial_alter (fun _ => a) l (as_lists s)) F').
Proof.
  intros [Hl Hd Hf] Hfr HL Hg Ha. simpl in *. split; simpl.
  - intros l'. destruct (decide (l' = l)) as [->|Hne]; [by rewrite lookup_partial_alter_eq|].
    rewrite lookup_partial_alter_ne by done.
    eapply list_ok_frame; [apply Hl|apply Hfr| |by apply HL]. intros k Hk. by apply (Hd l).
  - assert (forall l2 k, l2 <> l -> k ∈ ns'.*1 -> k ∉ (σ l2).*1) as Hx.
    { intros l2 k Hne [Hk|Hk]%Hg Hk2; [by apply (Hd l l2 k)|].
      destruct (list_ok_in _ _ _ _ _ _ (Hl l2) Hk2) as [y Ey]. congruence. }
    intros l1 l2 k Hne. destruct (decide (l1 = l)) as [->|H1], (decide (l2 = l)) as [->|H2]; [done| | |].
    + by apply Hx.
    + intros Hk Hk'. by apply (Hx l1 k).
    + by apply Hd.
  - done.
Qed.

(** ** Sequences of nodes and of data *)

Lemma break_split (P : A -> bool) i ns :
  break P ns.*2 = ((seek_split (fun _ e => P e) i ns).1.*2, (seek_split (fun _ e => P e) i ns).2.*2).
Proof.
  revert i. induction ns as [|[l d] ns IH]; intros i; [done|]. rewrite fmap_cons. cbn [break seek_split snd].
  destruct (P d); [done|].
  rewrite (IH (i + 1)). by destruct (seek_split _ (i + 1) ns).
Qed.

Lemma remove_first_split d i ns :
  remove_first d ns.*2
  = let '(us, vs) := seek_split (fun _ e => bool_decide (Some d = Some e)) i ns in
    match vs with [] => None | _ :: vs => Some (us.*2 ++ vs.*2) end.
Proof.
  revert i. induction ns as [|[l e] ns IH]; intros i; [done|]. rewrite fmap_cons. cbn [remove_first seek_split snd].
  rewrite (bool_decide_ext (Some d = Some e) (d = e)) by (split; congruence).
  destruct (bool_decide (d = e)); [done|]. rewrite (IH (i + 1)).
  destruct (seek_split _ (i + 1) ns) as [us [|v vs]]; done.
Qed.

(** The data at which a walk stops is the one it looks for. *)
Lemma seek_split_head (P : A -> bool) i ns l d us vs :
  seek_split (fun _ e => P e) i ns = (us, (l, d) :: vs) -> P d = true.
Proof.
  revert i us. induction ns as [|[k e] ns IH]; intros i us; simpl; [done|].
  destruct (P e) eqn:E; [by intros [= <- <- <- <-]|].
  destruct (seek_split _ (i + 1) ns) as [us' vs'] eqn:E'. intros [= <- ->]. by eapply IH.
Qed.

Lemma found_in (P : A -> bool) ns :
  is_some (list_find (fun x => P x.2) ns ≫= (fun x => Some x.2.1)) = existsb P ns.*2.
Proof.
  induction ns as [|[l d] ns IH]; [done|]. cbn [list_find fmap list_fmap existsb snd].
  case_decide as Hp; simpl in Hp.
  - by apply Is_true_true in Hp as ->.
  - apply Is_true_false in Hp as ->. simpl. rewrite <- IH. by destruct (list_find _ ns) as [[]|].
Qed.

Lemma existsb_elem d (xs : list A) : existsb (fun e => bool_decide (Some d = Some e)) xs = bool_decide (d ∈ xs).
Proof.
  apply eq_true_iff_eq. rewrite existsb_exists, bool_decide_eq_true. split.
  - intros (x & Hx & [= <-]%bool_decide_eq_true). by apply list_elem_of_In.
  - intros Hx. exists d. split; [by apply list_elem_of_In|by apply bool_decide_eq_true].
Qed.

(** ** Every operation on one list *)

Lemma freed_nil F r : F ++ freed r [] = F.
Proof. unfold freed. destruct (l_free r); apply app_nil_r. Qed.

Lemma becomes_ret {B C} (m : M (heap A) B) (g : B -> C) list N L F r ns x ns' F' :
  becomes m list N L F r ns x ns' F' -> becomes (y ← m; mret (g y)) list N L F r ns (g x) ns' F'.
Proof. intros (N' & r' & E & H). exists N', r'. split; [|done]. by rewrite run_bind, E. Qed.

Lemma gains_refl N ns : gains N ns ns.
Proof. by left. Qed.

Lemma gains_sub N ns ns' : ns' ⊆ ns -> gains N ns ns'.
Proof. intros Hs k ([k' d] & -> & Hk)%list_elem_of_fmap. left. apply list_elem_of_fmap. exists (k', d). auto. Qed.

Lemma gains_fresh N us vs d : gains N (us ++ vs) (us ++ (fresh (dom N), d) :: vs).
Proof.
  intros k. rewrite !fmap_app, fmap_cons, !elem_of_app, elem_of_cons. simpl.
  intros [Hk|[->|Hk]]; [by left; left|right; apply fresh_node|by left; right].
Qed.

(** What a run of an operation on one list is to satisfy. *)
Definition lop_ok (o : lop) : Prop := forall N L F l r ns ret ys fr,
  L !! l = Some r -> is_list N r ns -> spec_lop o ns.*2 = Some (ret, ys, fr) ->
  exists ns', becomes (run_lop l o) l N L F r ns ret ns' (F ++ freed r fr) /\ ns'.*2 = ys /\ gains N ns ns'.

Lemma read_ok {B} (m : M (heap A) B) (g : B -> out) N L F l r ns x :
  L !! l = Some r -> is_list N r ns -> m (mkHeap N L F) = Ok x (mkHeap N L F) ->
  exists ns', becomes (y ← m; mret (g y)) l N L F r ns (g x) ns' (F ++ freed r []) /\ ns'.*2 = ns.*2 /\ gains N ns ns'.
Proof.
  intros El Hl E. exists ns. rewrite freed_nil. split; [|split; [done|apply gains_refl]].
  apply becomes_ret. by apply unchanged.
Qed.

Lemma reads_ok :
  (forall n, lop_ok (GetN n)) /\ lop_ok Length /\ lop_ok First /\ lop_ok Top
  /\ (forall d, lop_ok (Contains d)) /\ (forall d, lop_ok (Find d)).
Proof.
  split_and!; unfold lop_ok; intros *; try (intros El Hl [= <- <- <-]); simpl;
    try (intros El Hl [= <- <- <-]).
  - by apply (read_ok _ Data _ _ _ _ _ _ _ El Hl), get_n_run with r.
  - rewrite length_fmap. by apply (read_ok _ Len _ _ _ _ _ _ _ El Hl), length_run with r.
  - by apply (read_ok _ Data _ _ _ _ _ _ _ El Hl), first_run with r.
  - by apply (read_ok _ Data _ _ _ _ _ _ _ El Hl), get_top_run with r.
  - rewrite <- existsb_elem, <- found_in.
    by apply (read_ok _ (fun o => Node (is_some o)) _ _ _ _ _ _ _ El Hl), contains_run with r.
  - rewrite <- found_in. by apply (read_ok _ (fun o => Node (is_some o)) _ _ _ _ _ _ _ El Hl), find_run with r.
Qed.

Lemma inserts_ok :
  (forall d, lop_ok (Append d)) /\ (forall d, lop_ok (Prepend d)) /\ (forall n d, lop_ok (Insert n d))
  /\ (forall d, lop_ok (AddSorted d)).
Proof.
  split_and!; unfold lop_ok; intros *; intros El Hl; cbn [spec_lop run_lop].
  - intros [= <- <- <-]. rewrite freed_nil. eexists. split; [|split].
    + by apply (becomes_ret _ (fun o => Node (is_some o)) _ _ _ _ _ _ _ _ _ (append_run N L F l r ns d El Hl)).
    + by rewrite fmap_app.
    + rewrite <- (app_nil_r ns) at 1. apply gains_fresh.
  - intros [= <- <- <-]. rewrite freed_nil. eexists. split; [|split].
    + by apply (becomes_ret _ (fun o => Node (is_some o)) _ _ _ _ _ _ _ _ _ (prepend_run N L F l r ns d El Hl)).
    + done.
    + apply (gains_fresh _ []).
  - intros [= <- <- <-]. rewrite freed_nil. eexists. split; [|split].
    + by apply (becomes_ret _ (fun o => Node (is_some o)) _ _ _ _ _ _ _ _ _ (insert_run N L F l r ns n d El Hl)).
    + unfold in_range. by rewrite fmap_app, fmap_cons, fmap_take, fmap_drop, length_fmap.
    + match goal with |- gains _ _ (take ?k _ ++ _) => rewrite <- (take_drop k ns) at 1 end. apply gains_fresh.
  - rewrite (break_split _ 0). intros [= <- <- <-]. rewrite freed_nil.
    pose proof (add_sorted_run N L F l r ns d cmp El Hl) as Hr.
    pose proof (seek_split_app (fun _ e => negb (0 <? cmp d e)) 0 ns) as Ea.
    destruct (seek_split _ 0 ns) as [us vs]. simpl in *. eexists. split; [|split].
    + replace (Node _) with (Node (is_some (if bool_decide (vs = []) then None else Some (fresh (dom N))))).
      * apply (becomes_ret _ (fun o => Node (is_some o)) _ _ _ _ _ _ _ _ _ Hr).
      * f_equal. by destruct vs.
    + by rewrite fmap_app.
    + rewrite <- Ea at 1. apply gains_fresh.
Qed.

Lemma gains_without N us x vs : gains N (us ++ x :: vs) (us ++ vs).
Proof. apply gains_sub. intros y. rewrite !elem_of_app, elem_of_cons. tauto. Qed.

Lemma split_removed d ns us vs :
  seek_split (fun _ e => bool_decide (Some d = Some e)) 0 ns = (us, vs) ->
  (us ++ tail vs).*2 = default ns.*2 (remove_first d ns.*2)
  /\ is_some (remove_first d ns.*2) = negb (bool_decide (vs = []))
  /\ take 1 vs.*2 = (if bool_decide (vs = []) then [] else [d]) /\ forall N, gains N ns (us ++ tail vs).
Proof.
  intros E. pose proof (seek_split_app (fun _ e => bool_decide (Some d = Some e)) 0 ns) as Ea.
  rewrite (remove_first_split d 0), E in *. simpl in Ea. subst ns. destruct vs as [|[l e] vs]; simpl.
  - rewrite !app_nil_r. split_and!; try done. intros N. apply gains_refl.
  - apply seek_split_head in E as [= ->]%bool_decide_eq_true. rewrite fmap_app. split_and!; try done.
    intros N. apply (gains_without N us (l, e) vs).
Qed.

Lemma removes_ok :
  (forall d, lop_ok (DeleteData d)) /\ (forall d, lop_ok (Split d)) /\ lop_ok Purge.
Proof.
  split_and!; unfold lop_ok; intros *; intros El Hl; cbn [spec_lop run_lop].
  - pose proof (delete_data_run N L F l r ns d El Hl) as Hr.
    destruct (seek_split _ 0 ns) as [us vs] eqn:E. destruct (split_removed d ns us vs E) as (E1 & E2 & E3 & Hg).
    rewrite E3 in Hr. destruct (remove_first d ns.*2) as [zs|]; simpl in *; intros [= <- <- <-];
      (destruct (bool_decide_reflect (vs = [])) as [Hv|Hv]; try discriminate E2);
      exists (us ++ tail vs); (split; [|split; [done|apply Hg]]); by apply (becomes_ret _ Bool).
  - pose proof (split_run N L F l r ns d El Hl) as Hr.
    destruct (seek_split _ 0 ns) as [us vs] eqn:E. destruct (split_removed d ns us vs E) as (E1 & _ & _ & Hg).
    intros [= <- <- <-]. rewrite freed_nil. exists (us ++ tail vs). split; [|split; [done|apply Hg]].
    by apply (becomes_ret _ (fun _ => Unit) _ _ _ _ _ _ tt).
  - intros [= <- <- <-]. exists []. split; [|split; [done|by intros k ?%elem_of_nil]].
    apply (becomes_ret _ (fun _ => Unit) _ _ _ _ _ _ tt). by apply purge_run.
Qed.

Lemma in_range_fmap (n : Z) ns : in_range n ns.*2 = (0 <=? n) && (n <? Z.of_nat (length ns)).
Proof. unfold in_range. by rewrite length_fmap. Qed.

Lemma positions_ok : (forall n, lop_ok (DelN n)) /\ (forall n d, lop_ok (SetN n d)).
Proof.
  split; unfold lop_ok; intros *; intros El Hl; cbn [spec_lop run_lop]; rewrite in_range_fmap.
  - pose proof (del_n_run N L F l r ns n El Hl) as Hr. intros [= <- <- <-]. rewrite freed_nil.
    destruct ((0 <=? n) && (n <? Z.of_nat (length ns))).
    + rewrite <- delete_take_drop in Hr. eexists. split; [by apply (becomes_ret _ Bool), Hr|split; [by rewrite list_fmap_delete|]].
      apply gains_sub, list_subseteq_delete.
    + eexists. split; [by apply (becomes_ret _ Bool), Hr|split; [done|apply gains_refl]].
  - destruct ((0 <=? n) && (n <? Z.of_nat (length ns))) eqn:En.
    + apply andb_true_iff in En as [?%Z.leb_le ?%Z.ltb_lt].
      destruct (lookup_lt_is_Some_2 ns (Z.to_nat n)) as [[k e] Ex]; [lia|].
      rewrite list_lookup_fmap, Ex. intros [= <- <- <-].
      pose proof (take_drop_middle _ _ _ Ex) as Em.
      assert (n = Z.of_nat (length (take (Z.to_nat n) ns))) as En' by (rewrite length_take; lia).
      revert Em En'. generalize (take (Z.to_nat n) ns) (drop (S (Z.to_nat n)) ns). intros us vs <- ->.
      exists (us ++ (k, d) :: vs). split; [|split].
      * by apply (becomes_ret _ Bool), set_n_run.
      * rewrite Nat2Z.id, !fmap_app, !fmap_cons. rewrite <- (Nat.add_0_r (length us)), <- (length_fmap snd us).
        by rewrite insert_app_r.
      * intros x. rewrite !fmap_app, !fmap_cons. by left.
    + intros [= <- <- <-]. pose proof (seek_list_run N L F l r ns (fun j _ => j =? n) El Hl) as Es.
      rewrite seek_split_nth, Z.add_0_l, En in Es.
      apply (read_ok _ Bool _ _ _ _ _ _ _ El Hl). unfold r_list_set_n, nth_node. by rewrite run_bind, Es.
Qed.

Lemma takes_ok : lop_ok Pop /\ lop_ok PopHead /\ lop_ok Reverse.
Proof.
  split_and!; unfold lop_ok; intros *; intros El Hl; cbn [spec_lop run_lop].
  - destruct (decide (ns = [])) as [->|Hne]; [done|]. destruct (exists_last Hne) as (us & [k d] & ->).
    rewrite fmap_app. simpl. rewrite last_snoc. intros [= <- <- <-]. rewrite freed_nil. exists us. split; [|split].
    + apply (becomes_ret _ Data). by apply pop_run.
    + rewrite length_app. simpl. rewrite Nat.add_1_r. simpl. by rewrite take_app_length.
    + rewrite <- (app_nil_r us) at 2. apply gains_without.
  - destruct ns as [|[k d] ns]; [done|]. intros [= <- <- <-]. rewrite freed_nil. exists ns. split; [|split; [done|]].
    + apply (becomes_ret _ Data). by apply pop_head_run.
    + apply (gains_without _ []).
  - intros [= <- <- <-]. rewrite freed_nil. exists (reverse ns). split; [|split; [by rewrite fmap_reverse|]].
    + apply (becomes_ret _ (fun _ => Unit) _ _ _ _ _ _ tt). by apply reverse_run.
    + apply gains_sub. intros x. by rewrite elem_of_reverse.
Qed.

Lemma run_lop_ok o : lop_ok o.
Proof.
  destruct reads_ok as (? & ? & ? & ? & ? & ?), inserts_ok as (? & ? & ? & ?), removes_ok as (? & ? & ?),
    positions_ok as (? & ?), takes_ok as (? & ? & ?). by destruct o.
Qed.

(** ** Every operation on the heap *)

Lemma models_fresh σ N L F s : models_with σ (mkHeap N L F) s -> fresh (dom (as_lists s)) = fresh (dom L).
Proof.
  intros [Hl _ _]. f_equal. apply set_eq. intros l. rewrite !elem_of_dom. specialize (Hl l). simpl in Hl.
  destruct (as_lists s !! l) as [[a|]|]; simpl in Hl.
  - destruct Hl as (r & -> & _). split; by eexists.
  - destruct Hl as ((r & -> & _) & _). split; by eexists.
  - destruct Hl as (-> & _). split; intros [? [=]].
Qed.

Lemma freed_drop r a (xs : list A) : l_free r = al_free a -> freed r xs = drop_data (al_free a) xs.
Proof. by unfold freed, drop_data; intros ->. Qed.

(** An operation that gives a tracked list new contents. *)
Lemma models_becomes {B} (m : M (heap A) B) σ N L F s l a r x ns' F' :
  models_with σ (mkHeap N L F) s -> as_lists s !! l = Some (Some a) ->
  L !! l = Some r -> l_free r = al_free a ->
  becomes m l N L F r (σ l) x ns' F' -> gains N (σ l) ns' ->
  exists h', m (mkHeap N L F) = Ok x h'
    /\ models h' (mkA (<[l := Some (mkAList (al_free a) ns'.*2)]> (as_lists s)) F').
Proof.
  intros Hm Ea El Ef (N' & r' & E & Hl & Hf & Hfr) Hg. eexists. split; [exact E|].
  eexists. apply (models_update σ N L F s l (Some (Some _))) with (ns' := ns'); [done|done| |done|].
  - intros l' Hne. by apply lookup_insert_ne.
  - exists r'. split_and!; [apply lookup_insert_eq|done|simpl; congruence|done].
Qed.

Lemma on_ok σ N L F s l o x s' :
  models_with σ (mkHeap N L F) s -> spec_op (On l o) s = Some (x, s') ->
  exists h', run_list_op (On l o) (mkHeap N L F) = Ok x h' /\ models h' s'.
Proof.
  intros Hm. simpl. pose proof (mo_list _ _ _ Hm l) as Hl. simpl in Hl.
  destruct (as_lists s !! l) as [[a|]|] eqn:Ea; [|done..]. destruct Hl as (r & Er & Hl & Ef & Ed).
  rewrite <- Ed. destruct (spec_lop o _) as [[[x' ys] fr]|] eqn:Es; [|done]. simpl. intros [= -> <-].
  destruct (run_lop_ok o N L F l r (σ l) x ys fr Er Hl Es) as (ns' & Hb & <- & Hg).
  rewrite (freed_drop _ a _ Ef) in Hb. rewrite <- (mo_freed _ _ _ Hm). by apply (models_becomes _ σ) with r.
Qed.

Lemma new_ok σ N L F s free x s' :
  models_with σ (mkHeap N L F) s -> spec_op (New free) s = Some (x, s') ->
  exists h', run_list_op (New free) (mkHeap N L F) = Ok x h' /\ models h' s'.
Proof.
  intros Hm. cbn [spec_op]. rewrite (models_fresh _ _ _ _ _ Hm). intros [= <- <-].
  eexists. split; [reflexivity|]. rewrite <- (mo_freed _ _ _ Hm).
  eexists. eapply (models_update σ N L F s _ (Some (Some _))) with (ns' := []); [done|done| |by intros ? ?%elem_of_nil|].
  - intros l' Hne. by apply lookup_insert_ne.
  - eexists. split_and!; [apply lookup_insert_eq| |done|done]. by split; try apply NoDup_nil.
Qed.

Lemma free_ok σ N L F s l x s' :
  models_with σ (mkHeap N L F) s -> spec_op (Free l) s = Some (x, s') ->
  exists h', run_list_op (Free l) (mkHeap N L F) = Ok x h' /\ models h' s'.
Proof.
  intros Hm. simpl. pose proof (mo_list _ _ _ Hm l) as Hl. simpl in Hl. rewrite <- (mo_freed _ _ _ Hm). simpl.
  unfold unit_out. destruct (as_lists s !! l) as [[a|]|] eqn:Ea; [| |done].
  - destruct Hl as (r & Er & Hl & Ef & Ed). intros [= <- <-].
    destruct (free_run N L F l r (σ l) Er Hl) as (N' & E & Hfr).
    rewrite run_bind, E, <- Ed, <- (freed_drop _ a _ Ef). eexists. split; [reflexivity|].
    eexists. apply (models_update σ N L F s l None) with (ns' := []); [done|done| |by intros ? ?%elem_of_nil|].
    + intros l' Hne. by apply lookup_delete_ne.
    + split; [apply lookup_delete_eq|done].
  - destruct Hl as ((r & Er & Eh) & Ens). intros [= <- <-].
    assert (r_list_free l (mkHeap N L F) = Ok tt (mkHeap N (delete l L) F)) as E.
    { unfold r_list_free, r_list_purge, walk_fuel. rewrite run_bind. hrun. rewrite Eh. cbn [purge_from]. hrun.
      mrun. unfold set_lists. simpl. by rewrite delete_insert_eq. }
    rewrite run_bind, E. eexists. split; [reflexivity|].
    eexists. apply (models_update σ N L F s l None) with (ns' := []); [done|done| |by intros ? ?%elem_of_nil|].
    + intros l' Hne. by apply lookup_delete_ne.
    + split; [apply lookup_delete_eq|done].
Qed.

Lemma clone_ok σ N L F s l x s' :
  models_with σ (mkHeap N L F) s -> spec_op (Clone l) s = Some (x, s') ->
  exists h', run_list_op (Clone l) (mkHeap N L F) = Ok x h' /\ models h' s'.
Proof.
  intros Hm. cbn [spec_op run_list_op]. pose proof (mo_list _ _ _ Hm l) as Hl. cbn [hp_nodes hp_lists] in Hl.
  rewrite (models_fresh _ _ _ _ _ Hm). unfold list_out.
  destruct (as_lists s !! l) as [[a|]|] eqn:Ea; [|done..]. destruct Hl as (r & Er & Hl & Ef & Ed). intros [= <- <-].
  destruct (clone_run N L F l r (σ l) Er Hl) as (N' & r' & ns' & E & Hl' & Ed' & Ef' & Hfr & Hg).
  rewrite run_bind, E, <- (mo_freed _ _ _ Hm). eexists. split; [reflexivity|].
  eexists. apply (models_update σ N L F s _ (Some (Some _))) with (ns' := ns'); [done| | | |].
  - intros k _. apply Hfr, not_elem_of_nil.
  - intros l' Hne. by apply lookup_insert_ne.
  - intros k Hk. right. by apply Hg.
  - exists r'. split_and!; [apply lookup_insert_eq|done|done|simpl; congruence].
Qed.

Lemma join_ok σ N L F s l1 l2 x s' :
  models_with σ (mkHeap N L F) s -> spec_op (Join l1 l2) s = Some (x, s') ->
  exists h', run_list_op (Join l1 l2) (mkHeap N L F) = Ok x h' /\ models h' s'.
Proof.
  intros Hm. cbn [spec_op run_list_op]. unfold bool_out.
  pose proof (mo_list _ _ _ Hm l1) as H1. pose proof (mo_list _ _ _ Hm l2) as H2. cbn [hp_nodes hp_lists] in *.
  destruct (as_lists s !! l1) as [[a|]|]; [|done..]. destruct (as_lists s !! l2) as [[b|]|]; [|done..].
  destruct H1 as (r1 & E1 & H1 & Ef1 & Ed1), H2 as (r2 & E2 & H2 & Ef2 & Ed2).
  case_bool_decide as Hne; [done|]. destruct (al_data b) as [|y ys] eqn:Eb.
  - apply fmap_nil_inv in Ed2. rewrite Ed2 in H2. rewrite run_bind, (join_nothing_run _ _ _ _ _ _ _ E1 E2 H2).
    destruct (al_data a); intros [= <- <-]; eexists; (split; [reflexivity|by exists σ]).
  - destruct (al_data a) eqn:Ea; [|done]. apply fmap_nil_inv in Ed1. rewrite Ed1 in H1. intros [= <- <-].
    destruct (join_empty_run N L F l1 l2 r1 r2 (σ l2) E1 E2 Hne H1 H2) as (r1' & E & Hl' & Ef').
    { intros En. by rewrite En in Ed2. }
    rewrite run_bind, E. eexists. split; [reflexivity|]. destruct Hm as [Hl Hd Hf].
    exists (fun l => if decide (l = l1) then σ l2 else if decide (l = l2) then [] else σ l).
    split; cbn [hp_nodes hp_lists hp_freed as_lists as_freed]; [| |done].
    + intros l. destruct (decide (l = l1)) as [->|]; [|destruct (decide (l = l2)) as [->|]].
      * rewrite lookup_insert_eq. exists r1'. rewrite lookup_insert_eq. split_and!; [done|done|simpl; congruence|done].
      * rewrite lookup_insert_ne, lookup_insert_eq by done. split; [|done].
        exists (set_l_tail None (set_l_head None r2)). split; [|done].
        rewrite lookup_insert_ne by done. apply lookup_insert_eq.
      * rewrite !lookup_insert_ne by done. specialize (Hl l). cbn [hp_nodes hp_lists] in Hl.
        by eapply list_ok_frame; [apply Hl|apply (frame_refl _ [])|intros k ?%elem_of_nil|rewrite !lookup_insert_ne by done].
    + intros k1 k2 k Hk. repeat case_decide; subst; try done; try (intros; apply not_elem_of_nil);
        try (by intros ?%elem_of_nil); by apply Hd.
Qed.

Lemma run_list_op_ok h s o x s' :
  models h s -> spec_op o s = Some (x, s') -> exists h', run_list_op o h = Ok x h' /\ models h' s'.
Proof.
  intros [σ Hm]. destruct h as [N L F]. destruct o;
    eauto using new_ok, on_ok, free_ok, clone_ok, join_ok.
Qed.

(** C7: any number of lists on one heap are as many independent sequences: a
    program of list operations that keeps within the contract on the sequences
    runs, gives the results it gives on them, leaves lists that stand for them,
    and has handed exactly the same data to the callbacks. *)
Theorem r_list_refines_sequences os h s outs s' :
  models h s -> spec_ops os s = Some (outs, s') ->
  exists h', run_list_ops os h = Ok outs h' /\ models h' s' /\ hp_freed h' = as_freed s'.
Proof.
  intros Hm Hs. assert (exists h', run_list_ops os h = Ok outs h' /\ models h' s') as (h' & E & Hm').
  { revert h s outs Hm Hs. induction os as [|o os IH]; intros h s outs Hm; simpl.
    - intros [= <- <-]. by exists h.
    - destruct (spec_op o s) as [[x s1]|] eqn:E1; [|done]. simpl.
      destruct (spec_ops os s1) as [[ys s2]|] eqn:E2; [|done]. simpl. intros [= <- <-].
      destruct (run_list_op_ok _ _ _ _ _ Hm E1) as (h1 & R1 & M1). destruct (IH _ _ _ M1 E2) as (h2 & R2 & M2).
      exists h2. split; [|done]. by rewrite run_bind, R1, run_bind, R2. }
  exists h'. split_and!; [done..|]. by destruct Hm' as [σ []].
Qed.

(** Two lists that are not empty are linked by [r_list_join], but the tail of
    the first one is not moved: the next append takes the nodes of the second
    list out of the first one, whose length still counts them. *)
Theorem r_list_join_then_append_loses N L F list1 list2 r1 r2 ns1 ns2 d :
  L !! list1 = Some r1 -> L !! list2 = Some r2 -> list1 <> list2 ->
  is_list N r1 ns1 -> is_list N r2 ns2 -> (forall l, l ∈ ns1.*1 -> l ∉ ns2.*1) ->
  ns1 <> [] -> ns2 <> [] ->
  exists it N' L' r', (r_list_join list1 list2 ;; r_list_append list1 (Some d)) (mkHeap N L F)
    = Ok (Some it) (mkHeap N' L' F)
    /\ L' !! list1 = Some r'
    /\ is_list N' (set_l_length (Z.of_nat (S (length ns1))) r') (ns1 ++ [(it, d)])
    /\ l_length r' = Z.of_nat (S (length ns1 + length ns2)).
Proof.
  intros E1 E2 Hne H1 H2 Hd Hn1 Hn2.
  destruct (join_both_run N L F list1 list2 r1 r2 ns1 ns2 E1 E2 Hne H1 H2 Hd Hn1 Hn2)
    as (N1 & r & Ej & Hl & Ht & _ & _).
  set (L1 := <[list1 := r]> _) in Ej. assert (L1 !! list1 = Some r) as El by apply lookup_insert_eq.
  destruct (stale_append_run N1 L1 F list1 r ns1 ns2 d El Hn1 Hl Ht) as (N' & r' & Ea & Hl' & Hlen).
  exists (fresh (dom N1)), N', (<[list1 := r']> L1), r'. rewrite run_bind, Ej.
  split_and!; [done|apply lookup_insert_eq|done|done].
Qed.
End Spec.

(** ** Instances *)

Definition demo_cmp (a b : Z) : Z := a - b.
Definition demo_ops : list (list_op (A := Z)) :=
  [New true; On 0 (Append 5); On 0 (Append 7); On 0 (Prepend 3); On 0 (Insert 1 4);
   New true; Join 1 0; On 1 (AddSorted 6); On 1 (DelN 0); On 1 (SetN 1 9); On 1 Reverse;
   Clone 1; On 1 Pop; On 2 (DeleteData 9); On 2 (GetN 1); Free 0; Free 1; On 2 Length].

Lemma models_empty : models (A := Z) (mkHeap ∅ ∅ []) (mkA ∅ []).
Proof.
  exists (fun _ => []). split; simpl; [done| |done]. intros l1 l2 k _ Hk. by apply elem_of_nil in Hk.
Qed.

Lemma r_list_refines_sequences_witness :
  exists h', run_list_ops demo_cmp demo_ops (mkHeap ∅ ∅ [])
    = Ok [List 0; Node true; Node true; Node true; Node true; List 1; Bool true; Node true; Bool true; Bool true;
          Unit; List 2; Data (Some 4); Bool true; Data (Some 6); Unit; Unit; Len 3] h'
  /\ hp_freed h' = [5; 7; 6; 9].
Proof.
  edestruct (r_list_refines_sequences demo_cmp demo_ops (mkHeap ∅ ∅ []) (mkA ∅ [])) as (h' & E & _ & Ef);
    [apply models_empty|vm_compute; reflexivity|].
  exists h'. split; [exact E|exact Ef].
Defined.

(** Two lists of one node each. *)
Definition two_nodes : gmap addr (RListIter Z) :=
  <[0%nat := mkNode (Some 5) None None]> (<[1%nat := mkNode (Some 7) None None]> ∅).
Definition two_lists : gmap addr RList :=
  <[0%nat := mkList (Some 0%nat) (Some 0%nat) false 1 false]> (<[1%nat := mkList (Some 1%nat) (Some 1%nat) false 1 false]> ∅).

Lemma r_list_join_then_append_loses_witness :
  exists it N' L' r', (r_list_join 0 1 ;; r_list_append 0 (Some 9)) (mkHeap two_nodes two_lists [])
    = Ok (Some it) (mkHeap N' L' [])
  /\ L' !! 0%nat = Some r' /\ is_list N' (set_l_length 2 r') [(0%nat, 5); (it, 9)] /\ l_length r' = 3.
Proof.
  apply (r_list_join_then_append_loses two_nodes two_lists [] 0 1 (mkList (Some 0%nat) (Some 0%nat) false 1 false)
    (mkList (Some 1%nat) (Some 1%nat) false 1 false) [(0%nat, 5)] [(1%nat, 7)] 9); try done.
  - split; try done. apply NoDup_singleton.
  - split; try done. apply NoDup_singleton.
  - intros l ->%list_elem_of_singleton Hl%list_elem_of_singleton. done.
Defined.
