(* ===== verification/ListSort.v ===== *)
(** * Sorting lists

    The merge sort and the exchange sort of [libr/util/list.c]: on a list that is
    not flagged as sorted, [r_list_sort] leaves a well-linked list of the same
    data in the order of the comparison. *)

From stdpp Require Import sorting.
From S2P Require Import Prelude ListHeap ListSeg ListFacts ListWhole.

Section Sort.
Context {A : Type} `{EqDecision A}.
Variable cmp : A -> A -> Z.
Implicit Types (N : gmap addr (RListIter A)) (L : gmap addr RList) (F : list A).
Implicit Types (ns us vs : list (addr * A)) (p q n : option addr) (xs ys : list A).

(** The order of the comparison. *)
Definition le (a b : A) : Prop := cmp a b <= 0.
Definition le_node (x y : addr * A) : Prop := le x.2 y.2.
#[local] Instance le_node_dec x y : Decision (le_node x y).
Proof. unfold le_node, le. apply _. Defined.

(** ** Merging *)

Lemma nodes_size N (ks : list addr) : NoDup ks -> (forall k, k ∈ ks -> is_Some (N !! k)) -> (length ks < S (size N))%nat.
Proof.
  intros Hnd Hk. rewrite <- (size_list_to_set (C := gset addr)) by done. rewrite <- size_dom.
  apply Nat.lt_succ_r, subseteq_size. intros l Hl. apply elem_of_list_to_set in Hl. by apply elem_of_dom, Hk.
Qed.

Lemma cmp_data_run (a b : A) (h : heap A) : cmp_data cmp (Some a) (Some b) h = Ok (cmp a b) h.
Proof. done. Qed.

Lemma merge_in us vs l : l ∈ (list_merge le_node us vs).*1 <-> l ∈ (us ++ vs).*1.
Proof. by rewrite (merge_Permutation le_node us vs). Qed.

Lemma merge_nonempty us vs : us <> [] \/ vs <> [] -> list_merge le_node us vs <> [].
Proof.
  intros H E. pose proof (merge_Permutation le_node us vs) as Hp. rewrite E in Hp.
  apply Permutation_nil, app_eq_nil in Hp. naive_solver.
Qed.

(** Putting a node in front of the result of the recursive call. *)
Lemma relink_head N L F l d n0 p0 q ms :
  N !! l = Some (mkNode (Some d) n0 p0) -> l ∉ ms.*1 -> NoDup ms.*1 -> ms <> [] -> dll N q ms None ->
  exists N', (on_node (set_nd_n (first ms None)) l ;; on_node_at (set_nd_p (Some l)) (first ms None) ;;
              on_node (set_nd_p None) l ;; mret (Some l)) (mkHeap N L F) = Ok (Some l) (mkHeap N' L F)
    /\ dll N' None ((l, d) :: ms) None /\ frame N N' ((l, d) :: ms).*1.
Proof.
  intros E Hl Hnd Hne Hd. destruct (first_in ms None Hne) as (h & Ef & Hh).
  assert (h <> l) as Hhl by (intros ->; done). destruct (dll_in _ _ _ _ _ Hd Hh) as [x Ex].
  exists (alter (set_nd_p None) l (alter (set_nd_p (Some l)) h (alter (set_nd_n (Some h)) l N))).
  rewrite Ef. split; [|split; [split|]].
  - rewrite run_bind, (on_node_run _ _ _ _ _ _ E), run_bind. cbn [on_node_at].
    rewrite (on_node_run _ _ _ _ _ x) by (by rewrite lookup_alter_ne). rewrite run_bind.
    erewrite on_node_run by (rewrite lookup_alter_ne, lookup_alter_eq, E by done; reflexivity). done.
  - rewrite lookup_alter_eq, lookup_alter_ne, lookup_alter_eq, E by done. simpl. by rewrite Ef.
  - assert (dll (alter (set_nd_n (Some h)) l N) q ms None) as Hr.
    { apply (dll_alter _ _ _ _ _ (Some l)); [by intros ? [= <-]|done]. }
    apply (dll_relink_prev _ _ _ _ (Some l) Hnd) in Hr. rewrite Ef in Hr.
    apply (dll_alter _ _ _ _ _ (Some l)); [by intros ? [= <-]|done].
  - intros k Hk _. rewrite fmap_cons, elem_of_cons in Hk. simpl in Hk.
    rewrite !lookup_alter_ne; [done|..]; intros ->; tauto.
Qed.

Lemma NoDup_nodes_app us vs :
  NoDup (us ++ vs).*1 <-> NoDup us.*1 /\ (forall l, l ∈ us.*1 -> l ∉ vs.*1) /\ NoDup vs.*1.
Proof. by rewrite fmap_app, NoDup_app. Qed.

(** One step of the merge, whichever list the next node comes from. *)
Lemma merge_step N N1 L F l d n0 p0 r us vs (m : M (heap A) (option addr)) :
  N !! l = Some (mkNode (Some d) n0 p0) -> l ∉ (us ++ vs).*1 -> NoDup (us ++ vs).*1 -> us ++ vs <> [] ->
  m (mkHeap N L F) = Ok (first (list_merge le_node us vs) None) (mkHeap N1 L F) ->
  dll N1 r (list_merge le_node us vs) None -> frame N N1 (us ++ vs).*1 ->
  exists N', (m ← m; on_node (set_nd_n m) l ;; on_node_at (set_nd_p (Some l)) m ;;
              on_node (set_nd_p None) l ;; mret (Some l)) (mkHeap N L F) = Ok (Some l) (mkHeap N' L F)
    /\ dll N' None ((l, d) :: list_merge le_node us vs) None /\ frame N N' ((l, d) :: us ++ vs).*1.
Proof.
  intros E Hl Hnd Hne Em Hd Hf.
  destruct (relink_head N1 L F l d n0 p0 r (list_merge le_node us vs)) as (N' & Er & Hd' & Hf').
  - rewrite Hf; [done|done|by eexists].
  - by rewrite merge_in.
  - by rewrite (merge_Permutation le_node us vs).
  - apply merge_nonempty. destruct us; [right|by left]. by intros ->.
  - done.
  - exists N'. rewrite run_bind, Em. split; [done|split; [done|]].
    apply (frame_trans _ N1 _ _ ((l, d) :: list_merge le_node us vs).*1).
    + intros k Hk. apply Hf. intros Hk'. apply Hk. by right.
    + done.
    + intros k. rewrite !fmap_cons, !elem_of_cons, merge_in. by left.
Qed.

Lemma merge_run fuel N L F p q us vs :
  (length us + length vs < fuel)%nat -> NoDup (us ++ vs).*1 -> dll N p us None -> dll N q vs None ->
  exists N' r, _merge cmp fuel (first us None) (first vs None) (mkHeap N L F)
    = Ok (first (list_merge le_node us vs) None) (mkHeap N' L F)
    /\ dll N' r (list_merge le_node us vs) None /\ (us <> [] -> vs <> [] -> r = None)
    /\ frame N N' (us ++ vs).*1.
Proof.
  revert N p q us vs. induction fuel as [|fuel IH]; intros N p q us vs Hfu Hnd Hu Hv; [lia|].
  destruct us as [|[f x] us]; [rewrite list_merge_nil_l; by exists N, q|].
  destruct vs as [|[s y] vs]; [rewrite list_merge_nil_r; by exists N, p|].
  rewrite list_merge_cons. cbn [_merge first]. simpl in Hfu.
  pose proof Hu as [Ef Hu']. pose proof Hv as [Es Hv'].
  rewrite run_bind, (get_node_run _ _ _ _ _ Ef), run_bind, (get_node_run _ _ _ _ _ Es). cbn [nd_data nd_n].
  rewrite run_bind, cmp_data_run.
  destruct (decide (le_node (f, x) (s, y))) as [Hle|Hle].
  - rewrite <- app_comm_cons, fmap_cons in Hnd. apply NoDup_cons in Hnd as [Hfn Hnd].
    replace (0 <? cmp x y) with false by (symmetry; apply Z.ltb_ge; exact Hle).
    destruct (IH N (Some f) q us ((s, y) :: vs)) as (N1 & r & E1 & Hd1 & _ & Hf1); [simpl; lia|done..|].
    destruct (merge_step N N1 L F f x (first us None) p r us ((s, y) :: vs)
                (_merge cmp fuel (first us None) (Some s))) as (N' & E' & Hd' & Hf');
      [done|done|done|by destruct us|done|done|done|].
    exists N', None. by split_and!.
  - replace (0 <? cmp x y) with true by (symmetry; apply Z.ltb_lt; apply Znot_le_gt in Hle; simpl in Hle; lia).
    rewrite <- Permutation_middle, fmap_cons in Hnd. apply NoDup_cons in Hnd as [Hsn Hnd].
    destruct (IH N p (Some s) ((f, x) :: us) vs) as (N1 & r & E1 & Hd1 & _ & Hf1); [simpl; lia|done..|].
    destruct (merge_step N N1 L F s y (first vs None) q r ((f, x) :: us) vs
                (_merge cmp fuel (Some f) (first vs None))) as (N' & E' & Hd' & Hf');
      [done|done|done|done|done|done|done|].
    exists N', None. split_and!; [done|done|done|]. intros k Hk. apply Hf'.
    by rewrite (Permutation_middle _ vs (s, y)).
Qed.

(** ** Halving *)

Lemma dll_lookup N p ns (i : nat) l d :
  dll N p ns None -> ns !! i = Some (l, d) ->
  exists pv, N !! l = Some (mkNode (Some d) (match ns !! S i with Some x => Some x.1 | None => None end) pv).
Proof.
  intros Hd E. exists (final p (take i ns)). pose proof (take_drop_middle _ _ _ E) as Em. rewrite <- Em in Hd.
  rewrite (dll_node _ _ _ _ _ _ _ Hd). do 2 f_equal.
  assert (ns !! S i = drop (S i) ns !! 0%nat) as -> by (by rewrite lookup_drop, Nat.add_0_r).
  by destruct (drop (S i) ns) as [|[]].
Qed.

Lemma half_walk_run fuel N L F p ns (i : nat) fast slow :
  dll N p ns None -> fst <$> ns !! (2 * i)%nat = Some fast -> fst <$> ns !! i = Some slow ->
  (length ns < fuel + 2 * i)%nat ->
  exists l, half_walk fuel fast slow (mkHeap N L F) = Ok l (mkHeap N L F)
    /\ fst <$> ns !! ((length ns - 1) / 2)%nat = Some l.
Proof.
  intros Hd. revert i fast slow. induction fuel as [|fuel IH]; intros i fast slow E1 E2 Hfu.
  { apply fmap_Some in E1 as (x & E1 & _). apply lookup_lt_Some in E1. lia. }
  apply fmap_Some in E1 as ([fast' d] & E1 & ->), E2 as ([slow' e] & E2 & ->).
  pose proof (lookup_lt_Some _ _ _ E1) as Hlen.
  destruct (dll_lookup _ _ _ _ _ _ Hd E1) as [pf Ef]. cbn [half_walk fst].
  rewrite run_bind, (get_node_run _ _ _ _ _ Ef). cbn [nd_n].
  destruct (ns !! S (2 * i)) as [[n1 d1]|] eqn:En; cbn [fst].
  2: { apply lookup_ge_None in En. exists slow'. split; [done|].
       replace ((length ns - 1) / 2)%nat with i; [by rewrite E2|]. apply Nat.div_unique with 0%nat; lia. }
  destruct (dll_lookup _ _ _ _ _ _ Hd En) as [p1 E1n]. rewrite run_bind, (get_node_run _ _ _ _ _ E1n). cbn [nd_n].
  pose proof (lookup_lt_Some _ _ _ En) as Hlen1.
  destruct (ns !! S (S (2 * i))) as [[n2 d2]|] eqn:En2; cbn [fst].
  2: { apply lookup_ge_None in En2. exists slow'. split; [done|].
       replace ((length ns - 1) / 2)%nat with i; [by rewrite E2|]. apply Nat.div_unique with 1%nat; lia. }
  pose proof (lookup_lt_Some _ _ _ En2) as Hlen2.
  destruct (dll_lookup _ _ _ _ _ _ Hd E2) as [ps Es]. rewrite run_bind, (get_node_run _ _ _ _ _ Es). cbn [nd_n].
  destruct (lookup_lt_is_Some_2 ns (S i)) as [[s2 e2] Es2]; [lia|]. rewrite Es2. cbn [fst].
  apply (IH (S i)); [|by rewrite Es2|lia]. by replace (2 * S i)%nat with (S (S (2 * i))) by lia; rewrite En2.
Qed.

Lemma half_split_run N L F p l d ns :
  dll N p ((l, d) :: ns) None -> NoDup ((l, d) :: ns).*1 -> ns <> [] ->
  exists N' us vs q, _r_list_half_split l (mkHeap N L F) = Ok (first vs None) (mkHeap N' L F)
    /\ (l, d) :: ns = us ++ vs /\ us <> [] /\ vs <> [] /\ first us None = Some l
    /\ dll N' p us None /\ dll N' q vs None /\ frame N N' ((l, d) :: ns).*1
    /\ length us = S ((length ((l, d) :: ns) - 1) / 2).
Proof.
  intros Hd Hnd Hne. pose proof Hd as [El _]. set (ms := (l, d) :: ns) in *.
  assert (1 < length ms)%nat as Hlen by (destruct ns; [done|simpl; lia]).
  destruct (half_walk_run (S (size N)) N L F p ms 0 l l) as (s & Ew & Es); [done|done|done| |].
  { rewrite <- (length_fmap fst), Nat.add_0_r. apply nodes_size; [done|]. intros k. by apply dll_in with p None. }
  set (j := ((length ms - 1) / 2)%nat) in *.
  assert (S j < length ms)%nat as Hj.
  { pose proof (Nat.div_lt (length ms - 1) 2 ltac:(lia) ltac:(lia)) as Hj. fold j in Hj. lia. }
  apply fmap_Some in Es as ([s' e] & Es & ->). pose proof (take_drop_middle _ _ _ Es) as Em.
  assert (drop (S j) ms <> []) as Hv.
  { intros E%(f_equal length). rewrite length_drop, length_nil in E. lia. }
  assert (length (take j ms) = j) as Hlj by (rewrite length_take; lia).
  revert Em Hv Hlj. fold j. clearbody j. generalize (take j ms) (drop (S j) ms). intros us vs Em Hv Hlj.
  exists (alter (set_nd_n None) s' N), (us ++ [(s', e)]), vs, (Some s').
  pose proof Hd as Hd'. pose proof Hnd as Hnd'. rewrite <- Em in Hd', Hnd'.
  replace (us ++ (s', e) :: vs) with ((us ++ [(s', e)]) ++ vs) in Hd', Hnd' by (by rewrite <- app_assoc).
  apply NoDup_nodes_app in Hnd' as (Hnu & Hdis & Hnv). apply dll_app in Hd' as [Hdu Hdv].
  pose proof (dll_relink_next _ _ _ _ None Hnu Hdu) as Hr. rewrite final_app in Hr, Hdv. cbn [final] in Hr, Hdv.
  assert (s' ∈ (us ++ [(s', e)]).*1) as Hs by (rewrite fmap_app, elem_of_app; right; left).
  split_and!; [|by rewrite <- app_assoc|by destruct us|done| |done| | |].
  - pose proof (dll_node N p us s' e vs None) as Ex. rewrite Em in Ex. specialize (Ex Hd).
    unfold _r_list_half_split, walk_fuel. rewrite run_bind, (get_node_run _ _ _ _ _ El). cbn [nd_n].
    destruct ns as [|[n1 d1] ns]; [done|]. cbn [first]. hrun. unfold id. cbn [hp_nodes].
    rewrite Ew. cbv iota beta. rewrite run_bind, (get_node_run _ _ _ _ _ Ex).
    rewrite run_bind, (on_node_run _ _ _ _ _ _ Ex). done.
  - subst ms. destruct us as [|[k x] us]; by injection Em as -> _.
  - apply (dll_alter _ _ _ _ _ (Some s')); [|done]. intros ? [= <-]. by apply Hdis.
  - intros k Hk _. apply lookup_alter_ne. intros ->. apply Hk. rewrite <- Em, fmap_app, fmap_cons, elem_of_app, elem_of_cons.
    tauto.
  - rewrite length_app, Hlj. simpl. lia.
Qed.

(** ** The merge sort *)

(** The order it leaves the data in. *)
#[local] Instance le_dec x y : Decision (le x y).
Proof. unfold le. apply _. Defined.
Fixpoint merged (fuel : nat) xs : list A :=
  match fuel, xs with
  | S fuel, _ :: _ :: _ =>
      let n := S ((length xs - 1) / 2) in list_merge le (merged fuel (take n xs)) (merged fuel (drop n xs))
  | _, _ => xs
  end.

Lemma list_merge_data us vs : (list_merge le_node us vs).*2 = list_merge le us.*2 vs.*2.
Proof.
  revert vs. induction us as [|[k x] us IH]; intros vs; [by destruct vs|].
  induction vs as [|[l y] vs IHv]; [done|].
  rewrite !fmap_cons, !list_merge_cons. cbn [snd].
  destruct (decide (le_node (k, x) (l, y))) as [H|H], (decide (le x y)) as [H'|H']; try done; rewrite fmap_cons; cbn [snd].
  - by rewrite IH, fmap_cons.
  - by rewrite IHv.
Qed.

Lemma merged_fuel f g xs : (length xs <= f)%nat -> (length xs <= g)%nat -> merged f xs = merged g xs.
Proof.
  revert g xs. induction f as [|f IH]; intros g xs Hf Hg.
  { destruct xs; [|simpl in Hf; lia]. by destruct g. }
  destruct xs as [|x [|y xs]]; [by destruct g|by destruct g|]. destruct g as [|g]; [simpl in Hg; lia|].
  cbn [merged]. pose proof (Nat.div_lt (length (x :: y :: xs) - 1) 2 ltac:(simpl; lia) ltac:(lia)) as Hd. cbv zeta.
  rewrite (IH g (take _ _)), (IH g (drop _ _)); [done|rewrite length_drop|rewrite length_drop|rewrite length_take|rewrite length_take];
    simpl in *; lia.
Qed.

Lemma merge_sort_run fuel N L F p ns :
  (length ns < fuel)%nat -> dll N p ns None -> NoDup ns.*1 -> Total le ->
  exists N' q ms, _merge_sort cmp fuel (first ns None) (mkHeap N L F) = Ok (first ms None) (mkHeap N' L F)
    /\ dll N' q ms None /\ (q = None \/ q = p) /\ ms ≡ₚ ns /\ Sorted le_node ms /\ frame N N' ns.*1
    /\ ms.*2 = merged fuel ns.*2.
Proof.
  intros Hfu Hd Hnd Htot. assert (Total le_node) as Htn by (intros x y; apply Htot).
  revert N p ns Hfu Hd Hnd. induction fuel as [|fuel IH]; intros N p ns Hfu Hd Hnd; [lia|].
  destruct ns as [|[l d] ns]; [exists N, None, []; split_and!; auto; repeat constructor|].
  cbn [_merge_sort first]. pose proof Hd as [El _]. rewrite run_bind, (get_node_run _ _ _ _ _ El). cbn [nd_n].
  destruct (decide (ns = [])) as [->|Hne].
  { exists N, p, [(l, d)]. split_and!; auto; repeat constructor. }
  destruct (half_split_run N L F p l d ns Hd Hnd Hne) as (N1 & us & vs & q & Eh & Em & Hu & Hv & Efu & Hdu & Hdv & Hf1 & Hlus).
  assert (length us + length vs = S (length ns))%nat as Hlen.
  { rewrite <- length_app, <- Em. done. }
  assert (length us <> 0 /\ length vs <> 0)%nat as [Hlu Hlv] by (by destruct us, vs).
  rewrite Em in Hnd, Hf1 |- *. pose proof Hnd as (Hnu & Hdis & Hnv)%NoDup_nodes_app. simpl in Hfu.
  destruct (IH N1 p us) as (N2 & q2 & us' & E2 & Hd2 & _ & Hp2 & Hs2 & Hf2 & Eu); [lia|done..|].
  destruct (IH N2 q vs) as (N3 & q3 & vs' & E3 & Hd3 & _ & Hp3 & Hs3 & Hf3 & Ev);
    [lia|by apply (frame_list _ _ _ _ _ _ Hf2)|done|].
  assert (us' ++ vs' ≡ₚ us ++ vs) as Hp by (by rewrite Hp2, Hp3).
  assert (dll N3 q2 us' None) as Hd2'.
  { apply (frame_list _ _ _ _ _ _ Hf3); [|done]. intros k Hk Hk'. rewrite Hp2 in Hk'. by apply (Hdis k). }
  destruct (merge_run (S (size N3)) N3 L F q2 q3 us' vs') as (N4 & r & E4 & Hd4 & Hr & Hf4); [|by rewrite Hp|done|done|].
  { rewrite <- length_app, <- (length_fmap fst). apply nodes_size; [by rewrite Hp|].
    intros k. rewrite fmap_app, elem_of_app. intros [Hk|Hk]; [by apply (dll_in N3 q2 us' None)|by apply (dll_in N3 q3 vs' None)]. }
  assert (r = None) as ->.
  { apply Hr; intros ->; [apply Permutation_nil in Hp2|apply Permutation_nil in Hp3]; by subst. }
  exists N4, None, (list_merge le_node us' vs'). split_and!; [|done|by left| | | |].
  - assert (is_some (first ns None) = true) as Hfs by (by destruct ns as [|[]]).
    destruct (first ns None); [|done]. rewrite run_bind, Eh. rewrite <- Efu, run_bind, E2, run_bind, E3.
    unfold walk_fuel. hrun. exact E4.
  - by rewrite (merge_Permutation le_node us' vs').
  - by apply Sorted_list_merge.
  - assert (forall k, k ∈ us.*1 -> k ∈ (us ++ vs).*1) as Hku by (intros k; rewrite fmap_app, elem_of_app; tauto).
    assert (forall k, k ∈ vs.*1 -> k ∈ (us ++ vs).*1) as Hkv by (intros k; rewrite fmap_app, elem_of_app; tauto).
    apply (frame_trans _ N3 _ _ (us' ++ vs').*1); [|done|intros k; rewrite Hp; auto].
    apply (frame_trans _ N2 _ _ vs.*1); [|done|auto].
    by apply (frame_trans _ N1 _ _ us.*1); [|done|auto].
  - rewrite list_merge_data, Eu, Ev. cbn [merged]. rewrite Em in Hlus. destruct ns as [|m ns]; [done|].
    assert (length (us ++ vs) = S (S (length ns))) as Hl2 by (rewrite <- Em; done).
    destruct ((us ++ vs).*2) as [|a [|b xs]] eqn:Ed; [by apply (f_equal length) in Ed; rewrite length_fmap, Hl2 in Ed..|].
    rewrite <- Ed. cbv zeta. rewrite length_fmap, <- Hlus, fmap_app.
    rewrite take_app_length', drop_app_length' by (by rewrite length_fmap). done.
Qed.

Lemma last_node_run fuel N L F p ns :
  (length ns < fuel)%nat -> dll N p ns None ->
  last_node fuel (first ns None) (mkHeap N L F) = Ok (final None ns) (mkHeap N L F).
Proof.
  revert fuel p. induction ns as [|[l d] ns IH]; intros fuel p Hfu Hd; [by destruct fuel|].
  destruct fuel as [|fuel]; simpl in Hfu; [lia|]. destruct Hd as [El Hd]. cbn [last_node first].
  rewrite run_bind, (get_node_run _ _ _ _ _ El). cbn [nd_n].
  destruct ns as [|[k e] ns]; [done|]. apply (IH fuel (Some l)); [lia|done].
Qed.

Lemma list_merge_sort_run N L F list r ns :
  L !! list = Some r -> is_list N r ns -> l_sorted r = false -> Total le ->
  exists ms N' r', r_list_merge_sort cmp list (mkHeap N L F) = Ok tt (mkHeap N' (<[list := r']> L) F)
    /\ is_list N' r' ms /\ ms ≡ₚ ns /\ Sorted le_node ms /\ l_sorted r' = true /\ frame N N' ns.*1
    /\ ms.*2 = merged (length ns) ns.*2.
Proof.
  intros El Hl Hs Htot. pose proof Hl as [Hh Ht Hlen Hnd Hd].
  destruct (merge_sort_run (S (size N)) N L F None ns) as (N1 & q & ms & E & Hd1 & Hq & Hp & Hsd & Hf & Em);
    [by apply (is_list_size _ r)|done..|].
  assert (length ns < S (size N))%nat as Hsz by (by apply (is_list_size _ r)).
  rewrite (merged_fuel (S (size N)) (length ns)) in Em by (rewrite length_fmap; lia).
  assert (q = None) as -> by naive_solver. unfold r_list_merge_sort.
  destruct (decide (ns = [])) as [->|Hne].
  - apply symmetry, Permutation_nil in Hp as ->.
    exists [], N, (set_l_sorted true r). split_and!; [|by destruct Hl; split|done|done|done|done|done].
    rewrite run_bind, (get_list_run _ _ _ _ _ El), Hs, Hh. cbn [first is_some negb andb]. by hrun.
  - exists ms, N1, (mkList (first ms None) (final None ms) (l_free r) (l_length r) true).
    split_and!; try done; [|split; try done; simpl; [by rewrite Hlen, Hp|by rewrite Hp]].
    rewrite run_bind, (get_list_run _ _ _ _ _ El), Hs, Hh.
    assert (is_some (first ns None) = true) as -> by (by destruct ns as [|[]]). cbn [negb andb].
    unfold walk_fuel. hrun. unfold id. cbn [hp_nodes]. rewrite E. cbv iota beta. hrun.
    rewrite (last_node_run _ _ _ _ None).
    + hrun. done.
    + rewrite Hp. by apply (is_list_size _ r).
    + done.
Qed.


(** ** The exchange sort *)

(** A pass of the inner loop: the data left at the outer position, and after
    it. *)
Fixpoint pass (x : A) xs : A * list A :=
  match xs with
  | [] => (x, [])
  | y :: xs =>
      if 0 <? cmp x y then let '(m, zs) := pass y xs in (m, x :: zs)
      else let '(m, zs) := pass x xs in (m, y :: zs)
  end.
Fixpoint exchanged (k : nat) xs : list A :=
  match k, xs with
  | S k, x :: xs => let '(m, zs) := pass x xs in m :: exchanged k zs
  | _, _ => xs
  end.

Lemma pass_length x xs : length (pass x xs).2 = length xs.
Proof.
  revert x. induction xs as [|y xs IH]; intros x; simpl; [done|].
  destruct (0 <? cmp x y); [specialize (IH y); destruct (pass y xs)|specialize (IH x); destruct (pass x xs)];
    simpl in *; by rewrite IH.
Qed.

Lemma pass_permutation x xs : (pass x xs).1 :: (pass x xs).2 ≡ₚ x :: xs.
Proof.
  revert x. induction xs as [|y xs IH]; intros x; simpl; [done|].
  destruct (0 <? cmp x y).
  - specialize (IH y). destruct (pass y xs) as [m zs]. simpl in *. by rewrite Permutation_swap, IH, Permutation_swap.
  - specialize (IH x). destruct (pass x xs) as [m zs]. simpl in *. by rewrite Permutation_swap, IH, Permutation_swap.
Qed.

Lemma pass_least x xs `{!Total le, !Transitive le} :
  le (pass x xs).1 x /\ Forall (le (pass x xs).1) (pass x xs).2.
Proof.
  revert x. induction xs as [|y xs IH]; intros x; simpl.
  - split; [|constructor]. by destruct (total le x x).
  - destruct (Z.ltb_spec 0 (cmp x y)) as [Hlt|Hle].
    + destruct (IH y) as [H1 H2]. destruct (pass y xs) as [m zs]. simpl in *.
      assert (le y x) as Hyx by (destruct (total le x y) as [Hxy|]; [unfold le in Hxy; lia|done]).
      split; [by transitivity y|]. constructor; [by transitivity y|done].
    + destruct (IH x) as [H1 H2]. destruct (pass x xs) as [m zs]. simpl in *.
      split; [done|]. constructor; [by transitivity x|done].
Qed.

Lemma exchanged_permutation k xs : exchanged k xs ≡ₚ xs.
Proof.
  revert xs. induction k as [|k IH]; intros [|x xs]; simpl; try done.
  pose proof (pass_permutation x xs) as Hp. destruct (pass x xs) as [m zs]. simpl in *. by rewrite IH.
Qed.

Lemma exchanged_sorted k xs `{!Total le, !Transitive le} :
  (length xs <= k)%nat -> StronglySorted le (exchanged k xs).
Proof.
  revert xs. induction k as [|k IH]; intros [|x xs] Hk; simpl in *; try lia; try constructor.
  pose proof (pass_least x xs) as [_ Hm]. pose proof (pass_length x xs) as Hl.
  destruct (pass x xs) as [m zs]. simpl in *. constructor; [apply IH; lia|].
  by rewrite (exchanged_permutation k zs).
Qed.

(** The nodes of a segment with other data. *)
Definition with_data ns xs : list (addr * A) := zip ns.*1 xs.

Lemma with_data_fst ns xs : length xs = length ns -> (with_data ns xs).*1 = ns.*1.
Proof. intros E. apply fst_zip. rewrite length_fmap. lia. Qed.
Lemma with_data_snd ns xs : length xs = length ns -> (with_data ns xs).*2 = xs.
Proof. intros E. apply snd_zip. rewrite length_fmap. lia. Qed.

Lemma insertion_inner_run fuel N L F p us l x ms ns :
  (length ns < fuel)%nat -> NoDup (us ++ (l, x) :: ms ++ ns).*1 -> dll N p (us ++ (l, x) :: ms ++ ns) None ->
  exists N', insertion_inner cmp fuel l (first ns None) (mkHeap N L F) = Ok tt (mkHeap N' L F)
    /\ dll N' p (us ++ (l, (pass x ns.*2).1) :: ms ++ with_data ns (pass x ns.*2).2) None
    /\ frame N N' (us ++ (l, x) :: ms ++ ns).*1.
Proof.
  revert fuel N x ms. induction ns as [|[k y] ns IH]; intros fuel N x ms Hfu Hnd Hd.
  { exists N. split_and!; [by destruct fuel|done|done]. }
  destruct fuel as [|fuel]; simpl in Hfu; [lia|]. cbn [insertion_inner first].
  pose proof (dll_node _ _ _ _ _ _ _ Hd) as Ex.
  assert (N !! k = Some (mkNode (Some y) (first ns None) (final p (us ++ (l, x) :: ms)))) as Ek.
  { apply (dll_node N p (us ++ (l, x) :: ms) k y ns None). by rewrite <- app_assoc. }
  rewrite run_bind, (get_node_run _ _ _ _ _ Ek). cbn [nd_data nd_n].
  rewrite run_bind, (get_node_run _ _ _ _ _ Ex). cbn [nd_data]. rewrite run_bind, cmp_data_run, run_bind.
  rewrite fmap_cons. cbn [pass snd].
  destruct (0 <? cmp x y).
  - rewrite run_bind, (on_node_run _ _ _ _ _ _ Ex).
    assert (k <> l) as Hkl.
    { intros ->. rewrite fmap_app, fmap_cons, fmap_app, fmap_cons in Hnd.
      apply NoDup_app in Hnd as (_ & _ & Hnd%NoDup_cons). rewrite elem_of_app, elem_of_cons in Hnd. tauto. }
    rewrite (on_node_run _ _ _ _ _ (mkNode (Some y) (first ns None) (final p (us ++ (l, x) :: ms))))
      by (by rewrite lookup_alter_ne).
    cbv iota beta. set (N1 := alter _ k _).
    assert (dll N1 p (us ++ (l, y) :: (ms ++ [(k, x)]) ++ ns) None) as Hd1.
    { pose proof (dll_data _ _ _ _ _ y _ _ Hnd Hd) as H1.
      replace (us ++ (l, y) :: ms ++ (k, y) :: ns) with ((us ++ (l, y) :: ms) ++ (k, y) :: ns) in H1
        by (by rewrite <- app_assoc).
      apply (dll_data _ _ _ _ _ x) in H1; [by rewrite <- app_assoc in H1 |- *|].
      rewrite <- app_assoc, <- app_comm_cons. by rewrite !fmap_app, !fmap_cons, !fmap_app, !fmap_cons in *. }
    destruct (IH fuel N1 y (ms ++ [(k, x)])) as (N' & E' & Hd' & Hf'); [lia| |done|].
    { by rewrite !fmap_app, !fmap_cons, !fmap_app, <- app_assoc in *. }
    exists N'. destruct (pass y ns.*2) as [m zs]. rewrite <- app_assoc in Hd'. split_and!; [done|done|].
    apply (frame_trans _ N1 _ _ _) with (2 := Hf').
    + intros j Hj _. rewrite fmap_app, fmap_cons, fmap_app, fmap_cons, !elem_of_app, !elem_of_cons, !elem_of_app, !elem_of_cons in Hj.
      unfold N1. rewrite !lookup_alter_ne; [done|..]; intros <-; simpl in Hj; tauto.
    + intros j Hj. left. by rewrite !fmap_app, !fmap_cons, !fmap_app, <- app_assoc in *.
  - rewrite run_ret. cbv iota beta.
    destruct (IH fuel N x (ms ++ [(k, y)])) as (N' & E' & Hd' & Hf'); [lia|by rewrite <- app_assoc..|].
    rewrite <- !app_assoc in *. exists N'. by destruct (pass x ns.*2) as [m zs].
Qed.

Lemma insertion_outer_run fuel N L F p us ns :
  (length ns < fuel)%nat -> NoDup (us ++ ns).*1 -> dll N p (us ++ ns) None ->
  exists N', insertion_outer cmp fuel (first ns None) (mkHeap N L F) = Ok tt (mkHeap N' L F)
    /\ dll N' p (us ++ with_data ns (exchanged (length ns) ns.*2)) None /\ frame N N' (us ++ ns).*1.
Proof.
  revert N us ns. induction fuel as [|fuel IH]; intros N us ns Hfu Hnd Hd; [lia|].
  destruct ns as [|[l x] ns]; [by exists N|]. simpl in Hfu. cbn [insertion_outer first].
  pose proof (dll_node _ _ _ _ _ _ _ Hd) as Ex.
  rewrite run_bind, (get_node_run _ _ _ _ _ Ex). cbn [nd_data nd_n].
  destruct (insertion_inner_run fuel N L F p us l x [] ns) as (N1 & E1 & Hd1 & Hf1); [lia|done|done|].
  rewrite run_bind, E1. cbv iota beta. rewrite fmap_cons. cbn [length exchanged snd].
  pose proof (pass_length x ns.*2) as Hl. rewrite length_fmap in Hl.
  destruct (pass x ns.*2) as [m zs]. simpl in Hl, Hd1.
  pose proof (with_data_fst ns zs Hl) as Ef. pose proof (with_data_snd ns zs Hl) as Es.
  assert (length (with_data ns zs) = length ns) as Hlw by (by rewrite <- (length_fmap fst), Ef, length_fmap).
  destruct (IH N1 (us ++ [(l, m)]) (with_data ns zs)) as (N' & E' & Hd' & Hf'); [lia| |by rewrite <- app_assoc|].
  { rewrite !fmap_app, Ef in *. by rewrite <- app_assoc. }
  exists N'. split_and!.
  - rewrite <- E'. f_equal. unfold with_data. destruct ns as [|[]]; [done|]. by destruct zs.
  - rewrite Es, Hlw, <- app_assoc in Hd'. unfold with_data in Hd' at 1. by rewrite Ef in Hd'.
  - apply (frame_trans _ N1 _ _ _ Hf1 Hf'). intros k Hk. left.
    rewrite !fmap_app, Ef, <- app_assoc in Hk. by rewrite fmap_app.
Qed.

Lemma first_fst ns ns' n : ns.*1 = ns'.*1 -> first ns n = first ns' n.
Proof. destruct ns as [|[]], ns' as [|[]]; simpl; congruence. Qed.
Lemma final_fst p ns ns' : ns.*1 = ns'.*1 -> final p ns = final p ns'.
Proof.
  revert p ns'. induction ns as [|[l d] ns IH]; intros p [|[l' d'] ns'] E; try done.
  simpl in E. injection E as -> E. exact (IH (Some l') ns' E).
Qed.

Lemma insertion_sort_run N L F list r ns :
  L !! list = Some r -> is_list N r ns -> l_sorted r = false -> Total le -> Transitive le ->
  exists ms N' r', r_list_insertion_sort cmp list (mkHeap N L F) = Ok tt (mkHeap N' (<[list := r']> L) F)
    /\ is_list N' r' ms /\ ms.*2 ≡ₚ ns.*2 /\ StronglySorted le ms.*2 /\ l_sorted r' = true /\ frame N N' ns.*1
    /\ ms.*2 = exchanged (length ns) ns.*2.
Proof.
  intros El Hl Hs Htot Htr. pose proof Hl as [Hh Ht Hlen Hnd Hd]. set (xs := exchanged (length ns) ns.*2).
  destruct (insertion_outer_run (S (size N)) N L F None [] ns) as (N' & E & Hd' & Hf);
    [by apply (is_list_size _ r)|done..|].
  assert (length xs = length ns) as Hlx by (unfold xs; by rewrite exchanged_permutation, length_fmap).
  pose proof (with_data_fst ns xs Hlx) as Ef. pose proof (with_data_snd ns xs Hlx) as Es.
  exists (with_data ns xs), N', (set_l_sorted true r). rewrite Es. split_and!; [|split|..].
  - unfold r_list_insertion_sort, walk_fuel. rewrite run_bind, (get_list_run _ _ _ _ _ El), Hs. hrun.
    unfold id. cbn [hp_nodes]. rewrite Hh, E. by hrun.
  - simpl. rewrite Hh. by apply first_fst.
  - simpl. rewrite Ht. by apply final_fst.
  - simpl. rewrite Hlen, <- (length_fmap fst (with_data ns xs)). by rewrite Ef, length_fmap.
  - by rewrite Ef.
  - done.
  - unfold xs. apply exchanged_permutation.
  - apply (exchanged_sorted (length ns) ns.*2). rewrite length_fmap. done.
  - done.
  - done.
  - done.
Qed.

Lemma sorted_nodes ns : Sorted le_node ns -> Transitive le -> StronglySorted le ns.*2.
Proof.
  intros Hs Ht. assert (Transitive le_node) as Htn by (intros x y z; apply Ht).
  apply Sorted_StronglySorted in Hs; [|done]. induction Hs as [|x ns Hs IH Hf]; simpl; constructor; [done|].
  apply Forall_fmap. exact Hf.
Qed.

(** The order [r_list_sort] leaves the data of a list in. *)
Definition sorted_data xs : list A := if 43 <? Z.of_nat (length xs) then merged (length xs) xs else exchanged (length xs) xs.

Lemma list_sort_run N L F list r ns :
  L !! list = Some r -> is_list N r ns -> l_sorted r = false -> Total le -> Transitive le ->
  exists ms N' r', r_list_sort cmp list (mkHeap N L F) = Ok tt (mkHeap N' (<[list := r']> L) F)
    /\ is_list N' r' ms /\ ms.*2 ≡ₚ ns.*2 /\ StronglySorted le ms.*2 /\ l_sorted r' = true
    /\ frame N N' ns.*1 /\ ms.*2 = sorted_data ns.*2.
Proof.
  intros El Hl Hs Htot Htr. unfold r_list_sort, sorted_data. rewrite length_fmap.
  assert (l_length r = Z.of_nat (length ns)) as Elen by apply Hl. rewrite <- Elen.
  destruct (43 <? l_length r) eqn:E.
  - destruct (list_merge_sort_run N L F list r ns El Hl Hs Htot) as (ms & N' & r' & Er & Hl' & Hp & Hsd & Hs' & Hf & Em).
    exists ms, N', r'. rewrite run_bind, (get_list_run _ _ _ _ _ El), E.
    split_and!; [done|done|by rewrite Hp|by apply sorted_nodes|done|done|done].
  - rewrite run_bind, (get_list_run _ _ _ _ _ El), E. by apply insertion_sort_run with r.
Qed.

Lemma sort_flagged_run N L F list r :
  L !! list = Some r -> l_sorted r = true -> r_list_sort cmp list (mkHeap N L F) = Ok tt (mkHeap N L F).
Proof.
  intros El Hs. unfold r_list_sort, r_list_merge_sort, r_list_insertion_sort.
  rewrite run_bind, (get_list_run _ _ _ _ _ El).
  destruct (43 <? l_length r); rewrite run_bind, (get_list_run _ _ _ _ _ El), Hs; [|done].
  rewrite run_bind. cbn [negb andb]. rewrite run_ret, (on_list_run _ _ _ _ _ _ El), insert_id; [done|].
  rewrite El. destruct r. simpl in Hs. by subst.
Qed.

(** C9: for a comparison that is total and transitive, [r_list_sort] ends on every
    well-linked list, whatever its length, and leaves a well-linked list of the same
    data; the nodes of every other list are as they were.  If the list was not flagged
    as sorted, the data are then in the order of the comparison; if it was, the heap is
    left as it was, even when the flag is stale, as after [r_list_prepend] (see
    [r_list_prepend_prevents_sort]).  The flag is set in either case. *)
Theorem r_list_sort_sorts N L F list r ns :
  L !! list = Some r -> is_list N r ns -> Total le -> Transitive le ->
  exists ms N' r', r_list_sort cmp list (mkHeap N L F) = Ok tt (mkHeap N' (<[list := r']> L) F)
    /\ is_list N' r' ms /\ ms.*2 ≡ₚ ns.*2 /\ l_sorted r' = true /\ frame N N' ns.*1
    /\ (l_sorted r = false -> StronglySorted le ms.*2)
    /\ (l_sorted r = true -> N' = N /\ r' = r /\ ms = ns).
Proof.
  intros El Hl Htot Htr. destruct (l_sorted r) eqn:Hs.
  - exists ns, N, r. rewrite sort_flagged_run with (r := r), insert_id by done. by split_and!.
  - destruct (list_sort_run N L F list r ns) as (ms & N' & r' & H); [done..|].
    exists ms, N', r'. destruct H as (? & ? & ? & ? & ? & ? & _). by split_and!.
Qed.

(** ** The flag *)

(** [r_list_prepend] flags its list as sorted whatever it holds, and a sort
    after it leaves the new element first and the rest as it was. *)
Theorem r_list_prepend_prevents_sort N L F list r ns d :
  L !! list = Some r -> is_list N r ns ->
  exists N' r', (r_list_prepend list (Some d) ;; r_list_sort cmp list) (mkHeap N L F)
    = Ok tt (mkHeap N' (<[list := r']> L) F) /\ is_list N' r' ((fresh (dom N), d) :: ns).
Proof.
  intros El Hl. destruct (prepend_flagged_run N L F list r ns d El Hl) as (N' & r' & E & Hl' & _ & _ & Hs).
  exists N', r'. split; [|done]. rewrite run_bind, E. apply (sort_flagged_run _ _ _ _ r'); [apply lookup_insert_eq|done].
Qed.
End Sort.

(** ** Instances *)

Definition int_cmp (a b : Z) : Z := a - b.
Lemma int_cmp_total : Total (le int_cmp).
Proof. intros a b. unfold le, int_cmp. lia. Qed.
Lemma int_cmp_trans : Transitive (le int_cmp).
Proof. intros a b c. unfold le, int_cmp. lia. Qed.

(** The list 5, 3. *)
Definition unsorted_nodes : gmap addr (RListIter Z) :=
  <[0%nat := mkNode (Some 5) (Some 1%nat) None]> (<[1%nat := mkNode (Some 3) None (Some 0%nat)]> ∅).
Definition unsorted_header : RList := mkList (Some 0%nat) (Some 1%nat) false 2 false.

Lemma unsorted_is_list : is_list unsorted_nodes unsorted_header [(0%nat, 5); (1%nat, 3)].
Proof. split; try done. by apply (bool_decide_unpack _). Qed.

Lemma r_list_sort_sorts_witness :
  exists ms N' r', r_list_sort int_cmp 0 (mkHeap unsorted_nodes {[0%nat := unsorted_header]} [])
    = Ok tt (mkHeap N' (<[0%nat := r']> {[0%nat := unsorted_header]}) [])
  /\ is_list N' r' ms /\ ms.*2 ≡ₚ [5; 3] /\ l_sorted r' = true
  /\ frame unsorted_nodes N' [0%nat; 1%nat]
  /\ (false = false -> StronglySorted (le int_cmp) ms.*2)
  /\ (false = true -> N' = unsorted_nodes /\ r' = unsorted_header /\ ms = [(0%nat, 5); (1%nat, 3)]).
Proof.
  apply (r_list_sort_sorts int_cmp unsorted_nodes {[0%nat := unsorted_header]} [] 0 unsorted_header
           [(0%nat, 5); (1%nat, 3)]);
    [reflexivity|apply unsorted_is_list|apply int_cmp_total|apply int_cmp_trans].
Defined.

Lemma r_list_prepend_prevents_sort_witness :
  exists N' r', (r_list_prepend 0 (Some 9) ;; r_list_sort int_cmp 0)
      (mkHeap unsorted_nodes {[0%nat := unsorted_header]} [])
    = Ok tt (mkHeap N' (<[0%nat := r']> {[0%nat := unsorted_header]}) [])
  /\ is_list N' r' [(2%nat, 9); (0%nat, 5); (1%nat, 3)].
Proof.
  apply (r_list_prepend_prevents_sort int_cmp unsorted_nodes {[0%nat := unsorted_header]} [] 0 unsorted_header
           [(0%nat, 5); (1%nat, 3)] 9); [reflexivity|apply unsorted_is_list].
Defined.
