(* ===== verification/Buf.v ===== *)
(** * Checked accesses to a buffer

    The state of a function that writes to a buffer of its caller is the buffer;
    an access outside it is undefined. *)

From S2P Require Import Prelude.

(** [b[i]] for a buffer that is only read. *)
Definition load {S} (b : list Z) (i : nat) : M S Z := lift UB_oob (b !! i).

(** [b[i] = v], and several of them in a row. *)
Definition store (i : nat) (v : Z) : M (list Z) unit :=
  b ← gets id;
  if (i <? length b)%nat then modify (fun b => <[i := v]> b) else undef UB_oob.
Fixpoint stores (i : nat) (vs : list Z) : M (list Z) unit :=
  match vs with [] => mret tt | v :: vs => store i v ;; stores (S i) vs end.

(** A [char] array as bytes. *)
Fixpoint chars (s : string) : list Z :=
  match s with EmptyString => [] | String c s => code c :: chars s end.

Lemma load_run {S} b i x (s : S) : b !! i = Some x -> load b i s = Ok x s.
Proof. intros E. unfold load. by rewrite E. Qed.

Lemma store_run i v b : (i < length b)%nat -> store i v b = Ok tt (<[i := v]> b).
Proof. intros Hi. unfold store. mrun. by rewrite (proj2 (Nat.ltb_lt _ _) Hi). Qed.

(** Consecutive stores write a block. *)
Lemma stores_run i vs b :
  (i + length vs <= length b)%nat ->
  stores i vs b = Ok tt (take i b ++ vs ++ drop (i + length vs) b).
Proof.
  revert i b. induction vs as [|v vs IH]; intros i b Hi; simpl in *.
  { rewrite Nat.add_0_r, take_drop. done. }
  rewrite run_bind, store_run by lia. rewrite IH by (rewrite length_insert; lia).
  f_equal. rewrite (take_S_r _ i v) by (apply list_lookup_insert_eq; lia).
  rewrite take_insert_ge, drop_insert_lt, <- app_assoc by lia. simpl. by rewrite Nat.add_succ_r.
Qed.

Lemma store_oob i v b : (length b <= i)%nat -> store i v b = Undef UB_oob.
Proof. intros Hi. unfold store. mrun. by rewrite (proj2 (Nat.ltb_ge _ _) Hi). Qed.

Lemma stores_oob i vs b : (i <= length b < i + length vs)%nat -> stores i vs b = Undef UB_oob.
Proof.
  revert i b. induction vs as [|v vs IH]; intros i b Hi; simpl in Hi; [lia|]. cbn [stores]. rewrite run_bind.
  destruct (decide (i < length b)%nat); [|by rewrite store_oob by lia].
  rewrite store_run by lia. apply IH. rewrite length_insert. lia.
Qed.

Lemma chars_length s : length (chars s) = String.length s.
Proof. induction s as [|c s IH]; simpl; [done|]. by rewrite IH. Qed.
