(* ===== verification/Leb128.v ===== *)
(** * LEB128 numbers

    [libr/util/uleb128.c]: the variable length integers of DWARF and DEX. *)

From S2P Require Import Prelude Buf.

(** The data is the bytes from the pointer on; the results are the number of
    bytes read (the returned pointer, [None] when null) and the value. *)

(** [for (s = 0; data < data_end; s += 7)], over the [n] bytes that are left;
    a [ut32] is shifted. *)
Fixpoint uleb_loop (n : nat) (data : list Z) (s sum : Z) (used : nat) : M unit (nat * Z) :=
  match n with
  | O => mret (used, sum)
  | S n =>
      match data with
      | [] => undef UB_oob
      | c :: data =>
          if 32 <=? s then undef UB_shift
          else
            let sum := Z.lor sum (u32 (Z.shiftl (Z.land c 0x7f) s)) in
            if Z.land c 0x80 =? 0 then mret (S used, sum) else uleb_loop n data (s + 7) sum (S used)
      end
  end.

Definition r_uleb128 (data : list Z) (datalen : Z) : M unit (option nat * Z) :=
  let datalen := if datalen =? 2 ^ 31 - 1 then 0xffff else datalen in
  if datalen <? 0 then mret (None, 0)
  else if 0 <? datalen then
    c ← load data 0;
    if c =? 0 then mret (Some 1%nat, 0)
    else '(used, sum) ← uleb_loop (Z.to_nat datalen) data 0 0 0; mret (Some used, sum)
  else mret (Some 0%nat, 0).

(** [do .. while (c & 0x80)]. *)
Fixpoint uleb_decode_loop (data : list Z) (s sum : Z) (l : nat) : M unit (nat * Z) :=
  match data with
  | [] => undef UB_oob
  | c :: data =>
      if 32 <=? s then undef UB_shift
      else
        let sum := Z.lor sum (u32 (Z.shiftl (Z.land c 0x7f) s)) in
        if Z.land c 0x80 =? 0 then mret (S l, sum) else uleb_decode_loop data (s + 7) sum (S l)
  end.

(** The length and the value. *)
Definition r_uleb128_decode (data : list Z) : M unit (nat * Z) :=
  c ← load data 0;
  if c =? 0 then mret (0%nat, 0) else uleb_decode_loop data 0 0 0.

(** A [ut64] has ten groups of seven bits. *)
Fixpoint uleb_encode_loop (n : nat) (source : Z) : list Z :=
  match n with
  | O => []
  | S n =>
      let c := Z.land source 0x7f in
      let source := Z.shiftr source 7 in
      if source =? 0 then [c] else Z.lor c 0x80 :: uleb_encode_loop n source
  end.
Definition r_uleb128_encode (s : Z) : list Z := uleb_encode_loop 10 s.

(** [for (s = 0; *data;)]: the shift of a [st64], the bytes used, the value and
    the last byte read. *)
Fixpoint leb_loop (data : list Z) (s sum c : Z) (used : nat) : M unit (nat * Z * Z * Z) :=
  match data with
  | [] => undef UB_oob
  | c' :: data =>
      if c' =? 0 then mret (used, s, sum, c)
      else if 64 <=? s then undef UB_shift
      else if 2 ^ 63 <=? Z.shiftl (Z.land c' 0x7f) s then undef UB_overflow
      else
        let sum := Z.lor sum (Z.shiftl (Z.land c' 0x7f) s) in
        if Z.land c' 0x80 =? 0 then mret (S used, s + 7, sum, c')
        else leb_loop data (s + 7) sum c' (S used)
  end.

Definition r_leb128 (data : list Z) : M unit (nat * Z) :=
  '(used, s, sum, c) ← leb_loop data 0 0 0 0;
  if (s <? 64) && z2b (Z.land c 0x40) then
    if s =? 63 then undef UB_overflow else mret (used, Z.lor sum (- Z.shiftl 1 s))
  else mret (used, sum).

(** ** Unsigned numbers *)

Lemma land_low c n : 0 <= n -> Z.land c (Z.ones n) = c mod 2 ^ n.
Proof. apply Z.land_ones. Qed.

Lemma continues_byte c : 0 <= c < 128 -> Z.land (Z.lor c 0x80) 0x7f = c /\ Z.land (Z.lor c 0x80) 0x80 = 0x80 /\ Z.lor c 0x80 <> 0.
Proof.
  intros Hc. split_and!.
  - rewrite Z.land_lor_distr_l. change (Z.land 128 127) with 0. rewrite Z.lor_0_r.
    change 127 with (Z.ones 7). rewrite Z.land_ones by lia. apply Z.mod_small. lia.
  - rewrite Z.land_lor_distr_l. change (Z.land 128 128) with 128.
    replace (Z.land c 128) with 0; [done|]. apply Z.bits_inj'. intros i Hi. rewrite Z.bits_0, Z.land_spec.
    rewrite <- (Z.mod_small c (2 ^ 7)) by lia. change 128 with (2 ^ 7). rewrite Z.pow2_bits_eqb by lia.
    destruct (Z.eqb_spec 7 i) as [<-|]; [by rewrite Z.mod_pow2_bits_high|by rewrite andb_false_r].
  - intros E. apply Z.lor_eq_0_iff in E. lia.
Qed.

Lemma final_byte c : 0 <= c < 128 -> Z.land c 0x7f = c /\ Z.land c 0x80 = 0.
Proof.
  intros Hc. split.
  - change 127 with (Z.ones 7). rewrite Z.land_ones by lia. apply Z.mod_small. lia.
  - apply Z.bits_inj'. intros i Hi. rewrite Z.bits_0, Z.land_spec.
    rewrite <- (Z.mod_small c (2 ^ 7)) by lia. change 128 with (2 ^ 7). rewrite Z.pow2_bits_eqb by lia.
    destruct (Z.eqb_spec 7 i) as [<-|]; [by rewrite Z.mod_pow2_bits_high|by rewrite andb_false_r].
Qed.

Lemma lor_group sum c s :
  0 <= s -> 0 <= sum < 2 ^ s -> 0 <= c -> Z.lor sum (Z.shiftl c s) = sum + c * 2 ^ s.
Proof. intros. rewrite Z.lor_comm, lor_shiftl_add by lia. lia. Qed.

Lemma encode_step n v :
  0 <= v ->
  uleb_encode_loop (S n) v
  = if v / 128 =? 0 then [v mod 128] else Z.lor (v mod 128) 0x80 :: uleb_encode_loop n (v / 128).
Proof.
  intros Hv. cbn [uleb_encode_loop]. change 0x7f with (Z.ones 7). rewrite Z.land_ones, Z.shiftr_div_pow2 by lia. done.
Qed.

(** Accumulating a group. *)
Lemma group_step sum c s :
  0 <= s <= 28 -> 0 <= sum < 2 ^ s -> 0 <= c < 128 ->
  Z.lor sum (u32 (Z.shiftl c s)) = u32 (sum + c * 2 ^ s).
Proof.
  intros Hs Hsum Hc. unfold u32. rewrite <- (Z.mod_small sum (2 ^ 32)) at 1.
  - rewrite <- lor_group by lia. zbits. destruct (Z.ltb_spec i 32).
    + rewrite !Z.mod_pow2_bits_low by lia. autorewrite with zbits. done.
    + by rewrite !Z.mod_pow2_bits_high by lia.
  - pose proof (Z.pow_le_mono_r 2 s 32). lia.
Qed.

Lemma mod_128 v : 0 <= v mod 128 < 128.
Proof. apply Z.mod_pos_bound. lia. Qed.

(** The part of a value above a group. *)
Lemma split_group v s : 0 <= s -> v * 2 ^ s = v mod 128 * 2 ^ s + v / 128 * 2 ^ (s + 7).
Proof.
  intros Hs. rewrite Z.pow_add_r by lia. change (2 ^ 7) with 128. pose proof (Z.div_mod v 128). nia.
Qed.

Lemma encode_tail k v : 0 <= v < 2 ^ (7 * Z.of_nat (S k)) -> v / 128 <> 0 -> 0 < v / 128 < 2 ^ (7 * Z.of_nat k) /\ (0 < k)%nat.
Proof.
  intros Hv Hne. assert (0 <= v / 128) by (apply Z.div_pos; lia).
  assert (v / 128 < 2 ^ (7 * Z.of_nat k)) as Hlt.
  { apply Z.div_lt_upper_bound; [lia|]. change 128 with (2 ^ 7). rewrite <- Z.pow_add_r by lia.
    replace (7 + 7 * Z.of_nat k) with (7 * Z.of_nat (S k)) by lia. lia. }
  split; [lia|]. destruct k; [simpl in Hlt; lia|lia].
Qed.

(** The shift of a group that another one follows, below 2^35. *)
Lemma next_shift v j :
  0 < v / 128 -> 0 <= v -> v * 2 ^ (7 * Z.of_nat j) < 2 ^ 35 -> (S j <= 4)%nat.
Proof.
  intros Hd Hv Hlim. pose proof (split_group v (7 * Z.of_nat j) ltac:(lia)) as Hsp. pose proof (mod_128 v) as Hm.
  assert (2 ^ (7 * Z.of_nat j + 7) < 2 ^ 35) as Hlt by nia. apply Z.pow_lt_mono_r_iff in Hlt; lia.
Qed.

Lemma accumulated sum v j :
  0 <= sum < 2 ^ (7 * Z.of_nat j) -> (S j <= 4)%nat ->
  u32 (sum + v mod 128 * 2 ^ (7 * Z.of_nat j)) = sum + v mod 128 * 2 ^ (7 * Z.of_nat j)
  /\ 0 <= sum + v mod 128 * 2 ^ (7 * Z.of_nat j) < 2 ^ (7 * Z.of_nat (S j)).
Proof.
  intros Hs Hj. pose proof (mod_128 v) as Hm.
  replace (7 * Z.of_nat (S j)) with (7 * Z.of_nat j + 7) by lia. rewrite Z.pow_add_r by lia. change (2 ^ 7) with 128.
  assert (0 <= sum + v mod 128 * 2 ^ (7 * Z.of_nat j) < 2 ^ (7 * Z.of_nat j) * 128) as Hb by nia.
  split; [|done]. apply u32_id. assert (2 ^ (7 * Z.of_nat j) <= 2 ^ 21) by (apply Z.pow_le_mono_r; lia). lia.
Qed.

Lemma uleb_loop_encode k n v rest j sum used :
  0 <= v < 2 ^ (7 * Z.of_nat k) -> (0 < k)%nat -> (length (uleb_encode_loop k v) <= n)%nat ->
  (j <= 4)%nat -> 0 <= sum < 2 ^ (7 * Z.of_nat j) -> v * 2 ^ (7 * Z.of_nat j) < 2 ^ 35 ->
  uleb_loop n (uleb_encode_loop k v ++ rest) (7 * Z.of_nat j) sum used tt
  = Ok ((used + length (uleb_encode_loop k v))%nat, u32 (sum + v * 2 ^ (7 * Z.of_nat j))) tt.
Proof.
  revert n v j sum used. induction k as [|k IH]; intros n v j sum used Hv Hk Hn Hj Hsum Hlim; [lia|].
  rewrite encode_step in Hn |- * by lia. pose proof (mod_128 v) as Hm.
  rewrite (split_group v (7 * Z.of_nat j)) by lia.
  destruct n as [|n]; [destruct (_ =? _); simpl in Hn; lia|]. set (s := 7 * Z.of_nat j) in *.
  destruct (Z.eqb_spec (v / 128) 0) as [E|E].
  - cbn [app uleb_loop length]. rewrite (proj2 (Z.leb_gt 32 s)) by lia.
    destruct (final_byte (v mod 128) Hm) as [-> ->]. cbv beta iota zeta.
    rewrite Z.eqb_refl, group_step by (done || lia). rewrite E, Z.mul_0_l, Z.add_0_r, run_ret. do 2 f_equal. lia.
  - destruct (encode_tail k v Hv E) as [Hd Hk'].
    assert (S j <= 4)%nat as Hj' by (apply (next_shift v); fold s; lia).
    destruct (accumulated sum v j Hsum Hj') as [Ha Hb]. fold s in Ha, Hb.
    cbn [app uleb_loop length]. rewrite (proj2 (Z.leb_gt 32 s)) by lia.
    destruct (continues_byte (v mod 128) Hm) as (-> & -> & _). cbv beta iota zeta.
    change (128 =? 0) with false. cbv iota. rewrite group_step, Ha by (done || lia).
    pose proof (split_group v s ltac:(lia)) as Hsp.
    replace (s + 7) with (7 * Z.of_nat (S j)) in * by lia.
    rewrite (IH n (v / 128) (S j)); [|lia|lia|simpl in Hn; lia|lia|done|nia].
    do 2 f_equal; [lia|f_equal; lia].
Qed.

(** Ten groups hold a [ut64]. *)
Lemma encode_bounds v : 0 <= v < 2 ^ 64 -> 0 <= v < 2 ^ (7 * Z.of_nat 10).
Proof. intros Hv. pose proof (Z.pow_le_mono_r 2 64 (7 * Z.of_nat 10)). lia. Qed.

Lemma encode_first v rest : 0 < v < 2 ^ 64 -> exists c, (r_uleb128_encode v ++ rest) !! 0%nat = Some c /\ c <> 0.
Proof.
  intros Hv. unfold r_uleb128_encode. rewrite encode_step by lia. pose proof (mod_128 v) as Hm.
  destruct (Z.eqb_spec (v / 128) 0) as [E|E].
  - exists (v mod 128). split; [done|]. pose proof (Z.div_mod v 128). lia.
  - eexists. split; [done|]. by destruct (continues_byte (v mod 128) Hm) as (_ & _ & ?).
Qed.

(** The two decoders are the same loop. *)
Lemma decode_loop_eq n data s sum used st :
  (length data < n)%nat -> uleb_decode_loop data s sum used st = uleb_loop n data s sum used st.
Proof.
  revert n s sum used. induction data as [|c data IH]; intros n s sum used Hn;
    (destruct n as [|n]; [simpl in Hn; lia|]); [done|].
  cbn [uleb_decode_loop uleb_loop]. simpl in Hn. destruct (32 <=? s); [done|]. cbv zeta.
  destruct (Z.land c 128 =? 0); [done|]. apply IH. lia.
Qed.

(** What the two functions do on an encoded number other than zero. *)
Lemma uleb128_form v rest datalen o :
  0 < v < 2 ^ 64 -> Z.of_nat (length (r_uleb128_encode v)) <= datalen < 2 ^ 31 - 1 ->
  (forall n, (length (r_uleb128_encode v) <= n)%nat ->
     uleb_loop n (r_uleb128_encode v ++ rest) 0 0 0 tt = o) ->
  r_uleb128 (r_uleb128_encode v ++ rest) datalen tt
  = match o with Ok (used, sum) s => Ok (Some used, sum) s | Undef u => Undef u end
  /\ r_uleb128_decode (r_uleb128_encode v ++ rest) tt = o.
Proof.
  intros Hv Hl Ho. destruct (encode_first v rest Hv) as (c & Ec & Hc). split.
  - unfold r_uleb128. rewrite (proj2 (Z.eqb_neq datalen _)) by lia. cbv zeta.
    assert (0 < length (r_uleb128_encode v))%nat.
    { unfold r_uleb128_encode. rewrite encode_step by lia. destruct (_ =? _); cbn [length]; lia. }
    rewrite (proj2 (Z.ltb_ge datalen 0)), (proj2 (Z.ltb_lt 0 datalen)) by lia.
    rewrite run_bind, (load_run _ _ _ _ Ec), (proj2 (Z.eqb_neq c 0) Hc).
    rewrite run_bind, Ho by lia. by destruct o as [[] |].
  - unfold r_uleb128_decode. rewrite run_bind, (load_run _ _ _ _ Ec), (proj2 (Z.eqb_neq c 0) Hc).
    rewrite (decode_loop_eq (S (length (r_uleb128_encode v ++ rest)))) by lia.
    apply Ho. rewrite length_app. lia.
Qed.

(** [r_uleb128] and [r_uleb128_decode] read what [r_uleb128_encode] writes,
    whatever follows it: a number of at most 32 bits exactly, and one of 33 to 35
    bits without its high bits, although the result has 64. *)
Theorem r_uleb128_roundtrip v rest datalen :
  0 < v < 2 ^ 35 -> Z.of_nat (length (r_uleb128_encode v)) <= datalen < 2 ^ 31 - 1 ->
  r_uleb128 (r_uleb128_encode v ++ rest) datalen tt = Ok (Some (length (r_uleb128_encode v)), u32 v) tt
  /\ r_uleb128_decode (r_uleb128_encode v ++ rest) tt = Ok (length (r_uleb128_encode v), u32 v) tt.
Proof.
  intros Hv Hl. apply (uleb128_form v rest datalen (Ok (length (r_uleb128_encode v), u32 v) tt)); [lia|done|].
  intros n Hn. pose proof (uleb_loop_encode 10 n v rest 0 0 0) as E.
  change (7 * Z.of_nat 0) with 0 in E. rewrite Z.pow_0_r, Z.mul_1_r, Z.add_0_l in E.
  apply E; try lia. done.
Qed.

(** The group at 35 bits is out of the width of the shift. *)
Lemma uleb_loop_wide k n v rest j sum used :
  0 <= v < 2 ^ (7 * Z.of_nat k) -> (length (uleb_encode_loop k v) <= n)%nat ->
  (j <= 5)%nat -> 2 ^ 35 <= v * 2 ^ (7 * Z.of_nat j) ->
  uleb_loop n (uleb_encode_loop k v ++ rest) (7 * Z.of_nat j) sum used tt = Undef UB_shift.
Proof.
  revert n v j sum used. induction k as [|k IH]; intros n v j sum used Hv Hn Hj Hlim.
  { assert (v = 0) by (simpl in Hv; lia). subst. simpl in Hlim. lia. }
  rewrite encode_step in Hn |- * by lia. pose proof (mod_128 v) as Hm.
  pose proof (split_group v (7 * Z.of_nat j) ltac:(lia)) as Hsp.
  destruct n as [|n]; [destruct (_ =? _); simpl in Hn; lia|].
  destruct (decide (j = 5%nat)) as [->|].
  { by destruct (v / 128 =? 0). }
  assert (2 ^ (7 * Z.of_nat j) * 2 ^ (35 - 7 * Z.of_nat j) = 2 ^ 35) as Hp
    by (rewrite <- Z.pow_add_r by lia; f_equal; lia).
  assert (2 ^ (28 - 7 * Z.of_nat j) <= v / 128) as Hd.
  { apply Z.div_le_lower_bound; [lia|]. change 128 with (2 ^ 7). rewrite <- Z.pow_add_r by lia.
    replace (7 + (28 - 7 * Z.of_nat j)) with (35 - 7 * Z.of_nat j) by lia.
    pose proof (Z.pow_pos_nonneg 2 (7 * Z.of_nat j)). nia. }
  assert (0 < 2 ^ (28 - 7 * Z.of_nat j)) by (apply Z.pow_pos_nonneg; lia).
  rewrite (proj2 (Z.eqb_neq (v / 128) 0)) in Hn |- * by lia.
  destruct (encode_tail k v Hv) as [Hd' _]; [lia|]. cbn [app uleb_loop].
  rewrite (proj2 (Z.leb_gt 32 _)) by lia.
  destruct (continues_byte (v mod 128) Hm) as (_ & -> & _). cbv zeta.
  change (128 =? 0) with false. cbv iota. replace (7 * Z.of_nat j + 7) with (7 * Z.of_nat (S j)) by lia.
  apply IH; [lia|simpl in Hn; lia|lia|].
  replace (2 ^ 35) with (2 ^ (28 - 7 * Z.of_nat j) * 2 ^ (7 * Z.of_nat (S j)))
    by (rewrite <- Z.pow_add_r by lia; f_equal; lia).
  apply Z.mul_le_mono_nonneg_r; [apply Z.pow_nonneg; lia|done].
Qed.

(** Decoding a number of more than 35 bits shifts a 32-bit integer by 35:
    it is undefined. *)
Theorem r_uleb128_wide_undefined v rest datalen :
  2 ^ 35 <= v < 2 ^ 64 -> Z.of_nat (length (r_uleb128_encode v)) <= datalen < 2 ^ 31 - 1 ->
  r_uleb128 (r_uleb128_encode v ++ rest) datalen tt = Undef UB_shift
  /\ r_uleb128_decode (r_uleb128_encode v ++ rest) tt = Undef UB_shift.
Proof.
  intros Hv Hl. apply (uleb128_form v rest datalen (Undef UB_shift)); [lia|done|].
  intros n Hn. apply (uleb_loop_wide 10 n v rest 0); [apply encode_bounds; lia|done|lia|].
  change (7 * Z.of_nat 0) with 0. lia.
Qed.

(** Zero has one byte; [r_uleb128_decode] says none. *)
Lemma r_uleb128_zero rest datalen :
  0 < datalen < 2 ^ 31 - 1 ->
  r_uleb128 (r_uleb128_encode 0 ++ rest) datalen tt = Ok (Some 1%nat, 0) tt
  /\ r_uleb128_decode (r_uleb128_encode 0 ++ rest) tt = Ok (0%nat, 0) tt.
Proof.
  intros Hd. split; [|done]. unfold r_uleb128. rewrite (proj2 (Z.eqb_neq datalen _)) by lia. cbv zeta.
  by rewrite (proj2 (Z.ltb_ge datalen 0)), (proj2 (Z.ltb_lt 0 datalen)) by lia.
Qed.

(** ** Signed numbers *)

(** The value of a signed number: the last byte carries the sign in its bit 6. *)
Fixpoint sleb_val (cs : list Z) : Z :=
  match cs with
  | [] => 0
  | [c] => if c <? 64 then c else c - 128
  | c :: cs => (c - 128) + 128 * sleb_val cs
  end.

(** Bytes that continue, and one that does not. *)
Definition sleb_bytes (cs : list Z) : Prop :=
  exists xs c, cs = xs ++ [c] /\ Forall (fun x => 128 <= x < 256) xs /\ 0 <= c < 128.

(** The sum of the groups, without the sign. *)
Fixpoint leb_sum (cs : list Z) : Z :=
  match cs with [] => 0 | c :: cs => c mod 128 + 128 * leb_sum cs end.

Lemma leb_sum_range cs : 0 <= leb_sum cs < 2 ^ (7 * Z.of_nat (length cs)).
Proof.
  induction cs as [|c cs IH]; [simpl; lia|]. cbn [leb_sum length].
  replace (7 * Z.of_nat (S (length cs))) with (7 + 7 * Z.of_nat (length cs)) by lia.
  rewrite Z.pow_add_r by lia. change (2 ^ 7) with 128. pose proof (mod_128 c). lia.
Qed.

Lemma sleb_val_sum xs c :
  Forall (fun x => 128 <= x < 256) xs -> 0 <= c < 128 ->
  sleb_val (xs ++ [c])
  = leb_sum (xs ++ [c]) - (if c <? 64 then 0 else 2 ^ (7 * Z.of_nat (S (length xs)))).
Proof.
  intros Hx Hc. induction Hx as [|x xs Hx _ IH].
  - cbn [app sleb_val leb_sum length]. rewrite Z.mod_small by lia. change (2 ^ (7 * Z.of_nat 1)) with 128.
    destruct (c <? 64); lia.
  - cbn [app leb_sum length]. replace (sleb_val (x :: xs ++ [c])) with (x - 128 + 128 * sleb_val (xs ++ [c]))
      by (by destruct xs).
    rewrite IH. replace (x mod 128) with (x - 128) by (apply Z.mod_unique with 1; lia).
    replace (7 * Z.of_nat (S (S (length xs)))) with (7 + 7 * Z.of_nat (S (length xs))) by lia.
    rewrite Z.pow_add_r by lia. change (2 ^ 7) with 128. destruct (c <? 64); lia.
Qed.

Lemma high_byte x : 128 <= x < 256 -> Z.land x 0x7f = x mod 128 /\ Z.land x 0x80 = 0x80.
Proof.
  intros Hx. assert (x = Z.lor (x mod 128) 0x80) as ->.
  { change 128 with (Z.shiftl 1 7) at 2. rewrite Z.lor_comm, lor_shiftl_add by (lia || apply (mod_128 x)). zlia. }
  destruct (continues_byte (x mod 128) (mod_128 x)) as (E1 & E2 & _). rewrite E1, E2. split; [|done].
  rewrite Z.lor_comm. change 128 with (Z.shiftl 1 7) at 2. rewrite lor_shiftl_add by (lia || apply (mod_128 x)).
  rewrite Z.add_comm, Z.mul_1_l. change (2 ^ 7) with (1 * 128). rewrite Z.mod_add by lia. by rewrite Z.mod_mod.
Qed.

Lemma leb_loop_run xs c rest j sum c0 used :
  Forall (fun x => 128 <= x < 256) xs -> 0 < c < 128 -> (j + length xs < 8)%nat ->
  0 <= sum < 2 ^ (7 * Z.of_nat j) ->
  leb_loop (xs ++ c :: rest) (7 * Z.of_nat j) sum c0 used tt
  = Ok ((used + S (length xs))%nat, 7 * Z.of_nat (j + S (length xs)),
        sum + leb_sum (xs ++ [c]) * 2 ^ (7 * Z.of_nat j), c) tt.
Proof.
  intros Hx Hc. revert j sum c0 used. induction Hx as [|x xs Hx _ IH]; intros j sum c0 used Hj Hsum;
    cbn [app leb_loop leb_sum length] in *.
  - destruct (final_byte c ltac:(lia)) as [E1 E2]. rewrite E1, E2.
    rewrite (proj2 (Z.eqb_neq c 0)), (proj2 (Z.leb_gt 64 _)) by lia.
    assert (c * 2 ^ (7 * Z.of_nat j) < 2 ^ 63) as Hov.
    { assert (2 ^ (7 * Z.of_nat j) <= 2 ^ 49) by (apply Z.pow_le_mono_r; lia). nia. }
    rewrite Z.shiftl_mul_pow2, (proj2 (Z.leb_gt (2 ^ 63) _)) by lia. cbv zeta. rewrite Z.eqb_refl, run_ret.
    rewrite <- Z.shiftl_mul_pow2, lor_group by lia. rewrite Z.mod_small by lia.
    replace (S used) with (used + 1)%nat by lia.
    replace (7 * Z.of_nat j + 7) with (7 * Z.of_nat (j + 1)) by lia. by rewrite Z.mul_0_r, Z.add_0_r.
  - destruct (high_byte x Hx) as [-> ->]. pose proof (mod_128 x) as Hm.
    rewrite (proj2 (Z.eqb_neq x 0)), (proj2 (Z.leb_gt 64 _)) by lia.
    assert (x mod 128 * 2 ^ (7 * Z.of_nat j) < 2 ^ 63) as Hov.
    { assert (2 ^ (7 * Z.of_nat j) <= 2 ^ 49) by (apply Z.pow_le_mono_r; lia). nia. }
    rewrite Z.shiftl_mul_pow2, (proj2 (Z.leb_gt (2 ^ 63) _)) by lia. cbv zeta.
    change (128 =? 0) with false. cbv iota. rewrite <- Z.shiftl_mul_pow2, lor_group by lia.
    replace (7 * Z.of_nat j + 7) with (7 * Z.of_nat (S j)) by lia.
    rewrite IH; [|lia|].
    + replace (7 * Z.of_nat (S j)) with (7 * Z.of_nat j + 7) by lia. rewrite Z.pow_add_r by lia.
      replace (S used + S (length xs))%nat with (used + S (S (length xs)))%nat by lia.
      replace (S j + S (length xs))%nat with (j + S (S (length xs)))%nat by lia.
      change (2 ^ 7) with 128. do 3 f_equal. ring.
    + replace (7 * Z.of_nat (S j)) with (7 * Z.of_nat j + 7) by lia. rewrite Z.pow_add_r by lia. change (2 ^ 7) with 128. nia.
Qed.

Lemma sign_bit c : 0 <= c < 128 -> z2b (Z.land c 0x40) = negb (c <? 64).
Proof.
  intros Hc. unfold z2b. f_equal. apply eq_true_iff_eq. rewrite Z.eqb_eq, Z.ltb_lt.
  assert (Z.land c 64 = 0 <-> Z.testbit c 6 = false) as ->.
  { split.
    - intros E. apply (f_equal (fun x => Z.testbit x 6)) in E. by rewrite Z.land_spec, andb_true_r in E.
    - intros E. apply Z.bits_inj'. intros i Hi. rewrite Z.bits_0, Z.land_spec. change 64 with (2 ^ 6).
      rewrite Z.pow2_bits_eqb by lia. destruct (Z.eqb_spec 6 i) as [<-|]; [by rewrite E|by rewrite andb_false_r]. }
  rewrite Z.testbit_false by lia. split; intros E; zlia.
Qed.

Lemma leb_sign sum s : 0 <= s -> 0 <= sum < 2 ^ s -> Z.lor sum (- Z.shiftl 1 s) = sum - 2 ^ s.
Proof.
  intros Hs Hsum. replace (- Z.shiftl 1 s) with (Z.shiftl (-1) s).
  - rewrite Z.lor_comm, lor_shiftl_add by lia. lia.
  - rewrite !Z.shiftl_mul_pow2 by lia. lia.
Qed.

(** [r_leb128] reads a signed number of at most eight bytes whose last one is
    not zero: it gives its value and leaves what follows. *)
Theorem r_leb128_value xs c rest :
  Forall (fun x => 128 <= x < 256) xs -> 0 < c < 128 -> (length xs < 8)%nat ->
  r_leb128 (xs ++ c :: rest) tt = Ok (S (length xs), sleb_val (xs ++ [c])) tt.
Proof.
  intros Hx Hc Hl. unfold r_leb128.
  pose proof (leb_loop_run xs c rest 0 0 0 0 Hx Hc Hl) as E. change (7 * Z.of_nat 0) with 0 in E.
  rewrite run_bind, E by lia. cbv beta iota. cbn [Nat.add]. rewrite Z.pow_0_r, Z.mul_1_r, Z.add_0_l.
  pose proof (leb_sum_range (xs ++ [c])) as Hr. rewrite length_app in Hr. cbn [length] in Hr. rewrite Nat.add_1_r in Hr.
  rewrite sign_bit, sleb_val_sum by (done || lia). rewrite (proj2 (Z.ltb_lt _ 64)) by lia. cbn [andb].
  destruct (c <? 64); cbn [negb]; [by rewrite Z.sub_0_r|].
  rewrite (proj2 (Z.eqb_neq _ 63)) by lia. by rewrite leb_sign by lia.
Qed.

(** A number whose last byte is zero, as that of every positive number whose
    top group has its bit 6 set, is cut before that byte and its sign is taken
    from the byte before: 127 is read as -1. *)
Theorem r_leb128_zero_byte x rest :
  64 <= x < 128 ->
  sleb_val [x + 128; 0] = x /\ r_leb128 (x + 128 :: 0 :: rest) tt = Ok (1%nat, x - 128) tt.
Proof.
  intros Hx. split; [simpl; lia|]. destruct (high_byte (x + 128) ltac:(lia)) as [E1 E2].
  replace ((x + 128) mod 128) with x in E1 by (apply Z.mod_unique with 1; lia).
  unfold r_leb128. cbn [leb_loop]. rewrite (proj2 (Z.eqb_neq (x + 128) 0)), E1, E2 by lia.
  rewrite Z.shiftl_0_r, (proj2 (Z.leb_gt (2 ^ 63) x)), Z.lor_0_l by lia. change (64 <=? 0) with false.
  change (128 =? 0) with false. cbv zeta iota. rewrite run_bind, Z.eqb_refl, run_ret. cbv beta iota.
  assert (Z.land (x + 128) 64 = Z.land x 64) as ->.
  { replace (x + 128) with (Z.lor (Z.shiftl 1 7) x) by (rewrite lor_shiftl_add by lia; lia).
    by rewrite Z.land_lor_distr_l. }
  rewrite sign_bit, (proj2 (Z.ltb_ge x 64)) by lia. change (0 + 7) with 7. change (7 <? 64) with true.
  change (7 =? 63) with false. cbn [andb negb]. by rewrite leb_sign by lia.
Qed.

(** ** Instances *)

Lemma r_uleb128_roundtrip_witness :
  r_uleb128 (r_uleb128_encode 624485 ++ [9]) 8 tt = Ok (Some 3%nat, 624485) tt
  /\ r_uleb128_decode (r_uleb128_encode 624485 ++ [9]) tt = Ok (3%nat, 624485) tt.
Proof. apply (r_uleb128_roundtrip 624485 [9] 8); vm_compute; split; congruence. Defined.

Lemma r_uleb128_wide_undefined_witness :
  r_uleb128 (r_uleb128_encode (2 ^ 40) ++ []) 16 tt = Undef UB_shift
  /\ r_uleb128_decode (r_uleb128_encode (2 ^ 40) ++ []) tt = Undef UB_shift.
Proof. apply (r_uleb128_wide_undefined (2 ^ 40) [] 16); vm_compute; split; congruence. Defined.

Lemma r_leb128_value_witness : r_leb128 [0xc0; 0xbb; 0x78; 1] tt = Ok (3%nat, -123456) tt.
Proof.
  apply (r_leb128_value [0xc0; 0xbb] 0x78 [1]); [|lia|simpl; lia].
  repeat constructor; lia.
Defined.

Lemma r_leb128_zero_byte_witness :
  sleb_val [0xff; 0] = 127 /\ r_leb128 [0xff; 0; 5] tt = Ok (1%nat, -1) tt.
Proof. apply (r_leb128_zero_byte 127 [5]). lia. Defined.
