(* ===== verification/Base64.v ===== *)
(** * Base64

    [libr/util/base64.c].  The state is the buffer that is written to; the text
    or data that is read is a list of bytes. *)

From S2P Require Import Prelude Buf.

Definition cb64 : list Z := chars "ABCDEFGHIJKLMNOPQRSTUVWXYZabcdefghijklmnopqrstuvwxyz0123456789+/".
Definition cd64 : list Z :=
  chars "|$$$}rstuvwxyz{$$$$$$$>?@ABCDEFGHIJKLMNOPQRSTUVW$$$$$$XYZ[\]^_`abcdefghijklmnopq".

(** Four characters from [len] bytes at [i], at most three of them. *)
Definition b64_encode (bin : list Z) (i out : nat) (len : Z) : M (list Z) unit :=
  if len <? 1 then mret tt
  else
    in0 ← load bin i;
    in1 ← (if 1 <? len then load bin (i + 1) else mret 0);
    in2 ← (if 2 <? len then load bin (i + 2) else mret 0);
    c0 ← load cb64 (Z.to_nat (Z.shiftr in0 2));
    c1 ← load cb64 (Z.to_nat (Z.lor (Z.shiftl (Z.land in0 0x03) 4)
           (if 1 <? len then Z.shiftr (Z.land in1 0xf0) 4 else 0)));
    c2 ← (if 1 <? len
          then load cb64 (Z.to_nat (Z.lor (Z.shiftl (Z.land in1 0x0f) 2)
                 (if 2 <? len then Z.shiftr (Z.land in2 0xc0) 6 else 0)))
          else mret (code "="));
    c3 ← (if 2 <? len then load cb64 (Z.to_nat (Z.land in2 0x3f)) else mret (code "="));
    stores out [c0; c1; c2; c3].

(** The loop over the four characters at [at]: [None] for a character outside
    the table, otherwise the length and the four values. *)
Fixpoint b64_values (n i : nat) (bin : list Z) (pos : nat) (v : list Z) : M (list Z) (option (Z * list Z)) :=
  match n with
  | O => mret (Some (3, v))
  | S n =>
      c ← load bin (pos + i);
      if (c <? 43) || (122 <? c) then mret None
      else
        x ← load cd64 (Z.to_nat (c - 43));
        if x =? code "$"
        then mret (Some (u8 (if (i =? 0)%nat then -1 else Z.of_nat i - 1), <[i := x]> v))
        else b64_values n (S i) bin pos (<[i := u8 (x - 62)]> v)
  end.

Definition b64_decode (bin : list Z) (pos out : nat) : M (list Z) Z :=
  r ← b64_values 4 0 bin pos [0; 0; 0; 0];
  match r with
  | None => mret (-1)
  | Some (len, v) =>
      let v := byte_at v in
      stores out [u8 (Z.lor (Z.shiftl (v 0%nat) 2) (Z.shiftr (v 1%nat) 4));
                  u8 (Z.lor (Z.shiftl (v 1%nat) 4) (Z.shiftr (v 2%nat) 2));
                  u8 (Z.lor (Z.land (Z.shiftl (v 2%nat) 6) 0xc0) (v 3%nat))] ;;
      mret len
  end.

(** [strlen]. *)
Fixpoint strlen {St} (s : list Z) : M St nat :=
  match s with
  | [] => undef UB_oob
  | c :: s => if c =? 0 then mret 0%nat else n ← strlen s; mret (S n)
  end.

(** [len = strlen (s)], an [int]. *)
Definition int_strlen {St} (s : list Z) : M St Z := n ← strlen s; mret (s32 (Z.of_nat n)).

(** [a += b] on positions, which are [int]s. *)
Definition int_add {St} (a b : nat) : M St nat :=
  if 2 ^ 31 <=? Z.of_nat (a + b) then undef UB_overflow else mret (a + b)%nat.

(** Every turn advances [in] by four. *)
Fixpoint decode_loop (fuel : nat) (bin : list Z) (len : Z) (i out : nat) : M (list Z) (nat * nat) :=
  match fuel with
  | O => mret (i, out)
  | S fuel =>
      if Z.of_nat i <? len - 1 then
        ret ← b64_decode bin i out;
        if ret <? 1 then mret (i, out)
        else
          out ← int_add out (Z.to_nat ret);
          i ← int_add i 4;
          decode_loop fuel bin len i out
      else mret (i, out)
  end.

Definition r_base64_decode (bin : list Z) (len : Z) : M (list Z) Z :=
  len ← (if len <? 0 then int_strlen bin else mret len);
  '(i, out) ← decode_loop (Z.to_nat len) bin len 0 0;
  store out 0 ;;
  mret (if (i =? out)%nat then 0 else Z.of_nat out).

(** The buffer is new. *)
Definition r_base64_decode_dyn (bin : list Z) (len : Z) : M (list Z) Z :=
  len ← (if len <? 0 then n ← strlen bin; mret (s32 (Z.of_nat n + 1)) else mret len);
  modify (fun _ => repeat 0 (Z.to_nat len)) ;;
  r_base64_decode bin len.

Fixpoint encode_loop (fuel : nat) (bin : list Z) (len : Z) (i out : nat) : M (list Z) nat :=
  match fuel with
  | O => mret out
  | S fuel =>
      if Z.of_nat i <? len then
        b64_encode bin i out (if 3 <? len - Z.of_nat i then 3 else len - Z.of_nat i) ;;
        i ← int_add i 3;
        out ← int_add out 4;
        encode_loop fuel bin len i out
      else mret out
  end.

Definition r_base64_encode (bin : list Z) (len : Z) : M (list Z) Z :=
  len ← (if len <? 0 then int_strlen bin else mret len);
  out ← encode_loop (Z.to_nat len) bin len 0 0;
  store out 0 ;;
  mret (Z.of_nat out).

(** [len * 4 + 2] is an [int]. *)
Definition r_base64_encode_dyn (bin : list Z) (len : Z) : M (list Z) unit :=
  len ← (if len <? 0 then int_strlen bin else mret len);
  if 2 ^ 31 <=? len * 4 + 2 then undef UB_overflow
  else
    modify (fun _ => repeat 0 (Z.to_nat (len * 4 + 2))) ;;
    out ← encode_loop (Z.to_nat len) bin len 0 0;
    store out 0.

(** ** The code *)

(** The character of a group of six bits. *)
Definition c64 (k : Z) : Z := byte_at cb64 (Z.to_nat k).

(** The text of a byte string. *)
Fixpoint enc64 (x : list Z) : list Z :=
  match x with
  | a :: b :: c :: x =>
      [c64 (a / 4); c64 (a mod 4 * 16 + b / 16); c64 (b mod 16 * 4 + c / 64); c64 (c mod 64)] ++ enc64 x
  | [a; b] => [c64 (a / 4); c64 (a mod 4 * 16 + b / 16); c64 (b mod 16 * 4); code "="]
  | [a] => [c64 (a / 4); c64 (a mod 4 * 16); code "="; code "="]
  | [] => []
  end.

Lemma list_ind3 {A} (P : list A -> Prop) :
  P [] -> (forall a, P [a]) -> (forall a b, P [a; b]) -> (forall a b c x, P x -> P (a :: b :: c :: x)) ->
  forall x, P x.
Proof.
  intros H0 H1 H2 H3. assert (forall n x, (length x <= n)%nat -> P x) as H; [|by intros x; apply (H (length x))].
  induction n as [|n IH]; intros [|a [|b [|c x]]] Hx; simpl in Hx; try done; try lia.
  apply H3, IH. lia.
Qed.

(** The two tables are inverse. *)
Lemma tables_inverse (k : Z) :
  0 <= k < 64 ->
  cb64 !! Z.to_nat k = Some (c64 k) /\ 43 <= c64 k <= 122
  /\ cd64 !! Z.to_nat (c64 k - 43) = Some (k + 62) /\ k + 62 <> code "$".
Proof.
  intros Hk. assert (forallb (fun n => let k := Z.of_nat n in
      bool_decide (cb64 !! n = Some (c64 k)) && (43 <=? c64 k) && (c64 k <=? 122)
      && bool_decide (cd64 !! Z.to_nat (c64 k - 43) = Some (k + 62)) && negb (k + 62 =? code "$")) (seq 0 64) = true)
    as H by (vm_compute; reflexivity).
  rewrite forallb_forall in H. specialize (H (Z.to_nat k)). rewrite in_seq in H.
  specialize (H ltac:(lia)). cbv zeta in H. rewrite Z2Nat.id in H by lia.
  rewrite !andb_true_iff, !bool_decide_eq_true, !Z.leb_le, negb_true_iff, Z.eqb_neq in H. tauto.
Qed.

Lemma land_high b n k : 0 <= n -> 0 <= k -> 0 <= b < 2 ^ (n + k) -> Z.shiftr (Z.land b (Z.shiftl (Z.ones k) n)) n = b / 2 ^ n.
Proof.
  intros Hn Hk Hb. rewrite <- Z.shiftr_div_pow2 by lia. zbits.
  rewrite Z.add_simpl_r. destruct (Z.ltb_spec i k); [by rewrite Z.ones_spec_low, andb_true_r by lia|].
  rewrite <- (Z.mod_small b (2 ^ (n + k))) by lia. by rewrite Z.mod_pow2_bits_high by lia.
Qed.

Lemma groups a b c :
  is_byte a -> is_byte b -> is_byte c ->
  Z.shiftr a 2 = a / 4
  /\ Z.lor (Z.shiftl (Z.land a 0x03) 4) (Z.shiftr (Z.land b 0xf0) 4) = a mod 4 * 16 + b / 16
  /\ Z.lor (Z.shiftl (Z.land a 0x03) 4) 0 = a mod 4 * 16
  /\ Z.lor (Z.shiftl (Z.land b 0x0f) 2) (Z.shiftr (Z.land c 0xc0) 6) = b mod 16 * 4 + c / 64
  /\ Z.lor (Z.shiftl (Z.land b 0x0f) 2) 0 = b mod 16 * 4
  /\ Z.land c 0x3f = c mod 64.
Proof.
  unfold is_byte. intros Ha Hb Hc. change 0xf0 with (Z.shiftl (Z.ones 4) 4). change 0xc0 with (Z.shiftl (Z.ones 2) 6).
  change 0x03 with (Z.ones 2). change 0x0f with (Z.ones 4). change 0x3f with (Z.ones 6).
  rewrite !land_high, !Z.land_ones, !Z.lor_0_r, Z.shiftr_div_pow2 by lia.
  change (2 ^ 4) with 16. change (2 ^ 2) with 4. change (2 ^ 6) with 64.
  rewrite !lor_shiftl_add by (lia || (split; zlia)).
  rewrite !Z.shiftl_mul_pow2 by lia. done.
Qed.

(** Reading a group of three bytes back. *)
Lemma ungroups a b c :
  is_byte a -> is_byte b -> is_byte c ->
  u8 (Z.lor (Z.shiftl (a / 4) 2) (Z.shiftr (a mod 4 * 16 + b / 16) 4)) = a
  /\ u8 (Z.lor (Z.shiftl (a mod 4 * 16 + b / 16) 4) (Z.shiftr (b mod 16 * 4 + c / 64) 2)) = b
  /\ u8 (Z.lor (Z.land (Z.shiftl (b mod 16 * 4 + c / 64) 6) 0xc0) (c mod 64)) = c.
Proof.
  unfold is_byte, u8. intros Ha Hb Hc.
  assert (Z.land (Z.shiftl (b mod 16 * 4 + c / 64) 6) 0xc0 = Z.shiftl (c / 64) 6) as ->.
  { rewrite !Z.shiftl_mul_pow2 by lia. change 0xc0 with (Z.shiftl (Z.ones 2) 6).
    rewrite <- !(Z.shiftl_mul_pow2 _ 6), <- Z.shiftl_land, Z.land_ones by lia. f_equal.
    change (2 ^ 2) with 4. rewrite Z.add_comm, Z.mod_add by lia. apply Z.mod_small. zlia. }
  rewrite !Z.shiftr_div_pow2 by lia.
  rewrite !lor_shiftl_add by (lia || (split; zlia)).
  change (2 ^ 4) with 16. change (2 ^ 2) with 4. change (2 ^ 6) with 64. change (2 ^ 8) with 256.
  split_and!; zlia.
Qed.

Lemma nat_add_run {St} a b (s : St) : Z.of_nat (a + b) < 2 ^ 31 -> int_add a b s = Ok (a + b)%nat s.
Proof. intros H. unfold int_add. by rewrite (proj2 (Z.leb_gt _ _)). Qed.

(** ** Encoding *)

Lemma load_c64 {S} k (s : S) : 0 <= k < 64 -> load cb64 (Z.to_nat k) s = Ok (c64 k) s.
Proof. intros Hk. apply load_run. by apply tables_inverse. Qed.

Lemma load_app {S} pre x (n : nat) (s : S) v : x !! n = Some v -> load (pre ++ x) (length pre + n) s = Ok v s.
Proof. intros E. apply load_run. rewrite lookup_app_r by lia. by rewrite Nat.add_comm, Nat.add_sub. Qed.
Lemma load_app_0 {S} pre x (s : S) v : x !! 0%nat = Some v -> load (pre ++ x) (length pre) s = Ok v s.
Proof. intros E. rewrite <- (Nat.add_0_r (length pre)). by apply load_app. Qed.

(** A turn writes the first four characters of the text of the bytes left. *)
Lemma b64_encode_run pre x out buf :
  bytes x -> x <> [] -> (out + 4 <= length buf)%nat ->
  b64_encode (pre ++ x) (length pre) out (Z.of_nat (length x) `min` 3) buf
  = Ok tt (take out buf ++ take 4 (enc64 x) ++ drop (out + 4) buf).
Proof.
  intros Hx Hne Hb. destruct x as [|a x]; [done|]. apply Forall_cons in Hx as [Ha Hx].
  assert (0 <= a / 4 < 64) by (unfold is_byte in Ha; split; zlia).
  assert (is_byte 0) as H0 by (unfold is_byte; lia).
  unfold b64_encode. rewrite (proj2 (Z.ltb_ge _ 1)) by (simpl; lia).
  rewrite run_bind, (load_app_0 _ _ _ a) by done.
  destruct x as [|b x].
  { destruct (groups a 0 0 Ha H0 H0) as (E1 & _ & E2 & _). change (Z.of_nat (length [a]) `min` 3) with 1.
    change (1 <? 1) with false. change (2 <? 1) with false. cbv iota. rewrite E1, E2. mrun.
    rewrite load_c64 by lia. mrun. rewrite load_c64 by zlia. mrun. by rewrite stores_run by (simpl; lia). }
  apply Forall_cons in Hx as [Hb' Hx].
  assert (0 <= b / 16 < 16) by (unfold is_byte in Hb'; split; zlia).
  destruct x as [|c x].
  { destruct (groups a b 0 Ha Hb' H0) as (E1 & E2 & _ & _ & E3 & _).
    change (Z.of_nat (length [a; b]) `min` 3) with 2.
    change (1 <? 2) with true. change (2 <? 2) with false. cbv iota. rewrite E1. mrun.
    rewrite (load_app _ _ 1 _ b) by done. mrun. rewrite E2, E3, load_c64 by lia. mrun.
    rewrite load_c64 by zlia. mrun. rewrite load_c64 by zlia. mrun. by rewrite stores_run by (simpl; lia). }
  apply Forall_cons in Hx as [Hc Hx].
  assert (0 <= c / 64 < 4) by (unfold is_byte in Hc; split; zlia).
  destruct (groups a b c Ha Hb' Hc) as (E1 & E2 & _ & E3 & _ & E4).
  replace (Z.of_nat (length (a :: b :: c :: x)) `min` 3) with 3 by (simpl; lia).
  change (1 <? 3) with true. change (2 <? 3) with true. cbv iota. rewrite E1. mrun.
  rewrite (load_app _ _ 1 _ b) by done. mrun. rewrite (load_app _ _ 2 _ c) by done. mrun.
  rewrite E2, E3, E4, load_c64 by lia. mrun. rewrite load_c64 by zlia. mrun.
  rewrite load_c64 by zlia. mrun. rewrite load_c64 by zlia. mrun. by rewrite stores_run by (simpl; lia).
Qed.

Lemma enc64_chunk x : x <> [] -> enc64 x = take 4 (enc64 x) ++ enc64 (drop 3 x) /\ length (take 4 (enc64 x)) = 4%nat.
Proof. destruct x as [|a [|b [|c x]]]; [done|..]; by intros _. Qed.

Lemma encode_loop_run fuel pre x out done_ tl :
  bytes x -> (length x <= fuel)%nat -> out = length done_ -> (length (enc64 x) <= length tl)%nat ->
  Z.of_nat (length (pre ++ x)) + 2 < 2 ^ 31 -> Z.of_nat (out + length (enc64 x)) < 2 ^ 31 ->
  encode_loop fuel (pre ++ x) (Z.of_nat (length (pre ++ x))) (length pre) out (done_ ++ tl)
  = Ok (out + length (enc64 x))%nat (done_ ++ enc64 x ++ drop (length (enc64 x)) tl).
Proof.
  revert pre x out done_ tl. induction fuel as [|fuel IH]; intros pre x out done_ tl Hx Hf -> Hl Hi1 Hi2.
  { destruct x; [|simpl in Hf; lia]. simpl. by rewrite Nat.add_0_r, drop_0. }
  cbn [encode_loop]. rewrite length_app. destruct (decide (x = [])) as [->|Hne].
  { rewrite (proj2 (Z.ltb_ge _ _)) by (simpl; lia). simpl. by rewrite Nat.add_0_r, drop_0. }
  assert (0 < length x)%nat by (destruct x; [done|simpl; lia]).
  rewrite (proj2 (Z.ltb_lt _ _)) by lia. destruct (enc64_chunk x Hne) as [Ec Hc].
  assert (length (enc64 x) = 4 + length (enc64 (drop 3 x)))%nat as Hlen by (rewrite Ec, length_app, Hc; done).
  replace (if 3 <? Z.of_nat (length pre + length x) - Z.of_nat (length pre) then 3
           else Z.of_nat (length pre + length x) - Z.of_nat (length pre)) with (Z.of_nat (length x) `min` 3)
    by (destruct (Z.ltb_spec 3 (Z.of_nat (length pre + length x) - Z.of_nat (length pre))); lia).
  rewrite run_bind, b64_encode_run by (done || rewrite length_app; lia). rewrite length_app in Hi1.
  rewrite run_bind, nat_add_run by lia. rewrite run_bind, nat_add_run by lia.
  rewrite take_app_length, drop_app_ge by lia. replace (length done_ + 4 - length done_)%nat with 4%nat by lia.
  destruct (decide (drop 3 x = [])) as [Ed|Ed].
  - rewrite Ed in Ec, Hlen. rewrite app_nil_r in Ec. rewrite <- Ec.
    assert (length x <= 3)%nat by (apply (f_equal length) in Ed; rewrite length_drop in Ed; cbn [length] in Ed; lia).
    rewrite Hlen. destruct fuel; cbn [encode_loop]; [done|].
    by rewrite (proj2 (Z.ltb_ge _ _)) by lia.
  - assert (3 < length x)%nat.
    { destruct (Nat.le_gt_cases (length x) 3); [|done]. exfalso. by apply Ed, drop_ge. }
    assert (pre ++ x = (pre ++ take 3 x) ++ drop 3 x) as Ep by (by rewrite <- app_assoc, take_drop).
    assert (length pre + 3 = length (pre ++ take 3 x))%nat as El by (rewrite length_app, length_take; lia).
    rewrite <- length_app, Ep, El, app_assoc.
    rewrite IH; [|by apply Forall_drop|rewrite length_drop; lia|rewrite length_app, Hc; lia|rewrite length_drop; lia|rewrite !length_app, length_take, length_drop; lia|lia].
    rewrite Hlen, (drop_drop tl), <- app_assoc. f_equal; [lia|]. by rewrite Ec at 2; rewrite <- app_assoc.
Qed.

(** ** Decoding *)

Lemma values_step n i bin pos v k buf :
  bin !! (pos + i)%nat = Some (c64 k) -> 0 <= k < 64 ->
  b64_values (S n) i bin pos v buf = b64_values n (S i) bin pos (<[i := k]> v) buf.
Proof.
  intros E Hk. destruct (tables_inverse k Hk) as (_ & Hc & Ed & Hd). cbn [b64_values].
  rewrite run_bind, (load_run _ _ _ _ E).
  rewrite (proj2 (Z.ltb_ge _ 43)), (proj2 (Z.ltb_ge 122 _)) by lia. cbn [orb].
  rewrite run_bind, (load_run _ _ _ _ Ed), (proj2 (Z.eqb_neq _ _) Hd).
  rewrite Z.add_simpl_r, u8_id by lia. done.
Qed.

Lemma values_pad n i bin pos v buf :
  bin !! (pos + i)%nat = Some (code "=") ->
  b64_values (S n) i bin pos v buf
  = Ok (Some (u8 (if (i =? 0)%nat then -1 else Z.of_nat i - 1), <[i := code "$"]> v)) buf.
Proof. intros E. cbn [b64_values]. by rewrite run_bind, (load_run _ _ _ _ E). Qed.

(** A turn reads the first three bytes back, or what there is of them. *)
Lemma b64_decode_run pre x post out buf :
  bytes x -> x <> [] -> (out + 3 <= length buf)%nat ->
  exists y, b64_decode (pre ++ enc64 x ++ post) (length pre) out buf
    = Ok (Z.of_nat (length x) `min` 3) (take out buf ++ y ++ drop (out + 3) buf)
    /\ length y = 3%nat /\ take (length x) y = take 3 x.
Proof.
  intros Hx Hne Hb. destruct x as [|a x]; [done|]. apply Forall_cons in Hx as [Ha Hx].
  assert (forall q (i : nat) v, q !! i = Some v -> (pre ++ q) !! (length pre + i)%nat = Some v) as Hq.
  { intros q i v E. rewrite lookup_app_r by lia. by rewrite Nat.add_comm, Nat.add_sub. }
  assert (0 <= a / 4 < 64) by (unfold is_byte in Ha; split; zlia).
  assert (is_byte 0) as H0 by (unfold is_byte; lia). unfold b64_decode.
  destruct x as [|b x].
  { destruct (ungroups a 0 0 Ha H0 H0) as (E1 & _). change (Z.of_nat (length [a]) `min` 3) with 1.
    rewrite run_bind, (values_step _ _ _ _ _ (a / 4)), (values_step _ _ _ _ _ (a mod 4 * 16)), values_pad
      by (first [apply Hq; reflexivity | zlia]). cbv beta iota zeta. cbn [byte_at default insert list_insert lookup list_lookup].
    rewrite run_bind, stores_run by (simpl; lia). eexists. split; [reflexivity|]. split; [done|]. simpl.
    rewrite Z.add_0_r in E1. unfold byte_at; simpl. by rewrite E1. }
  apply Forall_cons in Hx as [Hb' Hx]. assert (0 <= b / 16 < 16) by (unfold is_byte in Hb'; split; zlia).
  destruct x as [|c x].
  { destruct (ungroups a b 0 Ha Hb' H0) as (E1 & E2 & _). change (Z.of_nat (length [a; b]) `min` 3) with 2.
    rewrite run_bind, (values_step _ _ _ _ _ (a / 4)), (values_step _ _ _ _ _ (a mod 4 * 16 + b / 16)),
      (values_step _ _ _ _ _ (b mod 16 * 4)), values_pad
      by (first [apply Hq; reflexivity | zlia]). cbv beta iota zeta.
    rewrite run_bind, stores_run by (simpl; lia). eexists. split; [reflexivity|]. split; [done|]. simpl.
    rewrite Z.add_0_r in E2. unfold byte_at; simpl. by rewrite E1, E2. }
  apply Forall_cons in Hx as [Hc Hx]. assert (0 <= c / 64 < 4) by (unfold is_byte in Hc; split; zlia).
  destruct (ungroups a b c Ha Hb' Hc) as (E1 & E2 & E3).
  replace (Z.of_nat (length (a :: b :: c :: x)) `min` 3) with 3 by (simpl; lia).
  rewrite run_bind, (values_step _ _ _ _ _ (a / 4)), (values_step _ _ _ _ _ (a mod 4 * 16 + b / 16)),
      (values_step _ _ _ _ _ (b mod 16 * 4 + c / 64)), (values_step _ _ _ _ _ (c mod 64))
      by (first [apply Hq; reflexivity | zlia]). cbv beta iota zeta.
  cbn [b64_values]. rewrite run_ret. cbv beta iota zeta.
  rewrite run_bind, stores_run by (simpl; lia). eexists. split; [reflexivity|]. split; [done|].
  unfold byte_at; simpl. by rewrite E1, E2, E3, take_nil.
Qed.

Lemma decode_loop_run fuel pre x post i done_ tl :
  bytes x -> (length x <= fuel)%nat -> i = length pre -> (3 * length (enc64 x) <= 4 * length tl)%nat ->
  Z.of_nat (length pre + length (enc64 x)) < 2 ^ 31 -> Z.of_nat (length done_ + length x) < 2 ^ 31 ->
  exists buf, decode_loop fuel (pre ++ enc64 x ++ post) (Z.of_nat (length pre + length (enc64 x))) i (length done_) (done_ ++ tl)
    = Ok ((length pre + length (enc64 x))%nat, (length done_ + length x)%nat) buf
    /\ take (length done_ + length x) buf = done_ ++ x /\ length buf = length (done_ ++ tl).
Proof.
  revert pre x i done_ tl. induction fuel as [|fuel IH]; intros pre x i done_ tl Hx Hf -> Hl Hi1 Hi2.
  { destruct x; [|simpl in Hf; lia]. exists (done_ ++ tl). simpl. by rewrite !Nat.add_0_r, take_app_length, app_nil_r. }
  cbn [decode_loop]. destruct (decide (x = [])) as [->|Hne].
  { exists (done_ ++ tl). rewrite (proj2 (Z.ltb_ge _ _)) by (simpl; lia).
    simpl. by rewrite !Nat.add_0_r, take_app_length, app_nil_r. }
  destruct (enc64_chunk x Hne) as [Ec Hc].
  assert (length (enc64 x) = 4 + length (enc64 (drop 3 x)))%nat as Hlen by (rewrite Ec at 1; rewrite length_app, Hc; done).
  assert (0 < length x)%nat by (destruct x; [done|simpl; lia]).
  rewrite (proj2 (Z.ltb_lt _ _)) by lia.
  destruct (b64_decode_run pre x post (length done_) (done_ ++ tl) Hx Hne) as (y & Ed & Hy & Hyx);
    [rewrite length_app; lia|].
  rewrite run_bind, Ed, (proj2 (Z.ltb_ge _ 1)) by lia.
  rewrite run_bind, nat_add_run by lia. rewrite run_bind, nat_add_run by lia.
  rewrite take_app_length, drop_app_ge by lia. replace (length done_ + 3 - length done_)%nat with 3%nat by lia.
  destruct (Nat.le_gt_cases (length x) 3) as [H3|H3].
  - rewrite (drop_ge x 3) in Hlen by lia. cbn [length enc64] in Hlen.
    exists (done_ ++ y ++ drop 3 tl). rewrite take_app_add, take_app_le, Hyx, (take_ge x) by lia. split; [|split; [done|]].
    + replace (length done_ + Z.to_nat (Z.of_nat (length x) `min` 3))%nat with (length done_ + length x)%nat by lia.
      rewrite Hlen. destruct fuel; cbn [decode_loop]; [done|]. by rewrite (proj2 (Z.ltb_ge _ _)) by lia.
    + rewrite !length_app, length_drop. lia.
  - replace (Z.to_nat (Z.of_nat (length x) `min` 3)) with 3%nat by lia.
    rewrite (take_ge y) in Hyx by lia. subst y.
    destruct (IH (pre ++ take 4 (enc64 x)) (drop 3 x) (length pre + 4)%nat (done_ ++ take 3 x) (drop 3 tl)) as (buf & E & Et & El);
      [by apply Forall_drop|rewrite length_drop; lia|rewrite length_app, Hc; lia|rewrite length_drop; lia
      |rewrite length_app, Hc; lia|rewrite length_app, length_take, length_drop; lia|].
    exists buf. rewrite !length_app, Hc in E. rewrite length_app in Et. rewrite !length_app in El.
    rewrite length_take, Nat.min_l, length_drop in * by lia.
    replace (length done_ + 3 + (length x - 3))%nat with (length done_ + length x)%nat in * by lia.
    rewrite <- !app_assoc, take_drop in Et. split; [|split; [done|rewrite length_app; lia]].
    rewrite <- !app_assoc in E. rewrite (app_assoc (take 4 (enc64 x))), <- Ec in E.
    replace (length pre + 4 + length (enc64 (drop 3 x)))%nat with (length pre + length (enc64 x))%nat in E by lia.
    exact E.
Qed.

Lemma enc64_length x : length (enc64 x) = (4 * ((length x + 2) / 3))%nat.
Proof.
  induction x as [|a|a b|a b c x IH] using list_ind3; [done..|].
  cbn [enc64 app length]. rewrite IH.
  replace (S (S (S (length x))) + 2)%nat with (length x + 2 + 1 * 3)%nat by lia. rewrite Nat.div_add by lia. lia.
Qed.

Lemma encode_run bin buf :
  bytes bin -> (length (enc64 bin) < length buf)%nat -> Z.of_nat (length (enc64 bin)) < 2 ^ 31 ->
  r_base64_encode bin (Z.of_nat (length bin)) buf
  = Ok (Z.of_nat (length (enc64 bin))) (enc64 bin ++ 0 :: drop (S (length (enc64 bin))) buf).
Proof.
  intros Hb Hl Hi. assert (Z.of_nat (length bin) + 2 < 2 ^ 31).
  { rewrite enc64_length in Hi. pose proof (Nat.div_mod (length bin + 2) 3). pose proof (Nat.mod_upper_bound (length bin + 2) 3). lia. }
  unfold r_base64_encode. rewrite (proj2 (Z.ltb_ge _ 0)) by lia. rewrite run_bind, run_ret.
  pose proof (encode_loop_run (Z.to_nat (Z.of_nat (length bin))) [] bin 0 [] buf Hb) as E. cbn [app length] in E.
  rewrite run_bind, E by (done || lia). clear E. cbn [Nat.add].
  rewrite run_bind, store_run by (rewrite length_app, length_drop; simpl; lia). rewrite run_ret. f_equal.
  simpl. replace (length (enc64 bin)) with (length (enc64 bin) + 0)%nat at 1 by lia.
  rewrite insert_app_r. f_equal. destruct (drop (length (enc64 bin)) buf) as [|y l] eqn:E.
  - apply (f_equal length) in E. rewrite length_drop in E. cbn [length] in E. lia.
  - cbn. f_equal. rewrite <- Nat.add_1_r, <- drop_drop, E. done.
Qed.

(** C35: decoding what [r_base64_encode] wrote gives the data back, followed by a
    zero byte, for all data that is not empty and whose text is shorter than [2^31]
    characters, and any destinations with room for whole groups and the zero. *)
Theorem r_base64_roundtrip bin buf dst :
  bytes bin -> bin <> [] -> 4 * ((Z.of_nat (length bin) + 2) / 3) < 2 ^ 31 ->
  (4 * ((length bin + 2) / 3) < length buf)%nat -> (3 * ((length bin + 2) / 3) < length dst)%nat ->
  exists len buf' dst',
    r_base64_encode bin (Z.of_nat (length bin)) buf = Ok len buf'
    /\ len = 4 * ((Z.of_nat (length bin) + 2) / 3)
    /\ r_base64_decode buf' len dst = Ok (Z.of_nat (length bin)) dst'
    /\ take (length bin) dst' = bin /\ dst' !! length bin = Some 0 /\ length dst' = length dst.
Proof.
  intros Hb Hne Hi H1 H2. pose proof (enc64_length bin) as Hl. rewrite <- Hl in H1.
  assert (Z.of_nat (length (enc64 bin)) < 2 ^ 31) as Hi'.
  { rewrite Hl, Nat2Z.inj_mul, Nat2Z.inj_div, Nat2Z.inj_add. exact Hi. }
  do 2 eexists. exists (<[length bin := 0]> (match decode_loop (length (enc64 bin)) (enc64 bin ++ 0 :: drop (S (length (enc64 bin))) buf)
    (Z.of_nat (length (enc64 bin))) 0 0 dst with Ok _ b => b | Undef _ => [] end)).
  split; [by apply encode_run|].
  assert (length bin <= length (enc64 bin))%nat as Hle.
  { rewrite Hl. pose proof (Nat.div_mod (length bin + 2) 3). pose proof (Nat.mod_upper_bound (length bin + 2) 3). lia. }
  assert (length bin <= 3 * ((length bin + 2) / 3))%nat as Hle3.
  { pose proof (Nat.div_mod (length bin + 2) 3). pose proof (Nat.mod_upper_bound (length bin + 2) 3). lia. }
  split; [rewrite Hl, Nat2Z.inj_mul, Nat2Z.inj_div, Nat2Z.inj_add; done|].
  destruct (decode_loop_run (length (enc64 bin)) [] bin (0 :: drop (S (length (enc64 bin))) buf) 0 [] dst)
    as (b & E & Et & El); [done|done|done|lia|done|cbn [length]; lia|].
  cbn [length app Nat.add] in E, Et, El. rewrite E. split; [|split_and!].
  - unfold r_base64_decode. rewrite (proj2 (Z.ltb_ge _ 0)) by lia. rewrite run_bind, run_ret, Nat2Z.id.
    rewrite run_bind, E. cbv beta iota. rewrite run_bind, store_run by lia. rewrite run_ret. f_equal.
    rewrite (proj2 (Nat.eqb_neq _ _)); [done|]. destruct bin as [|a [|b' [|c x]]]; [done|simpl; lia..|].
    rewrite Hl. pose proof (Nat.div_mod (length (a :: b' :: c :: x) + 2) 3).
    pose proof (Nat.mod_upper_bound (length (a :: b' :: c :: x) + 2) 3). simpl length in *. lia.
  - by rewrite take_insert_ge by lia.
  - apply list_lookup_insert_eq. lia.
  - by rewrite length_insert.
Qed.

(** *** Texts outside the code *)

Lemma values_ok n i bin pos v buf :
  match b64_values n i bin pos v buf with Ok _ buf' => buf' = buf | Undef u => u = UB_oob end.
Proof.
  revert i v. induction n as [|n IH]; intros i v; [done|]. cbn [b64_values]. rewrite run_bind.
  unfold load at 1. destruct (bin !! (pos + i)%nat) as [c|]; [|done]. rewrite run_lift.
  destruct (_ || _); [done|]. rewrite run_bind. unfold load. destruct (cd64 !! _) as [x|]; [|done].
  rewrite run_lift. destruct (x =? _); [done|]. apply IH.
Qed.

Lemma decode_outside bin pos out buf :
  (length buf <= out)%nat ->
  b64_decode bin pos out buf = Undef UB_oob \/ b64_decode bin pos out buf = Ok (-1) buf.
Proof.
  intros Hb. unfold b64_decode. rewrite run_bind. pose proof (values_ok 4 0 bin pos [0; 0; 0; 0] buf) as H.
  destruct (b64_values _ _ _ _ _ _) as [[[len v]|] buf'|u]; subst; [left|by right|by left].
  cbv beta iota zeta. rewrite run_bind. cbn [stores]. rewrite run_bind. by rewrite store_oob.
Qed.

Lemma decode_loop_outside fuel bin len i out buf :
  (length buf <= out)%nat ->
  decode_loop fuel bin len i out buf = Undef UB_oob \/ exists i', decode_loop fuel bin len i out buf = Ok (i', out) buf.
Proof.
  intros Hb. destruct fuel as [|fuel]; cbn [decode_loop]; [right; by eexists|].
  destruct (_ <? _); [|right; by eexists]. rewrite run_bind.
  destruct (decode_outside bin i out buf Hb) as [-> | ->]; [by left|right; by eexists].
Qed.

(** A text whose first character is not of the code, such as padding alone,
    makes [b64_decode] answer 255 bytes for a group: [r_base64_decode_dyn] then
    writes out of the buffer that it allocated for the text. *)
Theorem r_base64_decode_dyn_overflow c text buf :
  43 <= c <= 122 -> cd64 !! Z.to_nat (c - 43) = Some (code "$") -> (1 <= length text <= 254)%nat ->
  r_base64_decode_dyn (c :: text) (Z.of_nat (length (c :: text))) buf = Undef UB_oob.
Proof.
  intros Hc Ed Hl. unfold r_base64_decode_dyn. rewrite (proj2 (Z.ltb_ge _ 0)) by lia. mrun.
  unfold r_base64_decode. rewrite (proj2 (Z.ltb_ge _ 0)) by lia. mrun. rewrite !Nat2Z.id.
  cbn [length decode_loop]. rewrite (proj2 (Z.ltb_lt _ _)) by lia.
  set (b := repeat 0 (S (length text))). assert (length b = S (length text)) as Hb by apply repeat_length.
  assert (b64_decode (c :: text) 0 0 b = Undef UB_oob
          \/ exists b', b64_decode (c :: text) 0 0 b = Ok 255 b' /\ length b' = length b) as Hd.
  { unfold b64_decode. cbn [b64_values Nat.add]. rewrite !run_bind, (load_run _ _ c) by done.
    rewrite (proj2 (Z.ltb_ge c 43)), (proj2 (Z.ltb_ge 122 c)) by lia. cbn [orb].
    rewrite run_bind, (load_run _ _ _ _ Ed), Z.eqb_refl, run_ret. cbv beta iota zeta. rewrite run_bind.
    destruct (decide (3 <= length b)%nat).
    - right. rewrite stores_run by done. eexists. split; [reflexivity|].
      rewrite !length_app, length_take, length_drop. cbn [length]. lia.
    - left. cbn [stores]. rewrite run_bind, store_run by lia.
      rewrite run_bind, store_run by (rewrite length_insert; lia). rewrite run_bind, store_oob; [done|].
      rewrite !length_insert. lia. }
  rewrite !run_bind. destruct Hd as [-> | (b' & -> & Hb')]; [done|].
  change (255 <? 1) with false. cbv iota. rewrite run_bind, nat_add_run, run_bind, nat_add_run by done.
  destruct (decode_loop_outside (length text) (c :: text) (Z.of_nat (S (length text))) (0 + 4) (0 + Z.to_nat 255) b')
    as [-> | [i' ->]]; [rewrite Hb', Hb; change (0 + Z.to_nat 255)%nat with 255%nat; lia|done|].
  cbv beta iota. rewrite run_bind, store_oob; [done|]. rewrite Hb', Hb. change (0 + Z.to_nat 255)%nat with 255%nat. lia.
Qed.

(** ** Instances *)

Lemma r_base64_roundtrip_witness :
  exists len buf' dst',
    r_base64_encode [114; 50; 255; 0] 4 (repeat 7 16) = Ok len buf' /\ len = 4 * ((4 + 2) / 3)
    /\ r_base64_decode buf' len (repeat 7 16) = Ok 4 dst'
    /\ take 4 dst' = [114; 50; 255; 0] /\ dst' !! 4%nat = Some 0 /\ length dst' = 16%nat.
Proof.
  apply (r_base64_roundtrip [114; 50; 255; 0] (repeat 7 16) (repeat 7 16)); [|done|reflexivity|simpl; lia|simpl; lia].
  repeat constructor; lia.
Defined.

Lemma r_base64_decode_dyn_overflow_witness :
  r_base64_decode_dyn (chars "====") 4 [] = Undef UB_oob.
Proof. apply (r_base64_decode_dyn_overflow 61 (chars "===") []); [lia|reflexivity|simpl; lia]. Defined.
