(* ===== verification/Utf8.v ===== *)
(** * UTF-8

    [libr/util/utf8.c]: encoding and decoding of runes ([int]), and which of
    them are printable. *)

From S2P Require Import Prelude Buf.

(** The bytes from the pointer on and how many there are: the number of bytes
    read, 0 when there is no rune, and the rune. *)
Definition r_utf8_decode (ptr : list Z) (ptrlen : Z) : Z * option Z :=
  let p := byte_at ptr in
  let cont i := Z.land (p i) 0xc0 =? 0x80 in
  if ptrlen <? 1 then (0, None)
  else if (0 <? ptrlen) && (p 0%nat <? 0x80) then (1, Some (p 0%nat))
  else if (1 <? ptrlen) && (Z.land (p 0%nat) 0xe0 =? 0xc0) && cont 1%nat
  then (2, Some (Z.lor (Z.shiftl (Z.land (p 0%nat) 0x1f) 6) (Z.land (p 1%nat) 0x3f)))
  else if (2 <? ptrlen) && (Z.land (p 0%nat) 0xf0 =? 0xe0) && cont 1%nat && cont 2%nat
  then (3, Some (Z.lor (Z.lor (Z.shiftl (Z.land (p 0%nat) 0xf) 12) (Z.shiftl (Z.land (p 1%nat) 0x3f) 6))
                       (Z.land (p 2%nat) 0x3f)))
  else if (3 <? ptrlen) && (Z.land (p 0%nat) 0xf8 =? 0xf0) && cont 1%nat && cont 2%nat && cont 3%nat
  then (4, Some (Z.lor (Z.lor (Z.lor (Z.shiftl (Z.land (p 0%nat) 0xf) 18) (Z.shiftl (Z.land (p 1%nat) 0x3f) 12))
                              (Z.shiftl (Z.land (p 2%nat) 0x3f) 6))
                       (Z.land (p 3%nat) 0x3f)))
  else (0, None).

(** The bytes that are written; the result is their number. *)
Definition utf8_bytes (ch : Z) : list Z :=
  if ch <? 0x80 then [u8 ch]
  else if ch <? 0x800 then [u8 (Z.lor 0xc0 (Z.shiftr ch 6)); Z.lor 0x80 (Z.land ch 0x3f)]
  else if ch <? 0x10000
  then [u8 (Z.lor 0xe0 (Z.shiftr ch 12)); Z.lor 0x80 (Z.land (Z.shiftr ch 6) 0x3f); Z.lor 0x80 (Z.land ch 0x3f)]
  else if ch <? 0x200000
  then [u8 (Z.lor 0xf0 (Z.shiftr ch 18)); Z.lor 0x80 (Z.land (Z.shiftr ch 12) 0x3f);
        Z.lor 0x80 (Z.land (Z.shiftr ch 6) 0x3f); Z.lor 0x80 (Z.land ch 0x3f)]
  else [].
Definition r_utf8_encode (pos : nat) (ch : Z) : M (list Z) nat :=
  stores pos (utf8_bytes ch) ;; mret (length (utf8_bytes ch)).

(** The string ends at a zero rune; the bound of the destination is checked
    before a rune, not after it. *)
Fixpoint encode_str_loop (str : list Z) (dst_length : Z) (pos : nat) : M (list Z) nat :=
  match str with
  | [] => undef UB_oob
  | ch :: str =>
      if negb (ch =? 0) && (Z.of_nat pos <? dst_length - 1) then
        n ← r_utf8_encode pos ch; encode_str_loop str dst_length (pos + n)
      else mret pos
  end.
Definition r_utf8_encode_str (str : list Z) (dst_length : Z) : M (list Z) nat :=
  pos ← encode_str_loop str dst_length 0;
  store pos 0 ;;
  mret (S pos).

Definition utf8_size : list Z := repeat 0 64 ++ repeat 2 32 ++ repeat 3 16 ++ repeat 4 16.
Definition r_utf8_size (ptr : list Z) : Z :=
  let p := byte_at ptr 0 in
  if z2b (Z.land p 0x80) then byte_at utf8_size (Z.to_nat (Z.lxor p 0x80)) else 1.

Fixpoint r_utf8_strlen (str : list Z) : M unit Z :=
  match str with
  | [] => undef UB_oob
  | c :: str =>
      if c =? 0 then mret 0
      else n ← r_utf8_strlen str; mret (if negb (Z.land c 0xc0 =? 0x80) then n + 1 else n)
  end.

(** ** Printable runes *)

Definition nonprintable_ranges : list (Z * Z) :=
  [(0x0000, 0x001F); (0x007F, 0x009F); (0x034F, 0x034F);
   (0x0378, 0x0379); (0x037F, 0x0383); (0x038B, 0x038B);
   (0x038D, 0x038D); (0x03A2, 0x03A2); (0x0528, 0x0530);
   (0x0557, 0x0558); (0x0560, 0x0560); (0x0588, 0x0588);
   (0x058B, 0x058E); (0x0590, 0x0590); (0x05C8, 0x05CF);
   (0x05EB, 0x05EF); (0x05F5, 0x0605); (0x061C, 0x061D);
   (0x06DD, 0x06DD); (0x070E, 0x070F); (0x074B, 0x074C);
   (0x07B2, 0x07BF); (0x07FB, 0x07FF); (0x082E, 0x082F);
   (0x083F, 0x083F); (0x085C, 0x085D); (0x085F, 0x089F);
   (0x08A1, 0x08A1); (0x08AD, 0x08E3); (0x08FF, 0x08FF);
   (0x0978, 0x0978); (0x0980, 0x0980); (0x0984, 0x0984);
   (0x098D, 0x098E); (0x0991, 0x0992); (0x09A9, 0x09A9);
   (0x09B1, 0x09B1); (0x09B3, 0x09B5); (0x09BA, 0x09BB);
   (0x09C5, 0x09C6); (0x09C9, 0x09CA); (0x09CF, 0x09D6);
   (0x09D8, 0x09DB); (0x09DE, 0x09DE); (0x09E4, 0x09E5);
   (0x09FC, 0x0A00); (0x0A04, 0x0A04); (0x0A0B, 0x0A0E);
   (0x0A11, 0x0A12); (0x0A29, 0x0A29); (0x0A31, 0x0A31);
   (0x0A34, 0x0A34); (0x0A37, 0x0A37); (0x0A3A, 0x0A3B);
   (0x0A3D, 0x0A3D); (0x0A43, 0x0A46); (0x0A49, 0x0A4A);
   (0x0A4E, 0x0A50); (0x0A52, 0x0A58); (0x0A5D, 0x0A5D);
   (0x0A5F, 0x0A65); (0x0A76, 0x0A80); (0x0A84, 0x0A84);
   (0x0A8E, 0x0A8E); (0x0A92, 0x0A92); (0x0AA9, 0x0AA9);
   (0x0AB1, 0x0AB1); (0x0AB4, 0x0AB4); (0x0ABA, 0x0ABB);
   (0x0AC6, 0x0AC6); (0x0ACA, 0x0ACA); (0x0ACE, 0x0ACF);
   (0x0AD1, 0x0ADF); (0x0AE4, 0x0AE5); (0x0AF2, 0x0B00);
   (0x0B04, 0x0B04); (0x0B0D, 0x0B0E); (0x0B11, 0x0B12);
   (0x0B29, 0x0B29); (0x0B31, 0x0B31); (0x0B34, 0x0B34);
   (0x0B3A, 0x0B3B); (0x0B45, 0x0B46); (0x0B49, 0x0B4A);
   (0x0B4E, 0x0B55); (0x0B58, 0x0B5B); (0x0B5E, 0x0B5E);
   (0x0B64, 0x0B65); (0x0B78, 0x0B81); (0x0B84, 0x0B84);
   (0x0B8B, 0x0B8D); (0x0B91, 0x0B91); (0x0B96, 0x0B98);
   (0x0B9B, 0x0B9B); (0x0B9D, 0x0B9D); (0x0BA0, 0x0BA2);
   (0x0BA5, 0x0BA7); (0x0BAB, 0x0BAD); (0x0BBA, 0x0BBD);
   (0x0BC3, 0x0BC5); (0x0BC9, 0x0BC9); (0x0BCE, 0x0BCF);
   (0x0BD1, 0x0BD6); (0x0BD8, 0x0BE5); (0x0BFB, 0x0C00);
   (0x0C04, 0x0C04); (0x0C0D, 0x0C0D); (0x0C11, 0x0C11);
   (0x0C29, 0x0C29); (0x0C34, 0x0C34); (0x0C3A, 0x0C3C);
   (0x0C45, 0x0C45); (0x0C49, 0x0C49); (0x0C4E, 0x0C54);
   (0x0C57, 0x0C57); (0x0C5A, 0x0C5F); (0x0C64, 0x0C65);
   (0x0C70, 0x0C77); (0x0C80, 0x0C81); (0x0C84, 0x0C84);
   (0x0C8D, 0x0C8D); (0x0C91, 0x0C91); (0x0CA9, 0x0CA9);
   (0x0CB4, 0x0CB4); (0x0CBA, 0x0CBB); (0x0CC5, 0x0CC5);
   (0x0CC9, 0x0CC9); (0x0CCE, 0x0CD4); (0x0CD7, 0x0CDD);
   (0x0CDF, 0x0CDF); (0x0CE4, 0x0CE5); (0x0CF0, 0x0CF0);
   (0x0CF3, 0x0D01); (0x0D04, 0x0D04); (0x0D0D, 0x0D0D);
   (0x0D11, 0x0D11); (0x0D3B, 0x0D3C); (0x0D45, 0x0D45);
   (0x0D49, 0x0D49); (0x0D4F, 0x0D56); (0x0D58, 0x0D5F);
   (0x0D64, 0x0D65); (0x0D76, 0x0D78); (0x0D80, 0x0D81);
   (0x0D84, 0x0D84); (0x0D97, 0x0D99); (0x0DB2, 0x0DB2);
   (0x0DBC, 0x0DBC); (0x0DBE, 0x0DBF); (0x0DC7, 0x0DC9);
   (0x0DCB, 0x0DCE); (0x0DD5, 0x0DD5); (0x0DD7, 0x0DD7);
   (0x0DE0, 0x0DF1); (0x0DF5, 0x0E00); (0x0E3B, 0x0E3E);
   (0x0E5C, 0x0E80); (0x0E83, 0x0E83); (0x0E85, 0x0E86);
   (0x0E89, 0x0E89); (0x0E8B, 0x0E8C); (0x0E8E, 0x0E93);
   (0x0E98, 0x0E98); (0x0EA0, 0x0EA0); (0x0EA4, 0x0EA4);
   (0x0EA6, 0x0EA6); (0x0EA8, 0x0EA9); (0x0EAC, 0x0EAC);
   (0x0EBA, 0x0EBA); (0x0EBE, 0x0EBF); (0x0EC5, 0x0EC5);
   (0x0EC7, 0x0EC7); (0x0ECE, 0x0ECF); (0x0EDA, 0x0EDB);
   (0x0EE0, 0x0EFF); (0x0F48, 0x0F48); (0x0F6D, 0x0F70);
   (0x0F98, 0x0F98); (0x0FBD, 0x0FBD); (0x0FCD, 0x0FCD);
   (0x0FDB, 0x0FFF); (0x10C6, 0x10C6); (0x10C8, 0x10CC);
   (0x10CE, 0x10CF); (0x115F, 0x1160); (0x1249, 0x1249);
   (0x124E, 0x124F); (0x1257, 0x1257); (0x1259, 0x1259);
   (0x125E, 0x125F); (0x1289, 0x1289); (0x128E, 0x128F);
   (0x12B1, 0x12B1); (0x12B6, 0x12B7); (0x12BF, 0x12BF);
   (0x12C1, 0x12C1); (0x12C6, 0x12C7); (0x12D7, 0x12D7);
   (0x1311, 0x1311); (0x1316, 0x1317); (0x135B, 0x135C);
   (0x137D, 0x137F); (0x139A, 0x139F); (0x13F5, 0x13FF);
   (0x169D, 0x169F); (0x16F1, 0x16FF); (0x170D, 0x170D);
   (0x1715, 0x171F); (0x1737, 0x173F); (0x1754, 0x175F);
   (0x176D, 0x176D); (0x1771, 0x1771); (0x1774, 0x177F);
   (0x17B4, 0x17B5); (0x17DE, 0x17DF); (0x17EA, 0x17EF);
   (0x17FA, 0x17FF); (0x180B, 0x180D); (0x180F, 0x180F);
   (0x181A, 0x181F); (0x1878, 0x187F); (0x18AB, 0x18AF);
   (0x18F6, 0x18FF); (0x191D, 0x191F); (0x192C, 0x192F);
   (0x193C, 0x193F); (0x1941, 0x1943); (0x196E, 0x196F);
   (0x1975, 0x197F); (0x19AC, 0x19AF); (0x19CA, 0x19CF);
   (0x19DB, 0x19DD); (0x1A1C, 0x1A1D); (0x1A5F, 0x1A5F);
   (0x1A7D, 0x1A7E); (0x1A8A, 0x1A8F); (0x1A9A, 0x1A9F);
   (0x1AAE, 0x1AFF); (0x1B4C, 0x1B4F); (0x1B7D, 0x1B7F);
   (0x1BF4, 0x1BFB); (0x1C38, 0x1C3A); (0x1C4A, 0x1C4C);
   (0x1C80, 0x1CBF); (0x1CC8, 0x1CCF); (0x1CF7, 0x1CFF);
   (0x1DE7, 0x1DFB); (0x1F16, 0x1F17); (0x1F1E, 0x1F1F);
   (0x1F46, 0x1F47); (0x1F4E, 0x1F4F); (0x1F58, 0x1F58);
   (0x1F5A, 0x1F5A); (0x1F5C, 0x1F5C); (0x1F5E, 0x1F5E);
   (0x1F7E, 0x1F7F); (0x1FB5, 0x1FB5); (0x1FC5, 0x1FC5);
   (0x1FD4, 0x1FD5); (0x1FDC, 0x1FDC); (0x1FF0, 0x1FF1);
   (0x1FF5, 0x1FF5); (0x1FFF, 0x1FFF); (0x200B, 0x200F);
   (0x202A, 0x202E); (0x2060, 0x206F); (0x2072, 0x2073);
   (0x208F, 0x208F); (0x209D, 0x209F); (0x20BB, 0x20CF);
   (0x20F1, 0x20FF); (0x218A, 0x218F); (0x23F4, 0x23FF);
   (0x2427, 0x243F); (0x244B, 0x245F); (0x2700, 0x2700);
   (0x2B4D, 0x2B4F); (0x2B5A, 0x2BFF); (0x2C2F, 0x2C2F);
   (0x2C5F, 0x2C5F); (0x2CF4, 0x2CF8); (0x2D26, 0x2D26);
   (0x2D28, 0x2D2C); (0x2D2E, 0x2D2F); (0x2D68, 0x2D6E);
   (0x2D71, 0x2D7E); (0x2D97, 0x2D9F); (0x2DA7, 0x2DA7);
   (0x2DAF, 0x2DAF); (0x2DB7, 0x2DB7); (0x2DBF, 0x2DBF);
   (0x2DC7, 0x2DC7); (0x2DCF, 0x2DCF); (0x2DD7, 0x2DD7);
   (0x2DDF, 0x2DDF); (0x2E3C, 0x2E7F); (0x2E9A, 0x2E9A);
   (0x2EF4, 0x2EFF); (0x2FD6, 0x2FEF); (0x2FFC, 0x2FFF);
   (0x3040, 0x3040); (0x3097, 0x3098); (0x3100, 0x3104);
   (0x312E, 0x3130); (0x3164, 0x3164); (0x318F, 0x318F);
   (0x31BB, 0x31BF); (0x31E4, 0x31EF); (0x321F, 0x321F);
   (0x32FF, 0x32FF); (0x4DB6, 0x4DBF); (0x9FCD, 0x9FFF);
   (0xA48D, 0xA48F); (0xA4C7, 0xA4CF); (0xA62C, 0xA63F);
   (0xA698, 0xA69E); (0xA6F8, 0xA6FF); (0xA78F, 0xA78F);
   (0xA794, 0xA79F); (0xA7AB, 0xA7F7); (0xA82C, 0xA82F);
   (0xA83A, 0xA83F); (0xA878, 0xA87F); (0xA8C5, 0xA8CD);
   (0xA8DA, 0xA8DF); (0xA8FC, 0xA8FF); (0xA954, 0xA95E);
   (0xA97D, 0xA97F); (0xA9CE, 0xA9CE); (0xA9DA, 0xA9DD);
   (0xA9E0, 0xA9FF); (0xAA37, 0xAA3F); (0xAA4E, 0xAA4F);
   (0xAA5A, 0xAA5B); (0xAA7C, 0xAA7F); (0xAAC3, 0xAADA);
   (0xAAF7, 0xAB00); (0xAB07, 0xAB08); (0xAB0F, 0xAB10);
   (0xAB17, 0xAB1F); (0xAB27, 0xAB27); (0xAB2F, 0xABBF);
   (0xABEE, 0xABEF); (0xABFA, 0xABFF); (0xD7A4, 0xD7AF);
   (0xD7C7, 0xD7CA); (0xD7FC, 0xDFFF); (0xFA6E, 0xFA6F);
   (0xFADA, 0xFAFF); (0xFB07, 0xFB12); (0xFB18, 0xFB1C);
   (0xFB37, 0xFB37); (0xFB3D, 0xFB3D); (0xFB3F, 0xFB3F);
   (0xFB42, 0xFB42); (0xFB45, 0xFB45); (0xFBC2, 0xFBD2);
   (0xFD40, 0xFD4F); (0xFD90, 0xFD91); (0xFDC8, 0xFDEF);
   (0xFDFE, 0xFE0F); (0xFE1A, 0xFE1F); (0xFE27, 0xFE2F);
   (0xFE53, 0xFE53); (0xFE67, 0xFE67); (0xFE6C, 0xFE6F);
   (0xFE75, 0xFE75); (0xFEFD, 0xFEFF); (0xFF00, 0xFF00);
   (0xFFA0, 0xFFA0); (0xFFBF, 0xFFC1); (0xFFC8, 0xFFC9);
   (0xFFD0, 0xFFD1); (0xFFD8, 0xFFD9); (0xFFDD, 0xFFDF);
   (0xFFE7, 0xFFE7); (0xFFEF, 0xFFFB); (0xFFFE, 0xFFFF);
   (0x1000C, 0x1000C); (0x10027, 0x10027); (0x1003B, 0x1003B);
   (0x1003E, 0x1003E); (0x1004E, 0x1004F); (0x1005E, 0x1007F);
   (0x100FB, 0x100FF); (0x10103, 0x10106); (0x10134, 0x10136);
   (0x1018B, 0x1018F); (0x1019C, 0x101CF); (0x101FE, 0x1027F);
   (0x1029D, 0x1029F); (0x102D1, 0x102FF); (0x1031F, 0x1031F);
   (0x10324, 0x1032F); (0x1034B, 0x1037F); (0x1039E, 0x1039E);
   (0x103C4, 0x103C7); (0x103D6, 0x103FF); (0x1049E, 0x1049F);
   (0x104AA, 0x107FF); (0x10806, 0x10807); (0x10809, 0x10809);
   (0x10836, 0x10836); (0x10839, 0x1083B); (0x1083D, 0x1083E);
   (0x10856, 0x10856); (0x10860, 0x108FF); (0x1091C, 0x1091E);
   (0x1093A, 0x1093E); (0x10940, 0x1097F); (0x109B8, 0x109BD);
   (0x109C0, 0x109FF); (0x10A04, 0x10A04); (0x10A07, 0x10A0B);
   (0x10A14, 0x10A14); (0x10A18, 0x10A18); (0x10A34, 0x10A37);
   (0x10A3B, 0x10A3E); (0x10A48, 0x10A4F); (0x10A59, 0x10A5F);
   (0x10A80, 0x10AFF); (0x10B36, 0x10B38); (0x10B56, 0x10B57);
   (0x10B73, 0x10B77); (0x10B80, 0x10BFF); (0x10C49, 0x10E5F);
   (0x10E7F, 0x10FFF); (0x1104E, 0x11051); (0x11070, 0x1107F);
   (0x110BD, 0x110BD); (0x110C2, 0x110CF); (0x110E9, 0x110EF);
   (0x110FA, 0x110FF); (0x11135, 0x11135); (0x11144, 0x1117F);
   (0x111C9, 0x111CF); (0x111DA, 0x1167F); (0x116B8, 0x116BF);
   (0x116CA, 0x11FFF); (0x1236F, 0x123FF); (0x12463, 0x1246F);
   (0x12474, 0x12FFF); (0x1342F, 0x167FF); (0x16A39, 0x16EFF);
   (0x16F45, 0x16F4F); (0x16F7F, 0x16F8E); (0x16FA0, 0x1AFFF);
   (0x1B002, 0x1CFFF); (0x1D0F6, 0x1D0FF); (0x1D127, 0x1D128);
   (0x1D173, 0x1D17A); (0x1D1DE, 0x1D1FF); (0x1D246, 0x1D2FF);
   (0x1D357, 0x1D35F); (0x1D372, 0x1D3FF); (0x1D455, 0x1D455);
   (0x1D49D, 0x1D49D); (0x1D4A0, 0x1D4A1); (0x1D4A3, 0x1D4A4);
   (0x1D4A7, 0x1D4A8); (0x1D4AD, 0x1D4AD); (0x1D4BA, 0x1D4BA);
   (0x1D4BC, 0x1D4BC); (0x1D4C4, 0x1D4C4); (0x1D506, 0x1D506);
   (0x1D50B, 0x1D50C); (0x1D515, 0x1D515); (0x1D51D, 0x1D51D);
   (0x1D53A, 0x1D53A); (0x1D53F, 0x1D53F); (0x1D545, 0x1D545);
   (0x1D547, 0x1D549); (0x1D551, 0x1D551); (0x1D6A6, 0x1D6A7);
   (0x1D7CC, 0x1D7CD); (0x1D800, 0x1EDFF); (0x1EE04, 0x1EE04);
   (0x1EE20, 0x1EE20); (0x1EE23, 0x1EE23); (0x1EE25, 0x1EE26);
   (0x1EE28, 0x1EE28); (0x1EE33, 0x1EE33); (0x1EE38, 0x1EE38);
   (0x1EE3A, 0x1EE3A); (0x1EE3C, 0x1EE41); (0x1EE43, 0x1EE46);
   (0x1EE48, 0x1EE48); (0x1EE4A, 0x1EE4A); (0x1EE4C, 0x1EE4C);
   (0x1EE50, 0x1EE50); (0x1EE53, 0x1EE53); (0x1EE55, 0x1EE56);
   (0x1EE58, 0x1EE58); (0x1EE5A, 0x1EE5A); (0x1EE5C, 0x1EE5C);
   (0x1EE5E, 0x1EE5E); (0x1EE60, 0x1EE60); (0x1EE63, 0x1EE63);
   (0x1EE65, 0x1EE66); (0x1EE6B, 0x1EE6B); (0x1EE73, 0x1EE73);
   (0x1EE78, 0x1EE78); (0x1EE7D, 0x1EE7D); (0x1EE7F, 0x1EE7F);
   (0x1EE8A, 0x1EE8A); (0x1EE9C, 0x1EEA0); (0x1EEA4, 0x1EEA4);
   (0x1EEAA, 0x1EEAA); (0x1EEBC, 0x1EEEF); (0x1EEF2, 0x1EFFF);
   (0x1F02C, 0x1F02F); (0x1F094, 0x1F09F); (0x1F0AF, 0x1F0B0);
   (0x1F0BF, 0x1F0C0); (0x1F0D0, 0x1F0D0); (0x1F0E0, 0x1F0FF);
   (0x1F10B, 0x1F10F); (0x1F12F, 0x1F12F); (0x1F16C, 0x1F16F);
   (0x1F19B, 0x1F1E5); (0x1F203, 0x1F20F); (0x1F23B, 0x1F23F);
   (0x1F249, 0x1F24F); (0x1F252, 0x1F2FF); (0x1F321, 0x1F32F);
   (0x1F336, 0x1F336); (0x1F37D, 0x1F37F); (0x1F394, 0x1F39F);
   (0x1F3C5, 0x1F3C5); (0x1F3CB, 0x1F3DF); (0x1F3F1, 0x1F3FF);
   (0x1F43F, 0x1F43F); (0x1F441, 0x1F441); (0x1F4F8, 0x1F4F8);
   (0x1F4FD, 0x1F4FF); (0x1F53E, 0x1F53F); (0x1F544, 0x1F54F);
   (0x1F568, 0x1F5FA); (0x1F641, 0x1F644); (0x1F650, 0x1F67F);
   (0x1F6C6, 0x1F6FF); (0x1F774, 0x1FFFF); (0x2A6D7, 0x2A6FF);
   (0x2B735, 0x2B73F); (0x2B81E, 0x2F7FF); (0x2FA1E, 0xF0000);
   (0xFFFFE, 0xFFFFF); (0x10FFFE, 0x10FFFF)].

Definition nonprintable_ranges_count : Z := Z.of_nat (length nonprintable_ranges).

(** The binary search: a rune is compared as an unsigned number. *)
Fixpoint isprint_loop (fuel : nat) (c low hi : Z) : option bool :=
  match fuel with
  | O => None
  | S fuel =>
      let last := nonprintable_ranges_count in
      let mid := Z.shiftr (low + hi) 1 in
      let '(from, to) := default (0, 0) (nonprintable_ranges !! Z.to_nat mid) in
      if (from <=? c) && (c <=? to) then Some false
      else
        let low := if (mid <? last) && (to <? c) then mid + 1 else low in
        let hi := if (mid <? last) && (c <? from) then mid - 1 else hi in
        if low <=? hi then isprint_loop fuel c low hi else Some true
  end.

(** Every turn halves the range: ten are enough for the table. *)
Definition r_isprint (c : Z) : option bool :=
  isprint_loop 10 (u32 c) 0 (nonprintable_ranges_count - 1).

(** ** Encoding and decoding *)

(** The bytes of a rune in arithmetic. *)
Definition rune_bytes (ch : Z) : list Z :=
  if ch <? 0x80 then [ch]
  else if ch <? 0x800 then [0xc0 + ch / 2 ^ 6; 0x80 + ch mod 64]
  else if ch <? 0x10000 then [0xe0 + ch / 2 ^ 12; 0x80 + ch / 2 ^ 6 mod 64; 0x80 + ch mod 64]
  else [0xf0 + ch / 2 ^ 18; 0x80 + ch / 2 ^ 12 mod 64; 0x80 + ch / 2 ^ 6 mod 64; 0x80 + ch mod 64].

(** A fact on the bytes below a bound. *)
Lemma below (P : Z -> bool) (n : nat) k :
  forallb (fun i => P (Z.of_nat i)) (seq 0 n) = true -> 0 <= k < Z.of_nat n -> P k = true.
Proof.
  rewrite forallb_forall. intros H Hk. specialize (H (Z.to_nat k)). rewrite in_seq, Z2Nat.id in H by lia.
  apply H. lia.
Qed.

Lemma cont_byte k :
  0 <= k < 64 ->
  Z.lor 0x80 k = 0x80 + k /\ Z.land (0x80 + k) 0xc0 = 0x80 /\ Z.land (0x80 + k) 0x3f = k.
Proof.
  intros Hk. pose proof (below (fun k => (Z.lor 0x80 k =? 0x80 + k) && (Z.land (0x80 + k) 0xc0 =? 0x80)
    && (Z.land (0x80 + k) 0x3f =? k)) 64 k eq_refl Hk) as H.
  rewrite !andb_true_iff, !Z.eqb_eq in H. tauto.
Qed.

Lemma lead2 k : 0 <= k < 32 ->
  u8 (Z.lor 0xc0 k) = 0xc0 + k /\ Z.land (0xc0 + k) 0xe0 = 0xc0 /\ Z.land (0xc0 + k) 0x1f = k.
Proof.
  intros Hk. pose proof (below (fun k => (u8 (Z.lor 0xc0 k) =? 0xc0 + k) && (Z.land (0xc0 + k) 0xe0 =? 0xc0)
    && (Z.land (0xc0 + k) 0x1f =? k)) 32 k eq_refl Hk) as H.
  rewrite !andb_true_iff, !Z.eqb_eq in H. tauto.
Qed.

Lemma lead3 k : 0 <= k < 16 ->
  u8 (Z.lor 0xe0 k) = 0xe0 + k /\ Z.land (0xe0 + k) 0xe0 = 0xe0 /\ Z.land (0xe0 + k) 0xf0 = 0xe0
  /\ Z.land (0xe0 + k) 0xf = k.
Proof.
  intros Hk. pose proof (below (fun k => (u8 (Z.lor 0xe0 k) =? 0xe0 + k) && (Z.land (0xe0 + k) 0xe0 =? 0xe0)
    && (Z.land (0xe0 + k) 0xf0 =? 0xe0) && (Z.land (0xe0 + k) 0xf =? k)) 16 k eq_refl Hk) as H.
  rewrite !andb_true_iff, !Z.eqb_eq in H. tauto.
Qed.

Lemma lead4 k : 0 <= k < 8 ->
  u8 (Z.lor 0xf0 k) = 0xf0 + k /\ Z.land (0xf0 + k) 0xe0 = 0xe0 /\ Z.land (0xf0 + k) 0xf0 = 0xf0
  /\ Z.land (0xf0 + k) 0xf8 = 0xf0 /\ Z.land (0xf0 + k) 0xf = k.
Proof.
  intros Hk. pose proof (below (fun k => (u8 (Z.lor 0xf0 k) =? 0xf0 + k) && (Z.land (0xf0 + k) 0xe0 =? 0xe0)
    && (Z.land (0xf0 + k) 0xf0 =? 0xf0) && (Z.land (0xf0 + k) 0xf8 =? 0xf0) && (Z.land (0xf0 + k) 0xf =? k)) 8 k eq_refl Hk) as H.
  rewrite !andb_true_iff, !Z.eqb_eq in H. tauto.
Qed.

Lemma land_63 x : Z.land x 0x3f = x mod 64.
Proof. change 0x3f with (Z.ones 6). by rewrite Z.land_ones by lia. Qed.

Lemma mod_64 x : 0 <= x mod 64 < 64.
Proof. apply Z.mod_pos_bound. lia. Qed.

Lemma utf8_rune_bytes ch : 0 <= ch < 0x200000 -> utf8_bytes ch = rune_bytes ch.
Proof.
  intros Hch. unfold utf8_bytes, rune_bytes. rewrite !land_63, !Z.shiftr_div_pow2 by lia.
  destruct (cont_byte _ (mod_64 ch)) as [-> _]. destruct (cont_byte _ (mod_64 (ch / 2 ^ 6))) as [-> _].
  destruct (cont_byte _ (mod_64 (ch / 2 ^ 12))) as [-> _].
  destruct (Z.ltb_spec ch 0x80); [by rewrite u8_id by lia|].
  destruct (Z.ltb_spec ch 0x800); [by destruct (lead2 (ch / 2 ^ 6)) as [-> _]; [split; zlia|]|].
  destruct (Z.ltb_spec ch 0x10000); [by destruct (lead3 (ch / 2 ^ 12)) as [-> _]; [split; zlia|]|].
  rewrite (proj2 (Z.ltb_lt ch _)) by lia. by destruct (lead4 (ch / 2 ^ 18)) as [-> _]; [split; zlia|].
Qed.

Lemma lor_mul64 x c n : 0 <= n -> 0 <= c < 2 ^ n -> Z.lor (Z.shiftl x n) c = x * 2 ^ n + c.
Proof. intros. apply lor_shiftl_add; lia. Qed.

Lemma digits3 a b c : 0 <= b < 64 -> 0 <= c < 64 ->
  Z.lor (Z.lor (Z.shiftl a 12) (Z.shiftl b 6)) c = a * 2 ^ 12 + b * 2 ^ 6 + c.
Proof.
  intros Hb Hc. replace (Z.shiftl a 12) with (Z.shiftl (Z.shiftl a 6) 6) by (by rewrite Z.shiftl_shiftl by lia).
  rewrite <- Z.shiftl_lor, !lor_shiftl_add by lia. lia.
Qed.

Lemma digits4 a b c d : 0 <= b < 64 -> 0 <= c < 64 -> 0 <= d < 64 ->
  Z.lor (Z.lor (Z.lor (Z.shiftl a 18) (Z.shiftl b 12)) (Z.shiftl c 6)) d = a * 2 ^ 18 + b * 2 ^ 12 + c * 2 ^ 6 + d.
Proof.
  intros Hb Hc Hd. replace (Z.shiftl a 18) with (Z.shiftl (Z.shiftl a 12) 6) by (by rewrite Z.shiftl_shiftl by lia).
  replace (Z.shiftl b 12) with (Z.shiftl (Z.shiftl b 6) 6) by (by rewrite Z.shiftl_shiftl by lia).
  rewrite <- !Z.shiftl_lor, digits3, lor_shiftl_add by lia. lia.
Qed.

Lemma rune_bytes_length ch : (1 <= length (rune_bytes ch) <= 4)%nat.
Proof. unfold rune_bytes. repeat case_match; simpl; lia. Qed.

Lemma decode_rune_bytes ch rest n :
  0 <= ch < 0x200000 -> Z.of_nat (length (rune_bytes ch)) <= n ->
  r_utf8_decode (rune_bytes ch ++ rest) n = (Z.of_nat (length (rune_bytes ch)), Some ch).
Proof.
  intros Hch. unfold rune_bytes. destruct (Z.ltb_spec ch 0x80); [|destruct (Z.ltb_spec ch 0x800);
    [|destruct (Z.ltb_spec ch 0x10000)]]; cbn [length]; intros Hn; unfold r_utf8_decode, byte_at;
    cbn [app lookup list_lookup default]; unfold id; rewrite (proj2 (Z.ltb_ge n 1)), (proj2 (Z.ltb_lt 0 n)) by lia; cbn [andb].
  - by rewrite (proj2 (Z.ltb_lt ch 0x80)) by lia.
  - assert (0 <= ch / 2 ^ 6 < 32) as H6 by (split; zlia).
    destruct (lead2 _ H6) as (_ & -> & ->). destruct (cont_byte _ (mod_64 ch)) as (_ & -> & ->).
    rewrite (proj2 (Z.ltb_ge _ 0x80)), (proj2 (Z.ltb_lt 1 n)), lor_shiftl_add by (lia || apply mod_64).
    do 2 f_equal. cbn -[Z.pow]. zlia.
  - assert (0 <= ch / 2 ^ 12 < 16) as H12 by (split; zlia).
    destruct (lead3 _ H12) as (_ & -> & -> & ->). destruct (cont_byte _ (mod_64 ch)) as (_ & -> & ->).
    destruct (cont_byte _ (mod_64 (ch / 2 ^ 6))) as (_ & -> & ->).
    rewrite (proj2 (Z.ltb_ge _ 0x80)), (proj2 (Z.ltb_lt 1 n)), (proj2 (Z.ltb_lt 2 n)), digits3 by (lia || apply mod_64).
    do 2 f_equal. zlia.
  - assert (0 <= ch / 2 ^ 18 < 8) as H18 by (split; zlia).
    destruct (lead4 _ H18) as (_ & -> & -> & -> & ->). destruct (cont_byte _ (mod_64 ch)) as (_ & -> & ->).
    destruct (cont_byte _ (mod_64 (ch / 2 ^ 6))) as (_ & -> & ->). destruct (cont_byte _ (mod_64 (ch / 2 ^ 12))) as (_ & -> & ->).
    rewrite (proj2 (Z.ltb_ge _ 0x80)), (proj2 (Z.ltb_lt 1 n)), (proj2 (Z.ltb_lt 2 n)), (proj2 (Z.ltb_lt 3 n)), digits4
      by (lia || apply mod_64).
    do 2 f_equal. zlia.
Qed.

(** Continuation bytes and leading bytes. *)
Definition is_cont (c : Z) : bool := Z.land c 0xc0 =? 0x80.

Lemma rune_bytes_head ch :
  0 < ch < 0x200000 ->
  exists c cs, rune_bytes ch = c :: cs /\ 0 < c /\ is_cont c = false
    /\ Forall (fun c => 0 < c /\ is_cont c = true) cs /\ r_utf8_size [c] = Z.of_nat (length (rune_bytes ch)).
Proof.
  intros Hch.
  assert (forall k, 0 <= k < 64 -> 0 < 0x80 + k /\ is_cont (0x80 + k) = true) as Hc.
  { intros k Hk. split; [lia|]. unfold is_cont. by destruct (cont_byte k Hk) as (_ & -> & _). }
  assert (forall c, 0 <= c < 0x80 \/ 0xc0 <= c < 0xf8 -> is_cont c = false /\ r_utf8_size [c] =
            if c <? 0x80 then 1 else if c <? 0xe0 then 2 else if c <? 0xf0 then 3 else 4) as Hl.
  { intros c Hr. pose proof (below (fun c => negb ((c <? 0x80) || (0xc0 <=? c) && (c <? 0xf8))
      || negb (is_cont c) && (r_utf8_size [c] =?
            if c <? 0x80 then 1 else if c <? 0xe0 then 2 else if c <? 0xf0 then 3 else 4)) 256 c eq_refl ltac:(lia)) as H.
    rewrite orb_true_iff, negb_true_iff, andb_true_iff, negb_true_iff, Z.eqb_eq in H. destruct H as [H|H]; [|done].
    apply orb_false_iff in H as [H1%Z.ltb_ge H2]. apply andb_false_iff in H2. rewrite Z.leb_gt, Z.ltb_ge in H2. lia. }
  unfold rune_bytes. destruct (Z.ltb_spec ch 0x80); [|destruct (Z.ltb_spec ch 0x800); [|destruct (Z.ltb_spec ch 0x10000)]];
    do 2 eexists; (split; [reflexivity|]).
  - destruct (Hl ch) as [-> ->]; [lia|]. rewrite (proj2 (Z.ltb_lt ch 0x80)) by lia. split_and!; [lia|done|constructor|done].
  - assert (0 <= ch / 2 ^ 6 < 32) as H6 by (split; zlia). destruct (Hl (0xc0 + ch / 2 ^ 6)) as [-> ->]; [lia|].
    rewrite (proj2 (Z.ltb_ge _ 0x80)), (proj2 (Z.ltb_lt _ 0xe0)) by lia.
    split_and!; [lia|done| |done]. repeat constructor; apply Hc, mod_64.
  - assert (0 <= ch / 2 ^ 12 < 16) as H12 by (split; zlia). destruct (Hl (0xe0 + ch / 2 ^ 12)) as [-> ->]; [lia|].
    rewrite (proj2 (Z.ltb_ge _ 0x80)), (proj2 (Z.ltb_ge _ 0xe0)), (proj2 (Z.ltb_lt _ 0xf0)) by lia.
    split_and!; [lia|done| |done]. repeat constructor; apply Hc, mod_64.
  - assert (0 <= ch / 2 ^ 18 < 8) as H18 by (split; zlia). destruct (Hl (0xf0 + ch / 2 ^ 18)) as [-> ->]; [lia|].
    rewrite (proj2 (Z.ltb_ge _ 0x80)), (proj2 (Z.ltb_ge _ 0xe0)), (proj2 (Z.ltb_ge _ 0xf0)) by lia.
    split_and!; [lia|done| |done]. repeat constructor; apply Hc, mod_64.
Qed.

Lemma encode_rune_run pos ch dst :
  0 <= ch < 0x200000 -> (pos + length (rune_bytes ch) <= length dst)%nat ->
  r_utf8_encode pos ch dst
  = Ok (length (rune_bytes ch)) (take pos dst ++ rune_bytes ch ++ drop (pos + length (rune_bytes ch)) dst).
Proof. intros Hch Hl. unfold r_utf8_encode. by rewrite utf8_rune_bytes, run_bind, stores_run by done. Qed.

(** A rune below 0x200000 takes the number of bytes that [r_utf8_encode]
    answers and [r_utf8_size] reads off the first one, decoding them gives the
    rune back, and no other byte changes. *)
Theorem r_utf8_roundtrip ch pos dst n :
  0 <= ch < 0x200000 -> (pos + 4 <= length dst)%nat -> 4 <= n ->
  exists k dst', r_utf8_encode pos ch dst = Ok k dst'
    /\ (1 <= k <= 4)%nat
    /\ r_utf8_decode (drop pos dst') n = (Z.of_nat k, Some ch)
    /\ r_utf8_size (drop pos dst') = Z.of_nat k
    /\ take pos dst' = take pos dst /\ drop (pos + k) dst' = drop (pos + k) dst.
Proof.
  intros Hch Hl Hn. pose proof (rune_bytes_length ch) as Hk.
  do 2 eexists. split; [apply encode_rune_run; [done|lia]|].
  assert (length (take pos dst) = pos) as Ht by (rewrite length_take; lia).
  rewrite (drop_app_length' (take pos dst)) by done. split; [done|]. split; [|split; [|split]].
  - apply decode_rune_bytes; [done|lia].
  - destruct (decide (ch = 0)) as [->|]; [done|].
    destruct (rune_bytes_head ch ltac:(lia)) as (c & cs & E & _ & _ & _ & Es). rewrite E in Es |- *. exact Es.
  - by rewrite (take_app_length' (take pos dst)).
  - rewrite app_assoc. apply drop_app_length'. rewrite length_app. lia.
Qed.

(** *** Strings of runes *)

Definition str_bytes (rs : list Z) : list Z := concat (map rune_bytes rs).

Lemma str_bytes_length rs : (length (str_bytes rs) <= 4 * length rs)%nat.
Proof.
  induction rs as [|r rs IH]; [done|]. unfold str_bytes in *. simpl. rewrite length_app.
  pose proof (rune_bytes_length r). lia.
Qed.

Lemma strlen_cont cs str :
  Forall (fun c => 0 < c /\ is_cont c = true) cs -> r_utf8_strlen (cs ++ str) tt = r_utf8_strlen str tt.
Proof.
  induction 1 as [|c cs [Hc Hk] _ IH]; [done|]. cbn [app r_utf8_strlen].
  rewrite (proj2 (Z.eqb_neq c 0)) by lia. unfold is_cont in Hk. rewrite run_bind, IH, Hk. cbn [negb].
  by destruct (r_utf8_strlen str tt) as [? []|].
Qed.

Lemma strlen_str rs rest :
  Forall (fun r => 0 < r < 0x200000) rs -> r_utf8_strlen (str_bytes rs ++ 0 :: rest) tt = Ok (Z.of_nat (length rs)) tt.
Proof.
  induction 1 as [|r rs Hr _ IH]; [done|]. unfold str_bytes in *. cbn [map concat]. rewrite <- app_assoc.
  destruct (rune_bytes_head r Hr) as (c & cs & -> & Hc & Hk & Hcs & _). cbn [app r_utf8_strlen].
  rewrite (proj2 (Z.eqb_neq c 0)) by lia. unfold is_cont in Hk. rewrite run_bind, strlen_cont, IH, Hk by done.
  cbn [negb length]. rewrite run_ret. f_equal. lia.
Qed.

Lemma encode_str_run rs tl dst_length done_ buf :
  Forall (fun r => 0 < r < 0x200000) rs ->
  Z.of_nat (length done_ + 4 * length rs) < dst_length -> (length (str_bytes rs) <= length buf)%nat ->
  encode_str_loop (rs ++ 0 :: tl) dst_length (length done_) (done_ ++ buf)
  = Ok (length done_ + length (str_bytes rs))%nat (done_ ++ str_bytes rs ++ drop (length (str_bytes rs)) buf).
Proof.
  intros Hr. revert done_ buf. induction Hr as [|r rs Hr _ IH]; intros done_ buf Hl Hb.
  { cbn. by rewrite Nat.add_0_r, drop_0. }
  unfold str_bytes in *. cbn [app encode_str_loop map concat length] in *. rewrite length_app in Hb.
  rewrite (proj2 (Z.eqb_neq r 0)), (proj2 (Z.ltb_lt _ _)) by lia. cbn [negb andb].
  rewrite run_bind, encode_rune_run by (lia || rewrite length_app; lia).
  rewrite take_app_length, drop_app_ge, app_assoc by lia.
  replace (length done_ + length (rune_bytes r) - length done_)%nat with (length (rune_bytes r)) by lia.
  rewrite <- length_app. pose proof (rune_bytes_length r).
  rewrite IH by (rewrite ?length_app, ?length_drop; lia).
  rewrite !length_app, drop_drop, <- !app_assoc. f_equal. lia.
Qed.

(** A string of runes in a destination with four bytes for each and one
    more ends with a zero byte after its encoding, and [r_utf8_strlen] counts its
    runes. *)
Theorem r_utf8_encode_str_strlen rs tl dst :
  Forall (fun r => 0 < r < 0x200000) rs -> (4 * length rs + 1 < length dst)%nat ->
  exists n dst', r_utf8_encode_str (rs ++ 0 :: tl) (Z.of_nat (length dst)) dst = Ok n dst'
    /\ dst' !! pred n = Some 0 /\ length dst' = length dst
    /\ r_utf8_strlen dst' tt = Ok (Z.of_nat (length rs)) tt.
Proof.
  intros Hr Hl. pose proof (str_bytes_length rs) as Hs.
  pose proof (encode_str_run rs tl (Z.of_nat (length dst)) [] dst Hr) as E. cbn [length app Nat.add] in E.
  unfold r_utf8_encode_str. do 2 eexists. split.
  { rewrite run_bind, E by lia. rewrite run_bind, store_run by (rewrite length_app, length_drop; lia). reflexivity. }
  cbn [pred]. split; [apply list_lookup_insert_eq; rewrite length_app, length_drop; lia|].
  split; [rewrite length_insert, length_app, length_drop; lia|].
  replace (length (str_bytes rs)) with (length (str_bytes rs) + 0)%nat at 1 by lia. rewrite insert_app_r.
  destruct (drop (length (str_bytes rs)) dst) as [|y l] eqn:Ed; [|by apply strlen_str].
  apply (f_equal length) in Ed. rewrite length_drop in Ed. cbn [length] in Ed. lia.
Qed.

(** The room of the destination is checked for one byte: a rune of several
    bytes and the final zero are written out of it. *)
Theorem r_utf8_encode_str_overflow r tl dst :
  0x80 <= r < 0x200000 -> (2 <= length dst <= length (rune_bytes r))%nat ->
  r_utf8_encode_str (r :: 0 :: tl) (Z.of_nat (length dst)) dst = Undef UB_oob.
Proof.
  intros Hr Hl. unfold r_utf8_encode_str. rewrite run_bind. cbn [encode_str_loop].
  rewrite (proj2 (Z.eqb_neq r 0)), (proj2 (Z.ltb_lt _ _)) by lia. cbn [negb andb]. rewrite run_bind.
  destruct (decide (length (rune_bytes r) <= length dst)%nat).
  - rewrite encode_rune_run by (simpl; lia). cbn [encode_str_loop Z.eqb negb andb]. rewrite run_ret. cbv beta iota.
    rewrite run_bind, store_oob; [done|]. rewrite take_0, !length_app, length_drop. cbn [app length]. lia.
  - unfold r_utf8_encode. rewrite utf8_rune_bytes by lia. rewrite run_bind.
    rewrite stores_oob; [done|lia].
Qed.

(** ** The binary search *)

(** Ranges in increasing order, above a number. *)
Fixpoint chained (lo : Z) (l : list (Z * Z)) : bool :=
  match l with [] => true | (from, to) :: l => (lo <? from) && (from <=? to) && chained to l end.

Lemma chained_above lo l i from to : chained lo l = true -> l !! i = Some (from, to) -> lo < from <= to.
Proof.
  revert lo i. induction l as [|[f t] l IH]; intros lo i; simpl; [done|].
  rewrite !andb_true_iff, Z.ltb_lt, Z.leb_le. intros [[H1 H2] H3]. destruct i as [|i]; simpl; [by intros [= <- <-]|].
  intros E. specialize (IH t i H3 E). lia.
Qed.

Lemma chained_order lo l i j f1 t1 f2 t2 :
  chained lo l = true -> l !! i = Some (f1, t1) -> l !! j = Some (f2, t2) -> (i < j)%nat -> t1 < f2.
Proof.
  revert lo i j. induction l as [|[f t] l IH]; intros lo i j; simpl; [done|].
  rewrite !andb_true_iff. intros [_ H3] Ei Ej Hij. destruct j as [|j]; [lia|]. simpl in Ej.
  destruct i as [|i]; simpl in Ei; [|apply (IH t i j); [done..|lia]].
  injection Ei as -> ->. by apply (chained_above _ _ _ _ _ H3 Ej).
Qed.

(** Whether a number is in one of the ranges. *)
Definition in_ranges (c : Z) (l : list (Z * Z)) : bool := existsb (fun '(from, to) => (from <=? c) && (c <=? to)) l.

Lemma in_ranges_spec c l :
  in_ranges c l = true <-> exists (i : nat) from to, l !! i = Some (from, to) /\ from <= c <= to.
Proof.
  unfold in_ranges. rewrite existsb_exists. split.
  - intros ([f t] & Hin & H). apply andb_true_iff in H as [H1%Z.leb_le H2%Z.leb_le].
    apply list_elem_of_In, list_elem_of_lookup in Hin as [i Ei]. by exists i, f, t.
  - intros (i & f & t & Ei & H). exists (f, t). split; [by apply list_elem_of_In, list_elem_of_lookup_2 with i|].
    apply andb_true_iff. rewrite !Z.leb_le. lia.
Qed.

Lemma isprint_loop_run fuel c low hi :
  chained (-1) nonprintable_ranges = true ->
  0 <= low -> low <= hi < nonprintable_ranges_count -> hi - low + 1 < 2 ^ Z.of_nat fuel ->
  (forall (i : nat) f t, nonprintable_ranges !! i = Some (f, t) -> Z.of_nat i < low -> t < c) ->
  (forall (i : nat) f t, nonprintable_ranges !! i = Some (f, t) -> hi < Z.of_nat i -> c < f) ->
  isprint_loop fuel c low hi = Some (negb (in_ranges c nonprintable_ranges)).
Proof.
  intros Hch. revert low hi. induction fuel as [|fuel IH]; intros low hi H0 Hlh Hf Hlow Hhi; [simpl in Hf; lia|].
  cbn [isprint_loop]. rewrite Z.shiftr_div_pow2 by lia. change (2 ^ 1) with 2. set (mid := (low + hi) / 2).
  assert (low <= mid <= hi) as Hmid by (unfold mid; split; zlia).
  unfold nonprintable_ranges_count in *.
  destruct (lookup_lt_is_Some_2 nonprintable_ranges (Z.to_nat mid)) as [[from to] Em]; [lia|].
  rewrite Em. cbn [default]. unfold id. destruct (chained_above _ _ _ _ _ Hch Em) as [_ Hft].
  destruct ((from <=? c) && (c <=? to)) eqn:Ein.
  { apply andb_true_iff in Ein as [?%Z.leb_le ?%Z.leb_le].
    rewrite (proj2 (in_ranges_spec c _)); [done|]. by exists (Z.to_nat mid), from, to. }
  rewrite (proj2 (Z.ltb_lt mid _)) by lia. cbn [andb].
  apply andb_false_iff in Ein. rewrite !Z.leb_gt in Ein.
  rewrite Nat2Z.inj_succ, Z.pow_succ_r in Hf by lia.
  assert (forall low hi, 0 <= low -> hi < Z.of_nat (length nonprintable_ranges) -> hi - low + 1 < 2 ^ Z.of_nat fuel ->
    (forall (i : nat) f t, nonprintable_ranges !! i = Some (f, t) -> Z.of_nat i < low -> t < c) ->
    (forall (i : nat) f t, nonprintable_ranges !! i = Some (f, t) -> hi < Z.of_nat i -> c < f) ->
    (if low <=? hi then isprint_loop fuel c low hi else Some true)
    = Some (negb (in_ranges c nonprintable_ranges))) as Hnext.
  { intros low' hi' Hl0 Hlh' Hf' Hlow' Hhi'. destruct (Z.leb_spec low' hi'); [by apply IH|].
    f_equal. symmetry. apply negb_true_iff, not_true_iff_false. intros (i & f & t & Ei & Hc)%in_ranges_spec.
    destruct (Z.le_gt_cases low' (Z.of_nat i)).
    - specialize (Hhi' i f t Ei). lia.
    - specialize (Hlow' i f t Ei). lia. }
  destruct (Z.ltb_spec to c).
  - rewrite (proj2 (Z.ltb_ge c from)) by lia. apply Hnext; [lia|lia|unfold mid; zlia| |done].
    intros i f t Ei Hi. destruct (decide (i = Z.to_nat mid)) as [->|]; [congruence|].
    pose proof (chained_order _ _ _ _ _ _ _ _ Hch Ei Em ltac:(lia)). pose proof (chained_above _ _ _ _ _ Hch Ei). lia.
  - rewrite (proj2 (Z.ltb_lt c from)) by lia. apply Hnext; [lia|lia|unfold mid; zlia|done|].
    intros i f t Ei Hi. destruct (decide (i = Z.to_nat mid)) as [->|]; [assert (f = from) by congruence; lia|].
    pose proof (chained_order _ _ _ _ _ _ _ _ Hch Em Ei ltac:(lia)). lia.
Qed.

(** The binary search of [r_isprint] ends within its bound, and a rune is
    printable exactly when no range of the table holds it. *)
Theorem r_isprint_table c : r_isprint c = Some (negb (in_ranges (u32 c) nonprintable_ranges)).
Proof.
  unfold r_isprint. apply isprint_loop_run; [vm_compute; reflexivity|lia|vm_compute; split; congruence|vm_compute; reflexivity| |].
  - intros i f t _ Hi. lia.
  - intros i f t Ei Hi. apply lookup_lt_Some in Ei. unfold nonprintable_ranges_count in Hi. lia.
Qed.

(** ** Instances *)

Lemma r_utf8_roundtrip_witness :
  exists k dst', r_utf8_encode 1 0x20ac (repeat 1 6) = Ok k dst'
    /\ (1 <= k <= 4)%nat /\ r_utf8_decode (drop 1 dst') 5 = (Z.of_nat k, Some 0x20ac)
    /\ r_utf8_size (drop 1 dst') = Z.of_nat k
    /\ take 1 dst' = take 1 (repeat 1 6) /\ drop (1 + k) dst' = drop (1 + k) (repeat 1 6).
Proof. apply (r_utf8_roundtrip 0x20ac 1 (repeat 1 6) 5); simpl; lia. Defined.

Lemma r_utf8_encode_str_strlen_witness :
  exists n dst', r_utf8_encode_str [0x72; 0xe9; 0x1f600; 0] 16 (repeat 1 16) = Ok n dst'
    /\ dst' !! pred n = Some 0 /\ length dst' = 16%nat /\ r_utf8_strlen dst' tt = Ok 3 tt.
Proof.
  apply (r_utf8_encode_str_strlen [0x72; 0xe9; 0x1f600] [] (repeat 1 16)); [|simpl; lia].
  repeat constructor; lia.
Defined.

Lemma r_utf8_encode_str_overflow_witness : r_utf8_encode_str [0x20ac; 0] 3 [1; 1; 1] = Undef UB_oob.
Proof. apply (r_utf8_encode_str_overflow 0x20ac [] [1; 1; 1]); [lia|simpl; lia]. Defined.
