(* ===== verification/Hex.v ===== *)
(** * Hexadecimal text

    [libr/util/hex.c].  A text is a [string]; the state is the buffer that is
    written to. *)

From S2P Require Import Prelude Buf.

(** [*val] after the digit [c], or nothing when it is not one. *)
Definition r_hex_to_byte (val : Z) (c : ascii) : option Z :=
  let c := code c in
  if (code "0" <=? c) && (c <=? code "9") then Some (u8 (val * 16 + (c - code "0")))
  else if (code "A" <=? c) && (c <=? code "F") then Some (u8 (val * 16 + (c - code "A" + 10)))
  else if (code "a" <=? c) && (c <=? code "f") then Some (u8 (val * 16 + (c - code "a" + 10)))
  else None.

(** The value of a pair, -1 for a character that is not a digit; a dot leaves
    the nibble as it is. *)
Fixpoint pair_loop (arg : string) (c : Z) (j : nat) : Z :=
  match arg with
  | EmptyString => c
  | String ch arg =>
      if Ascii.eqb ch " " || (j =? 2)%nat then c
      else
        match (if Ascii.eqb ch "." then Some c else r_hex_to_byte c ch) with
        | None => -1
        | Some c' =>
            let c' := Z.lor c' c in
            pair_loop arg (if (j =? 0)%nat then u8 (Z.shiftl c' 4) else c') (S j)
        end
  end.
Definition r_hex_pair2bin (arg : string) : Z := pair_loop arg 0 0.

(** [snprintf (tmp, .., "%02x", in[i])]. *)
Definition hex_digit (k : Z) : ascii := chr (if k <? 10 then code "0" + k else code "a" + (k - 10)).
Definition hex_byte (b : Z) : string := String (hex_digit (b / 16)) (String (hex_digit (b mod 16)) EmptyString).

Fixpoint bin2str_loop (n : nat) (inp : list Z) (i idx : nat) : M (list Z) nat :=
  match n with
  | O => mret idx
  | S n =>
      b ← load inp i;
      stores idx (chars (hex_byte b)) ;;
      bin2str_loop n inp (S i) (idx + 2)
  end.
Definition r_hex_bin2str (inp : list Z) (len : Z) : M (list Z) Z :=
  if len <? 0 then mret 0
  else idx ← bin2str_loop (Z.to_nat len) inp 0 0; store idx 0 ;; mret len.

(** The new buffer, or null. *)
Definition r_hex_bin2strdup (inp : list Z) (len : Z) : M (list Z) bool :=
  if 2 ^ 31 <=? (len + 1) * 2 then undef UB_overflow
  else if ((len + 1) * 2 <? len) || ((len + 1) * 2 <? 0) then mret false
  else
    modify (fun _ => repeat 0 (Z.to_nat ((len + 1) * 2))) ;;
    idx ← bin2str_loop (Z.to_nat len) inp 0 0;
    store idx 0 ;;
    mret true.

(** The inner loop: [out] says whether there is a buffer. *)
Fixpoint hex_digits (out : bool) (inp : string) (nibbles : nat) : M (list Z) (string * nat) :=
  match inp with
  | EmptyString => mret (inp, nibbles)
  | String c inp' =>
      match r_hex_to_byte 0 c with
      | None => mret (inp, nibbles)
      | Some _ =>
          (if out then
             b ← gets id;
             v ← load b (nibbles / 2);
             match r_hex_to_byte v c with Some v => store (nibbles / 2) v | None => mret tt end
           else mret tt) ;;
          hex_digits out inp' (S nibbles)
      end
  end.

(** [strchr (in, '\n')] and [strstr (in, "*/")], from the place found on. *)
Fixpoint after_newline (inp : string) : option string :=
  match inp with
  | EmptyString => None
  | String c inp => if Ascii.eqb c "010" then Some inp else after_newline inp
  end.
Fixpoint after_comment (inp : string) : option string :=
  match inp with
  | EmptyString => None
  | String c inp' =>
      if Ascii.eqb c "*" && Ascii.eqb (char_at inp 1) "/" then Some (str_drop 1 inp') else after_comment inp'
  end.

(** What a turn of the outer loop does after the digits. *)
Inductive turn := T_break | T_return | T_next (inp : option string).
Definition str2bin_turn (inp : string) : turn :=
  match inp with
  | EmptyString => T_break
  | String c inp' =>
      if Ascii.eqb c "#" || Ascii.eqb c "/" && Ascii.eqb (char_at inp 1) "/" then T_next (after_newline inp)
      else if Ascii.eqb c "/" && Ascii.eqb (char_at inp 1) "*" then T_next (after_comment inp)
      else if Ascii.eqb c " " || Ascii.eqb c "009" || Ascii.eqb c "010" then T_next (Some inp')
      else T_return
  end.

Definition skip_prefix (inp : string) : string :=
  if Ascii.eqb (char_at inp 0) "0" && Ascii.eqb (char_at inp 1) "x" then str_drop 2 inp else inp.

(** [while (in && *in)]; every turn consumes a character, and running out of
    them would be an error here.  The result is [None] when the function returns
    0 from the loop. *)
Fixpoint str2bin_loop (fuel : nat) (out : bool) (inp : option string) (nibbles : nat) : M (list Z) (option nat) :=
  match inp with
  | Some (String c inp) =>
      match fuel with
      | O => undef UB_overflow
      | S fuel =>
          '(inp, nibbles) ← hex_digits out (skip_prefix (String c inp)) nibbles;
          match str2bin_turn inp with
          | T_break => mret (Some nibbles)
          | T_return => mret None
          | T_next inp => str2bin_loop fuel out inp nibbles
          end
      end
  | _ => mret (Some nibbles)
  end.

Definition r_hex_str2bin (inp : string) (out : bool) : M (list Z) Z :=
  r ← str2bin_loop (S (String.length inp)) out (Some inp) 0;
  match r with
  | None => mret 0
  | Some nibbles =>
      if (nibbles mod 2 =? 0)%nat then mret (Z.of_nat (nibbles / 2))
      else
        (if out then
           b ← gets id;
           v ← load b (nibbles / 2);
           match r_hex_to_byte v "0" with Some v => store (nibbles / 2) v | None => mret tt end
         else mret tt) ;;
        mret (Z.quot (- (Z.of_nat nibbles + 1)) 2)
  end.

Definition r_hex_bin_truncate (inp n : Z) : Z :=
  s64 match n with
      | 1 => if z2b (Z.land inp 0x80) then Z.lor 0xffffffffffffff00 inp else Z.land inp 0xff
      | 2 => if z2b (Z.land inp 0x8000) then Z.lor 0xffffffffffff0000 inp else Z.land inp 0xffff
      | 4 => if z2b (Z.land inp 0x80000000) then Z.lor 0xffffffff00000000 inp else Z.land inp 0xffffffff
      | 8 => Z.land inp UT64_MAX
      | _ => inp
      end.

Definition ishexchar (x : ascii) : bool :=
  let x := code x in
  (code "0" <=? x) && (x <=? code "9") || (code "a" <=? x) && (x <=? code "f") || (code "A" <=? x) && (x <=? code "F").

(** The number of characters, although it is documented as that of bytes. *)
Fixpoint hex_valid_loop (str : string) (i : Z) : Z :=
  match str with
  | EmptyString => i
  | String c str => if Ascii.eqb c " " then i else if ishexchar c then hex_valid_loop str (i + 1) else -1
  end.
Definition r_hex_str_is_valid (str : string) : Z :=
  hex_valid_loop (if Ascii.eqb (char_at str 0) "0" && Ascii.eqb (char_at str 1) "x" then str_drop 2 str else str) 0.

(** ** Digits *)

Fixpoint hex_string (bs : list Z) : string :=
  match bs with [] => EmptyString | b :: bs => String.append (hex_byte b) (hex_string bs) end.

Lemma hex_digit_code k : 0 <= k < 16 -> code (hex_digit k) = if k <? 10 then 48 + k else 87 + k.
Proof.
  intros Hk. unfold hex_digit. change (code "0") with 48. change (code "a") with 97. unfold code, chr.
  destruct (Z.ltb_spec k 10); rewrite N_ascii_embedding by lia; lia.
Qed.

Lemma hex_digit_value v k : 0 <= k < 16 -> r_hex_to_byte v (hex_digit k) = Some (u8 (v * 16 + k)).
Proof.
  intros Hk. unfold r_hex_to_byte. rewrite hex_digit_code by done. cbv zeta.
  change (code "0") with 48. change (code "9") with 57. change (code "A") with 65. change (code "F") with 70.
  change (code "a") with 97. change (code "f") with 102. destruct (Z.ltb_spec k 10).
  - rewrite (proj2 (Z.leb_le 48 _)), (proj2 (Z.leb_le _ 57)) by lia. cbn [andb]. do 2 f_equal. lia.
  - rewrite (proj2 (Z.leb_gt _ 57)), (proj2 (Z.leb_gt _ 70)), (proj2 (Z.leb_le 97 _)), (proj2 (Z.leb_le _ 102)) by lia.
    rewrite !andb_false_r. cbn [andb]. do 2 f_equal. lia.
Qed.

Lemma hex_digit_not_x k : 0 <= k < 16 -> Ascii.eqb (hex_digit k) "x" = false.
Proof.
  intros Hk. apply Ascii.eqb_neq. intros E. apply (f_equal code) in E. rewrite hex_digit_code in E by done.
  change (code "x") with 120 in E. destruct (Z.ltb_spec k 10); lia.
Qed.

(** The low nibble of what was there is shifted out by the second digit. *)
Lemma two_digits v b : is_byte b -> u8 (u8 (v * 16 + b / 16) * 16 + b mod 16) = b.
Proof. unfold is_byte, u8. intros Hb. zlia. Qed.

Lemma nibbles b : is_byte b -> 0 <= b / 16 < 16 /\ 0 <= b mod 16 < 16.
Proof. unfold is_byte. intros Hb. split; zlia. Qed.

Lemma digit_store v i c w b :
  b !! i = Some v -> r_hex_to_byte 0 c <> None -> r_hex_to_byte v c = Some w ->
  (b ← gets id; v ← load b i; match r_hex_to_byte v c with Some v => store i v | None => mret tt end) b
  = Ok tt (<[i := w]> b).
Proof.
  intros E _ Ew. rewrite run_bind, run_gets. cbv beta iota. unfold id.
  rewrite run_bind, (load_run _ _ _ _ E), Ew, store_run; [done|]. by apply lookup_lt_Some in E.
Qed.

Lemma hex_digits_run bs pre tl :
  bytes bs -> (length bs <= length tl)%nat ->
  hex_digits true (hex_string bs) (2 * length pre) (pre ++ tl)
  = Ok (EmptyString, (2 * (length pre + length bs))%nat) (pre ++ bs ++ drop (length bs) tl).
Proof.
  intros Hb. revert pre tl. induction Hb as [|b bs Hb _ IH]; intros pre tl Hl.
  { cbn [hex_string hex_digits length]. by rewrite Nat.add_0_r, drop_0. }
  destruct tl as [|v tl]; simpl in Hl; [lia|]. destruct (nibbles b Hb) as [Hh Hlo].
  change (hex_string (b :: bs)) with (String (hex_digit (b / 16)) (String (hex_digit (b mod 16)) (hex_string bs))).
  cbn [hex_digits]. rewrite hex_digit_value by done. rewrite run_bind.
  assert (2 * length pre / 2 = length pre)%nat as E1 by (rewrite Nat.mul_comm; by apply Nat.div_mul).
  assert (S (2 * length pre) / 2 = length pre)%nat as E2.
  { rewrite <- Nat.add_1_l, Nat.mul_comm, Nat.div_add by lia. done. }
  rewrite E1, (digit_store v _ _ (u8 (v * 16 + b / 16)))
    by (by rewrite ?lookup_app_r, ?Nat.sub_diag, ?hex_digit_value by lia).
  rewrite hex_digit_value by done. rewrite run_bind, E2.
  rewrite (digit_store (u8 (v * 16 + b / 16)) _ _ b).
  2: { apply list_lookup_insert_eq. rewrite length_app. simpl. lia. }
  2: { by rewrite hex_digit_value by done. }
  2: { rewrite hex_digit_value by done. f_equal. by apply two_digits. }
  rewrite list_insert_insert_eq. replace (length pre) with (length pre + 0)%nat at 2 by lia. rewrite insert_app_r.
  cbn [insert list_insert]. replace (S (S (2 * length pre))) with (2 * length (pre ++ [b]))%nat by (rewrite length_app; simpl; lia).
  replace (pre ++ b :: tl) with ((pre ++ [b]) ++ tl) by (by rewrite <- app_assoc).
  rewrite IH by lia. rewrite length_app, <- app_assoc. cbn [length app]. f_equal. f_equal. lia.
Qed.

(** ** Round trip *)

Lemma chars_app s t : chars (String.append s t) = chars s ++ chars t.
Proof. induction s as [|c s IH]; [done|]. rewrite append_cons. simpl. by rewrite IH. Qed.

Lemma hex_string_length bs : String.length (hex_string bs) = (2 * length bs)%nat.
Proof. induction bs as [|b bs IH]; [done|]. cbn [hex_string]. rewrite length_append, IH. simpl. lia. Qed.

Lemma bin2str_run bs pre i idx done_ tl :
  i = length pre -> idx = length done_ -> (2 * length bs <= length tl)%nat ->
  bin2str_loop (length bs) (pre ++ bs) i idx (done_ ++ tl)
  = Ok (idx + 2 * length bs)%nat (done_ ++ chars (hex_string bs) ++ drop (2 * length bs) tl).
Proof.
  revert pre i idx done_ tl. induction bs as [|b bs IH]; intros pre i idx done_ tl -> -> Hl.
  { cbn [hex_string bin2str_loop length]. by rewrite Nat.mul_0_r, Nat.add_0_r, drop_0. }
  cbn [length] in Hl. cbn [length bin2str_loop]. rewrite run_bind, (load_run _ _ b).
  2: { by rewrite lookup_app_r, Nat.sub_diag. }
  rewrite run_bind, stores_run by (rewrite length_app; cbn [hex_byte chars length]; lia).
  rewrite take_app_length, drop_app_ge by lia.
  replace (length done_ + length (chars (hex_byte b)) - length done_)%nat with 2%nat by (cbn [hex_byte chars length]; lia).
  replace (pre ++ b :: bs) with ((pre ++ [b]) ++ bs) by (by rewrite <- app_assoc). rewrite app_assoc.
  rewrite IH; [|rewrite length_app; simpl; lia|by rewrite length_app|rewrite length_drop; lia].
  cbn [hex_string]. rewrite chars_app, drop_drop, <- !app_assoc. f_equal; [lia|]. do 4 f_equal. lia.
Qed.

Lemma bin2str_buffer bs buf :
  (2 * length bs < length buf)%nat ->
  r_hex_bin2str bs (Z.of_nat (length bs)) buf
  = Ok (Z.of_nat (length bs)) (chars (hex_string bs) ++ 0 :: drop (S (2 * length bs)) buf).
Proof.
  intros Hl. unfold r_hex_bin2str. rewrite (proj2 (Z.ltb_ge _ 0)), Nat2Z.id by lia.
  pose proof (bin2str_run bs [] 0 0 [] buf eq_refl eq_refl) as E. cbn [app] in E. rewrite run_bind, E by lia.
  cbn [Nat.add]. rewrite run_bind, store_run by (rewrite length_app, chars_length, hex_string_length, length_drop; lia).
  rewrite run_ret. f_equal. rewrite <- hex_string_length, <- chars_length.
  rewrite <- (Nat.add_0_r (length (chars (hex_string bs)))) at 1. rewrite insert_app_r. f_equal.
  destruct (drop (length (chars (hex_string bs))) buf) as [|y l] eqn:Ed.
  - apply (f_equal length) in Ed. rewrite length_drop, chars_length, hex_string_length in Ed. cbn [length] in Ed. lia.
  - cbn. f_equal. rewrite <- Nat.add_1_r, <- drop_drop, Ed. done.
Qed.

Lemma skip_prefix_hex bs : bytes bs -> skip_prefix (hex_string bs) = hex_string bs.
Proof.
  intros Hb. destruct Hb as [|b bs Hb _]; [done|]. unfold skip_prefix.
  change (char_at (hex_string (b :: bs)) 1) with (hex_digit (b mod 16)).
  rewrite hex_digit_not_x by (by apply nibbles). by rewrite andb_false_r.
Qed.

Lemma str2bin_hex_string bs dst :
  bytes bs -> (length bs <= length dst)%nat ->
  r_hex_str2bin (hex_string bs) true dst = Ok (Z.of_nat (length bs)) (bs ++ drop (length bs) dst).
Proof.
  intros Hb Hd. unfold r_hex_str2bin. rewrite run_bind.
  assert (str2bin_loop (S (String.length (hex_string bs))) true (Some (hex_string bs)) 0 dst
          = Ok (Some (2 * length bs)%nat) (bs ++ drop (length bs) dst)) as ->.
  { destruct (hex_string bs) as [|c s] eqn:E.
    - destruct bs; [by rewrite drop_0|discriminate].
    - cbn [str2bin_loop]. rewrite <- E, skip_prefix_hex by done.
      pose proof (hex_digits_run bs [] dst Hb Hd) as Eh. cbn [app length] in Eh. rewrite Nat.mul_0_r in Eh.
      by rewrite run_bind, Eh. }
  cbv beta iota. rewrite Nat.mul_comm, Nat.Div0.mod_mul, Nat.div_mul by lia. done.
Qed.

(** [r_hex_str2bin] gives the bytes back that [r_hex_bin2str] wrote, whatever
    the destination held, and leaves what is after them. *)
Theorem r_hex_roundtrip bs buf dst :
  bytes bs -> (2 * length bs < length buf)%nat -> (length bs <= length dst)%nat ->
  exists s, r_hex_bin2str bs (Z.of_nat (length bs)) buf
    = Ok (Z.of_nat (length bs)) (chars s ++ 0 :: drop (S (2 * length bs)) buf)
  /\ String.length s = (2 * length bs)%nat
  /\ r_hex_str2bin s true dst = Ok (Z.of_nat (length bs)) (bs ++ drop (length bs) dst).
Proof.
  intros Hb Hl Hd. exists (hex_string bs). split; [by apply bin2str_buffer|]. split; [apply hex_string_length|].
  by apply str2bin_hex_string.
Qed.

(** ** Every text *)

Lemma str_drop_length i s : (String.length (str_drop i s) <= String.length s)%nat.
Proof. revert s. induction i as [|i IH]; intros [|c s]; simpl; try lia. specialize (IH s). lia. Qed.

Lemma skip_prefix_length s : (String.length (skip_prefix s) <= String.length s)%nat.
Proof. unfold skip_prefix. destruct (_ && _); [apply str_drop_length|done]. Qed.

Lemma after_newline_length s t : after_newline s = Some t -> (String.length t < String.length s)%nat.
Proof.
  induction s as [|c s IH]; simpl; [done|]. destruct (Ascii.eqb c "010"); [intros [= <-]; lia|]. intros E. specialize (IH E). lia.
Qed.

Lemma after_comment_length s t : after_comment s = Some t -> (String.length t < String.length s)%nat.
Proof.
  induction s as [|c s IH]; cbn [after_comment]; [done|]. destruct (_ && _).
  - intros E. assert (t = str_drop 1 s) as -> by congruence. pose proof (str_drop_length 1 s). cbn [String.length]. lia.
  - intros E. specialize (IH E). cbn [String.length]. lia.
Qed.

Lemma turn_length s t : str2bin_turn s = T_next (Some t) -> (String.length t < String.length s)%nat.
Proof.
  destruct s as [|c s]; cbn [str2bin_turn]; [done|].
  destruct (_ || _); [intros [= E]; by apply after_newline_length|].
  destruct (_ && _); [intros [= E]; by apply after_comment_length|].
  destruct (_ || _); [|done]. intros [= <-]. simpl. lia.
Qed.

Lemma half_mono a b : (a <= b)%nat -> (a / 2 <= b / 2)%nat.
Proof. apply Nat.Div0.div_le_mono. Qed.

Lemma half_lt n k : (0 < k)%nat -> (n / 2 < (n + k + 1) / 2)%nat.
Proof.
  intros Hk. replace (n + k + 1)%nat with (n + (k - 1) + 1 * 2)%nat by lia. rewrite Nat.div_add by lia.
  pose proof (half_mono n (n + (k - 1)) ltac:(lia)). lia.
Qed.

(** A nibble can be put in the buffer, as any digit is one for any value. *)
Lemma digit_any v c : r_hex_to_byte 0 c <> None -> exists w, r_hex_to_byte v c = Some w.
Proof. unfold r_hex_to_byte. cbv zeta. repeat case_match; try done; intros _; by eexists. Qed.

Lemma hex_digits_total s n buf :
  ((n + String.length s + 1) / 2 <= length buf)%nat ->
  exists s' n' buf', hex_digits true s n buf = Ok (s', n') buf'
    /\ (forall b, hex_digits false s n b = Ok (s', n') b)
    /\ length buf' = length buf /\ (n' + String.length s' = n + String.length s)%nat /\ (n <= n')%nat.
Proof.
  revert n buf. induction s as [|c s IH]; intros n buf Hl; cbn [hex_digits]; [by exists EmptyString, n, buf|].
  destruct (r_hex_to_byte 0 c) as [w0|] eqn:Ec; [|by exists (String c s), n, buf]. cbn [String.length] in Hl.
  pose proof (half_lt n (S (String.length s)) ltac:(lia)) as Hn.
  destruct (lookup_lt_is_Some_2 buf (n / 2)) as [v Ev]; [lia|].
  destruct (digit_any v c) as [w Ew]; [congruence|].
  destruct (IH (S n) (<[(n / 2)%nat := w]> buf)) as (s' & n' & buf' & E1 & E2 & El & En & Hn').
  { rewrite length_insert. by replace (S n + String.length s + 1)%nat with (n + S (String.length s) + 1)%nat by lia. }
  exists s', n', buf'. rewrite length_insert in El. split; [|split; [|split; [done|cbn [String.length]; lia]]].
  - by rewrite run_bind, (digit_store v _ _ w) by congruence.
  - intros b. by rewrite run_bind, run_ret.
Qed.

Lemma str2bin_total fuel s n buf :
  (String.length s < fuel)%nat -> ((n + String.length s + 1) / 2 <= length buf)%nat ->
  exists r buf', str2bin_loop fuel true (Some s) n buf = Ok r buf'
    /\ (forall b, str2bin_loop fuel false (Some s) n b = Ok r b)
    /\ length buf' = length buf /\ (forall k, r = Some k -> k <= n + String.length s)%nat.
Proof.
  revert s n buf. induction fuel as [|fuel IH]; intros s n buf Hf Hl; [lia|].
  destruct s as [|c s]; cbn [str2bin_loop].
  { exists (Some n), buf. split_and!; try done. intros k [= <-]. lia. }
  pose proof (skip_prefix_length (String c s)) as Hs.
  destruct (hex_digits_total (skip_prefix (String c s)) n buf) as (s' & n' & buf' & E1 & E2 & El & En & Hn').
  { etransitivity; [|exact Hl]. apply half_mono. lia. }
  rewrite run_bind, E1. cbv beta iota.
  setoid_rewrite run_bind. setoid_rewrite E2.
  destruct (str2bin_turn s') as [| |[t|]] eqn:Et.
  - exists (Some n'), buf'. split_and!; [done|done|done|]. intros k [= <-]. lia.
  - exists None, buf'. by split_and!.
  - apply turn_length in Et. destruct (IH t n' buf') as (r & buf2 & E3 & E4 & El2 & Hr).
    + lia.
    + etransitivity; [|rewrite El; exact Hl]. apply half_mono. lia.
    + exists r, buf2. split_and!; [done|done|congruence|]. intros k Hk. specialize (Hr k Hk). lia.
  - exists (Some n'), buf'. split_and!; [by destruct fuel|by destruct fuel|done|]. intros k [= <-]. lia.
Qed.

(** On every text [r_hex_str2bin] ends, stays inside a destination of half
    its length and answers no more than that, and without a destination it gives
    the same answer. *)
Theorem r_hex_str2bin_safe s dst :
  ((String.length s + 1) / 2 <= length dst)%nat ->
  exists r dst', r_hex_str2bin s true dst = Ok r dst' /\ length dst' = length dst
    /\ Z.abs r <= Z.of_nat ((String.length s + 1) / 2)
    /\ (forall b, r_hex_str2bin s false b = Ok r b).
Proof.
  intros Hl. destruct (str2bin_total (S (String.length s)) s 0 dst) as (r & buf & E1 & E2 & El & Hr); [lia|done|].
  unfold r_hex_str2bin. setoid_rewrite run_bind. rewrite E1. setoid_rewrite E2.
  destruct r as [k|]; [|exists 0, buf; split_and!; [done|done|simpl; lia|done]].
  specialize (Hr k eq_refl). cbn [Nat.add] in Hr.
  pose proof (half_mono k (String.length s + 1) ltac:(lia)) as Hk.
  destruct (Nat.eqb_spec (k mod 2) 0) as [Ek|Ek].
  - exists (Z.of_nat (k / 2)), buf. split_and!; [done|done|lia|done].
  - assert (k = 2 * (k / 2) + 1)%nat as Ek'.
    { pose proof (Nat.div_mod k 2 ltac:(lia)). pose proof (Nat.mod_upper_bound k 2 ltac:(lia)). lia. }
    assert (k / 2 < (String.length s + 1) / 2)%nat as Hk2.
    { pose proof (Nat.div_mod (String.length s + 1) 2 ltac:(lia)).
      pose proof (Nat.mod_upper_bound (String.length s + 1) 2 ltac:(lia)). lia. }
    assert (Z.quot (- (Z.of_nat k + 1)) 2 = - Z.of_nat (k / 2 + 1)) as Eq.
    { rewrite Ek' at 1. replace (- (Z.of_nat (2 * (k / 2) + 1) + 1)) with (- Z.of_nat (k / 2 + 1) * 2) by lia. by rewrite Z.quot_mul. }
    destruct (lookup_lt_is_Some_2 buf (k / 2)) as [v Ev]; [lia|].
    destruct (digit_any v "0") as [w Ew]; [by vm_compute|].
    exists (- Z.of_nat (k / 2 + 1)), (<[(k / 2)%nat := w]> buf). rewrite Eq, length_insert.
    split_and!; [|done|lia|intros b; by rewrite run_bind, run_ret].
    by rewrite run_bind, (digit_store v _ _ w) by (done || by vm_compute).
Qed.

(** ** Other functions *)

Lemma land_byte_top k w : 0 <= w -> Z.land k (2 ^ w) = if Z.testbit k w then 2 ^ w else 0.
Proof.
  intros Hw. apply Z.bits_inj'. intros i Hi. rewrite Z.land_spec, Z.pow2_bits_eqb by done.
  destruct (Z.eqb_spec w i) as [<-|Hne].
  - destruct (Z.testbit k w); [by rewrite Z.pow2_bits_true|by rewrite Z.bits_0].
  - rewrite andb_false_r. destruct (Z.testbit k w); [by rewrite Z.pow2_bits_false|by rewrite Z.bits_0].
Qed.

Lemma high_mask w : 0 < w < 64 -> 2 ^ 64 - 2 ^ w = Z.shiftl (Z.ones (64 - w)) w.
Proof.
  intros Hw. rewrite Z.shiftl_mul_pow2, Z.ones_equiv, <- Z.sub_1_r by lia.
  rewrite Z.mul_sub_distr_r, <- Z.pow_add_r by lia. replace (64 - w + w) with 64 by lia. lia.
Qed.

Lemma lor_high_mask w x : 0 < w < 64 -> 0 <= x < 2 ^ 64 -> Z.lor (2 ^ 64 - 2 ^ w) x = 2 ^ 64 - 2 ^ w + x mod 2 ^ w.
Proof.
  intros Hw Hx. rewrite high_mask by done. rewrite (Z.add_nocarry_lxor _ (x mod _)).
  2: { zbits. destruct (Z.ltb_spec i w); [by rewrite Z.testbit_neg_r by lia|by rewrite Z.mod_pow2_bits_high, andb_false_r by lia]. }
  zbits. destruct (Z.ltb_spec i w).
  - by rewrite Z.testbit_neg_r, Z.mod_pow2_bits_low by lia.
  - rewrite Z.mod_pow2_bits_high, xorb_false_r by lia. destruct (Z.ltb_spec i 64).
    + by rewrite Z.ones_spec_low by lia.
    + rewrite Z.ones_spec_high by lia. rewrite <- (Z.mod_small x (2 ^ 64)) by done. by rewrite Z.mod_pow2_bits_high by lia.
Qed.

Lemma top_bit_set w x : 0 < w -> z2b (Z.land x (2 ^ (w - 1))) = negb (x mod 2 ^ w <? 2 ^ (w - 1)).
Proof.
  intros Hw. rewrite land_byte_top by lia. unfold z2b. f_equal.
  assert (Z.testbit x (w - 1) = Z.testbit (x mod 2 ^ w) (w - 1)) as -> by (by rewrite Z.mod_pow2_bits_low by lia).
  pose proof (Z.mod_pos_bound x (2 ^ w) ltac:(apply Z.pow_pos_nonneg; lia)) as Hb. set (y := x mod 2 ^ w) in *.
  assert (2 ^ w = 2 * 2 ^ (w - 1)) as E by (rewrite <- Z.pow_succ_r by lia; f_equal; lia).
  rewrite Z.testbit_eqb by lia. pose proof (Z.pow_pos_nonneg 2 (w - 1) ltac:(lia) ltac:(lia)).
  destruct (Z.ltb_spec y (2 ^ (w - 1))).
  - by rewrite Z.div_small by lia.
  - assert (y / 2 ^ (w - 1) = 1) as -> by (symmetry; apply (Z.div_unique y _ 1 (y - 2 ^ (w - 1))); lia).
    change (1 mod 2 =? 1) with true. cbn iota. apply Z.eqb_neq. lia.
Qed.

Lemma truncate_swrap w x : 0 < w < 64 -> 0 <= x < 2 ^ 64 ->
  s64 (if z2b (Z.land x (2 ^ (w - 1))) then Z.lor (2 ^ 64 - 2 ^ w) x else Z.land x (Z.ones w)) = swrap w x.
Proof.
  intros Hw Hx. rewrite top_bit_set, lor_high_mask, Z.land_ones by lia.
  pose proof (Z.mod_pos_bound x (2 ^ w) ltac:(apply Z.pow_pos_nonneg; lia)) as Hb.
  assert (2 ^ w <= 2 ^ 63) by (apply Z.pow_le_mono_r; lia).
  unfold swrap at 1. set (y := x mod 2 ^ w) in *. destruct (Z.ltb_spec y (2 ^ (w - 1))); cbn [negb].
  - apply swrap_id; lia.
  - replace (2 ^ 64 - 2 ^ w + y) with (y - 2 ^ w + 1 * 2 ^ 64) by lia. unfold s64, swrap. rewrite Z.mod_add by lia.
    fold (swrap 64 (y - 2 ^ w)). apply swrap_id; lia.
Qed.

(** [r_hex_bin_truncate] reads the low [n] bytes as a signed number. *)
Lemma r_hex_bin_truncate_signed x n :
  0 <= x < 2 ^ 64 -> n ∈ [1; 2; 4; 8] -> r_hex_bin_truncate x n = swrap (8 * n) x.
Proof.
  intros Hx Hn. assert (n = 1 \/ n = 2 \/ n = 4 \/ n = 8) as Hc by set_solver. unfold r_hex_bin_truncate.
  destruct Hc as [->|[->|[->| ->]]].
  - by apply (truncate_swrap 8).
  - by apply (truncate_swrap 16).
  - by apply (truncate_swrap 32).
  - change UT64_MAX with (Z.ones 64). rewrite Z.land_ones, Z.mod_small by lia. done.
Qed.

(** A pair of digits is read as its byte, and a dot as a nibble of zero. *)
Lemma r_hex_pair2bin_byte b : is_byte b -> r_hex_pair2bin (hex_byte b) = b.
Proof.
  intros Hb. assert (forallb (fun k => r_hex_pair2bin (hex_byte k) =? k) (seqZ 0 256) = true) as E by by vm_compute.
  rewrite forallb_forall in E. apply Z.eqb_eq, E, list_elem_of_In, elem_of_seqZ. unfold is_byte in Hb. lia.
Qed.

Example pair2bin_dot : r_hex_pair2bin "A.zz" = 0xa0 /\ r_hex_pair2bin "xy" = -1 /\ r_hex_pair2bin "a" = 0xa0.
Proof. by vm_compute. Qed.

(** What is called the length in bytes is the number of digits. *)
Example str_is_valid_digits : r_hex_str_is_valid "0x4142" = 4.
Proof. by vm_compute. Qed.

(** ** Witnesses *)

Lemma r_hex_roundtrip_witness :
  exists s, r_hex_bin2str [0x41; 0xff] 2 [1; 2; 3; 4; 5; 6] = Ok 2 (chars s ++ [0; 6])
    /\ String.length s = 4%nat /\ r_hex_str2bin s true [9; 9; 9] = Ok 2 [0x41; 0xff; 9].
Proof.
  apply (r_hex_roundtrip [0x41; 0xff] [1; 2; 3; 4; 5; 6] [9; 9; 9]); [|simpl; lia|simpl; lia].
  repeat constructor; unfold is_byte; lia.
Defined.

Lemma r_hex_str2bin_safe_witness :
  exists r dst', r_hex_str2bin "4 1/*" true [7; 7; 7] = Ok r dst' /\ length dst' = 3%nat
    /\ Z.abs r <= 3 /\ (forall b, r_hex_str2bin "4 1/*" false b = Ok r b).
Proof. apply (r_hex_str2bin_safe "4 1/*" [7; 7; 7]). simpl. lia. Defined.
