(* ===== verification/Search.v ===== *)
(** * Search for keywords in a stream

    [libr/search/search.c] and [libr/search/keyword.c].  A pointer to a keyword
    is its position in the list of keywords of the search; the client's data is
    the type [U], and what its callback does to it a function. *)

From S2P Require Import Prelude Buf Reg Hex.

Definition R_SEARCH_KEYWORD : Z := 0.
Definition R_SEARCH_REGEXP : Z := 1.
Definition R_SEARCH_PATTERN : Z := 2.
Definition R_SEARCH_STRING : Z := 3.
Definition R_SEARCH_XREFS : Z := 4.
Definition R_SEARCH_AES : Z := 5.
Definition R_SEARCH_DELTAKEY : Z := 6.
Definition R_SEARCH_MAGIC : Z := 7.
Definition R_SEARCH_DISTANCE_MAX : Z := 10.
Definition R_SEARCH_AES_BOX_SIZE : Z := 31.
Definition R_SEARCH_KEYWORD_TYPE_BINARY : ascii := "i".
Definition R_SEARCH_KEYWORD_TYPE_STRING : ascii := "s".

Record RSearchKeyword := mk_kw {
  bin_keyword : list Z;
  bin_binmask : list Z;
  keyword_length : Z;
  binmask_length : Z;
  idx : list Z;
  kw_distance : Z;
  count : Z;
  kwidx : Z;
  icase : bool;
  kw_type : ascii;
  last : Z
}.

Record RSearchHit := mk_hit { hit_kw : nat; hit_addr : Z }.

Definition set_idx (v : list Z) (k : RSearchKeyword) : RSearchKeyword :=
  mk_kw (bin_keyword k) (bin_binmask k) (keyword_length k) (binmask_length k) v (kw_distance k) (count k) (kwidx k)
    (icase k) (kw_type k) (last k).
Definition set_kw_distance (v : Z) (k : RSearchKeyword) : RSearchKeyword :=
  mk_kw (bin_keyword k) (bin_binmask k) (keyword_length k) (binmask_length k) (idx k) v (count k) (kwidx k)
    (icase k) (kw_type k) (last k).
Definition set_count (v : Z) (k : RSearchKeyword) : RSearchKeyword :=
  mk_kw (bin_keyword k) (bin_binmask k) (keyword_length k) (binmask_length k) (idx k) (kw_distance k) v (kwidx k)
    (icase k) (kw_type k) (last k).
Definition set_kwidx (v : Z) (k : RSearchKeyword) : RSearchKeyword :=
  mk_kw (bin_keyword k) (bin_binmask k) (keyword_length k) (binmask_length k) (idx k) (kw_distance k) (count k) v
    (icase k) (kw_type k) (last k).
Definition set_icase (v : bool) (k : RSearchKeyword) : RSearchKeyword :=
  mk_kw (bin_keyword k) (bin_binmask k) (keyword_length k) (binmask_length k) (idx k) (kw_distance k) (count k) (kwidx k)
    v (kw_type k) (last k).
Definition set_kw_type (v : ascii) (k : RSearchKeyword) : RSearchKeyword :=
  mk_kw (bin_keyword k) (bin_binmask k) (keyword_length k) (binmask_length k) (idx k) (kw_distance k) (count k) (kwidx k)
    (icase k) v (last k).
Definition set_last (v : Z) (k : RSearchKeyword) : RSearchKeyword :=
  mk_kw (bin_keyword k) (bin_binmask k) (keyword_length k) (binmask_length k) (idx k) (kw_distance k) (count k) (kwidx k)
    (icase k) (kw_type k) v.

(** [tolower] of a byte in the C locale. *)
Definition tolower8 (c : Z) : Z := if (65 <=? c) && (c <=? 90) then c + 32 else c.

(** ** Keywords *)

Fixpoint ignoreMask (bm : list Z) : bool :=
  match bm with [] => true | b :: bm => if b =? 0xff then ignoreMask bm else false end.

(** The lengths are those of the buffers that are copied; null is [None]. *)
Definition r_search_keyword_new (kwbuf : list Z) (bmbuf : option (list Z)) : option RSearchKeyword :=
  let mask := match bmbuf with
              | Some bm => if (0 <? Z.of_nat (length bm)) && negb (ignoreMask bm) then bm else []
              | None => []
              end in
  if Z.of_nat (length kwbuf) <? 1 then None
  else Some (mk_kw kwbuf mask (Z.of_nat (length kwbuf)) (Z.of_nat (length mask))
               (repeat 0 (Z.to_nat R_SEARCH_DISTANCE_MAX)) 0 0 0 false R_SEARCH_KEYWORD_TYPE_BINARY 0).

Section constructors.
(** What a new block of memory holds. *)
Context (malloc : nat -> list Z).

(** The mask from its text: [Some None] when there is none that can be used. *)
Definition mask_of (bmstr : option string) : M unit (option (list Z)) :=
  match bmstr with
  | None => mret None
  | Some s => fun u =>
      match r_hex_str2bin s true (malloc (S (String.length s))) with
      | Ok n b => Ok (if n <? 1 then None else Some (take (Z.to_nat n) b)) u
      | Undef e => Undef e
      end
  end.

(** A negative length of the mask, which the text of an odd number of digits
    has, is handed on and refused by [r_search_keyword_new]. *)
Definition mask_refused (bmstr : option string) : bool :=
  match bmstr with
  | None => false
  | Some s => match r_hex_str2bin s true (malloc (S (String.length s))) with Ok n _ => n <? 0 | Undef _ => false end
  end.

Definition r_search_keyword_new_str (kwbuf : string) (bmstr : option string) (ignore_case : bool)
  : M unit (option RSearchKeyword) :=
  bm ← mask_of bmstr;
  mret (if mask_refused bmstr then None
        else set_kw_type R_SEARCH_KEYWORD_TYPE_STRING ∘ set_icase ignore_case
               <$> r_search_keyword_new (chars kwbuf) bm).

(** Two bytes for each character, the second one zero. *)
Definition wide (ignore_case : bool) (s : list Z) : list Z :=
  flat_map (fun c => [if ignore_case then tolower8 c else c; 0]) s.
Definition r_search_keyword_new_wide (kwbuf : string) (bmstr : option string) (ignore_case : bool)
  : M unit (option RSearchKeyword) :=
  bm ← mask_of bmstr;
  mret (if mask_refused bmstr then None
        else set_icase ignore_case <$> r_search_keyword_new (wide ignore_case (chars kwbuf)) bm).

Definition r_search_keyword_new_hex (kwstr : string) (bmstr : option string) : M unit (option RSearchKeyword) := fun u =>
  match r_hex_str2bin kwstr true (malloc (S (String.length kwstr))) with
  | Undef e => Undef e
  | Ok kwlen kwbuf =>
      if kwlen <? 1 then Ok None u
      else
        let bmstr := match bmstr with Some EmptyString => None | _ => bmstr end in
        match mask_of bmstr u with
        | Undef e => Undef e
        | Ok bm u =>
            if is_some bmstr && negb (is_some bm) then Ok None u
            else Ok (r_search_keyword_new (take (Z.to_nat kwlen) kwbuf) bm) u
        end
  end.
End constructors.

(** A pattern [/text/options]: the first slash that no backslash precedes ends
    the text, which has 1 to 128 characters. *)
Fixpoint skip_isspace (s : string) : string :=
  match s with
  | String c s' => if (code c =? 32) || ((9 <=? code c) && (code c <=? 13)) then skip_isspace s' else s
  | EmptyString => s
  end.
Fixpoint take_regexp (prev : ascii) (s : string) : option (string * string) :=
  match s with
  | EmptyString => None
  | String c s' =>
      if Ascii.eqb c "/" && negb (Ascii.eqb prev "\") then Some (EmptyString, s')
      else '(w, r) ← take_regexp c s'; Some (String c w, r)
  end.
Fixpoint regexp_options (options : string) (ic : bool) : option bool :=
  match options with
  | EmptyString => Some ic
  | String "i" options => regexp_options options true
  | _ => None
  end.
Definition r_search_keyword_new_regexp (str : string) : option RSearchKeyword :=
  match skip_isspace str with
  | String "/" s =>
      '(w, options) ← take_regexp "/" s;
      let length := Z.of_nat (String.length w) in
      if (128 <? length) || (length <? 1) then None
      else
        ic ← regexp_options options false;
        Some (mk_kw (chars w) [] length 0 (repeat 0 (Z.to_nat R_SEARCH_DISTANCE_MAX)) 0 0 0 ic
                R_SEARCH_KEYWORD_TYPE_STRING 0)
  | _ => None
  end.

(** ** The state of a search *)

Section search.
Context {U : Type}.

(** The callback is given the keyword, by its position and as it is, and the
    client's data, and answers 0 to stop. *)
Definition RSearchCallback : Type := nat -> RSearchKeyword -> option U -> Z -> Z * option U.

Record RSearch := mk_search {
  n_kws : Z;
  mode : Z;
  pattern_size : Z;
  string_min : Z;
  string_max : Z;
  user : option U;
  callback : option RSearchCallback;
  hits : list RSearchHit;
  nhits : Z;
  distance : Z;
  inverse : bool;
  overlap : bool;
  contiguous : bool;
  align : Z;
  update : option Z;
  kws : list RSearchKeyword
}.

Definition set_n_kws (v : Z) (s : RSearch) : RSearch :=
  mk_search v (mode s) (pattern_size s) (string_min s) (string_max s) (user s) (callback s) (hits s) (nhits s) (distance s) (inverse s) (overlap s) (contiguous s) (align s) (update s) (kws s).
Definition set_mode (v : Z) (s : RSearch) : RSearch :=
  mk_search (n_kws s) v (pattern_size s) (string_min s) (string_max s) (user s) (callback s) (hits s) (nhits s) (distance s) (inverse s) (overlap s) (contiguous s) (align s) (update s) (kws s).
Definition set_pattern_size (v : Z) (s : RSearch) : RSearch :=
  mk_search (n_kws s) (mode s) v (string_min s) (string_max s) (user s) (callback s) (hits s) (nhits s) (distance s) (inverse s) (overlap s) (contiguous s) (align s) (update s) (kws s).
Definition set_string_min (v : Z) (s : RSearch) : RSearch :=
  mk_search (n_kws s) (mode s) (pattern_size s) v (string_max s) (user s) (callback s) (hits s) (nhits s) (distance s) (inverse s) (overlap s) (contiguous s) (align s) (update s) (kws s).
Definition set_string_max (v : Z) (s : RSearch) : RSearch :=
  mk_search (n_kws s) (mode s) (pattern_size s) (string_min s) v (user s) (callback s) (hits s) (nhits s) (distance s) (inverse s) (overlap s) (contiguous s) (align s) (update s) (kws s).
Definition set_user (v : option U) (s : RSearch) : RSearch :=
  mk_search (n_kws s) (mode s) (pattern_size s) (string_min s) (string_max s) v (callback s) (hits s) (nhits s) (distance s) (inverse s) (overlap s) (contiguous s) (align s) (update s) (kws s).
Definition set_callback (v : option RSearchCallback) (s : RSearch) : RSearch :=
  mk_search (n_kws s) (mode s) (pattern_size s) (string_min s) (string_max s) (user s) v (hits s) (nhits s) (distance s) (inverse s) (overlap s) (contiguous s) (align s) (update s) (kws s).
Definition set_hits (v : list RSearchHit) (s : RSearch) : RSearch :=
  mk_search (n_kws s) (mode s) (pattern_size s) (string_min s) (string_max s) (user s) (callback s) v (nhits s) (distance s) (inverse s) (overlap s) (contiguous s) (align s) (update s) (kws s).
Definition set_nhits (v : Z) (s : RSearch) : RSearch :=
  mk_search (n_kws s) (mode s) (pattern_size s) (string_min s) (string_max s) (user s) (callback s) (hits s) v (distance s) (inverse s) (overlap s) (contiguous s) (align s) (update s) (kws s).
Definition set_distance (v : Z) (s : RSearch) : RSearch :=
  mk_search (n_kws s) (mode s) (pattern_size s) (string_min s) (string_max s) (user s) (callback s) (hits s) (nhits s) v (inverse s) (overlap s) (contiguous s) (align s) (update s) (kws s).
Definition set_update (v : option Z) (s : RSearch) : RSearch :=
  mk_search (n_kws s) (mode s) (pattern_size s) (string_min s) (string_max s) (user s) (callback s) (hits s) (nhits s) (distance s) (inverse s) (overlap s) (contiguous s) (align s) v (kws s).
Definition set_kws (v : list RSearchKeyword) (s : RSearch) : RSearch :=
  mk_search (n_kws s) (mode s) (pattern_size s) (string_min s) (string_max s) (user s) (callback s) (hits s) (nhits s) (distance s) (inverse s) (overlap s) (contiguous s) (align s) (update s) v.

Definition get_kw (k : nat) : M RSearch RSearchKeyword := s ← gets id; lift UB_oob (kws s !! k).
Definition on_kw (k : nat) (f : RSearchKeyword -> RSearchKeyword) : M RSearch unit :=
  modify (fun s => set_kws (alter f k (kws s)) s).

(** [kw->idx[j]] and its assignment. *)
Definition get_idx (k : nat) (j : Z) : M RSearch Z := kw ← get_kw k; lift UB_oob (idx kw !! Z.to_nat j).
Definition put_idx (k : nat) (j v : Z) : M RSearch unit :=
  kw ← get_kw k;
  if j <? Z.of_nat (length (idx kw)) then on_kw k (set_idx (<[Z.to_nat j := u32 v]> (idx kw))) else undef UB_oob.

(** [buf[i]], where an overlap can make [i] negative. *)
Definition at_buf (buf : list Z) (i : Z) : M RSearch Z := if i <? 0 then undef UB_oob else load buf (Z.to_nat i).
End search.
Arguments RSearch U : clear implicits.
Arguments RSearchCallback U : clear implicits.

(** ** Operations *)

Section operations.
Context {U : Type}.
Notation RSearch := (RSearch U).

Definition r_search_hit_new (k : nat) (addr : Z) : M RSearch Z :=
  s ← gets id;
  kw ← get_kw k;
  if negb (align s =? 0) && negb (addr mod u64 (align s) =? 0) then mret 1
  else
    let next := u64 (addr + keyword_length kw) in
    if negb (contiguous s) && (negb (last kw =? 0) && (addr =? last kw)) then
      on_kw k (fun kw => set_last next (set_count (count kw - 1) kw)) ;; mret 1
    else
      (if contiguous s then mret tt else on_kw k (set_last next)) ;;
      match callback s with
      | Some f =>
          kw ← get_kw k;
          let '(r, u) := f k kw (user s) addr in
          modify (set_user u) ;; mret r
      | None => modify (fun s => set_hits (hits s ++ [mk_hit k addr]) s) ;; mret 1
      end.

Definition maskcmp (kw : RSearchKeyword) (c : Z) (kwidx : Z) : M RSearch bool :=
  kwidx ← lift UB_oob (idx kw !! Z.to_nat kwidx);
  b ← load (bin_keyword kw) (Z.to_nat kwidx);
  m ← load (bin_binmask kw) (Z.to_nat (kwidx mod binmask_length kw));
  let fold := if icase kw then tolower8 else id in
  mret (Z.land (fold c) m =? Z.land (fold b) m).

(** Whether the byte is the next one of the keyword. *)
Definition key_matches (k : nat) (c j : Z) : M RSearch bool :=
  kw ← get_kw k;
  if 0 <? binmask_length kw then maskcmp kw c j
  else
    x ← get_idx k j;
    ch ← load (bin_keyword kw) (Z.to_nat x);
    let fold := if icase kw then tolower8 else id in
    mret (fold ch =? fold c).

(** The test of the fall-back, in which the byte of the keyword is as it is. *)
Definition key_rematches (k : nat) (c j : Z) : M RSearch bool :=
  kw ← get_kw k;
  if 0 <? binmask_length kw then maskcmp kw c j
  else
    x ← get_idx k j;
    ch ← load (bin_keyword kw) (Z.to_nat x);
    mret (ch =? (if icase kw then tolower8 else id) c).

(** The bytes that matched are all the same one. *)
Definition is_tail (kw : RSearchKeyword) (k : Z) : bool :=
  match bin_keyword kw with
  | model :: rest => (0 <? k) && forallb (fun b => b =? model) (take (Z.to_nat (k - 1)) rest)
  | [] => 0 <? k
  end.

(** [inl r]: the function returns [r]; [inr i]: the position to go on from. *)
Definition advance (k : nat) (from i j : Z) : M RSearch (Z + Z) :=
  x ← get_idx k j;
  put_idx k j (x + 1) ;;
  kw ← get_kw k;
  if u32 (x + 1) =? keyword_length kw then
    s ← gets id;
    if inverse s then put_idx k j 0 ;; mret (inr i)
    else
      r ← r_search_hit_new k (u64 (from + i - keyword_length kw + 1));
      if r =? 0 then mret (inl (-1))
      else
        put_idx k j 0 ;;
        on_kw k (fun kw => set_count (count kw + 1) (set_kw_distance 0 kw)) ;;
        mret (inr (if overlap s && (1 <? keyword_length kw) then i - (keyword_length kw - 1) else i))
  else mret (inr i).

Definition try_key (k : nat) (from : Z) (buf : list Z) (i j : Z) : M RSearch (Z + Z) :=
  s ← gets id;
  c ← at_buf buf i;
  m ← key_matches k c j;
  if (m : bool) then advance k from i j
  else
    kw ← get_kw k;
    if inverse s then
      r ← r_search_hit_new k (u64 (from + i - keyword_length kw + 1));
      if r =? 0 then mret (inl (-1))
      else
        put_idx k j 0 ;;
        on_kw k (fun kw => set_count (count kw + 1) (set_kw_distance 0 kw)) ;;
        modify (fun s => set_nhits (nhits s + 1) s) ;;
        mret (inl 1)
    else if kw_distance kw <? distance s then
      x ← get_idx k (kw_distance kw);
      put_idx k (kw_distance kw + 1) x ;;
      on_kw k (set_kw_distance (kw_distance kw + 1)) ;;
      advance k from i j
    else
      x ← get_idx k j;
      put_idx k j (if is_tail kw x then x - 1 else 0) ;;
      on_kw k (set_kw_distance 0) ;;
      hit ← key_rematches k c j;
      if (hit : bool) then advance k from i j else mret (inr i).

(** [for (j = 0; j <= kw->distance; j++)]: [idx] has ten places, and an index
    behind them is an access outside it. *)
Fixpoint try_keys (fuel : nat) (k : nat) (from : Z) (buf : list Z) (i j : Z) : M RSearch (Z + Z) :=
  match fuel with
  | O => undef UB_oob
  | S fuel =>
      kw ← get_kw k;
      if kw_distance kw <? j then mret (inr i)
      else
        r ← try_key k from buf i j;
        match r with inl ret => mret (inl ret) | inr i => try_keys fuel k from buf i (j + 1) end
  end.

(** [r_list_foreach (s->kws, ..)]: [n] keywords from the [k]th on. *)
Fixpoint try_all (n k : nat) (from : Z) (buf : list Z) (i : Z) : M RSearch (Z + Z) :=
  match n with
  | O => mret (inr i)
  | S n =>
      s ← gets id;
      if inverse s && (0 <? nhits s) then mret (inl (-1))
      else
        r ← try_keys 12 k from buf i 0;
        match r with inl ret => mret (inl ret) | inr i => try_all n (S k) from buf i end
  end.

(** The loop over the bytes, in which an overlap steps back: [None] when the
    bound of turns is not enough.  The hits that are counted are forgotten at the
    end of every turn. *)
Fixpoint scan (fuel : nat) (from : Z) (buf : list Z) (len i : Z) : M RSearch (option Z) :=
  if len <=? i then mret (Some 0)
  else
    match fuel with
    | O => mret None
    | S fuel =>
        s ← gets id;
        r ← try_all (length (kws s)) 0 from buf i;
        match r with inl ret => mret (Some ret) | inr i => scan fuel from buf len (i + 1) end
    end.
Definition r_search_mybinparse_update (fuel : nat) (from : Z) (buf : list Z) (len : Z) : M RSearch (option Z) :=
  scan fuel from buf len 0.

(** The search for differences of bytes: [pch], the byte before, is replaced
    after every comparison. *)
Definition delta_key (k : nat) (from : Z) (buf : list Z) (i j pch : Z) : M RSearch (Z + Z) :=
  x ← get_idx k j;
  kw ← get_kw k;
  ch ← load (bin_keyword kw) (Z.to_nat x);
  ch2 ← at_buf buf i;
  if pch + s8 ch =? ch2 then
    put_idx k j (x + 1) ;;
    if u32 (x + 1) =? keyword_length kw then
      r ← r_search_hit_new k (u64 (from + i - keyword_length kw + 1));
      if r =? 0 then mret (inl (-1))
      else
        put_idx k j 0 ;;
        on_kw k (fun kw => set_count (count kw + 1) (set_kw_distance 0 kw)) ;;
        mret (inr ch2)
    else mret (inr ch2)
  else mret (inr ch2).

Fixpoint delta_keys (fuel : nat) (k : nat) (from : Z) (buf : list Z) (i j pch : Z) : M RSearch (Z + Z) :=
  match fuel with
  | O => undef UB_oob
  | S fuel =>
      kw ← get_kw k;
      if kw_distance kw <? j then mret (inr pch)
      else
        r ← delta_key k from buf i j pch;
        match r with inl ret => mret (inl ret) | inr pch => delta_keys fuel k from buf i (j + 1) pch end
  end.

Fixpoint delta_all (n k : nat) (from : Z) (buf : list Z) (i pch : Z) : M RSearch (Z + Z) :=
  match n with
  | O => mret (inr pch)
  | S n =>
      r ← delta_keys 12 k from buf i 0 pch;
      match r with inl ret => mret (inl ret) | inr pch => delta_all n (S k) from buf i pch end
  end.

Fixpoint delta_scan (n : nat) (from : Z) (buf : list Z) (i pch : Z) : M RSearch Z :=
  match n with
  | O => mret 0
  | S n =>
      s ← gets id;
      r ← delta_all (length (kws s)) 0 from buf i pch;
      match r with inl ret => mret ret | inr pch => delta_scan n from buf (i + 1) pch end
  end.
Definition r_search_deltakey_update (from : Z) (buf : list Z) (len : Z) : M RSearch Z :=
  delta_scan (Z.to_nat len) from buf 0 0.

Definition r_search_magic_update (from : Z) (buf : list Z) (len : Z) : M RSearch Z := mret 0.

(** ** Settings *)

Definition r_search_set_string_limits (min max : Z) : M RSearch bool :=
  if max <? min then mret false
  else modify (set_string_max max ∘ set_string_min min) ;; mret true.

(** The mode chooses the function of [s->update]; only the mode of patterns has
    none. *)
Definition has_update (mode : Z) : bool :=
  bool_decide (mode ∈ [R_SEARCH_KEYWORD; R_SEARCH_XREFS; R_SEARCH_REGEXP; R_SEARCH_AES; R_SEARCH_STRING;
                       R_SEARCH_DELTAKEY; R_SEARCH_MAGIC]).
Definition r_search_set_mode (m : Z) : M RSearch bool :=
  modify (set_update (if has_update m then Some m else None)) ;;
  if has_update m || (m =? R_SEARCH_PATTERN) then modify (set_mode m) ;; mret true else mret false.

Definition search0 : RSearch := mk_search 0 0 0 0 0 None None [] 0 0 false false false 0 None [].
Definition r_search_new (m : Z) : option RSearch :=
  match r_search_set_mode m search0 with
  | Ok true s =>
      Some (mk_search (n_kws s) (mode s) 0 3 255 None None [] (nhits s) 0 false false false 0 (update s) [])
  | _ => None
  end.

Definition r_search_begin : M RSearch Z :=
  modify (fun s => set_kws ((fun kw => set_last 0 (set_kw_distance 0 (set_idx (<[0%nat := 0]> (idx kw)) (set_count 0 kw))))
                              <$> kws s) s) ;;
  mret 1.

Definition r_search_set_distance (dist : Z) : M RSearch unit :=
  modify (set_distance (if R_SEARCH_DISTANCE_MAX <=? dist then 0 else if 0 <? dist then dist else 0)).
Definition r_search_pattern_size (size : Z) : M RSearch unit := modify (set_pattern_size (u32 size)).
Definition r_search_set_callback (f : option (RSearchCallback U)) (u : option U) : M RSearch unit :=
  modify (set_user u ∘ set_callback f).

Definition r_search_kw_add (kw : option RSearchKeyword) : M RSearch bool :=
  match kw with
  | None => mret false
  | Some kw =>
      modify (fun s => set_kws (kws s ++ [set_kwidx (n_kws s) kw]) (set_n_kws (n_kws s + 1) s)) ;; mret true
  end.
Definition r_search_kw_reset : M RSearch unit := modify (set_kws []).
Definition r_search_reset (m : Z) : M RSearch bool :=
  modify (set_hits [] ∘ set_nhits 0) ;;
  r_search_kw_reset ;;
  r_search_set_mode m.

(** [s->update]; [other] stands for the searches of the other files. *)
Definition r_search_update (other : Z -> Z -> list Z -> Z -> M RSearch (option Z))
    (fuel : nat) (from : Z) (buf : list Z) (len : Z) : M RSearch (option Z) :=
  s ← gets id;
  match update s with
  | None => mret (Some (-1))
  | Some u =>
      ret ← (if u =? R_SEARCH_KEYWORD then r_search_mybinparse_update fuel from buf len
             else if u =? R_SEARCH_DELTAKEY then r ← r_search_deltakey_update from buf len; mret (Some r)
             else if u =? R_SEARCH_MAGIC then r ← r_search_magic_update from buf len; mret (Some r)
             else other u from buf len);
      mret (if mode s =? R_SEARCH_AES then (fun _ => Z.min R_SEARCH_AES_BOX_SIZE len) <$> ret else ret)
  end.
End operations.

(** The callback of [r_search_find], whose data are the hits. *)
Definition listcb : RSearchCallback (list RSearchHit) :=
  fun k _ user addr => match user with Some l => (1, Some (l ++ [mk_hit k addr])) | None => (1, None) end.
Definition r_search_find other (fuel : nat) (addr : Z) (buf : list Z) (len : Z)
  : M (RSearch (list RSearchHit)) (option (list RSearchHit)) :=
  r_search_set_callback (Some listcb) (Some []) ;;
  ret ← r_search_update other fuel addr buf len;
  s ← gets id;
  mret (match ret with Some _ => user s | None => None end).
