(* ===== verification/SearchFacts.v ===== *)
(** * What the search for keywords finds

    Facts of [Search.r_search_mybinparse_update]: on keywords whose first byte
    matches nowhere else in them the automaton reports every occurrence, however
    the stream is cut into blocks; on others it misses occurrences and reports
    false ones. *)

From S2P Require Import Prelude Buf Search.

(** ** Keywords *)

(** Whether the byte [c] matches the [p]th one of the keyword. *)
Definition matches (kw : RSearchKeyword) (p : nat) (c : Z) : bool :=
  let fold := if icase kw then tolower8 else id in
  if 0 <? binmask_length kw then
    let m := byte_at (bin_binmask kw) (Z.to_nat (Z.of_nat p mod binmask_length kw)) in
    Z.land (fold c) m =? Z.land (fold (byte_at (bin_keyword kw) p)) m
  else fold (byte_at (bin_keyword kw) p) =? fold c.

Notation size kw := (length (bin_keyword kw)).

(** What [r_search_keyword_new] builds, with the state of a search that
    accepts no distance. *)
Record wf_kw (kw : RSearchKeyword) : Prop := {
  wf_size : keyword_length kw = Z.of_nat (size kw);
  wf_some : (0 < size kw)%nat;
  wf_width : Z.of_nat (size kw) < 2 ^ 32;
  wf_bytes : bytes (bin_keyword kw);
  wf_mask : binmask_length kw = Z.of_nat (length (bin_binmask kw));
  wf_idx : length (idx kw) = 10%nat;
  wf_distance : kw_distance kw = 0
}.

(** The first byte of the keyword matches at no other place of it.  The
    fall-back compares the bytes of the keyword as they are, so that the first
    one has to be in lower case when the case is ignored. *)
Record anchored (kw : RSearchKeyword) : Prop := {
  anc_lower : icase kw = true -> binmask_length kw = 0 -> tolower8 (byte_at (bin_keyword kw) 0) = byte_at (bin_keyword kw) 0;
  anc_head : forall p c, (0 < p < size kw)%nat -> is_byte c -> matches kw 0 c = true -> matches kw p c = false
}.

(** The last [k] bytes that were read, the latest one first in [r], match the
    first [k] ones of the keyword. *)
Fixpoint partial (kw : RSearchKeyword) (k : nat) (r : list Z) : bool :=
  match k, r with
  | O, _ => true
  | S k, c :: r => matches kw k c && partial kw k r
  | S _, [] => false
  end.
Definition occurs (kw : RSearchKeyword) (r : list Z) : bool := partial kw (size kw) r.

Lemma partial_length kw k r : partial kw k r = true -> (k <= length r)%nat.
Proof.
  revert r. induction k as [|k IH]; intros r; [lia|]. destruct r as [|c r]; [done|].
  cbn [partial length]. intros [_ E]%andb_true_iff. specialize (IH r E). lia.
Qed.

Lemma partial_drop kw j k r : partial kw (j + k) r = true -> partial kw k (drop j r) = true.
Proof.
  revert r. induction j as [|j IH]; intros r; [done|]. destruct r as [|c r]; [done|].
  cbn [Nat.add partial drop]. intros [_ E]%andb_true_iff. by apply IH.
Qed.

(** Two prefixes of an anchored keyword cannot end at the same byte. *)
Lemma partial_anchored kw k d r :
  anchored kw -> bytes r -> (0 < d)%nat -> (d + S k <= size kw)%nat ->
  partial kw (S k) r = true -> partial kw (d + S k) r = true -> False.
Proof.
  intros Ha Hr Hd. revert r Hr. induction k as [|k IH]; intros r Hr Hs; (destruct r as [|c r]; [done|inversion_clear Hr]).
  - rewrite Nat.add_1_r. cbn [partial]. intros [E0 _]%andb_true_iff [Ed _]%andb_true_iff.
    by rewrite (anc_head kw Ha d c) in Ed by (done || lia).
  - rewrite Nat.add_succ_r. cbn [partial]. intros [_ E0]%andb_true_iff [_ Ed]%andb_true_iff.
    revert E0 Ed. apply IH; [done|lia].
Qed.

Lemma partial_unique kw k k' r :
  anchored kw -> bytes r -> (k <= size kw)%nat -> (k' <= size kw)%nat -> (0 < k)%nat -> (0 < k')%nat ->
  partial kw k r = true -> partial kw k' r = true -> k = k'.
Proof.
  intros Ha Hr Hk Hk' H0 H0' E E'. destruct (Nat.lt_trichotomy k k') as [H|[H|H]]; [exfalso|done|exfalso].
  - destruct k as [|k]; [lia|]. apply (partial_anchored kw k (k' - S k) r Ha Hr); [lia|lia|done|].
    by replace (k' - S k + S k)%nat with k' by lia.
  - destruct k' as [|k']; [lia|]. apply (partial_anchored kw k' (k - S k') r Ha Hr); [lia|lia|done|].
    by replace (k - S k' + S k')%nat with k by lia.
Qed.

Lemma matches_self kw p : matches kw p (byte_at (bin_keyword kw) p) = true.
Proof. unfold matches. destruct (0 <? _); apply Z.eqb_refl. Qed.

(** An anchored keyword does not begin with a byte twice, so that no part of
    more than one byte is taken for a tail. *)
Lemma anchored_not_tail kw k :
  wf_kw kw -> anchored kw -> (2 <= k < size kw)%nat -> is_tail kw (Z.of_nat k) = false.
Proof.
  intros Hw Ha Hk. pose proof (anc_head kw Ha 1 (byte_at (bin_keyword kw) 1)) as Hh.
  pose proof (matches_self kw 0) as M0. pose proof (matches_self kw 1) as M1.
  pose proof (byte_at_range (bin_keyword kw) 1 (wf_bytes kw Hw)) as Hb. unfold is_tail.
  destruct (bin_keyword kw) as [|b0 [|b1 rest]] eqn:E; cbn [length] in Hk; [lia|lia|].
  rewrite (proj2 (Z.ltb_lt _ _)) by lia. cbn [andb].
  replace (Z.to_nat (Z.of_nat k - 1)) with (S (k - 2)) by lia. cbn [take forallb].
  change (byte_at (b0 :: b1 :: rest) 1) with b1 in *. change (byte_at (b0 :: b1 :: rest) 0) with b0 in *.
  destruct (Z.eqb_spec b1 b0) as [->|]; [|done]. rewrite Hh in M1; [done|cbn [length]; lia|done|done].
Qed.

(** ** The automaton *)

(** [p] is the longest part of the keyword, short of all of it, that ends the
    bytes that were read. *)
Record tracks (kw : RSearchKeyword) (p : nat) (r : list Z) : Prop := {
  tr_lt : (p < size kw)%nat;
  tr_partial : partial kw p r = true;
  tr_longest : forall k, (k < size kw)%nat -> partial kw k r = true -> (k <= p)%nat
}.

(** The length that matches after one more byte. *)
Definition next (kw : RSearchKeyword) (p : nat) (c : Z) : nat :=
  if matches kw p c then S p else if matches kw 0 c then 1 else 0.

Lemma next_longest kw p r c :
  anchored kw -> is_byte c -> bytes r -> tracks kw p r ->
  (next kw p c <= size kw)%nat /\ partial kw (next kw p c) (c :: r) = true
  /\ forall k, (k <= size kw)%nat -> partial kw k (c :: r) = true -> (k <= next kw p c)%nat.
Proof.
  intros Ha Hc Hr [Hp E Hl]. unfold next. destruct (matches kw p c) eqn:Em; [|destruct (matches kw 0 c) eqn:E0].
  - split_and!; [lia|cbn [partial]; by rewrite Em, E|]. intros [|k] Hk; [lia|]. cbn [partial].
    intros [_ Ek]%andb_true_iff. specialize (Hl k ltac:(lia) Ek). lia.
  - split_and!; [lia|cbn [partial]; by rewrite E0|]. intros k Hk Ek. destruct k as [|k]; [lia|].
    enough (S k = 1)%nat by lia. apply (partial_unique kw _ _ (c :: r)); try lia; try done; [by constructor|].
    cbn [partial]. by rewrite E0.
  - split_and!; [lia|done|]. intros [|k] Hk; [lia|]. cbn [partial]. intros [Ek1 Ek]%andb_true_iff. exfalso.
    specialize (Hl k ltac:(lia) Ek). destruct k as [|k]; [congruence|].
    assert (S k = p) as <-; [|congruence]. by apply (partial_unique kw _ _ r); try lia.
Qed.

Lemma occurs_next kw p r c :
  anchored kw -> is_byte c -> bytes r -> tracks kw p r -> occurs kw (c :: r) = (next kw p c =? size kw)%nat.
Proof.
  intros Ha Hc Hr Ht. destruct (next_longest kw p r c Ha Hc Hr Ht) as (Hn & E & Hl). unfold occurs.
  destruct (Nat.eqb_spec (next kw p c) (size kw)) as [<-|Hne]; [done|].
  destruct (partial kw (size kw) (c :: r)) eqn:Eo; [|done]. specialize (Hl (size kw) ltac:(lia) Eo). lia.
Qed.

(** After an occurrence the search starts again. *)
Definition restart (kw : RSearchKeyword) (n : nat) : nat := if (n =? size kw)%nat then 0 else n.

Lemma restart_tracks kw p r c :
  wf_kw kw -> anchored kw -> is_byte c -> bytes r -> tracks kw p r -> tracks kw (restart kw (next kw p c)) (c :: r).
Proof.
  intros Hw Ha Hc Hr Ht. destruct (next_longest kw p r c Ha Hc Hr Ht) as (Hn & E & Hl). unfold restart.
  pose proof (wf_some kw Hw). destruct (Nat.eqb_spec (next kw p c) (size kw)) as [Es|Hne].
  - split; [lia|done|]. intros k Hk Ek. destruct k as [|k]; [lia|]. rewrite Es in E.
    assert (S k = size kw) as H1; [|lia]. apply (partial_unique kw _ _ (c :: r)); try lia; try done. by constructor.
  - split; [lia|done|]. intros k Hk. apply Hl. lia.
Qed.

(** ** The last occurrence *)

(** The address behind the last occurrence, 0 when there was none. *)
Fixpoint last_end (kw : RSearchKeyword) (base : Z) (r : list Z) : Z :=
  if occurs kw r then base + Z.of_nat (length r)
  else match r with [] => 0 | _ :: r => last_end kw base r end.

(** An occurrence is ignored when another one ends where it starts, unless
    contiguous ones are asked for. *)
Definition reported (ct : bool) (kw : RSearchKeyword) (r : list Z) : bool :=
  occurs kw r && (ct || negb (occurs kw (drop (size kw) r))).

Lemma last_end_bound kw base r : 0 <= base -> 0 <= last_end kw base r <= base + Z.of_nat (length r).
Proof.
  intros Hb. induction r as [|c r IH]; cbn [last_end length]; destruct (occurs kw _); lia.
Qed.

Lemma last_end_skip kw base r m :
  (forall j, (j < m)%nat -> occurs kw (drop j r) = false) -> last_end kw base r = last_end kw base (drop m r).
Proof.
  revert r. induction m as [|m IH]; intros r Hj; [by rewrite drop_0|]. destruct r as [|c r]; [done|].
  pose proof (Hj 0%nat ltac:(lia)) as H0. cbn [drop] in H0. cbn [last_end drop]. rewrite H0.
  apply IH. intros j Hm. apply (Hj (S j)). lia.
Qed.

(** The comparison of [kw->last] with the address of an occurrence. *)
Lemma last_end_adjacent kw base c r :
  anchored kw -> wf_kw kw -> bytes (c :: r) -> 0 <= base -> occurs kw (c :: r) = true ->
  let addr := base + Z.of_nat (S (length r)) - Z.of_nat (size kw) in
  negb (last_end kw base r =? 0) && (addr =? last_end kw base r) = occurs kw (drop (size kw) (c :: r)).
Proof.
  intros Ha Hw Hb H0 Eo addr. pose proof (wf_some kw Hw) as Hs. pose proof (partial_length _ _ _ Eo) as Hlen. cbn [length] in Hlen.
  assert (last_end kw base r = last_end kw base (drop (size kw - 1) r)) as ->.
  { apply last_end_skip. intros j Hj. destruct (occurs kw (drop j r)) eqn:E; [exfalso|done].
    change (drop j r) with (drop (S j) (c :: r)) in E.
    assert (partial kw (size kw - S j) (drop (S j) (c :: r)) = true) as E2.
    { apply partial_drop. by replace (S j + (size kw - S j))%nat with (size kw) by lia. }
    pose proof (partial_unique kw (size kw - S j) (size kw) (drop (S j) (c :: r)) Ha) as Hu.
    assert (size kw - S j = size kw)%nat; [|lia]. apply Hu; try lia; try done. by apply Forall_drop. }
  replace (drop (size kw) (c :: r)) with (drop (size kw - 1) r) by (destruct (size kw) as [|n]; [lia|by rewrite Nat.sub_succ, Nat.sub_0_r]).
  pose proof (length_drop r (size kw - 1)) as Hd. set (d := drop (size kw - 1) r) in *. unfold addr.
  destruct d as [|x d'] eqn:Ed; cbn [last_end]; [destruct (occurs kw []) eqn:E|destruct (occurs kw (x :: d')) eqn:E].
  - apply partial_length in E. simpl in E. lia.
  - done.
  - rewrite (proj2 (Z.eqb_neq _ 0)) by (cbn [length] in *; lia). apply Z.eqb_eq. cbn [length] in *. lia.
  - pose proof (last_end_bound kw base d' H0) as Hbd. cbn [length] in Hd.
    destruct (Z.eqb_spec (last_end kw base d') 0); [done|]. apply Z.eqb_neq. lia.
Qed.

(** ** The code on one keyword and one byte *)

Section runs.
Context {U : Type}.
Implicit Types s : RSearch U.

(** The settings for which the occurrences are all reported. *)
Record plain (ct : bool) s : Prop := {
  pl_distance : distance s = 0;
  pl_inverse : inverse s = false;
  pl_overlap : overlap s = false;
  pl_contiguous : contiguous s = ct;
  pl_align : align s = 0;
  pl_callback : callback s = None
}.

Definition upd s (k : nat) (kw : RSearchKeyword) : RSearch U := set_kws (<[k := kw]> (kws s)) s.

(** The keyword [kw] with [p] bytes matched, [n] hits and the last one ending at
    [l]. *)
Definition at_state (kw : RSearchKeyword) (p : nat) (t : list Z) (n l : Z) : RSearchKeyword :=
  set_last l (set_count n (set_idx (Z.of_nat p :: t) kw)).

Lemma upd_same s k kw : kws s !! k = Some kw -> upd s k kw = s.
Proof. intros E. unfold upd. rewrite list_insert_id by done. by destruct s. Qed.
Lemma upd_upd s k kw kw' : upd (upd s k kw) k kw' = upd s k kw'.
Proof. unfold upd. simpl. by rewrite list_insert_insert_eq. Qed.
Lemma upd_lookup s k kw kw' : kws s !! k = Some kw -> kws (upd s k kw') !! k = Some kw'.
Proof. intros E%lookup_lt_Some. by apply list_lookup_insert_eq. Qed.
Lemma upd_plain ct s k kw : plain ct s -> plain ct (upd s k kw).
Proof. by intros []. Qed.

Lemma get_kw_run s k kw : kws s !! k = Some kw -> get_kw k s = Ok kw s.
Proof. intros E. unfold get_kw. mrun. by rewrite E. Qed.
Lemma on_kw_run s k kw f : kws s !! k = Some kw -> on_kw k f s = Ok tt (upd s k (f kw)).
Proof.
  intros E. unfold on_kw, upd. mrun. do 2 f_equal. apply list_eq. intros j. destruct (decide (j = k)) as [->|].
  - rewrite list_lookup_alter_eq, E. symmetry. apply list_lookup_insert_eq. by apply lookup_lt_Some in E.
  - by rewrite list_lookup_alter_ne, list_lookup_insert_ne by done.
Qed.

Context (kw : RSearchKeyword) (Hw : wf_kw kw) (ct : bool).

Lemma get_idx_run s k p t n l :
  kws s !! k = Some (at_state kw p t n l) -> get_idx k 0 s = Ok (Z.of_nat p) s.
Proof. intros E. unfold get_idx. rewrite run_bind, (get_kw_run _ _ _ E). done. Qed.
Lemma put_idx_run s k p q t n l :
  kws s !! k = Some (at_state kw p t n l) -> (q <= size kw)%nat ->
  put_idx k 0 (Z.of_nat q) s = Ok tt (upd s k (at_state kw q t n l)).
Proof.
  intros E Hq. unfold put_idx. rewrite run_bind, (get_kw_run _ _ _ E). rewrite (proj2 (Z.ltb_lt _ _)) by (simpl; lia).
  rewrite (on_kw_run _ _ _ _ E). pose proof (wf_width kw Hw). by rewrite u32_id by lia.
Qed.

Lemma byte_at_load {S} (b : list Z) p (s : S) : (p < length b)%nat -> load b p s = Ok (byte_at b p) s.
Proof.
  intros Hp. destruct (lookup_lt_is_Some_2 b p Hp) as [x E]. rewrite (load_run _ _ _ _ E). unfold byte_at. by rewrite E.
Qed.

Lemma maskcmp_run s p t n l c :
  0 < binmask_length kw -> (p < size kw)%nat -> maskcmp (at_state kw p t n l) c 0 s = Ok (matches kw p c) s.
Proof.
  intros Hm Hp. unfold maskcmp, matches. rewrite (proj2 (Z.ltb_lt _ _) Hm). rewrite run_bind. cbn [idx at_state set_last set_count set_idx].
  change (lift UB_oob ((Z.of_nat p :: t) !! Z.to_nat 0) s) with (Ok (Z.of_nat p) s). cbv beta iota.
  rewrite run_bind, byte_at_load, Nat2Z.id by (cbn; lia). cbv beta iota. pose proof (wf_mask kw Hw) as Em.
  pose proof (Z.mod_pos_bound (Z.of_nat p) (binmask_length kw) Hm).
  rewrite run_bind, byte_at_load by (cbn [bin_binmask binmask_length at_state set_last set_count set_idx]; lia). done.
Qed.

Lemma key_matches_run s k p t n l c :
  kws s !! k = Some (at_state kw p t n l) -> (p < size kw)%nat -> key_matches k c 0 s = Ok (matches kw p c) s.
Proof.
  intros E Hp. unfold key_matches. rewrite run_bind, (get_kw_run _ _ _ E).
  change (binmask_length (at_state kw p t n l)) with (binmask_length kw). destruct (Z.ltb_spec 0 (binmask_length kw)) as [Hm|Hm].
  - by apply maskcmp_run.
  - rewrite run_bind, (get_idx_run _ _ _ _ _ _ E), run_bind, byte_at_load, Nat2Z.id by (cbn; lia).
    unfold matches. by rewrite (proj2 (Z.ltb_ge _ _) Hm).
Qed.

Lemma key_rematches_run s k t n l c :
  anchored kw -> kws s !! k = Some (at_state kw 0 t n l) -> key_rematches k c 0 s = Ok (matches kw 0 c) s.
Proof.
  intros Ha E. pose proof (wf_some kw Hw). pose proof (wf_mask kw Hw). unfold key_rematches. rewrite run_bind, (get_kw_run _ _ _ E).
  change (binmask_length (at_state kw 0 t n l)) with (binmask_length kw). destruct (Z.ltb_spec 0 (binmask_length kw)) as [Hm|Hm].
  - by apply maskcmp_run.
  - rewrite run_bind, (get_idx_run _ _ _ _ _ _ E), run_bind, byte_at_load by (cbn; lia).
    unfold matches. rewrite (proj2 (Z.ltb_ge _ _) Hm). change (icase (at_state kw 0 t n l)) with (icase kw).
    pose proof (anc_lower kw Ha) as Hl. cbn [Z.of_nat Z.to_nat]. change (bin_keyword (at_state kw 0 t n l)) with (bin_keyword kw).
    destruct (icase kw); [by rewrite Hl by lia|done].
Qed.

(** The hit at the end of an occurrence: [l'] is what [kw->last] becomes. *)
Lemma hit_new_run s k p t n l addr :
  plain ct s -> kws s !! k = Some (at_state kw p t n l) ->
  let ignored := negb ct && (negb (l =? 0) && (addr =? l)) in
  exists n' l', r_search_hit_new k addr s
      = Ok 1 (set_hits (hits s ++ if ignored then [] else [mk_hit k addr]) (upd s k (at_state kw p t n' l')))
    /\ (ct = false -> l' = u64 (addr + Z.of_nat (size kw))).
Proof.
  intros Hp E ignored. unfold r_search_hit_new. rewrite run_bind, run_gets. cbv beta iota. unfold id.
  rewrite run_bind, (get_kw_run _ _ _ E). cbv beta iota zeta. rewrite (pl_align ct s Hp), (pl_contiguous ct s Hp), (pl_callback ct s Hp).
  change (last (at_state kw p t n l)) with l. change (keyword_length (at_state kw p t n l)) with (keyword_length kw).
  rewrite (wf_size kw Hw). change (negb (0 =? 0)) with false. cbn [andb]. fold ignored. destruct ignored eqn:Ei.
  - rewrite run_bind, (on_kw_run _ _ _ _ E), app_nil_r. exists (n - 1), (u64 (addr + Z.of_nat (size kw))). split; [|done].
    done.
  - destruct ct eqn:Ec.
    + exists n, l. rewrite run_bind, run_ret, run_bind, run_modify. by rewrite upd_same by done.
    + exists n, (u64 (addr + Z.of_nat (size kw))). rewrite run_bind, (on_kw_run _ _ _ _ E), run_bind, run_modify. done.
Qed.

Lemma at_state_settle p t n l m : set_count m (set_kw_distance 0 (at_state kw p t n l)) = at_state kw p t m l.
Proof. pose proof (wf_distance kw Hw) as E. destruct kw. simpl in *. by subst. Qed.

(** One more byte is matched: an occurrence is reported when it is the last. *)
Lemma advance_run s k from i p t n l base (r : list Z) :
  plain ct s -> kws s !! k = Some (at_state kw p t n l) -> (p < size kw)%nat ->
  (S p = size kw -> u64 (from + i - Z.of_nat (size kw) + 1) = base + Z.of_nat (S (length r)) - Z.of_nat (size kw)) ->
  let ignored := negb ct && (negb (l =? 0) && (base + Z.of_nat (S (length r)) - Z.of_nat (size kw) =? l)) in
  let hit := (S p =? size kw)%nat in
  exists n' l', advance k from i 0 s
      = Ok (inr i) (set_hits (hits s ++ if hit && negb ignored then [mk_hit k (base + Z.of_nat (S (length r)) - Z.of_nat (size kw))] else [])
                      (upd s k (at_state kw (restart kw (S p)) t n' l')))
    /\ (ct = false -> l' = if hit then u64 (base + Z.of_nat (S (length r))) else l).
Proof.
  intros Hp E Hlt Ea ignored hit. pose proof (wf_width kw Hw). unfold advance. rewrite run_bind, (get_idx_run _ _ _ _ _ _ E). cbv beta iota.
  replace (Z.of_nat p + 1) with (Z.of_nat (S p)) by lia.
  rewrite run_bind, (put_idx_run _ _ _ (S p) _ _ _ E) by lia. cbv beta iota. set (s1 := upd s k _).
  assert (kws s1 !! k = Some (at_state kw (S p) t n l)) as E1 by (by eapply upd_lookup).
  assert (plain ct s1) as Hp1 by (by apply upd_plain).
  rewrite run_bind, (get_kw_run _ _ _ E1). cbv beta iota. change (keyword_length (at_state kw (S p) t n l)) with (keyword_length kw).
  rewrite (wf_size kw Hw), u32_id by lia. unfold hit, restart. destruct (Nat.eqb_spec (S p) (size kw)) as [Es|Hne].
  - rewrite (proj2 (Z.eqb_eq _ _)) by lia. rewrite run_bind, run_gets. cbv beta iota. unfold id. rewrite (pl_inverse ct s1 Hp1), (Ea Es).
    destruct (hit_new_run s1 k (S p) t n l (base + Z.of_nat (S (length r)) - Z.of_nat (size kw)) Hp1 E1) as (n' & l' & Er & Hl).
    rewrite run_bind, Er. cbv beta iota. change (1 =? 0) with false. cbv iota. fold ignored. set (s2 := set_hits _ _).
    assert (kws s2 !! k = Some (at_state kw (S p) t n' l')) as E2 by (by eapply (upd_lookup s1)).
    change (put_idx k 0 0) with (put_idx (U := U) k 0 (Z.of_nat 0)). rewrite run_bind, (put_idx_run _ _ _ 0 _ _ _ E2) by lia. cbv beta iota.
    rewrite run_bind, (on_kw_run _ _ (at_state kw 0 t n' l')) by (by eapply upd_lookup). cbv beta iota.
    rewrite at_state_settle, (pl_overlap ct s1 Hp1). cbn [andb].
    exists (count (at_state kw 0 t n' l') + 1), l'. split; [|intros Hc; rewrite (Hl Hc); f_equal; lia].
    rewrite run_ret, upd_upd. unfold s2, s1, upd. simpl. rewrite !list_insert_insert_eq. by destruct ignored.
  - rewrite (proj2 (Z.eqb_neq _ _)) by lia. rewrite run_ret. exists n, l. split; [|done]. cbn [andb]. rewrite app_nil_r.
    unfold s1, upd. by destruct s.
Qed.

Lemma try_key_run s k from buf i p t n l base (r : list Z) c :
  anchored kw -> plain ct s -> kws s !! k = Some (at_state kw p t n l) -> (p < size kw)%nat ->
  0 <= i -> buf !! Z.to_nat i = Some c ->
  (next kw p c = size kw -> u64 (from + i - Z.of_nat (size kw) + 1) = base + Z.of_nat (S (length r)) - Z.of_nat (size kw)) ->
  let ignored := negb ct && (negb (l =? 0) && (base + Z.of_nat (S (length r)) - Z.of_nat (size kw) =? l)) in
  let hit := (next kw p c =? size kw)%nat in
  exists n' l', try_key k from buf i 0 s
      = Ok (inr i) (set_hits (hits s ++ if hit && negb ignored then [mk_hit k (base + Z.of_nat (S (length r)) - Z.of_nat (size kw))] else [])
                      (upd s k (at_state kw (restart kw (next kw p c)) t n' l')))
    /\ (ct = false -> l' = if hit then u64 (base + Z.of_nat (S (length r))) else l).
Proof.
  intros Ha Hp E Hlt Hi Hc Ea ignored hit. unfold try_key. rewrite run_bind, run_gets. cbv beta iota. unfold id.
  unfold at_buf. rewrite (proj2 (Z.ltb_ge i 0)) by done. rewrite run_bind, (load_run _ _ _ _ Hc). cbv beta iota.
  rewrite run_bind, (key_matches_run _ _ _ _ _ _ _ E Hlt). unfold hit, next in *. destruct (matches kw p c) eqn:Em.
  { by apply (advance_run s k from i p t n l base r). }
  cbv beta iota. rewrite run_bind, (get_kw_run _ _ _ E). cbv beta iota. rewrite (pl_inverse ct s Hp), (pl_distance ct s Hp).
  change (kw_distance (at_state kw p t n l)) with (kw_distance kw). rewrite (wf_distance kw Hw). change (0 <? 0) with false. cbv iota.
  rewrite run_bind, (get_idx_run _ _ _ _ _ _ E). cbv beta iota.
  assert ((if is_tail (at_state kw p t n l) (Z.of_nat p) then Z.of_nat p - 1 else 0) = Z.of_nat 0) as ->.
  { change (is_tail (at_state kw p t n l)) with (is_tail kw). destruct (decide (2 <= p)%nat).
    - by rewrite anchored_not_tail by (done || lia).
    - destruct p as [|[|p]]; [|by destruct (is_tail kw _)|lia]. unfold is_tail. by destruct (bin_keyword kw). }
  rewrite run_bind, (put_idx_run _ _ _ 0 _ _ _ E) by lia. cbv beta iota. set (s1 := upd s k (at_state kw 0 t n l)).
  assert (kws s1 !! k = Some (at_state kw 0 t n l)) as E1 by (by eapply upd_lookup).
  rewrite run_bind, (on_kw_run _ _ _ _ E1). cbv beta iota.
  assert (set_kw_distance 0 (at_state kw 0 t n l) = at_state kw 0 t n l) as -> by apply (at_state_settle 0 t n l n).
  rewrite (upd_same _ _ _ E1), run_bind, (key_rematches_run _ _ _ _ _ _ Ha E1). cbv beta iota.
  destruct (matches kw 0 c) eqn:E0.
  - assert (plain ct s1) as Hp1 by (by apply upd_plain). pose proof (wf_some kw Hw).
    destruct (advance_run s1 k from i 0 t n l base r Hp1 E1 ltac:(done) Ea) as (n' & l' & -> & Hl). exists n', l'.
    split; [|done]. unfold s1. by rewrite upd_upd.
  - pose proof (wf_some kw Hw). unfold restart. rewrite (proj2 (Nat.eqb_neq 0 (size kw))) by lia. cbn [andb].
    exists n, l. split; [|done]. rewrite run_ret, app_nil_r. unfold s1. by destruct s.
Qed.

(** What is known of a keyword after the bytes [r], the first of which was at
    [base]. *)
Definition follows (base : Z) (r : list Z) (k : RSearchKeyword) : Prop :=
  exists p t n l, k = at_state kw p t n l /\ tracks kw p r /\ (ct = false -> l = last_end kw base r).

Definition report (k : nat) (base : Z) (r : list Z) : list RSearchHit :=
  if reported ct kw r then [mk_hit k (base + Z.of_nat (length r) - Z.of_nat (size kw))] else [].

Lemma key_byte s k cur from buf i base r c :
  anchored kw -> plain ct s -> kws s !! k = Some cur -> follows base r cur ->
  0 <= i -> buf !! Z.to_nat i = Some c -> bytes (c :: r) -> 0 <= base -> base + Z.of_nat (S (length r)) < 2 ^ 64 ->
  from + i = base + Z.of_nat (length r) ->
  exists cur', try_keys 12 k from buf i 0 s = Ok (inr i) (set_hits (hits s ++ report k base (c :: r)) (upd s k cur'))
    /\ follows base (c :: r) cur'.
Proof.
  intros Ha Hp E (p & t & n & l & -> & Ht & Hl) Hi Hc Hb H0 Hmax Ef. inversion Hb as [|? ? Hc8 Hr]; subst.
  pose proof (occurs_next kw p r c Ha Hc8 Hr Ht) as Eo.
  destruct (try_key_run s k from buf i p t n l base r c Ha Hp E (tr_lt _ _ _ Ht) Hi Hc) as (n' & l' & Er & Hl').
  { intros Es. assert (occurs kw (c :: r) = true) as Eocc by (by rewrite Eo, Es, Nat.eqb_refl).
    apply partial_length in Eocc. cbn [length] in Eocc. rewrite u64_id by lia. lia. }
  exists (at_state kw (restart kw (next kw p c)) t n' l'). split.
  - cbn [try_keys]. rewrite run_bind, (get_kw_run _ _ _ E). cbv beta iota.
    change (kw_distance (at_state kw p t n l)) with (kw_distance kw). rewrite (wf_distance kw Hw). change (0 <? 0) with false. cbv iota.
    rewrite run_bind, Er. cbv beta iota. set (s2 := set_hits _ _).
    assert (kws s2 !! k = Some (at_state kw (restart kw (next kw p c)) t n' l')) as E2 by (by eapply (upd_lookup s)).
    rewrite run_bind, (get_kw_run _ _ _ E2). cbv beta iota.
    change (kw_distance (at_state kw (restart kw (next kw p c)) t n' l')) with (kw_distance kw). rewrite (wf_distance kw Hw).
    change (0 <? 0 + 1) with true. cbv iota. rewrite run_ret. f_equal. unfold s2, report, reported. do 2 f_equal.
    rewrite <- Eo. cbn [length]. destruct (occurs kw (c :: r)) eqn:Eocc; [|done]. cbn [andb].
    destruct ct; [done|]. cbn [negb orb andb]. rewrite (Hl eq_refl), (last_end_adjacent kw base c r Ha Hw Hb H0 Eocc). done.
  - exists (restart kw (next kw p c)), t, n', l'. split; [done|]. split; [by apply restart_tracks|].
    intros Hct. rewrite (Hl' Hct). cbn [last_end length]. rewrite <- Eo. destruct (occurs kw (c :: r)); [|by apply Hl].
    apply u64_id. lia.
Qed.
End runs.

(** ** All the keywords and all the bytes *)

Section stream.
Context {U : Type} (ct : bool) (pats : list RSearchKeyword) (base : Z).
Context (Hw : Forall wf_kw pats) (Ha : Forall anchored pats) (H0 : 0 <= base).
Implicit Types s : RSearch U.

(** The keyword [j] has read [f j]. *)
Definition all_follow (f : nat -> list Z) s : Prop :=
  length (kws s) = length pats
  /\ forall j kw, pats !! j = Some kw -> exists cur, kws s !! j = Some cur /\ follows kw ct base (f j) cur.

Definition reports (k : nat) (ps : list RSearchKeyword) (r : list Z) : list RSearchHit :=
  concat (imap (fun j kw => report kw ct (k + j) base r) ps).

Lemma reports_cons k kw ps r : reports k (kw :: ps) r = report kw ct k base r ++ reports (S k) ps r.
Proof.
  unfold reports. rewrite imap_cons. cbn [concat]. rewrite Nat.add_0_r. f_equal. f_equal. apply imap_ext.
  intros j x _. simpl. by rewrite Nat.add_succ_r.
Qed.

Lemma try_all_run n k s from buf i r c :
  plain ct s -> (k + n = length pats)%nat ->
  all_follow (fun j => if (j <? k)%nat then c :: r else r) s ->
  0 <= i -> buf !! Z.to_nat i = Some c -> bytes (c :: r) -> base + Z.of_nat (S (length r)) < 2 ^ 64 ->
  from + i = base + Z.of_nat (length r) ->
  exists s', try_all n k from buf i s = Ok (inr i) s' /\ plain ct s' /\ update s' = update s /\ mode s' = mode s
    /\ all_follow (fun _ => c :: r) s' /\ hits s' = hits s ++ reports k (drop k pats) (c :: r).
Proof.
  intros Hp Hn Hf Hi Hc Hb Hmax Ef. revert k s Hp Hn Hf. induction n as [|n IH]; intros k s Hp Hn [Hl Hf]; cbn [try_all].
  - exists s. rewrite drop_ge, app_nil_r by lia. split_and!; try done. split; [done|]. intros j kw E.
    destruct (Hf j kw E) as (cur & E1 & F). exists cur. split; [done|].
    by rewrite (proj2 (Nat.ltb_lt _ _)) in F by (apply lookup_lt_Some in E; lia).
  - rewrite run_bind, run_gets. cbv beta iota. unfold id. rewrite (pl_inverse ct s Hp). cbn [andb].
    destruct (lookup_lt_is_Some_2 pats k) as [kw Ek]; [lia|]. destruct (Hf k kw Ek) as (cur & E1 & F).
    rewrite Nat.ltb_irrefl in F.
    pose proof (proj1 (Forall_lookup _ _) Hw _ _ Ek) as Hwk. pose proof (proj1 (Forall_lookup _ _) Ha _ _ Ek) as Hak.
    destruct (key_byte kw Hwk ct s k cur from buf i base r c Hak Hp E1 F Hi Hc Hb H0 Hmax Ef) as (cur' & Er & F').
    rewrite run_bind, Er. cbv beta iota. set (s1 := set_hits _ _).
    destruct (IH (S k) s1) as (s' & Es & Hp' & Eu & Em & Hf' & Eh).
    + by destruct Hp.
    + lia.
    + split; [unfold s1, upd; simpl; by rewrite length_insert|]. intros j kwj Ej.
      destruct (Hf j kwj Ej) as (curj & Ec & Fj). destruct (decide (j = k)) as [->|Hne].
      * exists cur'. rewrite (proj2 (Nat.ltb_lt _ _)) by lia. split; [by eapply (upd_lookup s)|]. congruence.
      * exists curj. unfold s1, upd. simpl. rewrite list_lookup_insert_ne by done. split; [done|].
        destruct (Nat.ltb_spec j k); [by rewrite (proj2 (Nat.ltb_lt _ _)) by lia|by rewrite (proj2 (Nat.ltb_ge _ _)) by lia].
    + exists s'. split_and!; try done. rewrite Eh. unfold s1. simpl.
      rewrite (drop_S _ _ _ Ek), reports_cons. by rewrite <- app_assoc.
Qed.

(** The hits of a block [x] that comes after [r]. *)
Fixpoint stream_hits (r x : list Z) : list RSearchHit :=
  match x with [] => [] | c :: x => reports 0 pats (c :: r) ++ stream_hits (c :: r) x end.

Lemma stream_hits_app r x y : stream_hits r (x ++ y) = stream_hits r x ++ stream_hits (reverse x ++ r) y.
Proof.
  revert r. induction x as [|c x IH]; intros r; [done|]. cbn [app stream_hits].
  by rewrite IH, reverse_cons, <- !app_assoc.
Qed.

Lemma scan_run fuel from pre x r s :
  (length x < fuel)%nat -> plain ct s -> all_follow (fun _ => r) s -> bytes x -> bytes r ->
  base + Z.of_nat (length r + length x) < 2 ^ 64 -> from + Z.of_nat (length pre) = base + Z.of_nat (length r) ->
  exists s', scan fuel from (pre ++ x) (Z.of_nat (length (pre ++ x))) (Z.of_nat (length pre)) s = Ok (Some 0) s'
    /\ plain ct s' /\ update s' = update s /\ mode s' = mode s /\ all_follow (fun _ => reverse x ++ r) s'
    /\ hits s' = hits s ++ stream_hits r x.
Proof.
  revert fuel pre r s. induction x as [|c x IH]; intros fuel pre r s Hfu Hp Hf Hx Hr Hmax Ef.
  - exists s. rewrite app_nil_r. destruct fuel; cbn [scan]; rewrite Z.leb_refl, app_nil_r; by split_and!.
  - destruct fuel as [|fuel]; cbn [length] in Hfu; [lia|]. cbn [scan].
    rewrite (proj2 (Z.leb_gt _ _)) by (rewrite length_app; cbn [length]; lia).
    rewrite run_bind, run_gets. cbv beta iota. unfold id. inversion Hx as [|? ? Hc Hx']; subst.
    destruct (try_all_run (length (kws s)) 0 s from (pre ++ c :: x) (Z.of_nat (length pre)) r c) as (s1 & E1 & Hp1 & Eu & Em & Hf1 & Eh);
      [done|by rewrite (proj1 Hf)|done|lia|by rewrite Nat2Z.id, list_lookup_middle|by constructor|cbn [length] in Hmax; lia|done|].
    rewrite run_bind, E1. cbv beta iota.
    pose proof (IH fuel (pre ++ [c]) (c :: r) s1) as IH1. rewrite <- app_assoc in IH1. cbn [app] in IH1.
    rewrite (length_app pre [c]) in IH1. cbn [length] in *.
    replace (Z.of_nat (length pre) + 1) with (Z.of_nat (length pre + 1)) by lia.
    destruct IH1 as (s' & E' & Hp' & Eu' & Em' & Hf' & Eh'); [lia|done|done|done|by constructor|lia|lia|].
    exists s'. rewrite E'. split_and!; try done; [congruence|congruence| |].
    + by rewrite reverse_cons, <- app_assoc.
    + rewrite Eh', Eh. cbn [stream_hits]. by rewrite drop_0, app_assoc.
Qed.

(** A client that hands over the blocks of a range, one after the other. *)
Fixpoint search_blocks (other : Z -> Z -> list Z -> Z -> M (RSearch U) (option Z)) (from : Z) (bs : list (list Z))
  : M (RSearch U) bool :=
  match bs with
  | [] => mret true
  | b :: bs =>
      r ← r_search_update other (S (length b)) from b (Z.of_nat (length b));
      if bool_decide (r = Some 0) then search_blocks other (from + Z.of_nat (length b)) bs else mret false
  end.

Lemma search_blocks_run other from bs r s :
  plain ct s -> update s = Some R_SEARCH_KEYWORD -> mode s = R_SEARCH_KEYWORD -> all_follow (fun _ => r) s ->
  bytes (concat bs) -> bytes r -> base + Z.of_nat (length r + length (concat bs)) < 2 ^ 64 ->
  from = base + Z.of_nat (length r) ->
  exists s', search_blocks other from bs s = Ok true s' /\ hits s' = hits s ++ stream_hits r (concat bs).
Proof.
  revert from r s. induction bs as [|b bs IH]; intros from r s Hp Eu Em Hf Hb Hr Hmax Ef; cbn [search_blocks concat].
  { exists s. by rewrite app_nil_r. }
  cbn [concat] in *. rewrite length_app in Hmax. apply Forall_app in Hb as [Hb1 Hb2].
  destruct (scan_run (S (length b)) from [] b r s) as (s1 & E1 & Hp1 & Eu1 & Em1 & Hf1 & Eh1); [lia|done..|lia|cbn [length]; lia|].
  cbn [app length] in E1. unfold r_search_update, r_search_mybinparse_update. rewrite run_bind, run_bind, run_gets.
  cbv beta iota. unfold id. rewrite Eu, Em. change (R_SEARCH_KEYWORD =? R_SEARCH_KEYWORD) with true. cbv iota.
  change (Z.of_nat 0) with 0 in E1. rewrite run_bind, E1. cbv beta iota. change (R_SEARCH_KEYWORD =? R_SEARCH_AES) with false. cbv iota.
  rewrite run_ret, bool_decide_true by done.
  destruct (IH (from + Z.of_nat (length b)) (reverse b ++ r) s1) as (s' & E' & Eh'); try done; [congruence|congruence| | | |].
  - apply Forall_app. split; [by apply Forall_reverse|done].
  - rewrite length_app, length_reverse. lia.
  - rewrite length_app, length_reverse. lia.
  - exists s'. split; [done|]. by rewrite Eh', Eh1, stream_hits_app, app_assoc.
Qed.
End stream.

(** ** What is expected *)

(** An occurrence in [x] of the keyword that ends before the position [e]. *)
Definition ends_at (kw : RSearchKeyword) (x : list Z) (e : nat) : bool :=
  (size kw <=? e)%nat
  && forallb (fun p => match x !! (e - size kw + p)%nat with Some c => matches kw p c | None => false end) (seq 0 (size kw)).

(** The hits of a stream whose first byte is at [base]: for every position, and
    every keyword in the order of the list, the occurrence that ends there. *)
Definition expected (ct : bool) (ps : list RSearchKeyword) (base : Z) (x : list Z) : list RSearchHit :=
  flat_map (fun e => concat (imap (fun k kw =>
    if ends_at kw x e && (ct || negb (ends_at kw x (e - size kw)))
    then [mk_hit k (base + Z.of_nat e - Z.of_nat (size kw))] else []) ps)) (seq 1 (length x)).

Lemma forallb_ext {A} (f g : A -> bool) l : (forall x, x ∈ l -> f x = g x) -> forallb f l = forallb g l.
Proof.
  induction l as [|x l IH]; intros E; [done|]. cbn [forallb]. rewrite (E x) by apply list_elem_of_here.
  f_equal. apply IH. intros y Hy. apply E. by apply list_elem_of_further.
Qed.

Lemma partial_forallb kw k r :
  partial kw k r
  = (k <=? length r)%nat && forallb (fun p => match r !! (k - 1 - p)%nat with Some c => matches kw p c | None => false end) (seq 0 k).
Proof.
  revert r. induction k as [|k IH]; intros r; [done|]. destruct r as [|c r]; [done|]. cbn [partial]. rewrite IH.
  rewrite seq_S, forallb_app. cbn [forallb Nat.add length]. replace (S k - 1 - k)%nat with 0%nat by lia.
  change ((c :: r) !! 0%nat) with (Some c). cbv iota. rewrite andb_true_r.
  change (S k <=? S (length r))%nat with (k <=? length r)%nat.
  rewrite (forallb_ext (fun p => match (c :: r) !! (S k - 1 - p)%nat with Some x => matches kw p x | None => false end)
             (fun p => match r !! (k - 1 - p)%nat with Some x => matches kw p x | None => false end)).
  - destruct (k <=? length r)%nat, (forallb _ _), (matches kw k c); done.
  - intros p [_ Hp]%elem_of_seq. by replace (S k - 1 - p)%nat with (S (k - 1 - p)) by lia.
Qed.

(** The bytes read, the latest first, and the stream. *)
Lemma occurs_ends_at kw x e : (e <= length x)%nat -> occurs kw (reverse (take e x)) = ends_at kw x e.
Proof.
  intros He. unfold occurs, ends_at. rewrite partial_forallb, length_reverse, length_take, Nat.min_l by done.
  destruct (Nat.leb_spec (size kw) e) as [Hs|Hs]; [|done]. cbn [andb]. apply forallb_ext.
  intros p [_ Hp]%elem_of_seq. rewrite reverse_lookup by (rewrite length_take; lia).
  rewrite length_take, Nat.min_l by done. rewrite lookup_take_lt by lia.
  by replace (e - S (size kw - 1 - p))%nat with (e - size kw + p)%nat by lia.
Qed.

Lemma drop_reverse_take {A} (x : list A) e n :
  (n <= e <= length x)%nat -> drop n (reverse (take e x)) = reverse (take (e - n) x).
Proof.
  intros Hn. rewrite <- (take_drop (e - n) (take e x)) at 1. rewrite take_take, reverse_app, Nat.min_l by lia.
  apply drop_app_length'. rewrite length_reverse, length_drop, length_take. lia.
Qed.

Lemma reported_ends_at ct kw x e :
  (e <= length x)%nat ->
  reported ct kw (reverse (take e x)) = ends_at kw x e && (ct || negb (ends_at kw x (e - size kw))).
Proof.
  intros He. unfold reported. rewrite occurs_ends_at by done. destruct (ends_at kw x e) eqn:E; [|done].
  apply andb_true_iff in E as [E _]. apply Nat.leb_le in E. by rewrite drop_reverse_take, occurs_ends_at by lia.
Qed.

Lemma stream_expected ct ps base x :
  stream_hits ct ps base [] x = expected ct ps base x.
Proof.
  assert (forall n, (n <= length x)%nat -> stream_hits ct ps base (reverse (take (length x - n) x)) (drop (length x - n) x)
    = flat_map (fun e => concat (imap (fun k kw =>
        if ends_at kw x e && (ct || negb (ends_at kw x (e - size kw)))
        then [mk_hit k (base + Z.of_nat e - Z.of_nat (size kw))] else []) ps)) (seq (S (length x - n)) n)) as H.
  { induction n as [|n IH]; intros Hn.
    - rewrite Nat.sub_0_r, firstn_all, drop_all. done.
    - set (m := (length x - S n)%nat) in *. destruct (lookup_lt_is_Some_2 x m) as [c Ec]; [lia|].
      replace (length x - n)%nat with (S m) in IH by lia. specialize (IH ltac:(lia)).
      rewrite (drop_S _ _ _ Ec). cbn [stream_hits seq flat_map]. rewrite (take_S_r _ _ _ Ec), reverse_app in IH. cbn in IH.
      change (reverse [c] ++ reverse (take m x)) with (c :: reverse (take m x)) in IH. rewrite IH. f_equal.
      unfold reports. f_equal. apply imap_ext. intros k kw _. unfold report.
      assert (c :: reverse (take m x) = reverse (take (S m) x)) as Er by (by rewrite (take_S_r _ _ _ Ec), reverse_app).
      rewrite Er, reported_ends_at by lia. rewrite length_reverse, length_take, Nat.min_l by lia. done. }
  specialize (H (length x) ltac:(lia)). rewrite Nat.sub_diag in H. apply H.
Qed.

(** ** Theorems *)

Section theorems.
Context {U : Type}.
Implicit Types s : RSearch U.

Lemma begin_follows s ct base :
  Forall wf_kw (kws s) ->
  exists s', r_search_begin s = Ok 1 s' /\ (forall ct, plain ct s -> plain ct s') /\ update s' = update s /\ mode s' = mode s
    /\ hits s' = hits s /\ all_follow ct (kws s) base (fun _ => []) s'.
Proof.
  intros Hw. eexists. split; [reflexivity|]. split; [intros ? []; done|]. do 3 (split; [done|]).
  split; [simpl; apply length_fmap|]. intros j kw E. eexists. split; [simpl; by rewrite list_lookup_fmap, E|].
  pose proof (proj1 (Forall_lookup _ _) Hw _ _ E) as [Es H1 _ _ _ Ei Ed]. destruct (idx kw) as [|i t] eqn:Ex; [done|].
  exists 0%nat, t, 0, 0. split; [destruct kw; simpl in *; by subst|]. split.
  - split; [done|done|]. intros [|k] Hk; [lia|done].
  - intros _. cbn [last_end]. unfold occurs. by destruct (size kw) as [|n]; [lia|].
Qed.

End theorems.

(** The condition on the first byte, decided. *)
Definition anchored_b (kw : RSearchKeyword) : bool :=
  (negb (icase kw) || negb (binmask_length kw =? 0) || (tolower8 (byte_at (bin_keyword kw) 0) =? byte_at (bin_keyword kw) 0))
  && forallb (fun p => forallb (fun c => negb (matches kw 0 c && matches kw p c)) (seqZ 0 256)) (seq 1 (size kw - 1)).

Lemma anchored_b_sound kw : anchored_b kw = true -> anchored kw.
Proof.
  intros [E1 E2]%andb_true_iff. split.
  - intros Ei Em. rewrite Ei, Em in E1. by apply Z.eqb_eq.
  - intros p c Hp Hc E. rewrite forallb_forall in E2. specialize (E2 p). rewrite <- list_elem_of_In, elem_of_seq in E2.
    specialize (E2 ltac:(lia)). rewrite forallb_forall in E2. specialize (E2 c). rewrite <- list_elem_of_In, elem_of_seqZ in E2.
    unfold is_byte in Hc. specialize (E2 ltac:(lia)). rewrite E in E2. by destruct (matches kw p c).
Qed.

(** A keyword of bytes is well formed. *)
Lemma r_search_keyword_new_wf w bm kw :
  bytes w -> Z.of_nat (length w) < 2 ^ 32 -> r_search_keyword_new w bm = Some kw -> wf_kw kw /\ bin_keyword kw = w.
Proof.
  intros Hb Hl. unfold r_search_keyword_new. destruct (Z.ltb_spec (Z.of_nat (length w)) 1); [done|]. intros [= <-].
  split; [|done]. by split; simpl; try lia.
Qed.

(** The text of some bytes in hexadecimal is a keyword for them. *)
Lemma r_search_keyword_new_hex_bytes malloc bs :
  (forall n, length (malloc n) = n) -> bytes bs -> bs <> [] ->
  r_search_keyword_new_hex malloc (Hex.hex_string bs) None tt = Ok (r_search_keyword_new bs None) tt.
Proof.
  intros Hm Hb Hne. unfold r_search_keyword_new_hex. rewrite Hex.str2bin_hex_string; [|done|].
  - destruct bs as [|b bs]; [done|]. rewrite (proj2 (Z.ltb_ge _ _)) by (cbn [length]; lia). cbn [mask_of is_some].
    unfold mask_of. rewrite run_ret. cbn [is_some andb]. do 2 f_equal. rewrite Nat2Z.id. by apply take_app_length.
  - rewrite Hm, Hex.hex_string_length. lia.
Qed.

(** ** Keywords it does not search for *)

Definition new_kw (w : list Z) : RSearchKeyword :=
  default (mk_kw [] [] 0 0 [] 0 0 0 false "i" 0) (r_search_keyword_new w None).
Definition searching (ov : bool) (ws : list (list Z)) : RSearch unit :=
  mk_search (Z.of_nat (length ws)) 0 0 3 255 None None [] 0 0 false ov false 0 (Some 0) (new_kw <$> ws).

Definition found_by (ov : bool) (ws : list (list Z)) (from : Z) (b : list Z) : option (option Z * list RSearchHit) :=
  match r_search_mybinparse_update 100 from b (Z.of_nat (length b)) (searching ov ws) with
  | Ok r s => Some (r, hits s)
  | Undef _ => None
  end.

(** A run of the first byte is shortened by one at a byte that does not match:
    aab is found in aaxab. *)
Example search_false_hit : found_by false [[1; 1; 2]] 1000 [1; 1; 9; 1; 2] = Some (Some 0, [mk_hit 0 1002]).
Proof. by vm_compute. Qed.

(** After another mismatch the search starts again behind it: abac is not found
    in ababac. *)
Example search_missed : found_by false [[1; 2; 1; 3]] 1000 [1; 2; 1; 2; 1; 3] = Some (Some 0, []).
Proof. by vm_compute. Qed.

(** When the case is ignored the fall-back compares an upper-case keyword as it
    is: Ab is not found in aab. *)
Example search_icase_missed :
  match r_search_mybinparse_update 100 1000 [97; 97; 98] 3 (set_kws [set_icase true (new_kw [65; 98])] (searching false [])) with
  | Ok r s => hits s = []
  | Undef _ => False
  end.
Proof. by vm_compute. Qed.

(** With overlaps a hit in the first bytes of a block steps back before it. *)
Example search_overlap_before_block :
  match r_search_mybinparse_update 100 1000 [1; 2] 2 (searching true [[1; 2; 3]]) with
  | Ok _ s => r_search_mybinparse_update 100 1002 [3; 9] 2 s = Undef UB_oob
  | Undef _ => False
  end.
Proof. by vm_compute. Qed.

(** Differences need not be next to each other: the differences 5, 1 are found in
    10, 15, 99, 100. *)
Example deltakey_gap :
  match r_search_deltakey_update 1000 [10; 15; 99; 100] 4 (searching false [[5; 1]]) with
  | Ok r s => hits s = [mk_hit 0 1002]
  | Undef _ => False
  end.
Proof. by vm_compute. Qed.

(** Two keywords after [c1] and [c2] hits, with their last hits at [l1], [l2]. *)
Definition twice (h : list RSearchHit) (c1 c2 l1 l2 : Z) : RSearch unit :=
  let kw c l := set_last l (set_count c (new_kw [7; 7])) in
  mk_search 2 0 0 3 255 None None h 0 0 false true false 0 (Some 0) [kw c1 l1; kw c2 l2].

Lemma twice_round fuel h c1 c2 :
  (forall l1 l2, (l1, l2) = (0, 0) \/ (l1, l2) = (1002, 1001) ->
   scan (S (S fuel)) 1000 [7; 7] 2 0 (twice h c1 c2 l1 l2)
   = scan fuel 1000 [7; 7] 2 0 (twice ((h ++ [mk_hit 0 1000]) ++ [mk_hit 1 999]) (c1 + 1) (c2 + 1) 1002 1001)).
Proof. by intros l1 l2 [[= -> ->]|[= -> ->]]. Qed.

(** With overlaps, two keywords of one byte twice are found in two of these
    bytes for ever: the hit of the first keyword steps back, at which the second
    one has a hit of its own and steps back before the block, and the search
    starts again.  No number of turns is enough, and every second turn adds a hit
    at an address before the block. *)
Theorem r_search_overlap_diverges fuel :
  exists s', r_search_mybinparse_update (2 * fuel) 1000 [7; 7] 2 (searching true [[7; 7]; [7; 7]]) = Ok None s'
    /\ length (hits s') = (2 * fuel)%nat.
Proof.
  change (searching true [[7; 7]; [7; 7]]) with (twice [] 0 0 0 0). unfold r_search_mybinparse_update.
  enough (forall h c1 c2 l1 l2, (l1, l2) = (0, 0) \/ (l1, l2) = (1002, 1001) ->
    exists s', scan (2 * fuel) 1000 [7; 7] 2 0 (twice h c1 c2 l1 l2) = Ok None s' /\ length (hits s') = (length h + 2 * fuel)%nat) as H.
  { apply (H [] 0 0 0 0). by left. }
  induction fuel as [|fuel IH]; intros h c1 c2 l1 l2 Hl.
  { eexists. split; [reflexivity|]. simpl. lia. }
  replace (2 * S fuel)%nat with (S (S (2 * fuel))) by lia. rewrite twice_round by done.
  destruct (IH ((h ++ [mk_hit 0 1000]) ++ [mk_hit 1 999]) (c1 + 1) (c2 + 1) 1002 1001 ltac:(by right)) as (s' & E & El).
  exists s'. split; [done|]. rewrite El, !length_app. simpl. lia.
Qed.

(** ** Witnesses *)

Lemma searched_anchored : Forall anchored (new_kw <$> [[1; 2; 3]; [2; 5]]).
Proof. repeat constructor; apply anchored_b_sound; by vm_compute. Qed.

