(* ===== verification/Rc4.v ===== *)
(** * RC4

    [libr/crypto/p/crypto_rc4.c].  The permutation is a list of 256 bytes; its
    indices are bytes, so that they are inside it. *)

From S2P Require Import Prelude.

Record rc4_state := mk_rc4 { perm : list Z; index1 : Z; index2 : Z; rc4_key_size : Z }.

Definition swap_bytes (a b : Z) (perm : list Z) : list Z :=
  if a =? b then perm
  else <[Z.to_nat b := byte_at perm (Z.to_nat a)]> (<[Z.to_nat a := byte_at perm (Z.to_nat b)]> perm).

(** [n] turns of the loop over the permutation from [i] on. *)
Fixpoint key_loop (n : nat) (key : list Z) (keylen i j : Z) (perm : list Z) : list Z :=
  match n with
  | O => perm
  | S n =>
      let j := u8 (j + (byte_at perm (Z.to_nat i) + byte_at key (Z.to_nat (i mod keylen)))) in
      key_loop n key keylen (i + 1) j (swap_bytes i j perm)
  end.

(** The new state, or nothing when the key is refused and the state stays. *)
Definition rc4_init (key : list Z) (keylen : Z) : option rc4_state :=
  if keylen <? 1 then None
  else Some (mk_rc4 (key_loop 256 key keylen 0 0 (seqZ 0 256)) 0 0 keylen).

(** One byte: the new state and what the byte is combined with. *)
Definition rc4_step (st : rc4_state) : rc4_state * Z :=
  let i1 := u8 (index1 st + 1) in
  let i2 := u8 (index2 st + byte_at (perm st) (Z.to_nat i1)) in
  let p := swap_bytes i1 i2 (perm st) in
  let j := u8 (byte_at p (Z.to_nat i1) + byte_at p (Z.to_nat i2)) in
  (mk_rc4 p i1 i2 (rc4_key_size st), byte_at p (Z.to_nat j)).

Fixpoint rc4_crypt (st : rc4_state) (inbuf : list Z) : rc4_state * list Z :=
  match inbuf with
  | [] => (st, [])
  | c :: inbuf =>
      let '(st, k) := rc4_step st in
      let '(st, out) := rc4_crypt st inbuf in
      (st, Z.lxor c k :: out)
  end.

(** ** The permutation *)

Lemma swap_permutation (l : list Z) i j x y :
  l !! i = Some x -> l !! j = Some y -> i <> j -> <[j := x]> (<[i := y]> l) ≡ₚ l.
Proof.
  assert (forall (l : list Z) i j x y, (i < j)%nat -> l !! i = Some x -> l !! j = Some y -> <[j := x]> (<[i := y]> l) ≡ₚ l) as H.
  { clear. intros l i j x y Hij Ei Ej. rewrite <- (take_drop_middle _ _ _ Ei). set (l2 := drop (S i) l).
    assert (length (take i l) = i) as Li by (rewrite length_take; apply lookup_lt_Some in Ei; lia).
    assert (l2 !! (j - S i)%nat = Some y) as E2.
    { unfold l2. rewrite lookup_drop, <- Ej. f_equal. lia. }
    rewrite <- (take_drop_middle _ _ _ E2). set (m := take (j - S i) l2).
    assert (length m = (j - S i)%nat) as Lm by (unfold m; rewrite length_take; apply lookup_lt_Some in E2; lia).
    rewrite insert_app_r_alt, Li, Nat.sub_diag by lia. cbn [insert list_insert].
    rewrite insert_app_r_alt, Li by lia. replace (j - i)%nat with (S (j - S i)) by lia.
    assert (forall k t, <[S k := x]> (y :: t) = y :: <[k := x]> t) as -> by done.
    rewrite insert_app_r_alt, Lm, Nat.sub_diag by lia. cbn [insert list_insert]. apply Permutation_app_head.
    rewrite <- !Permutation_middle. constructor. }
  intros Ei Ej Hne. destruct (decide (i < j)%nat); [by apply H|].
  rewrite list_insert_insert_ne by done. apply H; (done || lia).
Qed.

Lemma byte_at_lookup l i : (i < length l)%nat -> l !! i = Some (byte_at l i).
Proof. intros Hi. destruct (lookup_lt_is_Some_2 l i Hi) as [x E]. unfold byte_at. by rewrite E. Qed.

Lemma swap_bytes_permutation a b p :
  length p = 256%nat -> 0 <= a < 256 -> 0 <= b < 256 -> swap_bytes a b p ≡ₚ p.
Proof.
  intros Hl Ha Hb. unfold swap_bytes. destruct (Z.eqb_spec a b) as [|Hne]; [done|].
  apply swap_permutation; try (apply byte_at_lookup; lia). lia.
Qed.

(** What a state always is: a permutation of the bytes and two bytes. *)
Record rc4_ok (st : rc4_state) : Prop := {
  ok_perm : perm st ≡ₚ seqZ 0 256;
  ok_index1 : is_byte (index1 st);
  ok_index2 : is_byte (index2 st)
}.

Lemma bytes_length p : p ≡ₚ seqZ 0 256 -> length p = 256%nat.
Proof. intros ->. by vm_compute. Qed.

Lemma perm_byte p i : p ≡ₚ seqZ 0 256 -> is_byte (byte_at p i).
Proof.
  intros Hp. apply byte_at_range. unfold bytes. rewrite Hp. apply Forall_forall. intros x Hx%elem_of_seqZ. unfold is_byte. lia.
Qed.

Lemma key_loop_perm n key keylen i j p :
  0 <= i -> i + Z.of_nat n <= 256 -> p ≡ₚ seqZ 0 256 -> key_loop n key keylen i j p ≡ₚ seqZ 0 256.
Proof.
  revert i j p. induction n as [|n IH]; intros i j p Hi Hn Hp; cbn [key_loop]; [done|].
  apply IH; [lia|lia|]. rewrite swap_bytes_permutation; [done|by apply bytes_length|lia|apply u8_range].
Qed.

Lemma rc4_step_ok st : rc4_ok st -> rc4_ok (rc4_step st).1 /\ is_byte (rc4_step st).2.
Proof.
  intros [Hp H1 H2]. unfold rc4_step. simpl.
  assert (swap_bytes (u8 (index1 st + 1)) (u8 (index2 st + byte_at (perm st) (Z.to_nat (u8 (index1 st + 1))))) (perm st) ≡ₚ seqZ 0 256) as Hs.
  { rewrite swap_bytes_permutation; [done|by apply bytes_length|apply u8_range..]. }
  split; [|by apply perm_byte]. split; [done|apply u8_range..].
Qed.

Lemma rc4_crypt_ok st inbuf : rc4_ok st -> rc4_ok (rc4_crypt st inbuf).1.
Proof.
  revert st. induction inbuf as [|c inbuf IH]; intros st Hs; cbn [rc4_crypt]; [done|].
  pose proof (rc4_step_ok st Hs) as [H1 _]. destruct (rc4_step st) as [st' k]. specialize (IH st' H1).
  by destruct (rc4_crypt st' inbuf).
Qed.

Lemma init_ok key keylen st : rc4_init key keylen = Some st -> rc4_ok st.
Proof.
  unfold rc4_init. destruct (Z.ltb_spec keylen 1); [done|]. pose proof (key_loop_perm 256 key keylen 0 0 (seqZ 0 256)) as Hk.
  set (p := key_loop _ _ _ _ _ _) in *. clearbody p. intros [= <-]. split; [|unfold is_byte; simpl; lia..].
  apply Hk; [lia|lia|reflexivity].
Qed.

(** The state of RC4 is a permutation of the 256 bytes with two indices inside
    it, after any key that is accepted and any data that are encrypted; the result
    has the length of the data and is made of bytes. *)
Theorem rc4_permutation key keylen st inbuf :
  rc4_init key keylen = Some st -> bytes inbuf ->
  rc4_ok st /\ rc4_ok (rc4_crypt st inbuf).1
  /\ length (rc4_crypt st inbuf).2 = length inbuf /\ bytes (rc4_crypt st inbuf).2.
Proof.
  intros E. assert (rc4_ok st) as Hs by by eapply init_ok. clear E.
  intros Hb. split; [done|]. split; [by apply rc4_crypt_ok|]. revert st Hs.
  induction Hb as [|c inbuf Hc Hb IH]; intros st Hs; cbn [rc4_crypt]; [by split; [|constructor]|].
  pose proof (rc4_step_ok st Hs) as [H1 H2]. destruct (rc4_step st) as [st' k]. specialize (IH st' H1).
  destruct (rc4_crypt st' inbuf) as [st'' out]. simpl in *. destruct IH as [El Ho]. split; [lia|]. constructor; [|done].
  by apply (lxor_range 8).
Qed.

(** ** The stream *)

(** The state does not depend on the data. *)
Fixpoint keystream (st : rc4_state) (n : nat) : list Z :=
  match n with O => [] | S n => (rc4_step st).2 :: keystream (rc4_step st).1 n end.
Fixpoint rc4_after (st : rc4_state) (n : nat) : rc4_state :=
  match n with O => st | S n => rc4_after (rc4_step st).1 n end.

Lemma rc4_crypt_stream st inbuf :
  rc4_crypt st inbuf = (rc4_after st (length inbuf), zip_with Z.lxor inbuf (keystream st (length inbuf))).
Proof.
  revert st. induction inbuf as [|c inbuf IH]; intros st; cbn [rc4_crypt]; [done|].
  cbn [length keystream rc4_after zip_with]. destruct (rc4_step st) as [st' k]. by rewrite IH.
Qed.

Lemma keystream_length st n : length (keystream st n) = n.
Proof. revert st. induction n as [|n IH]; intros st; simpl; [done|]. by rewrite IH. Qed.

(** Encrypting in two pieces. *)
Lemma rc4_crypt_app st a b :
  rc4_crypt st (a ++ b)
  = let '(st1, x) := rc4_crypt st a in let '(st2, y) := rc4_crypt st1 b in (st2, x ++ y).
Proof.
  revert st. induction a as [|c a IH]; intros st; cbn [app rc4_crypt].
  - by destruct (rc4_crypt st b).
  - destruct (rc4_step st) as [st' k]. rewrite IH. destruct (rc4_crypt st' a) as [st1 x].
    by destruct (rc4_crypt st1 b).
Qed.

Lemma lxor_stream m ks : length m = length ks -> zip_with Z.lxor (zip_with Z.lxor m ks) ks = m.
Proof.
  revert ks. induction m as [|c m IH]; intros [|k ks] E; simpl in *; try done. rewrite IH by lia.
  f_equal. by rewrite Z.lxor_assoc, Z.lxor_nilpotent, Z.lxor_0_r.
Qed.

Lemma rc4_crypt_twice st m : rc4_crypt st (rc4_crypt st m).2 = ((rc4_crypt st m).1, m).
Proof.
  rewrite !rc4_crypt_stream. simpl. rewrite length_zip_with, keystream_length, Nat.min_id.
  f_equal. apply lxor_stream. by rewrite keystream_length.
Qed.

(** The published vector of the key "Key". *)
Example rc4_vector :
  (fun st => (rc4_crypt st [0x50; 0x6c; 0x61; 0x69; 0x6e; 0x74; 0x65; 0x78; 0x74]).2) <$> rc4_init [0x4b; 0x65; 0x79] 3
  = Some [0xbb; 0xf3; 0x16; 0xe8; 0xd9; 0x40; 0xaf; 0x0a; 0xd3].
Proof. by vm_compute. Qed.

Lemma rc4_permutation_witness :
  exists st, rc4_init [0x4b; 0x65; 0x79] 3 = Some st /\ rc4_ok st /\ length (rc4_crypt st [1; 2; 3]).2 = 3%nat.
Proof.
  eexists. split; [reflexivity|]. set (st := mk_rc4 _ _ _ _).
  destruct (rc4_permutation [0x4b; 0x65; 0x79] 3 st [1; 2; 3]) as (H1 & _ & H2 & _); [reflexivity| |by split].
  repeat constructor; unfold is_byte; lia.
Defined.
