(* ===== verification/Rc6.v ===== *)
(** * RC6

    [libr/crypto/p/crypto_rc6.c], with 32-bit words and 20 rounds.  The macros of
    the rotations shift by 32 minus the count, which C leaves undefined when the
    count is 0: [None] is that shift. *)

From S2P Require Import Prelude.

Definition Pw : Z := 0xb7e15163.
Definition Qw : Z := 0x9e3779b9.
Definition BLOCK_SIZE : Z := 16.

Record rc6_state := mk_rc6 { S6 : list Z; rc6_key_size : Z }.

Definition ROTL (x y : Z) : option Z :=
  let n := Z.land y 31 in
  if n =? 0 then None else Some (Z.lor (u32 (Z.shiftl x n)) (Z.shiftr x (32 - n))).
Definition ROTR (x y : Z) : option Z :=
  let n := Z.land y 31 in
  if n =? 0 then None else Some (Z.lor (Z.shiftr x n) (u32 (Z.shiftl x (32 - n)))).

(** ** The key *)

(** The little-endian words of some bytes. *)
Definition get_le (b0 b1 b2 b3 : Z) : Z :=
  Z.lor (Z.lor (Z.lor (Z.land b0 0xff) (Z.shiftl (Z.land b1 0xff) 8)) (Z.shiftl (Z.land b2 0xff) 16)) (Z.shiftl (Z.land b3 0xff) 24).
Fixpoint le_words (l : list Z) : list Z :=
  match l with b0 :: b1 :: b2 :: b3 :: l => get_le b0 b1 b2 b3 :: le_words l | _ => [] end.

(** [n] more entries after [x]. *)
Fixpoint constants (n : nat) (x : Z) : list Z :=
  match n with O => [x] | S n => x :: constants n (u32 (x + Qw)) end.

Fixpoint mix (n : nat) (L S6 : list Z) (A B k j : Z) : option (list Z) :=
  match n with
  | O => Some S6
  | S n =>
      A ← ROTL (u32 (byte_at S6 (Z.to_nat k) + A + B)) 3;
      let S6 := <[Z.to_nat k := A]> S6 in
      B ← ROTL (u32 (byte_at L (Z.to_nat j) + A + B)) (u32 (A + B));
      let L := <[Z.to_nat j := B]> L in
      mix n L S6 A B ((k + 1) mod 44) ((j + 1) mod Z.of_nat (length L))
  end.

(** The new state and direction, or nothing when the length is refused. *)
Definition rc6_init {St} (key : list Z) (keylen direction : Z) : M St (option (rc6_state * bool)) :=
  if negb (keylen =? 16) && negb (keylen =? 24) && negb (keylen =? 32) then mret None
  else
    S6 ← lift UB_shift (mix 132 (le_words (take (Z.to_nat keylen) key)) (constants 43 Pw) 0 0 0 0);
    mret (Some (mk_rc6 S6 (keylen / 8), negb (direction =? 0))).

(** ** Blocks *)

Definition quad : Type := Z * Z * Z * Z.
Definition entry (st : rc6_state) (i : nat) : Z := byte_at (S6 st) i.

Definition mul_rot (x : Z) : option Z := ROTL (u32 (x * (2 * x + 1))) 5.

Definition enc_round (st : rc6_state) (q : quad) (i : nat) : option quad :=
  let '(A, B, C, D) := q in
  t ← mul_rot B;
  u ← mul_rot D;
  A ← ROTL (Z.lxor A t) u;
  let A := u32 (A + entry st (2 * i)) in
  C ← ROTL (Z.lxor C u) t;
  let C := u32 (C + entry st (2 * i + 1)) in
  Some (B, C, D, A).

Definition dec_round (st : rc6_state) (q : quad) (i : nat) : option quad :=
  let '(A, B, C, D) := q in
  let '(A, B, C, D) := (D, A, B, C) in
  u ← mul_rot D;
  t ← mul_rot B;
  C ← ROTR (u32 (C - entry st (2 * i + 1))) t;
  let C := Z.lxor C u in
  A ← ROTR (u32 (A - entry st (2 * i))) u;
  let A := Z.lxor A t in
  Some (A, B, C, D).

(** The rounds of the given numbers, one after the other. *)
Fixpoint rc6_rounds (f : quad -> nat -> option quad) (l : list nat) (q : quad) : option quad :=
  match l with [] => Some q | i :: l => q ← f q i; rc6_rounds f l q end.

Definition enc_words (st : rc6_state) (q : quad) : option quad :=
  let '(A, B, C, D) := q in
  '(A, B, C, D) ← rc6_rounds (enc_round st) (seq 1 20) (A, u32 (B + entry st 0), C, u32 (D + entry st 1));
  Some (u32 (A + entry st 42), B, u32 (C + entry st 43), D).

Definition dec_words (st : rc6_state) (q : quad) : option quad :=
  let '(A, B, C, D) := q in
  '(A, B, C, D) ← rc6_rounds (dec_round st) (reverse (seq 1 20)) (u32 (A - entry st 42), B, u32 (C - entry st 43), D);
  Some (A, u32 (B - entry st 0), C, u32 (D - entry st 1)).

Definition put_le (x : Z) : list Z := (fun i => u8 (Z.land (Z.shiftr x (8 * i)) 0xff)) <$> [0; 1; 2; 3].
Definition put_quad (q : quad) : list Z :=
  let '(A, B, C, D) := q in put_le A ++ put_le B ++ put_le C ++ put_le D.
Definition quad_of (data : list Z) : quad := (byte_at data 0, byte_at data 1, byte_at data 2, byte_at data 3).

Definition rc6_encrypt (st : rc6_state) (inbuf : list Z) : option (list Z) :=
  put_quad <$> enc_words st (quad_of (le_words (take 16 inbuf))).
Definition rc6_decrypt (st : rc6_state) (inbuf : list Z) : option (list Z) :=
  put_quad <$> dec_words st (quad_of (le_words (take 16 inbuf))).

(** [for (i = 0; i < blocks; i++)]. *)
Fixpoint rc6_blocks (n : nat) (f : list Z -> option (list Z)) (inbuf : list Z) : option (list Z) :=
  match n with
  | O => Some []
  | S n => b ← f inbuf; r ← rc6_blocks n f (drop 16 inbuf); Some (b ++ r)
  end.

(** A key of the text Z and zeros, for which no rotation is by 0; the key of zeros of
    the published vectors has one. *)
Example rc6_vector :
  match rc6_init (90 :: repeat 0 15) 16 0 tt with
  | Ok (Some (st, _)) _ => rc6_encrypt st (repeat 65 16)
  | _ => None
  end = Some [0x94; 0xad; 0x83; 0x5b; 0x5b; 0x99; 0x92; 0x66; 0x56; 0x05; 0xaf; 0x13; 0x1c; 0x25; 0xc2; 0x2e].
Proof. by vm_compute. Qed.
Example rc6_zero_key : rc6_init (repeat 0 16) 16 0 tt = Undef UB_shift.
Proof. by vm_compute. Qed.

(** ** Rotations *)

Definition word (x : Z) : Prop := 0 <= x < 2 ^ 32.

Lemma count_range y : 0 <= Z.land y 31 < 32.
Proof. change 31 with (Z.ones 5). rewrite Z.land_ones by lia. apply Z.mod_pos_bound. lia. Qed.

(** A word in two parts, the upper one of [n] bits. *)
Lemma word_parts n x : 0 < n < 32 -> word x ->
  exists a b, x = a * 2 ^ (32 - n) + b /\ 0 <= a < 2 ^ n /\ 0 <= b < 2 ^ (32 - n).
Proof.
  intros Hn Hx. exists (x / 2 ^ (32 - n)), (x mod 2 ^ (32 - n)).
  assert (0 < 2 ^ (32 - n)) as Hp by (apply Z.pow_pos_nonneg; lia).
  pose proof (Z.div_mod x (2 ^ (32 - n)) ltac:(lia)). pose proof (Z.mod_pos_bound x (2 ^ (32 - n)) Hp).
  assert (2 ^ 32 = 2 ^ n * 2 ^ (32 - n)) as E by (rewrite <- Z.pow_add_r by lia; f_equal; lia). unfold word in Hx.
  split; [lia|]. split; [|done]. split; [apply Z.div_pos; lia|]. apply Z.div_lt_upper_bound; lia.
Qed.

(** Moving the parts of [x] to the other order. *)
Lemma swap_parts n a b : 0 < n < 32 -> 0 <= a < 2 ^ n -> 0 <= b < 2 ^ (32 - n) ->
  let x := a * 2 ^ (32 - n) + b in
  u32 (Z.shiftl x n) = Z.shiftl b n /\ Z.shiftr x (32 - n) = a /\ word x.
Proof.
  intros Hn Ha Hb x. assert (2 ^ 32 = 2 ^ (32 - n) * 2 ^ n) as E by (rewrite <- Z.pow_add_r by lia; f_equal; lia).
  split; [|split].
  - rewrite !Z.shiftl_mul_pow2 by lia. unfold u32, x. rewrite Z.mul_add_distr_r.
    replace (a * 2 ^ (32 - n) * 2 ^ n) with (a * 2 ^ 32) by (rewrite E; lia). rewrite Z.add_comm, Z.mod_add by lia.
    apply Z.mod_small. nia.
  - rewrite Z.shiftr_div_pow2 by lia. unfold x. rewrite Z.div_add_l, Z.div_small by lia. lia.
  - unfold word, x. nia.
Qed.

Lemma rotl_word x y x' : word x -> ROTL x y = Some x' -> word x'.
Proof.
  intros Hx. unfold ROTL. pose proof (count_range y). set (n := Z.land y 31) in *. destruct (Z.eqb_spec n 0) as [|]; [done|].
  intros [= <-]. destruct (word_parts n x) as (a & b & -> & Ha & Hb); [lia|done|].
  destruct (swap_parts n a b) as (E1 & E2 & _); [lia|done..|]. rewrite E1, E2, lor_shiftl_add by lia.
  assert (2 ^ 32 = 2 ^ (32 - n) * 2 ^ n) as E by (rewrite <- Z.pow_add_r by lia; f_equal; lia). unfold word. nia.
Qed.

Lemma rotr_rotl x y x' : word x -> ROTL x y = Some x' -> ROTR x' y = Some x.
Proof.
  intros Hx. unfold ROTR, ROTL. pose proof (count_range y). set (n := Z.land y 31) in *. destruct (Z.eqb_spec n 0) as [|]; [done|].
  intros [= <-]. f_equal. destruct (word_parts n x) as (a & b & -> & Ha & Hb); [lia|done|].
  destruct (swap_parts n a b) as (-> & -> & _); [lia|done..|]. rewrite lor_shiftl_add by lia.
  destruct (swap_parts (32 - n) b a) as (E1 & E2 & _); [lia|done|by replace (32 - (32 - n)) with n by lia|].
  replace (32 - (32 - n)) with n in * by lia. rewrite E1, E2, Z.lor_comm. apply lor_shiftl_add; [lia|done].
Qed.

(** ** Rounds *)

Lemma u32_add_sub x k : word x -> u32 (u32 (x + k) - k) = x.
Proof.
  intros Hx. unfold u32. rewrite Zminus_mod_idemp_l. replace (x + k - k) with x by lia. by apply Z.mod_small.
Qed.

Lemma lxor_back x y : Z.lxor (Z.lxor x y) y = x.
Proof. by rewrite Z.lxor_assoc, Z.lxor_nilpotent, Z.lxor_0_r. Qed.

Definition words (q : quad) : Prop := let '(A, B, C, D) := q in word A /\ word B /\ word C /\ word D.

Lemma mul_rot_word x y : mul_rot x = Some y -> word y.
Proof. apply rotl_word, u32_range. Qed.

(** A round that is defined is taken back by its inverse, which is defined too. *)
Lemma enc_round_back st q i q' : words q -> enc_round st q i = Some q' -> words q' /\ dec_round st q' i = Some q.
Proof.
  destruct q as [[[A B] C] D]. intros (HA & HB & HC & HD). unfold enc_round.
  destruct (mul_rot B) as [t|] eqn:Et; [|done]. destruct (mul_rot D) as [u|] eqn:Eu; [|done]. cbn [mbind option_bind].
  pose proof (mul_rot_word _ _ Et) as Ht. pose proof (mul_rot_word _ _ Eu) as Hu.
  destruct (ROTL (Z.lxor A t) u) as [A'|] eqn:EA; [|done]. destruct (ROTL (Z.lxor C u) t) as [C'|] eqn:EC; [|done]. cbn [mbind option_bind].
  assert (forall x k s, word x -> word s -> word (Z.lxor x s) /\ word (u32 (x + k))) as W.
  { intros x k s Hx Hs. split; [by apply (lxor_range 32)|apply u32_range]. }
  pose proof (rotl_word _ _ _ (proj1 (W A 0 t HA Ht)) EA). pose proof (rotl_word _ _ _ (proj1 (W C 0 u HC Hu)) EC).
  intros [= <-]. split; [by split_and!; try apply u32_range|].
  unfold dec_round. rewrite Et, Eu. cbn [mbind option_bind]. rewrite !u32_add_sub by done.
  rewrite (rotr_rotl (Z.lxor C u) t C'), (rotr_rotl (Z.lxor A t) u A') by (done || by apply (lxor_range 32)).
  cbn [mbind option_bind]. by rewrite !lxor_back.
Qed.

Lemma rc6_rounds_app f l k q : rc6_rounds f (l ++ k) q = rc6_rounds f l q ≫= rc6_rounds f k.
Proof. revert q. induction l as [|i l IH]; intros q; [done|]. cbn [app rc6_rounds]. destruct (f q i); [apply IH|done]. Qed.

Lemma rc6_rounds_back st l q q' :
  words q -> rc6_rounds (enc_round st) l q = Some q' -> words q' /\ rc6_rounds (dec_round st) (reverse l) q' = Some q.
Proof.
  revert q. induction l as [|i l IH]; intros q Hq; cbn [rc6_rounds]; [by intros [= <-]|].
  destruct (enc_round st q i) as [q1|] eqn:E; [|done]. intros Hr. destruct (enc_round_back _ _ _ _ Hq E) as [Hq1 Hb].
  destruct (IH q1 Hq1 Hr) as [Hw Hd]. split; [done|]. rewrite reverse_cons, rc6_rounds_app, Hd. cbn. by rewrite Hb.
Qed.

Lemma dec_enc_words st q q' : words q -> enc_words st q = Some q' -> words q' /\ dec_words st q' = Some q.
Proof.
  destruct q as [[[A B] C] D]. intros (HA & HB & HC & HD). unfold enc_words.
  set (q := (A, u32 (B + entry st 0), C, u32 (D + entry st 1))).
  assert (words q) as Hq by (by split_and!; try apply u32_range).
  destruct (rc6_rounds (enc_round st) (seq 1 20) q) as [[[[A' B'] C'] D']|] eqn:E; [|done]. cbn [mbind option_bind]. intros [= <-].
  destruct (rc6_rounds_back st (seq 1 20) q _ Hq E) as [(? & ? & ? & ?) Hd].
  split; [split_and!; (done || apply u32_range)|].
  unfold dec_words. rewrite !u32_add_sub by done. rewrite Hd. unfold q. cbn [mbind option_bind]. by rewrite !u32_add_sub by done.
Qed.

(** ** Bytes *)

Lemma land_255 b : is_byte b -> Z.land b 0xff = b.
Proof. intros Hb. change 0xff with (Z.ones 8). rewrite Z.land_ones by lia. by apply Z.mod_small. Qed.

Lemma get_le_val b0 b1 b2 b3 :
  is_byte b0 -> is_byte b1 -> is_byte b2 -> is_byte b3 ->
  get_le b0 b1 b2 b3 = b3 * 2 ^ 24 + (b2 * 2 ^ 16 + (b1 * 2 ^ 8 + b0)).
Proof.
  intros H0 H1 H2 H3. unfold get_le. rewrite !land_255 by done. unfold is_byte in *.
  rewrite (Z.lor_comm b0), lor_shiftl_add by lia. rewrite (Z.lor_comm _ (Z.shiftl b2 16)), lor_shiftl_add by lia.
  by rewrite Z.lor_comm, lor_shiftl_add by lia.
Qed.

Lemma get_le_word b0 b1 b2 b3 : is_byte b0 -> is_byte b1 -> is_byte b2 -> is_byte b3 -> word (get_le b0 b1 b2 b3).
Proof. intros. rewrite get_le_val by done. unfold is_byte, word in *. lia. Qed.

Lemma put_le_val x : word x -> put_le x = [x mod 2 ^ 8; x / 2 ^ 8 mod 2 ^ 8; x / 2 ^ 16 mod 2 ^ 8; x / 2 ^ 24].
Proof.
  intros Hx. unfold put_le. cbn [fmap list_fmap]. change 0xff with (Z.ones 8). rewrite !Z.land_ones by lia.
  rewrite !Z.shiftr_div_pow2 by lia. unfold u8. rewrite !Z.mod_mod by lia. unfold word in Hx. rewrite Z.div_1_r. repeat f_equal.
  change (8 * 3) with 24. apply Z.mod_small. zlia.
Qed.

Lemma put_get_le b0 b1 b2 b3 :
  is_byte b0 -> is_byte b1 -> is_byte b2 -> is_byte b3 -> put_le (get_le b0 b1 b2 b3) = [b0; b1; b2; b3].
Proof.
  intros. rewrite put_le_val by (by apply get_le_word). rewrite get_le_val by done. unfold is_byte in *. repeat f_equal; zlia.
Qed.

Lemma put_quad_length q : length (put_quad q) = 16%nat.
Proof. by destruct q as [[[A B] C] D]. Qed.

Lemma le_words_put A B C D :
  word A -> word B -> word C -> word D -> le_words (put_quad (A, B, C, D)) = [A; B; C; D].
Proof.
  assert (forall x, word x -> exists b0 b1 b2 b3, put_le x = [b0; b1; b2; b3] /\ get_le b0 b1 b2 b3 = x) as H.
  { intros x Hx. rewrite put_le_val by done. do 4 eexists. split; [reflexivity|]. unfold word in Hx.
    rewrite get_le_val by (unfold is_byte; zlia). zlia. }
  intros HA HB HC HD. unfold put_quad.
  destruct (H A HA) as (? & ? & ? & ? & -> & EA). destruct (H B HB) as (? & ? & ? & ? & -> & EB).
  destruct (H C HC) as (? & ? & ? & ? & -> & EC). destruct (H D HD) as (? & ? & ? & ? & -> & ED).
  cbn [app le_words]. by rewrite EA, EB, EC, ED.
Qed.

Lemma decrypt_encrypt st block c :
  bytes block -> length block = 16%nat -> rc6_encrypt st block = Some c -> rc6_decrypt st c = Some block.
Proof.
  intros Hb Hl. unfold rc6_decrypt, rc6_encrypt. rewrite (take_ge block) by lia.
  do 16 (destruct block as [|? block]; [done|]). destruct block; [|done]. unfold bytes in Hb. rewrite !Forall_cons in Hb.
  destruct_and! Hb. cbn [le_words]. match goal with |- context [quad_of [?a; ?b; ?c; ?d]] => set (q := (a, b, c, d)); change (quad_of [a; b; c; d]) with q end.
  assert (words q) as Hq by (by split_and!; apply get_le_word).
  destruct (enc_words st q) as [q'|] eqn:E; [|done]. intros [= <-]. destruct (dec_enc_words st q q' Hq E) as [Hw Hd].
  rewrite take_ge by (rewrite put_quad_length; lia).
  destruct q' as [[[A B] C] D]. destruct Hw as (? & ? & ? & ?). rewrite le_words_put by done.
  change (quad_of [A; B; C; D]) with (A, B, C, D). rewrite Hd. unfold q, put_quad. cbn [fmap option_fmap option_map]. by rewrite !put_get_le by done.
Qed.

Lemma put_quad_bytes q : bytes (put_quad q).
Proof. destruct q as [[[A B] C] D]. unfold put_quad, put_le, bytes. repeat apply Forall_app_2; repeat constructor; apply u8_range. Qed.

(** Blocks are of 16 bytes, whatever they hold. *)
Lemma rc6_block (d : bool) st l c : (if d then rc6_decrypt st else rc6_encrypt st) l = Some c -> length c = 16%nat /\ bytes c.
Proof.
  destruct d; unfold rc6_decrypt, rc6_encrypt; intros (q & _ & ->)%fmap_Some; (split; [apply put_quad_length|apply put_quad_bytes]).
Qed.
Lemma rc6_blocks_length (d : bool) st n l c :
  rc6_blocks n (if d then rc6_decrypt st else rc6_encrypt st) l = Some c -> length c = (16 * n)%nat /\ bytes c.
Proof.
  revert l c. induction n as [|n IH]; intros l c; cbn [rc6_blocks]; [intros [= <-]; by split; [|constructor]|].
  destruct ((if d then rc6_decrypt st else rc6_encrypt st) l) as [b|] eqn:Eb; [|done]. cbn [mbind option_bind].
  destruct (rc6_blocks n _ _) as [r|] eqn:Er; [|done]. cbn [mbind option_bind]. intros [= <-].
  destruct (rc6_block d st l b Eb), (IH _ _ Er). split; [rewrite length_app; lia|by apply Forall_app_2].
Qed.

Lemma rc6_inverse st n inbuf c :
  bytes inbuf -> length inbuf = (16 * n)%nat -> rc6_blocks n (rc6_encrypt st) inbuf = Some c ->
  rc6_blocks n (rc6_decrypt st) c = Some inbuf.
Proof.
  revert inbuf c. induction n as [|n IH]; intros inbuf c Hb Hl; cbn [rc6_blocks]; [by destruct inbuf|].
  destruct (rc6_encrypt st inbuf) as [b|] eqn:Eb; [|done]. cbn [mbind option_bind].
  destruct (rc6_blocks n _ _) as [r|] eqn:Er; [|done]. cbn [mbind option_bind]. intros [= <-].
  destruct (rc6_block false st inbuf b Eb) as [Lb _].
  assert (rc6_encrypt st (take 16 inbuf) = Some b) as Et by (unfold rc6_encrypt in *; by rewrite take_take).
  assert (rc6_decrypt st (b ++ r) = rc6_decrypt st b) as ->.
  { unfold rc6_decrypt. by rewrite take_app_le, !take_ge by lia. }
  rewrite (decrypt_encrypt st (take 16 inbuf)); [|by apply Forall_take|rewrite length_take; lia|done]. cbn [mbind option_bind].
  rewrite drop_app_length' by done. rewrite (IH (drop 16 inbuf)); [|by apply Forall_drop|rewrite length_drop; lia|done].
  cbn [mbind option_bind]. by rewrite take_drop.
Qed.

(** Where no rotation of the encryption is by 0, decryption takes it back without one
    either, on every number of blocks and with every state. *)
Theorem rc6_roundtrip st n inbuf c :
  bytes inbuf -> length inbuf = (16 * n)%nat -> rc6_blocks n (rc6_encrypt st) inbuf = Some c ->
  rc6_blocks n (rc6_decrypt st) c = Some inbuf.
Proof. apply rc6_inverse. Qed.

(** The length of the key is stored in units of eight bytes, although its name and
    the other ciphers say bytes. *)
Lemma rc6_key_size_units {St} key direction st flag (s s' : St) :
  rc6_init key 16 direction s = Ok (Some (st, flag)) s' -> rc6_key_size st = 2.
Proof.
  unfold rc6_init. cbn [Z.eqb Pos.eqb negb andb]. rewrite run_bind. destruct (mix _ _ _ _ _ _ _); [|done].
  rewrite run_lift, run_ret. by intros [= <- <- <-].
Qed.

Lemma rc6_roundtrip_witness :
  exists st c, rc6_init (90 :: repeat 0 15) 16 0 tt = Ok (Some (st, false)) tt
    /\ rc6_blocks 1 (rc6_encrypt st) (repeat 65 16) = Some c /\ rc6_blocks 1 (rc6_decrypt st) c = Some (repeat 65 16).
Proof.
  eexists. eexists. split; [vm_compute; reflexivity|]. split; [vm_compute; reflexivity|].
  apply (rc6_roundtrip _ 1 (repeat 65 16)); [|done|vm_compute; reflexivity].
  simpl. repeat constructor; unfold is_byte; lia.
Defined.
