(* ===== verification/Crypto.v ===== *)
(** * Ciphers

    [libr/crypto/crypto.c] and its plugins of [libr/crypto/p/].  The state is an
    [RCrypto] and the static variables of the plugins, which all the objects
    share. *)

From S2P Require Import Prelude Buf Base64 Rc4 Blowfish Rc6.

Definition R_CRYPTO_DIR_CIPHER : Z := 0.
Definition R_CRYPTO_DIR_DECIPHER : Z := 1.

(** ** Exclusive or and shifts with the bytes of a key *)

Definition MAX_KEY_SIZE : Z := 32768.

(** The key and its length: [xor_state], [rol_state] and [ror_state]. *)
Record key_state := mk_key { k_key : list Z; k_size : Z }.
Definition key_init (key : list Z) (keylen : Z) : option key_state :=
  if (keylen <? 1) || (MAX_KEY_SIZE <? keylen) then None else Some (mk_key (take (Z.to_nat keylen) key) keylen).

(** [f] on every byte and the byte of the key at its position. *)
Fixpoint with_key {S} (f : Z -> Z -> option Z) (st : key_state) (i : Z) (inbuf : list Z) : M S (list Z) :=
  match inbuf with
  | [] => mret []
  | c :: inbuf =>
      if k_size st =? 0 then undef UB_div
      else
        k ← load (k_key st) (Z.to_nat (i mod k_size st));
        x ← lift UB_shift (f c k);
        out ← with_key f st (i + 1) inbuf;
        mret (u8 x :: out)
  end.
Definition xor_crypt {S} (st : key_state) (inbuf : list Z) : M S (list Z) :=
  with_key (fun c k => Some (Z.lxor c k)) st 0 inbuf.

(** Despite the names these are shifts of an [int]: a bit that leaves the byte is
    lost, and a byte of the key of 32 or more is not a count. *)
Definition rol_crypt {S} (st : key_state) (inbuf : list Z) : M S (list Z) :=
  with_key (fun c k => if 32 <=? k then None else Some (Z.shiftl c k)) st 0 inbuf.
Definition ror_crypt {S} (st : key_state) (inbuf : list Z) : M S (list Z) :=
  with_key (fun c k => if 32 <=? k then None else Some (Z.shiftr c k)) st 0 inbuf.

(** ** Rotation of letters *)

(** [mod (a, b)] for a positive remainder; the recursion is for a negative [b]. *)
Definition rot_mod (a b : Z) : Z :=
  let '(a, b) := if b <? 0 then (- a, - b) else (a, b) in
  let ret := Z.rem a b in
  if ret <? 0 then ret + b else ret.

(** [atoi]: blanks, a sign and digits. *)
Fixpoint digits (acc : Z) (s : list Z) : Z :=
  match s with c :: s => if (48 <=? c) && (c <=? 57) then digits (10 * acc + (c - 48)) s else acc | [] => acc end.
Fixpoint atoi (s : list Z) : Z :=
  match s with
  | c :: s' =>
      if (c =? 32) || ((9 <=? c) && (c <=? 13)) then atoi s'
      else if c =? 45 then - digits 0 s' else if c =? 43 then digits 0 s' else digits 0 s
  | [] => 0
  end.

(** The new key, or nothing; a number out of the range of [int] is undefined. *)
Definition rot_init {S} (key : list Z) (keylen : Z) : M S (option Z) :=
  if keylen <=? 0 then mret None
  else
    let i := atoi key in
    if (i <? - 2 ^ 31) || (2 ^ 31 <=? i) then undef UB_overflow else mret (Some (u8 (rot_mod i 26))).

Definition is_lower (c : Z) : bool := (97 <=? c) && (c <=? 122).
Definition is_upper (c : Z) : bool := (65 <=? c) && (c <=? 90).
Definition rot_byte (key c : Z) : Z :=
  if negb (is_lower c) && negb (is_upper c) then c
  else
    let a := if is_lower c then 97 else 65 in
    u8 (u8 (rot_mod (u8 (u8 (c + key) - a)) 26) + a).
Definition rot_back (key c : Z) : Z :=
  if negb (is_lower c) && negb (is_upper c) then c
  else
    let a := if is_lower c then 97 else 65 in
    u8 (u8 (rot_mod (u8 (u8 (u8 (c + 26) - key) - a)) 26) + a).
Definition rot_crypt (key : Z) (inbuf : list Z) : list Z := rot_byte key <$> inbuf.
Definition rot_decrypt (key : Z) (inbuf : list Z) : list Z := rot_back key <$> inbuf.

(** ** The object and its plugins *)

Inductive plugin := P_rc4 | P_xor | P_blowfish | P_rot | P_rol | P_ror | P_base64 | P_rc6.
#[export] Instance plugin_eq_dec : EqDecision plugin.
Proof. solve_decision. Defined.

Definition use (p : plugin) (algo : string) : bool :=
  String.eqb algo match p with
                  | P_rc4 => "rc4" | P_xor => "xor" | P_blowfish => "blowfish" | P_rot => "rot" | P_rol => "rol"
                  | P_ror => "ror" | P_base64 => "base64" | P_rc6 => "rc6"
                  end%string.

(** [output] is what was written to the buffer, of which [output_size] bytes are
    allocated. *)
Record RCrypto := mk_cry {
  h : option plugin;
  key_len : Z;
  output : list Z;
  output_size : Z;
  plugins : list plugin
}.

(** [flags] is the direction that each plugin was given last. *)
Record crypto := mk_crypto {
  cry : RCrypto;
  flags : plugin -> Z;
  st_rc4 : rc4_state;
  st_xor : key_state;
  st_blowfish : blowfish_state;
  rot_key : Z;
  st_rol : key_state;
  st_ror : key_state;
  st_rc6 : rc6_state
}.

Definition set_cry v c := mk_crypto v (flags c) (st_rc4 c) (st_xor c) (st_blowfish c) (rot_key c) (st_rol c) (st_ror c) (st_rc6 c).
Definition set_flags v c := mk_crypto (cry c) v (st_rc4 c) (st_xor c) (st_blowfish c) (rot_key c) (st_rol c) (st_ror c) (st_rc6 c).
Definition set_rc4 v c := mk_crypto (cry c) (flags c) v (st_xor c) (st_blowfish c) (rot_key c) (st_rol c) (st_ror c) (st_rc6 c).
Definition set_xor v c := mk_crypto (cry c) (flags c) (st_rc4 c) v (st_blowfish c) (rot_key c) (st_rol c) (st_ror c) (st_rc6 c).
Definition set_blowfish v c := mk_crypto (cry c) (flags c) (st_rc4 c) (st_xor c) v (rot_key c) (st_rol c) (st_ror c) (st_rc6 c).
Definition set_rot v c := mk_crypto (cry c) (flags c) (st_rc4 c) (st_xor c) (st_blowfish c) v (st_rol c) (st_ror c) (st_rc6 c).
Definition set_rol v c := mk_crypto (cry c) (flags c) (st_rc4 c) (st_xor c) (st_blowfish c) (rot_key c) v (st_ror c) (st_rc6 c).
Definition set_ror v c := mk_crypto (cry c) (flags c) (st_rc4 c) (st_xor c) (st_blowfish c) (rot_key c) (st_rol c) v (st_rc6 c).
Definition set_rc6 v c := mk_crypto (cry c) (flags c) (st_rc4 c) (st_xor c) (st_blowfish c) (rot_key c) (st_rol c) (st_ror c) v.

Notation C := (M crypto).

(** The length of [output] is [output_len]. *)
Definition r_crypto_append (buf : list Z) : C Z :=
  c ← gets cry;
  let len := Z.of_nat (length buf) in
  let output_len := Z.of_nat (length (output c)) in
  let size := if output_size c <? output_len + len then output_size c + 4096 + len else output_size c in
  if 2 ^ 31 <=? size then undef UB_overflow
  else if size <? output_len + len then undef UB_oob
  else
    modify (set_cry (mk_cry (h c) (key_len c) (output c ++ buf) size (plugins c))) ;;
    mret (output_len + len).

(** The bytes written; without a [size] the buffer of an object that has one is
    started anew. *)
Definition r_crypto_get_output (size : bool) : C (option (list Z)) :=
  c ← gets cry;
  if output_size c <? 1 then mret None
  else if size then mret (Some (output c))
  else modify (set_cry (mk_cry (h c) (key_len c) [] 4096 (plugins c))) ;; mret None.

Definition crypto_static_plugins : list plugin := [P_rc4; P_xor; P_blowfish; P_rot; P_rol; P_ror; P_base64; P_rc6].
Definition r_crypto_add (p : plugin) : C bool :=
  modify (fun s => let c := cry s in set_cry (mk_cry (h c) (key_len c) (output c) (output_size c) (plugins c ++ [p])) s) ;;
  mret true.
Definition r_crypto_init (hard : bool) : C unit :=
  modify (fun s => let c := cry s in set_cry (mk_cry (h c) 0 (output c) (output_size c) (plugins c)) s) ;;
  if hard then
    r_crypto_get_output false ;;
    modify (fun s => let c := cry s in set_cry (mk_cry (h c) (key_len c) (output c) (output_size c) []) s) ;;
    foldr (fun p m => r_crypto_add p ;; m) (mret tt) crypto_static_plugins
  else mret tt.
Definition r_crypto_new : C unit :=
  modify (set_cry (mk_cry None 0 [] 0 [])) ;; r_crypto_init true.

Definition plugin_key_size (p : plugin) : C Z :=
  gets (fun s => match p with
                 | P_rc4 => rc4_key_size (st_rc4 s) | P_xor => k_size (st_xor s) | P_blowfish => bf_key_size (st_blowfish s)
                 | P_rot => 1 | P_rol => k_size (st_rol s) | P_ror => k_size (st_ror s) | P_base64 => 0
                 | P_rc6 => rc6_key_size (st_rc6 s)
                 end).

Definition r_crypto_use (algo : string) : C bool :=
  c ← gets cry;
  match find (fun p => use p algo) (plugins c) with
  | Some p =>
      n ← plugin_key_size p;
      modify (set_cry (mk_cry (Some p) n (output c) (output_size c) (plugins c))) ;;
      mret true
  | None => mret false
  end.
Definition r_crypto_get_key_size : C Z :=
  c ← gets cry; match h c with Some p => plugin_key_size p | None => mret 0 end.

Definition set_flag (p : plugin) (direction : Z) : C unit :=
  modify (fun s => set_flags (fun q => if decide (q = p) then direction else flags s q) s).

Definition set_keyed (set : key_state -> crypto -> crypto) (key : list Z) (keylen : Z) : C bool :=
  match key_init key keylen with Some st => modify (set st) ;; mret true | None => mret false end.

(** [h->set_key]. *)
Definition plugin_set_key (p : plugin) (key : list Z) (keylen direction : Z) : C bool :=
  match p with
  | P_rc4 => match rc4_init key keylen with Some st => modify (set_rc4 st) ;; mret true | None => mret false end
  | P_xor => set_keyed set_xor key keylen
  | P_blowfish =>
      set_flag P_blowfish direction ;;
      s ← gets id;
      match blowfish_init key keylen (st_blowfish s) with
      | Ok r st => modify (set_blowfish st) ;; mret r
      | Undef u => undef u
      end
  | P_rot =>
      set_flag P_rot direction ;;
      k ← rot_init key keylen;
      match k with Some k => modify (set_rot k) ;; mret true | None => mret false end
  | P_rol => set_flag P_rol direction ;; set_keyed set_rol key keylen
  | P_ror => set_flag P_ror direction ;; set_keyed set_ror key keylen
  | P_base64 => set_flag P_base64 direction ;; mret true
  | P_rc6 =>
      r ← rc6_init key keylen direction;
      match r with
      | Some (st, flag) => modify (set_rc6 st) ;; set_flag P_rc6 (b2z flag) ;; mret true
      | None => mret false
      end
  end.

Definition base64_update (flag : Z) (buf : list Z) : C (list Z) :=
  let len := Z.of_nat (length buf) in
  let run olen (f : M (list Z) Z) : C (list Z) :=
    match f (repeat 0 (Z.to_nat (olen + 1))) with
    | Ok n obuf => mret (take (Z.to_nat n) obuf)
    | Undef u => undef u
    end in
  if flag =? 0 then let olen := (len + 2) / 3 * 4 in run olen (r_base64_encode buf len ;; mret olen)
  else if flag =? 1 then
    let last i := byte_at buf (Z.to_nat (len - i)) in
    run (len / 4 * 3 - (if (0 <? len) && (last 1 =? 61) then if last 2 =? 61 then 2 else 1 else 0)) (r_base64_decode buf len)
  else mret [].

(** [h->update]; the [calloc] of the result succeeds. *)
Definition plugin_update (p : plugin) (buf : list Z) : C Z :=
  s ← gets id;
  let len := length buf in
  let append out := r_crypto_append out ;; mret 0 in
  match p with
  | P_rc4 =>
      let '(st, out) := rc4_crypt (st_rc4 s) buf in
      modify (set_rc4 st) ;; append out
  | P_xor => out ← xor_crypt (st_xor s) buf; append out
  | P_blowfish =>
      let f := flags s P_blowfish in
      append (if f =? 0 then blowfish_crypt (st_blowfish s) buf (repeat 0 len)
              else if f =? 1 then blowfish_decrypt (st_blowfish s) buf (repeat 0 len) else repeat 0 len)
  | P_rot =>
      let f := flags s P_rot in
      append (if f =? 0 then rot_crypt (rot_key s) buf else if f =? 1 then rot_decrypt (rot_key s) buf else repeat 0 len)
  | P_rol => if negb (flags s P_rol =? 0) then mret 0 else out ← rol_crypt (st_rol s) buf; append out
  | P_ror => if negb (flags s P_ror =? 0) then mret 0 else out ← ror_crypt (st_ror s) buf; append out
  | P_base64 => out ← base64_update (flags s P_base64) buf; match out with [] => mret 0 | _ => append out end
  | P_rc6 =>
      if negb (Z.of_nat len mod BLOCK_SIZE =? 0) then mret 0
      else
        out ← lift UB_shift (rc6_blocks (len / 16)
          (if negb (flags s P_rc6 =? 0) then rc6_decrypt (st_rc6 s) else rc6_encrypt (st_rc6 s)) buf);
        append out
  end.

Definition r_crypto_set_key (key : list Z) (keylen mode direction : Z) : C bool :=
  keylen ← (if keylen <? 0 then n ← strlen key; mret (Z.of_nat n) else mret keylen);
  c ← gets cry;
  match h c with Some p => plugin_set_key p key keylen direction | None => mret false end.
Definition r_crypto_update (buf : list Z) : C Z :=
  c ← gets cry; match h c with Some p => plugin_update p buf | None => mret 0 end.
Definition r_crypto_final (buf : list Z) : C Z :=
  c ← gets cry; match h c with Some p => plugin_update p buf | None => mret 0 end.
