(* ===== verification/CryptoFacts.v ===== *)
(** * Encrypting and decrypting through the object

    Facts of [Crypto]: what a session with a cipher writes to the output is read
    back by a session in the other direction. *)

From S2P Require Import Prelude Buf Base64 Rc4 Blowfish Rc6 Crypto.

(** ** The simple ciphers *)

Record key_ok (st : key_state) : Prop := {
  ko_size : k_size st = Z.of_nat (length (k_key st));
  ko_some : (0 < length (k_key st))%nat;
  ko_bytes : bytes (k_key st)
}.

Lemma key_init_ok key :
  bytes key -> (1 <= Z.of_nat (length key) <= MAX_KEY_SIZE) -> exists st, key_init key (Z.of_nat (length key)) = Some st /\ key_ok st.
Proof.
  intros Hb Hl. unfold key_init, MAX_KEY_SIZE in *. rewrite (proj2 (Z.ltb_ge _ _)), (proj2 (Z.ltb_ge _ _)) by lia. cbn [orb].
  eexists. split; [reflexivity|]. split; cbn [k_key k_size]; rewrite ?Nat2Z.id, ?firstn_all; (lia || done).
Qed.

(** The stream of the key is the same in both directions. *)
Fixpoint xor_stream (st : key_state) (i : Z) (l : list Z) : list Z :=
  match l with [] => [] | c :: l => Z.lxor c (byte_at (k_key st) (Z.to_nat (i mod k_size st))) :: xor_stream st (i + 1) l end.

Lemma xor_crypt_run {S} st l (s : S) : key_ok st -> bytes l -> xor_crypt st l s = Ok (xor_stream st 0 l) s.
Proof.
  intros [Es Hs Hk] Hl. unfold xor_crypt. generalize 0. induction Hl as [|c l Hc Hl IH]; intros i; cbn [with_key xor_stream]; [done|].
  rewrite (proj2 (Z.eqb_neq _ _)) by lia. pose proof (Z.mod_pos_bound i (k_size st) ltac:(lia)).
  rewrite run_bind, (load_run _ _ (byte_at (k_key st) (Z.to_nat (i mod k_size st)))) by (apply byte_at_lookup; lia). cbv beta iota.
  cbn [lift]. rewrite run_bind, run_ret, run_bind, IH. cbv beta iota. rewrite run_ret. do 2 f_equal. apply u8_id.
  apply (lxor_range 8); [lia|done|]. apply (byte_at_range _ _ Hk).
Qed.

Lemma xor_stream_twice st l : forall i, xor_stream st i (xor_stream st i l) = l.
Proof.
  induction l as [|c l IH]; intros i; cbn [xor_stream]; [done|]. by rewrite IH, Z.lxor_assoc, Z.lxor_nilpotent, Z.lxor_0_r.
Qed.

Lemma xor_stream_bytes st l : key_ok st -> bytes l -> forall i, bytes (xor_stream st i l) /\ length (xor_stream st i l) = length l.
Proof.
  intros Hk Hl. induction Hl as [|c l Hc Hl IH]; intros i; cbn [xor_stream length]; [by split; [constructor|]|].
  destruct (IH (i + 1)) as [IH1 ->]. split; [|done]. constructor; [|done].
  apply (lxor_range 8); [lia|done|]. apply byte_at_range, (ko_bytes _ Hk).
Qed.

Lemma rot_back_byte k c : 0 <= k < 26 -> is_byte c -> rot_back k (rot_byte k c) = c /\ is_byte (rot_byte k c).
Proof.
  intros Hk Hc.
  assert (forallb (fun k => forallb (fun c => (rot_back k (rot_byte k c) =? c) && (0 <=? rot_byte k c) && (rot_byte k c <? 256))
    (seqZ 0 256)) (seqZ 0 26) = true) as E by by vm_compute.
  rewrite forallb_forall in E. specialize (E k). rewrite <- list_elem_of_In, elem_of_seqZ in E. specialize (E ltac:(lia)).
  rewrite forallb_forall in E. specialize (E c). rewrite <- list_elem_of_In, elem_of_seqZ in E. unfold is_byte in *. specialize (E ltac:(lia)).
  apply andb_true_iff in E as [[E1 E2]%andb_true_iff E3]. lia.
Qed.

Lemma rot_mod_range i : 0 <= u8 (rot_mod i 26) < 26.
Proof.
  unfold rot_mod. change (26 <? 0) with false. cbv iota. pose proof (Z.rem_bound_abs i 26 ltac:(lia)).
  destruct (Z.ltb_spec (Z.rem i 26) 0); rewrite u8_id; lia.
Qed.

Lemma rot_roundtrip k l :
  0 <= k < 26 -> bytes l -> rot_decrypt k (rot_crypt k l) = l /\ bytes (rot_crypt k l) /\ length (rot_crypt k l) = length l.
Proof.
  intros Hk Hl. unfold rot_decrypt, rot_crypt. rewrite length_fmap. induction Hl as [|c l Hc Hl (IH1 & IH2 & _)]; [by split_and!; [|constructor|]|].
  destruct (rot_back_byte k c Hk Hc). cbn [fmap list_fmap]. split_and!; [by f_equal|by constructor|done].
Qed.

(** ** The output *)

Definition total (c : crypto) : Z := Z.of_nat (length (output (cry c))).
Definition with_output (out : list Z) (n : Z) (s : crypto) : crypto :=
  set_cry (mk_cry (h (cry s)) (key_len (cry s)) out n (plugins (cry s))) s.

Record has_room (n : Z) (s : crypto) : Prop := {
  hr_size : total s <= output_size (cry s) <= 2 * total s + 4096;
  hr_room : 2 * (total s + n) + 4096 < 2 ^ 31
}.

Lemma output_append_run out s n :
  has_room n s -> Z.of_nat (length out) <= n ->
  exists k size, r_crypto_append out s = Ok k (with_output (output (cry s) ++ out) size s)
    /\ has_room (n - Z.of_nat (length out)) (with_output (output (cry s) ++ out) size s).
Proof.
  intros [Hs Hr] Hl. unfold r_crypto_append, total in *. rewrite run_bind, run_gets. cbv beta iota zeta.
  set (size := if output_size (cry s) <? _ then _ else _).
  assert (size < 2 ^ 31 /\ Z.of_nat (length (output (cry s))) + Z.of_nat (length out) <= size
    /\ 0 <= size <= 2 * (Z.of_nat (length (output (cry s))) + Z.of_nat (length out)) + 4096) as (H1 & H2 & H3).
  { unfold size. destruct (Z.ltb_spec (output_size (cry s)) (Z.of_nat (length (output (cry s))) + Z.of_nat (length out))); lia. }
  rewrite (proj2 (Z.leb_gt _ _)), (proj2 (Z.ltb_ge _ _)) by lia.
  exists (Z.of_nat (length (output (cry s))) + Z.of_nat (length out)), size.
  split; [reflexivity|]. split; unfold total, with_output; cbn [cry set_cry output output_size]; rewrite length_app; lia.
Qed.

(** ** The ciphers as functions of their key *)

(** The static state of a plugin. *)
Inductive static :=
  | K_rc4 (st : rc4_state) | K_xor (st : key_state) | K_blowfish (st : blowfish_state) | K_rot (k : Z) | K_rc6 (st : rc6_state).
Definition static_of (p : plugin) (s : crypto) : option static :=
  match p with
  | P_rc4 => Some (K_rc4 (st_rc4 s)) | P_xor => Some (K_xor (st_xor s)) | P_blowfish => Some (K_blowfish (st_blowfish s))
  | P_rot => Some (K_rot (rot_key s)) | P_rc6 => Some (K_rc6 (st_rc6 s)) | _ => None
  end.
Definition good (k : static) : Prop :=
  match k with
  | K_rc4 st => rc4_ok st | K_xor st => key_ok st | K_blowfish st => words_ok st | K_rot k => 0 <= k < 26 | K_rc6 _ => True
  end.
Definition block_size (p : plugin) : Z := match p with P_blowfish => 8 | P_rc6 => 16 | _ => 1 end.
Definition keeps_direction (p : plugin) : bool := match p with P_rc4 | P_xor => false | _ => true end.

Lemma whole_blocks n : Z.of_nat n mod 16 = 0 -> (16 * (n / 16) = n)%nat.
Proof.
  intros E. pose proof (Nat.div_mod n 16 ltac:(lia)) as H. assert (n mod 16 = 0)%nat; [|lia].
  apply Nat2Z.inj. by rewrite Nat2Z.inj_mod.
Qed.

(** The next key and the result of an update, in the direction [d]; [None] is the
    undefined shift of RC6. *)
Definition crypt (d : bool) (k : static) (buf : list Z) : option (static * list Z) :=
  match k with
  | K_rc4 st => let '(st, out) := rc4_crypt st buf in Some (K_rc4 st, out)
  | K_xor st => Some (k, xor_stream st 0 buf)
  | K_blowfish st =>
      Some (k, if d then blowfish_decrypt st buf (repeat 0 (length buf)) else blowfish_crypt st buf (repeat 0 (length buf)))
  | K_rot r => Some (k, if d then rot_decrypt r buf else rot_crypt r buf)
  | K_rc6 st => pair k <$> rc6_blocks (length buf / 16) (if d then rc6_decrypt st else rc6_encrypt st) buf
  end.

Lemma rc4_crypt_out st buf : rc4_ok st -> bytes buf -> bytes (rc4_crypt st buf).2 /\ length (rc4_crypt st buf).2 = length buf.
Proof.
  intros Hs Hb. revert st Hs. induction Hb as [|c buf Hc Hb IH]; intros st Hs; cbn [rc4_crypt]; [by split; [constructor|]|].
  pose proof (rc4_step_ok st Hs) as [H1 H2]. destruct (rc4_step st) as [st' k]. specialize (IH st' H1).
  destruct (rc4_crypt st' buf) as [st'' out]. cbn [fst snd length] in *. destruct IH as [IH1 IH2]. split; [|lia]. constructor; [|done].
  by apply (lxor_range 8).
Qed.

Lemma crypt_length p d k s buf k' out :
  static_of p s = Some k -> good k -> bytes buf -> Z.of_nat (length buf) mod block_size p = 0 ->
  crypt d k buf = Some (k', out) -> length out = length buf.
Proof.
  intros Ep Hg Hb Hm. destruct p; try done; injection Ep as <-; cbn [crypt block_size good] in *.
  - destruct (rc4_crypt_out (st_rc4 s) buf Hg Hb) as [_ E]. destruct (rc4_crypt _ _). by intros [= <- <-].
  - intros [= <- <-]. by apply xor_stream_bytes.
  - unfold blowfish_decrypt, blowfish_crypt. rewrite Hm, Z.eqb_refl. cbn [negb]. intros [= <- <-]. destruct d; by apply blocks_length.
  - intros [= <- <-]. destruct d; apply length_fmap.
  - intros (out' & E & [= -> ->])%fmap_Some. destruct (rc6_blocks_length d _ _ _ _ E) as [-> _]. by apply whole_blocks.
Qed.

(** Decrypting takes encrypting back and leaves the same key. *)
Lemma crypt_inverse p k s buf k' out :
  static_of p s = Some k -> good k -> bytes buf -> Z.of_nat (length buf) mod block_size p = 0 ->
  crypt false k buf = Some (k', out) ->
  crypt true k out = Some (k', buf) /\ bytes out /\ good k'.
Proof.
  intros Ep Hg Hb Hm. destruct p; try done; injection Ep as <-; cbn [crypt block_size good] in *.
  - pose proof (rc4_crypt_twice (st_rc4 s) buf) as E. pose proof (rc4_crypt_out (st_rc4 s) buf Hg Hb) as [H1 _].
    pose proof (rc4_crypt_ok (st_rc4 s) buf Hg) as H2. destruct (rc4_crypt (st_rc4 s) buf) as [st out']. cbn [fst snd] in *.
    intros [= <- <-]. by rewrite E.
  - intros [= <- <-]. rewrite xor_stream_twice. split_and!; [done| |done]. by apply xor_stream_bytes.
  - intros [= <- <-]. assert (length (blowfish_crypt (st_blowfish s) buf (repeat 0 (length buf))) = length buf) as El.
    { unfold blowfish_crypt. rewrite Hm, Z.eqb_refl. by apply blocks_length. }
    rewrite El, blowfish_inverse by done. split_and!; [done| |done]. apply blowfish_crypt_bytes.
    apply Forall_forall. intros x Hx%list_elem_of_In. apply repeat_spec in Hx as ->. unfold is_byte. lia.
  - intros [= <- <-]. by destruct (rot_roundtrip (rot_key s) buf Hg Hb) as (-> & H1 & H2).
  - intros (out' & E & [= -> ->])%fmap_Some. destruct (rc6_blocks_length false _ _ _ _ E) as [El Hb'].
    rewrite El, whole_blocks by done. rewrite (rc6_inverse _ _ buf out'); [done|done|by rewrite whole_blocks|done].
Qed.

(** Only RC6 leaves an update undefined. *)
Lemma crypt_none d k buf : crypt d k buf = None -> exists st, k = K_rc6 st.
Proof. destruct k; cbn [crypt]; try done; [by destruct (rc4_crypt _ _)|eauto]. Qed.
Lemma crypt_kind d k buf k' out st : crypt d k buf = Some (k', out) -> k' = K_rc6 st -> k = K_rc6 st.
Proof.
  destruct k; cbn [crypt]; try (by intros [= <- <-]); [by destruct (rc4_crypt _ _); intros [= <- <-]|].
  by intros (out' & _ & [= -> ->])%fmap_Some.
Qed.

(** ** An update *)

(** The plugin [p] is used in the direction [d] with the key [k]. *)
Record keyed (p : plugin) (d : bool) (k : static) (s : crypto) : Prop := {
  ky_used : h (cry s) = Some p;
  ky_static : static_of p s = Some k;
  ky_good : good k;
  ky_flag : keeps_direction p = true -> flags s p = b2z d
}.

Lemma plugin_update_run p d k s buf n k' out :
  keyed p d k s -> has_room n s -> bytes buf -> Z.of_nat (length buf) <= n -> Z.of_nat (length buf) mod block_size p = 0 ->
  crypt d k buf = Some (k', out) -> good k' ->
  exists s', r_crypto_update buf s = Ok 0 s' /\ keyed p d k' s'
    /\ has_room (n - Z.of_nat (length buf)) s' /\ output (cry s') = output (cry s) ++ out.
Proof.
  intros [Eu Ek Hg Hf] Hr Hb Hn Hm Hc Hg'. pose proof (crypt_length p d k s buf k' out Ek Hg Hb Hm Hc) as El.
  unfold r_crypto_update. rewrite run_bind, run_gets. cbv beta iota. rewrite Eu.
  assert (forall s1, cry s1 = cry s -> static_of p s1 = Some k' -> flags s1 = flags s ->
    exists s', (r_crypto_append out ;; mret 0) s1 = Ok 0 s' /\ keyed p d k' s'
    /\ has_room (n - Z.of_nat (length buf)) s' /\ output (cry s') = output (cry s) ++ out) as Ha.
  { intros s1 Ec Es Efl. destruct (output_append_run out s1 n) as (q & size & E & Hr').
    - destruct Hr as [Hr1 Hr2]. split; unfold total in *; by rewrite Ec.
    - lia.
    - rewrite run_bind, E. cbv beta iota. rewrite run_ret. eexists. split; [reflexivity|].
      rewrite El in Hr'. split_and!; [|done|unfold with_output; cbn [cry set_cry output]; by rewrite Ec].
      split; [unfold with_output; cbn [cry set_cry h]; by rewrite Ec|by destruct p|done|].
      intros Hd. cbn. rewrite Efl. by apply Hf. }
  unfold plugin_update. rewrite run_bind, run_gets. cbv beta iota zeta. unfold id.
  destruct p; try done; injection Ek as <-; cbn [crypt keeps_direction block_size] in *.
  - destruct (rc4_crypt (st_rc4 s) buf) as [st o]. injection Hc as <- <-. rewrite run_bind, run_modify. by apply Ha.
  - injection Hc as <- <-. rewrite run_bind, xor_crypt_run by done. cbv beta iota. by apply Ha.
  - injection Hc as <- <-. rewrite Hf by done. destruct d; by apply Ha.
  - injection Hc as <- <-. rewrite Hf by done. destruct d; by apply Ha.
  - apply fmap_Some in Hc as (o & E & [= -> ->]). unfold BLOCK_SIZE. rewrite Hm, Hf by done.
    destruct d; cbn [b2z Z.eqb negb]; rewrite run_bind, E, run_lift; by apply Ha.
Qed.

(** RC6 at a rotation by 0. *)
Lemma plugin_update_undef p d k s buf :
  keyed p d k s -> Z.of_nat (length buf) mod block_size p = 0 -> crypt d k buf = None ->
  r_crypto_update buf s = Undef UB_shift.
Proof.
  intros [Eu Ek Hg Hf] Hm Hc. destruct (crypt_none d k buf Hc) as [st ->]. destruct p; try done. injection Ek as Es.
  unfold r_crypto_update. rewrite run_bind, run_gets. cbv beta iota. rewrite Eu. unfold plugin_update. rewrite run_bind, run_gets.
  cbv beta iota zeta. unfold id. change (block_size P_rc6) with BLOCK_SIZE in Hm. rewrite Hm, Hf by done. cbn [negb Z.eqb].
  cbn [crypt] in Hc. rewrite Es. destruct d; cbn [b2z Z.eqb negb]; rewrite run_bind; by destruct (rc6_blocks _ _ _).
Qed.

(** ** A session *)

Fixpoint crypts (d : bool) (k : static) (bs : list (list Z)) : option (list (list Z)) :=
  match bs with
  | [] => Some []
  | b :: bs => '(k, c) ← crypt d k b; cs ← crypts d k bs; Some (c :: cs)
  end.
Fixpoint stays_good (d : bool) (k : static) (bs : list (list Z)) : Prop :=
  match bs with
  | [] => True
  | b :: bs => match crypt d k b with Some (k, _) => good k /\ stays_good d k bs | None => True end
  end.

Definition fits (p : plugin) (b : list Z) : Prop := bytes b /\ Z.of_nat (length b) mod block_size p = 0.

Fixpoint updates (bs : list (list Z)) : M crypto bool :=
  match bs with [] => mret true | b :: bs => r_crypto_update b ;; updates bs end.

Lemma updates_run p d k s bs :
  keyed p d k s -> has_room (Z.of_nat (length (concat bs))) s -> Forall (fits p) bs -> stays_good d k bs ->
  match crypts d k bs with
  | Some cs => exists s', updates bs s = Ok true s' /\ output (cry s') = output (cry s) ++ concat cs
  | None => updates bs s = Undef UB_shift
  end.
Proof.
  revert k s. induction bs as [|b bs IH]; intros k s Hk Hr Hf Hg; cbn [updates crypts].
  { exists s. by rewrite app_nil_r. }
  inversion_clear Hf as [|? ? [Hb Hm] Hbs]. cbn [stays_good] in Hg. rewrite run_bind.
  destruct (crypt d k b) as [[k' c]|] eqn:Ec; [|by rewrite (plugin_update_undef p d k)]. destruct Hg as [Hg1 Hg2]. cbn [mbind option_bind].
  cbn [concat] in Hr. rewrite length_app in Hr.
  destruct (plugin_update_run p d k s b (Z.of_nat (length b + length (concat bs))) k' c Hk Hr Hb ltac:(lia) Hm Ec Hg1) as (s1 & E1 & Hk1 & Hr1 & Eo1).
  rewrite E1. cbv beta iota. replace (Z.of_nat (length b + length (concat bs)) - Z.of_nat (length b))
    with (Z.of_nat (length (concat bs))) in Hr1 by lia.
  specialize (IH _ _ Hk1 Hr1 Hbs Hg2). destruct (crypts d k' bs) as [cs|]; [|done]. cbn [mbind option_bind].
  destruct IH as (s' & E' & Eo'). exists s'. split; [done|]. cbn [concat]. by rewrite Eo', Eo1, app_assoc.
Qed.

(** The other direction reads the results. *)
Lemma crypts_inverse p bs : forall k,
  (exists s, static_of p s = Some k) -> good k -> Forall (fits p) bs ->
  stays_good false k bs /\
  match crypts false k bs with
  | Some cs => stays_good true k cs /\ crypts true k cs = Some bs /\ Forall (fits p) cs /\ length <$> cs = length <$> bs
  | None => exists st, k = K_rc6 st
  end.
Proof.
  induction bs as [|b bs IH]; intros k (s & Es) Hg Hf; cbn [crypts stays_good fmap list_fmap]; [by split_and!|].
  inversion_clear Hf as [|? ? [Hb Hm] Hbs].
  destruct (crypt false k b) as [[k' c]|] eqn:Ec; [|by split; [|apply (crypt_none false k b)]]. cbn [mbind option_bind].
  destruct (crypt_inverse p k s b k' c Es Hg Hb Hm Ec) as (Ei & Hb' & Hg').
  pose proof (crypt_length p false k s b k' c Es Hg Hb Hm Ec) as El.
  destruct (IH k') as (H1 & H2); [|done|done|].
  - exists (match k' with K_rc4 st => set_rc4 st s | _ => s end).
    destruct p; try done; injection Es as <-; cbn [crypt] in Ec; try (by injection Ec as <- <-).
    + destruct (rc4_crypt _ _). by injection Ec as <- <-.
    + by apply fmap_Some in Ec as (? & _ & [= -> ->]).
  - split; [done|]. destruct (crypts false k' bs) as [cs|]; cbn [mbind option_bind].
    + destruct H2 as (H2 & H3 & H4 & H5). cbn [stays_good crypts fmap list_fmap]. rewrite Ei. cbn [mbind option_bind]. rewrite H3.
      cbn [mbind option_bind]. split_and!; try done; [constructor; [split; [done|by rewrite El]|done]|by rewrite El, H5].
    + destruct H2 as [st Hst]. exists st. by apply (crypt_kind false k b k' c).
Qed.

Definition name (p : plugin) : string :=
  match p with
  | P_rc4 => "rc4" | P_xor => "xor" | P_blowfish => "blowfish" | P_rot => "rot" | P_rol => "rol"
  | P_ror => "ror" | P_base64 => "base64" | P_rc6 => "rc6"
  end%string.

(** A new object is given the name of a cipher, a key, a direction and the pieces
    of the data. *)
Definition session (p : plugin) (key : list Z) (d : bool) (bs : list (list Z)) : M crypto bool :=
  r_crypto_new ;;
  ok ← r_crypto_use (name p);
  if negb ok then mret false
  else
    ok ← r_crypto_set_key key (Z.of_nat (length key)) 0 (b2z d);
    if negb ok then mret false else updates bs.

(** The keys that a cipher accepts. *)
Definition accepts (p : plugin) (key : list Z) : Prop :=
  let n := Z.of_nat (length key) in
  match p with
  | P_rc4 => 1 <= n
  | P_xor => 1 <= n <= MAX_KEY_SIZE
  | P_blowfish => 1 <= n <= 56
  | P_rot => 1 <= n /\ - 2 ^ 31 <= atoi key < 2 ^ 31
  | P_rc6 => n = 16 \/ n = 24 \/ n = 32
  | _ => False
  end.

Definition sets (p : plugin) (key : list Z) (k : static) : Prop :=
  good k /\ forall d s, h (cry s) = Some p ->
    exists s', plugin_set_key p key (Z.of_nat (length key)) (b2z d) s = Ok true s' /\ keyed p d k s' /\ cry s' = cry s.

Lemma sets_rc4 key st : rc4_init key (Z.of_nat (length key)) = Some st -> sets P_rc4 key (K_rc4 st).
Proof.
  intros E. pose proof (init_ok _ _ _ E) as Hs. split; [done|]. intros d s Eh. cbn [plugin_set_key]. rewrite E.
  eexists. split; [reflexivity|]. by split; [split|].
Qed.

Lemma sets_xor key st : key_init key (Z.of_nat (length key)) = Some st -> key_ok st -> sets P_xor key (K_xor st).
Proof.
  intros E Hs. split; [done|]. intros d s Eh. cbn [plugin_set_key]. unfold set_keyed. rewrite E.
  eexists. split; [reflexivity|]. by split; [split|].
Qed.

Lemma sets_blowfish key st :
  (forall st0, blowfish_init key (Z.of_nat (length key)) st0 = Ok true st) -> words_ok st -> sets P_blowfish key (K_blowfish st).
Proof.
  intros E Hs. split; [done|]. intros d s Eh. cbn [plugin_set_key]. unfold set_flag.
  rewrite run_bind, run_modify, run_bind, run_gets. cbv beta iota. unfold id. rewrite E.
  eexists. split; [reflexivity|]. by split; [split|].
Qed.

Lemma sets_rot key : 1 <= Z.of_nat (length key) -> - 2 ^ 31 <= atoi key < 2 ^ 31 -> sets P_rot key (K_rot (u8 (rot_mod (atoi key) 26))).
Proof.
  intros Hl Hr. split; [apply rot_mod_range|]. intros d s Eh. cbn [plugin_set_key]. unfold set_flag. rewrite run_bind, run_modify.
  unfold rot_init. rewrite (proj2 (Z.leb_gt _ _)), (proj2 (Z.ltb_ge _ _)), (proj2 (Z.leb_gt _ _)) by lia. cbn [orb].
  eexists. split; [reflexivity|]. split; [split; [done|done|apply rot_mod_range|done]|done].
Qed.

Lemma sets_rc6 key st :
  (forall d s, rc6_init (St := crypto) key (Z.of_nat (length key)) (b2z d) s = Ok (Some (st, d)) s) -> sets P_rc6 key (K_rc6 st).
Proof.
  intros E. split; [done|]. intros d s Eh. cbn [plugin_set_key]. rewrite run_bind, E.
  eexists. split; [reflexivity|]. by split; [split|].
Qed.

Lemma blowfish_init_run key n st0 : 1 <= n <= 56 -> blowfish_init key n st0 = Ok true (key_schedule key n).
Proof.
  intros Hn. unfold blowfish_init. by rewrite (proj2 (Z.ltb_ge 56 _)), (proj2 (Z.eqb_neq _ _)), (proj2 (Z.ltb_ge _ 0)) by lia.
Qed.

Lemma rc6_init_run {St} key n : n = 16 \/ n = 24 \/ n = 32 ->
  (exists st, forall d s, rc6_init (St := St) key n (b2z d) s = Ok (Some (st, d)) s) \/
  (forall d s, rc6_init (St := St) key n d s = Undef UB_shift).
Proof.
  intros Hn. unfold rc6_init.
  assert (negb (n =? 16) && negb (n =? 24) && negb (n =? 32) = false) as -> by (by destruct Hn as [->|[->| ->]]).
  destruct (mix _ _ _ _ _ _ _) as [m|]; [left; eexists; by intros []|by right].
Qed.

(** A key that is accepted is set, or RC6 rotates by 0. *)
Lemma set_key_run p key : accepts p key -> bytes key ->
  (exists k, sets p key k) \/
  (p = P_rc6 /\ forall d s, plugin_set_key p key (Z.of_nat (length key)) (b2z d) s = Undef UB_shift).
Proof.
  intros Ha Hb. destruct p; try done; cbn [accepts] in Ha.
  - left. destruct (rc4_init key (Z.of_nat (length key))) as [st|] eqn:E; [eexists; by apply sets_rc4|].
    unfold rc4_init in E. by rewrite (proj2 (Z.ltb_ge _ _)) in E by lia.
  - left. destruct (key_init_ok key Hb Ha) as (st & E & Hk). eexists. by apply (sets_xor key st).
  - left. exists (K_blowfish (key_schedule key (Z.of_nat (length key)))). apply sets_blowfish; [|by apply key_schedule_ok].
    intros st0. by apply blowfish_init_run.
  - left. destruct Ha as [Hl Hr]. eexists. by apply sets_rot.
  - destruct (rc6_init_run (St := crypto) key _ Ha) as [[st E]|E]; [left; eexists; by apply sets_rc6|right].
    split; [done|]. intros d s. cbn [plugin_set_key]. by rewrite run_bind, E.
Qed.

Definition started (p : plugin) (n : Z) (s : crypto) : crypto := set_cry (mk_cry (Some p) n [] 0 crypto_static_plugins) s.

Lemma start_run p s : exists n, (r_crypto_new ;; r_crypto_use (name p)) s = Ok true (started p n s).
Proof.
  destruct s as [[h0 kl o os pl] f r x b k l r2 r6]. exists (match p with
    | P_rc4 => rc4_key_size r | P_xor => k_size x | P_blowfish => bf_key_size b | P_rot => 1 | P_rol => k_size l
    | P_ror => k_size r2 | P_base64 => 0 | P_rc6 => rc6_key_size r6 end). by destruct p; vm_compute.
Qed.

(** A session up to its key. *)
Lemma session_start p key d bs s : exists n, session p key d bs s =
  match plugin_set_key p key (Z.of_nat (length key)) (b2z d) (started p n s) with
  | Ok ok s => (if negb ok then mret false else updates bs) s
  | Undef u => Undef u
  end.
Proof.
  destruct (start_run p s) as [n En]. exists n. unfold session.
  rewrite run_bind in En. rewrite run_bind. destruct (r_crypto_new s) as [[] s1|]; [|done]. rewrite run_bind, En. cbv beta iota. cbn [negb].
  unfold r_crypto_set_key. rewrite (proj2 (Z.ltb_ge (Z.of_nat (length key)) 0)) by lia.
  rewrite run_bind, run_bind, run_ret. cbv beta iota. rewrite run_bind, run_gets. cbv beta iota.
  by change (h (cry (started p n s))) with (Some p).
Qed.

Lemma session_run p key k :
  sets p key k ->
  (exists s, static_of p s = Some k)
    /\ forall d s bs, 2 * Z.of_nat (length (concat bs)) + 4096 < 2 ^ 31 -> Forall (fits p) bs -> stays_good d k bs ->
      match crypts d k bs with
      | Some cs => exists s', session p key d bs s = Ok true s' /\ output (cry s') = concat cs
      | None => session p key d bs s = Undef UB_shift
      end.
Proof.
  intros [Hg Hk].
  set (cry1 := mk_cry (Some p) 0 [] 0 crypto_static_plugins).
  set (s0 := mk_crypto cry1 (fun _ => 0) (mk_rc4 [] 0 0 0) (mk_key [] 0) (mk_blowfish [] [] 0) 0 (mk_key [] 0) (mk_key [] 0) (mk_rc6 [] 0)).
  split. { destruct (Hk true s0 eq_refl) as (s' & _ & Hs & _). exists s'. apply Hs. }
  intros d s bs Hl Hf Hst. destruct (session_start p key d bs s) as [n ->].
  destruct (Hk d (started p n s) eq_refl) as (s2 & E2 & Hk2 & Ec). rewrite E2. cbn [negb].
  pose proof (updates_run p d k s2 bs Hk2) as H. destruct (crypts d k bs) as [cs|].
  - destruct H as (s' & E' & Eo); [|done|done|].
    + split; unfold total; rewrite Ec; cbn [started cry set_cry output output_size length]; lia.
    + exists s'. split; [done|]. by rewrite Eo, Ec.
  - apply H; [|done|done]. split; unfold total; rewrite Ec; cbn [started cry set_cry output output_size length]; lia.
Qed.


(** ** What the plugins do not do *)

Definition fresh : crypto :=
  mk_crypto (mk_cry None 0 [] 0 []) (fun _ => 0) (mk_rc4 [] 0 0 0) (mk_key [] 0) (mk_blowfish [] [] 0) 0 (mk_key [] 0) (mk_key [] 0)
    (mk_rc6 [] 0).
Definition output_of (o : outcome crypto bool) : option (list Z) :=
  match o with Ok true s => Some (output (cry s)) | _ => None end.

(** rol is a shift: the bits that leave the byte are lost, so that two bytes have
    the same result. *)
Example rol_loses :
  output_of (session P_rol [1] false [[0x81]] fresh) = Some [0x02]
  /\ output_of (session P_rol [1] false [[0x01]] fresh) = Some [0x02].
Proof. by vm_compute. Qed.

(** A byte of the key of 32 or more, such as the text 8, is not a count. *)
Example rol_text_key : session P_rol [56] false [[1]] fresh = Undef UB_shift.
Proof. by vm_compute. Qed.

(** Without a key the exclusive or divides by the length 0. *)
Example xor_without_key : (r_crypto_new ;; r_crypto_use "xor" ;; r_crypto_update [1]) fresh = Undef UB_div.
Proof. by vm_compute. Qed.

(** The exclusive or starts the key again for every piece. *)
Example xor_pieces :
  output_of (session P_xor [1; 2] false [[0]; [0]] fresh) = Some [1; 1]
  /\ output_of (session P_xor [1; 2] false [[0; 0]] fresh) = Some [1; 2].
Proof. by vm_compute. Qed.

(** The decoder of base 64 writes three bytes for every group, for which the
    buffer of padded text has no room. *)
Example base64_overflow : session P_base64 [] true [[81; 81; 61; 61]] fresh = Undef UB_oob.
Proof. by vm_compute. Qed.

(** RC6 with a key and data that need no rotation by 0. *)
Example rc6_session :
  match session P_rc6 (90 :: repeat 0 15) false [repeat 65 16] fresh with
  | Ok true s => output_of (session P_rc6 (90 :: repeat 0 15) true [output (cry s)] s) = Some (repeat 65 16)
  | _ => False
  end.
Proof. by vm_compute. Qed.

