(* ===== verification/AnalRange.v ===== *)
(** * The ranges of the blocks of a function

    [libr/util/tinyrange.c]: an array of pairs in which a function keeps the
    addresses of its blocks.  A missing array is the empty list. *)

From S2P Require Import Prelude Buf.

Record RRangeTiny := mk_tiny { pairs : Z; count : Z; ranges : list Z }.

Definition r_tinyrange_new : RRangeTiny := mk_tiny 0 0 [].
Definition r_tinyrange_fini (bbr : RRangeTiny) : RRangeTiny := mk_tiny 0 0 [].

Section tinyrange.
Context {St : Type}.

Definition at_range (bbr : RRangeTiny) (i : Z) : M St Z :=
  if i <? 0 then undef UB_oob else load (ranges bbr) (Z.to_nat i).

(** [idx] is the index of the start of a pair.  [None]: the bound of turns is not
    enough. *)
Fixpoint in_loop (fuel : nat) (bbr : RRangeTiny) (at_ idx lastIndex : Z) : M St (option bool) :=
  match fuel with
  | O => mret None
  | S fuel =>
      if (idx <=? lastIndex + 1) && (0 <=? idx) then
        fr ← at_range bbr idx;
        found ← (if fr <=? at_ then to ← at_range bbr (idx + 1); mret (at_ <? to) else mret false);
        if found : bool then mret (Some true)
        else if negb (idx =? 0) && (idx <? lastIndex) then
          if at_ <? fr then
            let lastIndex := idx in
            let idx := idx - Z.quot idx 2 in
            in_loop fuel bbr at_ (if negb (Z.rem idx 2 =? 0) then idx - 1 else idx) lastIndex
          else
            let idx := idx + Z.quot (lastIndex - idx) 2 in
            in_loop fuel bbr at_ (if negb (Z.rem idx 2 =? 0) then idx + 1 else idx) lastIndex
        else mret (Some false)
      else mret (Some false)
  end.

(** The turns lower [lastIndex], or raise [idx] towards it. *)
Definition in_fuel (bbr : RRangeTiny) : nat :=
  let n := Z.to_nat (pairs bbr) in n * (n + 1) + n + 1.

Definition r_tinyrange_in (bbr : RRangeTiny) (at_ : Z) : M St (option bool) :=
  if 0 <? pairs bbr then
    let lastIndex := (pairs bbr - 1) * 2 in
    fr ← at_range bbr 0;
    if at_ <? fr then mret (Some false)
    else
      to ← at_range bbr (lastIndex + 1);
      if to <? at_ then mret (Some false)
      else
        let idx := Z.quot lastIndex 2 in
        in_loop (in_fuel bbr) bbr at_ (if negb (Z.rem idx 2 =? 0) then idx - 1 else idx) lastIndex
  else mret (Some false).

(** [bbr->ranges[i] = v] inside the array. *)
Definition put_range (l : list Z) (i v : Z) : M St (list Z) :=
  if (0 <=? i) && (i <? Z.of_nat (length l)) then mret (<[Z.to_nat i := v]> l) else undef UB_oob.

Definition r_tinyrange_add (bbr : RRangeTiny) (from to : Z) : M St (bool * RRangeTiny) :=
  if to <=? from then mret (false, bbr)
  else
    if 0 <? pairs bbr then
      let idx := (pairs bbr - 1) * 2 in
      last ← at_range bbr (idx + 1);
      if from =? last then
        r ← put_range (ranges bbr) (idx + 1) to;
        mret (true, mk_tiny (pairs bbr) (count bbr + 1) r)
      else mret (true, mk_tiny (pairs bbr + 1) (count bbr + 1) (take (Z.to_nat (idx + 2)) (ranges bbr) ++ [from; to]))
    else mret (true, mk_tiny 1 (count bbr + 1) [from; to]).
End tinyrange.

(** ** The pairs *)

Fixpoint flat (ps : list (Z * Z)) : list Z := match ps with [] => [] | (f, t) :: ps => f :: t :: flat ps end.
Definition tiny_of (n : Z) (ps : list (Z * Z)) : RRangeTiny := mk_tiny (Z.of_nat (length ps)) n (flat ps).

(** Ranges that are not empty, one after the other from [lo] on. *)
Fixpoint ordered (lo : Z) (ps : list (Z * Z)) : Prop :=
  match ps with [] => True | (f, t) :: ps => lo <= f < t /\ ordered t ps end.
Definition inside (a : Z) (p : Z * Z) : Prop := p.1 <= a < p.2.
#[export] Instance inside_dec a p : Decision (inside a p) := ltac:(unfold inside; apply _).

Lemma flat_lookup ps k p : ps !! k = Some p -> flat ps !! (2 * k)%nat = Some p.1 /\ flat ps !! (2 * k + 1)%nat = Some p.2.
Proof.
  revert k. induction ps as [|[f t] ps IH]; intros [|k] E; simpl in E; try done.
  - by injection E as <-.
  - replace (2 * S k)%nat with (S (S (2 * k))) by lia. apply (IH k E).
Qed.

Lemma flat_length ps : length (flat ps) = (2 * length ps)%nat.
Proof. induction ps as [|[f t] ps IH]; simpl; lia. Qed.

Lemma flat_app ps qs : flat (ps ++ qs) = flat ps ++ flat qs.
Proof. induction ps as [|[f t] ps IH]; simpl; [done|]. by rewrite IH. Qed.

Lemma ordered_lookup lo ps k p : ordered lo ps -> ps !! k = Some p -> lo <= p.1 < p.2.
Proof.
  revert lo k. induction ps as [|[f t] ps IH]; intros lo [|k] Ho E; simpl in E; try done; destruct Ho as [H1 H2].
  - injection E as <-. simpl. lia.
  - specialize (IH t k H2 E). lia.
Qed.

Lemma ordered_before lo ps i j p q : ordered lo ps -> (i < j)%nat -> ps !! i = Some p -> ps !! j = Some q -> p.2 <= q.1.
Proof.
  revert lo i j. induction ps as [|[f t] ps IH]; intros lo i j Ho Hij Ei Ej; [done|]. destruct Ho as [H1 H2].
  destruct j as [|j]; [lia|]. destruct i as [|i]; simpl in Ei, Ej.
  - injection Ei as <-. pose proof (ordered_lookup t ps j q H2 Ej). simpl. lia.
  - apply (IH t i j H2); (done || lia).
Qed.

Section search.
Context {St : Type} (ps : list (Z * Z)) (lo n a : Z) (Ho : ordered lo ps).
Notation bbr := (tiny_of n ps).

Lemma at_range_run (s : St) k p :
  ps !! k = Some p ->
  at_range bbr (2 * Z.of_nat k) s = Ok p.1 s /\ at_range bbr (2 * Z.of_nat k + 1) s = Ok p.2 s.
Proof.
  intros E. destruct (flat_lookup ps k p E) as [E1 E2]. unfold at_range.
  rewrite (proj2 (Z.ltb_ge _ _)), (proj2 (Z.ltb_ge _ _)) by lia.
  replace (Z.to_nat (2 * Z.of_nat k)) with (2 * k)%nat by lia. replace (Z.to_nat (2 * Z.of_nat k + 1)) with (2 * k + 1)%nat by lia.
  by rewrite (load_run _ _ _ _ E1), (load_run _ _ _ _ E2).
Qed.

(** What is known of the place of [a] when the search is at the pair [i] below
    the pair [j]. *)
Record narrowed (i j : nat) : Prop := {
  na_le : (i <= j < length ps)%nat;
  na_below : forall k p, ps !! k = Some p -> inside a p -> (k <= j)%nat;
  na_first : i = 0%nat -> forall k p, ps !! k = Some p -> inside a p -> k = 0%nat;
  na_last : i = j -> forall k p, ps !! k = Some p -> inside a p -> k = j
}.

Lemma narrowed_down i j p :
  narrowed i j -> (0 < i)%nat -> ps !! i = Some p -> a < p.1 -> narrowed (i / 2) i.
Proof.
  intros [H1 H2 H3 H4] Hi E Ha.
  assert (forall k q, ps !! k = Some q -> inside a q -> (k < i)%nat) as Hk.
  { intros k q Eq [Hq1 Hq2]. destruct (Nat.lt_trichotomy k i) as [|[->|Hlt]]; [done|congruence || (rewrite Eq in E; injection E as <-; lia)|].
    pose proof (ordered_before lo ps i k p q Ho Hlt E Eq). pose proof (ordered_lookup lo ps i p Ho E). lia. }
  pose proof (Nat.div_lt i 2 ltac:(lia) ltac:(lia)). split.
  - lia.
  - intros k q Eq Hq. specialize (Hk k q Eq Hq). lia.
  - intros Hz k q Eq Hq. specialize (Hk k q Eq Hq). assert (i < 2)%nat; [|lia].
    destruct (decide (i < 2)%nat); [done|]. pose proof (Nat.div_le_lower_bound i 2 1 ltac:(lia) ltac:(lia)). lia.
  - lia.
Qed.

Lemma narrowed_up i j p :
  narrowed i j -> (0 < i < j)%nat -> ps !! i = Some p -> p.2 <= a -> narrowed (i + (j - i + 1) / 2) j.
Proof.
  intros [H1 H2 H3 H4] Hi E Ha.
  assert (forall k q, ps !! k = Some q -> inside a q -> (i < k)%nat) as Hk.
  { intros k q Eq [Hq1 Hq2]. destruct (Nat.lt_trichotomy k i) as [Hlt|[->|]]; [|rewrite Eq in E; injection E as <-; lia|done].
    pose proof (ordered_before lo ps k i q p Ho Hlt Eq E). pose proof (ordered_lookup lo ps i p Ho E). lia. }
  pose proof (Nat.div_lt (j - i + 1) 2 ltac:(lia) ltac:(lia)).
  pose proof (Nat.div_le_lower_bound (j - i + 1) 2 1 ltac:(lia) ltac:(lia)). split.
  - lia.
  - done.
  - lia.
  - intros Ej k q Eq Hq. specialize (Hk k q Eq Hq). specialize (H2 k q Eq Hq).
    assert (j - i < 2)%nat; [|lia]. destruct (decide (j - i < 2)%nat); [done|].
    pose proof (Nat.div_mod (j - i + 1) 2 ltac:(lia)). lia.
Qed.

Definition held : bool := bool_decide (Exists (inside a) ps).

Lemma held_at i p : ps !! i = Some p -> inside a p -> held = true.
Proof. intros E H. apply bool_decide_eq_true_2, Exists_exists. exists p. split; [by apply list_elem_of_lookup_2 with i|done]. Qed.

Lemma held_nowhere i p :
  (forall k q, ps !! k = Some q -> inside a q -> k = i) -> ps !! i = Some p -> ~ inside a p -> held = false.
Proof.
  intros H E Hn. apply bool_decide_eq_false_2. intros (q & Hq & Hi)%Exists_exists.
  apply list_elem_of_lookup_1 in Hq as [k Ek]. rewrite (H k q Ek Hi) in Ek. congruence.
Qed.

Lemma odd_down (i : nat) : (let x := 2 * Z.of_nat i - Z.quot (2 * Z.of_nat i) 2 in if negb (Z.rem x 2 =? 0) then x - 1 else x) = 2 * Z.of_nat (i / 2).
Proof.
  rewrite Nat2Z.inj_div. change (Z.of_nat 2) with 2. rewrite Z.quot_div_nonneg, (Z.mul_comm 2 (Z.of_nat i)), Z.div_mul by lia.
  replace (Z.of_nat i * 2 - Z.of_nat i) with (Z.of_nat i) by lia. cbv zeta. rewrite Z.rem_mod_nonneg by lia.
  destruct (Z.eqb_spec (Z.of_nat i mod 2) 0); cbn [negb]; zlia.
Qed.

Lemma odd_up (i j : nat) :
  (i < j)%nat ->
  (let x := 2 * Z.of_nat i + Z.quot (2 * Z.of_nat j - 2 * Z.of_nat i) 2 in if negb (Z.rem x 2 =? 0) then x + 1 else x) = 2 * Z.of_nat (i + (j - i + 1) / 2).
Proof.
  intros H. rewrite Nat2Z.inj_add, Nat2Z.inj_div. change (Z.of_nat 2) with 2.
  rewrite Z.quot_div_nonneg by lia. replace (2 * Z.of_nat j - 2 * Z.of_nat i) with (Z.of_nat (j - i) * 2) by lia.
  rewrite Z.div_mul by lia. cbv zeta. rewrite Z.rem_mod_nonneg by lia.
  destruct (Z.eqb_spec ((2 * Z.of_nat i + Z.of_nat (j - i)) mod 2) 0); cbn [negb]; zlia.
Qed.

Lemma in_loop_held fuel i j (s : St) :
  narrowed i j -> (j * (length ps + 1) + (j - i) < fuel)%nat ->
  in_loop fuel bbr a (2 * Z.of_nat i) (2 * Z.of_nat j) s = Ok (Some held) s.
Proof.
  revert i j. induction fuel as [|fuel IH]; intros i j N Hf; [lia|].
  destruct N as [Hij Hb H0 Hl] eqn:EN; clear EN.
  destruct (lookup_lt_is_Some_2 ps i ltac:(lia)) as [p E]. destruct (at_range_run s i p E) as [A1 A2].
  cbn [in_loop]. rewrite (proj2 (Z.leb_le _ _)), (proj2 (Z.leb_le 0 _)) by lia. cbn [andb].
  mrun. rewrite A1. cbv beta iota.
  assert (forall b : bool, b = held -> (Ok (Some b) s : outcome St (option bool)) = Ok (Some held) s) as Eb by congruence.
  destruct (Z.leb_spec p.1 a) as [Ha|Ha].
  - mrun. rewrite A2. cbv beta iota. destruct (Z.ltb_spec a p.2) as [Ha2|Ha2].
    { apply Eb. symmetry. by apply (held_at i p). }
    destruct (Z.eqb_spec (2 * Z.of_nat i) 0) as [Ez|Ez]; cbn [negb andb].
    { apply Eb. symmetry. apply (held_nowhere i p); [|done|unfold inside; lia]. intros k q Ek Hq. assert (i = 0%nat) as -> by lia. by apply (H0 eq_refl k q). }
    destruct (Z.ltb_spec (2 * Z.of_nat i) (2 * Z.of_nat j)) as [Hlt|Hlt].
    2:{ apply Eb. symmetry. apply (held_nowhere i p); [|done|unfold inside; lia]. intros k q Ek Hq. assert (i = j) as -> by lia. by apply (Hl eq_refl k q). }
    rewrite (proj2 (Z.ltb_ge _ _)) by lia. cbv zeta. rewrite odd_up by lia.
    apply IH; [apply (narrowed_up i j p); (done || lia)|].
    pose proof (Nat.div_le_lower_bound (j - i + 1) 2 1 ltac:(lia) ltac:(lia)). lia.
  - destruct (Z.eqb_spec (2 * Z.of_nat i) 0) as [Ez|Ez]; cbn [negb andb].
    { apply Eb. symmetry. apply (held_nowhere i p); [|done|unfold inside; lia]. intros k q Ek Hq. assert (i = 0%nat) as -> by lia. by apply (H0 eq_refl k q). }
    destruct (Z.ltb_spec (2 * Z.of_nat i) (2 * Z.of_nat j)) as [Hlt|Hlt].
    2:{ apply Eb. symmetry. apply (held_nowhere i p); [|done|unfold inside; lia]. intros k q Ek Hq. assert (i = j) as -> by lia. by apply (Hl eq_refl k q). }
    rewrite (proj2 (Z.ltb_lt _ _)) by lia. cbv zeta. rewrite odd_down.
    apply IH; [apply (narrowed_down i j p); (done || lia)|]. nia.
Qed.
End search.

(** ** The whole search *)

Lemma ordered_none lo ps a : ordered lo ps -> a < lo -> ~ Exists (inside a) ps.
Proof.
  intros Ho Ha (q & Hq & Hi)%Exists_exists. apply list_elem_of_lookup_1 in Hq as [k Ek].
  pose proof (ordered_lookup lo ps k q Ho Ek). destruct Hi. lia.
Qed.

Lemma r_tinyrange_in_unless_two {St} lo n ps a (s : St) :
  ordered lo ps -> length ps <> 2%nat -> r_tinyrange_in (tiny_of n ps) a s = Ok (Some (held ps a)) s.
Proof.
  intros Ho H2. unfold r_tinyrange_in. change (pairs (tiny_of n ps)) with (Z.of_nat (length ps)).
  destruct (Z.ltb_spec 0 (Z.of_nat (length ps))) as [Hn|Hn].
  2:{ by destruct ps. }
  destruct (lookup_lt_is_Some_2 ps 0 ltac:(lia)) as [p0 E0].
  destruct (lookup_lt_is_Some_2 ps (length ps - 1) ltac:(lia)) as [pl El].
  cbv zeta. mrun. change (at_range (tiny_of n ps) 0 s) with (at_range (tiny_of n ps) (2 * Z.of_nat 0) s). rewrite (proj1 (at_range_run ps n s 0 p0 E0)). cbv beta iota.
  assert (forall q, q ∈ ps -> p0.1 <= q.1 /\ q.2 <= pl.2) as Hb.
  { intros q [k Ek]%list_elem_of_lookup_1. pose proof (lookup_lt_Some _ _ _ Ek).
    pose proof (ordered_lookup lo ps k q Ho Ek). pose proof (ordered_lookup lo ps _ pl Ho El). pose proof (ordered_lookup lo ps _ p0 Ho E0). split.
    - destruct (decide (k = 0%nat)) as [->|]; [rewrite E0 in Ek; injection Ek as <-; lia|].
      pose proof (ordered_before lo ps 0 k p0 q Ho ltac:(lia) E0 Ek). lia.
    - destruct (decide (k = (length ps - 1)%nat)) as [->|]; [rewrite El in Ek; injection Ek as <-; lia|].
      pose proof (ordered_before lo ps k (length ps - 1) q pl Ho ltac:(lia) Ek El). lia. }
  destruct (Z.ltb_spec a p0.1) as [Ha|Ha].
  { mrun. do 2 f_equal. symmetry. apply bool_decide_eq_false_2. intros (q & Hq & Hi)%Exists_exists. specialize (Hb q Hq). destruct Hi. lia. }
  mrun. replace ((Z.of_nat (length ps) - 1) * 2 + 1) with (2 * Z.of_nat (length ps - 1) + 1) by lia.
  rewrite (proj2 (at_range_run ps n s _ pl El)). cbv beta iota.
  destruct (Z.ltb_spec pl.2 a) as [Ha2|Ha2].
  { mrun. do 2 f_equal. symmetry. apply bool_decide_eq_false_2. intros (q & Hq & Hi)%Exists_exists. specialize (Hb q Hq). destruct Hi. lia. }
  set (j := (length ps - 1)%nat) in *.
  replace ((Z.of_nat (length ps) - 1) * 2) with (2 * Z.of_nat j) by lia.
  replace (if negb (Z.rem (Z.quot (2 * Z.of_nat j) 2) 2 =? 0) then _ else _) with (2 * Z.of_nat (j / 2)).
  2:{ rewrite <- odd_down. cbv zeta. rewrite Z.quot_div_nonneg, (Z.mul_comm 2 (Z.of_nat j)), Z.div_mul by lia. by replace (Z.of_nat j * 2 - Z.of_nat j) with (Z.of_nat j) by lia. }
  apply (in_loop_held ps lo n a Ho).
  - split.
    + split; [apply Nat.Div0.div_le_upper_bound|]; lia.
    + intros k q Ek _. apply lookup_lt_Some in Ek. lia.
    + intros Hz k q Ek _. apply lookup_lt_Some in Ek. apply Nat.div_small_iff in Hz; lia.
    + intros Hz k q Ek _. apply lookup_lt_Some in Ek. destruct (decide (j = 0%nat)); [lia|]. pose proof (Nat.div_lt j 2 ltac:(lia) ltac:(lia)). lia.
  - unfold in_fuel. change (pairs (tiny_of n ps)) with (Z.of_nat (length ps)). rewrite Nat2Z.id. assert (j < length ps)%nat by lia. nia.
Qed.

Lemma r_tinyrange_in_two {St} n p q a (s : St) :
  p.2 <= q.2 -> r_tinyrange_in (tiny_of n [p; q]) a s = Ok (Some (bool_decide (inside a p))) s.
Proof.
  intros Hq. destruct (at_range_run [p; q] n s 0 p eq_refl) as [A1 A2], (at_range_run [p; q] n s 1 q eq_refl) as [_ A3].
  change (2 * Z.of_nat 0) with 0 in A1, A2. change (2 * Z.of_nat 1 + 1) with (2 + 1) in A3.
  unfold r_tinyrange_in. change (pairs (tiny_of n [p; q])) with 2. change (0 <? 2) with true. cbv iota. change ((2 - 1) * 2) with 2. cbv zeta.
  change (if negb (Z.rem (Z.quot 2 2) 2 =? 0) then Z.quot 2 2 - 1 else Z.quot 2 2) with 0.
  change (in_fuel (tiny_of n [p; q])) with (S 8). generalize 8%nat as k. intros k.
  mrun. rewrite A1. cbv beta iota. destruct (Z.ltb_spec a p.1) as [Ha|Ha].
  { rewrite bool_decide_eq_false_2 by (unfold inside; lia). done. }
  mrun. rewrite A3. cbv beta iota. destruct (Z.ltb_spec q.2 a) as [Hb|Hb].
  { rewrite bool_decide_eq_false_2 by (unfold inside; lia). done. }
  cbn [in_loop]. change ((0 <=? 2 + 1) && (0 <=? 0)) with true. cbv iota. mrun. rewrite A1. cbv beta iota.
  rewrite (proj2 (Z.leb_le _ _)) by done. mrun. rewrite A2. mrun. destruct (Z.ltb_spec a p.2) as [Hc|Hc].
  - rewrite bool_decide_eq_true_2 by (unfold inside; lia). done.
  - rewrite bool_decide_eq_false_2 by (unfold inside; lia). done.
Qed.

(** The search ends on any ranges, in order or not. *)
Lemma in_loop_ends {St} ps n a fuel (i j : nat) (s : St) :
  (i <= j < length ps)%nat -> (j * (length ps + 1) + (j - i) < fuel)%nat ->
  exists b, in_loop fuel (tiny_of n ps) a (2 * Z.of_nat i) (2 * Z.of_nat j) s = Ok (Some b) s.
Proof.
  revert i j. induction fuel as [|fuel IH]; intros i j Hij Hf; [lia|].
  destruct (lookup_lt_is_Some_2 ps i ltac:(lia)) as [p E]. destruct (at_range_run ps n s i p E) as [A1 A2].
  cbn [in_loop]. rewrite (proj2 (Z.leb_le _ _)), (proj2 (Z.leb_le 0 _)) by lia. cbn [andb]. mrun. rewrite A1. cbv beta iota.
  assert (forall found, exists b, (if found : bool then mret (Some true)
    else if negb (2 * Z.of_nat i =? 0) && (2 * Z.of_nat i <? 2 * Z.of_nat j) then
      if a <? p.1 then
        let lastIndex := 2 * Z.of_nat i in let idx := 2 * Z.of_nat i - Z.quot (2 * Z.of_nat i) 2 in
        in_loop fuel (tiny_of n ps) a (if negb (Z.rem idx 2 =? 0) then idx - 1 else idx) lastIndex
      else
        let idx := 2 * Z.of_nat i + Z.quot (2 * Z.of_nat j - 2 * Z.of_nat i) 2 in
        in_loop fuel (tiny_of n ps) a (if negb (Z.rem idx 2 =? 0) then idx + 1 else idx) (2 * Z.of_nat j)
    else mret (Some false)) s = Ok (Some b) s) as H.
  { intros [|]; [by eexists|]. destruct (Z.eqb_spec (2 * Z.of_nat i) 0) as [|Hi]; [by eexists|]. cbn [negb andb].
    destruct (Z.ltb_spec (2 * Z.of_nat i) (2 * Z.of_nat j)); [|by eexists]. cbv zeta. destruct (a <? p.1).
    - rewrite odd_down. pose proof (Nat.div_lt i 2 ltac:(lia) ltac:(lia)). apply IH; [lia|nia].
    - rewrite odd_up by lia. pose proof (Nat.div_lt (j - i + 1) 2 ltac:(lia) ltac:(lia)).
      pose proof (Nat.div_le_lower_bound (j - i + 1) 2 1 ltac:(lia) ltac:(lia)). apply IH; lia. }
  destruct (p.1 <=? a); mrun; [rewrite A2; mrun; apply (H (a <? p.2))|apply (H false)].
Qed.

Lemma r_tinyrange_in_ends {St} n ps a (s : St) : exists b, r_tinyrange_in (tiny_of n ps) a s = Ok (Some b) s.
Proof.
  unfold r_tinyrange_in. change (pairs (tiny_of n ps)) with (Z.of_nat (length ps)).
  destruct (Z.ltb_spec 0 (Z.of_nat (length ps))) as [Hn|Hn]; [|by eexists].
  destruct (lookup_lt_is_Some_2 ps 0 ltac:(lia)) as [p0 E0]. destruct (lookup_lt_is_Some_2 ps (length ps - 1) ltac:(lia)) as [pl El].
  cbv zeta. mrun. change (at_range (tiny_of n ps) 0 s) with (at_range (tiny_of n ps) (2 * Z.of_nat 0) s).
  rewrite (proj1 (at_range_run ps n s 0 p0 E0)). cbv beta iota. destruct (a <? p0.1); [by eexists|].
  mrun. replace ((Z.of_nat (length ps) - 1) * 2 + 1) with (2 * Z.of_nat (length ps - 1) + 1) by lia.
  rewrite (proj2 (at_range_run ps n s _ pl El)). cbv beta iota. destruct (pl.2 <? a); [by eexists|].
  set (j := (length ps - 1)%nat). replace ((Z.of_nat (length ps) - 1) * 2) with (2 * Z.of_nat j) by lia.
  replace (if negb (Z.rem (Z.quot (2 * Z.of_nat j) 2) 2 =? 0) then _ else _) with (2 * Z.of_nat (j / 2)).
  2:{ rewrite <- odd_down. cbv zeta. rewrite Z.quot_div_nonneg, (Z.mul_comm 2 (Z.of_nat j)), Z.div_mul by lia. by replace (Z.of_nat j * 2 - Z.of_nat j) with (Z.of_nat j) by lia. }
  apply in_loop_ends; [split; [apply Nat.Div0.div_le_upper_bound|]; lia|].
  unfold in_fuel. change (pairs (tiny_of n ps)) with (Z.of_nat (length ps)). rewrite Nat2Z.id. assert (j < length ps)%nat by lia. nia.
Qed.

(** ** Adding in order *)

(** A range that starts where the last one ends makes it longer. *)
Definition extend (ps : list (Z * Z)) (r : Z * Z) : list (Z * Z) :=
  match last ps with
  | Some (f, t) => if r.1 =? t then removelast ps ++ [(f, r.2)] else ps ++ [r]
  | None => [r]
  end.

Lemma flat_last ps p : take (2 * length ps) (flat ps ++ flat [p]) = flat ps.
Proof. rewrite take_app_le by (rewrite flat_length; lia). apply take_ge. rewrite flat_length. lia. Qed.

Lemma r_tinyrange_add_extend {St} n ps r (s : St) :
  r.1 < r.2 -> r_tinyrange_add (tiny_of n ps) r.1 r.2 s = Ok (true, tiny_of (n + 1) (extend ps r)) s.
Proof.
  intros Hr. unfold r_tinyrange_add, extend. rewrite (proj2 (Z.leb_gt _ _)) by done.
  destruct ps as [|[f t] ps' _] using rev_ind.
  { destruct r. done. }
  change (pairs (tiny_of n (ps' ++ [(f, t)]))) with (Z.of_nat (length (ps' ++ [(f, t)]))). rewrite length_app. cbn [length]. rewrite (proj2 (Z.ltb_lt _ _)) by lia. cbv zeta.
  rewrite last_snoc. cbn [fst snd].
  assert ((ps' ++ [(f, t)]) !! length ps' = Some (f, t)) as El by (rewrite lookup_app_r, Nat.sub_diag; done).
  pose proof (proj2 (at_range_run (ps' ++ [(f, t)]) n s (length ps') (f, t) El)) as A2.
  replace ((Z.of_nat (length ps' + 1) - 1) * 2) with (2 * Z.of_nat (length ps')) by lia. mrun.
  rewrite A2. cbv beta iota. cbn [snd].
  destruct (Z.eqb_spec r.1 t) as [_|_].
  - mrun. unfold put_range. cbn [ranges tiny_of]. rewrite flat_length, length_app. cbn [length].
    rewrite (proj2 (Z.leb_le _ _)), (proj2 (Z.ltb_lt _ _)) by lia. mrun.
    rewrite removelast_last. unfold tiny_of. rewrite !length_app, !flat_app. cbn [length flat].
    replace (Z.to_nat (2 * Z.of_nat (length ps') + 1)) with (length (flat ps') + 1)%nat by (rewrite flat_length; lia).
    rewrite insert_app_r. done.
  - mrun. unfold tiny_of. cbn [ranges count]. rewrite !length_app. cbn [length]. do 2 f_equal. f_equal; [lia|].
    rewrite take_ge by (rewrite flat_length, length_app; simpl; lia). rewrite (flat_app _ [r]). destruct r. done.
Qed.

Lemma r_tinyrange_add_empty {St} bbr f t (s : St) : t <= f -> r_tinyrange_add bbr f t s = Ok (false, bbr) s.
Proof. intros H. unfold r_tinyrange_add. by rewrite (proj2 (Z.leb_le _ _)). Qed.

(** Where the last range ends. *)
Definition last_end (lo : Z) (ps : list (Z * Z)) : Z := match last ps with Some p => p.2 | None => lo end.

Lemma ordered_app lo ps qs : ordered lo (ps ++ qs) <-> ordered lo ps /\ ordered (last_end lo ps) qs.
Proof.
  revert lo. induction ps as [|[f t] ps IH]; intros lo; [simpl; tauto|].
  cbn [ordered app]. rewrite IH. unfold last_end. rewrite last_cons. destruct (last ps); tauto.
Qed.

Lemma extend_ordered lo ps r :
  ordered lo ps -> last_end lo ps <= r.1 < r.2 -> ordered lo (extend ps r) /\ last_end lo (extend ps r) = r.2.
Proof.
  intros Ho Hr. unfold extend. destruct ps as [|[f t] ps _] using rev_ind.
  { destruct r. unfold last_end in Hr. simpl in *. split; [split; [lia|done]|done]. }
  unfold last_end in *. rewrite last_snoc in *. cbn [snd] in Hr. destruct (Z.eqb_spec r.1 t) as [E|E].
  - rewrite removelast_last, last_snoc. split; [|done]. apply ordered_app in Ho as [H1 H2]. apply ordered_app. split; [done|].
    simpl in *. lia.
  - rewrite last_snoc. split; [|done]. apply ordered_app. split; [done|]. unfold last_end. rewrite last_snoc. destruct r. simpl in *. lia.
Qed.

Lemma extend_held lo ps r a :
  ordered lo ps -> r.1 < r.2 -> Exists (inside a) (extend ps r) <-> Exists (inside a) ps \/ inside a r.
Proof.
  intros Ho Hr. unfold extend. destruct ps as [|[f t] ps _] using rev_ind.
  { simpl. rewrite Exists_cons, Exists_nil. tauto. }
  rewrite last_snoc. apply ordered_app in Ho as [_ [Ho _]]. destruct (Z.eqb_spec r.1 t) as [E|E].
  - rewrite removelast_last, !Exists_app, !Exists_cons, !Exists_nil. unfold inside. cbn [fst snd]. rewrite E.
    split; intros H; repeat destruct H as [H|H]; auto; try done; destruct (decide (a < t)); intuition lia.
  - rewrite !Exists_app, !Exists_cons, !Exists_nil. tauto.
Qed.

(** The ranges of a list that is in order, those that touch made one. *)
Definition joined (ps qs : list (Z * Z)) : list (Z * Z) := foldl extend ps qs.

Lemma joined_held lo ps qs a :
  ordered lo ps -> ordered (last_end lo ps) qs ->
  ordered lo (joined ps qs) /\ (Exists (inside a) (joined ps qs) <-> Exists (inside a) ps \/ Exists (inside a) qs).
Proof.
  revert ps. induction qs as [|[f t] qs IH]; intros ps Ho Hq; simpl.
  { split; [done|]. rewrite Exists_nil. tauto. }
  destruct Hq as [H1 H2]. destruct (extend_ordered lo ps (f, t) Ho) as [H3 H4]; [done|].
  destruct (IH (extend ps (f, t)) H3) as [H5 H6]; [by rewrite H4|]. split; [done|].
  rewrite H6, (extend_held lo) by (done || simpl; lia). rewrite Exists_cons. tauto.
Qed.
