(* ===== verification/AnalBlock.v ===== *)
(** * Instructions, conditions and basic blocks

    [libr/anal/value.c], [cond.c], [op.c] and [bb.c].  A plugin of the
    disassembler is a function that fills an operation in and returns its
    length.  Of [RAnalOp] the model has what the analysis reads; blocks are
    values, held by the list of their function, and the pointers between them
    ([jumpbb], [failbb], [prev]) are left out. *)

From S2P Require Import Prelude Buf Reg.

Definition R_ANAL_OP_TYPE_COND : Z := 0x80000000.
Definition R_ANAL_OP_TYPE_REG : Z := 0x10000000.
Definition R_ANAL_OP_TYPE_IND : Z := 0x08000000.
Definition R_ANAL_OP_TYPE_JMP : Z := 1.
Definition R_ANAL_OP_TYPE_UJMP : Z := 2.
Definition R_ANAL_OP_TYPE_RJMP : Z := Z.lor R_ANAL_OP_TYPE_REG R_ANAL_OP_TYPE_UJMP.
Definition R_ANAL_OP_TYPE_IJMP : Z := Z.lor R_ANAL_OP_TYPE_IND R_ANAL_OP_TYPE_UJMP.
Definition R_ANAL_OP_TYPE_IRJMP : Z := Z.lor (Z.lor R_ANAL_OP_TYPE_IND R_ANAL_OP_TYPE_REG) R_ANAL_OP_TYPE_UJMP.
Definition R_ANAL_OP_TYPE_CJMP : Z := Z.lor R_ANAL_OP_TYPE_COND R_ANAL_OP_TYPE_JMP.
Definition R_ANAL_OP_TYPE_CALL : Z := 3.
Definition R_ANAL_OP_TYPE_RET : Z := 5.
Definition R_ANAL_OP_TYPE_ILL : Z := 6.
Definition R_ANAL_OP_TYPE_UNK : Z := 7.
Definition R_ANAL_OP_TYPE_MOV : Z := 9.
Definition R_ANAL_OP_TYPE_CMOV : Z := Z.lor 9 R_ANAL_OP_TYPE_COND.
Definition R_ANAL_OP_TYPE_UPUSH : Z := 12.
Definition R_ANAL_OP_TYPE_PUSH : Z := 13.
Definition R_ANAL_OP_TYPE_CMP : Z := 15.
Definition R_ANAL_OP_TYPE_LEA : Z := 33.

Definition R_ANAL_COND_EQ : Z := 1.
Definition R_ANAL_COND_NE : Z := 2.
Definition R_ANAL_COND_GE : Z := 3.
Definition R_ANAL_COND_GT : Z := 4.
Definition R_ANAL_COND_LE : Z := 5.
Definition R_ANAL_COND_LT : Z := 6.

Definition R_ANAL_BB_TYPE_NULL : Z := 0.
Definition R_ANAL_BB_TYPE_HEAD : Z := 1.
Definition R_ANAL_BB_TYPE_BODY : Z := 2.
Definition R_ANAL_BB_TYPE_LAST : Z := 4.
Definition R_ANAL_BB_TYPE_FOOT : Z := 8.

Definition R_ANAL_RET_ERROR : Z := -1.
Definition R_ANAL_RET_DUP : Z := -2.
Definition R_ANAL_RET_NEW : Z := -3.
Definition R_ANAL_RET_END : Z := -4.
Definition UT16_MAX : Z := 2 ^ 16 - 1.
Definition DFLT_NINSTR : Z := 3.

(** ** Values and conditions *)

Record RAnalValue := mk_value {
  v_memref : Z;
  v_base : Z;
  v_delta : Z;
  v_imm : Z;
  v_mul : Z;
  v_reg : option RRegItem;
  v_regdelta : option RRegItem
}.

(** A value read in the registers [reg]. *)
Definition r_anal_value_to_ut64 (reg : RReg) (val : option RAnalValue) : option Z :=
  match val with
  | None => Some 0
  | Some val =>
      num ← Some (u64 (v_base val + v_delta val * (if z2b (v_mul val) then v_mul val else 1)));
      num ← match v_reg val with None => Some num | r => v ← r_reg_get_value reg r; Some (u64 (num + v)) end;
      match v_regdelta val with None => Some num | r => v ← r_reg_get_value reg r; Some (u64 (num + v)) end
  end.

Record RAnalCond := mk_cond { c_type : Z; c_arg0 : option RAnalValue; c_arg1 : option RAnalValue }.

(** The result is an [int]. *)
Definition r_anal_cond_eval (reg : RReg) (cond : RAnalCond) : option Z :=
  arg0 ← s64 <$> r_anal_value_to_ut64 reg (c_arg0 cond);
  let type t := c_type cond =? t in
  match c_arg1 cond with
  | Some _ =>
      arg1 ← s64 <$> r_anal_value_to_ut64 reg (c_arg1 cond);
      Some (if type R_ANAL_COND_EQ then b2z (arg0 =? arg1)
            else if type R_ANAL_COND_NE then b2z (negb (arg0 =? arg1))
            else if type R_ANAL_COND_GE then b2z (arg1 <=? arg0)
            else if type R_ANAL_COND_GT then b2z (arg1 <? arg0)
            else if type R_ANAL_COND_LE then b2z (arg0 <=? arg1)
            else if type R_ANAL_COND_LT then b2z (arg0 <? arg1)
            else 0)
  | None =>
      Some (if type R_ANAL_COND_EQ then b2z (arg0 =? 0)
            else if type R_ANAL_COND_NE then s32 arg0
            else if type R_ANAL_COND_GT then b2z (0 <? arg0)
            else if type R_ANAL_COND_GE then b2z (0 <=? arg0)
            else if type R_ANAL_COND_LT then b2z (arg0 <? 0)
            else if type R_ANAL_COND_LE then b2z (arg0 <=? 0)
            else 0)
  end.

(** ** Operations *)

Record RAnalOp := mk_op {
  op_addr : Z;
  op_type : Z;
  op_size : Z;
  op_jump : Z;
  op_fail : Z;
  op_src0 : option RAnalValue;
  op_src1 : option RAnalValue;
  op_dst : option RAnalValue
}.

(** [memset (op, 0, sizeof (RAnalOp))]. *)
Definition op_zero : RAnalOp := mk_op 0 0 0 0 0 None None None.
Definition set_op_addr (v : Z) (op : RAnalOp) : RAnalOp :=
  mk_op v (op_type op) (op_size op) (op_jump op) (op_fail op) (op_src0 op) (op_src1 op) (op_dst op).
Definition set_op_type (v : Z) (op : RAnalOp) : RAnalOp :=
  mk_op (op_addr op) v (op_size op) (op_jump op) (op_fail op) (op_src0 op) (op_src1 op) (op_dst op).
(** [op->src[0] = op->src[1] = NULL]: the condition takes them over. *)
Definition take_src (op : RAnalOp) : RAnalOp :=
  mk_op (op_addr op) (op_type op) (op_size op) (op_jump op) (op_fail op) None None (op_dst op).

Definition r_anal_cond_new_from_op (op : RAnalOp) : RAnalCond * RAnalOp :=
  (mk_cond 0 (op_src0 op) (op_src1 op), take_src op).

(** A disassembler: [cur->op (anal, op, addr, data, len)]. *)
Definition plugin := RAnalOp -> Z -> list Z -> Z -> Z * RAnalOp.

(** The part of [RAnal] that decoding an operation reads. *)
Record RAnalEnv := mk_env {
  ae_op : option plugin;
  ae_pcalign : Z;
  ae_bits : Z;
  ae_reg : option RReg
}.

Section ops.
Context {St : Type}.

Definition r_anal_op (anal : RAnalEnv) (addr : Z) (data : list Z) (len : Z) (op : RAnalOp) : M St (Z * RAnalOp) :=
  if len <? 0 then mret (-1, op)
  else if z2b (ae_pcalign anal) && z2b (addr mod ae_pcalign anal) then
    mret (-1, mk_op addr R_ANAL_OP_TYPE_ILL 1 0 0 None None None)
  else
    match ae_op anal with
    | Some cur_op =>
        if 0 <? len then
          let '(ret, op) := cur_op op_zero addr data len in
          let op := set_op_addr addr op in
          mret (ret, if ret <? 1 then set_op_type R_ANAL_OP_TYPE_ILL op else op)
        else mret (0, set_op_type R_ANAL_OP_TYPE_ILL op_zero)
    | None =>
        let n := Z.to_nat (Z.min 4 len) in
        if (length data <? n)%nat then undef UB_oob
        else
          let ill := bool_decide (take n data = replicate n 255) in
          mret (Z.min 2 len, set_op_type (if ill then R_ANAL_OP_TYPE_ILL else R_ANAL_OP_TYPE_MOV) op_zero)
    end.
End ops.

(** ** Blocks *)

Record RAnalDiff := mk_diff { diff_type : Z; diff_addr : Z; diff_name : option string }.
Definition r_anal_diff_new : RAnalDiff := mk_diff 0 UT64_MAX None.

Record RAnalBlock := mk_bb {
  bb_addr : Z;
  bb_size : Z;
  bb_jump : Z;
  bb_fail : Z;
  bb_type : Z;
  bb_ninstr : Z;
  bb_conditional : Z;
  bb_cond : option RAnalCond;
  bb_diff : option RAnalDiff;
  bb_op_pos : list (option Z)      (* [None]: not initialised *)
}.

Definition op_pos_size (bb : RAnalBlock) : Z := Z.of_nat (length (bb_op_pos bb)).

Definition set_bb_addr (v : Z) (b : RAnalBlock) : RAnalBlock :=
  mk_bb v (bb_size b) (bb_jump b) (bb_fail b) (bb_type b) (bb_ninstr b) (bb_conditional b) (bb_cond b) (bb_diff b) (bb_op_pos b).
Definition set_bb_size (v : Z) (b : RAnalBlock) : RAnalBlock :=
  mk_bb (bb_addr b) v (bb_jump b) (bb_fail b) (bb_type b) (bb_ninstr b) (bb_conditional b) (bb_cond b) (bb_diff b) (bb_op_pos b).
Definition set_bb_jump (v : Z) (b : RAnalBlock) : RAnalBlock :=
  mk_bb (bb_addr b) (bb_size b) v (bb_fail b) (bb_type b) (bb_ninstr b) (bb_conditional b) (bb_cond b) (bb_diff b) (bb_op_pos b).
Definition set_bb_fail (v : Z) (b : RAnalBlock) : RAnalBlock :=
  mk_bb (bb_addr b) (bb_size b) (bb_jump b) v (bb_type b) (bb_ninstr b) (bb_conditional b) (bb_cond b) (bb_diff b) (bb_op_pos b).
Definition set_bb_type (v : Z) (b : RAnalBlock) : RAnalBlock :=
  mk_bb (bb_addr b) (bb_size b) (bb_jump b) (bb_fail b) v (bb_ninstr b) (bb_conditional b) (bb_cond b) (bb_diff b) (bb_op_pos b).
Definition set_bb_ninstr (v : Z) (b : RAnalBlock) : RAnalBlock :=
  mk_bb (bb_addr b) (bb_size b) (bb_jump b) (bb_fail b) (bb_type b) v (bb_conditional b) (bb_cond b) (bb_diff b) (bb_op_pos b).
Definition set_bb_conditional (v : Z) (b : RAnalBlock) : RAnalBlock :=
  mk_bb (bb_addr b) (bb_size b) (bb_jump b) (bb_fail b) (bb_type b) (bb_ninstr b) v (bb_cond b) (bb_diff b) (bb_op_pos b).
Definition set_bb_cond (v : option RAnalCond) (b : RAnalBlock) : RAnalBlock :=
  mk_bb (bb_addr b) (bb_size b) (bb_jump b) (bb_fail b) (bb_type b) (bb_ninstr b) (bb_conditional b) v (bb_diff b) (bb_op_pos b).
Definition set_bb_op_pos (v : list (option Z)) (b : RAnalBlock) : RAnalBlock :=
  mk_bb (bb_addr b) (bb_size b) (bb_jump b) (bb_fail b) (bb_type b) (bb_ninstr b) (bb_conditional b) (bb_cond b) (bb_diff b) v.
Definition set_bb_diff (v : option RAnalDiff) (b : RAnalBlock) : RAnalBlock :=
  mk_bb (bb_addr b) (bb_size b) (bb_jump b) (bb_fail b) (bb_type b) (bb_ninstr b) (bb_conditional b) (bb_cond b) v (bb_op_pos b).

Definition r_anal_bb_new : RAnalBlock :=
  mk_bb UT64_MAX 0 UT64_MAX UT64_MAX R_ANAL_BB_TYPE_NULL 0 0 None None (replicate (Z.to_nat DFLT_NINSTR) (Some 0)).

(** [bb->addr + bb->size], an [int] added to a [ut64]. *)
Definition bb_end (bb : RAnalBlock) : Z := u64 (bb_addr bb + bb_size bb).

Definition r_anal_bb_is_in_offset (bb : RAnalBlock) (off : Z) : bool := (bb_addr bb <=? off) && (off <? bb_end bb).

(** [realloc] to [n] elements. *)
Definition grow {A} (n : nat) (l : list (option A)) : list (option A) := take n l ++ replicate (n - length l) None.

(** Memory is there: the result is [true]. *)
Definition r_anal_bb_set_offset (bb : RAnalBlock) (i v : Z) : RAnalBlock :=
  if (0 <? i) && (0 <? v) then
    let pos := if op_pos_size bb <=? i then grow (Z.to_nat (i * 2)) (bb_op_pos bb) else bb_op_pos bb in
    set_bb_op_pos (<[Z.to_nat (i - 1) := Some v]> pos) bb
  else bb.

Section blocks.
Context {St : Type}.

Definition r_anal_bb_offset_inst (bb : RAnalBlock) (i : Z) : M St Z :=
  if (i <? 0) || (bb_ninstr bb <=? i) then mret UT16_MAX
  else if 0 <? i then
    match bb_op_pos bb !! Z.to_nat (i - 1) with
    | Some (Some v) => mret v
    | Some None => undef UB_uninit
    | None => undef UB_oob
    end
  else mret 0.

(** The turns of the loop that are left. *)
Fixpoint opaddr_loop (n : nat) (bb : RAnalBlock) (delta_off i last_delta : Z) : M St Z :=
  match n with
  | O => mret UT64_MAX
  | S n =>
      delta ← r_anal_bb_offset_inst bb i;
      if delta_off <? delta then mret (u64 (bb_addr bb + last_delta)) else opaddr_loop n bb delta_off (i + 1) delta
  end.

Definition r_anal_bb_opaddr_at (bb : RAnalBlock) (off : Z) : M St Z :=
  if negb (r_anal_bb_is_in_offset bb off) then mret UT64_MAX
  else opaddr_loop (Z.to_nat (bb_ninstr bb)) bb (u16 (off - bb_addr bb)) 0 0.
End blocks.

(** ** Decoding a block

    The state is the block and the calls of [r_anal_ref_add], as (addr, at). *)

Record decoding := mk_dec { dec_bb : RAnalBlock; dec_refs : list (Z * Z) }.
Definition on_bb (f : RAnalBlock -> RAnalBlock) : M decoding unit := modify (fun d => mk_dec (f (dec_bb d)) (dec_refs d)).
Definition r_anal_ref_add (addr at_ : Z) : M decoding unit := modify (fun d => mk_dec (dec_bb d) (dec_refs d ++ [(addr, at_)])).

(** [a + b] of two [int]s. *)
Definition int_add {S} (a b : Z) : M S Z :=
  if (- 2 ^ 31 <=? a + b) && (a + b <? 2 ^ 31) then mret (a + b) else undef UB_overflow.

(** The case of [lea], which looks for a value at the program counter.  The
    bytes read there are not used; there is room for eight. *)
Definition bb_lea (anal : RAnalEnv) (op : RAnalOp) (addr idx : Z) : M decoding unit :=
  match op_src0 op, ae_reg anal with
  | Some src, Some reg =>
      match v_reg src with
      | Some src_reg =>
          match op_dst op with
          | Some dst =>
              if bool_decide (is_Some (v_reg dst)) then
                match ri_name src_reg, rr_name reg !! R_REG_NAME_PC with
                | Some name, Some pc =>
                    if bool_decide (name = pc) then
                      if 8 <? Z.quot (ae_bits anal) 8 then undef UB_oob
                      else r_anal_ref_add (u64 (idx + addr + v_delta src)) (u64 (addr + idx - op_size op))
                    else mret tt
                | _, _ => undef UB_null
                end
              else mret tt
          | None => mret tt
          end
      | None => mret tt
      end
  | _, _ => mret tt
  end.

(** The [switch] over the type of an operation that ends at [idx]. *)
Definition bb_switch (anal : RAnalEnv) (op : RAnalOp) (addr idx : Z) : M decoding (Z + Z) :=
  let type t := op_type op =? t in
  if type R_ANAL_OP_TYPE_CMP then
    on_bb (set_bb_cond (Some (r_anal_cond_new_from_op op).1)) ;; mret (inl idx)
  else if type R_ANAL_OP_TYPE_CJMP then
    on_bb (fun b => set_bb_cond ((fun c => mk_cond R_ANAL_COND_EQ (c_arg0 c) (c_arg1 c)) <$> bb_cond b) b) ;;
    on_bb (set_bb_conditional 1) ;; on_bb (set_bb_fail (op_fail op)) ;; on_bb (set_bb_jump (op_jump op)) ;;
    on_bb (fun b => set_bb_type (Z.lor (bb_type b) R_ANAL_BB_TYPE_BODY) b) ;;
    mret (inr R_ANAL_RET_END)
  else if type R_ANAL_OP_TYPE_JMP then
    on_bb (set_bb_jump (op_jump op)) ;;
    on_bb (fun b => set_bb_type (Z.lor (bb_type b) R_ANAL_BB_TYPE_BODY) b) ;;
    mret (inr R_ANAL_RET_END)
  else if type R_ANAL_OP_TYPE_UJMP || type R_ANAL_OP_TYPE_IJMP || type R_ANAL_OP_TYPE_RJMP || type R_ANAL_OP_TYPE_IRJMP then
    on_bb (fun b => set_bb_type (Z.lor (bb_type b) R_ANAL_BB_TYPE_FOOT) b) ;; mret (inr R_ANAL_RET_END)
  else if type R_ANAL_OP_TYPE_RET then
    on_bb (fun b => set_bb_type (Z.lor (bb_type b) R_ANAL_BB_TYPE_LAST) b) ;; mret (inr R_ANAL_RET_END)
  else if type R_ANAL_OP_TYPE_LEA then bb_lea anal op addr idx ;; mret (inl idx)
  else mret (inl idx).

(** A turn at [idx]: [inl] goes on, [inr] is the result. *)
Definition bb_step (anal : RAnalEnv) (addr : Z) (buf : list Z) (len : Z) (head : bool) (idx : Z) : M decoding (Z + Z) :=
  if idx <? len then
    ' (oplen, op) ← r_anal_op anal (u64 (addr + idx)) (drop (Z.to_nat idx) buf) (s32 (u64 (len - idx))) op_zero;
    if oplen =? 0 then
      if idx =? 0 then mret (inr R_ANAL_RET_END) else bb ← gets dec_bb; mret (inr (bb_size bb))
    else if oplen <? 1 then mret (inr R_ANAL_RET_END)
    else
      bb ← gets dec_bb;
      ninstr ← int_add (bb_ninstr bb) 1;
      on_bb (fun b => r_anal_bb_set_offset (set_bb_ninstr ninstr b) (bb_ninstr bb) (u16 (addr + idx - bb_addr bb))) ;;
      idx ← int_add idx oplen;
      size ← int_add (bb_size bb) oplen;
      on_bb (set_bb_size size) ;;
      (if head then on_bb (set_bb_type R_ANAL_BB_TYPE_HEAD) else mret tt) ;;
      bb_switch anal op addr idx
  else bb ← gets dec_bb; mret (inr (bb_size bb)).

(** [len] is a [ut64], from which 16 is taken.  [None]: the bound of turns, one
    more than there can be, is not enough. *)
Definition r_anal_bb (anal : RAnalEnv) (addr : Z) (buf : list Z) (len : Z) (head : bool) : M decoding (option Z) :=
  bb ← gets dec_bb;
  (if bb_addr bb =? UT64_MAX then on_bb (set_bb_addr addr) else mret tt) ;;
  let len := u64 (len - 16) in
  r ← for_upto (len + 1) (bb_step anal addr buf len head) 0;
  mret (match r with inl _ => None | inr r => Some r end).
