(* ===== verification/AnalBlockFacts.v ===== *)
(** * The instructions of a block

    Decoding lays the instructions of a block one after the other, and their
    offsets are found again. *)

From S2P Require Import Prelude Buf Reg AnalBlock.

(** ** The table of offsets *)

(** The block has the instructions at the offsets [ds]. *)
Record instrs (bb : RAnalBlock) (ds : list Z) : Prop := {
  in_n : bb_ninstr bb = Z.of_nat (length ds);
  in_first : forall d, ds !! 0%nat = Some d -> d = 0;
  in_pos : forall i d, ds !! S i = Some d -> bb_op_pos bb !! i = Some (Some d)
}.

Lemma instrs_new : instrs r_anal_bb_new [].
Proof. split; [done|intros d E; done|intros i d E; done]. Qed.

Lemma offset_inst_run {St} bb ds i d (s : St) :
  instrs bb ds -> ds !! i = Some d -> r_anal_bb_offset_inst bb (Z.of_nat i) s = Ok d s.
Proof.
  intros [Hn H0 Hp] E. pose proof (lookup_lt_Some _ _ _ E). unfold r_anal_bb_offset_inst. rewrite Hn.
  rewrite (proj2 (Z.ltb_ge _ _)), (proj2 (Z.leb_gt _ _)) by lia. cbn [orb].
  destruct i as [|i]; [by rewrite (H0 d E)|].
  rewrite (proj2 (Z.ltb_lt _ _)) by lia. replace (Z.to_nat (Z.of_nat (S i) - 1)) with i by lia. by rewrite (Hp i d E).
Qed.

Lemma offset_inst_past {St} bb ds i (s : St) :
  instrs bb ds -> (length ds <= i)%nat -> r_anal_bb_offset_inst bb (Z.of_nat i) s = Ok UT16_MAX s.
Proof.
  intros [Hn _ _] Hi. unfold r_anal_bb_offset_inst. rewrite Hn, (proj2 (Z.ltb_ge _ _)), (proj2 (Z.leb_le _ _)) by lia. done.
Qed.

Lemma grow_lookup {A} n (l : list (option A)) i : (length l <= n)%nat -> (i < length l)%nat -> grow n l !! i = l !! i.
Proof. intros Hn Hi. unfold grow. rewrite take_ge by lia. by apply lookup_app_l. Qed.
Lemma grow_length {A} n (l : list (option A)) : length (grow n l) = n.
Proof. unfold grow. rewrite length_app, length_take, length_replicate. lia. Qed.

(** The next instruction is put after the others; offset 0 is only for the first. *)
Lemma set_offset_instrs bb ds v m :
  instrs bb ds -> (ds = [] /\ v = 0) \/ (ds <> [] /\ 0 < v) -> m = bb_ninstr bb + 1 ->
  instrs (r_anal_bb_set_offset (set_bb_ninstr m bb) (bb_ninstr bb) v) (ds ++ [v]).
Proof.
  intros [Hn H0 Hp] Hv ->. unfold r_anal_bb_set_offset. rewrite Hn.
  destruct Hv as [[-> ->]|[Hd Hv]].
  { split; simpl; [done|by intros d [= <-]|intros i d E; done]. }
  assert (0 < length ds)%nat as Hl by (destruct ds; [done|simpl; lia]).
  rewrite (proj2 (Z.ltb_lt _ _)), (proj2 (Z.ltb_lt _ _)) by lia. cbn [andb].
  replace (Z.to_nat (Z.of_nat (length ds) - 1)) with (pred (length ds)) by lia.
  set (pos := if op_pos_size _ <=? _ then _ else _).
  assert ((pred (length ds) < length pos)%nat /\ forall i x, bb_op_pos bb !! i = Some x -> pos !! i = Some x) as [Hpl Hpo].
  { unfold pos, op_pos_size. cbn [bb_op_pos set_bb_ninstr].
    destruct (Z.leb_spec (Z.of_nat (length (bb_op_pos bb))) (Z.of_nat (length ds))) as [Hc|Hc].
    - rewrite grow_length. split; [lia|]. intros i x E. pose proof (lookup_lt_Some _ _ _ E). by rewrite grow_lookup by lia.
    - split; [lia|done]. }
  split.
  - rewrite length_app. simpl. lia.
  - intros d. rewrite lookup_app_l by lia. apply H0.
  - intros i d E. cbn [bb_op_pos set_bb_op_pos]. destruct (decide (S i = length ds)) as [Ei|Ei].
    + rewrite Ei, lookup_app_r, Nat.sub_diag in E by lia. injection E as <-.
      replace (pred (length ds)) with i by lia. apply list_lookup_insert_eq. lia.
    + rewrite list_lookup_insert_ne by lia. apply Hpo, Hp. pose proof (lookup_lt_Some _ _ _ E) as Hi. rewrite length_app in Hi. simpl in Hi.
      by rewrite lookup_app_l in E by lia.
Qed.

(** ** The instruction at an address *)

(** Offsets one above the other. *)
Fixpoint rising (lo : Z) (ds : list Z) : Prop := match ds with [] => True | d :: ds => lo <= d /\ rising (d + 1) ds end.

Lemma rising_lookup lo ds i d : rising lo ds -> ds !! i = Some d -> lo <= d.
Proof.
  revert lo i. induction ds as [|e ds IH]; intros lo [|i] H E; simpl in *; try done.
  - injection E as <-. lia.
  - destruct H as [H1 H2]. specialize (IH _ _ H2 E). lia.
Qed.

Lemma rising_before lo ds i j d e : rising lo ds -> (i < j)%nat -> ds !! i = Some d -> ds !! j = Some e -> d < e.
Proof.
  revert lo i j. induction ds as [|x ds IH]; intros lo i j H Hij Ei Ej; [done|]. destruct H as [H1 H2].
  destruct j as [|j]; [lia|]. simpl in Ej. destruct i as [|i]; simpl in Ei.
  - injection Ei as <-. pose proof (rising_lookup _ _ _ _ H2 Ej). lia.
  - apply (IH (x + 1) i j); (done || lia).
Qed.

(** The loop passes the instructions that start at [delta] or before. *)
Lemma opaddr_loop_pass {St} bb ds delta i j last d n (s : St) :
  instrs bb ds -> rising 0 ds -> (j <= i)%nat -> ds !! i = Some d -> d <= delta -> (i < j + n)%nat ->
  opaddr_loop n bb delta (Z.of_nat j) last s = opaddr_loop (j + n - S i) bb delta (Z.of_nat (S i)) d s.
Proof.
  intros Hb Hr Hji E Hd. revert j last Hji. induction n as [|n IH]; intros j last Hji Hn; [lia|].
  pose proof (lookup_lt_Some _ _ _ E). destruct (lookup_lt_is_Some_2 ds j ltac:(lia)) as [e Ee].
  cbn [opaddr_loop]. rewrite run_bind, (offset_inst_run bb ds j e s Hb Ee).
  assert (e <= d) as He.
  { destruct (decide (j = i)) as [->|]; [rewrite E in Ee; injection Ee as <-; lia|]. pose proof (rising_before 0 ds j i e d Hr ltac:(lia) Ee E). lia. }
  rewrite (proj2 (Z.ltb_ge _ _)) by lia. destruct (decide (j = i)) as [->|].
  - rewrite E in Ee. injection Ee as <-. replace (i + S n - S i)%nat with n by lia. by replace (Z.of_nat i + 1) with (Z.of_nat (S i)) by lia.
  - replace (Z.of_nat j + 1) with (Z.of_nat (S j)) by lia. rewrite IH by lia. by replace (S j + n - S i)%nat with (j + S n - S i)%nat by lia.
Qed.

Lemma r_anal_bb_opaddr_at_inside {St} bb ds i d d' off (s : St) :
  instrs bb ds -> rising 0 ds -> r_anal_bb_is_in_offset bb off = true -> off - bb_addr bb < 2 ^ 16 ->
  ds !! i = Some d -> ds !! S i = Some d' -> d <= off - bb_addr bb < d' ->
  r_anal_bb_opaddr_at bb off s = Ok (u64 (bb_addr bb + d)) s.
Proof.
  intros Hb Hr Hi Ho E E' Hd. unfold r_anal_bb_opaddr_at. rewrite Hi. cbn [negb].
  unfold r_anal_bb_is_in_offset in Hi. apply andb_true_iff in Hi as [Hi%Z.leb_le _].
  rewrite u16_id by lia. pose proof (lookup_lt_Some _ _ _ E'). rewrite (in_n _ _ Hb), Nat2Z.id.
  change 0 with (Z.of_nat 0) at 1. rewrite (opaddr_loop_pass bb ds _ i 0 0 d) by (done || lia).
  destruct (0 + length ds - S i)%nat as [|n] eqn:En; [lia|]. cbn [opaddr_loop].
  rewrite run_bind, (offset_inst_run bb ds (S i) d' s Hb E'). by rewrite (proj2 (Z.ltb_lt _ _)) by lia.
Qed.

(** The last instruction of a block is not found. *)
Lemma r_anal_bb_opaddr_at_last {St} bb ds d off (s : St) :
  instrs bb ds -> rising 0 ds -> r_anal_bb_is_in_offset bb off = true -> off - bb_addr bb < 2 ^ 16 ->
  last ds = Some d -> d <= off - bb_addr bb -> r_anal_bb_opaddr_at bb off s = Ok UT64_MAX s.
Proof.
  intros Hb Hr Hi Ho E Hd. unfold r_anal_bb_opaddr_at. rewrite Hi. cbn [negb].
  unfold r_anal_bb_is_in_offset in Hi. apply andb_true_iff in Hi as [Hi%Z.leb_le _].
  rewrite u16_id by lia. rewrite last_lookup in E. pose proof (lookup_lt_Some _ _ _ E). rewrite (in_n _ _ Hb), Nat2Z.id.
  change 0 with (Z.of_nat 0) at 1. rewrite (opaddr_loop_pass bb ds _ (pred (length ds)) 0 0 d) by (done || lia).
  by replace (0 + length ds - S (pred (length ds)))%nat with 0%nat by lia.
Qed.

(** ** Decoding *)

Section decode.
Context (anal : RAnalEnv) (cur_op : plugin) (addr : Z) (buf : list Z) (len : Z) (head : bool).

(** A disassembler that reads no more than it is given, and operands of [lea]
    with names. *)
Record tame : Prop := {
  tm_op : ae_op anal = Some cur_op;
  tm_align : ae_pcalign anal = 0;
  tm_len : forall a data n, 0 < n -> (cur_op op_zero a data n).1 <= n;
  tm_bits : ae_bits anal <= 64;
  tm_lea : forall a data n v r reg, op_src0 (cur_op op_zero a data n).2 = Some v -> v_reg v = Some r -> ae_reg anal = Some reg ->
    is_Some (ri_name r) /\ is_Some (rr_name reg !! R_REG_NAME_PC)
}.

(** The length of the instruction at the offset [d] of the block, and
    instructions one after the other from [lo] to [hi]. *)
Definition length_at (d : Z) : Z := (cur_op op_zero (u64 (addr + d)) (drop (Z.to_nat d) buf) (len - 16 - d)).1.
Fixpoint tiled (lo : Z) (ds : list Z) (hi : Z) : Prop :=
  match ds with [] => lo = hi | d :: ds => d = lo /\ 0 < length_at lo /\ tiled (lo + length_at lo) ds hi end.

(** The types of operations after which a block ends, and whether the instruction at
    the offset [d] is of one of them. *)
Definition ender (t : Z) : bool :=
  existsb (Z.eqb t) [R_ANAL_OP_TYPE_CJMP; R_ANAL_OP_TYPE_JMP; R_ANAL_OP_TYPE_UJMP; R_ANAL_OP_TYPE_IJMP; R_ANAL_OP_TYPE_RJMP;
                     R_ANAL_OP_TYPE_IRJMP; R_ANAL_OP_TYPE_RET].
Definition ends_block (d : Z) : bool :=
  ender (op_type (cur_op op_zero (u64 (addr + d)) (drop (Z.to_nat d) buf) (len - 16 - d)).2).
(** Why the instructions [ds] of a block of [size] bytes are the last ones: the bytes
    are used up, nothing is decoded after them, or the last one ends the block. *)
Definition stops (ds : list Z) (size : Z) : Prop :=
  size = len - 16 \/ length_at size <= 0 \/ exists d, last ds = Some d /\ ends_block d = true.

Lemma tiled_snoc lo ds hi : tiled lo ds hi -> 0 < length_at hi -> tiled lo (ds ++ [hi]) (hi + length_at hi).
Proof. revert lo. induction ds as [|d ds IH]; intros lo; simpl; [by intros ->|]. intros (-> & H1 & H2) H3. by auto. Qed.

Lemma tiled_length lo ds hi : tiled lo ds hi -> lo + Z.of_nat (length ds) <= hi.
Proof. revert lo. induction ds as [|d ds IH]; intros lo; simpl; [lia|]. intros (-> & H1 & H2). specialize (IH _ H2). lia. Qed.

Lemma tiled_rising lo ds hi : tiled lo ds hi -> rising lo ds.
Proof.
  revert lo. induction ds as [|d ds IH]; intros lo; simpl; [done|]. intros (-> & H1 & H2). split; [lia|]. specialize (IH _ H2).
  destruct ds as [|e ds]; simpl in *; [done|]. destruct IH. split; [lia|done].
Qed.

(** What the [switch] leaves as it is. *)
Definition laid (b b' : RAnalBlock) : Prop :=
  bb_addr b = bb_addr b' /\ bb_size b = bb_size b' /\ bb_ninstr b = bb_ninstr b' /\ bb_op_pos b = bb_op_pos b'.

Lemma laid_instrs b b' ds : laid b b' -> instrs b ds -> instrs b' ds.
Proof. intros (E1 & E2 & E3 & E4) [H1 H2 H3]. split; [congruence|done|by rewrite <- E4]. Qed.

Lemma bb_lea_run op idx d :
  tame -> (exists a data n, op_src0 op = op_src0 (cur_op op_zero a data n).2) ->
  exists d', bb_lea anal op addr idx d = Ok tt d' /\ dec_bb d' = dec_bb d.
Proof.
  intros T (a & data & n & Es).
  unfold bb_lea. rewrite Es. destruct (op_src0 (cur_op op_zero a data n).2) as [v|] eqn:Ev; [|by exists d].
  destruct (ae_reg anal) as [reg|] eqn:Er; [|by exists d]. destruct (v_reg v) as [r|] eqn:Evr; [|by exists d].
  destruct (op_dst op) as [dst|]; [|by exists d]. case_bool_decide; [|by exists d].
  destruct (tm_lea T a data n v r reg Ev Evr Er) as [[name ->] [pc ->]]. case_bool_decide; [|by exists d].
  pose proof (tm_bits T). rewrite (proj2 (Z.ltb_ge _ _)).
  - eexists. split; [reflexivity|done].
  - transitivity (Z.quot 64 8); [apply Z.quot_le_mono; lia|done].
Qed.

Lemma bb_switch_run op idx d :
  tame -> (exists a data n, op_src0 op = op_src0 (cur_op op_zero a data n).2) ->
  exists d', bb_switch anal op addr idx d = Ok (if ender (op_type op) then inr R_ANAL_RET_END else inl idx) d'
    /\ laid (dec_bb d) (dec_bb d').
Proof.
  intros T (a & data & n & Ho).
  destruct (bb_lea_run op idx d T) as (dl & El & Ed); [by exists a, data, n|]. unfold bb_switch, on_bb.
  generalize (r_anal_cond_new_from_op op), (op_fail op), (op_jump op). generalize dependent (op_type op). intros t c f j.
  destruct (ender t) eqn:Et.
  - unfold ender in Et. cbn [existsb] in Et. rewrite !orb_true_iff, !Z.eqb_eq in Et.
    destruct Et as [->|[->|[->|[->|[->|[->|[->|?]]]]]]]; [..|done]; cbn; eexists; (split; [mrun; reflexivity|done]).
  - unfold ender in Et. cbn [existsb] in Et. rewrite !orb_false_iff in Et. destruct Et as (-> & -> & -> & -> & -> & -> & -> & _). cbn [orb].
    destruct (t =? R_ANAL_OP_TYPE_CMP); [eexists; split; [mrun; reflexivity|done]|].
    destruct (t =? R_ANAL_OP_TYPE_LEA); [|eexists; split; [mrun; reflexivity|done]].
    rewrite run_bind, El. exists dl. split; [done|by rewrite Ed].
Qed.

Definition inv (idx : Z) (d : decoding) : Prop :=
  0 <= idx <= len - 16 /\ bb_addr (dec_bb d) = addr /\ bb_size (dec_bb d) = idx /\
  exists ds, instrs (dec_bb d) ds /\ tiled 0 ds idx /\ Forall (fun o => ends_block o = false) ds.
(** What a block holds at the end. *)
Definition fin (size : Z) (d : decoding) : Prop :=
  0 <= size <= len - 16 /\ bb_addr (dec_bb d) = addr /\ bb_size (dec_bb d) = size /\
  exists ds, instrs (dec_bb d) ds /\ tiled 0 ds size /\ Forall (fun o => ends_block o = false) (removelast ds) /\ stops ds size.

Lemma Forall_removelast {A} (P : A -> Prop) l : Forall P l -> Forall P (removelast l).
Proof.
  induction 1 as [|x l Hx Hl IH]; [constructor|]. destruct l as [|y l]; [constructor|].
  change (removelast (x :: y :: l)) with (x :: removelast (y :: l)). by constructor.
Qed.
Lemma inv_fin idx d : inv idx d -> idx = len - 16 \/ length_at idx <= 0 -> fin idx d.
Proof.
  intros (H1 & H2 & H3 & ds & H4 & H5 & H6) H. split_and!; try done; try lia. exists ds. split_and!; try done.
  - by apply Forall_removelast.
  - destruct H; [by left|by right; left].
Qed.

Lemma on_bb_run f d : on_bb f d = Ok tt (mk_dec (f (dec_bb d)) (dec_refs d)).
Proof. done. Qed.

Lemma int_add_run {S} a b (s : S) : 0 <= a -> 0 <= b -> a + b < 2 ^ 31 -> int_add a b s = Ok (a + b) s.
Proof. intros Ha Hb H. unfold int_add. rewrite (proj2 (Z.leb_le _ _)), (proj2 (Z.ltb_lt _ _)) by lia. done. Qed.

Lemma r_anal_op_run {S} idx (s : S) :
  tame -> 16 <= len <= 2 ^ 16 -> 0 <= idx < len - 16 ->
  exists op, r_anal_op anal (u64 (addr + idx)) (drop (Z.to_nat idx) buf) (s32 (u64 (len - 16 - idx))) op_zero s
      = Ok (length_at idx, op) s
    /\ op_src0 op = op_src0 (cur_op op_zero (u64 (addr + idx)) (drop (Z.to_nat idx) buf) (len - 16 - idx)).2
    /\ (0 < length_at idx -> ender (op_type op) = ends_block idx).
Proof.
  intros T Hlen Hi. rewrite (u64_id (len - 16 - idx)), s32_id by lia. unfold r_anal_op, length_at, ends_block.
  rewrite (proj2 (Z.ltb_ge _ _)), (tm_align T), (tm_op T), (proj2 (Z.ltb_lt _ _)) by lia. cbn [z2b Z.eqb negb andb].
  destruct (cur_op op_zero _ _ _) as [ret op]. cbn [fst snd].
  destruct (Z.ltb_spec ret 1); (eexists; split; [reflexivity|split; [done|]]); [lia|done].
Qed.

Lemma bb_step_run idx d :
  tame -> 16 <= len <= 2 ^ 16 -> inv idx d ->
  (exists idx' d', bb_step anal addr buf (len - 16) head idx d = Ok (inl idx') d' /\ inv idx' d'
     /\ 0 <= len - 16 - idx' < len - 16 - idx)
  \/ (exists r d', bb_step anal addr buf (len - 16) head idx d = Ok (inr r) d' /\ exists size, fin size d' /\ (r = R_ANAL_RET_END \/ r = size)).
Proof.
  intros T Hlen (Hi & Ha & Hs & ds & Hd & Ht & Hne).
  assert (inv idx d) as HI by (split_and!; eauto; lia). unfold bb_step.
  destruct (Z.ltb_spec idx (len - 16)) as [Hlt|Hge].
  2:{ right. exists idx, d. mrun. rewrite Hs. split; [done|]. exists idx. split; [|auto]. apply inv_fin; [done|lia]. }
  destruct (r_anal_op_run idx d T Hlen ltac:(lia)) as (op & E & Eo & Ey). rewrite run_bind, E. cbv beta iota.
  destruct (Z.eqb_spec (length_at idx) 0) as [Hz|Hz].
  { right. destruct (idx =? 0); [exists R_ANAL_RET_END, d|exists idx, d]; (split; [mrun; by rewrite ?Hs|]); exists idx; (split; [apply inv_fin; [done|lia]|auto]). }
  destruct (Z.ltb_spec (length_at idx) 1) as [H1|H1].
  { right. exists R_ANAL_RET_END, d. split; [by mrun|]. exists idx. split; [apply inv_fin; [done|lia]|auto]. }
  pose proof (tm_len T (u64 (addr + idx)) (drop (Z.to_nat idx) buf) (len - 16 - idx) ltac:(lia)) as Hlm. fold (length_at idx) in Hlm.
  pose proof (tiled_length _ _ _ Ht) as Hdl. pose proof (in_n _ _ Hd) as Hn. mrun.
  rewrite int_add_run by lia. cbv beta iota. rewrite run_bind, on_bb_run. cbv beta iota.
  rewrite run_bind, int_add_run by lia. cbv beta iota. rewrite run_bind, int_add_run by lia. cbv beta iota.
  set (bb1 := r_anal_bb_set_offset _ _ _).
  assert (instrs bb1 (ds ++ [idx]) /\ bb_addr bb1 = addr) as [Hd1 Ha1].
  { unfold bb1. replace (addr + idx - bb_addr (dec_bb d)) with idx by lia. rewrite u16_id by lia. split.
    - apply set_offset_instrs; [done| |done]. destruct ds as [|e ds]; simpl in Ht; [left; split; [done|lia]|right; split; [done|]].
      destruct Ht as (_ & Hp & Ht). pose proof (tiled_length _ _ _ Ht). lia.
    - unfold r_anal_bb_set_offset. destruct (_ && _); done. }
  rewrite run_bind, on_bb_run, Hs. cbn [dec_bb dec_refs]. cbv beta iota.
  set (bb2 := set_bb_size _ _).
  assert (exists d2, (if head then on_bb (set_bb_type R_ANAL_BB_TYPE_HEAD) else mret tt) (mk_dec bb2 (dec_refs d)) = Ok tt d2
    /\ laid bb2 (dec_bb d2)) as (d2 & E2 & L2) by (destruct head; eexists; split; reflexivity || done).
  rewrite run_bind, E2. cbv beta iota.
  destruct (bb_switch_run op (idx + length_at idx) d2 T) as (d3 & E3 & L3); [by eexists _, _, _|].
  rewrite E3, (Ey ltac:(lia)).
  assert (laid bb2 (dec_bb d3)) as L by (destruct L2 as (? & ? & ? & ?), L3 as (? & ? & ? & ?); split_and!; congruence).
  assert (instrs (dec_bb d3) (ds ++ [idx])) as Hd3 by (apply (laid_instrs bb2); [done|]; by destruct Hd1 as [? ? ?]; split).
  assert (tiled 0 (ds ++ [idx]) (idx + length_at idx)) as Ht3 by (apply tiled_snoc; [done|lia]).
  assert (bb_addr (dec_bb d3) = addr) as Ha3 by (by destruct L as (<- & _)).
  assert (bb_size (dec_bb d3) = idx + length_at idx) as Hs3 by (by destruct L as (_ & <- & _)).
  destruct (ends_block idx) eqn:Ee; [right|left]; eexists _, d3; (split; [done|]).
  - exists (idx + length_at idx). split; [|by left]. split_and!; try done; try lia. exists (ds ++ [idx]). split_and!; try done.
    + by rewrite removelast_last.
    + right; right. exists idx. by rewrite last_snoc.
  - split; [|lia]. split_and!; try done; try lia. exists (ds ++ [idx]). split_and!; try done. apply Forall_app. by repeat constructor.
Qed.

(** Decoding ends, and lays the instructions one after the other. *)
Lemma r_anal_bb_lays d :
  tame -> 16 <= len <= 2 ^ 16 -> 0 <= addr < UT64_MAX -> dec_bb d = r_anal_bb_new ->
  exists r d' ds size, r_anal_bb anal addr buf len head d = Ok (Some r) d' /\ (r = R_ANAL_RET_END \/ r = size)
    /\ bb_addr (dec_bb d') = addr /\ bb_size (dec_bb d') = size /\ 0 <= size <= len - 16
    /\ instrs (dec_bb d') ds /\ tiled 0 ds size /\ Forall (fun o => ends_block o = false) (removelast ds) /\ stops ds size.
Proof.
  intros T Hlen Ha Hd. unfold r_anal_bb. mrun. rewrite Hd. change (bb_addr r_anal_bb_new =? UT64_MAX) with true. cbv iota. mrun.
  rewrite on_bb_run. cbv beta iota zeta. rewrite u64_id by lia. rewrite Hd.
  destruct (for_upto_total inv (fun idx _ => len - 16 - idx) (fun r d' => exists size, fin size d' /\ (r = R_ANAL_RET_END \/ r = size))
    (bb_step anal addr buf (len - 16) head) (len - 16 + 1) 0 (mk_dec (set_bb_addr addr r_anal_bb_new) (dec_refs d)))
    as (r & d' & E & size & (H1 & H2 & H3 & ds & H4 & H5 & H6 & H7) & Hr).
  - intros idx e HI. by apply bb_step_run.
  - split_and!; [lia|lia|done|done|]. exists []. split; [|by split; [|constructor]]. split; [done|intros ? E; done|intros ? ? E; done].
  - lia.
  - rewrite run_bind, E. exists r, d', ds, size. split_and!; try done; lia.
Qed.
End decode.

Lemma tiled_next cur_op addr buf len lo ds hi i d :
  tiled cur_op addr buf len lo ds hi -> ds !! i = Some d ->
  let n := length_at cur_op addr buf len d in
  0 < n /\ (ds !! S i = Some (d + n) \/ (S i = length ds /\ d + n = hi)).
Proof.
  revert lo i. induction ds as [|e ds IH]; intros lo i H E; [done|]. destruct H as (-> & H1 & H2).
  destruct i as [|i]; simpl in E; [|destruct (IH _ _ H2 E) as (? & [?|[]]); simpl; auto; lia].
  injection E as <-. cbv zeta. split; [done|]. destruct ds as [|e ds]; [right; simpl in *; lia|left]. destruct H2 as (-> & _). done.
Qed.

(** C10: for a disassembler that reads no more than it is given ([tame]) and a buffer
    of 16 to [2^16] bytes at an address below the end of the space, [r_anal_bb] on a new
    block ends, without undefined behaviour, with the instructions that the
    disassembler gives one after the other from the start of the block to its size.
    They are all there are: 16 bytes from the end of the buffer, where nothing is
    decoded, or after the first one that ends a block.  [r_anal_bb_opaddr_at] then
    answers for any address in an instruction with the address of that instruction --
    unless it is the last one of the block, for which it answers [UT64_MAX]. *)
Theorem r_anal_bb_finds_instructions anal cur_op addr buf len head refs :
  tame anal cur_op -> 16 <= len <= 2 ^ 16 -> 0 <= addr -> addr + len < UT64_MAX ->
  exists r d ds, r_anal_bb anal addr buf len head (mk_dec r_anal_bb_new refs) = Ok (Some r) d
    /\ tiled cur_op addr buf len 0 ds (bb_size (dec_bb d)) /\ bb_addr (dec_bb d) = addr
    /\ Forall (fun o => ends_block cur_op addr buf len o = false) (removelast ds)
    /\ stops cur_op addr buf len ds (bb_size (dec_bb d))
    /\ forall i o off, ds !! i = Some o -> addr + o <= off < addr + o + length_at cur_op addr buf len o ->
       r_anal_bb_opaddr_at (dec_bb d) off tt = Ok (if (S i =? length ds)%nat then UT64_MAX else addr + o) tt.
Proof.
  intros T Hlen Ha Hend. assert (UT64_MAX = 2 ^ 64 - 1) as EM by done.
  destruct (r_anal_bb_lays anal cur_op addr buf len head (mk_dec r_anal_bb_new refs) T Hlen ltac:(lia) eq_refl)
    as (r & d & ds & size & E & _ & Ead & Es & Hs & Hd & Ht & Hne & Hst).
  exists r, d, ds. rewrite Es. split_and!; [done..|]. intros i o off Eo Ho.
  pose proof (tiled_rising _ _ _ _ _ _ _ Ht) as Hr. destruct (tiled_next _ _ _ _ _ _ _ _ _ Ht Eo) as [Hp Hn].
  pose proof (rising_lookup _ _ _ _ Hr Eo).
  assert (o + length_at cur_op addr buf len o <= size) as Hsz.
  { destruct Hn as [Hn|[_ ->]]; [|lia]. destruct (tiled_next _ _ _ _ _ _ _ _ _ Ht Hn) as [Hp' Hn'].
    clear - Ht Hn Hp'. revert Ht. generalize 0 at 1. revert Hn. generalize (S i). induction ds as [|e ds IH]; intros j Ej lo Ht; [done|].
    destruct Ht as (-> & H1 & H2). destruct j as [|j]; simpl in Ej; [injection Ej as ->; pose proof (tiled_length _ _ _ _ _ _ _ H2); lia|].
    by apply (IH j Ej _ H2). }
  assert (r_anal_bb_is_in_offset (dec_bb d) off = true) as Hin.
  { unfold r_anal_bb_is_in_offset, bb_end. rewrite Ead, Es, u64_id by lia. rewrite (proj2 (Z.leb_le _ _)), (proj2 (Z.ltb_lt _ _)) by lia. done. }
  destruct Hn as [Hn|[Hn Hn']].
  - pose proof (lookup_lt_Some _ _ _ Hn). rewrite (proj2 (Nat.eqb_neq _ _)) by lia.
    rewrite (r_anal_bb_opaddr_at_inside _ ds i o _ off tt Hd Hr Hin ltac:(lia) Eo Hn ltac:(lia)), Ead, u64_id by lia. done.
  - rewrite Hn, Nat.eqb_refl. apply (r_anal_bb_opaddr_at_last _ ds o); try done; [lia| |lia].
    rewrite last_lookup, <- Hn. done.
Qed.

(** A disassembler of instructions whose first byte is their length. *)
Definition demo_op (op : RAnalOp) (addr : Z) (data : list Z) (len : Z) : Z * RAnalOp :=
  (Z.min len (default 0 (data !! 0%nat)), op).
Definition demo_env : RAnalEnv := mk_env (Some demo_op) 0 32 None.

Lemma demo_tame : tame demo_env demo_op.
Proof. split; [done|done|intros a data n Hn; simpl; lia|simpl; lia|done]. Qed.

Definition demo_code : list Z := [1; 3; 0; 0; 2; 0] ++ replicate 20 0.
Example demo_block :
  match r_anal_bb demo_env 0x1000 demo_code 22 false (mk_dec r_anal_bb_new []) with
  | Ok r d => (r, r_anal_bb_opaddr_at (dec_bb d) 0x1003 tt, r_anal_bb_opaddr_at (dec_bb d) 0x1005 tt)
              = (Some 6, Ok 0x1001 tt, Ok UT64_MAX tt)
  | Undef _ => False
  end.
Proof. vm_compute. reflexivity. Qed.

Lemma r_anal_bb_finds_instructions_witness :
  exists r d ds, r_anal_bb demo_env 0x1000 demo_code 22 false (mk_dec r_anal_bb_new []) = Ok (Some r) d
    /\ tiled demo_op 0x1000 demo_code 22 0 ds (bb_size (dec_bb d)) /\ bb_addr (dec_bb d) = 0x1000
    /\ Forall (fun o => ends_block demo_op 0x1000 demo_code 22 o = false) (removelast ds)
    /\ stops demo_op 0x1000 demo_code 22 ds (bb_size (dec_bb d))
    /\ forall i o off, ds !! i = Some o -> 0x1000 + o <= off < 0x1000 + o + length_at demo_op 0x1000 demo_code 22 o ->
       r_anal_bb_opaddr_at (dec_bb d) off tt = Ok (if (S i =? length ds)%nat then UT64_MAX else 0x1000 + o) tt.
Proof.
  apply (r_anal_bb_finds_instructions demo_env demo_op 0x1000 demo_code 22 false []); [exact demo_tame|lia|lia|unfold UT64_MAX; lia].
Defined.

Lemma for_upto_exit {S St B} n (body : St -> M S (St + B)) st s b s' :
  0 < n -> body st s = Ok (inr b) s' -> for_upto n body st s = Ok (inr b) s'.
Proof.
  intros Hn E. destruct n as [|p|p]; [lia| |lia]. unfold for_upto. induction p as [p IH|p IH|]; cbn [for_pos]; [| |done].
  - by rewrite run_bind, E.
  - by rewrite run_bind, IH by lia.
Qed.

(** [len] below 16 wraps: nothing is decoded. *)
Lemma r_anal_bb_short anal cur_op addr buf len head refs :
  ae_op anal = Some cur_op -> 0 <= len < 16 ->
  r_anal_bb anal addr buf len head (mk_dec r_anal_bb_new refs) = Ok (Some R_ANAL_RET_END) (mk_dec (set_bb_addr addr r_anal_bb_new) refs).
Proof.
  intros Ho Hl. unfold r_anal_bb. mrun. cbn [dec_bb]. change (bb_addr r_anal_bb_new =? UT64_MAX) with true. cbv iota. mrun.
  rewrite on_bb_run. cbv beta iota zeta. cbn [dec_bb dec_refs]. set (d := mk_dec _ _).
  assert (u64 (len - 16) = len - 16 + 2 ^ 64) as El by (unfold u64; rewrite <- (Z.mod_add _ 1), Z.mod_small by lia; lia).
  assert (bb_step anal addr buf (u64 (len - 16)) head 0 d = Ok (inr R_ANAL_RET_END) d) as E.
  { unfold bb_step. rewrite El, (proj2 (Z.ltb_lt _ _)) by lia. rewrite run_bind. unfold r_anal_op.
    rewrite (u64_id (len - 16 + 2 ^ 64 - 0)) by lia.
    replace (s32 (len - 16 + 2 ^ 64 - 0)) with (len - 16).
    { rewrite (proj2 (Z.ltb_lt _ _)) by lia. done. }
    symmetry. unfold s32, swrap. replace ((len - 16 + 2 ^ 64 - 0) mod 2 ^ 32) with (len - 16 + 2 ^ 32).
    - rewrite (proj2 (Z.ltb_ge _ _)) by lia. lia.
    - apply Z.mod_unique with (q := 2 ^ 32 - 1); lia. }
  assert (0 < u64 (len - 16) + 1) as Hp by (rewrite El; lia). rewrite run_bind, (for_upto_exit _ _ _ _ _ _ Hp E). done.
Qed.
