(* ===== verification/AnalFcn.v ===== *)
(** * Functions

    [libr/anal/fcn.c] but for the walk over the code ([fcn_recurse]).  A
    function is a value, and a pointer to one of the list of the analysis its
    position there; its blocks are a list and the flag that says it is sorted.
    No callbacks are registered, and the copies of the functions in the database
    ([sdb_fcns]) are left out. *)

From S2P Require Import Prelude Buf Num ListSort AnalRange AnalBlock.

Definition R_ANAL_FCN_TYPE_FCN : Z := 1.
Definition R_ANAL_FCN_TYPE_LOC : Z := 2.
Definition R_ANAL_FCN_TYPE_ROOT : Z := 32.
Definition R_ANAL_REF_TYPE_CODE : Z := 99.

Definition r_anal_fcn_type_tostring (type : Z) : string :=
  if type =? 0 then "null" else if type =? R_ANAL_FCN_TYPE_FCN then "fcn" else if type =? R_ANAL_FCN_TYPE_LOC then "loc"
  else if type =? 4 then "sym" else if type =? 8 then "imp" else if type =? 16 then "int"
  else if type =? R_ANAL_FCN_TYPE_ROOT then "root" else "unk".

Record RAnalRef := mk_ref { ref_type : Z; ref_addr : Z; ref_at : Z }.

Record RAnalFunction := mk_fcn {
  fcn_name : option string;
  fcn_size : Z;                    (* [_size] *)
  fcn_bits : Z;
  fcn_type : Z;
  fcn_cc : option string;
  fcn_addr : Z;
  fcn_diff : RAnalDiff;
  fcn_bbs : list RAnalBlock;
  fcn_sorted : bool;               (* [bbs->sorted] *)
  fcn_bbr : RRangeTiny;
  fcn_refs : list RAnalRef;
  fcn_xrefs : list RAnalRef;
  fcn_locs : list nat              (* positions in [anal->fcns] *)
}.

Definition set_fcn_name (v : option string) (f : RAnalFunction) : RAnalFunction :=
  mk_fcn v (fcn_size f) (fcn_bits f) (fcn_type f) (fcn_cc f) (fcn_addr f) (fcn_diff f) (fcn_bbs f) (fcn_sorted f)
    (fcn_bbr f) (fcn_refs f) (fcn_xrefs f) (fcn_locs f).
Definition set_fcn_size (v : Z) (f : RAnalFunction) : RAnalFunction :=
  mk_fcn (fcn_name f) v (fcn_bits f) (fcn_type f) (fcn_cc f) (fcn_addr f) (fcn_diff f) (fcn_bbs f) (fcn_sorted f)
    (fcn_bbr f) (fcn_refs f) (fcn_xrefs f) (fcn_locs f).
Definition set_fcn_bits (v : Z) (f : RAnalFunction) : RAnalFunction :=
  mk_fcn (fcn_name f) (fcn_size f) v (fcn_type f) (fcn_cc f) (fcn_addr f) (fcn_diff f) (fcn_bbs f) (fcn_sorted f)
    (fcn_bbr f) (fcn_refs f) (fcn_xrefs f) (fcn_locs f).
Definition set_fcn_type (v : Z) (f : RAnalFunction) : RAnalFunction :=
  mk_fcn (fcn_name f) (fcn_size f) (fcn_bits f) v (fcn_cc f) (fcn_addr f) (fcn_diff f) (fcn_bbs f) (fcn_sorted f)
    (fcn_bbr f) (fcn_refs f) (fcn_xrefs f) (fcn_locs f).
Definition set_fcn_cc (v : option string) (f : RAnalFunction) : RAnalFunction :=
  mk_fcn (fcn_name f) (fcn_size f) (fcn_bits f) (fcn_type f) v (fcn_addr f) (fcn_diff f) (fcn_bbs f) (fcn_sorted f)
    (fcn_bbr f) (fcn_refs f) (fcn_xrefs f) (fcn_locs f).
Definition set_fcn_addr (v : Z) (f : RAnalFunction) : RAnalFunction :=
  mk_fcn (fcn_name f) (fcn_size f) (fcn_bits f) (fcn_type f) (fcn_cc f) v (fcn_diff f) (fcn_bbs f) (fcn_sorted f)
    (fcn_bbr f) (fcn_refs f) (fcn_xrefs f) (fcn_locs f).
Definition set_fcn_diff (v : RAnalDiff) (f : RAnalFunction) : RAnalFunction :=
  mk_fcn (fcn_name f) (fcn_size f) (fcn_bits f) (fcn_type f) (fcn_cc f) (fcn_addr f) v (fcn_bbs f) (fcn_sorted f)
    (fcn_bbr f) (fcn_refs f) (fcn_xrefs f) (fcn_locs f).
(** The blocks and the flag. *)
Definition set_fcn_bbs (v : list RAnalBlock) (sorted : bool) (f : RAnalFunction) : RAnalFunction :=
  mk_fcn (fcn_name f) (fcn_size f) (fcn_bits f) (fcn_type f) (fcn_cc f) (fcn_addr f) (fcn_diff f) v sorted
    (fcn_bbr f) (fcn_refs f) (fcn_xrefs f) (fcn_locs f).
Definition set_fcn_bbr (v : RRangeTiny) (f : RAnalFunction) : RAnalFunction :=
  mk_fcn (fcn_name f) (fcn_size f) (fcn_bits f) (fcn_type f) (fcn_cc f) (fcn_addr f) (fcn_diff f) (fcn_bbs f) (fcn_sorted f)
    v (fcn_refs f) (fcn_xrefs f) (fcn_locs f).
Definition set_fcn_refs (v : list RAnalRef) (f : RAnalFunction) : RAnalFunction :=
  mk_fcn (fcn_name f) (fcn_size f) (fcn_bits f) (fcn_type f) (fcn_cc f) (fcn_addr f) (fcn_diff f) (fcn_bbs f) (fcn_sorted f)
    (fcn_bbr f) v (fcn_xrefs f) (fcn_locs f).
Definition set_fcn_xrefs (v : list RAnalRef) (f : RAnalFunction) : RAnalFunction :=
  mk_fcn (fcn_name f) (fcn_size f) (fcn_bits f) (fcn_type f) (fcn_cc f) (fcn_addr f) (fcn_diff f) (fcn_bbs f) (fcn_sorted f)
    (fcn_bbr f) (fcn_refs f) v (fcn_locs f).

Definition r_anal_fcn_new : RAnalFunction :=
  mk_fcn None 0 0 0 None UT64_MAX r_anal_diff_new [] false r_tinyrange_new [] [] [].

(** [size] is a [ut32]. *)
Definition r_anal_fcn_set_size (f : RAnalFunction) (size : Z) : RAnalFunction := set_fcn_size (u32 size) f.
Definition r_anal_fcn_size (f : RAnalFunction) : Z := fcn_size f.

(** ** Blocks of a function *)

Definition cmpaddr (a b : RAnalBlock) : Z := b2z (bb_addr b <? bb_addr a).

(** [r_list_sort (fcn->bbs, &cmpaddr)]. *)
Definition sort_bbs (f : RAnalFunction) : RAnalFunction :=
  if fcn_sorted f then f else set_fcn_bbs (sorted_data cmpaddr (fcn_bbs f)) true f.

(** [r_list_append (fcn->bbs, bb)]. *)
Definition r_anal_fcn_bbadd (f : RAnalFunction) (bb : RAnalBlock) : RAnalFunction :=
  set_fcn_bbs (fcn_bbs f ++ [bb]) false f.

Section functions.
Context {St : Type}.

Fixpoint add_ranges (bbr : RRangeTiny) (bbs : list RAnalBlock) : M St RRangeTiny :=
  match bbs with
  | [] => mret bbr
  | bb :: bbs => ' (_, bbr) ← r_tinyrange_add bbr (bb_addr bb) (bb_end bb); add_ranges bbr bbs
  end.

Definition update_tinyrange_bbs (f : RAnalFunction) : M St RAnalFunction :=
  let f := sort_bbs f in
  bbr ← add_ranges (r_tinyrange_fini (fcn_bbr f)) (fcn_bbs f);
  mret (set_fcn_bbr bbr f).

(** What becomes of a block when the function ends at [eof]. *)
Definition resize_bb (eof : Z) (bb : RAnalBlock) : option RAnalBlock :=
  if eof <=? bb_addr bb then None
  else
    let bb := if eof <=? bb_end bb then set_bb_size (s32 (u64 (eof - bb_addr bb))) bb else bb in
    let bb := if negb (bb_jump bb =? UT64_MAX) && (eof <=? bb_jump bb) then set_bb_jump UT64_MAX bb else bb in
    Some (if negb (bb_fail bb =? UT64_MAX) && (eof <=? bb_fail bb) then set_bb_fail UT64_MAX bb else bb).

Definition r_anal_fcn_resize (f : RAnalFunction) (newsize : Z) : M St (bool * RAnalFunction) :=
  if newsize <? 1 then mret (false, f)
  else
    let f := r_anal_fcn_set_size f newsize in
    let eof := u64 (fcn_addr f + r_anal_fcn_size f) in
    f ← update_tinyrange_bbs (set_fcn_bbs (omap (resize_bb eof) (fcn_bbs f)) (fcn_sorted f) f);
    mret (true, f).

Definition r_anal_fcn_in (f : RAnalFunction) (addr : Z) : M St (option bool) := r_tinyrange_in (fcn_bbr f) addr.

Definition r_anal_fcn_is_in_offset (f : RAnalFunction) (addr : Z) : M St (option bool) :=
  match fcn_bbs f with
  | [] => mret (Some ((fcn_addr f <=? addr) && (addr <? u64 (fcn_addr f + fcn_size f))))
  | _ => r_anal_fcn_in f addr
  end.
End functions.

(** The first block at [addr]: [bbget] takes blocks that hold it. *)
Definition bbget (f : RAnalFunction) (addr : Z) : option RAnalBlock :=
  find (fun bb => ((bb_end bb <=? bb_addr bb) && (addr =? bb_addr bb)) || ((bb_addr bb <=? addr) && (addr <? bb_end bb))) (fcn_bbs f).
Definition r_anal_fcn_bbget (f : RAnalFunction) (addr : Z) : option RAnalBlock :=
  find (fun bb => bb_addr bb =? addr) (fcn_bbs f).

(** The block is at the end of the list. *)
Definition appendBasicBlock (f : RAnalFunction) (addr : Z) : RAnalFunction :=
  r_anal_fcn_bbadd f (set_bb_type 0 (set_bb_fail UT64_MAX (set_bb_jump UT64_MAX (set_bb_size 0 (set_bb_addr addr r_anal_bb_new))))).

(** ** Adding and splitting blocks *)

(** The loop of [r_anal_fcn_add_bb]: the block at [addr], whether another one
    holds it, and the block the loop ends on.  Blocks are positions. *)
Fixpoint add_scan (bbs : list RAnalBlock) (addr : Z) (i : nat) (mid : bool) (bbi : option nat) : option nat * bool * option nat :=
  match bbs with
  | [] => (None, mid, bbi)
  | b :: bbs =>
      if addr =? bb_addr b then (Some i, false, Some i)
      else if (bb_addr b <? addr) && (addr <? bb_end b) then add_scan bbs addr (S i) true (Some i)
      else add_scan bbs addr (S i) mid (Some i)
  end.

(** The fields the caller gives; [size] is a [ut64] stored in an [int]. *)
Definition fill_bb (addr size jump fail type : Z) (diff : option RAnalDiff) (b : RAnalBlock) : RAnalBlock :=
  let b := set_bb_type type (set_bb_fail fail (set_bb_jump jump (set_bb_size (s32 size) (set_bb_addr addr b)))) in
  match diff with
  | None => b
  | Some d =>
      let old := match bb_diff b with Some o => o | None => r_anal_diff_new end in
      set_bb_diff (Some (mk_diff (diff_type d) (diff_addr d) (match diff_name d with Some n => Some n | None => diff_name old end))) b
  end.

Section add.
Context {St : Type}.

Definition r_anal_fcn_add_bb (f : RAnalFunction) (addr size jump fail type : Z) (diff : option RAnalDiff) : M St (bool * RAnalFunction) :=
  let '(bb, mid, bbi) := add_scan (fcn_bbs f) addr 0 false None in
  f ← (match mid, bbi with
       | true, Some i =>
           update_tinyrange_bbs (set_fcn_bbs (alter (fun b => set_bb_size (s32 (u64 (addr - bb_addr b))) b) i (fcn_bbs f)) (fcn_sorted f) f)
       | _, _ => mret f
       end);
  let '(f, i) := match bb with Some i => (f, i) | None => let f := appendBasicBlock f addr in (f, pred (length (fcn_bbs f))) end in
  f ← update_tinyrange_bbs (set_fcn_bbs (alter (fill_bb addr size jump fail type diff) i (fcn_bbs f)) (fcn_sorted f) f);
  mret (true, f).

(** The first loop over the instructions of the block that is split: how many
    stay.  [n] turns are left. *)
Fixpoint split_count (n : nat) (bbi : RAnalBlock) (i : Z) : M St Z :=
  match n with
  | O => mret i
  | S n =>
      off ← r_anal_bb_offset_inst bbi i;
      if off <? bb_size bbi then split_count n bbi (i + 1) else mret i
  end.

(** The second one, which moves the others to [bb]. *)
Fixpoint split_move (n : nat) (bbi bb : RAnalBlock) (i : Z) : M St RAnalBlock :=
  match n with
  | O => mret bb
  | S n =>
      off_op ← r_anal_bb_offset_inst bbi i;
      if bb_size bbi + bb_size bb <=? off_op then mret bb
      else
        let bb := r_anal_bb_set_offset bb (bb_ninstr bb) (u16 (off_op - bb_size bbi)) in
        split_move n bbi (set_bb_ninstr (bb_ninstr bb + 1) bb) (i + 1)
  end.

(** What is done to the block [bbi] that holds [addr], and to the new block. *)
Definition split_at (addr : Z) (bbi bb : RAnalBlock) : M St (RAnalBlock * RAnalBlock) :=
  let bb := set_bb_conditional (bb_conditional bbi) (set_bb_fail (bb_fail bbi) (set_bb_jump (bb_jump bbi)
              (set_bb_size (s32 (u64 (bb_addr bbi + bb_size bbi - addr))) bb))) in
  let bbi := set_bb_conditional 0 (set_bb_fail UT64_MAX (set_bb_jump addr (set_bb_size (s32 (u64 (addr - bb_addr bbi))) bbi))) in
  let '(bb, bbi) :=
    if z2b (Z.land (bb_type bbi) R_ANAL_BB_TYPE_HEAD) then
      (set_bb_type (Z.lxor (bb_type bbi) R_ANAL_BB_TYPE_HEAD) bb, set_bb_type R_ANAL_BB_TYPE_HEAD bbi)
    else (set_bb_type (bb_type bbi) bb, set_bb_type R_ANAL_BB_TYPE_BODY bbi) in
  i ← split_count (Z.to_nat (bb_ninstr bbi)) bbi 0;
  off ← r_anal_bb_offset_inst bbi i;
  bb ← (if u64 (bb_addr bb - bb_addr bbi) =? off then
          split_move (Z.to_nat (bb_ninstr bbi - i)) bbi (set_bb_ninstr 0 bb) i
        else mret bb);
  mret (set_bb_ninstr i bbi, bb).

Fixpoint split_scan (bbs : list RAnalBlock) (addr : Z) (i : nat) : option (nat * bool) :=
  match bbs with
  | [] => None
  | b :: bbs =>
      if addr =? bb_addr b then Some (i, true)
      else if (bb_addr b <? addr) && (addr <? bb_end b) then Some (i, false)
      else split_scan bbs addr (S i)
  end.

Definition r_anal_fcn_split_bb (f : RAnalFunction) (addr : Z) : M St (Z * RAnalFunction) :=
  if addr =? UT64_MAX then mret (0, f)
  else
    match split_scan (fcn_bbs f) addr 0 with
    | None => mret (R_ANAL_RET_NEW, f)
    | Some (_, true) => mret (R_ANAL_RET_DUP, f)
    | Some (i, false) =>
        let f := appendBasicBlock f addr in
        let j := pred (length (fcn_bbs f)) in
        match fcn_bbs f !! i, fcn_bbs f !! j with
        | Some bbi, Some bb =>
            ' (bbi, bb) ← split_at addr bbi bb;
            mret (R_ANAL_RET_END, set_fcn_bbs (<[i := bbi]> (<[j := bb]> (fcn_bbs f))) (fcn_sorted f) f)
        | _, _ => undef UB_null
        end
    end.
End add.

(** The first block whose range holds the end of [bb]. *)
Fixpoint overlaps_scan (bbs : list RAnalBlock) (bb : RAnalBlock) (i : nat) : option nat :=
  match bbs with
  | [] => None
  | b :: bbs => if (bb_addr b <? bb_end bb) && (bb_end bb <=? bb_end b) then Some i else overlaps_scan bbs bb (S i)
  end.

(** The result, the function and [bb], which the list of the function has from
    then on. *)
Definition r_anal_fcn_bb_overlaps (f : RAnalFunction) (bb : RAnalBlock) : Z * RAnalFunction * RAnalBlock :=
  match overlaps_scan (fcn_bbs f) bb 0 with
  | None => (R_ANAL_RET_NEW, f, bb)
  | Some i =>
      match fcn_bbs f !! i with
      | None => (R_ANAL_RET_NEW, f, bb)
      | Some bbi =>
          let bb := set_bb_conditional 0 (set_bb_fail UT64_MAX (set_bb_jump (bb_addr bbi)
                      (set_bb_size (s32 (u64 (bb_addr bbi - bb_addr bb))) bb))) in
          let '(bb, bbi) :=
            if z2b (Z.land (bb_type bbi) R_ANAL_BB_TYPE_HEAD) then
              (set_bb_type R_ANAL_BB_TYPE_HEAD bb, set_bb_type (Z.lxor (bb_type bbi) R_ANAL_BB_TYPE_HEAD) bbi)
            else (set_bb_type R_ANAL_BB_TYPE_BODY bb, bbi) in
          (R_ANAL_RET_END, r_anal_fcn_bbadd (set_fcn_bbs (<[i := bbi]> (fcn_bbs f)) (fcn_sorted f) f) bb, bb)
      end
  end.

(** ** Measures *)

(** [E - N + 2]: the edges and the blocks. *)
Definition r_anal_fcn_cc (f : RAnalFunction) : Z :=
  let step '(E, N) bb :=
    (if bb_jump bb =? UT64_MAX then E else E + 1 + (if bb_fail bb =? UT64_MAX then 0 else 1), N + 1) in
  let '(E, N) := foldl step (0, 0) (fcn_bbs f) in E - N + 2.

(** A [ut32] to which the [int] size of every block is added. *)
Definition add_sizes (sz : Z) (bbs : list RAnalBlock) : Z := foldl (fun sz bb => u32 (sz + bb_size bb)) sz bbs.

Definition r_anal_fcn_contsize (f : RAnalFunction) : Z :=
  add_sizes 0 (List.filter (fun bb => fcn_addr f <=? bb_addr bb) (fcn_bbs f)).

(** ** The functions of the analysis *)

Record RAnal := mk_anal {
  an_fcns : list RAnalFunction;
  an_bits : Z;
  an_default_cc : option string    (* ["default.cc"] of the database *)
}.
Definition set_an_fcns (v : list RAnalFunction) (a : RAnal) : RAnal := mk_anal v (an_bits a) (an_default_cc a).

(** With the functions [fcn->fcn_locs]; a position that is not there is none. *)
Definition r_anal_fcn_realsize (a : RAnal) (f : RAnalFunction) : Z :=
  foldl (fun sz i => match an_fcns a !! i with Some l => add_sizes sz (fcn_bbs l) | None => sz end) (add_sizes 0 (fcn_bbs f)) (fcn_locs f).

Fixpoint position {A} (p : A -> bool) (l : list A) (i : nat) : option nat :=
  match l with [] => None | x :: l => if p x then Some i else position p l (S i) end.
Definition root_at (a : RAnal) (addr : Z) : option nat := position (fun f => addr =? fcn_addr f) (an_fcns a) 0.

Definition of_type (type : Z) (f : RAnalFunction) : bool := (type =? 0) || z2b (Z.land (fcn_type f) type).

Fixpoint at_scan (fcns : list RAnalFunction) (addr type : Z) (i : nat) (ret : option nat) : option nat :=
  match fcns with
  | [] => ret
  | f :: fcns => at_scan fcns addr type (S i) (if of_type type f && (addr =? fcn_addr f) then Some i else ret)
  end.
Definition r_anal_get_fcn_at (a : RAnal) (addr type : Z) : option nat :=
  if type =? R_ANAL_FCN_TYPE_ROOT then root_at a addr else at_scan (an_fcns a) addr type 0 None.

Section anal.
Context {St : Type}.

(** [None]: a search in the ranges of a function does not end. *)
Fixpoint in_scan (fcns : list RAnalFunction) (addr type : Z) (i : nat) (ret : option nat) : M St (option (option nat)) :=
  match fcns with
  | [] => mret (Some ret)
  | f :: fcns =>
      if of_type type f then
        if fcn_addr f =? addr then in_scan fcns addr type (S i) (Some i)
        else
          match ret with
          | Some _ => in_scan fcns addr type (S i) ret
          | None =>
              b ← r_anal_fcn_is_in_offset f addr;
              match b with
              | None => mret None
              | Some b => in_scan fcns addr type (S i) (if b : bool then Some i else ret)
              end
          end
      else in_scan fcns addr type (S i) ret
  end.
Definition r_anal_get_fcn_in (a : RAnal) (addr type : Z) : M St (option (option nat)) :=
  if type =? R_ANAL_FCN_TYPE_ROOT then mret (Some (root_at a addr)) else in_scan (an_fcns a) addr type 0 None.

Fixpoint bounds_scan (fcns : list RAnalFunction) (addr type : Z) (i : nat) : M St (option (option nat)) :=
  match fcns with
  | [] => mret (Some None)
  | f :: fcns =>
      if of_type type f then
        b ← r_anal_fcn_in f addr;
        match b with
        | None => mret None
        | Some true => mret (Some (Some i))
        | Some false => bounds_scan fcns addr type (S i)
        end
      else bounds_scan fcns addr type (S i)
  end.
Definition r_anal_get_fcn_in_bounds (a : RAnal) (addr type : Z) : M St (option (option nat)) :=
  if type =? R_ANAL_FCN_TYPE_ROOT then mret (Some (root_at a addr)) else bounds_scan (an_fcns a) addr type 0.

(** [strcmp] with a missing name is undefined. *)
Fixpoint name_scan (fcns : list RAnalFunction) (name : string) (i : nat) : M St (option nat) :=
  match fcns with
  | [] => mret None
  | f :: fcns =>
      match fcn_name f with
      | None => undef UB_null
      | Some n => if bool_decide (name = n) then mret (Some i) else name_scan fcns name (S i)
      end
  end.
Definition r_anal_fcn_find_name (a : RAnal) (name : string) : M St (option nat) := name_scan (an_fcns a) name 0.
End anal.

Definition r_anal_bb_from_offset (a : RAnal) (off : Z) : option RAnalBlock :=
  find (fun bb => r_anal_bb_is_in_offset bb off) (an_fcns a ≫= fcn_bbs).

Fixpoint next_scan (fcns : list RAnalFunction) (addr : Z) (i : nat) (closer : option (nat * Z)) : option (nat * Z) :=
  match fcns with
  | [] => closer
  | f :: fcns =>
      let better := match closer with None => true | Some (_, c) => fcn_addr f <? c end in
      next_scan fcns addr (S i) (if (addr <? fcn_addr f) && better then Some (i, fcn_addr f) else closer)
  end.
(** The position of the function and its address. *)
Definition r_anal_fcn_next (a : RAnal) (addr : Z) : option (nat * Z) := next_scan (an_fcns a) addr 0 None.

Fixpoint count_scan (fcns : list RAnalFunction) (from to n : Z) : Z :=
  match fcns with
  | [] => n
  | f :: fcns => if (from <=? fcn_addr f) && (fcn_addr f <? to) then n else count_scan fcns from to n
  end.
(** [return n++]: the loop ends at the first function of the range. *)
Definition r_anal_fcn_count (a : RAnal) (from to : Z) : Z := count_scan (an_fcns a) from to 0.

(** *** Changes to the list of functions: the state is the analysis *)

Definition fcnfit (i : nat) : M RAnal unit :=
  a ← gets id;
  match an_fcns a !! i with
  | None => undef UB_null
  | Some f =>
      match r_anal_fcn_next a (fcn_addr f) with
      | Some (_, next) =>
          if next <? u64 (fcn_addr f + r_anal_fcn_size f) then
            ' (_, f) ← r_anal_fcn_resize f (s32 (u64 (next - fcn_addr f)));
            modify (set_an_fcns (<[i := f]> (an_fcns a)))
          else mret tt
      | None => mret tt
      end
  end.

Fixpoint fit_all (n i : nat) : M RAnal unit := match n with O => mret tt | S n => fcnfit i ;; fit_all n (S i) end.

Definition r_anal_fcn_fit_overlaps (fcn : option nat) : M RAnal unit :=
  match fcn with Some i => fcnfit i | None => a ← gets id; fit_all (length (an_fcns a)) 0 end.

Definition r_anal_fcn_insert (f : RAnalFunction) : M RAnal bool :=
  a ← gets id;
  match r_anal_get_fcn_at a (fcn_addr f) R_ANAL_FCN_TYPE_ROOT with
  | Some _ => mret false
  | None => modify (set_an_fcns (an_fcns a ++ [f])) ;; mret true
  end.

(** ["fcn.%08llx"]. *)
Fixpoint zeros (n : nat) (s : string) : string := match n with O => s | S n => String "0" (zeros n s) end.
Definition default_name (addr : Z) : string :=
  let s := fmt_llx addr in append "fcn." (zeros (8 - String.length s) s).

(** The fields that [r_anal_fcn_add] sets. *)
Definition fill_fcn (a : RAnal) (addr size : Z) (name : option string) (type : Z) (diff : option RAnalDiff) (f : RAnalFunction) : RAnalFunction :=
  let f := r_anal_fcn_set_size (set_fcn_bits (an_bits a) (set_fcn_cc (an_default_cc a) (set_fcn_addr addr f))) size in
  let f := set_fcn_type type (set_fcn_name (Some (match name with None => default_name addr | Some n => n end)) f) in
  match diff with
  | None => f
  | Some d => set_fcn_diff (mk_diff (diff_type d) (diff_addr d) (diff_name d)) f
  end.

Definition r_anal_fcn_add (addr size : Z) (name : option string) (type : Z) (diff : option RAnalDiff) : M RAnal bool :=
  if size <? 1 then mret false
  else
    a ← gets id;
    r ← r_anal_get_fcn_in a addr R_ANAL_FCN_TYPE_ROOT;
    match r with
    | Some (Some i) => modify (set_an_fcns (alter (fill_fcn a addr size name type diff) i (an_fcns a))) ;; mret true
    | _ => r_anal_fcn_insert (fill_fcn a addr size name type diff r_anal_fcn_new)
    end.

Definition r_anal_fcn_del (addr : Z) : M RAnal bool :=
  (if addr =? UT64_MAX then modify (set_an_fcns [])
   else modify (fun a => set_an_fcns
     (List.filter (fun f => negb ((fcn_addr f <=? addr) && (addr <? u64 (fcn_addr f + r_anal_fcn_size f)))) (an_fcns a)) a)) ;;
  mret true.

(** The loop of [r_anal_fcn_del_locs] for the function [f] at position [at_]; [gone]
    says that the list has freed [f] itself, which later turns read.  The
    functions that stay. *)
Fixpoint del_locs_scan {S} (fcns : list RAnalFunction) (f : RAnalFunction) (at_ i : nat) (gone : bool) : M S (list RAnalFunction) :=
  match fcns with
  | [] => mret []
  | g :: fcns =>
      if negb (fcn_type g =? R_ANAL_FCN_TYPE_LOC) then rest ← del_locs_scan fcns f at_ (Datatypes.S i) gone; mret (g :: rest)
      else if gone then undef UB_free
      else if (fcn_addr f <=? fcn_addr g) && (fcn_addr g <? u64 (fcn_addr f + r_anal_fcn_size f)) then
        del_locs_scan fcns f at_ (Datatypes.S i) (gone || (i =? at_)%nat)
      else rest ← del_locs_scan fcns f at_ (Datatypes.S i) gone; mret (g :: rest)
  end.

Definition r_anal_fcn_del_locs (addr : Z) : M RAnal bool :=
  a ← gets id;
  match root_at a addr with
  | None => mret false
  | Some i =>
      match an_fcns a !! i with
      | None => mret false
      | Some f =>
          fcns ← del_locs_scan (an_fcns a) f i 0 false;
          modify (set_an_fcns fcns) ;;
          _ ← r_anal_fcn_del addr;
          mret true
      end
  end.

(** ** References and guesses *)

Section refs.
Context {St : Type}.

Fixpoint trim_refs (f : RAnalFunction) (refs : list RAnalRef) : M St (option (list RAnalRef)) :=
  match refs with
  | [] => mret (Some [])
  | r :: refs =>
      b ← (if ref_type r =? R_ANAL_REF_TYPE_CODE then r_anal_fcn_is_in_offset f (ref_addr r) else mret (Some false));
      rest ← trim_refs f refs;
      mret (match b, rest with Some b, Some rest => Some (if b : bool then rest else r :: rest) | _, _ => None end)
  end.
Definition r_anal_trim_jmprefs (f : RAnalFunction) : M St (option RAnalFunction) :=
  refs ← trim_refs f (fcn_refs f); mret ((fun refs => set_fcn_refs refs f) <$> refs).

Definition xref_matches (at_ addr type : Z) (r : RAnalRef) : bool :=
  (negb (type =? -1) || (type =? ref_type r)) && ((at_ =? 0) || (at_ =? ref_at r)) && ((addr =? 0) || (addr =? ref_addr r)).
Definition r_anal_fcn_xref_del (f : RAnalFunction) (at_ addr type : Z) : bool * RAnalFunction :=
  match position (xref_matches at_ addr type) (fcn_xrefs f) 0 with
  | Some i => (true, set_fcn_xrefs (delete i (fcn_xrefs f)) f)
  | None => (false, f)
  end.

Definition starts (p buf : list Z) : bool := bool_decide (take (length p) buf = p).
(** The buffer has [bufsz] bytes at least. *)
Definition check_preludes (buf : list Z) (bufsz : Z) : M St bool :=
  if bufsz <? 10 then mret false
  else if (Z.of_nat (length buf) <? bufsz) then undef UB_oob
  else mret (starts [0x55; 0x89; 0xe5] buf || starts [0x55; 0x8b; 0xec] buf || starts [0x8b; 0xff] buf
             || starts [0x55; 0x48; 0x89; 0xe5] buf || starts [0x55; 0x48; 0x8b; 0xec] buf).

Record counts := mk_counts { pushcnt : Z; movcnt : Z; brcnt : Z }.

(** [n] is the number of turns that [opcnt < 10] leaves. *)
Fixpoint check_loop (n : nat) (anal : RAnalEnv) (buf : list Z) (bufsz addr low high i : Z) (c : counts) : M St bool :=
  let result := mret (5 <? pushcnt c + movcnt c + brcnt c) in
  match n with
  | O => result
  | S n =>
      if i <? bufsz then
        ' (oplen, op) ← r_anal_op anal (u64 (addr + i)) (drop (Z.to_nat i) buf) (bufsz - i) op_zero;
        if oplen <? 1 then mret false
        else
          let type t := op_type op =? t in
          let next c := i ← int_add i oplen; check_loop n anal buf bufsz addr low high i c in
          if type R_ANAL_OP_TYPE_PUSH || type R_ANAL_OP_TYPE_UPUSH then next (mk_counts (pushcnt c + 1) (movcnt c) (brcnt c))
          else if type R_ANAL_OP_TYPE_MOV || type R_ANAL_OP_TYPE_CMOV then next (mk_counts (pushcnt c) (movcnt c + 1) (brcnt c))
          else if type R_ANAL_OP_TYPE_JMP || type R_ANAL_OP_TYPE_CJMP || type R_ANAL_OP_TYPE_CALL then
            if (op_jump op <? low) || (high <=? op_jump op) then mret false
            else next (mk_counts (pushcnt c) (movcnt c) (brcnt c + 1))
          else if type R_ANAL_OP_TYPE_UNK then mret false
          else next c
      else result
  end.

Definition r_anal_check_fcn (anal : RAnalEnv) (buf : list Z) (bufsz addr low high : Z) : M St bool :=
  b ← check_preludes buf bufsz;
  if b : bool then mret true else check_loop 10 anal buf bufsz addr low high 0 (mk_counts 0 0 0).
End refs.
