(* ===== verification/AnalFacts.v ===== *)
(** * Correctness of the analysis of functions *)

From stdpp Require Import sorting.
From S2P Require Import Prelude Buf ListSort AnalRange AnalBlock AnalBlockFacts AnalFcn.

(** ** The order of the blocks *)

Lemma le_cmpaddr a b : le cmpaddr a b <-> bb_addr a <= bb_addr b.
Proof. unfold le, cmpaddr. destruct (Z.ltb_spec (bb_addr b) (bb_addr a)); simpl; lia. Qed.
#[export] Instance cmpaddr_total : Total (le cmpaddr).
Proof. intros a b. rewrite !le_cmpaddr. lia. Qed.
#[export] Instance cmpaddr_trans : Transitive (le cmpaddr).
Proof. intros a b c. rewrite !le_cmpaddr. lia. Qed.

Lemma merged_sorted {A} (cmp : A -> A -> Z) fuel xs :
  Total (le cmp) -> (length xs <= fuel)%nat -> merged cmp fuel xs ≡ₚ xs /\ Sorted (le cmp) (merged cmp fuel xs).
Proof.
  intros Ht. revert xs. induction fuel as [|fuel IH]; intros xs Hl.
  { destruct xs; [|simpl in Hl; lia]. split; [done|constructor]. }
  destruct xs as [|x [|y xs]]; [split; [done|constructor]|split; [done|repeat constructor]|].
  cbn [merged]. cbv zeta. set (n := S _). pose proof (Nat.div_lt (length (x :: y :: xs) - 1) 2 ltac:(simpl; lia) ltac:(lia)) as Hd.
  destruct (IH (take n (x :: y :: xs))) as [P1 S1]; [rewrite length_take; simpl in *; lia|].
  destruct (IH (drop n (x :: y :: xs))) as [P2 S2]; [rewrite length_drop; subst n; simpl in *; lia|].
  split; [|by apply Sorted_list_merge]. by rewrite merge_Permutation, P1, P2, take_drop.
Qed.

Lemma sorted_data_sorts {A} (cmp : A -> A -> Z) xs :
  Total (le cmp) -> Transitive (le cmp) -> sorted_data cmp xs ≡ₚ xs /\ StronglySorted (le cmp) (sorted_data cmp xs).
Proof.
  intros Ht Htr. unfold sorted_data. destruct (43 <? Z.of_nat (length xs)).
  - destruct (merged_sorted cmp (length xs) xs Ht (le_n _)) as [H1 H2]. split; [done|]. by apply Sorted_StronglySorted.
  - split; [apply exchanged_permutation|]. by apply exchanged_sorted.
Qed.

(** The flag says the truth. *)
Definition sorted_ok (f : RAnalFunction) : Prop := fcn_sorted f = true -> StronglySorted (le cmpaddr) (fcn_bbs f).

Lemma sort_bbs_sorts f :
  sorted_ok f -> fcn_bbs (sort_bbs f) ≡ₚ fcn_bbs f /\ StronglySorted (le cmpaddr) (fcn_bbs (sort_bbs f)) /\ fcn_sorted (sort_bbs f) = true.
Proof.
  intros H. unfold sort_bbs. destruct (fcn_sorted f) eqn:E; [split_and!; [done|by apply H|done]|].
  destruct (sorted_data_sorts cmpaddr (fcn_bbs f) _ _). done.
Qed.

(** ** The blocks and the ranges *)

Definition span (bb : RAnalBlock) : Z * Z := (bb_addr bb, bb_addr bb + bb_size bb).
Definition bb_ok (bb : RAnalBlock) : Prop := 0 <= bb_addr bb /\ 0 < bb_size bb /\ bb_addr bb + bb_size bb < 2 ^ 64.
(** No address is in two blocks. *)
Definition apart (bbs : list RAnalBlock) : Prop :=
  forall i j a b, i <> j -> bbs !! i = Some a -> bbs !! j = Some b -> bb_addr a + bb_size a <= bb_addr b \/ bb_addr b + bb_size b <= bb_addr a.

Lemma apart_cons a bbs : apart (a :: bbs) <->
  Forall (fun b => bb_addr a + bb_size a <= bb_addr b \/ bb_addr b + bb_size b <= bb_addr a) bbs /\ apart bbs.
Proof.
  split.
  - intros H. split.
    + apply Forall_lookup. intros i b E. by apply (H 0%nat (S i) a b).
    + intros i j x y Hij. apply (H (S i) (S j)). lia.
  - intros [H1 H2] [|i] [|j] x y Hij Ex Ey; simpl in Ex, Ey; try done.
    + injection Ex as <-. by eapply Forall_lookup in H1.
    + injection Ey as <-. eapply Forall_lookup in H1; [|exact Ex]. tauto.
    + apply (H2 i j); [lia|done|done].
Qed.

#[export] Instance apart_permutation : Proper ((≡ₚ) ==> iff) apart.
Proof.
  assert (forall l k, l ≡ₚ k -> apart l -> apart k) as H; [|intros l k E; split; apply H; done].
  induction 1 as [|x l k P IH|x y l|l1 l2 l3 _ IH1 _ IH2]; [done| |rewrite !apart_cons, !Forall_cons; tauto|auto].
  rewrite !apart_cons. intros [H1 H2]. split; [by rewrite <- P|auto].
Qed.

Lemma spans_ordered lo bbs :
  StronglySorted (le cmpaddr) bbs -> apart bbs -> Forall bb_ok bbs -> Forall (fun b => lo <= bb_addr b) bbs -> ordered lo (span <$> bbs).
Proof.
  intros Hs. revert lo. induction Hs as [|b bbs Hs IH Hb]; intros lo Ha Hk Hl; [done|].
  apply apart_cons in Ha as [Ha1 Ha2]. apply Forall_cons in Hk as [Hk1 Hk2]. apply Forall_cons in Hl as [Hl1 Hl2].
  destruct Hk1 as (K1 & K2 & K3). simpl. split; [lia|]. apply IH; [done|done|].
  apply Forall_forall. intros c Hc. pose proof (proj1 (Forall_forall _ _) Hb c Hc) as H1. pose proof (proj1 (Forall_forall _ _) Ha1 c Hc) as H2.
  pose proof (proj1 (Forall_forall _ _) Hk2 c Hc) as (K4 & K5 & K6). apply le_cmpaddr in H1. simpl in H2. lia.
Qed.

Lemma add_ranges_run {St} n ps bbs (s : St) :
  Forall bb_ok bbs -> add_ranges (tiny_of n ps) bbs s = Ok (tiny_of (n + Z.of_nat (length bbs)) (joined ps (span <$> bbs))) s.
Proof.
  intros H. revert n ps. induction H as [|b bbs (K1 & K2 & K3) H IH]; intros n ps.
  { simpl. by rewrite Z.add_0_r. }
  cbn [add_ranges]. unfold bb_end. rewrite u64_id by lia.
  rewrite run_bind, (r_tinyrange_add_extend n ps (span b)) by (simpl; lia). cbv beta iota. rewrite IH.
  rewrite fmap_cons. cbn [joined foldl length]. do 2 f_equal. lia.
Qed.

Lemma tiny_of_nil : r_tinyrange_new = tiny_of 0 [].
Proof. done. Qed.

(** What the blocks of a function and its ranges are after an update. *)
Lemma update_tinyrange_run {St} f (s : St) :
  sorted_ok f -> apart (fcn_bbs f) -> Forall bb_ok (fcn_bbs f) ->
  exists f', update_tinyrange_bbs f s = Ok f' s /\ fcn_bbs f' ≡ₚ fcn_bbs f /\ sorted_ok f' /\ fcn_sorted f' = true
    /\ f' = set_fcn_bbr (fcn_bbr f') (sort_bbs f)
    /\ exists n ps, fcn_bbr f' = tiny_of n ps /\ ordered 0 ps /\ forall a, Exists (inside a) ps <-> Exists (fun b => inside a (span b)) (fcn_bbs f).
Proof.
  intros Hs Ha Hk. destruct (sort_bbs_sorts f Hs) as (P & Ss & Sf). unfold update_tinyrange_bbs.
  change (r_tinyrange_fini (fcn_bbr (sort_bbs f))) with (tiny_of 0 []). rewrite run_bind, add_ranges_run by (by rewrite P). cbv beta iota.
  destruct (joined_held 0 [] (span <$> fcn_bbs (sort_bbs f)) 0) as [Ho _].
  { done. }
  { apply spans_ordered; [done|by rewrite P|by rewrite P|]. rewrite P. eapply Forall_impl; [exact Hk|]. intros b (K1 & _). done. }
  eexists. split_and!; [reflexivity|done|by intros _|done|done|].
  eexists _, _. split_and!; [reflexivity|done|]. intros a.
  assert (ordered 0 (span <$> fcn_bbs (sort_bbs f))) as Hos.
  { apply spans_ordered; [done|by rewrite P|by rewrite P|]. rewrite P. eapply Forall_impl; [exact Hk|]. intros b (K1 & _). done. }
  destruct (joined_held 0 [] (span <$> fcn_bbs (sort_bbs f)) a) as [_ ->]; [done|done|].
  rewrite Exists_nil, Exists_fmap, P. tauto.
Qed.

Lemma is_in_offset_inside bb a : bb_ok bb -> r_anal_bb_is_in_offset bb a = true <-> inside a (span bb).
Proof.
  intros (K1 & K2 & K3). unfold r_anal_bb_is_in_offset, bb_end, inside. rewrite u64_id by lia. simpl.
  rewrite andb_true_iff, Z.leb_le, Z.ltb_lt. tauto.
Qed.

(** C11: after [update_tinyrange_bbs], [r_anal_fcn_in] answers, for every address,
    whether a block of the function holds it: for blocks, in any order, of which no two
    share an address ([apart]), that have a positive size and end below [2^64]
    ([bb_ok]), and that do not make exactly two ranges (see
    [r_anal_fcn_in_two_ranges]); the flag of the function that says its blocks are
    sorted has to be true to them ([sorted_ok]). *)
Theorem r_anal_fcn_in_blocks {St} f f' addr (s : St) :
  sorted_ok f -> apart (fcn_bbs f) -> Forall bb_ok (fcn_bbs f) -> update_tinyrange_bbs f s = Ok f' s ->
  pairs (fcn_bbr f') <> 2 ->
  r_anal_fcn_in f' addr s = Ok (Some (existsb (fun bb => r_anal_bb_is_in_offset bb addr) (fcn_bbs f))) s.
Proof.
  intros Hs Ha Hk E Hp. destruct (update_tinyrange_run f s Hs Ha Hk) as (f1 & E1 & _ & _ & _ & _ & n & ps & Eb & Ho & Hx).
  rewrite E in E1. assert (f1 = f') as -> by congruence. unfold r_anal_fcn_in. rewrite Eb in Hp |- *.
  rewrite (r_tinyrange_in_unless_two 0) by (done || (intros Hl; apply Hp; unfold tiny_of; cbn [pairs]; rewrite Hl; done)).
  do 2 f_equal. apply eq_true_iff_eq. unfold held. rewrite bool_decide_eq_true, Hx, existsb_exists, Exists_exists.
  setoid_rewrite <- list_elem_of_In. split; intros (b & Hb & Hi); exists b; (split; [done|]);
    apply is_in_offset_inside; try done; by eapply Forall_forall in Hk.
Qed.

(** When they make two ranges, the second one is not seen. *)
Lemma r_anal_fcn_in_two_ranges {St} f n p q addr (s : St) :
  fcn_bbr f = tiny_of n [p; q] -> p.2 <= q.2 -> r_anal_fcn_in f addr s = Ok (Some (bool_decide (inside addr p))) s.
Proof. intros E H. unfold r_anal_fcn_in. rewrite E. by apply r_tinyrange_in_two. Qed.

(** ** Splitting *)

Lemma split_count_run {St} bbi ds1 ds2 j (s : St) :
  instrs bbi (ds1 ++ ds2) -> Forall (fun d => d < bb_size bbi) ds1 ->
  (forall d, ds2 !! 0%nat = Some d -> bb_size bbi <= d) -> (j <= length ds1)%nat ->
  split_count (length ds1 + length ds2 - j) bbi (Z.of_nat j) s = Ok (Z.of_nat (length ds1)) s.
Proof.
  intros Hi H1 H2 Hj. remember (length ds1 - j)%nat as k eqn:Ek. revert j Hj Ek. induction k as [|k IH]; intros j Hj Ek.
  - assert (j = length ds1) as -> by lia. replace (length ds1 + length ds2 - length ds1)%nat with (length ds2) by lia.
    destruct ds2 as [|d ds2]; [done|]. cbn [length split_count].
    rewrite run_bind, (offset_inst_run bbi (ds1 ++ d :: ds2) _ d s Hi) by (rewrite lookup_app_r, Nat.sub_diag; done).
    cbv beta iota. rewrite (proj2 (Z.ltb_ge _ _)) by (by apply H2). done.
  - destruct (length ds1 + length ds2 - j)%nat as [|n] eqn:En; [lia|]. cbn [split_count].
    destruct (lookup_lt_is_Some_2 ds1 j ltac:(lia)) as [d Ed].
    rewrite run_bind, (offset_inst_run bbi (ds1 ++ ds2) _ d s Hi) by (rewrite lookup_app_l; (done || lia)).
    cbv beta iota. rewrite (proj2 (Z.ltb_lt _ _)) by (by eapply (Forall_lookup_1 _ _ j) in H1).
    replace (Z.of_nat j + 1) with (Z.of_nat (S j)) by lia. replace n with (length ds1 + length ds2 - S j)%nat by lia.
    apply IH; lia.
Qed.

(** Blocks that differ in nothing but the table of offsets. *)
Definition same_but_pos (b b' : RAnalBlock) : Prop :=
  bb_addr b = bb_addr b' /\ bb_size b = bb_size b' /\ bb_jump b = bb_jump b' /\ bb_fail b = bb_fail b' /\ bb_type b = bb_type b'.

Lemma set_offset_same bb i v m : same_but_pos bb (set_bb_ninstr m (r_anal_bb_set_offset bb i v)).
Proof. unfold r_anal_bb_set_offset. destruct (_ && _); done. Qed.
#[export] Instance same_but_pos_trans : Transitive same_but_pos.
Proof. intros a b c (?&?&?&?&?) (?&?&?&?&?). split_and!; congruence. Qed.

Lemma set_offset_ninstr bb i v m :
  set_bb_ninstr m (r_anal_bb_set_offset bb i v) = r_anal_bb_set_offset (set_bb_ninstr m bb) i v.
Proof. unfold r_anal_bb_set_offset. destruct (_ && _); done. Qed.

Lemma set_offset_keeps_ninstr bb i v : bb_ninstr (r_anal_bb_set_offset bb i v) = bb_ninstr bb.
Proof. unfold r_anal_bb_set_offset. destruct (_ && _); done. Qed.

Lemma rising_mono lo lo' ds : lo' <= lo -> rising lo ds -> rising lo' ds.
Proof. intros Hl. destruct ds as [|d ds]; simpl; [done|]. intros [H1 H2]. split; [lia|done]. Qed.

(** The instructions [rest] go to [bb], after those it has. *)
Lemma split_move_run {St} bbi bb pre acc rest (s : St) :
  let sz := bb_size bbi in
  instrs bbi (pre ++ rest) -> Forall (fun d => d < sz + bb_size bb) rest -> sz + bb_size bb <= 2 ^ 16 -> 0 <= sz -> instrs bb acc ->
  rising (match acc with [] => sz | _ => sz + 1 end) rest -> (acc = [] -> forall d, rest !! 0%nat = Some d -> d = sz) ->
  exists bb', split_move (length rest) bbi bb (Z.of_nat (length pre)) s = Ok bb' s
    /\ instrs bb' (acc ++ ((fun d => d - sz) <$> rest)) /\ same_but_pos bb bb'.
Proof.
  intros sz. revert bb pre acc. induction rest as [|d rest IH]; intros bb pre acc Hi Hr H16 Hsz Hb Hri Hz.
  { exists bb. rewrite fmap_nil, app_nil_r. split_and!; done. }
  cbn [length split_move].
  rewrite run_bind, (offset_inst_run bbi (pre ++ d :: rest) _ d s Hi) by (rewrite lookup_app_r, Nat.sub_diag; done). cbv beta iota zeta.
  apply Forall_cons in Hr as [Hr1 Hr2]. fold sz. rewrite (proj2 (Z.leb_gt _ _)) by lia. destruct Hri as [Hd1 Hri].
  assert (sz <= d) as Hsd by (destruct acc; lia).
  rewrite u16_id, set_offset_keeps_ninstr by lia.
  set (bb1 := set_bb_ninstr _ (r_anal_bb_set_offset _ _ _)).
  assert (instrs bb1 (acc ++ [d - sz])) as Hb1.
  { unfold bb1. rewrite set_offset_ninstr. apply set_offset_instrs; [done| |done].
    destruct acc as [|x acc]; [left; split; [done|]; rewrite (Hz eq_refl d eq_refl); lia|right; split; [done|lia]]. }
  assert (same_but_pos bb bb1) as Hs1 by apply set_offset_same. pose proof Hs1 as (_ & Es & _).
  destruct (IH bb1 (pre ++ [d]) (acc ++ [d - sz])) as (bb' & E & Hb' & Hs').
  - by rewrite <- app_assoc.
  - by rewrite <- Es.
  - by rewrite <- Es.
  - done.
  - done.
  - destruct (acc ++ [d - sz]) eqn:Ea; [by destruct acc|]. apply (rising_mono (d + 1)); [lia|done].
  - intros Ea. by destruct acc.
  - rewrite length_app, Nat2Z.inj_add in E. exists bb'. rewrite <- app_assoc in Hb'. split_and!; [exact E|exact Hb'|by transitivity bb1].
Qed.

Lemma instrs_same b b' ds : bb_ninstr b = bb_ninstr b' -> bb_op_pos b = bb_op_pos b' -> instrs b ds -> instrs b' ds.
Proof. intros E1 E2 [H1 H2 H3]. split; [congruence|done|by rewrite <- E2]. Qed.

Lemma instrs_prefix b ds1 ds2 : instrs b (ds1 ++ ds2) -> instrs (set_bb_ninstr (Z.of_nat (length ds1)) b) ds1.
Proof.
  intros [H1 H2 H3]. split; [done| |].
  - intros d E. apply H2. by apply lookup_app_l_Some.
  - intros i d E. apply H3. by apply lookup_app_l_Some.
Qed.

Lemma rising_app_lt lo ds1 d ds2 : rising lo (ds1 ++ d :: ds2) -> Forall (fun x => x < d) ds1 /\ rising (d + 1) ds2 /\ lo <= d.
Proof.
  revert lo. induction ds1 as [|x ds1 IH]; intros lo; simpl; intros [H1 H2]; [by split_and!; [constructor|..]|]. destruct (IH _ H2) as (H3 & H4 & H5).
  split_and!; [constructor; [lia|done]|done|lia].
Qed.

(** The two blocks that a split leaves. *)
Record split_of (addr : Z) (old left right : RAnalBlock) (ds1 ds2 : list Z) : Prop := {
  so_left : span left = (bb_addr old, addr);
  so_right : span right = (addr, bb_addr old + bb_size old);
  so_left_instrs : instrs left ds1;
  so_right_instrs : instrs right ((fun d => d - (addr - bb_addr old)) <$> ds2);
  so_left_jump : bb_jump left = addr /\ bb_fail left = UT64_MAX;
  so_right_jump : bb_jump right = bb_jump old /\ bb_fail right = bb_fail old
}.

Lemma split_at_run {St} addr bbi bb ds1 ds2 (s : St) :
  bb_ok bbi -> bb_size bbi <= 2 ^ 16 -> bb_addr bbi < addr < bb_addr bbi + bb_size bbi ->
  instrs bbi (ds1 ++ ds2) -> rising 0 (ds1 ++ ds2) -> Forall (fun d => d < bb_size bbi) ds2 ->
  ds2 !! 0%nat = Some (addr - bb_addr bbi) -> bb_addr bb = addr -> bb_op_pos bb = bb_op_pos r_anal_bb_new ->
  exists left right, split_at addr bbi bb s = Ok (left, right) s /\ split_of addr bbi left right ds1 ds2.
Proof.
  intros (K1 & K2 & K3) Hsz Ha Hi Hr Hlt Hd Hbb Hpos. unfold split_at.
  replace (s32 (u64 (bb_addr bbi + bb_size bbi - addr))) with (bb_addr bbi + bb_size bbi - addr) by (rewrite u64_id, s32_id by lia; lia).
  replace (s32 (u64 (addr - bb_addr bbi))) with (addr - bb_addr bbi) by (rewrite u64_id, s32_id by lia; lia).
  destruct ds2 as [|d0 ds2]; [done|]. injection Hd as ->.
  destruct (rising_app_lt _ _ _ _ Hr) as (Hlt1 & Hri & _).
  set (pair := if z2b (Z.land _ _) then _ else _).
  assert (exists right0 left0, pair = (right0, left0) /\ span left0 = (bb_addr bbi, addr) /\ span right0 = (addr, bb_addr bbi + bb_size bbi)
    /\ bb_ninstr left0 = bb_ninstr bbi /\ bb_op_pos left0 = bb_op_pos bbi /\ bb_op_pos right0 = bb_op_pos bb
    /\ (bb_jump left0 = addr /\ bb_fail left0 = UT64_MAX) /\ (bb_jump right0 = bb_jump bbi /\ bb_fail right0 = bb_fail bbi))
    as (right0 & left0 & -> & Sl & Sr & Nl & Pl & Pr & Jl & Jr).
  { unfold pair. destruct (z2b _); eexists _, _; split_and!; try reflexivity; unfold span; cbn; f_equal; lia. }
  cbv beta iota.
  assert (instrs left0 (ds1 ++ (addr - bb_addr bbi) :: ds2)) as Il by (by apply (instrs_same bbi)).
  assert (bb_addr left0 = bb_addr bbi /\ bb_size left0 = addr - bb_addr bbi) as [Al Zl] by (injection Sl; lia).
  assert (bb_addr right0 = addr /\ bb_size right0 = bb_addr bbi + bb_size bbi - addr) as [Ar Zr] by (injection Sr; lia).
  rewrite (in_n _ _ Il), Nat2Z.id, length_app. cbn [length].
  rewrite run_bind. change 0 with (Z.of_nat 0) at 1.
  pose proof (split_count_run left0 ds1 ((addr - bb_addr bbi) :: ds2) 0 s Il) as E. rewrite Nat.sub_0_r in E. cbn [length] in E.
  rewrite E; [|by rewrite Zl|by intros d [= <-]; lia|lia]. cbv beta iota.
  rewrite run_bind, (offset_inst_run left0 (ds1 ++ (addr - bb_addr bbi) :: ds2) _ (addr - bb_addr bbi) s Il) by (rewrite lookup_app_r, Nat.sub_diag; done).
  cbv beta iota. rewrite Ar, Al, u64_id, Z.eqb_refl by lia. rewrite run_bind.
  replace (Z.to_nat (Z.of_nat (length ds1 + S (length ds2)) - Z.of_nat (length ds1))) with (length ((addr - bb_addr bbi) :: ds2)) by (simpl; lia).
  destruct (split_move_run left0 (set_bb_ninstr 0 right0) ds1 [] ((addr - bb_addr bbi) :: ds2) s) as (right1 & E1 & Ir & Sb).
  - done.
  - rewrite Zl. cbn [bb_size set_bb_ninstr]. rewrite Zr. eapply Forall_impl; [exact Hlt|]. simpl. lia.
  - rewrite Zl. cbn [bb_size set_bb_ninstr]. rewrite Zr. lia.
  - rewrite Zl. lia.
  - split; [done|done|]. intros i d Ed. done.
  - rewrite Zl. split; [lia|done].
  - rewrite Zl. by intros _ d [= <-].
  - rewrite E1. cbv beta iota. eexists _, right1. split; [reflexivity|]. destruct Sb as (B1 & B2 & B3 & B4 & B5).
    cbn [bb_addr bb_size bb_jump bb_fail set_bb_ninstr] in B1, B2, B3, B4. rewrite Zl in Ir. split.
    + done.
    + unfold span in *. rewrite <- B1, <- B2. done.
    + by apply (instrs_prefix _ _ ((addr - bb_addr bbi) :: ds2)).
    + done.
    + done.
    + by rewrite <- B3, <- B4.
Qed.

Lemma split_scan_run bbs addr i k bbi :
  apart bbs -> Forall bb_ok bbs -> bbs !! i = Some bbi -> bb_addr bbi < addr < bb_addr bbi + bb_size bbi ->
  split_scan bbs addr k = Some ((k + i)%nat, false).
Proof.
  revert i k. induction bbs as [|b bbs IH]; intros i k Ha Hk E Hi; [done|].
  apply apart_cons in Ha as [Ha1 Ha2]. apply Forall_cons in Hk as [(K1 & K2 & K3) Hk]. cbn [split_scan].
  destruct i as [|i]; simpl in E.
  - injection E as <-. unfold bb_end. rewrite u64_id by lia. rewrite (proj2 (Z.eqb_neq _ _)), (proj2 (Z.ltb_lt _ _)), (proj2 (Z.ltb_lt _ _)) by lia.
    simpl. do 2 f_equal. lia.
  - pose proof (Forall_lookup_1 _ _ _ _ Ha1 E) as Hd. simpl in Hd. unfold bb_end. rewrite u64_id by lia. rewrite (proj2 (Z.eqb_neq _ _)) by lia.
    replace ((bb_addr b <? addr) && (addr <? bb_addr b + bb_size b)) with false.
    + rewrite (IH i) by done. do 2 f_equal. lia.
    + symmetry. apply andb_false_iff. rewrite !Z.ltb_ge. lia.
Qed.

(** C12: [r_anal_fcn_split_bb] at an instruction inside a block leaves two blocks
    in its place, one up to the address and a new one from there to the end, that
    share the instructions between them; the second one takes the successors, and
    the first one jumps to it.  The other blocks stay, and together the blocks
    hold the same addresses. *)
Theorem r_anal_fcn_split_bb_parts {St} f addr i bbi ds1 ds2 (s : St) :
  apart (fcn_bbs f) -> Forall bb_ok (fcn_bbs f) -> fcn_bbs f !! i = Some bbi ->
  bb_addr bbi < addr < bb_addr bbi + bb_size bbi -> bb_size bbi <= 2 ^ 16 ->
  instrs bbi (ds1 ++ ds2) -> rising 0 (ds1 ++ ds2) -> Forall (fun d => d < bb_size bbi) ds2 ->
  ds2 !! 0%nat = Some (addr - bb_addr bbi) ->
  exists f' left right, r_anal_fcn_split_bb f addr s = Ok (R_ANAL_RET_END, f') s
    /\ split_of addr bbi left right ds1 ds2 /\ fcn_bbs f' = <[i := left]> (fcn_bbs f) ++ [right]
    /\ apart (fcn_bbs f') /\ Forall bb_ok (fcn_bbs f')
    /\ forall a, Exists (fun b => inside a (span b)) (fcn_bbs f') <-> Exists (fun b => inside a (span b)) (fcn_bbs f).
Proof.
  intros Ha Hk E Hin Hsz Hi Hr Hlt Hd. pose proof (Forall_lookup_1 _ _ _ _ Hk E) as (K1 & K2 & K3).
  pose proof (lookup_lt_Some _ _ _ E) as Hl. set (bb := set_bb_type 0 (set_bb_fail UT64_MAX (set_bb_jump UT64_MAX (set_bb_size 0 (set_bb_addr addr r_anal_bb_new))))).
  destruct (split_at_run addr bbi bb ds1 ds2 s) as (left & right & Es & So); try done.
  exists (set_fcn_bbs (<[i := left]> (fcn_bbs f) ++ [right]) false f), left, right. split_and!; [|done|done|..].
  - unfold r_anal_fcn_split_bb. rewrite (proj2 (Z.eqb_neq _ _)) by (unfold UT64_MAX; lia).
    rewrite (split_scan_run _ addr i 0 bbi) by done. cbv beta iota zeta. unfold appendBasicBlock, r_anal_fcn_bbadd. fold bb.
    cbn [fcn_bbs set_fcn_bbs]. rewrite length_app. cbn [length]. replace (pred (length (fcn_bbs f) + 1)) with (length (fcn_bbs f) + 0)%nat by lia.
    change (0 + i)%nat with i. rewrite (lookup_app_l _ _ i), E by lia. rewrite (lookup_app_r _ _ (length (fcn_bbs f) + 0)) by lia.
    replace (length (fcn_bbs f) + 0 - length (fcn_bbs f))%nat with 0%nat by lia. cbn [lookup list_lookup].
    rewrite run_bind, Es. cbv beta iota. rewrite insert_app_r, insert_app_l by lia. done.
  - destruct So as [Sl Sr _ _ _ _]. injection Sl as Al Zl. injection Sr as Ar Zr.
    assert (forall j b, j <> i -> fcn_bbs f !! j = Some b -> bb_addr bbi + bb_size bbi <= bb_addr b \/ bb_addr b + bb_size b <= bb_addr bbi) as Hj.
    { intros j b Hne Ej. apply (Ha i j); (done || lia). }
    cbn [fcn_bbs set_fcn_bbs]. rewrite (Permutation_app_comm _ [right]). cbn [app]. apply apart_cons. split.
    + apply Forall_lookup. intros j b Ej. destruct (decide (j = i)) as [->|Hne].
      * rewrite list_lookup_insert_eq in Ej by done. injection Ej as <-. lia.
      * rewrite list_lookup_insert_ne in Ej by done. pose proof (Forall_lookup_1 _ _ _ _ Hk Ej) as (? & ? & ?). specialize (Hj j b Hne Ej). lia.
    + intros j k a b Hne Ej Ek. destruct (decide (j = i)) as [->|Hji]; [|destruct (decide (k = i)) as [->|Hki]].
      * rewrite list_lookup_insert_eq in Ej by done. injection Ej as <-. rewrite list_lookup_insert_ne in Ek by done. specialize (Hj k b ltac:(done) Ek). lia.
      * rewrite list_lookup_insert_eq in Ek by done. injection Ek as <-. rewrite list_lookup_insert_ne in Ej by done. specialize (Hj j a ltac:(done) Ej). lia.
      * rewrite list_lookup_insert_ne in Ej by done. rewrite list_lookup_insert_ne in Ek by done. by apply (Ha j k).
  - destruct So as [Sl Sr _ _ _ _]. injection Sl as Al Zl. injection Sr as Ar Zr. cbn [fcn_bbs set_fcn_bbs]. apply Forall_app. split.
    + apply Forall_insert; [done|]. unfold bb_ok. lia.
    + constructor; [|done]. unfold bb_ok. lia.
  - intros a. destruct So as [Sl Sr _ _ _ _]. cbn [fcn_bbs set_fcn_bbs]. rewrite Exists_app, Exists_cons, Exists_nil, Sr.
    rewrite <- (take_drop_middle (fcn_bbs f) i bbi E) at 2. rewrite insert_take_drop by done.
    rewrite !Exists_app, !Exists_cons, Sl.
    assert (inside a (bb_addr bbi, addr) \/ inside a (addr, bb_addr bbi + bb_size bbi) <-> inside a (span bbi)); [|tauto].
    unfold inside, span. cbn [fst snd]. lia.
Qed.

(** ** Resizing *)

Lemma add_ranges_total {St} n ps bbs (s : St) : exists n' ps', add_ranges (tiny_of n ps) bbs s = Ok (tiny_of n' ps') s.
Proof.
  revert n ps. induction bbs as [|b bbs IH]; intros n ps; [by exists n, ps|]. cbn [add_ranges].
  destruct (decide (bb_addr b < bb_end b)) as [H|H].
  - rewrite run_bind, (r_tinyrange_add_extend n ps (bb_addr b, bb_end b)) by done. apply IH.
  - rewrite run_bind, r_tinyrange_add_empty by lia. apply IH.
Qed.

Lemma update_tinyrange_total {St} f (s : St) : exists bbr, update_tinyrange_bbs f s = Ok (set_fcn_bbr bbr (sort_bbs f)) s.
Proof.
  unfold update_tinyrange_bbs. destruct (add_ranges_total 0 [] (fcn_bbs (sort_bbs f)) s) as (n & ps & E).
  change (r_tinyrange_fini _) with (tiny_of 0 []). exists (tiny_of n ps). rewrite run_bind, E. done.
Qed.

Lemma sort_bbs_perm f : fcn_bbs (sort_bbs f) ≡ₚ fcn_bbs f.
Proof. unfold sort_bbs. destruct (fcn_sorted f); [done|]. by destruct (sorted_data_sorts cmpaddr (fcn_bbs f) _ _). Qed.

Lemma sort_bbs_fields f : fcn_addr (sort_bbs f) = fcn_addr f /\ fcn_size (sort_bbs f) = fcn_size f /\ fcn_type (sort_bbs f) = fcn_type f.
Proof. unfold sort_bbs. by destruct (fcn_sorted f). Qed.

Lemma resize_run {St} f n (s : St) :
  exists f', r_anal_fcn_resize f n s = Ok (negb (n <? 1), f') s /\ fcn_addr f' = fcn_addr f /\ fcn_type f' = fcn_type f
    /\ fcn_size f' = (if n <? 1 then fcn_size f else u32 n).
Proof.
  unfold r_anal_fcn_resize. destruct (n <? 1); [by exists f|]. cbv zeta.
  match goal with |- context [update_tinyrange_bbs ?g] => destruct (update_tinyrange_total g s) as [bbr E]; destruct (sort_bbs_fields g) as (H1 & H2 & H3) end.
  rewrite run_bind, E. eexists. split; [reflexivity|]. cbn [fcn_addr fcn_size fcn_type set_fcn_bbr]. by rewrite H1, H2, H3.
Qed.

(** What a block keeps to in a function that ends at [eof]. *)
Definition below (eof : Z) (bb : RAnalBlock) : Prop :=
  bb_addr bb < eof /\ bb_addr bb + bb_size bb <= eof /\ (bb_jump bb = UT64_MAX \/ bb_jump bb < eof) /\ (bb_fail bb = UT64_MAX \/ bb_fail bb < eof).

Lemma resize_bb_below eof bb bb' :
  bb_ok bb -> bb_size bb < 2 ^ 31 -> eof < 2 ^ 64 -> resize_bb eof bb = Some bb' ->
  below eof bb' /\ bb_ok bb' /\ bb_addr bb' = bb_addr bb /\ bb_size bb' = Z.min (bb_size bb) (eof - bb_addr bb).
Proof.
  intros (K1 & K2 & K3) Hs He. unfold resize_bb, bb_end. rewrite u64_id by lia.
  destruct (Z.leb_spec eof (bb_addr bb)) as [|H]; [done|]. intros E. apply (inj Some) in E.
  revert E. destruct (Z.leb_spec eof (bb_addr bb + bb_size bb)).
  - rewrite u64_id, s32_id by lia. cbn [bb_jump set_bb_size]. intros <-.
    destruct (Z.eqb_spec (bb_jump bb) UT64_MAX), (Z.leb_spec eof (bb_jump bb)); cbn [negb andb bb_fail set_bb_size set_bb_jump];
    destruct (Z.eqb_spec (bb_fail bb) UT64_MAX), (Z.leb_spec eof (bb_fail bb)); cbn [negb andb]; unfold below, bb_ok; cbn; lia.
  - intros <-. destruct (Z.eqb_spec (bb_jump bb) UT64_MAX), (Z.leb_spec eof (bb_jump bb)); cbn [negb andb bb_fail set_bb_size set_bb_jump];
    destruct (Z.eqb_spec (bb_fail bb) UT64_MAX), (Z.leb_spec eof (bb_fail bb)); cbn [negb andb]; unfold below, bb_ok; cbn; lia.
Qed.

Lemma resize_bb_none eof bb : resize_bb eof bb = None <-> eof <= bb_addr bb.
Proof. unfold resize_bb. destruct (Z.leb_spec eof (bb_addr bb)); [tauto|]. split; [done|lia]. Qed.

(** [r_anal_fcn_resize] leaves, of the addresses that the blocks of the
    function hold, those below its new end: blocks after it are removed, the block
    across it is cut, and no jump out of a block leads past it any more. *)
Theorem r_anal_fcn_resize_cuts {St} f n (s : St) :
  Forall (fun b => bb_ok b /\ bb_size b < 2 ^ 31) (fcn_bbs f) -> 1 <= n < 2 ^ 31 -> 0 <= fcn_addr f -> fcn_addr f + n < 2 ^ 64 ->
  exists f', r_anal_fcn_resize f n s = Ok (true, f') s /\ fcn_size f' = n /\ Forall (below (fcn_addr f + n)) (fcn_bbs f')
    /\ forall a, Exists (fun b => inside a (span b)) (fcn_bbs f') <-> a < fcn_addr f + n /\ Exists (fun b => inside a (span b)) (fcn_bbs f).
Proof.
  intros Hk Hn Ha He. unfold r_anal_fcn_resize. rewrite (proj2 (Z.ltb_ge _ _)) by lia. cbv zeta.
  unfold r_anal_fcn_size, r_anal_fcn_set_size. cbn [fcn_addr fcn_size set_fcn_size fcn_bbs fcn_sorted].
  rewrite (u32_id n), u64_id by lia. set (g := set_fcn_bbs _ _ _).
  destruct (update_tinyrange_total g s) as [bbr E]. rewrite run_bind, E. eexists. split; [reflexivity|].
  cbn [fcn_size fcn_bbs set_fcn_bbr]. destruct (sort_bbs_fields g) as (_ & -> & _). split; [done|].
  pose proof (sort_bbs_perm g) as P. change (fcn_bbs g) with (omap (resize_bb (fcn_addr f + n)) (fcn_bbs f)) in P.
  split; [|intros a]; rewrite P.
  - apply Forall_forall. intros b' (b & Hb & Eb)%list_elem_of_omap. pose proof (proj1 (Forall_forall _ _) Hk b Hb) as [K1 K2].
    by apply (resize_bb_below _ b b').
  - rewrite !Exists_exists. split.
    + intros (b' & (b & Hb & Eb)%list_elem_of_omap & Hi). pose proof (proj1 (Forall_forall _ _) Hk b Hb) as [K1 K2].
      destruct (resize_bb_below _ b b' K1 K2 He Eb) as (_ & _ & E1 & E2). unfold inside, span in *. cbn [fst snd] in *.
      split; [lia|]. exists b. split; [done|lia].
    + intros (Hlt & b & Hb & Hi). pose proof (proj1 (Forall_forall _ _) Hk b Hb) as [K1 K2].
      destruct (resize_bb (fcn_addr f + n) b) as [b'|] eqn:Eb.
      * destruct (resize_bb_below _ b b' K1 K2 He Eb) as (_ & _ & E1 & E2). exists b'. split; [by apply list_elem_of_omap; exists b|].
        unfold inside, span in *. cbn [fst snd] in *. lia.
      * apply resize_bb_none in Eb. unfold inside, span in Hi. cbn [fst snd] in Hi. lia.
Qed.

(** ** The functions of the analysis *)

Lemma position_none {A} (p : A -> bool) l i : position p l i = None <-> Forall (fun x => p x = false) l.
Proof.
  revert i. induction l as [|x l IH]; intros i; simpl; [by rewrite Forall_nil|]. rewrite Forall_cons.
  destruct (p x); [split; [done|intros [? _]; done]|]. rewrite IH. tauto.
Qed.

Lemma position_some {A} (p : A -> bool) l i k : position p l i = Some k -> exists x, (i <= k)%nat /\ l !! (k - i)%nat = Some x /\ p x = true.
Proof.
  revert i. induction l as [|x l IH]; intros i; simpl; [done|]. destruct (p x) eqn:E.
  - intros [= <-]. exists x. rewrite Nat.sub_diag. done.
  - intros H. destruct (IH _ H) as (y & H1 & H2 & H3). exists y. split; [lia|]. split; [|done]. by replace (k - i)%nat with (S (k - S i)) by lia.
Qed.

Lemma root_at_some a addr i : root_at a addr = Some i -> exists f, an_fcns a !! i = Some f /\ fcn_addr f = addr.
Proof. intros (f & _ & E & H)%position_some. rewrite Nat.sub_0_r in E. exists f. split; [done|]. by apply Z.eqb_eq in H. Qed.

Lemma root_at_none a addr : root_at a addr = None -> addr ∉ fcn_addr <$> an_fcns a.
Proof.
  intros H%position_none. rewrite list_elem_of_fmap. intros (f & -> & Hf). eapply Forall_forall in H; [|exact Hf]. by rewrite Z.eqb_refl in H.
Qed.

(** No two functions start at one address. *)
Definition distinct (a : RAnal) : Prop := NoDup (fcn_addr <$> an_fcns a).

(** A call that changes the list. *)
Inductive anal_call : RAnal -> RAnal -> Prop :=
  | call_insert f a b a' : r_anal_fcn_insert f a = Ok b a' -> anal_call a a'
  | call_add addr size name type diff a b a' : r_anal_fcn_add addr size name type diff a = Ok b a' -> anal_call a a'
  | call_del addr a b a' : r_anal_fcn_del addr a = Ok b a' -> anal_call a a'
  | call_del_locs addr a b a' : r_anal_fcn_del_locs addr a = Ok b a' -> anal_call a a'
  | call_fit fcn a a' : r_anal_fcn_fit_overlaps fcn a = Ok tt a' -> anal_call a a'.

Lemma distinct_sublist a l : distinct a -> sublist l (an_fcns a) -> NoDup (fcn_addr <$> l).
Proof. intros H Hl. eapply sublist_NoDup; [exact H|]. by apply fmap_sublist. Qed.

Lemma insert_distinct f a b a' : distinct a -> r_anal_fcn_insert f a = Ok b a' -> distinct a'.
Proof.
  unfold r_anal_fcn_insert. mrun. unfold r_anal_get_fcn_at. cbn [Z.eqb R_ANAL_FCN_TYPE_ROOT]. intros Ha.
  change (R_ANAL_FCN_TYPE_ROOT =? R_ANAL_FCN_TYPE_ROOT) with true. cbv iota.
  destruct (root_at a (fcn_addr f)) eqn:E; [intros H; inversion H; by subst|].
  mrun. intros H. inversion H; subst. unfold distinct. cbn [an_fcns set_an_fcns]. rewrite fmap_app. apply NoDup_app. split_and!; [done| |].
  - intros x Hx Hx'. apply list_elem_of_singleton in Hx' as ->. by apply (root_at_none _ _ E).
  - apply NoDup_singleton.
Qed.

Lemma fcn_addr_fill a addr size name type diff f : fcn_addr (fill_fcn a addr size name type diff f) = addr.
Proof. unfold fill_fcn. by destruct diff. Qed.

Lemma add_distinct addr size name type diff a b a' : distinct a -> r_anal_fcn_add addr size name type diff a = Ok b a' -> distinct a'.
Proof.
  unfold r_anal_fcn_add. intros Ha. destruct (size <? 1); [intros H; inversion H; by subst|]. mrun.
  unfold r_anal_get_fcn_in. change (R_ANAL_FCN_TYPE_ROOT =? R_ANAL_FCN_TYPE_ROOT) with true. mrun.
  destruct (root_at a addr) as [i|] eqn:E; [|by apply insert_distinct]. mrun. intros H. inversion H; subst.
  unfold distinct. cbn [an_fcns set_an_fcns]. destruct (root_at_some _ _ _ E) as (f & Ef & Hf).
  replace (fcn_addr <$> alter _ i (an_fcns a)) with (fcn_addr <$> an_fcns a); [done|].
  apply list_eq. intros j. rewrite !list_lookup_fmap. destruct (decide (i = j)) as [->|Hne].
  - rewrite list_lookup_alter_eq, Ef. change (Some (fcn_addr f) = Some (fcn_addr (fill_fcn a addr size name type diff f))). by rewrite fcn_addr_fill, Hf.
  - by rewrite list_lookup_alter_ne.
Qed.

Lemma filter_sub {A} (p : A -> bool) l : sublist (List.filter p l) l.
Proof. induction l as [|x l IH]; simpl; [constructor|]. destruct (p x); by constructor. Qed.

Lemma del_distinct addr a b a' : distinct a -> r_anal_fcn_del addr a = Ok b a' -> distinct a'.
Proof.
  unfold r_anal_fcn_del. intros Ha. destruct (addr =? UT64_MAX); mrun; intros H; inversion H; subst; unfold distinct; cbn [an_fcns set_an_fcns].
  - constructor.
  - apply (distinct_sublist a); [done|apply filter_sub].
Qed.

Lemma del_locs_scan_sublist {S} fcns f k i gone (s s' : S) l : del_locs_scan fcns f k i gone s = Ok l s' -> sublist l fcns /\ s' = s.
Proof.
  revert i gone l. induction fcns as [|g fcns IH]; intros i gone l; cbn [del_locs_scan].
  { intros H. inversion H. split; [constructor|done]. }
  assert (forall l gone i, (rest ← del_locs_scan fcns f k i gone; mret (g :: rest)) s = Ok l s' -> sublist l (g :: fcns) /\ s' = s) as Hk.
  { intros l1 gone1 i1. rewrite run_bind. destruct (del_locs_scan fcns f k i1 gone1 s) as [rest s1|] eqn:E; [|done].
    intros H. inversion H; subst. destruct (IH _ _ _ E) as [H1 H2]. split; [by constructor|done]. }
  destruct (negb _); [apply Hk|]. destruct gone; [done|]. destruct (_ && _); [|apply Hk].
  intros H. destruct (IH _ _ _ H) as [H1 H2]. split; [by constructor|done].
Qed.

Lemma del_locs_distinct addr a b a' : distinct a -> r_anal_fcn_del_locs addr a = Ok b a' -> distinct a'.
Proof.
  unfold r_anal_fcn_del_locs. intros Ha. mrun. destruct (root_at a addr) as [i|]; [|intros H; inversion H; by subst].
  destruct (an_fcns a !! i) as [f|]; [|intros H; inversion H; by subst]. rewrite run_bind.
  destruct (del_locs_scan (an_fcns a) f i 0 false a) as [l s|] eqn:E; [|done]. destruct (del_locs_scan_sublist _ _ _ _ _ _ _ _ E) as [Hl ->].
  mrun. destruct (r_anal_fcn_del addr (set_an_fcns l a)) as [b1 a1|] eqn:Ed; [|done]. intros H. inversion H; subst.
  eapply del_distinct; [|exact Ed]. unfold distinct. cbn [an_fcns set_an_fcns]. by apply (distinct_sublist a).
Qed.

(** *** The next function *)

Definition nearest (fcns : list RAnalFunction) (addr : Z) (c : option (nat * Z)) : Prop :=
  match c with
  | None => Forall (fun f => fcn_addr f <= addr) fcns
  | Some (_, n) => addr < n /\ n ∈ fcn_addr <$> fcns /\ Forall (fun f => fcn_addr f <= addr \/ n <= fcn_addr f) fcns
  end.

Lemma next_scan_nearest seen fcns addr i c : nearest seen addr c -> nearest (seen ++ fcns) addr (next_scan fcns addr i c).
Proof.
  revert seen i c. induction fcns as [|f fcns IH]; intros seen i c H; [by rewrite app_nil_r|].
  cbn [next_scan]. replace (seen ++ f :: fcns) with ((seen ++ [f]) ++ fcns) by (by rewrite <- app_assoc). apply IH.
  assert (forall l x, fcn_addr f ∈ fcn_addr <$> l ++ [f] /\ (x ∈ fcn_addr <$> l -> x ∈ fcn_addr <$> l ++ [f])) as He.
  { intros l x. rewrite fmap_app, !elem_of_app. split; [right; by apply list_elem_of_singleton|by left]. }
  destruct c as [[k n]|]; unfold nearest in *.
  - destruct H as (H1 & H2 & H3). destruct (Z.ltb_spec addr (fcn_addr f)), (Z.ltb_spec (fcn_addr f) n); cbn [andb]; cbv iota;
      (split; [lia|]); (split; [first [by apply (He seen n)|apply (He seen 0)]|]); apply Forall_app; (split; [eapply Forall_impl; [exact H3|]; simpl; lia|constructor; [lia|done]]).
  - destruct (Z.ltb_spec addr (fcn_addr f)); cbn [andb]; cbv iota.
    + split; [lia|]. split; [apply (He seen 0)|]. apply Forall_app. split; [eapply Forall_impl; [exact H|]; simpl; lia|constructor; [lia|done]].
    + apply Forall_app. split; [done|constructor; [lia|done]].
Qed.

Lemma r_anal_fcn_next_nearest a addr : nearest (an_fcns a) addr (r_anal_fcn_next a addr).
Proof. apply (next_scan_nearest []). constructor. Qed.

(** *** Fitting *)

(** The function ends where the functions after it start, or before. *)
Definition fits (a : RAnal) (f : RAnalFunction) : Prop :=
  Forall (fun g => fcn_addr f < fcn_addr g -> fcn_addr f + fcn_size f <= fcn_addr g) (an_fcns a).
Definition fcn_ok (f : RAnalFunction) : Prop := 0 <= fcn_addr f /\ 0 <= fcn_size f < 2 ^ 31 /\ fcn_addr f + fcn_size f < 2 ^ 64.

Lemma fcnfit_run i f a :
  an_fcns a !! i = Some f -> fcn_ok f ->
  exists f', fcnfit i a = Ok tt (set_an_fcns (<[i := f']> (an_fcns a)) a) /\ fcn_addr f' = fcn_addr f /\ fcn_ok f' /\ fits a f'.
Proof.
  intros E (K1 & K2 & K3). unfold fcnfit. mrun. unfold id. rewrite E.
  assert (Ok tt a = Ok tt (set_an_fcns (<[i := f]> (an_fcns a)) a)) as Esame.
  { rewrite list_insert_id by done. by destruct a. }
  pose proof (r_anal_fcn_next_nearest a (fcn_addr f)) as Hn. destruct (r_anal_fcn_next a (fcn_addr f)) as [[k n]|].
  2:{ exists f. split_and!; [exact Esame|done|done|]. eapply Forall_impl; [exact Hn|]. simpl. lia. }
  destruct Hn as (Hn1 & Hn2 & Hn3). unfold r_anal_fcn_size. rewrite u64_id by lia. destruct (Z.ltb_spec n (fcn_addr f + fcn_size f)) as [Hlt|Hge].
  - rewrite u64_id, s32_id by lia. destruct (resize_run f (n - fcn_addr f) a) as (f' & Er & Ea & _ & Es).
    rewrite run_bind, Er. cbv beta iota. exists f'. rewrite (proj2 (Z.ltb_ge _ _)), u32_id in Es by lia. split_and!; [done|done| |].
    + unfold fcn_ok. lia.
    + unfold fits. eapply Forall_impl; [exact Hn3|]. simpl. lia.
  - exists f. split_and!; [exact Esame|done|done|]. unfold fits. eapply Forall_impl; [exact Hn3|]. simpl. lia.
Qed.

(** Only the addresses matter. *)
Lemma fits_addrs a a' f : fcn_addr <$> an_fcns a = fcn_addr <$> an_fcns a' -> fits a f -> fits a' f.
Proof.
  unfold fits. intros E H.
  assert (Forall (fun n => fcn_addr f < n -> fcn_addr f + fcn_size f <= n) (fcn_addr <$> an_fcns a)) as H' by (by apply Forall_fmap).
  rewrite E in H'. by apply Forall_fmap in H'.
Qed.

Lemma insert_addrs (l : list RAnalFunction) (i : nat) f f' : l !! i = Some f -> fcn_addr f' = fcn_addr f -> fcn_addr <$> <[i := f']> l = fcn_addr <$> l.
Proof. intros E Ha. rewrite list_fmap_insert, Ha. apply list_insert_id. by rewrite list_lookup_fmap, E. Qed.

Lemma fit_all_run n i a :
  (i + n)%nat = length (an_fcns a) -> Forall fcn_ok (an_fcns a) -> Forall (fits a) (take i (an_fcns a)) ->
  exists a', fit_all n i a = Ok tt a' /\ fcn_addr <$> an_fcns a' = fcn_addr <$> an_fcns a /\ Forall fcn_ok (an_fcns a') /\ Forall (fits a') (an_fcns a').
Proof.
  revert i a. induction n as [|n IH]; intros i a Hl Hk Hf.
  { exists a. split_and!; try done. by rewrite take_ge in Hf by lia. }
  destruct (lookup_lt_is_Some_2 (an_fcns a) i ltac:(lia)) as [f Ef].
  destruct (fcnfit_run i f a Ef) as (f' & E & Ha & Hok & Hfit); [by apply (Forall_lookup_1 _ _ _ _ Hk Ef)|].
  cbn [fit_all]. rewrite run_bind, E. set (a1 := set_an_fcns _ _).
  assert (fcn_addr <$> an_fcns a1 = fcn_addr <$> an_fcns a) as E1 by (by apply (insert_addrs _ _ f)).
  destruct (IH (S i) a1) as (a' & E2 & E3 & H1 & H2).
  - subst a1. cbn [an_fcns set_an_fcns]. rewrite length_insert. lia.
  - by apply Forall_insert.
  - subst a1. cbn [an_fcns set_an_fcns] in *. rewrite (take_S_r _ _ f') by (apply list_lookup_insert_eq; lia).
    rewrite take_insert_ge by lia. apply Forall_app. split.
    + eapply Forall_impl; [exact Hf|]. intros g. by apply fits_addrs.
    + constructor; [|done]. by apply (fits_addrs a).
  - exists a'. split_and!; try done. by rewrite E3.
Qed.

(** C14: after [r_anal_fcn_fit_overlaps] on all functions, none of them reaches
    into one that starts after it, and each starts where it did. *)
Theorem r_anal_fcn_fit_overlaps_fits a :
  Forall fcn_ok (an_fcns a) ->
  exists a', r_anal_fcn_fit_overlaps None a = Ok tt a' /\ fcn_addr <$> an_fcns a' = fcn_addr <$> an_fcns a
    /\ forall i j f g, an_fcns a' !! i = Some f -> an_fcns a' !! j = Some g -> fcn_addr f < fcn_addr g -> fcn_addr f + fcn_size f <= fcn_addr g.
Proof.
  intros Hk. unfold r_anal_fcn_fit_overlaps. mrun. unfold id. destruct (fit_all_run (length (an_fcns a)) 0 a) as (a' & E & Ea & _ & H); [done|done|constructor|].
  exists a'. split_and!; [exact E|exact Ea|]. intros i j f g Ei Ej. exact (Forall_lookup_1 _ _ _ _ (Forall_lookup_1 _ _ _ _ H Ei) Ej).
Qed.

Lemma fcnfit_addrs i a a' : fcnfit i a = Ok tt a' -> fcn_addr <$> an_fcns a' = fcn_addr <$> an_fcns a.
Proof.
  unfold fcnfit. mrun. unfold id. destruct (an_fcns a !! i) as [f|] eqn:Ef; [|done]. destruct (r_anal_fcn_next a (fcn_addr f)) as [[k n]|]; [|intros H; inversion H; done].
  destruct (n <? _); [|intros H; inversion H; done]. rewrite run_bind. destruct (resize_run f (s32 (u64 (n - fcn_addr f))) a) as (f' & Er & Ea & _).
  rewrite Er. cbv beta iota. intros H. inversion H; subst. by apply (insert_addrs _ _ f).
Qed.

Lemma fit_all_addrs n i a a' : fit_all n i a = Ok tt a' -> fcn_addr <$> an_fcns a' = fcn_addr <$> an_fcns a.
Proof.
  revert i a. induction n as [|n IH]; intros i a; cbn [fit_all]; [intros H; by inversion H|]. rewrite run_bind.
  destruct (fcnfit i a) as [[] a1|] eqn:E; [|done]. intros H. rewrite (IH _ _ H). by apply (fcnfit_addrs i).
Qed.

(** C13: whatever is inserted, added, deleted and fitted, and in whatever order,
    no two functions of the analysis start at the same address. *)
Theorem functions_start_apart a a' : rtc anal_call a a' -> distinct a -> distinct a'.
Proof.
  induction 1 as [|a b c Hc _ IH]; [done|]. intros Ha. apply IH. destruct Hc as [f a b1 a1 E|ad sz nm ty di a b1 a1 E|ad a b1 a1 E|ad a b1 a1 E|fcn a a1 E].
  - by apply (insert_distinct f a b1).
  - by apply (add_distinct ad sz nm ty di a b1).
  - by apply (del_distinct ad a b1).
  - by apply (del_locs_distinct ad a b1).
  - unfold distinct. destruct fcn as [i|]; [by rewrite (fcnfit_addrs i a a1 E)|]. revert E. unfold r_anal_fcn_fit_overlaps. mrun. intros E.
    by rewrite (fit_all_addrs _ _ _ _ E).
Qed.

(** *** Adding a block *)

Lemma add_scan_free bbs addr i mid bbi :
  Forall (fun b => addr <> bb_addr b /\ ~ inside addr (span b)) bbs -> Forall bb_ok bbs ->
  exists l, add_scan bbs addr i mid bbi = (None, mid, l).
Proof.
  revert i bbi. induction bbs as [|b bbs IH]; intros i bbi Hf Hk; [by eexists|].
  apply Forall_cons in Hf as [[H1 H2] Hf]. apply Forall_cons in Hk as [(K1 & K2 & K3) Hk]. cbn [add_scan].
  rewrite (proj2 (Z.eqb_neq _ _)) by done. unfold bb_end. rewrite u64_id by lia.
  replace ((bb_addr b <? addr) && (addr <? bb_addr b + bb_size b)) with false; [by apply IH|].
  symmetry. apply andb_false_iff. rewrite !Z.ltb_ge. unfold inside, span in H2. cbn [fst snd] in H2. lia.
Qed.

Lemma alter_last {A} (l : list A) x (g : A -> A) : alter g (pred (length (l ++ [x]))) (l ++ [x]) = l ++ [g x].
Proof.
  rewrite length_app. cbn [length]. replace (pred (length l + 1)) with (length l + 0)%nat by lia.
  induction l as [|y l IH]; [done|]. simpl. f_equal. exact IH.
Qed.

(** A block at an address that no block holds is added, with the fields given. *)
Lemma r_anal_fcn_add_bb_new {St} f addr size jump fail type (s : St) :
  Forall (fun b => addr <> bb_addr b /\ ~ inside addr (span b)) (fcn_bbs f) -> Forall bb_ok (fcn_bbs f) -> 0 <= size < 2 ^ 31 ->
  exists f' b, r_anal_fcn_add_bb f addr size jump fail type None s = Ok (true, f') s /\ fcn_bbs f' ≡ₚ fcn_bbs f ++ [b]
    /\ span b = (addr, addr + size) /\ bb_jump b = jump /\ bb_fail b = fail /\ bb_type b = type.
Proof.
  intros Hf Hk Hs. unfold r_anal_fcn_add_bb. destruct (add_scan_free (fcn_bbs f) addr 0 false None Hf Hk) as [l ->]. mrun.
  unfold appendBasicBlock, r_anal_fcn_bbadd. cbn [fcn_bbs set_fcn_bbs fcn_sorted]. rewrite alter_last.
  match goal with |- context [update_tinyrange_bbs ?g] => destruct (update_tinyrange_total g s) as [bbr E]; pose proof (sort_bbs_perm g) as P end.
  rewrite E. cbv beta iota. eexists _, _. split; [reflexivity|]. split; [exact P|]. unfold fill_bb, span. cbn. rewrite s32_id by lia. done.
Qed.

(** ** Examples *)

Definition block_at (addr size : Z) : RAnalBlock := set_bb_size size (set_bb_addr addr r_anal_bb_new).
Definition fcn_of (addr : Z) (bbs : list RAnalBlock) : RAnalFunction := set_fcn_bbs bbs false (set_fcn_addr addr r_anal_fcn_new).
Definition demo_fcn : RAnalFunction := fcn_of 0x1000 [block_at 0x1020 8; block_at 0x1000 6; block_at 0x1010 4].

Lemma demo_apart : apart (fcn_bbs demo_fcn).
Proof. repeat (apply apart_cons; split; [repeat constructor; cbn; lia|]). by intros i j a b _ E. Qed.
Lemma demo_ok : Forall bb_ok (fcn_bbs demo_fcn).
Proof. repeat constructor; cbn; lia. Qed.

Definition updated (f : RAnalFunction) : RAnalFunction := match update_tinyrange_bbs f tt with Ok f _ => f | Undef _ => f end.

Lemma r_anal_fcn_in_blocks_witness :
  r_anal_fcn_in (updated demo_fcn) 0x1013 tt = Ok (Some true) tt /\ r_anal_fcn_in (updated demo_fcn) 0x1018 tt = Ok (Some false) tt.
Proof.
  split; apply (r_anal_fcn_in_blocks demo_fcn (updated demo_fcn)); try (exact demo_apart); try (exact demo_ok); vm_compute; done.
Defined.

(** Of two blocks with a gap between them, only the first is seen. *)
Example fcn_in_misses : r_anal_fcn_in (updated (fcn_of 0x1000 [block_at 0x1000 4; block_at 0x1010 4])) 0x1011 tt = Ok (Some false) tt.
Proof. vm_compute. reflexivity. Qed.

(** The block that [AnalBlockFacts.demo_block] decodes. *)
Definition demo_bb : RAnalBlock := mk_bb 0x1000 6 UT64_MAX UT64_MAX 0 3 0 None None [Some 1; Some 4; Some 0].
Definition one_block : RAnalFunction := fcn_of 0x1000 [demo_bb].

Example demo_bb_decoded : r_anal_bb demo_env 0x1000 demo_code 22 false (mk_dec r_anal_bb_new []) = Ok (Some 6) (mk_dec demo_bb []).
Proof. vm_compute. reflexivity. Qed.

Lemma r_anal_fcn_split_bb_parts_witness :
  exists f' left right, r_anal_fcn_split_bb one_block 0x1001 tt = Ok (R_ANAL_RET_END, f') tt
    /\ split_of 0x1001 demo_bb left right [0] [1; 4] /\ fcn_bbs f' = <[0%nat := left]> (fcn_bbs one_block) ++ [right]
    /\ apart (fcn_bbs f') /\ Forall bb_ok (fcn_bbs f')
    /\ forall a, Exists (fun b => inside a (span b)) (fcn_bbs f') <-> Exists (fun b => inside a (span b)) (fcn_bbs one_block).
Proof.
  apply (r_anal_fcn_split_bb_parts one_block 0x1001 0 demo_bb [0] [1; 4] tt); cbn [bb_addr bb_size demo_bb]; try lia; try done.
  - apply apart_cons. split; [constructor|]. by intros i j a b _ E.
  - repeat constructor; simpl; lia.
  - split; [done|intros d [= <-]; done|]. intros [|[|i]] d E; simpl in E; try done; injection E as <-; done.
  - repeat constructor; simpl; lia.
Defined.

Lemma r_anal_fcn_resize_cuts_witness :
  exists f', r_anal_fcn_resize demo_fcn 0x12 tt = Ok (true, f') tt /\ fcn_size f' = 0x12 /\ Forall (below (0x1000 + 0x12)) (fcn_bbs f')
    /\ forall a, Exists (fun b => inside a (span b)) (fcn_bbs f') <-> a < 0x1000 + 0x12 /\ Exists (fun b => inside a (span b)) (fcn_bbs demo_fcn).
Proof. apply (r_anal_fcn_resize_cuts demo_fcn 0x12 tt); [|lia|vm_compute; done|vm_compute; done]. repeat constructor; vm_compute; done. Defined.

Definition two_functions : RAnal := mk_anal [set_fcn_size 0x40 demo_fcn; set_fcn_size 0x10 (fcn_of 0x1018 [])] 32 None.

Lemma r_anal_fcn_fit_overlaps_fits_witness :
  exists a', r_anal_fcn_fit_overlaps None two_functions = Ok tt a' /\ fcn_addr <$> an_fcns a' = fcn_addr <$> an_fcns two_functions
    /\ forall i j f g, an_fcns a' !! i = Some f -> an_fcns a' !! j = Some g -> fcn_addr f < fcn_addr g -> fcn_addr f + fcn_size f <= fcn_addr g.
Proof. apply r_anal_fcn_fit_overlaps_fits. repeat constructor; vm_compute; done. Defined.

Definition no_functions : RAnal := mk_anal [] 32 None.
Definition ok_state {S A} (s : S) (o : outcome S A) : S := match o with Ok _ s => s | Undef _ => s end.
Definition added (addr : Z) (a : RAnal) : RAnal := ok_state a (r_anal_fcn_add addr 16 None R_ANAL_FCN_TYPE_FCN None a).
Definition three_added : RAnal := added 0x1000 (added 0x2000 (added 0x1000 no_functions)).

Lemma functions_start_apart_witness : distinct three_added /\ length (an_fcns three_added) = 2%nat.
Proof.
  split; [|vm_compute; reflexivity]. apply (functions_start_apart no_functions three_added); [|constructor].
  apply (rtc_l _ _ (added 0x1000 no_functions)); [apply (call_add 0x1000 16 None R_ANAL_FCN_TYPE_FCN None _ true); vm_compute; reflexivity|].
  apply (rtc_l _ _ (added 0x2000 (added 0x1000 no_functions)));
    [apply (call_add 0x2000 16 None R_ANAL_FCN_TYPE_FCN None _ true); vm_compute; reflexivity|].
  apply (rtc_l _ _ three_added); [apply (call_add 0x1000 16 None R_ANAL_FCN_TYPE_FCN None _ true); vm_compute; reflexivity|constructor].
Defined.

(** A function with a name of its address. *)
Example add_names : fcn_name <$> an_fcns three_added = [Some "fcn.00001000"; Some "fcn.00002000"].
Proof. vm_compute. reflexivity. Qed.

(** A block added inside another one: the last block of the list is cut, to a
    negative size, and the one that holds the address stays as it was. *)
Example add_bb_cuts_last :
  match r_anal_fcn_add_bb (fcn_of 0x1000 [block_at 0x1000 16; block_at 0x1020 8]) 0x1008 4 UT64_MAX UT64_MAX 0 None tt with
  | Ok (_, f) _ => span <$> fcn_bbs f = [(0x1000, 0x1010); (0x1008, 0x100c); (0x1020, 0x1008)]
  | Undef _ => False
  end.
Proof. vm_compute. reflexivity. Qed.

(** Both functions start in the range. *)
Example count_is_zero : r_anal_fcn_count three_added 0 0x10000 = 0.
Proof. vm_compute. reflexivity. Qed.

(** A type that no reference has deletes one; any type (-1) deletes none. *)
Example xref_del_type :
  let f := set_fcn_xrefs [mk_ref 99 0x2000 0x1000] r_anal_fcn_new in
  (r_anal_fcn_xref_del f 0x1000 0x2000 100).1 = true /\ (r_anal_fcn_xref_del f 0x1000 0x2000 (-1)).1 = false.
Proof. vm_compute. done. Qed.

(** The function at the address is a [loc] itself, and is read after it is freed. *)
Example del_locs_reads_freed :
  let loc addr := set_fcn_type R_ANAL_FCN_TYPE_LOC (set_fcn_size 16 (fcn_of addr [])) in
  r_anal_fcn_del_locs 0x1000 (mk_anal [loc 0x1000; loc 0x2000] 32 None) = Undef UB_free.
Proof. vm_compute. reflexivity. Qed.

(** [2^32] is not zero, and compares as if it were. *)
Example cond_ne_truncates :
  let v := mk_value 0 (2 ^ 32) 0 0 0 None None in forall reg, r_anal_cond_eval reg (mk_cond R_ANAL_COND_NE (Some v) None) = Some 0.
Proof. vm_compute. done. Qed.
