(* ===== verification/HashBlocks.v ===== *)
(** * Functions that take a message in blocks

    What the digests of [libr/hash] have in common: a state, a function that takes
    a block of 64 bytes into it, the bytes that wait for a whole block, and the
    padding of the last one. *)

From S2P Require Import Prelude.

(** Rotation of 32-bit words, and sums of them. *)
Definition rotl32 (x n : Z) : Z := Z.lor (u32 (Z.shiftl x n)) (Z.shiftr x (32 - n)).
Definition not32 (x : Z) : Z := Z.lxor x 0xffffffff.

Section blocks.
Context {St : Type} (B : nat) (block : St -> list Z -> St).

(** The whole blocks of a message are taken; the rest waits. *)
Fixpoint absorb_n (n : nat) (st : St) (m : list Z) : St :=
  match n with O => st | S n => absorb_n n (block st (take B m)) (drop B m) end.
Definition absorb (st : St) (m : list Z) : St := absorb_n (length m / B) st m.
Definition rest (m : list Z) : list Z := drop (length m / B * B) m.

Lemma absorb_short st m : (length m < B)%nat -> absorb st m = st /\ rest m = m.
Proof. intros H. unfold absorb, rest. by rewrite Nat.div_small. Qed.

Context (HB : B <> 0%nat).

Lemma rest_length m : length (rest m) = (length m mod B)%nat.
Proof. unfold rest. rewrite length_drop, Nat.Div0.mod_eq. lia. Qed.

Lemma absorb_step st m : (B <= length m)%nat -> absorb st m = absorb (block st (take B m)) (drop B m) /\ rest m = rest (drop B m).
Proof.
  intros H. unfold absorb, rest. rewrite length_drop.
  assert (length m / B = S ((length m - B) / B))%nat as ->.
  { replace (length m) with (length m - B + 1 * B)%nat at 1 by lia. rewrite Nat.div_add by lia. lia. }
  split; [done|]. by rewrite drop_drop.
Qed.

(** A message and the rest of it behave the same from then on. *)
Lemma absorb_app st m x : absorb st (m ++ x) = absorb (absorb st m) (rest m ++ x) /\ rest (m ++ x) = rest (rest m ++ x).
Proof.
  remember (length m) as k eqn:Ek. revert st m Ek. induction k as [k IH] using lt_wf_ind. intros st m ->.
  destruct (decide (length m < B)%nat) as [H|H]; [by destruct (absorb_short st m H) as [-> ->]|].
  destruct (absorb_step st (m ++ x)) as [-> ->]; [rewrite length_app; lia|]. destruct (absorb_step st m) as [-> ->]; [lia|].
  rewrite take_app_le, drop_app_le by lia. apply (IH (length (drop B m))); [rewrite length_drop; lia|done].
Qed.

Lemma absorb_block st m : length m = B -> absorb st m = block st m /\ rest m = [].
Proof.
  intros H. destruct (absorb_step st m) as [-> ->]; [lia|]. rewrite take_ge, drop_ge by lia.
  destruct (absorb_short (block st m) []) as [-> ->]; [simpl; lia|done].
Qed.
End blocks.

(** The padding of a message of [n] bytes up to its length, which takes [L] bytes:
    [0x80] and zeros, to the last [L] bytes of a block of [B]. *)
Definition pad_to (B L n : nat) : list Z :=
  0x80 :: replicate ((if (n mod B <? B - L)%nat then B - L - 1 else 2 * B - L - 1) - n mod B) 0.
Definition padding : nat -> list Z := pad_to 64 8.

Lemma padding_eq n : padding n = 0x80 :: replicate ((if (n mod 64 <? 56)%nat then 55 else 119) - n mod 64) 0.
Proof. reflexivity. Qed.

Lemma padding_length n : length (padding n) = ((if (n mod 64 <? 56)%nat then 56 else 120) - n mod 64)%nat.
Proof.
  unfold padding, pad_to. cbn [length]. rewrite length_replicate. pose proof (Nat.mod_upper_bound n 64 ltac:(lia)).
  destruct (Nat.ltb_spec (n mod 64) (64 - 8)), (Nat.ltb_spec (n mod 64) 56); lia.
Qed.

(** [n] 32-bit words from their bytes, the first byte the lowest. *)
Fixpoint le_words32 (n : nat) (l : list Z) : list Z :=
  match n with O => [] | S n => le_val (take 4 l) :: le_words32 n (drop 4 l) end.

(** An index inside an array of words. *)
Definition word_at (l : list Z) (i : nat) : Z := default 0 (l !! i).

(** [n] words of [k] bytes, the first byte the highest. *)
Fixpoint be_words (k n : nat) (l : list Z) : list Z :=
  match n with O => [] | S n => be_val (take k l) :: be_words k n (drop k l) end.
Definition be_words32 : nat -> list Z -> list Z := be_words 4.

Lemma be_words_length_k k n l : length (be_words k n l) = n.
Proof. revert l. induction n as [|n IH]; intros l; simpl; [done|]. by rewrite IH. Qed.

Lemma be_words_length n l : length (be_words32 n l) = n.
Proof. apply be_words_length_k. Qed.

Lemma be_words_lookup k n l i : (i < n)%nat -> word_at (be_words k n l) i = be_val (take k (drop (k * i) l)).
Proof.
  revert l i. induction n as [|n IH]; intros l i Hi; [lia|]. destruct i as [|i]; cbn [be_words].
  - by rewrite Nat.mul_0_r.
  - change (word_at (be_words k n (drop k l)) i = be_val (take k (drop (k * S i) l))). rewrite IH by lia. rewrite drop_drop.
    do 3 f_equal. lia.
Qed.

Lemma be_words_take k n l : be_words k n (take (n * k) l) = be_words k n l.
Proof.
  revert l. induction n as [|n IH]; intros l; [done|]. cbn [be_words].
  rewrite take_take, skipn_firstn_comm. replace (k `min` (S n * k))%nat with k by lia.
  replace (S n * k - k)%nat with (n * k)%nat by lia. by rewrite IH.
Qed.

(** ** The bytes of a count *)

Lemma le_bytes_mod_k n k v : (n <= k)%nat -> le_bytes n (v mod 2 ^ (8 * Z.of_nat k)) = le_bytes n v.
Proof.
  intros H. rewrite <- (le_bytes_le_val (le_bytes n v)) at 1 by apply le_bytes_bytes.
  rewrite length_le_bytes, le_val_le_bytes. rewrite <- (le_bytes_le_val (le_bytes n (v mod _))) at 1 by apply le_bytes_bytes.
  rewrite length_le_bytes, le_val_le_bytes, mod_mod_pow2 by lia. done.
Qed.

Lemma le_bytes_app n k v : le_bytes (n + k) v = le_bytes n v ++ le_bytes k (Z.shiftr v (8 * Z.of_nat n)).
Proof.
  revert v. induction n as [|n IH]; intros v; [by rewrite Z.shiftr_0_r|]. cbn [Nat.add le_bytes app].
  rewrite IH, Z.shiftr_shiftr by lia. by replace (8 + 8 * Z.of_nat n) with (8 * Z.of_nat (S n)) by lia.
Qed.

(** Four words, and a step that changes the first of them: its result is the
    second one of the next step. *)
Record words4 := W4 { wa : Z; wb : Z; wc : Z; wd : Z }.
Definition turn (f : Z -> Z -> Z -> Z -> Z) (w : words4) : words4 := W4 (wd w) (f (wa w) (wb w) (wc w) (wd w)) (wb w) (wc w).
Definition add4 (v w : words4) : words4 := W4 (u32 (wa v + wa w)) (u32 (wb v + wb w)) (u32 (wc v + wc w)) (u32 (wd v + wd w)).
Definition list4 (w : words4) : list Z := [wa w; wb w; wc w; wd w].
