(* ===== verification/Md5.v ===== *)
(** * MD5

    [libr/hash/md5c.c]. *)

From S2P Require Import Prelude HashBlocks.

Definition F (x y z : Z) : Z := Z.lor (Z.land x y) (Z.land (not32 x) z).
Definition G (x y z : Z) : Z := Z.lor (Z.land x z) (Z.land y (not32 z)).
Definition H (x y z : Z) : Z := Z.lxor (Z.lxor x y) z.
Definition I (x y z : Z) : Z := Z.lxor y (Z.lor x (not32 z)).
Definition ROTATE_LEFT (x n : Z) : Z := rotl32 x n.

(** A step on [a]: a function of the other three, a word of the block, a count of
    the rotation and a constant. *)
Definition md5_op (f : Z -> Z -> Z -> Z) (x s ac a b c d : Z) : Z := u32 (ROTATE_LEFT (u32 (a + f b c d + x + ac)) s + b).
Definition FF := md5_op F.
Definition GG := md5_op G.
Definition HH := md5_op H.
Definition II := md5_op I.

(** The steps.  In the source the four variables take turns in the four places. *)
Definition md5_steps : list ((Z -> Z -> Z -> Z -> Z -> Z -> Z -> Z) * nat * Z * Z) := [
  (FF, 0%nat, 7, 0xd76aa478); (FF, 1%nat, 12, 0xe8c7b756); (FF, 2%nat, 17, 0x242070db); (FF, 3%nat, 22, 0xc1bdceee);
  (FF, 4%nat, 7, 0xf57c0faf); (FF, 5%nat, 12, 0x4787c62a); (FF, 6%nat, 17, 0xa8304613); (FF, 7%nat, 22, 0xfd469501);
  (FF, 8%nat, 7, 0x698098d8); (FF, 9%nat, 12, 0x8b44f7af); (FF, 10%nat, 17, 0xffff5bb1); (FF, 11%nat, 22, 0x895cd7be);
  (FF, 12%nat, 7, 0x6b901122); (FF, 13%nat, 12, 0xfd987193); (FF, 14%nat, 17, 0xa679438e); (FF, 15%nat, 22, 0x49b40821);
  (GG, 1%nat, 5, 0xf61e2562); (GG, 6%nat, 9, 0xc040b340); (GG, 11%nat, 14, 0x265e5a51); (GG, 0%nat, 20, 0xe9b6c7aa);
  (GG, 5%nat, 5, 0xd62f105d); (GG, 10%nat, 9, 0x2441453); (GG, 15%nat, 14, 0xd8a1e681); (GG, 4%nat, 20, 0xe7d3fbc8);
  (GG, 9%nat, 5, 0x21e1cde6); (GG, 14%nat, 9, 0xc33707d6); (GG, 3%nat, 14, 0xf4d50d87); (GG, 8%nat, 20, 0x455a14ed);
  (GG, 13%nat, 5, 0xa9e3e905); (GG, 2%nat, 9, 0xfcefa3f8); (GG, 7%nat, 14, 0x676f02d9); (GG, 12%nat, 20, 0x8d2a4c8a);
  (HH, 5%nat, 4, 0xfffa3942); (HH, 8%nat, 11, 0x8771f681); (HH, 11%nat, 16, 0x6d9d6122); (HH, 14%nat, 23, 0xfde5380c);
  (HH, 1%nat, 4, 0xa4beea44); (HH, 4%nat, 11, 0x4bdecfa9); (HH, 7%nat, 16, 0xf6bb4b60); (HH, 10%nat, 23, 0xbebfbc70);
  (HH, 13%nat, 4, 0x289b7ec6); (HH, 0%nat, 11, 0xeaa127fa); (HH, 3%nat, 16, 0xd4ef3085); (HH, 6%nat, 23, 0x4881d05);
  (HH, 9%nat, 4, 0xd9d4d039); (HH, 12%nat, 11, 0xe6db99e5); (HH, 15%nat, 16, 0x1fa27cf8); (HH, 2%nat, 23, 0xc4ac5665);
  (II, 0%nat, 6, 0xf4292244); (II, 7%nat, 10, 0x432aff97); (II, 14%nat, 15, 0xab9423a7); (II, 5%nat, 21, 0xfc93a039);
  (II, 12%nat, 6, 0x655b59c3); (II, 3%nat, 10, 0x8f0ccc92); (II, 10%nat, 15, 0xffeff47d); (II, 1%nat, 21, 0x85845dd1);
  (II, 8%nat, 6, 0x6fa87e4f); (II, 15%nat, 10, 0xfe2ce6e0); (II, 6%nat, 15, 0xa3014314); (II, 13%nat, 21, 0x4e0811a1);
  (II, 4%nat, 6, 0xf7537e82); (II, 11%nat, 10, 0xbd3af235); (II, 2%nat, 15, 0x2ad7d2bb); (II, 9%nat, 21, 0xeb86d391)
].

(** [Decode]: words from bytes, the first byte the lowest. *)
Definition Decode (block : list Z) : list Z := le_words32 16 block.
(** [Encode]. *)
Definition Encode (input : list Z) : list Z := input ≫= le_bytes 4.

Definition MD5Transform (state : words4) (block : list Z) : words4 :=
  let x := Decode block in
  add4 state (foldl (fun w '(op, k, s, ac) => turn (op (default 0 (x !! k)) s ac) w) state md5_steps).

Record R_MD5_CTX := mk_md5 { md5_state : words4; md5_count0 : Z; md5_count1 : Z; md5_buffer : list Z }.

Definition md5_init_state : words4 := W4 0x67452301 0xefcdab89 0x98badcfe 0x10325476.
(** The buffer keeps what it holds. *)
Definition MD5Init (context : R_MD5_CTX) : R_MD5_CTX := mk_md5 md5_init_state 0 0 (md5_buffer context).

(** The loop over the whole blocks of [input] from [i] on: the state and where it
    ends.  [n] bounds the turns. *)
Fixpoint transform_loop (n : nat) (state : words4) (input : list Z) (i : nat) : words4 * nat :=
  match n with
  | O => (state, i)
  | S n =>
      if (i + 63 <? length input)%nat then transform_loop n (MD5Transform state (take 64 (drop i input))) input (i + 64)
      else (state, i)
  end.

(** [input] has [inputLen] bytes. *)
Definition MD5Update (context : R_MD5_CTX) (input : list Z) : R_MD5_CTX :=
  let inputLen := Z.of_nat (length input) in
  let index := Z.to_nat (Z.land (Z.shiftr (md5_count0 context) 3) 0x3f) in
  let bits := u32 (Z.shiftl inputLen 3) in
  let count0 := u32 (md5_count0 context + bits) in
  let count1 := if count0 <? bits then u32 (md5_count1 context + 1) else md5_count1 context in
  let count1 := u32 (count1 + Z.shiftr inputLen 29) in
  let partLen := (64 - index)%nat in
  if (partLen <=? length input)%nat then
    let buffer := at_offset index (blit (take partLen input)) (md5_buffer context) in
    let state := MD5Transform (md5_state context) buffer in
    let '(state, i) := transform_loop (length input / 64) state input partLen in
    mk_md5 state count0 count1 (blit (drop i input) buffer)
  else mk_md5 (md5_state context) count0 count1 (at_offset index (blit input) (md5_buffer context)).

Definition PADDING : list Z := 0x80 :: replicate 63 0.

(** The digest; the context is zeroed. *)
Definition MD5Final (context : R_MD5_CTX) : list Z * R_MD5_CTX :=
  let bits := Encode [md5_count0 context; md5_count1 context] in
  let index := Z.to_nat (Z.land (Z.shiftr (md5_count0 context) 3) 0x3f) in
  let padLen := (if (index <? 56)%nat then 56 - index else 120 - index)%nat in
  let context := MD5Update (MD5Update context (take padLen PADDING)) bits in
  (Encode (list4 (md5_state context)), mk_md5 (W4 0 0 0 0) 0 0 (replicate 64 0)).

(** ** The digest of a message *)

Definition md5_padded (m : list Z) : list Z := m ++ padding (length m) ++ le_bytes 8 (8 * Z.of_nat (length m)).
Definition md5 (m : list Z) : list Z := Encode (list4 (absorb 64 MD5Transform md5_init_state (md5_padded m))).

(** The text [abc] and an empty one. *)
Example md5_abc : md5 [97; 98; 99] = [0x90; 0x01; 0x50; 0x98; 0x3c; 0xd2; 0x4f; 0xb0; 0xd6; 0x96; 0x3f; 0x7d; 0x28; 0xe1; 0x7f; 0x72].
Proof. vm_compute. reflexivity. Qed.
Example md5_empty : md5 [] = [0xd4; 0x1d; 0x8c; 0xd9; 0x8f; 0x00; 0xb2; 0x04; 0xe9; 0x80; 0x09; 0x98; 0xec; 0xf8; 0x42; 0x7e].
Proof. vm_compute. reflexivity. Qed.

(** ** A context and the message it has read *)

Record md5_read (context : R_MD5_CTX) (m : list Z) : Prop := {
  mr_state : md5_state context = absorb 64 MD5Transform md5_init_state m;
  mr_length : length (md5_buffer context) = 64%nat;
  mr_rest : take (length m mod 64) (md5_buffer context) = rest 64 m;
  mr_count0 : md5_count0 context = u32 (8 * Z.of_nat (length m));
  mr_count1 : md5_count1 context = u32 (8 * Z.of_nat (length m) / 2 ^ 32)
}.

Lemma md5_init_read context : length (md5_buffer context) = 64%nat -> md5_read (MD5Init context) [].
Proof. by split. Qed.

Lemma md5_index context m :
  md5_read context m -> Z.to_nat (Z.land (Z.shiftr (md5_count0 context) 3) 0x3f) = (length m mod 64)%nat.
Proof.
  intros [_ _ _ E _]. rewrite E. change 0x3f with (2 ^ 6 - 1). rewrite pow2_mod_land, Z.shiftr_div_pow2 by lia. unfold u32.
  apply Nat2Z.inj. rewrite Nat2Z.inj_mod, Z2Nat.id by zlia. change (Z.of_nat 64) with 64. zlia.
Qed.

Lemma transform_loop_absorb n state input i :
  (i <= length input)%nat -> (length input - i < 64 * (n + 1))%nat ->
  exists j, transform_loop n state input i = (absorb 64 MD5Transform state (drop i input), j) /\ (j <= length input)%nat
    /\ drop j input = rest 64 (drop i input).
Proof.
  revert state i. induction n as [|n IH]; intros state i Hi Hn.
  { destruct (absorb_short 64 MD5Transform state (drop i input)) as [E1 E2]; [rewrite length_drop; lia|]. exists i. by rewrite E1, E2. }
  cbn [transform_loop]. destruct (Nat.ltb_spec (i + 63) (length input)) as [H|H].
  - destruct (IH (MD5Transform state (take 64 (drop i input))) (i + 64)%nat) as (j & E & Hj & Er); [lia|lia|].
    exists j. rewrite E, Er. destruct (absorb_step 64 MD5Transform ltac:(lia) state (drop i input)) as [-> ->]; [rewrite length_drop; lia|].
    by rewrite drop_drop.
  - destruct (absorb_short 64 MD5Transform state (drop i input)) as [E1 E2]; [rewrite length_drop; lia|]. exists i. by rewrite E1, E2.
Qed.

Lemma count_add n l :
  0 <= n -> 0 <= l < 2 ^ 32 ->
  let bits := u32 (8 * l) in
  let c0 := u32 (u32 (8 * n) + bits) in
  c0 = u32 (8 * (n + l))
  /\ u32 ((if c0 <? bits then u32 (u32 (8 * n / 2 ^ 32) + 1) else u32 (8 * n / 2 ^ 32)) + l / 2 ^ 29) = u32 (8 * (n + l) / 2 ^ 32).
Proof.
  intros Hn Hl. unfold u32. cbv zeta. split; [zlia|].
  destruct (Z.ltb_spec (((8 * n) mod 2 ^ 32 + (8 * l) mod 2 ^ 32) mod 2 ^ 32) ((8 * l) mod 2 ^ 32)); zlia.
Qed.

Lemma md5_update_read context m x : md5_read context m -> Z.of_nat (length x) < 2 ^ 32 -> md5_read (MD5Update context x) (m ++ x).
Proof.
  intros R Hx. pose proof (md5_index context m R) as Ei. destruct R as [Rs Rl Rr R0 R1].
  destruct (absorb_app 64 MD5Transform ltac:(lia) md5_init_state m x) as [Ea Er]. rewrite <- Rs in Ea.
  pose proof (rest_length 64 ltac:(lia) m) as Lr. set (index := (length m mod 64)%nat) in *.
  assert (index < 64)%nat as Hi by (apply Nat.mod_upper_bound; lia).
  assert (u32 (Z.shiftl (Z.of_nat (length x)) 3) = u32 (8 * Z.of_nat (length x))) as Eb by (rewrite Z.shiftl_mul_pow2 by lia; f_equal; lia).
  destruct (count_add (Z.of_nat (length m)) (Z.of_nat (length x))) as [C0 C1]; [lia|lia|].
  rewrite <- R0, <- R1, <- Nat2Z.inj_add, <- length_app in *.
  unfold MD5Update. rewrite Ei, Eb, Z.shiftr_div_pow2 by lia. cbv zeta.
  set (count0 := u32 (md5_count0 context + _)) in *. set (count1 := u32 ((if count0 <? _ then _ else _) + _)) in *.
  destruct (Nat.leb_spec (64 - index) (length x)) as [Hp|Hp].
  - set (buffer := at_offset index (blit (take (64 - index) x)) (md5_buffer context)).
    assert (buffer = rest 64 m ++ take (64 - index) x) as Ebuf.
    { unfold buffer. rewrite at_offset_blit by (rewrite length_take; lia). rewrite Rr. f_equal. rewrite drop_ge by (rewrite length_take; lia). apply app_nil_r. }
    assert (length buffer = 64%nat) as Lb by (rewrite Ebuf, length_app, length_take; lia).
    destruct (transform_loop_absorb (length x / 64) (MD5Transform (md5_state context) buffer) x (64 - index)) as (j & E & Hj & Ej);
      [lia|pose proof (Nat.div_mod (length x) 64); pose proof (Nat.mod_upper_bound (length x) 64); lia|].
    rewrite E. cbv beta iota.
    destruct (absorb_step 64 MD5Transform ltac:(lia) (md5_state context) (rest 64 m ++ x)) as [Es1 Es2]; [rewrite length_app; lia|].
    rewrite take_app, Lr, (take_ge (rest 64 m)), <- Ebuf in Es1 by lia.
    rewrite drop_app, (drop_ge (rest 64 m)), Lr, app_nil_l in Es1, Es2 by lia.
    pose proof (rest_length 64 ltac:(lia) (m ++ x)) as Lr'.
    assert (drop j x = rest 64 (m ++ x)) as Ej' by (by rewrite Ej, Er, Es2).
    split; cbn [md5_state md5_buffer md5_count0 md5_count1].
    + by rewrite Ea, Es1.
    + rewrite length_blit. exact Lb.
    + rewrite <- Lr', <- Ej'. unfold blit. rewrite take_app_le by (rewrite length_take, Ej', Lr'; pose proof (Nat.mod_upper_bound (length (m ++ x)) 64); lia).
      rewrite take_take. apply take_ge. rewrite Ej', Lr', Lb. pose proof (Nat.mod_upper_bound (length (m ++ x)) 64). lia.
    + exact C0.
    + exact C1.
  - destruct (absorb_short 64 MD5Transform (md5_state context) (rest 64 m ++ x)) as [Es1 Es2]; [rewrite length_app; lia|].
    split; cbn [md5_state md5_buffer md5_count0 md5_count1].
    + by rewrite Ea, Es1.
    + rewrite length_at_offset; [done|]. intros d. apply length_blit.
    + rewrite <- rest_length, Er, Es2, length_app, at_offset_blit, Rr by lia. rewrite app_assoc.
      apply take_app_length'. by rewrite length_app.
    + exact C0.
    + exact C1.
Qed.

(** The count of bits as [MD5Final] stores it. *)
Lemma encode_count n : Encode [u32 n; u32 (n / 2 ^ 32)] = le_bytes 8 n.
Proof.
  change 8%nat with (4 + 4)%nat. rewrite le_bytes_app. unfold Encode. cbn [mbind list_bind]. rewrite app_nil_r.
  change (8 * Z.of_nat 4) with 32. rewrite Z.shiftr_div_pow2 by lia.
  change u32 with (fun x => x mod 2 ^ (8 * Z.of_nat 4)). cbv beta. by rewrite !le_bytes_mod_k by lia.
Qed.

Lemma take_padding n : take (if (n mod 64 <? 56)%nat then 56 - n mod 64 else 120 - n mod 64) PADDING = padding n.
Proof.
  rewrite padding_eq. unfold PADDING. pose proof (Nat.mod_upper_bound n 64 ltac:(lia)).
  destruct (Nat.ltb_spec (n mod 64) 56).
  - replace (56 - n mod 64)%nat with (S (55 - n mod 64)) by lia. cbn [take]. f_equal. rewrite take_replicate. f_equal. lia.
  - replace (120 - n mod 64)%nat with (S (119 - n mod 64)) by lia. cbn [take]. f_equal. rewrite take_replicate. f_equal. lia.
Qed.

Lemma md5_final_read context m : md5_read context m -> (MD5Final context).1 = md5 m.
Proof.
  intros R. unfold MD5Final, md5. rewrite (md5_index context m R), take_padding. cbn [fst].
  assert (forall n, Z.of_nat (length (padding n)) < 2 ^ 32) as Hp.
  { intros n. rewrite padding_length. destruct (n mod 64 <? 56)%nat; lia. }
  pose proof (md5_update_read _ _ _ R (Hp (length m))) as R1.
  assert (Encode [md5_count0 context; md5_count1 context] = le_bytes 8 (8 * Z.of_nat (length m))) as Eb.
  { rewrite (mr_count0 _ _ R), (mr_count1 _ _ R). apply encode_count. }
  rewrite Eb. assert (Z.of_nat (length (le_bytes 8 (8 * Z.of_nat (length m)))) < 2 ^ 32) as Hb by (by rewrite length_le_bytes).
  pose proof (md5_update_read _ _ _ R1 Hb) as R2. rewrite (mr_state _ _ R2). unfold md5_padded. by rewrite <- app_assoc.
Qed.

(** A message given to [MD5Update] piece by piece has the digest of the whole
    message: the blocks of the message with its padding, whatever was in the
    context before [MD5Init]. *)
Theorem md5_pieces context chunks :
  length (md5_buffer context) = 64%nat -> Forall (fun x => Z.of_nat (length x) < 2 ^ 32) chunks ->
  (MD5Final (foldl MD5Update (MD5Init context) chunks)).1 = md5 (concat chunks).
Proof.
  intros Hl Hc. apply md5_final_read.
  assert (forall c m, md5_read c m -> md5_read (foldl MD5Update c chunks) (m ++ concat chunks)) as H.
  { induction Hc as [|x chunks Hx Hc IH]; intros c m R; simpl; [by rewrite app_nil_r|].
    rewrite app_assoc. by apply IH, md5_update_read. }
  apply (H _ []). by apply md5_init_read.
Qed.

Definition md5_context : R_MD5_CTX := mk_md5 (W4 0 0 0 0) 0 0 (replicate 64 0xaa).

Lemma md5_pieces_witness :
  (MD5Final (foldl MD5Update (MD5Init md5_context) [[97]; [98; 99]])).1 = md5 [97; 98; 99]
  /\ (MD5Final (foldl MD5Update (MD5Init md5_context) [replicate 100 1; replicate 100 2])).1 = md5 (replicate 100 1 ++ replicate 100 2).
Proof.
  split; [apply (md5_pieces md5_context [[97]; [98; 99]])|apply (md5_pieces md5_context [replicate 100 1; replicate 100 2])];
    try reflexivity; repeat constructor.
Defined.
