(* ===== verification/Md4.v ===== *)
(** * MD4

    [libr/hash/md4.c]: the digest of a message that is given whole. *)

From S2P Require Import Prelude Endian HashBlocks.

Definition F (x y z : Z) : Z := Z.lor (Z.land x y) (Z.land (not32 x) z).
Definition G (x y z : Z) : Z := Z.lor (Z.lor (Z.land x y) (Z.land x z)) (Z.land y z).
Definition H (x y z : Z) : Z := Z.lxor (Z.lxor x y) z.
Definition lshift (x s : Z) : Z :=
  let x := Z.land x 0xffffffff in Z.lor (Z.land (u32 (Z.shiftl x s)) 0xffffffff) (Z.shiftr x (32 - s)).

(** A round on [a], with a word of the block. *)
Definition ROUND1 (x s a b c d : Z) : Z := lshift (u32 (a + F b c d + x)) s.
Definition ROUND2 (x s a b c d : Z) : Z := lshift (u32 (a + G b c d + x + 0x5a827999)) s.
Definition ROUND3 (x s a b c d : Z) : Z := lshift (u32 (a + H b c d + x + 0x6ed9eba1)) s.

(** The rounds, with the index of the word.  In the source the four variables take
    turns in the four places. *)
Definition md4_steps : list ((Z -> Z -> Z -> Z -> Z -> Z -> Z) * nat * Z) := [
  (ROUND1, 0%nat, 3); (ROUND1, 1%nat, 7); (ROUND1, 2%nat, 11); (ROUND1, 3%nat, 19);
  (ROUND1, 4%nat, 3); (ROUND1, 5%nat, 7); (ROUND1, 6%nat, 11); (ROUND1, 7%nat, 19);
  (ROUND1, 8%nat, 3); (ROUND1, 9%nat, 7); (ROUND1, 10%nat, 11); (ROUND1, 11%nat, 19);
  (ROUND1, 12%nat, 3); (ROUND1, 13%nat, 7); (ROUND1, 14%nat, 11); (ROUND1, 15%nat, 19);
  (ROUND2, 0%nat, 3); (ROUND2, 4%nat, 5); (ROUND2, 8%nat, 9); (ROUND2, 12%nat, 13);
  (ROUND2, 1%nat, 3); (ROUND2, 5%nat, 5); (ROUND2, 9%nat, 9); (ROUND2, 13%nat, 13);
  (ROUND2, 2%nat, 3); (ROUND2, 6%nat, 5); (ROUND2, 10%nat, 9); (ROUND2, 14%nat, 13);
  (ROUND2, 3%nat, 3); (ROUND2, 7%nat, 5); (ROUND2, 11%nat, 9); (ROUND2, 15%nat, 13);
  (ROUND3, 0%nat, 3); (ROUND3, 8%nat, 9); (ROUND3, 4%nat, 11); (ROUND3, 12%nat, 15);
  (ROUND3, 2%nat, 3); (ROUND3, 10%nat, 9); (ROUND3, 6%nat, 11); (ROUND3, 14%nat, 15);
  (ROUND3, 1%nat, 3); (ROUND3, 9%nat, 9); (ROUND3, 5%nat, 11); (ROUND3, 13%nat, 15);
  (ROUND3, 3%nat, 3); (ROUND3, 11%nat, 9); (ROUND3, 7%nat, 11); (ROUND3, 15%nat, 15)
].

Definition mdfour64 (M : list Z) (A : words4) : words4 :=
  add4 (foldl (fun w '(op, k, s) => turn (op (default 0 (M !! k)) s) w) A md4_steps) A.

(** The word at [in + 4 * i]. *)
Definition copy64_word (in_ : list Z) (i : nat) : Z :=
  let b j := byte_at in_ (i * 4 + j) in
  Z.lor (Z.lor (Z.lor (Z.shiftl (b 3%nat) 24) (Z.shiftl (b 2%nat) 16)) (Z.shiftl (b 1%nat) 8)) (Z.shiftl (b 0%nat) 0).
Definition copy64 (in_ : list Z) : list Z := copy64_word in_ <$> seq 0 16.
Definition copy4 (x : Z) : list Z :=
  [Z.land x 0xff; Z.land (Z.shiftr x 8) 0xff; Z.land (Z.shiftr x 16) 0xff; Z.land (Z.shiftr x 24) 0xff].

(** The loop over the blocks that are followed by a byte; [n] bounds the turns. *)
Fixpoint mdfour_loop (n : nat) (A : words4) (in_ : list Z) : words4 * list Z :=
  match n with
  | O => (A, in_)
  | S n => if (64 <? length in_)%nat then mdfour_loop n (mdfour64 (copy64 in_) A) (drop 64 in_) else (A, in_)
  end.

Definition md4_init_state : words4 := W4 0x67452301 0xefcdab89 0x98badcfe 0x10325476.

(** [in_] has [n] bytes.  [None]: [n * 8] is not an [int]. *)
Definition mdfour (in_ : list Z) : option (list Z) :=
  let n := Z.of_nat (length in_) in
  if 2 ^ 31 <=? n * 8 then None
  else
    let b := u32 (n * 8) in
    let '(A, in_) := mdfour_loop (length in_) md4_init_state in_ in
    let buf := <[length in_ := 0x80]> (blit in_ (replicate 128 0)) in
    let A :=
      if (length in_ <=? 55)%nat then mdfour64 (copy64 (at_offset 56 (blit (copy4 b)) buf)) A
      else
        let buf := at_offset 120 (blit (copy4 b)) buf in
        mdfour64 (copy64 (drop 64 buf)) (mdfour64 (copy64 buf) A) in
    Some (list4 A ≫= copy4).

(** ** The digest of a message *)

Definition md4_block (A : words4) (block : list Z) : words4 := mdfour64 (le_words32 16 block) A.
Definition md4_padded (m : list Z) : list Z := m ++ padding (length m) ++ le_bytes 8 (8 * Z.of_nat (length m)).
Definition md4 (m : list Z) : list Z := list4 (absorb 64 md4_block md4_init_state (md4_padded m)) ≫= le_bytes 4.

Example md4_abc : mdfour [97; 98; 99] =
  Some [0xa4; 0x48; 0x01; 0x7a; 0xaf; 0x21; 0xd8; 0x52; 0x5f; 0xc1; 0x0a; 0xe8; 0x7a; 0xa6; 0x72; 0x9d].
Proof. vm_compute. reflexivity. Qed.
Example md4_abc_spec : Some (md4 [97; 98; 99]) = mdfour [97; 98; 99].
Proof. vm_compute. reflexivity. Qed.

(** ** Words and bytes *)

Lemma le_words32_seq n l : le_words32 n l = (fun i => le_val (take 4 (drop (4 * i) l))) <$> seq 0 n.
Proof.
  revert l. induction n as [|n IH]; intros l; [done|]. cbn [le_words32 seq fmap list_fmap]. f_equal.
  rewrite IH, <- fmap_S_seq, <- list_fmap_compose. apply list_fmap_ext. intros _ i _. cbn [compose].
  rewrite drop_drop. do 3 f_equal. lia.
Qed.

Lemma copy64_words l : bytes l -> (64 <= length l)%nat -> copy64 l = le_words32 16 l.
Proof.
  intros Hb Hl. rewrite le_words32_seq. unfold copy64. apply list_fmap_ext. intros i x Hx.
  apply lookup_seq in Hx as [-> Hi]. cbn [Nat.add].
  rewrite <- r_read_le32_spec by ((by apply Forall_drop) || rewrite length_drop; lia).
  unfold copy64_word, r_read_le32, byte_at. rewrite !lookup_drop, !(Nat.mul_comm i 4). done.
Qed.

Lemma le_words32_take n l : le_words32 n (take (4 * n) l) = le_words32 n l.
Proof.
  revert l. induction n as [|n IH]; intros l; [done|]. cbn [le_words32].
  rewrite take_take, skipn_firstn_comm. replace (4 `min` (4 * S n))%nat with 4%nat by lia.
  replace (4 * S n - 4)%nat with (4 * n)%nat by lia. by rewrite IH.
Qed.

Lemma md4_block_step A l : bytes l -> (64 <= length l)%nat -> mdfour64 (copy64 l) A = md4_block A (take 64 l).
Proof. intros Hb Hl. unfold md4_block. by rewrite copy64_words, (le_words32_take 16) by done. Qed.

Lemma copy4_bytes x : copy4 x = le_bytes 4 x.
Proof.
  unfold copy4. cbn [le_bytes]. rewrite !Z.shiftr_shiftr by lia. change 0xff with (2 ^ 8 - 1). by rewrite !pow2_mod_land by lia.
Qed.

(** ** The blocks *)

(** What the loop leaves is at most a block; whatever follows, the digest goes on
    from there. *)
Lemma mdfour_loop_absorb n A m p :
  bytes m -> (length m <= n)%nat ->
  exists A' r, mdfour_loop n A m = (A', r) /\ bytes r /\ (length r <= 64)%nat /\ (length r mod 64 = length m mod 64)%nat
    /\ absorb 64 md4_block A (m ++ p) = absorb 64 md4_block A' (r ++ p).
Proof.
  revert A m. induction n as [|n IH]; intros A m Hb Hn; cbn [mdfour_loop].
  { exists A, m. repeat split; [done|lia]. }
  destruct (Nat.ltb_spec 64 (length m)) as [H|H]; [|exists A, m; repeat split; [done|lia]].
  rewrite md4_block_step by (done || lia).
  destruct (IH (md4_block A (take 64 m)) (drop 64 m)) as (A' & r & E & Hr & Hl & Hm & Ea); [by apply Forall_drop|rewrite length_drop; lia|].
  exists A', r. split_and!; try done.
  - rewrite Hm, length_drop. replace (length m) with (length m - 64 + 1 * 64)%nat at 2 by lia. by rewrite Nat.Div0.mod_add.
  - destruct (absorb_step 64 md4_block ltac:(lia) A (m ++ p)) as [-> _]; [rewrite length_app; lia|]. rewrite take_app_le, drop_app_le by lia. exact Ea.
Qed.

Lemma padded_length n : (length (padding n) <= 120)%nat.
Proof. rewrite padding_length. destruct (_ <? _)%nat; lia. Qed.

Lemma absorb_one A l : length l = 64%nat -> absorb 64 md4_block A l = md4_block A l.
Proof. intros H. by destruct (absorb_block 64 md4_block ltac:(lia) A l H) as [-> _]. Qed.

Lemma buf_bytes r : bytes r -> (length r <= 64)%nat -> <[length r := 0x80]> (blit r (replicate 128 0)) = r ++ 0x80 :: replicate (127 - length r) 0.
Proof.
  intros Hb Hl. unfold blit. rewrite take_ge, drop_replicate by (rewrite length_replicate; lia).
  rewrite <- (Nat.add_0_r (length r)) at 1. rewrite insert_app_r. f_equal.
  by replace (128 - length r)%nat with (S (127 - length r)) by lia.
Qed.

(** Bits after a message of at most 55 bytes in the last block. *)
Lemma bytes_zeros k : bytes (0x80 :: replicate k 0).
Proof. constructor; [done|]. by apply Forall_replicate. Qed.

Lemma le_bytes_small v : 0 <= v < 2 ^ 32 -> le_bytes 8 v = le_bytes 4 v ++ replicate 4 0.
Proof.
  intros H. change 8%nat with (4 + 4)%nat. rewrite le_bytes_app, (Z.shiftr_div_pow2 v), Z.div_small by lia. reflexivity.
Qed.

Lemma last_blocks A r b :
  bytes r -> (length r <= 64)%nat -> 0 <= b < 2 ^ 32 ->
  let buf := <[length r := 0x80]> (blit r (replicate 128 0)) in
  (if (length r <=? 55)%nat then mdfour64 (copy64 (at_offset 56 (blit (copy4 b)) buf)) A
   else mdfour64 (copy64 (drop 64 (at_offset 120 (blit (copy4 b)) buf))) (mdfour64 (copy64 (at_offset 120 (blit (copy4 b)) buf)) A))
  = absorb 64 md4_block A (r ++ padding (length r) ++ le_bytes 8 b).
Proof.
  intros Hb Hl H8. cbv zeta. rewrite buf_bytes, copy4_bytes, le_bytes_small by done.
  set (z := r ++ 0x80 :: replicate (127 - length r) 0).
  assert (length z = 128%nat) as Lz by (unfold z; rewrite length_app; cbn [length]; rewrite length_replicate; lia).
  assert (bytes z) as Bz by (apply Forall_app; split; [done|apply bytes_zeros]).
  assert (forall k, (length r < k <= 128)%nat -> take k z = r ++ 0x80 :: replicate (k - S (length r)) 0) as Tz.
  { intros k Hk. unfold z. rewrite take_app_ge by lia. f_equal. replace (k - length r)%nat with (S (k - S (length r))) by lia.
    cbn [take]. f_equal. rewrite take_replicate. f_equal. lia. }
  assert (forall k, (length r < k <= 128)%nat -> drop k z = replicate (128 - k) 0) as Dz.
  { intros k Hk. unfold z. rewrite drop_app_ge by lia. replace (k - length r)%nat with (S (k - S (length r))) by lia.
    cbn [drop]. rewrite drop_replicate. f_equal. lia. }
  destruct (Nat.leb_spec (length r) 55) as [H|H].
  - rewrite at_offset_blit, length_le_bytes, Dz, Tz by (rewrite ?length_le_bytes; lia).
    rewrite md4_block_step; cycle 1.
    { repeat (apply Forall_app; split); [done|apply bytes_zeros|apply le_bytes_bytes|by apply Forall_replicate]. }
    { rewrite !length_app. cbn [length]. rewrite !length_replicate, length_le_bytes. lia. }
    assert (padding (length r) = 0x80 :: replicate (56 - S (length r)) 0) as ->.
    { rewrite padding_eq. rewrite Nat.mod_small by lia. rewrite (proj2 (Nat.ltb_lt _ _)) by lia. do 2 f_equal. }
    rewrite absorb_one by (rewrite !length_app; cbn [length]; rewrite !length_replicate, length_le_bytes; lia).
    f_equal. change (replicate (128 - (56 + 4)) 0) with (replicate 4 0 ++ replicate 64 0).
    rewrite !app_assoc. apply take_app_length'. rewrite !length_app. cbn [length]. rewrite !length_replicate, length_le_bytes. lia.
  - rewrite at_offset_blit, length_le_bytes, Dz, Tz by (rewrite ?length_le_bytes; lia).
    set (y := (r ++ _) ++ le_bytes 4 b ++ replicate (128 - (120 + 4)) 0).
    assert (bytes y) as By.
    { repeat (apply Forall_app; split); [done|apply bytes_zeros|apply le_bytes_bytes|by apply Forall_replicate]. }
    assert (length y = 128%nat) as Ly.
    { unfold y. rewrite !length_app. cbn [length]. rewrite !length_replicate, length_le_bytes. lia. }
    rewrite !md4_block_step by solve [done | by apply Forall_drop | rewrite ?length_drop; lia].
    assert (r ++ padding (length r) ++ le_bytes 4 b ++ replicate 4 0 = y) as ->.
    { unfold y. rewrite <- app_assoc. do 2 f_equal. rewrite padding_eq. destruct (decide (length r = 64%nat)) as [->|]; [done|].
      rewrite Nat.mod_small by lia. rewrite (proj2 (Nat.ltb_ge _ _)) by lia. do 2 f_equal. }
    destruct (absorb_step 64 md4_block ltac:(lia) A y) as [-> _]; [lia|]. rewrite absorb_one by (rewrite length_drop; lia).
    rewrite (take_ge (drop 64 y)) by (rewrite length_drop; lia). reflexivity.
Qed.

Lemma mdfour_small m : bytes m -> 8 * Z.of_nat (length m) < 2 ^ 31 -> mdfour m = Some (md4 m).
Proof.
  intros Hb H. unfold mdfour. cbv zeta. rewrite (Z.mul_comm _ 8), (proj2 (Z.leb_gt _ _)) by lia.
  unfold u32. rewrite Z.mod_small by lia.
  destruct (mdfour_loop_absorb (length m) md4_init_state m (padding (length m) ++ le_bytes 8 (8 * Z.of_nat (length m))))
    as (A & r & -> & Hr & Hl & Hm & Ea); [done|done|]. f_equal. unfold md4, md4_padded. rewrite Ea.
  assert (padding (length m) = padding (length r)) as -> by (by rewrite !padding_eq, Hm).
  rewrite <- last_blocks by (done || lia). cbn [mbind list_bind].
  destruct (length r <=? 55)%nat; cbn [list4 mbind list_bind]; by rewrite !copy4_bytes.
Qed.

(** The digest of a message is that of its blocks with the padding and the
    64-bit count of bits, where the length of the message in bits is an [int]; a longer
    message overflows one. *)
Theorem mdfour_digest m :
  bytes m -> mdfour m = if 2 ^ 31 <=? 8 * Z.of_nat (length m) then None else Some (md4 m).
Proof.
  intros Hb. destruct (Z.leb_spec (2 ^ 31) (8 * Z.of_nat (length m))) as [H|H]; [|by apply mdfour_small].
  unfold mdfour. cbv zeta. by rewrite (Z.mul_comm _ 8), (proj2 (Z.leb_le _ _)) by lia.
Qed.

Lemma mdfour_digest_witness : mdfour [97; 98; 99] = Some (md4 [97; 98; 99]) /\ mdfour (replicate 64 7) = Some (md4 (replicate 64 7)).
Proof. split; [apply (mdfour_digest [97; 98; 99])|apply (mdfour_digest (replicate 64 7))]; repeat constructor; done. Defined.
