(* ===== verification/Sha1.v ===== *)
(** * SHA-1

    [libr/hash/sha1.c]. *)

From S2P Require Import Prelude HashBlocks.

Definition SHA_ROT (X n : Z) : Z := rotl32 X n.

Record R_SHA_CTX := mk_sha { sha_H : list Z; sha_W : list Z; sha_lenW : Z; sha_sizeHi : Z; sha_sizeLo : Z }.

(** The words 16 to 79 from those before them: [n] turns from [t] on. *)
Fixpoint schedule (n t : nat) (W : list Z) : list Z :=
  match n with
  | O => W
  | S n =>
      let w := SHA_ROT (Z.lxor (Z.lxor (Z.lxor (word_at W (t - 3)) (word_at W (t - 8))) (word_at W (t - 14))) (word_at W (t - 16))) 1 in
      schedule n (S t) (<[t := w]> W)
  end.

Record words5 := W5 { hA : Z; hB : Z; hC : Z; hD : Z; hE : Z }.

Definition choose (v : words5) : Z := Z.lxor (Z.land (Z.lxor (hC v) (hD v)) (hB v)) (hD v).
Definition parity3 (v : words5) : Z := Z.lxor (Z.lxor (hB v) (hC v)) (hD v).
Definition majority (v : words5) : Z := Z.lor (Z.land (hB v) (hC v)) (Z.land (hD v) (Z.lor (hB v) (hC v))).

(** A turn of one of the four loops, and a loop over the indices [ts]. *)
Definition sha_step (f : words5 -> Z) (k w : Z) (v : words5) : words5 :=
  W5 (u32 (SHA_ROT (hA v) 5 + f v + hE v + w + k)) (hA v) (SHA_ROT (hB v) 30) (hC v) (hD v).
Definition sha_round (f : words5 -> Z) (k : Z) (W : list Z) (ts : list nat) (v : words5) : words5 :=
  foldl (fun v t => sha_step f k (word_at W t) v) v ts.

Definition rounds (W : list Z) (v : words5) : words5 :=
  let v := sha_round choose 0x5a827999 W (seq 0 20) v in
  let v := sha_round parity3 0x6ed9eba1 W (seq 20 20) v in
  let v := sha_round majority 0x8f1bbcdc W (seq 40 20) v in
  sha_round parity3 0xca62c1d6 W (seq 60 20) v.

Definition shaHashBlock (ctx : R_SHA_CTX) : R_SHA_CTX :=
  let W := schedule 64 16 (sha_W ctx) in
  let h i := word_at (sha_H ctx) i in
  let v := rounds W (W5 (h 0%nat) (h 1%nat) (h 2%nat) (h 3%nat) (h 4%nat)) in
  mk_sha [u32 (h 0%nat + hA v); u32 (h 1%nat + hB v); u32 (h 2%nat + hC v); u32 (h 3%nat + hD v); u32 (h 4%nat + hE v)]
    W (sha_lenW ctx) (sha_sizeHi ctx) (sha_sizeLo ctx).

Definition sha1_init_state : list Z := [0x67452301; 0xefcdab89; 0x98badcfe; 0x10325476; 0xc3d2e1f0].
Definition SHA1_Init : R_SHA_CTX := mk_sha sha1_init_state (replicate 80 0) 0 0 0.

(** A turn of the loop of [SHA1_Update]. *)
Definition sha_byte (ctx : R_SHA_CTX) (b : Z) : R_SHA_CTX :=
  let k := Z.to_nat (Z.quot (sha_lenW ctx) 4) in
  let W := <[k := Z.lor (u32 (Z.shiftl (word_at (sha_W ctx) k) 8)) b]> (sha_W ctx) in
  let lenW := sha_lenW ctx + 1 in
  let ctx := mk_sha (sha_H ctx) W lenW (sha_sizeHi ctx) (sha_sizeLo ctx) in
  let ctx := if Z.rem lenW 64 =? 0 then let c := shaHashBlock ctx in mk_sha (sha_H c) (sha_W c) 0 (sha_sizeHi c) (sha_sizeLo c) else ctx in
  let sizeLo := u32 (sha_sizeLo ctx + 8) in
  mk_sha (sha_H ctx) (sha_W ctx) (sha_lenW ctx) (u32 (sha_sizeHi ctx + b2z (sizeLo <? 8))) sizeLo.

Definition SHA1_Update (ctx : R_SHA_CTX) (dataIn : list Z) : R_SHA_CTX := foldl sha_byte ctx dataIn.

(** Zeros until 56 bytes of the block are there.  [None]: [n] turns are not
    enough. *)
Fixpoint pad_loop (n : nat) (ctx : R_SHA_CTX) : option R_SHA_CTX :=
  match n with
  | O => None
  | S n => if sha_lenW ctx =? 56 then Some ctx else pad_loop n (SHA1_Update ctx [0])
  end.

(** The bytes of the output: the upper byte of a word, which is then shifted. *)
Fixpoint out_loop (n i : nat) (H : list Z) : list Z :=
  match n with
  | O => []
  | S n => u8 (Z.shiftr (word_at H (i / 4)) 24) :: out_loop n (S i) (<[(i / 4)%nat := u32 (Z.shiftl (word_at H (i / 4)) 8)]> H)
  end.

(** A block of 64 turns holds every length. *)
Definition SHA1_Final (ctx : R_SHA_CTX) : option (list Z * R_SHA_CTX) :=
  let byte x s := Z.land (Z.shiftr x s) 255 in
  let hi := sha_sizeHi ctx in let lo := sha_sizeLo ctx in
  let padlen := [byte hi 24; byte hi 16; byte hi 8; byte hi 0; byte lo 24; byte lo 16; byte lo 8; byte lo 0] in
  ctx ← pad_loop 65 (SHA1_Update ctx [0x80]);
  let ctx := SHA1_Update ctx padlen in
  Some (out_loop 20 0 (sha_H ctx), SHA1_Init).

(** ** The digest of a message *)

Definition sha1_block (H : list Z) (block : list Z) : list Z :=
  sha_H (shaHashBlock (mk_sha H (be_words32 16 block ++ replicate 64 0) 0 0 0)).
Definition sha1_padded (m : list Z) : list Z := m ++ padding (length m) ++ be_bytes 8 (8 * Z.of_nat (length m)).
Definition sha1 (m : list Z) : list Z := absorb 64 sha1_block sha1_init_state (sha1_padded m) ≫= be_bytes 4.

Example sha1_abc : sha1 [97; 98; 99] =
  [0xa9; 0x99; 0x3e; 0x36; 0x47; 0x06; 0x81; 0x6a; 0xba; 0x3e; 0x25; 0x71; 0x78; 0x50; 0xc2; 0x6c; 0x9c; 0xd0; 0xd8; 0x9d].
Proof. vm_compute. reflexivity. Qed.
Example sha1_final_abc : fst <$> SHA1_Final (SHA1_Update SHA1_Init [97; 98; 99]) = Some (sha1 [97; 98; 99]).
Proof. vm_compute. reflexivity. Qed.

(** ** The schedule reads the first sixteen words only *)

Lemma word_at_insert l i w : (i < length l)%nat -> word_at (<[i := w]> l) i = w.
Proof. intros H. unfold word_at. by rewrite list_lookup_insert_eq. Qed.

Lemma word_at_take n l i : (i < n)%nat -> word_at (take n l) i = word_at l i.
Proof. intros H. unfold word_at. by rewrite lookup_take_lt. Qed.

Lemma schedule_length n t W : length (schedule n t W) = length W.
Proof. revert t W. induction n as [|n IH]; intros t W; cbn [schedule]; [done|]. by rewrite IH, length_insert. Qed.

Lemma schedule_take n t W W' :
  (16 <= t)%nat -> (t + n <= length W)%nat -> length W' = length W -> take t W = take t W' ->
  take (t + n) (schedule n t W) = take (t + n) (schedule n t W').
Proof.
  revert t W W'. induction n as [|n IH]; intros t W W' Ht Hl E Et; cbn [schedule]; [by rewrite Nat.add_0_r|].
  assert (forall i, (i < t)%nat -> word_at W i = word_at W' i) as Hw.
  { intros i Hi. by rewrite <- (word_at_take t W), Et, word_at_take. }
  rewrite !Hw by lia. set (w := SHA_ROT _ _). replace (t + S n)%nat with (S t + n)%nat by lia.
  apply IH; [lia|rewrite length_insert; lia|by rewrite !length_insert|].
  rewrite !(take_S_r _ t w) by (apply list_lookup_insert_eq; lia). by rewrite !take_insert_ge, Et by lia.
Qed.

Lemma hash_block_words ctx block :
  length (sha_W ctx) = 80%nat -> take 16 (sha_W ctx) = be_words32 16 block ->
  sha_H (shaHashBlock ctx) = sha1_block (sha_H ctx) block /\ length (sha_W (shaHashBlock ctx)) = 80%nat
  /\ sha_sizeHi (shaHashBlock ctx) = sha_sizeHi ctx /\ sha_sizeLo (shaHashBlock ctx) = sha_sizeLo ctx.
Proof.
  intros Hl Hw. unfold sha1_block, shaHashBlock. cbn [sha_H sha_W].
  assert (schedule 64 16 (sha_W ctx) = schedule 64 16 (be_words32 16 block ++ replicate 64 0)) as E.
  { rewrite <- (take_ge (schedule 64 16 (sha_W ctx)) 80) by (rewrite schedule_length; lia).
    rewrite <- (take_ge (schedule 64 16 (be_words32 16 block ++ _)) 80) by (rewrite schedule_length, length_app, be_words_length, length_replicate; lia).
    apply (schedule_take 64 16); [lia|lia|rewrite length_app, be_words_length, length_replicate; lia|].
    rewrite Hw, take_app_le, take_ge by (rewrite be_words_length; lia). done. }
  rewrite E. split; [reflexivity|]. split; [rewrite <- E, schedule_length; exact Hl|]. split; reflexivity.
Qed.

(** ** A context and the message it has read *)

Lemma be_val_snoc l b : be_val (l ++ [b]) = be_val l * 2 ^ 8 + b.
Proof. unfold be_val. rewrite reverse_snoc. cbn [le_val]. lia. Qed.

Lemma be_words_snoc k l : (4 * S k <= length l)%nat -> be_words32 (S k) l = be_words32 k l ++ [be_val (take 4 (drop (4 * k) l))].
Proof.
  revert l. induction k as [|k IH]; intros l H; [done|].
  change (be_words32 (S (S k)) l) with (be_val (take 4 l) :: be_words32 (S k) (drop 4 l)). rewrite IH by (rewrite length_drop; lia).
  rewrite drop_drop. by replace (4 + 4 * k)%nat with (4 * S k)%nat by lia.
Qed.

Lemma be_words_app k l x : (4 * k <= length l)%nat -> be_words32 k (l ++ x) = be_words32 k l.
Proof.
  revert l. induction k as [|k IH]; intros l H; [done|]. cbn [be_words32 be_words]. rewrite take_app_le, drop_app_le by lia.
  f_equal. apply IH. rewrite length_drop. lia.
Qed.

Record sha_read (ctx : R_SHA_CTX) (m : list Z) : Prop := {
  sr_H : sha_H ctx = absorb 64 sha1_block sha1_init_state m;
  sr_W : length (sha_W ctx) = 80%nat;
  sr_lenW : sha_lenW ctx = Z.of_nat (length m mod 64);
  sr_words : take (length m mod 64 / 4) (sha_W ctx) = be_words32 (length m mod 64 / 4) (rest 64 m);
  sr_part : word_at (sha_W ctx) (length m mod 64 / 4) mod 2 ^ (8 * Z.of_nat (length m mod 4)) = be_val (drop (4 * (length m mod 64 / 4)) (rest 64 m));
  sr_lo : sha_sizeLo ctx = u32 (8 * Z.of_nat (length m));
  sr_hi : sha_sizeHi ctx = u32 (8 * Z.of_nat (length m) / 2 ^ 32)
}.

Lemma sha1_init_read : sha_read SHA1_Init [].
Proof. by split. Qed.

(** A byte shifted into a word. *)
Lemma shift_in w b j : 0 <= j < 4 -> is_byte b ->
  Z.lor (u32 (Z.shiftl w 8)) b mod 2 ^ (8 * (j + 1)) = (w mod 2 ^ (8 * j)) * 2 ^ 8 + b.
Proof.
  intros Hj Hb. unfold u32.
  assert (Z.shiftl w 8 mod 2 ^ 32 = Z.shiftl (w mod 2 ^ 24) 8) as ->.
  { rewrite !Z.shiftl_mul_pow2 by lia. change (2 ^ 32) with (2 ^ 24 * 2 ^ 8). by rewrite Z.mul_mod_distr_r by lia. }
  rewrite lor_shiftl_add by (unfold is_byte in Hb; lia). replace (8 * (j + 1)) with (8 * j + 8) by lia.
  rewrite Z.pow_add_r, (Z.mul_comm (2 ^ (8 * j))), Z.rem_mul_r by lia.
  rewrite (Z.add_comm (_ * _) b), Z.mod_add, Z.div_add, (Z.mod_small b), (Z.div_small b) by (unfold is_byte in Hb; lia).
  rewrite Z.add_0_l, mod_mod_pow2 by lia. lia.
Qed.

(** The words after a byte: [q] bytes of the block were there. *)
Lemma words_step W r b q :
  length W = 80%nat -> length r = q -> (q < 64)%nat -> is_byte b ->
  take (q / 4) W = be_words32 (q / 4) r -> word_at W (q / 4) mod 2 ^ (8 * Z.of_nat (q mod 4)) = be_val (drop (4 * (q / 4)) r) ->
  let W' := <[(q / 4)%nat := Z.lor (u32 (Z.shiftl (word_at W (q / 4)) 8)) b]> W in
  take (S q / 4) W' = be_words32 (S q / 4) (r ++ [b])
  /\ word_at W' (S q / 4) mod 2 ^ (8 * Z.of_nat (S q mod 4)) = be_val (drop (4 * (S q / 4)) (r ++ [b])).
Proof.
  intros HW Hr Hq Hb Ht Hp W'. set (k := (q / 4)%nat) in *. set (j := (q mod 4)%nat) in *.
  assert (q = 4 * k + j)%nat as Eq by (subst k j; pose proof (Nat.div_mod q 4); lia).
  assert (j < 4)%nat as Hj by (apply Nat.mod_upper_bound; lia).
  set (w' := Z.lor (u32 (Z.shiftl (word_at W k) 8)) b) in *.
  assert (w' mod 2 ^ (8 * (Z.of_nat j + 1)) = be_val (drop (4 * k) (r ++ [b]))) as Ew.
  { unfold w'. rewrite shift_in, Hp, drop_app_le, be_val_snoc by (lia || done). done. }
  assert (word_at W' k = w') as Ek by (apply word_at_insert; lia).
  assert (take k W' = be_words32 k (r ++ [b])) as Etk.
  { unfold W'. rewrite take_insert_ge, Ht, be_words_app by lia. done. }
  destruct (decide (j = 3)%nat) as [Ej|Ej].
  - assert (S q / 4 = S k /\ S q mod 4 = 0)%nat as [-> ->].
    { rewrite Eq, Ej. replace (S (4 * k + 3)) with (0 + S k * 4)%nat by lia. by rewrite Nat.div_add, Nat.Div0.mod_add. }
    rewrite Z.mod_1_r, drop_ge by (rewrite length_app; simpl; lia). split; [|done].
    rewrite (take_S_r _ k w') by (apply list_lookup_insert_eq; lia). rewrite Etk, be_words_snoc by (rewrite length_app; simpl; lia).
    do 2 f_equal. rewrite take_ge by (rewrite length_drop, length_app; simpl; lia). rewrite <- Ew, Ej. f_equal. symmetry. apply Z.mod_small.
    unfold w'. split; [apply Z.lor_nonneg; unfold is_byte in Hb; pose proof (u32_range (Z.shiftl (word_at W k) 8)); lia|].
    apply (lor_range 32); [lia|apply u32_range|unfold is_byte in Hb; lia].
  - assert (S q / 4 = k /\ S q mod 4 = S j)%nat as [-> ->].
    { rewrite Eq. replace (S (4 * k + j)) with (S j + k * 4)%nat by lia. rewrite Nat.div_add, Nat.Div0.mod_add, Nat.div_small, Nat.mod_small by lia. lia. }
    split; [done|]. rewrite Ek, <- Ew. do 3 f_equal. lia.
Qed.

Lemma sha_byte_read ctx m b : sha_read ctx m -> is_byte b -> sha_read (sha_byte ctx b) (m ++ [b]).
Proof.
  intros [RH RW Rl Rw Rp Rlo Rhi] Hb. pose proof (rest_length 64 ltac:(lia) m) as Lr. set (q := (length m mod 64)%nat) in *.
  assert (q < 64)%nat as Hq by (apply Nat.mod_upper_bound; lia).
  assert (length m mod 4 = q mod 4)%nat as E4.
  { unfold q. pose proof (Nat.div_mod (length m) 64 ltac:(lia)) as Ed.
    rewrite Ed at 1. replace (64 * (length m / 64) + length m mod 64)%nat with (length m mod 64 + 16 * (length m / 64) * 4)%nat by lia. apply Nat.Div0.mod_add. }
  rewrite E4 in Rp. destruct (words_step (sha_W ctx) (rest 64 m) b q RW Lr Hq Hb Rw Rp) as [Sw Sp].
  destruct (absorb_app 64 sha1_block ltac:(lia) sha1_init_state m [b]) as [Ea Er]. rewrite <- RH in Ea.
  assert (length (rest 64 m ++ [b]) = S q) as Lrb by (rewrite length_app; simpl; lia).
  assert (length (m ++ [b]) = S (length m)) as Lm by (rewrite length_app; simpl; lia).
  assert (u32 (sha_sizeLo ctx + 8) = u32 (8 * Z.of_nat (S (length m)))) as Elo.
  { rewrite Rlo. unfold u32. zlia. }
  assert (u32 (sha_sizeHi ctx + b2z (u32 (sha_sizeLo ctx + 8) <? 8)) = u32 (8 * Z.of_nat (S (length m)) / 2 ^ 32)) as Ehi.
  { rewrite Rhi, Rlo. unfold u32. destruct (Z.ltb_spec ((8 * Z.of_nat (length m)) mod 2 ^ 32 + 8) 8); cbn [b2z];
      destruct (Z.ltb_spec (((8 * Z.of_nat (length m)) mod 2 ^ 32 + 8) mod 2 ^ 32) 8); cbn [b2z]; zlia. }
  unfold sha_byte. rewrite Rl. replace (Z.to_nat (Z.quot (Z.of_nat q) 4)) with (q / 4)%nat
    by (rewrite Z.quot_div_nonneg by lia; change 4 with (Z.of_nat 4); rewrite <- Nat2Z.inj_div, Nat2Z.id; done).
  set (W' := <[(q / 4)%nat := _]> (sha_W ctx)) in *. cbv zeta. rewrite Z.rem_mod_nonneg by lia.
  assert (length W' = 80%nat) as LW by (unfold W'; by rewrite length_insert).
  assert (forall c, sha_H c = absorb 64 sha1_block sha1_init_state (m ++ [b]) -> length (sha_W c) = 80%nat ->
    sha_lenW c = Z.of_nat (S (length m) mod 64) ->
    take (S (length m) mod 64 / 4) (sha_W c) = be_words32 (S (length m) mod 64 / 4) (rest 64 (m ++ [b])) ->
    word_at (sha_W c) (S (length m) mod 64 / 4) mod 2 ^ (8 * Z.of_nat (S (length m) mod 4)) = be_val (drop (4 * (S (length m) mod 64 / 4)) (rest 64 (m ++ [b]))) ->
    sha_sizeLo c = sha_sizeLo ctx -> sha_sizeHi c = sha_sizeHi ctx ->
    sha_read (mk_sha (sha_H c) (sha_W c) (sha_lenW c) (u32 (sha_sizeHi c + b2z (u32 (sha_sizeLo c + 8) <? 8))) (u32 (sha_sizeLo c + 8))) (m ++ [b])) as Hc.
  { intros c H1 H2 H3 H4 H5 H6 H7. rewrite H6, H7. split; rewrite ?Lm; done. }
  destruct (decide (q = 63)%nat) as [E63|E63].
  - assert (S (length m) mod 64 = 0 /\ S (length m) mod 4 = 0)%nat as [M1 M2].
    { pose proof (Nat.div_mod (length m) 64 ltac:(lia)) as Ed. fold q in Ed. rewrite Ed, E63. split.
      - replace (S (64 * (length m / 64) + 63)) with (S (length m / 64) * 64)%nat by lia. apply Nat.Div0.mod_mul.
      - replace (S (64 * (length m / 64) + 63)) with (S (length m / 64) * 16 * 4)%nat by lia. apply Nat.Div0.mod_mul. }
    rewrite E63 in *. change ((Z.of_nat 63 + 1) mod 64 =? 0) with true. cbv iota.
    destruct (hash_block_words (mk_sha (sha_H ctx) W' (Z.of_nat 63 + 1) (sha_sizeHi ctx) (sha_sizeLo ctx)) (rest 64 m ++ [b]) LW Sw) as (Hh & Hw & Hhi & Hlo).
    cbn [sha_H sha_sizeHi sha_sizeLo] in Hh, Hhi, Hlo.
    destruct (absorb_block 64 sha1_block ltac:(lia) (sha_H ctx) (rest 64 m ++ [b])) as [A1 A2]; [lia|].
    destruct (shaHashBlock _) as [cH cW cl chi clo]. cbn [sha_H sha_W sha_lenW sha_sizeHi sha_sizeLo] in *. subst chi clo.
    apply (Hc (mk_sha cH cW 0 (sha_sizeHi ctx) (sha_sizeLo ctx))); cbn [sha_H sha_W sha_lenW sha_sizeHi sha_sizeLo]; rewrite ?M1, ?M2; try done.
    + by rewrite Hh, Ea, A1.
    + rewrite Z.mod_1_r, Er, A2. done.
  - assert (S (length m) mod 64 = S q /\ S (length m) mod 4 = S q mod 4)%nat as [M1 M2].
    { pose proof (Nat.div_mod (length m) 64 ltac:(lia)) as Ed. fold q in Ed. rewrite Ed. split.
      - replace (S (64 * (length m / 64) + q)) with (S q + length m / 64 * 64)%nat by lia. rewrite Nat.Div0.mod_add. apply Nat.mod_small. lia.
      - replace (S (64 * (length m / 64) + q)) with (S q + 16 * (length m / 64) * 4)%nat by lia. apply Nat.Div0.mod_add. }
    rewrite (proj2 (Z.eqb_neq _ _)) by zlia. destruct (absorb_short 64 sha1_block (sha_H ctx) (rest 64 m ++ [b])) as [A1 A2]; [lia|].
    apply (Hc (mk_sha (sha_H ctx) W' (Z.of_nat q + 1) (sha_sizeHi ctx) (sha_sizeLo ctx))); cbn [sha_H sha_W sha_lenW sha_sizeHi sha_sizeLo]; rewrite ?M1, ?M2, ?Er, ?A2; try done.
    + by rewrite Ea, A1.
    + lia.
Qed.

Lemma sha_update_read ctx m x : sha_read ctx m -> bytes x -> sha_read (SHA1_Update ctx x) (m ++ x).
Proof.
  intros R Hx. revert ctx m R. induction Hx as [|b x Hb Hx IH]; intros ctx m R; [by rewrite app_nil_r|].
  unfold SHA1_Update. cbn [foldl]. replace (m ++ b :: x) with ((m ++ [b]) ++ x) by (by rewrite <- app_assoc).
  apply IH. by apply sha_byte_read.
Qed.

(** ** The end of a message *)

Lemma pad_loop_read n k ctx m :
  sha_read ctx m -> ((length m + k) mod 64 = 56)%nat -> (k < 64)%nat -> (k < n)%nat ->
  exists ctx', pad_loop n ctx = Some ctx' /\ sha_read ctx' (m ++ replicate k 0).
Proof.
  revert n ctx m. induction k as [|k IH]; intros n ctx m R Hk Hl Hn; (destruct n as [|n]; [lia|]); cbn [pad_loop].
  - rewrite Nat.add_0_r in Hk. rewrite (sr_lenW _ _ R), Hk. exists ctx. by rewrite app_nil_r.
  - rewrite (sr_lenW _ _ R). rewrite (proj2 (Z.eqb_neq _ _)).
    + destruct (IH n (SHA1_Update ctx [0]) (m ++ [0])) as (ctx' & E & R').
      * apply sha_update_read; [done|]. by repeat constructor.
      * rewrite length_app. cbn [length]. by replace (length m + 1 + k)%nat with (length m + S k)%nat by lia.
      * lia.
      * lia.
      * exists ctx'. rewrite <- app_assoc in R'. done.
    + intros E. change 56 with (Z.of_nat 56) in E. apply Nat2Z.inj in E. rewrite Nat.Div0.add_mod, E, (Nat.mod_small (S k) 64) in Hk by lia.
      destruct (decide (56 + S k < 64)%nat); [rewrite Nat.mod_small in Hk; lia|].
      replace (56 + S k)%nat with (k - 7 + 1 * 64)%nat in Hk by lia. rewrite Nat.Div0.mod_add, Nat.mod_small in Hk; lia.
Qed.

Lemma padding_zeros n : exists k, padding n = 0x80 :: replicate k 0 /\ ((S n + k) mod 64 = 56)%nat /\ (k < 64)%nat.
Proof.
  rewrite padding_eq. pose proof (Nat.mod_upper_bound n 64 ltac:(lia)). pose proof (Nat.div_mod n 64 ltac:(lia)).
  destruct (Nat.ltb_spec (n mod 64) 56); eexists; (split; [done|]); (split; [|lia]).
  - replace (S n + (55 - n mod 64))%nat with (56 + n / 64 * 64)%nat by lia. by rewrite Nat.Div0.mod_add.
  - replace (S n + (119 - n mod 64))%nat with (56 + S (n / 64) * 64)%nat by lia. by rewrite Nat.Div0.mod_add.
Qed.

(** The upper byte of a word that has moved. *)
Lemma top_byte x k : 0 <= k <= 24 -> u8 (Z.shiftr (u32 (Z.shiftl x k)) 24) = u8 (Z.shiftr x (24 - k)).
Proof.
  intros Hk. unfold u8, u32. apply Z.bits_inj'. intros i Hi.
  destruct (decide (i < 8)); [|by rewrite !Z.mod_pow2_bits_high by lia].
  rewrite !Z.mod_pow2_bits_low, !Z.shiftr_spec, Z.mod_pow2_bits_low, Z.shiftl_spec by lia. f_equal. lia.
Qed.

Lemma shift_again x j : 0 <= j -> u32 (Z.shiftl (u32 (Z.shiftl x j)) 8) = u32 (Z.shiftl x (j + 8)).
Proof.
  intros Hj. unfold u32. apply Z.bits_inj'. intros i Hi. destruct (decide (i < 32)); [|by rewrite !Z.mod_pow2_bits_high by lia].
  rewrite !Z.mod_pow2_bits_low, !Z.shiftl_spec by lia. destruct (decide (i < 8)).
  - rewrite !Z.testbit_neg_r by lia. done.
  - rewrite Z.mod_pow2_bits_low, Z.shiftl_spec by lia. f_equal. lia.
Qed.

Lemma out_step n j P h R :
  (j < 4)%nat -> out_loop (S n) (4 * length P + j) (P ++ h :: R) =
  u8 (Z.shiftr h 24) :: out_loop n (4 * length P + S j) (P ++ u32 (Z.shiftl h 8) :: R).
Proof.
  intros Hj. cbn [out_loop]. replace ((4 * length P + j) / 4)%nat with (length P)
    by (rewrite (Nat.mul_comm 4), Nat.div_add_l, Nat.div_small by lia; lia).
  unfold word_at. rewrite (list_lookup_middle P R h) by done. rewrite <- (Nat.add_0_r (length P)) at 2.
  rewrite insert_app_r. cbn [default]. by replace (S (4 * length P + j)) with (4 * length P + S j)%nat by lia.
Qed.

Lemma out_word n P h R : exists h', out_loop (4 + n) (4 * length P) (P ++ h :: R) = be_bytes 4 h ++ out_loop n (4 * length (P ++ [h'])) ((P ++ [h']) ++ R).
Proof.
  exists (u32 (Z.shiftl h 32)). rewrite <- (Nat.add_0_r (4 * length P)). cbn [Nat.add]. rewrite !out_step by lia.
  rewrite !shift_again by lia. rewrite !top_byte by lia.
  unfold be_bytes. cbn [le_bytes]. rewrite !Z.shiftr_shiftr by lia.
  change (reverse [?a; ?b; ?c; ?d]) with [d; c; b; a]. rewrite length_app, <- app_assoc. cbn [app length].
  rewrite Z.shiftr_0_r. do 4 f_equal. f_equal. lia.
Qed.

Lemma out_loop_bytes P R : out_loop (4 * length R) (4 * length P) (P ++ R) = R ≫= be_bytes 4.
Proof.
  revert P. induction R as [|h R IH]; intros P; [done|]. replace (4 * length (h :: R))%nat with (4 + 4 * length R)%nat by (cbn [length]; lia).
  destruct (out_word (4 * length R) P h R) as [h' ->]. rewrite IH. done.
Qed.

Lemma absorb_sha1_length H m : length H = 5%nat -> length (absorb 64 sha1_block H m) = 5%nat.
Proof.
  unfold absorb. generalize (length m / 64)%nat as n. intros n. revert H m. induction n as [|n IH]; intros H m E; [done|].
  cbn [absorb_n]. apply IH. reflexivity.
Qed.

(** The count of bits as [SHA1_Final] stores it. *)
Lemma be_bytes_8 n : be_bytes 8 n = be_bytes 4 (u32 (n / 2 ^ 32)) ++ be_bytes 4 (u32 n).
Proof.
  unfold be_bytes. change 8%nat with (4 + 4)%nat. rewrite le_bytes_app, reverse_app. change (8 * Z.of_nat 4) with 32.
  change u32 with (fun x => x mod 2 ^ (8 * Z.of_nat 4)). cbv beta. by rewrite !le_bytes_mod_k, Z.shiftr_div_pow2 by lia.
Qed.

Lemma be_bytes_4 x :
  be_bytes 4 x = [Z.land (Z.shiftr x 24) 255; Z.land (Z.shiftr x 16) 255; Z.land (Z.shiftr x 8) 255; Z.land (Z.shiftr x 0) 255].
Proof.
  change 255 with (2 ^ 8 - 1). rewrite !pow2_mod_land by lia. unfold be_bytes. cbn [le_bytes].
  rewrite !Z.shiftr_shiftr by lia. rewrite Z.shiftr_0_r. reflexivity.
Qed.

Lemma sha_final_read ctx m : sha_read ctx m -> fst <$> SHA1_Final ctx = Some (sha1 m).
Proof.
  intros R. unfold SHA1_Final. cbv zeta.
  destruct (padding_zeros (length m)) as (k & Ep & Hk & Hk64).
  destruct (pad_loop_read 65 k (SHA1_Update ctx [0x80]) (m ++ [0x80])) as (c & -> & R1).
  { apply sha_update_read; [done|]. repeat constructor; done. }
  { rewrite length_app. cbn [length]. by replace (length m + 1 + k)%nat with (S (length m) + k)%nat by lia. }
  { done. }
  { lia. }
  cbn [mbind option_bind]. cbn [fmap option_fmap option_map fst].
  change [?a; ?b; ?c; ?d; ?e; ?f; ?g; ?h] with ([a; b; c; d] ++ [e; f; g; h]). rewrite <- !be_bytes_4.
  rewrite (sr_lo _ _ R), (sr_hi _ _ R), <- be_bytes_8.
  pose proof (sha_update_read _ _ _ R1 (be_bytes_bytes 8 (8 * Z.of_nat (length m)))) as R2.
  rewrite (sr_H _ _ R2). rewrite <- !app_assoc in *. change ([0x80] ++ replicate k 0 ++ ?x) with ((0x80 :: replicate k 0) ++ x).
  rewrite <- Ep. fold (sha1_padded m). unfold sha1. pose proof (absorb_sha1_length sha1_init_state (sha1_padded m) eq_refl) as E.
  revert E. generalize (absorb 64 sha1_block sha1_init_state (sha1_padded m)). intros H E.
  pose proof (out_loop_bytes [] H) as O. rewrite E in O. by rewrite <- O.
Qed.

(** A message given to [SHA1_Update] piece by piece has the digest of the whole
    message, and the loop that pads it ends: at most 64 zeros fill a block up to its
    56 bytes.  The digest is that of the blocks of the message with its padding. *)
Theorem sha1_pieces chunks :
  Forall bytes chunks -> fst <$> SHA1_Final (foldl SHA1_Update SHA1_Init chunks) = Some (sha1 (concat chunks)).
Proof.
  intros Hc. apply sha_final_read.
  assert (forall c m, sha_read c m -> sha_read (foldl SHA1_Update c chunks) (m ++ concat chunks)) as H.
  { induction Hc as [|x chunks Hx Hc IH]; intros c m R; simpl; [by rewrite app_nil_r|].
    rewrite app_assoc. by apply IH, sha_update_read. }
  apply (H _ []), sha1_init_read.
Qed.

Lemma sha1_pieces_witness :
  fst <$> SHA1_Final (foldl SHA1_Update SHA1_Init [[97]; [98; 99]]) = Some (sha1 [97; 98; 99])
  /\ fst <$> SHA1_Final (foldl SHA1_Update SHA1_Init [replicate 40 1; replicate 40 2]) = Some (sha1 (replicate 40 1 ++ replicate 40 2)).
Proof.
  split; [apply (sha1_pieces [[97]; [98; 99]])|apply (sha1_pieces [replicate 40 1; replicate 40 2])];
    repeat constructor; done.
Defined.
