(* ===== verification/Sha2.v ===== *)
(** * SHA-256, SHA-384 and SHA-512

    [libr/hash/sha2.c], in the form without unrolled loops and on a little-endian
    host.  The two transformations differ in the width of their words, so that
    they are one definition over it; the contexts differ in their counts of bits. *)

From S2P Require Import Prelude Endian HashBlocks.

(** ** Words *)

(** [REVERSE32] and [REVERSE64]. *)
Definition REVERSE32 (w : Z) : Z :=
  let tmp := Z.lor (Z.shiftr w 16) (u32 (Z.shiftl w 16)) in
  Z.lor (Z.shiftr (Z.land tmp 0xff00ff00) 8) (u32 (Z.shiftl (Z.land tmp 0x00ff00ff) 8)).
Definition REVERSE64 (w : Z) : Z :=
  let tmp := Z.lor (Z.shiftr w 32) (u64 (Z.shiftl w 32)) in
  let tmp := Z.lor (Z.shiftr (Z.land tmp 0xff00ff00ff00ff00) 8) (u64 (Z.shiftl (Z.land tmp 0x00ff00ff00ff00ff) 8)) in
  Z.lor (Z.shiftr (Z.land tmp 0xffff0000ffff0000) 16) (u64 (Z.shiftl (Z.land tmp 0x0000ffff0000ffff) 16)).

(** Shift and rotation: the names are those of the source, which takes them from the
    description of the algorithm. *)
Definition R (b x : Z) : Z := Z.shiftr x b.
Definition S32 (b x : Z) : Z := Z.lor (Z.shiftr x b) (u32 (Z.shiftl x (32 - b))).
Definition S64 (b x : Z) : Z := Z.lor (Z.shiftr x b) (u64 (Z.shiftl x (64 - b))).

Definition Sigma0_256 (x : Z) : Z := Z.lxor (Z.lxor (S32 2 x) (S32 13 x)) (S32 22 x).
Definition Sigma1_256 (x : Z) : Z := Z.lxor (Z.lxor (S32 6 x) (S32 11 x)) (S32 25 x).
Definition sigma0_256 (x : Z) : Z := Z.lxor (Z.lxor (S32 7 x) (S32 18 x)) (R 3 x).
Definition sigma1_256 (x : Z) : Z := Z.lxor (Z.lxor (S32 17 x) (S32 19 x)) (R 10 x).
Definition Sigma0_512 (x : Z) : Z := Z.lxor (Z.lxor (S64 28 x) (S64 34 x)) (S64 39 x).
Definition Sigma1_512 (x : Z) : Z := Z.lxor (Z.lxor (S64 14 x) (S64 18 x)) (S64 41 x).
Definition sigma0_512 (x : Z) : Z := Z.lxor (Z.lxor (S64 1 x) (S64 8 x)) (R 7 x).
Definition sigma1_512 (x : Z) : Z := Z.lxor (Z.lxor (S64 19 x) (S64 61 x)) (R 6 x).

Definition K256 : list Z := concat [
  [0x428a2f98; 0x71374491; 0xb5c0fbcf; 0xe9b5dba5];
  [0x3956c25b; 0x59f111f1; 0x923f82a4; 0xab1c5ed5];
  [0xd807aa98; 0x12835b01; 0x243185be; 0x550c7dc3];
  [0x72be5d74; 0x80deb1fe; 0x9bdc06a7; 0xc19bf174];
  [0xe49b69c1; 0xefbe4786; 0x0fc19dc6; 0x240ca1cc];
  [0x2de92c6f; 0x4a7484aa; 0x5cb0a9dc; 0x76f988da];
  [0x983e5152; 0xa831c66d; 0xb00327c8; 0xbf597fc7];
  [0xc6e00bf3; 0xd5a79147; 0x06ca6351; 0x14292967];
  [0x27b70a85; 0x2e1b2138; 0x4d2c6dfc; 0x53380d13];
  [0x650a7354; 0x766a0abb; 0x81c2c92e; 0x92722c85];
  [0xa2bfe8a1; 0xa81a664b; 0xc24b8b70; 0xc76c51a3];
  [0xd192e819; 0xd6990624; 0xf40e3585; 0x106aa070];
  [0x19a4c116; 0x1e376c08; 0x2748774c; 0x34b0bcb5];
  [0x391c0cb3; 0x4ed8aa4a; 0x5b9cca4f; 0x682e6ff3];
  [0x748f82ee; 0x78a5636f; 0x84c87814; 0x8cc70208];
  [0x90befffa; 0xa4506ceb; 0xbef9a3f7; 0xc67178f2]].
Definition K512 : list Z := concat [
  [0x428a2f98d728ae22; 0x7137449123ef65cd];
  [0xb5c0fbcfec4d3b2f; 0xe9b5dba58189dbbc];
  [0x3956c25bf348b538; 0x59f111f1b605d019];
  [0x923f82a4af194f9b; 0xab1c5ed5da6d8118];
  [0xd807aa98a3030242; 0x12835b0145706fbe];
  [0x243185be4ee4b28c; 0x550c7dc3d5ffb4e2];
  [0x72be5d74f27b896f; 0x80deb1fe3b1696b1];
  [0x9bdc06a725c71235; 0xc19bf174cf692694];
  [0xe49b69c19ef14ad2; 0xefbe4786384f25e3];
  [0x0fc19dc68b8cd5b5; 0x240ca1cc77ac9c65];
  [0x2de92c6f592b0275; 0x4a7484aa6ea6e483];
  [0x5cb0a9dcbd41fbd4; 0x76f988da831153b5];
  [0x983e5152ee66dfab; 0xa831c66d2db43210];
  [0xb00327c898fb213f; 0xbf597fc7beef0ee4];
  [0xc6e00bf33da88fc2; 0xd5a79147930aa725];
  [0x06ca6351e003826f; 0x142929670a0e6e70];
  [0x27b70a8546d22ffc; 0x2e1b21385c26c926];
  [0x4d2c6dfc5ac42aed; 0x53380d139d95b3df];
  [0x650a73548baf63de; 0x766a0abb3c77b2a8];
  [0x81c2c92e47edaee6; 0x92722c851482353b];
  [0xa2bfe8a14cf10364; 0xa81a664bbc423001];
  [0xc24b8b70d0f89791; 0xc76c51a30654be30];
  [0xd192e819d6ef5218; 0xd69906245565a910];
  [0xf40e35855771202a; 0x106aa07032bbd1b8];
  [0x19a4c116b8d2d0c8; 0x1e376c085141ab53];
  [0x2748774cdf8eeb99; 0x34b0bcb5e19b48a8];
  [0x391c0cb3c5c95a63; 0x4ed8aa4ae3418acb];
  [0x5b9cca4f7763e373; 0x682e6ff3d6b2b8a3];
  [0x748f82ee5defb2fc; 0x78a5636f43172f60];
  [0x84c87814a1f0ab72; 0x8cc702081a6439ec];
  [0x90befffa23631e28; 0xa4506cebde82bde9];
  [0xbef9a3f7b2c67915; 0xc67178f2e372532b];
  [0xca273eceea26619c; 0xd186b8c721c0c207];
  [0xeada7dd6cde0eb1e; 0xf57d4f7fee6ed178];
  [0x06f067aa72176fba; 0x0a637dc5a2c898a6];
  [0x113f9804bef90dae; 0x1b710b35131c471b];
  [0x28db77f523047d84; 0x32caab7b40c72493];
  [0x3c9ebe0a15c9bebc; 0x431d67c49c100d4c];
  [0x4cc5d4becb3e42b6; 0x597f299cfc657e2a];
  [0x5fcb6fab3ad6faec; 0x6c44198c4a475817]].
Definition sha256_initial_hash_value : list Z := [
  0x6a09e667; 0xbb67ae85; 0x3c6ef372; 0xa54ff53a;
  0x510e527f; 0x9b05688c; 0x1f83d9ab; 0x5be0cd19].
Definition sha384_initial_hash_value : list Z := [
  0xcbbb9d5dc1059ed8; 0x629a292a367cd507; 0x9159015a3070dd17; 0x152fecd8f70e5939;
  0x67332667ffc00b31; 0x8eb44a8768581511; 0xdb0c2e0d64f98fa7; 0x47b5481dbefa4fa4].
Definition sha512_initial_hash_value : list Z := [
  0x6a09e667f3bcc908; 0xbb67ae8584caa73b; 0x3c6ef372fe94f82b; 0xa54ff53a5f1d36f1;
  0x510e527fade682d1; 0x9b05688c2b3e6c1f; 0x1f83d9abfb41bd6b; 0x5be0cd19137e2179].

Record words8 := W8 { va : Z; vb : Z; vc : Z; vd : Z; ve : Z; vf : Z; vg : Z; vh : Z }.
Definition words8_of (l : list Z) : words8 :=
  let x i := default 0 (l !! i) in W8 (x 0%nat) (x 1%nat) (x 2%nat) (x 3%nat) (x 4%nat) (x 5%nat) (x 6%nat) (x 7%nat).

(** ** The transformation *)

(** The width of a word in bytes, its functions, the constants and their number. *)
Record family := mk_family {
  f_bytes : nat; f_REVERSE : Z -> Z; f_Sigma0 : Z -> Z; f_Sigma1 : Z -> Z; f_sigma0 : Z -> Z; f_sigma1 : Z -> Z;
  f_K : list Z; f_rounds : nat }.
Definition sha2_32 : family := mk_family 4 REVERSE32 Sigma0_256 Sigma1_256 sigma0_256 sigma1_256 K256 64.
Definition sha2_64 : family := mk_family 8 REVERSE64 Sigma0_512 Sigma1_512 sigma0_512 sigma1_512 K512 80.

Section transform.
Context (f : family).

(** Sums and complements of words. *)
Definition word (x : Z) : Z := x mod 2 ^ (8 * Z.of_nat (f_bytes f)).
Definition Ch (x y z : Z) : Z := Z.lxor (Z.land x y) (Z.land (Z.lxor x (2 ^ (8 * Z.of_nat (f_bytes f)) - 1)) z).
Definition Maj (x y z : Z) : Z := Z.lxor (Z.lxor (Z.land x y) (Z.land x z)) (Z.land y z).

(** The word [p[j]] of a buffer of bytes, and a store into it. *)
Definition get_word (p : list Z) (j : nat) : Z := le_val (take (f_bytes f) (drop (f_bytes f * j) p)).
Definition put_word (j : nat) (v : Z) (p : list Z) : list Z := at_offset (f_bytes f * j) (blit (le_bytes (f_bytes f) v)) p.

(** The eight variables after the round [j] with the word [w]. *)
Definition round (j : nat) (w : Z) (v : words8) : words8 :=
  let T1 := word (vh v + f_Sigma1 f (ve v) + Ch (ve v) (vf v) (vg v) + default 0 (f_K f !! j) + w) in
  let T2 := word (f_Sigma0 f (va v) + Maj (va v) (vb v) (vc v)) in
  W8 (word (T1 + T2)) (va v) (vb v) (vc v) (word (vd v + T1)) (ve v) (vf v) (vg v).

(** A turn of the first loop.  The words are kept in the buffer of the context; [data]
    is another buffer, or [None]: the same one. *)
Definition load_turn (data : option (list Z)) (st : words8 * list Z) (j : nat) : words8 * list Z :=
  let '(v, W) := st in
  let W := put_word j (f_REVERSE f (get_word (default W data) j)) W in
  (round j (get_word W j) v, W).
(** A turn of the second loop: the buffer is a ring of sixteen words. *)
Definition expand_turn (st : words8 * list Z) (j : nat) : words8 * list Z :=
  let '(v, W) := st in
  let ring i := Z.to_nat (Z.land (Z.of_nat i) 0x0f) in
  let s0 := f_sigma0 f (get_word W (ring (j + 1)%nat)) in
  let s1 := f_sigma1 f (get_word W (ring (j + 14)%nat)) in
  let W := put_word (ring j) (word (get_word W (ring j) + (s1 + get_word W (ring (j + 9)%nat) + s0))) W in
  (round j (get_word W (ring j)) v, W).

Definition add8 (x y : words8) : words8 :=
  W8 (word (va x + va y)) (word (vb x + vb y)) (word (vc x + vc y)) (word (vd x + vd y))
     (word (ve x + ve y)) (word (vf x + vf y)) (word (vg x + vg y)) (word (vh x + vh y)).

(** The state and the buffer after a transformation. *)
Definition Transform (data : option (list Z)) (state : words8) (buffer : list Z) : words8 * list Z :=
  let st := foldl (load_turn data) (state, buffer) (seq 0 16) in
  let '(v, W) := foldl expand_turn st (seq 16 (f_rounds f - 16)) in
  (add8 state v, W).
End transform.

(** ** Contexts *)

(** The count is a 64-bit number of bits in [R_SHA256_CTX], two of them in
    [R_SHA512_CTX]. *)
Record sha2_ctx (C : Type) := mk_sha2 { s_state : words8; s_bitcount : C; s_buffer : list Z }.
Arguments mk_sha2 {C}.
Arguments s_state {C}.
Arguments s_bitcount {C}.
Arguments s_buffer {C}.
Definition R_SHA256_CTX : Type := sha2_ctx Z.
Definition R_SHA512_CTX : Type := sha2_ctx (Z * Z).

Definition add_bits (bitcount n : Z) : Z := u64 (bitcount + n).
Definition ADDINC128 (w : Z * Z) (n : Z) : Z * Z :=
  let w0 := u64 (w.1 + n) in (w0, if w0 <? n then u64 (w.2 + 1) else w.2).

Section context.
Context (f : family) {C : Type} (B : nat) (addinc : C -> Z -> C) (used : C -> nat).

(** The loop over the whole blocks, [n] turns at most, and what it leaves of [data]. *)
Fixpoint update_loop (n : nat) (ctx : sha2_ctx C) (data : list Z) : sha2_ctx C * list Z :=
  match n with
  | O => (ctx, data)
  | S n =>
      if (B <=? length data)%nat then
        let '(state, buffer) := Transform f (Some data) (s_state ctx) (s_buffer ctx) in
        update_loop n (mk_sha2 state (addinc (s_bitcount ctx) (Z.shiftl (Z.of_nat B) 3)) buffer) (drop B data)
      else (ctx, data)
  end.

(** [memcpy] of the bytes that do not fill a block. *)
Definition save (usedspace : nat) (data : list Z) (ctx : sha2_ctx C) : sha2_ctx C :=
  mk_sha2 (s_state ctx) (addinc (s_bitcount ctx) (u64 (Z.shiftl (Z.of_nat (length data)) 3))) (at_offset usedspace (blit data) (s_buffer ctx)).

Definition update_blocks (ctx : sha2_ctx C) (data : list Z) : sha2_ctx C :=
  let '(ctx, data) := update_loop (length data) ctx data in
  if (0 <? length data)%nat then save 0 data ctx else ctx.

Definition Update (ctx : sha2_ctx C) (data : list Z) : sha2_ctx C :=
  if (length data =? 0)%nat then ctx
  else
    let usedspace := used (s_bitcount ctx) in
    if (0 <? usedspace)%nat then
      let freespace := (B - usedspace)%nat in
      if (freespace <=? length data)%nat then
        let buffer := at_offset usedspace (blit (take freespace data)) (s_buffer ctx) in
        let bitcount := addinc (s_bitcount ctx) (u32 (Z.shiftl (Z.of_nat freespace) 3)) in
        let '(state, buffer) := Transform f None (s_state ctx) buffer in
        update_blocks (mk_sha2 state bitcount buffer) (drop freespace data)
      else save usedspace data ctx
    else update_blocks ctx data.

(** The last blocks: [short] bytes, then the bytes [count] of the number of bits.
    [clear] is what the code clears of the buffer for a last block of its own. *)
Definition finish (short clear : nat) (count : list Z) (ctx : sha2_ctx C) : words8 * list Z :=
  let usedspace := used (s_bitcount ctx) in
  let '(state, buffer) :=
    if (0 <? usedspace)%nat then
      let buffer := <[usedspace := 0x80]> (s_buffer ctx) in
      let usedspace := S usedspace in
      if (usedspace <=? short)%nat then (s_state ctx, at_offset usedspace (blit (replicate (short - usedspace) 0)) buffer)
      else
        let buffer := if (usedspace <? B)%nat then at_offset usedspace (blit (replicate (B - usedspace) 0)) buffer else buffer in
        let '(state, buffer) := Transform f None (s_state ctx) buffer in
        (state, blit (replicate clear 0) buffer)
    else (s_state ctx, <[0%nat := 0x80]> (blit (replicate short 0) (s_buffer ctx))) in
  Transform f None state (at_offset short (blit count) buffer).
End context.

Definition words8_list (w : words8) : list Z := [va w; vb w; vc w; vd w; ve w; vf w; vg w; vh w].
Definition zeroed {C} (zero : C) (B : nat) : sha2_ctx C := mk_sha2 (W8 0 0 0 0 0 0 0 0) zero (replicate B 0).

(** *** SHA-256 *)

Definition SHA256_Init : R_SHA256_CTX := mk_sha2 (words8_of sha256_initial_hash_value) 0 (replicate 64 0).
Definition SHA256_Transform : option (list Z) -> words8 -> list Z -> words8 * list Z := Transform sha2_32.
Definition used256 (bitcount : Z) : nat := Z.to_nat (Z.shiftr bitcount 3 mod 64).
Definition SHA256_Update : R_SHA256_CTX -> list Z -> R_SHA256_CTX := Update sha2_32 64 add_bits used256.
(** The digest and the cleared context. *)
Definition SHA256_Final (context : R_SHA256_CTX) : list Z * R_SHA256_CTX :=
  let count := le_bytes 8 (REVERSE64 (s_bitcount context)) in
  let '(state, _) := finish sha2_32 64 used256 56 56 count context in
  (words8_list state ≫= (fun x => le_bytes 4 (REVERSE32 x)), zeroed 0 64).

(** *** SHA-512 and SHA-384 *)

Definition SHA512_Init : R_SHA512_CTX := mk_sha2 (words8_of sha512_initial_hash_value) (0, 0) (replicate 128 0).
Definition SHA512_Transform : option (list Z) -> words8 -> list Z -> words8 * list Z := Transform sha2_64.
Definition used512 (bitcount : Z * Z) : nat := Z.to_nat (Z.shiftr bitcount.1 3 mod 128).
Definition SHA512_Update : R_SHA512_CTX -> list Z -> R_SHA512_CTX := Update sha2_64 128 ADDINC128 used512.
Definition SHA512_Last (context : R_SHA512_CTX) : words8 :=
  let count := le_bytes 8 (REVERSE64 (s_bitcount context).2) ++ le_bytes 8 (REVERSE64 (s_bitcount context).1) in
  (finish sha2_64 128 used512 112 126 count context).1.
Definition SHA512_Final (context : R_SHA512_CTX) : list Z * R_SHA512_CTX :=
  (words8_list (SHA512_Last context) ≫= (fun x => le_bytes 8 (REVERSE64 x)), zeroed (0, 0) 128).

Definition SHA384_Init : R_SHA512_CTX := mk_sha2 (words8_of sha384_initial_hash_value) (0, 0) (replicate 128 0).
Definition SHA384_Update : R_SHA512_CTX -> list Z -> R_SHA512_CTX := SHA512_Update.
Definition SHA384_Final (context : R_SHA512_CTX) : list Z * R_SHA512_CTX :=
  (take 6 (words8_list (SHA512_Last context)) ≫= (fun x => le_bytes 8 (REVERSE64 x)), zeroed (0, 0) 128).

(** ** The digests of FIPS 180-4 *)

Section standard.
Context (f : family).

(** The words of the schedule: sixteen of the block, and each one after them from four
    before it. *)
Definition next_word (W : list Z) (t : nat) : Z :=
  word f (f_sigma1 f (word_at W (t - 2)) + word_at W (t - 7) + f_sigma0 f (word_at W (t - 15)) + word_at W (t - 16)).
Fixpoint sha2_schedule (W : list Z) (m : nat) : list Z :=
  match m with O => W | S m => let W := sha2_schedule W m in W ++ [next_word W (16 + m)] end.
Definition compress (W : list Z) (n : nat) (v : words8) : words8 := foldl (fun v j => round f j (word_at W j) v) v (seq 0 n).
Definition sha2_block (state : words8) (block : list Z) : words8 :=
  let W := sha2_schedule (be_words (f_bytes f) 16 block) (f_rounds f - 16) in
  add8 f state (compress W (f_rounds f) state).
End standard.

Definition sha2_padded (B L : nat) (m : list Z) : list Z := m ++ pad_to B L (length m) ++ be_bytes L (8 * Z.of_nat (length m)).
Definition sha256 (m : list Z) : list Z :=
  words8_list (absorb 64 (sha2_block sha2_32) (words8_of sha256_initial_hash_value) (sha2_padded 64 8 m)) ≫= be_bytes 4.
Definition sha512 (m : list Z) : list Z :=
  words8_list (absorb 128 (sha2_block sha2_64) (words8_of sha512_initial_hash_value) (sha2_padded 128 16 m)) ≫= be_bytes 8.
Definition sha384 (m : list Z) : list Z :=
  take 6 (words8_list (absorb 128 (sha2_block sha2_64) (words8_of sha384_initial_hash_value) (sha2_padded 128 16 m))) ≫= be_bytes 8.

(** The text [abc]. *)
Example sha256_abc : (SHA256_Final (SHA256_Update SHA256_Init [97; 98; 99])).1 = sha256 [97; 98; 99]
  /\ take 8 (sha256 [97; 98; 99]) = [0xba; 0x78; 0x16; 0xbf; 0x8f; 0x01; 0xcf; 0xea].
Proof. vm_compute. split; reflexivity. Qed.
Example sha512_abc : (SHA512_Final (SHA512_Update SHA512_Init [97; 98; 99])).1 = sha512 [97; 98; 99]
  /\ take 8 (sha512 [97; 98; 99]) = [0xdd; 0xaf; 0x35; 0xa1; 0x93; 0x61; 0x7a; 0xba].
Proof. vm_compute. split; reflexivity. Qed.
Example sha384_abc : (SHA384_Final (SHA384_Update SHA384_Init [97; 98; 99])).1 = sha384 [97; 98; 99]
  /\ take 8 (sha384 [97; 98; 99]) = [0xcb; 0x00; 0x75; 0x3f; 0x45; 0xa3; 0x5e; 0x8b].
Proof. vm_compute. split; reflexivity. Qed.
