(* ===== verification/Sha2Facts.v ===== *)
(** * The digests of [sha2.c] and the standard

    The transformation keeps the schedule in the buffer of the context, sixteen words
    that are written over each other, and may read the block from that same buffer: it
    computes what the standard says with a list of all the words.  A message that is
    given piece by piece has the digest of the whole. *)

From S2P Require Import Prelude Endian HashBlocks Sha2.

(** ** Reversal of the bytes of a word *)

Section reversal.
Context (n : nat) (rev : Z -> Z).
Context (rev_lor : forall x y, rev (Z.lor x y) = Z.lor (rev x) (rev y)).
Context (rev_byte : forall k b, (k < n)%nat -> is_byte b -> rev (Z.shiftl b (8 * Z.of_nat k)) = Z.shiftl b (8 * Z.of_nat (n - 1 - k))).
Context (rev_0 : rev 0 = 0).

Lemma be_val_cons b l : be_val (b :: l) = Z.shiftl b (8 * Z.of_nat (length l)) + be_val l.
Proof.
  unfold be_val. rewrite reverse_cons, le_val_app, length_reverse, Z.shiftl_mul_pow2 by lia. cbn [le_val]. lia.
Qed.

Lemma be_val_range l : bytes l -> 0 <= be_val l < 2 ^ (8 * Z.of_nat (length l)).
Proof. intros H. unfold be_val. rewrite <- length_reverse. apply le_val_range. by apply Forall_reverse. Qed.

Lemma reverse_word k l : bytes l -> (length l + k = n)%nat -> rev (Z.shiftl (le_val l) (8 * Z.of_nat k)) = be_val l.
Proof.
  intros Hl. revert k. induction Hl as [|b l Hb Hl IH]; intros k Hk; [by rewrite Z.shiftl_0_l|]. cbn [length] in Hk.
  rewrite be_val_cons. cbn [le_val].
  assert (b + 2 ^ 8 * le_val l = Z.lor (Z.shiftl (le_val l) 8) b) as ->.
  { rewrite lor_shiftl_add by (done || unfold is_byte in Hb; lia). lia. }
  rewrite Z.shiftl_lor, Z.shiftl_shiftl, rev_lor, rev_byte by (done || lia).
  replace (8 + 8 * Z.of_nat k) with (8 * Z.of_nat (S k)) by lia. rewrite IH by lia.
  rewrite Z.lor_comm. replace (n - 1 - k)%nat with (length l) by lia. rewrite lor_shiftl_add; [|lia|by apply be_val_range].
  rewrite Z.shiftl_mul_pow2 by lia. done.
Qed.
End reversal.

(** Functions that take the disjunction of words to that of their results. *)
Definition lor_linear (g : Z -> Z) : Prop := forall x y, g (Z.lor x y) = Z.lor (g x) (g y).

Lemma linear_shiftr n : lor_linear (fun x => Z.shiftr x n).
Proof. intros x y. apply Z.shiftr_lor. Qed.
Lemma linear_land m : lor_linear (fun x => Z.land x m).
Proof. intros x y. apply Z.land_lor_distr_l. Qed.
Lemma linear_shiftl w n : 0 <= w -> lor_linear (fun x => Z.shiftl x n mod 2 ^ w).
Proof. intros Hw x y. by rewrite <- !Z.land_ones, Z.shiftl_lor, Z.land_lor_distr_l by done. Qed.
Lemma linear_lor g h : lor_linear g -> lor_linear h -> lor_linear (fun x => Z.lor (g x) (h x)).
Proof.
  intros Hg Hh x y. rewrite Hg, Hh, <- !Z.lor_assoc. f_equal. rewrite !Z.lor_assoc. f_equal. apply Z.lor_comm.
Qed.
Lemma linear_compose g h : lor_linear g -> lor_linear h -> lor_linear (fun x => g (h x)).
Proof. intros Hg Hh x y. by rewrite Hh, Hg. Qed.

Lemma REVERSE32_linear : lor_linear REVERSE32.
Proof.
  unfold REVERSE32, u32. cbv zeta.
  apply (linear_compose (fun tmp => Z.lor (Z.shiftr (Z.land tmp 0xff00ff00) 8) (Z.shiftl (Z.land tmp 0x00ff00ff) 8 mod 2 ^ 32))
    (fun w => Z.lor (Z.shiftr w 16) (Z.shiftl w 16 mod 2 ^ 32))); apply linear_lor;
    try (by apply linear_shiftl || by apply linear_shiftr).
  - apply (linear_compose (fun x => Z.shiftr x 8) (fun x => Z.land x 0xff00ff00)); [apply linear_shiftr|apply linear_land].
  - apply (linear_compose (fun x => Z.shiftl x 8 mod 2 ^ 32) (fun x => Z.land x 0xff00ff)); [by apply linear_shiftl|apply linear_land].
Qed.

Lemma REVERSE64_linear : lor_linear REVERSE64.
Proof.
  unfold REVERSE64, u64. cbv zeta.
  assert (forall m m' k, lor_linear (fun tmp => Z.lor (Z.shiftr (Z.land tmp m) k) (Z.shiftl (Z.land tmp m') k mod 2 ^ 64))) as H.
  { intros m m' k. apply linear_lor.
    - apply (linear_compose (fun x => Z.shiftr x k) (fun x => Z.land x m)); [apply linear_shiftr|apply linear_land].
    - apply (linear_compose (fun x => Z.shiftl x k mod 2 ^ 64) (fun x => Z.land x m')); [by apply linear_shiftl|apply linear_land]. }
  apply (linear_compose (fun tmp => Z.lor (Z.shiftr (Z.land tmp 0xffff0000ffff0000) 16) (Z.shiftl (Z.land tmp 0x0000ffff0000ffff) 16 mod 2 ^ 64))
    (fun w => let tmp := Z.lor (Z.shiftr w 32) (Z.shiftl w 32 mod 2 ^ 64) in
       Z.lor (Z.shiftr (Z.land tmp 0xff00ff00ff00ff00) 8) (Z.shiftl (Z.land tmp 0x00ff00ff00ff00ff) 8 mod 2 ^ 64))); [apply H|].
  apply (linear_compose (fun tmp => Z.lor (Z.shiftr (Z.land tmp 0xff00ff00ff00ff00) 8) (Z.shiftl (Z.land tmp 0x00ff00ff00ff00ff) 8 mod 2 ^ 64))
    (fun w => Z.lor (Z.shiftr w 32) (Z.shiftl w 32 mod 2 ^ 64))); [apply H|].
  apply linear_lor; [apply linear_shiftr|by apply linear_shiftl].
Qed.

(** Each byte of a word goes to its place, by computation. *)
Definition byte_moves (n : nat) (rev : Z -> Z) : bool :=
  forallb (fun k => forallb (fun b => rev (Z.shiftl b (8 * Z.of_nat k)) =? Z.shiftl b (8 * Z.of_nat (n - 1 - k))) (seqZ 0 256)) (seq 0 n).

Lemma byte_moves_spec n rev k b :
  byte_moves n rev = true -> (k < n)%nat -> is_byte b -> rev (Z.shiftl b (8 * Z.of_nat k)) = Z.shiftl b (8 * Z.of_nat (n - 1 - k)).
Proof.
  unfold byte_moves. rewrite forallb_forall. intros H Hk Hb. specialize (H k ltac:(apply in_seq; lia)).
  rewrite forallb_forall in H. apply Z.eqb_eq, H, list_elem_of_In, elem_of_seqZ. unfold is_byte in Hb. lia.
Qed.

(** What the proofs use of a family. *)
Class FamilyOk (f : family) : Prop := {
  fo_bytes : f_bytes f <> 0%nat;
  fo_reverse : forall l, bytes l -> length l = f_bytes f -> f_REVERSE f (le_val l) = be_val l;
  fo_rounds : (16 <= f_rounds f)%nat
}.

#[export] Instance sha2_32_ok : FamilyOk sha2_32.
Proof.
  split; [done| |cbn [f_rounds sha2_32]; lia]. intros l Hl E. cbn [f_REVERSE sha2_32 f_bytes] in *.
  rewrite <- (Z.shiftl_0_r (le_val l)). apply (reverse_word 4 REVERSE32 REVERSE32_linear) with (k := 0%nat); [|done|done|lia].
  intros k b. apply byte_moves_spec. vm_compute. reflexivity.
Qed.

#[export] Instance sha2_64_ok : FamilyOk sha2_64.
Proof.
  split; [done| |cbn [f_rounds sha2_64]; lia]. intros l Hl E. cbn [f_REVERSE sha2_64 f_bytes] in *.
  rewrite <- (Z.shiftl_0_r (le_val l)). apply (reverse_word 8 REVERSE64 REVERSE64_linear) with (k := 0%nat); [|done|done|lia].
  intros k b. apply byte_moves_spec. vm_compute. reflexivity.
Qed.

(** ** Words of a buffer *)

Section words.
Context (f : family) {Hf : FamilyOk f}.

#[local] Notation n := (f_bytes f).

Lemma word_small x : 0 <= x < 2 ^ (8 * Z.of_nat n) -> word f x = x.
Proof. apply Z.mod_small. Qed.

Lemma put_word_length j v p : length (put_word f j v p) = length p.
Proof. apply length_at_offset. intros d. apply length_blit. Qed.

Lemma put_word_f_bytes j v p : bytes p -> (n * j + n <= length p)%nat -> bytes (put_word f j v p).
Proof.
  intros Hp Hl. unfold put_word. rewrite at_offset_blit by (rewrite length_le_bytes; lia).
  repeat (apply Forall_app; split); [by apply Forall_take|apply le_bytes_bytes|by apply Forall_drop].
Qed.

Lemma get_put_same j v p : (n * j + n <= length p)%nat -> get_word f (put_word f j v p) j = word f v.
Proof.
  intros Hl. unfold get_word, put_word. rewrite at_offset_blit by (rewrite length_le_bytes; lia).
  rewrite drop_app_length' by (rewrite length_take; lia). rewrite take_app_length' by (by rewrite length_le_bytes). apply le_val_le_bytes.
Qed.

Lemma get_put_other i j v p : i <> j -> (n * j + n <= length p)%nat -> get_word f (put_word f j v p) i = get_word f p i.
Proof.
  intros Hij Hl. unfold get_word, put_word. rewrite at_offset_blit by (rewrite length_le_bytes; lia). f_equal.
  destruct (decide (i < j)%nat) as [H|H].
  - assert (n * i + n <= n * j)%nat by nia. rewrite drop_app_le, take_app_le by (rewrite ?length_drop, length_take; lia).
    rewrite skipn_firstn_comm, take_take. f_equal. lia.
  - assert (n * j + n <= n * i)%nat by nia. rewrite app_assoc, drop_app_ge by (rewrite length_app, length_take, length_le_bytes; lia).
    rewrite length_app, length_take, length_le_bytes, drop_drop. do 2 f_equal. lia.
Qed.

(** The word of the block that a turn loads. *)
Lemma reverse_get p j : bytes p -> (n * j + n <= length p)%nat -> f_REVERSE f (get_word f p j) = be_val (take n (drop (n * j) p)).
Proof.
  intros Hp Hl. apply fo_reverse; [by apply Forall_take, Forall_drop|]. rewrite length_take, length_drop. lia.
Qed.

Lemma be_word_range p j : bytes p -> (n * j + n <= length p)%nat -> 0 <= be_val (take n (drop (n * j) p)) < 2 ^ (8 * Z.of_nat n).
Proof.
  intros Hp Hl. assert (length (take n (drop (n * j) p)) = n) as E by (rewrite length_take, length_drop; lia).
  pose proof (be_val_range (take n (drop (n * j) p))) as H. rewrite E in H. apply H. by apply Forall_take, Forall_drop.
Qed.

(** ** The first sixteen rounds *)

Record loaded (data : option (list Z)) (buffer : list Z) (t : nat) (W : list Z) : Prop := {
  ld_length : length W = (16 * n)%nat;
  ld_bytes : bytes W;
  ld_done : forall i, (i < t)%nat -> get_word f W i = word_at (be_words n 16 (default buffer data)) i;
  ld_same : forall i, (t <= i < 16)%nat -> get_word f W i = get_word f buffer i
}.

Lemma load_turns data buffer v t :
  length buffer = (16 * n)%nat -> bytes buffer -> bytes (default buffer data) -> (16 * n <= length (default buffer data))%nat -> (t <= 16)%nat ->
  exists W, foldl (load_turn f data) (v, buffer) (seq 0 t) = (compress f (be_words n 16 (default buffer data)) t v, W) /\ loaded data buffer t W.
Proof.
  intros Hl Hb Hd Hdl. induction t as [|t IH]; intros Ht.
  { exists buffer. split; [done|]. split; [done|done|intros i Hi; lia|done]. }
  destruct IH as (W & E & [W1 W2 W3 W4]); [lia|]. rewrite seq_S, foldl_app, E. cbn [foldl load_turn Nat.add].
  assert (n * t + n <= 16 * n)%nat as Hn by nia.
  assert (f_REVERSE f (get_word f (default W data) t) = word_at (be_words n 16 (default buffer data)) t) as ->.
  { rewrite be_words_lookup by lia. destruct data as [d|]; cbn [default] in *.
    - apply reverse_get; [done|lia].
    - change (default W None) with W. rewrite W4 by lia. apply reverse_get; [done|]. cbn in Hdl |- *. lia. }
  set (x := word_at _ t). assert (word f x = x) as Ex.
  { apply word_small. unfold x. rewrite be_words_lookup by lia. apply be_word_range; [done|lia]. }
  rewrite get_put_same, Ex by lia. eexists. split.
  - unfold compress. rewrite seq_S, foldl_app. reflexivity.
  - split.
    + by rewrite put_word_length.
    + apply put_word_f_bytes; [done|lia].
    + intros i Hi. destruct (decide (i = t)) as [->|]; [rewrite get_put_same by lia; done|]. rewrite get_put_other by lia. apply W3. lia.
    + intros i Hi. rewrite get_put_other by lia. apply W4. lia.
Qed.

(** ** The ring and the schedule *)

Lemma schedule_length_f W m : length (sha2_schedule f W m) = (length W + m)%nat.
Proof. induction m as [|m IH]; cbn [sha2_schedule]; [lia|]. rewrite length_app, IH. simpl. lia. Qed.

Lemma schedule_prefix W m k i : (i < length W + m)%nat -> word_at (sha2_schedule f W (m + k)) i = word_at (sha2_schedule f W m) i.
Proof.
  intros Hi. induction k as [|k IH]; [by rewrite Nat.add_0_r|]. rewrite Nat.add_succ_r. cbn [sha2_schedule]. rewrite <- IH.
  unfold word_at. rewrite lookup_app_l; [done|]. rewrite schedule_length_f. lia.
Qed.

Lemma schedule_last W m : length W = 16%nat -> word_at (sha2_schedule f W (S m)) (16 + m) = next_word f (sha2_schedule f W m) (16 + m).
Proof.
  intros H. unfold word_at. cbn [sha2_schedule]. rewrite list_lookup_middle; [done|]. rewrite schedule_length_f. lia.
Qed.

(** The last sixteen words of the schedule are in the ring. *)
Record in_ring (S : list Z) (W : list Z) : Prop := {
  rg_length : length W = (16 * n)%nat;
  rg_bytes : bytes W;
  rg_words : forall i, (length S - 16 <= i < length S)%nat -> get_word f W (i mod 16) = word_at S i
}.

Lemma ring_index i : Z.to_nat (Z.land (Z.of_nat i) 0x0f) = (i mod 16)%nat.
Proof. change 0x0f with (Z.ones 4). rewrite Z.land_ones by lia. change (2 ^ 4) with (Z.of_nat 16). by rewrite <- Nat2Z.inj_mod, Nat2Z.id. Qed.

Lemma mod16_neq a b : (a < b < a + 16)%nat -> (a mod 16 <> b mod 16)%nat.
Proof.
  intros H E. pose proof (Nat.div_mod a 16 ltac:(lia)). pose proof (Nat.div_mod b 16 ltac:(lia)). lia.
Qed.

Lemma mod16_add a b : (a = b + 16)%nat -> (a mod 16 = b mod 16)%nat.
Proof. intros ->. replace (b + 16)%nat with (b + 1 * 16)%nat by lia. apply Nat.Div0.mod_add. Qed.

Lemma compress_ext S S' k v : (forall i, (i < k)%nat -> word_at S i = word_at S' i) -> compress f S k v = compress f S' k v.
Proof.
  unfold compress. induction k as [|k IH]; intros H; [done|]. rewrite seq_S, !foldl_app, IH by (intros i Hi; apply H; lia). cbn [foldl Nat.add].
  by rewrite H by lia.
Qed.

Lemma word_idem x : word f (word f x) = word f x.
Proof. apply Z.mod_mod. lia. Qed.

Lemma expand_turns S0 v W0 m :
  length S0 = 16%nat -> in_ring S0 W0 ->
  exists W, foldl (expand_turn f) (compress f S0 16 v, W0) (seq 16 m) = (compress f (sha2_schedule f S0 m) (16 + m) v, W)
    /\ in_ring (sha2_schedule f S0 m) W.
Proof.
  intros H0 HR. induction m as [|m IH]; [by exists W0|].
  destruct IH as (W & E & [W1 W2 W3]). rewrite seq_S, foldl_app, E. cbn [foldl expand_turn]. rewrite !ring_index.
  pose proof (schedule_last S0 m H0) as Hlast. pose proof (schedule_length_f S0 (S m)) as LS'.
  assert (forall i, (i < 16 + m)%nat -> word_at (sha2_schedule f S0 (S m)) i = word_at (sha2_schedule f S0 m) i) as Hpre.
  { intros i Hi. rewrite <- Nat.add_1_r. apply schedule_prefix. lia. }
  set (S' := sha2_schedule f S0 (S m)) in *.
  set (S := sha2_schedule f S0 m) in *. assert (length S = 16 + m)%nat as LS by (unfold S; rewrite schedule_length_f; lia).
  set (t := (16 + m)%nat) in *. assert (t mod 16 < 16)%nat as Hm by (apply Nat.mod_upper_bound; lia).
  assert (n * (t mod 16) + n <= length W)%nat as Hn by nia.
  rewrite (mod16_add (t + 1) (t - 15)), (mod16_add (t + 14) (t - 2)), (mod16_add (t + 9) (t - 7)) by lia.
  rewrite !(W3 (t - 15)%nat), !(W3 (t - 2)%nat), !(W3 (t - 7)%nat) by lia.
  assert (get_word f W (t mod 16) = word_at S (t - 16)) as -> by (rewrite (mod16_add t (t - 16)) by lia; apply W3; lia).
  assert (word f (word_at S (t - 16) + (f_sigma1 f (word_at S (t - 2)) + word_at S (t - 7) + f_sigma0 f (word_at S (t - 15)))) = word_at S' t) as ->.
  { rewrite Hlast. unfold next_word. f_equal. lia. }
  assert (word f (word_at S' t) = word_at S' t) as Ew by (rewrite Hlast; apply word_idem).
  rewrite get_put_same, Ew by done. eexists. split.
  - replace (16 + Datatypes.S m)%nat with (Datatypes.S t) by lia. unfold compress. rewrite seq_S, foldl_app. cbn [foldl Nat.add].
    do 2 f_equal. symmetry. by apply compress_ext.
  - split.
    + by rewrite put_word_length.
    + by apply put_word_f_bytes.
    + intros i Hi. destruct (decide (i = t)) as [->|]; [by rewrite get_put_same|].
      rewrite get_put_other by (try done; intros Em; apply (mod16_neq i t); lia). rewrite W3, Hpre by lia. done.
Qed.

(** The transformation, with the block in another buffer or in that of the context. *)
Lemma Transform_block data state buffer :
  length buffer = (16 * n)%nat -> bytes buffer -> bytes (default buffer data) -> (16 * n <= length (default buffer data))%nat ->
  exists W, Transform f data state buffer = (sha2_block f state (take (16 * n) (default buffer data)), W) /\ length W = (16 * n)%nat /\ bytes W.
Proof.
  intros Hl Hb Hd Hdl. unfold Transform. destruct (load_turns data buffer state 16 Hl Hb Hd Hdl) as (W0 & -> & [L1 L2 L3 L4]); [done|].
  set (S0 := be_words n 16 (default buffer data)) in *.
  assert (length S0 = 16%nat) as H0 by apply be_words_length_k.
  destruct (expand_turns S0 state W0 (f_rounds f - 16) H0) as (W & -> & [R1 R2 R3]).
  { split; [done|done|]. intros i Hi. rewrite Nat.mod_small by lia. apply L3. lia. }
  exists W. split; [|done]. unfold sha2_block. replace (16 + (f_rounds f - 16))%nat with (f_rounds f) by (pose proof fo_rounds; lia).
  replace (be_words n 16 (take (16 * n) (default buffer data))) with S0; [done|]. unfold S0. symmetry. apply be_words_take.
Qed.
End words.

(** ** A context and the message it has read *)

(** What the proofs use of the two kinds of counts: [count_of k] stands for [k] bytes. *)
Class CountOk {C} (B : nat) (addinc : C -> Z -> C) (used : C -> nat) (count_of : nat -> C) : Prop := {
  co_add : forall k l, Z.of_nat l < 2 ^ 61 -> addinc (count_of k) (8 * Z.of_nat l) = count_of (k + l)%nat;
  co_used : forall k, used (count_of k) = (k mod B)%nat
}.

Section pieces.
Context (f : family) {Hf : FamilyOk f} {C : Type} (B : nat) (addinc : C -> Z -> C) (used : C -> nat) (count_of : nat -> C).
Context {HC : CountOk B addinc used count_of}.
Context (HB : B = (16 * f_bytes f)%nat) (Hsmall : Z.of_nat B < 2 ^ 28) (iv : words8).

#[local] Notation ctx := (sha2_ctx C).

Record sha2_read (c : ctx) (m : list Z) : Prop := {
  s2_state : s_state c = absorb B (sha2_block f) iv m;
  s2_count : s_bitcount c = count_of (length m);
  s2_length : length (s_buffer c) = B;
  s2_bytes : bytes (s_buffer c);
  s2_rest : take (length m mod B) (s_buffer c) = rest B m
}.

Lemma B_pos : B <> 0%nat.
Proof. pose proof fo_bytes. lia. Qed.

Lemma used_mod c m : sha2_read c m -> used (s_bitcount c) = (length m mod B)%nat.
Proof. intros R. rewrite (s2_count _ _ R). apply co_used. Qed.

Lemma mod_B k : (k mod B < B)%nat.
Proof. apply Nat.mod_upper_bound, B_pos. Qed.

Lemma shiftl3 l : Z.of_nat l < 2 ^ 61 -> u64 (Z.shiftl (Z.of_nat l) 3) = 8 * Z.of_nat l.
Proof. intros H. rewrite Z.shiftl_mul_pow2 by lia. unfold u64. rewrite Z.mod_small by lia. lia. Qed.

(** Bytes that do not fill the block. *)
Lemma save_read c m x :
  sha2_read c m -> bytes x -> (length m mod B + length x < B)%nat -> sha2_read (save addinc (length m mod B) x c) (m ++ x).
Proof.
  intros [Rs Rc Rl Rb Rr] Hx Hl. destruct (absorb_app B (sha2_block f) B_pos iv m x) as [Ea Er].
  pose proof (rest_length B B_pos m) as Lr.
  destruct (absorb_short B (sha2_block f) (absorb B (sha2_block f) iv m) (rest B m ++ x)) as [A1 A2]; [rewrite length_app; lia|].
  split; cbn [save s_state s_bitcount s_buffer].
  - by rewrite Ea, A1.
  - rewrite shiftl3 by lia. by rewrite Rc, co_add, length_app by lia.
  - rewrite length_at_offset; [done|]. intros d. apply length_blit.
  - rewrite at_offset_blit by lia. repeat (apply Forall_app; split); [by apply Forall_take|done|by apply Forall_drop].
  - rewrite <- (rest_length B B_pos), Er, A2, length_app, at_offset_blit, Rr by lia. rewrite app_assoc. apply take_app_length'. by rewrite length_app.
Qed.

(** A block from a buffer that follows the message. *)
Lemma block_read c m x data state W :
  sha2_read c m -> (length m mod B + length x = B)%nat ->
  take B (default (s_buffer c) data) = rest B m ++ x ->
  state = sha2_block f (s_state c) (rest B m ++ x) -> length W = B -> bytes W ->
  sha2_read (mk_sha2 state (count_of (length m + length x)) W) (m ++ x).
Proof.
  intros [Rs Rc Rl Rb Rr] Hx Ht -> LW BW. destruct (absorb_app B (sha2_block f) B_pos iv m x) as [Ea Er].
  pose proof (rest_length B B_pos m) as Lr.
  destruct (absorb_block B (sha2_block f) B_pos (absorb B (sha2_block f) iv m) (rest B m ++ x)) as [A1 A2]; [rewrite length_app; lia|].
  split; cbn [s_state s_bitcount s_buffer].
  - by rewrite Ea, A1, Rs.
  - by rewrite length_app.
  - done.
  - done.
  - rewrite <- (rest_length B B_pos), Er, A2. done.
Qed.

Lemma update_loop_read n c m data :
  sha2_read c m -> (length m mod B = 0)%nat -> bytes data -> (length data <= n)%nat ->
  exists c' pre data', update_loop f B addinc n c data = (c', data') /\ data = pre ++ data' /\ sha2_read c' (m ++ pre)
    /\ (length (m ++ pre) mod B = 0)%nat /\ (length data' < B)%nat.
Proof.
  revert c m data. pose proof B_pos as HB0. induction n as [|n IH]; intros c m data R Hm Hd Hn; cbn [update_loop].
  { exists c, [], data. rewrite app_nil_r. split_and!; try done. lia. }
  destruct (Nat.leb_spec B (length data)) as [H|H]; [|exists c, [], data; rewrite app_nil_r; split_and!; done].
  destruct (Transform_block f (Some data) (s_state c) (s_buffer c)) as (W & -> & LW & BW); cbn [default] in *;
    [by rewrite <- HB, (s2_length _ _ R)|by apply R|done|cbn; lia|].
  assert (rest B m = []) as Em by (apply length_zero_iff_nil; by rewrite (rest_length B B_pos), Hm).
  assert (length (take B data) = B) as Lt by (rewrite length_take; lia).
  change (default (s_buffer c) (Some data)) with data. rewrite <- HB in *.
  assert (addinc (s_bitcount c) (Z.shiftl (Z.of_nat B) 3) = count_of (length m + length (take B data))) as ->.
  { rewrite (s2_count _ _ R), Lt, <- co_add by lia. f_equal. rewrite Z.shiftl_mul_pow2 by lia. lia. }
  destruct (IH (mk_sha2 (sha2_block f (s_state c) (take B data)) (count_of (length m + length (take B data))) W) (m ++ take B data) (drop B data))
    as (c' & pre & data' & E & Ed & R' & Hm' & Hl').
  - apply (block_read c m (take B data) (Some data)); try done; [lia|by rewrite Em|by rewrite Em].
  - rewrite length_app, Lt. replace (length m + B)%nat with (length m + 1 * B)%nat by lia. by rewrite Nat.Div0.mod_add.
  - by apply Forall_drop.
  - rewrite length_drop. lia.
  - exists c', (take B data ++ pre), data'. split_and!; try done.
    + by rewrite <- app_assoc, <- Ed, take_drop.
    + by rewrite app_assoc.
    + by rewrite app_assoc.
Qed.

Lemma update_blocks_read c m data :
  sha2_read c m -> (length m mod B = 0)%nat -> bytes data -> sha2_read (update_blocks f B addinc c data) (m ++ data).
Proof.
  intros R Hm Hd. unfold update_blocks.
  destruct (update_loop_read (length data) c m data R Hm Hd) as (c' & pre & data' & -> & -> & R' & Hm' & Hl'); [done|].
  rewrite app_assoc. destruct (Nat.ltb_spec 0 (length data')) as [H|H].
  - rewrite <- Hm'. apply save_read; [done|by apply Forall_app in Hd as [_ Hd]|lia].
  - destruct data'; [|simpl in H; lia]. by rewrite app_nil_r.
Qed.

Lemma Update_read c m x :
  sha2_read c m -> bytes x -> Z.of_nat (length x) < 2 ^ 61 -> sha2_read (Update f B addinc used c x) (m ++ x).
Proof.
  intros R Hx Hl. unfold Update. destruct (Nat.eqb_spec (length x) 0) as [H0|H0].
  { apply length_zero_iff_nil in H0 as ->. by rewrite app_nil_r. }
  rewrite (used_mod _ _ R). pose proof (mod_B (length m)) as Hu. destruct (Nat.ltb_spec 0 (length m mod B)) as [Hp|Hp].
  2: { apply update_blocks_read; [done|lia|done]. }
  destruct (Nat.leb_spec (B - length m mod B) (length x)) as [Hx'|Hx']; [|apply save_read; [done|done|lia]].
  set (free := (B - length m mod B)%nat) in *. assert (length (take free x) = free) as Lt by (rewrite length_take; lia).
  pose proof (rest_length B B_pos m) as Lr.
  set (buffer := at_offset (length m mod B) (blit (take free x)) (s_buffer c)).
  assert (buffer = rest B m ++ take free x) as Eb.
  { unfold buffer. rewrite at_offset_blit by (rewrite Lt, (s2_length _ _ R); lia). rewrite (s2_rest _ _ R). f_equal.
    rewrite drop_ge by (rewrite Lt, (s2_length _ _ R); lia). apply app_nil_r. }
  assert (length buffer = B) as LB by (rewrite Eb, length_app; lia).
  assert (bytes buffer) as BB.
  { rewrite Eb. apply Forall_app. split; [|by apply Forall_take]. rewrite <- (s2_rest _ _ R). apply Forall_take, R. }
  destruct (Transform_block f None (s_state c) buffer) as (W & -> & LW & BW); cbn [default]; [lia|done|done|cbn; lia|].
  change (default buffer None) with buffer. rewrite <- HB, (take_ge buffer), Eb in * by lia.
  assert (addinc (s_bitcount c) (u32 (Z.shiftl (Z.of_nat free) 3)) = count_of (length m + length (take free x))) as ->.
  { rewrite (s2_count _ _ R), Lt, <- co_add by lia. f_equal. rewrite Z.shiftl_mul_pow2 by lia. unfold u32. rewrite Z.mod_small; lia. }
  assert (m ++ x = (m ++ take free x) ++ drop free x) as -> by (by rewrite <- app_assoc, take_drop). apply update_blocks_read; [|rewrite length_app, Lt|by apply Forall_drop].
  - apply (block_read c m (take free x) (Some (rest B m ++ take free x))); try done; [lia|].
    apply take_ge. cbn. rewrite length_app. lia.
  - pose proof (Nat.div_mod (length m) B B_pos). replace (length m + free)%nat with (S (length m / B) * B)%nat by lia.
    apply Nat.Div0.mod_mul.
Qed.

(** ** The last blocks *)

Lemma clear_from u k x (buf : list Z) :
  (u < length buf)%nat -> (S u + k <= length buf)%nat ->
  at_offset (S u) (blit (replicate k 0)) (<[u := x]> buf) = take u buf ++ x :: replicate k 0 ++ drop (S u + k) buf.
Proof.
  intros Hu Hk. rewrite at_offset_blit by (rewrite length_insert, length_replicate; lia). rewrite length_replicate.
  rewrite (take_S_r _ u x) by (by apply list_lookup_insert_eq). rewrite take_insert_ge, drop_insert_lt by lia. by rewrite <- app_assoc.
Qed.

Lemma put_count (short : nat) (count buf pre post : list Z) :
  buf = pre ++ post -> length pre = short -> length count = length post -> at_offset short (blit count) buf = pre ++ count.
Proof.
  intros -> <- E. rewrite at_offset_blit by (rewrite length_app; lia). rewrite take_app_length, drop_ge by (rewrite length_app; lia).
  by rewrite app_nil_r.
Qed.

Lemma Transform_buffer state buffer :
  length buffer = B -> bytes buffer ->
  exists W, Transform f None state buffer = (sha2_block f state buffer, W) /\ length W = B /\ bytes W.
Proof.
  intros Hl Hb. destruct (Transform_block f None state buffer) as (W & -> & LW & BW); cbn [default]; [lia|done|done|cbn; lia|].
  exists W. change (default buffer None) with buffer. rewrite take_ge by lia. by rewrite HB.
Qed.

Lemma bytes_zeros_f k : bytes (replicate k 0).
Proof. by apply Forall_replicate. Qed.

Lemma bytes_marked pre k : bytes pre -> bytes (pre ++ 0x80 :: replicate k 0).
Proof. intros H. apply Forall_app; split; [done|]. constructor; [done|apply bytes_zeros_f]. Qed.

Lemma length_marked pre k : length (pre ++ 0x80 :: replicate k 0) = (S (length pre) + k)%nat.
Proof. rewrite length_app. cbn [length]. rewrite length_replicate. lia. Qed.

(** A marked message that fills the block up to the count. *)
Lemma last_block L st pre k count :
  bytes pre -> bytes count -> length count = L -> (S (length pre) + k + L = B)%nat ->
  exists W, Transform f None st ((pre ++ 0x80 :: replicate k 0) ++ count)
    = (absorb B (sha2_block f) st (pre ++ (0x80 :: replicate k 0) ++ count), W).
Proof.
  intros Hp Hc Lc Hl. destruct (Transform_buffer st ((pre ++ 0x80 :: replicate k 0) ++ count)) as (W & -> & _).
  { rewrite length_app, length_marked. lia. }
  { apply Forall_app; split; [by apply bytes_marked|done]. }
  exists W. rewrite app_assoc.
  by destruct (absorb_block B (sha2_block f) B_pos st ((pre ++ 0x80 :: replicate k 0) ++ count)) as [-> _];
    [rewrite length_app, length_marked; lia|].
Qed.

Section ending.
Context (L clear : nat) (c : ctx) (m count : list Z).
Context (Rd : sha2_read c m) (HL : (0 < L < B)%nat) (Hc : (B - L <= clear <= B)%nat) (Lc : length count = L) (Bc : bytes count).

#[local] Notation u := (length m mod B)%nat.

Lemma rest_bytes : bytes (rest B m).
Proof. rewrite <- (s2_rest _ _ Rd). apply Forall_take, Rd. Qed.

(** The count fits behind the mark. *)
Lemma finish_fits :
  (S u <= B - L)%nat ->
  exists W, Transform f None (s_state c) (at_offset (B - L) (blit count) (at_offset (S u) (blit (replicate (B - L - S u) 0)) (<[u := 0x80]> (s_buffer c))))
    = (absorb B (sha2_block f) (s_state c) (rest B m ++ pad_to B L (length m) ++ count), W).
Proof.
  intros Hs. pose proof (rest_length B B_pos m) as Lr. pose proof (s2_length _ _ Rd) as Lb.
  rewrite clear_from by lia. rewrite (s2_rest _ _ Rd). replace (S u + (B - L - S u))%nat with (B - L)%nat by lia.
  rewrite (put_count (B - L) count _ (rest B m ++ 0x80 :: replicate (B - L - S u) 0) (drop (B - L) (s_buffer c)));
    [|by rewrite <- app_assoc|rewrite length_marked; lia|rewrite length_drop; lia].
  unfold pad_to. rewrite (proj2 (Nat.ltb_lt _ _)) by lia. replace (B - L - 1 - u)%nat with (B - L - S u)%nat by lia.
  apply (last_block L); [apply rest_bytes|done|done|lia].
Qed.

(** It does not: the mark ends a block, and the count has one of its own. *)
Lemma finish_over :
  (B - L < S u)%nat ->
  let buffer := if (S u <? B)%nat then at_offset (S u) (blit (replicate (B - S u) 0)) (<[u := 0x80]> (s_buffer c)) else <[u := 0x80]> (s_buffer c) in
  exists W W', Transform f None (s_state c) buffer = (sha2_block f (s_state c) buffer, W) /\
    Transform f None (sha2_block f (s_state c) buffer) (at_offset (B - L) (blit count) (blit (replicate clear 0) W))
    = (absorb B (sha2_block f) (s_state c) (rest B m ++ pad_to B L (length m) ++ count), W').
Proof.
  intros Hs buffer. pose proof (rest_length B B_pos m) as Lr. pose proof (s2_length _ _ Rd) as Lb. pose proof (mod_B (length m)) as Hu.
  assert (buffer = rest B m ++ 0x80 :: replicate (B - S u) 0) as Eb.
  { unfold buffer. destruct (Nat.ltb_spec (S u) B).
    - rewrite clear_from, (s2_rest _ _ Rd), drop_ge by lia. by rewrite app_nil_r.
    - replace (B - S u)%nat with 0%nat by lia. rewrite <- (s2_rest _ _ Rd).
      rewrite <- (take_ge (<[u := 0x80]> (s_buffer c)) (S u)) by (rewrite length_insert; lia).
      rewrite (take_S_r _ u 0x80) by (apply list_lookup_insert_eq; lia). by rewrite take_insert_ge by lia. }
  clearbody buffer. subst buffer. set (first := rest B m ++ 0x80 :: replicate (B - S u) 0).
  assert (length first = B) as Lf by (unfold first; rewrite length_marked; lia).
  destruct (Transform_buffer (s_state c) first Lf (bytes_marked _ _ rest_bytes)) as (W & EW & LW & BW).
  rewrite EW. set (st := sha2_block f (s_state c) first). exists W.
  rewrite (put_count (B - L) count _ (replicate (B - L) 0) (replicate (clear - (B - L)) 0 ++ drop clear W));
    [|unfold blit; rewrite take_ge, length_replicate by (rewrite length_replicate; lia); rewrite app_assoc, <- replicate_add; do 2 f_equal; lia
     |apply length_replicate|rewrite length_app, length_replicate, length_drop; lia].
  assert (length (replicate (B - L) 0 ++ count) = B) as Ll by (rewrite length_app, length_replicate; lia).
  destruct (Transform_buffer st (replicate (B - L) 0 ++ count) Ll) as (W' & -> & _).
  { apply Forall_app; split; [apply bytes_zeros_f|done]. }
  exists W'. split; [done|]. unfold pad_to. rewrite (proj2 (Nat.ltb_ge _ _)) by lia.
  replace (2 * B - L - 1 - u)%nat with (B - S u + (B - L))%nat by lia. rewrite replicate_add.
  assert (rest B m ++ (0x80 :: replicate (B - S u) 0 ++ replicate (B - L) 0) ++ count = first ++ replicate (B - L) 0 ++ count) as ->
    by (unfold first; rewrite <- !app_assoc; cbn; by rewrite <- app_assoc).
  destruct (absorb_step B (sha2_block f) B_pos (s_state c) (first ++ replicate (B - L) 0 ++ count)) as [-> _]; [rewrite length_app; lia|].
  rewrite take_app_length', drop_app_length' by done. fold st.
  by destruct (absorb_block B (sha2_block f) B_pos st (replicate (B - L) 0 ++ count) Ll) as [-> _].
Qed.

(** No byte waits. *)
Lemma finish_whole :
  u = 0%nat ->
  exists W, Transform f None (s_state c) (at_offset (B - L) (blit count) (<[0%nat := 0x80]> (blit (replicate (B - L) 0) (s_buffer c))))
    = (absorb B (sha2_block f) (s_state c) (rest B m ++ pad_to B L (length m) ++ count), W).
Proof.
  intros Hu. pose proof (rest_length B B_pos m) as Lr. pose proof (s2_length _ _ Rd) as Lb.
  assert (rest B m = []) as -> by (apply length_zero_iff_nil; lia).
  rewrite (put_count (B - L) count _ (0x80 :: replicate (B - L - 1) 0) (drop (B - L) (s_buffer c)));
    [|unfold blit; rewrite take_ge, length_replicate by (rewrite length_replicate; lia); replace (B - L)%nat with (S (B - L - 1)) at 1 by lia; done
     |cbn [length]; rewrite length_replicate; lia|rewrite length_drop; lia].
  unfold pad_to. rewrite Hu, Nat.sub_0_r, (proj2 (Nat.ltb_lt _ _)) by lia.
  apply (last_block L _ []); [constructor|done|done|cbn [length]; lia].
Qed.

Lemma finish_blocks :
  (finish f B used (B - L) clear count c).1 = absorb B (sha2_block f) iv (m ++ pad_to B L (length m) ++ count).
Proof.
  unfold finish. rewrite (used_mod _ _ Rd). destruct (absorb_app B (sha2_block f) B_pos iv m (pad_to B L (length m) ++ count)) as [-> _].
  rewrite <- (s2_state _ _ Rd). destruct (Nat.ltb_spec 0 u) as [Hp|Hp].
  - destruct (Nat.leb_spec (S u) (B - L)) as [Hs|Hs].
    + by destruct (finish_fits Hs) as (W & ->).
    + by destruct (finish_over Hs) as (W & W' & -> & ->).
  - by destruct finish_whole as (W & ->); [lia|].
Qed.
End ending.

(** A message in pieces. *)
Lemma pieces_read c m chunks :
  sha2_read c m -> Forall (fun x => bytes x /\ Z.of_nat (length x) < 2 ^ 61) chunks ->
  sha2_read (foldl (Update f B addinc used) c chunks) (m ++ concat chunks).
Proof.
  intros Rd Hc. revert c m Rd. induction Hc as [|x chunks [Hx Hl] Hc IH]; intros c m Rd; simpl; [by rewrite app_nil_r|].
  rewrite app_assoc. by apply IH, Update_read.
Qed.
End pieces.

(** ** The two counts *)

Definition count256 (k : nat) : Z := u64 (8 * Z.of_nat k).
Definition count512 (k : nat) : Z * Z := (u64 (8 * Z.of_nat k), u64 (8 * Z.of_nat k / 2 ^ 64)).

#[export] Instance count256_ok : CountOk 64 add_bits used256 count256.
Proof.
  split.
  - intros k l Hl. unfold add_bits, count256, u64. rewrite Nat2Z.inj_add. zlia.
  - intros k. unfold used256, count256, u64. apply Nat2Z.inj. rewrite Z.shiftr_div_pow2, Nat2Z.inj_mod, Z2Nat.id by zlia.
    change (Z.of_nat 64) with 64. zlia.
Qed.

#[export] Instance count512_ok : CountOk 128 ADDINC128 used512 count512.
Proof.
  split.
  - intros k l Hl. unfold ADDINC128, count512, u64. cbn [fst snd]. rewrite Nat2Z.inj_add.
    set (a := 8 * Z.of_nat k). set (b := 8 * Z.of_nat l). replace (8 * (Z.of_nat k + Z.of_nat l)) with (a + b) by lia.
    assert (0 <= b < 2 ^ 64) by lia. clearbody a b. f_equal; [zlia|].
    destruct (Z.ltb_spec ((a mod 2 ^ 64 + b) mod 2 ^ 64) b); zlia.
  - intros k. unfold used512, count512, u64. cbn [fst]. apply Nat2Z.inj. rewrite Z.shiftr_div_pow2, Nat2Z.inj_mod, Z2Nat.id by zlia.
    change (Z.of_nat 128) with 128. zlia.
Qed.

(** ** The digest *)

Section digest.
Context (f : family) {Hf : FamilyOk f}.

Lemma reverse_bytes x : 0 <= x < 2 ^ (8 * Z.of_nat (f_bytes f)) -> le_bytes (f_bytes f) (f_REVERSE f x) = be_bytes (f_bytes f) x.
Proof.
  intros Hx. rewrite <- (Z.mod_small x _ Hx) at 1. rewrite <- le_val_le_bytes, fo_reverse by (apply le_bytes_bytes || apply length_le_bytes).
  unfold be_val, be_bytes. rewrite <- (length_le_bytes (f_bytes f) x) at 1. rewrite <- length_reverse.
  apply le_bytes_le_val, Forall_reverse, le_bytes_bytes.
Qed.

Definition words_ok (w : words8) : Prop := Forall (fun x => 0 <= x < 2 ^ (8 * Z.of_nat (f_bytes f))) (words8_list w).

Lemma absorb_words_ok B st m : words_ok st -> words_ok (absorb B (sha2_block f) st m).
Proof.
  unfold absorb. generalize (length m / B)%nat as k. intros k. revert st m. induction k as [|k IH]; intros st m H; [done|]. cbn [absorb_n].
  apply IH. unfold sha2_block, add8, words_ok, words8_list. cbn [va vb vc vd ve vf vg vh].
  repeat constructor; apply Z.mod_pos_bound; lia.
Qed.

Lemma digest_bytes l :
  Forall (fun x => 0 <= x < 2 ^ (8 * Z.of_nat (f_bytes f))) l ->
  l ≫= (fun x => le_bytes (f_bytes f) (f_REVERSE f x)) = l ≫= be_bytes (f_bytes f).
Proof. induction 1 as [|x l Hx Hl IH]; [done|]. rewrite !bind_cons, IH. by rewrite reverse_bytes. Qed.
End digest.

Lemma reverse64_bytes x : le_bytes 8 (REVERSE64 (u64 x)) = be_bytes 8 x.
Proof.
  rewrite (reverse_bytes sha2_64) by apply u64_range. unfold be_bytes. f_equal. apply (le_bytes_mod_k 8 8). lia.
Qed.

Lemma be_bytes_16 x : be_bytes 16 x = be_bytes 8 (x / 2 ^ 64) ++ be_bytes 8 x.
Proof. unfold be_bytes. change 16%nat with (8 + 8)%nat. by rewrite le_bytes_app, reverse_app, Z.shiftr_div_pow2 by lia. Qed.

Definition pieces_ok (chunks : list (list Z)) : Prop := Forall (fun x => bytes x /\ Z.of_nat (length x) < 2 ^ 61) chunks.

Lemma sha512_last_read iv chunks :
  words_ok sha2_64 iv -> pieces_ok chunks ->
  let w := SHA512_Last (foldl SHA512_Update (mk_sha2 iv (0, 0) (replicate 128 0)) chunks) in
  w = absorb 128 (sha2_block sha2_64) iv (sha2_padded 128 16 (concat chunks)) /\ words_ok sha2_64 w.
Proof.
  intros Hiv Hc. cbv zeta. set (c0 := mk_sha2 iv (0, 0) (replicate 128 0)).
  assert (sha2_read sha2_64 128 count512 iv c0 []) as R0 by (split; try done; by apply Forall_replicate).
  pose proof (pieces_read sha2_64 128 ADDINC128 used512 count512 eq_refl ltac:(lia) iv c0 [] chunks R0 Hc) as R. cbn [app] in R.
  change (sha2_read sha2_64 128 count512 iv (foldl SHA512_Update c0 chunks) (concat chunks)) in R.
  revert R. generalize (foldl SHA512_Update c0 chunks). intros c R. unfold SHA512_Last. rewrite (s2_count _ _ _ _ _ _ R). cbn [count512 fst snd].
  rewrite !reverse64_bytes, <- be_bytes_16.
  change 112%nat with (128 - 16)%nat. rewrite (finish_blocks sha2_64 128 ADDINC128 used512 count512 eq_refl iv 16 126 _ (concat chunks) _ R);
    [|lia|lia|apply length_be_bytes|apply be_bytes_bytes].
  split; [done|]. by apply absorb_words_ok.
Qed.

Lemma sha2_digests chunks :
  Forall (fun x => bytes x /\ Z.of_nat (length x) < 2 ^ 61) chunks ->
  (SHA256_Final (foldl SHA256_Update SHA256_Init chunks)).1 = sha256 (concat chunks)
  /\ (SHA384_Final (foldl SHA384_Update SHA384_Init chunks)).1 = sha384 (concat chunks)
  /\ (SHA512_Final (foldl SHA512_Update SHA512_Init chunks)).1 = sha512 (concat chunks).
Proof.
  intros Hc. split_and!.
  - assert (sha2_read sha2_32 64 count256 (words8_of sha256_initial_hash_value) SHA256_Init []) as R0
      by (split; try done; by apply Forall_replicate).
    pose proof (pieces_read sha2_32 64 add_bits used256 count256 eq_refl ltac:(lia) _ SHA256_Init [] chunks R0 Hc) as R. cbn [app] in R.
    change (sha2_read sha2_32 64 count256 (words8_of sha256_initial_hash_value) (foldl SHA256_Update SHA256_Init chunks) (concat chunks)) in R.
    revert R. generalize (foldl SHA256_Update SHA256_Init chunks). intros c R. unfold SHA256_Final. rewrite (s2_count _ _ _ _ _ _ R). unfold count256. rewrite reverse64_bytes.
    pose proof (finish_blocks sha2_32 64 add_bits used256 count256 eq_refl _ 8 56 _ (concat chunks) (be_bytes 8 (8 * Z.of_nat (length (concat chunks)))) R) as E.
    destruct (finish sha2_32 64 used256 56 56 _ _) as [w W] eqn:Ef. cbn [fst] in *. change (64 - 8)%nat with 56%nat in E. rewrite Ef in E.
    cbn [fst] in E. unfold sha256, sha2_padded. rewrite <- E by (lia || apply length_be_bytes || apply be_bytes_bytes).
    apply (digest_bytes sha2_32). rewrite E by (lia || apply length_be_bytes || apply be_bytes_bytes).
    apply (absorb_words_ok sha2_32). by repeat constructor.
  - destruct (sha512_last_read (words8_of sha384_initial_hash_value) chunks) as [E H]; [by repeat constructor|done|].
    unfold SHA384_Final, SHA384_Update, SHA384_Init. cbn [fst]. rewrite (digest_bytes sha2_64) by (by apply Forall_take). by rewrite E.
  - destruct (sha512_last_read (words8_of sha512_initial_hash_value) chunks) as [E H]; [by repeat constructor|done|].
    unfold SHA512_Final, SHA512_Init. cbn [fst]. rewrite (digest_bytes sha2_64) by done. by rewrite E.
Qed.

(** C38: the three digests of SHA-2 of a message that is given piece by piece are those
    that FIPS 180-4 defines for the whole: the transformation with its ring of words, read
    or not from the buffer in which it keeps them, is the compression with the full
    schedule, and the counts of bits, the padding and the last blocks are those of the
    standard. *)
Theorem sha2_pieces chunks :
  Forall (fun x => bytes x /\ Z.of_nat (length x) < 2 ^ 61) chunks ->
  (SHA256_Final (foldl SHA256_Update SHA256_Init chunks)).1 = sha256 (concat chunks)
  /\ (SHA384_Final (foldl SHA384_Update SHA384_Init chunks)).1 = sha384 (concat chunks)
  /\ (SHA512_Final (foldl SHA512_Update SHA512_Init chunks)).1 = sha512 (concat chunks).
Proof. apply sha2_digests. Qed.

Lemma sha2_pieces_witness :
  (SHA256_Final (foldl SHA256_Update SHA256_Init [[97]; replicate 100 98])).1 = sha256 (97 :: replicate 100 98)
  /\ (SHA384_Final (foldl SHA384_Update SHA384_Init [[97]; replicate 100 98])).1 = sha384 (97 :: replicate 100 98)
  /\ (SHA512_Final (foldl SHA512_Update SHA512_Init [[97]; replicate 100 98])).1 = sha512 (97 :: replicate 100 98).
Proof. apply (sha2_pieces [[97]; replicate 100 98]). repeat constructor; done. Defined.
