(* ===== verification/Crc.v ===== *)
(** * Cyclic redundancy checks

    [libr/hash/crc16.c] and [crc32.c]: the two table-driven routines, and the
    routine that takes a bit at a time, of which they are the fast form. *)

From S2P Require Import Prelude Endian.

(** ** CRC-16 *)

Definition crc16_table : list Z := [
  0x0000; 0xc0c1; 0xc181; 0x0140; 0xc301; 0x03c0; 0x0280; 0xc241; 0xc601; 0x06c0; 0x0780; 0xc741;
  0x0500; 0xc5c1; 0xc481; 0x0440; 0xcc01; 0x0cc0; 0x0d80; 0xcd41; 0x0f00; 0xcfc1; 0xce81; 0x0e40;
  0x0a00; 0xcac1; 0xcb81; 0x0b40; 0xc901; 0x09c0; 0x0880; 0xc841; 0xd801; 0x18c0; 0x1980; 0xd941;
  0x1b00; 0xdbc1; 0xda81; 0x1a40; 0x1e00; 0xdec1; 0xdf81; 0x1f40; 0xdd01; 0x1dc0; 0x1c80; 0xdc41;
  0x1400; 0xd4c1; 0xd581; 0x1540; 0xd701; 0x17c0; 0x1680; 0xd641; 0xd201; 0x12c0; 0x1380; 0xd341;
  0x1100; 0xd1c1; 0xd081; 0x1040; 0xf001; 0x30c0; 0x3180; 0xf141; 0x3300; 0xf3c1; 0xf281; 0x3240;
  0x3600; 0xf6c1; 0xf781; 0x3740; 0xf501; 0x35c0; 0x3480; 0xf441; 0x3c00; 0xfcc1; 0xfd81; 0x3d40;
  0xff01; 0x3fc0; 0x3e80; 0xfe41; 0xfa01; 0x3ac0; 0x3b80; 0xfb41; 0x3900; 0xf9c1; 0xf881; 0x3840;
  0x2800; 0xe8c1; 0xe981; 0x2940; 0xeb01; 0x2bc0; 0x2a80; 0xea41; 0xee01; 0x2ec0; 0x2f80; 0xef41;
  0x2d00; 0xedc1; 0xec81; 0x2c40; 0xe401; 0x24c0; 0x2580; 0xe541; 0x2700; 0xe7c1; 0xe681; 0x2640;
  0x2200; 0xe2c1; 0xe381; 0x2340; 0xe101; 0x21c0; 0x2080; 0xe041; 0xa001; 0x60c0; 0x6180; 0xa141;
  0x6300; 0xa3c1; 0xa281; 0x6240; 0x6600; 0xa6c1; 0xa781; 0x6740; 0xa501; 0x65c0; 0x6480; 0xa441;
  0x6c00; 0xacc1; 0xad81; 0x6d40; 0xaf01; 0x6fc0; 0x6e80; 0xae41; 0xaa01; 0x6ac0; 0x6b80; 0xab41;
  0x6900; 0xa9c1; 0xa881; 0x6840; 0x7800; 0xb8c1; 0xb981; 0x7940; 0xbb01; 0x7bc0; 0x7a80; 0xba41;
  0xbe01; 0x7ec0; 0x7f80; 0xbf41; 0x7d00; 0xbdc1; 0xbc81; 0x7c40; 0xb401; 0x74c0; 0x7580; 0xb541;
  0x7700; 0xb7c1; 0xb681; 0x7640; 0x7200; 0xb2c1; 0xb381; 0x7340; 0xb101; 0x71c0; 0x7080; 0xb041;
  0x5000; 0x90c1; 0x9181; 0x5140; 0x9301; 0x53c0; 0x5280; 0x9241; 0x9601; 0x56c0; 0x5780; 0x9741;
  0x5500; 0x95c1; 0x9481; 0x5440; 0x9c01; 0x5cc0; 0x5d80; 0x9d41; 0x5f00; 0x9fc1; 0x9e81; 0x5e40;
  0x5a00; 0x9ac1; 0x9b81; 0x5b40; 0x9901; 0x59c0; 0x5880; 0x9841; 0x8801; 0x48c0; 0x4980; 0x8941;
  0x4b00; 0x8bc1; 0x8a81; 0x4a40; 0x4e00; 0x8ec1; 0x8f81; 0x4f40; 0x8d01; 0x4dc0; 0x4c80; 0x8c41;
  0x4400; 0x84c1; 0x8581; 0x4540; 0x8701; 0x47c0; 0x4680; 0x8641; 0x8201; 0x42c0; 0x4380; 0x8341;
  0x4100; 0x81c1; 0x8081; 0x4040].

Definition crc16_byte (crc data : Z) : Z :=
  u16 (Z.lxor (Z.shiftr crc 8) (default 0 (crc16_table !! Z.to_nat (Z.land (Z.lxor crc data) 0xff)))).

(** The value is read back from its two bytes in memory, the lower one first. *)
Definition r_hash_crc16 (crc : Z) (buffer : list Z) : Z := r_read_le16 (le_bytes 2 (foldl crc16_byte crc buffer)).

(** ** CRC-32 *)

Definition UT32_MAX : Z := 2 ^ 32 - 1.

(** The two static variables. *)
Record crc32_statics := mk_crc32 { crc_table_is_init : bool; crc_table : list Z }.
Definition crc32_start : crc32_statics := mk_crc32 false (replicate 256 0).

(** The inner loop, [n] turns at most: the entries [i + j] from the entries [j]. *)
Fixpoint table_inner (n : nat) (i j h : Z) (table : list Z) : list Z :=
  match n with
  | O => table
  | S n =>
      if j <? 256 then table_inner n i (j + 2 * i) h (<[Z.to_nat (i + j) := Z.lxor (default 0 (table !! Z.to_nat j)) h]> table)
      else table
  end.
(** The outer loop, over the powers of two from [i] down. *)
Fixpoint table_outer (n : nat) (i h : Z) (table : list Z) : list Z :=
  match n with
  | O => table
  | S n =>
      if i =? 0 then table
      else
        let h := Z.lxor (Z.shiftr h 1) (if z2b (Z.land h 1) then 0xedb88320 else 0) in
        table_outer n (Z.shiftr i 1) h (table_inner 256 i 0 h table)
  end.

Definition crc32_byte (table : list Z) (crc b : Z) : Z :=
  Z.lxor (Z.shiftr crc 8) (default 0 (table !! Z.to_nat (Z.land (Z.lxor crc b) 0xff))).

Definition r_hash_crc32 (st : crc32_statics) (buf : list Z) : Z * crc32_statics :=
  let st := if crc_table_is_init st then st else mk_crc32 true (table_outer 9 128 1 (<[0%nat := 0]> (crc_table st))) in
  let crc := Z.lxor 0 UT32_MAX in
  let crc := foldl (crc32_byte (crc_table st)) crc buf in
  let crc := Z.lxor crc UT32_MAX in
  (r_read_le32 (r_write_le32 (replicate 4 0) crc), st).

(** ** A bit at a time *)

Definition crc_bit (poly c : Z) : Z := Z.lxor (Z.shiftr c 1) (if Z.odd c then poly else 0).
Definition crc_bits (poly : Z) : Z -> Z := Nat.iter 8 (crc_bit poly).
Definition crc_ref (poly c : Z) (l : list Z) : Z := foldl (fun c b => crc_bits poly (Z.lxor c b)) c l.

Example crc32_check : (r_hash_crc32 crc32_start [49; 50; 51; 52; 53; 54; 55; 56; 57]).1 = 0xcbf43926.
Proof. vm_compute. reflexivity. Qed.
Example crc16_check : r_hash_crc16 0 [49; 50; 51; 52; 53; 54; 55; 56; 57] = 0xbb3d.
Proof. vm_compute. reflexivity. Qed.

Section bitwise.
Context (poly : Z).

Lemma crc_bit_lxor a b : crc_bit poly (Z.lxor a b) = Z.lxor (crc_bit poly a) (crc_bit poly b).
Proof.
  unfold crc_bit. rewrite Z.shiftr_lxor, <- !Z.bit0_odd, Z.lxor_spec.
  destruct (Z.testbit a 0), (Z.testbit b 0); cbn [xorb]; rewrite ?Z.lxor_0_r.
  - rewrite (Z.lxor_assoc _ poly), (Z.lxor_comm (Z.shiftr b 1) poly), <- (Z.lxor_assoc poly poly), Z.lxor_nilpotent. done.
  - by rewrite !Z.lxor_assoc, (Z.lxor_comm poly).
  - by rewrite !Z.lxor_assoc.
  - done.
Qed.

Lemma iter_lxor n a b : Nat.iter n (crc_bit poly) (Z.lxor a b) = Z.lxor (Nat.iter n (crc_bit poly) a) (Nat.iter n (crc_bit poly) b).
Proof. induction n as [|n IH]; simpl; [done|]. by rewrite IH, crc_bit_lxor. Qed.

Lemma crc_bit_double a : crc_bit poly (Z.shiftl a 1) = a.
Proof.
  unfold crc_bit. rewrite <- Z.bit0_odd, Z.shiftl_spec_low by lia. rewrite Z.lxor_0_r, Z.shiftr_shiftl_l, Z.shiftl_0_r by lia. done.
Qed.

Lemma iter_shiftl n a : Nat.iter n (crc_bit poly) (Z.shiftl a (Z.of_nat n)) = a.
Proof.
  induction n as [|n IH]; [apply Z.shiftl_0_r|]. rewrite Nat.iter_succ_r. replace (Z.of_nat (S n)) with (Z.of_nat n + 1) by lia.
  by rewrite <- Z.shiftl_shiftl, crc_bit_double, IH by lia.
Qed.

(** Eight bits of a value: the lower byte alone decides what comes into the rest. *)
Lemma crc_bits_split x : crc_bits poly x = Z.lxor (Z.shiftr x 8) (crc_bits poly (Z.land x 0xff)).
Proof.
  assert (x = Z.lxor (Z.shiftl (Z.shiftr x 8) (Z.of_nat 8)) (Z.land x 0xff)) as E.
  { change 0xff with (Z.ones 8). rewrite Z.land_ones by lia. zbits. destruct (Z.ltb_spec i 8).
    - rewrite Z.mod_pow2_bits_low, (Z.testbit_neg_r (Z.shiftr x 8)) by lia. by destruct (Z.testbit x i).
    - rewrite Z.mod_pow2_bits_high, Z.shiftr_spec, xorb_false_r by lia. f_equal. lia. }
  rewrite E at 1. unfold crc_bits. rewrite iter_lxor, iter_shiftl. done.
Qed.
End bitwise.

(** ** The tables *)

Definition crc16_poly : Z := 0xa001.
Definition crc32_poly : Z := 0xedb88320.
Definition table_of (poly : Z) : list Z := crc_bits poly <$> seqZ 0 256.

Lemma crc16_table_eq : crc16_table = table_of crc16_poly.
Proof. vm_compute. reflexivity. Qed.

(** The static variables before the first call, which fills the table, and after it. *)
Definition statics_ok (st : crc32_statics) : Prop := st = crc32_start \/ st = mk_crc32 true (table_of crc32_poly).

Lemma crc32_table_filled : table_outer 9 128 1 (<[0%nat := 0]> (crc_table crc32_start)) = table_of crc32_poly.
Proof. vm_compute. reflexivity. Qed.

Lemma table_of_lookup poly x : default 0 (table_of poly !! Z.to_nat (Z.land x 0xff)) = crc_bits poly (Z.land x 0xff).
Proof.
  unfold table_of. assert (0 <= Z.land x 0xff < 256) as H.
  { change 0xff with (Z.ones 8). rewrite Z.land_ones by lia. apply Z.mod_pos_bound. lia. }
  revert H. generalize (Z.land x 0xff). intros d H. rewrite list_lookup_fmap, lookup_seqZ_lt by lia.
  rewrite Z2Nat.id by lia. reflexivity.
Qed.

Lemma crc_byte_table poly x : Z.lxor (Z.shiftr x 8) (default 0 (table_of poly !! Z.to_nat (Z.land x 0xff))) = crc_bits poly x.
Proof. rewrite table_of_lookup. symmetry. apply crc_bits_split. Qed.

Lemma shiftr_byte c b : is_byte b -> Z.shiftr (Z.lxor c b) 8 = Z.shiftr c 8.
Proof.
  intros Hb. rewrite Z.shiftr_lxor, (Z.shiftr_div_pow2 b), Z.div_small by (unfold is_byte in Hb; lia). apply Z.lxor_0_r.
Qed.

(** ** The value stays in its width *)

Lemma crc_bit_range w poly c : 0 <= w -> 0 <= poly < 2 ^ w -> 0 <= c < 2 ^ w -> 0 <= crc_bit poly c < 2 ^ w.
Proof.
  intros Hw Hp Hc. apply lxor_range; [done| |destruct (Z.odd c); lia].
  rewrite Z.shiftr_div_pow2 by lia. change (2 ^ 1) with 2. zlia.
Qed.

Lemma crc_bits_range w poly c : 0 <= w -> 0 <= poly < 2 ^ w -> 0 <= c < 2 ^ w -> 0 <= crc_bits poly c < 2 ^ w.
Proof.
  intros Hw Hp. unfold crc_bits. generalize 8%nat as n. intros n. induction n as [|n IH]; intros Hc; simpl; [done|].
  apply crc_bit_range; auto.
Qed.

Lemma crc_ref_range w poly c l :
  8 <= w -> 0 <= poly < 2 ^ w -> 0 <= c < 2 ^ w -> bytes l -> 0 <= crc_ref poly c l < 2 ^ w.
Proof.
  intros Hw Hp Hc Hl. revert c Hc. induction Hl as [|b l Hb Hl IH]; intros c Hc; [done|]. apply IH, crc_bits_range; [lia|done|].
  apply lxor_range; [lia|done|]. unfold is_byte in Hb. pose proof (Z.pow_le_mono_r 2 8 w). lia.
Qed.

Lemma crc16_byte_ref c b : 0 <= c < 2 ^ 16 -> is_byte b -> crc16_byte c b = crc_bits crc16_poly (Z.lxor c b).
Proof.
  intros Hc Hb. unfold crc16_byte. rewrite crc16_table_eq, <- (shiftr_byte c b), crc_byte_table by done.
  apply Z.mod_small, crc_bits_range; [done|done|]. apply lxor_range; [done|done|unfold is_byte in Hb; lia].
Qed.

(** The table-driven CRC-16 is the one that takes a bit at a time, with the
    polynomial [x^16 + x^15 + x^2 + 1] and the lowest bit first. *)
Theorem r_hash_crc16_bitwise crc l :
  0 <= crc < 2 ^ 16 -> bytes l -> r_hash_crc16 crc l = crc_ref crc16_poly crc l.
Proof.
  intros Hc Hl. assert (foldl crc16_byte crc l = crc_ref crc16_poly crc l) as E.
  { clear -Hc Hl. revert crc Hc. induction Hl as [|b l Hb Hl IH]; intros c Hc; [done|]. cbn [foldl]. rewrite crc16_byte_ref by done.
    apply IH, crc_bits_range; [done|done|]. apply lxor_range; [done|done|unfold is_byte in Hb; lia]. }
  unfold r_hash_crc16. rewrite E, r_read_le16_spec by (rewrite ?length_le_bytes; auto using le_bytes_bytes).
  rewrite take_ge by (by rewrite length_le_bytes). rewrite le_val_le_bytes. apply Z.mod_small. by apply (crc_ref_range 16).
Qed.

Lemma r_hash_crc16_bitwise_witness : r_hash_crc16 0xffff [1; 2; 0x80] = crc_ref crc16_poly 0xffff [1; 2; 0x80].
Proof. apply (r_hash_crc16_bitwise 0xffff [1; 2; 0x80]); [done|]. repeat constructor; done. Defined.

Lemma crc32_byte_ref c b : is_byte b -> crc32_byte (table_of crc32_poly) c b = crc_bits crc32_poly (Z.lxor c b).
Proof. intros Hb. unfold crc32_byte. by rewrite <- (shiftr_byte c b), crc_byte_table. Qed.

Lemma crc32_fold c l : bytes l -> foldl (crc32_byte (table_of crc32_poly)) c l = crc_ref crc32_poly c l.
Proof.
  intros Hl. revert c. induction Hl as [|b l Hb Hl IH]; intros c; [done|]. cbn [foldl]. by rewrite crc32_byte_ref, IH.
Qed.

(** C40: the table-driven CRC-32, with its static variables as they are before the
    first call, which fills the table, or after it ([statics_ok]), is on any bytes the one
    that takes a bit at a time, with the reflected polynomial of IEEE 802.3; the call
    leaves the table filled. *)
Theorem r_hash_crc32_bitwise st l :
  statics_ok st -> bytes l ->
  r_hash_crc32 st l = (Z.lxor (crc_ref crc32_poly UT32_MAX l) UT32_MAX, mk_crc32 true (table_of crc32_poly)).
Proof.
  intros Hst Hl. unfold r_hash_crc32.
  assert ((if crc_table_is_init st then st else mk_crc32 true (table_outer 9 128 1 (<[0%nat := 0]> (crc_table st))))
    = mk_crc32 true (table_of crc32_poly)) as ->.
  { destruct Hst as [-> | ->]; [|done]. cbn [crc_table_is_init crc32_start]. by rewrite crc32_table_filled. }
  cbn [crc_table]. rewrite Z.lxor_0_l, crc32_fold by done. f_equal.
  assert (0 <= Z.lxor (crc_ref crc32_poly UT32_MAX l) UT32_MAX < 2 ^ 32) as H.
  { apply lxor_range; [done| |done]. by apply crc_ref_range. }
  revert H. generalize (Z.lxor (crc_ref crc32_poly UT32_MAX l) UT32_MAX). intros v H.
  rewrite r_write_le32_spec by done. unfold blit. rewrite take_ge, drop_ge, app_nil_r by (by rewrite length_le_bytes).
  rewrite r_read_le32_spec by (rewrite ?length_le_bytes; auto using le_bytes_bytes).
  rewrite take_ge, le_val_le_bytes by (by rewrite length_le_bytes). by apply Z.mod_small.
Qed.

Lemma r_hash_crc32_bitwise_witness :
  r_hash_crc32 crc32_start [1; 2; 0x80] = (Z.lxor (crc_ref crc32_poly UT32_MAX [1; 2; 0x80]) UT32_MAX, mk_crc32 true (table_of crc32_poly)).
Proof. apply r_hash_crc32_bitwise; [by left|]. repeat constructor; done. Defined.

(** ** Errors that the checks detect *)

Lemma crc_bit_inj w poly a b :
  0 < w -> 2 ^ (w - 1) <= poly < 2 ^ w -> 0 <= a < 2 ^ w -> 0 <= b < 2 ^ w -> crc_bit poly a = crc_bit poly b -> a = b.
Proof.
  intros Hw Hp Ha Hb E.
  assert (2 ^ w = 2 * 2 ^ (w - 1)) as E2 by (rewrite <- Z.pow_succ_r by lia; f_equal; lia).
  assert (forall c, 0 <= c < 2 ^ w -> Z.testbit (crc_bit poly c) (w - 1) = Z.odd c) as Ht.
  { intros c Hc. unfold crc_bit. rewrite Z.lxor_spec, Z.shiftr_spec by lia.
    assert (Z.testbit c (w - 1 + 1) = false) as -> by (rewrite <- (Z.mod_small c (2 ^ w)) by lia; apply Z.mod_pow2_bits_high; lia).
    rewrite xorb_false_l. destruct (Z.odd c); [|apply Z.testbit_0_l].
    rewrite <- (Z.mod_small poly (2 ^ w)) by lia. rewrite Z.mod_pow2_bits_low by lia.
    replace poly with (poly - 2 ^ (w - 1) + 1 * 2 ^ (w - 1)) by lia.
    rewrite Z.testbit_true by lia. rewrite Z.div_add, Z.div_small by (rewrite E2 in Hp; lia).
    done. }
  assert (Z.odd a = Z.odd b) as Eo by (rewrite <- (Ht a), <- (Ht b), E by done; done).
  assert (Z.shiftr a 1 = Z.shiftr b 1) as Es.
  { unfold crc_bit in E. rewrite Eo in E. revert E. generalize (if Z.odd b then poly else 0). intros p E.
    rewrite <- (Z.lxor_0_r (Z.shiftr a 1)), <- (Z.lxor_nilpotent p), <- Z.lxor_assoc, E, Z.lxor_assoc, Z.lxor_nilpotent, Z.lxor_0_r. done. }
  rewrite (Z.div2_odd a), (Z.div2_odd b), !Z.div2_spec, Es, Eo. done.
Qed.

Lemma crc_bits_inj w poly a b :
  0 < w -> 2 ^ (w - 1) <= poly < 2 ^ w -> 0 <= a < 2 ^ w -> 0 <= b < 2 ^ w -> crc_bits poly a = crc_bits poly b -> a = b.
Proof.
  intros Hw Hp Ha Hb. unfold crc_bits. generalize 8%nat as n. intros n. induction n as [|n IH]; simpl; [done|]. intros E. apply IH.
  assert (forall c, 0 <= c < 2 ^ w -> 0 <= Nat.iter n (crc_bit poly) c < 2 ^ w) as Hr.
  { intros c Hc. clear -Hc Hw Hp. induction n as [|n IH]; simpl; [done|]. apply crc_bit_range; try lia. }
  eapply (crc_bit_inj w poly); eauto.
Qed.

Lemma lxor_inj a b c : Z.lxor a c = Z.lxor b c -> a = b.
Proof. intros E. rewrite <- (Z.lxor_0_r a), <- (Z.lxor_nilpotent c), <- Z.lxor_assoc, E, Z.lxor_assoc, Z.lxor_nilpotent, Z.lxor_0_r. done. Qed.

Section errors.
Context (w poly : Z) (Hw : 8 <= w) (Hp : 2 ^ (w - 1) <= poly < 2 ^ w).

Lemma byte_range b : is_byte b -> 0 <= b < 2 ^ w.
Proof. unfold is_byte. pose proof (Z.pow_le_mono_r 2 8 w). lia. Qed.

Lemma crc_ref_inj c c' l : 0 <= c < 2 ^ w -> 0 <= c' < 2 ^ w -> bytes l -> crc_ref poly c l = crc_ref poly c' l -> c = c'.
Proof.
  intros Hc Hc' Hl. revert c c' Hc Hc'. induction Hl as [|b l Hb Hl IH]; intros c c' Hc Hc'; [done|]. cbn [crc_ref foldl]. intros E.
  pose proof (byte_range b Hb). pose proof (Z.pow_nonneg 2 (w - 1)).
  apply IH in E; try (apply crc_bits_range; [lia|lia|]; by apply lxor_range; [lia|..]).
  apply (crc_bits_inj w poly) in E; try (by apply lxor_range; [lia|..]); [|lia|done]. by apply lxor_inj in E.
Qed.

Lemma crc_ref_byte c l b b' r :
  0 <= c < 2 ^ w -> bytes (l ++ b :: r) -> is_byte b' -> crc_ref poly c (l ++ b :: r) = crc_ref poly c (l ++ b' :: r) -> b = b'.
Proof.
  intros Hc Hl Hb'. apply Forall_app in Hl as [Hl [Hb Hr]%Forall_cons]. unfold crc_ref. rewrite !foldl_app. cbn [foldl].
  fold (crc_ref poly c l). pose proof (Z.pow_nonneg 2 (w - 1)).
  assert (0 <= crc_ref poly c l < 2 ^ w) as Hcl by (apply crc_ref_range; [done|lia|done|done]).
  pose proof (byte_range b Hb). pose proof (byte_range b' Hb'). intros E.
  apply crc_ref_inj in E; try (apply crc_bits_range; [lia|lia|]; by apply lxor_range; [lia|..]); [|done].
  apply (crc_bits_inj w poly) in E; try (by apply lxor_range; [lia|..]); [|lia|done].
  rewrite !(Z.lxor_comm (crc_ref poly c l)) in E. by apply lxor_inj in E.
Qed.
End errors.
