(* ===== verification/Checksum.v ===== *)
(** * Checksums

    [libr/hash/adler32.c], [luhn.c], [hamdist.c] and the sums of [hash.c].  A buffer is
    the list of its bytes; [None] stands for a signed overflow, a division by zero or a
    read outside the buffer. *)

From S2P Require Import Prelude.

(** ** Adler-32 *)

Definition MOD_ADLER : Z := 65521.
Definition adler_step (ab : Z * Z) (d : Z) : Z * Z :=
  let a := u32 (ab.1 + d) mod MOD_ADLER in (a, u32 (ab.2 + a) mod MOD_ADLER).
Definition r_hash_adler32 (data : list Z) : Z :=
  let '(a, b) := foldl adler_step (1, 0) data in Z.lor (u32 (Z.shiftl b 16)) a.

(** ** Luhn *)

(** [atoi] of a text of one character: blanks and signs alone are 0 too. *)
Definition atoi1 (c : Z) : Z := if (48 <=? c) && (c <=? 57) then c - 48 else 0.
Definition luhn_digit (double : bool) (c : Z) : Z :=
  let curDigit := atoi1 c in
  let curDigit := if double then curDigit * 2 else curDigit in
  Z.quot curDigit 10 + Z.rem curDigit 10.
(** The loop from [i] down to 1, over the bytes before it from the last one. *)
Fixpoint luhn_loop (parity : Z) (i : nat) (buf : list Z) (sum : Z) : Z :=
  match i with
  | O => sum
  | S i' => luhn_loop parity i' buf (u64 (sum + luhn_digit (parity =? Z.of_nat i mod 2) (byte_at buf i')))
  end.
(** For a length that is an [int]. *)
Definition r_hash_luhn (buf : list Z) : Z :=
  let parity := u64 (Z.of_nat (length buf) - 1) mod 2 in
  luhn_loop parity (length buf) buf 0 mod 10.

(** ** Sums of [hash.c] *)

Definition IS_PRINTABLE (x : Z) : bool := (32 <=? x) && (x <=? 126).
Definition r_hash_pcprint (buffer : list Z) : option Z :=
  let len := Z.of_nat (length buffer) in
  if len <? 1 then Some 0
  else
    let n := foldl (fun n x => if IS_PRINTABLE x then n + 1 else n) 0 buffer in
    if 2 ^ 31 <=? 100 * n then None else Some (100 * n / len).

Definition ones_of (x : Z) : Z :=
  b2z (z2b (Z.land x 128)) + b2z (z2b (Z.land x 64)) + b2z (z2b (Z.land x 32)) + b2z (z2b (Z.land x 16))
  + b2z (z2b (Z.land x 8)) + b2z (z2b (Z.land x 4)) + b2z (z2b (Z.land x 2)) + b2z (z2b (Z.land x 1)).
Definition r_hash_parity (buf : list Z) : Z := foldl (fun ones x => u32 (ones + ones_of x)) 0 buf mod 2.

(** The 16-bit words of a little-endian host; [n] of them. *)
Fixpoint xorpair_loop (n : nat) (b : list Z) (result : Z) : Z :=
  match n with O => result | S n => xorpair_loop n (drop 2 b) (Z.lxor result (le_val (take 2 b))) end.
Definition r_hash_xorpair (a : list Z) : Z := xorpair_loop (length a / 2) a 0.
Definition r_hash_xor (b : list Z) : Z := foldl Z.lxor 0 b.

(** A sum of type [int]. *)
Definition int_sum (l : list Z) : option Z :=
  foldl (fun c x => c ← c; if c + x <? 2 ^ 31 then Some (c + x) else None) (Some 0) l.
Definition r_hash_mod255 (b : list Z) : option Z := (fun c => u8 (Z.rem c 255)) <$> int_sum b.
(** The length 0 wraps, and the loop reads from the start on until it leaves the
    buffer. *)
Definition r_hash_deviation (b : list Z) : option Z :=
  match b with
  | [] => None
  | x :: r => u8 <$> int_sum (zip_with (fun y x => Z.abs (y - x)) r (x :: r))
  end.

(** ** Hamming distance *)

(** The loop clears the lowest bit; [n] turns at most. *)
Fixpoint hamdist_loop (n : nat) (val dist : Z) : Z :=
  match n with
  | O => dist
  | S n => if val =? 0 then dist else hamdist_loop n (Z.land val (val - 1)) (dist + 1)
  end.
Definition hamdist (x y : Z) : Z := hamdist_loop 32 (Z.lxor x y) 0.
Definition r_hash_hamdist (buf : list Z) : Z := u8 (foldl hamdist 0 buf).

Example adler32_wikipedia : r_hash_adler32 [87; 105; 107; 105; 112; 101; 100; 105; 97] = 0x11e60398.
Proof. vm_compute. reflexivity. Qed.
Example luhn_valid : r_hash_luhn [55; 57; 57; 50; 55; 51; 57; 56; 55; 49; 51] = 0.
Proof. vm_compute. reflexivity. Qed.

(** ** Adler-32 in closed form *)

Definition sum (l : list Z) : Z := foldr Z.add 0 l.
(** Each byte as often as there are bytes from it on. *)
Fixpoint weighted (l : list Z) : Z :=
  match l with [] => 0 | d :: r => Z.of_nat (S (length r)) * d + weighted r end.

Lemma adler_fold l a b :
  0 <= a < MOD_ADLER -> 0 <= b < MOD_ADLER -> bytes l ->
  foldl adler_step (a, b) l = ((a + sum l) mod MOD_ADLER, (b + Z.of_nat (length l) * a + weighted l) mod MOD_ADLER).
Proof.
  unfold MOD_ADLER. intros Ha Hb Hl. revert a b Ha Hb. induction Hl as [|d l Hd Hl IH]; intros a b Ha Hb.
  - cbn [foldl sum foldr weighted length]. rewrite !Z.mod_small by lia. f_equal; lia.
  - cbn [foldl]. unfold adler_step at 2. cbn [fst snd]. unfold MOD_ADLER, u32, is_byte in *. rewrite (Z.mod_small (a + d) (2 ^ 32)) by lia.
    set (a' := (a + d) mod 65521). assert (0 <= a' < 65521) by (apply Z.mod_pos_bound; lia).
    rewrite (Z.mod_small (b + a') (2 ^ 32)) by lia. rewrite IH by (try apply Z.mod_pos_bound; lia).
    cbn [weighted length]. change (sum (d :: l)) with (d + sum l). f_equal.
    + unfold a'. rewrite Zplus_mod_idemp_l. f_equal. lia.
    + set (p := (b + a') / 65521). set (q := (a + d) / 65521).
      assert ((b + a') mod 65521 = b + a' - 65521 * p) as -> by (apply Z.mod_eq; lia).
      assert (a' = a + d - 65521 * q) as -> by (apply Z.mod_eq; lia).
      rewrite <- (Z_mod_plus_full (b + Z.of_nat (S (length l)) * a + _) (- (p + q + Z.of_nat (length l) * q))). f_equal. lia.
Qed.

(** Adler-32 is the sum of the bytes and one in the lower half, and the sum in
    which each byte counts as often as there are bytes from it on in the upper half, both
    modulo 65521. *)
Theorem r_hash_adler32_sums l :
  bytes l ->
  r_hash_adler32 l = ((Z.of_nat (length l) + weighted l) mod MOD_ADLER) * 2 ^ 16 + (1 + sum l) mod MOD_ADLER.
Proof.
  intros Hl. unfold r_hash_adler32. rewrite adler_fold by done. unfold MOD_ADLER.
  replace (0 + Z.of_nat (length l) * 1 + weighted l) with (Z.of_nat (length l) + weighted l) by lia.
  set (b := (Z.of_nat (length l) + weighted l) mod 65521). set (a := (1 + sum l) mod 65521).
  assert (0 <= a < 65521 /\ 0 <= b < 65521) as [Ha Hb] by (split; apply Z.mod_pos_bound; lia).
  unfold u32. rewrite Z.mod_small by (rewrite Z.shiftl_mul_pow2 by lia; lia). apply lor_shiftl_add; lia.
Qed.

Lemma r_hash_adler32_sums_witness :
  r_hash_adler32 [87; 105; 107] = ((3 + weighted [87; 105; 107]) mod MOD_ADLER) * 2 ^ 16 + (1 + sum [87; 105; 107]) mod MOD_ADLER.
Proof. apply (r_hash_adler32_sums [87; 105; 107]). repeat constructor; done. Defined.

(** ** Luhn *)

(** The digit sum: a byte counts double when an odd number of bytes follows it. *)
Fixpoint luhn_sum (l : list Z) : Z :=
  match l with [] => 0 | c :: r => luhn_digit (Nat.odd (length r)) c + luhn_sum r end.

Definition is_digit (c : Z) : Prop := 48 <= c <= 57.

Lemma luhn_digit_range dbl c : 0 <= luhn_digit dbl c <= 9.
Proof.
  unfold luhn_digit, atoi1. destruct ((48 <=? c) && (c <=? 57)) eqn:E; [|by destruct dbl].
  apply andb_true_iff in E as [E1%Z.leb_le E2%Z.leb_le].
  assert (c - 48 ∈ seqZ 0 10) as H by (apply elem_of_seqZ; lia). revert H. generalize (c - 48). intros d H.
  assert (forallb (fun d => (0 <=? Z.quot d 10 + Z.rem d 10) && (Z.quot d 10 + Z.rem d 10 <=? 9) &&
    ((0 <=? Z.quot (d * 2) 10 + Z.rem (d * 2) 10) && (Z.quot (d * 2) 10 + Z.rem (d * 2) 10 <=? 9))) (seqZ 0 10) = true) as F by (vm_compute; reflexivity).
  rewrite forallb_forall in F. specialize (F d ltac:(by apply list_elem_of_In)).
  apply andb_true_iff in F as [[F1%Z.leb_le F2%Z.leb_le]%andb_true_iff [F3%Z.leb_le F4%Z.leb_le]%andb_true_iff].
  destruct dbl; lia.
Qed.

Lemma luhn_sum_range l : 0 <= luhn_sum l <= 9 * Z.of_nat (length l).
Proof.
  induction l as [|c l IH]; [simpl; lia|]. change (length (c :: l)) with (S (length l)). cbn [luhn_sum].
  pose proof (luhn_digit_range (Nat.odd (length l)) c). lia.
Qed.

(** The bytes before [i], where [k] bytes follow. *)
Lemma luhn_loop_sum p l r s :
  p = (if Nat.even (length l + length r) then 1 else 0) -> 0 <= s -> s + 9 * Z.of_nat (length l) < 2 ^ 64 ->
  luhn_loop p (length l) (l ++ r) s = s + luhn_sum (l ++ r) - luhn_sum r.
Proof.
  intros Hp. revert r s Hp. induction l as [|c l IH] using rev_ind; intros r s Hp Hs Hb; [simpl; lia|].
  rewrite length_app in *. cbn [length] in *. replace (length l + 1)%nat with (S (length l)) in * by lia. cbn [luhn_loop].
  rewrite <- app_assoc. cbn [app].
  assert (byte_at (l ++ c :: r) (length l) = c) as -> by (unfold byte_at; by rewrite list_lookup_middle).
  assert ((p =? Z.of_nat (S (length l)) mod 2) = Nat.odd (length r)) as ->.
  { rewrite Hp. change 2 with (Z.of_nat 2). rewrite <- Nat2Z.inj_mod. rewrite <- Nat.bit0_mod, Nat.bit0_odd.
    replace (S (length l) + length r)%nat with (S (length l + length r)) by lia.
    rewrite Nat.even_succ, Nat.odd_succ, Nat.odd_add. rewrite <- !Nat.negb_odd.
    destruct (Nat.odd (length l)), (Nat.odd (length r)); reflexivity. }
  pose proof (luhn_digit_range (Nat.odd (length r)) c). unfold u64. rewrite Z.mod_small by lia.
  rewrite IH; [cbn [luhn_sum]; lia| |lia|lia]. rewrite Hp. cbn [length]. by replace (S (length l) + length r)%nat with (length l + S (length r))%nat by lia.
Qed.

Lemma r_hash_luhn_sum l : Z.of_nat (length l) < 2 ^ 31 -> r_hash_luhn l = luhn_sum l mod 10.
Proof.
  intros Hl. unfold r_hash_luhn. pose proof (luhn_loop_sum (u64 (Z.of_nat (length l) - 1) mod 2) l [] 0) as H.
  rewrite app_nil_r in H. rewrite H; [cbn [luhn_sum]; f_equal; lia| |lia|lia]. rewrite Nat.add_0_r. unfold u64.
  destruct (Nat.even (length l)) eqn:E.
  - apply Nat.even_spec in E as [k E]. rewrite E. zlia.
  - assert (Nat.odd (length l) = true) as O by (by rewrite <- Nat.negb_even, E). apply Nat.odd_spec in O as [k O]. rewrite O. zlia.
Qed.

(** By computation: the digits and their doubles are permutations of the ten digits, and
    two digits that change places, one of them doubled, leave another sum but for 0 and 9. *)
Lemma luhn_digit_inj dbl c c' : is_digit c -> is_digit c' -> luhn_digit dbl c mod 10 = luhn_digit dbl c' mod 10 -> c = c'.
Proof.
  intros Hc Hc' E. assert (forallb (fun c => forallb (fun c' => implb (luhn_digit dbl c mod 10 =? luhn_digit dbl c' mod 10) (c =? c')) (seqZ 48 10)) (seqZ 48 10) = true) as F
    by (destruct dbl; vm_compute; reflexivity).
  rewrite forallb_forall in F. specialize (F c ltac:(apply list_elem_of_In, elem_of_seqZ; unfold is_digit in *; lia)).
  rewrite forallb_forall in F. specialize (F c' ltac:(apply list_elem_of_In, elem_of_seqZ; unfold is_digit in *; lia)).
  rewrite E, Z.eqb_refl in F. by apply Z.eqb_eq in F.
Qed.

Lemma luhn_swap_digits dbl c d :
  is_digit c -> is_digit d ->
  (luhn_digit dbl c + luhn_digit (negb dbl) d) mod 10 = (luhn_digit dbl d + luhn_digit (negb dbl) c) mod 10 ->
  c = d \/ (c = 48 /\ d = 57) \/ (c = 57 /\ d = 48).
Proof.
  intros Hc Hd E. assert (forallb (fun c => forallb (fun d => implb ((luhn_digit dbl c + luhn_digit (negb dbl) d) mod 10 =? (luhn_digit dbl d + luhn_digit (negb dbl) c) mod 10)
     ((c =? d) || ((c =? 48) && (d =? 57)) || ((c =? 57) && (d =? 48)))) (seqZ 48 10)) (seqZ 48 10) = true) as F
    by (destruct dbl; vm_compute; reflexivity).
  rewrite forallb_forall in F. specialize (F c ltac:(apply list_elem_of_In, elem_of_seqZ; unfold is_digit in *; lia)).
  rewrite forallb_forall in F. specialize (F d ltac:(apply list_elem_of_In, elem_of_seqZ; unfold is_digit in *; lia)).
  rewrite E, Z.eqb_refl in F. cbn [implb] in F. lia.
Qed.

Lemma luhn_sum_app l r : luhn_sum (l ++ r) = luhn_sum r + foldr Z.add 0 (imap (fun i c => luhn_digit (Nat.odd (length l - 1 - i + length r)) c) l).
Proof.
  induction l as [|c l IH]; [simpl; lia|]. cbn [app luhn_sum imap foldr]. rewrite IH, length_app.
  replace (length (c :: l) - 1 - 0 + length r)%nat with (length l + length r)%nat by (simpl; lia).
  assert (imap ((fun i c0 => luhn_digit (Nat.odd (length (c :: l) - 1 - i + length r)) c0) ∘ S) l
    = imap (fun i c0 => luhn_digit (Nat.odd (length l - 1 - i + length r)) c0) l) as ->.
  { apply imap_ext. intros i x _. cbn [compose length]. do 3 f_equal. lia. }
  lia.
Qed.

(** Two texts that agree before parts of equal length. *)
Lemma luhn_sum_prefix l r r' : length r = length r' -> luhn_sum (l ++ r) - luhn_sum r = luhn_sum (l ++ r') - luhn_sum r'.
Proof. intros E. rewrite !luhn_sum_app, E. lia. Qed.

Lemma mod_cancel a b c : (a + c) mod 10 = (b + c) mod 10 -> a mod 10 = b mod 10.
Proof. intros E. zlia. Qed.

(** The Luhn digit of a text of digits changes when one digit is replaced by
    another, and when two different digits that are next to each other change places, unless
    they are 0 and 9. *)
Theorem r_hash_luhn_detects l r c d :
  is_digit c -> is_digit d -> Z.of_nat (length l + length r) < 2 ^ 31 - 2 ->
  (r_hash_luhn (l ++ c :: r) = r_hash_luhn (l ++ d :: r) -> c = d)
  /\ (r_hash_luhn (l ++ c :: d :: r) = r_hash_luhn (l ++ d :: c :: r) -> c = d \/ (c = 48 /\ d = 57) \/ (c = 57 /\ d = 48)).
Proof.
  intros Hc Hd Hl. rewrite !r_hash_luhn_sum by (rewrite length_app; cbn [length]; lia). split; intros E.
  - pose proof (luhn_sum_prefix l (c :: r) (d :: r) eq_refl) as P. cbn [luhn_sum] in P.
    apply (luhn_digit_inj (Nat.odd (length r))); [done|done|].
    apply (mod_cancel _ _ (luhn_sum (l ++ d :: r) - luhn_digit (Nat.odd (length r)) d)).
    replace (luhn_digit (Nat.odd (length r)) c + _) with (luhn_sum (l ++ c :: r)) by lia. rewrite E. f_equal. lia.
  - pose proof (luhn_sum_prefix l (c :: d :: r) (d :: c :: r) eq_refl) as P. cbn [luhn_sum length] in P.
    rewrite Nat.odd_succ, <- Nat.negb_odd in P.
    apply (luhn_swap_digits (negb (Nat.odd (length r)))); [done|done|]. rewrite !negb_involutive.
    apply (mod_cancel _ _ (luhn_sum (l ++ d :: c :: r) - luhn_digit (negb (Nat.odd (length r))) d - luhn_digit (Nat.odd (length r)) c)).
    replace (luhn_digit (negb (Nat.odd (length r))) c + luhn_digit (Nat.odd (length r)) d + _) with (luhn_sum (l ++ c :: d :: r)) by lia.
    rewrite E. f_equal. lia.
Qed.

Lemma r_hash_luhn_detects_witness :
  ((r_hash_luhn [55; 57; 50; 55] = r_hash_luhn [55; 57; 53; 55] -> 50 = 53)
   /\ (r_hash_luhn [55; 57; 50; 53; 55] = r_hash_luhn [55; 57; 53; 50; 55] -> 50 = 53 \/ (50 = 48 /\ 53 = 57) \/ (50 = 57 /\ 53 = 48)))
  /\ r_hash_luhn [48; 57] = r_hash_luhn [57; 48].
Proof. split; [apply (r_hash_luhn_detects [55; 57] [55] 50 53); done|reflexivity]. Defined.

(** ** The exclusive or and the parity *)

Lemma byte_in b : is_byte b -> b ∈ seqZ 0 256.
Proof. intros H. apply elem_of_seqZ. unfold is_byte in H. lia. Qed.

Lemma ones_of_lxor x y : is_byte x -> is_byte y -> ones_of (Z.lxor x y) mod 2 = (ones_of x + ones_of y) mod 2.
Proof.
  intros Hx%byte_in Hy%byte_in.
  assert (forallb (fun x => forallb (fun y => ones_of (Z.lxor x y) mod 2 =? (ones_of x + ones_of y) mod 2) (seqZ 0 256)) (seqZ 0 256) = true) as F
    by (vm_compute; reflexivity).
  rewrite forallb_forall in F. specialize (F x ltac:(by apply list_elem_of_In)). rewrite forallb_forall in F.
  by apply Z.eqb_eq, F, list_elem_of_In.
Qed.

Lemma ones_of_range x : 0 <= ones_of x <= 8.
Proof. unfold ones_of. repeat match goal with |- context [b2z ?b] => destruct b; cbn [b2z] end; lia. Qed.

Lemma xor_byte l x : is_byte x -> bytes l -> is_byte (foldl Z.lxor x l).
Proof.
  intros Hx Hl. revert x Hx. induction Hl as [|y l Hy Hl IH]; intros x Hx; [done|]. cbn [foldl]. apply IH. unfold is_byte in *.
  by apply lxor_range.
Qed.

(** The parity of the ones of a buffer is that of the ones of its exclusive or. *)
Theorem r_hash_parity_xor buf : bytes buf -> r_hash_parity buf = ones_of (r_hash_xor buf) mod 2.
Proof.
  intros Hb. unfold r_hash_parity, r_hash_xor.
  assert (forall k x, is_byte x -> k mod 2 = ones_of x mod 2 ->
    foldl (fun ones y => u32 (ones + ones_of y)) k buf mod 2 = ones_of (foldl Z.lxor x buf) mod 2) as H.
  { induction Hb as [|y l Hy Hl IH]; intros k x Hx E; [done|]. cbn [foldl]. apply IH; [unfold is_byte in *; by apply lxor_range|].
    rewrite ones_of_lxor by done. unfold u32. rewrite (mod_mod_pow2 _ 1 32), <- Z.add_mod_idemp_l by lia. change (2 ^ 1) with 2.
    rewrite E, Z.add_mod_idemp_l by lia. done. }
  by apply H.
Qed.

(** The exclusive or of the pairs is that of the first bytes and that of the second
    ones; an odd byte at the end does not count. *)
Theorem r_hash_xorpair_bytes (pairs : list (Z * Z)) odd :
  Forall (fun p => is_byte p.1 /\ is_byte p.2) pairs -> (length odd <= 1)%nat ->
  r_hash_xorpair (concat (map (fun p => [p.1; p.2]) pairs) ++ odd)
  = r_hash_xor (map fst pairs) + 2 ^ 8 * r_hash_xor (map snd pairs).
Proof.
  intros Hp Ho. unfold r_hash_xorpair, r_hash_xor.
  assert (length (concat (map (fun p : Z * Z => [p.1; p.2]) pairs) ++ odd) / 2 = length pairs)%nat as ->.
  { rewrite length_app. assert (length (concat (map (fun p : Z * Z => [p.1; p.2]) pairs)) = length pairs * 2)%nat as ->
      by (clear; induction pairs as [|p l IH]; simpl; lia). rewrite Nat.div_add_l, Nat.div_small by lia. lia. }
  assert (forall x y, is_byte x -> is_byte y ->
    xorpair_loop (length pairs) (concat (map (fun p => [p.1; p.2]) pairs) ++ odd) (x + 2 ^ 8 * y)
    = foldl Z.lxor x (map fst pairs) + 2 ^ 8 * foldl Z.lxor y (map snd pairs)) as H.
  { induction Hp as [|[a b] l [Ha Hb] Hl IH]; intros x y Hx Hy; [done|]. cbn [length map concat app xorpair_loop fst snd foldl] in *.
    cbn [drop take le_val]. rewrite <- IH; [|unfold is_byte in *; by apply lxor_range..]. f_equal.
    assert (forall u v, is_byte u -> u + 2 ^ 8 * v = Z.lor (Z.shiftl v 8) u) as Hs.
    { intros u v Hu. rewrite lor_shiftl_add by (done || unfold is_byte in Hu; lia). lia. }
    replace (b + 2 ^ 8 * 0) with b by lia. rewrite !Hs by (done || (unfold is_byte in *; by apply lxor_range)).
    assert (forall u i, is_byte u -> 8 <= i -> Z.testbit u i = false) as Hh.
    { intros u i Hu Hi. rewrite <- (Z.mod_small u (2 ^ 8)) by (unfold is_byte in Hu; lia). apply Z.mod_pow2_bits_high. lia. }
    apply Z.bits_inj'. intros i Hi. rewrite !Z.lxor_spec, !Z.lor_spec, !Z.lxor_spec.
    destruct (decide (i < 8)).
    - rewrite !Z.shiftl_spec_low by lia. done.
    - rewrite !Z.shiftl_spec, Z.lxor_spec, !(Hh x), !(Hh a) by (done || lia). by rewrite !orb_false_r. }
  by apply (H 0 0).
Qed.

(** The distance of two bytes is the number of bits in which they differ. *)
Lemma hamdist_bytes x y : is_byte x -> is_byte y -> hamdist x y = ones_of (Z.lxor x y).
Proof.
  intros Hx Hy. unfold hamdist. assert (is_byte (Z.lxor x y)) as H%byte_in by (unfold is_byte in *; by apply lxor_range).
  assert (forallb (fun v => hamdist_loop 32 v 0 =? ones_of v) (seqZ 0 256) = true) as F by (vm_compute; reflexivity).
  rewrite forallb_forall in F. by apply Z.eqb_eq, F, list_elem_of_In.
Qed.

(** The distance of a buffer compares each byte with the distance so far and not with a
    byte: equal bytes are not at distance 0. *)
Theorem r_hash_hamdist_equal_bytes : r_hash_hamdist [7; 7] = 1 /\ hamdist 7 7 = 0.
Proof. vm_compute. done. Qed.

(** The percentage of printable bytes. *)
Theorem r_hash_pcprint_range buffer :
  100 * Z.of_nat (length buffer) < 2 ^ 31 ->
  exists p, r_hash_pcprint buffer = Some p /\ 0 <= p <= 100
    /\ (buffer <> [] -> p = 100 <-> Forall (fun x => IS_PRINTABLE x = true) buffer).
Proof.
  intros Hl. unfold r_hash_pcprint.
  assert (forall l k, foldl (fun n x => if IS_PRINTABLE x then n + 1 else n) k l = k + Z.of_nat (length (filter (fun x => IS_PRINTABLE x = true) l))) as Hf.
  { induction l as [|x l IH]; intros k; [simpl; lia|]. cbn [foldl]. rewrite filter_cons, IH.
    destruct (IS_PRINTABLE x); rewrite ?decide_True, ?decide_False by done; cbn [length]; lia. }
  rewrite Hf. pose proof (length_filter (fun x => IS_PRINTABLE x = true) buffer) as Hlf.
  set (k := length (filter _ buffer)) in *. destruct (Z.ltb_spec (Z.of_nat (length buffer)) 1) as [H|H].
  - exists 0. split_and!; try done. intros Hn. destruct buffer; [done|simpl in H; lia].
  - rewrite (proj2 (Z.leb_gt _ _)) by lia. eexists. split; [done|]. rewrite Z.add_0_l. set (len := Z.of_nat (length buffer)) in *.
    split; [split; [apply Z.div_pos; lia|apply Z.div_le_upper_bound; lia]|]. intros _. split.
    + intros E. apply Forall_forall. intros x Hx. destruct (IS_PRINTABLE x) eqn:Ex; [done|].
      pose proof (length_filter_lt (fun x => IS_PRINTABLE x = true) buffer x Hx ltac:(congruence)) as Hlt. fold k in Hlt.
      assert (100 * Z.of_nat k / len < 100) by (apply Z.div_lt_upper_bound; lia). lia.
    + intros E. assert (k = length buffer) as ->.
      { unfold k. clear -E. induction E as [|x l Hx E IH]; [done|]. rewrite filter_cons_True by done. cbn [length]. by rewrite IH. }
      fold len. apply Z.div_mul. lia.
Qed.
