(* ===== verification/Hash.v ===== *)
(** * The hash object and the names of the algorithms

    [libr/hash/state.c] and the table of [hash.c].  The object holds a context per
    algorithm, a flag and the last digest. *)

From S2P Require Import Prelude HashBlocks Md5 Md4 Sha1 Sha2 Sha2Facts Reg.

(** ** Algorithms *)

Definition R_HASH_MD5 : Z := 1.
Definition R_HASH_SHA1 : Z := 2.
Definition R_HASH_SHA256 : Z := 4.
Definition R_HASH_SHA384 : Z := 8.
Definition R_HASH_SHA512 : Z := 16.
Definition R_HASH_CRC16 : Z := 32.
Definition R_HASH_CRC32 : Z := 64.
Definition R_HASH_MD4 : Z := 128.
Definition R_HASH_XOR : Z := 256.
Definition R_HASH_XORPAIR : Z := 512.
Definition R_HASH_PARITY : Z := 1024.
Definition R_HASH_ENTROPY : Z := 2048.
Definition R_HASH_HAMDIST : Z := 4096.
Definition R_HASH_PCPRINT : Z := 8192.
Definition R_HASH_MOD255 : Z := 16384.
Definition R_HASH_XXHASH : Z := 32768.
Definition R_HASH_ADLER32 : Z := 65536.
Definition R_HASH_LUHN : Z := 1048576.

Definition hash_name_bytes : list (string * Z) := [
  ("all", UT64_MAX); ("xor", R_HASH_XOR); ("xorpair", R_HASH_XORPAIR); ("md4", R_HASH_MD4); ("md5", R_HASH_MD5);
  ("sha1", R_HASH_SHA1); ("sha256", R_HASH_SHA256); ("sha384", R_HASH_SHA384); ("sha512", R_HASH_SHA512);
  ("crc16", R_HASH_CRC16); ("crc32", R_HASH_CRC32); ("adler32", R_HASH_ADLER32); ("xxhash", R_HASH_XXHASH);
  ("parity", R_HASH_PARITY); ("entropy", R_HASH_ENTROPY); ("hamdist", R_HASH_HAMDIST); ("pcprint", R_HASH_PCPRINT);
  ("mod255", R_HASH_MOD255); ("luhn", R_HASH_LUHN)].

Definition has (bit flag : Z) : bool := z2b (Z.land bit flag).

(** The first name, but for that of all, of which the bit is set. *)
Definition r_hash_name (bit : Z) : string :=
  match find (fun '(_, b) => has bit b) (drop 1 hash_name_bytes) with Some (name, _) => name | None => "" end.

(** The tests of [r_hash_size] and their sizes, in their order. *)
Definition size_tests : list (Z * Z) := [
  (R_HASH_MD4, 16); (R_HASH_MD5, 16); (R_HASH_SHA1, 20); (R_HASH_SHA256, 32); (R_HASH_SHA384, 48); (R_HASH_SHA512, 64);
  (R_HASH_CRC16, 2); (R_HASH_CRC32, 4); (R_HASH_XXHASH, 4); (R_HASH_ADLER32, 4); (R_HASH_PARITY, 1); (R_HASH_ENTROPY, 4);
  (R_HASH_HAMDIST, 1); (R_HASH_XOR, 1); (R_HASH_XORPAIR, 2); (R_HASH_MOD255, 1); (R_HASH_PCPRINT, 1); (R_HASH_LUHN, 1)].
Definition r_hash_size (algo : Z) : Z :=
  match find (fun '(b, _) => has algo b) size_tests with Some (_, size) => size | None => 0 end.

(** At most [n] characters up to a comma: those, and the text from there on. *)
Fixpoint upto_comma (n : nat) (s : string) : string * string :=
  match n, s with
  | S n, String c r =>
      if ascii_dec c "," then (EmptyString, s) else let '(a, b) := upto_comma n r in (String c a, b)
  | _, _ => (EmptyString, s)
  end.

Definition name_bit (tmp : string) : Z :=
  match find (fun '(name, _) => bool_decide (lower tmp = lower name)) hash_name_bytes with Some (_, b) => b | None => 0 end.

(** The loop, [n] turns at most: every turn but the last leaves a shorter text. *)
Fixpoint bits_loop (n : nat) (ptr : string) (ret : Z) : Z :=
  match n with
  | O => ret
  | S n =>
      let '(tmp, ptr) := upto_comma 127 ptr in
      let ret := Z.lor ret (name_bit tmp) in
      let ptr := match ptr with EmptyString => EmptyString | String _ r => r end in
      match ptr with EmptyString => ret | _ => bits_loop n ptr ret end
  end.
Definition r_hash_name_to_bits (name : option string) : Z :=
  match name with None => 0 | Some ptr => bits_loop (S (String.length ptr)) ptr 0 end.

(** ** The object *)

Record RHash := mk_hash {
  h_md5 : R_MD5_CTX; h_sha1 : R_SHA_CTX; h_sha256 : R_SHA256_CTX; h_sha384 : R_SHA512_CTX; h_sha512 : R_SHA512_CTX;
  h_rst : Z; h_digest : list Z }.

Definition set_md5 v ctx := mk_hash v (h_sha1 ctx) (h_sha256 ctx) (h_sha384 ctx) (h_sha512 ctx) (h_rst ctx) (h_digest ctx).
Definition set_sha1 v ctx := mk_hash (h_md5 ctx) v (h_sha256 ctx) (h_sha384 ctx) (h_sha512 ctx) (h_rst ctx) (h_digest ctx).
Definition set_sha256 v ctx := mk_hash (h_md5 ctx) (h_sha1 ctx) v (h_sha384 ctx) (h_sha512 ctx) (h_rst ctx) (h_digest ctx).
Definition set_sha384 v ctx := mk_hash (h_md5 ctx) (h_sha1 ctx) (h_sha256 ctx) v (h_sha512 ctx) (h_rst ctx) (h_digest ctx).
Definition set_sha512 v ctx := mk_hash (h_md5 ctx) (h_sha1 ctx) (h_sha256 ctx) (h_sha384 ctx) v (h_rst ctx) (h_digest ctx).
Definition set_rst v ctx := mk_hash (h_md5 ctx) (h_sha1 ctx) (h_sha256 ctx) (h_sha384 ctx) (h_sha512 ctx) v (h_digest ctx).
(** A digest over the first bytes of [ctx->digest]. *)
Definition set_digest v ctx := mk_hash (h_md5 ctx) (h_sha1 ctx) (h_sha256 ctx) (h_sha384 ctx) (h_sha512 ctx) (h_rst ctx) (blit v (h_digest ctx)).

(** [CHKFLAG]. *)
Definition chkflag (f x : Z) : bool := (f =? 0) || has f x.
Definition when (b : bool) (g : RHash -> RHash) (ctx : RHash) : RHash := if b then g ctx else ctx.

(** A final, its digest and the context that it leaves. *)
Definition final_md5 ctx := let '(d, c) := MD5Final (h_md5 ctx) in set_digest d (set_md5 c ctx).
Definition final_sha1 ctx := '(d, c) ← SHA1_Final (h_sha1 ctx); Some (set_digest d (set_sha1 c ctx)).
Definition final_sha256 ctx := let '(d, c) := SHA256_Final (h_sha256 ctx) in set_digest d (set_sha256 c ctx).
Definition final_sha384 ctx := let '(d, c) := SHA384_Final (h_sha384 ctx) in set_digest d (set_sha384 c ctx).
Definition final_sha512 ctx := let '(d, c) := SHA512_Final (h_sha512 ctx) in set_digest d (set_sha512 c ctx).

Definition r_hash_do_begin (ctx : RHash) (flags : Z) : RHash :=
  let ctx := when (chkflag flags R_HASH_MD5) (fun c => set_md5 (MD5Init (h_md5 c)) c) ctx in
  let ctx := when (chkflag flags R_HASH_SHA1) (set_sha1 SHA1_Init) ctx in
  let ctx := when (chkflag flags R_HASH_SHA256) (set_sha256 SHA256_Init) ctx in
  let ctx := when (chkflag flags R_HASH_SHA384) (set_sha384 SHA384_Init) ctx in
  let ctx := when (chkflag flags R_HASH_SHA512) (set_sha512 SHA512_Init) ctx in
  set_rst 0 ctx.

(** [None]: the loop of the padding of SHA-1 does not end. *)
Definition r_hash_do_end (ctx : RHash) (flags : Z) : option RHash :=
  let ctx := when (chkflag flags R_HASH_MD5) final_md5 ctx in
  ctx ← (if chkflag flags R_HASH_SHA1 then final_sha1 ctx else Some ctx);
  let ctx := when (chkflag flags R_HASH_SHA256) final_sha256 ctx in
  let ctx := when (chkflag flags R_HASH_SHA384) final_sha384 ctx in
  let ctx := when (chkflag flags R_HASH_SHA512) final_sha512 ctx in
  Some (set_rst 1 ctx).

(** [mem] is what the allocator gives. *)
Definition r_hash_new (mem : option RHash) (rst flags : Z) : option RHash :=
  ctx ← mem; Some (set_rst rst (r_hash_do_begin ctx flags)).

(** The [len] bytes of [input]; the answer is the digest, or null. *)
Definition r_hash_do_md5 (ctx : RHash) (input : list Z) (len : Z) : option (list Z) * RHash :=
  if len <? 0 then (None, ctx)
  else
    let ctx := when (z2b (h_rst ctx)) (fun c => set_md5 (MD5Init (h_md5 c)) c) ctx in
    let ctx := when (0 <? len) (fun c => set_md5 (MD5Update (h_md5 c) (take (Z.to_nat len) input)) c) ctx in
    let ctx := when (z2b (h_rst ctx) || (len =? 0)) final_md5 ctx in
    (Some (h_digest ctx), ctx).
Definition r_hash_do_sha1 (ctx : RHash) (input : list Z) (len : Z) : option (option (list Z) * RHash) :=
  if len <? 0 then Some (None, ctx)
  else
    let ctx := when (z2b (h_rst ctx)) (set_sha1 SHA1_Init) ctx in
    let ctx := set_sha1 (SHA1_Update (h_sha1 ctx) (take (Z.to_nat len) input)) ctx in
    ctx ← (if z2b (h_rst ctx) || (len =? 0) then final_sha1 ctx else Some ctx);
    Some (Some (h_digest ctx), ctx).
(** [None]: the number of bits overflows an [int]. *)
Definition r_hash_do_md4 (ctx : RHash) (input : list Z) (len : Z) : option (option (list Z) * RHash) :=
  if len <? 0 then Some (None, ctx)
  else
    d ← mdfour (take (Z.to_nat len) input);
    let ctx := set_digest d ctx in Some (Some (h_digest ctx), ctx).
Definition r_hash_do_sha256 (ctx : RHash) (input : list Z) (len : Z) : option (list Z) * RHash :=
  if len <? 0 then (None, ctx)
  else
    let ctx := when (z2b (h_rst ctx)) (set_sha256 SHA256_Init) ctx in
    let ctx := set_sha256 (SHA256_Update (h_sha256 ctx) (take (Z.to_nat len) input)) ctx in
    let ctx := when (z2b (h_rst ctx) || (len =? 0)) final_sha256 ctx in
    (Some (h_digest ctx), ctx).
Definition r_hash_do_sha384 (ctx : RHash) (input : list Z) (len : Z) : option (list Z) * RHash :=
  if len <? 0 then (None, ctx)
  else
    let ctx := when (z2b (h_rst ctx)) (set_sha384 SHA384_Init) ctx in
    let ctx := set_sha384 (SHA384_Update (h_sha384 ctx) (take (Z.to_nat len) input)) ctx in
    let ctx := when (z2b (h_rst ctx) || (len =? 0)) final_sha384 ctx in
    (Some (h_digest ctx), ctx).
Definition r_hash_do_sha512 (ctx : RHash) (input : list Z) (len : Z) : option (list Z) * RHash :=
  if len <? 0 then (None, ctx)
  else
    let ctx := when (z2b (h_rst ctx)) (set_sha512 SHA512_Init) ctx in
    let ctx := set_sha512 (SHA512_Update (h_sha512 ctx) (take (Z.to_nat len) input)) ctx in
    let ctx := when (z2b (h_rst ctx) || (len =? 0)) final_sha512 ctx in
    (Some (h_digest ctx), ctx).

(** ** The names and their bits *)

(** Every algorithm has a name, and the bit of its name. *)
Lemma name_of_bit b : b ∈ map snd (drop 1 hash_name_bytes) -> name_bit (r_hash_name b) = b.
Proof.
  intros H. assert (forallb (fun b => name_bit (r_hash_name b) =? b) (map snd (drop 1 hash_name_bytes)) = true) as F by (vm_compute; reflexivity).
  rewrite forallb_forall in F. by apply Z.eqb_eq, F, list_elem_of_In.
Qed.

Lemma upto_comma_word n w r :
  ("," ∉ list_ascii_of_string w)%char -> (String.length w < n)%nat ->
  upto_comma n (w +:+ String "," r) = (w, String "," r) /\ upto_comma n w = (w, EmptyString).
Proof.
  revert n. induction w as [|c w IH]; intros n Hw Hn; (destruct n as [|n]; [cbn in Hn; lia|]).
  - done.
  - change (String c w +:+ String "," r) with (String c (w +:+ String "," r)). cbn [upto_comma String.length list_ascii_of_string] in *.
    apply not_elem_of_cons in Hw as [Hc Hw]. destruct (ascii_dec c ","); [congruence|]. destruct (IH n Hw) as [-> ->]; [lia|done].
Qed.

(** A word of a list of names. *)
Definition name_ok (w : string) : bool :=
  forallb (fun c => negb (Ascii.eqb c ",")) (list_ascii_of_string w) && (String.length w <? 127)%nat && (0 <? String.length w)%nat.

Lemma name_ok_spec w : name_ok w = true -> ("," ∉ list_ascii_of_string w)%char /\ (0 < String.length w < 127)%nat.
Proof.
  unfold name_ok. intros [[H1 H2%Nat.ltb_lt]%andb_true_iff H3%Nat.ltb_lt]%andb_true_iff. split; [|lia].
  intros Hin%list_elem_of_In. rewrite forallb_forall in H1. specialize (H1 _ Hin). done.
Qed.

Lemma append_length s t : String.length (s +:+ t) = (String.length s + String.length t)%nat.
Proof. induction s as [|c s IH]; simpl; [done|]. by rewrite IH. Qed.

Lemma bits_loop_words ws w n ret :
  Forall (fun w => name_ok w = true) (w :: ws) -> (String.length (String.concat "," (w :: ws)) < n)%nat ->
  bits_loop n (String.concat "," (w :: ws)) ret = foldl Z.lor ret (map name_bit (w :: ws)).
Proof.
  revert w n ret. induction ws as [|w' ws IH]; intros w n ret Hw Hn; apply Forall_cons in Hw as [[Hc Hl]%name_ok_spec Hws].
  - destruct n as [|n]; [lia|]. cbn [String.concat bits_loop map foldl]. destruct (upto_comma_word 127 w EmptyString Hc) as [_ ->]; [lia|]. done.
  - destruct n as [|n]; [lia|].
    change (String.concat "," (w :: w' :: ws)) with (w +:+ String "," (String.concat "," (w' :: ws))) in *.
    cbn [bits_loop]. destruct (upto_comma_word 127 w (String.concat "," (w' :: ws)) Hc) as [-> _]; [lia|].
    rewrite append_length in Hn. cbn [String.length] in Hn.
    assert (exists c r, String.concat "," (w' :: ws) = String c r) as (c & r & Er).
    { apply Forall_cons in Hws as [[_ Hl']%name_ok_spec _]. destruct w' as [|c w']; [cbn in Hl'; lia|].
      destruct ws as [|w'' ws]; [by exists c, w'|]. exists c. eexists. reflexivity. }
    rewrite Er. rewrite <- Er. rewrite IH by (done || lia). done.
Qed.

(** [r_hash_name_to_bits] reads a list of algorithms back from their names with
    commas between them: the answer has the bits of all of them. *)
Theorem r_hash_names_roundtrip bits :
  bits <> [] -> Forall (fun b => b ∈ map snd (drop 1 hash_name_bytes)) bits ->
  r_hash_name_to_bits (Some (String.concat "," (map r_hash_name bits))) = foldl Z.lor 0 bits.
Proof.
  intros Hn Hb. destruct bits as [|b bits]; [done|]. cbn [r_hash_name_to_bits map].
  rewrite bits_loop_words; [|clear Hn|lia].
  - f_equal. change (map name_bit (map r_hash_name (b :: bits)) = b :: bits). rewrite map_map. rewrite <- (map_id (b :: bits)) at 2.
    apply map_ext_in. intros x Hx%list_elem_of_In. apply name_of_bit. rewrite Forall_forall in Hb. by apply Hb.
  - change (Forall (fun w => name_ok w = true) (map r_hash_name (b :: bits))). apply Forall_map. eapply Forall_impl; [exact Hb|]. intros x Hx.
    assert (forallb (fun b => name_ok (r_hash_name b)) (map snd (drop 1 hash_name_bytes)) = true) as F by (vm_compute; reflexivity).
    rewrite forallb_forall in F. by apply F, list_elem_of_In.
Qed.

Lemma r_hash_names_roundtrip_witness :
  r_hash_name_to_bits (Some "md5,sha1,crc32"%string) = 67.
Proof.
  refine (r_hash_names_roundtrip [R_HASH_MD5; R_HASH_SHA1; R_HASH_CRC32] _ _); [done|]. repeat constructor; apply list_elem_of_In; vm_compute; tauto.
Defined.

(** ** One call, one digest *)

(** An object that starts anew with every call. *)
Definition hash_ok (ctx : RHash) : Prop :=
  h_rst ctx <> 0 /\ length (md5_buffer (h_md5 ctx)) = 64%nat /\ length (h_digest ctx) = 128%nat.
Definition answers (digest : list Z) (r : option (list Z) * RHash) : Prop :=
  exists out, r.1 = Some out /\ take (length digest) out = digest /\ hash_ok r.2.

Lemma take_blit d out : (length d <= length out)%nat -> take (length d) (blit d out) = d.
Proof. intros H. unfold blit. rewrite (take_ge d) by lia. apply take_app_length. Qed.

Lemma answers_blit d ctx : (length d <= 128)%nat -> hash_ok ctx -> answers d (Some (h_digest (set_digest d ctx)), set_digest d ctx).
Proof.
  intros Hd (H1 & H2 & H3). eexists. split; [done|]. split; [cbn [set_digest h_digest]; apply take_blit; lia|].
  split_and!; [done|done|]. cbn [snd set_digest h_digest]. by rewrite length_blit.
Qed.

Lemma rst_true ctx : hash_ok ctx -> z2b (h_rst ctx) = true.
Proof. intros (H & _). unfold z2b. by rewrite (proj2 (Z.eqb_neq _ _) H). Qed.

Lemma length_bind_le (g : Z -> list Z) n l : (forall x, length (g x) = n) -> length (l ≫= g) = (length l * n)%nat.
Proof. intros H. induction l as [|x l IH]; [done|]. rewrite bind_cons, length_app, IH, H. simpl. lia. Qed.

Lemma length_sha1 m : length (sha1 m) = 20%nat.
Proof.
  unfold sha1. pose proof (absorb_sha1_length sha1_init_state (sha1_padded m) eq_refl) as E. revert E.
  generalize (absorb 64 sha1_block sha1_init_state (sha1_padded m)). intros l E.
  rewrite (length_bind_le _ 4) by apply length_be_bytes. by rewrite E.
Qed.

Section digests.
Context (ctx : RHash) (Hok : hash_ok ctx) (input : list Z) (Hb : bytes input) (Hl : Z.of_nat (length input) < 2 ^ 31).
#[local] Notation len := (Z.of_nat (length input)).

Lemma len_test : (len <? 0) = false.
Proof. apply Z.ltb_ge. lia. Qed.

Lemma take_len : take (Z.to_nat len) input = input.
Proof. apply take_ge. lia. Qed.

Lemma do_md5_answers : answers (md5 input) (r_hash_do_md5 ctx input len).
Proof.
  unfold r_hash_do_md5. rewrite len_test, (rst_true ctx Hok), take_len. cbn [when].
  set (c := set_md5 (MD5Init (h_md5 ctx)) ctx).
  assert (exists c', when (0 <? len) (fun c => set_md5 (MD5Update (h_md5 c) input) c) c = c' /\ md5_read (h_md5 c') input
    /\ h_rst c' = h_rst ctx /\ h_digest c' = h_digest ctx) as (c' & -> & Hr & Hrst & Hd).
  { pose proof (md5_init_read (h_md5 ctx) ltac:(apply Hok)) as R0. destruct (Z.ltb_spec 0 len) as [H|H]; cbn [when].
    - eexists. split; [done|]. split_and!; try done. apply (md5_update_read _ [] input R0). lia.
    - exists c. split_and!; try done. assert (length input = 0%nat) as E%length_zero_iff_nil by lia. rewrite E. exact R0. }
  rewrite Hrst, (rst_true ctx Hok). cbn [orb when]. unfold final_md5.
  pose proof (md5_final_read _ _ Hr) as E. assert (length (md5_buffer (MD5Final (h_md5 c')).2) = 64%nat) as Lb by reflexivity.
  destruct (MD5Final (h_md5 c')) as [d k]. cbn [fst snd] in E, Lb. subst d. apply answers_blit.
  - unfold md5, Encode. rewrite (length_bind_le _ 4) by apply length_le_bytes. simpl. lia.
  - split_and!; cbn [set_md5 h_rst h_md5 h_digest]; [rewrite Hrst; apply Hok|done|rewrite Hd; apply Hok].
Qed.

Lemma do_sha1_answers : exists r, r_hash_do_sha1 ctx input len = Some r /\ answers (sha1 input) r.
Proof.
  unfold r_hash_do_sha1. rewrite len_test, (rst_true ctx Hok), take_len. cbn [when set_sha1 h_sha1 h_rst].
  rewrite (rst_true ctx Hok). cbn [orb]. unfold final_sha1. cbn [h_sha1 set_sha1].
  pose proof (sha_final_read _ _ (sha_update_read _ [] input sha1_init_read Hb)) as E. cbn [app] in E.
  destruct (SHA1_Final (SHA1_Update SHA1_Init input)) as [[d k]|]; [|done]. cbn [fmap option_fmap option_map fst] in E. injection E as ->.
  cbn [mbind option_bind]. eexists. split; [done|]. apply answers_blit; [|apply Hok].
  rewrite length_sha1. lia.
Qed.

Lemma do_md4_answers : len < 2 ^ 28 -> exists r, r_hash_do_md4 ctx input len = Some r /\ answers (md4 input) r.
Proof.
  intros H28. unfold r_hash_do_md4. rewrite len_test, take_len.
  rewrite mdfour_small by (done || lia). cbn [mbind option_bind]. eexists. split; [done|]. apply answers_blit; [|apply Hok].
  unfold md4. rewrite (length_bind_le _ 4) by apply length_le_bytes. simpl. lia.
Qed.

Lemma sha2_one : (SHA256_Final (SHA256_Update SHA256_Init input)).1 = sha256 input
  /\ (SHA384_Final (SHA384_Update SHA384_Init input)).1 = sha384 input /\ (SHA512_Final (SHA512_Update SHA512_Init input)).1 = sha512 input.
Proof. pose proof (sha2_digests [input]) as H. cbn [concat foldl] in H. rewrite app_nil_r in H. apply H. repeat constructor; [done|lia]. Qed.

Lemma do_sha256_answers : answers (sha256 input) (r_hash_do_sha256 ctx input len).
Proof.
  unfold r_hash_do_sha256. rewrite len_test, (rst_true ctx Hok), take_len. cbn [when set_sha256 h_sha256 h_rst].
  rewrite (rst_true ctx Hok). cbn [orb when]. unfold final_sha256. cbn [h_sha256 set_sha256].
  pose proof (proj1 sha2_one) as E. destruct (SHA256_Final _) as [d k]. cbn [fst] in E. subst d. apply answers_blit; [|apply Hok].
  unfold sha256. rewrite (length_bind_le _ 4) by apply length_be_bytes. simpl. lia.
Qed.

Lemma do_sha384_answers : answers (sha384 input) (r_hash_do_sha384 ctx input len).
Proof.
  unfold r_hash_do_sha384. rewrite len_test, (rst_true ctx Hok), take_len. cbn [when set_sha384 h_sha384 h_rst].
  rewrite (rst_true ctx Hok). cbn [orb when]. unfold final_sha384. cbn [h_sha384 set_sha384].
  pose proof (proj1 (proj2 sha2_one)) as E. destruct (SHA384_Final _) as [d k]. cbn [fst] in E. subst d. apply answers_blit; [|apply Hok].
  unfold sha384. rewrite (length_bind_le _ 8) by apply length_be_bytes. simpl. lia.
Qed.

Lemma do_sha512_answers : answers (sha512 input) (r_hash_do_sha512 ctx input len).
Proof.
  unfold r_hash_do_sha512. rewrite len_test, (rst_true ctx Hok), take_len. cbn [when set_sha512 h_sha512 h_rst].
  rewrite (rst_true ctx Hok). cbn [orb when]. unfold final_sha512. cbn [h_sha512 set_sha512].
  pose proof (proj2 (proj2 sha2_one)) as E. destruct (SHA512_Final _) as [d k]. cbn [fst] in E. subst d. apply answers_blit; [|apply Hok].
  unfold sha512. rewrite (length_bind_le _ 8) by apply length_be_bytes. simpl. lia.
Qed.
End digests.

(** C39: on an object that starts anew with every call ([hash_ok]) and for an input of
    fewer than [2^28] bytes, each of the six functions answers the digest of its input
    alone, whatever was hashed before with any of them, and leaves such an object.  (The
    bits of a longer input overflow the [int] of [mdfour].) *)
Theorem r_hash_do_digests ctx input :
  hash_ok ctx -> bytes input -> Z.of_nat (length input) < 2 ^ 28 ->
  let len := Z.of_nat (length input) in
  answers (md5 input) (r_hash_do_md5 ctx input len)
  /\ (exists r, r_hash_do_sha1 ctx input len = Some r /\ answers (sha1 input) r)
  /\ (exists r, r_hash_do_md4 ctx input len = Some r /\ answers (md4 input) r)
  /\ answers (sha256 input) (r_hash_do_sha256 ctx input len)
  /\ answers (sha384 input) (r_hash_do_sha384 ctx input len)
  /\ answers (sha512 input) (r_hash_do_sha512 ctx input len).
Proof.
  intros Hok Hb Hl len. assert (Z.of_nat (length input) < 2 ^ 31) by lia.
  split_and!; [apply do_md5_answers|apply do_sha1_answers|apply do_md4_answers|apply do_sha256_answers|apply do_sha384_answers|apply do_sha512_answers]; done.
Qed.

Definition hash_demo : RHash :=
  set_rst 1 (r_hash_do_begin (mk_hash md5_context SHA1_Init SHA256_Init SHA384_Init SHA512_Init 0 (replicate 128 0)) 0).

Lemma r_hash_do_digests_witness :
  answers (md5 [1; 2]) (r_hash_do_md5 hash_demo [1; 2] 2)
  /\ (exists r, r_hash_do_sha1 hash_demo [1; 2] 2 = Some r /\ answers (sha1 [1; 2]) r)
  /\ (exists r, r_hash_do_md4 hash_demo [1; 2] 2 = Some r /\ answers (md4 [1; 2]) r)
  /\ answers (sha256 [1; 2]) (r_hash_do_sha256 hash_demo [1; 2] 2)
  /\ answers (sha384 [1; 2]) (r_hash_do_sha384 hash_demo [1; 2] 2)
  /\ answers (sha512 [1; 2]) (r_hash_do_sha512 hash_demo [1; 2] 2).
Proof. apply (r_hash_do_digests hash_demo [1; 2]); [by split_and!|repeat constructor; done|done]. Defined.

(** Between [r_hash_do_begin] and [r_hash_do_end], as [r_hash_to_string] calls them, a
    call without bytes ends the digest, and the end answers that of a cleared context:
    the text of the MD5 of an empty message is wrong. *)
Theorem r_hash_md5_empty_twice :
  let ctx := (r_hash_do_md5 (r_hash_do_begin hash_demo R_HASH_MD5) [] 0).2 in
  take 16 (h_digest ctx) = md5 [] /\ (take 16 ∘ h_digest) <$> r_hash_do_end ctx R_HASH_MD5 <> Some (md5 []).
Proof. vm_compute. split; [reflexivity|discriminate]. Qed.
