(* ===== verification/HashTable.v ===== *)
(** * Hash tables with double hashing

    [libr/util/ht.c], which is compiled twice: with keys of 32 bits
    ([r_hashtable_*]) and, from [ht64.c], with keys of 64 bits
    ([r_hashtable64_*]).  The width of the keys is the parameter [w].  A table
    is open: a key is looked for from slot to slot, with a step that depends on
    the key, until a slot that was never used.  Removed entries stay as marks
    until the table is filled anew.

    Data is a pointer, [None] when null; what is handed to the [free] callback
    of the table is recorded. *)

From S2P Require Import Prelude.

(** The sizes: how many entries, removed ones included, a table of how many
    slots holds, and the modulus of the step. *)
Record hash_size := mk_hash_size { hs_max_entries : Z; hs_size : Z; hs_rehash : Z }.
Definition hash_sizes : list hash_size :=
  (fun '(m, s, r) => mk_hash_size m s r) <$>
  [ (2, 5, 3); (4, 7, 5); (8, 13, 11); (16, 19, 17); (32, 43, 41); (64, 73, 71);
    (128, 151, 149); (256, 283, 281); (512, 571, 569); (1024, 1153, 1151);
    (2048, 2269, 2267); (4096, 4519, 4517); (8192, 9013, 9011);
    (16384, 18043, 18041); (32768, 36109, 36107); (65536, 72091, 72089);
    (131072, 144409, 144407); (262144, 288361, 288359); (524288, 576883, 576881);
    (1048576, 1153459, 1153457); (2097152, 2307163, 2307161);
    (4194304, 4613893, 4613891); (8388608, 9227641, 9227639);
    (16777216, 18455029, 18455027); (33554432, 36911011, 36911009);
    (67108864, 73819861, 73819859); (134217728, 147639589, 147639587);
    (268435456, 295279081, 295279079); (536870912, 590559793, 590559791);
    (1073741824, 1181116273, 1181116271); (2147483648, 2362232233, 2362232231) ].

Definition DELETED_HASH : Z := 2 ^ 32 - 1.

Section ht.
Context {A : Type} (w : Z).

Record RHashTableEntry := mk_entry { he_hash : Z; he_data : option A }.

Definition entry_is_free (x : RHashTableEntry) : bool := (he_hash x =? 0) && negb (is_some (he_data x)).
Definition entry_is_deleted (x : RHashTableEntry) : bool :=
  (he_hash x =? DELETED_HASH) && negb (is_some (he_data x)).
Definition entry_is_present (x : RHashTableEntry) : bool :=
  is_some (he_data x) || (negb (he_hash x =? 0) && negb (he_hash x =? DELETED_HASH)).

Record RHashTable := mk_ht {
  ht_table : list RHashTableEntry;
  ht_size : Z;
  ht_rehash : Z;
  ht_max_entries : Z;
  ht_size_index : Z;
  ht_entries : Z;
  ht_deleted_entries : Z;
  ht_free : bool;
  ht_freed : list A
}.
Implicit Types (ht : RHashTable) (hash : Z) (data : option A).

Definition set_table (v : list RHashTableEntry) ht : RHashTable :=
  mk_ht v (ht_size ht) (ht_rehash ht) (ht_max_entries ht) (ht_size_index ht) (ht_entries ht)
    (ht_deleted_entries ht) (ht_free ht) (ht_freed ht).
Definition set_entries (v : Z) ht : RHashTable :=
  mk_ht (ht_table ht) (ht_size ht) (ht_rehash ht) (ht_max_entries ht) (ht_size_index ht) v
    (ht_deleted_entries ht) (ht_free ht) (ht_freed ht).
Definition set_deleted_entries (v : Z) ht : RHashTable :=
  mk_ht (ht_table ht) (ht_size ht) (ht_rehash ht) (ht_max_entries ht) (ht_size_index ht) (ht_entries ht)
    v (ht_free ht) (ht_freed ht).
Definition set_ht_free (v : bool) ht : RHashTable :=
  mk_ht (ht_table ht) (ht_size ht) (ht_rehash ht) (ht_max_entries ht) (ht_size_index ht) (ht_entries ht)
    (ht_deleted_entries ht) v (ht_freed ht).
Definition set_ht_freed (v : list A) ht : RHashTable :=
  mk_ht (ht_table ht) (ht_size ht) (ht_rehash ht) (ht_max_entries ht) (ht_size_index ht) (ht_entries ht)
    (ht_deleted_entries ht) (ht_free ht) v.

(** Arithmetic of the type of the keys. *)
Definition utH (x : Z) : Z := x mod 2 ^ w.

(** [calloc]. *)
Definition zeroed (n : Z) : list RHashTableEntry := repeat (mk_entry 0 None) (Z.to_nat n).

Definition entry_at (a : Z) : M RHashTable RHashTableEntry :=
  t ← gets ht_table; lift UB_oob (t !! Z.to_nat a).

(** ** Probing *)

Definition double_hash ht hash : Z :=
  let d := hash mod ht_rehash ht in if d =? 0 then 1 else d.
Definition next_address ht hash (a : Z) : Z := utH (a + double_hash ht hash) mod ht_size ht.

(** One turn of a probe; [None] leaves the loop because it is back at its
    start. *)
Definition probe_on hash (a : Z) {B} : M RHashTable (Z + option B) :=
  ht ← gets id;
  let a' := next_address ht hash a in
  mret (if a' =? hash mod ht_size ht then inr None else inl a').

(** The address of the entry. *)
Definition search_turn hash (a : Z) : M RHashTable (Z + option Z) :=
  entry ← entry_at a;
  if entry_is_free entry then mret (inr None)
  else if entry_is_present entry && (he_hash entry =? hash) then mret (inr (Some a))
  else probe_on hash a.

Definition r_hashtable_search hash : M RHashTable (option Z) :=
  ht ← gets id;
  r ← for_upto (ht_size ht) (search_turn hash) (hash mod ht_size ht);
  mret (match r with inr e => e | inl _ => None end).

Definition r_hashtable_lookup hash : M RHashTable (option A) :=
  r ← r_hashtable_search hash;
  match r with
  | Some a => entry ← entry_at a; mret (he_data entry)
  | None => mret None
  end.

(** ** Insertion *)

Definition r_hashtable_new : RHashTable :=
  mk_ht (zeroed 5) 5 3 2 0 0 0 false [].

Definition insert_turn hash data (a : Z) : M RHashTable (Z + option unit) :=
  entry ← entry_at a;
  if negb (entry_is_present entry) then
    (if entry_is_deleted entry
     then modify (fun ht => set_deleted_entries (utH (ht_deleted_entries ht - 1)) ht) else mret tt) ;;
    modify (fun ht => set_table (<[Z.to_nat a := mk_entry hash data]> (ht_table ht)) ht) ;;
    modify (fun ht => set_entries (utH (ht_entries ht + 1)) ht) ;;
    mret (inr (Some tt))
  else probe_on hash a.

(** The loop of [insert], once there is room. *)
Definition insert_probe hash data : M RHashTable bool :=
  ht ← gets id;
  r ← for_upto (ht_size ht) (insert_turn hash data) (hash mod ht_size ht);
  mret (match r with inr (Some _) => true | _ => false end).

(** [insert] calls [rehash], which calls [insert] on every entry. *)
Section rehash.
Context (insert : Z -> option A -> M RHashTable bool).

Fixpoint reinsert (old : list RHashTableEntry) : M RHashTable unit :=
  match old with
  | [] => mret tt
  | e :: old =>
      (if entry_is_present e then insert (he_hash e) (he_data e) ;; mret tt else mret tt) ;;
      reinsert old
  end.

Definition rehash (new_size_index : Z) : M RHashTable unit :=
  ht ← gets id;
  match (if new_size_index <? 0 then None else hash_sizes !! Z.to_nat new_size_index) with
  | None => mret tt
  | Some hs =>
      modify (fun ht =>
        mk_ht (zeroed (hs_size hs)) (hs_size hs) (hs_rehash hs) (hs_max_entries hs) new_size_index 0 0
          (ht_free ht) (ht_freed ht)) ;;
      reinsert (ht_table ht)
  end.
End rehash.

(** The calls nest [n] deep at most; a deeper one is a failure, which
    [HashTableFacts] excludes. *)
Fixpoint insert_nested (n : nat) hash data : M RHashTable bool :=
  ht ← gets id;
  let grow i := match n with O => undef UB_overflow | S n => rehash (insert_nested n) i end in
  (if ht_max_entries ht <=? ht_entries ht then grow (ht_size_index ht + 1)
   else if ht_max_entries ht <=? utH (ht_deleted_entries ht + ht_entries ht) then grow (ht_size_index ht)
   else mret tt) ;;
  insert_probe hash data.

(** A table within its bounds has room after one rehash. *)
Definition r_hashtable_insert : Z -> option A -> M RHashTable bool := insert_nested 1.

(** ** Removal *)

Definition r_hashtable_remove hash : M RHashTable unit :=
  r ← r_hashtable_search hash;
  match r with
  | None => mret tt
  | Some a =>
      entry ← entry_at a;
      modify (fun ht => if ht_free ht then set_ht_freed (ht_freed ht ++ option_list (he_data entry)) ht else ht) ;;
      modify (fun ht => set_table (<[Z.to_nat a := mk_entry DELETED_HASH None]> (ht_table ht)) ht) ;;
      modify (fun ht => set_entries (utH (ht_entries ht - 1)) ht) ;;
      modify (fun ht => set_deleted_entries (utH (ht_deleted_entries ht + 1)) ht)
  end.

(** What a table that is freed hands to its callback. *)
Definition r_hashtable_free ht : list A :=
  if ht_free ht then flat_map (fun e => option_list (he_data e)) (ht_table ht) else [].
End ht.
Arguments RHashTableEntry : clear implicits.
Arguments RHashTable : clear implicits.
