(* ===== verification/HashTableFacts.v ===== *)
(** * What a hash table promises

    The sizes are primes, so the step of every key visits every slot and both
    loops of [libr/util/ht.c] end; a table is then a finite map.  [models] ties
    a table to its map, and [r_hashtable_refines_map] says that a program of
    operations within the contract gives the results it gives on the map. *)

From Stdlib Require Import Znumtheory.
From S2P Require Import Prelude HashTable.

(** ** The sizes are primes *)

Fixpoint no_divisor (fuel : nat) (d n : Z) : bool :=
  match fuel with
  | O => false
  | S fuel =>
      (n <? d * d) || (negb (n mod d =? 0) && negb (n mod (d + 2) =? 0) && no_divisor fuel (d + 6) n)
  end.
Definition is_prime (n : Z) : bool :=
  (1 <? n) && negb (n mod 2 =? 0) && negb (n mod 3 =? 0) && no_divisor (2 + Z.to_nat (Z.sqrt n / 6)) 5 n.

Lemma divide_trans_not a b n : (a | b) -> ~ (a | n) -> ~ (b | n).
Proof. intros H1 H2 H3. apply H2. by transitivity b. Qed.

Lemma mod_not_divide d n : 0 < d -> negb (n mod d =? 0) = true -> ~ (d | n).
Proof. intros Hd H [q ->]. rewrite Z.mod_mul in H by lia. done. Qed.

Lemma no_divisor_ok fuel d n e :
  ~ (2 | n) -> ~ (3 | n) -> 0 < d -> d mod 6 = 5 -> no_divisor fuel d n = true ->
  d <= e -> e * e <= n -> ~ (e | n).
Proof.
  intros H2 H3. revert d. induction fuel as [|fuel IH]; intros d Hd Hm H He Hen; [done|].
  cbn [no_divisor] in H. apply orb_true_iff in H as [H|H]; [nia|].
  rewrite !andb_true_iff in H. destruct H as [[Ha Hb] Hc].
  assert (d = 6 * (d / 6) + 5) as Ed by (rewrite <- Hm; apply Z.div_mod; lia).
  destruct (Z.eq_dec e d) as [->|N0]; [by apply mod_not_divide|].
  destruct (Z.eq_dec e (d + 2)) as [->|N2]; [apply mod_not_divide; [lia|done]|].
  destruct (decide (e < d + 6)) as [Hlt|].
  - destruct (Z.eq_dec e (d + 4)) as [->|N4].
    { apply (divide_trans_not 3); [|done]. exists (2 * (d / 6) + 3). lia. }
    apply (divide_trans_not 2); [|done].
    assert (e = d + 1 \/ e = d + 3 \/ e = d + 5) as [->|[->| ->]] by lia;
      [exists (3 * (d / 6) + 3)|exists (3 * (d / 6) + 4)|exists (3 * (d / 6) + 5)]; lia.
  - apply (IH (d + 6)); [lia| |done|lia|done]. rewrite <- Hm. apply (Z.mod_add d 1 6). done.
Qed.

Lemma is_prime_ok n : is_prime n = true -> prime n.
Proof.
  unfold is_prime. rewrite !andb_true_iff. intros [[[H1 H2] H3] H]. apply Z.ltb_lt in H1.
  apply mod_not_divide in H2, H3; [|lia..].
  assert (forall e, 1 < e -> e * e <= n -> ~ (e | n)) as Hno.
  { intros e He Hen. destruct (decide (5 <= e)) as [|Hlt].
    - by eapply (no_divisor_ok _ 5).
    - assert (e = 2 \/ e = 3 \/ e = 4) as [->|[->| ->]] by lia; [done|done|].
      apply (divide_trans_not 2); [by exists 2|done]. }
  apply prime_alt. split; [done|]. intros e He [q Hq].
  destruct (decide (e <= q)) as [Hle|Hgt].
  - apply (Hno e); [lia|nia|]. exists q. lia.
  - apply (Hno q); [nia|nia|]. exists e. lia.
Qed.

(** The sizes that a table may have without the arithmetic of 32 bits wrapping:
    all but the last one. *)
Definition sized (i : Z) (hs : hash_size) : Prop := 0 <= i < 30 /\ hash_sizes !! Z.to_nat i = Some hs.

Definition hash_size_ok (hs : hash_size) : bool :=
  is_prime (hs_size hs) && (1 <? hs_rehash hs) && (hs_rehash hs <? hs_size hs) && (0 <? hs_max_entries hs) &&
  (hs_max_entries hs <? hs_size hs) && (2 * hs_size hs <=? 2 ^ 32).

Lemma hash_sizes_ok : forallb hash_size_ok (take 30 hash_sizes) = true.
Proof. by vm_compute. Qed.

Lemma hash_sizes_double : forall i hs hs',
  hash_sizes !! i = Some hs -> hash_sizes !! S i = Some hs' -> hs_max_entries hs' = 2 * hs_max_entries hs.
Proof.
  intros i hs hs' H1 H2. do 31 (destruct i as [|i]; [vm_compute in H1, H2; by simplify_eq|]). done.
Qed.

Lemma sized_spec i hs : sized i hs ->
  prime (hs_size hs) /\ 1 < hs_rehash hs < hs_size hs /\ 0 < hs_max_entries hs < hs_size hs /\
  2 * hs_size hs <= 2 ^ 32.
Proof.
  intros [Hi H]. pose proof hash_sizes_ok as Hok. rewrite forallb_forall in Hok.
  assert (In hs (take 30 hash_sizes)) as Hin.
  { apply list_elem_of_In, list_elem_of_lookup. exists (Z.to_nat i). rewrite lookup_take. by rewrite decide_True by lia. }
  specialize (Hok hs Hin). unfold hash_size_ok in Hok. rewrite !andb_true_iff in Hok. destruct Hok as [[[[[Hp H1] H2] H3] H4] H5].
  split; [by apply is_prime_ok|]. lia.
Qed.

(** ** A step visits every slot *)

Section probe.
Variables size start step : Z.
Hypothesis size_prime : prime size.
Hypothesis step_range : 0 < step < size.
Hypothesis start_range : 0 <= start < size.

Definition probe (n : nat) : Z := (start + Z.of_nat n * step) mod size.

Lemma size_pos : 1 < size.
Proof. by destruct size_prime. Qed.

Lemma probe_range n : 0 <= probe n < size.
Proof. pose proof size_pos as Hs. apply Z.mod_pos_bound. lia. Qed.

Lemma probe_0 : probe 0 = start.
Proof. unfold probe. rewrite Z.mod_small; lia. Qed.

Lemma probe_S n : probe (S n) = (probe n + step) mod size.
Proof.
  pose proof size_pos as Hs. unfold probe. rewrite Zplus_mod_idemp_l. f_equal. lia.
Qed.

Lemma step_rel_prime : rel_prime size step.
Proof. apply rel_prime_sym, rel_prime_le_prime; [done|lia]. Qed.

Lemma probe_back n : probe n = start -> (size | Z.of_nat n).
Proof.
  pose proof size_pos as Hs. intros H. apply (Gauss _ step); [|apply step_rel_prime].
  rewrite Z.mul_comm. apply Z.mod_divide; [lia|].
  replace (Z.of_nat n * step) with (start + Z.of_nat n * step - start) by lia.
  rewrite Zminus_mod. fold (probe n). rewrite H, (Z.mod_small start) by lia.
  by rewrite Z.sub_diag, Z.mod_0_l by lia.
Qed.

Lemma probe_not_back n : (0 < n)%nat -> Z.of_nat n < size -> probe n <> start.
Proof. intros H1 H2 H. apply probe_back in H. apply Z.divide_pos_le in H; lia. Qed.

Lemma probe_size : probe (Z.to_nat size) = start.
Proof.
  pose proof size_pos as Hs. unfold probe. rewrite Z2Nat.id by lia.
  rewrite (Z.mul_comm size), Z.mod_add by lia. by apply Z.mod_small.
Qed.

Lemma probe_covers j : 0 <= j < size -> exists n, Z.of_nat n < size /\ probe n = j.
Proof.
  pose proof size_pos as Hs. intros Hj.
  destruct (rel_prime_bezout _ _ step_rel_prime) as [u v Huv].
  exists (Z.to_nat (((j - start) * v) mod size)).
  pose proof (Z.mod_pos_bound ((j - start) * v) size). rewrite Z2Nat.id by lia. split; [lia|].
  unfold probe. rewrite Z2Nat.id by lia. rewrite <- Zplus_mod_idemp_r, Zmult_mod_idemp_l, Zplus_mod_idemp_r.
  replace (start + (j - start) * v * step) with (j + (- ((j - start) * u)) * size).
  - rewrite Z.mod_add by lia. by apply Z.mod_small.
  - replace ((j - start) * v * step) with ((j - start) * (v * step)) by lia.
    replace (v * step) with (1 - u * size) by lia. lia.
Qed.
End probe.

(** ** Well-formed tables *)

(** The first number below a bound with a property. *)
Lemma least_or (P : nat -> bool) N :
  (forall i, (i < N)%nat -> P i = false) \/
  exists n, (n < N)%nat /\ P n = true /\ forall i, (i < n)%nat -> P i = false.
Proof.
  induction N as [|N [IH|(n & Hn & HP & Hlt)]]; [left; lia| |right; exists n; auto with lia].
  destruct (P N) eqn:E; [right; exists N; auto with lia|left]. intros i Hi.
  destruct (decide (i = N)) as [->|]; [done|apply IH; lia].
Qed.

(** How many elements of a list have a property. *)
Definition number {T} (P : T -> bool) (l : list T) : Z := Z.of_nat (length (List.filter P l)).

Lemma number_cons {T} (P : T -> bool) x l : number P (x :: l) = b2z (P x) + number P l.
Proof. unfold number. simpl. destruct (P x); simpl; lia. Qed.

Lemma number_nonneg {T} (P : T -> bool) l : 0 <= number P l.
Proof. unfold number. lia. Qed.

Lemma number_insert {T} (P : T -> bool) l i x y :
  l !! i = Some x -> number P (<[i := y]> l) = number P l - b2z (P x) + b2z (P y).
Proof.
  revert i. induction l as [|z l IH]; intros [|i] H; simpl in *; simplify_eq.
  - rewrite !number_cons. lia.
  - rewrite !number_cons, (IH i) by done. lia.
Qed.

Lemma number_lt_length {T} (P : T -> bool) l :
  number P l < Z.of_nat (length l) -> exists i x, l !! i = Some x /\ P x = false.
Proof.
  induction l as [|x l IH]; [unfold number; simpl; lia|]. rewrite number_cons. simpl. intros H.
  destruct (P x) eqn:E; [|by exists 0%nat, x]. simpl in H.
  destruct IH as (i & y & H1 & H2); [lia|]. by exists (S i), y.
Qed.

Lemma number_repeat_false {T} (P : T -> bool) x n : P x = false -> number P (repeat x n) = 0.
Proof.
  intros H. induction n as [|n IH]; [done|]. cbn [repeat]. rewrite number_cons, IH, H. done.
Qed.

Section facts.
Context {A : Type} (w : Z).
Hypothesis w_32 : 32 <= w.
Notation entry := (RHashTableEntry A).
Notation RHT := (RHashTable A).
Implicit Types (ht : RHT) (e : entry) (k : Z) (d : A).

Definition slot ht (a : Z) : option entry := ht_table ht !! Z.to_nat a.

(** The slots that the key [k] goes through. *)
Definition kprobe ht k : nat -> Z := probe (ht_size ht) (k mod ht_size ht) (double_hash ht k).

Definition entry_ok e : Prop :=
  entry_is_free e = true \/ entry_is_deleted e = true \/ (is_some (he_data e) = true /\ 0 <= he_hash e < 2 ^ w).

Definition distinct (l : list entry) : Prop :=
  forall i j e e', l !! i = Some e -> l !! j = Some e' ->
    entry_is_present e = true -> entry_is_present e' = true -> he_hash e = he_hash e' -> i = j.

Record wf ht : Prop := mk_wf {
  wf_size : exists hs, sized (ht_size_index ht) hs /\ ht_size ht = hs_size hs /\ ht_rehash ht = hs_rehash hs /\
              ht_max_entries ht = hs_max_entries hs;
  wf_length : length (ht_table ht) = Z.to_nat (ht_size ht);
  wf_slots : Forall entry_ok (ht_table ht);
  wf_entries : ht_entries ht = number entry_is_present (ht_table ht);
  wf_deleted : ht_deleted_entries ht = number entry_is_deleted (ht_table ht);
  wf_room : ht_entries ht + ht_deleted_entries ht <= ht_max_entries ht;
  wf_distinct : distinct (ht_table ht);
  wf_reach : forall a e, 0 <= a < ht_size ht -> slot ht a = Some e -> entry_is_present e = true ->
    exists n, Z.of_nat n < ht_size ht /\ kprobe ht (he_hash e) n = a /\
      forall i e', (i < n)%nat -> slot ht (kprobe ht (he_hash e) i) = Some e' -> entry_is_free e' = false
}.

(** The numbers of a well-formed table. *)
Lemma wf_bounds ht : wf ht ->
  prime (ht_size ht) /\ 1 < ht_rehash ht < ht_size ht /\ 0 < ht_max_entries ht < ht_size ht /\
  2 * ht_size ht <= 2 ^ w.
Proof.
  intros H. destruct (wf_size _ H) as (hs & Hs & -> & -> & ->).
  destruct (sized_spec _ _ Hs) as (H1 & H2 & H3 & H4).
  assert (2 ^ 32 <= 2 ^ w) by (apply Z.pow_le_mono_r; lia). split; [done|]. lia.
Qed.

Lemma start_range ht k : wf ht -> 0 <= k mod ht_size ht < ht_size ht.
Proof. intros H. pose proof (wf_bounds _ H). apply Z.mod_pos_bound. lia. Qed.

Lemma double_hash_range ht k : wf ht -> 0 < double_hash ht k < ht_size ht.
Proof.
  intros H. pose proof (wf_bounds _ H) as (_ & Hr & _). unfold double_hash.
  pose proof (Z.mod_pos_bound k (ht_rehash ht)). case_match; lia.
Qed.

Lemma kprobe_range ht k n : wf ht -> 0 <= kprobe ht k n < ht_size ht.
Proof. intros H. apply probe_range. by apply (wf_bounds _ H). Qed.

Lemma kprobe_0 ht k : wf ht -> kprobe ht k 0 = k mod ht_size ht.
Proof. intros H. by apply probe_0, start_range. Qed.

Lemma next_address_kprobe ht k n : wf ht -> next_address w ht k (kprobe ht k n) = kprobe ht k (S n).
Proof.
  intros H. pose proof (wf_bounds _ H) as (Hp & _ & _ & Hw).
  pose proof (kprobe_range ht k n H). pose proof (double_hash_range ht k H).
  unfold next_address, utH. rewrite (Z.mod_small (_ + _)) by lia. unfold kprobe. by rewrite probe_S.
Qed.

Lemma slot_some ht a : wf ht -> 0 <= a < ht_size ht -> is_Some (slot ht a).
Proof. intros H Ha. apply lookup_lt_is_Some. rewrite (wf_length _ H). lia. Qed.

Lemma kprobe_slot ht k n : wf ht -> exists e, slot ht (kprobe ht k n) = Some e.
Proof. intros H. by apply slot_some, kprobe_range. Qed.

Lemma probe_on_next ht k n {B} : wf ht -> Z.of_nat (S n) < ht_size ht ->
  probe_on (B := B) w k (kprobe ht k n) ht = Ok (inl (kprobe ht k (S n))) ht.
Proof.
  intros H Hn. unfold probe_on. rewrite run_bind, run_gets. cbv beta iota. unfold id.
  rewrite next_address_kprobe by done.
  destruct (Z.eqb_spec (kprobe ht k (S n)) (k mod ht_size ht)) as [E|]; [exfalso|done].
  revert E. apply probe_not_back; [by apply wf_bounds|by apply double_hash_range|by apply start_range|lia|done].
Qed.

Lemma probe_on_last ht k n {B} : wf ht -> Z.of_nat (S n) = ht_size ht ->
  probe_on (B := B) w k (kprobe ht k n) ht = Ok (inr None) ht.
Proof.
  intros H Hn. unfold probe_on. rewrite run_bind, run_gets. cbv beta iota. unfold id.
  rewrite next_address_kprobe by done.
  destruct (Z.eqb_spec (kprobe ht k (S n)) (k mod ht_size ht)) as [|E]; [done|exfalso]. apply E.
  replace (S n) with (Z.to_nat (ht_size ht)) by lia.
  apply probe_size; [by apply wf_bounds|by apply start_range].
Qed.

(** A probe that turns at every slot before the [n]th, and leaves there. *)
Lemma probe_leaves ht k {B} (turn : Z -> M RHT (Z + option B)) n b s' : wf ht ->
  Z.of_nat n < ht_size ht ->
  (forall i, (i < n)%nat -> turn (kprobe ht k i) ht = probe_on w k (kprobe ht k i) ht) ->
  turn (kprobe ht k n) ht = Ok (inr b) s' ->
  for_upto (ht_size ht) turn (k mod ht_size ht) ht = Ok (inr b) s'.
Proof.
  intros H Hn Hturn Hexit. rewrite <- (kprobe_0 ht k) by done.
  apply (for_upto_path turn (kprobe ht k) n); [|done|done].
  intros i Hi. rewrite Hturn by done. apply probe_on_next; [done|lia].
Qed.

(** A probe that turns at every slot. *)
Lemma probe_exhausts ht k {B} (turn : Z -> M RHT (Z + option B)) : wf ht ->
  (forall i, Z.of_nat i < ht_size ht -> turn (kprobe ht k i) ht = probe_on w k (kprobe ht k i) ht) ->
  for_upto (ht_size ht) turn (k mod ht_size ht) ht = Ok (inr None) ht.
Proof.
  intros H Hturn. pose proof (wf_bounds _ H) as (_ & ? & _).
  apply (probe_leaves _ _ _ (Z.to_nat (ht_size ht - 1))); [done|lia| |].
  - intros i Hi. apply Hturn. lia.
  - rewrite Hturn by lia. apply probe_on_last; [done|lia].
Qed.

(** ** The search *)

Lemma entry_at_slot ht a e : slot ht a = Some e -> entry_at a ht = Ok e ht.
Proof. unfold slot, entry_at. intros H. rewrite run_bind, run_gets. cbv beta iota. by rewrite H. Qed.

Lemma slot_elem ht a e : slot ht a = Some e -> e ∈ ht_table ht.
Proof. intros H. by eapply list_elem_of_lookup_2. Qed.

Lemma present_data ht e : wf ht -> e ∈ ht_table ht -> entry_is_present e = true ->
  exists d, e = mk_entry (he_hash e) (Some d) /\ 0 <= he_hash e < 2 ^ w.
Proof.
  intros H He Hp. pose proof (wf_slots _ H) as Hs. rewrite Forall_forall in Hs. specialize (Hs e He).
  destruct e as [h [d|]]; cbn in *; [exists d|]; unfold entry_ok, entry_is_free, entry_is_deleted, entry_is_present in *;
    simpl in *; rewrite ?andb_false_r, ?andb_true_r in *.
  - destruct Hs as [Hs|[Hs|[_ Hs]]]; done.
  - destruct (h =? 0); [done|]. destruct (h =? DELETED_HASH); [done|].
    destruct Hs as [Hs|[Hs|[Hs _]]]; done.
Qed.

Definition hits ht k (a : Z) : bool :=
  match slot ht a with Some e => entry_is_present e && (he_hash e =? k) | None => false end.

Lemma search_turn_slot ht k a e : slot ht a = Some e ->
  search_turn w k a ht =
    if entry_is_free e then Ok (inr None) ht
    else if hits ht k a then Ok (inr (Some a)) ht else probe_on w k a ht.
Proof.
  intros H. unfold search_turn, hits. rewrite run_bind, (entry_at_slot _ _ _ H), H. cbv beta iota.
  by repeat case_match.
Qed.

Lemma search_run ht k r :
  for_upto (ht_size ht) (search_turn w k) (k mod ht_size ht) ht = Ok (inr r) ht ->
  r_hashtable_search w k ht = Ok r ht.
Proof.
  intros H. unfold r_hashtable_search. rewrite run_bind, run_gets. cbv beta iota. unfold id.
  by rewrite run_bind, H.
Qed.

Lemma hits_free ht k a e : slot ht a = Some e -> hits ht k a = true -> entry_is_free e = false.
Proof.
  unfold hits. intros ->. destruct e as [h [d|]]; unfold entry_is_present, entry_is_free; simpl.
  - by rewrite andb_false_r.
  - destruct (h =? 0); done.
Qed.

Lemma search_hit ht a e : wf ht -> 0 <= a < ht_size ht -> slot ht a = Some e -> entry_is_present e = true ->
  r_hashtable_search w (he_hash e) ht = Ok (Some a) ht.
Proof.
  intros H Ha He Hp. apply search_run. set (k := he_hash e).
  destruct (wf_reach _ H a e Ha He Hp) as (n & Hn & Hna & Hfree). fold k in Hna, Hfree.
  assert (hits ht k a = true) as Hh by (unfold hits; rewrite He, Hp; simpl; lia).
  destruct (least_or (fun i => hits ht k (kprobe ht k i)) (S n)) as [Hno|(m & Hm & Hhm & Hlt)].
  { specialize (Hno n). rewrite Hna in Hno. rewrite Hno in Hh by lia. done. }
  destruct (kprobe_slot ht k m H) as [e' He'].
  assert (kprobe ht k m = a) as Hma.
  { pose proof (kprobe_range ht k m H). revert Hhm. unfold hits. rewrite He', andb_true_iff. intros [Hp' Hk].
    assert (Z.to_nat (kprobe ht k m) = Z.to_nat a); [|lia].
    apply (wf_distinct _ H _ _ e' e); try done. fold k. lia. }
  apply (probe_leaves _ _ _ m); [done|lia| |].
  - intros i Hi. destruct (kprobe_slot ht k i H) as [ei Hei].
    by rewrite (search_turn_slot _ _ _ ei), (Hlt i), (Hfree i ei) by (done || lia).
  - by rewrite (search_turn_slot _ _ _ e'), Hhm, (hits_free _ _ _ _ He' Hhm), Hma by done.
Qed.

Lemma search_miss ht k : wf ht ->
  (forall e, e ∈ ht_table ht -> entry_is_present e = true -> he_hash e <> k) ->
  r_hashtable_search w k ht = Ok None ht.
Proof.
  intros H Hno. apply search_run.
  assert (forall i, hits ht k (kprobe ht k i) = false) as Hmiss.
  { intros i. unfold hits. destruct (kprobe_slot ht k i H) as [e He]. rewrite He.
    destruct (entry_is_present e) eqn:Hp; [|done]. simpl. apply Z.eqb_neq.
    apply Hno; [by eapply slot_elem|done]. }
  set (stop := fun i => match slot ht (kprobe ht k i) with Some e => entry_is_free e | None => false end).
  destruct (least_or stop (Z.to_nat (ht_size ht))) as [Hall|(m & Hm & Hs & Hlt)].
  - apply probe_exhausts; [done|]. intros i Hi. destruct (kprobe_slot ht k i H) as [e He].
    specialize (Hall i). unfold stop in Hall. rewrite He in Hall.
    by rewrite (search_turn_slot _ _ _ e), Hall, Hmiss by (done || lia).
  - apply (probe_leaves _ _ _ m); [done|lia| |].
    + intros i Hi. destruct (kprobe_slot ht k i H) as [e He]. specialize (Hlt i Hi).
      unfold stop in Hlt. rewrite He in Hlt. by rewrite (search_turn_slot _ _ _ e), Hlt, Hmiss.
    + destruct (kprobe_slot ht k m H) as [e He]. unfold stop in Hs. rewrite He in Hs.
      by rewrite (search_turn_slot _ _ _ e), Hs.
Qed.

(** ** The probe of an insertion *)

Definition vacant ht (a : Z) : bool :=
  match slot ht a with Some e => negb (entry_is_present e) | None => false end.

(** The table with an entry in a vacant slot. *)
Definition filled ht k d (a : Z) : RHT :=
  match slot ht a with
  | Some e =>
      set_entries (ht_entries ht + 1)
        (set_table (<[Z.to_nat a := mk_entry k (Some d)]> (ht_table ht))
          (set_deleted_entries (ht_deleted_entries ht - b2z (entry_is_deleted e)) ht))
  | None => ht
  end.

Lemma vacancy ht k : wf ht -> exists n,
  Z.of_nat n < ht_size ht /\ vacant ht (kprobe ht k n) = true /\
  forall i, (i < n)%nat -> vacant ht (kprobe ht k i) = false.
Proof.
  intros H. pose proof (wf_bounds _ H) as (Hp & Hr & Hmx & _).
  destruct (number_lt_length entry_is_present (ht_table ht)) as (j & e & He & Hf).
  { rewrite <- (wf_entries _ H), (wf_length _ H). pose proof (wf_room _ H).
    pose proof (number_nonneg entry_is_deleted (ht_table ht)) as Hd. rewrite <- (wf_deleted _ H) in Hd. lia. }
  assert (0 <= Z.of_nat j < ht_size ht) as Hj.
  { apply lookup_lt_Some in He. rewrite (wf_length _ H) in He. lia. }
  destruct (probe_covers (ht_size ht) (k mod ht_size ht) (double_hash ht k) Hp
    (double_hash_range ht k H) (Z.of_nat j) Hj) as (n & Hn & Hnj).
  destruct (least_or (fun i => vacant ht (kprobe ht k i)) (S n)) as [Hno|(m & Hm & Hv & Hlt)].
  - specialize (Hno n). unfold vacant, slot, kprobe in Hno. rewrite Hnj, Nat2Z.id, He, Hf in Hno.
    specialize (Hno ltac:(lia)). done.
  - exists m. split; [lia|done].
Qed.

Lemma utH_small x : 0 <= x < 2 ^ 32 -> utH w x = x.
Proof.
  intros Hx. apply Z.mod_small. assert (2 ^ 32 <= 2 ^ w) by (apply Z.pow_le_mono_r; lia). lia.
Qed.

Lemma size_32 ht : wf ht -> ht_size ht < 2 ^ 32.
Proof.
  intros H. destruct (wf_size _ H) as (hs & Hs & -> & _). pose proof (sized_spec _ _ Hs) as (_ & _ & _ & ?). lia.
Qed.

Lemma wf_counts ht : wf ht -> 0 <= ht_entries ht /\ 0 <= ht_deleted_entries ht /\
  ht_entries ht + ht_deleted_entries ht < 2 ^ 32 - 1.
Proof.
  intros H. pose proof (wf_bounds _ H) as (_ & _ & ? & _). pose proof (size_32 _ H). pose proof (wf_room _ H).
  rewrite (wf_entries _ H), (wf_deleted _ H) in *.
  pose proof (number_nonneg entry_is_present (ht_table ht)). pose proof (number_nonneg entry_is_deleted (ht_table ht)). lia.
Qed.

(** A mark of a removed entry is counted. *)
Lemma deleted_counted ht a e : wf ht -> slot ht a = Some e -> entry_is_deleted e = true ->
  1 <= ht_deleted_entries ht.
Proof.
  intros H He Hd. rewrite (wf_deleted _ H).
  pose proof (number_insert entry_is_deleted _ _ _ (mk_entry 0 None) He) as Hn. rewrite Hd in Hn.
  pose proof (number_nonneg entry_is_deleted (<[Z.to_nat a := mk_entry 0 None]> (ht_table ht))). simpl in Hn. lia.
Qed.

Lemma insert_turn_vacant ht k d a : wf ht -> vacant ht a = true ->
  insert_turn w k (Some d) a ht = Ok (inr (Some tt)) (filled ht k d a).
Proof.
  intros H Hv. unfold vacant in Hv. destruct (slot ht a) as [e|] eqn:He; [|done]. apply negb_true_iff in Hv.
  pose proof (wf_counts _ H) as Hc. unfold insert_turn, filled. rewrite He, run_bind, (entry_at_slot _ _ _ He).
  cbv beta iota. rewrite Hv. cbn [negb]. rewrite run_bind. destruct (entry_is_deleted e) eqn:Hd.
  - mrun. rewrite !utH_small by (cbn; pose proof (deleted_counted _ _ _ H He Hd); lia). done.
  - mrun. rewrite utH_small by (cbn; lia). rewrite Z.sub_0_r. by destruct ht.
Qed.

Lemma insert_turn_taken ht k d a e : slot ht a = Some e -> vacant ht a = false ->
  insert_turn w k (Some d) a ht = probe_on w k a ht.
Proof.
  unfold vacant. intros He Hv. rewrite He in Hv. apply negb_false_iff in Hv.
  unfold insert_turn. rewrite run_bind, (entry_at_slot _ _ _ He). cbv beta iota. by rewrite Hv.
Qed.

Lemma insert_probe_runs ht k d : wf ht -> exists n,
  vacant ht (kprobe ht k n) = true /\ Z.of_nat n < ht_size ht /\
  (forall i, (i < n)%nat -> vacant ht (kprobe ht k i) = false) /\
  insert_probe w k (Some d) ht = Ok true (filled ht k d (kprobe ht k n)).
Proof.
  intros H. destruct (vacancy ht k H) as (n & Hn & Hv & Hlt). exists n. split_and!; [done..|].
  unfold insert_probe. rewrite run_bind, run_gets. cbv beta iota. unfold id. rewrite run_bind.
  erewrite (probe_leaves ht k _ n (Some tt)); [done|done|done| |by apply insert_turn_vacant].
  intros i Hi. destruct (kprobe_slot ht k i H) as [e He]. eapply insert_turn_taken; [done|by apply Hlt].
Qed.

(** A table in which only slots, counts and what the callback was given may
    differ. *)
Definition same_shape ht ht' : Prop :=
  ht_size ht' = ht_size ht /\ ht_rehash ht' = ht_rehash ht /\ ht_max_entries ht' = ht_max_entries ht /\
  ht_size_index ht' = ht_size_index ht.

Lemma kprobe_shape ht ht' k n : same_shape ht ht' -> kprobe ht' k n = kprobe ht k n.
Proof. intros (E1 & E2 & _). unfold kprobe, double_hash. by rewrite E1, E2. Qed.

(** Replacing the entry of a slot, the mark of a free slot not being put. *)
Section replace.
Variables (ht ht' : RHT) (a : Z) (x y : entry).
Hypothesis Hwf : wf ht.
Hypothesis Hshape : same_shape ht ht'.
Hypothesis Htable : ht_table ht' = <[Z.to_nat a := y]> (ht_table ht).
Hypothesis Ha : 0 <= a < ht_size ht.
Hypothesis Hx : slot ht a = Some x.
Hypothesis Hy : entry_is_free y = false.

Lemma slot_replace b : 0 <= b -> slot ht' b = if decide (b = a) then Some y else slot ht b.
Proof.
  intros Hb. unfold slot. rewrite Htable. case_decide as E.
  - subst b. rewrite list_lookup_insert, decide_True; [done|]. split; [done|]. rewrite (wf_length _ Hwf). lia.
  - rewrite list_lookup_insert_ne by lia. done.
Qed.

Lemma reach_replace b k n : 
  (forall i e', (i < n)%nat -> slot ht (kprobe ht k i) = Some e' -> entry_is_free e' = false) ->
  kprobe ht k n = b ->
  kprobe ht' k n = b /\
  forall i e', (i < n)%nat -> slot ht' (kprobe ht' k i) = Some e' -> entry_is_free e' = false.
Proof.
  intros H Hb. rewrite (kprobe_shape ht ht') by done. split; [done|].
  intros i e' Hi. rewrite (kprobe_shape ht ht') by done.
  rewrite slot_replace by apply (kprobe_range _ _ _ Hwf). case_decide; [by intros [= <-]|by apply H].
Qed.

Hypothesis Hok : entry_ok y.
Hypothesis Hentries : ht_entries ht' = ht_entries ht - b2z (entry_is_present x) + b2z (entry_is_present y).
Hypothesis Hdeleted : ht_deleted_entries ht' = ht_deleted_entries ht - b2z (entry_is_deleted x) + b2z (entry_is_deleted y).
Hypothesis Hroom : ht_entries ht' + ht_deleted_entries ht' <= ht_max_entries ht.
Hypothesis Hnew : entry_is_present y = true ->
  (forall e, e ∈ ht_table ht -> entry_is_present e = true -> he_hash e <> he_hash y) /\
  exists n, Z.of_nat n < ht_size ht /\ kprobe ht (he_hash y) n = a /\
    forall i e', (i < n)%nat -> slot ht (kprobe ht (he_hash y) i) = Some e' -> entry_is_free e' = false.

Lemma distinct_replace : distinct (ht_table ht').
Proof.
  intros i j e e'. rewrite Htable, !list_lookup_insert_Some.
  intros [(-> & <- & _)|[Hi He]] [(<- & <- & _)|[Hj He']] Hp Hp' Hk; [done| | |].
  - exfalso. apply (proj1 (Hnew Hp) e'); [by eapply list_elem_of_lookup_2|done|done].
  - exfalso. apply (proj1 (Hnew Hp') e); [by eapply list_elem_of_lookup_2|done|done].
  - by apply (wf_distinct _ Hwf i j e e').
Qed.

Lemma wf_replace : wf ht'.
Proof.
  destruct Hshape as (E1 & E2 & E3 & E4). constructor.
  - rewrite E1, E2, E3, E4. apply (wf_size _ Hwf).
  - rewrite Htable, length_insert, E1. apply (wf_length _ Hwf).
  - rewrite Htable. apply Forall_insert; [apply (wf_slots _ Hwf)|done].
  - rewrite Htable, (number_insert _ _ _ x), Hentries, (wf_entries _ Hwf) by done. done.
  - rewrite Htable, (number_insert _ _ _ x), Hdeleted, (wf_deleted _ Hwf) by done. done.
  - by rewrite E3.
  - apply distinct_replace.
  - intros b e Hb. rewrite slot_replace, E1 in * by lia. case_decide as Eb.
    + intros [= <-] Hp. destruct (Hnew Hp) as (_ & n & Hn & Hna & Hf). exists n. split; [done|].
      subst b. by apply reach_replace.
    + intros He Hp. destruct (wf_reach _ Hwf b e Hb He Hp) as (n & Hn & Hnb & Hf). exists n. split; [done|].
      by apply reach_replace.
Qed.
End replace.

(** ** What a table holds *)

Definition has ht k d : Prop := mk_entry k (Some d) ∈ ht_table ht.

Lemma fresh_has ht k : wf ht -> (forall d, ~ has ht k d) ->
  forall e, e ∈ ht_table ht -> entry_is_present e = true -> he_hash e <> k.
Proof.
  intros H Hno e He Hp <-. destruct (present_data ht e H He Hp) as (d & E & _). apply (Hno d). unfold has. by rewrite <- E.
Qed.

Lemma has_unique ht k d d' : wf ht -> has ht k d -> has ht k d' -> d = d'.
Proof.
  intros H [i Hi]%list_elem_of_lookup [j Hj]%list_elem_of_lookup.
  assert (i = j) as ->; [|by simplify_eq]. by apply (wf_distinct _ H _ _ _ _ Hi Hj).
Qed.

Lemma elem_replace (l : list entry) i x y z : l !! i = Some x ->
  (z ∈ <[i := y]> l -> z = y \/ z ∈ l) /\ (z ∈ l -> z = x \/ z ∈ <[i := y]> l) /\ y ∈ <[i := y]> l.
Proof.
  intros Hi. pose proof (lookup_lt_Some _ _ _ Hi) as Hlt. split_and!.
  - intros [j Hj]%list_elem_of_lookup. apply list_lookup_insert_Some in Hj as [(-> & -> & _)|[_ Hj]]; [by left|right].
    by eapply list_elem_of_lookup_2.
  - intros [j Hj]%list_elem_of_lookup. destruct (decide (i = j)) as [->|Hne]; [left; congruence|right].
    apply (list_elem_of_lookup_2 _ j). by rewrite list_lookup_insert_ne.
  - apply (list_elem_of_lookup_2 _ i). rewrite list_lookup_insert, decide_True; [done|]. done.
Qed.

Lemma filled_has ht k d a k' d' : vacant ht a = true ->
  has (filled ht k d a) k' d' <-> (k' = k /\ d' = d) \/ has ht k' d'.
Proof.
  unfold vacant, filled, has, slot. destruct (ht_table ht !! Z.to_nat a) as [e|] eqn:He; [|done]. intros Hv.
  destruct (elem_replace _ _ _ (mk_entry k (Some d)) (mk_entry k' (Some d')) He) as (H1 & H2 & H3). cbn. split.
  - intros H. destruct (H1 H) as [[= -> ->]|]; auto.
  - intros [[-> ->]|H]; [done|]. destruct (H2 H) as [E|]; [|done]. by rewrite <- E in Hv.
Qed.

Lemma filled_wf ht k d n : wf ht -> 0 <= k < 2 ^ w -> (forall d', ~ has ht k d') ->
  ht_entries ht + ht_deleted_entries ht < ht_max_entries ht -> Z.of_nat n < ht_size ht ->
  vacant ht (kprobe ht k n) = true -> (forall i, (i < n)%nat -> vacant ht (kprobe ht k i) = false) ->
  wf (filled ht k d (kprobe ht k n)).
Proof.
  intros H Hk Hno Hroom Hn Hv Hlt. pose proof (kprobe_range ht k n H) as Ha. destruct (kprobe_slot ht k n H) as [x Hx].
  unfold vacant in Hv. rewrite Hx in Hv. apply negb_true_iff in Hv.
  assert (forall h, entry_is_present (mk_entry h (Some d)) = true /\ entry_is_free (mk_entry h (Some d)) = false /\
            entry_is_deleted (mk_entry h (Some d)) = false) as Hy.
  { intros h. unfold entry_is_present, entry_is_free, entry_is_deleted. simpl. by rewrite !andb_false_r. }
  destruct (Hy k) as (Hy1 & Hy2 & Hy3). unfold filled. rewrite Hx.
  apply (wf_replace ht _ (kprobe ht k n) x (mk_entry k (Some d))); try done; cbn.
  - right. right. done.
  - rewrite Hv. simpl. lia.
  - rewrite Hy3. simpl. lia.
  - destruct (entry_is_deleted x); simpl; lia.
  - intros _. split; [by apply fresh_has|]. exists n. split_and!; [done..|]. intros i e' Hi He'.
    specialize (Hlt i Hi). unfold vacant in Hlt. rewrite He' in Hlt. apply (hits_free ht (he_hash e') _ e' He').
    unfold hits. rewrite He'. destruct (entry_is_present e'); [|done]. simpl. lia.
Qed.

Lemma insert_probe_ok ht k d : wf ht -> 0 <= k < 2 ^ w -> (forall d', ~ has ht k d') ->
  ht_entries ht + ht_deleted_entries ht < ht_max_entries ht ->
  exists ht', insert_probe w k (Some d) ht = Ok true ht' /\ wf ht' /\ same_shape ht ht' /\
    ht_entries ht' = ht_entries ht + 1 /\ ht_deleted_entries ht' <= ht_deleted_entries ht /\
    ht_free ht' = ht_free ht /\ ht_freed ht' = ht_freed ht /\
    forall k' d', has ht' k' d' <-> (k' = k /\ d' = d) \/ has ht k' d'.
Proof.
  intros H Hk Hno Hroom. destruct (insert_probe_runs ht k d H) as (n & Hv & Hn & Hlt & Hrun).
  eexists. split; [exact Hrun|]. split; [by apply filled_wf|]. 
  destruct (kprobe_slot ht k n H) as [x Hx].
  split; [unfold filled; rewrite Hx; done|]. split; [unfold filled; rewrite Hx; done|].
  split; [unfold filled; rewrite Hx; cbn; destruct (entry_is_deleted x); simpl; lia|].
  split; [unfold filled; rewrite Hx; done|]. split; [unfold filled; rewrite Hx; done|].
  intros k' d'. by apply filled_has.
Qed.

(** ** Filling a table anew *)

Lemma nested_without_growth n ht k d : wf ht -> ht_entries ht + ht_deleted_entries ht < ht_max_entries ht ->
  insert_nested w n k (Some d) ht = insert_probe w k (Some d) ht.
Proof.
  intros H Hroom. pose proof (wf_counts _ H). destruct n as [|n]; cbn [insert_nested];
    rewrite run_bind, run_gets; cbv beta iota zeta; unfold id; rewrite utH_small by lia;
    rewrite (proj2 (Z.leb_gt _ _)), (proj2 (Z.leb_gt _ _)) by lia; by rewrite run_bind, run_ret.
Qed.

Lemma reinsert_ok old : distinct old -> Forall entry_ok old -> forall ht,
  wf ht -> ht_deleted_entries ht = 0 -> ht_entries ht + number entry_is_present old < ht_max_entries ht ->
  (forall e d, e ∈ old -> entry_is_present e = true -> ~ has ht (he_hash e) d) ->
  exists ht', reinsert (insert_nested w 0) old ht = Ok tt ht' /\ wf ht' /\ same_shape ht ht' /\
    ht_entries ht' = ht_entries ht + number entry_is_present old /\ ht_deleted_entries ht' = 0 /\
    ht_free ht' = ht_free ht /\ ht_freed ht' = ht_freed ht /\
    forall k d, has ht' k d <-> mk_entry k (Some d) ∈ old \/ has ht k d.
Proof.
  induction old as [|e old IH]; intros Hdis Hok ht H Hd Hroom Hfresh; cbn [reinsert].
  { exists ht. replace (number entry_is_present []) with 0 by done. rewrite Z.add_0_r.
    do 7 (split; [done|]). intros k d. rewrite elem_of_nil. naive_solver. }
  assert (distinct old) as Hdis'. { intros i j e1 e2 H1 H2 H3 H4 H5. by injection (Hdis (S i) (S j) e1 e2 H1 H2 H3 H4 H5). }
  rewrite number_cons in *. inversion Hok as [|? ? He Hok']; subst.
  pose proof (number_nonneg entry_is_present old) as Hnn.
  destruct (entry_is_present e) eqn:Hp; cbn [b2z] in *.
  - destruct e as [h [d|]]; cycle 1.
    { unfold entry_ok, entry_is_present, entry_is_free, entry_is_deleted in *. simpl in *. rewrite ?andb_true_r in *.
      destruct (h =? 0); [done|]. destruct (h =? DELETED_HASH); [done|]. by destruct He as [?|[?|[? _]]]. }
    assert (0 <= h < 2 ^ w) as Hh.
    { destruct He as [He|[He|[_ He]]]; [|unfold entry_is_deleted in He|exact He];
        unfold entry_is_free in *; simpl in He; by rewrite andb_false_r in He. }
    destruct (insert_probe_ok ht h d H Hh) as (ht1 & Hrun & H1 & S1 & N1 & D1 & F1 & G1 & Hhas); [|lia|].
    { intros d'. apply (Hfresh (mk_entry h (Some d)) d'); [by left|done]. }
    destruct (IH Hdis' Hok' ht1) as (ht2 & Hrun2 & H2 & S2 & N2 & D2 & F2 & G2 & Hhas2); [done| | | |].
    { pose proof (wf_counts _ H1). lia. }
    { destruct S1 as (_ & _ & -> & _). lia. }
    { intros e' d' He' Hp' [[Hk ->]|Hb]%Hhas.
      - apply list_elem_of_lookup in He' as [j Hj]. by specialize (Hdis 0%nat (S j) _ _ eq_refl Hj Hp Hp' (eq_sym Hk)).
      - apply (Hfresh e' d'); [by right|done|done]. }
    exists ht2. split.
    { rewrite run_bind, run_bind. cbn [he_hash he_data]. rewrite nested_without_growth by (done || lia). by rewrite Hrun, run_ret. }
    split; [done|]. split. { destruct S1 as (? & ? & ? & ?), S2 as (? & ? & ? & ?). split_and!; congruence. }
    split; [lia|]. split; [done|]. split; [congruence|]. split; [congruence|].
    intros k' d'. rewrite Hhas2, Hhas, elem_of_cons. naive_solver.
  - destruct (IH Hdis' Hok' ht) as (ht2 & Hrun2 & H2 & S2 & N2 & D2 & F2 & G2 & Hhas2); [done|done|lia| |].
    { intros e' d' He'. apply Hfresh. by right. }
    exists ht2. split; [by rewrite run_bind, run_ret|]. do 6 (split; [done || lia|]).
    intros k' d'. rewrite Hhas2, elem_of_cons. split; [tauto|]. intros [[<-|]|]; [done|tauto|tauto].
Qed.

Lemma empty_wf i hs free freed : sized i hs ->
  wf (mk_ht (zeroed (hs_size hs)) (hs_size hs) (hs_rehash hs) (hs_max_entries hs) i 0 0 free freed) /\
  forall k d, ~ has (mk_ht (zeroed (hs_size hs)) (hs_size hs) (hs_rehash hs) (hs_max_entries hs) i 0 0 free freed) k d.
Proof.
  intros Hs. pose proof (sized_spec _ _ Hs) as (Hp & _ & Hm & _).
  assert (forall e, e ∈ zeroed (A := A) (hs_size hs) -> e = mk_entry 0 None) as Hz.
  { intros e He. unfold zeroed in He. apply list_elem_of_In, repeat_spec in He. done. }
  split; [constructor; cbn|].
  - by exists hs.
  - unfold zeroed. by rewrite repeat_length.
  - apply Forall_forall. intros e ->%Hz. by left.
  - unfold zeroed. by rewrite number_repeat_false.
  - unfold zeroed. by rewrite number_repeat_false.
  - lia.
  - intros j j' e e' ->%list_elem_of_lookup_2%Hz. done.
  - intros a e _ ->%slot_elem%Hz. done.
  - intros k d [=]%Hz.
Qed.

Definition same_callback ht ht' : Prop := ht_free ht' = ht_free ht /\ ht_freed ht' = ht_freed ht.

Lemma rehash_ok ht i hs : wf ht -> sized i hs -> ht_entries ht < hs_max_entries hs ->
  exists ht', rehash (insert_nested w 0) i ht = Ok tt ht' /\ wf ht' /\ ht_max_entries ht' = hs_max_entries hs /\
    ht_entries ht' = ht_entries ht /\ ht_deleted_entries ht' = 0 /\ same_callback ht ht' /\
    forall k d, has ht' k d <-> has ht k d.
Proof.
  intros H Hs Hroom. destruct (empty_wf i hs (ht_free ht) (ht_freed ht) Hs) as [H0 Hno].
  destruct (reinsert_ok (ht_table ht) (wf_distinct _ H) (wf_slots _ H) _ H0)
    as (ht' & Hrun & H' & (_ & _ & S3 & _) & N & D & F & G & Hhas); [done| | |].
  { rewrite <- (wf_entries _ H). done. }
  { intros e d _ _. apply Hno. }
  exists ht'. split.
  { unfold rehash. destruct Hs as [Hi Hs]. rewrite run_bind, run_gets. cbv beta iota. unfold id.
    rewrite (proj2 (Z.ltb_ge _ _)), Hs by lia. by rewrite run_bind, run_modify. }
  split; [done|]. split; [done|]. split; [by rewrite N, <- (wf_entries _ H)|]. do 2 (split; [done|]).
  intros k d. rewrite Hhas. split; [|by left]. intros [|Hb]; [done|]. by apply Hno in Hb.
Qed.

(** ** The operations *)

Lemma grown_size i hs : sized i hs -> hs_max_entries hs < 2 ^ 30 ->
  exists hs', sized (i + 1) hs' /\ hs_max_entries hs' = 2 * hs_max_entries hs.
Proof.
  intros [Hi Hs] Hm. destruct (decide (i = 29)) as [->|].
  { exfalso. vm_compute in Hs. simplify_eq. by cbn in Hm. }
  assert (Z.to_nat (i + 1) = S (Z.to_nat i)) as E by lia.
  destruct (lookup_lt_is_Some_2 hash_sizes (S (Z.to_nat i))) as [hs' Hs'].
  { change (length hash_sizes) with 31%nat. lia. }
  exists hs'. split; [split; [lia|by rewrite E]|]. by eapply hash_sizes_double.
Qed.

Lemma insert_unfold k data ht :
  r_hashtable_insert w k data ht =
    match (if ht_max_entries ht <=? ht_entries ht then rehash (insert_nested w 0) (ht_size_index ht + 1) ht
           else if ht_max_entries ht <=? utH w (ht_deleted_entries ht + ht_entries ht)
           then rehash (insert_nested w 0) (ht_size_index ht) ht else Ok tt ht) with
    | Ok _ ht1 => insert_probe w k data ht1
    | Undef u => Undef u
    end.
Proof.
  unfold r_hashtable_insert. cbn [insert_nested]. rewrite run_bind, run_gets. cbv beta iota zeta. unfold id.
  rewrite run_bind. destruct (_ <=? _); [reflexivity|]. destruct (_ <=? _); reflexivity.
Qed.

Lemma insert_ok ht k d : wf ht -> 0 <= k < 2 ^ w -> (forall d', ~ has ht k d') -> ht_entries ht < 2 ^ 30 ->
  exists ht', r_hashtable_insert w k (Some d) ht = Ok true ht' /\ wf ht' /\ ht_entries ht' = ht_entries ht + 1 /\
    same_callback ht ht' /\ forall k' d', has ht' k' d' <-> (k' = k /\ d' = d) \/ has ht k' d'.
Proof.
  intros H Hk Hno Hbound. pose proof (wf_counts _ H) as Hc. pose proof (wf_room _ H) as Hr.
  destruct (wf_size _ H) as (hs & Hs & _ & _ & Em).
  set (grown := fun ht1 => wf ht1 /\ ht_entries ht1 = ht_entries ht /\ ht_entries ht1 + ht_deleted_entries ht1 < ht_max_entries ht1 /\
    same_callback ht ht1 /\ forall k d, has ht1 k d <-> has ht k d).
  assert (exists ht1, grown ht1 /\
    r_hashtable_insert w k (Some d) ht = insert_probe w k (Some d) ht1) as (ht1 & (H1 & N1 & R1 & [F1 G1] & Hhas1) & ->).
  { rewrite insert_unfold.
    assert (forall i hs', sized i hs' -> ht_entries ht < hs_max_entries hs' -> exists ht1, grown ht1 /\
      rehash (insert_nested w 0) i ht = Ok tt ht1) as Hgrow.
    { intros i hs' Hs' Hlt. destruct (rehash_ok ht i hs' H Hs' Hlt) as (ht1 & Hrun & H1 & M1 & N1 & D1 & C1 & Hhas).
      exists ht1. split; [|done]. split; [done|]. split; [done|]. split; [lia|done]. }
    rewrite utH_small by lia. destruct (Z.leb_spec (ht_max_entries ht) (ht_entries ht)).
    - destruct (grown_size _ _ Hs) as (hs' & Hs' & Em'); [lia|].
      destruct (Hgrow _ _ Hs') as (ht1 & Hg & Hrun); [pose proof (wf_bounds _ H); lia|]. exists ht1. split; [done|].
      by rewrite Hrun.
    - destruct (Z.leb_spec (ht_max_entries ht) (ht_deleted_entries ht + ht_entries ht)).
      + destruct (Hgrow _ _ Hs) as (ht1 & Hg & Hrun); [lia|]. exists ht1. split; [done|]. by rewrite Hrun.
      + exists ht. split; [split_and!; done || lia|]. done. }
  destruct (insert_probe_ok ht1 k d H1 Hk) as (ht2 & Hrun & H2 & _ & N2 & _ & F2 & G2 & Hhas2).
  { intros d'. rewrite Hhas1. apply Hno. }
  { done. }
  exists ht2. split; [done|]. split; [done|]. split; [lia|]. split; [split; congruence|].
  intros k' d'. by rewrite Hhas2, Hhas1.
Qed.

Lemma has_slot ht k d : wf ht -> has ht k d -> exists a, 0 <= a < ht_size ht /\ slot ht a = Some (mk_entry k (Some d)).
Proof.
  intros H [i Hi]%list_elem_of_lookup. pose proof (lookup_lt_Some _ _ _ Hi) as Hlt. rewrite (wf_length _ H) in Hlt.
  exists (Z.of_nat i). split; [lia|]. unfold slot. by rewrite Nat2Z.id.
Qed.

Lemma search_has ht k d a : wf ht -> 0 <= a < ht_size ht -> slot ht a = Some (mk_entry k (Some d)) ->
  r_hashtable_search w k ht = Ok (Some a) ht.
Proof. intros H Ha He. by apply (search_hit ht a (mk_entry k (Some d))). Qed.

Lemma lookup_has ht k d : wf ht -> has ht k d -> r_hashtable_lookup w k ht = Ok (Some d) ht.
Proof.
  intros H Hh. destruct (has_slot _ _ _ H Hh) as (a & Ha & He). unfold r_hashtable_lookup.
  rewrite run_bind, (search_has ht k d a H Ha He). cbv beta iota.
  by rewrite run_bind, (entry_at_slot _ _ _ He).
Qed.

Lemma lookup_fresh ht k : wf ht -> (forall d, ~ has ht k d) -> r_hashtable_lookup w k ht = Ok None ht.
Proof.
  intros H Hno. unfold r_hashtable_lookup. rewrite run_bind, search_miss; [done|done|by apply fresh_has].
Qed.

Lemma remove_fresh ht k : wf ht -> (forall d, ~ has ht k d) -> r_hashtable_remove w k ht = Ok tt ht.
Proof.
  intros H Hno. unfold r_hashtable_remove. rewrite run_bind, search_miss; [done|done|by apply fresh_has].
Qed.

Lemma remove_has ht k d : wf ht -> has ht k d ->
  exists ht', r_hashtable_remove w k ht = Ok tt ht' /\ wf ht' /\ ht_entries ht' = ht_entries ht - 1 /\
    ht_free ht' = ht_free ht /\ ht_freed ht' = ht_freed ht ++ (if ht_free ht then [d] else []) /\
    forall k' d', has ht' k' d' <-> k' <> k /\ has ht k' d'.
Proof.
  intros H Hh. destruct (has_slot _ _ _ H Hh) as (a & Ha & He). pose proof (wf_counts _ H) as Hc.
  assert (1 <= ht_entries ht) as Hone.
  { rewrite (wf_entries _ H). pose proof (number_insert entry_is_present _ _ _ (mk_entry 0 None) He) as Hn.
    pose proof (number_nonneg entry_is_present (<[Z.to_nat a := mk_entry 0 None]> (ht_table ht))). simpl in Hn. lia. }
  set (freed := ht_freed ht ++ (if ht_free ht then [d] else [])).
  set (ht' := mk_ht (<[Z.to_nat a := mk_entry DELETED_HASH None]> (ht_table ht)) (ht_size ht) (ht_rehash ht)
    (ht_max_entries ht) (ht_size_index ht) (ht_entries ht - 1) (ht_deleted_entries ht + 1) (ht_free ht) freed).
  assert (wf ht') as H'.
  { apply (wf_replace ht ht' a (mk_entry k (Some d)) (mk_entry DELETED_HASH None)); try done; cbn.
    - right. by left.
    - unfold entry_is_present. simpl. lia.
    - unfold entry_is_deleted. simpl. rewrite andb_false_r. simpl. lia.
    - pose proof (wf_room _ H). lia. }
  exists ht'. split.
  { unfold r_hashtable_remove. rewrite run_bind, (search_has ht k d a H Ha He).
    cbv beta iota. rewrite run_bind, (entry_at_slot _ _ _ He). subst freed ht'. mrun. destruct (ht_free ht) eqn:Ef; cbn.
    - rewrite !utH_small by lia. unfold set_deleted_entries, set_entries, set_table, set_ht_freed. cbn. by rewrite Ef.
    - rewrite !utH_small by lia. unfold set_deleted_entries, set_entries, set_table, set_ht_freed. cbn.
      by rewrite Ef, app_nil_r. }
  split; [done|]. do 3 (split; [done|]). intros k' d'.
  destruct (elem_replace _ _ _ (mk_entry DELETED_HASH None) (mk_entry k' (Some d')) He) as (H1 & H2 & _).
  unfold has. subst ht'. cbn. split.
  - intros Hin. destruct (H1 Hin) as [?|Hin']; [done|]. split; [|done]. intros ->.
    assert (d' = d) as -> by (by apply (has_unique ht k)).
    apply list_elem_of_lookup in Hin as [j Hj]. apply list_lookup_insert_Some in Hj as [(_ & ? & _)|[Hne Hj]]; [done|].
    apply Hne. by apply (wf_distinct _ H _ _ _ _ He Hj).
  - intros [Hne Hin]. destruct (H2 Hin) as [[= -> _]|]; done.
Qed.

(** ** A table is a finite map *)

(** The keys and data of the entries, in the order of the slots. *)
Definition pairs (l : list entry) : list (Z * A) := omap (fun e => d ← he_data e; Some (he_hash e, d)) l.

Lemma elem_pairs l k d : (k, d) ∈ pairs l <-> mk_entry k (Some d) ∈ l.
Proof.
  unfold pairs. rewrite list_elem_of_omap. split.
  - intros ([h [x|]] & He & E); by simplify_option_eq.
  - intros H. by exists (mk_entry k (Some d)).
Qed.

Lemma pairs_NoDup l : distinct l -> NoDup (pairs l).*1.
Proof.
  induction l as [|[h [d|]] l IH]; intros H; [constructor| |].
  - cbn. constructor.
    + intros ([k d'] & -> & Hin)%list_elem_of_fmap. apply elem_pairs, list_elem_of_lookup in Hin as [j Hj].
      by specialize (H 0%nat (S j) _ _ eq_refl Hj eq_refl eq_refl eq_refl).
    + apply IH. intros i j e1 e2 H1 H2 H3 H4 H5. by injection (H (S i) (S j) e1 e2 H1 H2 H3 H4 H5).
  - apply IH. intros i j e1 e2 H1 H2 H3 H4 H5. by injection (H (S i) (S j) e1 e2 H1 H2 H3 H4 H5).
Qed.

Lemma number_pairs l : Forall entry_ok l -> number entry_is_present l = Z.of_nat (length (pairs l)).
Proof.
  induction 1 as [|[h [d|]] l He _ IH]; [done| |]; rewrite number_cons, IH; [unfold pairs; cbn; lia|].
  unfold entry_ok, entry_is_present, entry_is_free, entry_is_deleted in *. simpl in *. rewrite ?andb_true_r in *.
  destruct (h =? 0); [done|]. destruct (h =? DELETED_HASH); [done|]. by destruct He as [?|[?|[? _]]].
Qed.

Lemma free_pairs ht : ht_free ht = true -> r_hashtable_free ht = (pairs (ht_table ht)).*2.
Proof.
  unfold r_hashtable_free. intros ->. induction (ht_table ht) as [|[h [d|]] l IH]; [done| |exact IH]. cbn. by f_equal.
Qed.

(** The table holds the map. *)
Definition models ht (m : gmap Z A) : Prop := wf ht /\ forall k d, m !! k = Some d <-> has ht k d.

Lemma models_pairs ht m : models ht m -> pairs (ht_table ht) ≡ₚ map_to_list m.
Proof.
  intros [H Hm]. apply NoDup_Permutation.
  - eapply NoDup_fmap_1, pairs_NoDup, wf_distinct, H.
  - apply NoDup_map_to_list.
  - intros [k d]. by rewrite elem_pairs, elem_of_map_to_list, Hm.
Qed.

Lemma models_entries ht m : models ht m -> ht_entries ht = Z.of_nat (size m).
Proof.
  intros H. rewrite (wf_entries _ (proj1 H)), number_pairs by apply (wf_slots _ (proj1 H)).
  by rewrite (models_pairs _ _ H), length_map_to_list.
Qed.

Lemma models_None ht m k : models ht m -> m !! k = None -> forall d, ~ has ht k d.
Proof. intros [_ H] Hk d Hd%H. congruence. Qed.

(** Programs of operations, and what they do to a map.  Outside of the
    contract (a key of the width that is not in the table, fewer than 2^30 entries) the
    map does not say what an insertion does. *)
Inductive ht_op := HtInsert (k : Z) (d : A) | HtLookup (k : Z) | HtRemove (k : Z).
Inductive ht_out := HtBool (b : bool) | HtData (d : option A) | HtUnit.

Definition run_ht_op (o : ht_op) : M RHT ht_out :=
  match o with
  | HtInsert k d => b ← r_hashtable_insert w k (Some d); mret (HtBool b)
  | HtLookup k => d ← r_hashtable_lookup w k; mret (HtData d)
  | HtRemove k => r_hashtable_remove w k ;; mret HtUnit
  end.

Fixpoint run_ht_ops (os : list ht_op) : M RHT (list ht_out) :=
  match os with
  | [] => mret []
  | o :: os => x ← run_ht_op o; xs ← run_ht_ops os; mret (x :: xs)
  end.

(** The result, the new map and what is handed to the callback. *)
Definition spec_ht_op (o : ht_op) (m : gmap Z A) : option (ht_out * gmap Z A * list A) :=
  match o with
  | HtInsert k d =>
      if (0 <=? k) && (k <? 2 ^ w) && negb (is_some (m !! k)) && (Z.of_nat (size m) <? 2 ^ 30)
      then Some (HtBool true, <[k := d]> m, []) else None
  | HtLookup k => Some (HtData (m !! k), m, [])
  | HtRemove k => Some (HtUnit, delete k m, option_list (m !! k))
  end.

Fixpoint spec_ht_ops (os : list ht_op) (m : gmap Z A) : option (list ht_out * gmap Z A * list A) :=
  match os with
  | [] => Some ([], m, [])
  | o :: os =>
      '(x, m1, f1) ← spec_ht_op o m;
      '(xs, m2, f2) ← spec_ht_ops os m1;
      Some (x :: xs, m2, f1 ++ f2)
  end.

Definition handed ht (f : list A) : list A := if ht_free ht then f else [].

Lemma run_ht_op_models ht m o x m1 f : models ht m -> spec_ht_op o m = Some (x, m1, f) ->
  exists ht1, run_ht_op o ht = Ok x ht1 /\ models ht1 m1 /\ ht_free ht1 = ht_free ht /\
    ht_freed ht1 = ht_freed ht ++ handed ht f.
Proof.
  intros Hm. pose proof Hm as [H Hhas]. unfold handed. destruct o as [k d|k|k]; cbn [spec_ht_op run_ht_op].
  - destruct (_ && _) eqn:E; [|done]. intros [= <- <- <-]. rewrite !andb_true_iff in E. destruct E as [[[E1 E2] E3] E4].
    assert (m !! k = None) as Hk by (by destruct (m !! k)).
    destruct (insert_ok ht k d H) as (ht1 & Hrun & H1 & _ & [F G] & Hhas1);
      [lia|by eapply models_None|rewrite (models_entries _ _ Hm); lia|].
    exists ht1. rewrite run_bind, Hrun. split; [done|]. split; [|split; [done|rewrite G; by destruct (ht_free ht); rewrite app_nil_r]].
    split; [done|]. intros k' d'. rewrite lookup_insert_Some, Hhas1, Hhas. destruct (decide (k = k')) as [<-|]; [|naive_solver].
    split; [naive_solver|]. intros [[_ ->]|Hd]; [by left|]. by apply (models_None _ _ _ Hm Hk) in Hd.
  - intros [= <- <- <-]. exists ht. split; [|split; [done|split; [done|by destruct (ht_free ht); rewrite app_nil_r]]].
    rewrite run_bind. destruct (m !! k) as [d|] eqn:Hk.
    + by rewrite (lookup_has ht k d) by (done || by apply Hhas).
    + rewrite lookup_fresh by (done || by eapply models_None). done.
  - intros [= <- <- <-]. destruct (m !! k) as [d|] eqn:Hk; cbn [option_list].
    + apply Hhas in Hk. destruct (remove_has ht k d H Hk) as (ht1 & Hrun & H1 & _ & F & G & Hhas1).
      exists ht1. rewrite run_bind, Hrun. split; [done|]. split; [|done]. split; [done|].
      intros k' d'. rewrite lookup_delete_Some, Hhas1, Hhas. naive_solver.
    + exists ht. rewrite run_bind, remove_fresh by (done || by eapply models_None). split; [done|].
      rewrite delete_id by done. split; [done|]. split; [done|]. by destruct (ht_free ht); rewrite app_nil_r.
Qed.

Lemma run_ht_ops_models os : forall ht m xs m' f, models ht m -> spec_ht_ops os m = Some (xs, m', f) ->
  exists ht', run_ht_ops os ht = Ok xs ht' /\ models ht' m' /\ ht_free ht' = ht_free ht /\
    ht_freed ht' = ht_freed ht ++ handed ht f.
Proof.
  induction os as [|o os IH]; intros ht m xs m' f Hm; cbn [spec_ht_ops run_ht_ops].
  - intros [= <- <- <-]. exists ht. split; [done|]. split; [done|]. split; [done|]. unfold handed.
    by destruct (ht_free ht); rewrite app_nil_r.
  - destruct (spec_ht_op o m) as [[[x m1] f1]|] eqn:E1; [|done]. cbn.
    destruct (spec_ht_ops os m1) as [[[xs2 m2] f2]|] eqn:E2; [|done]. cbn. intros [= <- <- <-].
    destruct (run_ht_op_models _ _ _ _ _ _ Hm E1) as (ht1 & R1 & M1 & F1 & G1).
    destruct (IH _ _ _ _ _ M1 E2) as (ht2 & R2 & M2 & F2 & G2).
    exists ht2. rewrite run_bind, R1, run_bind, R2. split; [done|]. split; [done|]. split; [congruence|].
    rewrite G2, G1, <- app_assoc. unfold handed. rewrite F1. by destruct (ht_free ht).
Qed.

Lemma new_models free : models (set_ht_free free r_hashtable_new) ∅.
Proof.
  assert (sized 0 (mk_hash_size 2 5 3)) as Hs by (split; [lia|done]).
  destruct (empty_wf 0 _ free [] Hs) as [H Hno]. split; [exact H|]. intros k d. rewrite lookup_empty.
  split; [done|]. intros Hd. exfalso. by apply (Hno k d).
Qed.

(** C8: A table is a finite map: a program of insertions of keys that are not in
    it, searches and removals gives the results it gives on the map, through
    all the rehashing, and what is removed is handed to the callback; when it is
    freed the table hands over the rest. *)
Theorem r_hashtable_refines_map free os xs m f :
  spec_ht_ops os ∅ = Some (xs, m, f) ->
  exists ht, run_ht_ops os (set_ht_free free r_hashtable_new) = Ok xs ht /\ models ht m /\
    ht_freed ht = (if free then f else []) /\
    r_hashtable_free ht ≡ₚ (if free then (map_to_list m).*2 else []).
Proof.
  intros Hspec. destruct (run_ht_ops_models _ _ _ _ _ _ (new_models free) Hspec) as (ht & R & Hm & F & G).
  exists ht. split; [done|]. split; [done|]. split; [by rewrite G|]. cbn in F. destruct free.
  - by rewrite free_pairs, (models_pairs _ _ Hm).
  - unfold r_hashtable_free. by rewrite F.
Qed.
End facts.

(** Six keys that share slots, with two rehashings and a removal. *)
Lemma r_hashtable_refines_map_witness :
  let os := [HtInsert 3 "a"%string; HtInsert 8 "b"%string; HtInsert 13 "c"%string; HtRemove 8; HtInsert 18 "d"%string;
             HtInsert 23 "e"%string; HtInsert (2 ^ 64 - 1) "f"%string; HtLookup 13; HtLookup 8; HtLookup (2 ^ 64 - 1)] in
  let xs := [HtBool true; HtBool true; HtBool true; HtUnit; HtBool true; HtBool true; HtBool true;
             HtData (Some "c"%string); HtData None; HtData (Some "f"%string)] in
  exists ht, run_ht_ops 64 os (set_ht_free true r_hashtable_new) = Ok xs ht /\
    ht_freed ht = ["b"%string] /\ ht_size_index ht = 2.
Proof.
  intros os xs.
  destruct (r_hashtable_refines_map 64 ltac:(lia) true os xs _ _ eq_refl) as (ht & R & _ & F & _).
  exists ht. split; [exact R|]. split; [exact F|].
  assert (forall r : outcome (RHashTable string) (list ht_out), r = Ok xs ht ->
    match r with Ok _ h => ht_size_index h | _ => 0 end = 2 -> ht_size_index ht = 2) as Hix by (by intros r ->).
  apply (Hix _ R). by vm_compute.
Defined.

(** Outside of the contract: a key that is inserted twice is in the table
    twice.  The first one is found, and hides the second one until it is
    removed. *)
Lemma r_hashtable_insert_twice :
  match run_ht_ops 64 [HtInsert 7 1; HtInsert 7 2; HtLookup 7; HtRemove 7; HtLookup 7] r_hashtable_new with
  | Ok xs _ => xs = [HtBool true; HtBool true; HtData (Some 1); HtUnit; HtData (Some 2)]
  | Undef _ => False
  end.
Proof. reflexivity. Qed.

(** And it is the second one that is found when it takes the place of an entry
    that was removed before. *)
Lemma r_hashtable_insert_shadows :
  match run_ht_ops 64 [HtInsert 1 10; HtInsert 8 20; HtInsert 2 30; HtRemove 1; HtInsert 8 40; HtLookup 8; HtRemove 8;
                       HtLookup 8] r_hashtable_new with
  | Ok xs _ => xs = [HtBool true; HtBool true; HtBool true; HtUnit; HtBool true; HtData (Some 40); HtUnit; HtData (Some 20)]
  | Undef _ => False
  end.
Proof. reflexivity. Qed.

(** The last size is not covered: with keys of 32 bits the sum of an address
    and a step wraps there. *)
Lemma last_size_wraps :
  exists hs : hash_size, hash_sizes !! 30%nat = Some hs /\
    utH 32 (hs_size hs - 1 + (hs_rehash hs - 1)) mod hs_size hs <> (hs_size hs - 1 + (hs_rehash hs - 1)) mod hs_size hs.
Proof. eexists. split; [reflexivity|]. by vm_compute. Qed.
