(* ===== verification/Names.v ===== *)
(** * Names: hashing, trimming, filtering and matching of strings

    The functions of [libr/util/str.c] that the flags call, and
    [libr/util/name.c].  [r_str_glob] is proved to be the matching of patterns
    with stars that its greedy loop stands for. *)

From S2P Require Import Prelude.

(** ** Hashing *)

Fixpoint hash64_go (h : Z) (s : string) : Z :=
  match s with
  | EmptyString => h
  | String c s => hash64_go (Z.lxor (Z.lxor h (u64 (Z.shiftl h 5))) (u64 (s8 (code c)))) s
  end.
(** A null string has the hash 0. *)
Definition r_str_hash64 (s : option string) : Z :=
  match s with None => 0 | Some s => hash64_go 5381 s end.
Definition r_str_hash (s : option string) : Z := u32 (r_str_hash64 s).

(** ** Trimming *)

Definition iswhitechar (c : ascii) : bool :=
  (code c =? 32) || (code c =? 9) || (code c =? 10) || (code c =? 13).

Fixpoint r_str_trim_head (s : string) : string :=
  match s with
  | String c s' => if iswhitechar c then r_str_trim_head s' else s
  | EmptyString => s
  end.
Fixpoint r_str_trim_tail (s : string) : string :=
  match s with
  | EmptyString => s
  | String c s =>
      match r_str_trim_tail s with
      | EmptyString => if iswhitechar c then EmptyString else String c EmptyString
      | t => String c t
      end
  end.
Definition r_str_trim_head_tail (s : string) : string := r_str_trim_tail (r_str_trim_head s).

(** The second loop of [r_str_chop] stops before the first character. *)
Definition r_str_chop (s : string) : string :=
  match r_str_trim_head s with
  | EmptyString => EmptyString
  | String c s => String c (r_str_trim_tail s)
  end.

(** The number of characters, [n] at most. *)
Fixpoint r_str_nlen (s : string) (n : nat) : nat :=
  match s, n with String _ s, S n => S (r_str_nlen s n) | _, _ => O end.

(** ** Names *)

Definition r_name_validate_char (c : ascii) : bool :=
  let x := code c in
  ((97 <=? x) && (x <=? 122)) || ((65 <=? x) && (x <=? 90)) || ((48 <=? x) && (x <=? 57)) ||
  (x =? 58) || (x =? 46) || (x =? 95).

Fixpoint all_chars (P : ascii -> bool) (s : string) : bool :=
  match s with EmptyString => true | String c s => P c && all_chars P s end.

Definition is_digit (c : ascii) : bool := (48 <=? code c) && (code c <=? 57).

Definition r_name_check (name : string) : bool :=
  match name with
  | EmptyString => false
  | String c _ => negb (is_digit c) && all_chars r_name_validate_char name
  end.

Definition filter_char (c : ascii) : ascii := if r_name_validate_char c then c else "_"%char.

(** The loop over the name: it is cut where the counter passes a bound that is not 0. *)
Fixpoint filter_loop (name : string) (i maxlen : Z) : string :=
  match name with
  | EmptyString => EmptyString
  | String c name =>
      if negb (maxlen =? 0) && (maxlen <? i) then EmptyString
      else String (filter_char c) (filter_loop name (i + 1) maxlen)
  end.
(** The name that is left and the result. *)
Definition r_name_filter (name : string) (maxlen : Z) : string * bool :=
  let maxlen := if maxlen <? 0 then Z.of_nat (String.length name) else maxlen in
  let name := filter_loop (r_str_trim_head_tail name) 0 maxlen in
  (name, r_name_check name).

Definition IS_PRINTABLE (c : ascii) : bool := (32 <=? code c) && (code c <=? 126).

Fixpoint map_chars (f : ascii -> ascii) (s : string) : string :=
  match s with EmptyString => EmptyString | String c s => String (f c) (map_chars f s) end.

(** The first loop does not stop at the end of the string. *)
Fixpoint r_name_filter2 (name : string) : M unit string :=
  match name with
  | EmptyString => undef UB_oob
  | String c name' => if IS_PRINTABLE c then mret (map_chars filter_char name) else r_name_filter2 name'
  end.

(** ** Patterns *)

Fixpoint only_stars (glob : string) : bool :=
  match glob with
  | EmptyString => true
  | String c glob => Ascii.eqb c "*" && only_stars glob
  end.

(** The second loop: [mp] is the pattern after the last star, [cp] where the
    text is taken up again when what follows does not match.  [None] when
    the fuel does not suffice, or a null pointer is followed. *)
Fixpoint glob_loop (fuel : nat) (str glob : string) (back : option (string * string)) : option bool :=
  match fuel with
  | O => None
  | S fuel =>
      let restart :=
        match back with
        | None => None
        | Some (mp, cp) => glob_loop fuel cp mp (Some (mp, str_drop 1 cp))
        end in
      match str with
      | EmptyString => Some (only_stars glob)
      | String c str' =>
          match glob with
          | EmptyString => restart
          | String d glob' =>
              if Ascii.eqb d "*" then
                match glob' with
                | EmptyString => Some true
                | _ => glob_loop fuel str glob' (Some (glob', str'))
                end
              else if Ascii.eqb d c then glob_loop fuel str' glob' back
              else restart
          end
      end
  end.

Definition glob_fuel (str glob : string) : nat :=
  (S (String.length str) * S (S (String.length str + String.length glob)))%nat.

(** The first loop, up to the first star. *)
Fixpoint glob_head (str glob : string) : option bool :=
  match str with
  | EmptyString => Some (only_stars glob)
  | String c str' =>
      match glob with
      | EmptyString => Some false
      | String d glob' =>
          if Ascii.eqb d "*" then glob_loop (glob_fuel str glob) str glob None
          else if Ascii.eqb d c then glob_head str' glob'
          else Some false
      end
  end.

Definition r_str_glob (str : string) (glob : option string) : option bool :=
  match glob with
  | None => Some true
  | Some glob => if String.eqb glob "*" then Some true else glob_head str glob
  end.

(** ** What trimming and filtering do *)

Lemma trim_tail_nil s : all_chars iswhitechar s = true -> r_str_trim_tail s = EmptyString.
Proof.
  induction s as [|c s IH]; [done|]. simpl. intros [Hc H]%andb_true_iff. by rewrite IH, Hc.
Qed.

Lemma trim_head_first s c t : r_str_trim_head s = String c t -> iswhitechar c = false.
Proof. induction s as [|d s IH]; simpl; [done|]. case_match; [done|]. by intros [= <- _]. Qed.

(** The two ways of trimming agree. *)
Lemma r_str_chop_trims s : r_str_chop s = r_str_trim_head_tail s.
Proof.
  unfold r_str_chop, r_str_trim_head_tail. destruct (r_str_trim_head s) as [|c t] eqn:E; [done|].
  simpl. rewrite (trim_head_first _ _ _ E). by destruct (r_str_trim_tail t).
Qed.

Lemma valid_not_white c : r_name_validate_char c = true -> iswhitechar c = false.
Proof.
  unfold r_name_validate_char, iswhitechar. intros H. rewrite !orb_true_iff, !andb_true_iff in H.
  rewrite !orb_false_iff, !Z.eqb_neq. lia.
Qed.

Lemma filter_char_valid c : r_name_validate_char (filter_char c) = true.
Proof. unfold filter_char. by case_match. Qed.

Lemma trim_tail_valid s : all_chars r_name_validate_char s = true -> r_str_trim_tail s = s.
Proof.
  induction s as [|c s IH]; [done|]. simpl. intros [Hc H]%andb_true_iff. rewrite IH by done.
  rewrite (valid_not_white _ Hc). by destruct s.
Qed.

Lemma trim_valid s : all_chars r_name_validate_char s = true -> r_str_trim_head_tail s = s.
Proof.
  intros H. unfold r_str_trim_head_tail. destruct s as [|c s]; [done|]. simpl in H.
  pose proof H as [Hc _]%andb_true_iff. cbn [r_str_trim_head]. rewrite (valid_not_white _ Hc). by apply trim_tail_valid.
Qed.

Lemma filter_loop_valid s i maxlen : all_chars r_name_validate_char (filter_loop s i maxlen) = true.
Proof.
  revert i. induction s as [|c s IH]; intros i; [done|]. cbn [filter_loop]. case_match; [done|]. simpl.
  by rewrite filter_char_valid, IH.
Qed.

Lemma filter_loop_id s i : all_chars r_name_validate_char s = true -> filter_loop s i 0 = s.
Proof.
  revert i. induction s as [|c s IH]; intros i; [done|]. simpl. intros [Hc H]%andb_true_iff.
  unfold filter_char. by rewrite Hc, IH.
Qed.

(** Every character of a filtered name is one of a name. *)
Lemma r_name_filter_valid s maxlen : all_chars r_name_validate_char (fst (r_name_filter s maxlen)) = true.
Proof. apply filter_loop_valid. Qed.

(** A name of such characters is left as it is, so that filtering twice is filtering once. *)
Lemma r_name_filter_id s : all_chars r_name_validate_char s = true -> fst (r_name_filter s 0) = s.
Proof. intros H. unfold r_name_filter. cbn. by rewrite trim_valid, filter_loop_id. Qed.

(** A bound leaves one character more than it says. *)
Lemma r_name_filter_bound : fst (r_name_filter "abcdef" 3) = "abcd"%string.
Proof. reflexivity. Qed.

(** ** What a pattern matches *)

(** A star stands for any text, any other character for itself. *)
Fixpoint glob_match (glob str : string) : bool :=
  match glob with
  | EmptyString => String.eqb str EmptyString
  | String c glob' =>
      if Ascii.eqb c "*" then
        (fix any (s : string) : bool :=
           glob_match glob' s || match s with EmptyString => false | String _ s => any s end) str
      else match str with String d str' => Ascii.eqb c d && glob_match glob' str' | EmptyString => false end
  end.

Notation star g := (String "*" g).

Lemma match_star_nil g : glob_match (star g) EmptyString = glob_match g EmptyString.
Proof. simpl. by rewrite orb_false_r. Qed.

Lemma match_star_cons g c s : glob_match (star g) (String c s) = glob_match g (String c s) || glob_match (star g) s.
Proof. reflexivity. Qed.

Lemma match_char c g d s : Ascii.eqb c "*" = false ->
  glob_match (String c g) (String d s) = Ascii.eqb c d && glob_match g s.
Proof. simpl. by intros ->. Qed.

Lemma match_char_nil c g : Ascii.eqb c "*" = false -> glob_match (String c g) EmptyString = false.
Proof. simpl. by intros ->. Qed.

Lemma match_nil_star c g : Ascii.eqb c "*" = true -> String c g = star g.
Proof. by intros ->%Ascii.eqb_eq. Qed.

Lemma match_only_stars g : glob_match g EmptyString = only_stars g.
Proof.
  induction g as [|c g IH]; [done|]. cbn [only_stars]. destruct (Ascii.eqb c "*") eqn:E.
  - rewrite (match_nil_star _ _ E), match_star_nil. done.
  - by rewrite match_char_nil.
Qed.

Lemma match_all s : glob_match "*" s = true.
Proof. induction s as [|c s IH]; [done|]. rewrite match_star_cons, IH. by rewrite orb_true_r. Qed.

(** What a star matches it also matches with more text in front of it. *)
Lemma match_star_app g p s : glob_match (star g) s = true -> glob_match (star g) (String.append p s) = true.
Proof.
  intros H. induction p as [|c p IH]; [done|]. rewrite append_cons, match_star_cons, IH. by rewrite orb_true_r.
Qed.

(** Text without a star matches itself. *)
Definition starless (p : string) : bool := all_chars (fun c => negb (Ascii.eqb c "*")) p.

Lemma starless_match p g s : starless p = true -> glob_match (String.append p g) s = true ->
  exists t, s = String.append p t /\ glob_match g t = true.
Proof.
  revert s. induction p as [|c p IH]; intros s Hp H; [by exists s|].
  unfold starless in Hp. cbn [all_chars] in Hp. apply andb_true_iff in Hp as [Hc%negb_true_iff Hp].
  rewrite append_cons in H. destruct s as [|d s]; [by rewrite match_char_nil in H|].
  rewrite match_char in H by done. apply andb_true_iff in H as [->%Ascii.eqb_eq H].
  destruct (IH s Hp H) as (t & -> & Ht). by exists t.
Qed.

Lemma str_append_assoc p q r : String.append (String.append p q) r = String.append p (String.append q r).
Proof. induction p as [|c p IH]; [done|]. by rewrite !append_cons, IH. Qed.

Lemma suffix_of_suffix p s r t : String.append p s = String.append r t -> (String.length t <= String.length s)%nat ->
  exists r', s = String.append r' t.
Proof.
  revert r. induction p as [|c p IH]; intros r E Hlen; [by exists r|]. destruct r as [|d r].
  - rewrite append_nil_l in E. subst t. rewrite append_cons in Hlen. simpl in Hlen. rewrite length_append in Hlen. lia.
  - rewrite !append_cons in E. injection E as _ E. by apply (IH r).
Qed.

(** A later star makes an earlier one superfluous: if the pattern matches from a
    later place on, it does from here, where the text in between has been matched. *)
Lemma star_takes_over p g s q : starless p = true ->
  glob_match (star (String.append p (star g))) q = true ->
  (exists r, String.append p s = String.append r q) -> glob_match (star g) s = true.
Proof.
  intros Hp. induction q as [|c q IH]; intros H [r Hr].
  - rewrite match_star_nil in H. destruct (starless_match _ _ _ Hp H) as (t & Ht & Hm).
    destruct p as [|? p]; [|done]. rewrite append_nil_l in *. subst t.
    rewrite <- (append_nil_r s). by apply match_star_app.
  - rewrite match_star_cons in H. apply orb_true_iff in H as [H|H].
    + destruct (starless_match _ _ _ Hp H) as (t & Ht & Hm). rewrite Ht in Hr.
      destruct (suffix_of_suffix p s (String.append r p) t) as [r' ->]; [by rewrite str_append_assoc| |by apply match_star_app].
      apply (f_equal String.length) in Hr. rewrite !length_append in Hr. lia.
    + apply IH; [done|]. exists (String.append r (String c EmptyString)). by rewrite str_append_assoc.
Qed.

(** ** The greedy loop *)

Lemma star_somewhere g s : glob_match (star g) s = true -> exists r q, s = String.append r q /\ glob_match g q = true.
Proof.
  induction s as [|c s IH]; intros H.
  - rewrite match_star_nil in H. by exists EmptyString, EmptyString.
  - rewrite match_star_cons in H. apply orb_true_iff in H as [H|H]; [by exists EmptyString, (String c s)|].
    destruct (IH H) as (r & q & -> & Hq). by exists (String c r), q.
Qed.

(** What is matched from a state of the loop on: the rest, or what follows the
    last star, later in the text. *)
Definition glob_value (str glob : string) (back : option (string * string)) : bool :=
  glob_match glob str || match back with None => false | Some (mp, cp) => glob_match (star mp) cp end.

(** Since the last star the characters of [p] have been matched. *)
Definition glob_inv (str glob : string) (back : option (string * string)) : Prop :=
  match back with
  | None => exists g, glob = star g
  | Some (mp, cp) =>
      exists p, starless p = true /\ mp = String.append p glob /\ cp = str_drop 1 (String.append p str)
  end.

Lemma drop_1_cons s c t : exists d, String.append s (String c t) = String d (str_drop 1 (String.append s (String c t))).
Proof. destruct s as [|d s]; [by exists c|by exists d]. Qed.

Lemma length_drop_1 s c t :
  String.length (str_drop 1 (String.append s (String c t))) = (String.length s + String.length t)%nat.
Proof. destruct s as [|d s]; simpl; [done|]. rewrite length_append. simpl. lia. Qed.

Lemma glob_value_end glob back : glob_inv EmptyString glob back -> glob_value EmptyString glob back = only_stars glob.
Proof.
  intros H. unfold glob_value. rewrite <- match_only_stars. destruct back as [[mp cp]|]; [|by rewrite orb_false_r].
  destruct H as (p & Hp & -> & ->). rewrite append_nil_r. destruct (glob_match glob EmptyString) eqn:E; [done|].
  apply not_true_iff_false. intros H. destruct (star_somewhere _ _ H) as (r & q & Er & Hq).
  destruct (starless_match _ _ _ Hp Hq) as (t & -> & Ht).
  apply (f_equal String.length) in Er. rewrite !length_append in Er. destruct p as [|c p]; simpl in Er; [|lia].
  destruct t; [congruence|simpl in Er; lia].
Qed.

Lemma glob_value_star c str g back : glob_inv (String c str) (star g) back ->
  glob_value (String c str) (star g) back = glob_match (star g) (String c str).
Proof.
  intros H. unfold glob_value. destruct back as [[mp cp]|]; [|by rewrite orb_false_r].
  destruct H as (p & Hp & -> & ->). destruct (glob_match (star g) (String c str)) eqn:E; [done|].
  apply not_true_iff_false. intros H.
  assert (glob_match (star g) (String c str) = true); [|congruence].
  apply (star_takes_over _ _ _ _ Hp H). destruct (drop_1_cons p c str) as [d Hd].
  exists (String d EmptyString). exact Hd.
Qed.

Lemma glob_value_restart mp cp :
  glob_value cp mp (Some (mp, str_drop 1 cp)) = glob_match (star mp) cp.
Proof.
  unfold glob_value. destruct cp as [|c cp]; simpl str_drop; [by rewrite match_star_nil, orb_diag|done].
Qed.

Lemma starless_snoc p c : starless p = true -> Ascii.eqb c "*" = false ->
  starless (String.append p (String c EmptyString)) = true.
Proof.
  unfold starless. intros Hp Hc. induction p as [|d p IH]; simpl in *; [by rewrite Hc|].
  apply andb_true_iff in Hp as [-> Hp]. by apply IH.
Qed.

Section loop.
Variables n k : nat.
Definition glob_measure (str glob : string) (back : option (string * string)) : nat :=
  (match back with None => n | Some (_, cp) => String.length cp end * S (n + k) + String.length str + String.length glob)%nat.
Definition glob_small (str glob : string) (back : option (string * string)) : Prop :=
  (String.length str <= n)%nat /\ (String.length glob <= k)%nat /\
  match back with None => True | Some (mp, cp) => (String.length mp <= k /\ String.length cp <= n)%nat end.

(** Taking the text up again. *)
Lemma glob_restart fuel str glob mp cp :
  (forall str glob back, glob_inv str glob back -> glob_small str glob back ->
    (glob_measure str glob back < fuel)%nat -> glob_loop fuel str glob back = Some (glob_value str glob back)) ->
  glob_small str glob (Some (mp, cp)) -> (1 <= String.length str)%nat ->
  (glob_measure str glob (Some (mp, cp)) < S fuel)%nat ->
  glob_loop fuel cp mp (Some (mp, str_drop 1 cp)) = Some (glob_match (star mp) cp).
Proof.
  intros IH (H1 & H2 & H3 & H4) Hs Hm. rewrite <- glob_value_restart. destruct cp as [|c cp].
  - destruct fuel as [|fuel]; [unfold glob_measure in Hm; lia|]. cbn [glob_loop].
    by rewrite glob_value_end by (by exists EmptyString).
  - apply IH; [by exists EmptyString| |].
    + unfold glob_small in *. cbn in *. lia.
    + unfold glob_measure in *. cbn [str_drop String.length] in *. nia.
Qed.

Lemma glob_loop_ok fuel : forall str glob back, glob_inv str glob back -> glob_small str glob back ->
  (glob_measure str glob back < fuel)%nat -> glob_loop fuel str glob back = Some (glob_value str glob back).
Proof.
  induction fuel as [|fuel IH]; intros str glob back Hi Hs Hm; [lia|]. cbn [glob_loop].
  destruct str as [|c str]; [by rewrite glob_value_end|].
  assert (match back with
          | None => None
          | Some (mp, cp) => glob_loop fuel cp mp (Some (mp, str_drop 1 cp))
          end = match back with None => None | Some (mp, cp) => Some (glob_match (star mp) cp) end) as ->.
  { destruct back as [[mp cp]|]; [|done]. apply (glob_restart fuel (String c str) glob); [done|done|simpl; lia|done]. }
  destruct glob as [|d glob].
  - destruct back as [[mp cp]|]; [done|]. by destruct Hi.
  - destruct (Ascii.eqb d "*") eqn:Ed.
    + pose proof (match_nil_star _ glob Ed) as E. injection E as ->. rewrite (glob_value_star _ _ _ _ Hi).
      destruct glob as [|e glob]; [by rewrite match_all|]. rewrite match_star_cons.
      apply IH; [by exists EmptyString| |].
      * unfold glob_small in *. cbn in *. lia.
      * unfold glob_measure in *. cbn [String.length] in *. destruct back as [[mp cp]|].
        -- destruct Hi as (p & _ & _ & ->). rewrite length_drop_1 in Hm. nia.
        -- destruct Hs as (Hs & _). cbn in Hs. nia.
    + destruct back as [[mp cp]|]; [|destruct Hi; simplify_eq; done].
      destruct (Ascii.eqb d c) eqn:Edc.
      * destruct Hi as (p & Hp & -> & ->). rewrite IH; [..|].
        -- unfold glob_value. rewrite (match_char d glob c str Ed), Edc. done.
        -- exists (String.append p (String d EmptyString)). apply Ascii.eqb_eq in Edc as ->.
           split; [by apply starless_snoc|]. by rewrite !str_append_assoc.
        -- unfold glob_small in *. cbn [String.length] in *. lia.
        -- unfold glob_measure in *. cbn [String.length] in *. lia.
      * unfold glob_value. by rewrite match_char, Edc.
Qed.
End loop.

Lemma glob_head_ok str glob : glob_head str glob = Some (glob_match glob str).
Proof.
  revert glob. induction str as [|c str IH]; intros glob; cbn [glob_head]; [by rewrite match_only_stars|].
  destruct glob as [|d glob]; [done|]. destruct (Ascii.eqb d "*") eqn:Ed.
  - pose proof (match_nil_star _ glob Ed) as ->.
    rewrite (glob_loop_ok (String.length (String c str)) (String.length (star glob))).
    + unfold glob_value. by rewrite orb_false_r.
    + by exists glob.
    + done.
    + unfold glob_measure, glob_fuel. lia.
  - rewrite match_char by done. by destruct (Ascii.eqb d c).
Qed.

(** C33: Matching with a pattern ends and answers whether the text is what the
    pattern stands for. *)
Theorem r_str_glob_matches str glob : r_str_glob str (Some glob) = Some (glob_match glob str).
Proof.
  unfold r_str_glob. destruct (String.eqb_spec glob "*") as [->|]; [by rewrite match_all|]. apply glob_head_ok.
Qed.

Example glob_ex : map (fun s => r_str_glob s (Some "s*m.*n"%string)) ["sym.main"; "sim.min.on"; "sym.mainx"]%string =
  [Some true; Some true; Some false].
Proof. reflexivity. Qed.
