(* ===== verification/Flags.v ===== *)
(** * Flags: names for offsets

    [libr/flag/flag.c], [spaces.c], [zones.c] and [sort.c].  Items, the lists of
    the items at an offset and the names of spaces are shared by address, so
    they are kept in stores; what is freed leaves its store, and following a
    pointer to it is [UB_free].  The tables by name and by offset are those of
    [HashTable] with keys of 64 bits.

    Not modelled: what is printed ([r_flag_list], [r_flag_space_list],
    [r_flag_zone_list], [r_flag_get_liststr]), [r_flag_bind], and [r_flag_free],
    which leaves nothing.  The expressions of aliases are evaluated by
    [r_num_math], a parameter. *)

From S2P Require Import Prelude HashTable Names.

Definition R_FLAG_SPACES_MAX : nat := 128.
Definition XORKEY : Z := 0x12345678.
Definition XOROFF (x : Z) : Z := Z.lxor x XORKEY.

Record RFlagItem := mk_fi {
  fi_name : string;
  fi_realname : option string;
  fi_namehash : Z;
  fi_offset : Z;
  fi_size : Z;
  fi_space : Z;
  fi_color : option string;
  fi_comment : option string;
  fi_alias : option string
}.

Definition set_fi_offset (v : Z) (i : RFlagItem) : RFlagItem :=
  mk_fi (fi_name i) (fi_realname i) (fi_namehash i) v (fi_size i) (fi_space i) (fi_color i) (fi_comment i) (fi_alias i).
Definition set_fi_size (v : Z) (i : RFlagItem) : RFlagItem :=
  mk_fi (fi_name i) (fi_realname i) (fi_namehash i) (fi_offset i) v (fi_space i) (fi_color i) (fi_comment i) (fi_alias i).
Definition set_fi_space (v : Z) (i : RFlagItem) : RFlagItem :=
  mk_fi (fi_name i) (fi_realname i) (fi_namehash i) (fi_offset i) (fi_size i) v (fi_color i) (fi_comment i) (fi_alias i).
Definition set_fi_color (v : option string) (i : RFlagItem) : RFlagItem :=
  mk_fi (fi_name i) (fi_realname i) (fi_namehash i) (fi_offset i) (fi_size i) (fi_space i) v (fi_comment i) (fi_alias i).
Definition set_fi_comment (v : option string) (i : RFlagItem) : RFlagItem :=
  mk_fi (fi_name i) (fi_realname i) (fi_namehash i) (fi_offset i) (fi_size i) (fi_space i) (fi_color i) v (fi_alias i).
Definition set_fi_alias (v : option string) (i : RFlagItem) : RFlagItem :=
  mk_fi (fi_name i) (fi_realname i) (fi_namehash i) (fi_offset i) (fi_size i) (fi_space i) (fi_color i) (fi_comment i) v.
Definition set_fi_realname (v : option string) (i : RFlagItem) : RFlagItem :=
  mk_fi (fi_name i) v (fi_namehash i) (fi_offset i) (fi_size i) (fi_space i) (fi_color i) (fi_comment i) (fi_alias i).

Record RFlagZoneItem := mk_zone { zi_from : Z; zi_to : Z; zi_name : string }.

(** Objects are numbered as they are allocated. *)
Record RFlag := mk_flag {
  fl_base : Z;
  fl_space_idx : Z;
  fl_space_strict : bool;
  fl_spaces : list (option nat);
  fl_ht_off : RHashTable nat;
  fl_ht_name : RHashTable nat;
  fl_flags : list nat;
  fl_spacestack : list (option nat);
  fl_zones : option (list RFlagZoneItem);
  fl_items : gmap nat RFlagItem;
  fl_lists : gmap nat (list nat);
  fl_strs : gmap nat string;
  fl_next : nat
}.
Implicit Types (f : RFlag) (i l : nat) (off : Z).

Definition set_base (v : Z) f : RFlag :=
  mk_flag v (fl_space_idx f) (fl_space_strict f) (fl_spaces f) (fl_ht_off f) (fl_ht_name f) (fl_flags f)
    (fl_spacestack f) (fl_zones f) (fl_items f) (fl_lists f) (fl_strs f) (fl_next f).
Definition set_space_idx (v : Z) f : RFlag :=
  mk_flag (fl_base f) v (fl_space_strict f) (fl_spaces f) (fl_ht_off f) (fl_ht_name f) (fl_flags f)
    (fl_spacestack f) (fl_zones f) (fl_items f) (fl_lists f) (fl_strs f) (fl_next f).
Definition set_spaces (v : list (option nat)) f : RFlag :=
  mk_flag (fl_base f) (fl_space_idx f) (fl_space_strict f) v (fl_ht_off f) (fl_ht_name f) (fl_flags f)
    (fl_spacestack f) (fl_zones f) (fl_items f) (fl_lists f) (fl_strs f) (fl_next f).
Definition set_ht_off (v : RHashTable nat) f : RFlag :=
  mk_flag (fl_base f) (fl_space_idx f) (fl_space_strict f) (fl_spaces f) v (fl_ht_name f) (fl_flags f)
    (fl_spacestack f) (fl_zones f) (fl_items f) (fl_lists f) (fl_strs f) (fl_next f).
Definition set_ht_name (v : RHashTable nat) f : RFlag :=
  mk_flag (fl_base f) (fl_space_idx f) (fl_space_strict f) (fl_spaces f) (fl_ht_off f) v (fl_flags f)
    (fl_spacestack f) (fl_zones f) (fl_items f) (fl_lists f) (fl_strs f) (fl_next f).
Definition set_flags (v : list nat) f : RFlag :=
  mk_flag (fl_base f) (fl_space_idx f) (fl_space_strict f) (fl_spaces f) (fl_ht_off f) (fl_ht_name f) v
    (fl_spacestack f) (fl_zones f) (fl_items f) (fl_lists f) (fl_strs f) (fl_next f).
Definition set_spacestack (v : list (option nat)) f : RFlag :=
  mk_flag (fl_base f) (fl_space_idx f) (fl_space_strict f) (fl_spaces f) (fl_ht_off f) (fl_ht_name f) (fl_flags f)
    v (fl_zones f) (fl_items f) (fl_lists f) (fl_strs f) (fl_next f).
Definition set_zones (v : option (list RFlagZoneItem)) f : RFlag :=
  mk_flag (fl_base f) (fl_space_idx f) (fl_space_strict f) (fl_spaces f) (fl_ht_off f) (fl_ht_name f) (fl_flags f)
    (fl_spacestack f) v (fl_items f) (fl_lists f) (fl_strs f) (fl_next f).
Definition set_items (v : gmap nat RFlagItem) f : RFlag :=
  mk_flag (fl_base f) (fl_space_idx f) (fl_space_strict f) (fl_spaces f) (fl_ht_off f) (fl_ht_name f) (fl_flags f)
    (fl_spacestack f) (fl_zones f) v (fl_lists f) (fl_strs f) (fl_next f).
Definition set_off_lists (v : gmap nat (list nat)) f : RFlag :=
  mk_flag (fl_base f) (fl_space_idx f) (fl_space_strict f) (fl_spaces f) (fl_ht_off f) (fl_ht_name f) (fl_flags f)
    (fl_spacestack f) (fl_zones f) (fl_items f) v (fl_strs f) (fl_next f).
Definition set_strs (v : gmap nat string) f : RFlag :=
  mk_flag (fl_base f) (fl_space_idx f) (fl_space_strict f) (fl_spaces f) (fl_ht_off f) (fl_ht_name f) (fl_flags f)
    (fl_spacestack f) (fl_zones f) (fl_items f) (fl_lists f) v (fl_next f).

(** ** The stores *)

Definition item_at i : M RFlag RFlagItem := s ← gets fl_items; lift UB_free (s !! i).
Definition list_at l : M RFlag (list nat) := s ← gets fl_lists; lift UB_free (s !! l).
Definition str_at (a : nat) : M RFlag string := s ← gets fl_strs; lift UB_free (s !! a).

Definition put_item i (x : RFlagItem) : M RFlag unit := modify (fun f => set_items (<[i := x]> (fl_items f)) f).
Definition put_list l (x : list nat) : M RFlag unit := modify (fun f => set_off_lists (<[l := x]> (fl_lists f)) f).
Definition with_item i (g : RFlagItem -> RFlagItem) : M RFlag unit := x ← item_at i; put_item i (g x).

Definition alloc : M RFlag nat := fun f =>
  Ok (fl_next f)
    (mk_flag (fl_base f) (fl_space_idx f) (fl_space_strict f) (fl_spaces f) (fl_ht_off f) (fl_ht_name f) (fl_flags f)
       (fl_spacestack f) (fl_zones f) (fl_items f) (fl_lists f) (fl_strs f) (S (fl_next f))).
Definition new_item (x : RFlagItem) : M RFlag nat := i ← alloc; put_item i x ;; mret i.
Definition new_list : M RFlag nat := l ← alloc; put_list l [] ;; mret l.
Definition new_str (s : string) : M RFlag nat :=
  a ← alloc; modify (fun f => set_strs (<[a := s]> (fl_strs f)) f) ;; mret a.

(** The tables.  The table by offset frees the lists that it gives up. *)
Definition in_ht_name {B} (m : M (RHashTable nat) B) : M RFlag B := fun f =>
  match m (fl_ht_name f) with Ok b h => Ok b (set_ht_name h f) | Undef u => Undef u end.
Definition in_ht_off {B} (m : M (RHashTable nat) B) : M RFlag B := fun f =>
  match m (fl_ht_off f) with
  | Ok b h => Ok b (set_off_lists (foldr delete (fl_lists f) (ht_freed h)) (set_ht_off (set_ht_freed [] h) f))
  | Undef u => Undef u
  end.
Definition name_lookup (k : Z) : M RFlag (option nat) := in_ht_name (r_hashtable_lookup 64 k).
Definition name_insert (k : Z) i : M RFlag bool := in_ht_name (r_hashtable_insert 64 k (Some i)).
Definition name_remove (k : Z) : M RFlag unit := in_ht_name (r_hashtable_remove 64 k).
Definition off_lookup (k : Z) : M RFlag (option nat) := in_ht_off (r_hashtable_lookup 64 k).
Definition off_insert (k : Z) l : M RFlag bool := in_ht_off (r_hashtable_insert 64 k (Some l)).
Definition off_remove (k : Z) : M RFlag unit := in_ht_off (r_hashtable_remove 64 k).

(** A walk over a list of items; the body ends it with a result. *)
Fixpoint foreach {B} (l : list nat) (body : nat -> M RFlag (option B)) : M RFlag (option B) :=
  match l with
  | [] => mret None
  | i :: l => r ← body i; match r with Some b => mret (Some b) | None => foreach l body end
  end.

(** ** flag.c *)

Definition r_flag_new : RFlag :=
  mk_flag 0 (-1) false (repeat None R_FLAG_SPACES_MAX) (set_ht_free true r_hashtable_new) r_hashtable_new
    [] [] None ∅ ∅ ∅ 0.

(** [list] is a list of the table by offset. *)
Definition r_list_get_top (list : option nat) : M RFlag (option nat) :=
  match list with None => mret None | Some l => x ← list_at l; mret (last x) end.

Definition str_callback off : M RFlag (option string) :=
  list ← off_lookup (XOROFF off);
  item ← r_list_get_top list;
  match item with Some i => x ← item_at i; mret (Some (fi_name x)) | None => mret None end.

(** The value and whether there is one. *)
Definition num_callback (name : string) : M RFlag (Z * bool) :=
  item ← name_lookup (r_str_hash64 (Some name));
  match item with
  | Some i => x ← item_at i; mret (if is_some (fi_alias x) then (0, false) else (fi_offset x, true))
  | None => mret (0, false)
  end.

Definition remove_offsetmap i : M RFlag unit :=
  x ← item_at i;
  fs_off ← off_lookup (XOROFF (fi_offset x));
  match fs_off with
  | None => mret tt
  | Some l =>
      items ← list_at l;
      let items := delete_first (Nat.eqb i) items in
      put_list l items ;;
      if bool_decide (items = []) then off_remove (XOROFF (fi_offset x)) else mret tt
  end.

Definition set_name (name : string) (x : RFlagItem) : RFlagItem :=
  let name := fst (r_name_filter (r_str_chop name) 0) in
  mk_fi name (Some name) (r_str_hash64 (Some name)) (fi_offset x) (fi_size x) (fi_space x) (fi_color x)
    (fi_comment x) (fi_alias x).

Definition zero_item : RFlagItem := mk_fi EmptyString None 0 0 0 0 None None None.

(** [IS_IN_SPACE], which holds of an item outside of the selected space. *)
Definition IS_IN_SPACE f (x : RFlagItem) : bool :=
  negb (fl_space_idx f =? -1) && negb (fi_space x =? fl_space_idx f).

Section flag.
Context (r_num_math : RFlag -> string -> Z).

Definition evalFlag (item : option nat) : M RFlag (option nat) :=
  match item with
  | None => mret None
  | Some i =>
      x ← item_at i;
      match fi_alias x with
      | Some a => f ← gets id; put_item i (set_fi_offset (u64 (r_num_math f a)) x) ;; mret item
      | None => mret item
      end
  end.

(** [strncmp (a, b, n) == 0]. *)
Fixpoint strncmp_eq (a b : string) (n : nat) : bool :=
  match n with
  | O => true
  | S n =>
      match a, b with
      | EmptyString, EmptyString => true
      | String c a, String d b => Ascii.eqb c d && strncmp_eq a b n
      | _, _ => false
      end
  end.

Definition r_flag_exist_at (flag_prefix : string) (fp_size : nat) off : M RFlag bool :=
  list ← off_lookup (XOROFF off);
  match list with
  | None => mret false
  | Some l =>
      items ← list_at l;
      r ← foreach items (fun i => x ← item_at i;
            mret (if strncmp_eq (fi_name x) flag_prefix fp_size then Some tt else None));
      mret (is_some r)
  end.

Definition r_flag_get (name : option string) : M RFlag (option nat) :=
  r ← name_lookup (r_str_hash64 name); evalFlag r.

Definition r_flag_get_i off : M RFlag (option nat) :=
  list ← off_lookup (XOROFF off);
  match list with
  | None => mret None
  | Some _ => top ← r_list_get_top list; evalFlag top
  end.

(** The walk of [r_flag_get_i2]: [oitem] is the item so far. *)
Fixpoint get_i2_walk (l : list nat) (oitem : option nat) : M RFlag (option nat) :=
  match l with
  | [] => mret oitem
  | i :: l =>
      x ← item_at i;
      let name := fi_name x in
      if strncmp_eq name "loc." 4 || strncmp_eq name "fcn." 4 || strncmp_eq name "section." 4 then get_i2_walk l oitem
      else if (4 <? r_str_nlen name 5)%nat && Ascii.eqb (char_at name 3) "." then mret (Some i)
      else get_i2_walk l (Some i)
  end.
Definition r_flag_get_i2 off : M RFlag (option nat) :=
  list ← off_lookup (XOROFF off);
  match list with
  | None => mret None
  | Some l => items ← list_at l; oitem ← get_i2_walk items None; evalFlag oitem
  end.

(** The walk of [r_flag_get_at]: [nice] is the last item before the offset, so
    far. *)
Fixpoint get_at_walk off (l : list nat) (nice : option nat) : M RFlag (option nat) :=
  match l with
  | [] => mret nice
  | i :: l =>
      f ← gets id;
      x ← item_at i;
      if fl_space_strict f && IS_IN_SPACE f x then get_at_walk off l nice
      else if fi_offset x =? off then mret (Some i)
      else if fi_offset x <? off then
        match nice with
        | None => get_at_walk off l (Some i)
        | Some n => y ← item_at n; get_at_walk off l (if fi_offset y <? fi_offset x then Some i else nice)
        end
      else get_at_walk off l nice
  end.
Definition r_flag_get_at off : M RFlag (option nat) :=
  l ← gets fl_flags; item ← get_at_walk off l None; evalFlag item.

Definition r_flag_get_list off : M RFlag (option nat) := off_lookup (XOROFF off).

(** The end of [r_flag_set]: the item gets its fields and its place in the table by offset. *)
Definition place i off size : M RFlag unit :=
  f ← gets id;
  with_item i (fun x => set_fi_size size (set_fi_offset (u64 (off + fl_base f)) (set_fi_space (fl_space_idx f) x))) ;;
  list ← off_lookup (XOROFF off);
  l ← match list with
      | Some l => mret l
      | None => l ← new_list; off_insert (XOROFF off) l ;; mret l
      end;
  items ← list_at l;
  put_list l (items ++ [i]).

Definition r_flag_set (name : option string) off size : M RFlag (option nat) :=
  match name with
  | None | Some EmptyString => mret None
  | Some s =>
      item ← r_flag_get name;
      match item with
      | Some i =>
          x ← item_at i;
          if fi_offset x =? off then put_item i (set_fi_size size x) ;; mret item
          else remove_offsetmap i ;; place i off size ;; mret item
      | None =>
          let x := set_name s zero_item in
          i ← new_item x;
          name_insert (fi_namehash x) i ;;
          modify (fun f => set_flags (fl_flags f ++ [i]) f) ;;
          place i off size ;;
          mret (Some i)
      end
  end.

Definition null_if_empty (s : option string) : option string :=
  match s with Some EmptyString => None | _ => s end.

Definition r_flag_item_set_alias i (alias : option string) : M RFlag unit := with_item i (set_fi_alias (null_if_empty alias)).
Definition r_flag_item_set_comment i (comment : option string) : M RFlag unit :=
  with_item i (set_fi_comment (null_if_empty comment)).
Definition r_flag_item_set_realname i (realname : option string) : M RFlag unit :=
  with_item i (set_fi_realname (null_if_empty realname)).

Definition r_flag_rename i (name : option string) : M RFlag bool :=
  match name with
  | None | Some EmptyString => mret false
  | Some s =>
      let hash := r_str_hash64 name in
      p ← name_lookup hash;
      match p with
      | Some _ => mret false
      | None =>
          x ← item_at i;
          let x := set_name s x in
          put_item i x ;;
          name_remove hash ;;
          name_insert (fi_namehash x) i ;;
          mret true
      end
  end.

Definition r_flag_unset i : M RFlag bool :=
  remove_offsetmap i ;;
  x ← item_at i;
  name_remove (fi_namehash x) ;;
  modify (fun f => set_flags (delete_first (Nat.eqb i) (fl_flags f)) f) ;;
  mret true.

(** [free (item)]. *)
Definition free_item i : M RFlag unit :=
  item_at i ;; modify (fun f => set_items (delete i (fl_items f)) f).

Definition unset_and_free (item : option nat) : M RFlag bool :=
  match item with
  | Some i => r_flag_unset i ;; free_item i ;; mret true
  | None => mret false
  end.

Definition r_flag_unset_off off : M RFlag bool := item ← r_flag_get_i off; unset_and_free item.
Definition r_flag_unset_name (name : option string) : M RFlag bool :=
  item ← name_lookup (r_str_hash64 name); unset_and_free item.

Definition glob_flag (x : RFlagItem) (glob : option string) : M RFlag bool :=
  lift UB_null (r_str_glob (fi_name x) glob).

(** The walk goes on with the node after the one that is taken out. *)
Fixpoint unset_glob_walk (glob : option string) (l : list nat) (n : Z) : M RFlag Z :=
  match l with
  | [] => mret n
  | i :: l =>
      f ← gets id;
      x ← item_at i;
      if IS_IN_SPACE f x then unset_glob_walk glob l n
      else
        m ← glob_flag x glob;
        if (m : bool) then unset_and_free (Some i) ;; unset_glob_walk glob l (n + 1) else unset_glob_walk glob l n
  end.
Definition r_flag_unset_glob (glob : option string) : M RFlag Z := l ← gets fl_flags; unset_glob_walk glob l 0.

Fixpoint count_walk (glob : option string) (l : list nat) (n : Z) : M RFlag Z :=
  match l with
  | [] => mret n
  | i :: l =>
      x ← item_at i;
      m ← glob_flag x glob;
      count_walk glob l (if (m : bool) then n + 1 else n)
  end.
Definition r_flag_count (glob : option string) : M RFlag Z := l ← gets fl_flags; count_walk glob l 0.

Fixpoint relocate_walk off (off_mask to : Z) (l : list nat) (n : Z) : M RFlag Z :=
  match l with
  | [] => mret n
  | i :: l =>
      x ← item_at i;
      let neg_mask := UT64_MAX - off_mask in
      if Z.land (fi_offset x) neg_mask =? Z.land off neg_mask then
        let fm := Z.land (fi_offset x) off_mask in
        let om := Z.land to off_mask in
        put_item i (set_fi_offset (u64 (Z.land to neg_mask + fm + om)) x) ;;
        relocate_walk off off_mask to l (n + 1)
      else relocate_walk off off_mask to l n
  end.
Definition r_flag_relocate off (off_mask to : Z) : M RFlag Z := l ← gets fl_flags; relocate_walk off off_mask to l 0.

Definition r_flag_move (at_ to : Z) : M RFlag bool :=
  item ← r_flag_get_i at_;
  match item with
  | Some i => x ← item_at i; r_flag_set (Some (fi_name x)) to (u32 (fi_size x)) ;; mret true
  | None => mret false
  end.

Definition r_flag_color (it : nat) (color : option string) : M RFlag (option string) :=
  match color with
  | None => x ← item_at it; mret (fi_color x)
  | Some _ => with_item it (set_fi_color (null_if_empty color)) ;; mret (null_if_empty color)
  end.
End flag.

(** ** spaces.c *)

(** The address of the name of the space [idx]. *)
Definition space_at (idx : Z) : M RFlag (option nat) :=
  s ← gets fl_spaces; lift UB_oob (if idx <? 0 then None else s !! Z.to_nat idx).

Definition named (name : string) (a : option nat) : M RFlag bool :=
  match a with Some a => s ← str_at a; mret (String.eqb name s) | None => mret false end.

(** The first space with a name. *)
Fixpoint find_named (name : string) (i : Z) (l : list (option nat)) : M RFlag (option Z) :=
  match l with
  | [] => mret None
  | a :: l => b ← named name a; if (b : bool) then mret (Some i) else find_named name (i + 1) l
  end.
Definition find_space (name : string) : M RFlag (option Z) := l ← gets fl_spaces; find_named name 0 l.

Fixpoint find_empty (i : Z) (l : list (option nat)) : option Z :=
  match l with
  | [] => None
  | None :: _ => Some i
  | Some _ :: l => find_empty (i + 1) l
  end.

Definition put_space (i : Z) (a : option nat) : M RFlag unit :=
  modify (fun f => set_spaces (<[Z.to_nat i := a]> (fl_spaces f)) f).
Definition select (i : Z) : M RFlag unit := modify (set_space_idx i).
Definition free_str (a : nat) : M RFlag unit :=
  str_at a ;; modify (fun f => set_strs (delete a (fl_strs f)) f).

Definition r_flag_space_get (name : string) : M RFlag Z := i ← find_space name; mret (default (-1) i).

Definition r_flag_space_get_i (idx : Z) : M RFlag string :=
  if (idx =? -1) || (Z.of_nat R_FLAG_SPACES_MAX <=? idx) then mret EmptyString
  else a ← space_at idx; match a with Some a => str_at a | None => mret EmptyString end.

Definition r_flag_space_cur : M RFlag string := i ← gets fl_space_idx; r_flag_space_get_i i.

Definition r_flag_space_set (name : option string) : M RFlag Z :=
  match name with
  | None | Some (String "*" _) => select (-1) ;; mret (-1)
  | Some name =>
      i ← find_space name;
      match i with
      | Some i => select i ;; mret i
      | None =>
          l ← gets fl_spaces;
          match find_empty 0 l with
          | Some i => a ← new_str name; put_space i (Some a) ;; select i
          | None => mret tt
          end ;;
          gets fl_space_idx
      end
  end.

(** What the stack holds is the pointer to the name of the selected space, or
    a literal, [None]. *)
Definition r_flag_space_push (name : option string) : M RFlag bool :=
  match name with
  | None | Some EmptyString => mret false
  | Some _ =>
      idx ← gets fl_space_idx;
      a ← (if idx =? -1 then mret None else space_at idx);
      modify (fun f => set_spacestack (fl_spacestack f ++ [a]) f) ;;
      r_flag_space_set name ;;
      mret true
  end.

Definition r_flag_space_pop : M RFlag bool :=
  st ← gets fl_spacestack;
  match last st with
  | None => mret false
  | Some p =>
      modify (set_spacestack (take (pred (length st)) st)) ;;
      s ← match p with Some a => str_at a | None => mret "*"%string end;
      match s with EmptyString => mret tt | _ => r_flag_space_set (Some s) ;; mret tt end ;;
      mret true
  end.

(** No item is in the space any more. *)
Fixpoint leave_space (n : Z) (l : list nat) : M RFlag unit :=
  match l with
  | [] => mret tt
  | i :: l =>
      x ← item_at i;
      (if fi_space x =? n then put_item i (set_fi_space (-1) x) else mret tt) ;;
      leave_space n l
  end.

Fixpoint unset_spaces (fs : option string) (i : Z) (l : list (option nat)) (count : Z) : M RFlag Z :=
  match l with
  | [] => mret count
  | None :: l => unset_spaces fs (i + 1) l count
  | Some a :: l =>
      b ← match fs with None => mret true | Some fs => named fs (Some a) end;
      if (b : bool) then
        idx ← gets fl_space_idx;
        (if idx =? i then select (-1) else mret tt) ;;
        free_str a ;;
        put_space i None ;;
        items ← gets fl_flags;
        leave_space i items ;;
        unset_spaces fs (i + 1) l (count + 1)
      else unset_spaces fs (i + 1) l count
  end.
Definition r_flag_space_unset (fs : option string) : M RFlag Z := l ← gets fl_spaces; unset_spaces fs 0 l 0.

Fixpoint count_space (n : Z) (l : list nat) (count : Z) : M RFlag Z :=
  match l with
  | [] => mret count
  | i :: l => x ← item_at i; count_space n l (if fi_space x =? n then count + 1 else count)
  end.
Definition r_flag_space_count (n : Z) : M RFlag Z :=
  if n =? -1 then mret 0 else l ← gets fl_flags; count_space n l 0.

Fixpoint skip_spaces (s : string) : string :=
  match s with String c s' => if Ascii.eqb c " " then skip_spaces s' else s | EmptyString => s end.

Definition rename_space (oname : string) (nname : option string) : M RFlag bool :=
  match nname with
  | None => mret false
  | Some nname =>
      i ← find_space (skip_spaces oname);
      match i with
      | Some i =>
          a ← space_at i;
          match a with Some a => free_str a | None => mret tt end ;;
          b ← new_str (skip_spaces nname);
          put_space i (Some b) ;;
          mret true
      | None => mret false
      end
  end.
(** Without an old name the selected space is meant; its pointer may be null. *)
Definition r_flag_space_rename (oname nname : option string) : M RFlag bool :=
  match oname with
  | Some oname => rename_space oname nname
  | None =>
      idx ← gets fl_space_idx;
      if idx =? -1 then mret false
      else
        a ← space_at idx;
        match nname, a with
        | None, _ => mret false
        | Some _, None => undef UB_null
        | Some _, Some a => oname ← str_at a; rename_space oname nname
        end
  end.

(** [r_flag_unset_all] of flag.c. *)
Definition r_flag_unset_all : M RFlag unit :=
  select (-1) ;;
  modify (fun f => set_items (foldr delete (fl_items f) (fl_flags f)) f) ;;
  modify (set_flags []) ;;
  modify (set_ht_name r_hashtable_new) ;;
  modify (fun f => set_off_lists (foldr delete (fl_lists f) (r_hashtable_free (fl_ht_off f))) f) ;;
  modify (set_ht_off (set_ht_free true r_hashtable_new)) ;;
  r_flag_space_unset None ;;
  mret tt.

(** ** zones.c *)

Definition zones_of f : list RFlagZoneItem := default [] (fl_zones f).

Definition widen (addr : Z) (z : RFlagZoneItem) : RFlagZoneItem :=
  let from := if addr <? zi_from z then addr else zi_from z in
  let to := if zi_to z <? addr then addr else zi_to z in
  mk_zone from to (zi_name z).

Definition zone_named (name : string) (z : RFlagZoneItem) : bool := String.eqb name (zi_name z).

Definition r_flag_zone_reset : M RFlag bool := modify (set_zones (Some [])) ;; mret true.

Definition r_flag_zone_add (name : option string) (addr : Z) : M RFlag bool :=
  match name with
  | None | Some EmptyString => mret false
  | Some name =>
      f ← gets id;
      match find (zone_named name) (zones_of f) with
      | Some _ => modify (set_zones (Some (update_first (zone_named name) (widen addr) (zones_of f)))) ;; mret true
      | None => modify (set_zones (Some (zones_of f ++ [mk_zone addr addr name]))) ;; mret true
      end
  end.

Definition r_flag_zone_del (name : string) : M RFlag bool :=
  f ← gets id;
  match find (zone_named name) (zones_of f) with
  | Some _ => modify (set_zones (Some (delete_first (zone_named name) (zones_of f)))) ;; mret true
  | None => mret false
  end.

(** The nearest boundaries: [l] and [h] with the names [prev] and [next]. *)
Record around := mk_around { ar_l : Z; ar_h : Z; ar_prev : option string; ar_next : option string }.

Definition go_next (b : Z) (name : string) (a : around) : around :=
  if (ar_h a =? UT64_MAX) || (b <? ar_h a) then mk_around (ar_l a) b (ar_prev a) (Some name) else a.
Definition go_prev (b : Z) (name : string) (a : around) : around :=
  if (ar_l a =? UT64_MAX) || (ar_l a <=? b) then mk_around b (ar_h a) (Some name) (ar_next a) else a.

Definition around_zone (addr : Z) (a : around) (z : RFlagZoneItem) : around :=
  let a := if addr <? zi_from z then go_next (zi_from z) (zi_name z) a else a in
  let a := if zi_from z <? addr then go_prev (zi_from z) (zi_name z) a else a in
  let a := if zi_to z <=? addr then go_prev (zi_to z) (zi_name z) a else a in
  if addr <? zi_to z then go_next (zi_to z) (zi_name z) a else a.

Definition zone_around (zs : list RFlagZoneItem) (addr : Z) : around :=
  foldl (around_zone addr) (mk_around 0 UT64_MAX None None) zs.
(** [prev] and [next]. *)
Definition r_flag_zone_around (addr : Z) : M RFlag (option string * option string) :=
  f ← gets id; let a := zone_around (zones_of f) addr in mret (ar_prev a, ar_next a).

(** ** sort.c *)

(** [strcmp], of unsigned characters. *)
Fixpoint strcmp (a b : string) : Z :=
  match a, b with
  | EmptyString, EmptyString => 0
  | EmptyString, _ => -1
  | _, EmptyString => 1
  | String c a, String d b => if code c =? code d then strcmp a b else if code c <? code d then -1 else 1
  end.
Definition ncmp (a b : RFlagItem) : Z := strcmp (fi_name a) (fi_name b).
Definition cmp (a b : RFlagItem) : Z :=
  if fi_offset b <? fi_offset a then 1 else if fi_offset a <? fi_offset b then -1 else 0.

(** The first of the least items of a list. *)
Fixpoint least_item (namesort : bool) (l : list nat) (fi : option nat) : M RFlag (option nat) :=
  match l with
  | [] => mret fi
  | i :: l =>
      match fi with
      | None => least_item namesort l (Some i)
      | Some j =>
          x ← item_at j; y ← item_at i;
          least_item namesort l (if 0 <? (if namesort then ncmp x y else cmp x y) then Some i else fi)
      end
  end.
(** Each turn moves the least item to the end of [tmp]. *)
Fixpoint sort_turns (n : nat) (namesort : bool) (l tmp : list nat) (ret : bool) : M RFlag (list nat * bool) :=
  fi ← least_item namesort l None;
  match fi, n with
  | None, _ => mret (tmp, ret)
  | Some i, S n => sort_turns n namesort (delete_first (Nat.eqb i) l) (tmp ++ [i]) true
  | Some _, O => undef UB_overflow
  end.
Definition r_flag_sort (namesort : bool) : M RFlag bool :=
  l ← gets fl_flags;
  '(tmp, ret) ← sort_turns (length l) namesort l [] false;
  modify (set_flags tmp) ;;
  mret ret.
