(* ===== verification/FlagTables.v ===== *)
(** * The tables of flags

    [cons] says that the table by name, the table by offset and the list of
    items agree and that no pointer among them dangles; setting and unsetting a
    flag keep it. *)

From S2P Require Import Prelude HashTable HashTableFacts Names Flags.

(** ** Keys *)

Lemma hash64_go_range h s : 0 <= h < 2 ^ 64 -> 0 <= hash64_go h s < 2 ^ 64.
Proof.
  revert h. induction s as [|c s IH]; intros h Hh; [done|]. cbn [hash64_go]. apply IH.
  apply lxor_range; [lia| |apply u64_range]. apply lxor_range; [lia|done|apply u64_range].
Qed.

Lemma r_str_hash64_range s : 0 <= r_str_hash64 s < 2 ^ 64.
Proof. destruct s as [s|]; [apply hash64_go_range; lia|simpl; lia]. Qed.

Lemma XOROFF_range off : 0 <= off < 2 ^ 64 -> 0 <= XOROFF off < 2 ^ 64.
Proof. intros H. apply lxor_range; [lia|done|unfold XORKEY; lia]. Qed.

Lemma XOROFF_inj a b : XOROFF a = XOROFF b -> a = b.
Proof.
  intros H. apply (f_equal (fun x => Z.lxor x XORKEY)) in H. unfold XOROFF in H.
  by rewrite !Z.lxor_assoc, Z.lxor_nilpotent, !Z.lxor_0_r in H.
Qed.

(** A name of characters that the filter leaves. *)
Definition flag_name (s : string) : Prop := s <> EmptyString /\ all_chars r_name_validate_char s = true.

(** ** The agreement of the tables

    [nm] and [om] are the maps of the two tables; [out] is an item that has, for
    the moment, no place in the table by offset, and [n] bounds their sizes. *)
Record cons (n : Z) (out : option nat) (nm om : gmap Z nat) (f : RFlag) : Prop := mk_cons {
  cn_name : models 64 (fl_ht_name f) nm;
  cn_off : models 64 (fl_ht_off f) om;
  cn_cb : ht_free (fl_ht_off f) = true /\ ht_freed (fl_ht_off f) = [];
  cn_size : Z.of_nat (size nm) <= n /\ Z.of_nat (size om) <= n;
  cn_base : fl_base f = 0;
  cn_nodup : NoDup (fl_flags f);
  cn_item : forall i, i ∈ fl_flags f -> exists x, fl_items f !! i = Some x /\
    nm !! fi_namehash x = Some i /\ (fi_namehash x = r_str_hash64 (Some (fi_name x)) /\ flag_name (fi_name x)) /\
    fi_alias x = None /\ 0 <= fi_offset x < 2 ^ 64 /\
    (out <> Some i -> exists l js, om !! XOROFF (fi_offset x) = Some l /\ fl_lists f !! l = Some js /\ i ∈ js);
  cn_nm : forall h i, nm !! h = Some i -> i ∈ fl_flags f /\ exists x, fl_items f !! i = Some x /\ fi_namehash x = h;
  cn_om : forall k l, om !! k = Some l -> exists js, fl_lists f !! l = Some js /\ js <> [] /\ NoDup js /\
    forall i, i ∈ js -> out <> Some i /\ i ∈ fl_flags f /\ exists x, fl_items f !! i = Some x /\ XOROFF (fi_offset x) = k;
  cn_inj : forall k k' l, om !! k = Some l -> om !! k' = Some l -> k = k';
  cn_fresh : (forall i, i ∈ fl_flags f -> (i < fl_next f)%nat) /\ (forall k l, om !! k = Some l -> (l < fl_next f)%nat)
}.

Lemma w64 : 32 <= 64.
Proof. lia. Qed.

Section run.
Context (n : Z) (out : option nat) (nm om : gmap Z nat) (f : RFlag).
Hypothesis C : cons n out nm om f.

Lemma in_ht_off_same {B} (m : M (RHashTable nat) B) b :
  m (fl_ht_off f) = Ok b (fl_ht_off f) -> in_ht_off m f = Ok b f.
Proof.
  intros H. unfold in_ht_off. rewrite H. destruct (cn_cb _ _ _ _ _ C) as [_ E]. rewrite E. f_equal.
  unfold set_off_lists, set_ht_off, set_ht_freed. destruct f as [? ? ? ? h ? ? ? ? ? ? ? ?]. cbn in *. f_equal.
  destruct h. cbn in *. by subst.
Qed.

Lemma in_ht_name_same {B} (m : M (RHashTable nat) B) b :
  m (fl_ht_name f) = Ok b (fl_ht_name f) -> in_ht_name m f = Ok b f.
Proof. intros H. unfold in_ht_name. rewrite H. by destruct f. Qed.

Lemma run_off_lookup k : off_lookup k f = Ok (om !! k) f.
Proof.
  apply in_ht_off_same. destruct (cn_off _ _ _ _ _ C) as [W H]. destruct (om !! k) as [l|] eqn:E.
  - apply lookup_has; [apply w64|done|by apply H].
  - apply lookup_fresh; [apply w64|done|]. intros d Hd%H. congruence.
Qed.

Lemma run_name_lookup k : name_lookup k f = Ok (nm !! k) f.
Proof.
  apply in_ht_name_same. destruct (cn_name _ _ _ _ _ C) as [W H]. destruct (nm !! k) as [l|] eqn:E.
  - apply lookup_has; [apply w64|done|by apply H].
  - apply lookup_fresh; [apply w64|done|]. intros d Hd%H. congruence.
Qed.

Lemma run_item_at i x : fl_items f !! i = Some x -> item_at i f = Ok x f.
Proof. intros H. unfold item_at. by rewrite run_bind, run_gets, H. Qed.

Lemma run_list_at l js : fl_lists f !! l = Some js -> list_at l f = Ok js f.
Proof. intros H. unfold list_at. by rewrite run_bind, run_gets, H. Qed.

Lemma cons_item i : i ∈ fl_flags f -> exists x, fl_items f !! i = Some x /\ item_at i f = Ok x f /\
  nm !! fi_namehash x = Some i /\ fi_alias x = None.
Proof.
  intros Hi. destruct (cn_item _ _ _ _ _ C i Hi) as (x & Hx & Hn & _ & Ha & _). exists x.
  split; [done|]. split; [by apply run_item_at|done].
Qed.

Lemma run_evalFlag math i : i ∈ fl_flags f -> evalFlag math (Some i) f = Ok (Some i) f.
Proof.
  intros Hi. destruct (cons_item i Hi) as (x & _ & Hrun & _ & Ha). unfold evalFlag. by rewrite run_bind, Hrun, Ha.
Qed.

(** An item that is found by name. *)
Lemma run_r_flag_get math s : r_flag_get math s f = Ok (nm !! r_str_hash64 s) f.
Proof.
  unfold r_flag_get. rewrite run_bind, run_name_lookup. destruct (nm !! r_str_hash64 s) as [i|] eqn:E; [|done].
  apply run_evalFlag. by apply (cn_nm _ _ _ _ _ C _ _ E).
Qed.

(** The items at an offset, the last of which [r_flag_get_i] gives. *)
Definition items_at (k : Z) : list nat :=
  match om !! k with Some l => default [] (fl_lists f !! l) | None => [] end.

Lemma items_at_elem k i : i ∈ items_at k -> i ∈ fl_flags f /\ exists x, fl_items f !! i = Some x /\ XOROFF (fi_offset x) = k.
Proof.
  unfold items_at. destruct (om !! k) as [l|] eqn:E; [|by intros ?%elem_of_nil].
  destruct (cn_om _ _ _ _ _ C _ _ E) as (js & -> & _ & _ & H). intros Hi. by apply H.
Qed.

Lemma run_r_flag_get_i math off : r_flag_get_i math off f = Ok (last (items_at (XOROFF off))) f.
Proof.
  unfold r_flag_get_i. rewrite run_bind, run_off_lookup. pose proof (items_at_elem (XOROFF off)) as Hel.
  unfold items_at in *. destruct (om !! XOROFF off) as [l|] eqn:E; [|done]. 
  destruct (cn_om _ _ _ _ _ C _ _ E) as (js & Hl & Hne & _ & _). rewrite Hl in *. cbn in *.
  rewrite run_bind. unfold r_list_get_top. rewrite run_bind, (run_list_at _ _ Hl), run_ret.
  destruct (last js) as [i|] eqn:El; [|by apply last_None in El].
  apply run_evalFlag. apply last_Some in El as [js' ->]. apply (Hel i). set_solver.
Qed.
End run.

(** ** Taking an item out of the table by offset *)

Lemma delete_first_elem (js : list nat) i j : NoDup js ->
  j ∈ delete_first (Nat.eqb i) js <-> j <> i /\ j ∈ js.
Proof.
  induction 1 as [|a js Ha Hnd IH]; cbn [delete_first]; [set_solver|].
  destruct (Nat.eqb_spec i a) as [<-|Hne]; [set_solver|]. rewrite !elem_of_cons, IH. naive_solver.
Qed.

Lemma delete_first_NoDup (js : list nat) i : NoDup js -> NoDup (delete_first (Nat.eqb i) js).
Proof. intros H. eapply sublist_NoDup; [exact H|apply delete_first_sublist]. Qed.

(** What the handling of the table by offset leaves alone. *)
Definition same_but_offs f f' : Prop :=
  fl_items f' = fl_items f /\ fl_flags f' = fl_flags f /\ fl_ht_name f' = fl_ht_name f /\ fl_base f' = fl_base f /\
  fl_space_idx f' = fl_space_idx f /\ fl_space_strict f' = fl_space_strict f /\ fl_spaces f' = fl_spaces f /\
  fl_strs f' = fl_strs f /\ fl_next f' = fl_next f.

Section detach.
Context (n : Z) (nm om : gmap Z nat) (f : RFlag) (i : nat) (x : RFlagItem) (l : nat) (js : list nat).
Hypothesis C : cons n None nm om f.
Hypothesis Hi : i ∈ fl_flags f.
Hypothesis Hx : fl_items f !! i = Some x.
Let k := XOROFF (fi_offset x).
Hypothesis Hk : om !! k = Some l.
Hypothesis Hl : fl_lists f !! l = Some js.
Hypothesis Hijs : i ∈ js.
Let js' := delete_first (Nat.eqb i) js.

Lemma detach_js : NoDup js /\ forall j, j ∈ js -> j ∈ fl_flags f /\ exists y, fl_items f !! j = Some y /\ XOROFF (fi_offset y) = k.
Proof.
  destruct (cn_om _ _ _ _ _ C _ _ Hk) as (js0 & E & _ & Hnd & H). rewrite Hl in E. injection E as <-.
  split; [done|]. intros j Hj. by destruct (H j Hj) as (_ & ?).
Qed.

(** Other items stay in their lists. *)
Lemma detach_item j : j ∈ fl_flags f -> i <> j -> exists y l' is', fl_items f !! j = Some y /\
  om !! XOROFF (fi_offset y) = Some l' /\ fl_lists f !! l' = Some is' /\ j ∈ is' /\ (l' = l -> is' = js /\ XOROFF (fi_offset y) = k).
Proof.
  intros Hj Hne. destruct (cn_item _ _ _ _ _ C j Hj) as (y & Hy & _ & _ & _ & _ & Hp).
  destruct (Hp ltac:(done)) as (l' & is' & H1 & H2 & H3). exists y, l', is'. split_and!; try done. intros ->.
  rewrite Hl in H2. injection H2 as <-. split; [done|]. by apply (cn_inj _ _ _ _ _ C _ _ _ H1 Hk).
Qed.

Lemma detach_kept : js' <> [] ->
  cons n (Some i) nm om (set_off_lists (<[l := js']> (fl_lists f)) f).
Proof.
  intros Hne. destruct detach_js as [Hnd Hjs]. pose proof C as []. constructor; cbn; try done.
  - intros j Hj. destruct (cn_item0 j Hj) as (y & Hy & H1 & H2 & H3 & H4 & _). exists y.
    do 5 (split; [done|]). intros Hij. destruct (detach_item j Hj ltac:(congruence)) as (y' & l' & is' & Hy' & E1 & E2 & E3 & E4).
    rewrite Hy in Hy'. injection Hy' as <-. destruct (decide (l' = l)) as [->|Hll].
    + exists l, js'. rewrite lookup_insert_eq. destruct E4 as [-> _]; [done|]. split_and!; [done..|].
      apply delete_first_elem; [done|]. split; [congruence|done].
    + exists l', is'. rewrite lookup_insert_ne by done. done.
  - intros k' l' Hk'. destruct (decide (l' = l)) as [->|Hll].
    + exists js'. rewrite lookup_insert_eq. rewrite (cn_inj0 _ _ _ Hk' Hk).
      split_and!; [done|done|by apply delete_first_NoDup|].
      intros j [Hj1 Hj2]%delete_first_elem; [|done]. split; [congruence|by apply Hjs].
    + destruct (cn_om0 k' l' Hk') as (is' & E1 & E2 & E3 & E4). exists is'. rewrite lookup_insert_ne by done.
      split_and!; [done..|]. intros j Hj. destruct (E4 j Hj) as (_ & Hf & y & Hy & Hyk). split; [|eauto].
      intros [= ->]. rewrite Hx in Hy. injection Hy as <-. fold k in Hyk. subst k'. congruence.
Qed.

Lemma detach_removed h' : js' = [] -> models 64 h' (delete k om) -> ht_free h' = true ->
  cons n (Some i) nm (delete k om)
    (set_off_lists (delete l (<[l := js']> (fl_lists f))) (set_ht_off (set_ht_freed [] h') f)).
Proof.
  intros He Hm Hcb. destruct detach_js as [Hnd Hjs]. pose proof C as []. 
  assert (forall l', l' <> l -> delete l (<[l := js']> (fl_lists f)) !! l' = fl_lists f !! l') as Hsame.
  { intros l' Hll. by rewrite lookup_delete_ne, lookup_insert_ne. }
  assert (forall j, j ∈ js -> j = i) as Honly.
  { intros j Hj. destruct (decide (j = i)); [done|]. exfalso.
    assert (j ∈ js') as H by (by apply delete_first_elem). rewrite He in H. by apply elem_of_nil in H. }
  constructor; cbn; try done.
  - destruct Hm as [[] ?]. split; [by constructor|done].
  - destruct cn_size0. split; [done|]. pose proof (map_size_delete k om) as Hsz. rewrite Hk in Hsz. cbn in Hsz. lia.
  - intros j Hj. destruct (cn_item0 j Hj) as (y & Hy & H1 & H2 & H3 & H4 & _). exists y.
    do 5 (split; [done|]). intros Hij. destruct (detach_item j Hj ltac:(congruence)) as (y' & l' & is' & Hy' & E1 & E2 & E3 & E4).
    rewrite Hy in Hy'. injection Hy' as <-. assert (l' <> l) as Hll.
    { intros ->. destruct E4 as [-> _]; [done|]. apply Hij. by rewrite (Honly j E3). }
    exists l', is'. rewrite Hsame by done. rewrite lookup_delete_ne; [done|]. intros E. rewrite <- E, Hk in E1. congruence.
  - intros k' l' [Hkk Hk']%lookup_delete_Some. destruct (cn_om0 k' l' Hk') as (is' & E1 & E2 & E3 & E4).
    assert (l' <> l) as Hll by (intros ->; apply Hkk; by apply (cn_inj0 _ _ l)).
    exists is'. rewrite Hsame by done. split_and!; [done..|]. intros j Hj. destruct (E4 j Hj) as (_ & Hf & y & Hy & Hyk).
    split; [|eauto]. intros [= ->]. rewrite Hx in Hy. injection Hy as <-. fold k in Hyk. congruence.
  - intros k1 k2 l' [_ H1]%lookup_delete_Some [_ H2]%lookup_delete_Some. by apply (cn_inj0 _ _ l').
  - split; [apply cn_fresh0|]. intros k' l' [_ H]%lookup_delete_Some. by apply (proj2 cn_fresh0 k').
Qed.
End detach.

Lemma same_but_offs_refl f : same_but_offs f f.
Proof. done. Qed.

Lemma run_put_list l js f : put_list l js f = Ok tt (set_off_lists (<[l := js]> (fl_lists f)) f).
Proof. done. Qed.

Lemma run_put_item i x f : put_item i x f = Ok tt (set_items (<[i := x]> (fl_items f)) f).
Proof. done. Qed.

Lemma run_off_remove n out nm om f g k l : cons n out nm om f -> om !! k = Some l -> fl_ht_off g = fl_ht_off f ->
  exists h', off_remove k g = Ok tt (set_off_lists (delete l (fl_lists g)) (set_ht_off (set_ht_freed [] h') g)) /\
    models 64 h' (delete k om) /\ ht_free h' = true.
Proof.
  intros C Hk Hg. destruct (cn_off _ _ _ _ _ C) as [W H]. destruct (cn_cb _ _ _ _ _ C) as [Hcb Hfr].
  destruct (remove_has 64 w64 (fl_ht_off f) k l W) as (h' & Hrun & W' & _ & F & G & Hhas); [by apply H|].
  exists h'. split; [|split; [|congruence]].
  - unfold off_remove, in_ht_off. rewrite Hg, Hrun. rewrite G, Hcb, Hfr. done.
  - split; [done|]. intros k' d. rewrite lookup_delete_Some, Hhas, H. naive_solver.
Qed.

(** [remove_offsetmap] takes an item out of the list of its offset. *)
Lemma remove_offsetmap_ok n nm om f i x : cons n None nm om f -> i ∈ fl_flags f -> fl_items f !! i = Some x ->
  exists om' f', remove_offsetmap i f = Ok tt f' /\ cons n (Some i) nm om' f' /\ same_but_offs f f' /\
    forall k, items_at om' f' k =
      if decide (k = XOROFF (fi_offset x)) then delete_first (Nat.eqb i) (items_at om f k) else items_at om f k.
Proof.
  intros C Hi Hx. destruct (cn_item _ _ _ _ _ C i Hi) as (y & Hy & _ & _ & _ & _ & Hp).
  rewrite Hx in Hy. injection Hy as <-. destruct (Hp ltac:(done)) as (l & js & Hk & Hl & Hijs).
  unfold remove_offsetmap. rewrite run_bind, (run_item_at f _ _ Hx), run_bind, (run_off_lookup _ _ _ _ _ C), Hk.
  cbv beta iota zeta. rewrite run_bind, (run_list_at f _ _ Hl), run_bind, run_put_list.
  set (k0 := XOROFF (fi_offset x)) in *. set (js' := delete_first (Nat.eqb i) js).
  assert (forall k, k <> k0 -> om !! k <> Some l) as Hother.
  { intros k Hne E. apply Hne. by apply (cn_inj _ _ _ _ _ C _ _ l). }
  case_bool_decide as Hjs.
  - set (f1 := set_off_lists (<[l := js']> (fl_lists f)) f).
    destruct (run_off_remove _ _ _ _ _ f1 k0 l C Hk eq_refl) as (h' & Hrun & Hm & Hcb).
    do 2 eexists. split; [exact Hrun|].
    split; [by apply (detach_removed n nm om f i x l js)|]. split; [done|].
    intros k. unfold items_at. case_decide as Ek.
    + subst k. rewrite lookup_delete_eq, Hk, Hl. cbn. by rewrite <- Hjs.
    + rewrite lookup_delete_ne by done. destruct (om !! k) as [l'|] eqn:E; [|done]. cbn.
      assert (l <> l') by (intros ->; by apply (Hother k)). by rewrite lookup_delete_ne, lookup_insert_ne.
  - do 2 eexists. split; [done|]. split; [by apply (detach_kept n nm om f i x l js)|]. split; [done|].
    intros k. unfold items_at. cbn. case_decide as Ek.
    + subst k. by rewrite Hk, lookup_insert_eq, Hl.
    + destruct (om !! k) as [l'|] eqn:E; [|done].
      assert (l <> l') by (intros ->; by apply (Hother k)). by rewrite lookup_insert_ne.
Qed.

(** ** Putting an item into the table by offset *)

Lemma cons_weaken n m out nm om f : n <= m -> cons n out nm om f -> cons m out nm om f.
Proof. intros Hnm []. constructor; try done. lia. Qed.

(** The fields of an item without a place are free. *)
Lemma cons_modify n i nm om f x y : cons n (Some i) nm om f -> fl_items f !! i = Some x ->
  fi_namehash y = fi_namehash x -> fi_name y = fi_name x -> fi_alias y = fi_alias x -> 0 <= fi_offset y < 2 ^ 64 ->
  cons n (Some i) nm om (set_items (<[i := y]> (fl_items f)) f).
Proof.
  intros [] Hx Hh Hn Ha Ho. constructor; cbn; try done.
  - intros j Hj. destruct (cn_item0 j Hj) as (z & Hz & H1 & H2 & H3 & H4 & H5). destruct (decide (j = i)) as [->|Hne].
    + rewrite Hx in Hz. injection Hz as <-. exists y. rewrite lookup_insert_eq, Hh, Hn, Ha. do 5 (split; [done|]). done.
    + exists z. rewrite lookup_insert_ne by done. done.
  - intros h j Hj. destruct (cn_nm0 h j Hj) as (Hf & z & Hz & Hzh). split; [done|]. destruct (decide (j = i)) as [->|Hne].
    + rewrite Hx in Hz. injection Hz as <-. exists y. rewrite lookup_insert_eq. split; [done|congruence].
    + exists z. by rewrite lookup_insert_ne.
  - intros k l Hk. destruct (cn_om0 k l Hk) as (js & H1 & H2 & H3 & H4). exists js. do 3 (split; [done|]).
    intros j Hj. destruct (H4 j Hj) as (Hne & Hf & z & Hz & Hzk). split; [done|]. split; [done|].
    exists z. rewrite lookup_insert_ne by congruence. done.
Qed.

Section attach.
Context (n : Z) (nm om : gmap Z nat) (f : RFlag) (i : nat) (x : RFlagItem).
Hypothesis C : cons n (Some i) nm om f.
Hypothesis Hi : i ∈ fl_flags f.
Hypothesis Hx : fl_items f !! i = Some x.
Let k := XOROFF (fi_offset x).

Lemma attach_existing l js : om !! k = Some l -> fl_lists f !! l = Some js ->
  cons n None nm om (set_off_lists (<[l := js ++ [i]]> (fl_lists f)) f).
Proof.
  intros Hk Hl. pose proof C as []. destruct (cn_om0 _ _ Hk) as (js0 & E & Hne & Hnd & Hjs).
  rewrite Hl in E. injection E as <-. constructor; cbn; try done.
  - intros j Hj. destruct (cn_item0 j Hj) as (y & Hy & H1 & H2 & H3 & H4 & H5). exists y.
    do 5 (split; [done|]). intros _. destruct (decide (j = i)) as [->|Hij].
    + rewrite Hx in Hy. injection Hy as <-. exists l, (js ++ [i]). rewrite lookup_insert_eq. set_solver.
    + destruct (H5 ltac:(congruence)) as (l' & js' & E1 & E2 & E3). destruct (decide (l' = l)) as [->|Hll].
      * exists l, (js ++ [i]). rewrite lookup_insert_eq. rewrite Hl in E2. injection E2 as <-. set_solver.
      * exists l', js'. by rewrite lookup_insert_ne.
  - intros k' l' Hk'. destruct (decide (l' = l)) as [->|Hll].
    + rewrite (cn_inj0 _ _ _ Hk' Hk). exists (js ++ [i]). rewrite lookup_insert_eq. split_and!; [done|by destruct js| |].
      * apply NoDup_app. split; [done|]. split; [|apply NoDup_singleton]. intros j Hj ->%list_elem_of_singleton.
        by destruct (Hjs i Hj).
      * intros j [Hj| ->%list_elem_of_singleton]%elem_of_app; [|by eauto]. destruct (Hjs j Hj) as (_ & ?). done.
    + destruct (cn_om0 k' l' Hk') as (js' & E1 & E2 & E3 & E4). exists js'. rewrite lookup_insert_ne by done.
      split_and!; [done..|]. intros j Hj. by destruct (E4 j Hj) as (_ & ?).
Qed.

(** The state with a new list for the offset. *)
Definition with_new_list h : RFlag :=
  mk_flag (fl_base f) (fl_space_idx f) (fl_space_strict f) (fl_spaces f) (set_ht_freed [] h) (fl_ht_name f) (fl_flags f)
    (fl_spacestack f) (fl_zones f) (fl_items f) (<[fl_next f := [i]]> (<[fl_next f := []]> (fl_lists f))) (fl_strs f)
    (S (fl_next f)).

Lemma attach_new h : om !! k = None -> models 64 h (<[k := fl_next f]> om) -> ht_free h = true ->
  cons (n + 1) None nm (<[k := fl_next f]> om) (with_new_list h).
Proof.
  intros Hk Hm Hcb. pose proof C as []. destruct cn_fresh0 as [Hfi Hfl].
  assert (forall l, (l < fl_next f)%nat -> <[fl_next f := [i]]> (<[fl_next f := []]> (fl_lists f)) !! l = fl_lists f !! l) as Hold.
  { intros l Hl. rewrite !lookup_insert_ne by lia. done. }
  constructor; cbn; try done.
  - destruct Hm as [[] ?]. split; [by constructor|done].
  - rewrite map_size_insert_None by done. lia.
  - intros j Hj. destruct (cn_item0 j Hj) as (y & Hy & H1 & H2 & H3 & H4 & H5). exists y.
    do 5 (split; [done|]). intros _. destruct (decide (j = i)) as [->|Hij].
    + rewrite Hx in Hy. injection Hy as <-. exists (fl_next f), [i]. rewrite !lookup_insert_eq. set_solver.
    + destruct (H5 ltac:(congruence)) as (l' & js' & E1 & E2 & E3). exists l', js'.
      rewrite Hold by (by eapply Hfl). rewrite lookup_insert_ne; [done|]. intros E. rewrite <- E in E1. fold k in E1. congruence.
  - intros k' l' [[<- <-]|[Hne Hk']]%lookup_insert_Some.
    + exists [i]. rewrite lookup_insert_eq. split_and!; [done|done|apply NoDup_singleton|].
      intros j ->%list_elem_of_singleton. by eauto.
    + destruct (cn_om0 k' l' Hk') as (js' & E1 & E2 & E3 & E4). exists js'. rewrite Hold by (by eapply Hfl).
      split_and!; [done..|]. intros j Hj. by destruct (E4 j Hj) as (_ & ?).
  - intros k1 k2 l' [[<- <-]|[H1 H1']]%lookup_insert_Some [[<- E]|[H2 H2']]%lookup_insert_Some; [done| | |by apply (cn_inj0 _ _ l')].
    + apply Hfl in H2'. lia.
    + subst l'. apply Hfl in H1'. lia.
  - split; [intros j Hj; apply Hfi in Hj; lia|].
    intros k' l' [[<- <-]|[Hne Hk']]%lookup_insert_Some; [lia|]. apply Hfl in Hk'. lia.
Qed.
End attach.

Lemma run_off_insert n out nm om f g k l : cons n out nm om f -> om !! k = None -> n < 2 ^ 30 -> 0 <= k < 2 ^ 64 ->
  fl_ht_off g = fl_ht_off f ->
  exists h', off_insert k l g = Ok true (set_off_lists (fl_lists g) (set_ht_off (set_ht_freed [] h') g)) /\
    models 64 h' (<[k := l]> om) /\ ht_free h' = true.
Proof.
  intros C Hk Hn Hr Hg. pose proof (cn_off _ _ _ _ _ C) as Hm. pose proof Hm as [W H]. destruct (cn_cb _ _ _ _ _ C) as [Hcb Hfr].
  destruct (insert_ok 64 w64 (fl_ht_off f) k l W Hr) as (h' & Hrun & W' & _ & [F G] & Hhas).
  { by eapply models_None. }
  { rewrite (models_entries 64 _ _ Hm). destruct (cn_size _ _ _ _ _ C). lia. }
  exists h'. split; [|split; [|congruence]].
  - unfold off_insert, in_ht_off. rewrite Hg, Hrun, G, Hfr. done.
  - split; [done|]. intros k' d. rewrite lookup_insert_Some, Hhas, H.
    destruct (decide (k = k')) as [<-|]; [|naive_solver]. split; [naive_solver|].
    intros [[_ ->]|Hd]; [by left|]. apply H in Hd. congruence.
Qed.

Definition moved (x : RFlagItem) off size (space : Z) : RFlagItem :=
  set_fi_size size (set_fi_offset off (set_fi_space space x)).

(** What a placement leaves alone. *)
Definition same_but_items f f' : Prop :=
  fl_flags f' = fl_flags f /\ fl_ht_name f' = fl_ht_name f /\ fl_base f' = fl_base f /\
  fl_space_idx f' = fl_space_idx f /\ fl_space_strict f' = fl_space_strict f /\ fl_spaces f' = fl_spaces f /\
  fl_strs f' = fl_strs f /\ (fl_next f <= fl_next f')%nat.

(** The end of [place]. *)
Definition file_item i off : M RFlag unit :=
  list ← off_lookup (XOROFF off);
  l ← match list with
      | Some l => mret l
      | None => l ← new_list; off_insert (XOROFF off) l ;; mret l
      end;
  items ← list_at l;
  put_list l (items ++ [i]).

Lemma place_unfold i off size f x : fl_items f !! i = Some x ->
  place i off size f = file_item i off (set_items (<[i := moved x (u64 (off + fl_base f)) size (fl_space_idx f)]> (fl_items f)) f).
Proof.
  intros Hx. unfold place, with_item. rewrite run_bind, run_gets. cbv beta iota. unfold id.
  by rewrite run_bind, run_bind, (run_item_at f _ _ Hx).
Qed.

Lemma items_at_insert om f l js k : (forall k', om !! k' = Some l -> k' = k) -> om !! k = Some l ->
  forall k', items_at om (set_off_lists (<[l := js]> (fl_lists f)) f) k' = if decide (k' = k) then js else items_at om f k'.
Proof.
  intros Hinj Hk k'. unfold items_at. cbn. case_decide as E.
  - subst k'. by rewrite Hk, lookup_insert_eq.
  - destruct (om !! k') as [l'|] eqn:E'; [|done].
    assert (l' <> l) by (intros ->; by apply E, Hinj). by rewrite lookup_insert_ne.
Qed.

Lemma file_item_ok n nm om f i x off : cons n (Some i) nm om f -> i ∈ fl_flags f -> fl_items f !! i = Some x ->
  n < 2 ^ 30 -> fi_offset x = off ->
  exists om' f', file_item i off f = Ok tt f' /\ cons (n + 1) None nm om' f' /\ same_but_items f f' /\
    fl_items f' = fl_items f /\
    forall k, items_at om' f' k = items_at om f k ++ (if decide (k = XOROFF off) then [i] else []).
Proof.
  intros C Hi Hx Hn <-. set (k0 := XOROFF (fi_offset x)).
  assert (0 <= fi_offset x < 2 ^ 64) as Hoff.
  { destruct (cn_item _ _ _ _ _ C i Hi) as (y & Hy & _ & _ & _ & ? & _). rewrite Hx in Hy. by injection Hy as <-. }
  unfold file_item. rewrite run_bind, (run_off_lookup _ _ _ _ _ C). fold k0. destruct (om !! k0) as [l|] eqn:Hk.
  - destruct (cn_om _ _ _ _ _ C _ _ Hk) as (js & Hl & _).
    exists om, (set_off_lists (<[l := js ++ [i]]> (fl_lists f)) f).
    split; [by rewrite run_bind, run_ret, run_bind, (run_list_at f _ _ Hl), run_put_list|].
    split; [apply (cons_weaken n); [lia|]; by apply (attach_existing n nm om f i x)|]. do 2 (split; [done|]).
    intros k. rewrite (items_at_insert om f l _ k0); [|intros k' Hk'; by apply (cn_inj _ _ _ _ _ C _ _ l)|done].
    case_decide as E; [|by rewrite app_nil_r]. subst k. unfold items_at. by rewrite Hk, Hl.
  - set (g := set_off_lists (<[fl_next f := []]> (fl_lists f))
      (mk_flag (fl_base f) (fl_space_idx f) (fl_space_strict f) (fl_spaces f) (fl_ht_off f) (fl_ht_name f) (fl_flags f)
       (fl_spacestack f) (fl_zones f) (fl_items f) (fl_lists f) (fl_strs f) (S (fl_next f)))).
    destruct (run_off_insert n _ nm om f g k0 (fl_next f) C Hk Hn) as (h' & Hrun & Hm & Hcb); [by apply XOROFF_range|done|].
    assert (new_list f = Ok (fl_next f) g) as Hnew by done.
    exists (<[k0 := fl_next f]> om), (with_new_list f i h').
    split.
    { rewrite run_bind, run_bind, Hnew, run_bind, Hrun, run_ret, run_bind.
      rewrite (run_list_at _ (fl_next f) []) by apply lookup_insert_eq. by rewrite run_put_list. }
    split; [by apply (attach_new n nm om f i x)|]. split; [do 7 (split; [done|]); cbn; lia|]. split; [done|].
    intros k. unfold items_at. cbn.
    case_decide as E.
    + subst k. by rewrite !lookup_insert_eq, Hk.
    + rewrite lookup_insert_ne by done. rewrite app_nil_r. destruct (om !! k) as [l'|] eqn:E'; [|done].
      pose proof (proj2 (cn_fresh _ _ _ _ _ C) _ _ E'). by rewrite !lookup_insert_ne by lia.
Qed.

Lemma place_ok n nm om f i x off size : cons n (Some i) nm om f -> i ∈ fl_flags f -> fl_items f !! i = Some x ->
  n < 2 ^ 30 -> 0 <= off < 2 ^ 64 ->
  exists om' f', place i off size f = Ok tt f' /\ cons (n + 1) None nm om' f' /\ same_but_items f f' /\
    fl_items f' = <[i := moved x off size (fl_space_idx f)]> (fl_items f) /\
    forall k, items_at om' f' k = items_at om f k ++ (if decide (k = XOROFF off) then [i] else []).
Proof.
  intros C Hi Hx Hn Hoff. rewrite (place_unfold _ _ _ _ _ Hx), (cn_base _ _ _ _ _ C), Z.add_0_r, u64_id by done.
  set (y := moved x off size (fl_space_idx f)). set (f1 := set_items (<[i := y]> (fl_items f)) f).
  destruct (file_item_ok n nm om f1 i y off) as (om' & f' & R & C' & S & E & H);
    [by apply (cons_modify n i nm om f x)|done|apply lookup_insert_eq|done|done|].
  exists om', f'. done.
Qed.

(** ** Setting a flag *)

Lemma run_name_insert n out nm om f g k i : cons n out nm om f -> nm !! k = None -> n < 2 ^ 30 -> 0 <= k < 2 ^ 64 ->
  fl_ht_name g = fl_ht_name f ->
  exists h', name_insert k i g = Ok true (set_ht_name h' g) /\ models 64 h' (<[k := i]> nm).
Proof.
  intros C Hk Hn Hr Hg. pose proof (cn_name _ _ _ _ _ C) as Hm. pose proof Hm as [W H].
  destruct (insert_ok 64 w64 (fl_ht_name f) k i W Hr) as (h' & Hrun & W' & _ & _ & Hhas).
  { by eapply models_None. }
  { rewrite (models_entries 64 _ _ Hm). destruct (cn_size _ _ _ _ _ C). lia. }
  exists h'. split; [unfold name_insert, in_ht_name; by rewrite Hg, Hrun|]. split; [done|].
  intros k' d. rewrite lookup_insert_Some, Hhas, H.
  destruct (decide (k = k')) as [<-|]; [|naive_solver]. split; [naive_solver|].
  intros [[_ ->]|Hd]; [by left|]. apply H in Hd. congruence.
Qed.

(** The state with a new item that has no place yet. *)
Definition with_item_named f (x : RFlagItem) h : RFlag :=
  mk_flag (fl_base f) (fl_space_idx f) (fl_space_strict f) (fl_spaces f) (fl_ht_off f) h (fl_flags f ++ [fl_next f])
    (fl_spacestack f) (fl_zones f) (<[fl_next f := x]> (fl_items f)) (fl_lists f) (fl_strs f) (S (fl_next f)).

Lemma cons_new_item n nm om f x h : cons n None nm om f -> nm !! fi_namehash x = None ->
  models 64 h (<[fi_namehash x := fl_next f]> nm) -> fi_namehash x = r_str_hash64 (Some (fi_name x)) /\ flag_name (fi_name x) ->
  fi_alias x = None -> 0 <= fi_offset x < 2 ^ 64 ->
  cons (n + 1) (Some (fl_next f)) (<[fi_namehash x := fl_next f]> nm) om (with_item_named f x h).
Proof.
  intros [] Hk Hm Hh Ha Ho. destruct cn_fresh0 as [Hfi Hfl].
  assert (forall j, j ∈ fl_flags f -> <[fl_next f := x]> (fl_items f) !! j = fl_items f !! j) as Hold.
  { intros j Hj. apply Hfi in Hj. by rewrite lookup_insert_ne by lia. }
  constructor; cbn; try done.
  - rewrite map_size_insert_None by done. lia.
  - apply NoDup_app. split; [done|]. split; [|apply NoDup_singleton]. intros j Hj ->%list_elem_of_singleton.
    apply Hfi in Hj. lia.
  - intros j [Hj| ->%list_elem_of_singleton]%elem_of_app.
    + destruct (cn_item0 j Hj) as (y & Hy & H1 & H2 & H3 & H4 & H5). exists y. rewrite Hold by done.
      split; [done|]. split; [rewrite lookup_insert_ne; [done|congruence]|]. do 3 (split; [done|]). intros _. by apply H5.
    + exists x. rewrite !lookup_insert_eq. do 5 (split; [done|]). done.
  - intros h' j [[<- <-]|[Hne Hj]]%lookup_insert_Some.
    + split; [set_solver|]. exists x. by rewrite lookup_insert_eq.
    + destruct (cn_nm0 h' j Hj) as (Hf & y & Hy & Hyh). split; [set_solver|]. exists y. by rewrite Hold.
  - intros k l Hkl. destruct (cn_om0 k l Hkl) as (js & E1 & E2 & E3 & E4). exists js. split_and!; [done..|].
    intros j Hj. destruct (E4 j Hj) as (_ & Hf & y & Hy & Hyk). split; [|split; [set_solver|exists y; by rewrite Hold]].
    intros [= <-]. apply Hfi in Hf. lia.
  - split; [|intros k l Hkl; apply Hfl in Hkl; lia].
    intros j [Hj| ->%list_elem_of_singleton]%elem_of_app; [apply Hfi in Hj; lia|lia].
Qed.

Lemma set_name_valid s x : flag_name s ->
  set_name s x = mk_fi s (Some s) (r_str_hash64 (Some s)) (fi_offset x) (fi_size x) (fi_space x) (fi_color x)
    (fi_comment x) (fi_alias x).
Proof.
  intros [_ H]. unfold set_name. by rewrite r_str_chop_trims, trim_valid, r_name_filter_id.
Qed.

Lemma delete_first_id (js : list nat) i : i ∉ js -> delete_first (Nat.eqb i) js = js.
Proof.
  induction js as [|j js IH]; [done|]. intros H. cbn [delete_first].
  destruct (Nat.eqb_spec i j) as [->|]; [set_solver|]. rewrite IH; [done|set_solver].
Qed.

(** Where the flag with a hash is. *)
Definition offset_of (nm : gmap Z nat) f (h : Z) : option Z := i ← nm !! h; fi_offset <$> fl_items f !! i.

(** The fields that the tables do not know of are free. *)
Lemma cons_touch n out i nm om f x y : cons n out nm om f -> fl_items f !! i = Some x ->
  fi_namehash y = fi_namehash x -> fi_name y = fi_name x -> fi_alias y = fi_alias x -> fi_offset y = fi_offset x ->
  cons n out nm om (set_items (<[i := y]> (fl_items f)) f).
Proof.
  intros [] Hx Hh Hn Ha Ho. constructor; cbn; try done.
  - intros j Hj. destruct (cn_item0 j Hj) as (z & Hz & H). destruct (decide (j = i)) as [->|Hne].
    + rewrite Hx in Hz. injection Hz as <-. exists y. by rewrite lookup_insert_eq, Hh, Hn, Ha, Ho.
    + exists z. by rewrite lookup_insert_ne.
  - intros h j Hj. destruct (cn_nm0 h j Hj) as (Hf & z & Hz & Hzh). split; [done|]. destruct (decide (j = i)) as [->|Hne].
    + rewrite Hx in Hz. injection Hz as <-. exists y. rewrite lookup_insert_eq. split; [done|congruence].
    + exists z. by rewrite lookup_insert_ne.
  - intros k l Hk. destruct (cn_om0 k l Hk) as (js & H1 & H2 & H3 & H4). exists js. do 3 (split; [done|]).
    intros j Hj. destruct (H4 j Hj) as (Hne & Hf & z & Hz & Hzk). split; [done|]. split; [done|].
    destruct (decide (j = i)) as [->|Hij].
    + rewrite Hx in Hz. injection Hz as <-. exists y. rewrite lookup_insert_eq. split; [done|congruence].
    + exists z. by rewrite lookup_insert_ne.
Qed.

(** What setting a flag leaves alone. *)
Definition same_settings f f' : Prop :=
  fl_base f' = fl_base f /\ fl_space_idx f' = fl_space_idx f /\ fl_space_strict f' = fl_space_strict f /\
  fl_spaces f' = fl_spaces f /\ fl_strs f' = fl_strs f /\ (fl_next f <= fl_next f')%nat.

Lemma same_settings_trans f g h : same_settings f g -> same_settings g h -> same_settings f h.
Proof. unfold same_settings. intros (-> & -> & -> & -> & -> & ?) (-> & -> & -> & -> & -> & ?). split_and!; done || lia. Qed.

Lemma same_but_offs_settings f g : same_but_offs f g -> same_settings f g.
Proof. intros (_ & _ & _ & ? & ? & ? & ? & ? & ?). unfold same_settings. split_and!; done || lia. Qed.

Lemma same_but_items_settings f g : same_but_items f g -> same_settings f g.
Proof. intros (_ & _ & ? & ? & ? & ? & ? & ?). by unfold same_settings. Qed.

Lemma items_at_delete n nm om f i x : cons n None nm om f -> i ∈ fl_flags f -> fl_items f !! i = Some x -> forall k,
  (if decide (k = XOROFF (fi_offset x)) then delete_first (Nat.eqb i) (items_at om f k) else items_at om f k) =
  delete_first (Nat.eqb i) (items_at om f k).
Proof.
  intros C Hi Hx k. case_decide as E; [done|]. symmetry. apply delete_first_id. intros Hin.
  destruct (items_at_elem _ _ _ _ _ C _ _ Hin) as (_ & y & Hy & Hk). rewrite Hx in Hy. injection Hy as <-. by apply E.
Qed.

(** What [r_flag_set] gives: the item has the name, the offset and the size;
    the other items stay as they are; the item is the last one of the list of its
    offset, unless it was there before, and in no other list. *)
Record set_flag (nm om : gmap Z nat) f (s : string) off size (i : nat) (nm' om' : gmap Z nat) f' : Prop := mk_set_flag {
  sf_name : nm' = <[r_str_hash64 (Some s) := i]> nm;
  sf_flags : fl_flags f' = fl_flags f ++ (if is_some (nm !! r_str_hash64 (Some s)) then [] else [i]);
  sf_item : exists x, fl_items f' !! i = Some x /\ fi_offset x = off /\ fi_size x = size /\
    fi_namehash x = r_str_hash64 (Some s);
  sf_others : forall j, j <> i -> j ∈ fl_flags f -> fl_items f' !! j = fl_items f !! j;
  sf_at : forall k, items_at om' f' k =
    if decide (offset_of nm f (r_str_hash64 (Some s)) = Some off) then items_at om f k
    else delete_first (Nat.eqb i) (items_at om f k) ++ (if decide (k = XOROFF off) then [i] else [])
}.

Section set.
Context (math : RFlag -> string -> Z) (n : Z) (nm om : gmap Z nat) (f : RFlag) (s : string) (off size : Z).
Hypothesis C : cons n None nm om f.
Hypothesis Hn : n + 1 < 2 ^ 30.
Hypothesis Hs : flag_name s.
Hypothesis Hoff : 0 <= off < 2 ^ 64.
Let h := r_str_hash64 (Some s).

Lemma run_set : r_flag_set math (Some s) off size f =
  match nm !! h with
  | Some i => x ← item_at i;
      if fi_offset x =? off then put_item i (set_fi_size size x) ;; mret (Some i)
      else remove_offsetmap i ;; place i off size ;; mret (Some i)
  | None =>
      let x := set_name s zero_item in
      i ← new_item x;
      name_insert (fi_namehash x) i ;;
      modify (fun f => set_flags (fl_flags f ++ [i]) f) ;;
      place i off size ;;
      mret (Some i)
  end f.
Proof.
  pose proof (run_r_flag_get _ _ _ _ _ C math (Some s)) as R. fold h in R. revert R. generalize (nm !! h). intros o R.
  unfold r_flag_set. destruct Hs as [Hne _]. destruct s as [|c s']; [done|]. rewrite run_bind, R. by destruct o.
Qed.

Lemma set_known i x : nm !! h = Some i -> fl_items f !! i = Some x ->
  exists nm' om' f', r_flag_set math (Some s) off size f = Ok (Some i) f' /\ cons (n + 2) None nm' om' f' /\
    same_settings f f' /\ set_flag nm om f s off size i nm' om' f'.
Proof.
  intros Hi Hx. destruct (cn_nm _ _ _ _ _ C _ _ Hi) as (Hf & y & Hy & Hyh). rewrite Hx in Hy. injection Hy as <-.
  assert (r_flag_set math (Some s) off size f =
    (if fi_offset x =? off then put_item i (set_fi_size size x) ;; mret (Some i)
     else remove_offsetmap i ;; place i off size ;; mret (Some i)) f) as ->.
  { by rewrite run_set, Hi, run_bind, (run_item_at f _ _ Hx). }
  assert (offset_of nm f (r_str_hash64 (Some s)) = Some (fi_offset x)) as Hof.
  { unfold offset_of. fold h. rewrite Hi. cbn. by rewrite Hx. }
  destruct (Z.eqb_spec (fi_offset x) off) as [E|E].
  - exists nm, om, (set_items (<[i := set_fi_size size x]> (fl_items f)) f).
    split; [by rewrite run_bind, run_put_item|]. split; [apply (cons_weaken n); [lia|]; by apply (cons_touch n None i nm om f x)|].
    split; [by unfold same_settings|]. constructor.
    + by rewrite insert_id.
    + fold h. rewrite Hi. cbn. by rewrite app_nil_r.
    + exists (set_fi_size size x). split; [apply lookup_insert_eq|done].
    + intros j Hj _. by apply lookup_insert_ne.
    + intros k. rewrite Hof, E, decide_True by done. done.
  - destruct (remove_offsetmap_ok n nm om f i x C Hf Hx) as (om1 & f1 & R1 & C1 & S1 & A1).
    pose proof S1 as (Ei & Ef & _ & _ & Es & _).
    destruct (place_ok n nm om1 f1 i x off size C1) as (om2 & f2 & R2 & C2 & S2 & I2 & A2);
      [by rewrite Ef|by rewrite Ei|lia|done|].
    exists nm, om2, f2. split; [by rewrite run_bind, R1, run_bind, R2|]. split; [apply (cons_weaken (n + 1)); [lia|done]|].
    split; [eapply same_settings_trans; [by apply same_but_offs_settings|by apply same_but_items_settings]|].
    constructor.
    + by rewrite insert_id.
    + fold h. rewrite Hi. cbn. rewrite app_nil_r. destruct S2 as (E2 & _). congruence.
    + exists (moved x off size (fl_space_idx f1)). rewrite I2, lookup_insert_eq. done.
    + intros j Hj _. rewrite I2, lookup_insert_ne, Ei by done. done.
    + intros k. rewrite Hof, decide_False by congruence. by rewrite A2, A1, (items_at_delete n nm om f i x).
Qed.

Lemma set_unknown : nm !! h = None ->
  exists i nm' om' f', r_flag_set math (Some s) off size f = Ok (Some i) f' /\ cons (n + 2) None nm' om' f' /\
    same_settings f f' /\ set_flag nm om f s off size i nm' om' f'.
Proof.
  intros Hi. set (i := fl_next f). set (x := set_name s zero_item).
  assert (x = mk_fi s (Some s) h 0 0 0 None None None) as Ex by (unfold x; by rewrite set_name_valid).
  set (g := set_items (<[i := x]> (fl_items f))
    (mk_flag (fl_base f) (fl_space_idx f) (fl_space_strict f) (fl_spaces f) (fl_ht_off f) (fl_ht_name f) (fl_flags f)
       (fl_spacestack f) (fl_zones f) (fl_items f) (fl_lists f) (fl_strs f) (S (fl_next f)))).
  destruct (run_name_insert n None nm om f g h i C Hi ltac:(lia) (r_str_hash64_range _) eq_refl) as (h' & R1 & M1).
  set (f1 := with_item_named f x h').
  assert (cons (n + 1) (Some i) (<[h := i]> nm) om f1) as C1.
  { assert (h = fi_namehash x) as Eh by (by rewrite Ex). rewrite Eh in Hi, M1 |- *.
    apply cons_new_item; try done; by rewrite Ex. }
  destruct (place_ok (n + 1) _ om f1 i x off size C1) as (om2 & f2 & R2 & C2 & S2 & I2 & A2);
    [set_solver|apply lookup_insert_eq|lia|done|].
  exists i, (<[h := i]> nm), om2, f2. split.
  { rewrite run_set, Hi. cbv zeta. fold x.
    rewrite run_bind. assert (new_item x f = Ok i g) as -> by done. rewrite run_bind.
    assert (fi_namehash x = h) as -> by (by rewrite Ex). rewrite R1, run_bind, run_modify, run_bind.
    change (set_flags _ _) with f1. by rewrite R2. }
  split; [by replace (n + 2) with (n + 1 + 1) by lia|].
  split; [apply (same_settings_trans f f1); [unfold same_settings; cbn; split_and!; done || lia|by apply same_but_items_settings]|].
  assert (offset_of nm f (r_str_hash64 (Some s)) = None) as Hof by (unfold offset_of; fold h; by rewrite Hi).
  constructor.
  - done.
  - fold h. rewrite Hi. cbn. by destruct S2 as (-> & _).
  - exists (moved x off size (fl_space_idx f1)). rewrite I2, lookup_insert_eq. by rewrite Ex.
  - intros j Hj _. rewrite I2, lookup_insert_ne by done. cbn. by rewrite lookup_insert_ne.
  - intros k. rewrite Hof, decide_False by done. rewrite A2. f_equal. symmetry. apply delete_first_id.
    intros Hin. destruct (items_at_elem _ _ _ _ _ C _ _ Hin) as (Hf & _). apply (cn_fresh _ _ _ _ _ C) in Hf. subst i. lia.
Qed.

Lemma set_ok : exists i nm' om' f', r_flag_set math (Some s) off size f = Ok (Some i) f' /\ cons (n + 2) None nm' om' f' /\
  same_settings f f' /\ set_flag nm om f s off size i nm' om' f'.
Proof.
  destruct (nm !! h) as [i|] eqn:E; [|by apply set_unknown]. destruct (cn_nm _ _ _ _ _ C _ _ E) as (_ & x & Hx & _).
  exists i. by apply (set_known i x).
Qed.
End set.

(** ** Unsetting a flag *)

Lemma run_name_remove n out nm om f g k i : cons n out nm om f -> nm !! k = Some i -> fl_ht_name g = fl_ht_name f ->
  exists h', name_remove k g = Ok tt (set_ht_name h' g) /\ models 64 h' (delete k nm).
Proof.
  intros C Hk Hg. destruct (cn_name _ _ _ _ _ C) as [W H].
  destruct (remove_has 64 w64 (fl_ht_name f) k i W) as (h' & Hrun & W' & _ & _ & _ & Hhas); [by apply H|].
  exists h'. split; [unfold name_remove, in_ht_name; by rewrite Hg, Hrun|]. split; [done|].
  intros k' d. rewrite lookup_delete_Some, Hhas, H. naive_solver.
Qed.

Lemma cons_unset n nm om f i x h' : cons n (Some i) nm om f -> i ∈ fl_flags f -> fl_items f !! i = Some x ->
  models 64 h' (delete (fi_namehash x) nm) ->
  cons n None (delete (fi_namehash x) nm) om
    (set_flags (delete_first (Nat.eqb i) (fl_flags f)) (set_ht_name h' f)).
Proof.
  intros [] Hi Hx Hm. destruct (cn_item0 i Hi) as (x' & Hx' & Hn & _). rewrite Hx in Hx'. injection Hx' as <-.
  constructor; cbn; try done.
  - destruct cn_size0. split; [|done]. pose proof (map_size_delete (fi_namehash x) nm) as Hsz. rewrite Hn in Hsz. cbn in Hsz. lia.
  - by apply delete_first_NoDup.
  - intros j [Hji Hj]%delete_first_elem; [|done]. destruct (cn_item0 j Hj) as (y & Hy & H1 & H2 & H3 & H4 & H5).
    exists y. split; [done|]. split; [|do 3 (split; [done|]); intros _; apply H5; congruence].
    rewrite lookup_delete_ne; [done|]. congruence.
  - intros h j [Hne Hj]%lookup_delete_Some. destruct (cn_nm0 h j Hj) as (Hf & y & Hy & Hyh). split; [|by eauto].
    apply delete_first_elem; [done|]. split; [|done]. intros ->. congruence.
  - intros k l Hk. destruct (cn_om0 k l Hk) as (js & H1 & H2 & H3 & H4). exists js. do 3 (split; [done|]).
    intros j Hj. destruct (H4 j Hj) as (Hne & Hf & ?). split; [done|]. split; [|done].
    apply delete_first_elem; [done|]. split; [congruence|done].
  - destruct cn_fresh0 as [Hfi Hfl]. split; [|done]. intros j [_ Hj]%delete_first_elem; [by apply Hfi|done].
Qed.

Lemma cons_free n nm om f i : cons n None nm om f -> i ∉ fl_flags f ->
  cons n None nm om (set_items (delete i (fl_items f)) f).
Proof.
  intros [] Hi. assert (forall j, j ∈ fl_flags f -> delete i (fl_items f) !! j = fl_items f !! j) as Hold.
  { intros j Hj. rewrite lookup_delete_ne; [done|]. by intros ->. }
  constructor; cbn; try done.
  - intros j Hj. destruct (cn_item0 j Hj) as (y & Hy & H). exists y. by rewrite Hold.
  - intros h j Hj. destruct (cn_nm0 h j Hj) as (Hf & y & Hy & Hyh). split; [done|]. exists y. by rewrite Hold.
  - intros k l Hk. destruct (cn_om0 k l Hk) as (js & H1 & H2 & H3 & H4). exists js. do 3 (split; [done|]).
    intros j Hj. destruct (H4 j Hj) as (Hne & Hf & y & Hy & Hyk). do 2 (split; [done|]). exists y. by rewrite Hold.
Qed.

(** What unsetting a flag gives: the flag is in no table and in no list. *)
Record unset_flag (nm om : gmap Z nat) f (i : nat) (x : RFlagItem) (nm' om' : gmap Z nat) f' : Prop := mk_unset_flag {
  uf_name : nm' = delete (fi_namehash x) nm;
  uf_flags : fl_flags f' = delete_first (Nat.eqb i) (fl_flags f);
  uf_items : fl_items f' = delete i (fl_items f);
  uf_at : forall k, items_at om' f' k = delete_first (Nat.eqb i) (items_at om f k)
}.

Lemma unset_and_free_ok n nm om f i x : cons n None nm om f -> i ∈ fl_flags f -> fl_items f !! i = Some x ->
  exists nm' om' f', unset_and_free (Some i) f = Ok true f' /\ cons n None nm' om' f' /\ same_settings f f' /\
    unset_flag nm om f i x nm' om' f'.
Proof.
  intros C Hi Hx. destruct (remove_offsetmap_ok n nm om f i x C Hi Hx) as (om1 & f1 & R1 & C1 & S1 & A1).
  pose proof S1 as (Ei & Ef & En & _ & _ & _ & _ & _ & _).
  destruct (cn_item _ _ _ _ _ C i Hi) as (x' & Hx' & Hnm & _). rewrite Hx in Hx'. injection Hx' as <-.
  destruct (run_name_remove n _ nm om1 f1 f1 (fi_namehash x) i C1 Hnm eq_refl) as (h' & R2 & M2).
  set (f2 := set_flags (delete_first (Nat.eqb i) (fl_flags f1)) (set_ht_name h' f1)).
  assert (cons n None (delete (fi_namehash x) nm) om1 f2) as C2.
  { apply cons_unset; [done|by rewrite Ef|by rewrite Ei|done]. }
  assert (i ∉ fl_flags f2) as Hnot.
  { cbn. intros [? _]%delete_first_elem; [done|]. rewrite Ef. apply (cn_nodup _ _ _ _ _ C). }
  exists (delete (fi_namehash x) nm), om1, (set_items (delete i (fl_items f2)) f2). split.
  { unfold unset_and_free, r_flag_unset. rewrite run_bind, run_bind, R1, run_bind.
    rewrite (run_item_at f1 i x) by (by rewrite Ei). rewrite run_bind, R2, run_bind, run_modify, run_ret.
    change (set_flags _ _) with f2. rewrite run_bind. unfold free_item. rewrite run_bind.
    rewrite (run_item_at f2 i x) by (cbn; by rewrite Ei). by rewrite run_modify. }
  split; [by apply cons_free|].
  split; [apply (same_settings_trans f f1); [by apply same_but_offs_settings|by unfold same_settings]|].
  constructor; [done| | |].
  - cbn. by rewrite Ef.
  - cbn. by rewrite Ei.
  - intros k. rewrite <- (items_at_delete n nm om f i x C Hi Hx k), <- A1. done.
Qed.

