(* ===== verification/FlagFacts.v ===== *)
(** * What holds of the flags

    The operations of [libr/flag] keep the agreement of [FlagTables] as long as
    the base is 0, no item is an alias, names are not changed and offsets are
    changed by [r_flag_set] only ([flags_never_dangle]); lemmas at the end
    show that each of these conditions is needed.  Looking up the nearest flag,
    sorting and the zones around an address do what they mean to. *)

From Stdlib Require Import Sorted.
From S2P Require Import Prelude HashTable HashTableFacts Names Flags FlagTables.

(** ** Looking flags up *)

Section reads.
Context (math : RFlag -> string -> Z) (n : Z) (nm om : gmap Z nat) (f : RFlag).
Hypothesis C : cons n None nm om f.

(** Every item of a list that the flags hold can be read. *)
Definition held (l : list nat) : Prop := forall i, i ∈ l -> i ∈ fl_flags f.

Lemma held_cons i l : held (i :: l) -> held l /\ exists x, fl_items f !! i = Some x /\ item_at i f = Ok x f.
Proof.
  intros H. split; [intros j Hj; apply H; by right|].
  destruct (cons_item _ _ _ _ _ C i) as (x & Hx & R & _); [apply H; by left|by exists x].
Qed.

Lemma listed off : off_lookup (XOROFF off) f = Ok None f \/
  exists l js, off_lookup (XOROFF off) f = Ok (Some l) f /\ list_at l f = Ok js f /\ held js.
Proof.
  rewrite (run_off_lookup _ _ _ _ _ C). destruct (om !! XOROFF off) as [l|] eqn:E; [right|by left].
  destruct (cn_om _ _ _ _ _ C _ _ E) as (js & Hl & _ & _ & H). exists l, js. split; [done|].
  split; [by apply run_list_at|]. intros i Hi. by apply H.
Qed.

Lemma run_foreach {B} (body : nat -> M RFlag (option B)) l :
  (forall i, i ∈ l -> exists r, body i f = Ok r f) -> exists r, foreach l body f = Ok r f.
Proof.
  induction l as [|i l IH]; intros H; [by exists None|]. cbn [foreach].
  destruct (H i) as [r R]; [by left|]. rewrite run_bind, R. destruct r as [b|]; [by exists (Some b)|].
  apply IH. intros j Hj. apply H. by right.
Qed.

Lemma run_exist_at p k off : exists b, r_flag_exist_at p k off f = Ok b f.
Proof.
  unfold r_flag_exist_at. rewrite run_bind. destruct (listed off) as [->|(l & js & -> & Rl & H)]; [by exists false|].
  rewrite run_bind, Rl, run_bind.
  destruct (run_foreach (fun i => x ← item_at i; mret (if strncmp_eq (fi_name x) p k then Some tt else None)) js)
    as [r R]; [|rewrite R; by eexists].
  intros i Hi. destruct (cons_item _ _ _ _ _ C i (H i Hi)) as (x & _ & Rx & _). rewrite run_bind, Rx. by eexists.
Qed.

Lemma run_get_i2_walk l o : held l -> (forall i, o = Some i -> i ∈ fl_flags f) ->
  exists r, get_i2_walk l o f = Ok r f /\ forall i, r = Some i -> i ∈ fl_flags f.
Proof.
  revert o. induction l as [|i l IH]; intros o H Ho; [by exists o|]. cbn [get_i2_walk].
  destruct (held_cons _ _ H) as (H' & x & _ & Rx). rewrite run_bind, Rx. cbv zeta.
  assert (forall j, Some i = Some j -> j ∈ fl_flags f) as Hi by (intros j [= <-]; apply H; by left).
  case_match; [by apply IH|]. case_match; [by exists (Some i)|by apply IH].
Qed.

Lemma run_get_i2 off : exists r, r_flag_get_i2 math off f = Ok r f.
Proof.
  unfold r_flag_get_i2. rewrite run_bind. destruct (listed off) as [->|(l & js & -> & Rl & H)]; [by exists None|].
  rewrite run_bind, Rl, run_bind. destruct (run_get_i2_walk js None H ltac:(done)) as (r & -> & Hr).
  exists r. destruct r as [i|]; [by apply (run_evalFlag _ _ _ _ _ C), Hr|done].
Qed.

(** *** The nearest flag *)

(** What [r_flag_get_at] considers. *)
Definition visible (x : RFlagItem) : bool := negb (fl_space_strict f && IS_IN_SPACE f x).

(** [r] is the last visible flag of a list at the offset or before it. *)
Definition nearest off (l : list nat) (r : option nat) : Prop :=
  match r with
  | Some i => i ∈ l /\ exists x, fl_items f !! i = Some x /\ visible x = true /\ fi_offset x <= off /\
      forall j y, j ∈ l -> fl_items f !! j = Some y -> visible y = true -> fi_offset y <= off -> fi_offset y <= fi_offset x
  | None => forall j y, j ∈ l -> fl_items f !! j = Some y -> visible y = true -> off < fi_offset y
  end.

Lemma nearest_snoc_skip off l i x r : fl_items f !! i = Some x -> visible x = false \/ off < fi_offset x ->
  nearest off l r -> nearest off (l ++ [i]) r.
Proof.
  intros Hx Hv. unfold nearest. destruct r as [j|].
  - intros (Hj & y & Hy & Hvy & Hle & Hmax). split; [set_solver|]. exists y. do 3 (split; [done|]).
    intros k z [Hk| ->%list_elem_of_singleton]%elem_of_app Hz Hvz Hlz; [by apply (Hmax k z)|].
    rewrite Hx in Hz. injection Hz as <-. destruct Hv; [congruence|lia].
  - intros Hall k z [Hk| ->%list_elem_of_singleton]%elem_of_app Hz Hvz; [by apply (Hall k z)|].
    rewrite Hx in Hz. injection Hz as <-. destruct Hv; [congruence|lia].
Qed.

Lemma nearest_snoc_take off l i x r : fl_items f !! i = Some x -> visible x = true -> fi_offset x <= off ->
  nearest off l r -> (forall j y, r = Some j -> fl_items f !! j = Some y -> fi_offset y <= fi_offset x) ->
  nearest off (l ++ [i]) (Some i).
Proof.
  intros Hx Hv Hle Hr Hgt. split; [set_solver|]. exists x. do 3 (split; [done|]).
  intros k z [Hk| ->%list_elem_of_singleton]%elem_of_app Hz Hvz Hlz; [|rewrite Hx in Hz; injection Hz as <-; lia].
  destruct r as [j|]; cbn in Hr.
  - destruct Hr as (_ & y & Hy & _ & _ & Hmax). specialize (Hgt j y eq_refl Hy). specialize (Hmax k z Hk Hz Hvz Hlz). lia.
  - specialize (Hr k z Hk Hz Hvz). lia.
Qed.

Lemma run_get_at_walk off l : forall dn o, held dn -> held l -> nearest off dn o ->
  (forall j y, o = Some j -> fl_items f !! j = Some y -> fi_offset y < off) ->
  exists r, get_at_walk off l o f = Ok r f /\ nearest off (dn ++ l) r.
Proof.
  induction l as [|i l IH]; intros dn o Hd H Ho Hlt; [exists o; by rewrite app_nil_r|].
  cbn [get_at_walk]. destruct (held_cons _ _ H) as (H' & x & Hx & Rx).
  assert (held (dn ++ [i])) as Hd'.
  { intros j [Hj| ->%list_elem_of_singleton]%elem_of_app; [by apply Hd|apply H; by left]. }
  rewrite run_bind, run_gets. cbv beta iota. unfold id. rewrite run_bind, Rx.
  change (dn ++ i :: l) with (dn ++ [i] ++ l). rewrite app_assoc.
  destruct (fl_space_strict f && IS_IN_SPACE f x) eqn:Ev.
  { apply IH; try done. apply (nearest_snoc_skip _ _ _ x); [done|left; unfold visible; by rewrite Ev|done]. }
  assert (visible x = true) as Hvis by (unfold visible; by rewrite Ev).
  destruct (Z.eqb_spec (fi_offset x) off) as [E|E].
  { exists (Some i). split; [done|]. split; [set_solver|]. exists x. do 2 (split; [done|]). split; [lia|]. intros. lia. }
  destruct (Z.ltb_spec (fi_offset x) off) as [L|L].
  - destruct o as [m|].
    + pose proof Ho as (Hm & y & Hy & Hvy & Hly & _). pose proof (run_item_at f _ _ Hy) as Ry.
      rewrite run_bind, Ry. destruct (Z.ltb_spec (fi_offset y) (fi_offset x)).
      * apply IH; [done|done| |].
        -- apply (nearest_snoc_take _ _ _ x (Some m)); try done; [lia|]. intros j z [= <-] Hz. rewrite Hy in Hz. injection Hz as <-. lia.
        -- intros j z [= <-] Hz. rewrite Hx in Hz. by injection Hz as <-.
      * apply IH; [done|done| |done]. split; [set_solver|]. exists y. do 3 (split; [done|]).
        intros k z [Hk| ->%list_elem_of_singleton]%elem_of_app Hz Hvz Hlz; [|rewrite Hx in Hz; injection Hz as <-; lia].
        destruct Ho as (_ & y' & Hy' & _ & _ & Hmax). rewrite Hy in Hy'. injection Hy' as <-. by apply (Hmax k z).
    + apply IH; [done|done| |].
      * apply (nearest_snoc_take _ _ _ x None); try done. lia.
      * intros j z [= <-] Hz. rewrite Hx in Hz. by injection Hz as <-.
  - apply IH; try done. apply (nearest_snoc_skip _ _ _ x); [done|right; lia|done].
Qed.

Lemma run_get_at off : exists r, r_flag_get_at math off f = Ok r f /\ nearest off (fl_flags f) r.
Proof.
  unfold r_flag_get_at. rewrite run_bind, run_gets. cbv beta iota.
  destruct (run_get_at_walk off (fl_flags f) [] None) as (r & R & H);
    [by intros i ?%elem_of_nil|by intros i|by intros j y ?%elem_of_nil|done|].
  rewrite run_bind, R. exists r. split; [|done]. destruct r as [i|]; [|done].
  apply (run_evalFlag _ _ _ _ _ C). by destruct H.
Qed.
End reads.

(** ** Patterns and counting *)

Lemma run_glob_flag x glob f : exists b, glob_flag x glob f = Ok b f.
Proof.
  unfold glob_flag, r_str_glob. destruct glob as [g|]; [|by exists true].
  destruct (String.eqb g "*"); [by exists true|]. rewrite glob_head_ok. by eexists.
Qed.

Lemma run_count_walk n nm om f glob l m : cons n None nm om f -> held f l -> exists r, count_walk glob l m f = Ok r f.
Proof.
  intros C. revert m. induction l as [|i l IH]; intros m H; [by exists m|].
  destruct (held_cons _ _ _ _ C _ _ H) as (H' & x & _ & Rx). cbn [count_walk]. rewrite run_bind, Rx, run_bind.
  destruct (run_glob_flag x glob f) as [b ->]. by apply IH.
Qed.

Lemma run_unset_glob_walk n glob l : forall nm om f m, cons n None nm om f -> NoDup l -> held f l ->
  exists r nm' om' f', unset_glob_walk glob l m f = Ok r f' /\ cons n None nm' om' f' /\ same_settings f f'.
Proof.
  induction l as [|i l IH]; intros nm om f m C Hnd H.
  { exists m, nm, om, f. split; [done|]. split; [done|]. by unfold same_settings. }
  destruct (held_cons _ _ _ _ C _ _ H) as (H' & x & Hx & Rx). apply NoDup_cons in Hnd as [Hi Hnd].
  cbn [unset_glob_walk]. rewrite run_bind, run_gets. cbv beta iota. unfold id. rewrite run_bind, Rx.
  destruct (IS_IN_SPACE f x); [by apply (IH nm om)|]. rewrite run_bind. destruct (run_glob_flag x glob f) as [b ->].
  destruct b; [|by apply (IH nm om)].
  destruct (unset_and_free_ok n nm om f i x C) as (nm1 & om1 & f1 & R1 & C1 & S1 & [_ Ef _ _]); [apply H; by left|done|].
  destruct (IH nm1 om1 f1 (m + 1) C1 Hnd) as (r & nm2 & om2 & f2 & R2 & C2 & S2).
  { intros j Hj. rewrite Ef. apply delete_first_elem; [apply (cn_nodup _ _ _ _ _ C)|]. split; [by intros ->|by apply H']. }
  exists r, nm2, om2, f2. rewrite run_bind, R1. split; [done|]. split; [done|]. by eapply same_settings_trans.
Qed.

(** ** Sorting *)

Section sort.
Context (namesort : bool) (f : RFlag).
Let c (x y : RFlagItem) : Z := if namesort then ncmp x y else cmp x y.
Definition item_le (i j : nat) : Prop :=
  exists x y, fl_items f !! i = Some x /\ fl_items f !! j = Some y /\ c x y <= 0.

Lemma strcmp_antisym a b : 0 < strcmp a b -> strcmp b a <= 0.
Proof.
  revert b. induction a as [|d a IH]; intros [|e b]; simpl; try lia.
  rewrite (Z.eqb_sym (code e)). destruct (Z.eqb_spec (code d) (code e)); [apply IH|].
  destruct (Z.ltb_spec (code d) (code e)), (Z.ltb_spec (code e) (code d)); lia.
Qed.

Lemma strcmp_trans a b d : strcmp a b <= 0 -> strcmp b d <= 0 -> strcmp a d <= 0.
Proof.
  revert b d. induction a as [|x a IH]; intros [|y b] [|z d]; simpl; try lia.
  destruct (Z.eqb_spec (code x) (code y)) as [->|], (Z.eqb_spec (code y) (code z)) as [E|]; rewrite ?E.
  - rewrite ?Z.eqb_refl. apply IH.
  - destruct (Z.eqb_spec (code y) (code z)); [done|]. intros _. done.
  - destruct (Z.eqb_spec (code x) (code z)); [congruence|]. rewrite <- E. by intros ? _.
  - destruct (Z.ltb_spec (code x) (code y)), (Z.ltb_spec (code y) (code z)); try lia.
    destruct (Z.eqb_spec (code x) (code z)); [lia|]. destruct (Z.ltb_spec (code x) (code z)); lia.
Qed.

Lemma c_antisym x y : 0 < c x y -> c y x <= 0.
Proof.
  unfold c, ncmp, cmp. destruct namesort; [apply strcmp_antisym|].
  destruct (Z.ltb_spec (fi_offset y) (fi_offset x)), (Z.ltb_spec (fi_offset x) (fi_offset y)); lia.
Qed.

Lemma c_trans x y z : c x y <= 0 -> c y z <= 0 -> c x z <= 0.
Proof.
  unfold c, ncmp, cmp. destruct namesort; [apply strcmp_trans|].
  destruct (Z.ltb_spec (fi_offset y) (fi_offset x)), (Z.ltb_spec (fi_offset x) (fi_offset y)),
    (Z.ltb_spec (fi_offset z) (fi_offset y)), (Z.ltb_spec (fi_offset y) (fi_offset z)),
    (Z.ltb_spec (fi_offset z) (fi_offset x)), (Z.ltb_spec (fi_offset x) (fi_offset z)); lia.
Qed.

Lemma c_refl x : c x x <= 0.
Proof. destruct (Z.leb_spec (c x x) 0); [done|]. by apply c_antisym. Qed.

Definition readable (l : list nat) : Prop := forall i, i ∈ l -> is_Some (fl_items f !! i).

Lemma least_item_ok l : forall m, readable (m :: l) ->
  exists r, least_item namesort l (Some m) f = Ok (Some r) f /\ r ∈ m :: l /\ forall j, j ∈ m :: l -> item_le r j.
Proof.
  induction l as [|i l IH]; intros m H.
  { exists m. split; [done|]. split; [by left|]. intros j ->%list_elem_of_singleton.
    destruct (H m) as [x Hx]; [by left|]. exists x, x. split; [done|]. split; [done|]. apply c_refl. }
  destruct (H m) as [x Hx]; [by left|]. destruct (H i) as [y Hy]; [by right; left|].
  assert (Hrun : least_item namesort (i :: l) (Some m) f =
    least_item namesort l (if 0 <? c x y then Some i else Some m) f).
  { cbn [least_item]. by rewrite run_bind, (run_item_at f _ _ Hx), run_bind, (run_item_at f _ _ Hy). }
  rewrite Hrun. destruct (Z.ltb_spec 0 (c x y)) as [Hlt|Hle].
  - destruct (IH i) as (r & R & Hr & Hmin); [intros j Hj; apply H; set_solver|]. exists r. split; [done|]. split; [set_solver|].
    intros j [->|Hj]%elem_of_cons; [|by apply Hmin]. destruct (Hmin i) as (z & y' & Hz & Hy' & Hzy); [by left|].
    rewrite Hy in Hy'. injection Hy' as <-. exists z, x. split; [done|]. split; [done|].
    eapply c_trans; [exact Hzy|by apply c_antisym].
  - destruct (IH m) as (r & R & Hr & Hmin); [intros j Hj; apply H; set_solver|]. exists r. split; [done|]. split; [set_solver|].
    intros j Hj. destruct (decide (j = i)) as [->|]; [|apply Hmin; set_solver].
    destruct (Hmin m) as (z & x' & Hz & Hx' & Hzx); [by left|]. rewrite Hx in Hx'. injection Hx' as <-.
    exists z, y. split; [done|]. split; [done|]. by eapply c_trans.
Qed.

Lemma delete_first_Permutation (l : list nat) i : i ∈ l -> i :: delete_first (Nat.eqb i) l ≡ₚ l.
Proof.
  induction l as [|j l IH]; [by intros ?%elem_of_nil|]. cbn [delete_first].
  destruct (Nat.eqb_spec i j) as [->|Hne]; [done|]. intros [->|Hi]%elem_of_cons; [done|].
  rewrite Permutation_swap. by f_equiv; apply IH.
Qed.

Lemma StronglySorted_snoc (l : list nat) r : StronglySorted item_le l -> (forall i, i ∈ l -> item_le i r) ->
  StronglySorted item_le (l ++ [r]).
Proof.
  induction 1 as [|i l Hs IH Hf]; intros H; [by repeat constructor|]. simpl. constructor.
  - apply IH. intros j Hj. apply H. by right.
  - apply Forall_app. split; [done|]. constructor; [apply H; by left|constructor].
Qed.

Lemma sort_turns_ok k : forall l tmp ret, length l = k -> readable l ->
  (forall i j, i ∈ tmp -> j ∈ l -> item_le i j) -> StronglySorted item_le tmp ->
  exists l', sort_turns k namesort l tmp ret f = Ok (tmp ++ l', ret || negb (bool_decide (l = []))) f /\
    l' ≡ₚ l /\ StronglySorted item_le (tmp ++ l').
Proof.
  induction k as [|k IH]; intros l tmp ret Hlen H Hlow Hsort.
  { destruct l; [|done]. exists []. rewrite app_nil_r. cbn. by rewrite orb_false_r. }
  destruct l as [|m l]; [done|]. destruct (least_item_ok l m H) as (r & R & Hr & Hmin).
  pose proof (delete_first_Permutation _ _ Hr) as Hp.
  assert (forall j, j ∈ delete_first (Nat.eqb r) (m :: l) -> j ∈ m :: l) as Hsub.
  { intros j Hj. rewrite <- Hp. by right. }
  destruct (IH (delete_first (Nat.eqb r) (m :: l)) (tmp ++ [r]) true) as (l' & R' & Hp' & Hs').
  { apply Permutation_length in Hp. cbn in Hp, Hlen |- *. lia. }
  { intros j Hj. by apply H, Hsub. }
  { intros i j [Hi| ->%list_elem_of_singleton]%elem_of_app Hj; [apply Hlow; [done|by apply Hsub]|by apply Hmin, Hsub]. }
  { apply StronglySorted_snoc; [done|]. intros i Hi. by apply Hlow. }
  exists (r :: l'). split; [|split; [by rewrite Hp'|]].
  - cbn [sort_turns]. rewrite run_bind. change (least_item namesort (m :: l) None) with (least_item namesort l (Some m)).
    rewrite R, R', <- app_assoc. cbn. by rewrite orb_true_r.
  - by rewrite <- app_assoc in Hs'.
Qed.

Lemma run_sort : readable (fl_flags f) -> exists l', r_flag_sort namesort f = Ok (negb (bool_decide (fl_flags f = []))) (set_flags l' f) /\
  l' ≡ₚ fl_flags f /\ StronglySorted item_le l'.
Proof.
  intros H. destruct (sort_turns_ok _ (fl_flags f) [] false eq_refl H) as (l' & R & Hp & Hs);
    [by intros i j ?%elem_of_nil|constructor|].
  exists l'. unfold r_flag_sort. rewrite run_bind, run_gets. cbv beta iota. rewrite run_bind, R. done.
Qed.
End sort.

(** ** Spaces *)

(** The names of the spaces are allocated, each its own, and the selected space is one. *)
Record spaces_ok (f : RFlag) : Prop := mk_spaces_ok {
  so_some : forall p a, fl_spaces f !! p = Some (Some a) -> (a < fl_next f)%nat /\ is_Some (fl_strs f !! a);
  so_inj : forall p q a, fl_spaces f !! p = Some (Some a) -> fl_spaces f !! q = Some (Some a) -> p = q;
  so_idx : fl_space_idx f = -1 \/ 0 <= fl_space_idx f /\ exists a, fl_spaces f !! Z.to_nat (fl_space_idx f) = Some (Some a)
}.

Definition flags_ok (n : Z) f : Prop := (exists nm om, cons n None nm om f) /\ spaces_ok f.

Lemma spaces_ok_settings f f' : same_settings f f' -> spaces_ok f -> spaces_ok f'.
Proof.
  intros (_ & E1 & _ & E2 & E3 & E4) [H1 H2 H3]. constructor; rewrite ?E1, ?E2, ?E3; try done.
  intros p a Hp. destruct (H1 p a Hp). split; [lia|done].
Qed.

Lemma flags_ok_settings n m f f' : (exists nm om, cons m None nm om f') -> same_settings f f' -> flags_ok n f -> flags_ok m f'.
Proof. intros H S [_ Hs]. split; [done|]. by eapply spaces_ok_settings. Qed.

(** What the handling of spaces leaves alone. *)
Definition same_tables f f' : Prop :=
  fl_base f' = fl_base f /\ fl_flags f' = fl_flags f /\ fl_ht_off f' = fl_ht_off f /\ fl_ht_name f' = fl_ht_name f /\
  fl_items f' = fl_items f /\ fl_lists f' = fl_lists f /\ (fl_next f <= fl_next f')%nat.

Lemma cons_tables n out nm om f f' : same_tables f f' -> cons n out nm om f -> cons n out nm om f'.
Proof.
  intros (E1 & E2 & E3 & E4 & E5 & E6 & E7) []. constructor; rewrite ?E1, ?E2, ?E3, ?E4, ?E5, ?E6; try done.
  destruct cn_fresh as [H1 H2]. split; [intros i Hi; apply H1 in Hi; lia|intros k l Hk; apply H2 in Hk; lia].
Qed.

Lemma run_find_named name f l : (forall a, Some a ∈ l -> is_Some (fl_strs f !! a)) -> forall i,
  exists r, find_named name i l f = Ok r f /\
    forall j, r = Some j -> i <= j /\ exists a, l !! Z.to_nat (j - i) = Some (Some a).
Proof.
  induction l as [|o l IH]; intros H i; [by exists None|]. cbn [find_named].
  assert (exists b, named name o f = Ok b f /\ (b = true -> is_Some o)) as (b & R & Hb).
  { destruct o as [a|]; [|by exists false]. destruct (H a) as [s Hs]; [by left|]. unfold named, str_at.
    rewrite run_bind, run_bind, run_gets, Hs. by eexists. }
  rewrite run_bind, R. destruct b.
  - exists (Some i). split; [done|]. intros j [= <-]. split; [lia|]. rewrite Z.sub_diag.
    destruct (Hb eq_refl) as [a ->]. by exists a.
  - destruct (IH ltac:(intros a Ha; apply H; by right) (i + 1)) as (r & -> & Hr). exists r. split; [done|].
    intros j Hj. destruct (Hr j Hj) as (Hle & a & Ha). split; [lia|]. exists a.
    replace (Z.to_nat (j - i)) with (S (Z.to_nat (j - (i + 1)))) by lia. done.
Qed.

Lemma run_find_space name f : spaces_ok f -> exists r, find_space name f = Ok r f /\
  forall j, r = Some j -> 0 <= j /\ exists a, fl_spaces f !! Z.to_nat j = Some (Some a).
Proof.
  intros [H _ _]. unfold find_space. rewrite run_bind, run_gets.
  destruct (run_find_named name f (fl_spaces f)) with (i := 0) as (r & R & Hr).
  { intros a [p Hp]%list_elem_of_lookup. by apply (H p a). }
  exists r. split; [done|]. intros j Hj. destruct (Hr j Hj) as (Hle & a & Ha). rewrite Z.sub_0_r in Ha. eauto.
Qed.

Lemma find_empty_bounds l i j : find_empty i l = Some j -> i <= j /\ l !! Z.to_nat (j - i) = Some None.
Proof.
  revert i. induction l as [|[a|] l IH]; intros i; cbn [find_empty]; [done| |].
  - intros H. destruct (IH _ H) as [Hle Hl]. split; [lia|].
    by replace (Z.to_nat (j - i)) with (S (Z.to_nat (j - (i + 1)))) by lia.
  - intros [= <-]. split; [lia|]. by rewrite Z.sub_diag.
Qed.

(** Putting a new name at a place, the name that was there being freed before. *)
Definition with_space f (i : Z) (name : string) (strs : gmap nat string) : RFlag :=
  mk_flag (fl_base f) (fl_space_idx f) (fl_space_strict f) (<[Z.to_nat i := Some (fl_next f)]> (fl_spaces f)) (fl_ht_off f)
    (fl_ht_name f) (fl_flags f) (fl_spacestack f) (fl_zones f) (fl_items f) (fl_lists f) (<[fl_next f := name]> strs)
    (S (fl_next f)).

Lemma with_space_ok f i name strs : spaces_ok f -> (Z.to_nat i < length (fl_spaces f))%nat ->
  (forall a p, p <> Z.to_nat i -> fl_spaces f !! p = Some (Some a) -> strs !! a = fl_strs f !! a) ->
  spaces_ok (with_space f i name strs).
Proof.
  intros [H1 H2 H3] Hi Hs. constructor; cbn.
  - intros p a [(<- & [= <-] & _)|[Hne Hp]]%list_lookup_insert_Some; [rewrite lookup_insert_eq; split; [lia|done]|].
    destruct (H1 p a Hp) as [Hlt Hstr]. rewrite lookup_insert_ne, (Hs a p) by (done || lia). split; [lia|done].
  - intros p q a Hp Hq.
    apply list_lookup_insert_Some in Hp as [(<- & Ea & _)|[Hp1 Hp2]], Hq as [(<- & Eb & _)|[Hq1 Hq2]]; [done| | |by apply (H2 _ _ a)].
    + injection Ea as <-. apply H1 in Hq2 as [? _]. lia.
    + injection Eb as <-. apply H1 in Hp2 as [? _]. lia.
  - destruct H3 as [H3|(H3 & a & Ha)]; [by left|right]. split; [done|]. destruct (decide (Z.to_nat i = Z.to_nat (fl_space_idx f))) as [E|E].
    + exists (fl_next f). rewrite E, list_lookup_insert, decide_True; [done|]. rewrite <- E. done.
    + exists a. by rewrite list_lookup_insert_ne.
Qed.

Lemma select_ok f i : spaces_ok f -> i = -1 \/ 0 <= i /\ (exists a, fl_spaces f !! Z.to_nat i = Some (Some a)) ->
  spaces_ok (set_space_idx i f).
Proof. intros [H1 H2 _] Hi. by constructor. Qed.

Lemma run_space_set name n f : flags_ok n f -> exists r f', r_flag_space_set name f = Ok r f' /\ flags_ok n f'.
Proof.
  intros [(nm & om & C) S].
  assert (forall i, i = -1 \/ 0 <= i /\ (exists a, fl_spaces f !! Z.to_nat i = Some (Some a)) ->
    exists r f', (select i ;; mret i) f = Ok r f' /\ flags_ok n f') as Hsel.
  { intros i Hi. do 2 eexists. split; [done|]. split; [|by apply select_ok]. exists nm, om. by apply (cons_tables _ _ _ _ f). }
  assert (forall s, exists r f',
    (i ← find_space s;
     match i with
     | Some i => select i ;; mret i
     | None =>
         l ← gets fl_spaces;
         match find_empty 0 l with
         | Some i => a ← new_str s; put_space i (Some a) ;; select i
         | None => mret tt
         end ;;
         gets fl_space_idx
     end) f = Ok r f' /\ flags_ok n f') as Hs.
  { intros s. rewrite run_bind. destruct (run_find_space s f S) as (r & R & Hr). rewrite R. destruct r as [i|].
    - apply Hsel. right. by apply Hr.
    - rewrite run_bind, run_gets. destruct (find_empty 0 (fl_spaces f)) as [i|] eqn:E.
      + destruct (find_empty_bounds _ _ _ E) as [Hle Hl]. rewrite Z.sub_0_r in Hl. do 2 eexists. split; [done|].
        pose proof (lookup_lt_Some _ _ _ Hl) as Hlen. split.
        * exists nm, om. apply (cons_tables _ _ _ _ f); [|done]. unfold same_tables. cbn. split_and!; done || lia.
        * apply (select_ok (with_space f i s (fl_strs f))); [by apply with_space_ok|]. right. split; [done|].
          exists (fl_next f). cbn. by rewrite list_lookup_insert, decide_True.
      + do 2 eexists. split; [done|]. split; [by exists nm, om|done]. }
  unfold r_flag_space_set. destruct name as [[|c s]|]; [apply Hs| |apply Hsel; by left].
  destruct c as [[] [] [] [] [] [] [] []]; try apply Hs. apply Hsel. by left.
Qed.

Definition same_spaces f f' : Prop :=
  fl_flags f' = fl_flags f /\ fl_spaces f' = fl_spaces f /\ fl_strs f' = fl_strs f /\ fl_next f' = fl_next f /\
  fl_space_idx f' = fl_space_idx f.

Lemma run_leave_space k n nm om l : forall f, cons n None nm om f -> held f l ->
  exists f', leave_space k l f = Ok tt f' /\ cons n None nm om f' /\ same_spaces f f'.
Proof.
  induction l as [|i l IH]; intros f C H; [by exists f|]. cbn [leave_space].
  destruct (held_cons _ _ _ _ C _ _ H) as (H' & x & Hx & Rx). rewrite run_bind, Rx, run_bind.
  destruct (fi_space x =? k); [|by apply IH]. rewrite run_put_item.
  destruct (IH (set_items (<[i := set_fi_space (-1) x]> (fl_items f)) f)) as (f' & R & C' & S'); [|done|by exists f'].
  by apply (cons_touch n None i nm om f x).
Qed.

Lemma run_str_at a s f : fl_strs f !! a = Some s -> str_at a f = Ok s f.
Proof. intros H. unfold str_at. by rewrite run_bind, run_gets, H. Qed.

Lemma run_free_str a f : is_Some (fl_strs f !! a) -> free_str a f = Ok tt (set_strs (delete a (fl_strs f)) f).
Proof. intros [s Hs]. unfold free_str. by rewrite run_bind, (run_str_at _ _ _ Hs), run_modify. Qed.

Lemma run_named name a f : is_Some (fl_strs f !! a) -> exists b, named name (Some a) f = Ok b f.
Proof. intros [s Hs]. unfold named. rewrite run_bind, (run_str_at _ _ _ Hs). by eexists. Qed.

(** The state after a space is given up. *)
Definition without_space f (i : Z) (a : nat) : RFlag :=
  set_spaces (<[Z.to_nat i := None]> (fl_spaces f))
    (set_strs (delete a (fl_strs f)) (if fl_space_idx f =? i then set_space_idx (-1) f else f)).

Lemma without_space_ok f i a : 0 <= i -> fl_spaces f !! Z.to_nat i = Some (Some a) -> spaces_ok f ->
  spaces_ok (without_space f i a).
Proof.
  intros Hi Ha [H1 H2 H3]. unfold without_space.
  assert (forall p b, <[Z.to_nat i := None]> (fl_spaces f) !! p = Some (Some b) ->
    p <> Z.to_nat i /\ fl_spaces f !! p = Some (Some b)) as Hsub.
  { intros p b [(_ & ? & _)|[? ?]]%list_lookup_insert_Some; done. }
  constructor.
  - intros p b Hp. assert (<[Z.to_nat i := None]> (fl_spaces f) !! p = Some (Some b)) as [Hne Hb]%Hsub by (by destruct (_ =? _)).
    destruct (H1 p b Hb) as [Hlt Hstr].
    assert (a <> b) as Hab by (intros ->; apply Hne; by apply (H2 _ _ b)).
    destruct (fl_space_idx f =? i); cbn; by rewrite lookup_delete_ne.
  - intros p q b Hp Hq.
    assert (<[Z.to_nat i := None]> (fl_spaces f) !! p = Some (Some b)) as [_ Hp']%Hsub by (by destruct (_ =? _)).
    assert (<[Z.to_nat i := None]> (fl_spaces f) !! q = Some (Some b)) as [_ Hq']%Hsub by (by destruct (_ =? _)).
    by apply (H2 _ _ b).
  - destruct (Z.eqb_spec (fl_space_idx f) i); cbn; [by left|]. destruct H3 as [H3|(H3 & b & Hb)]; [by left|right].
    split; [done|]. exists b. rewrite list_lookup_insert_ne; [done|lia].
Qed.

Lemma run_unset_spaces n fs l : forall i f m, flags_ok n f -> 0 <= i -> drop (Z.to_nat i) (fl_spaces f) = l ->
  exists r f', unset_spaces fs i l m f = Ok r f' /\ flags_ok n f'.
Proof.
  induction l as [|o l IH]; intros i f m [(nm & om & C) S] Hi Hl.
  { exists m, f. split; [done|]. split; [by exists nm, om|done]. }
  assert (fl_spaces f !! Z.to_nat i = Some o) as Ho.
  { rewrite <- (Nat.add_0_r (Z.to_nat i)), <- lookup_drop, Hl. done. }
  assert (Z.to_nat (i + 1) = Datatypes.S (Z.to_nat i)) as Ei by lia.
  assert (drop (Z.to_nat (i + 1)) (fl_spaces f) = l) as Hl'.
  { rewrite Ei, <- Nat.add_1_r, <- drop_drop, Hl. done. }
  assert (forall m, exists r f', unset_spaces fs (i + 1) l m f = Ok r f' /\ flags_ok n f') as Hskip.
  { intros m'. apply IH; [split; [by exists nm, om|done]|lia|done]. }
  cbn [unset_spaces]. destruct o as [a|]; [|apply Hskip]. destruct (so_some _ S _ _ Ho) as [_ Hstr].
  assert (exists b : bool, match fs with None => mret true | Some fs => named fs (Some a) end f = Ok b f) as [b Rb].
  { destruct fs as [fs|]; [by apply run_named|by exists true]. }
  rewrite run_bind, Rb. destruct b; [|apply Hskip].
  set (g := without_space f i a).
  assert (cons n None nm om g) as Cg.
  { apply (cons_tables _ _ _ _ f); [|done]. unfold g, without_space, same_tables. by destruct (_ =? _). }
  assert (fl_flags g = fl_flags f) as Eg by (unfold g, without_space; by destruct (_ =? _)).
  destruct (run_leave_space i n nm om (fl_flags f) g Cg) as (f2 & R2 & C2 & (_ & E1 & E2 & E3 & E4)).
  { intros j Hj. by rewrite Eg. }
  assert (spaces_ok f2) as S2.
  { destruct (without_space_ok f i a Hi Ho S) as [H1 H2 H3]. fold g in H1, H2, H3.
    constructor; rewrite ?E1, ?E2, ?E3, ?E4; done. }
  destruct (IH (i + 1) f2 (m + 1)) as (r & f' & R & H); [split; [by exists nm, om|done]|lia| |].
  { rewrite E1. unfold g, without_space. cbn. rewrite drop_insert_lt by lia. done. }
  exists r, f'. split; [|done]. rewrite run_bind, run_gets. cbv beta iota. rewrite run_bind.
  assert ((if fl_space_idx f =? i then select (-1) else mret tt) f =
    Ok tt (if fl_space_idx f =? i then set_space_idx (-1) f else f)) as -> by (by destruct (_ =? _)).
  rewrite run_bind, run_free_str by (by destruct (_ =? _)). rewrite run_bind. unfold put_space. rewrite run_modify, run_bind, run_gets.
  assert (forall h, h = g -> unset_spaces fs (i + 1) l (m + 1) f2 = Ok r f' ->
    (leave_space i (fl_flags h) ;; unset_spaces fs (i + 1) l (m + 1)) h = Ok r f') as Hfin.
  { intros h -> Hr. by rewrite run_bind, Eg, R2. }
  apply Hfin; [|done]. unfold g, without_space. by destruct (_ =? _).
Qed.

Lemma run_space_unset n fs f : flags_ok n f -> exists r f', r_flag_space_unset fs f = Ok r f' /\ flags_ok n f'.
Proof. intros H. unfold r_flag_space_unset. rewrite run_bind, run_gets. by apply run_unset_spaces. Qed.

Lemma run_rename_space n o m f : flags_ok n f -> exists r f', rename_space o m f = Ok r f' /\ flags_ok n f'.
Proof.
  intros H. pose proof H as [(nm & om & C) S]. destruct m as [m|]; [|by exists false, f]. unfold rename_space.
  rewrite run_bind. destruct (run_find_space (skip_spaces o) f S) as (r & R & Hr). rewrite R.
  destruct r as [i|]; [|by exists false, f]. destruct (Hr i eq_refl) as (Hi & a & Ha).
  destruct (so_some _ S _ _ Ha) as [Hlt Hstr].
  exists true, (with_space f i (skip_spaces m) (delete a (fl_strs f))). split.
  - rewrite run_bind. unfold space_at. rewrite run_bind, run_gets, (proj2 (Z.ltb_ge _ _)), Ha by lia.
    cbn [lift]. rewrite run_ret, run_bind, run_free_str by done. done.
  - split.
    + exists nm, om. apply (cons_tables _ _ _ _ f); [|done]. unfold same_tables. cbn. split_and!; done || lia.
    + apply with_space_ok; [done|by apply lookup_lt_Some in Ha|]. intros b p Hne Hb.
      rewrite lookup_delete_ne; [done|]. intros ->. apply Hne. by apply (so_inj _ S _ _ b).
Qed.

Lemma run_space_rename n o m f : flags_ok n f -> exists r f', r_flag_space_rename o m f = Ok r f' /\ flags_ok n f'.
Proof.
  intros H. destruct o as [o|]; [by apply run_rename_space|]. unfold r_flag_space_rename.
  rewrite run_bind, run_gets. pose proof H as [_ S]. destruct (so_idx _ S) as [E|(Hi & a & Ha)].
  - rewrite E. by exists false, f.
  - destruct (Z.eqb_spec (fl_space_idx f) (-1)); [by exists false, f|]. rewrite run_bind. unfold space_at.
    rewrite run_bind, run_gets, (proj2 (Z.ltb_ge _ _)), Ha by lia. cbn [lift]. rewrite run_ret.
    destruct m as [m|]; [|by exists false, f]. destruct (so_some _ S _ _ Ha) as [_ [s Hs]].
    rewrite run_bind, (run_str_at _ _ _ Hs). by apply run_rename_space.
Qed.

Lemma run_unset_all n f : 0 <= n -> flags_ok n f -> exists f', r_flag_unset_all f = Ok tt f' /\ flags_ok n f'.
Proof.
  intros Hn [(nm & om & C) S]. unfold r_flag_unset_all, select. rewrite run_bind, run_modify, run_bind, run_modify, run_bind, run_modify,
    run_bind, run_modify, run_bind, run_modify, run_bind, run_modify. cbv beta iota. rewrite run_bind.
  match goal with |- context [r_flag_space_unset None ?h] => set (g := h) end.
  destruct (run_space_unset n None g) as (r & f' & R & H); [|exists f'; by rewrite R].
  split; [exists ∅, ∅|].
  - constructor; cbn; try done.
    + exact (new_models 64 false).
    + exact (new_models 64 true).
    + apply (cn_base _ _ _ _ _ C).
    + apply NoDup_nil_2.
    + by intros i ?%elem_of_nil.
    + split; [by intros i ?%elem_of_nil|done].
  - destruct S as [H1 H2 _]. constructor; [done|done|by left].
Qed.

(** ** Programs of operations *)

Inductive flag_op :=
  | FSet (name : string) (off size : Z)
  | FUnsetOff (off : Z) | FUnsetName (name : option string) | FUnsetGlob (glob : option string) | FUnsetAll
  | FMove (at_ to : Z) | FSort (namesort : bool)
  | FGet (name : option string) | FGetI (off : Z) | FGetI2 (off : Z) | FGetAt (off : Z)
  | FExistAt (prefix : string) (n : nat) (off : Z) | FCount (glob : option string)
  | FSpaceSet (name : option string) | FSpaceUnset (name : option string) | FSpaceRename (o n : option string).

Section programs.
Context (math : RFlag -> string -> Z).

Definition run_flag_op (o : flag_op) : M RFlag unit :=
  match o with
  | FSet s off size => r_flag_set math (Some s) off size ;; mret tt
  | FUnsetOff off => r_flag_unset_off math off ;; mret tt
  | FUnsetName s => r_flag_unset_name s ;; mret tt
  | FUnsetGlob g => r_flag_unset_glob g ;; mret tt
  | FUnsetAll => r_flag_unset_all
  | FMove a b => r_flag_move math a b ;; mret tt
  | FSort b => r_flag_sort b ;; mret tt
  | FGet s => r_flag_get math s ;; mret tt
  | FGetI off => r_flag_get_i math off ;; mret tt
  | FGetI2 off => r_flag_get_i2 math off ;; mret tt
  | FGetAt off => r_flag_get_at math off ;; mret tt
  | FExistAt p n off => r_flag_exist_at p n off ;; mret tt
  | FCount g => r_flag_count g ;; mret tt
  | FSpaceSet s => r_flag_space_set s ;; mret tt
  | FSpaceUnset s => r_flag_space_unset s ;; mret tt
  | FSpaceRename o n => r_flag_space_rename o n ;; mret tt
  end.

Fixpoint run_flag_ops (os : list flag_op) : M RFlag unit :=
  match os with [] => mret tt | o :: os => run_flag_op o ;; run_flag_ops os end.

(** The contract: names of characters that the filter leaves, offsets of 64 bits. *)
Definition flag_op_ok (o : flag_op) : Prop :=
  match o with
  | FSet s off _ => flag_name s /\ 0 <= off < 2 ^ 64
  | FMove _ to => 0 <= to < 2 ^ 64
  | _ => True
  end.

Lemma cons_permute n nm om f l : cons n None nm om f -> l ≡ₚ fl_flags f -> cons n None nm om (set_flags l f).
Proof.
  intros [] Hp. assert (forall i, i ∈ l <-> i ∈ fl_flags f) as Hin by (intros i; by rewrite Hp).
  constructor; cbn; try done.
  - by rewrite Hp.
  - intros i Hi%Hin. by apply cn_item.
  - intros h i Hi. rewrite Hin. by apply (cn_nm h).
  - intros k a Hk. destruct (cn_om k a Hk) as (js & H1 & H2 & H3 & H4). exists js. do 3 (split; [done|]).
    intros i Hi. rewrite Hin. by apply H4.
  - split; [intros i Hi%Hin; by apply cn_fresh|by apply cn_fresh].
Qed.

Lemma run_unset n f o : flags_ok n f -> (forall i, o = Some i -> i ∈ fl_flags f) ->
  exists r f', unset_and_free o f = Ok r f' /\ flags_ok n f'.
Proof.
  intros H Ho. destruct o as [i|]; [|by exists false, f]. pose proof H as [(nm & om & C) S].
  destruct (cons_item _ _ _ _ _ C i) as (x & Hx & _); [by apply Ho|].
  destruct (unset_and_free_ok n nm om f i x C) as (nm' & om' & f' & R & C' & S' & _); [by apply Ho|done|].
  exists true, f'. split; [done|]. eapply flags_ok_settings; [by exists nm', om'|done|done].
Qed.

Lemma run_set_ok n f s off size : flags_ok n f -> n + 1 < 2 ^ 30 -> flag_name s -> 0 <= off < 2 ^ 64 ->
  exists r f', r_flag_set math (Some s) off size f = Ok r f' /\ flags_ok (n + 2) f'.
Proof.
  intros H Hn Hs Hoff. pose proof H as [(nm & om & C) S].
  destruct (set_ok math n nm om f s off size C Hn Hs Hoff) as (i & nm' & om' & f' & R & C' & S' & _).
  exists (Some i), f'. split; [done|]. eapply flags_ok_settings; [by exists nm', om'|done|done].
Qed.

Lemma flags_ok_weaken n m f : n <= m -> flags_ok n f -> flags_ok m f.
Proof. intros Hnm [(nm & om & C) S]. split; [exists nm, om; by apply (cons_weaken n)|done]. Qed.

Lemma last_in (l : list nat) i : last l = Some i -> i ∈ l.
Proof. intros [l' ->]%last_Some. set_solver. Qed.

(** One operation.  [FSet] and [FMove] may add to the tables. *)
Lemma run_flag_op_ok n o f : flags_ok n f -> 0 <= n -> n + 1 < 2 ^ 30 -> flag_op_ok o ->
  exists f', run_flag_op o f = Ok tt f' /\ flags_ok (n + 2) f'.
Proof.
  intros H Hn0 Hn Hok. pose proof H as [(nm & om & C) S].
  assert (forall A (m : M RFlag A), (exists r f', m f = Ok r f' /\ flags_ok n f') ->
    exists f', (m ;; mret tt) f = Ok tt f' /\ flags_ok (n + 2) f') as Hany.
  { intros A m (r & f' & R & H'). exists f'. rewrite run_bind, R. split; [done|]. apply (flags_ok_weaken n); [lia|done]. }
  assert (forall A (m : M RFlag A), (exists r, m f = Ok r f) ->
    exists f', (m ;; mret tt) f = Ok tt f' /\ flags_ok (n + 2) f') as Hread.
  { intros A m (r & R). apply Hany. by exists r, f. }
  assert (held f (fl_flags f)) as Hall by (by intros i).
  assert (forall off i, last (items_at om f (XOROFF off)) = Some i -> i ∈ fl_flags f) as Hat.
  { intros off i Hi%last_in. by apply (items_at_elem _ _ _ _ _ C _ _ Hi). }
  destruct o; cbn [run_flag_op flag_op_ok] in *.
  - destruct Hok as [Hs Hoff]. destruct (run_set_ok n f name off size H Hn Hs Hoff) as (r & f' & R & H').
    exists f'. by rewrite run_bind, R.
  - apply Hany. unfold r_flag_unset_off. rewrite run_bind, (run_r_flag_get_i _ _ _ _ _ C). apply run_unset; [done|apply Hat].
  - apply Hany. unfold r_flag_unset_name. rewrite run_bind, (run_name_lookup _ _ _ _ _ C). apply run_unset; [done|].
    intros i Hi. by apply (cn_nm _ _ _ _ _ C _ _ Hi).
  - apply Hany. unfold r_flag_unset_glob. rewrite run_bind, run_gets.
    destruct (run_unset_glob_walk n glob (fl_flags f) nm om f 0 C (cn_nodup _ _ _ _ _ C) Hall) as (r & nm' & om' & f' & R & C' & S').
    exists r, f'. split; [done|]. eapply flags_ok_settings; [by exists nm', om'|done|done].
  - destruct (run_unset_all n f Hn0 H) as (f' & R & H'). exists f'. split; [done|]. apply (flags_ok_weaken n); [lia|done].
  - unfold r_flag_move. rewrite run_bind, run_bind, (run_r_flag_get_i _ _ _ _ _ C).
    destruct (last (items_at om f (XOROFF at_))) as [i|] eqn:E.
    + destruct (cn_item _ _ _ _ _ C i (Hat _ _ E)) as (x & Hx & _ & [_ Hname] & _).
      destruct (run_set_ok n f (fi_name x) to (u32 (fi_size x)) H Hn Hname Hok) as (r & f' & R & H').
      exists f'. by rewrite run_bind, (run_item_at f _ _ Hx), run_bind, R.
    + exists f. split; [done|]. apply (flags_ok_weaken n); [lia|done].
  - destruct (run_sort namesort f) as (l & R & Hp & _).
    { intros i Hi. destruct (cons_item _ _ _ _ _ C i Hi) as (x & -> & _). done. }
    apply Hany. exists (negb (bool_decide (fl_flags f = []))), (set_flags l f). split; [done|].
    eapply flags_ok_settings; [exists nm, om; by apply cons_permute| |done].
    unfold same_settings. cbn. split_and!; done || lia.
  - apply Hread. rewrite (run_r_flag_get _ _ _ _ _ C). by eexists.
  - apply Hread. rewrite (run_r_flag_get_i _ _ _ _ _ C). by eexists.
  - apply Hread, (run_get_i2 _ _ _ _ _ C).
  - apply Hread. destruct (run_get_at math _ _ _ _ C off) as (r & R & _). by exists r.
  - apply Hread, (run_exist_at _ _ _ _ C).
  - apply Hread. unfold r_flag_count. rewrite run_bind, run_gets. by apply (run_count_walk n nm om).
  - apply Hany, run_space_set, H.
  - apply Hany, run_space_unset, H.
  - apply Hany, run_space_rename, H.
Qed.

Lemma run_flag_ops_ok os : forall n f, flags_ok n f -> 0 <= n -> n + 2 * Z.of_nat (length os) < 2 ^ 30 ->
  Forall flag_op_ok os -> exists f', run_flag_ops os f = Ok tt f' /\ flags_ok (n + 2 * Z.of_nat (length os)) f'.
Proof.
  induction os as [|o os IH]; intros n f H Hn Hlen Hok.
  { exists f. split; [done|]. by rewrite Z.add_0_r. }
  inversion Hok as [|? ? Ho Hos]; subst. cbn [length run_flag_ops] in *.
  destruct (run_flag_op_ok n o f H Hn ltac:(lia) Ho) as (f1 & R1 & H1).
  destruct (IH (n + 2) f1 H1 ltac:(lia) ltac:(lia) Hos) as (f2 & R2 & H2).
  exists f2. rewrite run_bind, R1. split; [done|].
  by replace (n + 2 * Z.of_nat (Datatypes.S (length os))) with (n + 2 + 2 * Z.of_nat (length os)) by lia.
Qed.

Lemma flag_new_ok : flags_ok 0 r_flag_new.
Proof.
  split; [exists ∅, ∅|].
  - constructor; cbn; try done.
    + exact (new_models 64 false).
    + exact (new_models 64 true).
    + apply NoDup_nil_2.
    + by intros i ?%elem_of_nil.
    + split; [by intros i ?%elem_of_nil|done].
  - assert (forall p a, fl_spaces r_flag_new !! p <> Some (Some a)) as Hno.
    { intros p a Hp. apply list_elem_of_lookup_2, list_elem_of_In, repeat_spec in Hp. done. }
    constructor; [intros p a Hp; by apply Hno in Hp|intros p q a Hp; by apply Hno in Hp|by left].
Qed.

(** C15: no program of the operations [flag_op] on a new set of flags -- set with a
    name that the filter leaves as it is and an offset of 64 bits, unset in each way,
    move, sort, get in each way, count, and select, unselect and rename spaces -- follows a
    pointer to an item, a list or a name that was freed, and at its end the table by
    name, the table by offset and the list of flags agree; for programs of fewer than
    [2^29] operations.  Renaming and relocating flags, aliases, a base other than 0 and
    the stack of spaces are not among these operations: [r_flag_rename] does leave an
    entry of the table by name behind. *)
Theorem flags_never_dangle os :
  Forall flag_op_ok os -> 2 * Z.of_nat (length os) < 2 ^ 30 ->
  exists f, run_flag_ops os r_flag_new = Ok tt f /\ flags_ok (2 * Z.of_nat (length os)) f.
Proof. intros Hok Hlen. by apply (run_flag_ops_ok os 0 r_flag_new flag_new_ok). Qed.

(** C16: on flags that agree ([cons]: what the programs of [flags_never_dangle] leave,
    with base 0 and no aliases), setting a flag with a name that the filter leaves as it
    is ([flag_name]) at an offset of 64 bits succeeds: the flag is then found by its
    name; by its offset, unless it was there before; the flags agree again; and every flag
    whose name has another 64-bit hash is found as before and is as it was.  A name that
    the filter changes is another matter, see [r_flag_set_unfiltered_twice]. *)
Theorem r_flag_set_finds n nm om f s off size :
  cons n None nm om f -> n + 1 < 2 ^ 30 -> flag_name s -> 0 <= off < 2 ^ 64 ->
  exists i nm' om' f', r_flag_set math (Some s) off size f = Ok (Some i) f' /\ cons (n + 2) None nm' om' f' /\
    r_flag_get math (Some s) f' = Ok (Some i) f' /\
    (exists x, fl_items f' !! i = Some x /\ fi_namehash x = r_str_hash64 (Some s) /\ fi_offset x = off /\ fi_size x = size) /\
    (offset_of nm f (r_str_hash64 (Some s)) <> Some off -> r_flag_get_i math off f' = Ok (Some i) f') /\
    (forall t, r_str_hash64 t <> r_str_hash64 (Some s) ->
      r_flag_get math t f' = Ok (nm !! r_str_hash64 t) f' /\
      forall j, nm !! r_str_hash64 t = Some j -> fl_items f' !! j = fl_items f !! j).
Proof.
  intros C Hn Hs Hoff. destruct (set_ok math n nm om f s off size C Hn Hs Hoff) as (i & nm' & om' & f' & R & C' & S' & [E1 E2 E3 E4 E5]).
  exists i, nm', om', f'. split; [done|]. split; [done|]. split.
  { rewrite (run_r_flag_get _ _ _ _ _ C'), E1. by rewrite lookup_insert_eq. }
  split; [destruct E3 as (x & ? & ? & ? & ?); by exists x|]. split.
  - intros Hmove. rewrite (run_r_flag_get_i _ _ _ _ _ C'), E5, decide_False by done. rewrite decide_True by done.
    by rewrite last_snoc.
  - intros t Ht. rewrite (run_r_flag_get _ _ _ _ _ C'), E1, lookup_insert_ne by done. split; [done|].
    intros j Hj. destruct (cn_nm _ _ _ _ _ C _ _ Hj) as (Hf & x & Hx & Hh). apply E4; [|done]. intros ->.
    assert (nm' !! r_str_hash64 t = Some i) as Hi by (by rewrite E1, lookup_insert_ne).
    destruct (cn_nm _ _ _ _ _ C' _ _ Hi) as (_ & y & Hy & Hyh). destruct E3 as (z & Hz & _ & _ & Hzh).
    rewrite Hz in Hy. injection Hy as <-. congruence.
Qed.
End programs.

Definition no_math (f : RFlag) (s : string) : Z := 0.

(** Two flags at one offset, one of which is moved, in two spaces, and unset by a pattern. *)
Lemma flags_never_dangle_witness :
  let os := [FSpaceSet (Some "symbols"%string); FSet "sym.main" 0x1000 8; FSet "sym.exit" 0x1000 4; FMove 0x1000 0x2000;
             FSpaceUnset None; FSort true; FGetAt 0x1800; FUnsetGlob (Some "*.m*"%string); FSet "entry0" 0x1000 1] in
  exists f, run_flag_ops no_math os r_flag_new = Ok tt f /\ length (fl_flags f) = 2%nat.
Proof.
  intros os. destruct (flags_never_dangle no_math os) as (f & R & _).
  - repeat constructor; try done; lia.
  - simpl. lia.
  - exists f. split; [exact R|].
    assert (forall r : outcome RFlag unit, r = Ok tt f -> match r with Ok _ g => length (fl_flags g) | _ => 0%nat end = 2%nat ->
      length (fl_flags f) = 2%nat) as H by (by intros r ->).
    apply (H _ R). by vm_compute.
Defined.

Lemma r_flag_set_finds_witness :
  exists i f', r_flag_set no_math (Some "main"%string) 0x400 16 r_flag_new = Ok (Some i) f' /\
    r_flag_get_i no_math 0x400 f' = Ok (Some i) f'.
Proof.
  destruct flag_new_ok as [(nm & om & C) _].
  assert (nm !! r_str_hash64 (Some "main"%string) = None) as Hno.
  { destruct (nm !! r_str_hash64 _) as [i|] eqn:E; [|done]. destruct (cn_nm _ _ _ _ _ C _ _ E) as [Hi _].
    by apply elem_of_nil in Hi. }
  destruct (r_flag_set_finds no_math 0 nm om r_flag_new "main" 0x400 16 C ltac:(lia) ltac:(done) ltac:(lia))
    as (i & nm' & om' & f' & R & _ & _ & _ & H & _).
  exists i, f'. split; [exact R|]. apply H. unfold offset_of. by rewrite Hno.
Defined.

(** [r_flag_get_at] answers the last visible flag at the offset or before it. *)
Theorem r_flag_get_at_nearest math n nm om f off : cons n None nm om f ->
  exists r, r_flag_get_at math off f = Ok r f /\ nearest f off (fl_flags f) r.
Proof. intros C. by apply (run_get_at math n nm om). Qed.

(** [r_flag_sort] leaves the same flags in the order of their names, or of their offsets. *)
Theorem r_flag_sort_sorts namesort n nm om f : cons n None nm om f ->
  exists l, r_flag_sort namesort f = Ok (negb (bool_decide (fl_flags f = []))) (set_flags l f) /\
    l ≡ₚ fl_flags f /\ StronglySorted (item_le namesort f) l /\ cons n None nm om (set_flags l f).
Proof.
  intros C. destruct (run_sort namesort f) as (l & R & Hp & Hs).
  { intros i Hi. destruct (cons_item _ _ _ _ _ C i Hi) as (x & -> & _). done. }
  exists l. do 3 (split; [done|]). by apply cons_permute.
Qed.

(** ** Zones *)

(** The boundaries of zones below an address and above it, with the names. *)
Definition below (addr : Z) (zs : list RFlagZoneItem) : list (Z * string) :=
  flat_map (fun z => (if zi_from z <? addr then [(zi_from z, zi_name z)] else []) ++
                     (if zi_to z <=? addr then [(zi_to z, zi_name z)] else [])) zs.
Definition above (addr : Z) (zs : list RFlagZoneItem) : list (Z * string) :=
  flat_map (fun z => (if addr <? zi_from z then [(zi_from z, zi_name z)] else []) ++
                     (if addr <? zi_to z then [(zi_to z, zi_name z)] else [])) zs.

Definition greatest (l : Z) (r : option string) (bs : list (Z * string)) : Prop :=
  match r with
  | Some name => (l, name) ∈ bs /\ forall b m, (b, m) ∈ bs -> b <= l
  | None => bs = [] /\ l = 0
  end.
Definition least (h : Z) (r : option string) (bs : list (Z * string)) : Prop :=
  match r with
  | Some name => (h, name) ∈ bs /\ forall b m, (b, m) ∈ bs -> h <= b
  | None => bs = [] /\ h = UT64_MAX
  end.

Lemma go_prev_greatest b name a bs : 0 <= b < UT64_MAX -> (forall c m, (c, m) ∈ bs -> 0 <= c < UT64_MAX) ->
  greatest (ar_l a) (ar_prev a) bs ->
  greatest (ar_l (go_prev b name a)) (ar_prev (go_prev b name a)) (bs ++ [(b, name)]).
Proof.
  intros Hb Hbs H. assert (ar_l a < UT64_MAX) as Hl.
  { destruct (ar_prev a) as [m|]; cbn in H; [destruct H as [Hin _]; by destruct (Hbs _ _ Hin)|destruct H as [_ ->]; unfold UT64_MAX; lia]. }
  unfold go_prev. destruct (Z.eqb_spec (ar_l a) UT64_MAX); [lia|]. cbn [orb]. destruct (Z.leb_spec (ar_l a) b); cbn.
  - split; [set_solver|]. intros c m [Hc|[= -> ->]%list_elem_of_singleton]%elem_of_app; [|lia].
    destruct (ar_prev a) as [k|]; cbn in H; [destruct H as [_ H]; specialize (H c m Hc); lia|].
    destruct H as [-> _]. by apply elem_of_nil in Hc.
  - destruct (ar_prev a) as [k|]; cbn in H |- *; [|lia]. destruct H as [H1 H2]. split; [set_solver|].
    intros c m [Hc|[= -> ->]%list_elem_of_singleton]%elem_of_app; [by apply (H2 c m)|lia].
Qed.

Lemma go_next_least b name a bs : b <= UT64_MAX -> least (ar_h a) (ar_next a) bs -> (forall c m, (c, m) ∈ bs -> c <= UT64_MAX) ->
  least (ar_h (go_next b name a)) (ar_next (go_next b name a)) (bs ++ [(b, name)]).
Proof.
  intros Hb H Hbs. unfold go_next. destruct (Z.eqb_spec (ar_h a) UT64_MAX) as [E|E]; cbn [orb].
  - cbn. split; [set_solver|]. intros c m [Hc|[= -> ->]%list_elem_of_singleton]%elem_of_app; [|lia].
    destruct (ar_next a) as [k|]; cbn in H; [destruct H as [_ H]; specialize (H c m Hc); lia|].
    destruct H as [-> _]. by apply elem_of_nil in Hc.
  - destruct (ar_next a) as [k|] eqn:Ea; cbn in H; [|by destruct H]. destruct H as [H1 H2].
    destruct (Z.ltb_spec b (ar_h a)); cbn.
    + split; [set_solver|]. intros c m [Hc|[= -> ->]%list_elem_of_singleton]%elem_of_app; [specialize (H2 c m Hc)|]; lia.
    + rewrite Ea. split; [set_solver|].
      intros c m [Hc|[= -> ->]%list_elem_of_singleton]%elem_of_app; [by apply (H2 c m)|lia].
Qed.

Definition zone_range (z : RFlagZoneItem) : Prop := 0 <= zi_from z <= UT64_MAX /\ 0 <= zi_to z <= UT64_MAX.

(** Both sides of a walk over boundaries. *)
Definition nearest_bounds (a : around) (bs cs : list (Z * string)) : Prop :=
  (greatest (ar_l a) (ar_prev a) bs /\ forall c m, (c, m) ∈ bs -> 0 <= c < UT64_MAX) /\
  (least (ar_h a) (ar_next a) cs /\ forall c m, (c, m) ∈ cs -> c <= UT64_MAX).

Lemma step_prev (p : bool) b name a bs cs : (p = true -> 0 <= b < UT64_MAX) -> nearest_bounds a bs cs ->
  nearest_bounds (if p then go_prev b name a else a) (bs ++ (if p then [(b, name)] else [])) cs.
Proof.
  destruct p; [|by rewrite app_nil_r]. intros Hb [[H1 H2] [H3 H4]]. specialize (Hb eq_refl). split.
  - split; [by apply go_prev_greatest|]. intros c m [Hc|[= -> ->]%list_elem_of_singleton]%elem_of_app; [by apply (H2 c m)|lia].
  - split; [|done]. unfold go_prev. by destruct (_ || _).
Qed.

Lemma step_next (p : bool) b name a bs cs : b <= UT64_MAX -> nearest_bounds a bs cs ->
  nearest_bounds (if p then go_next b name a else a) bs (cs ++ (if p then [(b, name)] else [])).
Proof.
  destruct p; [|by rewrite app_nil_r]. intros Hb [[H1 H2] [H3 H4]]. split.
  - split; [|done]. unfold go_next. by destruct (_ || _).
  - split; [by apply go_next_least|]. intros c m [Hc|[= -> ->]%list_elem_of_singleton]%elem_of_app; [by apply (H4 c m)|lia].
Qed.

Lemma around_zone_ok addr a z zs : 0 <= addr < UT64_MAX -> zone_range z ->
  nearest_bounds a (below addr zs) (above addr zs) ->
  nearest_bounds (around_zone addr a z) (below addr (zs ++ [z])) (above addr (zs ++ [z])).
Proof.
  intros Ha [Hz1 Hz2] H. unfold below, above. rewrite !flat_map_app. cbn [flat_map]. rewrite !app_nil_r.
  fold (below addr zs) (above addr zs). rewrite !app_assoc. unfold around_zone. cbv zeta.
  apply step_next; [lia|]. apply step_prev; [intros E%Z.leb_le; lia|].
  apply step_prev; [intros E%Z.ltb_lt; lia|]. apply step_next; [lia|done].
Qed.

(** [r_flag_zone_around] answers the names of the nearest boundaries: of the
    greatest one below the address, and of the least one above it. *)
Theorem r_flag_zone_around_nearest f addr : 0 <= addr < UT64_MAX -> Forall zone_range (zones_of f) ->
  exists prev next, r_flag_zone_around addr f = Ok (prev, next) f /\
    (exists l, greatest l prev (below addr (zones_of f))) /\ (exists h, least h next (above addr (zones_of f))).
Proof.
  intros Ha Hzs. unfold r_flag_zone_around. rewrite run_bind, run_gets. cbv beta iota zeta. unfold id.
  assert (nearest_bounds (zone_around (zones_of f) addr) (below addr (zones_of f)) (above addr (zones_of f))) as [[H1 _] [H2 _]]; cycle 1.
  { do 2 eexists. split; [done|]. eauto. }
  unfold zone_around. assert (forall zs0 zs a, Forall zone_range zs -> nearest_bounds a (below addr zs0) (above addr zs0) ->
    nearest_bounds (foldl (around_zone addr) a zs) (below addr (zs0 ++ zs)) (above addr (zs0 ++ zs))) as H.
  { intros zs0 zs. revert zs0. induction zs as [|z zs IH]; intros zs0 a Hr H; [by rewrite app_nil_r|].
    inversion Hr as [|? ? Hz Hr']; subst. cbn [foldl]. change (zs0 ++ z :: zs) with (zs0 ++ [z] ++ zs).
    rewrite app_assoc. apply IH; [done|]. by apply around_zone_ok. }
  apply (H [] (zones_of f)); [done|]. split; (split; [done|by intros c m ?%elem_of_nil]).
Qed.

(** ** Where flags do dangle

    Each of the lemmas runs operations outside of the contract of
    [flags_never_dangle]. *)

(** Renaming leaves the old name in the table: it still finds the item, and
    after the item was unset by its new name, freed memory. *)
Lemma r_flag_rename_keeps_old_name :
  let rename := r_flag_set no_math (Some "old"%string) 16 1 ;; r_flag_rename 0 (Some "new"%string) in
  match rename r_flag_new with
  | Ok b f => b = true /\ r_flag_get no_math (Some "old"%string) f = Ok (Some 0%nat) f /\
      (r_flag_unset_name (Some "new"%string) ;; r_flag_get no_math (Some "old"%string)) f = Undef UB_free
  | Undef _ => False
  end.
Proof. vm_compute. done. Qed.

(** Relocating changes offsets behind the back of the table by offset. *)
Lemma r_flag_relocate_dangles :
  (r_flag_set no_math (Some "a"%string) 0x10 1 ;; r_flag_relocate 0x10 0xf 0x20 ;;
   r_flag_unset_name (Some "a"%string) ;; r_flag_get_i no_math 0x10) r_flag_new = Undef UB_free.
Proof. by vm_compute. Qed.

(** With a base the item is filed under the offset without it, so that it is
    not found at its own offset and stays in the table when it is unset. *)
Lemma flag_base_dangles :
  match (modify (set_base 0x100) ;; r_flag_set no_math (Some "a"%string) 0x10 1) r_flag_new with
  | Ok _ f => r_flag_get_i no_math 0x110 f = Ok None f /\
      (r_flag_unset_name (Some "a"%string) ;; r_flag_get_i no_math 0x10) f = Undef UB_free
  | Undef _ => False
  end.
Proof. vm_compute. done. Qed.

(** Evaluating an alias moves the item, but not its entry. *)
Lemma flag_alias_dangles :
  let math := fun _ _ => 0x20 in
  (r_flag_set math (Some "a"%string) 0x10 1 ;; r_flag_item_set_alias 0 (Some "0x20"%string) ;;
   r_flag_get math (Some "a"%string) ;; r_flag_unset_name (Some "a"%string) ;;
   r_flag_get_i math 0x10) r_flag_new = Undef UB_free.
Proof. by vm_compute. Qed.

(** A name is looked for before it is filtered and filed after it: setting it
    twice makes two flags, and none is found by it. *)
Lemma r_flag_set_unfiltered_twice :
  match (r_flag_set no_math (Some "a b"%string) 1 1 ;; r_flag_set no_math (Some "a b"%string) 2 1) r_flag_new with
  | Ok _ f => fl_flags f = [0%nat; 2%nat] /\ (fi_name <$> fl_items f !! 0%nat) = Some "a_b"%string /\
      (fi_name <$> fl_items f !! 2%nat) = Some "a_b"%string /\ r_flag_get no_math (Some "a b"%string) f = Ok None f
  | Undef _ => False
  end.
Proof. vm_compute. done. Qed.

(** The stack of spaces keeps pointers to names that unsetting a space frees. *)
Lemma r_flag_space_pop_dangles :
  (r_flag_space_set (Some "a"%string) ;; r_flag_space_push (Some "b"%string) ;; r_flag_space_unset (Some "a"%string) ;;
   r_flag_space_pop) r_flag_new = Undef UB_free.
Proof. by vm_compute. Qed.

(** ** Witnesses *)

Lemma two_flags : exists f, run_flag_ops no_math [FSet "b" 0x10 1; FSet "a" 0x30 1] r_flag_new = Ok tt f /\
  flags_ok 4 f.
Proof.
  apply (run_flag_ops_ok no_math [FSet "b" 0x10 1; FSet "a" 0x30 1] 0 r_flag_new flag_new_ok); [lia|simpl; lia|].
  repeat constructor; try done; lia.
Qed.

(** What can be computed of the state that a program leads to. *)
Lemma outcome_of {B} (P : RFlag -> Prop) (r : outcome RFlag B) b f :
  r = Ok b f -> match r with Ok _ g => P g | Undef _ => False end -> P f.
Proof. by intros ->. Qed.

Lemma r_flag_get_at_nearest_witness :
  exists f, run_flag_ops no_math [FSet "b" 0x10 1; FSet "a" 0x30 1] r_flag_new = Ok tt f /\
    nearest f 0x20 (fl_flags f) (Some 0%nat).
Proof.
  destruct two_flags as (f & R & (nm & om & C) & _).
  destruct (r_flag_get_at_nearest no_math 4 nm om f 0x20 C) as (r & Rr & Hr).
  assert (match r_flag_get_at no_math 0x20 f with Ok o _ => o | Undef _ => None end = Some 0%nat) as E.
  { apply (outcome_of (fun f => match r_flag_get_at no_math 0x20 f with Ok o _ => o | Undef _ => None end = Some 0%nat) _ _ _ R).
    by vm_compute. }
  exists f. split; [exact R|]. rewrite Rr in E. subst r. exact Hr.
Defined.

Lemma r_flag_sort_sorts_witness :
  exists f l, run_flag_ops no_math [FSet "b" 0x10 1; FSet "a" 0x30 1] r_flag_new = Ok tt f /\
    r_flag_sort true f = Ok true (set_flags l f) /\ l = [2%nat; 0%nat] /\ StronglySorted (item_le true f) l.
Proof.
  destruct two_flags as (f & R & (nm & om & C) & _).
  destruct (r_flag_sort_sorts true 4 nm om f C) as (l & Rl & _ & Hs & _).
  set (sorted := fun f => match r_flag_sort true f with Ok b g => (b, fl_flags g) | Undef _ => (false, []) end).
  assert (sorted f = (true, [2%nat; 0%nat])) as E.
  { apply (outcome_of (fun f => sorted f = (true, [2%nat; 0%nat])) _ _ _ R). vm_compute. reflexivity. }
  exists f, l. split; [exact R|]. unfold sorted in E. rewrite Rl in *. cbn [fl_flags set_flags] in E. injection E as -> E.
  split; [reflexivity|]. split; [exact E|exact Hs].
Defined.

Lemma r_flag_zone_around_nearest_witness :
  let f := set_zones (Some [mk_zone 0x80000 0x80000 "main"; mk_zone 0 0x85000 "network"; mk_zone 0x90000 0x90000 "libc"]) r_flag_new in
  r_flag_zone_around 0x83000 f = Ok (Some "main"%string, Some "network"%string) f /\
  exists l, greatest l (Some "main"%string) (below 0x83000 (zones_of f)).
Proof.
  intros f. destruct (r_flag_zone_around_nearest f 0x83000) as (p & m & R & [l Hl] & _).
  - split; [lia|reflexivity].
  - repeat constructor; simpl; unfold UT64_MAX; lia.
  - assert (r_flag_zone_around 0x83000 f = Ok (Some "main"%string, Some "network"%string) f) as E by reflexivity.
    split; [exact E|]. rewrite R in E. injection E as -> _. exists l. exact Hl.
Defined.
