(* ===== verification/Containers.v ===== *)
(** * Queues, stacks and bitmaps

    [libr/util/queue.c], [stack.c] and [bitmap.c], and the sequences and sets
    that they stand for.  Elements are pointers, [None] when null. *)

From S2P Require Import Prelude.

(** [x + 1] of an [int]. *)
Definition int_succ {S} (x : Z) : M S Z := if x + 1 <? 2 ^ 31 then mret (x + 1) else undef UB_overflow.

Lemma run_int_succ {S} x (s : S) : x < 2 ^ 31 - 1 -> int_succ x s = Ok (x + 1) s.
Proof. intros H. unfold int_succ. by rewrite (proj2 (Z.ltb_lt _ _)) by lia. Qed.

(** ** Queues: a ring that doubles when it is full *)

Module Queue.
Section queue.
Context {A : Type}.
Notation ptr := (option A).

(** [rear] is an [int], the other numbers are unsigned. *)
Record RQueue := mk_queue {
  q_elems : list ptr;
  q_capacity : Z;
  q_front : Z;
  q_rear : Z;
  q_size : Z
}.
Implicit Types (q : RQueue) (el : ptr) (xs : list ptr).

Definition r_queue_new (n : Z) : option RQueue :=
  if n <=? 0 then None else Some (mk_queue (repeat None (Z.to_nat n)) n 0 (-1) 0).

Definition is_full q : bool := q_size q =? q_capacity q.
Definition r_queue_is_empty q : bool := q_size q =? 0.

(** [elems[i]]. *)
Definition ptr_at (elems : list ptr) (i : Z) : M RQueue ptr :=
  lift UB_oob (if i <? 0 then None else elems !! Z.to_nat i).
Definition ptr_put (elems : list ptr) (i : Z) el : M RQueue (list ptr) :=
  if (0 <=? i) && (i <? Z.of_nat (length elems)) then mret (<[Z.to_nat i := el]> elems) else undef UB_oob.

(** [(x + 1) % capacity] for an [int] [x], which is converted. *)
Definition ring_succ q (x : Z) : M RQueue Z :=
  y ← int_succ x; if q_capacity q =? 0 then undef UB_div else mret (u32 y mod q_capacity q).

(** The copy to the new array: [i] is the last place that was filled. *)
Definition copy_turn q (st : Z * Z * list ptr) : M RQueue (Z * Z * list ptr + Z * list ptr) :=
  let '(i, tmp_front, newelems) := st in
  j ← int_succ i;
  if u32 j <? q_size q then
    el ← ptr_at (q_elems q) tmp_front;
    newelems ← ptr_put newelems j el;
    tmp_front ← ring_succ q tmp_front;
    mret (inl (j, s32 tmp_front, newelems))
  else mret (inr (i, newelems)).

(** A turn for every element. *)
Definition increase_capacity : M RQueue bool :=
  q ← gets id;
  let new_capacity := u32 (q_capacity q * 2) in
  r ← for_upto (q_size q + 1) (copy_turn q) (-1, s32 (q_front q), repeat None (Z.to_nat new_capacity));
  match r with
  | inl _ => undef UB_oob
  | inr (i, newelems) => modify (fun _ => mk_queue newelems new_capacity 0 i (q_size q)) ;; mret true
  end.

Definition r_queue_enqueue el : M RQueue bool :=
  q ← gets id;
  (if is_full q then increase_capacity ;; mret tt else mret tt) ;;
  q ← gets id;
  rear ← ring_succ q (q_rear q);
  elems ← ptr_put (q_elems q) (s32 rear) el;
  modify (fun q => mk_queue elems (q_capacity q) (q_front q) (s32 rear) (u32 (q_size q + 1))) ;;
  mret true.

Definition r_queue_dequeue : M RQueue ptr :=
  q ← gets id;
  if r_queue_is_empty q then mret None
  else
    res ← ptr_at (q_elems q) (q_front q);
    if q_capacity q =? 0 then undef UB_div
    else
      modify (fun q => mk_queue (q_elems q) (q_capacity q) (u32 (q_front q + 1) mod q_capacity q) (q_rear q) (u32 (q_size q - 1))) ;;
      mret res.

(** *** A queue is a sequence *)

(** The [k]th element from the front is at its place in the ring, and the next
    one goes after the last. *)
Record holds q xs : Prop := mk_holds {
  h_cap : 0 < q_capacity q < 2 ^ 30;
  h_len : Z.of_nat (length (q_elems q)) = q_capacity q;
  h_front : 0 <= q_front q < q_capacity q;
  h_rear : -1 <= q_rear q < q_capacity q /\ (q_rear q + 1) mod q_capacity q = (q_front q + q_size q) mod q_capacity q;
  h_size : q_size q = Z.of_nat (length xs) /\ q_size q <= q_capacity q;
  h_elems : forall k el, xs !! k = Some el -> q_elems q !! Z.to_nat ((q_front q + Z.of_nat k) mod q_capacity q) = Some el
}.

Lemma run_ptr_at elems i q : 0 <= i < Z.of_nat (length elems) -> exists el, elems !! Z.to_nat i = Some el /\ ptr_at elems i q = Ok el q.
Proof.
  intros Hi. destruct (lookup_lt_is_Some_2 elems (Z.to_nat i)) as [el Hel]; [lia|]. exists el. split; [done|].
  unfold ptr_at. by rewrite (proj2 (Z.ltb_ge _ _)), Hel by lia.
Qed.

Lemma run_ptr_put elems i el q : 0 <= i < Z.of_nat (length elems) -> ptr_put elems i el q = Ok (<[Z.to_nat i := el]> elems) q.
Proof. intros Hi. unfold ptr_put. by rewrite (proj2 (Z.leb_le _ _)), (proj2 (Z.ltb_lt _ _)) by lia. Qed.

Lemma run_ring_succ q x q' : 0 < q_capacity q < 2 ^ 30 -> -1 <= x < q_capacity q -> ring_succ q x q' = Ok ((x + 1) mod q_capacity q) q'.
Proof.
  intros Hc Hx. unfold ring_succ. rewrite run_bind, run_int_succ by lia. destruct (Z.eqb_spec (q_capacity q) 0); [lia|].
  by rewrite u32_id by lia.
Qed.

Lemma new_holds n : 0 < n < 2 ^ 30 -> exists q, r_queue_new n = Some q /\ holds q [].
Proof.
  intros Hn. unfold r_queue_new. rewrite (proj2 (Z.leb_gt _ _)) by lia. eexists. split; [done|].
  constructor; cbn; try lia; [rewrite repeat_length; lia|split; [lia|done]|done].
Qed.

(** The ring of the copy: the first [i + 1] elements are in place. *)
Lemma copy_ok q xs k : holds q xs -> (k <= length xs)%nat ->
  forall newelems, Z.of_nat (length newelems) = 2 * q_capacity q ->
  (forall j el, (j < k)%nat -> xs !! j = Some el -> newelems !! j = Some el) ->
  forall n, Z.of_nat (length xs - k) < n ->
  exists newelems', for_upto n (copy_turn q) (Z.of_nat k - 1, (q_front q + Z.of_nat k) mod q_capacity q, newelems) q =
      Ok (inr (q_size q - 1, newelems')) q /\ Z.of_nat (length newelems') = 2 * q_capacity q /\
    forall j el, xs !! j = Some el -> newelems' !! j = Some el.
Proof.
  intros H Hk newelems Hlen Hpre n Hn. pose proof H as [Hc Hl Hf Hr [Hs Hsc] He].
  destruct (for_upto_total (S := RQueue)
    (fun st s => s = q /\ exists k newelems, (k <= length xs)%nat /\
       st = (Z.of_nat k - 1, (q_front q + Z.of_nat k) mod q_capacity q, newelems) /\
       Z.of_nat (length newelems) = 2 * q_capacity q /\
       (forall j el, (j < k)%nat -> xs !! j = Some el -> newelems !! j = Some el))
    (fun st _ => Z.of_nat (length xs) - 1 - fst (fst st))
    (fun r s => s = q /\ exists newelems', r = (q_size q - 1, newelems') /\ Z.of_nat (length newelems') = 2 * q_capacity q /\
       forall j el, xs !! j = Some el -> newelems' !! j = Some el)
    (copy_turn q) n (Z.of_nat k - 1, (q_front q + Z.of_nat k) mod q_capacity q, newelems) q)
    as ([i ne] & s' & R & -> & ne' & E & H1 & H2).
  - clear k Hk newelems Hlen Hpre Hn. intros st s (-> & k & newelems & Hk & -> & Hlen & Hpre).
    assert (0 <= (q_front q + Z.of_nat k) mod q_capacity q < q_capacity q) as Hm by (apply Z.mod_pos_bound; lia).
    cbn [copy_turn]. rewrite run_bind, run_int_succ, u32_id by lia. replace (Z.of_nat k - 1 + 1) with (Z.of_nat k) by lia.
    destruct (Z.ltb_spec (Z.of_nat k) (q_size q)) as [Hlt|Hge]; [left|right].
    + destruct (lookup_lt_is_Some_2 xs k) as [el Hel]; [lia|].
      destruct (run_ptr_at (q_elems q) ((q_front q + Z.of_nat k) mod q_capacity q) q) as (el' & Hel' & R); [lia|].
      rewrite (He _ _ Hel) in Hel'. injection Hel' as <-.
      rewrite run_bind, R, run_bind, run_ptr_put, run_bind, run_ring_succ by lia.
      do 2 eexists. split; [done|]. split; [|cbn; lia]. split; [done|].
      exists (S k), (<[Z.to_nat (Z.of_nat k) := el]> newelems). split; [lia|]. split; [|split; [by rewrite length_insert|]].
      * rewrite Zplus_mod_idemp_l, s32_id by (pose proof (Z.mod_pos_bound (q_front q + Z.of_nat k + 1) (q_capacity q)); lia).
        f_equal; [f_equal; [lia|f_equal; lia]].
      * intros j el' Hj Hjx. rewrite Nat2Z.id. destruct (decide (j = k)) as [->|Hne].
        -- rewrite Hel in Hjx. injection Hjx as <-. rewrite list_lookup_insert, decide_True; [done|]. split; [done|lia].
        -- rewrite list_lookup_insert_ne by done. apply Hpre; [lia|done].
    + do 2 eexists. split; [done|]. split; [done|]. exists newelems. split; [f_equal; lia|]. split; [done|].
      intros j el Hj. apply Hpre; [|done]. apply lookup_lt_Some in Hj. lia.
  - split; [done|]. by exists k, newelems.
  - cbn. lia.
  - injection E as -> ->. by exists ne'.
Qed.

Lemma increase_ok q xs : holds q xs -> q_capacity q < 2 ^ 29 ->
  exists q', increase_capacity q = Ok true q' /\ holds q' xs /\ q_capacity q' = 2 * q_capacity q.
Proof.
  intros H Hc29. pose proof H as [Hc Hl Hf Hr [Hs Hsc] He].
  destruct (copy_ok q xs 0 H ltac:(lia) (repeat None (Z.to_nat (u32 (q_capacity q * 2))))) with (n := q_size q + 1)
    as (ne & R & Hlen & Hne).
  { rewrite repeat_length, u32_id by lia. lia. }
  { lia. }
  { lia. }
  exists (mk_queue ne (2 * q_capacity q) 0 (q_size q - 1) (q_size q)). split; [|split; [|done]].
  - unfold increase_capacity. rewrite run_bind, run_gets. cbv beta iota zeta. unfold id.
    rewrite Z.add_0_r, Z.mod_small in R by lia. rewrite s32_id, run_bind by lia.
    change (Z.of_nat 0 - 1) with (-1) in R. rewrite R, run_bind, run_modify, run_ret, u32_id by lia. by rewrite (Z.mul_comm _ 2).
  - constructor; cbn; try lia.
    + split; [lia|]. f_equal. lia.
    + intros k el Hk. pose proof (lookup_lt_Some _ _ _ Hk). rewrite Z.add_0_l, Z.mod_small, Nat2Z.id by lia. by apply Hne.
Qed.

(** Two places of a ring are different unless they are whole turns apart. *)
Lemma ring_offset c f i j : 0 < c -> 0 <= i < c -> 0 <= j < c -> (f + i) mod c = (f + j) mod c -> i = j.
Proof.
  intros Hc Hi Hj H. assert (((f + i) - (f + j)) mod c = 0) as H0 by (by rewrite Zminus_mod, H, Z.sub_diag, Z.mod_0_l by lia).
  replace (f + i - (f + j)) with (i - j) in H0 by lia. apply Z.mod_divide in H0 as [k Hk]; [|lia]. destruct (Z.lt_trichotomy k 0) as [|[->|]]; [nia|lia|nia].
Qed.

Lemma ptr_put_ok q xs el : holds q xs -> q_size q < q_capacity q ->
  let p := (q_front q + q_size q) mod q_capacity q in
  holds (mk_queue (<[Z.to_nat p := el]> (q_elems q)) (q_capacity q) (q_front q) p (q_size q + 1)) (xs ++ [el]).
Proof.
  intros [Hc Hl Hf Hr [Hs Hsc] He] Hroom p. pose proof (Z.mod_pos_bound (q_front q + q_size q) (q_capacity q)) as Hp. fold p in Hp.
  constructor; cbn; try lia.
  - rewrite length_insert. lia.
  - split; [lia|]. subst p. rewrite Zplus_mod_idemp_l. f_equal. lia.
  - rewrite length_app. simpl. lia.
  - intros k el' [Hk|[Hk E]]%lookup_app_Some.
    + pose proof (lookup_lt_Some _ _ _ Hk). rewrite list_lookup_insert_ne; [by apply He|]. intros E.
      pose proof (Z.mod_pos_bound (q_front q + Z.of_nat k) (q_capacity q)).
      assert (p = (q_front q + Z.of_nat k) mod q_capacity q) as E' by lia. apply ring_offset in E'; lia.
    + apply list_lookup_singleton_Some in E as [E <-]. replace (q_front q + Z.of_nat k) with (q_front q + q_size q) by lia.
      fold p. rewrite list_lookup_insert, decide_True; [done|]. split; [done|]. lia.
Qed.

Lemma enqueue_ok q xs el : holds q xs -> q_capacity q < 2 ^ 29 ->
  exists q', r_queue_enqueue el q = Ok true q' /\ holds q' (xs ++ [el]) /\ q_capacity q' <= Z.max (q_capacity q) (2 * q_size q).
Proof.
  intros H Hc29.
  assert (exists q1, (if is_full q then increase_capacity ;; mret tt else mret tt) q = Ok tt q1 /\ holds q1 xs /\
    q_size q1 < q_capacity q1 /\ q_capacity q1 <= Z.max (q_capacity q) (2 * q_size q)) as (q1 & R1 & H1 & Hroom & Hcap).
  { unfold is_full. destruct (Z.eqb_spec (q_size q) (q_capacity q)) as [E|E].
    - destruct (increase_ok q xs H Hc29) as (q1 & R1 & H1 & E1). exists q1. rewrite run_bind, R1. split; [done|].
      split; [done|]. pose proof (h_size _ _ H). pose proof (h_size _ _ H1). pose proof (h_cap _ _ H). lia.
    - exists q. split; [done|]. split; [done|]. pose proof (h_size _ _ H). lia. }
  pose proof (ptr_put_ok q1 xs el H1 Hroom) as Hput. destruct H1 as [Hc Hl Hf [Hr Hre] [Hs Hsc] He]. eexists. split; [|split; [exact Hput|exact Hcap]].
  pose proof (Z.mod_pos_bound (q_front q1 + q_size q1) (q_capacity q1)).
  unfold r_queue_enqueue. rewrite run_bind, run_gets. cbv beta iota. unfold id. rewrite run_bind, R1, run_bind, run_gets.
  cbv beta iota. rewrite run_bind, run_ring_succ, Hre, s32_id, run_bind, run_ptr_put, run_bind, run_modify, run_ret, u32_id by lia.
  done.
Qed.

Lemma dequeue_ok q xs : holds q xs ->
  exists q', r_queue_dequeue q = Ok (default None (head xs)) q' /\ holds q' (tail xs) /\ q_capacity q' = q_capacity q.
Proof.
  intros H. pose proof H as [Hc Hl Hf [Hr Hre] [Hs Hsc] He].
  unfold r_queue_dequeue, r_queue_is_empty. rewrite run_bind, run_gets. cbv beta iota. unfold id.
  destruct xs as [|x xs]; cbn [length] in Hs.
  { rewrite Hs. exists q. done. }
  destruct (Z.eqb_spec (q_size q) 0); [lia|]. destruct (run_ptr_at (q_elems q) (q_front q) q) as (el & Hel & R); [lia|].
  specialize (He 0%nat x eq_refl) as Hx. rewrite Z.add_0_r, Z.mod_small in Hx by lia. rewrite Hx in Hel. injection Hel as <-.
  rewrite run_bind, R. destruct (Z.eqb_spec (q_capacity q) 0); [lia|]. rewrite run_bind, run_modify, run_ret.
  rewrite !u32_id by lia. eexists. split; [done|]. split; [|done].
  pose proof (Z.mod_pos_bound (q_front q + 1) (q_capacity q)).
  constructor; cbn; try lia.
  - split; [lia|]. rewrite Hre, Zplus_mod_idemp_l. f_equal. lia.
  - intros k el Hk. rewrite Zplus_mod_idemp_l. replace (q_front q + 1 + Z.of_nat k) with (q_front q + Z.of_nat (S k)) by lia.
    by apply He.
Qed.

(** Programs on a queue and on a sequence. *)
Inductive queue_op := Enqueue (el : ptr) | Dequeue | IsEmpty.
Inductive queue_out := Done (b : bool) | Elem (el : ptr).

Definition run_queue_op (o : queue_op) : M RQueue queue_out :=
  match o with
  | Enqueue el => b ← r_queue_enqueue el; mret (Done b)
  | Dequeue => el ← r_queue_dequeue; mret (Elem el)
  | IsEmpty => b ← gets r_queue_is_empty; mret (Done b)
  end.
Fixpoint run_queue_ops (os : list queue_op) : M RQueue (list queue_out) :=
  match os with [] => mret [] | o :: os => x ← run_queue_op o; ys ← run_queue_ops os; mret (x :: ys) end.

Definition fifo_op (o : queue_op) xs : queue_out * list ptr :=
  match o with
  | Enqueue el => (Done true, xs ++ [el])
  | Dequeue => (Elem (default None (head xs)), tail xs)
  | IsEmpty => (Done (bool_decide (xs = [])), xs)
  end.
Fixpoint fifo_ops (os : list queue_op) xs : list queue_out * list ptr :=
  match os with
  | [] => ([], xs)
  | o :: os => let '(x, xs) := fifo_op o xs in let '(ys, xs) := fifo_ops os xs in (x :: ys, xs)
  end.

Lemma run_queue_op_ok o q xs : holds q xs -> q_capacity q < 2 ^ 29 ->
  exists q', run_queue_op o q = Ok (fst (fifo_op o xs)) q' /\ holds q' (snd (fifo_op o xs)) /\
    q_capacity q' <= Z.max (q_capacity q) (2 * q_size q) /\ q_size q' <= q_size q + 1.
Proof.
  intros H Hc. assert (forall q' ys, holds q' ys -> (length ys <= S (length xs))%nat -> q_size q' <= q_size q + 1) as Hsz.
  { intros q' ys H' Hlen. destruct (h_size _ _ H), (h_size _ _ H'). lia. }
  destruct o as [el| |]; cbn [run_queue_op fifo_op fst snd].
  - destruct (enqueue_ok q xs el H Hc) as (q' & R & H' & Hcap). exists q'. rewrite run_bind, R. split_and!; [done..|].
    apply (Hsz _ _ H'). rewrite length_app. simpl. lia.
  - destruct (dequeue_ok q xs H) as (q' & R & H' & Hcap). exists q'. rewrite run_bind, R. split_and!; [done..|lia|].
    apply (Hsz _ _ H'). destruct xs; simpl; lia.
  - exists q. rewrite run_bind, run_gets. split; [|split; [done|lia]]. unfold r_queue_is_empty.
    destruct (h_size _ _ H) as [-> _]. by destruct xs.
Qed.

Lemma run_queue_ops_ok os : forall q xs, holds q xs ->
  Z.max (q_capacity q) (2 * q_size q + 2 * Z.of_nat (length os)) < 2 ^ 29 ->
  exists q', run_queue_ops os q = Ok (fst (fifo_ops os xs)) q' /\ holds q' (snd (fifo_ops os xs)).
Proof.
  induction os as [|o os IH]; intros q xs H Hb; [by exists q|]. cbn [run_queue_ops fifo_ops].
  destruct (run_queue_op_ok o q xs H ltac:(lia)) as (q1 & R1 & H1 & Hc & Hs). cbn [length] in Hb.
  destruct (IH q1 _ H1 ltac:(lia)) as (q2 & R2 & H2). exists q2. rewrite run_bind, R1, run_bind, R2.
  destruct (fifo_op o xs) as [x ys]. cbn in *. by destruct (fifo_ops os ys).
Qed.

(** C34: A queue is a sequence with two ends: what comes out is what went in, in
    order, through every doubling of the ring. *)
Theorem r_queue_is_fifo n os :
  0 < n < 2 ^ 29 -> 2 * Z.of_nat (length os) < 2 ^ 29 ->
  exists q q', r_queue_new n = Some q /\ run_queue_ops os q = Ok (fst (fifo_ops os [])) q' /\
    holds q' (snd (fifo_ops os [])).
Proof.
  intros Hn Hlen. destruct (new_holds n ltac:(lia)) as (q & E & H). exists q.
  destruct (run_queue_ops_ok os q [] H) as (q' & R & H').
  - destruct (h_size _ _ H) as [-> _]. unfold r_queue_new in E. case_match; [done|]. injection E as <-. cbn. lia.
  - by exists q'.
Qed.
End queue.
Arguments RQueue : clear implicits.
End Queue.

Lemma r_queue_is_fifo_witness :
  exists q q', Queue.r_queue_new 2 = Some q /\
    Queue.run_queue_ops [Queue.Enqueue (Some 1); Queue.Enqueue (Some 2); Queue.Dequeue; Queue.Enqueue (Some 3);
                         Queue.Enqueue (Some 4); Queue.Dequeue; Queue.Dequeue; Queue.IsEmpty] q =
      Ok [Queue.Done true; Queue.Done true; Queue.Elem (Some 1); Queue.Done true; Queue.Done true; Queue.Elem (Some 2);
          Queue.Elem (Some 3); Queue.Done false] q' /\ Queue.q_capacity q' = 4.
Proof.
  destruct (Queue.r_queue_is_fifo 2 [Queue.Enqueue (Some 1); Queue.Enqueue (Some 2); Queue.Dequeue; Queue.Enqueue (Some 3);
    Queue.Enqueue (Some 4); Queue.Dequeue; Queue.Dequeue; Queue.IsEmpty]) as (q & q' & E & R & _); [lia|simpl; lia|].
  exists q, q'. split; [exact E|]. split; [exact R|]. injection E as <-. vm_compute in R. injection R as <-. reflexivity.
Defined.

(** ** Stacks: an array that doubles when it is full *)

Module Stack.
Section stack.
Context {A : Type}.
Notation ptr := (option A).
(** What new memory holds. *)
Context (indet : ptr).

(** [top] is an [int], [n_elems] is unsigned. *)
Record RStack := mk_stack { st_elems : list ptr; st_n_elems : Z; st_top : Z; st_free : bool }.
Implicit Types (s : RStack) (el : ptr) (xs : list ptr).

Definition r_stack_newf (n : Z) (free : bool) : RStack := mk_stack (repeat None (Z.to_nat n)) n (-1) free.
Definition r_stack_new (n : Z) : RStack := r_stack_newf n false.

(** The array with another size; what it holds is kept. *)
Definition realloc (elems : list ptr) (n : Z) : list ptr :=
  take (Z.to_nat n) elems ++ repeat indet (Z.to_nat n - length elems).

(** [realloc] to the size 0 frees the array and gives no other. *)
Definition r_stack_push el : M RStack bool :=
  s ← gets id;
  let full := u32 (st_top s) =? u32 (st_n_elems s - 1) in
  (if full then
     let n := u32 (st_n_elems s * 2) in
     modify (fun s => mk_stack (realloc (st_elems s) n) n (st_top s) (st_free s))
   else mret tt) ;;
  s ← gets id;
  if full && (st_n_elems s =? 0) then mret false
  else
    top ← int_succ (st_top s);
    if (0 <=? top) && (top <? Z.of_nat (length (st_elems s))) then
      modify (fun s => mk_stack (<[Z.to_nat top := el]> (st_elems s)) (st_n_elems s) top (st_free s)) ;;
      mret true
    else undef UB_oob.

Definition r_stack_pop : M RStack ptr :=
  s ← gets id;
  if st_top s =? -1 then mret None
  else
    res ← lift UB_oob (if st_top s <? 0 then None else st_elems s !! Z.to_nat (st_top s));
    modify (fun s => mk_stack (st_elems s) (st_n_elems s) (st_top s - 1) (st_free s)) ;;
    mret res.

Definition r_stack_is_empty s : bool := st_top s =? -1.
Definition r_stack_size s : Z := u32 (st_top s + 1).

(** What a stack that is freed hands to the callback. *)
Definition r_stack_free s : list ptr :=
  if st_free s && (0 <? st_top s) then take (Z.to_nat (st_top s)) (st_elems s) else [].

(** *** A stack is a sequence *)

(** The elements from the bottom to the top. *)
Record holds s xs : Prop := mk_holds {
  h_n : 0 < st_n_elems s < 2 ^ 30;
  h_len : Z.of_nat (length (st_elems s)) = st_n_elems s;
  h_top : st_top s = Z.of_nat (length xs) - 1 /\ st_top s < st_n_elems s;
  h_elems : take (length xs) (st_elems s) = xs
}.

Lemma length_realloc elems n : length (realloc elems n) = Z.to_nat n.
Proof. unfold realloc. rewrite length_app, length_take, repeat_length. lia. Qed.

Lemma take_realloc elems n k : (k <= length elems)%nat -> (k <= Z.to_nat n)%nat -> take k (realloc elems n) = take k elems.
Proof.
  intros H1 H2. unfold realloc. rewrite take_app_le by (rewrite length_take; lia). by rewrite take_take, Nat.min_l by lia.
Qed.

Lemma newf_holds n free : 0 < n < 2 ^ 30 -> holds (r_stack_newf n free) [].
Proof. intros Hn. constructor; cbn; try lia; [rewrite repeat_length; lia|done]. Qed.

Lemma push_ok s xs el : holds s xs -> st_n_elems s < 2 ^ 29 ->
  exists s', r_stack_push el s = Ok true s' /\ holds s' (xs ++ [el]) /\ st_free s' = st_free s /\
    st_n_elems s' <= Z.max (st_n_elems s) (2 * Z.of_nat (length xs)).
Proof.
  intros [Hn Hl [Ht Htn] He] H29.
  assert (forall elems n, Z.of_nat (length elems) = n -> Z.of_nat (length xs) < n < 2 ^ 30 -> take (length xs) elems = xs ->
    holds (mk_stack (<[length xs := el]> elems) n (Z.of_nat (length xs)) (st_free s)) (xs ++ [el])) as Hput.
  { intros elems n Hlen Hlt Htake. constructor; cbn; rewrite ?length_insert, ?length_app; simpl; try lia.
    rewrite Nat.add_1_r. erewrite take_S_r by (rewrite list_lookup_insert, decide_True; [done|split; [done|lia]]).
    by rewrite take_insert_ge, Htake by lia. }
  unfold r_stack_push. rewrite run_bind, run_gets. cbv beta iota zeta. unfold id.
  destruct (Z.eqb_spec (u32 (st_top s)) (u32 (st_n_elems s - 1))) as [E|E]; rewrite run_bind; [rewrite run_modify|rewrite run_ret];
    rewrite run_bind, run_gets; cbv beta iota; cbn [st_n_elems st_elems st_top andb].
  - assert (st_top s = st_n_elems s - 1) as Hfull.
    { unfold u32 in E. destruct (decide (st_top s = -1)) as [E1|]; [rewrite E1 in E; vm_compute (-1 mod 2 ^ 32) in E|]; zlia. }
    rewrite (u32_id (st_n_elems s * 2)) by lia. destruct (Z.eqb_spec (st_n_elems s * 2) 0); [lia|].
    rewrite run_bind, run_int_succ, length_realloc by lia. rewrite (proj2 (Z.leb_le _ _)), (proj2 (Z.ltb_lt _ _)) by lia.
    cbn [andb]. rewrite run_bind, run_modify, run_ret. cbn. eexists. split; [done|].
    replace (st_top s + 1) with (Z.of_nat (length xs)) by lia. rewrite Nat2Z.id. split; [|split; [done|cbn; lia]].
    apply Hput; [rewrite length_realloc; lia|lia|]. by rewrite take_realloc by lia.
  - rewrite run_bind, run_int_succ by lia.
    assert (st_top s <> st_n_elems s - 1) by (intros E1; apply E; by rewrite E1).
    rewrite (proj2 (Z.leb_le _ _)), (proj2 (Z.ltb_lt _ _)) by lia. cbn [andb]. rewrite run_bind, run_modify, run_ret. cbn.
    eexists. split; [done|]. replace (st_top s + 1) with (Z.of_nat (length xs)) by lia. rewrite Nat2Z.id.
    split; [|split; [done|cbn; lia]]. apply Hput; [done|lia|done].
Qed.

Lemma pop_ok s xs : holds s xs ->
  exists s', r_stack_pop s = Ok (default None (last xs)) s' /\ holds s' (removelast xs) /\ st_free s' = st_free s /\
    st_n_elems s' = st_n_elems s.
Proof.
  intros H. pose proof H as [Hn Hl [Ht Htn] He]. unfold r_stack_pop. rewrite run_bind, run_gets. cbv beta iota. unfold id.
  destruct xs as [|x xs _] using rev_ind.
  { cbn in Ht. rewrite Ht. by exists s. }
  rewrite last_snoc, removelast_last. rewrite length_app in *. simpl in *.
  destruct (Z.eqb_spec (st_top s) (-1)); [lia|]. rewrite (proj2 (Z.ltb_ge _ _)) by lia.
  replace (Z.to_nat (st_top s)) with (length xs) by lia.
  assert (st_elems s !! length xs = Some x) as Hx.
  { rewrite <- (lookup_take_lt _ (length xs + 1)), He by lia. by rewrite lookup_app_r, Nat.sub_diag by lia. }
  rewrite Hx. cbn [lift]. rewrite run_bind, run_ret, run_bind, run_modify, run_ret. eexists. split; [done|].
  split; [|done]. constructor; cbn; try lia.
  rewrite <- (take_app_length xs [x]) at 2. rewrite <- He, take_take. f_equal. lia.
Qed.

Inductive stack_op := Push (el : ptr) | Pop | IsEmpty | Size.
Inductive stack_out := Done (b : bool) | Elem (el : ptr) | Len (n : Z).

Definition run_stack_op (o : stack_op) : M RStack stack_out :=
  match o with
  | Push el => b ← r_stack_push el; mret (Done b)
  | Pop => el ← r_stack_pop; mret (Elem el)
  | IsEmpty => b ← gets r_stack_is_empty; mret (Done b)
  | Size => n ← gets r_stack_size; mret (Len n)
  end.
Fixpoint run_stack_ops (os : list stack_op) : M RStack (list stack_out) :=
  match os with [] => mret [] | o :: os => x ← run_stack_op o; ys ← run_stack_ops os; mret (x :: ys) end.

Definition lifo_op (o : stack_op) xs : stack_out * list ptr :=
  match o with
  | Push el => (Done true, xs ++ [el])
  | Pop => (Elem (default None (last xs)), removelast xs)
  | IsEmpty => (Done (bool_decide (xs = [])), xs)
  | Size => (Len (Z.of_nat (length xs)), xs)
  end.
Fixpoint lifo_ops (os : list stack_op) xs : list stack_out * list ptr :=
  match os with
  | [] => ([], xs)
  | o :: os => let '(x, xs) := lifo_op o xs in let '(ys, xs) := lifo_ops os xs in (x :: ys, xs)
  end.

Lemma run_stack_op_ok o s xs : holds s xs -> st_n_elems s < 2 ^ 29 ->
  exists s', run_stack_op o s = Ok (fst (lifo_op o xs)) s' /\ holds s' (snd (lifo_op o xs)) /\ st_free s' = st_free s /\
    st_n_elems s' <= Z.max (st_n_elems s) (2 * Z.of_nat (length xs)) /\ (length (snd (lifo_op o xs)) <= S (length xs))%nat.
Proof.
  intros H Hc. pose proof H as [Hn Hl [Ht Htn] He]. destruct o as [el| | |]; cbn [run_stack_op lifo_op fst snd].
  - destruct (push_ok s xs el H Hc) as (s' & R & H' & F & Hcap). exists s'. rewrite run_bind, R. split_and!; try done.
    rewrite length_app. simpl. lia.
  - destruct (pop_ok s xs H) as (s' & R & H' & F & Hcap). exists s'. rewrite run_bind, R. split_and!; try done; [lia|].
    destruct xs as [|x xs _] using rev_ind; [simpl; lia|]. rewrite removelast_last, length_app. lia.
  - exists s. rewrite run_bind, run_gets. split; [|split; [done|split; [done|split; [lia|lia]]]].
    unfold r_stack_is_empty. rewrite Ht. destruct xs; [done|]. cbn [length]. destruct (Z.eqb_spec (Z.of_nat (S (length xs)) - 1) (-1)); [lia|done].
  - exists s. rewrite run_bind, run_gets. split; [|split; [done|split; [done|split; [lia|lia]]]].
    unfold r_stack_size. rewrite u32_id by lia. rewrite run_ret. do 2 f_equal. lia.
Qed.

Lemma run_stack_ops_ok os : forall s xs, holds s xs ->
  Z.max (st_n_elems s) (2 * Z.of_nat (length xs + length os)) < 2 ^ 29 ->
  exists s', run_stack_ops os s = Ok (fst (lifo_ops os xs)) s' /\ holds s' (snd (lifo_ops os xs)) /\ st_free s' = st_free s.
Proof.
  induction os as [|o os IH]; intros s xs H Hb; [by exists s|]. cbn [run_stack_ops lifo_ops].
  destruct (run_stack_op_ok o s xs H ltac:(lia)) as (s1 & R1 & H1 & F1 & Hc & Hs). cbn [length] in Hb.
  destruct (IH s1 _ H1 ltac:(lia)) as (s2 & R2 & H2 & F2). exists s2. rewrite run_bind, R1, run_bind, R2.
  destruct (lifo_op o xs) as [x ys]. cbn in *. destruct (lifo_ops os ys). cbn in *. split_and!; [done|done|congruence].
Qed.

(** A stack is a sequence with one end. When it is freed, the callback gets
    all of its elements but the last one. *)
Theorem r_stack_is_lifo n free os :
  0 < n < 2 ^ 29 -> 2 * Z.of_nat (length os) < 2 ^ 29 ->
  exists s, run_stack_ops os (r_stack_newf n free) = Ok (fst (lifo_ops os [])) s /\ holds s (snd (lifo_ops os [])) /\
    r_stack_free s = if free then removelast (snd (lifo_ops os [])) else [].
Proof.
  intros Hn Hlen. destruct (run_stack_ops_ok os (r_stack_newf n free) [] (newf_holds n free ltac:(lia))) as (s & R & H & F);
    [cbn; lia|].
  exists s. split; [done|]. split; [done|]. destruct H as [_ _ [Ht _] He]. revert Ht He. generalize (snd (lifo_ops os [])). intros xs Ht He.
  unfold r_stack_free. rewrite F. cbn [st_free r_stack_newf]. destruct free; [|done]. cbn [andb].
  destruct xs as [|x xs _] using rev_ind; [by rewrite Ht|]. rewrite removelast_last. rewrite length_app in *. simpl in *.
  destruct (Z.ltb_spec 0 (st_top s)) as [Hpos|Hpos].
  - replace (Z.to_nat (st_top s)) with (length xs) by lia.
    rewrite <- (take_app_length xs [x]) at 2. rewrite <- He, take_take. f_equal. lia.
  - destruct xs; [done|]. simpl in *. lia.
Qed.
End stack.
Arguments RStack : clear implicits.
End Stack.

Lemma r_stack_is_lifo_witness :
  exists s, Stack.run_stack_ops (Some 0) [Stack.Push (Some 1); Stack.Push (Some 2); Stack.Push (Some 3); Stack.Pop; Stack.Size]
      (Stack.r_stack_newf 1 true) =
    Ok [Stack.Done true; Stack.Done true; Stack.Done true; Stack.Elem (Some 3); Stack.Len 2] s /\
    Stack.r_stack_free s = [Some 1].
Proof.
  destruct (Stack.r_stack_is_lifo (Some 0) 1 true [Stack.Push (Some 1); Stack.Push (Some 2); Stack.Push (Some 3); Stack.Pop; Stack.Size])
    as (s & R & _ & F); [lia|simpl; lia|].
  exists s. split; [exact R|exact F].
Defined.

(** A stack without room never gets any. *)
Lemma r_stack_new_0 : forall el : option Z, Stack.r_stack_push None el (Stack.r_stack_new 0) = Ok false (Stack.r_stack_new 0).
Proof. reflexivity. Qed.

(** ** Bitmaps: an array of words *)

Module Bitmap.
Section bitmap.
(** [BITWORD_BITS_SHIFT]: 5 on a machine of 32 bits, 6 on others.  A word and
    [size_t] have as many bits. *)
Variable shift : Z.
Definition BITWORD_BITS : Z := 2 ^ shift.
Definition BITWORD_BITS_MASK : Z := BITWORD_BITS - 1.
Definition usize (x : Z) : Z := x mod 2 ^ BITWORD_BITS.
Definition not_word (x : Z) : Z := 2 ^ BITWORD_BITS - 1 - x.

Definition BITWORD_MULT (bit : Z) : Z := Z.land (usize (bit + BITWORD_BITS_MASK)) (not_word BITWORD_BITS_MASK).
Definition BITMAP_WORD_COUNT (bit : Z) : Z := Z.shiftr (BITWORD_MULT bit) shift.

Record RBitmap := mk_bitmap { bm_length : Z; bm_bitmap : list Z }.
Implicit Types (b : RBitmap) (bit : Z).

Definition r_bitmap_new (len : Z) : RBitmap := mk_bitmap (s32 len) (repeat 0 (Z.to_nat (BITMAP_WORD_COUNT len))).

(** The words as bytes, in the order of the machine, which is little-endian. *)
Definition word_size : nat := Z.to_nat (BITWORD_BITS / 8).
Definition bytes_of (ws : list Z) : list Z := flat_map (le_bytes word_size) ws.
Fixpoint words_of (n : nat) (bs : list Z) : list Z :=
  match n with O => [] | S n => le_val (take word_size bs) :: words_of n (drop word_size bs) end.

Definition r_bitmap_set_bytes (buf : list Z) (len : Z) : M RBitmap unit :=
  b ← gets id;
  let len := if bm_length b <? len then bm_length b else len in
  let dst := bytes_of (bm_bitmap b) in
  if (0 <=? len) && (len <=? Z.of_nat (length dst)) && (len <=? Z.of_nat (length buf)) then
    modify (fun b => mk_bitmap (bm_length b)
      (words_of (length (bm_bitmap b)) (take (Z.to_nat len) buf ++ drop (Z.to_nat len) dst)))
  else undef UB_oob.

Definition word_at (i : Z) : M RBitmap Z := b ← gets id; lift UB_oob (bm_bitmap b !! Z.to_nat i).
Definition put_word (i x : Z) : M RBitmap unit :=
  modify (fun b => mk_bitmap (bm_length b) (<[Z.to_nat i := x]> (bm_bitmap b))).
(** [(RBitword)1 << (bit & BITWORD_BITS_MASK)]. *)
Definition bit_mask bit : Z := Z.shiftl 1 (Z.land bit BITWORD_BITS_MASK).

Definition r_bitmap_set bit : M RBitmap unit :=
  b ← gets id;
  if bit <? usize (bm_length b) then
    x ← word_at (Z.shiftr bit shift); put_word (Z.shiftr bit shift) (Z.lor x (bit_mask bit))
  else mret tt.

Definition r_bitmap_unset bit : M RBitmap unit :=
  b ← gets id;
  if bit <? usize (bm_length b) then
    x ← word_at (Z.shiftr bit shift); put_word (Z.shiftr bit shift) (Z.land x (not_word (bit_mask bit)))
  else mret tt.

Definition r_bitmap_test bit : M RBitmap Z :=
  b ← gets id;
  if bit <? usize (bm_length b) then
    x ← word_at (Z.shiftr bit shift); mret (Z.land (Z.shiftr x (Z.land bit BITWORD_BITS_MASK)) 1)
  else mret (-1).

(** *** A bitmap is a set *)

Hypothesis shift_5_6 : shift = 5 \/ shift = 6.

Lemma mask_ones : BITWORD_BITS_MASK = Z.ones shift.
Proof. unfold BITWORD_BITS_MASK, BITWORD_BITS. rewrite Z.ones_equiv. lia. Qed.

Lemma land_mask bit : 0 <= bit -> Z.land bit BITWORD_BITS_MASK = bit mod BITWORD_BITS.
Proof. intros H. rewrite mask_ones, Z.land_ones by lia. done. Qed.

Lemma word_place bit : Z.shiftr bit shift = bit / BITWORD_BITS.
Proof. rewrite Z.shiftr_div_pow2 by lia. done. Qed.

Lemma BITWORD_BITS_values : BITWORD_BITS = 32 \/ BITWORD_BITS = 64.
Proof. unfold BITWORD_BITS. destruct shift_5_6 as [-> | ->]; auto. Qed.

(** The number of words: as many as the bits need. *)
Lemma word_count len : 0 <= len < 2 ^ 31 -> BITMAP_WORD_COUNT len = (len + BITWORD_BITS - 1) / BITWORD_BITS.
Proof.
  intros Hlen. unfold BITMAP_WORD_COUNT, BITWORD_MULT.
  assert (2 ^ 32 <= 2 ^ BITWORD_BITS) by (apply Z.pow_le_mono_r; destruct BITWORD_BITS_values; lia).
  assert (usize (len + BITWORD_BITS_MASK) = len + BITWORD_BITS_MASK) as ->.
  { unfold usize, BITWORD_BITS_MASK. apply Z.mod_small. destruct BITWORD_BITS_values; lia. }
  rewrite Z.shiftr_land. unfold not_word.
  assert (Z.shiftr (2 ^ BITWORD_BITS - 1 - BITWORD_BITS_MASK) shift = Z.ones (BITWORD_BITS - shift)) as ->.
  { unfold BITWORD_BITS_MASK, BITWORD_BITS. by destruct shift_5_6 as [-> | ->]. }
  rewrite Z.land_ones by (unfold BITWORD_BITS; destruct shift_5_6 as [-> | ->]; lia).
  rewrite word_place. unfold BITWORD_BITS_MASK. rewrite Z.mod_small; [f_equal; lia|].
  unfold BITWORD_BITS. destruct shift_5_6 as [-> | ->]; cbn; split; zlia.
Qed.

(** The bits of the words that are set. *)
Definition bit_of (ws : list Z) bit : bool := Z.testbit (default 0 (ws !! Z.to_nat (bit / BITWORD_BITS))) (bit mod BITWORD_BITS).

Record models b (X : gset Z) : Prop := mk_models {
  m_len : 0 <= bm_length b < 2 ^ 31 /\ bm_length b <= BITWORD_BITS * Z.of_nat (length (bm_bitmap b));
  m_words : Forall (fun x => 0 <= x < 2 ^ BITWORD_BITS) (bm_bitmap b);
  m_bits : forall bit, 0 <= bit < bm_length b -> bit_of (bm_bitmap b) bit = bool_decide (bit ∈ X)
}.

Lemma usize_length b X : models b X -> usize (bm_length b) = bm_length b.
Proof.
  intros [[H _] _ _]. apply Z.mod_small.
  assert (2 ^ 32 <= 2 ^ BITWORD_BITS) by (apply Z.pow_le_mono_r; destruct BITWORD_BITS_values; lia). lia.
Qed.

Lemma run_word_at b X bit : models b X -> 0 <= bit < bm_length b ->
  exists x, bm_bitmap b !! Z.to_nat (bit / BITWORD_BITS) = Some x /\ word_at (bit / BITWORD_BITS) b = Ok x b /\
    0 <= x < 2 ^ BITWORD_BITS.
Proof.
  intros [[H1 H2] Hw _] Hb. destruct (lookup_lt_is_Some_2 (bm_bitmap b) (Z.to_nat (bit / BITWORD_BITS))) as [x Hx].
  { destruct BITWORD_BITS_values as [E|E]; rewrite E in *; zlia. }
  exists x. split; [done|]. split; [|by apply (Forall_lookup_1 _ _ _ _ Hw Hx)].
  unfold word_at. rewrite run_bind, run_gets. cbv beta iota. unfold id. by rewrite Hx.
Qed.

(** Changing the bits of a word. *)
Lemma bitmap_update b X bit x y (v : bool) : models b X -> 0 <= bit < bm_length b ->
  bm_bitmap b !! Z.to_nat (bit / BITWORD_BITS) = Some x -> 0 <= y < 2 ^ BITWORD_BITS ->
  (forall i, 0 <= i < BITWORD_BITS -> Z.testbit y i = if decide (i = bit mod BITWORD_BITS) then v else Z.testbit x i) ->
  models (mk_bitmap (bm_length b) (<[Z.to_nat (bit / BITWORD_BITS) := y]> (bm_bitmap b)))
    (if v then {[bit]} ∪ X else X ∖ {[bit]}).
Proof.
  intros [H1 Hw Hbits] Hb Hx Hy Hy2. constructor; cbn.
  - by rewrite length_insert.
  - by apply Forall_insert.
  - intros i Hi. specialize (Hbits i Hi) as Hold. unfold bit_of in *. pose proof (lookup_lt_Some _ _ _ Hx) as Hlen.
    assert (0 < BITWORD_BITS) by (destruct BITWORD_BITS_values; lia).
    destruct (decide (i / BITWORD_BITS = bit / BITWORD_BITS)) as [E|E].
    + rewrite E in *. rewrite list_lookup_insert, decide_True by done. rewrite Hx in Hold. cbn [default option_map from_option id] in *.
      rewrite Hy2 by (apply Z.mod_pos_bound; lia). destruct (decide (i mod BITWORD_BITS = bit mod BITWORD_BITS)) as [Em|Em].
      * assert (i = bit) as -> by (rewrite (Z.div_mod i BITWORD_BITS), (Z.div_mod bit BITWORD_BITS), E, Em by lia; lia).
        destruct v; symmetry; [apply bool_decide_eq_true|apply bool_decide_eq_false]; set_solver.
      * rewrite Hold. assert (i <> bit) by congruence. apply bool_decide_ext. destruct v; set_solver.
    + rewrite list_lookup_insert_ne by (intros E'; apply E; apply Z2Nat.inj; [apply Z.div_pos; lia|apply Z.div_pos; lia|done]).
      rewrite Hold. assert (i <> bit) by congruence. apply bool_decide_ext. destruct v; set_solver.
Qed.

Lemma bit_mask_spec bit i : 0 <= bit -> 0 <= i -> Z.testbit (bit_mask bit) i = bool_decide (i = bit mod BITWORD_BITS).
Proof.
  intros Hb Hi. unfold bit_mask. rewrite land_mask by done.
  assert (0 <= bit mod BITWORD_BITS) by (apply Z.mod_pos_bound; destruct BITWORD_BITS_values; lia).
  rewrite Z.shiftl_mul_pow2, Z.mul_1_l, Z.pow2_bits_eqb by done.
  destruct (Z.eqb_spec (bit mod BITWORD_BITS) i); symmetry; [apply bool_decide_eq_true|apply bool_decide_eq_false]; congruence.
Qed.

Lemma bit_mask_range bit : 0 <= bit -> 0 <= bit_mask bit < 2 ^ BITWORD_BITS.
Proof.
  intros Hb. unfold bit_mask. rewrite land_mask by done.
  assert (0 <= bit mod BITWORD_BITS < BITWORD_BITS) by (apply Z.mod_pos_bound; destruct BITWORD_BITS_values; lia).
  rewrite Z.shiftl_mul_pow2, Z.mul_1_l by lia. split; [apply Z.pow_nonneg; lia|apply Z.pow_lt_mono_r; lia].
Qed.

Lemma r_bitmap_set_ok b X bit : models b X -> 0 <= bit ->
  exists b', r_bitmap_set bit b = Ok tt b' /\ models b' (if bit <? bm_length b then {[bit]} ∪ X else X) /\ bm_length b' = bm_length b.
Proof.
  intros H Hb. unfold r_bitmap_set. rewrite run_bind, run_gets. cbv beta iota. unfold id. rewrite (usize_length b X H).
  destruct (Z.ltb_spec bit (bm_length b)) as [Hlt|]; [|by exists b].
  destruct (run_word_at b X bit H ltac:(lia)) as (x & Hx & R & Hxr). rewrite word_place, run_bind, R. eexists. split; [done|].
  split; [|done]. apply (bitmap_update b X bit x _ true H); [lia|done| |].
  - apply lor_range; [destruct BITWORD_BITS_values; lia|done|by apply bit_mask_range].
  - intros i Hi. rewrite Z.lor_spec, bit_mask_spec by lia. case_decide; case_bool_decide; try done; [by rewrite orb_true_r|by rewrite orb_false_r].
Qed.

Lemma not_word_spec x i : 0 <= x < 2 ^ BITWORD_BITS -> 0 <= i < BITWORD_BITS -> Z.testbit (not_word x) i = negb (Z.testbit x i).
Proof.
  intros Hx Hi. unfold not_word.
  replace (2 ^ BITWORD_BITS - 1 - x) with ((Z.lnot x) mod 2 ^ BITWORD_BITS).
  - by rewrite Z.mod_pow2_bits_low, Z.lnot_spec by lia.
  - unfold Z.lnot. symmetry. apply (Z.mod_unique _ _ (-1)); lia.
Qed.

Lemma unset_ok b X bit : models b X -> 0 <= bit ->
  exists b', r_bitmap_unset bit b = Ok tt b' /\ models b' (if bit <? bm_length b then X ∖ {[bit]} else X) /\ bm_length b' = bm_length b.
Proof.
  intros H Hb. unfold r_bitmap_unset. rewrite run_bind, run_gets. cbv beta iota. unfold id. rewrite (usize_length b X H).
  destruct (Z.ltb_spec bit (bm_length b)) as [Hlt|]; [|by exists b].
  destruct (run_word_at b X bit H ltac:(lia)) as (x & Hx & R & Hxr). rewrite word_place, run_bind, R. eexists. split; [done|].
  split; [|done]. apply (bitmap_update b X bit x _ false H); [lia|done| |].
  - pose proof (bit_mask_range bit Hb). apply land_range; [destruct BITWORD_BITS_values; lia|done|unfold not_word; lia].
  - intros i Hi. rewrite Z.land_spec, not_word_spec, bit_mask_spec by (done || lia || by apply bit_mask_range).
    case_decide; case_bool_decide; try done; [by rewrite andb_false_r|by rewrite andb_true_r].
Qed.

Lemma test_ok b X bit : models b X -> 0 <= bit ->
  r_bitmap_test bit b = Ok (if bit <? bm_length b then b2z (bool_decide (bit ∈ X)) else -1) b.
Proof.
  intros H Hb. unfold r_bitmap_test. rewrite run_bind, run_gets. cbv beta iota. unfold id. rewrite (usize_length b X H).
  destruct (Z.ltb_spec bit (bm_length b)) as [Hlt|]; [|done].
  destruct (run_word_at b X bit H ltac:(lia)) as (x & Hx & R & Hxr). rewrite word_place, run_bind, R, run_ret. f_equal.
  rewrite land_mask by done. rewrite <- (m_bits _ _ H bit ltac:(lia)). unfold bit_of. rewrite Hx. cbn [default].
  change 1 with (Z.ones 1) at 1. rewrite Z.land_ones by lia. change (2 ^ 1) with 2.
  assert (0 <= bit mod BITWORD_BITS) by (apply Z.mod_pos_bound; destruct BITWORD_BITS_values; lia).
  rewrite <- Z.bit0_mod, Z.shiftr_spec by lia. rewrite Z.add_0_l. by destruct (Z.testbit _ _).
Qed.

Inductive bitmap_op := SetBit (bit : Z) | UnsetBit (bit : Z) | TestBit (bit : Z).

Definition run_bitmap_op (o : bitmap_op) : M RBitmap (option Z) :=
  match o with
  | SetBit bit => r_bitmap_set bit ;; mret None
  | UnsetBit bit => r_bitmap_unset bit ;; mret None
  | TestBit bit => r ← r_bitmap_test bit; mret (Some r)
  end.
Fixpoint run_bitmap_ops (os : list bitmap_op) : M RBitmap (list (option Z)) :=
  match os with [] => mret [] | o :: os => x ← run_bitmap_op o; ys ← run_bitmap_ops os; mret (x :: ys) end.

(** The same on a set of numbers below a bound. *)
Definition bit_op_pos (o : bitmap_op) : Prop := match o with SetBit bit | UnsetBit bit | TestBit bit => 0 <= bit end.
Definition set_op (len : Z) (o : bitmap_op) (X : gset Z) : option Z * gset Z :=
  match o with
  | SetBit bit => (None, if bit <? len then {[bit]} ∪ X else X)
  | UnsetBit bit => (None, if bit <? len then X ∖ {[bit]} else X)
  | TestBit bit => (Some (if bit <? len then b2z (bool_decide (bit ∈ X)) else -1), X)
  end.
Fixpoint set_ops (len : Z) (os : list bitmap_op) (X : gset Z) : list (option Z) * gset Z :=
  match os with
  | [] => ([], X)
  | o :: os => let '(x, X) := set_op len o X in let '(ys, X) := set_ops len os X in (x :: ys, X)
  end.

Lemma run_bitmap_ops_ok os : forall b X, models b X -> Forall bit_op_pos os ->
  exists b', run_bitmap_ops os b = Ok (fst (set_ops (bm_length b) os X)) b' /\ models b' (snd (set_ops (bm_length b) os X)).
Proof.
  induction os as [|o os IH]; intros b X H Hpos; [by exists b|]. inversion Hpos as [|? ? Ho Hos]; subst.
  assert (exists b1, run_bitmap_op o b = Ok (fst (set_op (bm_length b) o X)) b1 /\ models b1 (snd (set_op (bm_length b) o X)) /\
    bm_length b1 = bm_length b) as (b1 & R1 & H1 & E1).
  { destruct o as [bit|bit|bit]; cbn [run_bitmap_op set_op fst snd].
    - destruct (r_bitmap_set_ok b X bit H Ho) as (b1 & R & ?). exists b1. by rewrite run_bind, R.
    - destruct (unset_ok b X bit H Ho) as (b1 & R & ?). exists b1. by rewrite run_bind, R.
    - exists b. by rewrite run_bind, (test_ok b X bit H Ho). }
  destruct (IH b1 _ H1 Hos) as (b2 & R2 & H2). exists b2. cbn [run_bitmap_ops set_ops]. rewrite run_bind, R1, run_bind, R2, E1 in *.
  destruct (set_op (bm_length b) o X) as [x Y]. cbn in *. by destruct (set_ops (bm_length b) os Y).
Qed.

Lemma bitmap_new_models len : 0 <= len < 2 ^ 31 -> models (r_bitmap_new len) ∅.
Proof.
  intros Hlen. assert (s32 len = len) as E by (apply s32_id; lia). constructor; cbn; rewrite ?E.
  - split; [done|]. rewrite repeat_length, word_count by done. destruct BITWORD_BITS_values as [-> | ->]; zlia.
  - apply Forall_forall. intros x Hx%list_elem_of_In%repeat_spec. subst x. split; [done|]. apply Z.pow_pos_nonneg; [lia|].
    destruct BITWORD_BITS_values; lia.
  - intros bit _. unfold bit_of. destruct (repeat 0 _ !! _) as [x|] eqn:Ex; cbn; [|apply Z.testbit_0_l].
    apply list_elem_of_lookup_2, list_elem_of_In, repeat_spec in Ex. subst x. apply Z.testbit_0_l.
Qed.

(** A bitmap is a set of numbers below its length. *)
Theorem r_bitmap_is_set len os : 0 <= len < 2 ^ 31 -> Forall bit_op_pos os ->
  exists b, run_bitmap_ops os (r_bitmap_new len) = Ok (fst (set_ops len os ∅)) b /\ models b (snd (set_ops len os ∅)).
Proof.
  intros Hlen Hpos. destruct (run_bitmap_ops_ok os _ _ (bitmap_new_models len Hlen) Hpos) as (b & R & H).
  exists b. cbn [bm_length r_bitmap_new] in *. rewrite s32_id in * by lia. done.
Qed.
End bitmap.
End Bitmap.

Lemma r_bitmap_is_set_witness :
  exists b, Bitmap.run_bitmap_ops 6 [Bitmap.SetBit 3; Bitmap.SetBit 70; Bitmap.UnsetBit 3; Bitmap.TestBit 3; Bitmap.TestBit 70;
      Bitmap.TestBit 100] (Bitmap.r_bitmap_new 6 100) =
    Ok [None; None; None; Some 0; Some 1; Some (-1)] b.
Proof.
  destruct (Bitmap.r_bitmap_is_set 6 (or_intror eq_refl) 100
    [Bitmap.SetBit 3; Bitmap.SetBit 70; Bitmap.UnsetBit 3; Bitmap.TestBit 3; Bitmap.TestBit 70; Bitmap.TestBit 100]) as (b & R & _).
  - lia.
  - repeat constructor; simpl; lia.
  - exists b. rewrite R. vm_compute. reflexivity.
Defined.

(** The length is a number of bits, but [r_bitmap_set_bytes] compares it with a
    number of bytes: it writes beyond the words. *)
Lemma r_bitmap_set_bytes_overflows :
  Bitmap.r_bitmap_set_bytes 6 (repeat 255 128) 128 (Bitmap.r_bitmap_new 6 128) = Undef UB_oob.
Proof. by vm_compute. Qed.
Lemma r_bitmap_set_bytes_fits :
  match Bitmap.r_bitmap_set_bytes 6 [255; 1] 2 (Bitmap.r_bitmap_new 6 128) with
  | Ok _ b => Bitmap.bm_bitmap b = [511; 0]
  | Undef _ => False
  end.
Proof. by vm_compute. Qed.
