(* ===== verification/Breakpoints.v ===== *)
(** * Breakpoints

    [libr/bp/bp.c], [io.c], [plugin.c] and [watch.c], with the instructions of
    [libr/bp/p].  Items are kept in a store by number; what is freed leaves it.
    The memory that breakpoints are written into is reached through the
    functions of [iob], which are parameters.

    Not modelled: what is printed ([r_bp_list], [r_bp_plugin_list]) and the
    traces of [traptrace.c]. *)

From S2P Require Import Prelude Buf.

Record RBreakpointArch := mk_arch { ba_bits : Z; ba_length : Z; ba_endian : Z; ba_bytes : list Z }.
Record RBreakpointPlugin := mk_plugin { bpp_name : string; bpp_nbps : Z; bpp_bps : list RBreakpointArch }.

(** ** The plugins: the array of every one ends with an empty entry. *)
Definition arch_end : RBreakpointArch := mk_arch 0 0 0 [].

Definition r_bp_plugin_x86 : RBreakpointPlugin :=
  mk_plugin "x86" 2 [mk_arch 0 1 0 [0xcc]; mk_arch 0 2 0 [0xcd; 0x03]; arch_end].
Definition r_bp_plugin_arm : RBreakpointPlugin :=
  mk_plugin "arm" 9
    [mk_arch 64 4 0 [0xfe; 0xde; 0xff; 0xe7]; mk_arch 64 1 0 [0xfe; 0xde; 0xff; 0xe7];
     mk_arch 32 4 0 [0x01; 0x00; 0x9f; 0xef]; mk_arch 32 4 1 [0xef; 0x9f; 0x00; 0x01];
     mk_arch 16 2 0 [0xde; 0x01]; mk_arch 16 2 1 [0x01; 0xde]; mk_arch 16 2 0 [0xfe; 0xdf]; mk_arch 16 2 1 [0xdf; 0xfe];
     mk_arch 16 4 1 [0xff; 0xff; 0xff; 0xff]; mk_arch 16 1 1 [0xff; 0xff; 0xff; 0xff]; arch_end].
Definition r_bp_plugin_mips : RBreakpointPlugin :=
  mk_plugin "mips" 10 [mk_arch 32 4 0 [0x0d; 0; 0; 0]; mk_arch 32 4 1 [0; 0; 0; 0x0d]; arch_end].
Definition r_bp_plugin_ppc : RBreakpointPlugin :=
  mk_plugin "ppc" 2 [mk_arch 32 4 0 [0; 0; 0; 0x0d]; mk_arch 32 4 1 [0x0d; 0; 0; 0]; arch_end].
Definition r_bp_plugin_sh : RBreakpointPlugin :=
  mk_plugin "sh" 2 [mk_arch 32 2 0 [0x20; 0xc3]; mk_arch 32 2 1 [0xc3; 0x20]; arch_end].
Definition r_bp_plugin_bf : RBreakpointPlugin :=
  mk_plugin "bf" 2 [mk_arch 0 1 0 [0xff]; mk_arch 0 1 0 [0]; arch_end].

Definition R_BP_TYPE_SW : Z := 0.
Definition R_BP_TYPE_HW : Z := 1.
Definition R_BP_CONT_NORMAL : Z := 0.

Record RBreakpointItem := mk_bpi {
  bi_name : option string;
  bi_addr : Z;
  bi_size : Z;
  bi_recoil : Z;
  bi_rwx : Z;
  bi_hw : Z;
  bi_trace : Z;
  bi_enabled : Z;
  bi_obytes : option (list Z);
  bi_bbytes : option (list Z)
}.
Definition set_bi_trace (v : Z) (b : RBreakpointItem) : RBreakpointItem :=
  mk_bpi (bi_name b) (bi_addr b) (bi_size b) (bi_recoil b) (bi_rwx b) (bi_hw b) v (bi_enabled b) (bi_obytes b) (bi_bbytes b).
Definition set_bi_enabled (v : Z) (b : RBreakpointItem) : RBreakpointItem :=
  mk_bpi (bi_name b) (bi_addr b) (bi_size b) (bi_recoil b) (bi_rwx b) (bi_hw b) (bi_trace b) v (bi_obytes b) (bi_bbytes b).

Section bp.
Context {Mem : Type}.
(** [iob.read_at] and [iob.write_at]: the bytes of a range, and their change. *)
Context (read_at : Mem -> Z -> Z -> list Z) (write_at : Mem -> Z -> list Z -> Mem).

(** [bp_breakpoint] is the callback of the debugger, which says whether it
    dealt with the breakpoint. *)
Record RBreakpoint := mk_bp {
  bp_stepcont : Z;
  bp_endian : Z;
  bp_bits : Z;
  bp_mem : Mem;
  bp_cur : option RBreakpointPlugin;
  bp_plugins : list RBreakpointPlugin;
  bp_breakpoint : option (RBreakpointItem -> bool -> bool);
  bp_nbps : Z;
  bp_bps : list nat;
  bp_bps_idx : list (option nat);
  bp_delta : Z;
  bp_items : gmap nat RBreakpointItem;
  bp_next : nat
}.
Implicit Types (bp : RBreakpoint) (b : RBreakpointItem) (addr : Z).

Definition set_stepcont (v : Z) bp : RBreakpoint :=
  mk_bp v (bp_endian bp) (bp_bits bp) (bp_mem bp) (bp_cur bp) (bp_plugins bp) (bp_breakpoint bp) (bp_nbps bp) (bp_bps bp)
    (bp_bps_idx bp) (bp_delta bp) (bp_items bp) (bp_next bp).
Definition set_bits (v : Z) bp : RBreakpoint :=
  mk_bp (bp_stepcont bp) (bp_endian bp) v (bp_mem bp) (bp_cur bp) (bp_plugins bp) (bp_breakpoint bp) (bp_nbps bp) (bp_bps bp)
    (bp_bps_idx bp) (bp_delta bp) (bp_items bp) (bp_next bp).
Definition set_mem (v : Mem) bp : RBreakpoint :=
  mk_bp (bp_stepcont bp) (bp_endian bp) (bp_bits bp) v (bp_cur bp) (bp_plugins bp) (bp_breakpoint bp) (bp_nbps bp) (bp_bps bp)
    (bp_bps_idx bp) (bp_delta bp) (bp_items bp) (bp_next bp).
Definition set_cur (v : option RBreakpointPlugin) bp : RBreakpoint :=
  mk_bp (bp_stepcont bp) (bp_endian bp) (bp_bits bp) (bp_mem bp) v (bp_plugins bp) (bp_breakpoint bp) (bp_nbps bp) (bp_bps bp)
    (bp_bps_idx bp) (bp_delta bp) (bp_items bp) (bp_next bp).
Definition set_plugins (v : list RBreakpointPlugin) bp : RBreakpoint :=
  mk_bp (bp_stepcont bp) (bp_endian bp) (bp_bits bp) (bp_mem bp) (bp_cur bp) v (bp_breakpoint bp) (bp_nbps bp) (bp_bps bp)
    (bp_bps_idx bp) (bp_delta bp) (bp_items bp) (bp_next bp).
Definition set_nbps (v : Z) bp : RBreakpoint :=
  mk_bp (bp_stepcont bp) (bp_endian bp) (bp_bits bp) (bp_mem bp) (bp_cur bp) (bp_plugins bp) (bp_breakpoint bp) v (bp_bps bp)
    (bp_bps_idx bp) (bp_delta bp) (bp_items bp) (bp_next bp).
Definition set_bps (v : list nat) bp : RBreakpoint :=
  mk_bp (bp_stepcont bp) (bp_endian bp) (bp_bits bp) (bp_mem bp) (bp_cur bp) (bp_plugins bp) (bp_breakpoint bp) (bp_nbps bp) v
    (bp_bps_idx bp) (bp_delta bp) (bp_items bp) (bp_next bp).
Definition set_bps_idx (v : list (option nat)) bp : RBreakpoint :=
  mk_bp (bp_stepcont bp) (bp_endian bp) (bp_bits bp) (bp_mem bp) (bp_cur bp) (bp_plugins bp) (bp_breakpoint bp) (bp_nbps bp)
    (bp_bps bp) v (bp_delta bp) (bp_items bp) (bp_next bp).
Definition set_delta (v : Z) bp : RBreakpoint :=
  mk_bp (bp_stepcont bp) (bp_endian bp) (bp_bits bp) (bp_mem bp) (bp_cur bp) (bp_plugins bp) (bp_breakpoint bp) (bp_nbps bp)
    (bp_bps bp) (bp_bps_idx bp) v (bp_items bp) (bp_next bp).
Definition set_bp_items (v : gmap nat RBreakpointItem) bp : RBreakpoint :=
  mk_bp (bp_stepcont bp) (bp_endian bp) (bp_bits bp) (bp_mem bp) (bp_cur bp) (bp_plugins bp) (bp_breakpoint bp) (bp_nbps bp)
    (bp_bps bp) (bp_bps_idx bp) (bp_delta bp) v (bp_next bp).

Definition bpi_at (i : nat) : M RBreakpoint RBreakpointItem := s ← gets bp_items; lift UB_free (s !! i).
Definition put_bpi (i : nat) b : M RBreakpoint unit := modify (fun bp => set_bp_items (<[i := b]> (bp_items bp)) bp).
(** [r_bp_item_free]. *)
Definition r_bp_item_free (i : nat) : M RBreakpoint unit :=
  bpi_at i ;; modify (fun bp => set_bp_items (delete i (bp_items bp)) bp).

(** ** plugin.c *)

(** The walk for a plugin of the same name goes over the breakpoints, whose
    first field is a name too; a null one is compared. *)
Fixpoint same_name (name : string) (l : list nat) : M RBreakpoint bool :=
  match l with
  | [] => mret false
  | i :: l =>
      b ← bpi_at i;
      match bi_name b with
      | None => undef UB_null
      | Some n => if String.eqb n name then mret true else same_name name l
      end
  end.
Definition r_bp_plugin_add (foo : RBreakpointPlugin) : M RBreakpoint bool :=
  l ← gets bp_bps;
  dup ← same_name (bpp_name foo) l;
  if (dup : bool) then mret false
  else
    modify (fun bp => set_nbps (bp_nbps bp + 1) bp) ;;
    modify (fun bp => set_plugins (bp_plugins bp ++ [foo]) bp) ;;
    mret true.
Definition r_bp_plugin_del (name : string) : M RBreakpoint bool := mret false.

Definition r_bp_use (name : string) (bits : Z) : M RBreakpoint bool :=
  modify (set_bits bits) ;;
  l ← gets bp_plugins;
  match find (fun h => String.eqb (bpp_name h) name) l with
  | Some h => modify (set_cur (Some h)) ;; mret true
  | None => mret false
  end.

(** ** bp.c *)

Definition r_bp_new (mem : Mem) (callback : option (RBreakpointItem -> bool -> bool)) (endian : Z)
    (bp_static_plugins : list RBreakpointPlugin) : RBreakpoint :=
  mk_bp R_BP_CONT_NORMAL endian 0 mem None bp_static_plugins callback (Z.of_nat (length bp_static_plugins)) []
    (repeat None 16) 0 ∅ 0.

(** [memcpy (buf + off, bytes, n)]. *)
Definition copy_bytes (buf : list Z) (off : nat) (bytes : list Z) (n : Z) : M RBreakpoint (list Z) :=
  if (0 <=? n) && (n <=? Z.of_nat (length bytes)) && (Z.of_nat off + n <=? Z.of_nat (length buf))
  then mret (take off buf ++ take (Z.to_nat n) bytes ++ drop (off + Z.to_nat n) buf)
  else undef UB_oob.

Definition arch_matches (bits endian len : Z) (b : RBreakpointArch) : bool :=
  ((ba_bits b =? 0) || (bits =? ba_bits b)) && (ba_length b =? len) && (ba_endian b =? endian).

(** The first of [n] entries that matches; the array may have fewer. *)
Fixpoint find_arch (n : nat) (l : list RBreakpointArch) (p : RBreakpointArch -> bool) : M RBreakpoint (option RBreakpointArch) :=
  match n with
  | O => mret None
  | S n =>
      match l with
      | [] => undef UB_oob
      | b :: l => if p b then mret (Some b) else find_arch n l p
      end
  end.

(** The bytes of the first entry at every offset below [len]. *)
Fixpoint pad_bytes (n off : nat) (b : RBreakpointArch) (buf : list Z) : M RBreakpoint (list Z) :=
  match n with
  | O => mret buf
  | S n => buf ← copy_bytes buf off (ba_bytes b) (ba_length b); pad_bytes n (S off) b buf
  end.

(** The result and the buffer. *)
Definition r_bp_get_bytes (buf : list Z) (len endian : Z) : M RBreakpoint (Z * list Z) :=
  bp ← gets id;
  match bp_cur bp with
  | None => mret (0, buf)
  | Some cur =>
      let find len := find_arch (Z.to_nat (bpp_nbps cur)) (bpp_bps cur) (arch_matches (bp_bits bp) endian len) in
      r ← find len;
      r ← (if negb (is_some r) && negb (len =? 4) then find 4 else mret r);
      match r with
      | Some b => buf ← copy_bytes buf 0 (ba_bytes b) (ba_length b); mret (ba_length b, buf)
      | None =>
          match bpp_bps cur with
          | [] => undef UB_oob
          | b :: _ =>
              if ba_length b =? 0 then undef UB_div
              else if negb (4 `rem` ba_length b =? 0) then mret (0, buf)
              else buf ← pad_bytes 4 0 b buf; mret (ba_length b, buf)
          end
      end
  end.

(** The first item of a list with a property. *)
Fixpoint find_item (p : RBreakpointItem -> bool) (l : list nat) : M RBreakpoint (option nat) :=
  match l with
  | [] => mret None
  | i :: l => b ← bpi_at i; if p b then mret (Some i) else find_item p l
  end.

Definition at_addr addr b : bool := bi_addr b =? addr.
Definition r_bp_get_at addr : M RBreakpoint (option nat) := l ← gets bp_bps; find_item (at_addr addr) l.

Definition inRange b addr : bool := (bi_addr b <=? addr) && (addr <? u64 (bi_addr b + bi_size b)).
Definition matchProt b (rwx : Z) : bool := negb (z2b rwx) || (z2b rwx && z2b (bi_rwx b)).
Definition r_bp_get_in addr (rwx : Z) : M RBreakpoint (option nat) :=
  l ← gets bp_bps; find_item (fun b => inRange b addr && matchProt b rwx) l.

Definition with_bpi (i : nat) (g : RBreakpointItem -> RBreakpointItem) : M RBreakpoint unit := b ← bpi_at i; put_bpi i (g b).
Fixpoint each_bpi (g : RBreakpointItem -> RBreakpointItem) (l : list nat) : M RBreakpoint unit :=
  match l with [] => mret tt | i :: l => with_bpi i g ;; each_bpi g l end.

Definition r_bp_enable addr (set : Z) : M RBreakpoint (option nat) :=
  i ← r_bp_get_in addr 0;
  match i with Some i => with_bpi i (set_bi_enabled set) ;; mret (Some i) | None => mret None end.
Definition r_bp_enable_all (set : Z) : M RBreakpoint bool := l ← gets bp_bps; each_bpi (set_bi_enabled set) l ;; mret true.
Definition r_bp_set_trace addr (set : Z) : M RBreakpoint bool :=
  i ← r_bp_get_in addr 0;
  match i with Some i => with_bpi i (set_bi_trace set) ;; mret true | None => mret false end.
Definition r_bp_set_trace_all (set : Z) : M RBreakpoint bool := l ← gets bp_bps; each_bpi (set_bi_trace set) l ;; mret true.
Definition r_bp_stepy_continuation : M RBreakpoint Z := gets bp_stepcont.

(** The first empty slot of the index; the index grows when there is none. *)
Fixpoint empty_slot (k : nat) (l : list (option nat)) : option nat :=
  match l with
  | [] => None
  | None :: _ => Some k
  | Some _ :: l => empty_slot (S k) l
  end.
Definition zero_bpi : RBreakpointItem := mk_bpi None 0 0 0 0 0 0 0 None None.
Definition r_bp_item_new : M RBreakpoint nat := fun bp =>
  let idx := bp_bps_idx bp in
  let '(idx, k) := match empty_slot 0 idx with Some k => (idx, k) | None => (idx ++ repeat None 16, length idx) end in
  let i := bp_next bp in
  Ok i (mk_bp (bp_stepcont bp) (bp_endian bp) (bp_bits bp) (bp_mem bp) (bp_cur bp) (bp_plugins bp) (bp_breakpoint bp) (bp_nbps bp)
    (bp_bps bp) (<[k := Some i]> idx) (bp_delta bp) (<[i := zero_bpi]> (bp_items bp)) (S i)).

(** The end of [r_bp_add]. *)
Definition append_bp (i : nat) : M RBreakpoint (option nat) :=
  modify (fun bp => set_nbps (bp_nbps bp + 1) bp) ;;
  modify (fun bp => set_bps (bp_bps bp ++ [i]) bp) ;;
  mret (Some i).

Definition r_bp_add (obytes : option (list Z)) addr (size hw rwx : Z) : M RBreakpoint (option nat) :=
  if (addr =? UT64_MAX) || (size <? 1) then mret None
  else
    old ← r_bp_get_in addr rwx;
    if is_some old then mret None
    else
      i ← r_bp_item_new;
      bp ← gets id;
      let item obytes bbytes recoil := mk_bpi None (u64 (addr + bp_delta bp)) size recoil rwx hw 0 1 obytes bbytes in
      if hw =? 0 then
        let ob := take (Z.to_nat size) <$> obytes in
        '(ret, bbytes) ← r_bp_get_bytes (repeat 0 (Z.to_nat (size + 16))) size (bp_endian bp);
        put_bpi i (item ob (Some bbytes) 0) ;;
        if negb (ret =? size) then r_bp_item_free i ;; mret None
        else put_bpi i (item ob (Some bbytes) ret) ;; append_bp i
      else put_bpi i (item None None 0) ;; append_bp i.

Definition r_bp_add_fault addr (size rwx : Z) : M RBreakpoint bool := mret false.
Definition r_bp_add_sw addr (size rwx : Z) : M RBreakpoint (option nat) :=
  bp ← gets id;
  let size := if size <? 1 then 1 else size in
  r_bp_add (Some (read_at (bp_mem bp) addr size)) addr size R_BP_TYPE_SW rwx.
Definition r_bp_add_hw addr (size rwx : Z) : M RBreakpoint (option nat) := r_bp_add None addr size R_BP_TYPE_HW rwx.

(** Freeing the items of a list. *)
Fixpoint free_items (l : list nat) : M RBreakpoint unit :=
  match l with [] => mret tt | i :: l => r_bp_item_free i ;; free_items l end.

Definition r_bp_del_all : M RBreakpoint bool :=
  l ← gets bp_bps;
  match l with
  | [] => mret false
  | _ => free_items l ;; modify (set_bps []) ;; mret true
  end.

(** [r_list_delete_data], which frees the item that it takes out. *)
Definition delete_data (i : nat) : M RBreakpoint unit :=
  l ← gets bp_bps;
  if existsb (Nat.eqb i) l then
    modify (set_bps (delete_first (Nat.eqb i) l)) ;; r_bp_item_free i
  else mret tt.

Definition r_bp_del addr : M RBreakpoint bool :=
  i ← r_bp_get_at addr;
  match i with Some i => delete_data i ;; mret true | None => mret false end.

Definition r_bp_get_index (idx : Z) : M RBreakpoint (option nat) :=
  l ← gets bp_bps_idx;
  mret (if (0 <=? idx) && (idx <? Z.of_nat (length l)) then default None (l !! Z.to_nat idx) else None).

(** The item is freed once more after it was taken out of the list. *)
Definition r_bp_del_index (idx : Z) : M RBreakpoint bool :=
  l ← gets bp_bps_idx;
  if (0 <=? idx) && (idx <? Z.of_nat (length l)) then
    match default None (l !! Z.to_nat idx) with
    | Some i => delete_data i ;; r_bp_item_free i
    | None => mret tt
    end ;;
    modify (fun bp => set_bps_idx (<[Z.to_nat idx := None]> (bp_bps_idx bp)) bp) ;;
    mret true
  else mret false.

(** ** io.c *)

Definition write_bytes addr (bytes : list Z) (n : Z) : M RBreakpoint unit :=
  if n <=? Z.of_nat (length bytes)
  then modify (fun bp => set_mem (write_at (bp_mem bp) addr (take (Z.to_nat n) bytes)) bp)
  else undef UB_oob.

Definition r_bp_restore_one b (set : bool) : M RBreakpoint unit :=
  match (if set then bi_bbytes b else bi_obytes b) with
  | Some bytes => if bi_hw b =? 0 then write_bytes (bi_addr b) bytes (bi_size b) else mret tt
  | None => mret tt
  end.

Fixpoint restore_walk (set : bool) addr (l : list nat) : M RBreakpoint unit :=
  match l with
  | [] => mret tt
  | i :: l =>
      b ← bpi_at i;
      bp ← gets id;
      (if negb (addr =? 0) && (bi_addr b =? addr) then mret tt
       else if match bp_breakpoint bp with Some callback => callback b set | None => false end then mret tt
       else r_bp_restore_one b set) ;;
      restore_walk set addr l
  end.
Definition r_bp_restore_except (set : bool) addr : M RBreakpoint bool :=
  l ← gets bp_bps; restore_walk set addr l ;; mret true.
Definition r_bp_restore (set : bool) : M RBreakpoint bool := r_bp_restore_except set 0.

(** ** watch.c *)

Definition r_bp_add_cond (cond : string) : M RBreakpoint Z := modify (set_stepcont 1) ;; mret 0.
Definition r_bp_del_cond (idx : Z) : M RBreakpoint bool := modify (set_stepcont 0) ;; mret true.
End bp.
Arguments RBreakpoint : clear implicits.
