(* ===== verification/BreakpointFacts.v ===== *)
(** * What breakpoints do to memory

    Breakpoints are added while the program is whole, written into it and
    taken out again: the memory is then what it was ([r_bp_restore_roundtrip]).
    No operation follows a freed pointer on the way, as long as the index of
    [libr/bp/bp.c] is not used; the lemmas at the end show what the index, a
    displacement and the plugins do. *)

From S2P Require Import Prelude Buf Breakpoints.

(** ** Memory *)

Section facts.
Context {Mem : Type}.
Context (read_at : Mem -> Z -> Z -> list Z) (write_at : Mem -> Z -> list Z -> Mem).
(** The byte at an address. *)
Context (byte_of : Mem -> Z -> Z).
Notation RBP := (RBreakpoint Mem).
Implicit Types (bp : RBP) (b : RBreakpointItem) (m : Mem) (i : nat) (l : list nat) (addr : Z).

(** The place of an address in a range that may wrap. *)
Definition place_in addr x : nat := Z.to_nat (u64 (x - addr)).

Hypothesis read_spec : forall m addr n k, (k < Z.to_nat n)%nat ->
  read_at m addr n !! k = Some (byte_of m (u64 (addr + Z.of_nat k))).
Hypothesis read_length : forall m addr n, length (read_at m addr n) = Z.to_nat n.
Hypothesis write_spec : forall m addr bytes x, 0 <= x < 2 ^ 64 ->
  byte_of (write_at m addr bytes) x = default (byte_of m x) (bytes !! place_in addr x).

Definition same_mem m m' : Prop := forall x, 0 <= x < 2 ^ 64 -> byte_of m x = byte_of m' x.

Lemma place_inv addr x : 0 <= x < 2 ^ 64 -> u64 (addr + Z.of_nat (place_in addr x)) = x.
Proof.
  intros Hx. unfold place_in. rewrite Z2Nat.id by apply u64_range. unfold u64. rewrite Zplus_mod_idemp_r.
  replace (addr + (x - addr)) with x by lia. by apply Z.mod_small.
Qed.

(** ** Items that stand for what memory held *)

Definition sw b : bool := bi_hw b =? 0.
Definition covers b x : Prop := (place_in (bi_addr b) x < Z.to_nat (bi_size b))%nat.
#[export] Instance covers_dec b x : Decision (covers b x).
Proof. unfold covers. apply _. Defined.

(** [m] is the memory when the breakpoint was added. *)
Definition item_ok m b : Prop :=
  1 <= bi_size b < 2 ^ 31 /\
  (sw b = true -> exists ob bb, bi_obytes b = Some ob /\ bi_bbytes b = Some bb /\
     ob = read_at m (bi_addr b) (bi_size b) /\ (Z.to_nat (bi_size b) <= length bb)%nat).

Definition plugin_ok (p : RBreakpointPlugin) : Prop :=
  bpp_nbps p <= Z.of_nat (length (bpp_bps p)) /\
  Forall (fun a => 0 <= ba_length a <= 13 /\ ba_length a <= Z.of_nat (length (ba_bytes a))) (bpp_bps p) /\
  match bpp_bps p with [] => False | a :: _ => ba_length a <> 0 end.

Record bp_ok m bp : Prop := mk_bp_ok {
  bo_mem : same_mem (bp_mem bp) m;
  bo_delta : bp_delta bp = 0;
  bo_callback : bp_breakpoint bp = None;
  bo_cur : match bp_cur bp with Some p => plugin_ok p | None => True end;
  bo_plugins : Forall plugin_ok (bp_plugins bp);
  bo_nodup : NoDup (bp_bps bp);
  bo_items : forall i, i ∈ bp_bps bp -> (i < bp_next bp)%nat /\ exists b, bp_items bp !! i = Some b /\ item_ok m b
}.

Lemma run_bpi_at bp i b : bp_items bp !! i = Some b -> bpi_at i bp = Ok b bp.
Proof. intros H. unfold bpi_at. by rewrite run_bind, run_gets, H. Qed.

Lemma run_put_bpi bp i b : put_bpi i b bp = Ok tt (set_bp_items (<[i := b]> (bp_items bp)) bp).
Proof. done. Qed.

Definition known bp l : Prop := forall i, i ∈ l -> is_Some (bp_items bp !! i).

Lemma bp_ok_known m bp : bp_ok m bp -> known bp (bp_bps bp).
Proof. intros H i Hi. destruct (bo_items _ _ H i Hi) as (_ & b & -> & _). done. Qed.

Lemma run_find_item bp p l : known bp l -> exists r, find_item p l bp = Ok r bp /\ forall i, r = Some i -> i ∈ l.
Proof.
  induction l as [|i l IH]; intros H; [by exists None|]. destruct (H i) as [b Hb]; [by left|]. cbn [find_item].
  rewrite run_bind, (run_bpi_at _ _ _ Hb). destruct (p b).
  - exists (Some i). split; [done|]. intros j [= <-]. by left.
  - destruct IH as (r & R & Hr); [intros j Hj; apply H; by right|]. exists r. split; [done|]. intros j Hj. right. by apply Hr.
Qed.

Lemma run_bp_get_at m bp addr : bp_ok m bp -> exists r, r_bp_get_at addr bp = Ok r bp /\ forall i, r = Some i -> i ∈ bp_bps bp.
Proof. intros H. unfold r_bp_get_at. rewrite run_bind, run_gets. by eapply run_find_item, bp_ok_known. Qed.

Lemma run_get_in m bp addr rwx : bp_ok m bp ->
  exists r, r_bp_get_in addr rwx bp = Ok r bp /\ forall i, r = Some i -> i ∈ bp_bps bp.
Proof. intros H. unfold r_bp_get_in. rewrite run_bind, run_gets. by eapply run_find_item, bp_ok_known. Qed.

(** *** Changing settings of items *)

(** Only [trace] and [enabled] change. *)
Definition keeps (g : RBreakpointItem -> RBreakpointItem) : Prop := forall b,
  bi_addr (g b) = bi_addr b /\ bi_size (g b) = bi_size b /\ bi_hw (g b) = bi_hw b /\ bi_obytes (g b) = bi_obytes b /\
  bi_bbytes (g b) = bi_bbytes b.

Lemma keeps_item_ok g m b : keeps g -> item_ok m b -> item_ok m (g b).
Proof.
  intros Hg [H1 H2]. destruct (Hg b) as (E1 & E2 & E3 & E4 & E5). unfold item_ok, sw. by rewrite E1, E2, E3, E4, E5.
Qed.

Lemma put_bpi_ok m bp i b : bp_ok m bp -> i ∈ bp_bps bp -> item_ok m b -> bp_ok m (set_bp_items (<[i := b]> (bp_items bp)) bp).
Proof.
  intros [] Hi Hb. constructor; cbn; try done. intros j Hj. destruct (bo_items0 j Hj) as (Hlt & c & Hc & Hok). split; [done|].
  destruct (decide (j = i)) as [->|]; [exists b; by rewrite lookup_insert_eq|exists c; by rewrite lookup_insert_ne].
Qed.

Lemma run_with_bpi m bp i g : bp_ok m bp -> i ∈ bp_bps bp -> keeps g ->
  exists bp', with_bpi i g bp = Ok tt bp' /\ bp_ok m bp' /\ bp_bps bp' = bp_bps bp.
Proof.
  intros H Hi Hg. destruct (bo_items _ _ H i Hi) as (_ & b & Hb & Hok). unfold with_bpi.
  rewrite run_bind, (run_bpi_at _ _ _ Hb). eexists. split; [done|]. split; [|done]. apply put_bpi_ok; [done|done|by apply keeps_item_ok].
Qed.

Lemma run_each_bpi m g l : keeps g -> forall bp, bp_ok m bp -> (forall i, i ∈ l -> i ∈ bp_bps bp) ->
  exists bp', each_bpi g l bp = Ok tt bp' /\ bp_ok m bp' /\ bp_bps bp' = bp_bps bp.
Proof.
  intros Hg. induction l as [|i l IH]; intros bp H Hl; [by exists bp|]. cbn [each_bpi].
  destruct (run_with_bpi m bp i g H) as (bp1 & R1 & H1 & E1); [apply Hl; by left|done|].
  destruct (IH bp1 H1) as (bp2 & R2 & H2 & E2); [intros j Hj; rewrite E1; apply Hl; by right|].
  exists bp2. rewrite run_bind, R1. split; [done|]. split; [done|congruence].
Qed.

(** *** Adding *)

Lemma run_copy_bytes buf off bytes n bp : 0 <= n <= Z.of_nat (length bytes) -> Z.of_nat off + n <= Z.of_nat (length buf) ->
  exists buf', copy_bytes buf off bytes n bp = Ok buf' bp /\ length buf' = length buf.
Proof.
  intros Hn Hoff. unfold copy_bytes. rewrite !(proj2 (Z.leb_le _ _)) by lia. eexists. split; [done|].
  rewrite !length_app, !length_take, length_drop. lia.
Qed.

Lemma run_pad_bytes a n bp : 0 <= ba_length a <= 13 -> ba_length a <= Z.of_nat (length (ba_bytes a)) ->
  forall off buf, (17 <= length buf)%nat -> (off + n <= 4)%nat ->
  exists buf', pad_bytes n off a buf bp = Ok buf' bp /\ length buf' = length buf.
Proof.
  intros H1 H2. induction n as [|n IH]; intros off buf Hbuf Hoff; [by exists buf|]. cbn [pad_bytes].
  destruct (run_copy_bytes buf off (ba_bytes a) (ba_length a) bp) as (buf1 & R1 & L1); [lia|lia|].
  rewrite run_bind, R1. destruct (IH (S off) buf1) as (buf2 & R2 & L2); [lia|lia|]. exists buf2. split; [done|congruence].
Qed.

Lemma run_find_arch n (l : list RBreakpointArch) (p : RBreakpointArch -> bool) bp : (n <= length l)%nat -> exists r, find_arch n l p bp = Ok r bp /\ forall a, r = Some a -> a ∈ l.
Proof.
  revert l. induction n as [|n IH]; intros l Hn; [by exists None|]. destruct l as [|a l]; [simpl in Hn; lia|]. cbn [find_arch].
  destruct (p a); [exists (Some a); split; [done|]; intros c [= <-]; by left|].
  destruct (IH l) as (r & R & Hr); [simpl in Hn; lia|]. exists r. split; [done|]. intros c Hc. right. by apply Hr.
Qed.

Lemma run_get_bytes m bp buf len endian : bp_ok m bp -> (17 <= length buf)%nat ->
  exists ret buf', r_bp_get_bytes buf len endian bp = Ok (ret, buf') bp /\ length buf' = length buf.
Proof.
  intros H Hbuf. unfold r_bp_get_bytes. rewrite run_bind, run_gets. cbv beta iota. unfold id.
  pose proof (bo_cur _ _ H) as Hcur. destruct (bp_cur bp) as [cur|]; [|by exists 0, buf]. destruct Hcur as (Hn & Hall & Hfst).
  rewrite Forall_forall in Hall. cbv zeta.
  assert (forall len, exists r, find_arch (Z.to_nat (bpp_nbps cur)) (bpp_bps cur) (arch_matches (bp_bits bp) endian len) bp = Ok r bp /\
    forall a, r = Some a -> a ∈ bpp_bps cur) as Hfind by (intros len'; apply run_find_arch; lia).
  destruct (Hfind len) as (r & R & Hr). rewrite run_bind, R.
  assert (exists r', (if negb (is_some r) && negb (len =? 4) then
      find_arch (Z.to_nat (bpp_nbps cur)) (bpp_bps cur) (arch_matches (bp_bits bp) endian 4) else mret r) bp = Ok r' bp /\
    forall a, r' = Some a -> a ∈ bpp_bps cur) as (r' & R' & Hr').
  { destruct (_ && _); [apply Hfind|by exists r]. }
  rewrite run_bind, R'. destruct r' as [a|].
  - destruct (Hall a (Hr' a eq_refl)). destruct (run_copy_bytes buf 0 (ba_bytes a) (ba_length a) bp) as (buf1 & R1 & L1); [lia|lia|].
    rewrite run_bind, R1. by exists (ba_length a), buf1.
  - destruct (bpp_bps cur) as [|a l]; [done|]. destruct (Hall a) as [Ha1 Ha2]; [by left|].
    destruct (Z.eqb_spec (ba_length a) 0); [done|]. destruct (negb (4 `rem` _ =? 0)); [by exists 0, buf|].
    destruct (run_pad_bytes a 4 bp Ha1 Ha2 0 buf Hbuf ltac:(lia)) as (buf1 & R1 & L1).
    rewrite run_bind, R1. by exists (ba_length a), buf1.
Qed.

(** A new item, which is in no list. *)
Lemma run_item_new m bp : bp_ok m bp -> exists i bp1, r_bp_item_new bp = Ok i bp1 /\ i = bp_next bp /\ bp_ok m bp1 /\
  bp_bps bp1 = bp_bps bp /\ i ∉ bp_bps bp1 /\ (i < bp_next bp1)%nat /\ bp_items bp1 !! i = Some zero_bpi.
Proof.
  intros []. assert (bp_next bp ∉ bp_bps bp) as Hnew.
  { intros Hi. destruct (bo_items0 _ Hi). lia. }
  unfold r_bp_item_new. cbv zeta. destruct (match empty_slot 0 (bp_bps_idx bp) with Some k => _ | None => _ end) as [idx k].
  do 2 eexists. split; [done|]. split; [done|]. split; [|split_and!; [done|done|cbn; lia|apply lookup_insert_eq]].
  constructor; cbn; try done. intros j Hj. destruct (bo_items0 j Hj) as (Hlt & b & Hb & Hok). split; [lia|].
  exists b. rewrite lookup_insert_ne by lia. done.
Qed.

(** What is not in the list of breakpoints may be anything. *)
Lemma put_new_ok m bp i b : bp_ok m bp -> i ∉ bp_bps bp -> bp_ok m (set_bp_items (<[i := b]> (bp_items bp)) bp).
Proof.
  intros [] Hi. constructor; cbn; try done. intros j Hj. destruct (bo_items0 j Hj) as (Hlt & c & Hc & Hok). split; [done|].
  exists c. rewrite lookup_insert_ne; [done|]. by intros ->.
Qed.

Lemma delete_ok m bp i : bp_ok m bp -> i ∉ bp_bps bp -> bp_ok m (set_bp_items (delete i (bp_items bp)) bp).
Proof.
  intros [] Hi. constructor; cbn; try done. intros j Hj. destruct (bo_items0 j Hj) as (Hlt & c & Hc & Hok). split; [done|].
  exists c. rewrite lookup_delete_ne; [done|]. by intros ->.
Qed.

Lemma append_ok m bp i b : bp_ok m bp -> i ∉ bp_bps bp -> (i < bp_next bp)%nat -> bp_items bp !! i = Some b -> item_ok m b ->
  exists bp', append_bp i bp = Ok (Some i) bp' /\ bp_ok m bp'.
Proof.
  intros [] Hi Hlt Hb Hok. unfold append_bp. rewrite run_bind, run_modify, run_bind, run_modify, run_ret. eexists. split; [done|].
  constructor; cbn; try done.
  - apply NoDup_app. split; [done|]. split; [|apply NoDup_singleton]. by intros j Hj ->%list_elem_of_singleton.
  - intros j [Hj| ->%list_elem_of_singleton]%elem_of_app; [by apply bo_items0|]. split; [done|]. by exists b.
Qed.
Lemma same_mem_read m m' addr n : same_mem m m' -> read_at m addr n = read_at m' addr n.
Proof.
  intros H. apply list_eq. intros k. destruct (decide (k < Z.to_nat n)%nat) as [Hk|Hk].
  - rewrite !read_spec by done. f_equal. apply H, u64_range.
  - rewrite !lookup_ge_None_2; [done| |]; rewrite read_length; lia.
Qed.

(** An operation that changes items and lists only. *)
Definition harmless m {A} (c : M RBP A) : Prop := forall bp, bp_ok m bp -> exists a bp', c bp = Ok a bp' /\ bp_ok m bp'.

Lemma r_bp_add_ok m ob addr size hw rwx : 0 <= addr < 2 ^ 64 -> size < 2 ^ 31 - 16 -> (hw = 0 -> ob = Some (read_at m addr size)) ->
  harmless m (r_bp_add ob addr size hw rwx).
Proof.
  intros Haddr Hsize Hob bp H. unfold r_bp_add. destruct (_ || _) eqn:E; [by exists None, bp|].
  apply orb_false_iff in E as [_ E%Z.ltb_ge].
  destruct (run_get_in m bp addr rwx H) as (r & R & _). rewrite run_bind, R.
  destruct r as [j|]; [by exists None, bp|]. cbn [is_some]. clear R.
  destruct (run_item_new m bp H) as (i & bp1 & R1 & _ & H1 & _ & Hi & Hlt & _). rewrite run_bind, R1, run_bind, run_gets.
  cbv beta iota zeta. unfold id. rewrite (bo_delta _ _ H1), Z.add_0_r.
  assert (u64 addr = addr) as -> by (by apply Z.mod_small).
  destruct (Z.eqb_spec hw 0) as [Hhw|Hhw].
  - destruct (run_get_bytes m bp1 (repeat 0 (Z.to_nat (size + 16))) size (bp_endian bp1) H1) as (ret & bb & R2 & L2); [rewrite repeat_length; lia|].
    rewrite run_bind, R2. cbv beta iota. rewrite repeat_length in L2.
    rewrite run_bind, run_put_bpi. set (b1 := mk_bpi _ _ _ 0 _ _ _ _ _ _). set (bp2 := set_bp_items _ bp1). assert (bp_ok m bp2) as H2 by (by apply put_new_ok).
    destruct (negb _).
    + unfold r_bp_item_free. rewrite run_bind, run_bind, (run_bpi_at bp2 i b1) by (apply lookup_insert_eq). rewrite run_modify, run_ret.
      do 2 eexists. split; [done|]. by apply delete_ok.
    + rewrite run_bind, run_put_bpi. set (b2 := mk_bpi _ _ _ ret _ _ _ _ _ _).
      edestruct (append_ok m (set_bp_items (<[i := b2]> (bp_items bp2)) bp2) i b2) as (bp3 & -> & H3); [by apply put_new_ok|done|done|apply lookup_insert_eq| |by do 2 eexists].
      split; [subst b2; cbn; lia|]. intros _. subst b2. cbn. rewrite Hob by done. do 2 eexists. split; [done|]. split; [done|].
      split; [|lia]. rewrite take_ge; [done|]. rewrite read_length. lia.
  - rewrite run_bind, run_put_bpi.
    set (b := mk_bpi _ _ _ _ _ _ _ _ _ _).
    edestruct (append_ok m (set_bp_items (<[i := b]> (bp_items bp1)) bp1) i b) as (bp3 & -> & H3); [by apply put_new_ok|done|done|apply lookup_insert_eq| |by do 2 eexists].
    split; [subst b; cbn; lia|]. subst b. unfold sw. cbn. intros E'%Z.eqb_eq. done.
Qed.

Lemma r_bp_add_sw_ok m addr size rwx : 0 <= addr < 2 ^ 64 -> size < 2 ^ 31 - 16 -> harmless m (r_bp_add_sw read_at addr size rwx).
Proof.
  intros Ha Hs bp H. unfold r_bp_add_sw. rewrite run_bind, run_gets. cbv beta iota zeta. unfold id.
  rewrite (same_mem_read (bp_mem bp) m) by apply H. apply r_bp_add_ok; [done| |done|done]. destruct (size <? 1); lia.
Qed.

Lemma r_bp_add_hw_ok m addr size rwx : 0 <= addr < 2 ^ 64 -> size < 2 ^ 31 - 16 -> harmless m (r_bp_add_hw addr size rwx).
Proof. intros Ha Hs. by apply r_bp_add_ok. Qed.

(** *** Removing *)

Lemma delete_first_spec i l : NoDup l -> forall j, j ∈ delete_first (Nat.eqb i) l <-> j ∈ l /\ j <> i.
Proof.
  induction 1 as [|k l Hk Hl IH]; intros j; [set_solver|]. cbn. destruct (Nat.eqb_spec i k) as [->|].
  - set_solver.
  - rewrite !elem_of_cons, IH. naive_solver.
Qed.

Lemma delete_first_nodup i l : NoDup l -> NoDup (delete_first (Nat.eqb i) l).
Proof.
  induction 1 as [|k l Hk Hl IH]; cbn; [constructor|]. destruct (Nat.eqb_spec i k); [done|]. constructor; [|done].
  by intros [? _]%delete_first_spec.
Qed.

Lemma bps_sub_ok m bp l : bp_ok m bp -> NoDup l -> (forall i, i ∈ l -> i ∈ bp_bps bp) -> bp_ok m (set_bps l bp).
Proof. intros [] Hn Hl. constructor; cbn; try done. intros i Hi. apply bo_items0, Hl, Hi. Qed.

Lemma run_item_free m bp i : bp_ok m bp -> i ∉ bp_bps bp -> is_Some (bp_items bp !! i) ->
  exists bp', r_bp_item_free i bp = Ok tt bp' /\ bp' = set_bp_items (delete i (bp_items bp)) bp /\ bp_ok m bp'.
Proof.
  intros H Hi [b Hb]. unfold r_bp_item_free. rewrite run_bind, (run_bpi_at _ _ _ Hb), run_modify. eexists. split; [done|].
  split; [done|]. by apply delete_ok.
Qed.

Lemma r_bp_del_ok m addr : harmless m (r_bp_del addr).
Proof.
  intros bp H. unfold r_bp_del. destruct (run_bp_get_at m bp addr H) as ([i|] & R & Hi); rewrite run_bind, R; [|by exists false, bp].
  specialize (Hi i eq_refl). unfold delete_data. rewrite run_bind, run_bind, run_gets.
  assert (existsb (Nat.eqb i) (bp_bps bp) = true) as ->.
  { apply existsb_exists. exists i. split; [by apply list_elem_of_In|apply Nat.eqb_refl]. }
  rewrite run_bind, run_modify. pose proof (delete_first_spec i (bp_bps bp) (bo_nodup _ _ H)) as Hd.
  edestruct (run_item_free m (set_bps (delete_first (Nat.eqb i) (bp_bps bp)) bp) i) as (bp2 & -> & _ & H2).
  - apply bps_sub_ok; [done|by apply delete_first_nodup, H|]. intros j Hj. by apply Hd.
  - cbn. intros [_ ?]%Hd. done.
  - cbn. destruct (bo_items _ _ H i Hi) as (_ & b & -> & _). done.
  - by exists true, bp2.
Qed.

Lemma run_free_items m l : forall bp, NoDup l -> known bp l -> exists bp', free_items l bp = Ok tt bp' /\
  bp' = set_bp_items (bp_items bp') bp /\ (forall i, i ∉ l -> bp_items bp' !! i = bp_items bp !! i).
Proof.
  induction l as [|i l IH]; intros bp Hn Hk; [exists bp; by destruct bp|]. apply NoDup_cons in Hn as [Hi Hn].
  destruct (Hk i) as [b Hb]; [by left|]. cbn [free_items]. unfold r_bp_item_free.
  rewrite run_bind, run_bind, (run_bpi_at _ _ _ Hb), run_modify.
  destruct (IH (set_bp_items (delete i (bp_items bp)) bp)) as (bp' & R & E & Hother); [done| |].
  - intros j Hj. cbn. rewrite lookup_delete_ne by (by intros ->). apply Hk. by right.
  - exists bp'. split; [done|]. split; [rewrite E; by destruct bp|]. intros j Hj. rewrite Hother by set_solver. cbn.
    rewrite lookup_delete_ne; set_solver.
Qed.

Lemma r_bp_del_all_ok m : harmless m r_bp_del_all.
Proof.
  intros bp H. unfold r_bp_del_all. rewrite run_bind, run_gets. destruct (bp_bps bp) eqn:E; [by exists false, bp|].
  rewrite <- E. destruct (run_free_items m (bp_bps bp) bp) as (bp' & R & E' & _); [apply H|by eapply bp_ok_known|].
  rewrite run_bind, R, run_bind, run_modify, run_ret. do 2 eexists. split; [done|]. rewrite E'. destruct H.
  constructor; cbn; try done; [constructor|]. set_solver.
Qed.
(** *** Programs of operations *)

Inductive bp_op : Type :=
  | OpUse (name : string) (bits : Z)
  | OpAddSw (addr size rwx : Z)
  | OpAddHw (addr size rwx : Z)
  | OpDel (addr : Z)
  | OpDelAll
  | OpEnable (addr set : Z)
  | OpEnableAll (set : Z)
  | OpTrace (addr set : Z)
  | OpTraceAll (set : Z).

(** The operation, with what it answers left out. *)
Definition run_bp_op (op : bp_op) : M RBP unit :=
  match op with
  | OpUse name bits => r_bp_use name bits ;; mret tt
  | OpAddSw addr size rwx => r_bp_add_sw read_at addr size rwx ;; mret tt
  | OpAddHw addr size rwx => r_bp_add_hw addr size rwx ;; mret tt
  | OpDel addr => r_bp_del addr ;; mret tt
  | OpDelAll => r_bp_del_all ;; mret tt
  | OpEnable addr set => r_bp_enable addr set ;; mret tt
  | OpEnableAll set => r_bp_enable_all set ;; mret tt
  | OpTrace addr set => r_bp_set_trace addr set ;; mret tt
  | OpTraceAll set => r_bp_set_trace_all set ;; mret tt
  end.
Fixpoint run_bp_ops (ops : list bp_op) : M RBP unit :=
  match ops with [] => mret tt | op :: ops => run_bp_op op ;; run_bp_ops ops end.

(** Addresses of 64 bits, and sizes whose buffer is one of an [int]. *)
Definition bp_op_ok (op : bp_op) : Prop :=
  match op with
  | OpAddSw addr size _ | OpAddHw addr size _ => 0 <= addr < 2 ^ 64 /\ size < 2 ^ 31 - 16
  | _ => True
  end.

Lemma r_bp_use_ok m name bits : harmless m (r_bp_use name bits).
Proof.
  intros bp H. unfold r_bp_use. rewrite run_bind, run_modify, run_bind, run_gets. destruct H.
  destruct (find _ _) as [p|] eqn:E; [rewrite run_bind, run_modify, run_ret|]; (do 2 eexists; split; [done|]).
  - apply find_some in E as [E _]. cbn in E. apply list_elem_of_In in E. constructor; cbn; try done.
    rewrite Forall_forall in bo_plugins0. by apply bo_plugins0.
  - by constructor.
Qed.

Lemma run_setting m bp addr g : keeps g -> bp_ok m bp ->
  exists r, r_bp_get_in addr 0 bp = Ok r bp /\
    match r with Some i => exists bp', with_bpi i g bp = Ok tt bp' /\ bp_ok m bp' | None => True end.
Proof.
  intros Hg H. destruct (run_get_in m bp addr 0 H) as (r & R & Hr). exists r. split; [done|]. destruct r as [i|]; [|done].
  destruct (run_with_bpi m bp i g H (Hr i eq_refl) Hg) as (bp' & R' & H' & _). by exists bp'.
Qed.

Lemma keeps_enabled v : keeps (set_bi_enabled v).
Proof. by intros []. Qed.
Lemma keeps_trace v : keeps (set_bi_trace v).
Proof. by intros []. Qed.

Lemma r_bp_enable_ok m addr v : harmless m (r_bp_enable addr v).
Proof.
  intros bp H. unfold r_bp_enable. destruct (run_setting m bp addr _ (keeps_enabled v) H) as ([i|] & R & Hi); rewrite run_bind, R.
  - destruct Hi as (bp' & R' & H'). rewrite run_bind, R'. by exists (Some i), bp'.
  - by exists None, bp.
Qed.

Lemma r_bp_set_trace_ok m addr v : harmless m (r_bp_set_trace addr v).
Proof.
  intros bp H. unfold r_bp_set_trace. destruct (run_setting m bp addr _ (keeps_trace v) H) as ([i|] & R & Hi); rewrite run_bind, R.
  - destruct Hi as (bp' & R' & H'). rewrite run_bind, R'. by exists true, bp'.
  - by exists false, bp.
Qed.

Lemma each_ok m g : keeps g -> harmless m (l ← gets bp_bps; each_bpi g l ;; mret true).
Proof.
  intros Hg bp H. rewrite run_bind, run_gets. destruct (run_each_bpi m g (bp_bps bp) Hg bp H) as (bp' & R & H' & _); [done|].
  rewrite run_bind, R. by exists true, bp'.
Qed.

Lemma harmless_drop m {A} (c : M RBP A) : harmless m c -> harmless m (c ;; mret tt).
Proof. intros H bp Hbp. destruct (H bp Hbp) as (a & bp' & R & H'). rewrite run_bind, R. by exists tt, bp'. Qed.

Lemma run_bp_op_ok m op : bp_op_ok op -> harmless m (run_bp_op op).
Proof.
  destruct op; cbn; intros Hop; apply harmless_drop.
  - apply r_bp_use_ok.
  - destruct Hop. by apply r_bp_add_sw_ok.
  - destruct Hop. by apply r_bp_add_hw_ok.
  - apply r_bp_del_ok.
  - apply r_bp_del_all_ok.
  - apply r_bp_enable_ok.
  - apply each_ok, keeps_enabled.
  - apply r_bp_set_trace_ok.
  - apply each_ok, keeps_trace.
Qed.

Lemma run_bp_ops_ok m ops : Forall bp_op_ok ops -> harmless m (run_bp_ops ops).
Proof.
  induction 1 as [|op ops Hop _ IH]; intros bp H; [by exists tt, bp|]. cbn [run_bp_ops].
  destruct (run_bp_op_ok m op Hop bp H) as ([] & bp1 & R1 & H1). rewrite run_bind, R1. by apply IH.
Qed.

Lemma r_bp_new_ok m endian plugins : Forall plugin_ok plugins -> bp_ok m (r_bp_new m None endian plugins).
Proof. intros Hp. constructor; cbn; try done. constructor. set_solver. Qed.
(** *** Writing breakpoints and what they replaced *)

(** What [r_bp_restore] writes for an item. *)
Definition shown (set : bool) b : option (list Z) := if set then bi_bbytes b else bi_obytes b.

(** A software breakpoint of [l] lies over [x] and memory [m'] has its byte there. *)
Definition shows (set : bool) bp l m' x : Prop :=
  exists i b bytes, i ∈ l /\ bp_items bp !! i = Some b /\ sw b = true /\ covers b x /\ shown set b = Some bytes /\
    bytes !! place_in (bi_addr b) x = Some (byte_of m' x).
Definition covered bp l x : Prop := exists i b, i ∈ l /\ bp_items bp !! i = Some b /\ sw b = true /\ covers b x.

Lemma covered_dec bp l x : covered bp l x \/ ~ covered bp l x.
Proof.
  induction l as [|i l IH]; [right; intros (i & b & Hi & _); set_solver|].
  destruct IH as [(j & c & Hj & H)|H]; [left; exists j, c; split; [by right|done]|].
  destruct (bp_items bp !! i) as [b|] eqn:Eb; [destruct (decide (sw b = true /\ covers b x)) as [Hin|Hin]|].
  - left. exists i, b. split; [by left|done].
  - right. intros (j & c & [-> |Hj]%elem_of_cons & Hc & Hrest); [by simplify_eq|]. apply H. by exists j, c.
  - right. intros (j & c & [-> |Hj]%elem_of_cons & Hc & Hrest); [by simplify_eq|]. apply H. by exists j, c.
Qed.

Lemma shown_long set m b : item_ok m b -> sw b = true ->
  exists bytes, shown set b = Some bytes /\ (Z.to_nat (bi_size b) <= length bytes)%nat.
Proof.
  intros [_ H] Hsw. destruct (H Hsw) as (ob & bb & E1 & E2 & -> & L). destruct set; cbn; eexists; (split; [done|]); [done|].
  by rewrite read_length.
Qed.

Lemma run_restore_one set m b bp : item_ok m b -> exists m',
  r_bp_restore_one write_at b set bp = Ok tt (set_mem m' bp) /\
  forall x, 0 <= x < 2 ^ 64 ->
    (sw b = true /\ covers b x -> exists bytes, shown set b = Some bytes /\ bytes !! place_in (bi_addr b) x = Some (byte_of m' x)) /\
    (~ (sw b = true /\ covers b x) -> byte_of m' x = byte_of (bp_mem bp) x).
Proof.
  intros H. unfold r_bp_restore_one. fold (shown set b). destruct (sw b) eqn:Esw.
  - destruct (shown_long set m b H Esw) as (bytes & Es & L). rewrite Es. unfold sw in Esw. rewrite Esw. unfold write_bytes.
    rewrite (proj2 (Z.leb_le _ _)) by (destruct H; lia). rewrite run_modify. eexists. split; [done|]. intros x Hx.
    rewrite write_spec by done. unfold covers. split.
    + intros [_ Hc]. exists bytes. split; [done|]. rewrite lookup_take_lt by done.
      destruct (lookup_lt_is_Some_2 bytes (place_in (bi_addr b) x)) as [y ->]; [lia|]. done.
    + intros Hc. rewrite lookup_take_ge; [done|]. destruct (decide (place_in (bi_addr b) x < Z.to_nat (bi_size b))%nat); [tauto|lia].
  - exists (bp_mem bp). unfold sw in Esw. rewrite Esw. split; [by destruct (shown _ _), bp|]. intros x _. split; [by intros []|done].
Qed.

Lemma run_restore_walk set m l : forall bp, bp_breakpoint bp = None ->
  (forall i, i ∈ l -> exists b, bp_items bp !! i = Some b /\ item_ok m b) ->
  exists m', restore_walk write_at set 0 l bp = Ok tt (set_mem m' bp) /\
    forall x, 0 <= x < 2 ^ 64 ->
      (covered bp l x -> shows set bp l m' x) /\ (~ covered bp l x -> byte_of m' x = byte_of (bp_mem bp) x).
Proof.
  induction l as [|i l IH]; intros bp Hcb Hl.
  - exists (bp_mem bp). split; [by destruct bp|]. intros x Hx. split; [|done]. intros (i & b & Hi & _). set_solver.
  - destruct (Hl i) as (b & Hb & Hok); [by left|]. cbn [restore_walk].
    rewrite run_bind, (run_bpi_at _ _ _ Hb), run_bind, run_gets. cbv beta iota. unfold id. rewrite Hcb. cbn [negb andb Z.eqb].
    destruct (run_restore_one set m b bp Hok) as (m1 & R1 & H1). rewrite run_bind, R1.
    destruct (IH (set_mem m1 bp)) as (m2 & R2 & H2); [done|intros j Hj; apply Hl; by right|]. rewrite R2.
    exists m2. split; [done|]. intros x Hx. destruct (H1 x Hx) as [H1a H1b]. destruct (H2 x Hx) as [H2a H2b].
    change (bp_mem (set_mem m1 bp)) with m1 in H2b. split.
    + intros H. destruct (covered_dec bp l x) as [Hc|Hc].
      * destruct (H2a Hc) as (j & c & bytes & Hj & Hrest). exists j, c, bytes. split; [by right|done].
      * rewrite <- (H2b Hc) in H1a. destruct (decide (sw b = true /\ covers b x)) as [Hin|Hin].
        -- destruct (H1a Hin) as (bytes & E1 & E2). destruct Hin. exists i, b, bytes. split_and!; try done. by left.
        -- exfalso. apply Hin. destruct H as (j & c & [-> |Hj]%elem_of_cons & Hc' & Hsw & Hcov); [by simplify_eq|].
           destruct Hc. by exists j, c.
    + intros Hc. rewrite H2b; [apply H1b|].
      * intros [Hsw Hcov]. apply Hc. exists i, b. split; [by left|done].
      * intros (j & c & Hj & Hrest). apply Hc. exists j, c. split; [by right|done].
Qed.

(** What taking breakpoints out leaves is what memory held. *)
Lemma restored_byte m b x : item_ok m b -> sw b = true -> covers b x -> 0 <= x < 2 ^ 64 -> forall bytes,
  shown false b = Some bytes -> bytes !! place_in (bi_addr b) x = Some (byte_of m x).
Proof.
  intros [_ H] Hsw Hcov Hx bytes Hs. destruct (H Hsw) as (ob & bb & E1 & _ & E2 & _). cbn in Hs.
  rewrite E1 in Hs. injection Hs as <-. rewrite E2, read_spec by done. by rewrite place_inv.
Qed.

(** C17: a new set of breakpoints (no callback, a [delta] of 0) whose plugins all give
    bytes ([plugin_ok]) is run with any of the operations [bp_op]: use of a plugin,
    addition of software and hardware breakpoints, deletion by address and of all,
    enabling and tracing, of one and of all.  They change no memory.  Writing the
    breakpoints then succeeds and puts the bytes of a breakpoint wherever one lies and
    nothing elsewhere, and taking them out gives the memory back as it was, whatever
    breakpoints overlap.  Addresses are of 64 bits, and sizes leave room in an [int] for
    what [r_bp_add] adds to them; [r_bp_del_index], which frees twice, is not one of the
    operations. *)
Theorem r_bp_restore_roundtrip m endian plugins ops :
  Forall plugin_ok plugins -> Forall bp_op_ok ops -> exists bp mid final,
    run_bp_ops ops (r_bp_new m None endian plugins) = Ok tt bp /\ same_mem (bp_mem bp) m /\
    r_bp_restore write_at true bp = Ok true (set_mem mid bp) /\
    (forall x, 0 <= x < 2 ^ 64 -> (covered bp (bp_bps bp) x -> shows true bp (bp_bps bp) mid x) /\
       (~ covered bp (bp_bps bp) x -> byte_of mid x = byte_of m x)) /\
    r_bp_restore write_at false (set_mem mid bp) = Ok true (set_mem final bp) /\ same_mem final m.
Proof.
  intros Hp Hops. destruct (run_bp_ops_ok m ops Hops _ (r_bp_new_ok m endian plugins Hp)) as ([] & bp & R & H).
  assert (forall i, i ∈ bp_bps bp -> exists b, bp_items bp !! i = Some b /\ item_ok m b) as Hl.
  { intros i Hi. by destruct (bo_items _ _ H i Hi). }
  destruct (run_restore_walk true m (bp_bps bp) bp) as (mid & R1 & H1); [apply H|done|].
  destruct (run_restore_walk false m (bp_bps bp) (set_mem mid bp)) as (final & R2 & H2); [apply H|done|].
  exists bp, mid, final. unfold r_bp_restore, r_bp_restore_except. split_and!; [done|apply H| | | |].
  - by rewrite run_bind, run_gets, run_bind, R1, run_ret.
  - intros x Hx. destruct (H1 x Hx) as [Ha Hb]. split; [done|]. intros Hc. rewrite (Hb Hc). by apply (bo_mem _ _ H).
  - rewrite run_bind, run_gets. change (bp_bps (set_mem mid bp)) with (bp_bps bp). by rewrite run_bind, R2, run_ret.
  - intros x Hx. destruct (H2 x Hx) as [Ha Hb]. destruct (covered_dec bp (bp_bps bp) x) as [Hc|Hc].
    + destruct (Ha Hc) as (i & b & bytes & Hi & Eb & Hsw & Hcov & Es & Ex). destruct (Hl i Hi) as (c & Ec & Hok).
      assert (b = c) as <- by (change (bp_items bp !! i = Some b) in Eb; congruence).
      rewrite (restored_byte m b x Hok Hsw Hcov Hx bytes Es) in Ex. by injection Ex.
    + rewrite (Hb Hc). cbn. rewrite (proj2 (H1 x Hx) Hc). by apply (bo_mem _ _ H).
Qed.
End facts.

(** ** Memory as a function *)

Definition fread (m : Z -> Z) (addr n : Z) : list Z := (fun k => m (u64 (addr + Z.of_nat k))) <$> seq 0 (Z.to_nat n).
Definition fwrite (m : Z -> Z) (addr : Z) (bytes : list Z) (x : Z) : Z :=
  if u64 (x - addr) <? Z.of_nat (length bytes) then nth (place_in addr x) bytes 0 else m x.

Lemma fread_spec m addr n k : (k < Z.to_nat n)%nat -> fread m addr n !! k = Some (m (u64 (addr + Z.of_nat k))).
Proof. intros H. unfold fread. by rewrite list_lookup_fmap, lookup_seq_lt. Qed.
Lemma fread_length m addr n : length (fread m addr n) = Z.to_nat n.
Proof. unfold fread. by rewrite length_fmap, length_seq. Qed.
Lemma fwrite_spec m addr bytes x : fwrite m addr bytes x = default (m x) (bytes !! place_in addr x).
Proof.
  unfold fwrite, place_in. pose proof (u64_range (x - addr)). destruct (Z.ltb_spec (u64 (x - addr)) (Z.of_nat (length bytes))).
  - destruct (lookup_lt_is_Some_2 bytes (Z.to_nat (u64 (x - addr)))) as [y Hy]; [lia|]. rewrite Hy. by apply nth_lookup_Some.
  - by rewrite lookup_ge_None_2 by lia.
Qed.

Ltac bp_run := vm_compute; reflexivity.

Definition static_plugins : list RBreakpointPlugin :=
  [r_bp_plugin_x86; r_bp_plugin_arm; r_bp_plugin_ppc; r_bp_plugin_sh; r_bp_plugin_bf].
Lemma static_plugins_ok : Forall plugin_ok static_plugins.
Proof. repeat first [constructor | split]; cbn; try lia. Qed.

Notation DemoM := (M (RBreakpoint (Z -> Z))).
Definition demo_mem (x : Z) : Z := x mod 16.
Definition demo_bp (plugins : list RBreakpointPlugin) : RBreakpoint (Z -> Z) := r_bp_new demo_mem None 0 plugins.
Definition demo_ops : list bp_op :=
  [OpUse "x86" 64; OpAddSw 0x1003 1 0; OpAddSw 0x1002 2 0; OpAddSw 0x1001 1 0; OpAddHw 0x1008 1 0; OpDel 0x1001].
(** The bytes at and after 0x1000. *)
Definition demo_bytes : DemoM (list Z) := bp ← gets id; mret (fread (bp_mem bp) 0x1000 6).

(** The result of a run, without the state. *)
Definition result {S A} (o : outcome S A) : ub + A := match o with Ok a _ => inr a | Undef u => inl u end.

Lemma r_bp_restore_roundtrip_witness :
  (exists bp mid final, run_bp_ops fread demo_ops (demo_bp static_plugins) = Ok tt bp /\ same_mem (fun m x => m x) (bp_mem bp) demo_mem /\
    r_bp_restore fwrite true bp = Ok true (set_mem mid bp) /\
    (forall x, 0 <= x < 2 ^ 64 ->
       (covered bp (bp_bps bp) x -> shows (fun m x => m x) true bp (bp_bps bp) mid x) /\
       (~ covered bp (bp_bps bp) x -> mid x = demo_mem x)) /\
    r_bp_restore fwrite false (set_mem mid bp) = Ok true (set_mem final bp) /\ same_mem (fun m x => m x) final demo_mem) /\
  result ((run_bp_ops fread demo_ops ;; r_bp_restore fwrite true ;; demo_bytes) (demo_bp static_plugins)) = inr [0; 1; 0xcd; 3; 4; 5] /\
  result ((run_bp_ops fread demo_ops ;; r_bp_restore fwrite true ;; r_bp_restore fwrite false ;; demo_bytes) (demo_bp static_plugins)) =
    inr [0; 1; 2; 3; 4; 5].
Proof.
  split; [|split; [bp_run|bp_run]].
  apply (r_bp_restore_roundtrip fread fwrite (fun m x => m x)); [apply fread_spec|apply fread_length|by intros; apply fwrite_spec|apply static_plugins_ok|].
  unfold demo_ops. rewrite !Forall_cons, Forall_nil. cbn. lia.
Defined.

(** ** What else the code does *)

(** [r_bp_del_index] frees its breakpoint when it takes it out of the list,
    and once more. *)
Lemma r_bp_del_index_frees_twice :
  result ((run_bp_ops fread [OpUse "x86" 64; OpAddSw 0x1000 1 0] ;; r_bp_del_index 0) (demo_bp static_plugins)) = inl UB_free.
Proof. bp_run. Qed.

(** [r_bp_del] leaves the freed breakpoint in the index. *)
Lemma r_bp_del_leaves_index :
  result ((run_bp_ops fread [OpUse "x86" 64; OpAddSw 0x1000 1 0; OpDel 0x1000] ;;
    i ← r_bp_get_index 0; match i with Some i => bpi_at i | None => undef UB_null end) (demo_bp static_plugins)) = inl UB_free.
Proof. bp_run. Qed.

(** With a displacement, the bytes kept are those of the address without it,
    and end up at the address with it. *)
Lemma r_bp_delta_restores_wrong :
  result ((run_bp_ops fread [OpUse "x86" 64] ;; modify (set_delta 1) ;; run_bp_ops fread [OpAddSw 0x1000 1 0] ;;
    r_bp_restore fwrite true ;; r_bp_restore fwrite false ;; demo_bytes) (demo_bp static_plugins)) = inr [0; 0; 2; 3; 4; 5].
Proof. bp_run. Qed.

(** [r_bp_plugin_add] compares the name of the plugin with those of the
    breakpoints, which have none. *)
Lemma r_bp_plugin_add_walks_breakpoints :
  result ((run_bp_ops fread [OpUse "x86" 64; OpAddSw 0x1000 1 0] ;; r_bp_plugin_add r_bp_plugin_bf) (demo_bp static_plugins)) = inl UB_null.
Proof. bp_run. Qed.

(** The MIPS plugin says that it has ten entries, and has two. *)
Lemma r_bp_mips_reads_past :
  ~ plugin_ok r_bp_plugin_mips /\
  result ((run_bp_ops fread [OpUse "mips" 32; OpAddSw 0x1000 2 0]) (demo_bp [r_bp_plugin_mips])) = inl UB_oob.
Proof. split; [intros [H _]; cbn in H; lia|bp_run]. Qed.

(** The last entry of the ARM plugin is beyond the nine that it says it has. *)
Lemma r_bp_arm_hides_last :
  find (arch_matches 16 1 1) (bpp_bps r_bp_plugin_arm) = Some (mk_arch 16 1 1 [0xff; 0xff; 0xff; 0xff]) /\
  find (arch_matches 16 1 1) (take (Z.to_nat (bpp_nbps r_bp_plugin_arm)) (bpp_bps r_bp_plugin_arm)) = None.
Proof. split; reflexivity. Qed.

(** Four bytes are filled with the first entry of the plugin at every offset
    instead of one after the other, and [r_bp_add] refuses the result, which
    answers with the length of that entry. *)
Lemma r_bp_fills_every_offset :
  result ((r_bp_use "sh" 32 ;; r_bp_get_bytes (repeat 0 20) 4 1) (demo_bp static_plugins)) =
    inr (2, [0x20; 0x20; 0x20; 0x20; 0xc3] ++ repeat 0 15) /\
  result ((r_bp_use "x86" 64 ;; r_bp_add_sw fread 0x1000 4 0) (demo_bp static_plugins)) = inr None.
Proof. split; bp_run. Qed.
