(* ===== verification/Calc.v ===== *)
(** * The calculator

    [libr/util/calc.c], a calculator with the grammar of expressions, terms and
    primaries, and what [libr/util/num.c] builds on it.  A value is a number of
    64 bits and a [double], which is computed beside it; the doubles are those of
    [SpecFloat] with 53 bits.

    Not modelled: [r_num_units], which prints a [double], the random numbers,
    and the code that [R_NUM_USE_CALC] leaves out. *)

From Stdlib Require Import SpecFloat.
From S2P Require Import Prelude Num Names.

(** ** Doubles *)

Notation double := spec_float.
Definition dadd : double -> double -> double := SFadd 53 1024.
Definition dsub : double -> double -> double := SFsub 53 1024.
Definition dmul : double -> double -> double := SFmul 53 1024.
Definition ddiv : double -> double -> double := SFdiv 53 1024.
Definition double_of (n : Z) : double := binary_normalize 53 1024 n 0 false.
Definition dzero : double := S754_zero false.
(** [!d]. *)
Definition is_dzero (d : double) : bool := match d with S754_zero _ => true | _ => false end.
(** The conversion to [ut64], which is undefined outside of its range. *)
Definition u64_of_double (d : double) : option Z :=
  match d with
  | S754_zero _ => Some 0
  | S754_finite s m e =>
      let v := Z.shiftl (Zpos m) e in
      if s then (if v =? 0 then Some 0 else None) else if v <? 2 ^ 64 then Some v else None
  | _ => None
  end.

(** [m * b ^ e], rounded. *)
Definition scaled (m b e : Z) : double :=
  if m =? 0 then dzero
  else if 0 <=? e then double_of (m * b ^ e)
  else
    let '(q, e', l) := SFdiv_core_binary 53 1024 m 0 (b ^ (- e)) 0 in
    binary_round_aux 53 1024 false q e' l.

(** Digits, then digits after a point: the number without the point, how many
    came after it, whether there were any, and the rest. *)
Definition scan_fraction (base : Z) (s : string) : Z * Z * bool * string :=
  let '(m, seen, s) := scan_digits base (String.length s) s 0 false in
  match s with
  | String "." r =>
      let '(m', seen', r') := scan_digits base (String.length r) r m false in
      if (seen || seen' : bool) then (m', Z.of_nat (String.length r - String.length r'), true, r') else (m, 0, false, s)
  | _ => (m, 0, seen, s)
  end.
(** An exponent after [e] or its capital; 0 without digits. *)
Definition scan_exponent (small capital : ascii) (s : string) : Z :=
  match s with
  | String c r =>
      if is_char c small || is_char c capital then
        let '(neg, _, r) := scan_sign (String.length r) r in
        let '(x, _, _) := scan_digits 10 (String.length r) r 0 false in
        if (neg : bool) then - x else x
      else 0
  | EmptyString => 0
  end.

(** [sscanf (str, "%lf", &d)] of a text that starts with a digit. *)
Definition sscanf_lf (s : string) : double :=
  let hex := is_char (char_at s 0) "0" && (is_char (char_at s 1) "x" || is_char (char_at s 1) "X") in
  let '(m, k, seen, r) := scan_fraction 16 (str_drop 2 s) in
  if hex && seen then scaled m 2 (scan_exponent "p" "P" r - 4 * k)
  else
    let '(m, k, _, r) := scan_fraction 10 s in
    scaled m 10 (scan_exponent "e" "E" r - k).

(** ** Values *)

Record RNumCalcValue := mk_val { v_d : double; v_n : Z }.
Implicit Types (n v : RNumCalcValue).

Definition Nset (x : Z) : RNumCalcValue := mk_val (double_of x) x.
Definition Naddi n (x : Z) : RNumCalcValue := mk_val (dadd (v_d n) (double_of x)) (u64 (v_n n + x)).
Definition Nneg n : RNumCalcValue := mk_val (v_d n) (u64 (Z.lnot (v_n n))).
Definition Norr n v : RNumCalcValue := mk_val (v_d v) (Z.lor (v_n n) (v_n v)).
Definition Nxor n v : RNumCalcValue := mk_val (v_d v) (Z.lxor (v_n n) (v_n v)).
Definition Nand n v : RNumCalcValue := mk_val (v_d v) (Z.land (v_n n) (v_n v)).
Definition Nadd n v : RNumCalcValue := mk_val (dadd (v_d n) (v_d v)) (u64 (v_n n + v_n v)).
Definition Nsub n v : RNumCalcValue := mk_val (dsub (v_d n) (v_d v)) (u64 (v_n n - v_n v)).
Definition Nmul n v : RNumCalcValue := mk_val (dmul (v_d n) (v_d v)) (u64 (v_n n * v_n v)).
(** [None] when the count is not less than the width, which is undefined. *)
Definition Nshl n v : option RNumCalcValue :=
  if v_n v <? 64 then Some (mk_val (dadd (v_d n) (v_d v)) (u64 (Z.shiftl (v_n n) (v_n v)))) else None.
Definition Nshr n v : option RNumCalcValue :=
  if v_n v <? 64 then Some (mk_val (dadd (v_d n) (v_d v)) (Z.shiftr (v_n n) (v_n v))) else None.
Definition Nmod n v : RNumCalcValue :=
  mk_val (if is_dzero (v_d v) then dzero else dsub (v_d n) (ddiv (v_d n) (v_d v)))
    (if v_n v =? 0 then 0 else v_n n mod v_n v).
Definition Ndiv n v : RNumCalcValue :=
  mk_val (if is_dzero (v_d v) then dzero else ddiv (v_d n) (v_d v)) (if v_n v =? 0 then 0 else v_n n / v_n v).

(** ** State *)

Inductive RNumCalcToken :=
  | RNCNAME | RNCNUMBER | RNCEND | RNCINC | RNCDEC
  | RNCPLUS | RNCMINUS | RNCMUL | RNCDIV | RNCMOD
  | RNCNEG | RNCAND | RNCORR | RNCXOR
  | RNCPRINT | RNCASSIGN | RNCLEFTP | RNCRIGHTP
  | RNCSHL | RNCSHR.
#[export] Instance RNumCalcToken_eq_dec : EqDecision RNumCalcToken.
Proof. solve_decision. Defined.

(** [calc_rest] is [calc_buf + calc_i]; [oc] is [None] for the character 0. *)
Record RNumCalc := mk_nc {
  curr_tok : RNumCalcToken;
  number_value : RNumCalcValue;
  string_value : string;
  errors : Z;
  oc : option ascii;
  calc_err : option string;
  calc_rest : string
}.
Definition set_curr_tok (x : RNumCalcToken) (c : RNumCalc) : RNumCalc :=
  mk_nc x (number_value c) (string_value c) (errors c) (oc c) (calc_err c) (calc_rest c).
Definition set_number_value (x : RNumCalcValue) (c : RNumCalc) : RNumCalc :=
  mk_nc (curr_tok c) x (string_value c) (errors c) (oc c) (calc_err c) (calc_rest c).
Definition set_string_value (x : string) (c : RNumCalc) : RNumCalc :=
  mk_nc (curr_tok c) (number_value c) x (errors c) (oc c) (calc_err c) (calc_rest c).
Definition set_oc (x : option ascii) (c : RNumCalc) : RNumCalc :=
  mk_nc (curr_tok c) (number_value c) (string_value c) (errors c) x (calc_err c) (calc_rest c).
Definition set_calc_rest (x : string) (c : RNumCalc) : RNumCalc :=
  mk_nc (curr_tok c) (number_value c) (string_value c) (errors c) (oc c) (calc_err c) x.

Record RNum := mk_num { num_value : Z; num_fvalue : double; num_dbz : Z; num_nc : RNumCalc }.
Definition set_value (x : Z) (s : RNum) : RNum := mk_num x (num_fvalue s) (num_dbz s) (num_nc s).
Definition set_fvalue (x : double) (s : RNum) : RNum := mk_num (num_value s) x (num_dbz s) (num_nc s).
Definition set_dbz (x : Z) (s : RNum) : RNum := mk_num (num_value s) (num_fvalue s) x (num_nc s).
Definition set_nc (x : RNumCalc) (s : RNum) : RNum := mk_num (num_value s) (num_fvalue s) (num_dbz s) x.
Definition on_nc (g : RNumCalc -> RNumCalc) : M RNum unit := modify (fun s => set_nc (g (num_nc s)) s).

Definition r_num_new : RNum := mk_num 0 dzero 0 (mk_nc RNCNAME (mk_val dzero 0) "" 0 None None "").

(** ** Characters *)

Definition isalnum (c : ascii) : bool :=
  let x := code c in
  ((48 <=? x) && (x <=? 57)) || ((65 <=? x) && (x <=? 90)) || ((97 <=? x) && (x <=? 122)).
Definition one_of (l : list ascii) (c : ascii) : bool := existsb (Ascii.eqb c) l.

Definition cin_putback (c : option ascii) : M RNum unit := on_nc (set_oc c).
(** [None] at the end of the text. *)
Definition cin_get : M RNum (option ascii) :=
  s ← gets num_nc;
  match oc s with
  | Some c => on_nc (set_oc None) ;; mret (Some c)
  | None =>
      match calc_rest s with
      | String c r => on_nc (set_calc_rest r) ;; mret (Some c)
      | EmptyString => mret None
      end
  end.

(** The longest beginning with a property, and the rest. *)
Fixpoint span (p : ascii -> bool) (s : string) : string * string :=
  match s with
  | String c r => if p c then let '(a, b) := span p r in (String c a, b) else (EmptyString, s)
  | EmptyString => (EmptyString, EmptyString)
  end.
(** What is still to be read. *)
Definition input (c : RNumCalc) : string :=
  match oc c with Some x => String x (calc_rest c) | None => calc_rest c end.
(** The turns of a loop [while (cin_get (num, nc, &c) && p (c))] but the last one. *)
Definition cin_while (p : ascii -> bool) : M RNum string :=
  s ← gets num_nc;
  let '(a, r) := span p (input s) in
  on_nc (fun c => set_oc None (set_calc_rest r c)) ;; mret a.

Definition numchar (c : ascii) : bool := one_of [":"; "."]%char c || isalnum c.
Definition isvalidchar (c : ascii) : bool :=
  isalnum c || one_of [":"; "$"; "."; "_"; "?"; "\"; " "; "["; "]"; "}"; "{"]%char c.
Definition str_has (x : ascii) (s : string) : bool := negb (all_chars (fun c => negb (Ascii.eqb c x)) s).
Fixpoint str_take (n : nat) (s : string) : string :=
  match n, s with S n, String c s => String c (str_take n s) | _, _ => EmptyString end.
Definition opt_str (c : option ascii) : string := match c with Some c => String c EmptyString | None => EmptyString end.

Definition R_NUMCALC_STRSZ : nat := 1024.

(** The characters that are tokens of their own. *)
Definition char_token (c : ascii) : option RNumCalcToken :=
  if Ascii.eqb c "^" then Some RNCXOR else if Ascii.eqb c "&" then Some RNCAND
  else if Ascii.eqb c "|" then Some RNCORR else if Ascii.eqb c "*" then Some RNCMUL
  else if Ascii.eqb c "%" then Some RNCMOD else if Ascii.eqb c "/" then Some RNCDIV
  else if Ascii.eqb c "(" then Some RNCLEFTP else if Ascii.eqb c ")" then Some RNCRIGHTP
  else if Ascii.eqb c "<" then Some RNCSHL else if Ascii.eqb c ">" then Some RNCSHR
  else if Ascii.eqb c "=" then Some RNCASSIGN else None.
(** The tokens that a second character changes, with that character. *)
Definition pair_token (c : ascii) : option (ascii * RNumCalcToken * RNumCalcToken) :=
  if Ascii.eqb c "+" then Some ("+"%char, RNCINC, RNCPLUS)
  else if Ascii.eqb c "~" then Some ("-"%char, RNCNEG, RNCNEG)
  else if Ascii.eqb c "-" then Some ("-"%char, RNCDEC, RNCMINUS)
  else None.

Section calc.
(** The callback of the object: the number of a name, [None] when it has none,
    with the value 0. *)
Context (null : bool) (callback : string -> option Z).

(** Whether [r_num_get] comes to its end, where the value is kept. *)
Definition get_ends (str : string) : bool :=
  let len := s8 (Z.of_nat (String.length str)) in
  if negb (is_char (char_at str 1) "000") && negb (is_char (char_at str 2) "000")
     && is_char (char_at str 0) "'" && is_char (char_at str 2) "'" then false
  else if (len >? 3) && is_char (char_at str 4) ":" then
    match sscanf_04x str, sscanf_04x (str_drop 5 str) with Some _, Some _ => false | _, _ => true end
  else if (len >? 6) && is_char (char_at str 6) ":" then
    match sscanf_seg ":0x" str, sscanf_seg ":" str with None, None => true | _, _ => false end
  else true.

(** [r_num_get] with an object. *)
Definition num_get (str : string) : M RNum Z :=
  let str := skip_blanks str in
  match str with
  | EmptyString => mret 0
  | _ =>
      match (if null then None else callback str) with
      | Some ret => mret ret
      | None =>
          ret ← lift UB_shift (r_num_get str);
          (if negb null && get_ends str then modify (set_value ret) else mret tt) ;;
          mret ret
      end
  end.

(** ** Tokens *)

Definition cin_get_num : M RNum unit :=
  str ← cin_while numchar;
  c ← cin_get;
  cin_putback c ;;
  if (R_NUMCALC_STRSZ <=? String.length str)%nat then undef UB_oob
  else
    n ← num_get str;
    n ← (if isdigit (char_at str 0) && str_has "." str
         then let d := sscanf_lf str in n ← lift UB_overflow (u64_of_double d); mret (mk_val d n)
         else mret (Nset n));
    on_nc (set_number_value n).

Definition tok (t : RNumCalcToken) : M RNum unit := on_nc (set_curr_tok t).

(** The name that starts with [ch]. *)
Definition get_name (ch : ascii) : M RNum unit :=
  let bracket := Ascii.eqb ch "[" in
  body ← cin_while (if bracket then fun c => negb (Ascii.eqb c "]") else isvalidchar);
  c ← cin_get;
  let name := String ch (body ++ (if bracket then opt_str c else EmptyString)) in
  on_nc (set_string_value (str_take (R_NUMCALC_STRSZ - 1) name)) ;;
  (if match c with Some c => Ascii.eqb c "'" | None => false end then mret tt else cin_putback c) ;;
  tok RNCNAME.

Definition get_token : M RNum unit :=
  cin_while (fun c => negb (Ascii.eqb c "010") && isspace c) ;;
  o ← cin_get;
  match o with
  | None => tok RNCEND
  | Some ch =>
      if one_of [";"; "010"]%char ch then tok RNCEND
      else
        match pair_token ch with
        | Some (second, both, one) =>
            c ← cin_get;
            if match c with Some c => Ascii.eqb c second | None => false end then tok both
            else cin_putback c ;; tok one
        | None =>
            match char_token ch with
            | Some t => tok t
            | None =>
                if isdigit ch || Ascii.eqb ch "." then
                  cin_putback (Some ch) ;; cin_get_num ;; tok RNCNUMBER
                else get_name ch
            end
        end
  end.

(** ** The grammar *)

(** The functions call each other [fuel] deep at most; a deeper call is [out],
    which [r_num_calc_total] excludes. *)
Context (out : ub).

Definition curr : M RNum RNumCalcToken := s ← gets num_nc; mret (curr_tok s).
Definition error (s : string) : M RNum unit :=
  on_nc (fun c => mk_nc (curr_tok c) (number_value c) (string_value c) (errors c + 1) (oc c) (Some s) (calc_rest c)).

Definition expr_op (t : RNumCalcToken) (left right : RNumCalcValue) : M RNum RNumCalcValue :=
  match t with
  | RNCSHL => lift UB_shift (Nshl left right)
  | RNCSHR => lift UB_shift (Nshr left right)
  | RNCPLUS => mret (Nadd left right)
  | RNCMINUS => mret (Nsub left right)
  | RNCXOR => mret (Nxor left right)
  | RNCORR => mret (Norr left right)
  | _ => mret (Nand left right)
  end.
Definition is_expr_tok (t : RNumCalcToken) : bool :=
  match t with RNCSHL | RNCSHR | RNCPLUS | RNCMINUS | RNCXOR | RNCORR | RNCAND => true | _ => false end.

(** The functions, with the calls that they make. *)
Inductive call := Expr (get : bool) | Expr_loop (left : RNumCalcValue) | Term (get : bool) | Term_loop (left : RNumCalcValue) | Prim (get : bool).

Section bodies.
Context (rec : call -> M RNum RNumCalcValue).

Definition expr_body (get : bool) : M RNum RNumCalcValue := left ← rec (Term get); rec (Expr_loop left).
Definition expr_loop_body (left : RNumCalcValue) : M RNum RNumCalcValue :=
  t ← curr;
  if is_expr_tok t then right ← rec (Term true); left ← expr_op t left right; rec (Expr_loop left)
  else mret left.

Definition term_body (get : bool) : M RNum RNumCalcValue := left ← rec (Prim get); rec (Term_loop left).
Definition term_loop_body (left : RNumCalcValue) : M RNum RNumCalcValue :=
  t ← curr;
  match t with
  | RNCMUL => d ← rec (Prim true); rec (Term_loop (Nmul left d))
  | RNCMOD => d ← rec (Prim true); if is_dzero (v_d d) then mret d else rec (Term_loop (Nmod left d))
  | RNCDIV =>
      d ← rec (Prim true);
      if negb null && (is_dzero (v_d d) || (v_n d =? 0)) then modify (set_dbz 1) ;; mret d
      else rec (Term_loop (Ndiv left d))
  | _ => mret left
  end.

Definition prim_body (get : bool) : M RNum RNumCalcValue :=
  let v := mk_val dzero 0 in
  (if get then get_token else mret tt) ;;
  t ← curr;
  match t with
  | RNCNUMBER => s ← gets num_nc; get_token ;; mret (number_value s)
  | RNCNAME =>
      on_nc (fun c => set_string_value (r_str_chop (string_value c)) c) ;;
      s ← gets num_nc;
      n ← num_get (string_value s);
      get_token ;;
      t ← curr;
      match t with RNCASSIGN => rec (Expr true) | _ => mret (Nset n) end
  | RNCNEG => get_token ;; s ← gets num_nc; mret (Nneg (number_value s))
  | RNCINC => n ← rec (Prim true); mret (Naddi n 1)
  | RNCDEC => n ← rec (Prim true); mret (Naddi n (2 ^ 64 - 1))
  | RNCORR => n ← rec (Prim true); mret (Norr v n)
  | RNCMINUS => n ← rec (Prim true); mret (Nsub v n)
  | RNCLEFTP =>
      v ← rec (Expr true);
      t ← curr;
      (match t with RNCRIGHTP => get_token | _ => error " ')' expected" end) ;;
      mret v
  | _ => mret v
  end.
End bodies.

Fixpoint run_call (fuel : nat) (c : call) : M RNum RNumCalcValue :=
  match fuel with
  | O => undef out
  | S fuel =>
      match c with
      | Expr get => expr_body (run_call fuel) get
      | Expr_loop l => expr_loop_body (run_call fuel) l
      | Term get => term_body (run_call fuel) get
      | Term_loop l => term_loop_body (run_call fuel) l
      | Prim get => prim_body (run_call fuel) get
      end
  end.
Definition expr (fuel : nat) (get : bool) : M RNum RNumCalcValue := run_call fuel (Expr get).
Definition expr_loop (fuel : nat) (left : RNumCalcValue) : M RNum RNumCalcValue := run_call fuel (Expr_loop left).
Definition term (fuel : nat) (get : bool) : M RNum RNumCalcValue := run_call fuel (Term get).
Definition term_loop (fuel : nat) (left : RNumCalcValue) : M RNum RNumCalcValue := run_call fuel (Term_loop left).
Definition prim (fuel : nat) (get : bool) : M RNum RNumCalcValue := run_call fuel (Prim get).

(** Four calls for every character are enough. *)
Definition calc_fuel (str : string) : nat := 4 * (String.length str + 2).

(** The result, with the error. *)
Definition r_num_calc (str : string) : M RNum (Z * option string) :=
  match str with
  | EmptyString => mret (0, None)
  | _ =>
      (if null then mret tt else modify (set_dbz 0)) ;;
      on_nc (fun c => mk_nc RNCPRINT (mk_val dzero 0) (string_value c) 0 None None str) ;;
      get_token ;;
      n ← expr (calc_fuel str) false;
      s ← gets num_nc;
      (if null then mret tt else modify (set_fvalue (v_d n))) ;;
      mret (v_n n, calc_err s)
  end.

(** ** num.c *)

Definition r_num_math (str : option string) : M RNum Z :=
  match str with
  | None => mret 0
  | Some str =>
      (if null then mret tt else modify (set_dbz 0)) ;;
      '(ret, _) ← r_num_calc str;
      (if null then mret tt else modify (set_value ret)) ;;
      mret ret
  end.
(** [strchr]: what is before the character and what is after it. *)
Fixpoint strchr (x : ascii) (s : string) : option (string * string) :=
  match s with
  | EmptyString => None
  | String c r =>
      if Ascii.eqb c x then Some (EmptyString, r)
      else match strchr x r with Some (a, b) => Some (String c a, b) | None => None end
  end.
Definition r_str_replace_char (s : string) (a b : ascii) : string := map_chars (fun c => if Ascii.eqb c a then b else c) s.
(** The first ["=="] loses its first character to a blank. *)
Fixpoint blank_eqeq (s : string) : string :=
  match s with
  | String "=" (String "=" r) => String " " (String "=" r)
  | String c r => String c (blank_eqeq r)
  | EmptyString => EmptyString
  end.
Fixpoint ends_with (x : ascii) (s : string) : bool :=
  match s with
  | EmptyString => false
  | String c EmptyString => Ascii.eqb c x
  | String _ r => ends_with x r
  end.

Definition math (s : string) : M RNum Z := r_num_math (Some s).

(** A condition between two commas. *)
Definition compare_with (test : Z -> Z -> bool) (test_eq : Z -> Z -> bool) (p r : string) : M RNum bool :=
  a ← math p;
  match r with
  | String "=" r => b ← math r; mret (test_eq a b)
  | _ => b ← math r; mret (test a b)
  end.
Definition cond_equal (p : string) : M RNum bool :=
  n ← math (r_str_replace_char (blank_eqeq p) "=" "-"); mret (n =? 0).
Definition cond_piece (p : string) : M RNum bool :=
  match strchr "<" p with
  | Some (a, r) => compare_with Z.ltb Z.leb a r
  | None =>
      match strchr ">" p with
      | Some (a, r) => compare_with Z.gtb Z.geb a r
      | None =>
          if match strchr "=" p with Some (a, _) => ends_with "!" a | None => false end then
            let p := r_str_replace_char (r_str_replace_char p "!" " ") "=" "-" in
            n ← math p;
            if n =? 0 then mret false else cond_equal p
          else cond_equal p
      end
  end.
Fixpoint split_commas (s : string) : list string :=
  match s with
  | EmptyString => [EmptyString]
  | String c r =>
      if Ascii.eqb c "," then EmptyString :: split_commas r
      else match split_commas r with a :: l => String c a :: l | [] => [String c EmptyString] end
  end.
Fixpoint cond_all (l : list string) : M RNum bool :=
  match l with
  | [] => mret true
  | p :: l => ok ← cond_piece p; if (ok : bool) then cond_all l else mret false
  end.
Definition r_num_conditional (str : string) : M RNum bool := cond_all (split_commas str).

Definition input_math (input_value : option string) : M RNum Z :=
  match input_value with Some s => math s | None => mret 0 end.
Definition r_num_get_input_value (input_value : option string) : M RNum Z := input_math input_value.
Definition r_num_is_valid_input (input_value : option string) : M RNum bool :=
  value ← input_math input_value;
  let starts c := match input_value with Some s => Ascii.eqb (char_at s 0) c | None => true end in
  mret (negb ((value =? 0) && negb (starts "0"%char)) || negb ((value =? 0) && negb (starts "@"%char))).
Definition r_is_valid_input_num_value (input_value : option string) : M RNum bool :=
  value ← input_math input_value;
  mret (negb ((value =? 0) && match input_value with Some s => Ascii.eqb (char_at s 0) "0" | None => false end)).

(** The blanks and points that [r_num_tail] skips. *)
Fixpoint skip_points (s : string) : string :=
  match s with
  | String c r => if one_of [" "; "."]%char c then skip_points r else s
  | EmptyString => s
  end.
Definition r_num_tail (addr : Z) (hex : string) : M RNum Z :=
  let hex := skip_points hex in
  let i := 4 * Z.of_nat (String.length hex) in
  n ← (if isdigit (char_at hex 0) then math ("0x" ++ hex) else mret 0);
  if n =? 0 then mret UT64_MAX
  else if i <? 64 then mret (Z.lor (Z.land addr (u64 (Z.shiftl UT64_MAX i))) n)
  else undef UB_shift.
End calc.

(** Functions of numbers only. *)
Definition r_num_minmax_swap (a b : Z) : Z * Z := if b <? a then (b, a) else (a, b).
Definition r_num_chs (cylinder head sector sectorsize : Z) : Z :=
  let sectorsize := if sectorsize <? 1 then 512 else sectorsize in
  u64 (u64 (u64 (u64 cylinder * u64 head) * u64 sector) * u64 sectorsize).

(** The bits below the [k]th from the highest one that is set. *)
Fixpoint bits_loop (k : nat) (num : Z) (hasbit : bool) : string :=
  match k with
  | O => EmptyString
  | S k =>
      let bit := Z.testbit num (Z.of_nat k) in
      if hasbit || bit then String (if bit then "1" else "0") (bits_loop k num true) else bits_loop k num false
  end.
Definition r_num_to_bits (num : Z) : Z * string :=
  let size :=
    if negb (Z.shiftr num 32 =? 0) then 64
    else if negb (Z.land num 0xff000000 =? 0) then 32
    else if negb (Z.land num 0xff0000 =? 0) then 24
    else if negb (Z.land num 0xff00 =? 0) then 16
    else if negb (Z.land num 0xff =? 0) then 8 else 64 in
  (size, match bits_loop (Z.to_nat size) num false with EmptyString => "0"%string | s => s end).

(** The digits to the base 3, which are written from the end of the buffer. *)
Fixpoint trits_loop (n : nat) (num : Z) (out : string) : string :=
  match n with
  | O => out
  | S n => if num =? 0 then out else trits_loop n (num / 3) (String (chr (48 + num mod 3)) out)
  end.
Definition r_num_to_trits (num : Z) : string := trits_loop 64 num EmptyString.

Definition NIBBLE_TO_HEX (n : Z) : ascii := hex_char (Z.land n 0xf).
Definition escape_char (byte : Z) : string :=
  if (7 <=? byte) && (byte <=? 13) then String "\" (String (char_at "abtnvfr" (Z.to_nat (byte - 7))) EmptyString)
  else if byte =? 0 then EmptyString
  else String "\" (String "x" (String (NIBBLE_TO_HEX (Z.shiftr byte 4)) (String (NIBBLE_TO_HEX byte) EmptyString))).
(** The bytes of the number from the lowest one on. *)
Fixpoint as_string_loop (len : nat) (num : Z) (printable_only : bool) : option string :=
  match len with
  | O => Some EmptyString
  | S len =>
      let ch := num mod 256 in
      let rest := as_string_loop len (num / 256) printable_only in
      if (32 <=? ch) && (ch <? 127) then String (chr ch) <$> rest
      else if printable_only && negb (ch =? 0) then None
      else append (if printable_only then EmptyString else escape_char ch) <$> rest
  end.
Definition r_num_as_string (n : Z) (printable_only : bool) : option string :=
  str ← as_string_loop 8 n printable_only;
  if negb (n =? 0) then Some str else if printable_only then None else Some (String "\" "0").

Definition calc0 (str : string) : option Z :=
  match r_num_math false (fun _ => None) UB_free (Some str) r_num_new with Ok v _ => Some v | Undef _ => None end.
Example calc_ex1 : calc0 "1+2*3" = Some 7. Proof. vm_compute. reflexivity. Qed.
Example calc_ex2 : calc0 "(1+2)*3 - 0x10/4" = Some 5. Proof. vm_compute. reflexivity. Qed.
Example calc_ex3 : calc0 "-1" = Some UT64_MAX. Proof. vm_compute. reflexivity. Qed.
Example calc_ex4 : calc0 "1.5*2" = Some 2. Proof. vm_compute. reflexivity. Qed.
Example calc_ex5 : calc0 "'A'+1" = Some 66. Proof. vm_compute. reflexivity. Qed.
Example calc_ex6 : calc0 "~5+1" = Some (UT64_MAX - 5). Proof. vm_compute. reflexivity. Qed.
Example calc_ex7 : calc0 "5--3" = Some 5. Proof. vm_compute. reflexivity. Qed.
