(* ===== verification/CalcFacts.v ===== *)
(** * What the calculator computes

    Every text makes [r_num_calc] of [libr/util/calc.c] end
    ([r_num_calc_total]), and the text of an expression gives the value of the
    expression ([r_num_calc_evaluates]).  What [libr/util/num.c] writes to the
    base 2 and 3 is the number. *)

From Stdlib Require Import SpecFloat.
From S2P Require Import Prelude Num Names Calc.

(** ** Calls *)

Section calls.
Context (null : bool) (callback : string -> option Z) (out : ub) (n : nat).
Lemma expr_S get : expr null callback out (S n) get = expr_body (run_call null callback out n) get.
Proof. done. Qed.
Lemma expr_loop_S left : expr_loop null callback out (S n) left = expr_loop_body (run_call null callback out n) left.
Proof. done. Qed.
Lemma term_S get : term null callback out (S n) get = term_body (run_call null callback out n) get.
Proof. done. Qed.
Lemma term_loop_S left : term_loop null callback out (S n) left = term_loop_body null (run_call null callback out n) left.
Proof. done. Qed.
Lemma prim_S get : prim null callback out (S n) get = prim_body null callback (run_call null callback out n) get.
Proof. done. Qed.
End calls.

(** ** Reading *)

Definition at_input (r : string) (s : RNum) : RNum := set_nc (set_oc None (set_calc_rest r (num_nc s))) s.
Definition inp (s : RNum) : string := input (num_nc s).
Definition left_ (s : RNum) : nat := String.length (inp s).
Definition ctok (s : RNum) : RNumCalcToken := curr_tok (num_nc s).

Lemma inp_at r s : inp (at_input r s) = r.
Proof. done. Qed.

Lemma run_cin_get s : cin_get s = match inp s with String c r => Ok (Some c) (at_input r s) | EmptyString => Ok None (at_input EmptyString s) end.
Proof. destruct s as [v f d [t n w e [o|] x [|c r]]]; reflexivity. Qed.

Lemma run_cin_while p s : cin_while p s = Ok (fst (span p (inp s))) (at_input (snd (span p (inp s))) s).
Proof. unfold cin_while. rewrite run_bind, run_gets. fold (inp s). by destruct (span p (inp s)). Qed.

Lemma span_length p s : (String.length (snd (span p s)) <= String.length s)%nat.
Proof.
  induction s as [|c s IH]; [done|]. cbn [span]. destruct (p c); [|done]. destruct (span p s). cbn in *. lia.
Qed.

Lemma run_putback o s : oc (num_nc s) = None ->
  exists s', cin_putback o s = Ok tt s' /\ inp s' = append (opt_str o) (inp s) /\ ctok s' = ctok s.
Proof. destruct s as [v f d [t n w e [o'|] x r]]; [done|]. intros _. eexists. split; [done|]. by destruct o. Qed.

Lemma run_cin_get_any s : exists c s', cin_get s = Ok c s' /\ oc (num_nc s') = None /\ append (opt_str c) (inp s') = inp s /\ ctok s' = ctok s.
Proof. rewrite run_cin_get. destruct (inp s); by do 2 eexists. Qed.

Lemma opt_str_length c s : (String.length s <= String.length (append (opt_str c) s))%nat.
Proof. destruct c; [apply le_S|]; done. Qed.

Lemma run_tok t s : exists s', tok t s = Ok tt s' /\ inp s' = inp s /\ ctok s' = t.
Proof. by eexists. Qed.

(** ** Every computation ends *)

(** What C leaves undefined in the calculator: shifts, numbers that are too long, and the conversion of
    a [double]. *)
Definition genuine (u : ub) : Prop := u = UB_shift \/ u = UB_oob \/ u = UB_overflow.
Definition ends {A} (c : M RNum A) (s : RNum) (Q : A -> RNum -> Prop) : Prop :=
  match c s with Ok a s' => Q a s' | Undef u => genuine u end.

Lemma ends_bind {A B} (c : M RNum A) (k : A -> M RNum B) s Q R :
  ends c s Q -> (forall a s', Q a s' -> ends (k a) s' R) -> ends (c ≫= k) s R.
Proof. unfold ends. rewrite run_bind. destruct (c s); [intros H H'; by apply H'|done]. Qed.
Lemma ends_ret {A} (a : A) s Q : Q a s -> ends (mret a) s Q.
Proof. done. Qed.
Lemma ends_gets {A} (g : RNum -> A) s Q : Q (g s) s -> ends (gets g) s Q.
Proof. done. Qed.
Lemma ends_modify g s Q : Q tt (g s) -> ends (modify g) s Q.
Proof. done. Qed.
Lemma ends_lift {A} u (o : option A) s Q : genuine u -> (forall a, Q a s) -> ends (lift u o) s Q.
Proof. intros Hu H. destruct o; [apply (H _)|done]. Qed.
Lemma ends_weaken {A} (c : M RNum A) s (Q R : A -> RNum -> Prop) : ends c s Q -> (forall a s', Q a s' -> R a s') -> ends c s R.
Proof. unfold ends. destruct (c s); auto. Qed.

Section ends.
Context (null : bool) (callback : string -> option Z).

(** What does not read. *)
Definition still (s s' : RNum) : Prop := num_nc s' = num_nc s.

Lemma num_get_ends str s : ends (num_get null callback str) s (fun _ s' => still s s').
Proof.
  unfold num_get. destruct (skip_blanks str) as [|c r]; [done|]. destruct (if null then _ else _); [done|].
  eapply ends_bind; [apply ends_lift with (Q := fun _ s' => s' = s); [by left|done]|]. intros n s' ->.
  destruct (_ && _); done.
Qed.

Definition ate (s s' : RNum) : Prop := (left_ s' <= left_ s)%nat.
Definition ate_token (s s' : RNum) : Prop := ate s s' /\ (ctok s' = RNCEND \/ (left_ s' < left_ s)%nat).

Lemma cin_get_num_ends s : ends (cin_get_num null callback) s
  (fun _ s' => (left_ s' <= String.length (snd (span numchar (inp s))))%nat).
Proof.
  unfold cin_get_num. set (Q := fun _ s' => _). unfold ends. rewrite run_bind, run_cin_while, run_bind.
  destruct (run_cin_get_any (at_input (snd (span numchar (inp s))) s)) as (c & s2 & -> & Ho & Hi & _).
  rewrite run_bind. destruct (run_putback c s2 Ho) as (s3 & -> & Hi3 & _). rewrite Hi, inp_at in Hi3.
  assert (Q tt s3) as H3 by (unfold Q, left_; by rewrite Hi3).
  destruct (_ <=? _)%nat; [right; by left|]. apply ends_bind with (Q := fun _ => Q tt).
  { eapply ends_weaken; [apply num_get_ends|]. intros n s4 Hs. unfold Q, left_, inp. by rewrite Hs. }
  intros n s4 H4. apply ends_bind with (Q := fun _ => Q tt); [|intros v s5 H5; apply ends_modify; exact H5].
  destruct (_ && _); [|done]. apply ends_bind with (Q := fun _ => Q tt); [|done].
  apply ends_lift; [right; by right|done].
Qed.

Lemma get_name_ends ch s : ends (get_name ch) s (fun _ s' => ate s s').
Proof.
  unfold get_name. cbv zeta. set (p := if Ascii.eqb ch "[" then _ else _). pose proof (span_length p (inp s)) as Hr.
  unfold ends. rewrite run_bind, run_cin_while, run_bind.
  destruct (run_cin_get_any (at_input (snd (span p (inp s))) s)) as (c & s2 & -> & Ho & Hi & _).
  rewrite run_bind. unfold on_nc at 1. rewrite run_modify. set (s3 := set_nc _ s2). rewrite run_bind.
  assert (oc (num_nc s3) = None /\ inp s3 = inp s2) as [Ho3 Hi3] by done. rewrite inp_at in Hi. rewrite <- Hi in Hr.
  destruct (match c with Some c => Ascii.eqb c "'" | None => false end).
  - rewrite run_ret. destruct (run_tok RNCNAME s3) as (s4 & -> & Hi4 & _). unfold ate, left_. rewrite Hi4, Hi3.
    pose proof (opt_str_length c (inp s2)). lia.
  - destruct (run_putback c s3 Ho3) as (s4 & -> & Hi4 & _). destruct (run_tok RNCNAME s4) as (s5 & -> & Hi5 & _).
    unfold ate, left_. by rewrite Hi5, Hi4, Hi3.
Qed.

Lemma get_token_ends s : ends (get_token null callback) s (fun _ s' => ate_token s s').
Proof.
  unfold get_token. unfold ends. rewrite run_bind, run_cin_while, run_bind, run_cin_get, inp_at.
  set (p := fun c => _). pose proof (span_length p (inp s)) as Hr. destruct (snd (span p (inp s))) as [|ch r] eqn:Er.
  { split; [unfold ate, left_, inp; cbn; lia|by left]. }
  set (s1 := at_input r _). assert (left_ s1 < left_ s)%nat as H1 by (unfold left_; cbn in *; lia).
  assert (forall s', (left_ s' <= left_ s1)%nat -> ate_token s s') as Hle by (intros s' H; split; [unfold ate; lia|right; lia]).
  assert (forall t s', (left_ s' <= left_ s1)%nat -> ends (tok t) s' (fun _ s' => ate_token s s')) as Htok.
  { intros t s' H. unfold ends. destruct (run_tok t s') as (s2 & -> & Hi & _). apply Hle. unfold left_ in *. by rewrite Hi. }
  destruct (one_of _ ch); [by apply Htok|]. destruct (pair_token ch) as [[[second both] one]|].
  - rewrite run_bind. destruct (run_cin_get_any s1) as (c & s2 & -> & Ho & Hi & _).
    assert (left_ s2 <= left_ s1)%nat as H2 by (unfold left_; rewrite <- Hi; apply opt_str_length).
    destruct (match c with Some c => Ascii.eqb c second | None => false end); [by apply Htok|].
    rewrite run_bind. destruct (run_putback c s2 Ho) as (s3 & -> & Hi3 & _). apply Htok. unfold left_. by rewrite Hi3, Hi.
  - destruct (char_token ch); [by apply Htok|]. destruct (isdigit ch || _) eqn:Hd.
    + rewrite run_bind. destruct (run_putback (Some ch) s1 eq_refl) as (s2 & -> & Hi & _).
      eapply ends_bind; [apply cin_get_num_ends|]. intros [] s3 H3. apply Htok. cbn beta in H3. rewrite Hi in H3.
      assert (numchar ch = true) as Hc.
      { unfold numchar, isalnum. unfold isdigit in Hd. apply orb_true_iff in Hd as [Hd| ->%Ascii.eqb_eq]; [|done].
        apply orb_true_iff. right. by rewrite Hd. }
      change (append (opt_str (Some ch)) (inp s1)) with (String ch (inp s1)) in H3. cbn [span] in H3. rewrite Hc in H3.
      pose proof (span_length numchar (inp s1)) as Hl. destruct (span numchar (inp s1)) as [w r'] eqn:Ew.
      change (left_ s1) with (String.length (inp s1)). cbn [snd] in *. lia.
    + eapply ends_weaken; [apply get_name_ends|]. intros [] s' H. by apply Hle.
Qed.
Context (out : ub).
Notation expr := (Calc.expr null callback out).
Notation expr_loop := (Calc.expr_loop null callback out).
Notation term := (Calc.term null callback out).
Notation term_loop := (Calc.term_loop null callback out).
Notation prim := (Calc.prim null callback out).

(** A call that reads a token first needs less fuel and leaves less text. *)
Definition reads (get : bool) (s s' : RNum) : Prop := if get then ate_token s s' else ate s s'.
(** A loop does nothing at the end. *)
Definition loops (s s' : RNum) : Prop := ate s s' /\ (ctok s = RNCEND -> ctok s' = RNCEND).

Record fuel_ok (n : nat) : Prop := mk_fuel_ok {
  fo_prim : forall (get : bool) s, (4 * left_ s + (if get then 1 else 4) <= n)%nat -> ends (prim n get) s (fun _ => reads get s);
  fo_term_loop : forall v s, (1 <= n)%nat -> ctok s = RNCEND \/ (4 * left_ s + 2 <= n)%nat -> ends (term_loop n v) s (fun _ => loops s);
  fo_term : forall (get : bool) s, (4 * left_ s + (if get then 2 else 5) <= n)%nat -> ends (term n get) s (fun _ => reads get s);
  fo_expr_loop : forall v s, (1 <= n)%nat -> ctok s = RNCEND \/ (4 * left_ s + 3 <= n)%nat -> ends (expr_loop n v) s (fun _ => loops s);
  fo_expr : forall (get : bool) s, (4 * left_ s + (if get then 3 else 6) <= n)%nat -> ends (expr n get) s (fun _ => reads get s)
}.

Lemma ends_curr s : ends curr s (fun t s' => s' = s /\ t = ctok s).
Proof. done. Qed.

Lemma reads_loops get s s1 s2 : reads get s s1 -> loops s1 s2 -> reads get s s2.
Proof.
  unfold reads, loops, ate_token, ate. intros H [H1 H2]. destruct get; [|lia]. destruct H as [H [E|H3]]; (split; [lia|]); [auto|right; lia].
Qed.
Lemma ate_token_loops s s1 s2 : ate s s1 -> ctok s <> RNCEND -> ate s1 s2 -> loops s s2.
Proof. unfold loops, ate. intros H Hs H2. split; [lia|done]. Qed.

(** After a token: nothing is left to do, or there is fuel for what is left. *)
Lemma token_fuel k s s1 : ate_token s s1 -> ctok s1 = RNCEND \/ (4 * left_ s1 + k + 4 <= 4 * left_ s + k)%nat.
Proof. intros [_ [H|H]]; [by left|right; lia]. Qed.

Lemma prim_fuel (n : nat) : fuel_ok n -> forall (get : bool) s, (4 * left_ s + (if get then 1 else 4) <= S n)%nat ->
  ends (prim (S n) get) s (fun _ => reads get s).
Proof.
  intros IH get s Hn. rewrite (prim_S null callback out). unfold prim_body. cbv zeta.
  apply ends_bind with (Q := fun _ s1 => reads get s s1 /\ (ctok s1 = RNCEND \/ (4 * left_ s1 + 3 <= n)%nat)).
  { destruct get; [|split; [unfold reads, ate; lia|right; lia]]. eapply ends_weaken; [apply get_token_ends|].
    intros [] s1 H1. split; [done|]. destruct (token_fuel 0 s s1 H1); [by left|right; lia]. }
  intros [] s1 [H1 Hf]. eapply ends_bind; [apply ends_curr|]. intros t s2 [-> ->].
  assert (forall s2, ate s1 s2 -> ctok s1 <> RNCEND -> reads get s s2) as Hmore.
  { intros s2 H2 Hne. apply (reads_loops get s s1); [done|]. split; [done|]. by intros E. }
  assert (ctok s1 <> RNCEND -> forall s2, ate s1 s2 -> (4 * left_ s2 + 3 <= n)%nat) as Hleft.
  { intros Hne s2 H2. unfold ate in H2. destruct Hf; [done|lia]. }
  assert (forall {A} (f : RNumCalcValue -> A), ctok s1 <> RNCEND -> ends (v ← prim n true; mret (f v)) s1 (fun _ => reads get s)) as Hprim.
  { intros A f Hne. eapply ends_bind; [apply (fo_prim _ IH); specialize (Hleft Hne s1); unfold ate in Hleft; lia|].
    intros v s2 [H2 _]. apply ends_ret. by apply Hmore. }
  destruct (ctok s1) eqn:Et; try (apply ends_ret; exact H1); try (apply Hprim; done).
  - eapply ends_bind; [apply (ends_modify _ s1 (fun _ s2 => inp s2 = inp s1)); done|]. intros [] s2 H2.
    eapply ends_bind; [apply (ends_gets _ s2 (fun _ s3 => inp s3 = inp s1)); done|]. intros c s3 H3.
    eapply ends_bind; [eapply ends_weaken; [apply num_get_ends|]|].
    { intros x s4 Hs. exact (eq_trans (f_equal input Hs) H3). }
    intros x s4 H4. change (inp s4 = inp s1) in H4. eapply ends_bind; [apply get_token_ends|]. intros [] s5 H5.
    assert (ate s1 s5) as H15 by (destruct H5 as [H5 _]; unfold ate, left_ in *; by rewrite H4 in H5).
    eapply ends_bind; [apply ends_curr|]. intros t s6 [-> ->].
    destruct (ctok s5); try (apply ends_ret; by apply Hmore).
    eapply ends_weaken; [apply (fo_expr _ IH); by apply Hleft|]. intros v s6 [H6 _]. apply Hmore; [|done]. unfold ate in *. lia.
  - eapply ends_bind; [apply (ends_gets _ s1 (fun _ s2 => s2 = s1)); done|]. intros c s2 ->.
    eapply ends_bind; [apply get_token_ends|]. intros [] s3 [H3 _]. apply ends_ret. by apply Hmore.
  - eapply ends_bind; [apply get_token_ends|]. intros [] s3 [H3 _].
    eapply ends_bind; [apply (ends_gets _ s3 (fun _ s2 => s2 = s3)); done|]. intros c s2 ->. apply ends_ret. by apply Hmore.
  - eapply ends_bind; [apply (fo_expr _ IH); apply Hleft; [congruence|unfold ate; lia]|]. intros v s2 [H2 _].
    eapply ends_bind; [apply ends_curr|]. intros t s3 [-> ->].
    apply ends_bind with (Q := fun _ s3 => ate s1 s3); [|intros [] s3 H3; apply ends_ret; by apply Hmore].
    destruct (ctok s2); try (apply ends_modify; exact H2).
    eapply ends_weaken; [apply get_token_ends|]. intros [] s3 [H3 _]. unfold ate in *. lia.
Qed.
(** An operand that is read before a loop goes on. *)
Lemma loop_operand s (c : M RNum RNumCalcValue) (k : RNumCalcValue -> M RNum RNumCalcValue) (n m : nat) :
  ctok s <> RNCEND -> (4 * left_ s + m <= n)%nat -> ends c s (fun _ => reads true s) ->
  (forall v s1, ctok s1 = RNCEND \/ (4 * left_ s1 + 4 + m <= n)%nat -> ends (k v) s1 (fun _ => loops s1)) ->
  ends (c ≫= k) s (fun _ => loops s).
Proof.
  intros Hne Hn Hc Hk. eapply ends_bind; [exact Hc|]. intros v s1 H1.
  eapply ends_weaken; [apply Hk; destruct H1 as [_ [H1|H1]]; [by left|right; lia]|].
  intros v' s2 [H2 _]. split; [|done]. destruct H1 as [H1 _]. unfold ate in *. lia.
Qed.

Lemma loops_refl s : loops s s.
Proof. split; [unfold ate; lia|done]. Qed.

Lemma term_loop_fuel n : fuel_ok n -> forall v s, ctok s = RNCEND \/ (4 * left_ s + 2 <= S n)%nat ->
  ends (term_loop (S n) v) s (fun _ => loops s).
Proof.
  intros IH v s Hf. rewrite (term_loop_S null callback out). unfold term_loop_body. eapply ends_bind; [apply ends_curr|]. intros t s1 [-> ->].
  assert (ctok s <> RNCEND -> (4 * left_ s + 1 <= n)%nat) as Hn by (intros Hne; destruct Hf; [done|lia]).
  assert (forall (k : RNumCalcValue -> M RNum RNumCalcValue), ctok s <> RNCEND ->
    (forall v s1, ctok s1 = RNCEND \/ (4 * left_ s1 + 2 <= n)%nat -> (1 <= n)%nat -> ends (k v) s1 (fun _ => loops s1)) ->
    ends (v ← prim n true; k v) s (fun _ => loops s)) as Hop.
  { intros k Hne Hk. apply (loop_operand s _ _ n 1); [done|by apply Hn|apply (fo_prim _ IH); by apply Hn|].
    intros w s1 H1. apply Hk; [destruct H1; [by left|right; lia]|]. specialize (Hn Hne). lia. }
  destruct (ctok s) eqn:Et; try (apply ends_ret, loops_refl); (apply Hop; [congruence|]); intros w s1 H1 Hn1.
  - by apply (fo_term_loop _ IH).
  - destruct (negb null && _); [|by apply (fo_term_loop _ IH)].
    eapply ends_bind; [apply (ends_modify _ s1 (fun _ s2 => num_nc s2 = num_nc s1)); done|]. intros [] s2 E.
    apply ends_ret. unfold loops, ate, left_, inp, ctok. by rewrite E.
  - destruct (is_dzero _); [apply ends_ret, loops_refl|by apply (fo_term_loop _ IH)].
Qed.

Lemma term_fuel n : fuel_ok n -> forall (get : bool) s, (4 * left_ s + (if get then 2 else 5) <= S n)%nat ->
  ends (term (S n) get) s (fun _ => reads get s).
Proof.
  intros IH get s Hn. rewrite (term_S null callback out). unfold term_body. eapply ends_bind; [apply (fo_prim _ IH); destruct get; lia|]. intros v s1 H1.
  eapply ends_weaken; [apply (fo_term_loop _ IH); [destruct get; lia|]|].
  - destruct get; [|right; unfold reads, ate in H1; lia]. destruct H1 as [_ [H1|H1]]; [by left|right; lia].
  - intros w s2. by apply reads_loops.
Qed.

Lemma expr_op_ends t left right s : ends (expr_op t left right) s (fun _ s' => s' = s).
Proof. destruct t; cbn [expr_op]; try (by apply ends_ret); (apply ends_lift; [by left|done]). Qed.

Lemma expr_loop_fuel n : fuel_ok n -> forall v s, ctok s = RNCEND \/ (4 * left_ s + 3 <= S n)%nat ->
  ends (expr_loop (S n) v) s (fun _ => loops s).
Proof.
  intros IH v s Hf. rewrite (expr_loop_S null callback out). unfold expr_loop_body. eapply ends_bind; [apply ends_curr|]. intros t s1 [-> ->].
  destruct (is_expr_tok (ctok s)) eqn:Et; [|apply ends_ret, loops_refl].
  assert (ctok s <> RNCEND) as Hne by (intros E; by rewrite E in Et).
  assert (4 * left_ s + 2 <= n)%nat as Hn by (destruct Hf; [done|lia]).
  apply (loop_operand s _ _ n 2); [done|done|by apply (fo_term _ IH)|]. intros w s1 H1.
  eapply ends_bind; [apply expr_op_ends|]. intros w' s2 ->. apply (fo_expr_loop _ IH); [lia|]. destruct H1; [by left|right; lia].
Qed.

Lemma expr_fuel n : fuel_ok n -> forall (get : bool) s, (4 * left_ s + (if get then 3 else 6) <= S n)%nat ->
  ends (expr (S n) get) s (fun _ => reads get s).
Proof.
  intros IH get s Hn. rewrite (expr_S null callback out). unfold expr_body. eapply ends_bind; [apply (fo_term _ IH); destruct get; lia|]. intros v s1 H1.
  eapply ends_weaken; [apply (fo_expr_loop _ IH); [destruct get; lia|]|].
  - destruct get; [|right; unfold reads, ate in H1; lia]. destruct H1 as [_ [H1|H1]]; [by left|right; lia].
  - intros w s2. by apply reads_loops.
Qed.

Lemma fuel_enough n : fuel_ok n.
Proof.
  induction n as [|n IH].
  - constructor; intros; try (destruct get); lia.
  - constructor; intros; [by apply prim_fuel|by apply term_loop_fuel|by apply term_fuel|by apply expr_loop_fuel|by apply expr_fuel].
Qed.

(** C19: every text makes the calculator end: there is a result, or C leaves the
    evaluation undefined by a shift, a text that is too long or a conversion
    ([genuine]).  The loops and the nested calls of the grammar are bounded together by
    [calc_fuel], which is [4 * (length + 2)]; the theorem is for any value [out] of a call
    beyond that, of which no text makes one: [out] may itself be undefined in another way
    than these. *)
Theorem r_num_calc_total str s :
  (exists n err s', r_num_calc null callback out str s = Ok (n, err) s') \/
  (exists u, r_num_calc null callback out str s = Undef u /\ genuine u).
Proof.
  assert (ends (r_num_calc null callback out str) s (fun _ _ => True)) as H.
  { unfold r_num_calc. destruct str as [|c r]; [done|]. set (str := String c r).
    eapply ends_bind; [|intros [] s1 _].
    { instantiate (1 := fun _ _ => True). by destruct null. }
    eapply ends_bind; [apply (ends_modify _ s1 (fun _ s2 => left_ s2 = String.length str)); done|]. intros [] s2 H2.
    eapply ends_bind; [apply get_token_ends|]. intros [] s3 [H3 _].
    eapply ends_bind; [apply (fo_expr _ (fuel_enough _)); unfold calc_fuel; unfold ate in H3; lia|]. intros v s4 _.
    eapply ends_bind; [by apply (ends_gets _ s4 (fun _ _ => True))|]. intros c' s5 _. unfold ends. by destruct null. }
  unfold ends in H. destruct (r_num_calc _ _ _ _ _) as [[n err] s'|u]; [left; by exists n, err, s'|right; by exists u].
Qed.
End ends.
