(* ===== verification/CalcEval.v ===== *)
(** * The calculator evaluates expressions

    The text of an expression, with the parentheses that the grammar of
    [libr/util/calc.c] needs, gives the value of the expression.  Operators are
    of two ranks only: the shifts, the bitwise operators, addition and
    subtraction are of one, and group from the left. *)

From Stdlib Require Import SpecFloat.
From S2P Require Import Prelude Num Names Calc CalcFacts HashTable Flags.

(** ** Expressions *)

Inductive cop := CAdd | CSub | CXor | COr | CAnd | CShl | CShr | CMul | CDiv | CMod.
Definition op_char (o : cop) : ascii :=
  match o with
  | CAdd => "+" | CSub => "-" | CXor => "^" | COr => "|" | CAnd => "&" | CShl => "<" | CShr => ">"
  | CMul => "*" | CDiv => "/" | CMod => "%"
  end.
Definition op_tok (o : cop) : RNumCalcToken :=
  match o with
  | CAdd => RNCPLUS | CSub => RNCMINUS | CXor => RNCXOR | COr => RNCORR | CAnd => RNCAND | CShl => RNCSHL | CShr => RNCSHR
  | CMul => RNCMUL | CDiv => RNCDIV | CMod => RNCMOD
  end.
Definition is_mul (o : cop) : bool := match o with CMul | CDiv | CMod => true | _ => false end.

Inductive aexp := ANum (n : Z) | AName (s : string) | ANeg (a : aexp) | AOp (o : cop) (a b : aexp).

Definition paren (s : string) : string := String "(" (String.append s (String ")" EmptyString)).

(** The text at rank 0 (an expression), 1 (a term) or 2 (a primary). *)
Fixpoint pr (rank : nat) (a : aexp) : string :=
  match a with
  | ANum n => fmt_0xllx n
  | AName s => s
  | ANeg a => paren (String "-" (pr 2 a))
  | AOp o a b =>
      if is_mul o then
        let t := String.append (pr 1 a) (String (op_char o) (pr 2 b)) in
        if (rank <=? 1)%nat then t else paren t
      else
        let t := String.append (pr 0 a) (String (op_char o) (pr 1 b)) in
        if (rank <=? 0)%nat then t else paren t
  end.

Section eval.
(** The values of names. *)
Context (callback : string -> option Z).

(** What an operator means on integers of 64 bits.  Neither a shift by the width or
    more nor a division by zero has a value; a remainder by zero is 0. *)
Definition int_meaning (o : cop) (x y : Z) : option Z :=
  match o with
  | CAdd => Some ((x + y) mod 2 ^ 64)
  | CSub => Some ((x - y) mod 2 ^ 64)
  | CMul => Some (x * y mod 2 ^ 64)
  | CXor => Some (Z.lxor x y)
  | COr => Some (Z.lor x y)
  | CAnd => Some (Z.land x y)
  | CShl => if y <? 64 then Some (Z.shiftl x y mod 2 ^ 64) else None
  | CShr => if y <? 64 then Some (Z.shiftr x y) else None
  | CDiv => if y =? 0 then None else Some (x / y)
  | CMod => Some (if y =? 0 then 0 else x mod y)
  end.
(** And on the doubles beside them, in the arithmetic of IEEE 754: the shifts add, the
    bitwise operators take the second operand, and the remainder is [x - x / y]. *)
Definition real_meaning (o : cop) (x y : spec_float) : option spec_float :=
  match o, y with
  | (CAdd | CShl | CShr), _ => Some (SFadd 53 1024 x y)
  | CSub, _ => Some (SFsub 53 1024 x y)
  | CMul, _ => Some (SFmul 53 1024 x y)
  | (CXor | COr | CAnd), _ => Some y
  | (CDiv | CMod), S754_zero _ => None
  | CDiv, _ => Some (SFdiv 53 1024 x y)
  | CMod, _ => Some (SFsub 53 1024 x (SFdiv 53 1024 x y))
  end.
Definition eval_op (o : cop) (l r : RNumCalcValue) : option RNumCalcValue :=
  n ← int_meaning o (v_n l) (v_n r); d ← real_meaning o (v_d l) (v_d r); Some (mk_val d n).
(** An integer with the double nearest to it. *)
Definition of_int (n : Z) : RNumCalcValue := mk_val (binary_normalize 53 1024 n 0 false) n.
Fixpoint eval (a : aexp) : option RNumCalcValue :=
  match a with
  | ANum n => Some (of_int n)
  | AName s => of_int <$> callback s
  | ANeg a => v ← eval a; Some (mk_val (SFsub 53 1024 (S754_zero false) (v_d v)) ((0 - v_n v) mod 2 ^ 64))
  | AOp o a b => l ← eval a; r ← eval b; eval_op o l r
  end.

(** The operators of the calculator are these. *)
Lemma code_op o l r v : eval_op o l r = Some v ->
  match o with
  | CAdd => Nadd l r = v | CSub => Nsub l r = v | CMul => Nmul l r = v
  | CXor => Nxor l r = v | COr => Norr l r = v | CAnd => Nand l r = v
  | CShl => Nshl l r = Some v | CShr => Nshr l r = Some v
  | CDiv => is_dzero (v_d r) || (v_n r =? 0) = false /\ Ndiv l r = v
  | CMod => is_dzero (v_d r) = false /\ Nmod l r = v
  end.
Proof.
  destruct l as [x m], r as [y n]. unfold eval_op. cbn [v_n v_d].
  destruct o; cbn [int_meaning]; try (by intros [= <-]).
  - intros H. unfold Nshl. cbn [v_n v_d]. destruct (n <? 64); [|done]. by injection H as <-.
  - intros H. unfold Nshr. cbn [v_n v_d]. destruct (n <? 64); [|done]. by injection H as <-.
  - unfold Ndiv. cbn [v_n v_d]. destruct (n =? 0); [done|]. destruct y; try done; by intros [= <-].
  - unfold Nmod. cbn [v_n v_d]. destruct y; try done; by intros [= <-].
Qed.
Lemma code_neg v : mk_val (SFsub 53 1024 (S754_zero false) (v_d v)) ((0 - v_n v) mod 2 ^ 64) = Nsub (mk_val dzero 0) v.
Proof. done. Qed.

(** Names start with a letter or a low line, and fit the buffer. *)
Definition name_start (c : ascii) : bool :=
  let x := code c in ((65 <=? x) && (x <=? 90)) || ((97 <=? x) && (x <=? 122)) || (x =? 95).
Definition name_ok (s : string) : bool :=
  match s with
  | String c _ => name_start c && all_chars r_name_validate_char s && (String.length s <=? 1023)%nat
  | EmptyString => false
  end.
Fixpoint aexp_ok (a : aexp) : Prop :=
  match a with
  | ANum n => 0 <= n < 2 ^ 64
  | AName s => name_ok s = true
  | ANeg a => aexp_ok a
  | AOp _ a b => aexp_ok a /\ aexp_ok b
  end.

(** ** Tokens *)

Definition is_op (c : ascii) : bool := one_of ["+"; "-"; "^"; "|"; "&"; "<"; ">"; "*"; "/"; "%"]%char c.
(** What may come after an operand. *)
Definition follow (k : string) : bool :=
  match k with
  | EmptyString => true
  | String c r => Ascii.eqb c ")" || (is_op c && negb (one_of ["+"; "-"]%char (char_at r 0)))
  end.
Definition ktok (k : string) : RNumCalcToken :=
  match k with
  | EmptyString => RNCEND
  | String c _ => match pair_token c with Some (_, _, one) => one | None => default RNCEND (char_token c) end
  end.
Definition at_tok (k : string) (s : RNum) : Prop := inp s = str_drop 1 k /\ ctok s = ktok k.
(** The parser keeps the error and the mark of a division by zero. *)
Definition kept (s s' : RNum) : Prop := num_dbz s' = num_dbz s /\ calc_err (num_nc s') = calc_err (num_nc s).

Lemma kept_refl s : kept s s.
Proof. done. Qed.
Lemma kept_trans s1 s2 s3 : kept s1 s2 -> kept s2 s3 -> kept s1 s3.
Proof. unfold kept. intuition congruence. Qed.
Lemma kept_at r s : kept s (at_input r s).
Proof. done. Qed.

Lemma span_append p a k : all_chars p a = true -> (match k with String c _ => p c = false | EmptyString => True end) ->
  span p (String.append a k) = (a, k).
Proof.
  intros Ha Hk. induction a as [|c a IH].
  - rewrite append_nil_l. destruct k as [|c k]; [done|]. cbn [span]. by rewrite Hk.
  - cbn [all_chars] in Ha. apply andb_true_iff in Ha as [Hc Ha]. rewrite append_cons. cbn [span]. by rewrite Hc, IH.
Qed.

(** A fact about characters is checked on all of them. *)
Lemma all_ascii (P : ascii -> bool) : forallb P (map (fun n => ascii_of_nat n) (seq 0 256)) = true -> forall c, P c = true.
Proof.
  intros H c. rewrite forallb_forall in H. apply H, in_map_iff. exists (nat_of_ascii c). split; [apply ascii_nat_embedding|].
  apply in_seq. pose proof (nat_ascii_bounded c). lia.
Qed.
Definition follow_char_ok (c : ascii) : bool :=
  implb (Ascii.eqb c ")" || is_op c)
    (negb (isspace c) && negb (one_of [";"; "010"]%char c) && negb (numchar c) && negb (isvalidchar c) && negb (Ascii.eqb c "'") &&
     negb (Ascii.eqb c "]") &&
     match pair_token c with
     | Some (second, _, _) => is_op c && one_of ["+"; "-"]%char second
     | None => is_some (char_token c)
     end).
Lemma follow_char c : follow_char_ok c = true.
Proof. apply all_ascii. vm_compute. reflexivity. Qed.

Lemma follow_facts c r : follow (String c r) = true ->
  isspace c = false /\ one_of [";"; "010"]%char c = false /\ numchar c = false /\ isvalidchar c = false /\ Ascii.eqb c "'" = false /\
  match pair_token c with Some (second, _, _) => Ascii.eqb (char_at r 0) second = false | None => is_some (char_token c) = true end.
Proof.
  intros H. pose proof (follow_char c) as Hc. unfold follow_char_ok in Hc. cbn [follow] in H.
  assert (Ascii.eqb c ")" || is_op c = true) as E.
  { destruct (Ascii.eqb c ")"); [done|]. cbn in *. by apply andb_true_iff in H as [-> _]. }
  rewrite E in Hc. cbn [implb] in Hc. rewrite !andb_true_iff, !negb_true_iff in Hc.
  destruct Hc as ((((((H1 & H2) & H3) & H4) & H5) & _) & H6). split_and!; try done.
  destruct (pair_token c) as [[[second b] o]|] eqn:Ep; [|done]. apply andb_true_iff in H6 as [Hop Hsec].
  destruct (Ascii.eqb_spec (char_at r 0) second) as [<-|]; [|done]. exfalso.
  destruct (Ascii.eqb_spec c ")") as [->|_]; [done|]. cbn [orb] in H. apply andb_true_iff in H as [_ H]. by rewrite Hsec in H.
Qed.

Notation get_token := (get_token false callback).

(** The token that starts with [ch]. *)
Definition token_from (ch : ascii) : M RNum unit :=
  match pair_token ch with
  | Some (second, both, one) =>
      c ← cin_get;
      if match c with Some c => Ascii.eqb c second | None => false end then tok both else cin_putback c ;; tok one
  | None =>
      match char_token ch with
      | Some t => tok t
      | None =>
          if isdigit ch || Ascii.eqb ch "." then cin_putback (Some ch) ;; cin_get_num false callback ;; tok RNCNUMBER
          else get_name ch
      end
  end.
Lemma run_get_token s c r : inp s = String c r -> isspace c = false -> one_of [";"; "010"]%char c = false ->
  get_token s = token_from c (at_input r s).
Proof.
  intros Hi Hsp He. unfold Calc.get_token. rewrite run_bind, run_cin_while, Hi. cbn [span]. rewrite Hsp, andb_false_r.
  cbn [fst snd]. rewrite run_bind, run_cin_get, inp_at, He. done.
Qed.

Lemma get_token_follow s k : inp s = k -> follow k = true -> exists s', get_token s = Ok tt s' /\ at_tok k s' /\ kept s s'.
Proof.
  intros Hi Hk. destruct k as [|c r].
  { unfold Calc.get_token. rewrite run_bind, run_cin_while, Hi, run_bind, run_cin_get, inp_at. by eexists. }
  destruct (follow_facts c r Hk) as (Hsp & Hend & _ & _ & _ & Hpair). rewrite (run_get_token s c r) by done.
  unfold token_from, at_tok, ktok. destruct (pair_token c) as [[[second both] one]|].
  - rewrite run_bind, run_cin_get, inp_at. destruct r as [|d r].
    + rewrite run_bind. by eexists.
    + change (char_at (String d r) 0) with d in Hpair. rewrite Hpair, run_bind. by eexists.
  - destruct (char_token c); [|done]. by eexists.
Qed.

(** ** Operands *)

Context (out : ub).
Notation expr := (Calc.expr false callback out).
Notation expr_loop := (Calc.expr_loop false callback out).
Notation term := (Calc.term false callback out).
Notation term_loop := (Calc.term_loop false callback out).
Notation prim := (Calc.prim false callback out).

(** A text that is read as a primary, a term and an expression of a value, up to what may follow. *)
Definition prim_reads (str : string) (v : RNumCalcValue) : Prop := forall n s k,
  inp s = String.append str k -> follow k = true -> (4 * left_ s + 1 <= n)%nat ->
  exists s', prim n true s = Ok v s' /\ at_tok k s' /\ kept s s'.
Definition term_reads (str : string) (v : RNumCalcValue) : Prop := forall n s k,
  inp s = String.append str k -> follow k = true -> (4 * left_ s + 2 <= n)%nat ->
  exists n' s', term n true s = term_loop n' v s' /\ at_tok k s' /\ kept s s' /\ (4 * String.length k + 1 <= n')%nat.
Definition mul_tok (t : RNumCalcToken) : bool := match t with RNCMUL | RNCDIV | RNCMOD => true | _ => false end.
Definition expr_reads (str : string) (v : RNumCalcValue) : Prop := forall n s k,
  inp s = String.append str k -> follow k = true -> mul_tok (ktok k) = false -> (4 * left_ s + 3 <= n)%nat ->
  exists n' s', expr n true s = expr_loop n' v s' /\ at_tok k s' /\ kept s s' /\ (4 * String.length k + 1 <= n')%nat.

Lemma left_append s a k : inp s = String.append a k -> left_ s = (String.length a + String.length k)%nat.
Proof. intros H. unfold left_. by rewrite H, length_append. Qed.

Lemma run_curr s : curr s = Ok (ctok s) s.
Proof. done. Qed.

Lemma run_expr_S n get : expr (S n) get = (left ← term n get; expr_loop n left).
Proof. done. Qed.
Lemma run_expr_loop_S n left : expr_loop (S n) left = (t ← curr;
  if is_expr_tok t then right ← term n true; left ← expr_op t left right; expr_loop n left else mret left).
Proof. done. Qed.
Lemma run_term_S n get : term (S n) get = (left ← prim n get; term_loop n left).
Proof. done. Qed.
Lemma run_term_loop_S n left : term_loop (S n) left = (t ← curr;
  match t with
  | RNCMUL => d ← prim n true; term_loop n (Nmul left d)
  | RNCMOD => d ← prim n true; if is_dzero (v_d d) then mret d else term_loop n (Nmod left d)
  | RNCDIV =>
      d ← prim n true;
      if is_dzero (v_d d) || (v_n d =? 0) then modify (set_dbz 1) ;; mret d else term_loop n (Ndiv left d)
  | _ => mret left
  end).
Proof. done. Qed.

Lemma term_loop_stops n v s : mul_tok (ctok s) = false -> term_loop (S n) v s = Ok v s.
Proof. intros H. rewrite run_term_loop_S, run_bind, run_curr. by destruct (ctok s). Qed.
Lemma expr_loop_stops n v s : is_expr_tok (ctok s) = false -> expr_loop (S n) v s = Ok v s.
Proof. intros H. by rewrite run_expr_loop_S, run_bind, run_curr, H. Qed.

Lemma prim_term str v : str <> EmptyString -> prim_reads str v -> term_reads str v.
Proof.
  intros Hne H n s k Hi Hk Hn. destruct n as [|n]; [lia|]. destruct (H n s k Hi Hk ltac:(lia)) as (s' & R & Ht & Hs).
  exists n, s'. rewrite run_term_S, run_bind, R. split_and!; try done. rewrite (left_append _ _ _ Hi) in Hn.
  destruct str; [done|]. simpl in Hn. lia.
Qed.

Lemma term_expr str v : str <> EmptyString -> term_reads str v -> expr_reads str v.
Proof.
  intros Hne H n s k Hi Hk Hm Hn. destruct n as [|n]; [lia|]. destruct (H n s k Hi Hk ltac:(lia)) as (n' & s' & R & Ht & Hs & Hn').
  exists n, s'. destruct n' as [|n']; [lia|].
  rewrite run_expr_S, run_bind, R, term_loop_stops by (destruct Ht as [_ ->]; done). split_and!; try done.
  rewrite (left_append _ _ _ Hi) in Hn. destruct str; [done|]. simpl in Hn. lia.
Qed.

(** What an operator or a parenthesis leaves to be read. *)
Lemma at_tok_cons c r s : at_tok (String c r) s -> inp s = r.
Proof. by intros [H _]. Qed.

Lemma append_assoc a b c : String.append (String.append a b) c = String.append a (String.append b c).
Proof. induction a as [|x a IH]; [done|]. by rewrite !append_cons, IH. Qed.

Definition head_ok (str : string) : Prop := exists c r, str = String c r /\ one_of ["+"; "-"]%char c = false.

Lemma follow_op o b k : head_ok b -> follow (String (op_char o) (String.append b k)) = true.
Proof. intros (c & r & -> & H). cbn [follow]. rewrite append_cons. change (char_at _ 0) with c. rewrite H. by destruct o. Qed.
Lemma ktok_op o r : ktok (String (op_char o) r) = op_tok o.
Proof. by destruct o. Qed.

Lemma term_mul o x y l r v : is_mul o = true -> head_ok y -> term_reads x l -> prim_reads y r -> eval_op o l r = Some v ->
  term_reads (String.append x (String (op_char o) y)) v.
Proof.
  intros Ho Hy Hx Hr Hv n s k Hi Hk Hn. rewrite append_assoc, append_cons in Hi.
  destruct (Hx n s _ Hi (follow_op o y k Hy) Hn) as (n1 & s1 & -> & Ht1 & Hs1 & Hn1).
  destruct n1 as [|n1]; [lia|]. rewrite run_term_loop_S, run_bind, run_curr. destruct Ht1 as [Hi1 ->]. rewrite ktok_op.
  simpl str_drop in Hi1. simpl String.length in Hn1. pose proof (left_append _ _ _ Hi1) as Hl1. rewrite length_append in Hn1.
  destruct (Hr n1 s1 k Hi1 Hk ltac:(lia)) as (s2 & R2 & Ht2 & Hs2). exists n1, s2.
  assert (kept s s2 /\ (4 * String.length k + 1 <= n1)%nat) as [Hs Hn'] by (split; [by eapply kept_trans|lia]).
  apply code_op in Hv. destruct o; try done; cbn [op_tok]; rewrite run_bind, R2.
  - by rewrite Hv.
  - destruct Hv as [-> ->]. done.
  - destruct Hv as [-> ->]. done.
Qed.

Lemma run_expr_op o l r v s : is_mul o = false -> eval_op o l r = Some v -> expr_op (op_tok o) l r s = Ok v s.
Proof. intros Ho Hv%code_op. destruct o; try done; cbn [op_tok expr_op]; by rewrite Hv. Qed.

Lemma expr_add o x y l r v : is_mul o = false -> head_ok y -> expr_reads x l -> term_reads y r -> eval_op o l r = Some v ->
  expr_reads (String.append x (String (op_char o) y)) v.
Proof.
  intros Ho Hy Hx Hr Hv n s k Hi Hk Hm Hn. rewrite append_assoc, append_cons in Hi.
  assert (mul_tok (ktok (String (op_char o) (String.append y k))) = false) as Hmo by (rewrite ktok_op; by destruct o).
  destruct (Hx n s _ Hi (follow_op o y k Hy) Hmo Hn) as (n1 & s1 & -> & Ht1 & Hs1 & Hn1).
  destruct n1 as [|n1]; [lia|]. rewrite run_expr_loop_S, run_bind, run_curr. destruct Ht1 as [Hi1 ->]. rewrite ktok_op.
  simpl str_drop in Hi1. simpl String.length in Hn1. pose proof (left_append _ _ _ Hi1) as Hl1. rewrite length_append in Hn1.
  destruct (Hr n1 s1 k Hi1 Hk ltac:(lia)) as (n2 & s2 & R2 & Ht2 & Hs2 & Hn2). exists n1, s2.
  destruct n2 as [|n2]; [lia|].
  assert (is_expr_tok (op_tok o) = true) as -> by (by destruct o).
  rewrite run_bind, R2, term_loop_stops by (destruct Ht2 as [_ ->]; done).
  rewrite run_bind, (run_expr_op o l r v) by done. split_and!; [done|done|by eapply kept_trans|lia].
Qed.
(** The primaries below, once their token is read. *)
Definition prim_rest (n : nat) (t : RNumCalcToken) : M RNum RNumCalcValue :=
  match t with
  | RNCNUMBER => s ← gets num_nc; get_token ;; mret (number_value s)
  | RNCNAME =>
      on_nc (fun c => set_string_value (r_str_chop (string_value c)) c) ;;
      s ← gets num_nc;
      x ← num_get false callback (string_value s);
      get_token ;;
      t ← curr;
      match t with RNCASSIGN => expr n true | _ => mret (Nset x) end
  | RNCMINUS => v ← prim n true; mret (Nsub (mk_val dzero 0) v)
  | RNCLEFTP =>
      v ← expr n true;
      t ← curr;
      (match t with RNCRIGHTP => get_token | _ => error " ')' expected" end) ;;
      mret v
  | _ => mret (mk_val dzero 0)
  end.
Definition is_primary (t : RNumCalcToken) : bool :=
  match t with RNCNUMBER | RNCNAME | RNCMINUS | RNCLEFTP => true | _ => false end.
Lemma run_prim n s s1 t : get_token s = Ok tt s1 -> ctok s1 = t -> is_primary t = true -> prim (S n) true s = prim_rest n t s1.
Proof.
  intros R <- Ht. rewrite !prim_S. unfold prim_body. cbv zeta. rewrite run_bind, R, run_bind, run_curr. by destruct (ctok s1).
Qed.

Lemma prim_paren x v : expr_reads x v -> prim_reads (paren x) v.
Proof.
  intros Hx n s k Hi Hk Hn. destruct n as [|n]; [lia|]. unfold paren in Hi. rewrite append_cons, append_assoc, append_cons, append_nil_l in Hi.
  assert (exists s1, get_token s = Ok tt s1 /\ inp s1 = String.append x (String ")" k) /\ ctok s1 = RNCLEFTP /\ kept s s1) as (s1 & R1 & Hi1 & Ht1 & Hs1).
  { rewrite (run_get_token s _ _ Hi) by done. by eexists. }
  rewrite (run_prim n s s1 RNCLEFTP) by done. cbn [prim_rest].
  destruct (Hx n s1 (String ")" k)) as (n2 & s2 & R2 & [Hi2 Ht2] & Hs2 & Hn2); [done|done|done| |].
  { unfold left_ in *. rewrite Hi1, Hi in *. simpl in Hn. lia. }
  destruct n2 as [|n2]; [lia|]. rewrite run_bind, R2, expr_loop_stops by (by rewrite Ht2).
  rewrite run_bind, run_curr, Ht2. cbn iota beta. change (ktok (String ")" k)) with RNCRIGHTP. cbv iota.
  destruct (get_token_follow s2 k Hi2 Hk) as (s3 & R3 & Ht3 & Hs3). rewrite run_bind, R3, run_ret. exists s3.
  split_and!; [done|done|]. eapply kept_trans; [exact Hs1|]. by eapply kept_trans.
Qed.

Lemma prim_neg x v : head_ok x -> prim_reads x v -> prim_reads (String "-" x) (Nsub (mk_val dzero 0) v).
Proof.
  intros (c & r & -> & Hc) Hx n s k Hi Hk Hn. destruct n as [|n]; [lia|]. rewrite append_cons in Hi.
  assert (Ascii.eqb c "-" = false) as Hm.
  { destruct (Ascii.eqb_spec c "-") as [->|]; [done|reflexivity]. }
  assert (exists s1, get_token s = Ok tt s1 /\ inp s1 = String.append (String c r) k /\ ctok s1 = RNCMINUS /\ kept s s1) as (s1 & R1 & Hi1 & Ht1 & Hs1).
  { rewrite (run_get_token s _ _ Hi) by done. unfold token_from. change (pair_token "-") with (Some ("-"%char, RNCDEC, RNCMINUS)).
    cbv iota beta. rewrite run_bind, run_cin_get, inp_at, append_cons, Hm. by eexists. }
  rewrite (run_prim n s s1 RNCMINUS) by done. cbn [prim_rest].
  destruct (Hx n s1 k Hi1 Hk) as (s2 & R2 & Ht2 & Hs2). { unfold left_ in *. rewrite Hi1, Hi in *. simpl in *. lia. }
  rewrite run_bind, R2, run_ret. exists s2. split_and!; [done|done|by eapply kept_trans].
Qed.

(** Reading up to what follows, which is put back. *)
Lemma run_stop s k : follow k = true -> exists s', (c ← cin_get; cin_putback c) (at_input k s) = Ok tt s' /\ inp s' = k /\
  num_nc s' = set_oc (oc (num_nc s')) (set_calc_rest (calc_rest (num_nc s')) (num_nc s)) /\ num_dbz s' = num_dbz s.
Proof. intros Hk. rewrite run_bind, run_cin_get, inp_at. destruct k as [|c r]; by eexists. Qed.

Lemma follow_not p k : follow k = true -> (forall c r, follow (String c r) = true -> p c = false) ->
  match k with String c _ => p c = false | EmptyString => True end.
Proof. destruct k; eauto. Qed.

Lemma run_get_name ch body s k : Ascii.eqb ch "[" = false -> inp s = String.append body k -> all_chars isvalidchar body = true ->
  follow k = true ->
  exists s', get_name ch s = Ok tt s' /\ inp s' = k /\ ctok s' = RNCNAME /\ kept s s' /\
    string_value (num_nc s') = str_take 1023 (String ch body).
Proof.
  intros Hch Hi Hb Hk. unfold get_name. rewrite Hch. cbv zeta. rewrite run_bind, run_cin_while, Hi, span_append; [|done|].
  2: { apply follow_not; [done|]. intros c r H. by destruct (follow_facts c r H) as (_ & _ & _ & ? & _). }
  cbn [fst snd]. rewrite run_bind, run_cin_get, inp_at. destruct k as [|c r].
  - eexists. split; [reflexivity|]. cbn. by rewrite append_nil_r.
  - destruct (follow_facts c r Hk) as (_ & _ & _ & _ & Hq & _). rewrite run_bind. unfold on_nc at 1. rewrite run_modify, Hq, run_bind.
    eexists. split; [reflexivity|]. cbn. by rewrite append_nil_r.
Qed.

Lemma str_take_all n x : (String.length x <= n)%nat -> str_take n x = x.
Proof.
  revert n. induction x as [|c x IH]; intros n H; [by destruct n|]. destruct n as [|n]; [simpl in H; lia|].
  cbn [str_take]. f_equal. apply IH. simpl in H. lia.
Qed.
Lemma all_chars_impl p q x : (forall c, p c = true -> q c = true) -> all_chars p x = true -> all_chars q x = true.
Proof. intros H. induction x as [|c x IH]; [done|]. cbn. rewrite !andb_true_iff. intros [H1 H2]. auto. Qed.

Lemma name_char_valid c : r_name_validate_char c = true -> isvalidchar c = true.
Proof.
  assert (implb (r_name_validate_char c) (isvalidchar c) = true) as H.
  { revert c. apply all_ascii. vm_compute. reflexivity. }
  intros Hc. by rewrite Hc in H.
Qed.
Lemma name_start_facts c : name_start c = true ->
  isspace c = false /\ one_of [";"; "010"]%char c = false /\ pair_token c = None /\ char_token c = None /\
  isdigit c || Ascii.eqb c "." = false /\ Ascii.eqb c "[" = false /\ is_char c " " = false /\ one_of ["+"; "-"]%char c = false.
Proof.
  assert (implb (name_start c) (negb (isspace c) && negb (one_of [";"; "010"]%char c) && negb (is_some (pair_token c)) &&
    negb (is_some (char_token c)) && negb (isdigit c || Ascii.eqb c ".") && negb (Ascii.eqb c "[") && negb (is_char c " ") &&
    negb (one_of ["+"; "-"]%char c)) = true) as H.
  { revert c. apply all_ascii. vm_compute. reflexivity. }
  intros Hc. rewrite Hc in H. cbn [implb] in H. rewrite !andb_true_iff, !negb_true_iff in H.
  destruct H as (((((((? & ?) & Hp) & Ht) & ?) & ?) & ?) & ?). destruct (pair_token c); [done|]. by destruct (char_token c).
Qed.

Lemma ktok_not_assign k : follow k = true -> ktok k <> RNCASSIGN.
Proof.
  destruct k as [|c r]; [done|]. cbn [follow ktok].
  assert (implb (Ascii.eqb c ")" || is_op c) (bool_decide (match pair_token c with Some (_, _, one) => one | None => default RNCEND (char_token c) end <> RNCASSIGN)) = true) as Hc.
  { revert c. apply all_ascii. vm_compute. reflexivity. }
  intros H. assert (Ascii.eqb c ")" || is_op c = true) as E by (destruct (Ascii.eqb c ")"); [done|]; cbn in *; by apply andb_true_iff in H as [-> _]).
  rewrite E in Hc. by apply bool_decide_eq_true in Hc.
Qed.

Lemma prim_name x n0 : name_ok x = true -> callback x = Some n0 -> prim_reads x (Nset n0).
Proof.
  intros Hx Hcb n s k Hi Hk Hn. destruct n as [|n]; [lia|]. destruct x as [|ch body]; [done|]. unfold name_ok in Hx.
  rewrite !andb_true_iff, Nat.leb_le in Hx. destruct Hx as [[Hs Hall] Hlen]. rewrite append_cons in Hi.
  destruct (name_start_facts ch Hs) as (Hsp & He & Hp & Ht & Hd & Hbr & Hbl & _).
  pose proof Hall as Hall'. cbn [all_chars] in Hall'. apply andb_true_iff in Hall' as [_ Hb].
  destruct (run_get_name ch body (at_input (String.append body k) s) k Hbr (inp_at _ _)) as (s1 & R1 & Hi1 & Ht1 & Hs1 & Hv1); [|done|].
  { by eapply all_chars_impl; [apply name_char_valid|]. }
  rewrite (run_prim n s s1 RNCNAME); [|by rewrite (run_get_token s _ _ Hi), <- R1 by done; unfold token_from; rewrite Hp, Ht, Hd|done|done].
  cbn [prim_rest]. unfold on_nc. rewrite run_bind, run_modify. set (s2 := set_nc _ s1). rewrite run_bind, run_gets.
  assert (string_value (num_nc s2) = String ch body) as ->.
  { cbn. rewrite Hv1, str_take_all by done. by rewrite r_str_chop_trims, trim_valid. }
  unfold num_get. cbn [skip_blanks]. rewrite Hbl, Hcb, run_bind, run_ret.
  destruct (get_token_follow s2 k Hi1 Hk) as (s3 & R3 & Ht3 & Hs3). rewrite run_bind, R3, run_bind, run_curr.
  exists s3. split_and!; [|done|by eapply kept_trans; [exact Hs1|]].
  destruct Ht3 as [_ E]. pose proof (ktok_not_assign k Hk). rewrite E. by destruct (ktok k).
Qed.
Lemma str_all_chars (P : ascii -> Prop) p x : (forall c, P c -> p c = true) -> str_all P x -> all_chars p x = true.
Proof. intros H. induction x as [|c x IH]; [done|]. cbn. intros [Hc Hx]. by rewrite (H c Hc), IH. Qed.

Lemma hex_digit_facts c : hex_digit c -> numchar c && negb (Ascii.eqb c ".") = true.
Proof.
  intros (d & Hd & ->). assert (forallb (fun d => numchar (hex_char d) && negb (Ascii.eqb (hex_char d) ".")) (seqZ 0 16) = true) as H
    by (vm_compute; reflexivity).
  rewrite forallb_forall in H. apply H, list_elem_of_In, elem_of_seqZ. lia.
Qed.

Lemma fmt_facts x : 0 <= x < 2 ^ 64 -> all_chars numchar (fmt_0xllx x) = true /\ str_has "." (fmt_0xllx x) = false /\
  (String.length (fmt_0xllx x) <= 18)%nat.
Proof.
  intros Hx. pose proof (fmt_llx_hex x) as H. unfold fmt_0xllx. split_and!.
  - cbn [all_chars]. rewrite (str_all_chars hex_digit numchar); [done| |done]. intros c Hc%hex_digit_facts. by apply andb_true_iff in Hc as [? _].
  - unfold str_has. cbn [all_chars]. rewrite (str_all_chars hex_digit _ _); [done| |done]. intros c Hc%hex_digit_facts. by apply andb_true_iff in Hc as [_ ?].
  - destruct (scan_hex_digits 16 x EmptyString) as (k & Hk & Hlen & _); [lia|change (16 ^ Z.of_nat 16) with (2 ^ 64); lia|].
    unfold fmt_llx. simpl String.length in *. lia.
Qed.

Lemma run_number x : 0 <= x < 2 ^ 64 -> callback (fmt_0xllx x) = None -> forall s k,
  inp s = String.append (fmt_0xllx x) k -> follow k = true ->
  exists s', cin_get_num false callback s = Ok tt s' /\ inp s' = k /\ kept s s' /\ number_value (num_nc s') = Nset x.
Proof.
  intros Hx Hcb s k Hi Hk. destruct (fmt_facts x Hx) as (Hall & Hdot & Hlen). unfold cin_get_num.
  rewrite run_bind, run_cin_while, Hi, span_append; [|done|].
  2: { apply follow_not; [done|]. intros c r H. by destruct (follow_facts c r H) as (_ & _ & ? & _). }
  cbn [fst snd]. rewrite run_bind.
  assert (exists c s1 s2, cin_get (at_input k s) = Ok c s1 /\ cin_putback c s1 = Ok tt s2 /\ inp s2 = k /\ kept s s2) as (c & s1 & s2 & R1 & R2 & Hi2 & Hs2).
  { rewrite run_cin_get, inp_at. destruct k; by do 3 eexists. }
  rewrite R1, run_bind, R2. rewrite (proj2 (Nat.leb_gt _ _)) by (unfold R_NUMCALC_STRSZ; lia).
  assert (exists s3, num_get false callback (fmt_0xllx x) s2 = Ok x s3 /\ num_nc s3 = num_nc s2 /\ num_dbz s3 = num_dbz s2) as (s3 & R3 & E3 & D3).
  { unfold num_get. assert (skip_blanks (fmt_0xllx x) = fmt_0xllx x) as -> by done. unfold fmt_0xllx at 1.
    rewrite Hcb, (r_num_get_fmt x Hx). rewrite run_bind. change (lift UB_shift (Some x) s2) with (Ok x s2). cbv iota beta.
    rewrite run_bind. destruct (get_ends _); by eexists. }
  rewrite run_bind, R3, Hdot, andb_false_r, run_bind, run_ret. eexists. split; [reflexivity|].
  destruct Hs2 as [Hd He]. split_and!; [|split|done]; cbn.
  - unfold inp in *. cbn. by rewrite E3.
  - congruence.
  - by rewrite E3.
Qed.

Lemma prim_num x : 0 <= x < 2 ^ 64 -> callback (fmt_0xllx x) = None -> prim_reads (fmt_0xllx x) (Nset x).
Proof.
  intros Hx Hcb n s k Hi Hk Hn. destruct n as [|n]; [lia|].
  assert (exists s1, get_token s = Ok tt s1 /\ inp s1 = k /\ ctok s1 = RNCNUMBER /\ kept s s1 /\ number_value (num_nc s1) = Nset x)
    as (s1 & R1 & Hi1 & Ht1 & Hs1 & Hv1).
  { pose proof Hi as Hi'. unfold fmt_0xllx in Hi'. rewrite append_cons in Hi'. rewrite (run_get_token s _ _ Hi') by done.
    unfold token_from. change (pair_token "0") with (@None (ascii * RNumCalcToken * RNumCalcToken)).
    change (char_token "0") with (@None RNumCalcToken). cbv iota beta. change (isdigit "0" || Ascii.eqb "0" ".") with true. cbv iota.
    rewrite run_bind. set (r := String.append (String "x" (fmt_llx x)) k) in *.
    destruct (run_putback (Some "0"%char) (at_input r s) eq_refl) as (s0 & R0 & Hi0 & _). rewrite R0.
    assert (kept s s0) as Hs0 by (injection R0 as <-; done).
    destruct (run_number x Hx Hcb s0 k) as (s1 & R1 & Hi1 & Hs1 & Hv1); [by rewrite Hi0, inp_at; exact (eq_sym (eq_trans (eq_sym Hi) Hi'))|done|].
    rewrite run_bind, R1. eexists. split; [reflexivity|]. split_and!; try done. by eapply kept_trans. }
  rewrite (run_prim n s s1 RNCNUMBER) by done. cbn [prim_rest]. rewrite run_bind, run_gets.
  destruct (get_token_follow s1 k Hi1 Hk) as (s2 & R2 & Ht2 & Hs2). rewrite run_bind, R2, run_ret, Hv1.
  exists s2. split_and!; [done|done|by eapply kept_trans].
Qed.

(** ** Expressions *)

Definition no_literals : Prop := forall n, callback (fmt_0xllx n) = None.

Lemma pr_head a : aexp_ok a -> forall rank, head_ok (pr rank a).
Proof.
  induction a as [n|x|a IH|o a IHa b IHb]; cbn; intros Hok rank; try (by do 2 eexists).
  - destruct x as [|c r]; [done|]. exists c, r. split; [done|]. unfold name_ok in Hok. rewrite !andb_true_iff in Hok.
    destruct Hok as [[Hs _] _]. by destruct (name_start_facts c Hs) as (_ & _ & _ & _ & _ & _ & _ & ?).
  - destruct Hok as [Ha _]. assert (forall rk t, head_ok (String.append (pr rk a) t)) as H.
    { intros rk t. destruct (IHa Ha rk) as (c & r & -> & Hc). exists c, (String.append r t). by rewrite append_cons. }
    destruct (is_mul o); (destruct (_ <=? _)%nat; [apply H|by do 2 eexists]).
Qed.
Lemma head_ne x : head_ok x -> x <> EmptyString.
Proof. by intros (c & r & -> & _). Qed.

(** Every rank of an expression is read as its value. *)
Record reads_as (a : aexp) (v : RNumCalcValue) : Prop := mk_reads_as {
  ra_expr : expr_reads (pr 0 a) v;
  ra_term : term_reads (pr 1 a) v;
  ra_prim : prim_reads (pr 2 a) v
}.

Lemma reads_atom a v : aexp_ok a -> pr 0 a = pr 2 a -> pr 1 a = pr 2 a -> prim_reads (pr 2 a) v -> reads_as a v.
Proof.
  intros Hok E0 E1 H. pose proof (head_ne _ (pr_head a Hok 2)) as Hne.
  constructor; [rewrite E0|rewrite E1|done]; [apply term_expr; [done|]|]; by apply prim_term.
Qed.

Lemma eval_reads : no_literals -> forall a v, aexp_ok a -> eval a = Some v -> reads_as a v.
Proof.
  intros Hlit a. induction a as [x|x|a IH|o a IHa b IHb]; intros v Hok Hv.
  - injection Hv as <-. apply reads_atom; [done|done|done|]. by apply prim_num.
  - cbn in Hv. destruct (callback x) as [n0|] eqn:E; [|done]. injection Hv as <-. apply reads_atom; [done|done|done|]. by apply prim_name.
  - cbn in Hv. destruct (eval a) as [w|] eqn:E; [|done]. injection Hv as <-. destruct (IH w Hok eq_refl) as [_ _ Hp].
    apply reads_atom; [done|done|done|]. cbn [pr]. apply prim_paren, term_expr, prim_term; [done|done|].
    apply prim_neg; [by apply pr_head|done].
  - cbn in Hv. destruct Hok as [Hoka Hokb]. destruct (eval a) as [l|] eqn:El; [|done]. destruct (eval b) as [r|] eqn:Er; [|done]. cbn in Hv.
    destruct (IHa l Hoka eq_refl) as [Ha0 Ha1 _]. destruct (IHb r Hokb eq_refl) as [_ Hb1 Hb2].
    assert (forall rank, head_ok (pr rank (AOp o a b))) as Hh by (intros; by apply pr_head).
    destruct (is_mul o) eqn:Eo.
    + assert (pr 0 (AOp o a b) = pr 1 (AOp o a b) /\ pr 2 (AOp o a b) = paren (pr 1 (AOp o a b)) /\
        pr 1 (AOp o a b) = String.append (pr 1 a) (String (op_char o) (pr 2 b))) as (E0 & E2 & E1) by (cbn [pr]; by rewrite Eo).
      assert (term_reads (pr 1 (AOp o a b)) v) as H1 by (rewrite E1; eapply term_mul; eauto using pr_head).
      assert (expr_reads (pr 1 (AOp o a b)) v) as H0 by (apply term_expr; [apply head_ne, Hh|done]).
      constructor; [by rewrite E0|done|rewrite E2; by apply prim_paren].
    + assert (pr 1 (AOp o a b) = pr 2 (AOp o a b) /\ pr 2 (AOp o a b) = paren (pr 0 (AOp o a b)) /\
        pr 0 (AOp o a b) = String.append (pr 0 a) (String (op_char o) (pr 1 b))) as (E1 & E2 & E0) by (cbn [pr]; by rewrite Eo).
      assert (expr_reads (pr 0 (AOp o a b)) v) as H0 by (rewrite E0; eapply expr_add; eauto using pr_head).
      assert (prim_reads (pr 2 (AOp o a b)) v) as H2 by (rewrite E2; by apply prim_paren).
      constructor; [done|rewrite E1; apply prim_term; [apply head_ne, Hh|done]|done].
Qed.
(** The first token is read before the first call. *)
Lemma run_expr_first n s : (get_token ;; expr (S (S (S n))) false) s = expr (S (S (S n))) true s.
Proof.
  rewrite run_bind, !run_expr_S, !run_bind, !run_term_S, !run_bind. rewrite !prim_S. unfold prim_body. cbv zeta. rewrite !run_bind.
  destruct (get_token s) as [[] s1|u]; done.
Qed.

Lemma run_r_num_calc a v s : no_literals -> aexp_ok a -> eval a = Some v ->
  exists s', r_num_calc false callback out (pr 0 a) s = Ok (v_n v, None) s' /\ num_fvalue s' = v_d v /\ num_dbz s' = 0.
Proof.
  intros Hlit Hok Hv. destruct (eval_reads Hlit a v Hok Hv) as [H _ _]. pose proof (pr_head a Hok 0) as (c & r & E & _).
  unfold r_num_calc. rewrite E, <- E. cbv iota. rewrite run_bind, run_modify. unfold on_nc. rewrite run_bind, run_modify.
  set (s1 := set_nc _ _). assert (inp s1 = pr 0 a /\ num_dbz s1 = 0 /\ calc_err (num_nc s1) = None) as (Hi & Hd & He) by done.
  assert (exists m, calc_fuel (pr 0 a) = S (S (S m)) /\ (4 * left_ s1 + 3 <= S (S (S m)))%nat) as (m & Em & Hm).
  { unfold calc_fuel, left_. rewrite Hi. exists (4 * String.length (pr 0 a) + 5)%nat. lia. }
  destruct (H (S (S (S m))) s1 EmptyString) as (n' & s2 & R & [_ Ht] & [Hs1 Hs2] & Hn); [by rewrite append_nil_r|done|done|done|].
  destruct n' as [|n']; [simpl in Hn; lia|]. rewrite expr_loop_stops in R by (by rewrite Ht).
  rewrite <- run_expr_first, run_bind in R. rewrite run_bind, Em.
  destruct (get_token s1) as [[] s3|u]; [|done]. rewrite run_bind, R, run_bind, run_gets, run_bind, run_modify, run_ret.
  eexists. split; [rewrite Hs2, He; reflexivity|]. split; [done|]. cbn. congruence.
Qed.

(** C18: The text of an expression, with the parentheses that the two ranks of
    operators need and every operator grouping from the left, gives its value without
    an error.  The value is a number of 64 bits, in the arithmetic modulo [2^64] of
    [int_meaning], and beside it a double, in the arithmetic of [real_meaning].  Numbers
    are written in hexadecimal and below [2^64]; names start with a letter or a low line, are of characters that a flag may
    have, at most 1023, and have the values that the callback gives them, which has
    none for the texts of numbers; the expression divides by no zero, of either kind, and shifts by
    less than 64. *)
Theorem r_num_calc_evaluates a v s : no_literals -> aexp_ok a -> eval a = Some v ->
  exists s', r_num_calc false callback out (pr 0 a) s = Ok (v_n v, None) s' /\ num_fvalue s' = v_d v /\ num_dbz s' = 0.
Proof. apply run_r_num_calc. Qed.
End eval.

(** ** Names of flags *)

(** The value of a name, as the numbers of a set of flags ask for it. *)
Definition flag_names (f : RFlag) (name : string) : option Z :=
  match num_callback name f with Ok (x, true) _ => Some x | _ => None end.
Definition flag_math (f : RFlag) (s : string) : Z :=
  match r_num_math false (flag_names f) UB_free (Some s) r_num_new with Ok x _ => x | Undef _ => 0 end.

Lemma run_r_num_math callback out a v s : no_literals callback -> aexp_ok a -> eval callback a = Some v ->
  exists s', r_num_math false callback out (Some (pr 0 a)) s = Ok (v_n v) s'.
Proof.
  intros Hlit Hok Hv. unfold r_num_math. rewrite run_bind, run_modify.
  destruct (run_r_num_calc callback out a v (set_dbz 0 s) Hlit Hok Hv) as (s' & R & _). rewrite run_bind, R, run_bind, run_modify.
  by eexists.
Qed.

(** An alias that is the text of an expression over flags has its value. *)
Lemma evalFlag_alias a v f i x : no_literals (flag_names f) -> aexp_ok a -> eval (flag_names f) a = Some v ->
  fl_items f !! i = Some x -> fi_alias x = Some (pr 0 a) ->
  evalFlag flag_math (Some i) f = Ok (Some i) (set_items (<[i := set_fi_offset (u64 (v_n v)) x]> (fl_items f)) f).
Proof.
  intros Hlit Hok Hv Hi Ha. unfold evalFlag, item_at. rewrite run_bind, run_bind, run_gets, Hi.
  change (lift UB_free (Some x) f) with (Ok x f). cbv iota beta. rewrite Ha, run_bind, run_gets. unfold put_item.
  rewrite run_bind, run_modify, run_ret. do 2 f_equal. unfold flag_math, id.
  by destruct (run_r_num_math (flag_names f) UB_free a v r_num_new Hlit Hok Hv) as (s' & ->).
Qed.

Definition demo_callback (s : string) : option Z := if String.eqb s "x" then Some 5 else None.
Definition demo_aexp : aexp :=
  AOp CSub (AOp CMul (AName "x") (AOp CAdd (ANum 3) (AName "x"))) (ANeg (AOp CShl (ANum 1) (ANum 1))).

Lemma r_num_calc_evaluates_witness :
  pr 0 demo_aexp = "x*(0x3+x)-(-(0x1<0x1))"%string /\
  exists s', r_num_calc false demo_callback UB_free (pr 0 demo_aexp) r_num_new = Ok (42, None) s' /\ num_dbz s' = 0.
Proof.
  split; [reflexivity|].
  assert (eval demo_callback demo_aexp = Some (mk_val (double_of 42) 42)) as Hv by (vm_compute; reflexivity).
  destruct (r_num_calc_evaluates demo_callback UB_free demo_aexp _ r_num_new (fun n => eq_refl) ltac:(cbn; repeat split; lia) Hv)
    as (s' & R & _ & Hd).
  exists s'. split; [exact R|exact Hd].
Defined.

(** Flags that are given by others: [loop] is eight after [main]. *)
Example flag_alias_ex :
  match (r_flag_set flag_math (Some "main") 0x1000 1 ;; i ← r_flag_set flag_math (Some "loop") 1 1 ;
         r_flag_item_set_alias (default 0%nat i) (Some "main+0x8") ;; r_flag_get flag_math (Some "loop"))%string r_flag_new with
  | Ok (Some i) f => fi_offset <$> fl_items f !! i = Some 0x1008
  | _ => False
  end.
Proof. vm_compute. reflexivity. Qed.

(** ** Where the grammar is not what it looks like *)

(** A number after [~] is not consumed: what comes after it is ignored. *)
Lemma calc_neg_ignores : calc0 "~5+1" = Some (u64 (Z.lnot 5)) /\ calc0 "(~5)+1" = Some (u64 (Z.lnot 5)).
Proof. split; vm_compute; reflexivity. Qed.
(** The bracket that ends a name is read again as a name of its own. *)
Lemma calc_bracket_ignores : calc0 "1+[2]+3" = calc0 "1+[2]".
Proof. vm_compute. reflexivity. Qed.
(** Two signs in a row are one token, which ends the expression. *)
Lemma calc_double_minus : calc0 "5--3" = Some 5 /\ calc0 "5- -3" = Some 8.
Proof. split; vm_compute; reflexivity. Qed.
(** The increments of a name change nothing. *)
Lemma calc_increment :
  match r_num_calc false demo_callback UB_free "x++" r_num_new with Ok (x, _) _ => x = 5 | Undef _ => False end.
Proof. vm_compute. reflexivity. Qed.
(** Subtracting one from a number adds 2^64 to its [double]. *)
Lemma calc_decrement_double :
  match r_num_calc false (fun _ => None) UB_free "--5" r_num_new with
  | Ok (x, _) s => x = 4 /\ num_fvalue s = double_of (2 ^ 64)
  | Undef _ => False
  end.
Proof. vm_compute. split; reflexivity. Qed.
(** The remainder of the doubles is none. *)
Lemma calc_mod_double :
  match r_num_calc false (fun _ => None) UB_free "7%2" r_num_new with
  | Ok (x, _) s => x = 1 /\ num_fvalue s = sscanf_lf "3.5"
  | Undef _ => False
  end.
Proof. vm_compute. split; reflexivity. Qed.
(** A text of 1024 digits is written beyond the buffer. *)
Lemma calc_number_overflows : r_num_calc false (fun _ => None) UB_free (string_of_list_ascii (repeat "1"%char 1024)) r_num_new = Undef UB_oob.
Proof. vm_compute. reflexivity. Qed.
(** [!=] never holds. *)
Definition cond0 (str : string) : option bool :=
  match r_num_conditional false (fun _ => None) UB_free str r_num_new with Ok b _ => Some b | Undef _ => None end.
Lemma cond_not_equal : cond0 "1!=2" = Some false /\ cond0 "1!=1" = Some false /\ cond0 "2==2,1<2,3>=3" = Some true.
Proof. split_and!; vm_compute; reflexivity. Qed.

(** ** Digits *)

(** The number whose digits follow those of [acc]. *)
Fixpoint base_value (b acc : Z) (s : string) : Z :=
  match s with String c s => base_value b (acc * b + (code c - 48)) s | EmptyString => acc end.

Lemma bits_loop_value num k : 0 <= num -> forall acc hasbit, (hasbit = false -> acc = 0) ->
  base_value 2 acc (bits_loop k num hasbit) = acc * 2 ^ Z.of_nat k + num mod 2 ^ Z.of_nat k.
Proof.
  intros Hnum. induction k as [|k IH]; intros acc hasbit Hacc; [cbn; rewrite Z.mod_1_r; lia|]. cbn [bits_loop].
  assert (num mod 2 ^ Z.of_nat (S k) = Z.b2z (Z.testbit num (Z.of_nat k)) * 2 ^ Z.of_nat k + num mod 2 ^ Z.of_nat k) as E.
  { rewrite Nat2Z.inj_succ, Z.pow_succ_r, (Z.mul_comm 2), Z.rem_mul_r by lia. rewrite Z.testbit_spec' by lia. lia. }
  replace (2 ^ Z.of_nat (S k)) with (2 * 2 ^ Z.of_nat k) in * by (rewrite Nat2Z.inj_succ, Z.pow_succ_r; lia).
  rewrite E. destruct (Z.testbit num (Z.of_nat k)); [rewrite orb_true_r|rewrite orb_false_r].
  - cbn [base_value]. rewrite IH by done. change (code "1" - 48) with 1. cbn [Z.b2z]. lia.
  - cbn [Z.b2z]. destruct hasbit; [cbn [base_value]; rewrite IH by done; change (code "0" - 48) with 0; lia|].
    rewrite IH by done. rewrite Hacc by done. lia.
Qed.

Lemma land_byte_zero num k : 0 <= k -> 0 <= num < 2 ^ (k + 8) -> Z.land num (Z.shiftl 255 k) = 0 -> num < 2 ^ k.
Proof.
  intros Hk Hnum H. assert (Z.land (Z.shiftr num k) 255 = 0) as E.
  { pose proof (Z.shiftr_land num (Z.shiftl 255 k) k) as E. rewrite H, Z.shiftr_0_l, Z.shiftr_shiftl_l, Z.sub_diag, Z.shiftl_0_r in E by lia. done. }
  change 255 with (Z.ones 8) in E. rewrite Z.land_ones, Z.shiftr_div_pow2 in E by lia. rewrite Z.pow_add_r in Hnum by lia.
  pose proof (Z.pow_pos_nonneg 2 k ltac:(lia) Hk). rewrite Z.mod_small in E; [apply Z.div_small_iff in E; lia|].
  split; [apply Z.div_pos; lia|apply Z.div_lt_upper_bound; lia].
Qed.

(** [r_num_to_bits] and [r_num_to_trits] write the digits of the number. *)
Lemma r_num_digits num : 0 <= num < 2 ^ 64 ->
  base_value 2 0 (snd (r_num_to_bits num)) = num /\ base_value 3 0 (r_num_to_trits num) = num.
Proof.
  intros Hnum. split.
  - assert (num < 2 ^ fst (r_num_to_bits num) /\ 0 <= fst (r_num_to_bits num)) as [Hs H0].
    { unfold r_num_to_bits. cbn [fst]. destruct (Z.eqb_spec (Z.shiftr num 32) 0) as [E|]; [|cbn; lia]. rewrite Z.shiftr_div_pow2 in E by lia.
      assert (num < 2 ^ 32) as H32 by zlia. cbn [negb].
      destruct (Z.eqb_spec (Z.land num 0xff000000) 0) as [E3|]; [|cbn; lia]. apply (land_byte_zero num 24) in E3; [|lia|lia]. cbn [negb].
      destruct (Z.eqb_spec (Z.land num 0xff0000) 0) as [E2|]; [|cbn; lia]. apply (land_byte_zero num 16) in E2; [|lia|lia]. cbn [negb].
      destruct (Z.eqb_spec (Z.land num 0xff00) 0) as [E1|]; [|cbn; lia]. apply (land_byte_zero num 8) in E1; [|lia|lia]. cbn [negb].
      destruct (Z.eqb_spec (Z.land num 0xff) 0); cbn; lia. }
    pose proof (bits_loop_value num (Z.to_nat (fst (r_num_to_bits num))) ltac:(lia) 0 false ltac:(done)) as H.
    rewrite Z2Nat.id, Z.mul_0_l, Z.add_0_l, (Z.mod_small num) in H by lia.
    revert H. unfold r_num_to_bits. cbn [fst snd]. by destruct (bits_loop _ num false).
  - unfold r_num_to_trits. assert (forall n num out, 0 <= num < 3 ^ Z.of_nat n -> base_value 3 0 (trits_loop n num out) = base_value 3 num out) as H.
    { clear. induction n as [|n IH]; intros num out Hn; [cbn in *; by replace num with 0 by lia|]. cbn [trits_loop].
      destruct (Z.eqb_spec num 0) as [->|]; [done|]. rewrite Nat2Z.inj_succ, Z.pow_succ_r in Hn by lia. rewrite IH by zlia. cbn [base_value].
      assert (code (chr (48 + num mod 3)) - 48 = num mod 3) as ->; [|f_equal; zlia].
      assert (num mod 3 = 0 \/ num mod 3 = 1 \/ num mod 3 = 2) as [-> |[-> | ->]] by zlia; reflexivity. }
    rewrite H; [done|]. assert (2 ^ 64 < 3 ^ Z.of_nat 64) by (vm_compute; reflexivity). lia.
Qed.
